(* ===== verification/_CoqProject ===== *)
-Q . S2P
Prelude.v
Utf8.v
Json.v
JsonFacts.v
Regex.v
Wire.v
Frames.v
Ndjson.v
Listeners.v
Chunk.v
Session.v
SessionFacts.v
SessionTrace.v
SessionLife.v
SessionExamples.v
NdjsonPort.v
WebSocketPort.v
WebSocketFacts.v
WebSocketEnd.v
InProcess.v
Contract.v
ContractFacts.v
Ssh.v
StreamPort.v
Spawn.v
Dial.v
Ipc.v
IpcPublish.v
IpcListener.v
MessageParts.v
Transcript.v
StreamReducer.v
Sequencer.v
TurnController.v
LiveParts.v
TranscriptFacts.v
TranscriptRuns.v
LiveReload.v
LiveTurn.v
MessagePartsFacts.v
PathContainment.v
TerminalWire.v
TerminalRelay.v
TerminalSessions.v
TerminalSessionsFacts.v
TerminalSessionsMoves.v
TerminalSeats.v
TerminalTracking.v
TerminalRevocation.v
TerminalRuns.v
TerminalSocket.v
TerminalSocketFacts.v
TerminalViewer.v
TerminalShown.v
TerminalStream.v
RuntimeManifest.v
LocalConnector.v
LocalConnectorFacts.v
ConnectionManager.v
ConnectionOwnership.v
ConnectionOwned.v
ConnectionClosed.v
ConnectionTeardown.v
ConnectionTracked.v
ConnectionShutdown.v
ConnectionBackoff.v
ConnectionLatch.v
ExternalSessions.v
ExternalSessionsFacts.v
ExternalSessionsSafety.v
IpAddress.v
IpAddressFacts.v
SafeFetch.v
SafeFetchFacts.v
Paging.v
PagingFacts.v
GalleryFacts.v
V4aPatch.v
V4aPatchFacts.v
