(* ===== verification/Prelude.v ===== *)
(** * MangoStudio: a verification development

    MangoStudio is a hub that runs coding agents on local and remote runtimes and shows
    their turns in a browser. The parts of it that carry its own logic are modelled:
    the Mango Protocol SDK ([packages/protocol/src]), over which the hub, the runtimes and
    the extensions talk; the life of an agent's turn, from the vendor's events to
    the stored message and the live view ([apps/shared], [apps/api], [apps/frontend]);
    the hub's live terminals ([apps/api/src/modules/terminals]); the hub's connections to
    its runtimes ([apps/api/src/services/runtime-client]); and its sessions with the vendors'
    agents ([apps/api/src/modules/external-agents]).

    The SDK's layers, from the wire up:

    - a frame is a JSON object of one of nine types, checked against a schema
      ([schemas/common.ts], [schemas/frames.ts]);
    - a codec turns frames into bytes: newline-delimited JSON ([codec/ndjson.ts]) or
      chunked messages with a nine-byte header ([codec/chunk.ts]), both under a
      frame limit ([codec/limits.ts]);
    - a port carries frames over one transport ([port.ts]): a byte stream
      ([transports/ndjson-port.ts]), a WebSocket ([transports/websocket.ts]) or a
      microtask queue in one process ([transports/in-process.ts]); ports are opened over
      standard streams ([node-stream.ts], [stdio.ts]), a spawned child ([spawn.ts]), a
      remote shell ([ssh.ts]), a local socket ([ipc.ts]) or a dialled WebSocket
      ([websocket-client.ts], [deadline.ts]);
    - a session runs the protocol over a port ([session.ts]): handshake, requests and
      answers, cancellation, events, liveness, closing;
    - a contract describes an application's methods once ([contract.ts],
      [schemas/catalog.ts]) and serves or calls them over a session.

    A turn of an external agent: a vendor's envelopes pass a sequencer
    ([external-event-sequencer.ts]); the controller ([external-turn-controller.ts])
    applies each event to the turn's transcript ([external-turn-transcript.ts]), which is
    what is stored, and hands it to the stream observer ([external-turn-stream.ts]), which
    projects it to a chunk ([streaming/external-events.ts]); the browser reduces the
    chunks to the message it shows ([text-generation-stream-reducer.ts]). A user steers
    the turn, answers approvals and cancels it meanwhile.

    A live terminal: the hub's registry ([terminal-session-service.ts]) decides who may
    open one, asks the runtime for it, keeps its record and its one viewer, and closes
    it; a browser's socket ([terminal-socket-routes.ts]) takes the viewer's place, replays
    the scrollback, passes the output on and the keystrokes back; the bytes travel in
    frames of their own ([terminal/wire.ts]) through a relay with backpressure
    ([terminal-socket-relay.ts]).

    A runtime's connection: the manager ([runtime-connection-manager.ts]) opens one per user
    and environment, through the connector of its transport or by adopting a runtime that
    dialled in, retries within a backoff, keeps the status a card shows, reads the health
    that says what the runtime may do ([manifest-from-health.ts]) and releases it; the
    connector of the hub's own runtime decides whom its OS account is attested to.

    A session with a vendor: before a turn is sent the hub makes sure that the chat has a session
    open on its runtime ([external-session-manager.ts]): it reuses the one it holds, resumes the
    conversation a row of the database remembers, or opens another; it closes sessions when a chat
    is reset, a consent withdrawn or the hub stopped.

    Smaller parts around them: paths are resolved through symbolic links before they
    are trusted ([workspaces/path-containment.ts], [library/machine/path-safety.ts]); a request to an
    address a user gave goes to public addresses only ([base-url-policy.ts], [safe-fetch.ts],
    [ip-address.ts]); transcripts and the gallery are read in pages ([modules/messages]); an agent's
    patch is parsed before it is applied ([_v4a-patch.ts]).

    ** Files: the protocol

    - [Prelude]: results of functions that throw ([outcome]), strings as UTF-16
      units, bytes, decimal rendering, the shared tactics and lemmas.
    - [Utf8], [Json], [JsonFacts], [Regex]: what the code uses of the language:
      [TextEncoder] and [TextDecoder], [JSON.stringify] and [JSON.parse] with their
      round trip, and regular expressions by derivatives.
    - [Wire]: [codec/limits.ts], [errors.ts], [close.ts], [version.ts] and the names of
      [schemas/common.ts].
    - [Frames]: the schemas as data, [assertFrame], frames as records and the
      correspondence between the two.
    - [Ndjson]: [codec/ndjson.ts], with the incremental [LineDecoder].
    - [Chunk]: [codec/chunk.ts], with the [ChunkReassembler].
    - [Listeners]: [listeners.ts].
    - [Session]: [session.ts] as a transition system. The record [session] has the
      class's fields; each method, timer callback, frame arrival and promise
      continuation is a function from a state to a state and the list of its
      effects; [input] has one constructor per way in, [step] runs it and
      [reachable] is every state a program can get to with the inputs it took and
      the effects it had, against ports that may answer differently every time.
      [SessionFacts] proves the invariant, [SessionTrace] what holds of whole
      histories, [SessionLife] the life of handshakes, requests, events and
      closures, [SessionExamples] runs a session and applies the theorems to it.
    - [NdjsonPort]: [transports/ndjson-port.ts]; listeners may act on the port while it
      delivers to them. The port is also given as the [port_fn] a session uses.
    - [WebSocketPort]: [transports/websocket.ts]; [WebSocketFacts] and
      [WebSocketEnd] prove its queues and its ending.
    - [InProcess]: [transports/in-process.ts] with the microtask queue.
    - [Contract], [ContractFacts]: [contract.ts] and [schemas/catalog.ts].
    - [Ssh]: [transports/ssh.ts] and [text.ts], with a reader of POSIX shell words that the
      quoting is checked against.
    - [StreamPort]: [transports/node-stream.ts] and [stdio.ts] over [NdjsonPort].
    - [Spawn]: [transports/spawn.ts]: the environment, the launcher's states, termination.
    - [Dial]: [transports/websocket-client.ts], [deadline.ts] and [connectIpc].
    - [Ipc], [IpcPublish], [IpcListener]: [transports/ipc.ts]: addresses, the
      publication of the socket file as a program of system calls, the connections.

    ** Files: the agent's turn

    - [MessageParts]: the parts of a message ([types/agent-events.ts]), events and
      envelopes ([external-agents/schemas.ts]), tool execution snapshots
      ([tool-executions]), notices, and [mergeMessageParts]; [MessagePartsFacts] proves
      the tool lifecycle and the merge.
    - [Transcript]: [ExternalTurnTranscript]; the parts are objects the class shares
      between its list and its maps, so each has an identity and is updated in place.
      [TranscriptFacts] proves the invariant, [TranscriptRuns] what holds of any run.
    - [StreamReducer]: the whole of [text-generation-stream-reducer.ts].
    - [Sequencer]: [external-event-sequencer.ts].
    - [TurnController]: the projection, the observer and the controller's handlers of a
      running turn; [hub_step] is one of them, split at every [await].
    - [LiveParts], [LiveReload], [LiveTurn]: the simulation between the transcript and
      the reduced stream: the reducer respects a relation on parts, the relation
      between what is stored and what is shown, and the diagram for each handler.

    ** Files: paths and terminals

    - [PathContainment]: [path-containment.ts], [workspaces/path.ts] and the resource paths
      of the library, over a file system of directories, files and links and the
      kernel's path walk, which is the reference.
    - [TerminalWire]: [terminal/wire.ts] with its schemas.
    - [TerminalRelay]: [terminal-socket-relay.ts]: its variables are the record [relay],
      its functions one definition each, its log what the theorems speak of.
    - [TerminalSessions]: [terminal-session-service.ts] with the errors of
      [terminal-errors.ts] and their statuses in [terminal-routes.ts]. The record [registry]
      has the service's variables; entries, reservations and calls of [open] are objects
      with an identity; each method is cut at its awaits, and [terminal_op] has one
      constructor per call and per answer, so any calls interleave.
      [TerminalSessionsFacts] shows which operations only wind things down,
      [TerminalSessionsMoves] that every operation is a sequence of eight moves that keep the
      invariant; [TerminalSeats], [TerminalTracking] and [TerminalRevocation] prove one
      property of the moves each, [TerminalRuns] applies them to concrete runs.
    - [TerminalSocket]: [terminal-socket-routes.ts] and [browser-socket-handshake.ts], as steps of a
      system of any number of sockets over one registry. [TerminalSocketFacts] follows what a
      socket asked of the runtime, [TerminalViewer] who holds a terminal, [TerminalShown] what a socket pushed
      against a log of its stream, [TerminalStream] has the theorems and a run.

    ** Files: connections to runtimes

    - [RuntimeManifest]: the manifest ([runtime-contract/manifest.ts], [implementation.ts]), the
      one rebuilt from a health report ([manifest-from-health.ts]) and the hub's isolation
      claim ([hub-session.ts]).
    - [LocalConnector]: [createLocalRuntimeConnector]: attempts behind a chain, each cut at its
      awaits; [LocalConnectorFacts] proves who can hold an attestation.
    - [ConnectionManager]: [RuntimeConnectionManager]. The record [manager] has the class's
      fields and the calls under way; an attempt, a connection, a release and a refresh are
      numbered; [manager_op] has one constructor per call, answer, timer and callback, and
      [manager_step] runs it.
    - [ConnectionOwnership], [ConnectionOwned], [ConnectionClosed]: who owns a connection, on a
      smaller state of its own and the moves the operations make on it.
    - [ConnectionTeardown], [ConnectionTracked], [ConnectionShutdown]: what a release waits for, and
      what holds once the manager has shut down.
    - [ConnectionBackoff], [ConnectionLatch]: how failures account for the calls of a connector.

    ** Files: sessions with vendors

    - [ExternalSessions]: [createExternalSessionManager] of [external-session-manager.ts], the rows of its two
      repositories and [external-resume-policy.ts]. The record [session_manager] has the closure's
      maps, the rows and the calls under way; session records, calls of [ensureSession] and reaps are
      numbered, each function is cut at its awaits, [session_op] has one constructor per call, answer,
      event and timer and [session_step] runs it, so any calls interleave.
    - [ExternalSessionsFacts]: the invariant that says who owns a session the runtime has opened, and that every step
      keeps it. [ExternalSessionsSafety]: the theorems, their witnesses and the runs that show where the code
      loses a session or misses a revocation.

    ** Files: addresses, pages and patches

    - [IpAddress], [IpAddressFacts]: [ip-address.ts]; the reference is the grammar of the two address families
      and the list of blocks.
    - [SafeFetch], [SafeFetchFacts]: [base-url-policy.ts] with its cache and [safe-fetch.ts]; the log of a fetch
      says which requests were made and which bodies released.
    - [Paging], [PagingFacts], [GalleryFacts]: the cursors of [modules/messages/domain], [listByChatId],
      [list-gallery.ts] and the queries of its two tables, as filters, sorts and limits over rows; the
      client that asks for page after page is a loop over them.
    - [V4aPatch], [V4aPatchFacts]: [_v4a-patch.ts]; the reference is a grammar of lines.

    ** What the theorems show

    - Codecs: what is encoded decodes to the same frames in order, wherever the
      stream is cut; a frame with an undefined payload is written without it, and the decoder refuses
      it and ends there; decoders and reassemblers hold no more than their limit; messages
      and chunk counts are bounded.
    - Sessions: the state invariant; every request of the peer is answered at most
      once, and exactly once unless the port throws at the answer, which drops it; every promise of [request] is settled, waiting or pending under one id, and
      settled for good; ids and event numbers never repeat; nothing above the agreed
      limit is sent; a handshake ends by its deadline and a silent peer is dropped;
      both ends of a handshake agree; a closed session is final, silent and empty.
    - Ports: first in first out, one closure reported once, the sink ended once,
      bounded queues, [send] keeps its contract; a read delivered on a later turn keeps its
      place, and streams are released once.
    - Contracts: parameters are checked before the guard and the guard before the
      handler; [serve] and its remover; catalogs of accepted definitions.
    - Transports: the remote shell reads the launch command as the words it was built
      from; a child inherits no secret-shaped variable; termination ends within its
      waits and escalates only after them; dialling settles once and leaves no timer; the
      socket file is private before it is public, and publishing ends whatever the file
      system answers; connections stay within their limit.
    - Turns: the stored record refines the live view ([record_refines_live_view]); the
      record stays within its budget; an ended record is closed for good; a redelivered
      envelope is applied once, and an idempotency key once within its window; a tool call's first terminal status is final.
    - Paths: resolution is the kernel's walk of the path once its text is normalised, and of the path itself when it
      is plain, so containment means containment, for links with plain targets;
      [link_dotdot_escapes], [input_dotdot_escapes] and [trailing_slash_dropped] show paths that are not.
    - Terminals: both codecs round-trip, and accept exactly the frames of their messages; the relay accounts
      for every frame pushed while it is open and for every byte it discards, stays within its queue and closes once, by its deadline.
      Concurrent opens never exceed a user's limit; a terminal that may run on a runtime is
      never forgotten; a withdrawn consent ends terminals for good, those being opened too.
      A viewer is pushed the scrollback and then all output that came since the attach was sent, in order; its keystrokes arrive in
      order and wait within a bound; only the viewer of a terminal touches its stream, and
      the first viewer of a login terminal cannot be displaced by another.
    - Connections: a delivered connection is held by one entry or closed, once
      ([connections_owned_once]); once a shutdown has resolved, every opener has answered and
      everything it delivered is closed ([shutdown_complete]); a runtime that dies on arrival is launched at most five
      times ([crash_loop_bounded]); the hub's OS account is never attested to two users at a
      time ([attestation_exclusive]); a manifest rebuilt from health offers a capability
      exactly when the report consents to it and, for git, has it, and the peer's descriptor or hello leaves it open
      ([rebuilt_manifest_exact]).
    - Sessions with vendors: for every session the runtime has opened exactly one party is responsible, and it is
      asked to close once or, if the database fails, lost ([vendor_sessions_accounted]); after a revocation no session of the
      scope is live until one is asked for again ([revocation_is_final], with the calls it misses as examples); a
      conversation is resumed only for the binding it was opened or adopted under ([conversations_are_not_shared]).
    - Outbound requests: the classifier of addresses is exactly the grammar and the blocks
      ([public_addresses_exact]); every request of a fetch goes to an https URL whose address, or every address its name was judged by for that
      request, is public (the connection resolves the name again, which [safe-fetch.ts] says of DNS rebinding);
      requests and bytes are bounded ([fetch_is_guarded]).
    - Pages: reading page after page ends and gives every row once and in order, in the fewest full pages, for a transcript in both
      directions ([transcript_paged_whole]) and for the gallery merged from two tables ([gallery_paged_whole]).
    - Patches: the parser accepts exactly the documents of the grammar ([patch_read_exactly]).

    ** Parameters, bounds and fuel

    What is not the program's own code is a parameter. [TypeBox] (class) checks schemas and
    counts characters: its laws are the JSON Schema meaning of the keywords used and
    that a count is at most the number of UTF-16 units and equal to it for printable
    ASCII. [randomId] draws the ids of terminals, no id twice where a theorem says so. [JsonEngine] gives the text of a syntax error, [SchemaEngine] the
    application's own schemas, [CaseMapping] (class) the upper case of a name, [LowerMapping] (class) the lower case of an address. The URL parser of a
    guarded fetch is a function whose texts parse to themselves, the resolver and the network are functions of the state of the run. A port, a
    byte sink, a writable stream, a socket, the answers of the system calls and
    [structuredClone] are functions or inputs, and so are the answers of a browser's
    socket, of a connector and of the environment's resolver; a [FileSystem] is any tree of entries. Each has a concrete instance in the witnesses.
    The byte length the controller charges for an event comes with the event.

    Integers are unbounded where the code's stay below 2^53; the chunk header's
    32-bit fields are written with their wrap-around. The fuel of [JSON.parse] is twice
    the length of the text and [parse_stringify] shows it is enough; the fuel of the
    digit, close-reason and arrival loops is their measure; a client that pages needs one request more than
    there are rows, and the main loop of the patch parser no more rounds than lines, which the theorems show by giving the result. The loops of the socket
    publication are bounded by the candidates of the code, and [binding_terminates]
    shows that a program of system calls ends after boundedly many answers.

    Subscribers are the program's code: calling one is an effect, what it does is a
    later input (in the NDJSON and WebSocket ports, an operation performed while the
    port delivers). They do not throw, except in [Listeners]. Effects of the loops over
    the session's maps are listed in the order of the finite maps used here. In the
    application, fractional numbers are decimals and object keys exclude the
    names every object inherits. Tables do not change while a client pages.

    [record_refines_live_view] is about smooth runs, a condition [LiveTurn] defines as a
    boolean: activity and approval keys are new, one steer is in flight at a time, stays
    within the budget and is written, and neither a move to another session nor the
    settling of the turn overtakes a steer. The examples after it show what happens with
    repeated keys, two steers in flight and a steer that crosses the budget.

    ** Not modelled

    Starting a turn (preflight, submission) and the writes of the
    database in [external-turn-controller.ts]; of the sessions with vendors the configuration and toolchain a
    session is opened with and the calls that are passed on to the runtime; the bounding and redaction of vendor text
    ([vendor-text.ts]); the client of one runtime connection ([runtime-client.ts]), its handshake
    and the connectors that start processes or dial; the shared
    helpers [git/diff-parser.ts] and [todos/helpers.ts]; the runtime, which applies patches, and the queries that only write or list
    messages. In the terminal
    sockets, a close event inside a step (a send that closes its socket) and the base64 of the
    bytes in JSON. In the connection manager, hooks and closes that call back into it before
    they return, the texts of errors, and the discovery cache, which it only notifies. Left aside: the conformance harness
    ([testing]), HTTP routes, database access and provider calls of [apps/api], React
    views, translations and the installer, which are input and output around this logic. *)

From stdpp Require Export base gmap list strings.
From Stdlib Require Export ZArith Lia.
From Stdlib Require Ascii String.

Declare Scope mango_scope.
Delimit Scope mango_scope with mango.
Global Open Scope Z_scope.
Global Open Scope mango_scope.
Global Set Warnings "-notation-overridden".

(** ** Results

    A function that returns or throws. [Err] is the thrown value. *)

Inductive outcome (E A : Type) : Type :=
| Ok (a : A)
| Err (e : E).
Arguments Ok {E A} a.
Arguments Err {E A} e.

Global Instance outcome_ret {E} : MRet (outcome E) := fun A a => Ok a.
Global Instance outcome_bind {E} : MBind (outcome E) := fun A B f o =>
  match o with Ok a => f a | Err e => Err e end.

Global Instance outcome_fmap {E} : FMap (outcome E) := fun A B f o =>
  match o with Ok a => Ok (f a) | Err e => Err e end.

Definition is_ok {E A} (o : outcome E A) : bool :=
  match o with Ok _ => true | Err _ => false end.

Definition ok_of {E A} (o : outcome E A) : option A :=
  match o with Ok a => Some a | Err _ => None end.

(** A caught throw replaced by a fallback: [try { o } catch { h e }]. *)
Definition catch {E F A} (o : outcome E A) (h : E -> outcome F A) : outcome F A :=
  match o with Ok a => Ok a | Err e => h e end.

Lemma bind_ok {E A B} (o : outcome E A) (f : A -> outcome E B) b :
  o ≫= f = Ok b <-> exists a, o = Ok a /\ f a = Ok b.
Proof. destruct o; cbn; naive_solver auto. Qed.

Lemma bind_err {E A B} (o : outcome E A) (f : A -> outcome E B) e :
  o ≫= f = Err e <-> o = Err e \/ exists a, o = Ok a /\ f a = Err e.
Proof. destruct o; cbn; naive_solver auto. Qed.

(** ** Strings and bytes

    A JavaScript string is a sequence of UTF-16 code units, a byte string a
    sequence of integers below 256. Both are lists of [Z]. *)

Abbreviation jstring := (list Z).
Abbreviation bytes := (list Z).

Definition is_byte (b : Z) : Prop := 0 <= b < 256.
Definition is_unit (u : Z) : Prop := 0 <= u < 65536.

(** A string literal of the source, whose characters are all ASCII. *)
Fixpoint js (s : string) : jstring :=
  match s with
  | String.EmptyString => []
  | String.String c rest => Z.of_N (Ascii.N_of_ascii c) :: js rest
  end.

(** Length of a string, of bytes or of an array, as a JavaScript number. *)
Definition zlen {A} (l : list A) : Z := Z.of_nat (length l).

Lemma zlen_nil {A} : zlen (@nil A) = 0.
Proof. reflexivity. Qed.

Lemma zlen_cons {A} (x : A) l : zlen (x :: l) = 1 + zlen l.
Proof. unfold zlen; cbn; lia. Qed.

Lemma zlen_app {A} (l k : list A) : zlen (l ++ k) = zlen l + zlen k.
Proof. unfold zlen; rewrite length_app; lia. Qed.

Lemma zlen_nonneg {A} (l : list A) : 0 <= zlen l.
Proof. unfold zlen; lia. Qed.

Lemma zlen_zero {A} (l : list A) : zlen l = 0 -> l = [].
Proof. destruct l; [done|]. rewrite zlen_cons. pose proof (zlen_nonneg l). lia. Qed.

Global Hint Rewrite @zlen_nil @zlen_cons @zlen_app : zlen.

(** ** Decimal digits

    Digit values of a nonnegative integer, most significant first. *)

Fixpoint digits_fuel (fuel : nat) (n : Z) : list Z :=
  match fuel with
  | O => []
  | S f => if n <? 10 then [n] else digits_fuel f (n / 10) ++ [n mod 10]
  end.

Definition digits (n : Z) : list Z := digits_fuel (S (Z.to_nat (Z.log2 n))) n.

Definition digits_value (ds : list Z) : Z := fold_left (fun a d => 10 * a + d) ds 0.

(** Decimal rendering of an integer, as [String(n)] or a template literal does. *)
Definition dec (z : Z) : jstring :=
  if z <? 0 then js "-" ++ map (Z.add 48) (digits (- z))
  else map (Z.add 48) (digits z).

Lemma digits_value_snoc ds d : digits_value (ds ++ [d]) = 10 * digits_value ds + d.
Proof. unfold digits_value; by rewrite fold_left_app. Qed.

Lemma digits_fuel_value f n : 0 <= n < 10 ^ Z.of_nat f -> digits_value (digits_fuel f n) = n.
Proof.
  revert n; induction f as [|f IH]; intros n Hn.
  - change (Z.of_nat 0) with 0 in Hn. rewrite Z.pow_0_r in Hn. cbn. lia.
  - cbn [digits_fuel]. destruct (Z.ltb_spec n 10); [cbn; lia|].
    rewrite digits_value_snoc, IH.
    + pose proof (Z.div_mod n 10). lia.
    + rewrite Nat2Z.inj_succ, Z.pow_succ_r in Hn by lia.
      split; [apply Z.div_pos; lia|apply Z.div_lt_upper_bound; lia].
Qed.

Lemma log2_fuel n : 0 <= n -> n < 10 ^ Z.of_nat (S (Z.to_nat (Z.log2 n))).
Proof.
  intros Hn. rewrite Nat2Z.inj_succ, Z2Nat.id by apply Z.log2_nonneg.
  assert (n < 2 ^ Z.succ (Z.log2 n)) as Hlt.
  { destruct (Z.eq_dec n 0) as [->|]; [done|]. apply Z.log2_spec; lia. }
  eapply Z.lt_le_trans; [exact Hlt|].
  apply Z.pow_le_mono_l; pose proof (Z.log2_nonneg n); lia.
Qed.

Lemma digits_value_digits n : 0 <= n -> digits_value (digits n) = n.
Proof. intros Hn. apply digits_fuel_value. split; [done|by apply log2_fuel]. Qed.

Definition is_digit (d : Z) : Prop := 0 <= d <= 9.

Lemma digits_fuel_digits f n : 0 <= n -> Forall is_digit (digits_fuel f n).
Proof.
  revert n; induction f as [|f IH]; intros n Hn; cbn; [constructor|].
  destruct (Z.ltb_spec n 10).
  - repeat constructor; unfold is_digit; lia.
  - apply Forall_app; split; [apply IH, Z.div_pos; lia|].
    repeat constructor; unfold is_digit; pose proof (Z.mod_pos_bound n 10); lia.
Qed.

Lemma digits_digits n : 0 <= n -> Forall is_digit (digits n).
Proof. apply digits_fuel_digits. Qed.

Lemma digits_nonempty n : digits n <> [].
Proof. unfold digits; cbn. destruct (n <? 10); [done|]. by intros [_ ?]%app_nil. Qed.

(** Two nonnegative integers with the same decimal rendering are the same. *)
Lemma dec_inj a b : 0 <= a -> 0 <= b -> dec a = dec b -> a = b.
Proof.
  intros Ha Hb. unfold dec.
  destruct (Z.ltb_spec a 0), (Z.ltb_spec b 0); try lia. intros Hd.
  rewrite <- (digits_value_digits a), <- (digits_value_digits b) by done. f_equal.
  revert Hd. generalize (digits a) (digits b). intros l. induction l as [|x l IH]; intros [|y k]; try done.
  cbn. intros [= Hxy Hl]. f_equal; [lia|auto].
Qed.

(** ** Tactics *)

(** Case analysis on the scrutinee of a [match] or [if] in the goal. *)
Ltac break_match :=
  match goal with
  | |- context [match ?x with _ => _ end] =>
      lazymatch x with
      | context [match _ with _ => _ end] => fail
      | _ => let E := fresh "E" in destruct x eqn:E
      end
  end.

(** The same in a hypothesis. *)
Ltac break_match_hyp H :=
  match type of H with
  | context [match ?x with _ => _ end] =>
      lazymatch x with
      | context [match _ with _ => _ end] => fail
      | _ => let E := fresh "E" in destruct x eqn:E
      end
  end.

(** Turns the boolean comparisons of the model into linear arithmetic. *)
Ltac bool_to_prop :=
  repeat match goal with
  | H : andb _ _ = true |- _ => apply andb_true_iff in H as [? ?]
  | H : orb _ _ = false |- _ => apply orb_false_iff in H as [? ?]
  | H : negb _ = true |- _ => apply negb_true_iff in H
  | H : negb _ = false |- _ => apply negb_false_iff in H
  | H : (_ =? _)%Z = true |- _ => apply Z.eqb_eq in H
  | H : (_ =? _)%Z = false |- _ => apply Z.eqb_neq in H
  | H : (_ <? _)%Z = true |- _ => apply Z.ltb_lt in H
  | H : (_ <? _)%Z = false |- _ => apply Z.ltb_ge in H
  | H : (_ <=? _)%Z = true |- _ => apply Z.leb_le in H
  | H : (_ <=? _)%Z = false |- _ => apply Z.leb_gt in H
  | H : bool_decide _ = true |- _ => apply bool_decide_eq_true in H
  | H : bool_decide _ = false |- _ => apply bool_decide_eq_false in H
  end.

(** Evaluates string literals, and comparisons of integer literals. *)
Ltac eval_literals :=
  repeat match goal with
  | |- context [js ?s] => let v := eval vm_compute in (js s) in change (js s) with v
  end.

Ltac is_literal z := lazymatch z with Z0 => idtac | Zpos _ => idtac | Zneg _ => idtac end.

Ltac eval_tests :=
  repeat match goal with
  | |- context [(?a =? ?b)%Z] =>
      is_literal a; is_literal b;
      let r := eval vm_compute in (a =? b)%Z in
      lazymatch r with
      | true => change (a =? b)%Z with true
      | false => change (a =? b)%Z with false
      end
  | |- context [(?a <? ?b)%Z] =>
      is_literal a; is_literal b;
      let r := eval vm_compute in (a <? b)%Z in
      lazymatch r with
      | true => change (a <? b)%Z with true
      | false => change (a <? b)%Z with false
      end
  | |- context [(?a <=? ?b)%Z] =>
      is_literal a; is_literal b;
      let r := eval vm_compute in (a <=? b)%Z in
      lazymatch r with
      | true => change (a <=? b)%Z with true
      | false => change (a <=? b)%Z with false
      end
  end.

(** Linear arithmetic about lengths of concatenations. *)
Ltac zlia := autorewrite with zlen in *; unfold zlen in *; lia.

Create HintDb mango.
Global Hint Resolve zlen_nonneg digits_digits : mango.
