(* ===== verification/Utf8.v ===== *)
(** * UTF-16 strings and UTF-8 bytes

    [TextEncoder] and [TextDecoder] as the codecs use them: the encoder
    replaces a lone surrogate with U+FFFD, the decoder runs the WHATWG
    algorithm and replaces every maximal invalid run with U+FFFD, and
    [ignoreBOM: true] keeps a leading U+FEFF in the output. *)

From S2P Require Import Prelude.

(** ** Code points of a UTF-16 string *)

Definition is_high (u : Z) : bool := (0xD800 <=? u) && (u <=? 0xDBFF).
Definition is_low (u : Z) : bool := (0xDC00 <=? u) && (u <=? 0xDFFF).

Definition REPLACEMENT : Z := 0xFFFD.

(** A scalar value: a code point that is not a surrogate. *)
Definition is_scalar (c : Z) : Prop := 0 <= c < 0xD800 \/ 0xE000 <= c < 0x110000.

Fixpoint code_points (s : jstring) : list Z :=
  match s with
  | [] => []
  | u :: rest =>
      if is_high u then
        match rest with
        | l :: rest' =>
            if is_low l
            then 0x10000 + (u - 0xD800) * 1024 + (l - 0xDC00) :: code_points rest'
            else REPLACEMENT :: code_points rest
        | [] => [REPLACEMENT]
        end
      else if is_low u then REPLACEMENT :: code_points rest
      else u :: code_points rest
  end.

Definition units_of (c : Z) : jstring :=
  if c <? 0x10000 then [c]
  else [0xD800 + (c - 0x10000) / 1024; 0xDC00 + (c - 0x10000) mod 1024].

(** Well-formed UTF-16: every surrogate is part of a pair. *)
Definition well_formed (s : jstring) : Prop :=
  exists cs, Forall is_scalar cs /\ s = concat (map units_of cs).

(** ** [TextEncoder] *)

Definition utf8_of (c : Z) : bytes :=
  if c <? 0x80 then [c]
  else if c <? 0x800 then [0xC0 + c / 64; 0x80 + c mod 64]
  else if c <? 0x10000 then [0xE0 + c / 4096; 0x80 + c / 64 mod 64; 0x80 + c mod 64]
  else [0xF0 + c / 262144; 0x80 + c / 4096 mod 64; 0x80 + c / 64 mod 64; 0x80 + c mod 64].

Definition utf8_encode (s : jstring) : bytes := concat (map utf8_of (code_points s)).

(** ** [TextDecoder] *)

Inductive dstate : Type :=
| Idle
| Cont (needed : nat) (cp lower upper : Z).

(** The reaction of the decoder to a byte at a character boundary. *)
Definition utf8_lead (b : Z) : list Z * dstate :=
  if b <=? 0x7F then ([b], Idle)
  else if (0xC2 <=? b) && (b <=? 0xDF) then ([], Cont 0 (b - 0xC0) 0x80 0xBF)
  else if (0xE0 <=? b) && (b <=? 0xEF) then
    ([], Cont 1 (b - 0xE0) (if b =? 0xE0 then 0xA0 else 0x80) (if b =? 0xED then 0x9F else 0xBF))
  else if (0xF0 <=? b) && (b <=? 0xF4) then
    ([], Cont 2 (b - 0xF0) (if b =? 0xF0 then 0x90 else 0x80) (if b =? 0xF4 then 0x8F else 0xBF))
  else ([REPLACEMENT], Idle).

(** One byte. An invalid continuation emits U+FFFD and is read again as a lead. *)
Definition utf8_step (st : dstate) (b : Z) : list Z * dstate :=
  match st with
  | Idle => utf8_lead b
  | Cont needed cp lower upper =>
      if (lower <=? b) && (b <=? upper) then
        let cp' := cp * 64 + (b - 0x80) in
        match needed with
        | O => ([cp'], Idle)
        | S n => ([], Cont n cp' 0x80 0xBF)
        end
      else let '(out, st') := utf8_lead b in (REPLACEMENT :: out, st')
  end.

Fixpoint utf8_run (st : dstate) (bs : bytes) : list Z :=
  match bs with
  | [] => match st with Idle => [] | Cont _ _ _ _ => [REPLACEMENT] end
  | b :: rest => let '(out, st') := utf8_step st b in out ++ utf8_run st' rest
  end.

Definition utf8_decode (bs : bytes) : jstring := concat (map units_of (utf8_run Idle bs)).

(** [new TextDecoder().decode]: a leading byte order mark is dropped. *)
Definition decode_text (b : bytes) : jstring :=
  match utf8_decode b with 0xFEFF :: rest => rest | s => s end.

(** ** Encoding then decoding *)

Ltac decide_tests :=
  repeat match goal with
  | |- context [(?a <=? ?b)%Z] =>
      first [ rewrite (proj2 (Z.leb_le a b)) by lia | rewrite (proj2 (Z.leb_gt a b)) by lia ]
  | |- context [(?a <? ?b)%Z] =>
      first [ rewrite (proj2 (Z.ltb_lt a b)) by lia | rewrite (proj2 (Z.ltb_ge a b)) by lia ]
  | |- context [(?a =? ?b)%Z] =>
      first [ rewrite (proj2 (Z.eqb_eq a b)) by lia | rewrite (proj2 (Z.eqb_neq a b)) by lia ]
  end.

Lemma run_two c rest :
  0x80 <= c < 0x800 ->
  utf8_run Idle ([0xC0 + c / 64; 0x80 + c mod 64] ++ rest) = c :: utf8_run Idle rest.
Proof.
  intros Hc. pose proof (Z.div_mod c 64). pose proof (Z.mod_pos_bound c 64).
  cbn -[Z.add Z.sub Z.mul]. unfold utf8_lead. decide_tests. cbn -[Z.add Z.sub Z.mul].
  decide_tests. cbn -[Z.add Z.sub Z.mul]. f_equal. lia.
Qed.

Lemma run_three c rest :
  0x800 <= c < 0x10000 -> is_scalar c ->
  utf8_run Idle ([0xE0 + c / 4096; 0x80 + c / 64 mod 64; 0x80 + c mod 64] ++ rest)
  = c :: utf8_run Idle rest.
Proof.
  intros Hc Hs. unfold is_scalar in Hs.
  assert (c / 4096 = c / 64 / 64) as -> by (rewrite Z.div_div by lia; reflexivity).
  pose proof (Z.div_mod c 64). pose proof (Z.mod_pos_bound c 64).
  pose proof (Z.div_mod (c / 64) 64). pose proof (Z.mod_pos_bound (c / 64) 64).
  set (x := c / 64) in *. set (y := x / 64) in *. clearbody y. clearbody x.
  set (m := c mod 64) in *. set (k := x mod 64) in *. clearbody k m.
  cbn -[Z.add Z.sub Z.mul]. unfold utf8_lead. decide_tests. cbn -[Z.add Z.sub Z.mul].
  assert ((if 224 + y =? 224 then 160 else 128) <= 128 + k) as Hlo.
  { destruct (Z.eqb_spec (224 + y) 224); lia. }
  assert (128 + k <= (if 224 + y =? 237 then 159 else 191)) as Hhi.
  { destruct (Z.eqb_spec (224 + y) 237); lia. }
  rewrite (proj2 (Z.leb_le _ _) Hlo), (proj2 (Z.leb_le _ _) Hhi).
  cbn -[Z.add Z.sub Z.mul]. decide_tests. cbn -[Z.add Z.sub Z.mul]. f_equal. lia.
Qed.

Lemma run_four c rest :
  0x10000 <= c < 0x110000 ->
  utf8_run Idle
    ([0xF0 + c / 262144; 0x80 + c / 4096 mod 64; 0x80 + c / 64 mod 64; 0x80 + c mod 64] ++ rest)
  = c :: utf8_run Idle rest.
Proof.
  intros Hc.
  assert (c / 262144 = c / 64 / 64 / 64) as -> by (rewrite !Z.div_div by lia; reflexivity).
  assert (c / 4096 = c / 64 / 64) as -> by (rewrite Z.div_div by lia; reflexivity).
  pose proof (Z.div_mod c 64). pose proof (Z.mod_pos_bound c 64).
  pose proof (Z.div_mod (c / 64) 64). pose proof (Z.mod_pos_bound (c / 64) 64).
  pose proof (Z.div_mod (c / 64 / 64) 64). pose proof (Z.mod_pos_bound (c / 64 / 64) 64).
  set (x := c / 64) in *. set (y := x / 64) in *. set (z := y / 64) in *.
  clearbody z. set (j := y mod 64) in *. clearbody j. clearbody y.
  set (k := x mod 64) in *. clearbody k. clearbody x. set (m := c mod 64) in *. clearbody m.
  cbn -[Z.add Z.sub Z.mul]. unfold utf8_lead. decide_tests. cbn -[Z.add Z.sub Z.mul].
  assert ((if 240 + z =? 240 then 144 else 128) <= 128 + j) as Hlo.
  { destruct (Z.eqb_spec (240 + z) 240); lia. }
  assert (128 + j <= (if 240 + z =? 244 then 143 else 191)) as Hhi.
  { destruct (Z.eqb_spec (240 + z) 244); lia. }
  rewrite (proj2 (Z.leb_le _ _) Hlo), (proj2 (Z.leb_le _ _) Hhi).
  cbn -[Z.add Z.sub Z.mul]. decide_tests. cbn -[Z.add Z.sub Z.mul].
  decide_tests. cbn -[Z.add Z.sub Z.mul]. f_equal. lia.
Qed.

(** The decoder reads back one scalar value and is at a boundary again. *)
Lemma run_scalar c rest :
  is_scalar c -> utf8_run Idle (utf8_of c ++ rest) = c :: utf8_run Idle rest.
Proof.
  intros Hs. assert (0 <= c < 0x110000) as Hr by (unfold is_scalar in Hs; lia).
  unfold utf8_of.
  destruct (Z.ltb_spec c 0x80).
  { cbn -[Z.add]. unfold utf8_lead. decide_tests. done. }
  destruct (Z.ltb_spec c 0x800); [apply run_two; lia|].
  destruct (Z.ltb_spec c 0x10000); [apply run_three; [lia|done]|apply run_four; lia].
Qed.

Lemma run_scalars cs rest :
  Forall is_scalar cs ->
  utf8_run Idle (concat (map utf8_of cs) ++ rest) = cs ++ utf8_run Idle rest.
Proof.
  induction 1 as [|c cs Hc _ IH]; [done|].
  cbn [map concat]. rewrite <- app_assoc, run_scalar by done. cbn. by rewrite IH.
Qed.

Lemma code_points_units c rest :
  is_scalar c -> code_points (units_of c ++ rest) = c :: code_points rest.
Proof.
  intros Hs. unfold units_of. destruct (Z.ltb_spec c 0x10000).
  - cbn. unfold is_high, is_low, is_scalar in *.
    replace ((0xD800 <=? c) && (c <=? 0xDBFF)) with false by (symmetry; lia).
    replace ((0xDC00 <=? c) && (c <=? 0xDFFF)) with false by (symmetry; lia). done.
  - cbn -[Z.add Z.sub Z.mul]. unfold is_high, is_low, is_scalar in *.
    pose proof (Z.div_mod (c - 0x10000) 1024). pose proof (Z.mod_pos_bound (c - 0x10000) 1024).
    set (q := (c - 0x10000) / 1024) in *. set (r := (c - 0x10000) mod 1024) in *.
    clearbody q r. decide_tests. cbn -[Z.add Z.sub Z.mul]. f_equal. lia.
Qed.

Lemma code_points_concat cs :
  Forall is_scalar cs -> code_points (concat (map units_of cs)) = cs.
Proof.
  induction 1 as [|c cs Hc _ IH]; [done|].
  cbn [map concat]. by rewrite code_points_units, IH.
Qed.

(** [new TextDecoder().decode(new TextEncoder().encode(s)) = s] for well-formed [s]. *)
Lemma utf8_roundtrip s : well_formed s -> utf8_decode (utf8_encode s) = s.
Proof.
  intros (cs & Hcs & ->). unfold utf8_decode, utf8_encode.
  rewrite code_points_concat by done.
  pose proof (run_scalars cs [] Hcs) as Hr. rewrite !app_nil_r in Hr. by rewrite Hr.
Qed.

Lemma utf8_encode_concat cs :
  Forall is_scalar cs -> utf8_encode (concat (map units_of cs)) = concat (map utf8_of cs).
Proof. intros Hcs. unfold utf8_encode. by rewrite code_points_concat. Qed.

(** ** ASCII fragments *)

Lemma ascii_scalar c : 0 <= c < 0x80 -> is_scalar c.
Proof. unfold is_scalar; lia. Qed.

Lemma units_of_ascii c : 0 <= c < 0x80 -> units_of c = [c].
Proof. intros. unfold units_of. by decide_tests. Qed.

Lemma well_formed_nil : well_formed [].
Proof. exists []. by split. Qed.

Lemma well_formed_app s t : well_formed s -> well_formed t -> well_formed (s ++ t).
Proof.
  intros (cs & Hcs & ->) (ds & Hds & ->). exists (cs ++ ds).
  split; [by apply Forall_app|]. by rewrite map_app, concat_app.
Qed.

Lemma well_formed_ascii s : Forall (fun c => 0 <= c < 0x80) s -> well_formed s.
Proof.
  induction 1 as [|c s Hc _ (cs & Hcs & ->)]; [apply well_formed_nil|].
  exists (c :: cs). split; [constructor; [by apply ascii_scalar|done]|].
  cbn [map concat]. by rewrite units_of_ascii.
Qed.

(** Every byte the encoder writes is a byte, and a line feed byte is a line
    feed character. *)
Ltac utf8_cases c :=
  unfold utf8_of; destruct (Z.ltb_spec c 0x80);
  [|destruct (Z.ltb_spec c 0x800); [|destruct (Z.ltb_spec c 0x10000)]].

Lemma utf8_of_bytes c : is_scalar c -> Forall is_byte (utf8_of c).
Proof.
  intros Hs. unfold is_scalar in Hs.
  pose proof (Z.mod_pos_bound c 64). pose proof (Z.mod_pos_bound (c / 64) 64).
  pose proof (Z.mod_pos_bound (c / 4096) 64).
  utf8_cases c; repeat constructor; unfold is_byte; Z.to_euclidean_division_equations; lia.
Qed.

Lemma utf8_of_small c b : is_scalar c -> b ∈ utf8_of c -> b < 0x80 -> b = c.
Proof.
  intros Hs Hb Hlt. unfold is_scalar in Hs. revert Hb.
  pose proof (Z.mod_pos_bound c 64). pose proof (Z.mod_pos_bound (c / 64) 64).
  pose proof (Z.mod_pos_bound (c / 4096) 64).
  utf8_cases c; rewrite ?elem_of_cons, elem_of_nil; intros Hb;
    Z.to_euclidean_division_equations; lia.
Qed.

Lemma utf8_concat_small cs b :
  Forall is_scalar cs -> b ∈ concat (map utf8_of cs) -> b < 0x80 -> b ∈ cs.
Proof.
  induction 1 as [|c cs Hc _ IH]; cbn [map concat]; intros Hb Hlt; [by apply elem_of_nil in Hb|].
  apply elem_of_app in Hb as [Hb|Hb].
  - apply utf8_of_small in Hb as ->; [by left|done|done].
  - right. auto.
Qed.

Lemma units_of_small cs b : Forall is_scalar cs -> b ∈ cs -> b < 0x80 -> b ∈ concat (map units_of cs).
Proof.
  intros Hcs Hb Hlt. induction Hcs as [|c cs Hc Hcs IH]; [by apply elem_of_nil in Hb|].
  cbn [map concat]. apply elem_of_app. apply elem_of_cons in Hb as [->|Hb].
  - left. rewrite units_of_ascii by (unfold is_scalar in Hc; lia). by left.
  - right. auto.
Qed.

(** A byte below 128 in the encoding of a well-formed string is one of its characters. *)
Lemma utf8_encode_small s b :
  well_formed s -> b ∈ utf8_encode s -> b < 0x80 -> b ∈ s.
Proof.
  intros (cs & Hcs & ->) Hb Hlt. rewrite utf8_encode_concat in Hb by done.
  apply units_of_small; [done| |done]. by apply utf8_concat_small.
Qed.
