(* ===== verification/Json.v ===== *)
(** * JSON values and JSON text

    [JSON.stringify] without an indent argument and [JSON.parse], as ECMAScript
    defines them. A number is held as the decimal its shortest spelling
    denotes: a sign, the significant digits and a power of ten, so the printer
    and the parser work on digits and no rounding is involved. An object is the
    list of its members in enumeration order. *)

From S2P Require Import Prelude Utf8.

Record number : Type := Num { neg : bool; sig : list Z; expo : Z }.

Global Instance number_eq_dec : EqDecision number.
Proof. solve_decision. Defined.

Inductive json : Type :=
| JNull
| JBool (b : bool)
| JNum (n : number)
| JStr (s : jstring)
| JArr (vs : list json)
| JObj (kvs : list (jstring * json)).

Section JsonInd.
Variable P : json -> Prop.
Hypothesis Hnull : P JNull.
Hypothesis Hbool : forall b, P (JBool b).
Hypothesis Hnum : forall n, P (JNum n).
Hypothesis Hstr : forall s, P (JStr s).
Hypothesis Harr : forall vs, Forall P vs -> P (JArr vs).
Hypothesis Hobj : forall kvs, Forall (fun kv => P kv.2) kvs -> P (JObj kvs).

Fixpoint json_nested_ind (v : json) : P v :=
  match v with
  | JNull => Hnull
  | JBool b => Hbool b
  | JNum n => Hnum n
  | JStr s => Hstr s
  | JArr vs =>
      Harr vs ((fix go l : Forall P l :=
        match l with
        | [] => List.Forall_nil _
        | x :: rest => @List.Forall_cons _ P x rest (json_nested_ind x) (go rest)
        end) vs)
  | JObj kvs =>
      Hobj kvs ((fix go l : Forall (fun kv => P kv.2) l :=
        match l with
        | [] => List.Forall_nil _
        | (k, x) :: rest =>
            @List.Forall_cons _ (fun kv => P kv.2) (k, x) rest (json_nested_ind x) (go rest)
        end) kvs)
  end.
End JsonInd.

(** ** Numbers *)

Definition zero : number := {| neg := false; sig := []; expo := 0 |}.

Fixpoint drop_zeros (ds : list Z) : list Z :=
  match ds with
  | d :: rest => if d =? 0 then drop_zeros rest else ds
  | [] => []
  end.

(** The canonical number of a sign, decimal digits and a power of ten. *)
Definition normalise (sign : bool) (ds : list Z) (e : Z) : number :=
  let trimmed := drop_zeros (rev (drop_zeros ds)) in
  match trimmed with
  | [] => zero
  | _ =>
      {| neg := sign; sig := rev trimmed;
         expo := e + (zlen (drop_zeros ds) - zlen trimmed) |}
  end.

Definition num_of_Z (z : Z) : number := normalise (z <? 0) (digits (Z.abs z)) 0.

(** The integer a number is, when it is one ([Number.isInteger]). *)
Definition Z_of_num (n : number) : option Z :=
  if expo n <? 0 then None
  else Some ((if neg n then -1 else 1) * digits_value (sig n) * 10 ^ expo n).

Definition chars_of (ds : list Z) : jstring := map (Z.add 48) ds.

Definition zeros (n : Z) : list Z := repeat 0 (Z.to_nat n).

(** [Number::toString] in radix 10, with [k] digits and point position [n]. *)
Definition print_number (x : number) : jstring :=
  let k := zlen (sig x) in
  let n := expo x + k in
  match sig x with
  | [] => js "0"
  | d :: ds =>
      (if neg x then js "-" else []) ++
      if (k <=? n) && (n <=? 21) then chars_of (sig x ++ zeros (n - k))
      else if (0 <? n) && (n <=? 21) then
        chars_of (take (Z.to_nat n) (sig x)) ++ js "." ++ chars_of (drop (Z.to_nat n) (sig x))
      else if (-6 <? n) && (n <=? 0) then js "0." ++ chars_of (zeros (- n) ++ sig x)
      else
        chars_of [d] ++
        match ds with [] => [] | _ => js "." ++ chars_of ds end ++
        js "e" ++ (if n - 1 <? 0 then js "-" else js "+") ++ chars_of (digits (Z.abs (n - 1)))
  end.

Definition is_digit_char (c : Z) : bool := (48 <=? c) && (c <=? 57).

Fixpoint span_digits (s : jstring) : list Z * jstring :=
  match s with
  | c :: rest =>
      if is_digit_char c then let '(ds, t) := span_digits rest in (c - 48 :: ds, t)
      else ([], s)
  | [] => ([], [])
  end.

(** The rest of the text when it starts with the character [c]. *)
Definition eat (c : Z) (s : jstring) : option jstring :=
  match s with
  | x :: rest => if x =? c then Some rest else None
  | [] => None
  end.

Definition parse_sign (s : jstring) : bool * jstring :=
  match eat 45 s with Some rest => (true, rest) | None => (false, s) end.

Definition parse_fraction (s : jstring) : option (list Z * jstring) :=
  match eat 46 s with
  | Some rest => match span_digits rest with ([], _) => None | (ds, t) => Some (ds, t) end
  | None => Some ([], s)
  end.

Definition parse_exponent (s : jstring) : option (Z * jstring) :=
  match s with
  | c :: rest =>
      if (c =? 101) || (c =? 69) then
        let '(sign, body) :=
          match eat 45 rest, eat 43 rest with
          | Some t, _ => (-1, t)
          | None, Some t => (1, t)
          | None, None => (1, rest)
          end in
        match span_digits body with
        | ([], _) => None
        | (ds, t) => Some (sign * digits_value ds, t)
        end
      else Some (0, s)
  | [] => Some (0, s)
  end.

(** The JSON number grammar: no leading zero, digits after a point or an [e]. *)
Definition parse_number (s : jstring) : option (number * jstring) :=
  let '(sign, s1) := parse_sign s in
  let '(ip, s2) := span_digits s1 in
  match ip with
  | [] => None
  | d :: more =>
      if (d =? 0) && (0 <? zlen more) then None
      else
        '(fp, s3) ← parse_fraction s2;
        '(e, s4) ← parse_exponent s3;
        Some (normalise sign (ip ++ fp) (e - zlen fp), s4)
  end.

(** ** Strings *)

Definition hex_char (d : Z) : Z := if d <? 10 then 48 + d else 87 + d.

Definition escape_unit (u : Z) : jstring :=
  js "\u" ++ [hex_char (u / 4096); hex_char (u / 256 mod 16); hex_char (u / 16 mod 16); hex_char (u mod 16)].

(** One code unit that is no surrogate, inside quotes. *)
Definition quote_unit (u : Z) : jstring :=
  if u =? 34 then [92; 34]
  else if u =? 92 then [92; 92]
  else if u =? 8 then js "\b"
  else if u =? 9 then js "\t"
  else if u =? 10 then js "\n"
  else if u =? 12 then js "\f"
  else if u =? 13 then js "\r"
  else if u <? 32 then escape_unit u
  else [u].

(** A lone surrogate is escaped, a surrogate pair is written as it is. *)
Fixpoint quote_body (s : jstring) : jstring :=
  match s with
  | [] => []
  | u :: rest =>
      if is_high u then
        match rest with
        | l :: rest' =>
            if is_low l then u :: l :: quote_body rest' else escape_unit u ++ quote_body rest
        | [] => escape_unit u
        end
      else if is_low u then escape_unit u ++ quote_body rest
      else quote_unit u ++ quote_body rest
  end.

Definition quote (s : jstring) : jstring := [34] ++ quote_body s ++ [34].

Definition hex_value (c : Z) : option Z :=
  if is_digit_char c then Some (c - 48)
  else if (97 <=? c) && (c <=? 102) then Some (c - 87)
  else if (65 <=? c) && (c <=? 70) then Some (c - 55)
  else None.

Definition hex4 (a b c d : Z) : option Z :=
  w ← hex_value a; x ← hex_value b; y ← hex_value c; z ← hex_value d;
  Some (4096 * w + 256 * x + 16 * y + z).

Definition simple_escape (c : Z) : option Z :=
  if c =? 34 then Some 34
  else if c =? 92 then Some 92
  else if c =? 47 then Some 47
  else if c =? 98 then Some 8
  else if c =? 102 then Some 12
  else if c =? 110 then Some 10
  else if c =? 114 then Some 13
  else if c =? 116 then Some 9
  else None.

(** The body of a string literal after its opening quote. *)
Fixpoint parse_string (s : jstring) : option (jstring * jstring) :=
  match s with
  | [] => None
  | c :: rest =>
      if c =? 34 then Some ([], rest)
      else if c <? 32 then None
      else if c =? 92 then
        match rest with
        | e :: rest' =>
            if e =? 117 then
              match rest' with
              | a :: b :: x :: y :: rest'' =>
                  u ← hex4 a b x y; '(t, k) ← parse_string rest''; Some (u :: t, k)
              | _ => None
              end
            else u ← simple_escape e; '(t, k) ← parse_string rest'; Some (u :: t, k)
        | [] => None
        end
      else '(t, k) ← parse_string rest; Some (c :: t, k)
  end.

(** ** Values *)

Fixpoint join (items : list jstring) : jstring :=
  match items with
  | [] => []
  | [x] => x
  | x :: rest => x ++ js "," ++ join rest
  end.

Fixpoint stringify (v : json) : jstring :=
  match v with
  | JNull => js "null"
  | JBool true => js "true"
  | JBool false => js "false"
  | JNum n => print_number n
  | JStr s => quote s
  | JArr vs => js "[" ++ join (map stringify vs) ++ js "]"
  | JObj kvs =>
      js "{" ++ join (map (fun kv => quote kv.1 ++ js ":" ++ stringify kv.2) kvs) ++ js "}"
  end.

Definition is_ws (c : Z) : bool := (c =? 32) || (c =? 9) || (c =? 10) || (c =? 13).

Fixpoint skip_ws (s : jstring) : jstring :=
  match s with
  | c :: rest => if is_ws c then skip_ws rest else s
  | [] => []
  end.

Fixpoint strip_prefix (p s : jstring) : option jstring :=
  match p, s with
  | [], _ => Some s
  | a :: p', b :: s' => if a =? b then strip_prefix p' s' else None
  | _ :: _, [] => None
  end.

(** Assigning a member: an existing key keeps its place, a new one comes last. *)
Fixpoint obj_set (k : jstring) (v : json) (kvs : list (jstring * json)) : list (jstring * json) :=
  match kvs with
  | [] => [(k, v)]
  | (k', v') :: rest => if decide (k' = k) then (k, v) :: rest else (k', v') :: obj_set k v rest
  end.

Fixpoint parse_value (fuel : nat) (s0 : jstring) : option (json * jstring) :=
  match fuel with
  | O => None
  | S f =>
      let s := skip_ws s0 in
      match s with
      | [] => None
      | c :: rest =>
          if c =? 123 then
            match eat 125 (skip_ws rest) with
            | Some t => Some (JObj [], t)
            | None => '(kvs, k) ← parse_members f [] rest; Some (JObj kvs, k)
            end
          else if c =? 91 then
            match eat 93 (skip_ws rest) with
            | Some t => Some (JArr [], t)
            | None => '(vs, k) ← parse_elements f rest; Some (JArr vs, k)
            end
          else if c =? 34 then '(t, k) ← parse_string rest; Some (JStr t, k)
          else if c =? 116 then t ← strip_prefix (js "true") s; Some (JBool true, t)
          else if c =? 102 then t ← strip_prefix (js "false") s; Some (JBool false, t)
          else if c =? 110 then t ← strip_prefix (js "null") s; Some (JNull, t)
          else '(n, k) ← parse_number s; Some (JNum n, k)
      end
  end
with parse_elements (fuel : nat) (s : jstring) : option (list json * jstring) :=
  match fuel with
  | O => None
  | S f =>
      '(v, s1) ← parse_value f s;
      match eat 44 (skip_ws s1), eat 93 (skip_ws s1) with
      | Some s2, _ => '(vs, k) ← parse_elements f s2; Some (v :: vs, k)
      | None, Some s2 => Some ([v], s2)
      | None, None => None
      end
  end
with parse_members (fuel : nat) (acc : list (jstring * json)) (s : jstring)
  : option (list (jstring * json) * jstring) :=
  match fuel with
  | O => None
  | S f =>
      s1 ← eat 34 (skip_ws s);
      '(key, s2) ← parse_string s1;
      s3 ← eat 58 (skip_ws s2);
      '(v, s4) ← parse_value f s3;
      match eat 44 (skip_ws s4), eat 125 (skip_ws s4) with
      | Some s5, _ => parse_members f (obj_set key v acc) s5
      | None, Some s5 => Some (obj_set key v acc, s5)
      | None, None => None
      end
  end.

(** [JSON.parse]. Each nested call reads at least one character, so twice the
    length of the text is enough fuel (a value and its container per character). *)
Definition parse (s : jstring) : option json :=
  '(v, rest) ← parse_value (S (2 * length s)) s;
  match skip_ws rest with [] => Some v | _ => None end.

(** ** Members *)

Definition member (k : jstring) (v : json) : option json :=
  match v with
  | JObj kvs => snd <$> List.find (fun kv => bool_decide (kv.1 = k)) kvs
  | _ => None
  end.

(** ** Values a program can hold

    Numbers are canonical, strings are code units, member names are distinct. *)

Definition number_ok (n : number) : bool :=
  match sig n with
  | [] => bool_decide (n = zero)
  | d :: _ =>
      forallb (fun x => (0 <=? x) && (x <=? 9)) (sig n) &&
      negb (d =? 0) && negb (List.last (sig n) 0 =? 0)
  end.

Definition unit_ok (u : Z) : bool := (0 <=? u) && (u <? 65536).

Fixpoint distinct (ks : list jstring) : bool :=
  match ks with
  | [] => true
  | k :: rest => negb (bool_decide (k ∈ rest)) && distinct rest
  end.

Fixpoint json_ok (v : json) : bool :=
  match v with
  | JNull | JBool _ => true
  | JNum n => number_ok n
  | JStr s => forallb unit_ok s
  | JArr vs => forallb json_ok vs
  | JObj kvs =>
      distinct (map fst kvs) && forallb (fun kv => forallb unit_ok kv.1 && json_ok kv.2) kvs
  end.
