(* ===== verification/JsonFacts.v ===== *)
(** * JSON text: printing and parsing are inverse

    What the codecs rely on: the text of a value parses back to the value,
    contains no control character, is well-formed UTF-16 and is never blank. *)

From S2P Require Import Prelude Utf8 Json.

(** ** Single characters *)

Lemma eat_hit c t : eat c (c :: t) = Some t.
Proof. unfold eat. by rewrite Z.eqb_refl. Qed.

Lemma eat_miss c x t : x <> c -> eat c (x :: t) = None.
Proof. intros Hx. unfold eat. by rewrite (proj2 (Z.eqb_neq _ _) Hx). Qed.

Lemma skip_ws_black c t : is_ws c = false -> skip_ws (c :: t) = c :: t.
Proof. intros H. cbn. by rewrite H. Qed.

Lemma is_digit_char_digit d : is_digit d -> is_digit_char (48 + d) = true.
Proof. unfold is_digit, is_digit_char; intros; apply andb_true_iff; split; apply Z.leb_le; lia. Qed.

(** What may follow a number without being read as part of it. *)
Definition ends_number (rest : jstring) : Prop :=
  match rest with
  | [] => True
  | c :: _ => is_digit_char c = false /\ c <> 46 /\ c <> 101 /\ c <> 69
  end.

Definition no_digit (rest : jstring) : Prop :=
  match rest with [] => True | c :: _ => is_digit_char c = false end.

Lemma ends_no_digit rest : ends_number rest -> no_digit rest.
Proof. destruct rest; cbn; tauto. Qed.

(** ** Digits *)

Lemma span_digits_chars ds rest :
  Forall is_digit ds -> no_digit rest -> span_digits (chars_of ds ++ rest) = (ds, rest).
Proof.
  intros Hds Hr. induction Hds as [|d ds Hd _ IH].
  - destruct rest as [|c rest]; [done|]. cbn in *. by rewrite Hr.
  - cbn -[Z.add Z.sub]. rewrite is_digit_char_digit by done.
    unfold chars_of in IH. rewrite IH. do 2 f_equal. lia.
Qed.

Lemma zeros_digits n : Forall is_digit (zeros n).
Proof. unfold zeros. apply Forall_forall. intros x ?%list_elem_of_In%repeat_spec. subst. unfold is_digit; lia. Qed.

Lemma zlen_zeros n : 0 <= n -> zlen (zeros n) = n.
Proof. intros. unfold zlen, zeros. rewrite repeat_length. lia. Qed.

Lemma drop_zeros_repeat k l : drop_zeros (repeat 0 k ++ l) = drop_zeros l.
Proof. by induction k. Qed.

Lemma drop_zeros_head d l : d <> 0 -> drop_zeros (d :: l) = d :: l.
Proof. intros H. cbn. by rewrite (proj2 (Z.eqb_neq _ _) H). Qed.

Lemma rev_repeat (k : nat) : rev (repeat 0 k) = repeat 0 k.
Proof.
  induction k as [|k IH]; [done|]. cbn [repeat]. rewrite reverse_cons || cbn [rev].
  rewrite IH. clear. induction k as [|k IH]; [done|]. cbn. by rewrite IH.
Qed.

(** The significant digits of a canonical nonzero number. *)
Record sig_ok (ds : list Z) : Prop := {
  sig_digits : Forall is_digit ds;
  sig_first : exists d l, ds = d :: l /\ d <> 0;
  sig_last : exists l d, ds = l ++ [d] /\ d <> 0
}.

Lemma number_ok_cases n :
  number_ok n = true -> n = zero \/ sig_ok (sig n).
Proof.
  destruct n as [s ds e]. unfold number_ok; cbn. destruct ds as [|d ds].
  { intros H%bool_decide_eq_true. by left. }
  intros H. bool_to_prop. right. split.
  - apply Forall_forall. intros x Hx.
    match goal with H : forallb _ _ = true |- _ => rewrite forallb_forall in H; specialize (H x) end.
    apply list_elem_of_In in Hx. unfold is_digit.
    match goal with H : In x _ -> _ |- _ => specialize (H Hx) end. lia.
  - by exists d, ds.
  - exists (removelast (d :: ds)), (List.last (d :: ds) 0).
    split; [by apply app_removelast_last|done].
Qed.

Lemma normalise_sig s a ds b e :
  sig_ok ds -> 0 <= a -> 0 <= b ->
  normalise s (zeros a ++ ds ++ zeros b) e = {| neg := s; sig := ds; expo := e + b |}.
Proof.
  intros [_ (d & l & Hdl & Hd) (l' & d' & Hl & Hd')] Ha Hb.
  assert (drop_zeros (zeros a ++ ds ++ zeros b) = ds ++ zeros b) as Ed.
  { unfold zeros at 1. rewrite drop_zeros_repeat, Hdl. cbn [app]. by rewrite drop_zeros_head. }
  assert (drop_zeros (rev (ds ++ zeros b)) = rev ds) as Et.
  { rewrite rev_app_distr. unfold zeros. rewrite rev_repeat, drop_zeros_repeat, Hl, rev_unit.
    by rewrite drop_zeros_head. }
  unfold normalise. rewrite Ed, Et.
  destruct (rev ds) as [|x xs] eqn:Er.
  { apply (f_equal (@rev Z)) in Er. rewrite rev_involutive in Er. by rewrite Er in Hdl. }
  rewrite <- Er, rev_involutive. f_equal.
  rewrite zlen_app, zlen_zeros by done. unfold zlen. rewrite length_rev. lia.
Qed.

(** ** Numbers *)

Ltac digit_cases d :=
  assert (d = 0 \/ d = 1 \/ d = 2 \/ d = 3 \/ d = 4 \/ d = 5 \/ d = 6 \/ d = 7 \/ d = 8 \/ d = 9)
    as Hcases by (unfold is_digit in *; lia);
  destruct Hcases as [->|[->|[->|[->|[->|[->|[->|[->|[->| ->]]]]]]]]].

Lemma parse_sign_print (s : bool) d t :
  is_digit d -> parse_sign ((if s then js "-" else []) ++ 48 + d :: t) = (s, 48 + d :: t).
Proof.
  intros Hd. unfold parse_sign. destruct s; cbn [app js].
  - by rewrite eat_hit.
  - rewrite eat_miss; [done|unfold is_digit in Hd; lia].
Qed.

Lemma parse_fraction_none rest : ends_number rest -> parse_fraction rest = Some ([], rest).
Proof.
  destruct rest as [|c rest]; [done|]. intros (_ & H & _). unfold parse_fraction.
  by rewrite eat_miss.
Qed.

Lemma parse_fraction_some ds rest :
  Forall is_digit ds -> ds <> [] -> no_digit rest ->
  parse_fraction (js "." ++ chars_of ds ++ rest) = Some (ds, rest).
Proof.
  intros Hds Hne Hr. unfold parse_fraction. eval_literals. cbn [app]. rewrite eat_hit, span_digits_chars by done.
  by destruct ds.
Qed.

Lemma parse_exponent_none rest : ends_number rest -> parse_exponent rest = Some (0, rest).
Proof.
  destruct rest as [|c rest]; [done|]. intros (_ & _ & H1 & H2). unfold parse_exponent.
  by rewrite (proj2 (Z.eqb_neq _ _) H1), (proj2 (Z.eqb_neq _ _) H2).
Qed.

Lemma parse_exponent_some x rest :
  no_digit rest ->
  parse_exponent (js "e" ++ (if x <? 0 then js "-" else js "+") ++ chars_of (digits (Z.abs x)) ++ rest)
  = Some (x, rest).
Proof.
  intros Hr. pose proof (digits_digits (Z.abs x)) as Hd. pose proof (digits_nonempty (Z.abs x)) as Hne.
  pose proof (digits_value_digits (Z.abs x)) as Hv.
  remember (chars_of (digits (Z.abs x)) ++ rest) as body eqn:Hb.
  assert (span_digits body = (digits (Z.abs x), rest)) as Hspan.
  { rewrite Hb. apply span_digits_chars; [apply Hd; lia|done]. }
  unfold parse_exponent. destruct (Z.ltb_spec x 0); eval_literals; cbn [app eat];
    eval_tests; cbv beta iota match; cbn [orb]; rewrite Hspan; (destruct (digits (Z.abs x)) eqn:E; [done|]);
    rewrite Hv by lia; do 2 f_equal; lia.
Qed.

(** The number reader on a text split into its parts. *)
Lemma parse_number_parts (s : bool) ip frac (fp : list Z) ex e rest s3 s4 :
  Forall is_digit ip -> (exists d l, ip = d :: l /\ (d <> 0 \/ l = [])) ->
  no_digit (frac ++ ex ++ rest) ->
  parse_fraction (frac ++ ex ++ rest) = Some (fp, s3) ->
  parse_exponent s3 = Some (e, s4) ->
  parse_number ((if s then js "-" else []) ++ chars_of ip ++ frac ++ ex ++ rest)
  = Some (normalise s (ip ++ fp) (e - zlen fp), s4).
Proof.
  intros Hip (d & l & -> & Hdl) Hnd Hf He. unfold parse_number.
  pose proof (Forall_inv Hip) as Hd.
  change (chars_of (d :: l)) with (48 + d :: chars_of l). cbn [app].
  rewrite parse_sign_print by done.
  change (48 + d :: chars_of l ++ frac ++ ex ++ rest) with (chars_of (d :: l) ++ frac ++ ex ++ rest).
  rewrite span_digits_chars by done.
  assert ((d =? 0) && (0 <? zlen l) = false) as ->.
  { destruct Hdl as [?| ->]; [by rewrite (proj2 (Z.eqb_neq _ _))|by rewrite andb_comm]. }
  rewrite Hf. cbn -[normalise]. by rewrite He.
Qed.

Lemma take_drop_digits k ds : Forall is_digit ds -> Forall is_digit (take k ds) /\ Forall is_digit (drop k ds).
Proof. intros H. split; [by apply Forall_take|by apply Forall_drop]. Qed.

(** One lemma per spelling [Number::toString] chooses. *)
Section PrintNumber.
Context (s : bool) (ds : list Z) (rest : jstring).
Hypothesis (Hs : sig_ok ds) (Hr : ends_number rest).

Local Definition sign_text : jstring := if s then js "-" else [].

Lemma normalise_exact a b e e' :
  0 <= a -> 0 <= b -> e' = e + b ->
  normalise s (zeros a ++ ds ++ zeros b) e = {| neg := s; sig := ds; expo := e' |}.
Proof. intros Ha Hb ->. by apply normalise_sig. Qed.

Lemma parse_print_integer z :
  0 <= z ->
  parse_number (sign_text ++ chars_of (ds ++ zeros z) ++ rest)
  = Some ({| neg := s; sig := ds; expo := z |}, rest).
Proof.
  intros Hz. destruct Hs as [Hds (d & l & Hdl & Hd0) _].
  pose proof (parse_number_parts s (ds ++ zeros z) [] [] [] 0 rest rest rest) as Hp.
  cbn [app] in Hp. unfold sign_text. rewrite Hp.
  - rewrite app_nil_r. pose proof (normalise_exact 0 z (0 - zlen (@nil Z)) z) as Hx.
    change (zeros 0) with (@nil Z) in Hx; cbn [app] in Hx. by rewrite Hx.
  - apply Forall_app; split; [done|apply zeros_digits].
  - rewrite Hdl. exists d, (l ++ zeros z). split; [done|by left].
  - by apply ends_no_digit.
  - by apply parse_fraction_none.
  - by apply parse_exponent_none.
Qed.

Lemma parse_print_point n :
  0 < n < zlen ds ->
  parse_number (sign_text ++
    (chars_of (take (Z.to_nat n) ds) ++ js "." ++ chars_of (drop (Z.to_nat n) ds)) ++ rest)
  = Some ({| neg := s; sig := ds; expo := n - zlen ds |}, rest).
Proof.
  intros Hn. destruct Hs as [Hds (d & l & Hdl & Hd0) _].
  destruct (take_drop_digits (Z.to_nat n) ds Hds) as [Ht Hd].
  pose proof (parse_number_parts s (take (Z.to_nat n) ds) (js "." ++ chars_of (drop (Z.to_nat n) ds))
    (drop (Z.to_nat n) ds) [] 0 rest rest rest) as Hp.
  rewrite <- !app_assoc in *. cbn [app] in Hp. unfold sign_text.
  rewrite Hp; [|done| |done| |by apply parse_exponent_none].
  - rewrite take_drop. pose proof (normalise_exact 0 0 (0 - zlen (drop (Z.to_nat n) ds)) (n - zlen ds)) as Hx.
    change (zeros 0) with (@nil Z) in Hx; cbn [app] in Hx. rewrite app_nil_r in Hx. rewrite Hx; [done|lia|lia|].
    unfold zlen in *. rewrite length_drop. lia.
  - rewrite Hdl. destruct (Z.to_nat n) as [|m] eqn:En; [lia|]. cbn. by exists d, (take m l); auto.
  - apply parse_fraction_some; [done| |by apply ends_no_digit].
    intros Hnil. apply (f_equal length) in Hnil. rewrite length_drop in Hnil. unfold zlen in Hn.
    cbn in Hnil. lia.
Qed.

Lemma parse_print_small z :
  0 <= z ->
  parse_number (sign_text ++ (js "0." ++ chars_of (zeros z ++ ds)) ++ rest)
  = Some ({| neg := s; sig := ds; expo := - z - zlen ds |}, rest).
Proof.
  intros Hz. destruct Hs as [Hds (d & l & Hdl & Hd0) _].
  pose proof (parse_number_parts s [0] (js "." ++ chars_of (zeros z ++ ds))
    (zeros z ++ ds) [] 0 rest rest rest) as Hp.
  rewrite <- !app_assoc in *. cbn [app] in Hp. unfold sign_text.
  change (js "0." ++ chars_of (zeros z ++ ds) ++ rest)
    with (chars_of [0] ++ js "." ++ chars_of (zeros z ++ ds) ++ rest).
  rewrite Hp; [| | |done| |by apply parse_exponent_none].
  - pose proof (normalise_exact (1 + z) 0 (0 - zlen (zeros z ++ ds)) (- z - zlen ds)) as Hx.
    replace (zeros (1 + z)) with (0 :: zeros z) in Hx.
    2: { unfold zeros. by replace (Z.to_nat (1 + z)) with (S (Z.to_nat z)) by lia. }
    change (zeros 0) with (@nil Z) in Hx. rewrite app_nil_r in Hx. cbn [app] in *.
    rewrite Hx; [done|lia|lia|]. autorewrite with zlen. rewrite zlen_zeros by lia. lia.
  - repeat constructor; unfold is_digit; lia.
  - by exists 0, []; auto.
  - apply parse_fraction_some; [|by rewrite Hdl; intros [_ ?]%app_nil|by apply ends_no_digit].
    apply Forall_app; split; [apply zeros_digits|done].
Qed.

Lemma parse_print_exponent d l x :
  ds = d :: l ->
  parse_number (sign_text ++ (chars_of [d] ++ match l with [] => [] | _ => js "." ++ chars_of l end ++
    js "e" ++ (if x <? 0 then js "-" else js "+") ++ chars_of (digits (Z.abs x))) ++ rest)
  = Some ({| neg := s; sig := ds; expo := x - zlen l |}, rest).
Proof.
  intros Hdl. destruct Hs as [Hds _ _]. rewrite Hdl in Hds. pose proof (Forall_inv_tail Hds) as Hl.
  pose proof (parse_number_parts s [d] (match l with [] => [] | _ => js "." ++ chars_of l end) l
    (js "e" ++ (if x <? 0 then js "-" else js "+") ++ chars_of (digits (Z.abs x))) x rest
    (js "e" ++ (if x <? 0 then js "-" else js "+") ++ chars_of (digits (Z.abs x)) ++ rest) rest) as Hp.
  rewrite <- !app_assoc in *. unfold sign_text. rewrite Hp.
  - pose proof (normalise_exact 0 0 (x - zlen l) (x - zlen l)) as Hx.
    change (zeros 0) with (@nil Z) in Hx; cbn [app] in Hx. rewrite app_nil_r, Hdl in Hx.
    cbn [app]. rewrite Hdl, Hx; [done|lia|lia|lia].
  - constructor; [by apply (Forall_inv Hds)|constructor].
  - exists d, []. split; [done|by right].
  - by destruct l.
  - destruct l; [done|]. rewrite <- app_assoc. by apply parse_fraction_some.
  - apply parse_exponent_some, ends_no_digit, Hr.
Qed.
End PrintNumber.

Lemma parse_print_number n rest :
  number_ok n = true -> ends_number rest -> parse_number (print_number n ++ rest) = Some (n, rest).
Proof.
  intros [->|Hs]%number_ok_cases Hr.
  { apply (parse_number_parts false [0] [] [] [] 0 rest rest rest); cbn.
    - repeat constructor; unfold is_digit; lia.
    - by exists 0, []; auto.
    - by apply ends_no_digit.
    - by apply parse_fraction_none.
    - by apply parse_exponent_none. }
  destruct n as [s ds e]; cbn in Hs. pose proof Hs as [_ (d & l & Hdl & _) _].
  unfold print_number; cbn [neg sig expo]. rewrite Hdl. cbv beta iota zeta.
  rewrite <- Hdl, <- app_assoc.
  destruct ((zlen ds <=? e + zlen ds) && (e + zlen ds <=? 21)) eqn:E1.
  { bool_to_prop. rewrite (parse_print_integer s ds rest Hs Hr) by lia. do 3 f_equal. lia. }
  destruct ((0 <? e + zlen ds) && (e + zlen ds <=? 21)) eqn:E2.
  { assert (0 < e + zlen ds < zlen ds) by lia.
    rewrite (parse_print_point s ds rest Hs Hr) by done. do 3 f_equal. lia. }
  destruct ((-6 <? e + zlen ds) && (e + zlen ds <=? 0)) eqn:E3.
  { bool_to_prop. rewrite (parse_print_small s ds rest Hs Hr) by lia. do 3 f_equal. lia. }
  rewrite (parse_print_exponent s ds rest Hs Hr d l) by done. do 3 f_equal.
  rewrite Hdl. zlia.
Qed.

(** ** Integers *)

Lemma drop_zeros_split ds : exists k, ds = repeat 0 k ++ drop_zeros ds.
Proof.
  induction ds as [|d ds [k IH]]; [by exists O|]. cbn.
  destruct (Z.eqb_spec d 0) as [->|]; [exists (S k); cbn; by f_equal|by exists O].
Qed.

Lemma drop_zeros_first ds : drop_zeros ds = [] \/ exists d l, drop_zeros ds = d :: l /\ d <> 0.
Proof.
  induction ds as [|d ds IH]; [by left|]. cbn. destruct (Z.eqb_spec d 0); [done|]. right; eauto.
Qed.

Lemma drop_zeros_digits ds : Forall is_digit ds -> Forall is_digit (drop_zeros ds).
Proof. intros H. destruct (drop_zeros_split ds) as [k Hk]. rewrite Hk in H. by apply Forall_app in H as [_ H]. Qed.

Lemma fold_digits_zeros k acc : fold_left (fun a d => 10 * a + d) (repeat 0 k) acc = acc * 10 ^ Z.of_nat k.
Proof.
  revert acc; induction k as [|k IH]; intros acc; [cbn; lia|].
  cbn [repeat fold_left]. rewrite IH, Nat2Z.inj_succ, Z.pow_succ_r by lia. lia.
Qed.

Lemma digits_value_zeros_r ds k : digits_value (ds ++ repeat 0 k) = digits_value ds * 10 ^ Z.of_nat k.
Proof. unfold digits_value. by rewrite fold_left_app, fold_digits_zeros. Qed.

Lemma digits_value_zeros_l ds k : digits_value (repeat 0 k ++ ds) = digits_value ds.
Proof. unfold digits_value. by rewrite fold_left_app, fold_digits_zeros, Z.mul_0_l. Qed.

(** What [normalise] keeps of its digits. *)
Lemma normalise_cases s ds e :
  Forall is_digit ds ->
  (normalise s ds e = zero /\ digits_value ds = 0) \/
  exists sg k, sig_ok sg /\ normalise s ds e = {| neg := s; sig := sg; expo := e + Z.of_nat k |}
    /\ digits_value ds = digits_value sg * 10 ^ Z.of_nat k.
Proof.
  intros Hds. unfold normalise.
  destruct (drop_zeros_split ds) as [a Ha]. set (l := drop_zeros ds) in *.
  destruct (drop_zeros_split (rev l)) as [b Hb]. set (t := drop_zeros (rev l)) in *.
  assert (digits_value ds = digits_value l) as Hv by (rewrite Ha; apply digits_value_zeros_l).
  assert (l = rev t ++ repeat 0 b) as Hl.
  { rewrite <- (rev_involutive l), Hb, rev_app_distr, rev_repeat. done. }
  assert (Forall is_digit l) as Hld by (by apply drop_zeros_digits).
  destruct t as [|d t'] eqn:Et.
  - left. split; [done|]. rewrite Hv, Hl. cbn [rev app]. by rewrite <- (app_nil_r (repeat 0 b)), digits_value_zeros_l.
  - right. exists (rev (d :: t')), b. split; [|split].
    + split.
      * rewrite Hl in Hld. by apply Forall_app in Hld as [? _].
      * destruct (drop_zeros_first ds) as [Hn|(x & y & Hx & ?)]; fold l in Hn || fold l in Hx.
        { rewrite Hn in Hl. symmetry in Hl. apply app_nil in Hl as [Hl _]. cbn in Hl; by destruct (rev t'). }
        rewrite Hx in Hl. destruct (rev (d :: t')) as [|z zs] eqn:Ez.
        { apply (f_equal (@rev Z)) in Ez. by rewrite rev_involutive in Ez. }
        cbn in Hl. injection Hl as -> _. by exists z, zs.
      * exists (rev t'), d. split; [done|].
        destruct (drop_zeros_first (rev l)) as [Hn|(x & y & Hx & ?)]; fold t in Hn || fold t in Hx; congruence.
    + f_equal. rewrite Hl. unfold zlen. rewrite length_app, length_rev, repeat_length. cbn. lia.
    + rewrite Hv, Hl. apply digits_value_zeros_r.
Qed.

Lemma sig_ok_number s ds e : sig_ok ds -> number_ok {| neg := s; sig := ds; expo := e |} = true.
Proof.
  intros [Hds (d & l & Hdl & Hd) (l' & d' & Hl & Hd')]. unfold number_ok; cbn.
  rewrite Hdl. cbv iota. rewrite <- Hdl.
  rewrite (proj2 (Z.eqb_neq _ _) Hd), Hl, last_last, (proj2 (Z.eqb_neq _ _) Hd'), <- Hl.
  rewrite !andb_true_r. apply forallb_forall. intros x Hx%list_elem_of_In.
  rewrite Forall_forall in Hds. specialize (Hds x Hx). unfold is_digit in Hds. lia.
Qed.

Lemma normalise_ok s ds e : Forall is_digit ds -> number_ok (normalise s ds e) = true.
Proof.
  intros Hds. destruct (normalise_cases s ds e Hds) as [[-> _]|(sg & k & Hsg & -> & _)]; [done|].
  by apply sig_ok_number.
Qed.

Lemma num_of_Z_ok z : number_ok (num_of_Z z) = true.
Proof. apply normalise_ok, digits_digits. lia. Qed.

Lemma Z_of_num_of_Z z : Z_of_num (num_of_Z z) = Some z.
Proof.
  unfold num_of_Z. pose proof (digits_value_digits (Z.abs z)) as Hv.
  destruct (normalise_cases (z <? 0) (digits (Z.abs z)) 0) as [[-> H0]|(sg & k & _ & -> & Hk)].
  - apply digits_digits; lia.
  - rewrite Hv in H0 by lia. cbn. f_equal. lia.
  - unfold Z_of_num; cbn [expo neg sig]. rewrite Z.add_0_l, (proj2 (Z.ltb_ge _ _)) by lia. f_equal.
    rewrite <- Z.mul_assoc, <- Hk, Hv by lia. destruct (Z.ltb_spec z 0); lia.
Qed.

(** ** Strings *)

Lemma hex_value_char d : 0 <= d < 16 -> hex_value (hex_char d) = Some d.
Proof.
  intros Hd. unfold hex_char, hex_value, is_digit_char. destruct (Z.ltb_spec d 10); decide_tests.
  - cbn. f_equal. lia.
  - rewrite andb_false_r. cbn. f_equal. lia.
Qed.

Lemma hex4_escape u :
  is_unit u ->
  hex4 (hex_char (u / 4096)) (hex_char (u / 256 mod 16)) (hex_char (u / 16 mod 16)) (hex_char (u mod 16))
  = Some u.
Proof.
  intros Hu. unfold is_unit in Hu. unfold hex4.
  rewrite !hex_value_char by (Z.to_euclidean_division_equations; lia).
  cbn. f_equal.
  assert (u / 256 = u / 16 / 16) as -> by (rewrite Z.div_div by lia; reflexivity).
  assert (u / 4096 = u / 16 / 16 / 16) as -> by (rewrite !Z.div_div by lia; reflexivity).
  pose proof (Z.div_mod u 16). pose proof (Z.div_mod (u / 16) 16). pose proof (Z.div_mod (u / 16 / 16) 16).
  lia.
Qed.

Lemma parse_escape u t : is_unit u ->
  parse_string (escape_unit u ++ t) = '(r, k) ← parse_string t; Some (u :: r, k).
Proof.
  intros Hu. unfold escape_unit. eval_literals. cbn [app parse_string]. eval_tests. cbv iota.
  by rewrite hex4_escape.
Qed.

Lemma parse_raw u t : 32 <= u -> u <> 34 -> u <> 92 ->
  parse_string (u :: t) = '(r, k) ← parse_string t; Some (u :: r, k).
Proof. intros. cbn. decide_tests. done. Qed.

Lemma parse_quoted u t : is_unit u ->
  parse_string (quote_unit u ++ t) = '(r, k) ← parse_string t; Some (u :: r, k).
Proof.
  intros Hu. unfold quote_unit.
  repeat match goal with |- context [?a =? ?b] => destruct (Z.eqb_spec a b) as [->|?]; [by cbn|] end.
  destruct (Z.ltb_spec u 32); [by apply parse_escape|]. by apply parse_raw.
Qed.

(** Induction on strings in steps of one or two units, as the printer reads them. *)
Lemma string_ind2 (P : jstring -> Prop) :
  P [] -> (forall u s, P s -> (forall l s', s = l :: s' -> P s') -> P (u :: s)) -> forall s, P s.
Proof.
  intros H0 HS s. assert (P s /\ forall l s', s = l :: s' -> P s') as [H _]; [|done].
  induction s as [|u s [IH1 IH2]]; [by split|]. split; [by apply HS|]. by intros ? ? [= -> ->].
Qed.

Lemma is_high_range u : is_high u = true -> 0xD800 <= u <= 0xDBFF.
Proof. unfold is_high. lia. Qed.

Lemma is_low_range u : is_low u = true -> 0xDC00 <= u <= 0xDFFF.
Proof. unfold is_low. lia. Qed.

Lemma parse_string_body s rest :
  Forall is_unit s -> parse_string (quote_body s ++ 34 :: rest) = Some (s, rest).
Proof.
  induction s as [|u s IH IH2] using string_ind2; intros Hs; [done|].
  pose proof (Forall_inv Hs) as Hu. pose proof (Forall_inv_tail Hs) as Ht. specialize (IH Ht).
  cbn [quote_body]. destruct (is_high u) eqn:Eh.
  - apply is_high_range in Eh. destruct s as [|l s'].
    + rewrite parse_escape by done. done.
    + destruct (is_low l) eqn:El.
      * apply is_low_range in El. cbn [app]. rewrite parse_raw by lia. rewrite parse_raw by lia.
        rewrite (IH2 l s') by (done || by apply (Forall_inv_tail Ht)). done.
      * rewrite <- app_assoc, parse_escape by done. by rewrite IH.
  - destruct (is_low u); rewrite <- app_assoc, ?parse_escape, ?parse_quoted by done; by rewrite IH.
Qed.

Lemma parse_string_quote s rest :
  Forall is_unit s -> exists t, quote s ++ rest = 34 :: t /\ parse_string t = Some (s, rest).
Proof.
  intros Hs. exists (quote_body s ++ 34 :: rest). split; [|by apply parse_string_body].
  unfold quote. cbn. by rewrite <- app_assoc.
Qed.

Lemma unit_ok_units s : forallb unit_ok s = true -> Forall is_unit s.
Proof.
  rewrite forallb_forall, Forall_forall. intros H x Hx%list_elem_of_In. specialize (H x Hx).
  unfold unit_ok, is_unit in *. lia.
Qed.

(** ** Values *)

Fixpoint jsize (v : json) : nat :=
  match v with
  | JArr vs => S (list_sum (map (fun x => S (jsize x)) vs))
  | JObj kvs => S (list_sum (map (fun kv => S (jsize kv.2)) kvs))
  | _ => 1
  end.

Definition number_start (s : jstring) : Prop :=
  match s with c :: _ => c = 45 \/ is_digit_char c = true | [] => False end.

Lemma print_number_start n : number_ok n = true -> number_start (print_number n).
Proof.
  intros [->|Hs]%number_ok_cases; [by right|].
  destruct n as [s ds e], Hs as [Hds (d & l & Hdl & _) _]. cbn [sig] in Hds, Hdl. subst ds.
  pose proof (is_digit_char_digit _ (Forall_inv Hds)) as Hd.
  unfold print_number; cbn [neg sig expo].
  destruct s; [by left|]. cbn [app].
  repeat match goal with |- context [if ?b then _ else _] => destruct b eqn:? end.
  2: { bool_to_prop. destruct (Z.to_nat (e + zlen (d :: l))) eqn:En; [lia|]. by right. }
  all: by right.
Qed.

Lemma print_number_head n :
  number_ok n = true -> exists c t, print_number n = c :: t /\ (c = 45 \/ is_digit_char c = true).
Proof. intros H%print_number_start. destruct (print_number n) as [|c t]; [done|]. by exists c, t. Qed.

(** The first character of a value's text: no white space, no closing bracket. *)
Lemma stringify_head v :
  json_ok v = true ->
  exists c t, stringify v = c :: t /\ is_ws c = false /\ c <> 93 /\ c <> 125.
Proof.
  destruct v as [|[]|n|s|vs|kvs]; intros Hok; try (by eexists _, _; split; [reflexivity|]).
  destruct (print_number_head n Hok) as (c & t & Ht & Hc). exists c, t. split; [done|].
  unfold is_digit_char in Hc. unfold is_ws. lia.
Qed.

Lemma ends_comma t : ends_number (44 :: t).
Proof. done. Qed.
Lemma ends_bracket t : ends_number (93 :: t).
Proof. done. Qed.
Lemma ends_brace t : ends_number (125 :: t).
Proof. done. Qed.
Global Hint Resolve ends_comma ends_bracket ends_brace : mango.

(** A value whose text the reader reads back in full, given enough fuel. *)
Definition reads_back (v : json) : Prop :=
  forall f rest, (jsize v <= f)%nat -> ends_number rest ->
    parse_value f (stringify v ++ rest) = Some (v, rest).

Lemma join_cons x y rest : join (x :: y :: rest) = x ++ js "," ++ join (y :: rest).
Proof. done. Qed.

Lemma parse_elements_print vs v f rest :
  Forall reads_back (v :: vs) ->
  (list_sum (map (fun x => S (jsize x)) (v :: vs)) <= f)%nat ->
  parse_elements f (join (map stringify (v :: vs)) ++ 93 :: rest) = Some (v :: vs, rest).
Proof.
  revert v f; induction vs as [|w vs IH]; intros v f HF Hf; destruct f as [|f]; cbn in Hf; try lia.
  - cbn [parse_elements map join]. rewrite (Forall_inv HF) by (auto with mango; lia). done.
  - cbn [map]. rewrite join_cons, <- !app_assoc. eval_literals. cbn [app parse_elements].
    rewrite (Forall_inv HF) by (auto with mango; lia).
    cbn [mbind option_bind]. rewrite skip_ws_black, eat_hit by done.
    change (join (stringify w :: map stringify vs)) with (join (map stringify (w :: vs))).
    rewrite IH; [done|by apply (Forall_inv_tail HF)|cbn; lia].
Qed.

Lemma obj_set_new k v kvs : k ∉ map fst kvs -> obj_set k v kvs = kvs ++ [(k, v)].
Proof.
  induction kvs as [|[k' v'] kvs IH]; intros Hk; [done|]. cbn in *.
  rewrite decide_False by set_solver. rewrite IH by set_solver. done.
Qed.

Definition print_member (kv : jstring * json) : jstring := quote kv.1 ++ js ":" ++ stringify kv.2.

Lemma stringify_obj kvs : stringify (JObj kvs) = js "{" ++ join (map print_member kvs) ++ js "}".
Proof. done. Qed.

Lemma parse_members_print kvs kv acc f rest :
  Forall (fun x => reads_back x.2) (kv :: kvs) ->
  Forall (fun x => Forall is_unit x.1 /\ json_ok x.2 = true) (kv :: kvs) ->
  NoDup (map fst (acc ++ kv :: kvs)) ->
  (list_sum (map (fun x => S (jsize x.2)) (kv :: kvs)) <= f)%nat ->
  parse_members f acc (join (map print_member (kv :: kvs)) ++ 125 :: rest) = Some (acc ++ kv :: kvs, rest).
Proof.
  revert kv acc f; induction kvs as [|kw kvs IH]; intros [k v] acc f HF Hok Hnd Hf;
    destruct f as [|f]; cbn in Hf; try lia.
  all: pose proof (Forall_inv Hok) as [Hk Hv]; pose proof (Forall_inv HF) as Hrb; cbn in Hk, Hv, Hrb.
  all: assert (obj_set k v acc = acc ++ [(k, v)]) as Hset.
  1, 3: apply obj_set_new; rewrite map_app in Hnd; apply NoDup_app in Hnd as (_ & Hnd & _);
    intros Hin; apply (Hnd _ Hin); by left.
  all: destruct (stringify_head v Hv) as (c & t & Ht & Hws & _).
  - cbn [map join]. unfold print_member; cbn [fst snd]. rewrite <- !app_assoc.
    destruct (parse_string_quote k (js ":" ++ stringify v ++ 125 :: rest) Hk) as (q & -> & Hq).
    cbn [parse_members]. rewrite skip_ws_black, eat_hit by done. cbn [mbind option_bind].
    rewrite Hq. eval_literals. cbn [app mbind option_bind]. rewrite skip_ws_black, eat_hit by done. cbn [mbind option_bind].
    rewrite Hrb by (auto with mango; lia). cbn [mbind option_bind]. rewrite skip_ws_black by done. cbn [eat].
    eval_tests. cbv iota. by rewrite Hset.
  - cbn [map]. rewrite join_cons. unfold print_member at 1; cbn [fst snd]. rewrite <- !app_assoc.
    set (tail := join (print_member kw :: map print_member kvs) ++ 125 :: rest).
    destruct (parse_string_quote k (js ":" ++ stringify v ++ js "," ++ tail) Hk) as (q & -> & Hq).
    cbn [parse_members]. rewrite skip_ws_black, eat_hit by done. cbn [mbind option_bind].
    rewrite Hq. eval_literals. cbn [app mbind option_bind]. rewrite skip_ws_black, eat_hit by done. cbn [mbind option_bind].
    rewrite Hrb by (auto with mango; lia). cbn [mbind option_bind]. rewrite skip_ws_black by done. rewrite eat_hit.
    unfold tail. change (join (print_member kw :: map print_member kvs)) with (join (map print_member (kw :: kvs))).
    rewrite Hset, IH.
    + by rewrite <- app_assoc.
    + by apply (Forall_inv_tail HF).
    + by apply (Forall_inv_tail Hok).
    + by rewrite <- app_assoc.
    + cbn; lia.
Qed.

Lemma distinct_NoDup ks : distinct ks = true -> NoDup ks.
Proof. induction ks as [|k ks IH]; cbn; intros H; constructor; bool_to_prop; auto. Qed.

Lemma json_ok_obj kvs :
  json_ok (JObj kvs) = true ->
  NoDup (map fst kvs) /\ Forall (fun x => Forall is_unit x.1 /\ json_ok x.2 = true) kvs.
Proof.
  cbn. intros H. bool_to_prop. split; [by apply distinct_NoDup|].
  rewrite Forall_forall. intros x Hx%list_elem_of_In.
  match goal with H : forallb _ _ = true |- _ => rewrite forallb_forall in H; specialize (H x Hx) end.
  bool_to_prop. split; [by apply unit_ok_units|done].
Qed.

Lemma json_ok_arr vs : json_ok (JArr vs) = true -> Forall (fun x => json_ok x = true) vs.
Proof. cbn. rewrite forallb_forall, Forall_forall. intros H x Hx%list_elem_of_In. auto. Qed.

Lemma stringify_reads_back v : json_ok v = true -> reads_back v.
Proof.
  induction v as [|[]|n|s|vs IH|kvs IH] using json_nested_ind; intros Hok [|f] rest Hf Hr;
    cbn [jsize] in Hf; try lia; try done.
  - destruct (print_number_head n Hok) as (c & t & Ht & Hc). cbn [stringify].
    pose proof (parse_print_number n rest Hok Hr) as Hp. rewrite Ht in *. cbn [app] in *.
    cbn [parse_value]. assert (is_ws c = false) as Hws by (unfold is_ws, is_digit_char in *; lia).
    rewrite skip_ws_black by done. unfold is_digit_char in Hc. decide_tests. by rewrite Hp.
  - apply unit_ok_units in Hok. destruct (parse_string_quote s rest Hok) as (q & Hq & Hp).
    cbn [stringify]. rewrite Hq. cbn [parse_value]. rewrite skip_ws_black by done. eval_tests. cbv iota.
    by rewrite Hp.
  - destruct vs as [|v vs]; [done|]. apply json_ok_arr in Hok as Hall.
    destruct (stringify_head v (Forall_inv Hall)) as (c & t & Ht & Hws & Hc & _).
    cbn [stringify]. rewrite <- !app_assoc. eval_literals. cbn [app parse_value].
    rewrite skip_ws_black by done. eval_tests. cbv iota zeta.
    assert (eat 93 (skip_ws (join (map stringify (v :: vs)) ++ 93 :: rest)) = None) as ->.
    { destruct vs; cbn [map join]; rewrite Ht; cbn [app]; rewrite skip_ws_black by done; by rewrite eat_miss. }
    rewrite parse_elements_print; [done| |lia].
    eapply Forall_impl; [apply Forall_and; split; [exact IH|exact Hall]|]. cbn. naive_solver.
  - destruct kvs as [|kv kvs]; [done|]. apply json_ok_obj in Hok as [Hnd Hall].
    rewrite stringify_obj, <- !app_assoc. eval_literals. cbn [app parse_value].
    rewrite skip_ws_black by done. eval_tests. cbv iota zeta.
    assert (eat 125 (skip_ws (join (map print_member (kv :: kvs)) ++ 125 :: rest)) = None) as ->.
    { destruct kvs; by cbn. }
    rewrite parse_members_print; [done| |done|done|lia].
    eapply Forall_impl; [apply Forall_and; split; [exact IH|exact Hall]|]. cbn. naive_solver.
Qed.

(** Enough fuel: a value has at most two nested calls per character of its text. *)
Lemma length_join items :
  (list_sum (map (fun s => S (length s)) items) <= S (length (join items)))%nat.
Proof.
  induction items as [|x [|y items] IH]; [cbn; lia|cbn; lia|].
  rewrite join_cons, !length_app. eval_literals. cbn [map list_sum fold_right length] in *. lia.
Qed.

Lemma list_sum_le {A} (f g : A -> nat) l :
  Forall (fun x => (f x <= g x)%nat) l -> (list_sum (map f l) <= list_sum (map g l))%nat.
Proof. unfold list_sum. induction 1; cbn in *; lia. Qed.

Lemma list_sum_double {A} (f : A -> nat) l :
  (list_sum (map (fun x => 2 * f x) l) = 2 * list_sum (map f l))%nat.
Proof. unfold list_sum. induction l; cbn in *; lia. Qed.

Lemma jsize_text v : json_ok v = true -> (jsize v <= 2 * length (stringify v))%nat.
Proof.
  induction v as [|[]|n|s|vs IH|kvs IH] using json_nested_ind; intros Hok; try (cbn; lia).
  - destruct (print_number_head n Hok) as (c & t & Ht & _). cbn [stringify]. rewrite Ht. cbn; lia.
  - apply json_ok_arr in Hok. cbn [stringify jsize]. eval_literals. rewrite !length_app. cbn [length].
    pose proof (length_join (map stringify vs)) as Hj. rewrite map_map in Hj.
    assert (list_sum (map (fun x => S (jsize x)) vs)
      <= list_sum (map (fun x => 2 * S (length (stringify x))) vs))%nat as Hs.
    { apply list_sum_le. eapply Forall_impl; [apply Forall_and; split; [exact IH|exact Hok]|].
      cbn. intros x [Hx Hx']. specialize (Hx Hx'). lia. }
    rewrite list_sum_double in Hs. lia.
  - apply json_ok_obj in Hok as [_ Hok]. rewrite stringify_obj. cbn [jsize]. eval_literals. rewrite !length_app. cbn [length].
    pose proof (length_join (map print_member kvs)) as Hj. rewrite map_map in Hj.
    assert (list_sum (map (fun x => S (jsize x.2)) kvs)
      <= list_sum (map (fun x => 2 * S (length (print_member x))) kvs))%nat as Hs.
    { apply list_sum_le. eapply Forall_impl; [apply Forall_and; split; [exact IH|exact Hok]|].
      cbv beta. intros x [Hx [_ Hx']]. specialize (Hx Hx'). unfold print_member. rewrite !length_app. lia. }
    rewrite list_sum_double in Hs. lia.
Qed.

(** [JSON.parse(JSON.stringify(v))] is [v]. *)
Theorem parse_stringify v : json_ok v = true -> parse (stringify v) = Some v.
Proof.
  intros Hok. unfold parse. pose proof (stringify_reads_back v Hok) as Hrb.
  pose proof (jsize_text v Hok) as Hsz.
  specialize (Hrb (S (2 * length (stringify v))) [] ltac:(lia) I). rewrite app_nil_r in Hrb.
  by rewrite Hrb.
Qed.

(** ** The characters of JSON text *)

(** Well-formed UTF-16 without control characters. *)
Definition text_ok (s : jstring) : Prop := well_formed s /\ Forall (fun c => 32 <= c) s.

Lemma text_ok_nil : text_ok [].
Proof. split; [apply well_formed_nil|constructor]. Qed.

Lemma text_ok_app s t : text_ok s -> text_ok t -> text_ok (s ++ t).
Proof. intros [? ?] [? ?]. split; [by apply well_formed_app|by apply Forall_app]. Qed.

Lemma text_ok_ascii s : Forall (fun c => 32 <= c < 128) s -> text_ok s.
Proof.
  intros H. split; [apply well_formed_ascii|]; eapply Forall_impl; try exact H; cbv beta; lia.
Qed.

Lemma text_ok_unit u : 32 <= u -> is_unit u -> is_high u = false -> is_low u = false -> text_ok [u].
Proof.
  intros H1 H2 Hh Hl. unfold is_unit, is_high, is_low in *. split; [|by repeat constructor].
  exists [u]. split; [apply Forall_singleton; unfold is_scalar; lia|].
  cbn. unfold units_of. by decide_tests.
Qed.

Lemma text_ok_pair u l : is_high u = true -> is_low l = true -> text_ok [u; l].
Proof.
  intros Hu%is_high_range Hl%is_low_range. split; [|by repeat constructor; lia].
  exists [0x10000 + (u - 0xD800) * 1024 + (l - 0xDC00)].
  split; [apply Forall_singleton; unfold is_scalar; lia|].
  cbn -[Z.add Z.sub Z.mul]. unfold units_of. decide_tests.
  set (x := 0x10000 + (u - 0xD800) * 1024 + (l - 0xDC00) - 0x10000).
  assert (x / 1024 = u - 0xD800 /\ x mod 1024 = l - 0xDC00) as [-> ->].
  { pose proof (Z.div_mod x 1024). pose proof (Z.mod_pos_bound x 1024). unfold x in *. lia. }
  cbn [app]. f_equal; [lia|]. f_equal; lia.
Qed.

Lemma hex_char_ascii d : 0 <= d < 16 -> 32 <= hex_char d < 128.
Proof. intros. unfold hex_char. destruct (Z.ltb_spec d 10); lia. Qed.

Lemma text_ok_escape u : is_unit u -> text_ok (escape_unit u).
Proof.
  intros Hu. apply text_ok_ascii. unfold escape_unit, is_unit in *. eval_literals.
  repeat constructor; try lia; apply hex_char_ascii; Z.to_euclidean_division_equations; lia.
Qed.

Lemma text_ok_quote_unit u : is_unit u -> is_high u = false -> is_low u = false -> text_ok (quote_unit u).
Proof.
  intros Hu Hh Hl. unfold quote_unit.
  repeat match goal with |- context [?a =? ?b] =>
    destruct (Z.eqb_spec a b) as [->|?]; [apply text_ok_ascii; eval_literals; repeat constructor; lia|] end.
  destruct (Z.ltb_spec u 32); [by apply text_ok_escape|by apply text_ok_unit].
Qed.

Lemma text_ok_quote_body s : Forall is_unit s -> text_ok (quote_body s).
Proof.
  induction s as [|u s IH IH2] using string_ind2; intros Hs; [apply text_ok_nil|].
  pose proof (Forall_inv Hs) as Hu. pose proof (Forall_inv_tail Hs) as Ht. specialize (IH Ht).
  cbn [quote_body]. destruct (is_high u) eqn:Eh.
  - destruct s as [|l s']; [by apply text_ok_escape|]. destruct (is_low l) eqn:El.
    + change (text_ok ([u; l] ++ quote_body s')). apply text_ok_app; [by apply text_ok_pair|].
      apply (IH2 l s'); [done|]. by apply (Forall_inv_tail Ht).
    + apply text_ok_app; [by apply text_ok_escape|done].
  - destruct (is_low u) eqn:El; apply text_ok_app; auto using text_ok_escape, text_ok_quote_unit.
Qed.

Lemma text_ok_quote s : Forall is_unit s -> text_ok (quote s).
Proof.
  intros H. unfold quote. repeat apply text_ok_app; auto using text_ok_quote_body;
    apply text_ok_ascii; repeat constructor; lia.
Qed.

Lemma text_ok_chars ds : Forall is_digit ds -> text_ok (chars_of ds).
Proof.
  intros H. apply text_ok_ascii. unfold chars_of. apply Forall_map.
  eapply Forall_impl; [exact H|]. unfold is_digit. cbn -[Z.add]. lia.
Qed.

Ltac text_ok_literal := apply text_ok_ascii; eval_literals; repeat constructor; lia.

Lemma text_ok_number n : number_ok n = true -> text_ok (print_number n).
Proof.
  intros [->|Hs]%number_ok_cases; [change (text_ok (js "0")); text_ok_literal|].
  destruct n as [s ds e], Hs as [Hds (d & l & Hdl & _) _]. cbn [sig] in Hds, Hdl. subst ds.
  pose proof (digits_digits (Z.abs (e + zlen (d :: l) - 1)) ltac:(lia)) as Hx.
  destruct (take_drop_digits (Z.to_nat (e + zlen (d :: l))) _ Hds) as [Ht Hd].
  pose proof (Forall_inv Hds) as Hd0. pose proof (Forall_inv_tail Hds) as Hl.
  unfold print_number; cbn [neg sig expo].
  repeat case_match; repeat apply text_ok_app;
    first [apply text_ok_nil|text_ok_literal|apply text_ok_chars;
           repeat first [done|apply Forall_app; split|apply zeros_digits|constructor]].
Qed.

Lemma text_ok_join items : Forall text_ok items -> text_ok (join items).
Proof.
  induction 1 as [|x [|y items] Hx Hi IH]; [apply text_ok_nil|done|].
  rewrite join_cons. repeat apply text_ok_app; [done|text_ok_literal|done].
Qed.

Theorem stringify_text_ok v : json_ok v = true -> text_ok (stringify v).
Proof.
  induction v as [|[]|n|s|vs IH|kvs IH] using json_nested_ind; intros Hok; try (cbn [stringify]; text_ok_literal).
  - by apply text_ok_number.
  - by apply text_ok_quote, unit_ok_units.
  - apply json_ok_arr in Hok. cbn [stringify].
    repeat apply text_ok_app; try text_ok_literal. apply text_ok_join, Forall_map.
    eapply Forall_impl; [apply Forall_and; split; [exact IH|exact Hok]|]. cbv beta. naive_solver.
  - apply json_ok_obj in Hok as [_ Hok]. rewrite stringify_obj.
    repeat apply text_ok_app; try text_ok_literal. apply text_ok_join, Forall_map.
    eapply Forall_impl; [apply Forall_and; split; [exact IH|exact Hok]|].
    intros [k v] [Hv [Hk Hok']]. unfold print_member; cbn [fst snd] in *.
    apply text_ok_app; [by apply text_ok_quote|]. apply text_ok_app; [text_ok_literal|auto].
Qed.

(** The UTF-8 bytes of JSON text hold no control byte: no line feed, no carriage return. *)
Lemma stringify_no_control v b :
  json_ok v = true -> b ∈ utf8_encode (stringify v) -> 32 <= b.
Proof.
  intros Hok Hb. destruct (stringify_text_ok v Hok) as [Hwf Hp].
  destruct (Z.lt_ge_cases b 32) as [Hlt|]; [|done].
  apply utf8_encode_small in Hb; [|done|lia]. rewrite Forall_forall in Hp. auto.
Qed.

Lemma stringify_utf8 v : json_ok v = true -> utf8_decode (utf8_encode (stringify v)) = stringify v.
Proof. intros Hok. apply utf8_roundtrip. by destruct (stringify_text_ok v Hok). Qed.
