(* ===== verification/Regex.v ===== *)
(** * Regular expressions

    The anchored patterns of the source ([/^...$/], no flags) as syntax trees,
    matched by derivatives, with the language of a tree as the reference. *)

From S2P Require Import Prelude.

Inductive regex : Type :=
| RNone
| REps
| RClass (ranges : list (Z * Z))
| RSeq (r1 r2 : regex)
| RAlt (r1 r2 : regex)
| RStar (r : regex).

Definition ROpt (r : regex) : regex := RAlt r REps.
Definition RPlus (r : regex) : regex := RSeq r (RStar r).
Definition RChar (c : Z) : regex := RClass [(c, c)].

Definition in_class (ranges : list (Z * Z)) (c : Z) : bool :=
  existsb (fun '(lo, hi) => (lo <=? c) && (c <=? hi)) ranges.

(** ** The language of a pattern *)

Inductive lang : regex -> jstring -> Prop :=
| LEps : lang REps []
| LClass ranges c : in_class ranges c = true -> lang (RClass ranges) [c]
| LSeq r1 r2 s t : lang r1 s -> lang r2 t -> lang (RSeq r1 r2) (s ++ t)
| LAltL r1 r2 s : lang r1 s -> lang (RAlt r1 r2) s
| LAltR r1 r2 s : lang r2 s -> lang (RAlt r1 r2) s
| LStarNil r : lang (RStar r) []
| LStarCons r s t : lang r s -> lang (RStar r) t -> lang (RStar r) (s ++ t).

#[export] Hint Constructors lang : mango.

(** ** Matching by derivatives *)

Fixpoint nullable (r : regex) : bool :=
  match r with
  | RNone | RClass _ => false
  | REps | RStar _ => true
  | RSeq r1 r2 => nullable r1 && nullable r2
  | RAlt r1 r2 => nullable r1 || nullable r2
  end.

Fixpoint deriv (c : Z) (r : regex) : regex :=
  match r with
  | RNone | REps => RNone
  | RClass ranges => if in_class ranges c then REps else RNone
  | RSeq r1 r2 =>
      if nullable r1 then RAlt (RSeq (deriv c r1) r2) (deriv c r2) else RSeq (deriv c r1) r2
  | RAlt r1 r2 => RAlt (deriv c r1) (deriv c r2)
  | RStar r1 => RSeq (deriv c r1) (RStar r1)
  end.

(** [pattern.test(s)] for an anchored pattern. *)
Fixpoint matches (r : regex) (s : jstring) : bool :=
  match s with
  | [] => nullable r
  | c :: rest => matches (deriv c r) rest
  end.

Lemma nullable_lang r : nullable r = true <-> lang r [].
Proof.
  split.
  - induction r; cbn; intros H; try done; auto with mango.
    + apply andb_true_iff in H as [H1 H2]. change (@nil Z) with (@nil Z ++ []). auto with mango.
    + apply orb_true_iff in H as [H|H]; auto with mango.
  - remember [] as s eqn:Hs. induction 1; cbn; try done.
    + apply app_nil in Hs as [-> ->]. by rewrite IHlang1, IHlang2.
    + by rewrite IHlang.
    + rewrite IHlang by done. apply orb_true_r.
Qed.

Lemma deriv_sound c r s : lang (deriv c r) s -> lang r (c :: s).
Proof.
  revert s; induction r as [| |ranges|r1 IH1 r2 IH2|r1 IH1 r2 IH2|r IH]; intros s H; cbn in H.
  - inversion H.
  - inversion H.
  - destruct (in_class ranges c) eqn:E; inversion H; subst. by constructor.
  - assert (lang (RSeq (deriv c r1) r2) s -> lang (RSeq r1 r2) (c :: s)) as Hseq.
    { inversion 1; subst. rewrite app_comm_cons. auto with mango. }
    destruct (nullable r1) eqn:E; [|auto]. inversion H; subst; [auto|].
    change (c :: s) with ([] ++ c :: s). apply LSeq; [by apply nullable_lang|auto].
  - inversion H; subst; auto with mango.
  - inversion H; subst. rewrite app_comm_cons. auto with mango.
Qed.

Lemma deriv_complete c r s : lang r (c :: s) -> lang (deriv c r) s.
Proof.
  remember (c :: s) as cs eqn:Hcs. intros H. revert c s Hcs.
  induction H as [|ranges c0 Hc|r1 r2 s1 t H1 IH1 H2 IH2|r1 r2 s1 H IH|r1 r2 s1 H IH| |r s1 t H1 IH1 H2 IH2];
    intros c s Hcs; try done; cbn [deriv].
  - injection Hcs as <- <-. rewrite Hc. constructor.
  - destruct s1 as [|x s1].
    + cbn in Hcs. rewrite (proj2 (nullable_lang r1)) by done. apply LAltR. auto.
    + injection Hcs as -> <-. destruct (nullable r1); auto with mango.
  - apply LAltL. auto.
  - apply LAltR. auto.
  - destruct s1 as [|x s1]; [cbn in Hcs; by apply IH2|]. injection Hcs as -> <-. auto with mango.
Qed.

(** The matcher decides the language. *)
Lemma matches_lang r s : matches r s = true <-> lang r s.
Proof.
  revert r; induction s as [|c s IH]; intros r; cbn.
  - apply nullable_lang.
  - rewrite IH. split; [apply deriv_sound|apply deriv_complete].
Qed.

(** ** Inversion principles *)

Lemma lang_seq r1 r2 u : lang (RSeq r1 r2) u <-> exists s t, u = s ++ t /\ lang r1 s /\ lang r2 t.
Proof. split; [inversion 1; subst; eauto|intros (s & t & -> & ? & ?); auto with mango]. Qed.

Lemma lang_opt r u : lang (ROpt r) u <-> u = [] \/ lang r u.
Proof.
  unfold ROpt. split.
  - inversion 1; subst; [by right|]. left. by match goal with H : lang REps _ |- _ => inversion H end.
  - intros [->|H]; auto with mango.
Qed.

Lemma lang_class ranges u : lang (RClass ranges) u <-> exists c, u = [c] /\ in_class ranges c = true.
Proof. split; [inversion 1; subst; eauto|intros (c & -> & ?); auto with mango]. Qed.

Lemma lang_char k u : lang (RChar k) u <-> u = [k].
Proof.
  unfold RChar. rewrite lang_class. split.
  - intros (c & -> & H). cbn in H. f_equal. lia.
  - intros ->. exists k. split; [done|]. cbn. lia.
Qed.

Lemma lang_star_class ranges u : lang (RStar (RClass ranges)) u <-> Forall (fun c => in_class ranges c = true) u.
Proof.
  split.
  - remember (RStar (RClass ranges)) as r eqn:Hr. induction 1; try discriminate; [constructor|].
    injection Hr as ->. match goal with H : lang (RClass _) _ |- _ => apply lang_class in H as (c & -> & ?) end.
    cbn. constructor; auto.
  - induction 1 as [|c u Hc _ IH]; [constructor|]. change (c :: u) with ([c] ++ u). auto with mango.
Qed.

Lemma lang_star r u : lang (RStar r) u <-> exists parts, u = concat parts /\ Forall (lang r) parts.
Proof.
  split.
  - remember (RStar r) as r' eqn:Hr. induction 1; try discriminate; [by exists []|].
    injection Hr as ->. destruct IHlang2 as (parts & -> & HF); [done|]. exists (s :: parts). split; [done|].
    by constructor.
  - intros (parts & -> & HF). induction HF; cbn; auto with mango.
Qed.

Lemma lang_plus r u :
  lang (RPlus r) u <-> exists part parts, u = concat (part :: parts) /\ Forall (lang r) (part :: parts).
Proof.
  unfold RPlus. rewrite lang_seq. split.
  - intros (s & t & -> & Hs & (parts & -> & HF)%lang_star). exists s, parts. split; [done|by constructor].
  - intros (p & ps & -> & HF). exists p, (concat ps). repeat split; [by apply (Forall_inv HF)|].
    apply lang_star. exists ps. split; [done|by apply (Forall_inv_tail HF)].
Qed.
