(* ===== verification/Wire.v ===== *)
(** * The wire vocabulary of the protocol SDK

    [packages/protocol/src]: option validation ([codec/limits.ts]), reason codes
    ([close.ts]), the error vocabulary ([errors.ts]), version negotiation
    ([version.ts]) and the name grammars of [schemas/common.ts]. *)

From S2P Require Import Prelude Regex.

(** ** Numbers an option may hold

    An integer, or a number that is none (a fraction, an infinity, [NaN]),
    known here by its spelling. *)

Inductive jsnum : Type :=
| NInt (z : Z)
| NOther (shown : jstring).

(** What a caller may pass for an option at run time, whatever its type says. *)
Inductive jsarg : Type :=
| ANum (n : jsnum)
| AObject
| AFunction
| APrim (shown : jstring).

Definition as_integer (a : jsarg) : option Z :=
  match a with ANum (NInt z) => Some z | _ => None end.

(** [kind === 'object' && resolved !== null || kind === 'function' ? kind : String(resolved)] *)
Definition received (a : jsarg) : jstring :=
  match a with
  | ANum (NInt z) => dec z
  | ANum (NOther shown) => shown
  | AObject => js "object"
  | AFunction => js "function"
  | APrim shown => shown
  end.

(** ** [codec/limits.ts]

    The thrown value is the message of the [RangeError]. *)

Definition resolveIntegerAtLeast
    (name : jstring) (value : option jsarg) (fallback floor : Z) (maximum : option Z)
    : outcome jstring Z :=
  let resolved := match value with None => ANum (NInt fallback) | Some v => v end in
  let low := Err (name ++ js " is " ++ received resolved ++ js "; expected an integer of at least " ++ dec floor) in
  match as_integer resolved with
  | None => low
  | Some z =>
      if z <? floor then low
      else
        match maximum with
        | Some m =>
            if m <? z
            then Err (name ++ js " is " ++ dec z ++ js "; expected an integer of at most " ++ dec m)
            else Ok z
        | None => Ok z
        end
  end.

Lemma resolve_bounds name value fallback floor maximum z :
  resolveIntegerAtLeast name value fallback floor maximum = Ok z ->
  floor <= z /\ (forall m, maximum = Some m -> z <= m).
Proof.
  unfold resolveIntegerAtLeast. destruct (as_integer _) as [x|]; [|done].
  destruct (Z.ltb_spec x floor); [done|]. destruct maximum as [m|].
  - destruct (Z.ltb_spec m x); [done|]. intros [= <-]. split; [done|]. by intros ? [= <-].
  - intros [= <-]. by split.
Qed.

Lemma resolve_given name z fallback floor maximum :
  floor <= z -> (forall m, maximum = Some m -> z <= m) ->
  resolveIntegerAtLeast name (Some (ANum (NInt z))) fallback floor maximum = Ok z.
Proof.
  intros Hf Hm. unfold resolveIntegerAtLeast; cbn. rewrite (proj2 (Z.ltb_ge _ _)) by done.
  destruct maximum as [m|]; [|done]. by rewrite (proj2 (Z.ltb_ge _ _)) by auto.
Qed.

(** ** [errors.ts] *)

Definition UNAVAILABLE : jstring := js "UNAVAILABLE".
Definition INVALID_REQUEST : jstring := js "INVALID_REQUEST".
Definition METHOD_UNSUPPORTED : jstring := js "METHOD_UNSUPPORTED".
Definition INVALID_PARAMS : jstring := js "INVALID_PARAMS".
Definition DENIED : jstring := js "DENIED".
Definition CANCELLED : jstring := js "CANCELLED".
Definition TIMEOUT : jstring := js "TIMEOUT".
Definition FRAME_TOO_LARGE : jstring := js "FRAME_TOO_LARGE".
Definition CODE_PROTOCOL_MISMATCH : jstring := js "PROTOCOL_MISMATCH".
Definition INTERNAL : jstring := js "INTERNAL".

Definition RESERVED_ERROR_CODES : list jstring :=
  [UNAVAILABLE; INVALID_REQUEST; METHOD_UNSUPPORTED; INVALID_PARAMS; DENIED; CANCELLED;
   TIMEOUT; FRAME_TOO_LARGE; CODE_PROTOCOL_MISMATCH; INTERNAL].

Definition isReservedErrorCode (code : jstring) : bool := bool_decide (code ∈ RESERVED_ERROR_CODES).

Inductive CodecErrorKind : Type :=
| invalid_json | schema_refused | too_large | empty_record
| chunk_version | chunk_header | chunk_count | chunk_index | chunk_dribble.

Record CodecError : Type := {
  kind : CodecErrorKind;
  message : jstring;
  frameType : option jstring
}.

Global Instance CodecErrorKind_eq_dec : EqDecision CodecErrorKind.
Proof. solve_decision. Defined.

Definition codecError (k : CodecErrorKind) (m : jstring) : CodecError :=
  {| kind := k; message := m; frameType := None |}.

(** What the codecs throw: a refusal, or the [RangeError] of a bad option. *)
Inductive exn : Type :=
| ECodec (e : CodecError)
| ERange (msg : jstring).

Definition range {A} (o : outcome jstring A) : outcome exn A :=
  match o with Ok a => Ok a | Err m => Err (ERange m) end.

(** ** [close.ts] *)

Definition RELEASED : Z := 4000.
Definition PROTOCOL_ERROR : Z := 4400.
Definition UNAUTHORIZED : Z := 4401.
Definition FORBIDDEN : Z := 4403.
Definition SUPERSEDED : Z := 4409.
Definition PROTOCOL_MISMATCH : Z := 4426.
Definition RATE_LIMITED : Z := 4429.
Definition INTERNAL_CLOSE : Z := 4500.

(** [CLOSE_CODES], in declaration order. *)
Definition CLOSE_CODES : list (jstring * Z) :=
  [(js "RELEASED", RELEASED); (js "PROTOCOL_ERROR", PROTOCOL_ERROR);
   (js "UNAUTHORIZED", UNAUTHORIZED); (js "FORBIDDEN", FORBIDDEN);
   (js "SUPERSEDED", SUPERSEDED); (js "PROTOCOL_MISMATCH", PROTOCOL_MISMATCH);
   (js "RATE_LIMITED", RATE_LIMITED); (js "INTERNAL", INTERNAL_CLOSE)].

Definition CLOSE_CODE_MIN : Z := 4000.
Definition CLOSE_CODE_MAX : Z := 4999.

Definition FATAL_CLOSE_CODES : list Z := [UNAUTHORIZED; FORBIDDEN; SUPERSEDED; PROTOCOL_MISMATCH].

Definition isFatalCloseCode (code : Z) : bool := bool_decide (code ∈ FATAL_CLOSE_CODES).

Definition closeCodeName (code : Z) : option jstring :=
  fst <$> List.find (fun '(_, value) => value =? code) CLOSE_CODES.

Definition isCloseCode (code : jsnum) : bool :=
  match code with
  | NInt z => (CLOSE_CODE_MIN <=? z) && (z <=? CLOSE_CODE_MAX)
  | NOther _ => false
  end.

Definition closeCodeForCodecError (error : CodecError) : Z :=
  match kind error with
  | schema_refused =>
      if bool_decide (frameType error = Some (js "hello")) then PROTOCOL_MISMATCH else PROTOCOL_ERROR
  | _ => PROTOCOL_ERROR
  end.

(** ** [version.ts] *)

Definition PROTOCOL_MAJOR : Z := 1.
Definition PROTOCOL_MINOR : Z := 2.
Definition ORDERED_ANSWER_MINOR : Z := 2.

Record ProtocolVersion : Type := { major : Z; minor : Z }.

Definition PROTOCOL_VERSION : ProtocolVersion := {| major := PROTOCOL_MAJOR; minor := PROTOCOL_MINOR |}.

Inductive Negotiation : Type :=
| Negotiated (effectiveMinor : Z)
| Mismatch (closeCode : Z).

Definition negotiate (local remote : ProtocolVersion) : Negotiation :=
  if negb (major local =? major remote) then Mismatch PROTOCOL_MISMATCH
  else Negotiated (Z.min (minor local) (minor remote)).

(** ** [schemas/common.ts]: names *)

Definition lower : Z * Z := (97, 122).
Definition upper : Z * Z := (65, 90).
Definition digit : Z * Z := (48, 57).

(** [[a-z](?:[a-z0-9-]*[a-z0-9])?] *)
Definition segment_pattern : regex :=
  RSeq (RClass [lower])
    (ROpt (RSeq (RStar (RClass [lower; digit; (45, 45)])) (RClass [lower; digit]))).

Definition METHOD_PATTERN : regex := RSeq segment_pattern (RPlus (RSeq (RChar 46) segment_pattern)).
Definition ERROR_CODE_PATTERN : regex := RSeq (RClass [upper]) (RStar (RClass [upper; digit; (95, 95)])).
Definition ROLE_PATTERN : regex := RSeq (RClass [lower]) (RStar (RClass [lower; digit; (45, 45)])).

Definition ID_MAX_LENGTH : Z := 256.
Definition METHOD_MAX_LENGTH : Z := 128.
Definition METHOD_MIN_LENGTH : Z := 3.
Definition ERROR_CODE_MAX_LENGTH : Z := 64.
Definition CLOSE_REASON_MAX_LENGTH : Z := 1024.
Definition PEER_FIELD_MAX_LENGTH : Z := 128.
Definition ROLE_MAX_LENGTH : Z := 64.

Definition RPC_RESERVED_PREFIX : jstring := js "rpc.".
Definition RPC_DISCOVER : jstring := js "rpc.discover".
Definition RPC_DISCOVER_MINOR : Z := 1.

Definition starts_with (p s : jstring) : bool := bool_decide (take (length p) s = p).

Definition isDefinedReservedMethod (value : jstring) (effectiveMinor : Z) : bool :=
  bool_decide (value = RPC_DISCOVER) && (RPC_DISCOVER_MINOR <=? effectiveMinor).

Definition isValidMethodName (value : jstring) : bool :=
  (zlen value <=? METHOD_MAX_LENGTH) && matches METHOD_PATTERN value.

Definition isReservedMethodName (value : jstring) : bool := starts_with RPC_RESERVED_PREFIX value.

(** ** What the grammars accept *)

(** A segment: a lower-case letter first, then letters, digits and dashes, no dash last. *)
Definition segment (p : jstring) : Prop :=
  exists first rest, p = first :: rest /\ in_class [lower] first = true
    /\ Forall (fun c => in_class [lower; digit; (45, 45)] c = true) rest
    /\ List.last p 0 <> 45.

Lemma dash_last c : in_class [lower; digit; (45, 45)] c = true ->
  in_class [lower; digit] c = true <-> c <> 45.
Proof. cbn. lia. Qed.

Lemma lang_segment p : lang segment_pattern p <-> segment p.
Proof.
  unfold segment_pattern, segment. rewrite lang_seq. split.
  - intros (s & t & -> & (c & -> & Hc)%lang_class & Ht). exists c, t. split; [done|]. split; [done|].
    apply lang_opt in Ht as [->|Ht]; [split; [constructor|cbn in *; lia]|].
    apply lang_seq in Ht as (u & v & -> & Hu%lang_star_class & (d & -> & Hd)%lang_class).
    split; [apply Forall_app; split; [done|constructor; [cbn in *; lia|constructor]]|].
    rewrite app_comm_cons, app_assoc || idtac. cbn [app]. rewrite app_comm_cons, last_last. cbn in Hd. lia.
  - intros (c & t & -> & Hc & Ht & Hl). exists [c], t. split; [done|]. split; [apply lang_class; eauto|].
    apply lang_opt. destruct t as [|d t _] using rev_ind; [by left|right].
    apply Forall_app in Ht as [Ht Hd]. apply Forall_inv in Hd.
    rewrite app_comm_cons, last_last in Hl.
    apply lang_seq. exists t, [d]. repeat split; [by apply lang_star_class|].
    apply lang_class. exists d. split; [done|]. by apply dash_last.
Qed.

(** Segments joined with dots. *)
Definition dotted (first : jstring) (more : list jstring) : jstring :=
  first ++ concat (map (cons 46) more).

Lemma lang_dot_segment u : lang (RSeq (RChar 46) segment_pattern) u <-> exists p, u = 46 :: p /\ segment p.
Proof.
  rewrite lang_seq. split.
  - intros (s & t & -> & ->%lang_char & Ht%lang_segment). eauto.
  - intros (p & -> & Hp). exists [46], p. repeat split; [by apply lang_char|by apply lang_segment].
Qed.

Lemma dot_parts parts :
  Forall (lang (RSeq (RChar 46) segment_pattern)) parts <->
  exists segs, parts = map (cons 46) segs /\ Forall segment segs.
Proof.
  split.
  - induction 1 as [|x parts Hx _ (segs & -> & HF)]; [by exists []|].
    apply lang_dot_segment in Hx as (p & -> & Hp). exists (p :: segs). split; [done|by constructor].
  - intros (segs & -> & HF). induction HF; constructor; [apply lang_dot_segment; eauto|done].
Qed.

Lemma method_pattern_segments s :
  matches METHOD_PATTERN s = true <->
  exists first second more, s = dotted first (second :: more) /\ Forall segment (first :: second :: more).
Proof.
  rewrite matches_lang. unfold METHOD_PATTERN, dotted. rewrite lang_seq. split.
  - intros (f & t & -> & Hf%lang_segment & (p & ps & -> & (segs & Hs & HF)%dot_parts)%lang_plus).
    destruct segs as [|q qs]; [done|]. injection Hs as -> ->. exists f, q, qs. split; [done|by constructor].
  - intros (f & q & qs & -> & HF). exists f, (concat (map (cons 46) (q :: qs))). split; [done|]. split.
    + apply lang_segment, (Forall_inv HF).
    + apply lang_plus. exists (46 :: q), (map (cons 46) qs). split; [done|].
      apply dot_parts. exists (q :: qs). split; [done|by apply (Forall_inv_tail HF)].
Qed.

(** A valid method name or topic is exactly a sequence of at least two segments
    joined with dots, of at most 128 characters in all; a segment is a lower-case
    letter followed by lower-case letters, digits and dashes, and does not end in
    a dash. *)
Theorem method_name_grammar s :
  isValidMethodName s = true <->
  zlen s <= METHOD_MAX_LENGTH /\
  exists first second more, s = dotted first (second :: more) /\ Forall segment (first :: second :: more).
Proof. unfold isValidMethodName. by rewrite andb_true_iff, Z.leb_le, method_pattern_segments. Qed.

(** Names are printable ASCII and at least as long as the shortest one, [a.b]. *)
Lemma segment_ascii p : segment p -> Forall (fun c => 32 <= c <= 126) p /\ 1 <= zlen p.
Proof.
  intros (c & r & -> & Hc & Hr & _). split; [|rewrite zlen_cons; pose proof (zlen_nonneg r); lia].
  constructor; [cbn in Hc; lia|]. eapply Forall_impl; [exact Hr|]. intros x Hx. cbn in Hx. lia.
Qed.

Lemma method_name_ascii s :
  isValidMethodName s = true -> Forall (fun c => 32 <= c <= 126) s /\ METHOD_MIN_LENGTH <= zlen s <= METHOD_MAX_LENGTH.
Proof.
  unfold isValidMethodName. rewrite andb_true_iff, Z.leb_le, method_pattern_segments.
  intros [Hl (f & g & more & -> & HF)]. inversion_clear HF as [|? ? Hf HF']. inversion_clear HF' as [|? ? Hg HF''].
  destruct (segment_ascii f Hf) as [Af Lf], (segment_ascii g Hg) as [Ag Lg]. unfold dotted in *. cbn [map concat] in *.
  assert (Forall (fun c => 32 <= c <= 126) (concat (map (cons 46) more))) as Am.
  { clear Hl. induction HF'' as [|p ps Hp _ IH]; [constructor|]. cbn. constructor; [lia|].
    apply Forall_app. split; [by apply segment_ascii|done]. }
  split.
  - apply Forall_app. split; [done|]. cbn. constructor; [lia|]. apply Forall_app. by split.
  - split; [|done]. rewrite !zlen_app, zlen_cons. unfold METHOD_MIN_LENGTH. pose proof (zlen_nonneg (concat (map (cons 46) more))). lia.
Qed.
