(* ===== verification/Frames.v ===== *)
(** * Frames

    [packages/protocol/src/schemas/frames.ts]: the nine wire frames, the schema
    each one is checked against and [assertFrame]. The schemas are data, as
    they are in the source; the library that interprets them (TypeBox) is the
    interface [TypeBox], whose law is the JSON Schema meaning of the keywords
    the source uses. *)

From S2P Require Import Prelude Utf8 Regex Json JsonFacts Wire.

(** ** Schemas as data *)

Inductive schema : Type :=
| SLiteral (s : jstring)
| STrue
| SBoolean
| SInteger (minimum maximum : option Z)
| SString (minLength maxLength : option Z) (pattern : option regex)
| SOpenObject
| SUnknown
| SArray (items : schema) (uniqueItems : bool)
| SObject (properties : list (jstring * (bool * schema)))
| SClosedObject (properties : list (jstring * (bool * schema)))
| SNull
| SUnion (alternatives : list schema).

Definition required (k : jstring) (s : schema) : jstring * (bool * schema) := (k, (true, s)).
Definition optional (k : jstring) (s : schema) : jstring * (bool * schema) := (k, (false, s)).

Definition at_least (bound : option Z) (z : Z) : bool :=
  match bound with Some m => m <=? z | None => true end.
Definition at_most (bound : option Z) (z : Z) : bool :=
  match bound with Some m => z <=? m | None => true end.

(** Whether a value conforms to a schema, [count] being how string lengths are counted. *)
Fixpoint conforms (count : jstring -> Z) (s : schema) (v : json) : bool :=
  match s with
  | SLiteral t => match v with JStr u => bool_decide (u = t) | _ => false end
  | STrue => match v with JBool b => b | _ => false end
  | SBoolean => match v with JBool _ => true | _ => false end
  | SInteger lo hi =>
      match v with
      | JNum n => match Z_of_num n with Some z => at_least lo z && at_most hi z | None => false end
      | _ => false
      end
  | SString lo hi pattern =>
      match v with
      | JStr u =>
          at_least lo (count u) && at_most hi (count u) &&
          match pattern with Some r => matches r u | None => true end
      | _ => false
      end
  | SOpenObject => match v with JObj _ => true | _ => false end
  | SUnknown => true
  | SArray items unique =>
      match v with
      | JArr vs => forallb (conforms count items) vs && (negb unique || distinct (map stringify vs))
      | _ => false
      end
  | SObject properties =>
      match v with
      | JObj _ =>
          forallb (fun p =>
            match member p.1 v with
            | Some x => conforms count p.2.2 x
            | None => negb p.2.1
            end) properties
      | _ => false
      end
  | SClosedObject properties =>
      match v with
      | JObj kvs =>
          forallb (fun p =>
            match member p.1 v with
            | Some x => conforms count p.2.2 x
            | None => negb p.2.1
            end) properties &&
          forallb (fun kv => existsb (fun p => bool_decide (p.1 = kv.1)) properties) kvs
      | _ => false
      end
  | SNull => match v with JNull => true | _ => false end
  | SUnion alternatives => existsb (fun a => conforms count a v) alternatives
  end.

(** [Value.Check] and [Value.Errors] of TypeBox. Lengths may be counted in code
    points or in graphemes: either is at most the number of code units, and equal to it
    for printable ASCII. *)
Class TypeBox : Type := {
  check : schema -> json -> bool;
  count : jstring -> Z;
  first_error : schema -> json -> option (jstring * jstring);
  check_conforms s v : check s v = conforms count s v;
  count_nil : count [] = 0;
  count_pos u : u <> [] -> 1 <= count u;
  count_units u : count u <= zlen u;
  count_ascii u : Forall (fun c => 32 <= c <= 126) u -> count u = zlen u
}.

(** ** [schemas/common.ts]: the scalar schemas *)

Definition IdSchema : schema := SString (Some 1) (Some ID_MAX_LENGTH) None.
Definition MethodSchema : schema :=
  SString (Some METHOD_MIN_LENGTH) (Some METHOD_MAX_LENGTH) (Some METHOD_PATTERN).
Definition TopicSchema : schema :=
  SString (Some METHOD_MIN_LENGTH) (Some METHOD_MAX_LENGTH) (Some METHOD_PATTERN).
Definition ErrorCodeSchema : schema :=
  SString (Some 1) (Some ERROR_CODE_MAX_LENGTH) (Some ERROR_CODE_PATTERN).
Definition CloseCodeSchema : schema := SInteger (Some CLOSE_CODE_MIN) (Some CLOSE_CODE_MAX).
Definition RoleSchema : schema := SString (Some 1) (Some ROLE_MAX_LENGTH) (Some ROLE_PATTERN).
Definition OpenObjectSchema : schema := SOpenObject.

Definition PREVIEW_MAX_LENGTH : nat := 120.

(** [preview] of a JSON value: its text, cut to 120 units and an ellipsis. *)
Definition preview (value : json) : jstring :=
  let text := stringify value in
  if (length text <=? PREVIEW_MAX_LENGTH)%nat then text
  else take PREVIEW_MAX_LENGTH text ++ [0x2026].

Definition describeSchemaFailure `{TypeBox} (subject : jstring) (s : schema) (value : json) : jstring :=
  let '(where_, detail) :=
    match first_error s value with
    | None => (js "(root)", js "is not valid")
    | Some ([], m) => (js "(root)", m)
    | Some (path, m) => (path, m)
    end in
  subject ++ js ": " ++ where_ ++ js " " ++ detail ++ js "; received " ++ preview value.

(** ** Frame schemas *)

Definition MIN_ANNOUNCED_FRAME_BYTES : Z := 4096.
Definition MAX_ANNOUNCED_FRAME_BYTES : Z := 2147483647.
Definition MIN_ANNOUNCED_IN_FLIGHT : Z := 1.
Definition MAX_ANNOUNCED_IN_FLIGHT : Z := 2147483647.

Definition ProtocolVersionSchema : schema :=
  SObject [required (js "major") (SInteger (Some 1) None);
           required (js "minor") (SInteger (Some 0) None)].

Definition PeerInfoSchema : schema :=
  SObject [required (js "name") (SString (Some 1) (Some PEER_FIELD_MAX_LENGTH) None);
           required (js "version") (SString (Some 1) (Some PEER_FIELD_MAX_LENGTH) None);
           required (js "role") RoleSchema].

Definition LimitsSchema : schema :=
  SObject [optional (js "maxFrameBytes")
             (SInteger (Some MIN_ANNOUNCED_FRAME_BYTES) (Some MAX_ANNOUNCED_FRAME_BYTES));
           optional (js "maxInFlight")
             (SInteger (Some MIN_ANNOUNCED_IN_FLIGHT) (Some MAX_ANNOUNCED_IN_FLIGHT))].

Definition CapabilitiesSchema : schema := SOpenObject.

Definition ErrorPayloadSchema : schema :=
  SObject [required (js "code") ErrorCodeSchema;
           required (js "message") (SString (Some 1) None None);
           optional (js "details") OpenObjectSchema].

Definition HelloFrameSchema : schema :=
  SObject [required (js "type") (SLiteral (js "hello"));
           required (js "protocol") ProtocolVersionSchema;
           required (js "peer") PeerInfoSchema;
           required (js "capabilities") CapabilitiesSchema;
           optional (js "limits") LimitsSchema].

Definition RequestFrameSchema : schema :=
  SObject [required (js "type") (SLiteral (js "req"));
           required (js "id") IdSchema;
           required (js "method") MethodSchema;
           required (js "params") SUnknown].

Definition ResultFrameSchema : schema :=
  SObject [required (js "type") (SLiteral (js "res"));
           required (js "id") IdSchema;
           required (js "result") SUnknown].

Definition ErrorFrameSchema : schema :=
  SObject [required (js "type") (SLiteral (js "err"));
           required (js "id") IdSchema;
           required (js "error") ErrorPayloadSchema].

Definition EventFrameSchema : schema :=
  SObject [required (js "type") (SLiteral (js "evt"));
           required (js "topic") TopicSchema;
           required (js "seq") (SInteger (Some 0) None);
           optional (js "streamId") IdSchema;
           required (js "payload") SUnknown;
           optional (js "end") STrue].

Definition CancelFrameSchema : schema :=
  SObject [required (js "type") (SLiteral (js "cancel"));
           required (js "id") IdSchema].

Definition PingFrameSchema : schema := SObject [required (js "type") (SLiteral (js "ping"))].
Definition PongFrameSchema : schema := SObject [required (js "type") (SLiteral (js "pong"))].

Definition CloseFrameSchema : schema :=
  SObject [required (js "type") (SLiteral (js "close"));
           required (js "code") CloseCodeSchema;
           optional (js "reason") (SString None (Some CLOSE_REASON_MAX_LENGTH) None)].

(** [FRAME_SCHEMAS], in declaration order. *)
Definition FRAME_SCHEMAS : list (jstring * schema) :=
  [(js "hello", HelloFrameSchema); (js "req", RequestFrameSchema); (js "res", ResultFrameSchema);
   (js "err", ErrorFrameSchema); (js "evt", EventFrameSchema); (js "cancel", CancelFrameSchema);
   (js "ping", PingFrameSchema); (js "pong", PongFrameSchema); (js "close", CloseFrameSchema)].

Definition FrameSchema : schema :=
  SUnion [HelloFrameSchema; RequestFrameSchema; ResultFrameSchema; ErrorFrameSchema;
          EventFrameSchema; CancelFrameSchema; PingFrameSchema; PongFrameSchema; CloseFrameSchema].

Definition FRAME_TYPES : list jstring := map fst FRAME_SCHEMAS.

(** [FRAME_TYPES.join(', ')] *)
Fixpoint join_comma (items : list jstring) : jstring :=
  match items with
  | [] => []
  | [x] => x
  | x :: rest => x ++ js ", " ++ join_comma rest
  end.

Definition frameTypeOf (value : json) : option jstring :=
  match member (js "type") value with
  | Some (JStr t) => Some t
  | _ => None
  end.

Definition branchFor (type : option jstring) : option schema :=
  t ← type; snd <$> List.find (fun p => bool_decide (p.1 = t)) FRAME_SCHEMAS.

Definition isFrame `{TypeBox} (value : json) : bool := check FrameSchema value.

Definition assertFrame `{TypeBox} (value : json) : outcome CodecError unit :=
  if isFrame value then Ok tt
  else
    let frameType := frameTypeOf value in
    let branch := branchFor frameType in
    match frameType, branch with
    | Some t, None =>
        Err {| kind := schema_refused;
               message := js "unknown frame type " ++ quote t ++ js "; expected one of " ++ join_comma FRAME_TYPES;
               frameType := frameType |}
    | _, _ =>
        Err {| kind := schema_refused;
               message := describeSchemaFailure (js "frame does not match the wire schema")
                            (default FrameSchema branch) value;
               frameType := frameType |}
    end.

(** ** Frames as the session reads and writes them *)

(** A JavaScript value where the wire carries any JSON: [undefined], a value
    [JSON.stringify] carries, or one it throws on, with what it says. *)
Inductive jsval : Type :=
| VUndefined
| VJson (j : json)
| VUnserialisable (why : jstring).

Record PeerInfo : Type := { peer_name : jstring; peer_version : jstring; peer_role : jstring }.

Record Limits : Type := { maxFrameBytes : option Z; maxInFlight : option Z }.

Record ErrorPayload : Type := {
  err_code : jstring;
  err_message : jstring;
  err_details : option (list (jstring * json))
}.

Inductive frame : Type :=
| FHello (protocol : ProtocolVersion) (peer : PeerInfo)
    (capabilities : list (jstring * json)) (limits : option Limits)
| FReq (id method : jstring) (params : jsval)
| FRes (id : jstring) (result : jsval)
| FErr (id : jstring) (error : ErrorPayload)
| FEvt (topic : jstring) (seq : Z) (streamId : option jstring) (payload : jsval) (ending : bool)
| FCancel (id : jstring)
| FPing
| FPong
| FClose (code : Z) (reason : option jstring).

Definition JInt (z : Z) : json := JNum (num_of_Z z).

(** A member that is spread in only when it is present. *)
Definition present {A} (k : jstring) (o : option A) (f : A -> json) : list (jstring * json) :=
  match o with Some a => [(k, f a)] | None => [] end.

Definition version_json (p : ProtocolVersion) : json :=
  JObj [(js "major", JInt (major p)); (js "minor", JInt (minor p))].

Definition peer_json (p : PeerInfo) : json :=
  JObj [(js "name", JStr (peer_name p)); (js "version", JStr (peer_version p));
        (js "role", JStr (peer_role p))].

Definition limits_json (l : Limits) : json :=
  JObj (present (js "maxFrameBytes") (maxFrameBytes l) JInt ++
        present (js "maxInFlight") (maxInFlight l) JInt).

Definition error_json (e : ErrorPayload) : json :=
  JObj ([(js "code", JStr (err_code e)); (js "message", JStr (err_message e))] ++
        present (js "details") (err_details e) JObj).

(** The members of a frame object, [value] saying what a payload member becomes. *)
Definition frame_members (value : jstring -> jsval -> list (jstring * json)) (f : frame)
    : list (jstring * json) :=
  match f with
  | FHello protocol peer capabilities limits =>
      [(js "type", JStr (js "hello")); (js "protocol", version_json protocol);
       (js "peer", peer_json peer); (js "capabilities", JObj capabilities)] ++
      present (js "limits") limits limits_json
  | FReq id method params =>
      [(js "type", JStr (js "req")); (js "id", JStr id); (js "method", JStr method)] ++
      value (js "params") params
  | FRes id result => [(js "type", JStr (js "res")); (js "id", JStr id)] ++ value (js "result") result
  | FErr id error =>
      [(js "type", JStr (js "err")); (js "id", JStr id); (js "error", error_json error)]
  | FEvt topic seq streamId payload ending =>
      [(js "type", JStr (js "evt")); (js "topic", JStr topic); (js "seq", JInt seq)] ++
      present (js "streamId") streamId JStr ++
      value (js "payload") payload ++
      (if ending then [(js "end", JBool true)] else [])
  | FCancel id => [(js "type", JStr (js "cancel")); (js "id", JStr id)]
  | FPing => [(js "type", JStr (js "ping"))]
  | FPong => [(js "type", JStr (js "pong"))]
  | FClose code reason =>
      [(js "type", JStr (js "close")); (js "code", JInt code)] ++ present (js "reason") reason JStr
  end.

Definition payload_of (f : frame) : jsval :=
  match f with
  | FReq _ _ p | FRes _ p | FEvt _ _ _ p _ => p
  | _ => VJson JNull
  end.

(** The object [JSON.stringify] writes: an [undefined] member is left out. *)
Definition frame_json (f : frame) : json :=
  JObj (frame_members (fun k v => match v with VJson j => [(k, j)] | _ => [] end) f).

(** The object [Value.Check] sees: every payload member is there, and the
    schema accepts whatever it holds. *)
Definition frame_view (f : frame) : json :=
  JObj (frame_members (fun k v => match v with VJson j => [(k, j)] | _ => [(k, JNull)] end) f).

(** ** Reading a checked value as a frame *)

Definition str_of (v : json) : option jstring := match v with JStr s => Some s | _ => None end.
Definition int_of (v : json) : option Z := match v with JNum n => Z_of_num n | _ => None end.
Definition obj_of (v : json) : option (list (jstring * json)) :=
  match v with JObj kvs => Some kvs | _ => None end.

(** An optional member: absent, or readable. *)
Definition opt_member {A} (k : jstring) (f : json -> option A) (v : json) : option (option A) :=
  match member k v with
  | None => Some None
  | Some x => Some <$> f x
  end.

Definition version_of (v : json) : option ProtocolVersion :=
  ma ← member (js "major") v ≫= int_of;
  mi ← member (js "minor") v ≫= int_of;
  Some {| major := ma; minor := mi |}.

Definition peer_of (v : json) : option PeerInfo :=
  n ← member (js "name") v ≫= str_of;
  r ← member (js "version") v ≫= str_of;
  l ← member (js "role") v ≫= str_of;
  Some {| peer_name := n; peer_version := r; peer_role := l |}.

Definition limits_of (v : json) : option Limits :=
  f ← opt_member (js "maxFrameBytes") int_of v;
  i ← opt_member (js "maxInFlight") int_of v;
  Some {| maxFrameBytes := f; maxInFlight := i |}.

Definition error_of (v : json) : option ErrorPayload :=
  c ← member (js "code") v ≫= str_of;
  m ← member (js "message") v ≫= str_of;
  d ← opt_member (js "details") obj_of v;
  Some {| err_code := c; err_message := m; err_details := d |}.

Definition flag_of (v : json) : option unit := match v with JBool true => Some tt | _ => None end.

Definition frame_of_type (t : jstring) (v : json) : option frame :=
  if decide (t = js "hello") then
    p ← member (js "protocol") v ≫= version_of;
    i ← member (js "peer") v ≫= peer_of;
    c ← member (js "capabilities") v ≫= obj_of;
    l ← opt_member (js "limits") limits_of v;
    Some (FHello p i c l)
  else if decide (t = js "req") then
    i ← member (js "id") v ≫= str_of;
    m ← member (js "method") v ≫= str_of;
    p ← member (js "params") v;
    Some (FReq i m (VJson p))
  else if decide (t = js "res") then
    i ← member (js "id") v ≫= str_of;
    r ← member (js "result") v;
    Some (FRes i (VJson r))
  else if decide (t = js "err") then
    i ← member (js "id") v ≫= str_of;
    e ← member (js "error") v ≫= error_of;
    Some (FErr i e)
  else if decide (t = js "evt") then
    t ← member (js "topic") v ≫= str_of;
    s ← member (js "seq") v ≫= int_of;
    i ← opt_member (js "streamId") str_of v;
    p ← member (js "payload") v;
    e ← opt_member (js "end") flag_of v;
    Some (FEvt t s i (VJson p) (bool_decide (e <> None)))
  else if decide (t = js "cancel") then
    i ← member (js "id") v ≫= str_of; Some (FCancel i)
  else if decide (t = js "ping") then Some FPing
  else if decide (t = js "pong") then Some FPong
  else if decide (t = js "close") then
    c ← member (js "code") v ≫= int_of;
    r ← opt_member (js "reason") str_of v;
    Some (FClose c r)
  else None.

Definition frame_of (v : json) : option frame := t ← frameTypeOf v; frame_of_type t v.

(** ** Members *)

Lemma member_hit k v kvs : member k (JObj ((k, v) :: kvs)) = Some v.
Proof. cbn. by rewrite bool_decide_eq_true_2. Qed.

Lemma member_miss k k' v kvs :
  bool_decide (k' = k) = false -> member k (JObj ((k', v) :: kvs)) = member k (JObj kvs).
Proof. intros H. cbn. by rewrite H. Qed.

Ltac read_members :=
  repeat first [rewrite member_hit | rewrite member_miss by reflexivity].

Lemma int_of_JInt z : int_of (JInt z) = Some z.
Proof. apply Z_of_num_of_Z. Qed.

Lemma version_roundtrip p : version_of (version_json p) = Some p.
Proof. destruct p. unfold version_of, version_json. read_members. cbn [mbind option_bind]. by rewrite !int_of_JInt. Qed.

Lemma peer_roundtrip p : peer_of (peer_json p) = Some p.
Proof. by destruct p. Qed.

Lemma limits_roundtrip l : limits_of (limits_json l) = Some l.
Proof.
  destruct l as [[f|] [i|]]; unfold limits_of, limits_json, opt_member; cbn [maxFrameBytes maxInFlight present app];
    read_members; cbn [mbind option_bind member]; rewrite ?int_of_JInt; done.
Qed.

Lemma error_roundtrip e : error_of (error_json e) = Some e.
Proof. by destruct e as [c m [d|]]. Qed.

(** Reading back the object a frame is written as. *)
Lemma frame_of_frame_json f j :
  payload_of f = VJson j -> frame_of (frame_json f) = Some f.
Proof.
  unfold frame_of, frameTypeOf, frame_json.
  destruct f as [p i c l|i m p|i r|i e|t s i p e|i| | |c r]; cbn [payload_of]; intros Hp; try subst;
    cbn [frame_members app]; rewrite member_hit; cbn [mbind option_bind];
    unfold frame_of_type; cbn [decide]; rewrite ?decide_True by reflexivity.
  all: repeat (rewrite decide_False by discriminate || rewrite decide_True by reflexivity).
  - unfold opt_member. read_members. cbn [mbind option_bind obj_of].
    rewrite version_roundtrip, peer_roundtrip. cbn [mbind option_bind].
    destruct l as [l|]; cbn [present]; read_members; [|done]. by rewrite limits_roundtrip.
  - by read_members.
  - by read_members.
  - read_members. cbn [mbind option_bind str_of]. by rewrite error_roundtrip.
  - unfold opt_member. destruct i as [i|], e; cbn [present app]; read_members;
      cbn [mbind option_bind str_of member]; by rewrite int_of_JInt.
  - by read_members.
  - done.
  - done.
  - unfold opt_member. destruct r as [r|]; cbn [present]; read_members;
      cbn [mbind option_bind]; by rewrite int_of_JInt.
Qed.

(** ** What a conforming value holds *)

Section Conforming.
Context (c : jstring -> Z).

Definition holds (v : json) (p : jstring * (bool * schema)) : Prop :=
  match member p.1 v with
  | Some x => conforms c p.2.2 x = true
  | None => p.2.1 = false
  end.

Lemma conforms_object props v :
  conforms c (SObject props) v = true -> Forall (holds v) props.
Proof.
  cbn. destruct v; try done. intros H. rewrite forallb_forall in H. rewrite Forall_forall.
  intros p Hp%list_elem_of_In. specialize (H p Hp). unfold holds.
  destruct (member _ _); [done|by apply negb_true_iff].
Qed.

Lemma holds_required v k s : holds v (required k s) -> exists x, member k v = Some x /\ conforms c s x = true.
Proof. unfold holds, required; cbn. destruct (member k v); [eauto|done]. Qed.

Lemma holds_optional {A} v k s (f : json -> option A) :
  (forall x, conforms c s x = true -> is_Some (f x)) ->
  holds v (optional k s) -> exists o, opt_member k f v = Some o.
Proof.
  intros Hf. unfold holds, optional, opt_member; cbn. destruct (member k v) as [x|]; [|eauto].
  intros H. destruct (Hf x H) as [a ->]. cbn. eauto.
Qed.

Lemma conforms_str lo hi r v : conforms c (SString lo hi r) v = true -> is_Some (str_of v).
Proof. by destruct v. Qed.

Lemma conforms_int lo hi v : conforms c (SInteger lo hi) v = true -> is_Some (int_of v).
Proof. destruct v; cbn; try done. by destruct (Z_of_num n). Qed.

Lemma conforms_open v : conforms c SOpenObject v = true -> is_Some (obj_of v).
Proof. by destruct v. Qed.

Lemma conforms_flag v : conforms c STrue v = true -> is_Some (flag_of v).
Proof. by destruct v as [|[]| | | |]. Qed.
End Conforming.

Ltac split_holds :=
  repeat match goal with
  | H : Forall (holds _ _) (_ :: _) |- _ =>
      let H1 := fresh "Hp" in
      pose proof (Forall_inv H) as H1; apply Forall_inv_tail in H
  | H : Forall (holds _ _) [] |- _ => clear H
  | H : holds _ _ (required _ _) |- _ =>
      let x := fresh "x" in let Hm := fresh "Hm" in let Hc := fresh "Hc" in
      apply holds_required in H as (x & Hm & Hc); rewrite Hm
  | H : conforms _ (SString _ _ _) _ = true |- _ =>
      let s := fresh "s" in apply conforms_str in H as [s H]
  | H : conforms _ (SInteger _ _) _ = true |- _ =>
      let s := fresh "s" in apply conforms_int in H as [s H]
  | H : conforms _ SOpenObject _ = true |- _ =>
      let s := fresh "s" in apply conforms_open in H as [s H]
  end.

Ltac read_required :=
  cbn [mbind option_bind];
  repeat match goal with
  | H : str_of _ = Some _ |- _ => rewrite H; clear H; cbn [mbind option_bind]
  | H : int_of _ = Some _ |- _ => rewrite H; clear H; cbn [mbind option_bind]
  | H : obj_of _ = Some _ |- _ => rewrite H; clear H; cbn [mbind option_bind]
  end.

Ltac read_optional lemma :=
  match goal with
  | H : holds _ _ (optional ?k _) |- context [opt_member ?k ?f ?v] =>
      let o := fresh "o" in let Ho := fresh "Ho" in
      apply (holds_optional _ _ _ _ f) in H as [o Ho]; [|exact lemma]; rewrite Ho; clear Ho
  end.

Section Reading.
Context (c : jstring -> Z).

Lemma conforms_version v : conforms c ProtocolVersionSchema v = true -> is_Some (version_of v).
Proof. intros H%conforms_object. unfold version_of. split_holds. read_required. eauto. Qed.

Lemma conforms_peer v : conforms c PeerInfoSchema v = true -> is_Some (peer_of v).
Proof. intros H%conforms_object. unfold peer_of. unfold RoleSchema in H. split_holds. read_required. eauto. Qed.

Lemma conforms_limits v : conforms c LimitsSchema v = true -> is_Some (limits_of v).
Proof.
  intros H%conforms_object. unfold limits_of. split_holds.
  read_optional (conforms_int c (Some MIN_ANNOUNCED_FRAME_BYTES) (Some MAX_ANNOUNCED_FRAME_BYTES)).
  cbn [mbind option_bind].
  read_optional (conforms_int c (Some MIN_ANNOUNCED_IN_FLIGHT) (Some MAX_ANNOUNCED_IN_FLIGHT)).
  eauto.
Qed.

Lemma conforms_error v : conforms c ErrorPayloadSchema v = true -> is_Some (error_of v).
Proof.
  intros H%conforms_object. unfold error_of. unfold ErrorCodeSchema in H. split_holds. read_required.
  read_optional (conforms_open c). eauto.
Qed.

(** Every branch of the union, with the [type] it declares. *)
Lemma conforms_branch v :
  conforms c FrameSchema v = true -> exists t s, (t, s) ∈ FRAME_SCHEMAS /\ conforms c s v = true.
Proof.
  intros H. cbn [conforms FrameSchema] in H. apply existsb_exists in H as (s & Hs & Hc).
  do 9 (destruct Hs as [<-|Hs]; [eexists _, _; split; [|exact Hc]; repeat first [by left|right]|]).
  destruct Hs.
Qed.

Lemma conforms_type props v t :
  conforms c (SObject (required (js "type") (SLiteral t) :: props)) v = true -> frameTypeOf v = Some t.
Proof.
  intros H%conforms_object. pose proof (Forall_inv H) as (x & Hm & Hx)%holds_required.
  unfold frameTypeOf. rewrite Hm. destruct x; cbn in Hx; try done. by bool_to_prop; subst.
Qed.
End Reading.

(** The type a frame announces picks its reader. *)
Ltac pick_type :=
  repeat (rewrite decide_False by discriminate || rewrite decide_True by reflexivity).

Ltac read_nested :=
  cbn [mbind option_bind];
  repeat (match goal with
  | H : conforms ?c ProtocolVersionSchema ?x = true |- context [version_of ?x] =>
      let p := fresh "p" in destruct (conforms_version c x H) as [p ->]
  | H : conforms ?c PeerInfoSchema ?x = true |- context [peer_of ?x] =>
      let p := fresh "p" in destruct (conforms_peer c x H) as [p ->]
  | H : conforms ?c ErrorPayloadSchema ?x = true |- context [error_of ?x] =>
      let p := fresh "p" in destruct (conforms_error c x H) as [p ->]
  | H : str_of ?x = Some _ |- context [str_of ?x] => rewrite H
  | H : int_of ?x = Some _ |- context [int_of ?x] => rewrite H
  | H : obj_of ?x = Some _ |- context [obj_of ?x] => rewrite H
  end; cbn [mbind option_bind]).

Lemma conforms_frame_of c v : conforms c FrameSchema v = true -> is_Some (frame_of v).
Proof.
  intros (t & s & Hin & H)%conforms_branch. unfold frame_of.
  unfold FRAME_SCHEMAS in Hin. rewrite !elem_of_cons, elem_of_nil in Hin.
  destruct_or! Hin; try done; injection Hin as -> ->.
  all: rewrite (conforms_type _ _ _ _ H); cbn [mbind option_bind]; unfold frame_of_type; pick_type;
    apply conforms_object in H; unfold IdSchema, MethodSchema, TopicSchema, CloseCodeSchema, CapabilitiesSchema in H;
    split_holds; read_nested; try (by eauto).
  - read_optional (conforms_limits c). eauto.
  - read_optional (conforms_str c (Some 1) (Some ID_MAX_LENGTH) None). cbn [mbind option_bind].
    read_optional (conforms_flag c). eauto.
  - read_optional (conforms_str c None (Some CLOSE_REASON_MAX_LENGTH) None). eauto.
Qed.

(** ** [assertFrame] *)

Section AssertFrame.
Context `{TypeBox}.

Lemma assertFrame_ok v : assertFrame v = Ok tt <-> isFrame v = true.
Proof. unfold assertFrame. destruct (isFrame v); [done|]. split; [|done]. by repeat case_match. Qed.

Lemma assertFrame_err v e : assertFrame v = Err e -> kind e = schema_refused /\ frameType e = frameTypeOf v.
Proof. unfold assertFrame. destruct (isFrame v); [done|]. by repeat case_match; intros [= <-]. Qed.

Lemma isFrame_frame_of v : isFrame v = true -> is_Some (frame_of v).
Proof. unfold isFrame. rewrite check_conforms. apply conforms_frame_of. Qed.
End AssertFrame.

(** ** A concrete checker

    The conforming check itself, counting code points, is a [TypeBox]. *)

Lemma code_points_length s : (length (code_points s) <= length s)%nat.
Proof.
  induction s as [|u s IH IH2] using string_ind2; [done|]. cbn [code_points].
  destruct (is_high u).
  - destruct s as [|l s']; [done|]. destruct (is_low l); [|cbn in *; lia].
    specialize (IH2 l s' eq_refl). cbn in *. lia.
  - destruct (is_low u); cbn in *; lia.
Qed.

Lemma code_points_nonempty s : s <> [] -> code_points s <> [].
Proof.
  destruct s as [|u s]; [done|]. intros _. cbn [code_points].
  destruct (is_high u); [destruct s; [done|by destruct (is_low _)]|by destruct (is_low u)].
Qed.

Lemma code_points_ascii s : Forall (fun c => 32 <= c <= 126) s -> code_points s = s.
Proof.
  induction 1 as [|u s Hu _ IH]; [done|]. cbn [code_points]. unfold is_high, is_low.
  rewrite (proj2 (Z.leb_gt 0xD800 u)), (proj2 (Z.leb_gt 0xDC00 u)) by lia. cbn [andb]. by rewrite IH.
Qed.

#[local] Program Instance conforming_checker : TypeBox := {|
  check := conforms (fun u => zlen (code_points u));
  count u := zlen (code_points u);
  first_error _ _ := None
|}.
Next Obligation. done. Qed.
Next Obligation. done. Qed.
Next Obligation.
  intros u Hu%code_points_nonempty. unfold zlen. destruct (code_points u); cbn; [done|lia].
Qed.
Next Obligation. intros u. pose proof (code_points_length u). unfold zlen. lia. Qed.
Next Obligation. intros u Hu. cbn beta. by rewrite code_points_ascii. Qed.
