(* ===== verification/Ndjson.v ===== *)
(** * The NDJSON line codec

    [packages/protocol/src/codec/ndjson.ts]: one frame per line, UTF-8, ended by
    a line feed and bounded by the frame limit; [LineDecoder] splits a byte
    stream into records whatever the pieces it arrives in. *)

From S2P Require Import Prelude Utf8 Regex Json JsonFacts Wire Frames.

(** What [JSON.parse] says of a text it refuses: the engine's own words. *)
Class JsonEngine : Type := { syntax_message : jstring -> jstring }.

(** Any wording will do for a run on a concrete input. *)
Definition plain_engine : JsonEngine := {| syntax_message _ := js "Unexpected token" |}.

Definition DEFAULT_MAX_FRAME_BYTES : Z := 16 * 1024 * 1024.
Definition MIN_MAX_FRAME_BYTES : Z := MIN_ANNOUNCED_FRAME_BYTES.

Definition LINE_FEED : Z := 0x0a.
Definition CARRIAGE_RETURN : Z := 0x0d.

(** [/^[\t\n\v\f\r ]*$/] *)
Definition BLANK_LINE : regex := RStar (RClass [(9, 9); (10, 10); (11, 11); (12, 12); (13, 13); (32, 32)]).

Definition resolveFrameLimit (maxFrameBytes : option jsarg) : outcome jstring Z :=
  resolveIntegerAtLeast (js "maxFrameBytes") maxFrameBytes
    DEFAULT_MAX_FRAME_BYTES MIN_MAX_FRAME_BYTES (Some MAX_ANNOUNCED_FRAME_BYTES).

Lemma resolve_frame_limit o z : resolveFrameLimit o = Ok z -> 4096 <= z <= 2147483647.
Proof. intros [? H]%resolve_bounds. specialize (H _ eq_refl). by split. Qed.

(** ** Encoding *)

Definition serialise (f : frame) : outcome CodecError jstring :=
  match payload_of f with
  | VUnserialisable why =>
      Err (codecError schema_refused
             (js "frame is not JSON-serialisable: " ++ why ++ js "; expected a frame of plain JSON values"))
  | _ => Ok (stringify (frame_json f))
  end.

Definition too_large_frame (bytes limit : Z) : CodecError :=
  codecError too_large (js "frame is " ++ dec bytes ++ js " bytes; expected at most " ++ dec limit).

Definition encodeChecked `{TypeBox} (f : frame) (limit : Z) : outcome CodecError (jstring * bytes) :=
  _ ← assertFrame (frame_view f);
  text ← serialise f;
  let encoded := utf8_encode text in
  if limit <? zlen encoded then Err (too_large_frame (zlen encoded) limit)
  else Ok (text, encoded).

Definition codec {A} (o : outcome CodecError A) : outcome exn A :=
  match o with Ok a => Ok a | Err e => Err (ECodec e) end.

Definition encodeFrameBytes `{TypeBox} (f : frame) (maxFrameBytes : option jsarg) : outcome exn bytes :=
  limit ← range (resolveFrameLimit maxFrameBytes);
  snd <$> codec (encodeChecked f limit).

Definition encodeLine `{TypeBox} (f : frame) (maxFrameBytes : option jsarg) : outcome exn jstring :=
  limit ← range (resolveFrameLimit maxFrameBytes);
  '(text, _) ← codec (encodeChecked f limit);
  Ok (text ++ [LINE_FEED]).

Definition measureFrameBytes (f : frame) : outcome CodecError Z :=
  text ← serialise f; Ok (zlen (utf8_encode text)).

(** ** Decoding one record *)

Definition stripCarriageReturn (record : bytes) : bytes :=
  match last record with
  | Some b => if b =? CARRIAGE_RETURN then take (length record - 1) record else record
  | None => record
  end.

Definition too_large_line (bytes limit : Z) : CodecError :=
  codecError too_large (js "line is " ++ dec bytes ++ js " bytes; expected at most " ++ dec limit).

Definition decodeRecord `{TypeBox, JsonEngine} (text : jstring) (byteLength limit : Z) : outcome CodecError json :=
  if limit <? byteLength then Err (too_large_line byteLength limit)
  else
    match parse text with
    | None =>
        Err (codecError invalid_json
               (js "line is not JSON: " ++ syntax_message text ++ js "; expected one JSON object of "
                ++ dec byteLength ++ js " bytes to parse"))
    | Some value => _ ← assertFrame value; Ok value
    end.

(** A line given as text is encoded first. *)
Inductive line_input : Type := LText (s : jstring) | LBytes (b : bytes).

Definition input_bytes (i : line_input) : bytes :=
  match i with LText s => utf8_encode s | LBytes b => b end.

Definition decodeLine `{TypeBox, JsonEngine} (line : line_input) (maxFrameBytes : option jsarg) : outcome exn json :=
  limit ← range (resolveFrameLimit maxFrameBytes);
  let content := stripCarriageReturn (input_bytes line) in
  codec
    (if limit <? zlen content then Err (too_large_line (zlen content) limit)
     else
       let text := utf8_decode content in
       if matches BLANK_LINE text
       then Err (codecError empty_record (js "line is blank; expected one JSON object"))
       else decodeRecord text (zlen content) limit).

(** ** [LineDecoder] *)

Record LineDecoder : Type := {
  ld_limit : Z;
  ld_pending : bytes;
  ld_searched : nat;
  ld_refusal : option CodecError
}.

Definition newLineDecoder (maxFrameBytes : option jsarg) : outcome exn LineDecoder :=
  limit ← range (resolveFrameLimit maxFrameBytes);
  Ok {| ld_limit := limit; ld_pending := []; ld_searched := 0; ld_refusal := None |}.

Definition set_pending (p : bytes) (searched : nat) (d : LineDecoder) : LineDecoder :=
  {| ld_limit := ld_limit d; ld_pending := p; ld_searched := searched; ld_refusal := ld_refusal d |}.

Definition set_refusal (e : CodecError) (d : LineDecoder) : LineDecoder :=
  {| ld_limit := ld_limit d; ld_pending := ld_pending d; ld_searched := ld_searched d; ld_refusal := Some e |}.

Record LineDecoderOutcome : Type := { frames : list json; error : option CodecError }.

(** [Uint8Array.prototype.indexOf(b, from)] *)
Fixpoint index_of (b : Z) (l : bytes) : option nat :=
  match l with
  | [] => None
  | x :: rest => if x =? b then Some O else S <$> index_of b rest
  end.

Definition indexOf (b : Z) (l : bytes) (from : nat) : option nat :=
  (fun i => (from + i)%nat) <$> index_of b (drop from l).

Section Decoder.
Context `{TypeBox, JsonEngine}.

(** [#consume]: one record without its terminator. *)
Definition consume (d : LineDecoder) (content : bytes) (fs : list json)
    : LineDecoder * list json * option CodecError :=
  let text := utf8_decode content in
  if matches BLANK_LINE text then (d, fs, None)
  else
    match decodeRecord text (zlen content) (ld_limit d) with
    | Ok f => (d, fs ++ [f], None)
    | Err e => (set_refusal e d, fs, Some e)
    end.

(** [#refuse]: a line past the limit, complete or still partial. *)
Definition refuse (d : LineDecoder) (byteLength : Z) (partial : bool) : LineDecoder * CodecError :=
  let measured := if partial then js "partial line is already" else js "line is" in
  let refusal :=
    codecError too_large
      (measured ++ js " " ++ dec byteLength ++ js " bytes; expected at most " ++ dec (ld_limit d)) in
  (set_pending [] 0 (set_refusal refusal d), refusal).

(** The loop of [#drain]; every turn removes a line feed from the buffer, so
    its length bounds the turns. *)
Fixpoint drain_lines (fuel : nat) (d : LineDecoder) (fs : list json)
    : LineDecoder * list json * option CodecError :=
  match fuel with
  | O => (d, fs, None)
  | S fuel' =>
      match indexOf LINE_FEED (ld_pending d) (ld_searched d) with
      | None => (d, fs, None)
      | Some newline =>
          let record := take newline (ld_pending d) in
          let d := set_pending (drop (S newline) (ld_pending d)) 0 d in
          let content := stripCarriageReturn record in
          if ld_limit d <? zlen content then
            let '(d, e) := refuse d (zlen content) false in (d, fs, Some e)
          else
            match consume d content fs with
            | (d, fs, Some e) => (d, fs, Some e)
            | (d, fs, None) => drain_lines fuel' d fs
            end
      end
  end.

Definition drain (d : LineDecoder) (final : bool) : LineDecoder * LineDecoderOutcome :=
  match drain_lines (S (length (ld_pending d))) d [] with
  | (d, fs, Some e) => (d, {| frames := fs; error := Some e |})
  | (d, fs, None) =>
      let d := set_pending (ld_pending d) (length (ld_pending d)) d in
      if final then
        let rest := stripCarriageReturn (ld_pending d) in
        let '(d, fs, e) := consume (set_pending [] 0 d) rest fs in
        (d, {| frames := fs; error := e |})
      else
        let partial := stripCarriageReturn (ld_pending d) in
        if ld_limit d <? zlen partial then
          let '(d, e) := refuse d (zlen partial) true in
          (d, {| frames := fs; error := Some e |})
        else (d, {| frames := fs; error := None |})
  end.

Definition push (d : LineDecoder) (chunk : bytes) : LineDecoder * LineDecoderOutcome :=
  match ld_refusal d with
  | Some e => (d, {| frames := []; error := Some e |})
  | None => drain (set_pending (ld_pending d ++ chunk) (ld_searched d) d) false
  end.

Definition finish (d : LineDecoder) : LineDecoder * LineDecoderOutcome :=
  match ld_refusal d with
  | Some e => (d, {| frames := []; error := Some e |})
  | None => drain d true
  end.

(** A whole stream fed piece by piece: all frames, and the error it ended in. *)
Fixpoint push_all (d : LineDecoder) (chunks : list bytes) : LineDecoder * LineDecoderOutcome :=
  match chunks with
  | [] => (d, {| frames := []; error := None |})
  | c :: rest =>
      let '(d1, o1) := push d c in
      match error o1 with
      | Some e => (d1, o1)
      | None =>
          let '(d2, o2) := push_all d1 rest in
          (d2, {| frames := frames o1 ++ frames o2; error := error o2 |})
      end
  end.
End Decoder.

(** ** Splitting a stream at line feeds *)

(** The complete lines of a buffer, without their line feeds, and what follows the last one. *)
Fixpoint split_lf (p : bytes) : list bytes * bytes :=
  match p with
  | [] => ([], [])
  | b :: r =>
      let '(ls, rest) := split_lf r in
      if b =? LINE_FEED then ([] :: ls, rest)
      else match ls with [] => ([], b :: rest) | l :: ls' => ((b :: l) :: ls', rest) end
  end.

Lemma split_lf_none p : index_of LINE_FEED p = None -> split_lf p = ([], p).
Proof.
  induction p as [|b p IH]; [done|]. cbn. destruct (b =? LINE_FEED); [done|].
  destruct (index_of LINE_FEED p); [done|]. intros _. by rewrite IH.
Qed.

Lemma split_lf_some p i :
  index_of LINE_FEED p = Some i ->
  split_lf p = (take i p :: (split_lf (drop (S i) p)).1, (split_lf (drop (S i) p)).2) /\ (i < length p)%nat.
Proof.
  revert i; induction p as [|b p IH]; intros i; [done|]. cbn.
  destruct (b =? LINE_FEED) eqn:E.
  - intros [= <-]. change (drop 1 (b :: p)) with (drop 0 p). rewrite drop_0.
    cbn. destruct (split_lf p). split; [done|lia].
  - destruct (index_of LINE_FEED p) as [j|]; [|done]. intros [= <-].
    destruct (IH j eq_refl) as [-> ?]. cbn. split; [done|lia].
Qed.

Lemma split_lf_app p q :
  split_lf (p ++ q) =
  ((split_lf p).1 ++ (split_lf ((split_lf p).2 ++ q)).1, (split_lf ((split_lf p).2 ++ q)).2).
Proof.
  induction p as [|b p IH]; cbn; [by destruct (split_lf q)|].
  rewrite IH. destruct (split_lf p) as [ls rest]. cbn.
  destruct (b =? LINE_FEED) eqn:E; cbn; [by destruct (split_lf (rest ++ q))|].
  destruct ls as [|l ls]; cbn; [|by destruct (split_lf (rest ++ q))].
  rewrite E. by destruct (split_lf (rest ++ q)) as [[|l' ls'] r'].
Qed.

Lemma split_lf_rest p : index_of LINE_FEED (split_lf p).2 = None.
Proof.
  induction p as [|b p IH]; [done|]. cbn. destruct (split_lf p) as [ls rest]; cbn in *.
  destruct (b =? LINE_FEED) eqn:E; [done|]. destruct ls; cbn; [|done]. by rewrite E, IH.
Qed.

Lemma index_of_app_none b p q : index_of b p = None -> index_of b (p ++ q) = (fun i => (length p + i)%nat) <$> index_of b q.
Proof.
  induction p as [|x p IH]; cbn; [by destruct (index_of b q)|].
  destruct (x =? b); [done|]. destruct (index_of b p); [done|]. intros _. rewrite IH by done.
  by destruct (index_of b q).
Qed.

(** ** What the decoder computes *)

Section Reference.
Context `{TypeBox, JsonEngine}.

(** One complete line: too long, blank, or one record. *)
Definition process_line (limit : Z) (line : bytes) : outcome CodecError (option json) :=
  let content := stripCarriageReturn line in
  if limit <? zlen content then Err (too_large_line (zlen content) limit)
  else
    let text := utf8_decode content in
    if matches BLANK_LINE text then Ok None
    else Some <$> decodeRecord text (zlen content) limit.

(** Lines in order, up to the first refusal. *)
Fixpoint run_lines (limit : Z) (lines : list bytes) : list json * option CodecError :=
  match lines with
  | [] => ([], None)
  | l :: rest =>
      match process_line limit l with
      | Err e => ([], Some e)
      | Ok o => let '(fs, e) := run_lines limit rest in (option_list o ++ fs, e)
      end
  end.

(** The scanned prefix of the buffer holds no line feed. *)
Definition scanned (d : LineDecoder) : Prop :=
  (ld_searched d <= length (ld_pending d))%nat /\
  index_of LINE_FEED (take (ld_searched d) (ld_pending d)) = None.

(** Starting the search at [#searched] finds what a search from the start finds. *)
Lemma indexOf_scanned d :
  scanned d -> indexOf LINE_FEED (ld_pending d) (ld_searched d) = index_of LINE_FEED (ld_pending d).
Proof.
  intros [Hle Hn]. unfold indexOf. rewrite <- (take_drop (ld_searched d) (ld_pending d)) at 2.
  rewrite index_of_app_none, length_take, Nat.min_l by done. done.
Qed.

Lemma scanned_reset p d : scanned (set_pending p 0 d).
Proof. split; cbn; [lia|done]. Qed.

Lemma run_lines_refusal limit lines fs e :
  run_lines limit lines = (fs, Some e) ->
  (exists pre l post gs, lines = pre ++ l :: post /\ run_lines limit pre = (gs, None) /\
    fs = gs /\ process_line limit l = Err e).
Proof.
  revert fs; induction lines as [|l lines IH]; intros fs; cbn; [done|].
  destruct (process_line limit l) as [o|e'] eqn:Hl; [|intros [= <- <-]; by exists [], l, lines, []].
  destruct (run_lines limit lines) as [gs o'] eqn:Hr. intros [= <- ->].
  destruct (IH gs eq_refl) as (pre & l' & post & gs' & -> & Hpre & -> & Hl').
  exists (l :: pre), l', post, (option_list o ++ gs'). cbn. by rewrite Hl, Hpre.
Qed.

Lemma run_lines_app limit l1 l2 :
  run_lines limit (l1 ++ l2) =
  match run_lines limit l1 with
  | (fs, Some e) => (fs, Some e)
  | (fs, None) => let '(gs, e) := run_lines limit l2 in (fs ++ gs, e)
  end.
Proof.
  induction l1 as [|l l1 IH]; cbn; [by destruct (run_lines limit l2)|].
  destruct (process_line limit l); [|done]. rewrite IH.
  destruct (run_lines limit l1) as [fs [e|]]; [done|].
  destruct (run_lines limit l2) as [gs e]. by rewrite app_assoc.
Qed.

(** The loop against the reference. *)
Lemma drain_lines_spec fuel d fs :
  scanned d -> (length (ld_pending d) < fuel)%nat ->
  let '(ls, rest) := split_lf (ld_pending d) in
  match run_lines (ld_limit d) ls with
  | (gs, None) =>
      exists k, drain_lines fuel d fs = (set_pending rest k d, fs ++ gs, None) /\ (k <= length rest)%nat
  | (gs, Some e) =>
      exists d', drain_lines fuel d fs = (d', fs ++ gs, Some e) /\ ld_refusal d' = Some e /\ ld_limit d' = ld_limit d
  end.
Proof.
  revert d fs; induction fuel as [|fuel IH]; intros d fs Hs Hf; [lia|].
  cbn [drain_lines]. rewrite indexOf_scanned by done.
  destruct (index_of LINE_FEED (ld_pending d)) as [i|] eqn:Ei.
  2: { rewrite split_lf_none by done. cbn. exists (ld_searched d). rewrite app_nil_r.
       split; [by destruct d|by destruct Hs]. }
  destruct (split_lf_some _ _ Ei) as [-> Hi]. cbn [run_lines].
  set (d1 := set_pending (drop (S i) (ld_pending d)) 0 d).
  set (content := stripCarriageReturn (take i (ld_pending d))).
  unfold process_line. fold content. change (ld_limit d1) with (ld_limit d).
  destruct (ld_limit d <? zlen content); [cbn; rewrite app_nil_r; by eexists|].
  unfold consume. change (ld_limit d1) with (ld_limit d).
  assert (forall fs', let '(ls, rest) := split_lf (drop (S i) (ld_pending d)) in
    match run_lines (ld_limit d) ls with
    | (gs, None) => exists k, drain_lines fuel d1 fs' = (set_pending rest k d, fs' ++ gs, None) /\ (k <= length rest)%nat
    | (gs, Some e) => exists d', drain_lines fuel d1 fs' = (d', fs' ++ gs, Some e) /\ ld_refusal d' = Some e /\ ld_limit d' = ld_limit d
    end) as IH'.
  { intros fs'. specialize (IH d1 fs' (scanned_reset _ _)). cbn [d1 set_pending ld_pending ld_limit] in IH.
    destruct (split_lf (drop (S i) (ld_pending d))) as [ls rest]. destruct (run_lines (ld_limit d) ls) as [gs [e|]].
    - apply IH. rewrite length_drop. lia.
    - destruct IH as (k & Hk & ?); [rewrite length_drop; lia|]. exists k. split; [|done]. rewrite Hk. done. }
  destruct (split_lf (drop (S i) (ld_pending d))) as [ls rest]. cbn [fst snd].
  destruct (matches BLANK_LINE (utf8_decode content)).
  { specialize (IH' fs). by destruct (run_lines (ld_limit d) ls) as [gs [e|]]. }
  destruct (decodeRecord _ _ _) as [f|e]; cbn [outcome_fmap fmap].
  - specialize (IH' (fs ++ [f])).
    destruct (run_lines (ld_limit d) ls) as [gs [e|]]; cbn [option_list app]; by rewrite <- app_assoc in IH'.
  - rewrite app_nil_r. by eexists.
Qed.
End Reference.

(** ** The decoder against a stream *)

(** What a transport acts on in a refusal: the kind and the frame type. *)
Definition refusal_class (e : CodecError) : CodecErrorKind * option jstring := (kind e, frameType e).

Lemma strip_length p : zlen p - 1 <= zlen (stripCarriageReturn p) <= zlen p.
Proof.
  unfold stripCarriageReturn. destruct (last p) as [b|] eqn:E; [|lia].
  destruct (b =? CARRIAGE_RETURN); [|lia]. unfold zlen. rewrite length_take. lia.
Qed.

(** A partial line past the limit stays past it, whatever follows. *)
Lemma strip_grows p q limit :
  limit < zlen (stripCarriageReturn p) -> limit < zlen (stripCarriageReturn (p ++ q)).
Proof.
  intros Hp. destruct q as [|b q]; [by rewrite app_nil_r|].
  pose proof (strip_length p). pose proof (strip_length (p ++ b :: q)). zlia.
Qed.

Section Stream.
Context `{TypeBox, JsonEngine}.

(** A stream read whole: its frames, the class of the refusal that ended it, and the
    bytes of an unfinished line. *)
Definition decode_stream (limit : Z) (p : bytes)
    : list json * option (CodecErrorKind * option jstring) * bytes :=
  let '(ls, rest) := split_lf p in
  match run_lines limit ls with
  | (gs, Some e) => (gs, Some (refusal_class e), [])
  | (gs, None) =>
      if limit <? zlen (stripCarriageReturn rest) then (gs, Some (too_large, None), [])
      else (gs, None, rest)
  end.

Lemma too_large_first limit p q :
  limit < zlen (stripCarriageReturn p) -> index_of LINE_FEED p = None ->
  decode_stream limit (p ++ q) = ([], Some (too_large, None), []).
Proof.
  intros Hp Hn. unfold decode_stream.
  destruct (index_of LINE_FEED q) as [i|] eqn:Eq.
  - assert (index_of LINE_FEED (p ++ q) = Some (length p + i)%nat) as Ei
      by (rewrite index_of_app_none, Eq by done; done).
    destruct (split_lf_some _ _ Ei) as [-> _]. cbn [run_lines]. unfold process_line.
    rewrite take_app_add. rewrite (proj2 (Z.ltb_lt _ _)) by (by apply strip_grows). done.
  - rewrite split_lf_none by (rewrite index_of_app_none, Eq by done; done). cbn [run_lines].
    rewrite (proj2 (Z.ltb_lt _ _)) by (by apply strip_grows). done.
Qed.

(** Reading a stream in two parts. *)
Lemma decode_stream_app limit p q :
  decode_stream limit (p ++ q) =
  match decode_stream limit p with
  | (gs, Some e, _) => (gs, Some e, [])
  | (gs, None, rest) => let '(hs, e, r) := decode_stream limit (rest ++ q) in (gs ++ hs, e, r)
  end.
Proof.
  unfold decode_stream at 1 2. pose proof (split_lf_rest p) as Hr.
  rewrite split_lf_app. destruct (split_lf p) as [ls rest]. cbn [fst snd] in *.
  rewrite run_lines_app. destruct (run_lines limit ls) as [gs [e|]]; [done|].
  destruct (Z.ltb_spec limit (zlen (stripCarriageReturn rest))) as [Hlt|_].
  - pose proof (too_large_first limit rest q Hlt Hr) as Hd. unfold decode_stream in Hd.
    destruct (split_lf (rest ++ q)) as [ls' r']. cbn [fst snd].
    destruct (run_lines limit ls') as [hs [e|]].
    + assert (hs = [] /\ refusal_class e = (too_large, None)) as [-> ->] by (split; congruence).
      by rewrite app_nil_r.
    + destruct (limit <? zlen (stripCarriageReturn r')); [|done]. injection Hd as ->. by rewrite app_nil_r.
  - unfold decode_stream. destruct (split_lf (rest ++ q)) as [ls' r']. cbn [fst snd].
    destruct (run_lines limit ls') as [hs [e|]]; [done|]. by destruct (limit <? _).
Qed.

(** A decoder between two pushes, holding the bytes of an unfinished line. *)
Definition at_rest (limit : Z) (rest : bytes) (d : LineDecoder) : Prop :=
  ld_limit d = limit /\ ld_pending d = rest /\ ld_refusal d = None /\ scanned d.

Lemma at_rest_new o d : newLineDecoder o = Ok d -> at_rest (ld_limit d) [] d.
Proof.
  unfold newLineDecoder. destruct (range _); [|done]. intros [= <-]. repeat split; cbn; lia.
Qed.

Lemma new_limit o d :
  newLineDecoder o = Ok d ->
  resolveFrameLimit o = Ok (ld_limit d) /\ zlen (stripCarriageReturn []) <= ld_limit d.
Proof.
  unfold newLineDecoder. destruct (resolveFrameLimit o) as [z|] eqn:Ho; [|done]. intros [= <-].
  apply resolve_frame_limit in Ho. cbn. split; [done|]. unfold zlen; cbn; lia.
Qed.

Lemma drain_spec d :
  scanned d -> ld_refusal d = None ->
  let '(gs, e, rest) := decode_stream (ld_limit d) (ld_pending d) in
  frames (drain d false).2 = gs /\ refusal_class <$> error (drain d false).2 = e /\
  ld_refusal (drain d false).1 = error (drain d false).2 /\
  (e = None -> at_rest (ld_limit d) rest (drain d false).1).
Proof.
  intros Hs Hn. unfold decode_stream, drain. pose proof (split_lf_rest (ld_pending d)) as Hr.
  pose proof (drain_lines_spec (S (length (ld_pending d))) d [] Hs ltac:(lia)) as Hd.
  destruct (split_lf (ld_pending d)) as [ls rest]; cbn [snd] in Hr.
  destruct (run_lines (ld_limit d) ls) as [gs [e|]].
  - destruct Hd as (d' & -> & Hd' & _). by cbn.
  - destruct Hd as (k & -> & Hk). cbn [set_pending ld_pending ld_limit app].
    destruct (Z.ltb_spec (ld_limit d) (zlen (stripCarriageReturn rest))); [by cbn|].
    cbn [fst snd frames error ld_refusal set_pending]. do 3 (split; [done|]). intros _.
    do 3 (split; [done|]). split; cbn; [done|]. by rewrite firstn_all.
Qed.

Lemma push_spec limit rest d c :
  at_rest limit rest d ->
  let '(gs, e, rest') := decode_stream limit (rest ++ c) in
  frames (push d c).2 = gs /\ refusal_class <$> error (push d c).2 = e /\
  ld_refusal (push d c).1 = error (push d c).2 /\
  (e = None -> at_rest limit rest' (push d c).1).
Proof.
  intros (<- & <- & Hn & Hs). unfold push. rewrite Hn.
  apply (drain_spec (set_pending (ld_pending d ++ c) (ld_searched d) d)); [|done].
  destruct Hs as [Hl Hi]. split; cbn; [rewrite length_app; lia|]. by rewrite take_app_le.
Qed.

(** A stream fed in pieces is read as the stream. *)
Lemma push_all_stream limit rest d cs :
  at_rest limit rest d -> zlen (stripCarriageReturn rest) <= limit -> index_of LINE_FEED rest = None ->
  let '(gs, e, rest') := decode_stream limit (rest ++ concat cs) in
  frames (push_all d cs).2 = gs /\ refusal_class <$> error (push_all d cs).2 = e /\
  (e = None -> at_rest limit rest' (push_all d cs).1).
Proof.
  revert rest d; induction cs as [|c cs IH]; intros rest d Hd Hl Hn.
  { cbn [concat push_all]. rewrite app_nil_r. unfold decode_stream. rewrite split_lf_none by done.
    cbn [run_lines]. by rewrite (proj2 (Z.ltb_ge _ _)) by done. }
  cbn [concat push_all]. rewrite app_assoc, decode_stream_app.
  pose proof (push_spec limit rest d c Hd) as Hp. pose proof (split_lf_rest (rest ++ c)) as Hr.
  destruct (push d c) as [d1 o1]. cbn [fst snd] in Hp.
  destruct (decode_stream limit (rest ++ c)) as [[gs e] rest1] eqn:Ed.
  destruct Hp as (Hf & He & _ & Hrest). destruct (error o1) as [err|] eqn:Ee; cbn [option_fmap fmap] in He; subst e.
  - cbn. by rewrite Hf, Ee.
  - specialize (Hrest eq_refl). unfold decode_stream in Ed.
    destruct (split_lf (rest ++ c)) as [ls r]. destruct (run_lines limit ls) as [hs [|]]; [done|].
    destruct (Z.ltb_spec limit (zlen (stripCarriageReturn r))); [done|]. injection Ed as -> ->. cbn [snd] in Hr.
    specialize (IH rest1 d1 Hrest ltac:(done) Hr).
    destruct (push_all d1 cs) as [d2 o2]. cbn [fst snd frames error] in *.
    destruct (decode_stream limit (rest1 ++ concat cs)) as [[gs' e'] rest']. by destruct IH as (-> & -> & ?); rewrite Hf.
Qed.
End Stream.

(** ** What a sender writes, a receiver reads *)

(** A frame every member of which JSON carries. *)
Definition plain (f : frame) : Prop :=
  (exists j, payload_of f = VJson j) /\ json_ok (frame_json f) = true.

Lemma plain_view f : plain f -> frame_view f = frame_json f.
Proof.
  intros [[j Hj] _]. unfold frame_view, frame_json. f_equal.
  destruct f; cbn in *; try done; by subst.
Qed.

Lemma last_elem (l : bytes) b : last l = Some b -> b ∈ l.
Proof. intros H. apply list_elem_of_lookup. exists (pred (length l)). by rewrite <- last_lookup. Qed.

Lemma strip_text v : json_ok v = true ->
  stripCarriageReturn (utf8_encode (stringify v)) = utf8_encode (stringify v).
Proof.
  intros Hok. unfold stripCarriageReturn. destruct (last _) as [b|] eqn:E; [|done].
  apply last_elem in E. pose proof (stringify_no_control v b Hok E).
  unfold CARRIAGE_RETURN. by rewrite (proj2 (Z.eqb_neq _ _)) by lia.
Qed.

Lemma not_blank v : json_ok v = true -> matches BLANK_LINE (stringify v) = false.
Proof.
  intros Hok. destruct (matches _ _) eqn:E; [|done].
  apply matches_lang, lang_star_class in E.
  destruct (stringify_head v Hok) as (c & t & Ht & Hws & _).
  destruct (stringify_text_ok v Hok) as [_ Hp]. rewrite Ht in *.
  pose proof (Forall_inv Hp) as Hc. apply Forall_inv in E.
  unfold is_ws in Hws. cbn in E, Hc. lia.
Qed.

Section RoundTrip.
Context `{TypeBox, JsonEngine}.

Lemma encodeChecked_ok f limit text encoded :
  plain f -> encodeChecked f limit = Ok (text, encoded) ->
  isFrame (frame_json f) = true /\ text = stringify (frame_json f) /\
  encoded = utf8_encode (stringify (frame_json f)) /\ zlen encoded <= limit.
Proof.
  intros Hp. unfold encodeChecked. rewrite plain_view by done. destruct Hp as [[j Hj] _].
  intros ([] & Ha%assertFrame_ok & Hx)%bind_ok. unfold serialise in Hx. rewrite Hj in Hx.
  cbn [mbind outcome_bind] in Hx. revert Hx.
  destruct (Z.ltb_spec limit (zlen (utf8_encode (stringify (frame_json f))))); [done|].
  by intros [= <- <-].
Qed.

Lemma decodeRecord_text v limit :
  json_ok v = true -> isFrame v = true -> zlen (utf8_encode (stringify v)) <= limit ->
  decodeRecord (stringify v) (zlen (utf8_encode (stringify v))) limit = Ok v.
Proof.
  intros Hok Hf Hl. unfold decodeRecord. rewrite (proj2 (Z.ltb_ge _ _)) by done.
  rewrite parse_stringify by done. by rewrite (proj2 (assertFrame_ok v) Hf).
Qed.

Lemma process_line_text v limit :
  json_ok v = true -> isFrame v = true -> zlen (utf8_encode (stringify v)) <= limit ->
  process_line limit (utf8_encode (stringify v)) = Ok (Some v).
Proof.
  intros Hok Hf Hl. unfold process_line. rewrite strip_text, (proj2 (Z.ltb_ge _ _)) by done.
  rewrite stringify_utf8, not_blank, decodeRecord_text by done. done.
Qed.

Lemma index_of_text v : json_ok v = true -> index_of LINE_FEED (utf8_encode (stringify v)) = None.
Proof.
  intros Hok. assert (Forall (fun b => 32 <= b) (utf8_encode (stringify v))) as HF.
  { rewrite Forall_forall. intros b Hb. by apply (stringify_no_control v). }
  induction HF as [|b l Hb _ IH]; [done|]. cbn. unfold LINE_FEED in *.
  rewrite (proj2 (Z.eqb_neq _ _)) by lia. by rewrite IH.
Qed.

Lemma utf8_encode_line v :
  json_ok v = true -> utf8_encode (stringify v ++ [LINE_FEED]) = utf8_encode (stringify v) ++ [LINE_FEED].
Proof.
  intros Hok. destruct (stringify_text_ok v Hok) as [(cs & Hcs & ->) _].
  change [LINE_FEED] with (concat (map units_of [10])). rewrite <- concat_app, <- map_app.
  rewrite !utf8_encode_concat; [by rewrite map_app, concat_app|done|].
  apply Forall_app. split; [done|]. apply Forall_singleton. unfold is_scalar. lia.
Qed.

(** A record followed by more of the stream. *)
Lemma stream_record limit v rest :
  json_ok v = true -> isFrame v = true -> zlen (utf8_encode (stringify v)) <= limit ->
  decode_stream limit (utf8_encode (stringify v ++ [LINE_FEED]) ++ rest) =
  let '(gs, e, r) := decode_stream limit rest in (v :: gs, e, r).
Proof.
  intros Hok Hf Hl. rewrite utf8_encode_line, <- app_assoc by done. unfold decode_stream.
  set (b := utf8_encode (stringify v)).
  assert (index_of LINE_FEED (b ++ [LINE_FEED] ++ rest) = Some (length b)) as Ei.
  { unfold b. rewrite index_of_app_none by (by apply index_of_text). cbn. f_equal. lia. }
  destruct (split_lf_some _ _ Ei) as [-> _].
  assert (drop (S (length b)) (b ++ [LINE_FEED] ++ rest) = rest) as ->.
  { replace (S (length b)) with (length b + 1)%nat by lia. by rewrite drop_app_add. }
  rewrite take_app_length. cbn [run_lines]. unfold b. rewrite process_line_text by done.
  destruct (split_lf rest) as [ls r]. cbn [fst snd].
  destruct (run_lines limit ls) as [gs [e|]]; cbn; [done|]. by destruct (limit <? _).
Qed.

Lemma encodeLine_ok f o line limit :
  plain f -> resolveFrameLimit o = Ok limit -> encodeLine f o = Ok line ->
  isFrame (frame_json f) = true /\ line = stringify (frame_json f) ++ [LINE_FEED] /\
  zlen (utf8_encode (stringify (frame_json f))) <= limit.
Proof.
  intros Hp Ho. unfold encodeLine. rewrite Ho. cbn. intros ([text b] & Hc & [= <-])%bind_ok.
  destruct (encodeChecked f limit) as [[t' b']|] eqn:Ec; [|done]. injection Hc as -> ->.
  apply encodeChecked_ok in Ec as (? & -> & -> & ?); done.
Qed.

Lemma stream_records o limit fs lines :
  resolveFrameLimit o = Ok limit -> Forall plain fs ->
  Forall2 (fun f line => encodeLine f o = Ok line) fs lines ->
  decode_stream limit (concat (map utf8_encode lines)) = (map frame_json fs, None, []).
Proof.
  intros Ho Hp HF. induction HF as [|f line fs lines Hl HF IH].
  { apply resolve_frame_limit in Ho. unfold decode_stream; cbn.
    by rewrite (proj2 (Z.ltb_ge _ _)) by (unfold zlen; cbn; lia). }
  pose proof (Forall_inv Hp) as Hf. apply Forall_inv_tail in Hp.
  destruct (encodeLine_ok f o line limit Hf Ho Hl) as (? & -> & ?). destruct Hf as [_ Hok].
  cbn [map concat]. rewrite stream_record by done. by rewrite IH.
Qed.

(** A frame of values a program can hold; its payload may be [undefined], which JSON leaves out. *)
Definition carried (f : frame) : Prop := json_ok (frame_json f) = true.

(** What arrives of frames: those up to the first without a payload, and the refusal of that one *)
Fixpoint arrives (fs : list frame) : list frame * option (CodecErrorKind * option jstring) :=
  match fs with
  | [] => ([], None)
  | f :: rest =>
      match payload_of f with
      | VJson _ => let '(gs, e) := arrives rest in (f :: gs, e)
      | _ => ([], Some (schema_refused, frameTypeOf (frame_json f)))
      end
  end.

Lemma arrives_payload fs f : f ∈ (arrives fs).1 -> exists j, payload_of f = VJson j.
Proof.
  induction fs as [|g fs IH]; cbn [arrives]; [by intros ?%not_elem_of_nil|]. destruct (payload_of g) as [|j|] eqn:Hg; cbn [fst]; try by intros ?%not_elem_of_nil.
  destruct (arrives fs) as [gs e]. cbn [fst] in *. intros [->|Hf]%elem_of_cons; [by exists j|by apply IH].
Qed.

Lemma arrives_all fs :
  (forall f, f ∈ fs -> payload_of f <> VUndefined /\ forall why, payload_of f <> VUnserialisable why) -> (arrives fs).1 = fs /\ (arrives fs).2 = None.
Proof.
  induction fs as [|f fs IH]; intros Hall; [done|]. destruct IH as [E1 E2]; [intros g Hg; apply Hall; by right|].
  destruct (Hall f ltac:(left)) as [H1 H2]. cbn [arrives]. destruct (payload_of f) as [| |why]; [done| |by destruct (H2 why)].
  destruct (arrives fs). cbn in *. by subst.
Qed.

Lemma undefined_no_frame f : payload_of f = VUndefined -> isFrame (frame_json f) = false.
Proof.
  intros Hp. destruct (isFrame (frame_json f)) eqn:E; [|done]. apply isFrame_frame_of in E as [g Hg]. exfalso. revert Hg.
  unfold frame_of, frameTypeOf, frame_json. destruct f as [p i c l|i m p|i r|i e|t s i p e|i| | |c r]; cbn [payload_of] in Hp; try done; subst;
    cbn [frame_members app]; rewrite member_hit; cbn [mbind option_bind]; unfold frame_of_type; cbn [decide]; rewrite ?decide_True by reflexivity.
  all: repeat (rewrite decide_False by discriminate || rewrite decide_True by reflexivity).
  - by read_members.
  - by read_members.
  - unfold opt_member. destruct i as [i|], e; cbn [present app]; read_members; cbn [mbind option_bind str_of member]; by rewrite int_of_JInt.
Qed.

Lemma encodeLine_text f o line limit :
  resolveFrameLimit o = Ok limit -> encodeLine f o = Ok line ->
  line = stringify (frame_json f) ++ [LINE_FEED] /\ zlen (utf8_encode (stringify (frame_json f))) <= limit
  /\ ((exists j, payload_of f = VJson j) \/ payload_of f = VUndefined).
Proof.
  intros Ho. unfold encodeLine. rewrite Ho. cbn. intros ([text b] & Hc & [= <-])%bind_ok.
  destruct (encodeChecked f limit) as [[t' b']|] eqn:Ec; [|done]. injection Hc as -> ->. unfold encodeChecked in Ec.
  apply bind_ok in Ec as ([] & _ & Ec). apply bind_ok in Ec as (t & Ht & Ec). unfold serialise in Ht.
  assert (t = stringify (frame_json f) /\ ((exists j, payload_of f = VJson j) \/ payload_of f = VUndefined)) as [-> Hp]
    by (destruct (payload_of f) eqn:Hp; try discriminate Ht; injection Ht as <-; eauto).
  cbv zeta in Ec. destruct (Z.ltb_spec limit (zlen (utf8_encode (stringify (frame_json f))))); [discriminate Ec|]. by injection Ec as <- <-.
Qed.

Lemma stream_arrivals o limit fs lines :
  resolveFrameLimit o = Ok limit -> Forall carried fs ->
  Forall2 (fun f line => encodeLine f o = Ok line) fs lines ->
  let '(gs, e) := arrives fs in decode_stream limit (concat (map utf8_encode lines)) = (map frame_json gs, e, []).
Proof.
  intros Ho Hp HF. induction HF as [|f line fs lines Hl HF IH].
  { apply resolve_frame_limit in Ho. unfold decode_stream; cbn.
    by rewrite (proj2 (Z.ltb_ge _ _)) by (unfold zlen; cbn; lia). }
  pose proof (Forall_inv Hp) as Hok. apply Forall_inv_tail in Hp. specialize (IH Hp).
  destruct (encodeLine_text f o line limit Ho Hl) as (-> & Hz & [[j Hj]|Hu]); cbn [arrives map concat].
  - rewrite Hj. destruct (arrives fs) as [gs e].
    destruct (encodeLine_ok f o _ limit (conj (ex_intro _ j Hj) Hok) Ho Hl) as (Hf & _ & _).
    rewrite stream_record by done. by rewrite IH.
  - rewrite Hu. rewrite utf8_encode_line, <- app_assoc by done. unfold decode_stream. set (b := utf8_encode (stringify (frame_json f))).
    set (rest := concat (map utf8_encode lines)).
    assert (index_of LINE_FEED (b ++ [LINE_FEED] ++ rest) = Some (length b)) as Ei.
    { unfold b. rewrite index_of_app_none by (by apply index_of_text). cbn. f_equal. lia. }
    destruct (split_lf_some _ _ Ei) as [-> _]. rewrite take_app_length. cbn [run_lines]. unfold process_line, b.
    rewrite strip_text, (proj2 (Z.ltb_ge _ _)), stringify_utf8, not_blank by done. unfold decodeRecord.
    rewrite (proj2 (Z.ltb_ge _ _)) by done. rewrite parse_stringify by done.
    destruct (assertFrame (frame_json f)) as [[]|e] eqn:Ea.
    { apply assertFrame_ok in Ea. by rewrite undefined_no_frame in Ea. }
    cbn. unfold refusal_class. apply assertFrame_err in Ea as [-> ->].
    cbn [fst snd]. repeat case_match; done.
Qed.
End RoundTrip.

(** ** Properties *)

Section Properties.
Context `{TypeBox, JsonEngine}.

(** Where the pieces of a byte stream are cut does not change what the
    line decoder reads: feeding the pieces one by one yields the frames, and
    the refusal (its kind and frame type), of feeding the whole stream at once. *)
Theorem line_decoder_chunk_invariant o d chunks :
  newLineDecoder o = Ok d ->
  frames (push_all d chunks).2 = frames (push d (concat chunks)).2 /\
  refusal_class <$> error (push_all d chunks).2 = refusal_class <$> error (push d (concat chunks)).2.
Proof.
  intros Hd. pose proof (at_rest_new o d Hd) as Hr.
  destruct (new_limit o d Hd) as [_ Hl].
  pose proof (push_all_stream _ _ _ chunks Hr Hl eq_refl) as H1.
  pose proof (push_spec _ _ _ (concat chunks) Hr) as H2. cbn [app] in *.
  destruct (decode_stream _ _) as [[gs e] rest].
  by destruct H1 as (-> & -> & _), H2 as (-> & -> & _).
Qed.

Lemma stream_roundtrip o d fs lines chunks :
  newLineDecoder o = Ok d -> Forall plain fs ->
  Forall2 (fun f line => encodeLine f o = Ok line) fs lines ->
  concat chunks = concat (map utf8_encode lines) ->
  map frame_of (frames (push_all d chunks).2) = map Some fs /\
  error (push_all d chunks).2 = None /\ ld_pending (push_all d chunks).1 = [].
Proof.
  intros Hd Hp HF Hc. pose proof (at_rest_new o d Hd) as Hr. destruct (new_limit o d Hd) as [Ho Hl].
  pose proof (push_all_stream _ _ _ chunks Hr Hl eq_refl) as Hs.
  cbn [app] in Hs. rewrite Hc, (stream_records o (ld_limit d) fs lines) in Hs by done.
  destruct Hs as (-> & He & Hrest). specialize (Hrest eq_refl) as (_ & Hpend & _).
  split; [|split; [by destruct (error _)|done]].
  rewrite map_map. apply map_ext_in. intros f Hf%list_elem_of_In.
  rewrite Forall_forall in Hp. destruct (Hp f Hf) as [[j Hj] _]. by apply (frame_of_frame_json f j).
Qed.

Lemma stream_arrive o d fs lines chunks :
  newLineDecoder o = Ok d -> Forall carried fs ->
  Forall2 (fun f line => encodeLine f o = Ok line) fs lines ->
  concat chunks = concat (map utf8_encode lines) ->
  map frame_of (frames (push_all d chunks).2) = map Some (arrives fs).1
  /\ refusal_class <$> error (push_all d chunks).2 = (arrives fs).2
  /\ ((forall f, f ∈ fs -> payload_of f <> VUndefined) ->
      (arrives fs).1 = fs /\ error (push_all d chunks).2 = None /\ ld_pending (push_all d chunks).1 = []).
Proof.
  intros Hd Hp HF Hc. pose proof (at_rest_new o d Hd) as Hr. destruct (new_limit o d Hd) as [Ho Hl].
  pose proof (push_all_stream _ _ _ chunks Hr Hl eq_refl) as Hs. cbn [app] in Hs. rewrite Hc in Hs.
  pose proof (stream_arrivals o (ld_limit d) fs lines Ho Hp HF) as Ha. destruct (arrives fs) as [gs e] eqn:Eg. rewrite Ha in Hs.
  destruct Hs as (-> & He & Hrest). cbn [fst snd]. split; [|split; [done|]].
  - rewrite map_map. apply map_ext_in. intros f Hf%list_elem_of_In. destruct (arrives_payload fs f) as [j Hj]; [by rewrite Eg|]. by apply (frame_of_frame_json f j).
  - intros Hn. destruct (arrives_all fs) as [E1 E2]; [intros f Hf; split; [by apply Hn|]|].
    + apply list_elem_of_lookup_1 in Hf as [i Hi]. destruct (Forall2_lookup_l _ _ _ _ _ HF Hi) as (line & _ & Hline).
      destruct (encodeLine_text f o line _ Ho Hline) as (_ & _ & [[j Hj]|Hu]); congruence.
    + rewrite Eg in E1, E2. cbn in E1, E2. subst. split; [done|]. split; [by destruct (error _)|]. by destruct (Hrest E2) as (_ & ? & _).
Qed.

(** C2: frames written with [encodeLine] and read by a [LineDecoder] under the
    same limit come back unchanged and in order, however the byte stream is
    cut into pieces. The encoder also takes a frame whose payload is [undefined] and writes it without the
    member; the decoder gives the frames before the first such frame and refuses that one as a schema failure. When there is
    none, all frames come back, there is no refusal and nothing is left in the buffer. The values in the frames are assumed to be
    ones a program can hold: canonical numbers, 16-bit code units, distinct member names. *)
Theorem ndjson_stream_roundtrip o d fs lines chunks :
  newLineDecoder o = Ok d -> Forall carried fs ->
  Forall2 (fun f line => encodeLine f o = Ok line) fs lines ->
  concat chunks = concat (map utf8_encode lines) ->
  map frame_of (frames (push_all d chunks).2) = map Some (arrives fs).1
  /\ refusal_class <$> error (push_all d chunks).2 = (arrives fs).2
  /\ ((forall f, f ∈ fs -> payload_of f <> VUndefined) ->
      (arrives fs).1 = fs /\ error (push_all d chunks).2 = None /\ ld_pending (push_all d chunks).1 = []).
Proof. apply stream_arrive. Qed.

(** Between pushes a decoder never holds more than the frame limit and
    one carriage return, whatever the peer sends; once it refused, it holds
    the refusal and yields no further frame. *)
Theorem line_decoder_bounded o d chunks :
  newLineDecoder o = Ok d ->
  (error (push_all d chunks).2 = None -> zlen (ld_pending (push_all d chunks).1) <= ld_limit d + 1) /\
  forall e more, ld_refusal (push_all d chunks).1 = Some e ->
    (push (push_all d chunks).1 more).2 = {| frames := []; error := Some e |}.
Proof.
  intros Hd. split; [|by intros e more He; unfold push; rewrite He].
  pose proof (at_rest_new o d Hd) as Hr. intros Hn.
  destruct (new_limit o d Hd) as [_ Hl].
  pose proof (push_all_stream _ _ _ chunks Hr Hl eq_refl) as H1. cbn [app] in H1.
  destruct (decode_stream _ _) as [[gs e] rest] eqn:Ed. destruct H1 as (_ & He & Hrest).
  rewrite Hn in He. cbn in He. subst e. destruct (Hrest eq_refl) as (_ & -> & _).
  unfold decode_stream in Ed. destruct (split_lf _) as [ls r]. destruct (run_lines _ _) as [hs [|]]; [done|].
  destruct (Z.ltb_spec (ld_limit d) (zlen (stripCarriageReturn r))); [done|]. injection Ed as <- <-.
  pose proof (strip_length r). lia.
Qed.
End Properties.

(** ** A stream read in two pieces *)

#[local] Existing Instance conforming_checker.
#[local] Existing Instance plain_engine.

Definition sample_decoder : LineDecoder :=
  {| ld_limit := DEFAULT_MAX_FRAME_BYTES; ld_pending := []; ld_searched := 0; ld_refusal := None |}.

Definition sample_stream : list frame :=
  [FPing; FReq (js "r-1") (js "text.echo") (VJson (JObj [(js "text", JStr (js "hi"))]))].

Definition sample_lines : list jstring := omap (fun f => ok_of (encodeLine f None)) sample_stream.

Definition sample_pieces : list bytes :=
  let l := concat (map utf8_encode sample_lines) in [take 9 l; drop 9 l].

Lemma line_decoder_chunk_invariant_witness :
  frames (push_all sample_decoder [js "{}"; [10; 13]; [10]]).2 = frames (push sample_decoder (js "{}" ++ [10; 13; 10])).2.
Proof. apply (line_decoder_chunk_invariant None sample_decoder [js "{}"; [10; 13]; [10]]). vm_compute. reflexivity. Defined.

(** The sample, then a request without parameters and another ping *)
Definition gap_stream : list frame := sample_stream ++ [FReq (js "r-2") (js "text.echo") VUndefined; FPing].
Definition gap_lines : list jstring := omap (fun f => ok_of (encodeLine f None)) gap_stream.

Definition gap_pieces : list bytes :=
  let l := concat (map utf8_encode gap_lines) in [take 9 l; drop 9 l].

Lemma ndjson_stream_roundtrip_witness :
  (map frame_of (frames (push_all sample_decoder sample_pieces).2) = map Some sample_stream /\
   error (push_all sample_decoder sample_pieces).2 = None) /\
  (map frame_of (frames (push_all sample_decoder gap_pieces).2) = map Some sample_stream /\
   refusal_class <$> error (push_all sample_decoder gap_pieces).2 = Some (schema_refused, Some (js "req"))).
Proof.
  split.
  - destruct (ndjson_stream_roundtrip None sample_decoder sample_stream sample_lines sample_pieces) as (H1 & _ & H3).
    + vm_compute. reflexivity.
    + repeat constructor.
    + repeat constructor.
    + vm_compute. reflexivity.
    + destruct H3 as (_ & H3 & _); [|split; [exact H1|exact H3]].
      intros f [->|[->|[]%not_elem_of_nil]%elem_of_cons]%elem_of_cons; discriminate.
  - destruct (ndjson_stream_roundtrip None sample_decoder gap_stream gap_lines gap_pieces) as (H1 & H2 & _).
    + vm_compute. reflexivity.
    + repeat constructor.
    + repeat constructor.
    + vm_compute. reflexivity.
    + split; [exact H1|exact H2].
Defined.

Lemma line_decoder_bounded_witness :
  error (push_all sample_decoder [js "{"]).2 = None /\
  zlen (ld_pending (push_all sample_decoder [js "{"]).1) <= ld_limit sample_decoder + 1.
Proof.
  assert (error (push_all sample_decoder [js "{"]).2 = None) as He by (vm_compute; reflexivity).
  split; [exact He|].
  destruct (line_decoder_bounded None sample_decoder [js "{"] ltac:(vm_compute; reflexivity)) as [Hb _].
  exact (Hb He).
Defined.
