(* ===== verification/Listeners.v ===== *)
(** * The listener registry

    [packages/protocol/src/listeners.ts]: the registry ports and the session keep their
    subscribers in. The underlying [Set] is a list without repetition in
    insertion order; a listener is known by its identity, and calling one is a
    function of the caller's world that may throw. *)

From S2P Require Import Prelude.

(** A value a listener threw: an [Error] with its message, or anything else. *)
Inductive thrown : Type :=
| ThrownError (msg : jstring)
| ThrownValue.

(** The [Error] [emitAll] rethrows; [wrapped] when it is the one built around a
    value that is not an [Error]. *)
Record listener_failure : Type := { failure_message : jstring; wrapped : bool }.

Definition as_failure (t : thrown) : listener_failure :=
  match t with
  | ThrownError m => {| failure_message := m; wrapped := false |}
  | ThrownValue => {| failure_message := js "Listener threw a non-Error value"; wrapped := true |}
  end.

Section Registry.
  Context {L : Type} `{!EqDecision L}.

Definition add (listener : L) (set : list L) : list L :=
  if decide (listener ∈ set) then set else set ++ [listener].

(** The remover [add] returns. *)
Definition remove (listener : L) (set : list L) : list L := filter (fun x => x <> listener) set.

Definition clear : list L := [].

Definition listeners_size (set : list L) : nat := length set.

Section Calls.
  Context {W : Type}.
  Variable call : L -> W -> W * option thrown.

(** [emit]: the snapshot is called in order; a throw leaves the loop. *)
Fixpoint emit_snapshot (snapshot : list L) (w : W) : W * option thrown :=
  match snapshot with
  | [] => (w, None)
  | l :: rest =>
      match call l w with
      | (w, Some t) => (w, Some t)
      | (w, None) => emit_snapshot rest w
      end
  end.

(** [emitAll]: every listener of the snapshot is called, the first failure kept. *)
Fixpoint emitAll_snapshot (snapshot : list L) (failure : option listener_failure) (w : W)
    : W * option listener_failure :=
  match snapshot with
  | [] => (w, failure)
  | l :: rest =>
      let '(w, t) := call l w in
      let failure := match failure with Some f => Some f | None => as_failure <$> t end in
      emitAll_snapshot rest failure w
  end.

Definition emitAll (set : list L) (w : W) : W * option listener_failure := emitAll_snapshot set None w.

(** The world after calling listeners one after the other, and the throws in order. *)
Fixpoint call_each (ls : list L) (w : W) : W * list thrown :=
  match ls with
  | [] => (w, [])
  | l :: rest =>
      let '(w, t) := call l w in
      let '(w', ts) := call_each rest w in
      (w', match t with Some t => t :: ts | None => ts end)
  end.

Lemma emitAll_snapshot_calls ls failure w :
  emitAll_snapshot ls failure w =
  ((call_each ls w).1, match failure with Some f => Some f | None => as_failure <$> head (call_each ls w).2 end).
Proof.
  revert failure w; induction ls as [|l ls IH]; intros failure w; [by destruct failure|].
  cbn. destruct (call l w) as [w1 t] eqn:E. rewrite IH.
  destruct (call_each ls w1) as [w2 ts]; cbn. by destruct failure, t.
Qed.

(** [emitAll] notifies every registered listener, once each and in the order
    they subscribed, whatever any of them throws, and then rethrows the first
    failure (wrapped when it was not an [Error]). *)
Theorem emitAll_notifies_everyone set w :
  emitAll set w = ((call_each set w).1, as_failure <$> head (call_each set w).2).
Proof. apply emitAll_snapshot_calls. Qed.

Lemma emit_snapshot_prefix ls w :
  exists called,
    called `prefix_of` ls /\ (emit_snapshot ls w).1 = (call_each called w).1 /\
    match (emit_snapshot ls w).2 with
    | None => called = ls /\ (call_each ls w).2 = []
    | Some t => (call_each called w).2 = [t]
    end.
Proof.
  revert w; induction ls as [|l ls IH]; intros w; [by exists []|].
  cbn. destruct (call l w) as [w1 [t|]] eqn:E.
  - exists [l]. split; [apply prefix_cons, prefix_nil|]. cbn. by rewrite E.
  - destruct (IH w1) as (called & Hp & Hw & Hr).
    exists (l :: called). split; [by apply prefix_cons|]. cbn. rewrite E.
    destruct (call_each called w1) as [w2 ts] eqn:Ec; cbn in *. split; [done|].
    destruct (emit_snapshot ls w1) as [w3 [t|]]; cbn in *; [done|].
    destruct Hr as [-> Hr]. by rewrite Ec in *.
Qed.
End Calls.

(** Subscribing keeps identities unique and removing undoes it. *)
Lemma add_NoDup l set : NoDup set -> NoDup (add l set).
Proof.
  unfold add. destruct (decide (l ∈ set)); [done|]. intros H.
  apply NoDup_app; split; [done|]. split; [set_solver|apply NoDup_singleton].
Qed.

Lemma remove_NoDup l set : NoDup set -> NoDup (remove l set).
Proof. apply NoDup_filter. Qed.

Lemma add_empty l : add l [] = [l].
Proof. unfold add. rewrite decide_False; [done|]. set_solver. Qed.

Lemma elem_of_add l x set : x ∈ add l set <-> x = l \/ x ∈ set.
Proof. unfold add. destruct (decide (l ∈ set)); set_solver. Qed.

Lemma elem_of_remove l x set : x ∈ remove l set <-> x <> l /\ x ∈ set.
Proof. unfold remove. by rewrite list_elem_of_filter. Qed.

Lemma remove_add l set : l ∉ set -> remove l (add l set) = set.
Proof.
  intros H. unfold add, remove. rewrite decide_False by done. rewrite filter_app.
  cbn. rewrite decide_False by auto. rewrite app_nil_r.
  induction set as [|x set IH]; [done|]. cbn. rewrite decide_True by set_solver.
  f_equal. apply IH. set_solver.
Qed.

End Registry.
