(* ===== verification/Chunk.v ===== *)
(** * The WebSocket chunk codec

    [packages/protocol/src/codec/chunk.ts]: one frame becomes a contiguous run of
    binary messages, each a nine-byte header and a slice of the frame's line;
    [ChunkReassembler] puts them together again or refuses. *)

From S2P Require Import Prelude Utf8 Regex Json JsonFacts Wire Frames Ndjson.

Definition CHUNK_HEADER_BYTES : Z := 9.
Definition CHUNK_FORMAT_VERSION : Z := 1.
Definition DEFAULT_MAX_MESSAGE_BYTES : Z := 16 * 1024.
Definition MIN_MAX_MESSAGE_BYTES : Z := 2048.
Definition MIN_NONFINAL_PAYLOAD_BYTES : Z := 1024.

Record ChunkOptions : Type := { co_maxMessageBytes : option jsarg; co_maxFrameBytes : option jsarg }.

(** [Math.ceil(a / b)] for nonnegative [a] and positive [b]. *)
Definition ceil_div (a b : Z) : Z := (a + b - 1) / b.

Definition maxChunksFor (maxFrameBytes : Z) : Z := ceil_div maxFrameBytes MIN_NONFINAL_PAYLOAD_BYTES.

Definition resolveMessageCeiling (o : ChunkOptions) : outcome jstring Z :=
  resolveIntegerAtLeast (js "maxMessageBytes") (co_maxMessageBytes o)
    DEFAULT_MAX_MESSAGE_BYTES MIN_MAX_MESSAGE_BYTES None.

(** [DataView.setUint32] and [getUint32], big-endian. *)
Definition setUint32 (z : Z) : bytes :=
  [z / 16777216 mod 256; z / 65536 mod 256; z / 256 mod 256; z mod 256].

Definition getUint32 (l : bytes) (offset : nat) : Z :=
  16777216 * nth offset l 0 + 65536 * nth (offset + 1) l 0 + 256 * nth (offset + 2) l 0 + nth (offset + 3) l 0.

Definition chunkMessage (index count : Z) (payload : bytes) : bytes :=
  [CHUNK_FORMAT_VERSION] ++ setUint32 index ++ setUint32 count ++ payload.

(** [bytes.subarray(start, end)] *)
Definition subarray (start stop : Z) (l : bytes) : bytes :=
  take (Z.to_nat (stop - start)) (drop (Z.to_nat start) l).

Definition chunkPayload (capacity : Z) (l : bytes) (index : Z) : bytes :=
  let start := index * capacity in
  subarray start (Z.min (start + capacity) (zlen l)) l.

(** The messages of one encoded line. *)
Definition chunkLine (capacity : Z) (l : bytes) : list bytes :=
  let count := Z.max 1 (ceil_div (zlen l) capacity) in
  map (fun i => chunkMessage (Z.of_nat i) count (chunkPayload capacity l (Z.of_nat i)))
      (seq 0 (Z.to_nat count)).

Definition encodeChunks `{TypeBox} (f : frame) (o : ChunkOptions) : outcome exn (list bytes) :=
  ceiling ← range (resolveMessageCeiling o);
  let capacity := ceiling - CHUNK_HEADER_BYTES in
  l ← encodeFrameBytes f (co_maxFrameBytes o);
  Ok (chunkLine capacity l).

(** ** [ChunkReassembler] *)

Record ChunkReassembler : Type := {
  cr_frameLimit : Z;
  cr_maxChunks : Z;
  cr_expectedIndex : Z;
  cr_count : Z;
  cr_size : Z;
  cr_parts : list bytes
}.

Definition newChunkReassembler (maxFrameBytes : option jsarg) : outcome exn ChunkReassembler :=
  limit ← range (resolveFrameLimit maxFrameBytes);
  Ok {| cr_frameLimit := limit; cr_maxChunks := maxChunksFor limit;
        cr_expectedIndex := 0; cr_count := 0; cr_size := 0; cr_parts := [] |}.

Definition reset (r : ChunkReassembler) : ChunkReassembler :=
  {| cr_frameLimit := cr_frameLimit r; cr_maxChunks := cr_maxChunks r;
     cr_expectedIndex := 0; cr_count := 0; cr_size := 0; cr_parts := [] |}.

(** [#readHeader], its refusals in order. *)
Definition readHeader (r : ChunkReassembler) (m : bytes) : outcome CodecError (Z * Z) :=
  if zlen m <? CHUNK_HEADER_BYTES then
    Err (codecError chunk_header
      (js "message is " ++ dec (zlen m) ++ js " bytes; expected at least the "
       ++ dec CHUNK_HEADER_BYTES ++ js "-byte chunk header"))
  else if negb (nth 0 m 0 =? CHUNK_FORMAT_VERSION) then
    Err (codecError chunk_version
      (js "chunk format version is " ++ dec (nth 0 m 0) ++ js "; expected " ++ dec CHUNK_FORMAT_VERSION))
  else
    let index := getUint32 m 1 in
    let count := getUint32 m 5 in
    if (count <? 1) || (cr_maxChunks r <? count) then
      Err (codecError chunk_count
        (js "chunk count is " ++ dec count ++ js "; expected 1 to " ++ dec (cr_maxChunks r)
         ++ js " under a " ++ dec (cr_frameLimit r) ++ js "-byte frame limit"))
    else if negb (index =? cr_expectedIndex r) then
      Err (codecError chunk_index
        (js "chunk index is " ++ dec index ++ js "; expected " ++ dec (cr_expectedIndex r)
         ++ js " next in this frame"))
    else if negb (cr_count r =? 0) && negb (count =? cr_count r) then
      Err (codecError chunk_count
        (js "chunk count is " ++ dec count ++ js " at index " ++ dec index ++ js "; expected "
         ++ dec (cr_count r) ++ js ", the count the frame started with"))
    else Ok (index, count).

Section Reassembler.
Context `{TypeBox, JsonEngine}.

(** [#accept]: the state it leaves, and the frame, nothing yet, or what it throws. *)
Definition accept (r : ChunkReassembler) (m : bytes) : ChunkReassembler * outcome exn (option json) :=
  match readHeader r m with
  | Err e => (r, Err (ECodec e))
  | Ok (index, count) =>
      let payload := drop (Z.to_nat CHUNK_HEADER_BYTES) m in
      let size := cr_size r + zlen payload in
      let final := index =? count - 1 in
      if cr_frameLimit r <? size then
        (r, Err (ECodec (codecError too_large
          (js "reassembled frame is " ++ dec size ++ js " bytes at chunk " ++ dec index
           ++ js "; expected at most " ++ dec (cr_frameLimit r)))))
      else if zlen payload =? 0 then
        (r, Err (ECodec (codecError empty_record
          (js "chunk " ++ dec index ++ js " of " ++ dec count
           ++ js " carries no payload; expected at least one byte"))))
      else if negb final && (zlen payload <? MIN_NONFINAL_PAYLOAD_BYTES) then
        (r, Err (ECodec (codecError chunk_dribble
          (js "chunk " ++ dec index ++ js " of " ++ dec count ++ js " carries " ++ dec (zlen payload)
           ++ js " payload bytes; expected at least " ++ dec MIN_NONFINAL_PAYLOAD_BYTES
           ++ js " on a non-final chunk"))))
      else
        let r1 := {| cr_frameLimit := cr_frameLimit r; cr_maxChunks := cr_maxChunks r;
                     cr_expectedIndex := index + 1; cr_count := count; cr_size := size;
                     cr_parts := cr_parts r ++ [payload] |} in
        if negb final then (r1, Ok None)
        else (reset r1, Some <$> decodeLine (LBytes (concat (cr_parts r1)))
                                  (Some (ANum (NInt (cr_frameLimit r1)))))
  end.

(** [push]: a throw resets the reassembler on its way out. *)
Definition push_message (r : ChunkReassembler) (m : bytes) : ChunkReassembler * outcome exn (option json) :=
  match accept r m with
  | (r1, Err e) => (reset r1, Err e)
  | (r1, Ok o) => (r1, Ok o)
  end.

(** Messages in order: the frames completed, up to the first refusal. *)
Fixpoint push_messages (r : ChunkReassembler) (ms : list bytes)
    : ChunkReassembler * list json * option exn :=
  match ms with
  | [] => (r, [], None)
  | m :: rest =>
      match push_message r m with
      | (r1, Err e) => (r1, [], Some e)
      | (r1, Ok o) => let '(r2, fs, e) := push_messages r1 rest in (r2, option_list o ++ fs, e)
      end
  end.
End Reassembler.

(** ** Arithmetic of the header and of the split *)

Lemma ceil_div_spec a b : 0 <= a -> 0 < b -> (ceil_div a b - 1) * b < a <= ceil_div a b * b \/ (a = 0 /\ ceil_div a b = 0).
Proof.
  intros Ha Hb. unfold ceil_div. pose proof (Z.div_mod (a + b - 1) b). pose proof (Z.mod_pos_bound (a + b - 1) b).
  destruct (Z.eq_dec a 0) as [->|]; [right; split; [done|]; apply Z.div_small; lia|left; nia].
Qed.

Lemma ceil_div_mono a b a' b' :
  0 <= a <= a' -> 0 < b' <= b -> ceil_div a b <= ceil_div a' b'.
Proof.
  intros Ha Hb. unfold ceil_div.
  assert ((a + b - 1) / b <= (a' + b - 1) / b) by (apply Z.div_le_mono; lia).
  assert ((a' + b - 1) / b <= (a' + b' - 1) / b'); [|lia].
  destruct (Z.eq_dec a' 0) as [->|]; [rewrite !Z.div_small; lia|].
  replace (a' + b - 1) with (a' - 1 + 1 * b) by lia. replace (a' + b' - 1) with (a' - 1 + 1 * b') by lia.
  rewrite !Z.div_add by lia. apply Z.add_le_mono_r, Z.div_le_compat_l; lia.
Qed.

Lemma getUint32_set pre z post :
  0 <= z < 4294967296 -> getUint32 (pre ++ setUint32 z ++ post) (length pre) = z.
Proof.
  intros Hz. unfold getUint32.
  rewrite !app_nth2_plus, app_nth2, Nat.sub_diag by lia. cbn -[Z.mul Z.add Z.div Z.modulo].
  assert (z / 65536 = z / 256 / 256) as -> by (rewrite Z.div_div by lia; reflexivity).
  assert (z / 16777216 = z / 256 / 256 / 256) as -> by (rewrite !Z.div_div by lia; reflexivity).
  pose proof (Z.div_mod z 256). pose proof (Z.div_mod (z / 256) 256). pose proof (Z.div_mod (z / 256 / 256) 256).
  assert (0 <= z / 256 / 256 / 256 < 256).
  { rewrite !Z.div_div by lia. split; [apply Z.div_pos; lia|apply Z.div_lt_upper_bound; lia]. }
  rewrite (Z.mod_small (z / 256 / 256 / 256)) by lia. lia.
Qed.

Lemma header_index i n p : 0 <= i < 4294967296 -> getUint32 (chunkMessage i n p) 1 = i.
Proof. intros. unfold chunkMessage. by apply (getUint32_set [CHUNK_FORMAT_VERSION]). Qed.

Lemma header_count i n p : 0 <= n < 4294967296 -> getUint32 (chunkMessage i n p) 5 = n.
Proof.
  intros. unfold chunkMessage. rewrite app_assoc.
  by apply (getUint32_set ([CHUNK_FORMAT_VERSION] ++ setUint32 i)).
Qed.

Lemma drop_header i n p : drop (Z.to_nat CHUNK_HEADER_BYTES) (chunkMessage i n p) = p.
Proof. done. Qed.

Lemma zlen_message i n p : zlen (chunkMessage i n p) = CHUNK_HEADER_BYTES + zlen p.
Proof. unfold chunkMessage, CHUNK_HEADER_BYTES. rewrite !zlen_app. unfold zlen; cbn. lia. Qed.

Lemma zlen_subarray start stop l :
  0 <= start <= stop -> stop <= zlen l -> zlen (subarray start stop l) = stop - start.
Proof. unfold zlen, subarray. intros. rewrite length_take, length_drop. lia. Qed.

Lemma subarray_app start stop l :
  0 <= start <= stop -> take (Z.to_nat start) l ++ subarray start stop l = take (Z.to_nat stop) l.
Proof.
  intros Hs. unfold subarray. rewrite <- (take_drop (Z.to_nat start) (take (Z.to_nat stop) l)).
  rewrite take_take, skipn_firstn_comm. f_equal; f_equal; lia.
Qed.

(** ** A frame's messages *)

Section ChunkRun.
Context (capacity : Z) (l : bytes).
Hypothesis (Hcap : MIN_NONFINAL_PAYLOAD_BYTES <= capacity) (Hne : 0 < zlen l).

Local Notation count := (Z.max 1 (ceil_div (zlen l) capacity)).

Lemma count_cover : 1 <= count /\ (count - 1) * capacity < zlen l <= count * capacity.
Proof.
  unfold MIN_NONFINAL_PAYLOAD_BYTES in *.
  destruct (ceil_div_spec (zlen l) capacity) as [H|[? _]]; [lia|lia| |lia].
  assert (1 <= ceil_div (zlen l) capacity) by nia. rewrite Z.max_r by lia. lia.
Qed.

Lemma index_cover i :
  0 <= i < count ->
  0 < capacity /\ 0 <= i * capacity < zlen l /\ (i <> count - 1 -> (i + 1) * capacity < zlen l).
Proof.
  intros Hi. destruct count_cover as (_ & Hlo & Hhi). unfold MIN_NONFINAL_PAYLOAD_BYTES in *.
  set (n := count) in *. clearbody n.
  pose proof (Z.mul_le_mono_nonneg_r i (n - 1) capacity). pose proof (Z.mul_nonneg_nonneg i capacity).
  split; [lia|]. split; [lia|]. intros Hn.
  pose proof (Z.mul_le_mono_nonneg_r (i + 1) (n - 1) capacity). lia.
Qed.

Lemma payload_length i :
  0 <= i < count ->
  zlen (chunkPayload capacity l i) = Z.min capacity (zlen l - i * capacity) /\
  0 < zlen (chunkPayload capacity l i) /\
  (i <> count - 1 -> zlen (chunkPayload capacity l i) = capacity).
Proof.
  intros Hi. destruct (index_cover i Hi) as (H0 & H1 & Hnf).
  unfold chunkPayload. rewrite zlen_subarray by lia. split; [lia|]. split; [lia|].
  intros Hn. specialize (Hnf Hn). lia.
Qed.

Lemma payload_prefix i :
  0 <= i < count ->
  take (Z.to_nat (i * capacity)) l ++ chunkPayload capacity l i =
  take (Z.to_nat (Z.min ((i + 1) * capacity) (zlen l))) l.
Proof.
  intros Hi. destruct (index_cover i Hi) as (H0 & H1 & _). unfold chunkPayload.
  rewrite subarray_app by lia. do 2 f_equal. lia.
Qed.
End ChunkRun.

(** ** Reassembly *)

Lemma push_messages_app `{TypeBox, JsonEngine} r ms ns :
  push_messages r (ms ++ ns) =
  match push_messages r ms with
  | (r1, fs, Some e) => (r1, fs, Some e)
  | (r1, fs, None) => let '(r2, gs, e) := push_messages r1 ns in (r2, fs ++ gs, e)
  end.
Proof.
  revert r; induction ms as [|m ms IH]; intros r; cbn; [by destruct (push_messages r ns) as [[? ?] ?]|].
  destruct (push_message r m) as [r1 [o|e]]; [|done]. rewrite IH.
  destruct (push_messages r1 ms) as [[r2 fs] [e|]]; [done|].
  destruct (push_messages r2 ns) as [[r3 gs] e]. by rewrite app_assoc.
Qed.

(** A reassembler between two frames. *)
Definition idle (limit : Z) (r : ChunkReassembler) : Prop :=
  r = {| cr_frameLimit := limit; cr_maxChunks := maxChunksFor limit;
         cr_expectedIndex := 0; cr_count := 0; cr_size := 0; cr_parts := [] |}.

(** A reassembler that holds the first [i] chunks of [l]. *)
Record holding (limit capacity count i : Z) (l : bytes) (r : ChunkReassembler) : Prop := {
  h_limit : cr_frameLimit r = limit;
  h_max : cr_maxChunks r = maxChunksFor limit;
  h_index : cr_expectedIndex r = i;
  h_count : cr_count r = 0 \/ cr_count r = count;
  h_size : cr_size r = zlen (take (Z.to_nat (i * capacity)) l);
  h_parts : concat (cr_parts r) = take (Z.to_nat (i * capacity)) l
}.

Section Reassembly.
Context `{TypeBox, JsonEngine}.
Context (limit capacity : Z) (l : bytes).
Hypothesis (Hcap : MIN_NONFINAL_PAYLOAD_BYTES <= capacity) (Hne : 0 < zlen l)
  (Hlim : zlen l <= limit) (Hmax : limit <= MAX_ANNOUNCED_FRAME_BYTES).

Local Notation count := (Z.max 1 (ceil_div (zlen l) capacity)).
Local Notation msg i := (chunkMessage i count (chunkPayload capacity l i)).

Lemma count_bound : 1 <= count <= maxChunksFor limit /\ maxChunksFor limit < 4294967296.
Proof.
  unfold MAX_ANNOUNCED_FRAME_BYTES, MIN_NONFINAL_PAYLOAD_BYTES in *. unfold maxChunksFor.
  pose proof (ceil_div_mono (zlen l) capacity limit MIN_NONFINAL_PAYLOAD_BYTES) as Hm.
  unfold MIN_NONFINAL_PAYLOAD_BYTES in *.
  destruct (ceil_div_spec limit 1024) as [H1|[? ?]]; [lia|lia| |lia]. split; [split; [lia|]|nia].
  assert (1 <= ceil_div limit 1024) by nia. lia.
Qed.

Lemma readHeader_msg r i :
  holding limit capacity count i l r -> 0 <= i < count -> readHeader r (msg i) = Ok (i, count).
Proof.
  intros [_ Hmx Hidx Hcnt _ _] Hi. destruct count_bound as [[Hc1 Hc2] Hc3].
  unfold readHeader. rewrite zlen_message, header_index, header_count by lia.
  pose proof (zlen_nonneg (chunkPayload capacity l i)).
  rewrite (proj2 (Z.ltb_ge _ _)) by lia. rewrite Hmx, Hidx, !Z.eqb_refl.
  rewrite (proj2 (Z.ltb_ge count 1)), (proj2 (Z.ltb_ge (maxChunksFor limit) count)) by lia.
  destruct Hcnt as [->| ->]; [done|]. by rewrite Z.eqb_refl, andb_false_r.
Qed.

(** What accepting the next chunk stores. *)
Definition stored (r : ChunkReassembler) (i : Z) : ChunkReassembler :=
  {| cr_frameLimit := cr_frameLimit r; cr_maxChunks := cr_maxChunks r; cr_expectedIndex := i + 1;
     cr_count := count; cr_size := cr_size r + zlen (chunkPayload capacity l i);
     cr_parts := cr_parts r ++ [chunkPayload capacity l i] |}.

Lemma size_within r i :
  holding limit capacity count i l r -> 0 <= i < count ->
  cr_size r + zlen (chunkPayload capacity l i) = zlen (take (Z.to_nat (Z.min ((i + 1) * capacity) (zlen l))) l).
Proof. intros Hh Hi. rewrite (h_size _ _ _ _ _ _ Hh), <- payload_prefix by done. by rewrite zlen_app. Qed.

Lemma accept_msg r i :
  holding limit capacity count i l r -> 0 <= i < count ->
  accept r (msg i) =
  if i =? count - 1
  then (reset (stored r i), Some <$> decodeLine (LBytes l) (Some (ANum (NInt limit))))
  else (stored r i, Ok None).
Proof.
  intros Hh Hi. destruct (payload_length capacity l Hcap Hne i Hi) as (_ & Hpos & Hnf).
  unfold accept. rewrite (readHeader_msg r i Hh Hi), drop_header.
  rewrite (size_within r i Hh Hi), (h_limit _ _ _ _ _ _ Hh).
  rewrite (proj2 (Z.ltb_ge _ _)).
  2: { unfold zlen in *. rewrite length_take. lia. }
  rewrite (proj2 (Z.eqb_neq _ 0)) by lia.
  destruct (Z.eqb_spec i (count - 1)) as [Hf|Hf]; cbn [negb andb].
  - unfold stored. rewrite (size_within r i Hh Hi), (h_limit _ _ _ _ _ _ Hh). cbn [cr_parts cr_frameLimit].
    rewrite concat_app, (h_parts _ _ _ _ _ _ Hh). cbn [concat]. rewrite app_nil_r, payload_prefix by done.
    destruct (count_cover capacity l Hcap Hne) as (_ & Hlo & Hhi).
    rewrite (firstn_all2 (n := Z.to_nat (Z.min ((i + 1) * capacity) (zlen l)))); [done|]. unfold zlen in *. nia.
  - rewrite (Hnf Hf), (proj2 (Z.ltb_ge _ _)) by done.
    unfold stored. by rewrite (size_within r i Hh Hi), (h_limit _ _ _ _ _ _ Hh).
Qed.

Lemma stored_holding r i :
  holding limit capacity count i l r -> 0 <= i < count -> i <> count - 1 ->
  holding limit capacity count (i + 1) l (stored r i).
Proof.
  intros Hh Hi Hn. destruct (count_cover capacity l Hcap Hne) as (_ & Hlo & Hhi).
  assert ((i + 1) * capacity <= zlen l) by (unfold MIN_NONFINAL_PAYLOAD_BYTES in *; nia).
  pose proof (size_within r i Hh Hi) as Hsz. pose proof (payload_prefix capacity l Hcap Hne i Hi) as Hpre.
  rewrite Z.min_l in Hsz, Hpre by lia. destruct Hh as [Hh1 Hh2 _ _ _ Hh6].
  split; cbn; try done; [by right|]. rewrite concat_app, Hh6. cbn. by rewrite app_nil_r.
Qed.

Lemma push_messages_cons r m ms :
  push_messages r (m :: ms) =
  match push_message r m with
  | (r1, Err e) => (r1, [], Some e)
  | (r1, Ok o) => let '(r2, fs, e) := push_messages r1 ms in (r2, option_list o ++ fs, e)
  end.
Proof. done. Qed.

(** The run of messages from chunk [i] on. *)
Lemma push_run k r i :
  holding limit capacity count i l r -> 0 <= i -> i + Z.of_nat (S k) = count ->
  push_messages r (map (fun j => msg (Z.of_nat j)) (seq (Z.to_nat i) (S k))) =
  match decodeLine (LBytes l) (Some (ANum (NInt limit))) with
  | Ok v => (reset r, [v], None)
  | Err e => (reset r, [], Some e)
  end.
Proof.
  revert r i; induction k as [|k IH]; intros r i Hh Hi0 Hk; cbn [seq map]; rewrite push_messages_cons;
    rewrite Z2Nat.id by lia; unfold push_message; rewrite accept_msg by (done || lia).
  - rewrite (proj2 (Z.eqb_eq _ _)) by lia. by destruct (decodeLine _ _).
  - rewrite (proj2 (Z.eqb_neq _ _)) by lia.
    specialize (IH (stored r i) (i + 1) (stored_holding r i Hh ltac:(lia) ltac:(lia)) ltac:(lia) ltac:(lia)).
    replace (Z.to_nat (i + 1)) with (S (Z.to_nat i)) in IH by lia. cbn [seq map] in IH. rewrite IH.
    by destruct (decodeLine _ _).
Qed.

(** All the messages of a line, and the reassembler is idle again. *)
Lemma push_line r :
  idle limit r ->
  push_messages r (chunkLine capacity l) =
  match decodeLine (LBytes l) (Some (ANum (NInt limit))) with
  | Ok v => (r, [v], None)
  | Err e => (r, [], Some e)
  end.
Proof.
  intros Hr. red in Hr. subst r. unfold chunkLine. destruct count_bound as [[Hc _] _].
  set (k := Z.to_nat (count - 1)).
  replace (Z.to_nat count) with (S k) by lia.
  rewrite (push_run k _ 0); [by destruct (decodeLine _ _)| |lia|lia]. split; cbn; try done. by left.
Qed.
End Reassembly.

(** ** Properties *)

Section ChunkProperties.
Context `{TypeBox, JsonEngine}.

Lemma decodeLine_text v limit :
  json_ok v = true -> isFrame v = true -> zlen (utf8_encode (stringify v)) <= limit ->
  4096 <= limit <= 2147483647 ->
  decodeLine (LBytes (utf8_encode (stringify v))) (Some (ANum (NInt limit))) = Ok v.
Proof.
  intros Hok Hf Hl Hb. unfold decodeLine, resolveFrameLimit.
  rewrite resolve_given.
  2: { unfold MIN_MAX_FRAME_BYTES, MIN_ANNOUNCED_FRAME_BYTES. lia. }
  2: { intros m [= <-]. unfold MAX_ANNOUNCED_FRAME_BYTES. lia. }
  cbn [range mbind outcome_bind]. unfold input_bytes.
  rewrite strip_text, (proj2 (Z.ltb_ge _ _)), stringify_utf8, not_blank, decodeRecord_text by done. done.
Qed.

Lemma text_nonempty v : json_ok v = true -> 0 < zlen (utf8_encode (stringify v)).
Proof.
  intros Hok. pose proof (zlen_nonneg (utf8_encode (stringify v))).
  destruct (Z.eq_dec (zlen (utf8_encode (stringify v))) 0) as [Hz%zlen_zero|]; [|lia].
  pose proof (stringify_utf8 v Hok) as Hu. rewrite Hz in Hu.
  destruct (stringify_head v Hok) as (c & t & Ht & _). by rewrite Ht in Hu.
Qed.

Lemma encodeChunks_ok f o ms :
  plain f -> encodeChunks f o = Ok ms ->
  exists capacity limit, MIN_NONFINAL_PAYLOAD_BYTES <= capacity /\
    resolveMessageCeiling o = Ok (capacity + CHUNK_HEADER_BYTES) /\
    resolveFrameLimit (co_maxFrameBytes o) = Ok limit /\
    isFrame (frame_json f) = true /\ zlen (utf8_encode (stringify (frame_json f))) <= limit /\
    ms = chunkLine capacity (utf8_encode (stringify (frame_json f))).
Proof.
  intros Hp. unfold encodeChunks, encodeFrameBytes.
  destruct (resolveMessageCeiling o) as [c|] eqn:Hc; [|done].
  destruct (resolveFrameLimit (co_maxFrameBytes o)) as [limit|] eqn:Hl; [|done]. cbn.
  destruct (encodeChecked f limit) as [[t b]|] eqn:He; [|done]. cbn. intros [= <-].
  apply encodeChecked_ok in He as (Hf & -> & -> & Hz); [|done].
  exists (c - CHUNK_HEADER_BYTES), limit. apply resolve_bounds in Hc as [Hmin _].
  unfold MIN_MAX_MESSAGE_BYTES, MIN_NONFINAL_PAYLOAD_BYTES, CHUNK_HEADER_BYTES in *.
  replace (c - 9 + 9) with c by lia. repeat split; (done || lia).
Qed.

(** What a run of the messages of a frame gives, its payload [undefined] or not *)
Lemma encodeChunks_text f o ms :
  encodeChunks f o = Ok ms ->
  exists capacity, MIN_NONFINAL_PAYLOAD_BYTES <= capacity /\ ms = chunkLine capacity (utf8_encode (stringify (frame_json f)))
    /\ ((exists j, payload_of f = VJson j) /\ (carried f -> isFrame (frame_json f) = true) \/ payload_of f = VUndefined).
Proof.
  unfold encodeChunks, encodeFrameBytes.
  destruct (resolveMessageCeiling o) as [c|] eqn:Hc; [|done].
  destruct (resolveFrameLimit (co_maxFrameBytes o)) as [limit|] eqn:Hl; [|done]. cbn.
  destruct (encodeChecked f limit) as [[t b]|] eqn:He; [|done]. cbn. intros [= <-].
  exists (c - CHUNK_HEADER_BYTES). apply resolve_bounds in Hc as [Hmin _].
  unfold MIN_MAX_MESSAGE_BYTES, MIN_NONFINAL_PAYLOAD_BYTES, CHUNK_HEADER_BYTES in *. split; [lia|].
  assert (encodeLine f (co_maxFrameBytes o) = Ok (t ++ [LINE_FEED])) as Hline by (unfold encodeLine; rewrite Hl; cbn; by rewrite He).
  destruct (encodeLine_text f _ _ limit Hl Hline) as (Et & _ & Hp). apply app_inv_tail in Et as ->.
  assert (b = utf8_encode (stringify (frame_json f))) as ->.
  { unfold encodeChecked in He. apply bind_ok in He as (? & _ & He). apply bind_ok in He as (t & _ & He). cbv zeta in He.
    destruct (Z.ltb _ _); [done|]. by injection He as -> <-. }
  split; [done|]. destruct Hp as [[j Hj]|Hu]; [left|by right]. split; [by exists j|]. intros Hok.
  by destruct (encodeLine_ok f _ _ limit (conj (ex_intro _ j Hj) Hok) Hl Hline).
Qed.

Lemma decodeLine_undefined f limit :
  carried f -> payload_of f = VUndefined -> zlen (utf8_encode (stringify (frame_json f))) <= limit -> 4096 <= limit <= 2147483647 ->
  exists e, decodeLine (LBytes (utf8_encode (stringify (frame_json f)))) (Some (ANum (NInt limit))) = Err (ECodec e)
    /\ refusal_class e = (schema_refused, frameTypeOf (frame_json f)).
Proof.
  intros Hok Hu Hl Hb. unfold decodeLine, resolveFrameLimit.
  rewrite resolve_given.
  2: { unfold MIN_MAX_FRAME_BYTES, MIN_ANNOUNCED_FRAME_BYTES. lia. }
  2: { intros m [= <-]. unfold MAX_ANNOUNCED_FRAME_BYTES. lia. }
  cbn [range mbind outcome_bind]. unfold input_bytes.
  rewrite strip_text, (proj2 (Z.ltb_ge _ _)), stringify_utf8, not_blank by done. unfold decodeRecord.
  rewrite (proj2 (Z.ltb_ge _ _)), parse_stringify by done. destruct (assertFrame (frame_json f)) as [[]|e] eqn:Ea.
  { apply assertFrame_ok in Ea. by rewrite undefined_no_frame in Ea. }
  exists e. split; [done|]. unfold refusal_class. by apply assertFrame_err in Ea as [-> ->].
Qed.

(** C15: every frame split by [encodeChunks] and fed to a [ChunkReassembler] whose
    limit holds it comes back unchanged, one frame per run and in order, and
    the reassembler is empty again after every run. The encoder also takes a frame whose payload is [undefined], which JSON
    leaves out: then the frames before the first such frame come back, that one is refused as a schema failure, and the
    reassembler is empty after the refusal. The values in the frames are assumed to be ones a program can hold. *)
Theorem chunk_stream_roundtrip o ro r fs runs :
  newChunkReassembler ro = Ok r -> Forall carried fs ->
  Forall2 (fun f ms => encodeChunks f o = Ok ms /\
    zlen (utf8_encode (stringify (frame_json f))) <= cr_frameLimit r) fs runs ->
  let '(r', vs, e) := push_messages r (concat runs) in
  r' = r /\ map frame_of vs = map Some (arrives fs).1
  /\ match e with None => (arrives fs).2 = None | Some (ECodec c) => (arrives fs).2 = Some (refusal_class c) | _ => False end
  /\ ((forall f, f ∈ fs -> payload_of f <> VUndefined) -> (arrives fs).1 = fs /\ e = None).
Proof.
  intros Hr Hp HF. unfold newChunkReassembler in Hr.
  destruct (resolveFrameLimit ro) as [limit|] eqn:Hl; [|done]. injection Hr as <-.
  apply resolve_frame_limit in Hl. cbn [cr_frameLimit] in HF. set (r := Build_ChunkReassembler _ _ _ _ _ _).
  induction HF as [|f ms fs runs [Hms Hsz] HF IH]; [done|].
  pose proof (Forall_inv Hp) as Hok. apply Forall_inv_tail in Hp. specialize (IH Hp).
  destruct (encodeChunks_text f o ms Hms) as (cap & Hcap & -> & Hpay).
  cbn [concat arrives]. rewrite push_messages_app.
  rewrite (push_line limit); [|done|by apply text_nonempty|done|unfold MAX_ANNOUNCED_FRAME_BYTES; lia|done].
  destruct Hpay as [[[j Hj] Hisf]|Hu].
  - rewrite decodeLine_text by (by try apply Hisf; try lia). rewrite Hj. destruct (push_messages r (concat runs)) as [[r' vs] e].
    destruct (arrives fs) as [gs x]. cbn [fst snd map app] in *. destruct IH as (-> & Hvs & He & Hn). split; [done|].
    split; [by rewrite (frame_of_frame_json f j Hj), Hvs|]. split; [done|]. intros Hall.
    destruct Hn as [-> ->]; [intros g Hg; apply Hall; by right|done].
  - rewrite Hu. destruct (decodeLine_undefined f limit Hok Hu) as (e & -> & Ee); [lia..|]. cbn. rewrite Ee. split; [done|]. split; [done|].
    split; [done|]. intros Hall. by destruct (Hall f ltac:(left)).
Qed.

(** Every message of a run fits the message ceiling, only the last may carry
    fewer than 1024 payload bytes, none is empty, and the run is no longer
    than a receiver under the same frame limit accepts. *)
Theorem chunk_messages_bounded f o ms ceiling limit :
  plain f -> encodeChunks f o = Ok ms -> resolveMessageCeiling o = Ok ceiling ->
  resolveFrameLimit (co_maxFrameBytes o) = Ok limit ->
  Forall (fun m => CHUNK_HEADER_BYTES < zlen m <= ceiling) ms /\
  (forall i m, ms !! i = Some m -> S i <> length ms ->
    MIN_NONFINAL_PAYLOAD_BYTES <= zlen m - CHUNK_HEADER_BYTES) /\
  1 <= zlen ms <= maxChunksFor limit.
Proof.
  intros Hp Hms Hc Hl. destruct (encodeChunks_ok f o ms Hp Hms) as (cap & sl & Hcap & Hc' & Hl' & _ & Hz & ->).
  rewrite Hc in Hc'. injection Hc' as ->. rewrite Hl in Hl'. injection Hl' as <-.
  apply resolve_frame_limit in Hl. destruct Hp as [_ Hok]. pose proof (text_nonempty _ Hok) as Hne.
  set (l := utf8_encode (stringify (frame_json f))) in *.
  pose proof (count_bound limit cap l Hcap Hne Hz ltac:(unfold MAX_ANNOUNCED_FRAME_BYTES; lia)) as [Hn _].
  unfold chunkLine. set (n := Z.max 1 (ceil_div (zlen l) cap)) in *.
  assert (forall i, (i < Z.to_nat n)%nat -> zlen (chunkPayload cap l (Z.of_nat i)) <= cap /\
    0 < zlen (chunkPayload cap l (Z.of_nat i)) /\
    (S i <> Z.to_nat n -> zlen (chunkPayload cap l (Z.of_nat i)) = cap)) as Hpl.
  { intros i Hi. destruct (payload_length cap l Hcap Hne (Z.of_nat i)) as (H1 & H2 & H3); fold n; [lia|].
    split; [lia|]. split; [done|]. intros Hs. apply H3. fold n. lia. }
  split; [|split].
  - apply Forall_map, Forall_forall. intros i Hi%elem_of_seq. rewrite zlen_message.
    destruct (Hpl i) as (? & ? & _); [lia|]. lia.
  - intros i m Hi Hlast. rewrite length_map, length_seq in Hlast. rewrite list_lookup_fmap in Hi.
    apply fmap_Some in Hi as (j & Hj & ->). apply lookup_seq in Hj as [-> Hj]. rewrite zlen_message.
    destruct (Hpl i) as (_ & _ & H3); [lia|]. cbn [Nat.add]. rewrite H3 by done. lia.
  - unfold zlen. rewrite length_map, length_seq. lia.
Qed.
End ChunkProperties.

(** ** What a reassembler can be made to hold *)

(** The bookkeeping of [ChunkReassembler], and its bound on memory. *)
Record cr_inv (r : ChunkReassembler) : Prop := {
  inv_max : cr_maxChunks r = maxChunksFor (cr_frameLimit r);
  inv_limit : 0 <= cr_frameLimit r;
  inv_size : cr_size r = zlen (concat (cr_parts r));
  inv_bound : cr_size r <= cr_frameLimit r;
  inv_index : cr_expectedIndex r = zlen (cr_parts r);
  inv_count : (cr_count r = 0 /\ cr_parts r = []) \/ cr_expectedIndex r < cr_count r <= cr_maxChunks r;
  inv_parts : Forall (fun p => MIN_NONFINAL_PAYLOAD_BYTES <= zlen p) (cr_parts r)
}.

Lemma reset_inv r : cr_inv r -> cr_inv (reset r).
Proof.
  intros [H1 H2 _ _ _ _ _]. split; cbn; auto.
Qed.

Lemma readHeader_ok r m index count :
  readHeader r m = Ok (index, count) ->
  index = cr_expectedIndex r /\ 1 <= count <= cr_maxChunks r /\ (cr_count r = 0 \/ count = cr_count r).
Proof.
  unfold readHeader. repeat match goal with |- (if ?b then _ else _) = _ -> _ => destruct b eqn:?; [done|] end.
  intros [= <- <-]. bool_to_prop.
  split; [done|]. split; [lia|].
  destruct (Z.eq_dec (cr_count r) 0); [by left|right].
  match goal with H : negb (cr_count r =? 0) && _ = false |- _ =>
    rewrite (proj2 (Z.eqb_neq _ _)) in H by done; cbn in H; bool_to_prop end. lia.
Qed.

Section ReassemblerSafety.
Context `{TypeBox, JsonEngine}.

(** A refusal changes nothing before the reset; a chunk keeps the bookkeeping. *)
Lemma accept_inv r m :
  cr_inv r ->
  match accept r m with
  | (r1, Err _) => r1 = r \/ r1 = reset r
  | (r1, Ok None) => cr_inv r1
  | (r1, Ok (Some _)) => r1 = reset r
  end.
Proof.
  intros Hi. unfold accept. destruct (readHeader r m) as [[index count]|e] eqn:Hh; [|by left].
  apply readHeader_ok in Hh as (Hidx & Hcnt & Hsame).
  set (payload := drop (Z.to_nat CHUNK_HEADER_BYTES) m).
  destruct (Z.ltb_spec (cr_frameLimit r) (cr_size r + zlen payload)); [by left|].
  destruct (Z.eqb_spec (zlen payload) 0); [by left|].
  destruct (Z.eqb_spec index (count - 1)) as [Hf|Hf]; cbn [negb andb].
  - cbn [cr_parts cr_frameLimit]. destruct (decodeLine _ _); cbn; by auto.
  - destruct (Z.ltb_spec (zlen payload) MIN_NONFINAL_PAYLOAD_BYTES); [by left|].
    destruct Hi as [I1 I2 I3 I4 I5 I6 I7]. split; cbn; try done.
    + rewrite concat_app, zlen_app. cbn. rewrite app_nil_r. lia.
    + rewrite zlen_app, Hidx, I5. done.
    + right. destruct I6 as [[I6 I6']|I6].
      * rewrite I5, I6' in Hidx. change (zlen (@nil bytes)) with 0 in Hidx. lia.
      * lia.
    + apply Forall_app. split; [done|]. by apply Forall_singleton.
Qed.

Lemma push_message_inv r m : cr_inv r -> cr_inv (push_message r m).1 /\
  (forall e, (push_message r m).2 = Err e -> (push_message r m).1 = reset r).
Proof.
  intros Hi. pose proof (accept_inv r m Hi) as Ha. pose proof (reset_inv r Hi) as Hr. unfold push_message.
  destruct (accept r m) as [r1 [[v|]|e]]; cbn; [by subst|by split|].
  assert (reset r1 = reset r) as -> by (by destruct Ha as [->| ->]). split; [done|by intros].
Qed.

(** Whatever messages a peer sends, a reassembler never holds more than its
    frame limit, its counters agree with the chunks it holds, it never waits
    for more chunks than the limit can need, and a refusal leaves it empty. *)
Theorem reassembler_bounded o r ms :
  newChunkReassembler o = Ok r ->
  cr_inv (push_messages r ms).1.1 /\
  (forall e, (push_messages r ms).2 = Some e -> cr_parts (push_messages r ms).1.1 = []).
Proof.
  intros Hn. assert (cr_inv r) as Hi.
  { unfold newChunkReassembler in Hn. destruct (resolveFrameLimit o) eqn:Hl; [|done]. injection Hn as <-.
    apply resolve_frame_limit in Hl. split; cbn; auto; lia. }
  clear Hn. revert r Hi; induction ms as [|m ms IH]; intros r Hi; [by cbn|].
  rewrite push_messages_cons. destruct (push_message_inv r m Hi) as [Hi' He].
  destruct (push_message r m) as [r1 [x|e]]; cbn in Hi', He.
  - destruct (IH r1 Hi') as [IH1 IH2]. by destruct (push_messages r1 ms) as [[r2 fs] e].
  - cbn. split; [done|]. intros _ _. by rewrite (He e).
Qed.
End ReassemblerSafety.

#[local] Existing Instance conforming_checker.
#[local] Existing Instance plain_engine.

(** ** Witnesses *)

Definition sample_options : ChunkOptions := {| co_maxMessageBytes := None; co_maxFrameBytes := None |}.

Definition sample_reassembler : ChunkReassembler :=
  {| cr_frameLimit := DEFAULT_MAX_FRAME_BYTES; cr_maxChunks := 16384;
     cr_expectedIndex := 0; cr_count := 0; cr_size := 0; cr_parts := [] |}.

Definition sample_runs : list (list bytes) :=
  omap (fun f => ok_of (encodeChunks f sample_options)) sample_stream.

Definition gap_runs : list (list bytes) := omap (fun f => ok_of (encodeChunks f sample_options)) gap_stream.

Lemma chunk_stream_roundtrip_witness :
  (let '(r', vs, e) := push_messages sample_reassembler (concat sample_runs) in
   r' = sample_reassembler /\ map frame_of vs = map Some sample_stream /\ e = None)
  /\ (let '(r', vs, e) := push_messages sample_reassembler (concat gap_runs) in
      r' = sample_reassembler /\ map frame_of vs = map Some sample_stream /\ e <> None).
Proof.
  split.
  - pose proof (chunk_stream_roundtrip sample_options None sample_reassembler sample_stream sample_runs) as Hc.
    destruct (push_messages _ _) as [[r' vs] e]. destruct Hc as (H1 & H2 & _ & H4); [vm_compute; reflexivity|repeat constructor|repeat constructor; vm_compute; congruence|].
    split; [exact H1|]. split; [exact H2|]. apply H4. intros f [->|[->|[]%not_elem_of_nil]%elem_of_cons]%elem_of_cons; discriminate.
  - pose proof (chunk_stream_roundtrip sample_options None sample_reassembler gap_stream gap_runs) as Hc.
    destruct (push_messages _ _) as [[r' vs] e]. destruct Hc as (H1 & H2 & H3 & _); [vm_compute; reflexivity|repeat constructor|repeat constructor; vm_compute; congruence|].
    split; [exact H1|]. split; [exact H2|]. intros ->. vm_compute in H3. discriminate H3.
Defined.

Lemma chunk_messages_bounded_witness :
  Forall (fun m => CHUNK_HEADER_BYTES < zlen m <= 16384) (default [] (head sample_runs)).
Proof.
  apply (chunk_messages_bounded FPing sample_options (default [] (head sample_runs)) 16384 DEFAULT_MAX_FRAME_BYTES);
    [split; [eexists; reflexivity|reflexivity]|vm_compute; reflexivity..].
Defined.

Lemma reassembler_bounded_witness : cr_inv (push_messages sample_reassembler [[2; 0; 0]; [1]]).1.1.
Proof.
  apply (reassembler_bounded None sample_reassembler [[2; 0; 0]; [1]]). vm_compute. reflexivity.
Defined.
