(* ===== verification/Session.v ===== *)
(** * The session

    [packages/protocol/src/session.ts]: a symmetric Mango Protocol session over any
    port. Its state is the record [session]; every method, timer callback,
    frame arrival and promise continuation is one function from a state to a
    state and the effects it had, in order. The port is what [Port.send] answers
    at that moment: whether it throws, and the closure it reports from inside
    the call, if it does (a broken pipe reports its closure before [send] throws).

    Subscribers and abort listeners are the program's own code: that they were
    called is an effect, what they do next is a later input, and they do not
    throw. The loops of the teardown over [Map]s list their effects in the order
    of the finite maps used here, not in insertion order. *)

From S2P Require Import Prelude Utf8 Regex Json JsonFacts Wire Frames Ndjson Listeners.

(** ** Errors and closures *)

(** [RemoteError]; [re_session_closed] is membership of the module's [WeakSet]
    of errors this implementation raised because its transport closed. *)
Record RemoteError : Type := {
  re_code : jstring;
  re_message : jstring;
  re_details : option (list (jstring * json));
  re_session_closed : bool
}.

Definition remoteError (code msg : jstring) (details : option (list (jstring * json))) : RemoteError :=
  {| re_code := code; re_message := msg; re_details := details; re_session_closed := false |}.

(** What a rejected promise or a throw carries. *)
Inductive failure : Type :=
| FRemote (e : RemoteError)
| FCodec (e : CodecError)
| FOther (msg : jstring).

(** What an encoder throws, as a port's [send] passes it on. *)
Definition exn_failure (e : exn) : failure :=
  match e with ECodec c => FCodec c | ERange m => FOther m end.

Definition isSessionClosedRequestError (f : failure) : bool :=
  match f with FRemote e => re_session_closed e | _ => false end.

Definition describe (f : failure) : jstring :=
  match f with FRemote e => re_message e | FCodec e => message e | FOther m => m end.

(** [port.ts] *)
Inductive PortClosure : Type :=
| PClosed (code : option Z) (reason : option jstring)
| PProtocolError (error : CodecError) (code : Z).

Record SessionClosure : Type := {
  sc_code : Z;
  sc_reason : option jstring;
  sc_fatal : bool;
  sc_error : option CodecError
}.

Definition closure_of (code : Z) (reason : option jstring) : SessionClosure :=
  {| sc_code := code; sc_reason := reason; sc_fatal := isFatalCloseCode code; sc_error := None |}.

Record RemotePeer : Type := {
  rp_peer : PeerInfo;
  rp_protocol : ProtocolVersion;
  rp_capabilities : list (jstring * json);
  rp_limits : option Limits;
  rp_effectiveMinor : Z
}.

Inductive SessionState : Type := handshaking | ready | closed.

Global Instance SessionState_eq_dec : EqDecision SessionState.
Proof. solve_decision. Defined.

(** ** Options *)

Definition DEFAULT_HANDSHAKE_TIMEOUT_MS : Z := 15000.
Definition HANDSHAKE_TIMEOUT_REASON : jstring := js "handshake timeout".
Definition DEFAULT_LIVENESS_INTERVAL_MS : Z := 20000.
Definition DEFAULT_MAX_IN_FLIGHT : Z := 256.
Definition DEFAULT_MAX_STREAM_KEYS : Z := 1024.
Definition MIN_OPEN_STREAM_KEYS : Z := 1.
Definition IN_FLIGHT_LIMIT_KIND : jstring := js "in_flight_limit".

(** [livenessIntervalMs]: absent, a number, or [false]. *)
Inductive liveness : Type := LiveDefault | LiveEvery (ms : Z) | LiveOff.

Record SessionOptions : Type := {
  so_peer : PeerInfo;
  so_capabilities : option (list (jstring * json));
  so_protocol : option ProtocolVersion;
  so_maxFrameBytes : option jsarg;
  so_maxInFlight : option jsarg;
  so_maxStreamKeys : option jsarg;
  so_handshakeTimeoutMs : option Z;
  so_livenessIntervalMs : liveness;
  so_handlers : list (jstring * nat);
  so_requestIdPrefix : option jstring
}.

Definition localFrameCeiling (requested portCeiling : option jsarg) : outcome jstring Z :=
  ceiling ←
    match portCeiling with
    | None => Ok None
    | Some _ =>
        Some <$> resolveIntegerAtLeast (js "port maxFrameBytes") portCeiling
                   DEFAULT_MAX_FRAME_BYTES MIN_MAX_FRAME_BYTES (Some MAX_ANNOUNCED_FRAME_BYTES)
    end;
  match requested with
  | None => Ok (default DEFAULT_MAX_FRAME_BYTES ceiling)
  | Some _ =>
      floored ← resolveIntegerAtLeast (js "maxFrameBytes") requested
                  DEFAULT_MAX_FRAME_BYTES MIN_MAX_FRAME_BYTES (Some MAX_ANNOUNCED_FRAME_BYTES);
      Ok (Z.min floored (default floored ceiling))
  end.

(** ** State *)

(** An outbound request the peer has not answered. *)
Record PendingRequest : Type := { pr_method : jstring; pr_call : nat }.

(** A caller of [request] still awaiting [ready]. *)
Record waiting_request : Type := {
  wr_method : jstring;
  wr_params : jsval;
  wr_signal : bool;
  wr_timeoutMs : option Z
}.

(** A handler this side is running, with the state of its [AbortController]. *)
Record dispatch_run : Type := { dr_id : jstring; dr_method : jstring; dr_aborted : bool }.

Inductive ready_promise : Type :=
| ReadyPending
| ReadyResolved (remote : RemotePeer)
| ReadyRejected (e : RemoteError).

Inductive settlement : Type :=
| Resolved (value : jsval)
| Rejected (f : failure).

(** The fields the constructor fixes. *)
Record session_config : Type := {
  c_peer : PeerInfo;
  c_capabilities : list (jstring * json);
  c_localProtocol : ProtocolVersion;
  c_localMaxFrameBytes : Z;
  c_maxInFlight : Z;
  c_maxStreamKeys : Z;
  c_handshakeTimeoutMs : Z;
  c_livenessIntervalMs : option Z;
  c_requestIdPrefix : jstring
}.

(** [s_runs] are the dispatches whose handler has not settled ([#dispatches] and the
    controllers they hold), [s_calls] the settled promises of [request], [s_timers]
    and [s_abortListeners] the request timers and abort listeners in force. *)
Record session : Type := {
  s_cfg : session_config;
  s_handlers : gmap jstring nat;
  s_pending : gmap jstring PendingRequest;
  s_active : gmap jstring nat;
  s_runs : gmap nat dispatch_run;
  s_eventSequences : gmap jstring Z;
  s_eventListeners : list nat;
  s_pongListeners : list nat;
  s_closeListeners : list nat;
  s_ready : ready_promise;
  s_state : SessionState;
  s_remote : option RemotePeer;
  s_closure : option SessionClosure;
  s_announcedClose : option (Z * option jstring);
  s_requestSequence : Z;
  s_handshakeTimer : bool;
  s_livenessTimer : bool;
  s_awaitingPong : bool;
  s_attached : bool;
  s_waiting : gmap nat waiting_request;
  s_timers : gmap jstring Z;
  s_abortListeners : gset jstring;
  s_calls : gmap nat settlement;
  s_nextCall : nat;
  s_nextRun : nat
}.

(** Effects on the world, in the order they happen. [EvSend f ok] is a call of
    [Port.send], [ok] when it did not throw. *)
Inductive effect : Type :=
| EvSend (f : frame) (ok : bool)
| EvPortClose (code : Z) (reason : option jstring)
| EvInvoke (run : nat) (handler : nat) (id method : jstring) (params : jsval)
| EvAbort (run : nat)
| EvEvent (listener : nat) (f : frame)
| EvPong (listener : nat)
| EvClosed (listener : nat) (c : SessionClosure).

(** What [Port.send] does with one frame. *)
Record send_reply : Type := { reply_closure : option PortClosure; reply_throw : option failure }.

Definition port_fn : Type := frame -> send_reply.

(** ** Field updates *)

Definition set_handlers v (s : session) : session :=
  Build_session (s_cfg s) v (s_pending s) (s_active s) (s_runs s) (s_eventSequences s) (s_eventListeners s)
    (s_pongListeners s) (s_closeListeners s) (s_ready s) (s_state s) (s_remote s) (s_closure s)
    (s_announcedClose s) (s_requestSequence s) (s_handshakeTimer s) (s_livenessTimer s) (s_awaitingPong s)
    (s_attached s) (s_waiting s) (s_timers s) (s_abortListeners s) (s_calls s) (s_nextCall s) (s_nextRun s).

Definition set_pending v (s : session) : session :=
  Build_session (s_cfg s) (s_handlers s) v (s_active s) (s_runs s) (s_eventSequences s) (s_eventListeners s)
    (s_pongListeners s) (s_closeListeners s) (s_ready s) (s_state s) (s_remote s) (s_closure s)
    (s_announcedClose s) (s_requestSequence s) (s_handshakeTimer s) (s_livenessTimer s) (s_awaitingPong s)
    (s_attached s) (s_waiting s) (s_timers s) (s_abortListeners s) (s_calls s) (s_nextCall s) (s_nextRun s).

Definition set_active v (s : session) : session :=
  Build_session (s_cfg s) (s_handlers s) (s_pending s) v (s_runs s) (s_eventSequences s) (s_eventListeners s)
    (s_pongListeners s) (s_closeListeners s) (s_ready s) (s_state s) (s_remote s) (s_closure s)
    (s_announcedClose s) (s_requestSequence s) (s_handshakeTimer s) (s_livenessTimer s) (s_awaitingPong s)
    (s_attached s) (s_waiting s) (s_timers s) (s_abortListeners s) (s_calls s) (s_nextCall s) (s_nextRun s).

Definition set_runs v (s : session) : session :=
  Build_session (s_cfg s) (s_handlers s) (s_pending s) (s_active s) v (s_eventSequences s) (s_eventListeners s)
    (s_pongListeners s) (s_closeListeners s) (s_ready s) (s_state s) (s_remote s) (s_closure s)
    (s_announcedClose s) (s_requestSequence s) (s_handshakeTimer s) (s_livenessTimer s) (s_awaitingPong s)
    (s_attached s) (s_waiting s) (s_timers s) (s_abortListeners s) (s_calls s) (s_nextCall s) (s_nextRun s).

Definition set_eventSequences v (s : session) : session :=
  Build_session (s_cfg s) (s_handlers s) (s_pending s) (s_active s) (s_runs s) v (s_eventListeners s)
    (s_pongListeners s) (s_closeListeners s) (s_ready s) (s_state s) (s_remote s) (s_closure s)
    (s_announcedClose s) (s_requestSequence s) (s_handshakeTimer s) (s_livenessTimer s) (s_awaitingPong s)
    (s_attached s) (s_waiting s) (s_timers s) (s_abortListeners s) (s_calls s) (s_nextCall s) (s_nextRun s).

Definition set_eventListeners v (s : session) : session :=
  Build_session (s_cfg s) (s_handlers s) (s_pending s) (s_active s) (s_runs s) (s_eventSequences s) v
    (s_pongListeners s) (s_closeListeners s) (s_ready s) (s_state s) (s_remote s) (s_closure s)
    (s_announcedClose s) (s_requestSequence s) (s_handshakeTimer s) (s_livenessTimer s) (s_awaitingPong s)
    (s_attached s) (s_waiting s) (s_timers s) (s_abortListeners s) (s_calls s) (s_nextCall s) (s_nextRun s).

Definition set_pongListeners v (s : session) : session :=
  Build_session (s_cfg s) (s_handlers s) (s_pending s) (s_active s) (s_runs s) (s_eventSequences s)
    (s_eventListeners s) v (s_closeListeners s) (s_ready s) (s_state s) (s_remote s) (s_closure s)
    (s_announcedClose s) (s_requestSequence s) (s_handshakeTimer s) (s_livenessTimer s) (s_awaitingPong s)
    (s_attached s) (s_waiting s) (s_timers s) (s_abortListeners s) (s_calls s) (s_nextCall s) (s_nextRun s).

Definition set_closeListeners v (s : session) : session :=
  Build_session (s_cfg s) (s_handlers s) (s_pending s) (s_active s) (s_runs s) (s_eventSequences s)
    (s_eventListeners s) (s_pongListeners s) v (s_ready s) (s_state s) (s_remote s) (s_closure s)
    (s_announcedClose s) (s_requestSequence s) (s_handshakeTimer s) (s_livenessTimer s) (s_awaitingPong s)
    (s_attached s) (s_waiting s) (s_timers s) (s_abortListeners s) (s_calls s) (s_nextCall s) (s_nextRun s).

Definition set_ready v (s : session) : session :=
  Build_session (s_cfg s) (s_handlers s) (s_pending s) (s_active s) (s_runs s) (s_eventSequences s)
    (s_eventListeners s) (s_pongListeners s) (s_closeListeners s) v (s_state s) (s_remote s) (s_closure s)
    (s_announcedClose s) (s_requestSequence s) (s_handshakeTimer s) (s_livenessTimer s) (s_awaitingPong s)
    (s_attached s) (s_waiting s) (s_timers s) (s_abortListeners s) (s_calls s) (s_nextCall s) (s_nextRun s).

Definition set_state v (s : session) : session :=
  Build_session (s_cfg s) (s_handlers s) (s_pending s) (s_active s) (s_runs s) (s_eventSequences s)
    (s_eventListeners s) (s_pongListeners s) (s_closeListeners s) (s_ready s) v (s_remote s) (s_closure s)
    (s_announcedClose s) (s_requestSequence s) (s_handshakeTimer s) (s_livenessTimer s) (s_awaitingPong s)
    (s_attached s) (s_waiting s) (s_timers s) (s_abortListeners s) (s_calls s) (s_nextCall s) (s_nextRun s).

Definition set_remote v (s : session) : session :=
  Build_session (s_cfg s) (s_handlers s) (s_pending s) (s_active s) (s_runs s) (s_eventSequences s)
    (s_eventListeners s) (s_pongListeners s) (s_closeListeners s) (s_ready s) (s_state s) v (s_closure s)
    (s_announcedClose s) (s_requestSequence s) (s_handshakeTimer s) (s_livenessTimer s) (s_awaitingPong s)
    (s_attached s) (s_waiting s) (s_timers s) (s_abortListeners s) (s_calls s) (s_nextCall s) (s_nextRun s).

Definition set_closure v (s : session) : session :=
  Build_session (s_cfg s) (s_handlers s) (s_pending s) (s_active s) (s_runs s) (s_eventSequences s)
    (s_eventListeners s) (s_pongListeners s) (s_closeListeners s) (s_ready s) (s_state s) (s_remote s) v
    (s_announcedClose s) (s_requestSequence s) (s_handshakeTimer s) (s_livenessTimer s) (s_awaitingPong s)
    (s_attached s) (s_waiting s) (s_timers s) (s_abortListeners s) (s_calls s) (s_nextCall s) (s_nextRun s).

Definition set_announcedClose v (s : session) : session :=
  Build_session (s_cfg s) (s_handlers s) (s_pending s) (s_active s) (s_runs s) (s_eventSequences s)
    (s_eventListeners s) (s_pongListeners s) (s_closeListeners s) (s_ready s) (s_state s) (s_remote s)
    (s_closure s) v (s_requestSequence s) (s_handshakeTimer s) (s_livenessTimer s) (s_awaitingPong s)
    (s_attached s) (s_waiting s) (s_timers s) (s_abortListeners s) (s_calls s) (s_nextCall s) (s_nextRun s).

Definition set_requestSequence v (s : session) : session :=
  Build_session (s_cfg s) (s_handlers s) (s_pending s) (s_active s) (s_runs s) (s_eventSequences s)
    (s_eventListeners s) (s_pongListeners s) (s_closeListeners s) (s_ready s) (s_state s) (s_remote s)
    (s_closure s) (s_announcedClose s) v (s_handshakeTimer s) (s_livenessTimer s) (s_awaitingPong s)
    (s_attached s) (s_waiting s) (s_timers s) (s_abortListeners s) (s_calls s) (s_nextCall s) (s_nextRun s).

Definition set_handshakeTimer v (s : session) : session :=
  Build_session (s_cfg s) (s_handlers s) (s_pending s) (s_active s) (s_runs s) (s_eventSequences s)
    (s_eventListeners s) (s_pongListeners s) (s_closeListeners s) (s_ready s) (s_state s) (s_remote s)
    (s_closure s) (s_announcedClose s) (s_requestSequence s) v (s_livenessTimer s) (s_awaitingPong s)
    (s_attached s) (s_waiting s) (s_timers s) (s_abortListeners s) (s_calls s) (s_nextCall s) (s_nextRun s).

Definition set_livenessTimer v (s : session) : session :=
  Build_session (s_cfg s) (s_handlers s) (s_pending s) (s_active s) (s_runs s) (s_eventSequences s)
    (s_eventListeners s) (s_pongListeners s) (s_closeListeners s) (s_ready s) (s_state s) (s_remote s)
    (s_closure s) (s_announcedClose s) (s_requestSequence s) (s_handshakeTimer s) v (s_awaitingPong s)
    (s_attached s) (s_waiting s) (s_timers s) (s_abortListeners s) (s_calls s) (s_nextCall s) (s_nextRun s).

Definition set_awaitingPong v (s : session) : session :=
  Build_session (s_cfg s) (s_handlers s) (s_pending s) (s_active s) (s_runs s) (s_eventSequences s)
    (s_eventListeners s) (s_pongListeners s) (s_closeListeners s) (s_ready s) (s_state s) (s_remote s)
    (s_closure s) (s_announcedClose s) (s_requestSequence s) (s_handshakeTimer s) (s_livenessTimer s) v
    (s_attached s) (s_waiting s) (s_timers s) (s_abortListeners s) (s_calls s) (s_nextCall s) (s_nextRun s).

Definition set_attached v (s : session) : session :=
  Build_session (s_cfg s) (s_handlers s) (s_pending s) (s_active s) (s_runs s) (s_eventSequences s)
    (s_eventListeners s) (s_pongListeners s) (s_closeListeners s) (s_ready s) (s_state s) (s_remote s)
    (s_closure s) (s_announcedClose s) (s_requestSequence s) (s_handshakeTimer s) (s_livenessTimer s)
    (s_awaitingPong s) v (s_waiting s) (s_timers s) (s_abortListeners s) (s_calls s) (s_nextCall s)
    (s_nextRun s).

Definition set_waiting v (s : session) : session :=
  Build_session (s_cfg s) (s_handlers s) (s_pending s) (s_active s) (s_runs s) (s_eventSequences s)
    (s_eventListeners s) (s_pongListeners s) (s_closeListeners s) (s_ready s) (s_state s) (s_remote s)
    (s_closure s) (s_announcedClose s) (s_requestSequence s) (s_handshakeTimer s) (s_livenessTimer s)
    (s_awaitingPong s) (s_attached s) v (s_timers s) (s_abortListeners s) (s_calls s) (s_nextCall s)
    (s_nextRun s).

Definition set_timers v (s : session) : session :=
  Build_session (s_cfg s) (s_handlers s) (s_pending s) (s_active s) (s_runs s) (s_eventSequences s)
    (s_eventListeners s) (s_pongListeners s) (s_closeListeners s) (s_ready s) (s_state s) (s_remote s)
    (s_closure s) (s_announcedClose s) (s_requestSequence s) (s_handshakeTimer s) (s_livenessTimer s)
    (s_awaitingPong s) (s_attached s) (s_waiting s) v (s_abortListeners s) (s_calls s) (s_nextCall s)
    (s_nextRun s).

Definition set_abortListeners v (s : session) : session :=
  Build_session (s_cfg s) (s_handlers s) (s_pending s) (s_active s) (s_runs s) (s_eventSequences s)
    (s_eventListeners s) (s_pongListeners s) (s_closeListeners s) (s_ready s) (s_state s) (s_remote s)
    (s_closure s) (s_announcedClose s) (s_requestSequence s) (s_handshakeTimer s) (s_livenessTimer s)
    (s_awaitingPong s) (s_attached s) (s_waiting s) (s_timers s) v (s_calls s) (s_nextCall s) (s_nextRun s).

Definition set_calls v (s : session) : session :=
  Build_session (s_cfg s) (s_handlers s) (s_pending s) (s_active s) (s_runs s) (s_eventSequences s)
    (s_eventListeners s) (s_pongListeners s) (s_closeListeners s) (s_ready s) (s_state s) (s_remote s)
    (s_closure s) (s_announcedClose s) (s_requestSequence s) (s_handshakeTimer s) (s_livenessTimer s)
    (s_awaitingPong s) (s_attached s) (s_waiting s) (s_timers s) (s_abortListeners s) v (s_nextCall s)
    (s_nextRun s).

Definition set_nextCall v (s : session) : session :=
  Build_session (s_cfg s) (s_handlers s) (s_pending s) (s_active s) (s_runs s) (s_eventSequences s)
    (s_eventListeners s) (s_pongListeners s) (s_closeListeners s) (s_ready s) (s_state s) (s_remote s)
    (s_closure s) (s_announcedClose s) (s_requestSequence s) (s_handshakeTimer s) (s_livenessTimer s)
    (s_awaitingPong s) (s_attached s) (s_waiting s) (s_timers s) (s_abortListeners s) (s_calls s) v
    (s_nextRun s).

Definition set_nextRun v (s : session) : session :=
  Build_session (s_cfg s) (s_handlers s) (s_pending s) (s_active s) (s_runs s) (s_eventSequences s)
    (s_eventListeners s) (s_pongListeners s) (s_closeListeners s) (s_ready s) (s_state s) (s_remote s)
    (s_closure s) (s_announcedClose s) (s_requestSequence s) (s_handshakeTimer s) (s_livenessTimer s)
    (s_awaitingPong s) (s_attached s) (s_waiting s) (s_timers s) (s_abortListeners s) (s_calls s) (s_nextCall s)
    v.

(** ** Small operations *)

(** Settling a promise: only the first settlement counts. *)
Definition settle_call (call : nat) (r : settlement) (s : session) : session :=
  match s_calls s !! call with
  | Some _ => s
  | None => set_calls (<[call := r]> (s_calls s)) s
  end.

Definition reject_ready (e : RemoteError) (s : session) : session :=
  match s_ready s with ReadyPending => set_ready (ReadyRejected e) s | _ => s end.

Definition resolve_ready (r : RemotePeer) (s : session) : session :=
  match s_ready s with ReadyPending => set_ready (ReadyResolved r) s | _ => s end.

(** The [cleanup] of a request: its timer and its abort listener go. *)
Definition cleanup (id : jstring) (s : session) : session :=
  set_abortListeners (s_abortListeners s ∖ {[id]}) (set_timers (delete id (s_timers s)) s).

Definition sendLimitBytes (s : session) : Z :=
  let remote := default DEFAULT_MAX_FRAME_BYTES ((s_remote s ≫= rp_limits) ≫= maxFrameBytes) in
  Z.min (c_localMaxFrameBytes (s_cfg s)) remote.

(** The getter [remote], which throws before the handshake completes. *)
Definition remote (s : session) : outcome RemoteError RemotePeer :=
  match s_remote s with
  | Some r => Ok r
  | None => Err (remoteError UNAVAILABLE
      (js "The session handshake has not completed; expected a ready session, received one still handshaking.") None)
  end.

Definition remoteMaxInFlight (s : session) : Z :=
  default DEFAULT_MAX_IN_FLIGHT ((s_remote s ≫= rp_limits) ≫= maxInFlight).

Definition inFlight (s : session) : nat := size (s_active s).

(** [handle] and the remover it returns. *)
Definition handle (method : jstring) (handler : nat) (s : session) : session :=
  set_handlers (<[method := handler]> (s_handlers s)) s.

Definition unhandle (method : jstring) (handler : nat) (s : session) : session :=
  if decide (s_handlers s !! method = Some handler)
  then set_handlers (delete method (s_handlers s)) s else s.

Definition closed_because (c : option SessionClosure) : jstring :=
  match c with
  | Some c =>
      js " (closed with " ++ dec (sc_code c) ++
      match sc_reason c with Some ((_ :: _) as r) => js ": " ++ r | _ => [] end ++ js ")"
  | None => []
  end.

(** [#unavailable], the one place that marks an error as a local close. *)
Definition unavailable (method : jstring) (c : option SessionClosure) (id : option jstring) : RemoteError :=
  {| re_code := UNAVAILABLE;
     re_message := js "Request " ++ [34] ++ method ++ [34] ++ js " cannot complete: the session is closed"
                   ++ closed_because c ++ js ".";
     re_details := Some ([(js "method", JStr method)] ++ present (js "id") id JStr ++
                         present (js "closeCode") c (fun c => JInt (sc_code c)));
     re_session_closed := true |}.

(** ** Teardown *)

Definition handshake_closed_error (c : SessionClosure) : RemoteError :=
  remoteError (if sc_code c =? PROTOCOL_MISMATCH then CODE_PROTOCOL_MISMATCH else UNAVAILABLE)
    (js "The session closed before the handshake completed (" ++ dec (sc_code c) ++
     match sc_reason c with Some ((_ :: _) as r) => js ": " ++ r | _ => [] end ++ js ").")
    (Some [(js "closeCode", JInt (sc_code c))]).

(** The loop over [#pending]: every request loses its timer and listener and is rejected. *)
Definition reject_pending (c : SessionClosure) (s : session) : session :=
  map_fold (fun id p s => settle_call (pr_call p) (Rejected (FRemote (unavailable (pr_method p) (Some c) (Some id)))) (cleanup id s))
    s (s_pending s).

(** [controller.abort()] on a run that is still going. *)
Definition abort_run (run : nat) (s : session) : session :=
  set_runs (alter (fun d => {| dr_id := dr_id d; dr_method := dr_method d; dr_aborted := true |}) run (s_runs s)) s.

Definition abort_active (s : session) : session :=
  map_fold (fun _ run s => abort_run run s) s (s_active s).

Definition teardown (c : SessionClosure) (s : session) : session * list effect :=
  if decide (s_state s = closed) then (s, [])
  else
    let s := set_state closed s in
    let s := set_closure (Some c) s in
    let s := set_attached false s in
    let s := set_livenessTimer false (set_handshakeTimer false s) in
    let s := reject_ready (handshake_closed_error c) s in
    let s := set_pending ∅ (reject_pending c s) in
    let aborts := map (fun '(_, run) => EvAbort run) (map_to_list (s_active s)) in
    let s := set_active ∅ (abort_active s) in
    let s := set_eventSequences ∅ s in
    let s := set_pongListeners [] (set_eventListeners [] s) in
    let notices := map (fun l => EvClosed l c) (s_closeListeners s) in
    (set_closeListeners [] s, aborts ++ notices).

(** [#handlePortClosed] *)
Definition handlePortClosed (closure : PortClosure) (s : session) : session * list effect :=
  match closure with
  | PProtocolError error code =>
      teardown {| sc_code := code; sc_reason := Some (message error);
                  sc_fatal := isFatalCloseCode code; sc_error := Some error |} s
  | PClosed code reason =>
      let announced := s_announcedClose s in
      let code := default (default RELEASED (fst <$> announced)) code in
      let reason := match reason with Some r => Some r | None => announced ≫= snd end in
      teardown (closure_of code reason) s
  end.

(** The closure listener of the constructor, detached by the teardown. *)
Definition port_closed (closure : PortClosure) (s : session) : session * list effect :=
  if s_attached s then handlePortClosed closure s else (s, []).

(** ** Sending *)

(** One call of [Port.send]: the closure it reports, then what it throws. *)
Definition port_send (port : port_fn) (f : frame) (s : session) : session * list effect * option failure :=
  let reply := port f in
  let ok := match reply_throw reply with None => true | Some _ => false end in
  let '(s, evs) :=
    match reply_closure reply with Some c => port_closed c s | None => (s, []) end in
  (s, EvSend f ok :: evs, reply_throw reply).

(** [#trySend] *)
Definition trySend (port : port_fn) (f : frame) (s : session) : session * list effect :=
  if decide (s_state s = closed) then (s, [])
  else let '(s, evs, _) := port_send port f s in (s, evs).

Definition closeNow (code : Z) (reason : option jstring) (s : session) : session * list effect :=
  if decide (s_state s = closed) then (s, [])
  else
    let '(s, evs) := teardown (closure_of code reason) s in
    (s, EvPortClose code reason :: evs).

(** [close] once [#settleHandlers] is done waiting: the closure it resolves with. *)
Definition close_result (code : Z) (reason : option jstring) (s : session) : SessionClosure :=
  default (closure_of code reason) (s_closure s).

(** [#settleHandlers] is done: the dispatches that were running when it began have
    settled, or the grace period has elapsed. *)
Definition settleHandlers (running : list nat) (graceElapsed : bool) (s : session) : bool :=
  graceElapsed || forallb (fun run => bool_decide (s_runs s !! run = None)) running.

Definition failHandshake (e : RemoteError) (code : Z) (reason : jstring) (s : session) : session * list effect :=
  closeNow code (Some reason) (reject_ready e s).

(** [#assertFits]: nothing, or what it throws. *)
Definition assertFits (f : frame) (what : jstring) (s : session) : option failure :=
  match measureFrameBytes f with
  | Err e => Some (FCodec e)
  | Ok bytes =>
      let limit := sendLimitBytes s in
      if bytes <=? limit then None
      else Some (FRemote (remoteError FRAME_TOO_LARGE
        (what ++ js " encodes to " ++ dec bytes ++ js " bytes; the session limit is " ++ dec limit ++ js " bytes.")
        (Some [(js "bytes", JInt bytes); (js "limit", JInt limit)])))
  end.

(** ** The handshake *)

Definition hello_frame (s : session) : frame :=
  let c := s_cfg s in
  let frames := if c_localMaxFrameBytes c <? DEFAULT_MAX_FRAME_BYTES then Some (c_localMaxFrameBytes c) else None in
  let flight := if negb (c_maxInFlight c =? DEFAULT_MAX_IN_FLIGHT) then Some (c_maxInFlight c) else None in
  let limits :=
    match frames, flight with
    | None, None => None
    | _, _ => Some {| maxFrameBytes := frames; maxInFlight := flight |}
    end in
  FHello (c_localProtocol c) (c_peer c) (c_capabilities c) limits.

(** [#startHandshake]: the hello goes out, and the handshake timer is armed unless [send] threw. *)
Definition startHandshake (port : port_fn) (s : session) : session * list effect :=
  match port_send port (hello_frame s) s with
  | (s, evs, Some error) =>
      let '(s, evs') :=
        failHandshake (remoteError UNAVAILABLE (js "The transport refused the hello: " ++ describe error) None)
          RELEASED (js "hello could not be sent") s in
      (s, evs ++ evs')
  | (s, evs, None) => (set_handshakeTimer true s, evs)
  end.

(** The handshake timer fires. *)
Definition handshakeTimeout (s : session) : session * list effect :=
  if negb (s_handshakeTimer s) then (s, [])
  else
    if decide (s_state s = handshaking) then
      let ms := c_handshakeTimeoutMs (s_cfg s) in
      failHandshake
        (remoteError UNAVAILABLE (js "The peer did not send hello within " ++ dec ms ++ js "ms.")
           (Some [(js "timeoutMs", JInt ms)]))
        PROTOCOL_ERROR HANDSHAKE_TIMEOUT_REASON (set_handshakeTimer false s)
    else (set_handshakeTimer false s, []).

(** [#startLiveness] *)
Definition startLiveness (s : session) : session :=
  match c_livenessIntervalMs (s_cfg s) with
  | None => s
  | Some _ => set_livenessTimer true s
  end.

Definition version_details (v : ProtocolVersion) : json := version_json v.

(** [#receiveHello] *)
Definition receiveHello (protocol : ProtocolVersion) (peer : PeerInfo) (capabilities : list (jstring * json))
    (limits : option Limits) (s : session) : session * list effect :=
  if decide (s_state s = handshaking) then
    match negotiate (c_localProtocol (s_cfg s)) protocol with
    | Mismatch code =>
        failHandshake
          (remoteError CODE_PROTOCOL_MISMATCH
             (js "Peer " ++ [34] ++ peer_name peer ++ [34] ++ js " speaks wire major " ++ dec (major protocol)
              ++ js "; this session speaks major " ++ dec (major (c_localProtocol (s_cfg s))) ++ js ".")
             (Some [(js "local", version_details (c_localProtocol (s_cfg s)));
                    (js "remote", version_details protocol); (js "closeCode", JInt code)]))
          code (js "protocol version unsupported") s
    | Negotiated effectiveMinor =>
        let remote := {| rp_peer := peer; rp_protocol := protocol; rp_capabilities := capabilities;
                         rp_limits := limits; rp_effectiveMinor := effectiveMinor |} in
        let s := set_remote (Some remote) s in
        let s := set_handshakeTimer false s in
        let s := set_state ready s in
        let s := startLiveness s in
        (resolve_ready remote s, [])
    end
  else closeNow PROTOCOL_ERROR (Some (js "duplicate hello")) s.

(** The liveness interval ticks. *)
Definition livenessTick (port : port_fn) (s : session) : session * list effect :=
  if negb (s_livenessTimer s) then (s, [])
  else if decide (s_state s = ready) then
    if s_awaitingPong s then closeNow RELEASED (Some (js "liveness timeout")) s
    else trySend port FPing (set_awaitingPong true s)
  else (s, []).

(** ** Answering requests *)

Definition respondError (port : port_fn) (id : jstring) (e : ErrorPayload) (s : session) : session * list effect :=
  trySend port (FErr id e) s.

(** [#respondResult]: the answer, or what measuring it throws. *)
Definition respondResult (port : port_fn) (id method : jstring) (result : jsval) (s : session)
    : outcome failure (session * list effect) :=
  match measureFrameBytes (FRes id result) with
  | Err e => Err (FCodec e)
  | Ok bytes =>
      let limit := sendLimitBytes s in
      if limit <? bytes then
        Ok (respondError port id
              {| err_code := FRAME_TOO_LARGE;
                 err_message := js "The result of " ++ [34] ++ method ++ [34] ++ js " encodes to " ++ dec bytes
                                ++ js " bytes; the session limit is " ++ dec limit ++ js " bytes.";
                 err_details := Some [(js "method", JStr method); (js "bytes", JInt bytes); (js "limit", JInt limit)] |} s)
      else Ok (trySend port (FRes id result) s)
  end.

(** A value a handler threw: an error of the SDK, another [Error] with its name
    and message, or anything else. *)
Inductive handler_throw : Type :=
| TRemote (e : RemoteError)
| TError (name msg : jstring)
| TValue.

Definition isAbortError (t : handler_throw) : bool :=
  match t with TError name _ => bool_decide (name = js "AbortError") | _ => false end.

(** [error instanceof Error && error.message ? error.message : fallback] *)
Definition message_or (t : handler_throw) (fallback : jstring) : jstring :=
  match t with
  | TError _ ((_ :: _) as m) => m
  | TRemote e => match re_message e with [] => fallback | m => m end
  | _ => fallback
  end.

Definition errorPayloadFor (t : handler_throw) (aborted : bool) : ErrorPayload :=
  match t with
  | TRemote e => {| err_code := re_code e; err_message := re_message e; err_details := re_details e |}
  | _ =>
      if isAbortError t || aborted then
        {| err_code := CANCELLED; err_message := message_or t (js "The request was cancelled."); err_details := None |}
      else
        {| err_code := INTERNAL; err_message := message_or t (js "The handler failed."); err_details := None |}
  end.

(** [#dispatch] up to the call of the handler. *)
Definition dispatch (port : port_fn) (id method : jstring) (params : jsval) (s : session) : session * list effect :=
  let refuse code msg details := respondError port id {| err_code := code; err_message := msg; err_details := details |} s in
  if decide (s_state s = ready) then
    if c_maxInFlight (s_cfg s) <=? Z.of_nat (inFlight s) then
      refuse UNAVAILABLE
        (js "This peer is already answering " ++ dec (c_maxInFlight (s_cfg s)) ++ js " requests; retry " ++ [34] ++ method
         ++ [34] ++ js " once one of yours has settled.")
        (Some [(js "kind", JStr IN_FLIGHT_LIMIT_KIND); (js "limit", JInt (c_maxInFlight (s_cfg s)));
               (js "method", JStr method)])
    else if decide (is_Some (s_active s !! id)) then
      refuse INVALID_REQUEST
        (js "Request id " ++ [34] ++ id ++ [34] ++
         js " is already in flight; expected an id unique among the sender's pending requests.")
        (Some [(js "id", JStr id)])
    else
      let effectiveMinor := default 0 (rp_effectiveMinor <$> s_remote s) in
      if isReservedMethodName method && negb (isDefinedReservedMethod method effectiveMinor) then
        refuse INVALID_REQUEST
          (js "Method " ++ [34] ++ method ++ [34] ++
           js " is reserved; the rpc. segment belongs to the protocol and defines no such method at wire minor "
           ++ dec effectiveMinor ++ js ".")
          (Some [(js "method", JStr method); (js "effectiveMinor", JInt effectiveMinor)])
      else
        match s_handlers s !! method with
        | None =>
            refuse METHOD_UNSUPPORTED
              (js "Method " ++ [34] ++ method ++ [34] ++ js " has no handler on this peer.")
              (Some [(js "method", JStr method)])
        | Some handler =>
            let run := s_nextRun s in
            let s := set_nextRun (S run) s in
            let s := set_active (<[id := run]> (s_active s)) s in
            let s := set_runs (<[run := {| dr_id := id; dr_method := method; dr_aborted := false |}]> (s_runs s)) s in
            (s, [EvInvoke run handler id method params])
        end
  else
    refuse UNAVAILABLE
      (js "The session handshake has not completed; requests are refused until both hellos have crossed.") None.

(** What a handler's promise settled with. *)
Inductive handler_outcome : Type := HReturn (v : jsval) | HThrow (t : handler_throw).

(** [#dispatch] after the [await]: the answer, then the [finally]. *)
Definition handlerSettled (port : port_fn) (run : nat) (o : handler_outcome) (s : session) : session * list effect :=
  match s_runs s !! run with
  | None => (s, [])
  | Some d =>
      let fail t := respondError port (dr_id d) (errorPayloadFor t (dr_aborted d)) s in
      let '(s, evs) :=
        match o with
        | HThrow t => fail t
        | HReturn v =>
            let v := match v with VUndefined => VJson JNull | _ => v end in
            match respondResult port (dr_id d) (dr_method d) v s with
            | Ok r => r
            | Err f => fail (TError (js "CodecError") (describe f))
            end
        end in
      let s := set_active (delete (dr_id d) (s_active s)) s in
      (set_runs (delete run (s_runs s)) s, evs)
  end.

(** ** Receiving *)

(** [#settle] *)
Definition settle (id : jstring) (r : settlement) (s : session) : session :=
  match s_pending s !! id with
  | None => s
  | Some p => settle_call (pr_call p) r (cleanup id (set_pending (delete id (s_pending s)) s))
  end.

(** [#receive], called while the frame listener is attached. *)
Definition receive (port : port_fn) (f : frame) (s : session) : session * list effect :=
  if negb (s_attached s) then (s, [])
  else
    match f with
    | FHello protocol peer capabilities limits => receiveHello protocol peer capabilities limits s
    | FReq id method params => dispatch port id method params s
    | FRes id result => (settle id (Resolved result) s, [])
    | FErr id e =>
        (settle id (Rejected (FRemote (remoteError (err_code e) (err_message e) (err_details e)))) s, [])
    | FEvt _ _ _ _ _ =>
        if decide (s_state s = ready) then (s, map (fun l => EvEvent l f) (s_eventListeners s)) else (s, [])
    | FCancel id =>
        match s_active s !! id with
        | None => (s, [])
        | Some run => (abort_run run s, [EvAbort run])
        end
    | FPing => trySend port FPong s
    | FPong => (set_awaitingPong false s, map EvPong (s_pongListeners s))
    | FClose code reason => teardown (closure_of code reason) (set_announcedClose (Some (code, reason)) s)
    end.

(** ** Requests *)

(** [request] up to [await this.ready]: refused at once, or waiting. *)
Definition request (method : jstring) (params : jsval) (signal : bool) (timeoutMs : option Z) (s : session)
    : session * nat :=
  let call := s_nextCall s in
  let s := set_nextCall (S call) s in
  if negb (isValidMethodName method) ||
     (isReservedMethodName method && negb (isDefinedReservedMethod method PROTOCOL_MINOR)) then
    (settle_call call (Rejected (FRemote (remoteError INVALID_REQUEST
       (js "Method " ++ [34] ++ method ++ [34] ++
        js " is not a valid, unreserved method name; expected two or more dot-separated lowercase segments outside rpc.")
       None))) s, call)
  else
    (set_waiting (<[call := {| wr_method := method; wr_params := params; wr_signal := signal;
                               wr_timeoutMs := timeoutMs |}]> (s_waiting s)) s, call).

(** [#asSendFailure] *)
Definition asSendFailure (f : failure) (method : jstring) : RemoteError :=
  match f with
  | FRemote e => e
  | _ => remoteError UNAVAILABLE
           (js "Request " ++ [34] ++ method ++ [34] ++ js " could not be sent: " ++ describe f)
           (Some [(js "method", JStr method)])
  end.

Definition request_id (s : session) : jstring :=
  c_requestIdPrefix (s_cfg s) ++ js "-" ++ dec (s_requestSequence s + 1).

(** The executor of the promise: the request is registered, then sent. *)
Definition start_request (port : port_fn) (call : nat) (w : waiting_request) (aborted : bool) (id : jstring)
    (s : session) : session * list effect :=
  let f := FReq id (wr_method w) (wr_params w) in
  let s := set_pending (<[id := {| pr_method := wr_method w; pr_call := call |}]> (s_pending s)) s in
  let s := if wr_signal w then set_abortListeners (s_abortListeners s ∪ {[id]}) s else s in
  let s := match wr_timeoutMs w with Some ms => set_timers (<[id := ms]> (s_timers s)) s | None => s end in
  match port_send port f s with
  | (s, evs, Some error) =>
      let s := cleanup id (set_pending (delete id (s_pending s)) s) in
      (settle_call call (Rejected (FRemote (asSendFailure error (wr_method w)))) s, evs)
  | (s, evs, None) =>
      if wr_signal w && aborted then
        let '(s, evs') := trySend port (FCancel id) s in (s, evs ++ evs')
      else (s, evs)
  end.

(** [request] after [await this.ready]; [aborted] is the state of the caller's signal. *)
Definition resumeRequest (port : port_fn) (call : nat) (aborted : bool) (s : session) : session * list effect :=
  match s_waiting s !! call with
  | None => (s, [])
  | Some w =>
      let reject f s := (settle_call call (Rejected f) s, @nil effect) in
      match s_ready s with
      | ReadyPending => (s, [])
      | ReadyRejected e => reject (FRemote e) (set_waiting (delete call (s_waiting s)) s)
      | ReadyResolved remote =>
          let s := set_waiting (delete call (s_waiting s)) s in
          let method := wr_method w in
          if isReservedMethodName method && negb (isDefinedReservedMethod method (rp_effectiveMinor remote)) then
            reject (FRemote (remoteError INVALID_REQUEST
              (js "Method " ++ [34] ++ method ++ [34] ++ js " is defined from wire minor " ++ dec RPC_DISCOVER_MINOR
               ++ js "; this session negotiated minor " ++ dec (rp_effectiveMinor remote) ++ js ".")
              (Some [(js "method", JStr method); (js "effectiveMinor", JInt (rp_effectiveMinor remote))]))) s
          else if decide (s_state s = closed) then
            reject (FRemote (unavailable method (s_closure s) None)) s
          else
            let id := request_id s in
            let s := set_requestSequence (s_requestSequence s + 1) s in
            match assertFits (FReq id method (wr_params w)) (js "Request " ++ [34] ++ method ++ [34]) s with
            | Some f => reject f s
            | None => start_request port call w aborted id s
            end
      end
  end.

(** The caller's signal aborts: the listener is a [once] listener. *)
Definition signalAborted (port : port_fn) (id : jstring) (s : session) : session * list effect :=
  if decide (id ∈ s_abortListeners s)
  then trySend port (FCancel id) (set_abortListeners (s_abortListeners s ∖ {[id]}) s)
  else (s, []).

(** The request's own timer fires. *)
Definition requestTimeout (port : port_fn) (id : jstring) (s : session) : session * list effect :=
  match s_timers s !! id with
  | None => (s, [])
  | Some timeoutMs =>
      match s_pending s !! id with
      | None => (set_timers (delete id (s_timers s)) s, [])
      | Some p =>
          let s := cleanup id (set_pending (delete id (s_pending s)) s) in
          let '(s, evs) := trySend port (FCancel id) s in
          (settle_call (pr_call p) (Rejected (FRemote (remoteError TIMEOUT
             (js "Request " ++ [34] ++ pr_method p ++ [34] ++ js " timed out after " ++ dec timeoutMs ++ js "ms.")
             (Some [(js "method", JStr (pr_method p)); (js "timeoutMs", JInt timeoutMs)])))) s, evs)
      end
  end.

(** ** Events *)

Record EventInput : Type := {
  ei_topic : jstring;
  ei_payload : jsval;
  ei_streamId : option jstring;
  ei_end : bool
}.

Definition stream_key (e : EventInput) : jstring := default (ei_topic e) (ei_streamId e).

(** [emit]: whether it published, or what it threw. *)
Definition emit (port : port_fn) (e : EventInput) (s : session) : session * list effect * outcome failure bool :=
  if decide (s_state s = ready) then
    let key := stream_key e in
    if bool_decide (s_eventSequences s !! key = None) &&
       (c_maxStreamKeys (s_cfg s) <=? Z.of_nat (size (s_eventSequences s))) then
      (s, [], Err (FRemote (remoteError UNAVAILABLE
        (js "Stream key " ++ [34] ++ key ++ [34] ++ js " would be the " ++ dec (c_maxStreamKeys (s_cfg s) + 1)
         ++ js "th open on this session; the ceiling is " ++ dec (c_maxStreamKeys (s_cfg s))
         ++ js ". End a stream before starting another.")
        (Some [(js "kind", JStr (js "stream_key_limit")); (js "key", JStr key);
               (js "limit", JInt (c_maxStreamKeys (s_cfg s)))]))))
    else
      let seq := default 0 (s_eventSequences s !! key) in
      let f := FEvt (ei_topic e) seq (ei_streamId e) (ei_payload e) (ei_end e) in
      match assertFits f (js "Event " ++ [34] ++ ei_topic e ++ [34]) s with
      | Some error => (s, [], Err error)
      | None =>
          match port_send port f s with
          | (s, evs, Some error) => (s, evs, Err error)
          | (s, evs, None) =>
              let s :=
                if ei_end e then set_eventSequences (delete key (s_eventSequences s)) s
                else set_eventSequences (<[key := seq + 1]> (s_eventSequences s)) s in
              (s, evs, Ok true)
          end
      end
  else (s, [], Ok false).

(** [ping]: straight to the port, whatever the state. *)
Definition ping (port : port_fn) (s : session) : session * list effect := let '(s, evs, _) := port_send port FPing s in (s, evs).

(** ** Listeners *)

Definition onEvent (l : nat) (s : session) : session := set_eventListeners (add l (s_eventListeners s)) s.
Definition offEvent (l : nat) (s : session) : session := set_eventListeners (remove l (s_eventListeners s)) s.
Definition onPong (l : nat) (s : session) : session := set_pongListeners (add l (s_pongListeners s)) s.
Definition offPong (l : nat) (s : session) : session := set_pongListeners (remove l (s_pongListeners s)) s.

(** A listener added after the end hears of it at once (on a microtask). *)
Definition onClose (l : nat) (s : session) : session * list effect :=
  match s_closure s with
  | Some c => (s, [EvClosed l c])
  | None => (set_closeListeners (add l (s_closeListeners s)) s, [])
  end.

Definition offClose (l : nat) (s : session) : session := set_closeListeners (remove l (s_closeListeners s)) s.

(** ** Construction *)

Definition initial_session (c : session_config) (handlers : list (jstring * nat)) : session :=
  {| s_cfg := c;
     s_handlers := fold_left (fun m '(k, h) => <[k := h]> m) handlers ∅;
     s_pending := ∅; s_active := ∅; s_runs := ∅; s_eventSequences := ∅;
     s_eventListeners := []; s_pongListeners := []; s_closeListeners := [];
     s_ready := ReadyPending; s_state := handshaking; s_remote := None; s_closure := None;
     s_announcedClose := None; s_requestSequence := 0; s_handshakeTimer := false;
     s_livenessTimer := false; s_awaitingPong := false; s_attached := true;
     s_waiting := ∅; s_timers := ∅; s_abortListeners := ∅; s_calls := ∅; s_nextCall := 0; s_nextRun := 0 |}.

Definition resolveConfig (o : SessionOptions) (portCeiling : option jsarg) : outcome jstring session_config :=
  frameBytes ← localFrameCeiling (so_maxFrameBytes o) portCeiling;
  flight ← resolveIntegerAtLeast (js "maxInFlight") (so_maxInFlight o)
             DEFAULT_MAX_IN_FLIGHT MIN_ANNOUNCED_IN_FLIGHT (Some MAX_ANNOUNCED_IN_FLIGHT);
  keys ← resolveIntegerAtLeast (js "maxStreamKeys") (so_maxStreamKeys o)
           DEFAULT_MAX_STREAM_KEYS MIN_OPEN_STREAM_KEYS None;
  Ok {| c_peer := so_peer o;
        c_capabilities := default [] (so_capabilities o);
        c_localProtocol := default PROTOCOL_VERSION (so_protocol o);
        c_localMaxFrameBytes := frameBytes;
        c_maxInFlight := flight;
        c_maxStreamKeys := keys;
        c_handshakeTimeoutMs := default DEFAULT_HANDSHAKE_TIMEOUT_MS (so_handshakeTimeoutMs o);
        c_livenessIntervalMs :=
          match so_livenessIntervalMs o with
          | LiveDefault => Some DEFAULT_LIVENESS_INTERVAL_MS
          | LiveEvery ms => Some ms
          | LiveOff => None
          end;
        c_requestIdPrefix := default (js "r") (so_requestIdPrefix o) |}.

(** The constructor: options resolved, listeners attached, the hello sent. *)
Definition newSession (port : port_fn) (o : SessionOptions) (portCeiling : option jsarg)
    : outcome jstring (session * list effect) :=
  c ← resolveConfig o portCeiling;
  Ok (startHandshake port (initial_session c (so_handlers o))).

(** ** The session as a transition system

    One input per way the program or the world enters the session. *)

Inductive input : Type :=
| InFrame (f : frame)
| InPortClosed (c : PortClosure)
| InRequest (method : jstring) (params : jsval) (signal : bool) (timeoutMs : option Z)
| InResume (call : nat) (aborted : bool)
| InSignal (id : jstring)
| InTimeout (id : jstring)
| InHandlerSettled (run : nat) (o : handler_outcome)
| InEmit (e : EventInput)
| InPing
| InHandshakeTimeout
| InLivenessTick
| InCloseNow (code : Z) (reason : option jstring)
| InHandle (method : jstring) (handler : nat)
| InUnhandle (method : jstring) (handler : nat)
| InOnEvent (l : nat)
| InOffEvent (l : nat)
| InOnPong (l : nat)
| InOffPong (l : nat)
| InOnClose (l : nat)
| InOffClose (l : nat).

Definition step (port : port_fn) (i : input) (s : session) : session * list effect :=
  match i with
  | InFrame f => receive port f s
  | InPortClosed c => port_closed c s
  | InRequest m p g t => ((request m p g t s).1, [])
  | InResume call aborted => resumeRequest port call aborted s
  | InSignal id => signalAborted port id s
  | InTimeout id => requestTimeout port id s
  | InHandlerSettled run o => handlerSettled port run o s
  | InEmit e => (emit port e s).1
  | InPing => ping port s
  | InHandshakeTimeout => handshakeTimeout s
  | InLivenessTick => livenessTick port s
  | InCloseNow code reason => closeNow code reason s
  | InHandle m h => (handle m h s, [])
  | InUnhandle m h => (unhandle m h s, [])
  | InOnEvent l => (onEvent l s, [])
  | InOffEvent l => (offEvent l s, [])
  | InOnPong l => (onPong l s, [])
  | InOffPong l => (offPong l s, [])
  | InOnClose l => onClose l s
  | InOffClose l => (offClose l s, [])
  end.

(** The sessions a program can have, with every input they took and every effect
    they had, the constructor's included. The port may answer differently each time. *)
Inductive reachable : session -> list input -> list effect -> Prop :=
| reach_new port o ceiling s evs :
    newSession port o ceiling = Ok (s, evs) -> reachable s [] evs
| reach_step port i s ins evs s' evs' :
    reachable s ins evs -> step port i s = (s', evs') -> reachable s' (ins ++ [i]) (evs ++ evs').
