(* ===== verification/SessionFacts.v ===== *)
(** * The session's invariant

    What holds of every session a program can reach ([Session.reachable]):
    the phases of the handshake, the bookkeeping of pending requests and running
    handlers, and where each promise [request] returned stands. Every operation
    of [session.ts] is shown to preserve it. *)

From S2P Require Import Prelude Utf8 Regex Json JsonFacts Wire Frames Ndjson Listeners Session.

(** ** The invariant *)

(** The ids of requests a session has sent: its prefix and a number it has counted to. *)
Definition own_id (s : session) (id : jstring) : Prop :=
  exists k, 1 <= k <= s_requestSequence s /\ id = c_requestIdPrefix (s_cfg s) ++ js "-" ++ dec k.

(** What the options were resolved to. *)
Record cfg_ok (c : session_config) : Prop := {
  cfg_frames : 4096 <= c_localMaxFrameBytes c <= MAX_ANNOUNCED_FRAME_BYTES;
  cfg_flight : 1 <= c_maxInFlight c <= MAX_ANNOUNCED_IN_FLIGHT;
  cfg_keys : 1 <= c_maxStreamKeys c
}.

(** Where a promise [request] returned stands: it is awaiting [ready], its request
    is in flight, it has settled, or ([limbo]) the code that holds it is running. *)
Record calls_ok (limbo : option nat) (s : session) : Prop := {
  calls_pending : forall id p, s_pending s !! id = Some p ->
    s_calls s !! pr_call p = None /\ s_waiting s !! pr_call p = None /\
    (pr_call p < s_nextCall s)%nat /\ limbo <> Some (pr_call p) /\ own_id s id;
  calls_pending_inj : forall id id' p p',
    s_pending s !! id = Some p -> s_pending s !! id' = Some p' -> pr_call p = pr_call p' -> id = id';
  calls_waiting : forall c w, s_waiting s !! c = Some w ->
    s_calls s !! c = None /\ (c < s_nextCall s)%nat /\ limbo <> Some c;
  calls_settled : forall c r, s_calls s !! c = Some r -> (c < s_nextCall s)%nat /\ limbo <> Some c;
  calls_limbo : forall c, limbo = Some c -> (c < s_nextCall s)%nat;
  calls_total : forall c, (c < s_nextCall s)%nat ->
    limbo = Some c \/ is_Some (s_calls s !! c) \/ is_Some (s_waiting s !! c) \/
    exists id p, s_pending s !! id = Some p /\ pr_call p = c;
  calls_timers : forall id, is_Some (s_timers s !! id) -> is_Some (s_pending s !! id);
  calls_aborts : forall id, id ∈ s_abortListeners s -> is_Some (s_pending s !! id)
}.

(** The handlers running, and the ids they hold while the session is open. *)
Record runs_ok (s : session) : Prop := {
  runs_active : forall id run, s_active s !! id = Some run ->
    exists d, s_runs s !! run = Some d /\ dr_id d = id;
  runs_held : s_state s <> closed -> forall run d, s_runs s !! run = Some d -> s_active s !! dr_id d = Some run;
  runs_fresh : forall run d, s_runs s !! run = Some d -> (run < s_nextRun s)%nat;
  runs_bound : Z.of_nat (size (s_active s)) <= c_maxInFlight (s_cfg s)
}.

Record core (limbo : option nat) (s : session) : Prop := {
  core_cfg : cfg_ok (s_cfg s);
  core_calls : calls_ok limbo s;
  core_runs : runs_ok s;
  core_keys : Z.of_nat (size (s_eventSequences s)) <= c_maxStreamKeys (s_cfg s);
  core_ready : forall r, s_ready s = ReadyResolved r -> s_remote s = Some r;
  core_sequence : 0 <= s_requestSequence s;
  core_listeners : NoDup (s_eventListeners s) /\ NoDup (s_pongListeners s) /\ NoDup (s_closeListeners s)
}.

(** What each state of [SessionState] means for the fields. *)
Definition phase (s : session) : Prop :=
  match s_state s with
  | handshaking =>
      s_ready s = ReadyPending /\ s_remote s = None /\ s_closure s = None /\ s_attached s = true /\
      s_pending s = ∅ /\ s_active s = ∅ /\ s_eventSequences s = ∅ /\ s_livenessTimer s = false /\
      s_requestSequence s = 0
  | ready =>
      (exists r, s_remote s = Some r /\ s_ready s = ReadyResolved r) /\ s_closure s = None /\ s_attached s = true /\
      s_handshakeTimer s = false
  | closed =>
      s_ready s <> ReadyPending /\ is_Some (s_closure s) /\ s_attached s = false /\ s_pending s = ∅ /\
      s_active s = ∅ /\ s_livenessTimer s = false /\ s_closeListeners s = [] /\
      (forall run d, s_runs s !! run = Some d -> dr_aborted d = true)
  end.

Record inv_at (limbo : option nat) (s : session) : Prop := { inv_core : core limbo s; inv_phase : phase s }.

Abbreviation inv := (inv_at None).

(** The parts depend on their own fields only. *)
Lemma runs_ok_ext s s' :
  runs_ok s -> s_active s' = s_active s -> s_runs s' = s_runs s -> s_nextRun s' = s_nextRun s ->
  s_cfg s' = s_cfg s -> (s_state s' <> closed -> s_state s <> closed) -> runs_ok s'.
Proof. intros [] E1 E2 E3 E4 E5. split; rewrite ?E1, ?E2, ?E3, ?E4; auto. Qed.

Lemma calls_ok_ext limbo s s' :
  calls_ok limbo s -> s_pending s' = s_pending s -> s_calls s' = s_calls s -> s_waiting s' = s_waiting s ->
  s_nextCall s' = s_nextCall s -> s_timers s' = s_timers s -> s_abortListeners s' = s_abortListeners s ->
  s_cfg s' = s_cfg s -> s_requestSequence s' = s_requestSequence s -> calls_ok limbo s'.
Proof.
  intros [] E1 E2 E3 E4 E5 E6 E7 E8.
  split; unfold own_id in *; rewrite ?E1, ?E2, ?E3, ?E4, ?E5, ?E6, ?E7, ?E8; auto.
Qed.

(** Closes the parts of the invariant an update leaves alone. *)
Ltac unchanged :=
  try solve [done | eapply runs_ok_ext; [eassumption|done..] | eapply calls_ok_ext; [eassumption|done..]].

(** ** Teardown *)

Lemma settle_call_other call r s :
  settle_call call r s = set_calls (s_calls (settle_call call r s)) s.
Proof. unfold settle_call. destruct (s_calls s !! call); [by destruct s|done]. Qed.

Lemma settle_call_lookup call r s k :
  s_calls (settle_call call r s) !! k =
  match s_calls s !! k with Some x => Some x | None => if decide (k = call) then Some r else None end.
Proof.
  unfold settle_call. destruct (s_calls s !! call) eqn:E; cbn.
  - destruct (s_calls s !! k) eqn:E'; [done|]. by rewrite decide_False by congruence.
  - destruct (decide (k = call)) as [->|]; [by rewrite lookup_insert_eq, E|].
    rewrite lookup_insert_ne by congruence. by destruct (s_calls s !! k).
Qed.

(** The loop over the pending requests touches nothing but timers, abort
    listeners and promises; it settles the promises of the pending requests only. *)
Lemma reject_pending_spec c s :
  exists T A C,
    reject_pending c s = set_calls C (set_abortListeners A (set_timers T s)) /\
    (forall id, T !! id = match s_pending s !! id with Some _ => None | None => s_timers s !! id end) /\
    (forall id, id ∈ A <-> id ∈ s_abortListeners s /\ s_pending s !! id = None) /\
    (forall k r, s_calls s !! k = Some r -> C !! k = Some r) /\
    (forall id p, s_pending s !! id = Some p -> is_Some (C !! pr_call p)) /\
    (forall k r, C !! k = Some r -> s_calls s !! k = Some r \/
       exists id p, s_pending s !! id = Some p /\ pr_call p = k /\
         r = Rejected (FRemote (unavailable (pr_method p) (Some c) (Some id)))).
Proof.
  unfold reject_pending. generalize (s_pending s) as m. intros m.
  apply (map_fold_weak_ind (fun r m =>
    exists T A C, r = set_calls C (set_abortListeners A (set_timers T s)) /\
    (forall id, T !! id = match m !! id with Some _ => None | None => s_timers s !! id end) /\
    (forall id, id ∈ A <-> id ∈ s_abortListeners s /\ m !! id = None) /\
    (forall k r, s_calls s !! k = Some r -> C !! k = Some r) /\
    (forall id p, m !! id = Some p -> is_Some (C !! pr_call p)) /\
    (forall k r, C !! k = Some r -> s_calls s !! k = Some r \/
       exists id p, m !! id = Some p /\ pr_call p = k /\
         r = Rejected (FRemote (unavailable (pr_method p) (Some c) (Some id)))))).
  - exists (s_timers s), (s_abortListeners s), (s_calls s). split; [by destruct s|].
    split; [done|]. split; [intros id; by rewrite lookup_empty; intuition|]. naive_solver.
  - clear m. intros id p m r Hid (T & A & C & -> & HT & HA & HC1 & HC2 & HC3).
    set (s' := cleanup id _).
    exists (s_timers s'), (s_abortListeners s'),
      (s_calls (settle_call (pr_call p) (Rejected (FRemote (unavailable (pr_method p) (Some c) (Some id)))) s')).
    split; [by rewrite settle_call_other|]. subst s'. cbn. repeat split.
    + intros k. destruct (decide (k = id)) as [->|].
      * by rewrite lookup_delete_eq, lookup_insert_eq.
      * by rewrite lookup_delete_ne, HT, lookup_insert_ne by congruence.
    + apply elem_of_difference in H as [H _]. by apply HA in H as [? _].
    + apply elem_of_difference in H as [H Hne]. rewrite lookup_insert_ne by set_solver. by apply HA in H as [_ ?].
    + intros [Hin Hm]. destruct (decide (id0 = id)) as [->|]; [by rewrite lookup_insert_eq in Hm|].
      rewrite lookup_insert_ne in Hm by congruence. apply elem_of_difference. split; [by apply HA|set_solver].
    + intros k r H. rewrite settle_call_lookup. cbn. by rewrite (HC1 _ _ H).
    + intros k q H. rewrite settle_call_lookup. cbn. destruct (C !! pr_call q) eqn:E; [eauto|].
      destruct (decide (k = id)) as [->|].
      * rewrite lookup_insert_eq in H. simplify_eq. rewrite decide_True by done. eauto.
      * rewrite lookup_insert_ne in H by congruence. destruct (HC2 _ _ H). congruence.
    + intros k r. rewrite settle_call_lookup. cbn. destruct (C !! k) eqn:E.
      * intros [= ->]. destruct (HC3 _ _ E) as [?|(i & q & ? & ? & ?)]; [by left|right].
        exists i, q. rewrite lookup_insert_ne by congruence. done.
      * destruct (decide (k = pr_call p)) as [->|]; [|done]. intros [= <-]. right.
        exists id, p. by rewrite lookup_insert_eq.
Qed.

(** Aborting marks runs and changes nothing else of them. *)
Definition same_run (d d' : dispatch_run) : Prop := dr_id d' = dr_id d /\ dr_method d' = dr_method d.

Lemma abort_active_spec s :
  exists R, abort_active s = set_runs R s /\
    (forall run, match s_runs s !! run, R !! run with
                 | Some d, Some d' => same_run d d' /\ (dr_aborted d = true -> dr_aborted d' = true)
                 | None, None => True
                 | _, _ => False
                 end) /\
    (forall id run d, s_active s !! id = Some run -> R !! run = Some d -> dr_aborted d = true).
Proof.
  unfold abort_active. generalize (s_active s) as m. intros m.
  apply (map_fold_weak_ind (fun r m =>
    exists R, r = set_runs R s /\
    (forall run, match s_runs s !! run, R !! run with
                 | Some d, Some d' => same_run d d' /\ (dr_aborted d = true -> dr_aborted d' = true)
                 | None, None => True
                 | _, _ => False
                 end) /\
    (forall id run d, m !! id = Some run -> R !! run = Some d -> dr_aborted d = true))).
  - exists (s_runs s). split; [by destruct s|]. split; [|intros; by rewrite lookup_empty in *].
    intros run. destruct (s_runs s !! run); by unfold same_run.
  - clear m. intros id run m r Hid (R & -> & HR & Ha).
    eexists; split; [done|]. cbn [s_runs set_runs]. split.
    + intros k. specialize (HR k). destruct (decide (k = run)) as [->|].
      * rewrite lookup_alter_eq. destruct (s_runs s !! run), (R !! run); cbn; naive_solver.
      * by rewrite lookup_alter_ne by congruence.
    + intros i k d Hi. destruct (decide (k = run)) as [->|Hne].
      * rewrite lookup_alter_eq. destruct (R !! run); cbn; naive_solver.
      * rewrite lookup_alter_ne by congruence. destruct (decide (i = id)) as [->|].
        { rewrite lookup_insert_eq in Hi. congruence. }
        rewrite lookup_insert_ne in Hi by congruence. eauto.
Qed.

(** The session after a teardown, field by field. *)
Lemma teardown_shape c s :
  s_state s <> closed ->
  exists T A C R,
    (teardown c s).1 =
      {| s_cfg := s_cfg s; s_handlers := s_handlers s; s_pending := ∅; s_active := ∅; s_runs := R;
         s_eventSequences := ∅; s_eventListeners := []; s_pongListeners := []; s_closeListeners := [];
         s_ready := match s_ready s with ReadyPending => ReadyRejected (handshake_closed_error c) | r => r end;
         s_state := closed; s_remote := s_remote s; s_closure := Some c;
         s_announcedClose := s_announcedClose s; s_requestSequence := s_requestSequence s;
         s_handshakeTimer := false; s_livenessTimer := false; s_awaitingPong := s_awaitingPong s;
         s_attached := false; s_waiting := s_waiting s; s_timers := T; s_abortListeners := A; s_calls := C;
         s_nextCall := s_nextCall s; s_nextRun := s_nextRun s |} /\
    (forall id, T !! id = match s_pending s !! id with Some _ => None | None => s_timers s !! id end) /\
    (forall id, id ∈ A <-> id ∈ s_abortListeners s /\ s_pending s !! id = None) /\
    (forall k r, s_calls s !! k = Some r -> C !! k = Some r) /\
    (forall id p, s_pending s !! id = Some p -> is_Some (C !! pr_call p)) /\
    (forall k r, C !! k = Some r -> s_calls s !! k = Some r \/
       exists id p, s_pending s !! id = Some p /\ pr_call p = k /\
         r = Rejected (FRemote (unavailable (pr_method p) (Some c) (Some id)))) /\
    (forall run, match s_runs s !! run, R !! run with
                 | Some d, Some d' => same_run d d' /\ (dr_aborted d = true -> dr_aborted d' = true)
                 | None, None => True
                 | _, _ => False
                 end) /\
    (forall id run d, s_active s !! id = Some run -> R !! run = Some d -> dr_aborted d = true).
Proof.
  intros Hopen. unfold teardown. rewrite decide_False by done. cbn zeta.
  set (s1 := set_livenessTimer _ _).
  assert (exists v, reject_ready (handshake_closed_error c) s1 = set_ready v s1 /\
          v = match s_ready s with ReadyPending => ReadyRejected (handshake_closed_error c) | r => r end) as (v & Hr & Hv).
  { unfold reject_ready; subst s1; cbn. destruct (s_ready s) eqn:E; rewrite <- ?E; eexists; split; try reflexivity. }
  rewrite Hr. destruct (reject_pending_spec c (set_ready v s1)) as (T & A & C & Hp & HT & HA & HC1 & HC2 & HC3).
  rewrite Hp. set (s2 := set_pending ∅ _).
  destruct (abort_active_spec s2) as (R & Hab & HR1 & HR2). rewrite Hab.
  subst s2 s1 v. cbn in *. exists T, A, C, R. repeat split; try done; apply HA; done.
Qed.

(** A teardown keeps the invariant, and a closed session is left as it is. *)
Lemma teardown_closed c s : s_state s = closed -> teardown c s = (s, []).
Proof. intros H. unfold teardown. by rewrite decide_True by done. Qed.

Lemma teardown_inv limbo c s :
  core limbo s -> (s_state s = closed -> phase s) -> inv_at limbo (teardown c s).1.
Proof.
  intros Hcore Hclosed. destruct (decide (s_state s = closed)) as [E|E].
  { rewrite teardown_closed by done. split; auto. }
  destruct (teardown_shape c s E) as (T & A & C & R & -> & HT & HA & HC1 & HC2 & HC3 & HR1 & HR2).
  destruct Hcore as [Hcfg Hcalls Hruns Hk Hready Hs Hl].
  split; [split|]; cbn; auto.
  - destruct Hcalls. split; cbn.
    + intros id p H. by rewrite lookup_empty in H.
    + intros id id' p p' H. by rewrite lookup_empty in H.
    + intros k w H. destruct (calls_waiting0 _ _ H) as (H1 & H2 & H3). repeat split; [|done..].
      destruct (C !! k) eqn:EC; [|done]. destruct (HC3 _ _ EC) as [?|(id & p & Hp & <- & _)]; [congruence|].
      destruct (calls_pending0 _ _ Hp) as (_ & ? & _). congruence.
    + intros k r H. destruct (HC3 _ _ H) as [?|(id & p & Hp & <- & _)]; [eauto|].
      destruct (calls_pending0 _ _ Hp) as (_ & _ & ? & ? & _). done.
    + done.
    + intros k H. destruct (calls_total0 _ H) as [?|[[r Hr]|[?|(id & p & Hp & <-)]]]; eauto 6.
    + intros id. rewrite HT, lookup_empty. intros [t Ht]. destruct (s_pending s !! id) eqn:Ep; [done|].
      destruct (calls_timers0 id); [by eexists|congruence].
    + intros id [Hin Hp]%HA. destruct (calls_aborts0 id Hin). congruence.
  - destruct Hruns. split; cbn; try done.
    + intros run d H. specialize (HR1 run). rewrite H in HR1. destruct (s_runs s !! run) eqn:Er; [eauto|done].
    + destruct Hcfg. rewrite map_size_empty. lia.
  - destruct Hcfg. rewrite map_size_empty. lia.
  - intros r. destruct (s_ready s) eqn:Er; [done| |done]. intros [= ->]. eauto.
  - repeat split; constructor.
  - unfold phase; cbn. repeat split; eauto; [by destruct (s_ready s)|].
    intros run d H. specialize (HR1 run). rewrite H in HR1. destruct (s_runs s !! run) as [d0|] eqn:Er; [|done].
    eapply HR2; [|exact H]. eapply (runs_held _ Hruns E); exact Er.
Qed.

(** ** Sending and closing

    Whatever the port answers, a send leaves the session alone or tears it down. *)

Definition settles (s s' : session) : Prop := s' = s \/ exists c, s' = (teardown c s).1.

Lemma settles_refl s : settles s s.
Proof. by left. Qed.

Lemma settles_teardown c s : settles s (teardown c s).1.
Proof. right. eauto. Qed.

Global Hint Resolve settles_refl settles_teardown : mango.

Lemma port_closed_settles c s : settles s (port_closed c s).1.
Proof. unfold port_closed, handlePortClosed. destruct (s_attached s), c; auto with mango. Qed.

Lemma port_send_settles port f s : settles s (port_send port f s).1.1.
Proof.
  unfold port_send. destruct (reply_closure (port f)) as [c|]; cbn; [|auto with mango].
  pose proof (port_closed_settles c s). by destruct (port_closed c s).
Qed.

Lemma trySend_settles port f s : settles s (trySend port f s).1.
Proof.
  unfold trySend. destruct (decide _); cbn; [auto with mango|].
  pose proof (port_send_settles port f s). by destruct (port_send port f s) as [[]].
Qed.

Lemma closeNow_settles code reason s : settles s (closeNow code reason s).1.
Proof.
  unfold closeNow. destruct (decide _); cbn; [auto with mango|].
  pose proof (settles_teardown (closure_of code reason) s). by destruct (teardown _ s).
Qed.

Global Hint Resolve port_closed_settles port_send_settles trySend_settles closeNow_settles : mango.

Lemma settles_inv limbo s s' : inv_at limbo s -> settles s s' -> inv_at limbo s'.
Proof. intros [Hc Hp] [->|[c ->]]; [by split|]. by apply teardown_inv. Qed.

(** The fields no teardown touches, and the state it can only close. *)
Lemma settles_fields s s' :
  settles s s' ->
  s_cfg s' = s_cfg s /\ s_remote s' = s_remote s /\ s_waiting s' = s_waiting s /\
  s_nextCall s' = s_nextCall s /\ s_nextRun s' = s_nextRun s /\
  s_requestSequence s' = s_requestSequence s /\ s_handlers s' = s_handlers s /\
  (s' = s \/ s_state s' = closed).
Proof.
  intros [->|[c ->]]; [naive_solver|].
  destruct (decide (s_state s = closed)) as [E|E]; [rewrite teardown_closed by done; naive_solver|].
  destruct (teardown_shape c s E) as (T & A & C & R & -> & _); cbn; naive_solver.
Qed.

(** A closed session has nothing pending and nothing active. *)
Lemma inv_closed_empty limbo s :
  inv_at limbo s -> s_state s = closed -> s_pending s = ∅ /\ s_active s = ∅ /\ is_Some (s_closure s).
Proof. intros [_ Hp] E. unfold phase in Hp. rewrite E in Hp. naive_solver. Qed.

(** ** Promises *)

Lemma settle_call_inv c r s : inv_at (Some c) s -> inv (settle_call c r s).
Proof.
  intros [[Hcfg Hcalls Hruns Hk Hready Hs Hl] Hp].
  assert (s_calls s !! c = None) as Hnone.
  { destruct (s_calls s !! c) eqn:E; [|done]. by destruct (calls_settled _ _ Hcalls _ _ E). }
  unfold settle_call. rewrite Hnone. split; [split|]; cbn; unchanged.
  destruct Hcalls. split; cbn; try done.
  - intros id p H. destruct (calls_pending0 _ _ H) as (H1 & H2 & H3 & H4 & H5). repeat split; [|done..].
    rewrite lookup_insert_ne by congruence. done.
  - intros k w H. destruct (calls_waiting0 _ _ H) as (H1 & H2 & H3). repeat split; [|done..].
    rewrite lookup_insert_ne by congruence. done.
  - intros k x H. split; [|done]. destruct (decide (k = c)) as [->|]; [eauto|].
    rewrite lookup_insert_ne in H by congruence. by destruct (calls_settled0 _ _ H).
  - intros k H. right. destruct (decide (k = c)) as [->|]; [left; rewrite lookup_insert_eq; eauto|].
    rewrite lookup_insert_ne by congruence. destruct (calls_total0 _ H) as [?|?]; [congruence|done].
Qed.

(** A promise that is settled, waiting or pending is not settled again. *)
Lemma settle_call_noop c r s : is_Some (s_calls s !! c) -> settle_call c r s = s.
Proof. unfold settle_call. by intros [x ->]. Qed.

Lemma take_pending_inv s id p :
  inv s -> s_pending s !! id = Some p ->
  inv_at (Some (pr_call p)) (cleanup id (set_pending (delete id (s_pending s)) s)).
Proof.
  intros [[Hcfg Hcalls Hruns Hk Hready Hs Hl] Hp] Hid. split; [split|]; cbn; unchanged.
  - destruct Hcalls. destruct (calls_pending0 _ _ Hid) as (P1 & P2 & P3 & _ & P5).
    split; cbn.
    + intros i q H. apply lookup_delete_Some in H as [Hne H].
      destruct (calls_pending0 _ _ H) as (H1 & H2 & H3 & H4 & H5). repeat split; try done.
      intros [= Heq]. apply Hne. eauto.
    + intros i i' q q' H H'. apply lookup_delete_Some in H as [_ H]. apply lookup_delete_Some in H' as [_ H']. eauto.
    + intros k w H. destruct (calls_waiting0 _ _ H) as (H1 & H2 & H3). repeat split; try done.
      intros ?. simplify_eq.
    + intros k r H. destruct (calls_settled0 _ _ H). split; [done|]. intros ?. simplify_eq.
    + intros k ?. by simplify_eq.
    + intros k H. destruct (calls_total0 _ H) as [?|[?|[?|(i & q & Hi & Hq)]]]; [done|eauto..|].
      destruct (decide (i = id)) as [->|]; [left; congruence|].
      right; right; right. exists i, q. split; [|done]. by rewrite lookup_delete_ne by congruence.
    + intros i [t H]. apply lookup_delete_Some in H as [Hne H]. rewrite lookup_delete_ne by done. eauto.
    + intros i [H Hne]%elem_of_difference. rewrite lookup_delete_ne by set_solver. eauto.
  - unfold phase in *; cbn. destruct (s_state s); try naive_solver.
    + destruct Hp as (? & ? & ? & ? & -> & ?). by rewrite delete_empty in *.
    + destruct Hp as (? & ? & ? & -> & ?). by rewrite delete_empty in *.
Qed.

Lemma settle_inv id r s : inv s -> inv (settle id r s).
Proof.
  intros H. unfold settle. destruct (s_pending s !! id) as [p|] eqn:E; [|done].
  apply settle_call_inv. by apply take_pending_inv.
Qed.

Lemma take_waiting_inv s c w :
  inv s -> s_waiting s !! c = Some w -> inv_at (Some c) (set_waiting (delete c (s_waiting s)) s).
Proof.
  intros [[Hcfg Hcalls Hruns Hk Hready Hs Hl] Hp] Hw. split; [split|]; cbn; unchanged.
  destruct Hcalls. destruct (calls_waiting0 _ _ Hw) as (W1 & W2 & _). split; cbn; try done.
  - intros i q H. destruct (calls_pending0 _ _ H) as (H1 & H2 & H3 & H4 & H5). repeat split; try done.
    + by apply lookup_delete_None; right.
    + intros ?. simplify_eq.
  - intros k x H. apply lookup_delete_Some in H as [Hne H]. destruct (calls_waiting0 _ _ H) as (H1 & H2 & H3).
    repeat split; try done. congruence.
  - intros k r H. destruct (calls_settled0 _ _ H). split; [done|]. intros ?. simplify_eq.
  - intros k ?. by simplify_eq.
  - intros k H. destruct (decide (k = c)) as [->|]; [by left|].
    destruct (calls_total0 _ H) as [?|[?|[?|?]]]; [done|eauto| |eauto 6].
    right; right; left. by rewrite lookup_delete_ne by congruence.
Qed.

(** ** Field updates *)

(** For an update of fields the invariant constrains by themselves only. *)
Ltac field_update :=
  let H := fresh "Hinv" in
  intros H; destruct H as [[?Hcfg ?Hcalls ?Hruns ?Hk ?Hready ?Hs ?Hl] ?Hphase];
  split; [split|]; cbn; unchanged; try naive_solver;
  unfold phase in *; cbn; destruct (s_state _); naive_solver.

Lemma set_awaitingPong_inv limbo v s : inv_at limbo s -> inv_at limbo (set_awaitingPong v s).
Proof. field_update. Qed.

Lemma set_announcedClose_inv limbo v s : inv_at limbo s -> inv_at limbo (set_announcedClose v s).
Proof. field_update. Qed.

Lemma set_handlers_inv limbo v s : inv_at limbo s -> inv_at limbo (set_handlers v s).
Proof. field_update. Qed.

Lemma set_eventListeners_inv limbo v s : NoDup v -> inv_at limbo s -> inv_at limbo (set_eventListeners v s).
Proof. intros Hv. field_update. Qed.

Lemma set_pongListeners_inv limbo v s : NoDup v -> inv_at limbo s -> inv_at limbo (set_pongListeners v s).
Proof. intros Hv. field_update. Qed.

Lemma set_closeListeners_inv limbo v s :
  NoDup v -> (s_state s = closed -> v = []) -> inv_at limbo s -> inv_at limbo (set_closeListeners v s).
Proof. intros Hv Hc. field_update. Qed.

Lemma set_handshakeTimer_inv limbo v s :
  (s_state s = ready -> v = false) -> inv_at limbo s -> inv_at limbo (set_handshakeTimer v s).
Proof. intros Hv. field_update. Qed.

Lemma set_abortListeners_inv limbo v s :
  v ⊆ s_abortListeners s -> inv_at limbo s -> inv_at limbo (set_abortListeners v s).
Proof.
  intros Hv [[Hcfg Hcalls Hruns Hk Hready Hs Hl] Hp]. split; [split|]; cbn; unchanged.
  destruct Hcalls. split; cbn; auto.
Qed.

Lemma set_timers_delete_inv limbo id s : inv_at limbo s -> inv_at limbo (set_timers (delete id (s_timers s)) s).
Proof.
  intros [[Hcfg Hcalls Hruns Hk Hready Hs Hl] Hp]. split; [split|]; cbn; unchanged.
  destruct Hcalls. split; cbn; auto. intros i [t H]. apply lookup_delete_Some in H as [_ H]. eauto.
Qed.

Lemma set_requestSequence_inv limbo s :
  s_state s <> handshaking -> inv_at limbo s -> inv_at limbo (set_requestSequence (s_requestSequence s + 1) s).
Proof.
  intros Hne [[Hcfg Hcalls Hruns Hk Hready Hs Hl] Hp]. split; [split|]; cbn; unchanged; [|lia|].
  - destruct Hcalls. split; cbn; auto. intros id p H. destruct (calls_pending0 _ _ H) as (? & ? & ? & ? & (k & ? & ->)).
    repeat split; try done. exists k; cbn. split; [lia|done].
  - unfold phase in *; cbn. by destruct (s_state s).
Qed.

Lemma set_eventSequences_inv limbo v s :
  s_state s <> handshaking -> Z.of_nat (size v) <= c_maxStreamKeys (s_cfg s) ->
  inv_at limbo s -> inv_at limbo (set_eventSequences v s).
Proof. intros Hne Hv. field_update. Qed.

(** ** Requests *)

Lemma new_call_inv s :
  inv s -> inv_at (Some (s_nextCall s)) (set_nextCall (S (s_nextCall s)) s).
Proof.
  intros [[Hcfg Hcalls Hruns Hk Hready Hs Hl] Hp]. split; [split|]; cbn; unchanged.
  destruct Hcalls. split; cbn; auto.
  - intros i q H. destruct (calls_pending0 _ _ H) as (H1 & H2 & H3 & H4 & H5).
    repeat split; try done; [lia|]. intros ?; simplify_eq; lia.
  - intros k w H. destruct (calls_waiting0 _ _ H) as (H1 & H2 & H3). repeat split; try done; [lia|].
    intros ?; simplify_eq; lia.
  - intros k r H. destruct (calls_settled0 _ _ H). split; [lia|]. intros ?; simplify_eq; lia.
  - intros k ?; simplify_eq; lia.
  - intros k H. destruct (decide (k = s_nextCall s)) as [->|]; [by left|].
    destruct (calls_total0 k) as [?|?]; [lia|done|by right].
Qed.

Lemma start_waiting_inv c w s :
  inv_at (Some c) s -> inv (set_waiting (<[c := w]> (s_waiting s)) s).
Proof.
  intros [[Hcfg Hcalls Hruns Hk Hready Hs Hl] Hp]. split; [split|]; cbn; unchanged.
  destruct Hcalls. split; cbn; try done.
  - intros i q H. destruct (calls_pending0 _ _ H) as (H1 & H2 & H3 & H4 & H5). repeat split; try done.
    rewrite lookup_insert_ne by congruence. done.
  - intros k x H. destruct (decide (k = c)) as [->|].
    + repeat split; [|by apply calls_limbo0|done].
      destruct (s_calls s !! c) eqn:E; [|done]. by destruct (calls_settled0 _ _ E).
    + rewrite lookup_insert_ne in H by congruence. destruct (calls_waiting0 _ _ H) as (H1 & H2 & H3). done.
  - intros k r H. destruct (calls_settled0 _ _ H). done.
  - intros k H. destruct (decide (k = c)) as [->|]; [right; right; left; rewrite lookup_insert_eq; eauto|].
    rewrite lookup_insert_ne by congruence. destruct (calls_total0 _ H) as [?|?]; [congruence|by right].
Qed.

Lemma request_inv m p g t s : inv s -> inv (request m p g t s).1.
Proof.
  intros H. unfold request. destruct (_ || _); cbn [fst].
  - by apply settle_call_inv, new_call_inv.
  - apply (start_waiting_inv _ _ (set_nextCall (S (s_nextCall s)) s)). by apply new_call_inv.
Qed.

(** The request is registered under an id no pending request holds. *)
Lemma register_inv c w id s :
  inv_at (Some c) s -> s_state s = ready -> own_id s id -> s_pending s !! id = None ->
  inv (let s := set_pending (<[id := {| pr_method := wr_method w; pr_call := c |}]> (s_pending s)) s in
       let s := if wr_signal w then set_abortListeners (s_abortListeners s ∪ {[id]}) s else s in
       match wr_timeoutMs w with Some ms => set_timers (<[id := ms]> (s_timers s)) s | None => s end).
Proof.
  intros [[Hcfg Hcalls Hruns Hk Hready Hs Hl] Hp] Hst Hown Hid.
  set (s1 := set_pending _ s). cbn zeta.
  assert (calls_ok None s1 /\ phase s1) as [Hc Hph].
  { split; [|unfold phase in *; cbn in *; by rewrite Hst in *].
    destruct Hcalls. split; cbn; try done.
    - intros i q H. destruct (decide (i = id)) as [->|].
      + rewrite lookup_insert_eq in H. simplify_eq; cbn. repeat split; try done; [| |by apply calls_limbo0].
        * destruct (s_calls s !! c) eqn:E; [|done]. by destruct (calls_settled0 _ _ E).
        * destruct (s_waiting s !! c) eqn:E; [|done]. by destruct (calls_waiting0 _ _ E) as (_ & _ & []).
      + rewrite lookup_insert_ne in H by congruence. destruct (calls_pending0 _ _ H) as (? & ? & ? & ? & ?). done.
    - intros i j q q' Hi Hj Hq.
      destruct (decide (i = id)) as [->|], (decide (j = id)) as [->|]; [done| | |].
      + rewrite lookup_insert_eq in Hi. rewrite lookup_insert_ne in Hj by congruence. simplify_eq.
        destruct (calls_pending0 _ _ Hj) as (_ & _ & _ & Hn & _). cbn in *. congruence.
      + rewrite lookup_insert_eq in Hj. rewrite lookup_insert_ne in Hi by congruence. simplify_eq.
        destruct (calls_pending0 _ _ Hi) as (_ & _ & _ & Hn & _). cbn in *. congruence.
      + rewrite lookup_insert_ne in Hi, Hj by congruence. eauto.
    - intros k x H. destruct (calls_waiting0 _ _ H) as (? & ? & ?). done.
    - intros k r H. destruct (calls_settled0 _ _ H). done.
    - intros k H. destruct (calls_total0 _ H) as [?|[?|[?|(i & q & Hi & Hq)]]]; [|eauto..|].
      + right; right; right. exists id, {| pr_method := wr_method w; pr_call := c |}.
        rewrite lookup_insert_eq. cbn. split; congruence.
      + right; right; right. exists i, q. by rewrite lookup_insert_ne by congruence.
    - intros i H. destruct (decide (i = id)) as [->|]; [rewrite lookup_insert_eq; eauto|].
      rewrite lookup_insert_ne by congruence. eauto.
    - intros i H. destruct (decide (i = id)) as [->|]; [rewrite lookup_insert_eq; eauto|].
      rewrite lookup_insert_ne by congruence. eauto. }
  assert (s_pending s1 !! id = Some {| pr_method := wr_method w; pr_call := c |}) as Hin
    by (cbn; apply lookup_insert_eq).
  destruct Hc. destruct (wr_signal w), (wr_timeoutMs w); split; try done; split; cbn; unchanged;
    split; cbn; auto; intros i Hi;
    (destruct (decide (i = id)) as [->|]; [by eexists|]);
    try (rewrite lookup_insert_ne in Hi by congruence); eauto.
  all: apply elem_of_union in Hi as [Hi|Hi]; [by auto|set_solver].
Qed.

Lemma request_id_fresh s : 0 <= s_requestSequence s -> ~ own_id s (request_id s).
Proof.
  intros Hs (k & Hk & E). unfold request_id in E. apply app_inv_head, app_inv_head in E.
  apply dec_inj in E; lia.
Qed.

(** Undoing a registration, as the [catch] around the first send does. *)
Lemma unregister_inv c r id p s :
  inv s -> s_pending s !! id = Some p /\ pr_call p = c \/ s_state s = closed /\ is_Some (s_calls s !! c) ->
  inv (settle_call c r (cleanup id (set_pending (delete id (s_pending s)) s))).
Proof.
  intros H [[Hp <-]|[Hst Hc]]; [by apply settle_call_inv, take_pending_inv|].
  rewrite settle_call_noop by done.
  destruct (inv_closed_empty _ _ H Hst) as (He & _ & _). rewrite He, delete_empty.
  replace (set_pending ∅ s) with s by (rewrite <- He; by destruct s).
  unfold cleanup. apply set_abortListeners_inv; [cbn; set_solver|]. by apply set_timers_delete_inv.
Qed.

Lemma start_request_inv port c w aborted id s :
  inv_at (Some c) s -> s_state s = ready -> own_id s id -> s_pending s !! id = None ->
  inv (start_request port c w aborted id s).1.
Proof.
  intros H Hst Hown Hid. unfold start_request.
  pose proof (register_inv c w id s H Hst Hown Hid) as Hreg. cbn zeta in Hreg |- *.
  set (p := {| pr_method := wr_method w; pr_call := c |}) in *.
  set (s1 := match wr_timeoutMs w with Some ms => _ | None => _ end) in *.
  assert (s_pending s1 !! id = Some p) as Hp
    by (subst s1; destruct (wr_timeoutMs w), (wr_signal w); apply lookup_insert_eq).
  pose proof (port_send_settles port (FReq id (wr_method w) (wr_params w)) s1) as Hset.
  destruct (port_send _ _ s1) as [[s2 evs] [error|]]; cbn [fst] in Hset |- *.
  - eapply unregister_inv; [by eapply settles_inv|].
    destruct Hset as [->|[k ->]]; [left; eauto|].
    destruct (decide (s_state s1 = closed)) as [E|E]; [rewrite teardown_closed by done; left; eauto|].
    right. destruct (teardown_shape k s1 E) as (T & A & C & R & -> & _ & _ & _ & HC & _); cbn. split; [done|].
    apply (HC _ _ Hp).
  - assert (inv s2) by (by eapply settles_inv). destruct (wr_signal w && aborted); [|done].
    pose proof (trySend_settles port (FCancel id) s2). destruct (trySend _ _ s2). by eapply settles_inv.
Qed.

Lemma resumeRequest_inv port c aborted s : inv s -> inv (resumeRequest port c aborted s).1.
Proof.
  intros H. unfold resumeRequest. destruct (s_waiting s !! c) as [w|] eqn:Ew; [|done].
  pose proof (take_waiting_inv _ _ _ H Ew) as Hl.
  destruct (s_ready s) eqn:Er; cbn [fst]; [done| |by apply settle_call_inv].
  set (s1 := set_waiting _ s) in *.
  destruct (_ && _); cbn [fst]; [by apply settle_call_inv|].
  destruct (decide (s_state s1 = closed)) as [Ec|Ec]; cbn [fst]; [by apply settle_call_inv|].
  assert (s_state s1 = ready) as Est.
  { destruct H as [_ Hp]. unfold phase in Hp. cbn in *. destruct (s_state s); [|done..].
    destruct Hp as [Hp _]. congruence. }
  set (s2 := set_requestSequence _ s1).
  assert (inv_at (Some c) s2) as H2 by (apply set_requestSequence_inv; [by rewrite Est|done]).
  pose proof (core_sequence _ _ (inv_core _ _ Hl)) as Hseq.
  destruct (assertFits _ _ s2); cbn [fst]; [by apply settle_call_inv|].
  apply start_request_inv; [done|done| |].
  - exists (s_requestSequence s1 + 1). cbn in *. split; [lia|done].
  - destruct (s_pending s2 !! _) as [p|] eqn:E; [|done]. exfalso.
    destruct (calls_pending _ _ (core_calls _ _ (inv_core _ _ Hl)) _ _ E) as (_ & _ & _ & _ & Ho).
    by apply (request_id_fresh s1).
Qed.

Lemma signalAborted_inv port id s : inv s -> inv (signalAborted port id s).1.
Proof.
  intros H. unfold signalAborted. destruct (decide _); [|done].
  eapply settles_inv; [|apply trySend_settles]. apply set_abortListeners_inv; [set_solver|done].
Qed.

Lemma requestTimeout_inv port id s : inv s -> inv (requestTimeout port id s).1.
Proof.
  intros H. unfold requestTimeout. destruct (s_timers s !! id) as [ms|]; [|done].
  destruct (s_pending s !! id) as [p|] eqn:Ep; [|by apply set_timers_delete_inv].
  pose proof (take_pending_inv _ _ _ H Ep) as Hl. cbn zeta.
  set (s1 := cleanup id _) in *. pose proof (trySend_settles port (FCancel id) s1).
  destruct (trySend _ _ s1); cbn [fst] in *. apply settle_call_inv. by eapply settles_inv.
Qed.

(** ** The handshake *)

Lemma reject_ready_core limbo e s : core limbo s -> core limbo (reject_ready e s).
Proof.
  intros H. unfold reject_ready. destruct (s_ready s); [|done|done].
  destruct H. split; cbn; unchanged.
Qed.

Lemma reject_ready_settled e s : s_ready s <> ReadyPending -> reject_ready e s = s.
Proof. unfold reject_ready. by destruct (s_ready s). Qed.

Lemma failHandshake_inv e code reason s : inv s -> inv (failHandshake e code reason s).1.
Proof.
  intros [Hc Hp]. unfold failHandshake, closeNow.
  assert (s_state (reject_ready e s) = s_state s) as Est by (unfold reject_ready; by destruct (s_ready s)).
  rewrite Est. destruct (decide (s_state s = closed)) as [E|E]; cbn [fst].
  - rewrite reject_ready_settled by (unfold phase in Hp; rewrite E in Hp; naive_solver). by split.
  - pose proof (teardown_inv None (closure_of code (Some reason)) (reject_ready e s) (reject_ready_core _ _ _ Hc)).
    destruct (teardown _ _); cbn [fst] in *. apply H. by rewrite Est.
Qed.

Lemma startHandshake_inv port s : inv s -> s_state s <> ready -> inv (startHandshake port s).1.
Proof.
  intros H Hne. unfold startHandshake. pose proof (port_send_settles port (hello_frame s) s) as Hset.
  destruct (port_send _ _ s) as [[s1 evs] [error|]]; cbn [fst] in *.
  - assert (inv s1) as H1 by (by eapply settles_inv).
    pose proof (failHandshake_inv (remoteError UNAVAILABLE (js "The transport refused the hello: " ++ describe error) None)
      RELEASED (js "hello could not be sent") s1 H1). by destruct (failHandshake _ _ _ s1).
  - apply set_handshakeTimer_inv; [|by eapply settles_inv].
    destruct (settles_fields _ _ Hset) as (_ & _ & _ & _ & _ & _ & _ & [->|Hc]); [done|by rewrite Hc].
Qed.

Lemma handshakeTimeout_inv s : inv s -> inv (handshakeTimeout s).1.
Proof.
  intros H. unfold handshakeTimeout. destruct (negb _); [done|].
  destruct (decide _) as [E|E]; [|by apply set_handshakeTimer_inv].
  apply failHandshake_inv. by apply set_handshakeTimer_inv.
Qed.

Lemma receiveHello_inv protocol peer caps limits s : inv s -> inv (receiveHello protocol peer caps limits s).1.
Proof.
  intros H. unfold receiveHello. destruct (decide _) as [E|E].
  2: { eapply settles_inv; [done|apply closeNow_settles]. }
  destruct (negotiate _ _) as [minor|code]; [|by apply failHandshake_inv].
  destruct H as [[Hcfg Hcalls Hruns Hk Hready Hs Hl] Hp]. unfold phase in Hp. rewrite E in Hp.
  destruct Hp as (P1 & P2 & P3 & P4 & P5 & P6 & P7 & P8 & P9).
  cbn [fst]. unfold resolve_ready, startLiveness. cbn.
  destruct (c_livenessIntervalMs (s_cfg s)); cbn; rewrite P1.
  all: split; [split|]; cbn; unchanged; try naive_solver.
  all: eapply runs_ok_ext; [eassumption|try done..]; cbn; by rewrite E.
Qed.

Lemma livenessTick_inv port s : inv s -> inv (livenessTick port s).1.
Proof.
  intros H. unfold livenessTick. destruct (negb _); [done|]. destruct (decide _); [|done].
  destruct (s_awaitingPong s); eapply settles_inv; [done|apply closeNow_settles| |apply trySend_settles].
  by apply set_awaitingPong_inv.
Qed.

(** ** Answering *)

(** The dispatch reaches the handler: a new run holds the id. *)
Definition take_on (s : session) (id method : jstring) : session :=
  let run := s_nextRun s in
  set_runs (<[run := {| dr_id := id; dr_method := method; dr_aborted := false |}]> (s_runs s))
    (set_active (<[id := run]> (s_active s)) (set_nextRun (S run) s)).

(** [#dispatch] refuses with one [err], or accepts and calls the handler. *)
Lemma dispatch_cases port id method params s :
  (exists e, dispatch port id method params s = respondError port id e s) \/
  (exists h, dispatch port id method params s =
     (take_on s id method, [EvInvoke (s_nextRun s) h id method params]) /\
     s_state s = ready /\ s_active s !! id = None /\ s_handlers s !! method = Some h /\
     Z.of_nat (size (s_active s)) < c_maxInFlight (s_cfg s)).
Proof.
  unfold dispatch. destruct (decide (s_state s = ready)) as [Er|Er]; [|left; eauto].
  destruct (Z.leb_spec (c_maxInFlight (s_cfg s)) (Z.of_nat (inFlight s))) as [Hle|Hlt]; [left; eauto|].
  destruct (decide (is_Some (s_active s !! id))) as [Ha|Ha]; [left; eauto|].
  destruct (_ && _); [left; eauto|].
  destruct (s_handlers s !! method) as [h|]; [|left; eauto].
  right. exists h. apply eq_None_not_Some in Ha. done.
Qed.

Lemma take_on_inv s id method :
  inv s -> s_state s = ready -> s_active s !! id = None ->
  Z.of_nat (size (s_active s)) < c_maxInFlight (s_cfg s) -> inv (take_on s id method).
Proof.
  intros [[Hcfg Hcalls Hruns Hk Hready Hs Hl] Hp] Hst Hid Hsz. split; [split|]; cbn; unchanged.
  2: { unfold phase in *; cbn. by rewrite Hst in *. }
  destruct Hruns. split; cbn.
  - intros i run H. destruct (decide (i = id)) as [->|].
    + rewrite lookup_insert_eq in H. simplify_eq. rewrite lookup_insert_eq. eauto.
    + rewrite lookup_insert_ne in H by congruence. destruct (runs_active0 _ _ H) as (d & Hd & Hdi).
      exists d. rewrite lookup_insert_ne; [done|]. intros <-. apply runs_fresh0 in Hd. lia.
  - intros _ run d H. destruct (decide (run = s_nextRun s)) as [->|].
    + rewrite lookup_insert_eq in H. simplify_eq; cbn. apply lookup_insert_eq.
    + rewrite lookup_insert_ne in H by congruence.
      pose proof (runs_held0 ltac:(by rewrite Hst) _ _ H) as Hact.
      rewrite lookup_insert_ne; [done|]. congruence.
  - intros run d H. destruct (decide (run = s_nextRun s)) as [->|]; [lia|].
    rewrite lookup_insert_ne in H by congruence. apply runs_fresh0 in H. lia.
  - rewrite map_size_insert_None by done. lia.
Qed.

Lemma dispatch_inv port id method params s : inv s -> inv (dispatch port id method params s).1.
Proof.
  intros H. destruct (dispatch_cases port id method params s) as [[e ->]|(h & -> & Hst & Ha & _ & Hsz)].
  - eapply settles_inv; [done|apply trySend_settles].
  - by apply take_on_inv.
Qed.

(** The answer of a settled handler is one attempt to send one frame with its id. *)
Definition answers (id : jstring) (f : frame) : Prop :=
  match f with FRes i _ => i = id | FErr i _ => i = id | _ => False end.

Lemma handlerSettled_cases port run o s d :
  s_runs s !! run = Some d ->
  exists f, answers (dr_id d) f /\
    (forall i v, f = FRes i v -> exists n, measureFrameBytes f = Ok n /\ n <= sendLimitBytes s) /\
    handlerSettled port run o s =
      let '(s', evs) := trySend port f s in
      (set_runs (delete run (s_runs s')) (set_active (delete (dr_id d) (s_active s')) s'), evs).
Proof.
  intros Hd. unfold handlerSettled, respondResult, respondError. rewrite Hd.
  destruct o as [v|t].
  2: { by eexists (FErr _ _). }
  set (v' := match v with VUndefined => _ | _ => v end).
  destruct (measureFrameBytes (FRes (dr_id d) v')) as [n|e] eqn:Em.
  2: { by eexists (FErr _ _). }
  destruct (Z.ltb_spec (sendLimitBytes s) n).
  { by eexists (FErr _ _). }
  exists (FRes (dr_id d) v'). split; [done|]. split; [|done].
  intros i w [= <- <-]. eauto.
Qed.

(** The [finally] of [#dispatch]. *)
Lemma release_run_inv run d s :
  inv s -> s_runs s !! run = Some d ->
  inv (set_runs (delete run (s_runs s)) (set_active (delete (dr_id d) (s_active s)) s)).
Proof.
  intros [[Hcfg Hcalls Hruns Hk Hready Hs Hl] Hp] Hd. split; [split|]; cbn; unchanged.
  2: { unfold phase in *; cbn. destruct (s_state s); try naive_solver.
       - destruct Hp as (? & ? & ? & ? & ? & -> & ?). by rewrite delete_empty.
       - destruct Hp as (? & ? & ? & ? & -> & ? & ? & Ha). rewrite delete_empty. repeat split; try done.
         intros r d' Hr. apply lookup_delete_Some in Hr as [_ Hr]. eauto. }
  destruct Hruns. split; cbn.
  - intros i r H. apply lookup_delete_Some in H as [Hne H]. destruct (runs_active0 _ _ H) as (d' & Hd' & <-).
    exists d'. rewrite lookup_delete_ne; [done|]. intros <-. congruence.
  - intros Ho r d' H. apply lookup_delete_Some in H as [Hne H].
    rewrite lookup_delete_ne; [eauto|]. intros Heq. pose proof (runs_held0 Ho _ _ H). pose proof (runs_held0 Ho _ _ Hd).
    congruence.
  - intros r d' H. apply lookup_delete_Some in H as [_ H]. eauto.
  - rewrite map_size_delete. destruct (s_active s !! dr_id d); unfold id; lia.
Qed.

(** Teardown keeps every run, with its id and method. *)
Lemma settles_runs s s' run d :
  settles s s' -> s_runs s !! run = Some d -> exists d', s_runs s' !! run = Some d' /\ same_run d d'.
Proof.
  intros [->|[c ->]] H; [by exists d|].
  destruct (decide (s_state s = closed)) as [E|E]; [rewrite teardown_closed by done; by exists d|].
  destruct (teardown_shape c s E) as (T & A & C & R & -> & _ & _ & _ & _ & _ & HR & _); cbn.
  specialize (HR run). rewrite H in HR. destruct (R !! run) as [d'|]; [|done]. exists d'. naive_solver.
Qed.

Lemma handlerSettled_inv port run o s : inv s -> inv (handlerSettled port run o s).1.
Proof.
  intros H. destruct (s_runs s !! run) as [d|] eqn:Ed; [|unfold handlerSettled; by rewrite Ed].
  destruct (handlerSettled_cases port run o s d Ed) as (f & _ & _ & Heq).
  pose proof (trySend_settles port f s) as Hset. destruct (trySend port f s) as [s' evs]; cbn [fst] in *.
  rewrite Heq; cbn [fst]. destruct (settles_runs _ _ _ _ Hset Ed) as (d' & Hd' & Hid & _). rewrite <- Hid.
  apply release_run_inv; [by eapply settles_inv|done].
Qed.

(** ** Events *)

(** [emit] either sends nothing and changes nothing, or makes one send of the next
    frame of its key, and counts it when the send did not throw. *)
Lemma emit_cases port e s :
  (emit port e s).1 = (s, []) \/
  exists f, f = FEvt (ei_topic e) (default 0 (s_eventSequences s !! stream_key e)) (ei_streamId e) (ei_payload e) (ei_end e) /\
    s_state s = ready /\
    (s_eventSequences s !! stream_key e = None ->
       Z.of_nat (size (s_eventSequences s)) < c_maxStreamKeys (s_cfg s)) /\
    (exists n, measureFrameBytes f = Ok n /\ n <= sendLimitBytes s) /\
    let '(s', evs, error) := port_send port f s in
    (emit port e s).1 =
      (match error with
       | Some _ => s'
       | None => if ei_end e then set_eventSequences (delete (stream_key e) (s_eventSequences s')) s'
                 else set_eventSequences
                   (<[stream_key e := default 0 (s_eventSequences s !! stream_key e) + 1]> (s_eventSequences s')) s'
       end, evs).
Proof.
  unfold emit. destruct (decide (s_state s = ready)) as [Er|]; [|by left].
  destruct (bool_decide _ && _) eqn:Ek; [by left|].
  set (f := FEvt _ _ _ _ _). unfold assertFits.
  destruct (measureFrameBytes f) as [n|] eqn:Em; [|by left].
  destruct (Z.leb_spec n (sendLimitBytes s)); [|by left].
  right. exists f. split; [done|]. split; [done|]. split; [|split; [eauto|]].
  - intros Hn. apply andb_false_iff in Ek as [Ek|Ek]; bool_to_prop; [congruence|lia].
  - by destruct (port_send port f s) as [[s' evs] [?|]].
Qed.

Lemma emit_inv port e s : inv s -> inv (emit port e s).1.1.
Proof.
  intros H. destruct (emit_cases port e s) as [->|(f & _ & Hst & Hkeys & _ & Heq)]; [done|].
  pose proof (port_send_settles port f s) as Hset.
  destruct (port_send port f s) as [[s' evs] error]; cbn [fst] in *. rewrite Heq; cbn [fst].
  assert (inv s') as H' by (by eapply settles_inv).
  destruct (settles_fields _ _ Hset) as (Hcfg & _ & _ & _ & _ & _ & _ & Hcl).
  assert (s_state s' <> handshaking) as Hne by (destruct Hcl as [-> | ->]; [by rewrite Hst|done]).
  pose proof (core_keys _ _ (inv_core _ _ H)) as Hk. pose proof (core_keys _ _ (inv_core _ _ H')) as Hk'.
  destruct error; [done|]. destruct (ei_end e); apply set_eventSequences_inv; try done.
  - rewrite map_size_delete. destruct (s_eventSequences s' !! _); unfold id; lia.
  - rewrite map_size_insert. destruct Hset as [->|[c ->]].
    + destruct (s_eventSequences s !! _) eqn:E; unfold id; [lia|]. specialize (Hkeys eq_refl). lia.
    + destruct (teardown_shape c s ltac:(by rewrite Hst)) as (T & A & C & R & -> & _); cbn.
      rewrite lookup_empty, map_size_empty. destruct (core_cfg _ _ (inv_core _ _ H)). lia.
Qed.

(** ** Every step *)

Lemma receive_inv port f s : inv s -> inv (receive port f s).1.
Proof.
  intros H. unfold receive. destruct (s_attached s) eqn:Hat; cbn [negb]; [|done].
  destruct f; cbn [fst]; try (eapply settles_inv; [eassumption|auto with mango; fail]).
  - by apply receiveHello_inv.
  - by apply dispatch_inv.
  - by apply settle_inv.
  - by apply settle_inv.
  - by destruct (decide _).
  - destruct (s_active s !! id) as [run|]; [|done]. cbn [fst].
    destruct H as [[Hcfg Hcalls Hruns Hk Hready Hs Hl] Hp]. split; [split|]; cbn; unchanged.
    2: { unfold phase in *; cbn. destruct (s_state s); try done. destruct Hp as (_ & _ & ? & _). congruence. }
    unfold abort_run; cbn. destruct Hruns. split; cbn.
    + intros i r Hi. destruct (runs_active0 _ _ Hi) as (d & Hd & Hdi).
      destruct (decide (r = run)) as [->|]; [rewrite lookup_alter_eq, Hd; cbn; eauto|].
      rewrite lookup_alter_ne by congruence. eauto.
    + intros Ho r d Hd. destruct (decide (r = run)) as [->|].
      * rewrite lookup_alter_eq in Hd. destruct (s_runs s !! run) eqn:E; simplify_eq/=. eauto.
      * rewrite lookup_alter_ne in Hd by congruence. eauto.
    + intros r d Hd. destruct (decide (r = run)) as [->|].
      * rewrite lookup_alter_eq in Hd. destruct (s_runs s !! run) eqn:E; simplify_eq/=. eauto.
      * rewrite lookup_alter_ne in Hd by congruence. eauto.
    + done.
  - by apply set_awaitingPong_inv.
  - eapply settles_inv; [|apply settles_teardown]. by apply set_announcedClose_inv.
Qed.

Lemma onClose_inv l s : inv s -> inv (onClose l s).1.
Proof.
  intros H. unfold onClose. destruct (s_closure s) eqn:E; [done|]. cbn [fst].
  apply set_closeListeners_inv; [apply add_NoDup, H| |done].
  intros Hc. destruct (inv_closed_empty _ _ H Hc) as (_ & _ & [? ?]). congruence.
Qed.

Lemma step_inv port i s : inv s -> inv (step port i s).1.
Proof.
  intros H. pose proof (core_listeners _ _ (inv_core _ _ H)) as (L1 & L2 & L3).
  destruct i; cbn [step fst].
  - by apply receive_inv.
  - eapply settles_inv; [done|apply port_closed_settles].
  - by apply request_inv.
  - by apply resumeRequest_inv.
  - by apply signalAborted_inv.
  - by apply requestTimeout_inv.
  - by apply handlerSettled_inv.
  - by apply emit_inv.
  - pose proof (port_send_settles port FPing s). unfold ping. destruct (port_send _ _ s) as [[]]. by eapply settles_inv.
  - by apply handshakeTimeout_inv.
  - by apply livenessTick_inv.
  - eapply settles_inv; [done|apply closeNow_settles].
  - by apply set_handlers_inv.
  - unfold unhandle. destruct (decide _); [by apply set_handlers_inv|done].
  - apply set_eventListeners_inv; [by apply add_NoDup|done].
  - apply set_eventListeners_inv; [by apply remove_NoDup|done].
  - apply set_pongListeners_inv; [by apply add_NoDup|done].
  - apply set_pongListeners_inv; [by apply remove_NoDup|done].
  - by apply onClose_inv.
  - apply set_closeListeners_inv; [by apply remove_NoDup| |done].
    intros Hc. destruct H as [_ Hp]. unfold phase in Hp. rewrite Hc in Hp.
    destruct Hp as (_ & _ & _ & _ & _ & _ & -> & _). done.
Qed.

(** ** Construction *)

Lemma localFrameCeiling_bounds requested portCeiling z :
  localFrameCeiling requested portCeiling = Ok z -> 4096 <= z <= MAX_ANNOUNCED_FRAME_BYTES.
Proof.
  assert (forall name v z, resolveIntegerAtLeast name v DEFAULT_MAX_FRAME_BYTES MIN_MAX_FRAME_BYTES
            (Some MAX_ANNOUNCED_FRAME_BYTES) = Ok z -> 4096 <= z <= MAX_ANNOUNCED_FRAME_BYTES) as Hr.
  { intros name v k Hk. apply resolve_bounds in Hk as [H1 H2]. split; [exact H1|by apply H2]. }
  assert (4096 <= DEFAULT_MAX_FRAME_BYTES <= MAX_ANNOUNCED_FRAME_BYTES) as Hd by done.
  unfold localFrameCeiling. intros H. apply bind_ok in H as (ceil & Hc & H).
  assert (forall k, ceil = Some k -> 4096 <= k <= MAX_ANNOUNCED_FRAME_BYTES) as Hceil.
  { intros k ->. destruct portCeiling; [|done].
    destruct (resolveIntegerAtLeast (js "port maxFrameBytes") _ _ _ _) as [x|] eqn:E; cbn in Hc; [|done]. injection Hc as <-. by eapply Hr. }
  destruct requested as [r|].
  - apply bind_ok in H as (fl & Hf & H). injection H as <-. apply Hr in Hf.
    destruct ceil as [k|]; cbn; [specialize (Hceil k eq_refl)|]; lia.
  - injection H as <-. destruct ceil as [k|]; cbn; auto.
Qed.

Lemma resolveConfig_ok o ceiling c : resolveConfig o ceiling = Ok c -> cfg_ok c.
Proof.
  unfold resolveConfig. intros H.
  apply bind_ok in H as (frames & Hf & H). apply bind_ok in H as (flight & Hfl & H).
  apply bind_ok in H as (keys & Hk & H). injection H as <-.
  split; cbn; [by eapply localFrameCeiling_bounds|..].
  - apply resolve_bounds in Hfl as [H1 H2]. split; [exact H1|by apply H2].
  - apply resolve_bounds in Hk as [H1 _]. exact H1.
Qed.

Lemma initial_session_inv c handlers : cfg_ok c -> inv (initial_session c handlers).
Proof.
  intros Hc. pose proof Hc as [H1 H2 H3]. split; [split|]; cbn; try done.
  - split; cbn; intros *; rewrite ?lookup_empty; try done; lia.
  - split; cbn; intros *; rewrite ?lookup_empty, ?map_size_empty; try done; lia.
  - rewrite map_size_empty. lia.
  - repeat split; constructor.
Qed.

Lemma newSession_inv port o ceiling s evs : newSession port o ceiling = Ok (s, evs) -> inv s.
Proof.
  unfold newSession. intros H. apply bind_ok in H as (c & Hc & H). injection H as H.
  pose proof (startHandshake_inv port (initial_session c (so_handlers o))
    (initial_session_inv _ _ (resolveConfig_ok _ _ _ Hc)) ltac:(done)) as Hi.
  by rewrite H in Hi.
Qed.

Lemma reachable_inv s ins evs : reachable s ins evs -> inv s.
Proof.
  induction 1 as [port o ceiling s evs H|port i s ins evs s' evs' _ IH H]; [by eapply newSession_inv|].
  pose proof (step_inv port i s IH). by rewrite H in *.
Qed.

(** C12: every session a program can reach is well formed: its phase says what its
    handshake, closure and listeners are, no more handlers run than
    [maxInFlight] and no more streams are open than [maxStreamKeys], timers and
    abort listeners belong to pending requests, every pending id is one this
    session issued, and every promise is in exactly one place. *)
Theorem session_wellformed s ins evs : reachable s ins evs -> inv s.
Proof. apply reachable_inv. Qed.
