(* ===== verification/SessionTrace.v ===== *)
(** * What a session does over time

    Theorems about every run of [session.ts] against an arbitrary port: which
    frames a step may send, that requests are answered exactly once, that
    promises settle once, that events are numbered without gaps, that ids are
    never reused, that a closed session is final and silent, and that two
    sessions that exchanged hellos agree. *)

From S2P Require Import Prelude Utf8 Regex Json JsonFacts Wire Frames Ndjson Listeners Session SessionFacts.

(** ** Effects of a step *)

(** The frames handed to [Port.send], with whether it returned. *)
Definition sends (evs : list effect) : list (frame * bool) :=
  omap (fun e => match e with EvSend f ok => Some (f, ok) | _ => None end) evs.

Lemma sends_app a b : sends (a ++ b) = sends a ++ sends b.
Proof. apply omap_app. Qed.

Lemma sends_none evs : (forall f ok, EvSend f ok ∉ evs) -> sends evs = [].
Proof.
  induction evs as [|e evs IH]; [done|]. intros H. cbn.
  destruct e; try (apply IH; intros f' ok'; specialize (H f' ok'); set_solver).
  exfalso. eapply H. left.
Qed.

Lemma elem_of_sends f ok evs : (f, ok) ∈ sends evs <-> EvSend f ok ∈ evs.
Proof.
  unfold sends. rewrite list_elem_of_omap. split.
  - intros (e & He & H). destruct e; simplify_eq. done.
  - intros H. by exists (EvSend f ok).
Qed.

Lemma teardown_sends c s : sends (teardown c s).2 = [].
Proof.
  apply sends_none. intros f ok. unfold teardown. destruct (decide _); [set_solver|]. cbn zeta. cbn [snd].
  rewrite elem_of_app, !list_elem_of_fmap. intros [([] & ? & _)|(? & ? & _)]; congruence.
Qed.

Lemma port_closed_sends c s : sends (port_closed c s).2 = [].
Proof. unfold port_closed, handlePortClosed. destruct (s_attached s), c; try done; apply teardown_sends. Qed.

Lemma port_send_sends port f s : exists ok, sends (port_send port f s).1.2 = [(f, ok)] /\
  ok = match (port_send port f s).2 with None => true | Some _ => false end.
Proof.
  unfold port_send. destruct (reply_closure (port f)) as [c|]; [|cbn; eauto].
  pose proof (port_closed_sends c s). destruct (port_closed c s) as [s' evs]; cbn in *. rewrite H. eauto.
Qed.

Lemma trySend_sends port f s :
  s_state s = closed /\ trySend port f s = (s, []) \/
  s_state s <> closed /\ exists ok, sends (trySend port f s).2 = [(f, ok)].
Proof.
  unfold trySend. destruct (decide _); [by left|right]. split; [done|].
  destruct (port_send_sends port f s) as (ok & H & _). destruct (port_send port f s) as [[]]; eauto.
Qed.

Lemma trySend_sends_elem port f s g ok : (g, ok) ∈ sends (trySend port f s).2 -> g = f /\ s_state s <> closed.
Proof. destruct (trySend_sends port f s) as [[? ->]|[? [k ->]]]; set_solver. Qed.

Lemma closeNow_sends code reason s : sends (closeNow code reason s).2 = [].
Proof.
  unfold closeNow. destruct (decide _); [done|]. pose proof (teardown_sends (closure_of code reason) s).
  by destruct (teardown _ s).
Qed.

Lemma failHandshake_sends e code reason s : sends (failHandshake e code reason s).2 = [].
Proof. apply closeNow_sends. Qed.

Lemma sends_map {A} (g : A -> effect) l : (forall x f ok, g x <> EvSend f ok) -> sends (map g l) = [].
Proof. intros H. apply sends_none. intros f ok. rewrite list_elem_of_fmap. intros (x & ? & _). by eapply H. Qed.

(** A frame that fits what the session may send. *)
Definition fits (s : session) (f : frame) : Prop := exists n, measureFrameBytes f = Ok n /\ n <= sendLimitBytes s.

Lemma assertFits_fits f what s : assertFits f what s = None -> fits s f.
Proof.
  unfold assertFits, fits. destruct (measureFrameBytes f) as [n|]; [|done].
  destruct (Z.leb_spec n (sendLimitBytes s)); [eauto|done].
Qed.

(** The frames that may be sent on an input, by kind. *)
Definition may_send (i : input) (s : session) (f : frame) : Prop :=
  match f with
  | FReq id m p =>
      exists c aborted w, i = InResume c aborted /\ s_waiting s !! c = Some w /\ s_state s = ready /\
        id = request_id s /\ m = wr_method w /\ p = wr_params w /\ fits s f
  | FRes id _ =>
      exists run o d, i = InHandlerSettled run o /\ s_runs s !! run = Some d /\ id = dr_id d /\
        s_state s <> closed /\ fits s f
  | FErr id _ =>
      s_state s <> closed /\
      ((exists m p, i = InFrame (FReq id m p)) \/
       exists run o d, i = InHandlerSettled run o /\ s_runs s !! run = Some d /\ id = dr_id d)
  | FEvt _ _ _ _ _ =>
      exists e, i = InEmit e /\ s_state s = ready /\ fits s f /\
        f = FEvt (ei_topic e) (default 0 (s_eventSequences s !! stream_key e)) (ei_streamId e) (ei_payload e) (ei_end e)
  | FCancel id =>
      (exists c, i = InResume c true /\ id = request_id s) \/ i = InSignal id \/ i = InTimeout id
  | FPing => i = InPing \/ i = InLivenessTick
  | FPong => i = InFrame FPing
  | FHello _ _ _ _ | FClose _ _ => False
  end.

(** The sends of a request that got past its checks. *)
Lemma start_request_sends port c w aborted id s :
  exists ok, sends (start_request port c w aborted id s).2 = [(FReq id (wr_method w) (wr_params w), ok)] \/
    exists ok', sends (start_request port c w aborted id s).2 =
      [(FReq id (wr_method w) (wr_params w), ok); (FCancel id, ok')] /\ aborted = true.
Proof.
  unfold start_request. cbn zeta. set (s1 := match wr_timeoutMs w with Some ms => _ | None => _ end).
  destruct (port_send_sends port (FReq id (wr_method w) (wr_params w)) s1) as (ok & Hs & _).
  destruct (port_send _ _ s1) as [[s2 evs] [error|]]; cbn [fst snd] in *; exists ok; [by left|].
  destruct (wr_signal w && aborted) eqn:Ea; [|by left].
  apply andb_true_iff in Ea as [_ ->].
  destruct (trySend_sends port (FCancel id) s2) as [[_ Ht]|[_ [ok' Ht]]].
  - left. rewrite Ht. cbn. by rewrite app_nil_r.
  - right. destruct (trySend _ _ s2) as [s3 evs3]; cbn [snd] in *. exists ok'.
    by rewrite sends_app, Hs, Ht.
Qed.

(** [resumeRequest] settles the promise without sending, or starts the request. *)
Lemma resumeRequest_cases port c aborted s :
  inv s ->
  (resumeRequest port c aborted s).2 = [] \/
  exists w, s_waiting s !! c = Some w /\ s_state s = ready /\
    let s2 := set_requestSequence (s_requestSequence s + 1) (set_waiting (delete c (s_waiting s)) s) in
    fits s (FReq (request_id s) (wr_method w) (wr_params w)) /\
    resumeRequest port c aborted s = start_request port c w aborted (request_id s) s2.
Proof.
  intros H. unfold resumeRequest. destruct (s_waiting s !! c) as [w|]; [|by left].
  destruct (s_ready s) eqn:Er; [by left| |by left].
  set (s1 := set_waiting _ s). destruct (_ && _); [by left|].
  destruct (decide (s_state s1 = closed)) as [Ec|Ec]; [by left|].
  assert (s_state s = ready) as Est.
  { destruct H as [_ Hp]. unfold phase in Hp. cbn in *. destruct (s_state s); [|done..].
    destruct Hp as [Hp _]. congruence. }
  set (s2 := set_requestSequence _ s1).
  destruct (assertFits _ _ s2) as [?|] eqn:Ef; [by left|]. right. exists w.
  split; [done|]. split; [done|]. split; [|done].
  apply assertFits_fits in Ef as (n & Hn & Hle). by exists n.
Qed.

Lemma receiveHello_sends protocol peer caps limits s : sends (receiveHello protocol peer caps limits s).2 = [].
Proof.
  unfold receiveHello. destruct (decide _); [|apply closeNow_sends].
  destruct (negotiate _ _); [done|apply failHandshake_sends].
Qed.

Lemma receive_sends port f s g ok : (g, ok) ∈ sends (receive port f s).2 -> may_send (InFrame f) s g.
Proof.
  unfold receive. destruct (negb _); [set_solver|].
  destruct f; cbn [snd]; try set_solver.
  - rewrite receiveHello_sends. set_solver.
  - destruct (dispatch_cases port id method params s) as [[e ->]|(h & -> & _)]; [|set_solver].
    intros [-> ?]%trySend_sends_elem. cbn. split; [done|]. left; eauto.
  - destruct (decide _); [|set_solver]. cbn [snd]. rewrite (sends_map (fun l => EvEvent l _)); set_solver.
  - destruct (s_active s !! id); set_solver.
  - intros [-> _]%trySend_sends_elem. done.
  - rewrite (sends_map EvPong); set_solver.
  - rewrite teardown_sends. set_solver.
Qed.

Lemma step_may_send port i s f ok :
  inv s -> (f, ok) ∈ sends (step port i s).2 -> may_send i s f.
Proof.
  intros H. destruct i; cbn [step snd]; try set_solver.
  - apply receive_sends.
  - rewrite port_closed_sends. set_solver.
  - destruct (resumeRequest_cases port call aborted s H) as [->|(w & Hw & Hst & Hfit & ->)]; [set_solver|].
    match goal with |- context [start_request port call w aborted ?id ?s2] =>
      destruct (start_request_sends port call w aborted id s2) as (k & [-> | (k' & -> & ->)]) end.
    + intros [-> _]%list_elem_of_singleton%pair_equal_spec. exists call, aborted, w. done.
    + rewrite !elem_of_cons. intros [[-> _]%pair_equal_spec|[[-> _]%pair_equal_spec|?]]; [| |set_solver].
      * exists call, true, w. done.
      * left. eauto.
  - unfold signalAborted. destruct (decide _); [|set_solver]. intros [-> _]%trySend_sends_elem. cbn. auto.
  - unfold requestTimeout. destruct (s_timers s !! id); [|set_solver]. destruct (s_pending s !! id); [|set_solver].
    cbn zeta. match goal with |- context [trySend port (FCancel id) ?s1] =>
      intros Hin; destruct (trySend_sends_elem port (FCancel id) s1 f ok) as [-> _] end; [|cbn; auto].
    by destruct (trySend _ _ _).
  - destruct (s_runs s !! run) as [d|] eqn:Ed; [|unfold handlerSettled; rewrite Ed; set_solver].
    destruct (handlerSettled_cases port run o s d Ed) as (g & Hans & Hfit & ->).
    pose proof (trySend_sends_elem port g s f ok) as Hel. destruct (trySend port g s); cbn [snd] in *.
    intros [-> Hst]%Hel. destruct g; try done; cbn in Hans; subst; cbn.
    + exists run, o, d. repeat split; eauto. unfold fits. eauto.
    + split; [done|right]. exists run, o, d. done.
  - destruct (emit_cases port e s) as [->|(g & Hg & Hst & _ & Hfit & Heq)]; [set_solver|].
    destruct (port_send_sends port g s) as (k & Hs & _). destruct (port_send port g s) as [[s' evs] error].
    rewrite Heq. cbn [fst snd] in *. rewrite Hs. intros [-> _]%list_elem_of_singleton%pair_equal_spec.
    subst g. exists e. done.
  - unfold ping. destruct (port_send_sends port FPing s) as (k & Hs & _). destruct (port_send port FPing s) as [[]].
    cbn in *. rewrite Hs. intros [-> _]%list_elem_of_singleton%pair_equal_spec. cbn. auto.
  - unfold handshakeTimeout. destruct (negb _); [set_solver|]. destruct (decide _); [|set_solver].
    rewrite failHandshake_sends. set_solver.
  - unfold livenessTick. destruct (negb _); [set_solver|]. destruct (decide _); [|set_solver].
    destruct (s_awaitingPong s); [rewrite closeNow_sends; set_solver|]. intros [-> _]%trySend_sends_elem. cbn. auto.
  - rewrite closeNow_sends. set_solver.
  - unfold onClose. destruct (s_closure s); set_solver.
Qed.

(** ** What a step leaves alone *)

Lemma settles_state s s' : settles s s' -> s' = s \/ s_state s' = closed.
Proof. intros H. by destruct (settles_fields _ _ H) as (_ & _ & _ & _ & _ & _ & _ & ?). Qed.

(** The fields that only grow, or are fixed once the handshake is over. *)
Record evolves (s s' : session) : Prop := {
  ev_cfg : s_cfg s' = s_cfg s;
  ev_remote : s_remote s' = s_remote s \/ s_state s = handshaking;
  ev_handshaking : s_state s' = handshaking -> s_state s = handshaking;
  ev_closed : s_state s = closed -> s_state s' = closed /\ s_closure s' = s_closure s;
  ev_nextCall : (s_nextCall s <= s_nextCall s')%nat;
  ev_sequence : s_requestSequence s <= s_requestSequence s';
  ev_calls : forall c r, s_calls s !! c = Some r -> s_calls s' !! c = Some r
}.

Lemma evolves_refl s : evolves s s.
Proof. split; auto; lia. Qed.

Lemma evolves_trans s1 s2 s3 : evolves s1 s2 -> evolves s2 s3 -> evolves s1 s3.
Proof.
  intros [] []. split; [congruence| | | |lia|lia|auto]; [|auto|].
  - destruct ev_remote0, ev_remote1; auto; left; congruence.
  - intros H. destruct (ev_closed0 H) as [H1 H2], (ev_closed1 H1). split; congruence.
Qed.

Lemma settles_evolves s s' : settles s s' -> evolves s s'.
Proof.
  intros [->|[c ->]]; [apply evolves_refl|].
  destruct (decide (s_state s = closed)) as [E|E]; [rewrite teardown_closed by done; apply evolves_refl|].
  destruct (teardown_shape c s E) as (T & A & C & R & -> & _ & _ & HC & _). split; cbn; auto; (done || lia).
Qed.

Lemma settle_call_evolves c r s : evolves s (settle_call c r s).
Proof.
  rewrite settle_call_other. split; cbn; auto; [lia|]. intros k x Hk. rewrite settle_call_lookup. by rewrite Hk.
Qed.

Global Hint Resolve evolves_refl settles_evolves settle_call_evolves : mango.

(** An update of fields [evolves] does not mention. *)
Ltac evolves_update := split; cbn; auto; (done || lia).

Lemma cleanup_evolves id s : evolves s (cleanup id s).
Proof. evolves_update. Qed.

Lemma start_request_evolves port c w aborted id s : evolves s (start_request port c w aborted id s).1.
Proof.
  unfold start_request. cbn zeta. set (s1 := match wr_timeoutMs w with Some ms => _ | None => _ end).
  assert (evolves s s1) as H1 by (subst s1; destruct (wr_timeoutMs w), (wr_signal w); evolves_update).
  pose proof (port_send_settles port (FReq id (wr_method w) (wr_params w)) s1) as Hset.
  destruct (port_send _ _ s1) as [[s2 evs] [error|]]; cbn [fst] in *;
    (eapply evolves_trans; [exact H1|]); (eapply evolves_trans; [apply settles_evolves, Hset|]).
  - eapply evolves_trans; [|apply settle_call_evolves]. evolves_update.
  - destruct (wr_signal w && aborted); [|auto with mango].
    pose proof (trySend_settles port (FCancel id) s2). destruct (trySend _ _ s2). auto with mango.
Qed.

Lemma resumeRequest_evolves port c aborted s : evolves s (resumeRequest port c aborted s).1.
Proof.
  unfold resumeRequest. destruct (s_waiting s !! c) as [w|]; [|auto with mango].
  destruct (s_ready s); cbn [fst]; [auto with mango| |].
  2: { eapply evolves_trans; [|apply settle_call_evolves]. evolves_update. }
  set (s1 := set_waiting _ s). assert (evolves s s1) by evolves_update.
  destruct (_ && _); cbn [fst]; [by eapply evolves_trans, settle_call_evolves|].
  destruct (decide _); cbn [fst]; [by eapply evolves_trans, settle_call_evolves|].
  set (s2 := set_requestSequence _ s1). assert (evolves s s2) by evolves_update.
  destruct (assertFits _ _ s2); cbn [fst]; [by eapply evolves_trans, settle_call_evolves|].
  by eapply evolves_trans, start_request_evolves.
Qed.

Lemma failHandshake_evolves e code reason s : evolves s (failHandshake e code reason s).1.
Proof.
  unfold failHandshake. eapply evolves_trans; [|apply settles_evolves, closeNow_settles].
  unfold reject_ready. destruct (s_ready s); [evolves_update|auto with mango..].
Qed.

Lemma receiveHello_evolves protocol peer caps limits s : evolves s (receiveHello protocol peer caps limits s).1.
Proof.
  unfold receiveHello. destruct (decide _) as [E|]; [|auto with mango].
  destruct (negotiate _ _); [|apply failHandshake_evolves]. cbn [fst].
  unfold resolve_ready, startLiveness; cbn.
  destruct (c_livenessIntervalMs (s_cfg s)); cbn; destruct (s_ready s); split; cbn; auto; (congruence || lia).
Qed.

Lemma settle_evolves id r s : evolves s (settle id r s).
Proof.
  unfold settle. destruct (s_pending s !! id) as [p|]; [|auto with mango].
  eapply evolves_trans; [|apply settle_call_evolves]. evolves_update.
Qed.

Lemma dispatch_evolves port id method params s : evolves s (dispatch port id method params s).1.
Proof.
  destruct (dispatch_cases port id method params s) as [[e ->]|(h & -> & _)]; [apply settles_evolves, trySend_settles|].
  evolves_update.
Qed.

Lemma receive_evolves port f s : evolves s (receive port f s).1.
Proof.
  unfold receive. destruct (negb _); [auto with mango|].
  destruct f; cbn [fst]; auto using receiveHello_evolves, dispatch_evolves, settle_evolves with mango.
  - destruct (decide _); auto with mango.
  - destruct (s_active s !! id); [evolves_update|auto with mango].
  - evolves_update.
  - eapply evolves_trans; [|apply settles_evolves, settles_teardown]. evolves_update.
Qed.

Lemma handlerSettled_evolves port run o s : evolves s (handlerSettled port run o s).1.
Proof.
  destruct (s_runs s !! run) as [d|] eqn:Ed; [|unfold handlerSettled; rewrite Ed; auto with mango].
  destruct (handlerSettled_cases port run o s d Ed) as (f & _ & _ & ->).
  pose proof (trySend_settles port f s) as Hset. destruct (trySend port f s); cbn [fst] in *.
  eapply evolves_trans; [by apply settles_evolves|evolves_update].
Qed.

Lemma emit_evolves port e s : evolves s (emit port e s).1.1.
Proof.
  destruct (emit_cases port e s) as [->|(f & _ & _ & _ & _ & Heq)]; [auto with mango|].
  pose proof (port_send_settles port f s) as Hset. destruct (port_send port f s) as [[s' evs] error].
  rewrite Heq; cbn [fst] in *. eapply evolves_trans; [by apply settles_evolves|].
  destruct error; [auto with mango|]. destruct (ei_end e); evolves_update.
Qed.

Lemma step_evolves port i s : evolves s (step port i s).1.
Proof.
  destruct i; cbn [step fst];
    auto using receive_evolves, resumeRequest_evolves, handlerSettled_evolves, emit_evolves with mango.
  all: try evolves_update.
  - unfold request. destruct (_ || _); cbn [fst]; [|evolves_update].
    eapply evolves_trans; [|apply settle_call_evolves]. evolves_update.
  - unfold signalAborted. destruct (decide _); [|auto with mango].
    eapply evolves_trans; [|apply settles_evolves, trySend_settles]. evolves_update.
  - unfold requestTimeout. destruct (s_timers s !! id); [|auto with mango].
    destruct (s_pending s !! id) as [p|]; [|evolves_update]. cbn zeta.
    set (s1 := cleanup id _). assert (evolves s s1) by evolves_update.
    pose proof (trySend_settles port (FCancel id) s1). destruct (trySend _ _ s1); cbn [fst] in *.
    eapply evolves_trans; [eassumption|]. eapply evolves_trans; [by apply settles_evolves|apply settle_call_evolves].
  - unfold ping. pose proof (port_send_settles port FPing s). destruct (port_send _ _ s) as [[]]. auto with mango.
  - unfold handshakeTimeout. destruct (negb _); [auto with mango|]. destruct (decide _); [|evolves_update].
    eapply evolves_trans; [|apply failHandshake_evolves]. evolves_update.
  - unfold livenessTick. destruct (negb _); [auto with mango|]. destruct (decide _); [|auto with mango].
    destruct (s_awaitingPong s); [auto with mango|].
    eapply evolves_trans; [|apply settles_evolves, trySend_settles]. evolves_update.
  - unfold unhandle. destruct (decide _); [evolves_update|auto with mango].
  - unfold onClose. destruct (s_closure s); [auto with mango|evolves_update].
Qed.

(** ** A closed session *)

(** A step of a closed session: nothing happens but a [ping] the program asks for
    and the notice a late [onClose] gets. *)
Lemma closed_step port i s :
  inv s -> s_state s = closed ->
  match i with
  | InPing => exists ok, (step port i s).2 = [EvSend FPing ok]
  | InOnClose l => exists c, s_closure s = Some c /\ (step port i s).2 = [EvClosed l c]
  | _ => (step port i s).2 = []
  end.
Proof.
  intros H E. pose proof (inv_phase _ _ H) as Hp. unfold phase in Hp. rewrite E in Hp.
  destruct Hp as (P1 & [cl P2] & P3 & P4 & P5 & P6 & P7 & _).
  assert (forall f s0, s_state s0 = closed -> (trySend port f s0).2 = []) as Hts
    by (intros f s0 Hs0; unfold trySend; by rewrite decide_True).
  destruct i; cbn [step snd]; try done.
  - unfold receive. by rewrite P3.
  - unfold port_closed. by rewrite P3.
  - destruct (resumeRequest_cases port call aborted s H) as [->|(w & _ & Hr & _)]; [done|congruence].
  - unfold signalAborted. destruct (decide _); [|done]. by apply Hts.
  - unfold requestTimeout. destruct (s_timers s !! id); [|done]. by rewrite P4, lookup_empty.
  - destruct (s_runs s !! run) as [d|] eqn:Ed; [|unfold handlerSettled; by rewrite Ed].
    destruct (handlerSettled_cases port run o s d Ed) as (f & _ & _ & ->).
    pose proof (Hts f s E). by destruct (trySend port f s).
  - unfold emit. rewrite decide_False by congruence. done.
  - unfold ping, port_send. destruct (reply_closure (port FPing)) as [c|]; [|eauto].
    unfold port_closed. rewrite P3. eauto.
  - unfold handshakeTimeout. destruct (negb _); [done|]. by rewrite decide_False by congruence.
  - unfold livenessTick. by rewrite P6.
  - unfold closeNow. by rewrite decide_True by done.
  - unfold onClose. rewrite P2. eauto.
Qed.

(** C16: a closed session is final and silent. Whatever the port, the peer, a
    timer, a handler or the program does next, the session stays closed with
    the closure it had, and the only effects left are a [ping] the program
    itself asks for and the notice a late [onClose] listener gets. *)
Theorem closed_session_final port i s ins evs :
  reachable s ins evs -> s_state s = closed ->
  s_state (step port i s).1 = closed /\ s_closure (step port i s).1 = s_closure s /\
  match i with
  | InPing => exists ok, (step port i s).2 = [EvSend FPing ok]
  | InOnClose l => exists c, s_closure s = Some c /\ (step port i s).2 = [EvClosed l c]
  | _ => (step port i s).2 = []
  end.
Proof.
  intros H%reachable_inv E. destruct (ev_closed _ _ (step_evolves port i s) E) as [H1 H2].
  split; [done|]. split; [done|]. by apply closed_step.
Qed.

(** ** Promises *)

(** Once [ready] has settled, resuming a waiting caller of a closed session settles it. *)
Lemma resume_closed_settles port c aborted s w :
  inv s -> s_state s = closed -> s_waiting s !! c = Some w ->
  exists f, s_calls (resumeRequest port c aborted s).1 !! c = Some (Rejected f).
Proof.
  intros H E Hw. pose proof (inv_phase _ _ H) as Hp. unfold phase in Hp. rewrite E in Hp.
  destruct Hp as (P1 & _).
  destruct (calls_waiting _ _ (core_calls _ _ (inv_core _ _ H)) _ _ Hw) as (Hn & _ & _).
  assert (forall f s', s_calls s' = s_calls s -> s_calls (settle_call c (Rejected f) s') !! c = Some (Rejected f)) as Hset.
  { intros f s' Hs'. rewrite settle_call_lookup, Hs', Hn, decide_True by done. done. }
  unfold resumeRequest. rewrite Hw. destruct (s_ready s); [done| |eexists; by apply Hset].
  destruct (_ && _); [eexists; by apply Hset|].
  rewrite decide_True by done. eexists; by apply Hset.
Qed.

(** C10: no promise [request] returned is lost. Every one is settled, still awaiting
    [ready], or pending under exactly one id; and once the session has closed,
    each is settled or its next turn rejects it. *)
Theorem requests_never_lost s ins evs c :
  reachable s ins evs -> (c < s_nextCall s)%nat ->
  (is_Some (s_calls s !! c) \/ is_Some (s_waiting s !! c) \/
   exists id p, s_pending s !! id = Some p /\ pr_call p = c /\
     forall id' p', s_pending s !! id' = Some p' -> pr_call p' = c -> id' = id) /\
  (s_state s = closed ->
   is_Some (s_calls s !! c) \/
   forall port aborted, exists f, s_calls (resumeRequest port c aborted s).1 !! c = Some (Rejected f)).
Proof.
  intros H%reachable_inv Hc. pose proof (core_calls _ _ (inv_core _ _ H)) as Hk.
  destruct (calls_total _ _ Hk _ Hc) as [?|[?|[[w Hw]|(id & p & Hp & Hpc)]]]; [done|by auto| |].
  - split; [eauto|]. intros E. right. intros. by eapply resume_closed_settles.
  - split.
    + right; right. exists id, p. split; [done|]. split; [done|]. intros. symmetry.
      eapply (calls_pending_inj _ _ Hk); eauto. congruence.
    + intros E. destruct (inv_closed_empty _ _ H E) as (He & _). by rewrite He, lookup_empty in Hp.
Qed.

(** A promise settles once: no later step changes what it settled with. *)
Theorem settled_promises_stay port i s ins evs c r :
  reachable s ins evs -> s_calls s !! c = Some r -> s_calls (step port i s).1 !! c = Some r.
Proof. intros _ H. by apply (ev_calls _ _ (step_evolves port i s)). Qed.

(** ** Frame sizes *)

Definition limited (f : frame) : Prop :=
  match f with FReq _ _ _ | FRes _ _ | FEvt _ _ _ _ _ => True | _ => False end.

Lemma may_send_limited i s f : may_send i s f -> limited f -> fits s f.
Proof. destruct f; cbn; naive_solver. Qed.

Lemma may_send_handshaking i s f : inv s -> s_state s = handshaking -> may_send i s f -> ~ limited f.
Proof.
  intros H E. pose proof (inv_phase _ _ H) as Hp. unfold phase in Hp. rewrite E in Hp.
  pose proof (runs_held _ (core_runs _ _ (inv_core _ _ H)) ltac:(by rewrite E)) as Hr.
  destruct f; cbn; try tauto.
  { intros (c & a & w & _ & _ & Hst & _). congruence. }
  2: { intros (e & _ & Hst & _). congruence. }
  intros (run & o & d & _ & Hd & _) _. apply Hr in Hd. destruct Hp as (_ & _ & _ & _ & _ & Ha & _).
  by rewrite Ha, lookup_empty in Hd.
Qed.

Lemma startHandshake_sends port s :
  exists ok, sends (startHandshake port s).2 = [(hello_frame s, ok)].
Proof.
  unfold startHandshake. destruct (port_send_sends port (hello_frame s) s) as (ok & Hs & _).
  destruct (port_send _ _ s) as [[s1 evs] [error|]]; cbn [fst snd] in *; [|eauto].
  match goal with |- context [failHandshake ?a ?b ?c s1] => pose proof (failHandshake_sends a b c s1);
    destruct (failHandshake a b c s1) end.
  cbn [snd] in *. exists ok. by rewrite sends_app, Hs, H.
Qed.

Lemma newSession_sends port o ceiling s evs :
  newSession port o ceiling = Ok (s, evs) -> exists protocol peer caps limits ok, sends evs = [(FHello protocol peer caps limits, ok)].
Proof.
  unfold newSession. intros H. apply bind_ok in H as (c & Hc & H). injection H as H.
  destruct (startHandshake_sends port (initial_session c (so_handlers o))) as (ok & Hs).
  rewrite H in Hs. cbn [snd] in Hs. rewrite Hs. eauto 10.
Qed.

(** No request, result or event a session ever hands to its port is larger
    than the lower of both sides' announced frame ceilings. *)
Theorem sent_frames_fit s ins evs :
  reachable s ins evs ->
  (forall f ok, EvSend f ok ∈ evs -> limited f -> exists n, measureFrameBytes f = Ok n /\ n <= sendLimitBytes s) /\
  sendLimitBytes s <= c_localMaxFrameBytes (s_cfg s).
Proof.
  intros H. split; [|unfold sendLimitBytes; lia].
  assert ((forall f ok, (f, ok) ∈ sends evs -> limited f -> fits s f) /\
          (s_state s = handshaking -> forall f ok, (f, ok) ∈ sends evs -> ~ limited f)) as [Hall _].
  2: { intros f ok Hin Hl. apply elem_of_sends in Hin. exact (Hall _ _ Hin Hl). }
  induction H as [port o ceiling s evs H|port i s ins evs s' evs' Hr IH Hs].
  - destruct (newSession_sends _ _ _ _ _ H) as (? & ? & ? & ? & ok & ->). set_solver.
  - apply reachable_inv in Hr. pose proof (step_evolves port i s) as Hev. pose proof (step_may_send port i s) as Hms.
    rewrite Hs in *. cbn [fst snd] in *. destruct IH as [IH1 IH2]. rewrite sends_app. split.
    + assert (forall f, s_state s <> handshaking -> fits s f -> fits s' f) as Hmono.
      { intros f Hne (n & Hn & Hle). exists n. split; [done|]. unfold sendLimitBytes in *.
        rewrite (ev_cfg _ _ Hev). destruct (ev_remote _ _ Hev) as [-> | ?]; done. }
      intros f ok [Hin|Hin]%elem_of_app Hl.
      * apply Hmono; [|eauto]. intros E. by eapply IH2.
      * apply Hmono; [|by eapply may_send_limited; eauto]. intros E. by eapply may_send_handshaking; eauto.
    + intros E%(ev_handshaking _ _ Hev) f ok [Hin|Hin]%elem_of_app; [by eapply IH2|].
      by eapply may_send_handshaking; eauto.
Qed.

(** ** Answers *)

Definition asks (id : jstring) (i : input) : nat :=
  match i with InFrame (FReq i _ _) => if decide (i = id) then 1 else 0 | _ => 0 end.

Definition answers_id (id : jstring) (x : frame * bool) : nat :=
  match x.1 with FRes i _ | FErr i _ => if decide (i = id) then 1 else 0 | _ => 0 end.

(** How often the peer asked under an id, how often this side replied to it (the port took the
    reply or threw), and whether a handler is running for it now. *)
Definition asked (id : jstring) (ins : list input) : nat := sum_list_with (asks id) ins.
Definition replies (id : jstring) (evs : list effect) : nat := sum_list_with (answers_id id) (sends evs).
Definition running (id : jstring) (s : session) : nat := match s_active s !! id with Some _ => 1 | None => 0 end.

(** The replies the port took, and those whose [send] threw, which the session drops *)
Definition answered (id : jstring) (evs : list effect) : nat := sum_list_with (answers_id id) (List.filter snd (sends evs)).
Definition dropped (id : jstring) (evs : list effect) : nat := sum_list_with (answers_id id) (List.filter (fun x => negb x.2) (sends evs)).

Lemma replies_split id evs : replies id evs = (answered id evs + dropped id evs)%nat.
Proof. unfold replies, answered, dropped. induction (sends evs) as [|[f []] l IH]; cbn; lia. Qed.

Lemma replies_app id a b : replies id (a ++ b) = (replies id a + replies id b)%nat.
Proof. unfold replies. by rewrite sends_app, sum_list_with_app. Qed.

Lemma replies_none id evs : sends evs = [] -> replies id evs = 0%nat.
Proof. unfold replies. by intros ->. Qed.

Lemma replies_one id evs f ok : sends evs = [(f, ok)] -> replies id evs = answers_id id (f, ok).
Proof. unfold replies. intros ->. cbn. lia. Qed.

Lemma inv_open_attached s : inv s -> s_state s <> closed -> s_attached s = true.
Proof. intros [_ Hp] E. unfold phase in Hp. destruct (s_state s); naive_solver. Qed.

(** The bookkeeping of handlers, events and liveness, which most inputs leave alone. *)
Record same (s s' : session) : Prop := {
  same_active : s_active s' = s_active s;
  same_sequences : s_eventSequences s' = s_eventSequences s;
  same_pong : s_awaitingPong s' = s_awaitingPong s;
  same_liveness : s_livenessTimer s' = s_livenessTimer s;
  same_handshake : s_handshakeTimer s' = s_handshakeTimer s;
  same_state : s_state s' = s_state s
}.

Lemma same_refl s : same s s.
Proof. done. Qed.

Lemma same_trans s1 s2 s3 : same s1 s2 -> same s2 s3 -> same s1 s3.
Proof. intros [] []. split; congruence. Qed.

Lemma settle_call_same c r s : same s (settle_call c r s).
Proof. by rewrite settle_call_other. Qed.

Lemma settle_call_state c r s : s_state (settle_call c r s) = s_state s.
Proof. by rewrite settle_call_other. Qed.

Lemma settles_open s s' : settles s s' -> s_state s' <> closed -> s' = s.
Proof. intros H E. by destruct (settles_state _ _ H). Qed.

Lemma settles_same s0 s1 s : settles s0 s1 -> same s s0 -> s_state s1 <> closed -> same s s1.
Proof. intros H Hs Ho. by rewrite (settles_open _ _ H Ho). Qed.

Lemma start_request_same port c w aborted id s :
  s_state (start_request port c w aborted id s).1 <> closed -> same s (start_request port c w aborted id s).1.
Proof.
  unfold start_request. cbn zeta. set (s1 := match wr_timeoutMs w with Some ms => _ | None => _ end).
  assert (same s s1) as H1 by (subst s1; by destruct (wr_timeoutMs w), (wr_signal w)).
  pose proof (port_send_settles port (FReq id (wr_method w) (wr_params w)) s1) as Hset.
  destruct (port_send _ _ s1) as [[s2 evs] [error|]]; cbn [fst] in *.
  - rewrite settle_call_state. cbn. intros Ho. eapply same_trans; [|apply settle_call_same].
    pose proof (settles_open _ _ Hset Ho) as ->. eapply same_trans; [exact H1|done].
  - destruct (wr_signal w && aborted); cbn [fst]; [|by apply settles_same with s1].
    pose proof (trySend_settles port (FCancel id) s2) as Hset2. destruct (trySend _ _ s2) as [s3 evs3]; cbn [fst] in *.
    intros Ho. pose proof (settles_open _ _ Hset2 Ho) as ->. by apply settles_same with s1.
Qed.

Lemma resumeRequest_same port c aborted s :
  s_state (resumeRequest port c aborted s).1 <> closed -> same s (resumeRequest port c aborted s).1.
Proof.
  assert (forall v r, same s (settle_call c r (set_waiting v s))) as Hw
    by (intros; eapply same_trans; [|apply settle_call_same]; done).
  unfold resumeRequest. destruct (s_waiting s !! c) as [w|]; [|done].
  destruct (s_ready s); cbn [fst]; [done| |done].
  destruct (_ && _); cbn [fst]; [done|]. destruct (decide _); cbn [fst]; [done|].
  destruct (assertFits _ _ _); cbn [fst].
  - intros _. eapply same_trans; [|apply settle_call_same]. done.
  - intros Ho. apply start_request_same in Ho. eapply same_trans; [|exact Ho]. done.
Qed.

Lemma settle_same id r s : same s (settle id r s).
Proof.
  unfold settle. destruct (s_pending s !! id); [|done]. eapply same_trans; [|apply settle_call_same]. done.
Qed.

Lemma failHandshake_closes e code reason s : s_state (failHandshake e code reason s).1 = closed.
Proof.
  unfold failHandshake, closeNow. destruct (decide _); [done|].
  destruct (teardown_shape (closure_of code (Some reason)) (reject_ready e s) ltac:(done)) as (T & A & C & R & E & _).
  destruct (teardown _ _); cbn [fst] in *. by rewrite E.
Qed.

(** The inputs with business of their own. *)
Definition busy (i : input) : Prop :=
  match i with
  | InFrame (FReq _ _ _) | InFrame (FHello _ _ _ _) | InFrame FPong
  | InHandlerSettled _ _ | InEmit _ | InLivenessTick | InHandshakeTimeout => True
  | _ => False
  end.

Lemma step_same port i s : ~ busy i -> s_state (step port i s).1 <> closed -> same s (step port i s).1.
Proof.
  intros Hm. destruct i as [[]| | | | | | | | | | | | | | | | | | |]; cbn [step fst];
    try (cbn in Hm; tauto); try (eapply settles_same; [|done]; auto with mango; fail);
    try done; try (unfold receive; destruct (negb _); [done|]); cbn [fst].
  - intros _. apply settle_same.
  - intros _. apply settle_same.
  - by destruct (decide _).
  - by destruct (s_active s !! id).
  - eapply settles_same; [apply trySend_settles|done].
  - eapply settles_same; [apply settles_teardown|done].
  - unfold request. destruct (_ || _); cbn [fst]; [|done]. intros _. eapply same_trans; [|apply settle_call_same]. done.
  - apply resumeRequest_same.
  - unfold signalAborted. destruct (decide _); [|done]. eapply settles_same; [apply trySend_settles|done].
  - unfold requestTimeout. destruct (s_timers s !! id); [|done]. destruct (s_pending s !! id); [|done]. cbn zeta.
    match goal with |- context [trySend port (FCancel id) ?s1] => pose proof (trySend_settles port (FCancel id) s1);
      destruct (trySend port (FCancel id) s1) end.
    cbn [fst] in *. rewrite settle_call_state. intros Ho. eapply same_trans; [|apply settle_call_same].
    by eapply settles_same.
  - unfold ping. pose proof (port_send_settles port FPing s). destruct (port_send _ _ s) as [[]]. by eapply settles_same.
  - unfold unhandle. by destruct (decide _).
  - unfold onClose. by destruct (s_closure s).
Qed.

(** What the inputs with business of their own leave of the rest, while the session stays open. *)
Lemma hello_open port protocol peer caps limits s :
  s_state (step port (InFrame (FHello protocol peer caps limits)) s).1 <> closed ->
  let s' := (step port (InFrame (FHello protocol peer caps limits)) s).1 in
  s_active s' = s_active s /\ s_eventSequences s' = s_eventSequences s /\
  s_awaitingPong s' = s_awaitingPong s /\ s_handshakeTimer s' = s_handshakeTimer s \/
  s_state s = handshaking /\ s_state s' = ready /\
  s_active s' = s_active s /\ s_eventSequences s' = s_eventSequences s.
Proof.
  cbn [step fst]. unfold receive. destruct (negb _); [by left|].
  unfold receiveHello. destruct (decide _) as [E|E].
  - destruct (negotiate _ _); [|by rewrite failHandshake_closes]. intros _. right. cbn.
    unfold resolve_ready, startLiveness; cbn. by destruct (c_livenessIntervalMs _); cbn; destruct (s_ready s).
  - intros Ho. left. rewrite (settles_open _ _ (closeNow_settles _ _ s) Ho). done.
Qed.

Lemma handshakeTimeout_open s :
  s_state (handshakeTimeout s).1 <> closed ->
  (s_handshakeTimer s = false /\ (handshakeTimeout s).1 = s) \/
  s_state s <> handshaking /\ (handshakeTimeout s).1 = set_handshakeTimer false s.
Proof.
  unfold handshakeTimeout. destruct (s_handshakeTimer s); cbn; [|by left].
  destruct (decide _); [by rewrite failHandshake_closes|]. by right.
Qed.

Lemma livenessTick_open port s :
  s_state (livenessTick port s).1 <> closed ->
  (livenessTick port s).1 = s \/
  s_livenessTimer s = true /\ s_state s = ready /\ s_awaitingPong s = false /\
  (livenessTick port s).1 = set_awaitingPong true s.
Proof.
  unfold livenessTick. destruct (s_livenessTimer s); cbn; [|by left].
  destruct (decide _) as [E|]; [|by left]. destruct (s_awaitingPong s).
  - intros Ho. left. apply (settles_open _ _ (closeNow_settles _ _ s) Ho).
  - intros Ho. right. rewrite (settles_open _ _ (trySend_settles _ _ _) Ho). done.
Qed.

(** A session just built and still open is waiting for the peer's hello. *)
Lemma newSession_open port o ceiling s evs :
  newSession port o ceiling = Ok (s, evs) -> s_state s <> closed ->
  exists c handlers, s = set_handshakeTimer true (initial_session c handlers).
Proof.
  unfold newSession. intros H. apply bind_ok in H as (c & Hc & H). injection H as H.
  set (s0 := initial_session _ _) in *. pose proof (port_send_settles port (hello_frame s0) s0) as Hset.
  unfold startHandshake in H. destruct (port_send _ _ s0) as [[s1 evs1] [error|]]; cbn [fst] in *.
  - match type of H with context [failHandshake ?a ?b ?r s1] =>
      pose proof (failHandshake_closes a b r s1) as Hcl; destruct (failHandshake a b r s1) end.
    injection H as <- <-. done.
  - injection H as <- <-. cbn. intros Ho. rewrite (settles_open _ _ Hset Ho). by eexists _, _.
Qed.

(** The closed state is entered before a step only if it was there before. *)
Lemma step_open port i s : s_state (step port i s).1 <> closed -> s_state s <> closed.
Proof. intros H E. apply H. by apply (ev_closed _ _ (step_evolves port i s) E). Qed.

(** The frames of a step that is no answer. *)
Lemma not_answered port i s id :
  inv s -> (forall f ok, (f, ok) ∈ sends (step port i s).2 -> answers_id id (f, ok) = 0%nat) ->
  replies id (step port i s).2 = 0%nat.
Proof.
  intros _ H. unfold replies. induction (sends _) as [|[f ok] l IH]; [done|]. cbn. rewrite H by left.
  rewrite IH; [done|]. intros. apply H. by right.
Qed.

Lemma dispatch_ledger port rid m p s id :
  inv s -> s_state (dispatch port rid m p s).1 <> closed ->
  ((if decide (rid = id) then 1 else 0) + running id s =
   replies id (dispatch port rid m p s).2 + running id (dispatch port rid m p s).1)%nat.
Proof.
  intros H Ho. destruct (dispatch_cases port rid m p s) as [[e E]|(h & E & Hst & Ha & _)]; rewrite E in *.
  - unfold respondError in *. destruct (trySend_sends port (FErr rid e) s) as [[Hc Ht]|[_ [ok Ht]]].
    + rewrite Ht in Ho. done.
    + rewrite (replies_one _ _ _ _ Ht). rewrite (settles_open _ _ (trySend_settles _ _ _) Ho). done.
  - cbn [fst snd]. unfold running, replies. cbn. destruct (decide (rid = id)) as [<-|].
    + by rewrite Ha, lookup_insert_eq.
    + by rewrite lookup_insert_ne by congruence.
Qed.

Lemma handler_ledger port run o s id :
  inv s -> s_state (handlerSettled port run o s).1 <> closed ->
  running id s = (replies id (handlerSettled port run o s).2 + running id (handlerSettled port run o s).1)%nat.
Proof.
  intros H Ho. destruct (s_runs s !! run) as [d|] eqn:Ed; [|unfold handlerSettled in *; by rewrite Ed in *].
  destruct (handlerSettled_cases port run o s d Ed) as (f & Hans & _ & E). rewrite E in *.
  pose proof (trySend_settles port f s) as Hset. pose proof (trySend_sends port f s) as Hsend.
  destruct (trySend port f s) as [s' evs]; cbn [fst snd] in *.
  pose proof (settles_open _ _ Hset Ho) as ->. cbn in Ho.
  destruct Hsend as [[? _]|[_ [ok Hs]]]; [done|]. rewrite (replies_one _ _ _ _ Hs).
  pose proof (runs_held _ (core_runs _ _ (inv_core _ _ H)) Ho _ _ Ed) as Hact.
  unfold running; cbn. unfold answers_id; cbn.
  destruct f; try done; cbn in Hans; subst;
    (destruct (decide (dr_id d = id)) as [<-|]; [by rewrite Hact, lookup_delete_eq|by rewrite lookup_delete_ne]).
Qed.

Lemma step_ledger port i s id :
  inv s -> s_state (step port i s).1 <> closed ->
  (asks id i + running id s = replies id (step port i s).2 + running id (step port i s).1)%nat.
Proof.
  intros H Ho. pose proof (step_open _ _ _ Ho) as Hs.
  assert (s_active (step port i s).1 = s_active s ->
          (forall f ok, may_send i s f -> answers_id id (f, ok) = 0%nat) -> asks id i = 0%nat ->
          (asks id i + running id s = replies id (step port i s).2 + running id (step port i s).1)%nat) as Hquiet.
  { intros Ha Hf ->. rewrite not_answered by eauto using step_may_send. unfold running. by rewrite Ha. }
  destruct (match i with InFrame (FReq _ _ _) | InHandlerSettled _ _ => true | _ => false end) eqn:E.
  { destruct i as [[]| | | | | | | | | | | | | | | | | | |]; try done; cbn [step asks] in *.
    - unfold receive in *. rewrite (inv_open_attached s H Hs) in *. cbn [negb] in *. by apply dispatch_ledger.
    - by apply handler_ledger. }
  apply Hquiet.
  - destruct i as [[]| | | | | | | | | | | | | | | | | | |]; try done;
      try (apply step_same; [cbn; tauto|done]).
    + pose proof (hello_open _ _ _ _ _ _ Ho). naive_solver.
    + cbn. unfold receive. by destruct (negb _).
    + cbn [step fst] in *. destruct (emit_cases port e s) as [->|(f & _ & _ & _ & _ & Heq)]; [done|].
      pose proof (port_send_settles port f s) as Hset. destruct (port_send port f s) as [[s' evs] error].
      rewrite Heq in *. cbn [fst] in *.
      assert (s' = s) as ->; [|by destruct error, (ei_end e)].
      eapply settles_open; [done|]. by destruct error, (ei_end e).
    + cbn [step fst] in *. destruct (handshakeTimeout_open _ Ho) as [[_ ->]|[_ ->]]; done.
    + cbn [step fst] in *. destruct (livenessTick_open _ _ Ho) as [->|(_ & _ & _ & ->)]; done.
  - intros f ok Hm. unfold answers_id; cbn. destruct f; try done; cbn in Hm; exfalso.
    + destruct Hm as (run & o & d & -> & _). done.
    + destruct Hm as [_ [(m & p & ->)|(run & o & d & -> & _)]]; done.
  - destruct i as [[]| | | | | | | | | | | | | | | | | | |]; done.
Qed.

(** Every request is replied to once: the ledger of one id *)
Lemma requests_ledger s ins evs id :
  reachable s ins evs -> s_state s <> closed -> asked id ins = (replies id evs + running id s)%nat.
Proof.
  induction 1 as [port o ceiling s evs H|port i s ins evs s' evs' Hr IH Hs]; intros Ho.
  - destruct (newSession_sends _ _ _ _ _ H) as (? & ? & ? & ? & ok & Hsd).
    rewrite (replies_one _ _ _ _ Hsd). destruct (newSession_open _ _ _ _ _ H Ho) as (c & h & ->). done.
  - apply reachable_inv in Hr. pose proof (step_ledger port i s id Hr) as Hl. pose proof (step_open port i s) as Hop.
    rewrite Hs in *. cbn [fst snd] in *. specialize (Hl Ho). specialize (IH (Hop Ho)).
    unfold asked in *. rewrite sum_list_with_app, replies_app. cbn. lia.
Qed.

(** C1: while the session is open, the peer's requests are answered once each. For every id, the requests received under it are
    the [res] and [err] frames the port took with it, plus the one handler running for it, if any, plus the replies with it
    whose [send] threw: those the session drops, and their requests stay unanswered. So no request is answered twice, and when
    the port took every reply with the id, each request with it is answered or has its handler still running. *)
Theorem requests_answered_once s ins evs id :
  reachable s ins evs -> s_state s <> closed ->
  asked id ins = (answered id evs + dropped id evs + running id s)%nat
  /\ ((forall f ok, (f, ok) ∈ sends evs -> answers_id id (f, ok) = 1%nat -> ok = true) -> asked id ins = (answered id evs + running id s)%nat).
Proof.
  intros Hr Ho. pose proof (requests_ledger s ins evs id Hr Ho) as H. rewrite replies_split in H. split; [lia|]. intros Hok.
  enough (dropped id evs = 0%nat) by lia. unfold dropped. clear -Hok. induction (sends evs) as [|[f ok] l IH]; [done|].
  assert (sum_list_with (answers_id id) (List.filter (fun x => negb x.2) l) = 0%nat) as E by (apply IH; intros g o Hg; apply Hok; by right).
  destruct ok; cbn; [done|]. assert (answers_id id (f, false) <> 1%nat) as Hn by (intros H1; by specialize (Hok f false ltac:(left) H1)).
  unfold answers_id in *. cbn in *. destruct f; try done; by destruct (decide _).
Qed.
