(* ===== verification/SessionLife.v ===== *)
(** * The life of a session

    Numbering of events and of requests, the two deadlines (handshake and
    liveness), the cancellation of handlers when the session ends, what an answer
    or a timeout does to its request, and the agreement two sessions reach by
    exchanging hellos. *)

From S2P Require Import Prelude Utf8 Regex Json JsonFacts Wire Frames Ndjson Listeners Session SessionFacts SessionTrace.

(** ** Events

    The reference: one counter per stream key, starting at zero, advanced by
    every event that was sent and dropped by the one that ends the stream. *)

Definition event_key (topic : jstring) (streamId : option jstring) : jstring := default topic streamId.

Definition publish (m : gmap jstring Z) (key : jstring) (last : bool) : gmap jstring Z :=
  if last then delete key m else <[key := default 0 (m !! key) + 1]> m.

Definition count_event (m : gmap jstring Z) (x : frame * bool) : gmap jstring Z :=
  match x with
  | (FEvt topic _ streamId _ last, true) => publish m (event_key topic streamId) last
  | _ => m
  end.

Definition counters (m : gmap jstring Z) (l : list (frame * bool)) : gmap jstring Z := fold_left count_event l m.

(** Every event carries the number its key has reached. *)
Fixpoint numbered (m : gmap jstring Z) (l : list (frame * bool)) : Prop :=
  match l with
  | [] => True
  | x :: rest =>
      match x.1 with
      | FEvt topic seq streamId _ _ => seq = default 0 (m !! event_key topic streamId)
      | _ => True
      end /\ numbered (count_event m x) rest
  end.

Lemma numbered_app m a b : numbered m (a ++ b) <-> numbered m a /\ numbered (counters m a) b.
Proof. revert m; induction a as [|x a IH]; intros m; cbn; [tauto|]. rewrite IH. tauto. Qed.

Definition is_event (f : frame) : Prop := match f with FEvt _ _ _ _ _ => True | _ => False end.

Lemma no_events m l : (forall f ok, (f, ok) ∈ l -> ~ is_event f) -> counters m l = m /\ numbered m l.
Proof.
  revert m; induction l as [|[f ok] l IH]; intros m H; [done|].
  unfold counters in *; cbn [fold_left numbered fst].
  assert (count_event m (f, ok) = m) as Hc by (specialize (H f ok ltac:(left)); by destruct f).
  rewrite Hc. destruct (IH m) as [H1 H2]; [intros; eapply H; by right|].
  split; [done|]. split; [|done]. specialize (H f ok ltac:(left)). by destruct f.
Qed.

Lemma step_sequences port i s :
  (forall e, i <> InEmit e) -> s_state (step port i s).1 <> closed ->
  s_eventSequences (step port i s).1 = s_eventSequences s.
Proof.
  intros Hne Ho. destruct i as [[]| | | | | | | | | | | | | | | | | | |];
    try (apply step_same; [cbn; tauto|done]).
  - pose proof (hello_open _ _ _ _ _ _ Ho). naive_solver.
  - cbn [step fst] in *. unfold receive in *. destruct (negb _); [done|].
    destruct (dispatch_cases port id method params s) as [[e E]|(h & -> & _)]; [|done].
    rewrite E in *. unfold respondError in *. by rewrite (settles_open _ _ (trySend_settles _ _ _) Ho).
  - cbn. unfold receive. by destruct (negb _).
  - cbn [step fst] in *. destruct (s_runs s !! run) as [d|] eqn:Ed; [|unfold handlerSettled; by rewrite Ed].
    destruct (handlerSettled_cases port run o s d Ed) as (f & _ & _ & E). rewrite E in *.
    pose proof (trySend_settles port f s) as Hset. destruct (trySend port f s); cbn [fst] in *.
    by rewrite (settles_open _ _ Hset Ho).
  - by destruct (Hne e).
  - cbn [step fst] in *. destruct (handshakeTimeout_open _ Ho) as [[_ ->]|[_ ->]]; done.
  - cbn [step fst] in *. destruct (livenessTick_open _ _ Ho) as [->|(_ & _ & _ & ->)]; done.
Qed.

(** One [emit] against the reference counters. *)
Lemma emit_numbered port e s :
  numbered (s_eventSequences s) (sends (step port (InEmit e) s).2) /\
  (s_state (step port (InEmit e) s).1 <> closed ->
   s_eventSequences (step port (InEmit e) s).1 =
   counters (s_eventSequences s) (sends (step port (InEmit e) s).2)).
Proof.
  cbn [step]. destruct (emit_cases port e s) as [->|(f & Hf & Hst & _ & _ & Heq)]; [done|].
  pose proof (port_send_settles port f s) as Hset. destruct (port_send_sends port f s) as (ok & Hs & Hok).
  destruct (port_send port f s) as [[s' evs] error]. rewrite Heq. cbn [fst snd] in *. rewrite Hs. subst f. split.
  - done.
  - intros Ho. assert (s' = s) as -> by (eapply settles_open; [done|]; by destruct error, (ei_end e)).
    cbn. subst ok. by destruct error, (ei_end e).
Qed.

(** Events are numbered per stream key without gap or repetition. Each event
    handed to the port carries the number of events its key published before it
    since the key was last ended, an event the port refused by throwing is not
    counted, and the open session's counters are exactly these. *)
Theorem events_numbered s ins evs :
  reachable s ins evs ->
  numbered ∅ (sends evs) /\ (s_state s <> closed -> s_eventSequences s = counters ∅ (sends evs)).
Proof.
  induction 1 as [port o ceiling s evs H|port i s ins evs s' evs' Hr IH Hs].
  - destruct (newSession_sends _ _ _ _ _ H) as (? & ? & ? & ? & ok & ->). split; [done|].
    intros Ho. by destruct (newSession_open _ _ _ _ _ H Ho) as (c & h & ->).
  - apply reachable_inv in Hr. pose proof (step_open port i s) as Hop. pose proof (step_may_send port i s) as Hms.
    destruct IH as [IH1 IH2]. rewrite sends_app. unfold counters at 1. rewrite numbered_app, fold_left_app.
    destruct (match i with InEmit _ => true | _ => false end) eqn:Ei.
    + destruct i; try done. pose proof (emit_numbered port e s) as [Hn Hc]. rewrite Hs in *. cbn [fst snd] in *.
      destruct (decide (s_state s = closed)) as [Ec|Ec].
      * pose proof (closed_step port (InEmit e) s Hr Ec) as Hcl.
        change ((step port (InEmit e) s).2 = []) in Hcl.
        assert (s_state s' = closed) as Hc'.
        { pose proof (ev_closed _ _ (step_evolves port (InEmit e) s) Ec) as [H _]. by rewrite Hs in H. }
        rewrite Hs in Hcl. cbn in Hcl. subst. split; [split; done|]. by rewrite Hc'.
      * rewrite (IH2 Ec) in *. auto.
    + assert (forall f ok, (f, ok) ∈ sends evs' -> ~ is_event f) as Hno.
      { intros f ok Hin Hf. rewrite Hs in Hms. specialize (Hms _ _ Hr Hin). destruct f; try done.
        destruct Hms as (e & -> & _). done. }
      destruct (no_events (counters ∅ (sends evs)) _ Hno) as [Hc Hn]. split; [done|].
      intros Ho. change (s_eventSequences s' = counters (counters ∅ (sends evs)) (sends evs')). rewrite Hc.
      rewrite Hs in Hop. rewrite <- (IH2 (Hop Ho)).
      assert (s' = (step port i s).1) as -> by (by rewrite Hs). apply step_sequences; [|by rewrite Hs].
      intros e ->. done.
Qed.

(** ** Request ids *)

Definition request_ids (l : list (frame * bool)) : list jstring :=
  omap (fun x => match x.1 with FReq id _ _ => Some id | _ => None end) l.

Lemma request_ids_none l : (forall f ok, (f, ok) ∈ l -> match f with FReq _ _ _ => False | _ => True end) -> request_ids l = [].
Proof.
  induction l as [|[f ok] l IH]; [done|]. intros H. cbn.
  specialize (IH ltac:(intros; eapply H; by right)). specialize (H f ok ltac:(left)). by destruct f.
Qed.

Lemma settle_call_sequence c r s : s_requestSequence (settle_call c r s) = s_requestSequence s.
Proof. by rewrite settle_call_other. Qed.

Lemma start_request_sequence port c w aborted id s :
  s_requestSequence (start_request port c w aborted id s).1 = s_requestSequence s.
Proof.
  unfold start_request. cbn zeta. set (s1 := match wr_timeoutMs w with Some ms => _ | None => _ end).
  assert (s_requestSequence s1 = s_requestSequence s) as H1 by (subst s1; by destruct (wr_timeoutMs w), (wr_signal w)).
  pose proof (settles_fields _ _ (port_send_settles port (FReq id (wr_method w) (wr_params w)) s1)) as (_ & _ & _ & _ & _ & E & _).
  destruct (port_send _ _ s1) as [[s2 evs] [error|]]; cbn [fst] in *.
  - rewrite settle_call_sequence. cbn. congruence.
  - destruct (wr_signal w && aborted); cbn [fst]; [|congruence].
    pose proof (settles_fields _ _ (trySend_settles port (FCancel id) s2)) as (_ & _ & _ & _ & _ & E2 & _).
    destruct (trySend _ _ s2); cbn [fst] in *. congruence.
Qed.

(** The ids a step sends: none, or the next one, which is then counted. *)
Lemma step_request_ids port i s :
  inv s ->
  request_ids (sends (step port i s).2) = [] \/
  request_ids (sends (step port i s).2) = [request_id s] /\
  s_requestSequence (step port i s).1 = s_requestSequence s + 1.
Proof.
  intros H. destruct (match i with InResume _ _ => true | _ => false end) eqn:Ei.
  - destruct i; try done. cbn [step].
    destruct (resumeRequest_cases port call aborted s H) as [->|(w & _ & _ & _ & ->)]; [by left|right].
    rewrite start_request_sequence. split; [|done].
    match goal with |- context [start_request port call w aborted ?id ?s2] =>
      destruct (start_request_sends port call w aborted id s2) as (k & [-> | (k' & -> & _)]) end; done.
  - left. apply request_ids_none. intros f ok Hin. apply (step_may_send port i s) in Hin; [|done].
    destruct f; try done. destruct Hin as (c & a & w & -> & _). done.
Qed.

Lemma own_id_mono s s' id : evolves s s' -> own_id s id -> own_id s' id.
Proof.
  intros [] (k & Hk & ->). exists k. split; [lia|]. by rewrite ev_cfg.
Qed.

(** A session never reuses a request id: the ids of the requests it sent are
    pairwise different, each its prefix and a number it has counted to. *)
Theorem request_ids_unique s ins evs :
  reachable s ins evs ->
  NoDup (request_ids (sends evs)) /\ forall id, id ∈ request_ids (sends evs) -> own_id s id.
Proof.
  induction 1 as [port o ceiling s evs H|port i s ins evs s' evs' Hr [IH1 IH2] Hs].
  - destruct (newSession_sends _ _ _ _ _ H) as (? & ? & ? & ? & ok & ->). split; [constructor|set_solver].
  - apply reachable_inv in Hr. pose proof (step_evolves port i s) as Hev. pose proof (step_request_ids port i s Hr) as Hid.
    rewrite Hs in *. cbn [fst snd] in *. rewrite sends_app. unfold request_ids. rewrite omap_app.
    change (NoDup (request_ids (sends evs) ++ request_ids (sends evs')) /\
      forall id, id ∈ request_ids (sends evs) ++ request_ids (sends evs') -> own_id s' id).
    destruct Hid as [->|[-> Hseq]].
    + rewrite app_nil_r. split; [done|]. eauto using own_id_mono.
    + pose proof (core_sequence _ _ (inv_core _ _ Hr)) as H0.
      split.
      * apply NoDup_app. split; [done|]. split; [|apply NoDup_singleton].
        intros id Hin%IH2 ->%list_elem_of_singleton. by apply (request_id_fresh s).
      * intros id [Hin| ->%list_elem_of_singleton]%elem_of_app; [eauto using own_id_mono|].
        exists (s_requestSequence s + 1). rewrite (ev_cfg _ _ Hev). split; [lia|done].
Qed.

(** ** The end of a session *)

(** Closing a session aborts the signal of every handler it was running, holds
    no request, and leaves [ready] settled and the reason recorded. *)
Theorem closing_releases s ins evs :
  reachable s ins evs -> s_state s = closed ->
  (forall run d, s_runs s !! run = Some d -> dr_aborted d = true) /\
  s_pending s = ∅ /\ s_active s = ∅ /\ s_timers s = ∅ /\ s_abortListeners s = ∅ /\
  s_livenessTimer s = false /\ s_attached s = false /\ s_closeListeners s = [] /\
  s_ready s <> ReadyPending /\ is_Some (s_closure s).
Proof.
  intros H%reachable_inv E. pose proof (inv_phase _ _ H) as Hp. unfold phase in Hp. rewrite E in Hp.
  destruct Hp as (P1 & P2 & P3 & P4 & P5 & P6 & P7 & P8).
  pose proof (core_calls _ _ (inv_core _ _ H)) as Hk.
  repeat split; try done.
  - apply map_empty. intros id. destruct (s_timers s !! id) eqn:Et; [|done]. exfalso.
    destruct (calls_timers _ _ Hk id) as [p Hpe]; [by eexists|]. by rewrite P4, lookup_empty in Hpe.
  - apply set_eq. intros id. split; [|set_solver]. intros Hin.
    destruct (calls_aborts _ _ Hk id Hin) as [p Hpe]. by rewrite P4, lookup_empty in Hpe.
Qed.

(** [close] has its answer: after [closeNow] the closure is recorded, so the
    promise of [close] never falls back to the code it was called with. *)
Theorem closeNow_records_closure code reason s ins evs :
  reachable s ins evs ->
  s_state (closeNow code reason s).1 = closed /\
  s_closure (closeNow code reason s).1 = Some (close_result code reason (closeNow code reason s).1) /\
  (s_state s <> closed -> close_result code reason (closeNow code reason s).1 = closure_of code reason /\
     head (closeNow code reason s).2 = Some (EvPortClose code reason)).
Proof.
  intros H%reachable_inv. unfold closeNow. destruct (decide _) as [E|E]; cbn [fst].
  - destruct (inv_closed_empty _ _ H E) as (_ & _ & [c Hc]). unfold close_result. by rewrite Hc.
  - destruct (teardown_shape (closure_of code reason) s E) as (T & A & C & R & Hs & _).
    destruct (teardown _ s); cbn [fst] in *. subst. done.
Qed.

(** ** Deadlines *)

Lemma handshaking_armed s ins evs : reachable s ins evs -> s_state s = handshaking -> s_handshakeTimer s = true.
Proof.
  induction 1 as [port o ceiling s evs H|port i s ins evs s' evs' Hr IH Hs]; intros E.
  - destruct (newSession_open _ _ _ _ _ H) as (c & h & ->); [by rewrite E|done].
  - pose proof (ev_handshaking _ _ (step_evolves port i s)) as Hh. rewrite Hs in Hh. cbn [fst] in Hh.
    specialize (IH (Hh E)). assert (s' = (step port i s).1) as Hs' by (by rewrite Hs).
    assert (s_state (step port i s).1 <> closed) as Ho by (by rewrite <- Hs', E).
    assert (~ busy i -> s_handshakeTimer s' = true) as Hq
      by (intros Hb; rewrite Hs'; destruct (step_same port i s Hb Ho); congruence).
    destruct i as [[]| | | | | | | | | | | | | | | | | | |]; try (apply Hq; cbn; tauto).
    + rewrite Hs'. pose proof (hello_open _ _ _ _ _ _ Ho) as [(_ & _ & _ & ->)|(_ & Hrd & _)]; [done|congruence].
    + rewrite Hs'. cbn [step] in *. unfold receive in *. destruct (negb _); [done|].
      destruct (dispatch_cases port id method params s) as [[e Ed]|(h & -> & _)]; [|done].
      rewrite Ed in *. unfold respondError in *. by rewrite (settles_open _ _ (trySend_settles _ _ _) Ho).
    + rewrite Hs'. cbn. unfold receive. by destruct (negb _).
    + rewrite Hs'. cbn [step] in *. destruct (s_runs s !! run) as [d|] eqn:Ed; [|unfold handlerSettled; by rewrite Ed].
      destruct (handlerSettled_cases port run o s d Ed) as (f & _ & _ & Eq). rewrite Eq in *.
      pose proof (trySend_settles port f s) as Hset. destruct (trySend port f s); cbn [fst] in *.
      by rewrite (settles_open _ _ Hset Ho).
    + rewrite Hs'. cbn [step fst]. unfold emit. rewrite decide_False; [done|]. by rewrite (Hh E).
    + cbn [step] in *. destruct (handshakeTimeout_open _ Ho) as [[Hf _]|[Hf _]]; [congruence|]. destruct (Hf (Hh E)).
    + rewrite Hs'. cbn [step] in *. destruct (livenessTick_open _ _ Ho) as [->|(_ & Hrd & _)]; [done|].
      rewrite (Hh E) in Hrd. done.
Qed.

(** A handshake cannot hang. A session still handshaking has its deadline armed,
    and when the deadline passes the transport is closed with 4400
    [handshake timeout], [ready] rejects and the session is closed. *)
Theorem handshake_deadline s ins evs :
  reachable s ins evs -> s_state s = handshaking ->
  s_handshakeTimer s = true /\
  let '(s', evs') := handshakeTimeout s in
  s_state s' = closed /\ s_closure s' = Some (closure_of PROTOCOL_ERROR (Some HANDSHAKE_TIMEOUT_REASON)) /\
  head evs' = Some (EvPortClose PROTOCOL_ERROR (Some HANDSHAKE_TIMEOUT_REASON)) /\
  (exists e, s_ready s' = ReadyRejected e /\ re_code e = UNAVAILABLE).
Proof.
  intros H E. pose proof (handshaking_armed _ _ _ H E) as Ht. split; [done|].
  apply reachable_inv in H. pose proof (inv_phase _ _ H) as Hp. unfold phase in Hp. rewrite E in Hp.
  destruct Hp as (P1 & _). unfold handshakeTimeout. rewrite Ht. cbn [negb]. rewrite decide_True by done.
  unfold failHandshake, closeNow, reject_ready. cbn [s_ready set_handshakeTimer]. rewrite P1.
  rewrite decide_False by (cbn; by rewrite E).
  match goal with |- context [teardown ?c ?s1] =>
    destruct (teardown_shape c s1) as (T & A & C & R & Hs & _); [cbn; by rewrite E|]; destruct (teardown c s1) end.
  cbn [fst] in Hs. subst. cbn. eauto 10.
Qed.

(** A run of inputs, each against a port of its own. *)
Fixpoint run (script : list (port_fn * input)) (s : session) : session :=
  match script with
  | [] => s
  | (port, i) :: rest => run rest (step port i s).1
  end.

Lemma run_closed script s : s_state s = closed -> s_state (run script s) = closed.
Proof.
  revert s; induction script as [|[port i] rest IH]; intros s E; [done|]. cbn [run].
  apply IH. by apply (ev_closed _ _ (step_evolves port i s) E).
Qed.

(** The liveness clock runs and a pong is owed. *)
Definition owes_pong (s : session) : Prop :=
  s_state s = closed \/ s_state s = ready /\ s_livenessTimer s = true /\ s_awaitingPong s = true.

Lemma step_owes_pong port i s :
  i <> InFrame FPong -> owes_pong s -> owes_pong (step port i s).1.
Proof.
  intros Hi [E|(E & Hl & Hp)]; [left; by apply (ev_closed _ _ (step_evolves port i s) E)|].
  destruct (decide (s_state (step port i s).1 = closed)) as [Ec|Ho]; [by left|right].
  assert (~ busy i -> s_state (step port i s).1 = ready /\ s_livenessTimer (step port i s).1 = true /\
     s_awaitingPong (step port i s).1 = true) as Hq
    by (intros Hb; destruct (step_same port i s Hb Ho); repeat split; congruence).
  destruct i as [[]| | | | | | | | | | | | | | | | | | |]; try (apply Hq; cbn; tauto).
  - cbn [step] in *. unfold receive, receiveHello in *. destruct (negb _); [done|].
    rewrite decide_False in * by congruence. by rewrite (settles_open _ _ (closeNow_settles _ _ s) Ho).
  - cbn [step] in *. unfold receive in *. destruct (negb _); [done|].
    destruct (dispatch_cases port id method params s) as [[e Ed]|(h & -> & _)]; [|done].
    rewrite Ed in *. unfold respondError in *. by rewrite (settles_open _ _ (trySend_settles _ _ _) Ho).
  - cbn [step] in *. destruct (s_runs s !! run0) as [d|] eqn:Ed; [|unfold handlerSettled; by rewrite Ed].
    destruct (handlerSettled_cases port run0 o s d Ed) as (f & _ & _ & Eq). rewrite Eq in *.
    pose proof (trySend_settles port f s) as Hset. destruct (trySend port f s); cbn [fst] in *.
    by rewrite (settles_open _ _ Hset Ho).
  - cbn [step fst] in *. destruct (emit_cases port e s) as [->|(f & _ & _ & _ & _ & Heq)]; [done|].
    pose proof (port_send_settles port f s) as Hset. destruct (port_send port f s) as [[s' evs] error].
    rewrite Heq in *. cbn [fst] in *.
    assert (s' = s) as -> by (eapply settles_open; [done|]; by destruct error, (ei_end e)).
    by destruct error, (ei_end e).
  - cbn [step] in *. destruct (handshakeTimeout_open _ Ho) as [[_ ->]|[_ ->]]; done.
  - cbn [step] in *. destruct (livenessTick_open _ _ Ho) as [->|(_ & _ & Hf & _)]; [done|congruence].
Qed.

Lemma run_owes_pong script s :
  (forall port i, (port, i) ∈ script -> i <> InFrame FPong) -> owes_pong s -> owes_pong (run script s).
Proof.
  revert s; induction script as [|[port i] rest IH]; intros s Hs Ho; [done|]. cbn [run].
  apply IH; [intros; eapply Hs; by right|]. apply step_owes_pong; [|done]. eapply Hs. left.
Qed.

(** C38: a silent peer is dropped within two liveness intervals. On a ready session
    whose liveness clock runs, two ticks with no [pong] received in between,
    whatever else happened, leave the session closed. *)
Theorem silent_peer_dropped port port' script s ins evs :
  reachable s ins evs -> s_state s = ready -> s_livenessTimer s = true ->
  (forall p i, (p, i) ∈ script -> i <> InFrame FPong) ->
  s_state (run ((port, InLivenessTick) :: script ++ [(port', InLivenessTick)]) s) = closed.
Proof.
  intros _ E Hl Hs. cbn [run].
  assert (owes_pong (step port InLivenessTick s).1) as H1.
  { destruct (decide (s_state (step port InLivenessTick s).1 = closed)) as [Ec|Ho]; [by left|right].
    cbn [step] in *. unfold livenessTick in *. rewrite Hl in *. cbn [negb] in *. rewrite decide_True in * by done.
    destruct (s_awaitingPong s) eqn:Ep.
    - by rewrite (settles_open _ _ (closeNow_settles _ _ s) Ho).
    - by rewrite (settles_open _ _ (trySend_settles _ _ _) Ho). }
  apply (run_owes_pong script) in H1; [|done]. revert H1. generalize (step port InLivenessTick s).1. intros s1.
  assert (forall a b s0, run (a ++ b) s0 = run b (run a s0)) as Happ
    by (intros a b; induction a as [|[]? IH]; intros s0; cbn; auto).
  rewrite Happ. generalize (run script s1). intros s2 [Ec|(Er & Hl2 & Hp)]; [by apply run_closed|].
  cbn [run step fst]. unfold livenessTick, closeNow. rewrite Hl2, Hp. cbn [negb]. rewrite decide_True by done.
  rewrite decide_False by (by rewrite Er).
  match goal with |- context [teardown ?c s2] =>
    destruct (teardown_shape c s2) as (T & A & C & R & Ht & _); [by rewrite Er|]; destruct (teardown c s2) end.
  cbn [fst] in *. by subst.
Qed.

(** ** Agreement *)

Definition hello_of (c : session_config) : frame := hello_frame (initial_session c []).

(** The ceiling both sides end up with. *)
Definition agreed_limit (a b : session_config) : Z :=
  Z.min (Z.min (c_localMaxFrameBytes a) (c_localMaxFrameBytes b)) DEFAULT_MAX_FRAME_BYTES.

Lemma hello_limit c l :
  default DEFAULT_MAX_FRAME_BYTES ((match hello_frame (initial_session c l) with FHello _ _ _ lim => lim | _ => None end) ≫= maxFrameBytes)
  = Z.min (c_localMaxFrameBytes c) DEFAULT_MAX_FRAME_BYTES.
Proof.
  unfold hello_frame; cbn. destruct (Z.ltb_spec (c_localMaxFrameBytes c) DEFAULT_MAX_FRAME_BYTES) as [Hlt|Hge];
    destruct (negb _); cbn; lia.
Qed.

Definition received_hello (port : port_fn) (s : session) (f : frame) : session := (step port (InFrame f) s).1.

Lemma received_hello_ready port a b ha handlers :
  major (c_localProtocol a) = major (c_localProtocol b) ->
  let s := received_hello port (set_handshakeTimer ha (initial_session a handlers)) (hello_of b) in
  s_state s = ready /\ s_cfg s = a /\
  exists r, s_remote s = Some r /\ s_ready s = ReadyResolved r /\ rp_peer r = c_peer b /\
    rp_protocol r = c_localProtocol b /\ rp_capabilities r = c_capabilities b /\
    rp_effectiveMinor r = Z.min (minor (c_localProtocol a)) (minor (c_localProtocol b)) /\
    rp_limits r = match hello_of b with FHello _ _ _ l => l | _ => None end.
Proof.
  intros Hmaj. unfold received_hello, hello_of, hello_frame. cbn [step receive s_attached set_handshakeTimer initial_session negb].
  unfold receiveHello. rewrite decide_True by done. cbn [s_cfg set_handshakeTimer initial_session].
  unfold negotiate. rewrite Hmaj, Z.eqb_refl. cbn.
  unfold startLiveness, resolve_ready; cbn. destruct (c_livenessIntervalMs a); cbn; eauto 20.
Qed.

(** Two sessions that received each other's hello agree. With the same wire
    major both are ready, hold the other's announcement, speak the lower of the
    two minors, and send under one ceiling: the lowest of both frame limits and
    the protocol default, which is no more than either side can decode. *)
Theorem handshake_agreement pa pb a b ha hb handlersA handlersB :
  major (c_localProtocol a) = major (c_localProtocol b) ->
  let sa := received_hello pa (set_handshakeTimer ha (initial_session a handlersA)) (hello_of b) in
  let sb := received_hello pb (set_handshakeTimer hb (initial_session b handlersB)) (hello_of a) in
  s_state sa = ready /\ s_state sb = ready /\
  (exists ra rb, s_remote sa = Some ra /\ s_remote sb = Some rb /\
     rp_peer ra = c_peer b /\ rp_peer rb = c_peer a /\
     rp_effectiveMinor ra = rp_effectiveMinor rb /\
     rp_effectiveMinor ra <= minor (c_localProtocol a) /\ rp_effectiveMinor ra <= minor (c_localProtocol b)) /\
  sendLimitBytes sa = agreed_limit a b /\ sendLimitBytes sb = agreed_limit a b.
Proof.
  intros Hmaj sa sb. unfold agreed_limit.
  destruct (received_hello_ready pa a b ha handlersA Hmaj) as (E1 & C1 & ra & R1 & _ & P1 & _ & _ & M1 & L1).
  destruct (received_hello_ready pb b a hb handlersB (eq_sym Hmaj)) as (E2 & C2 & rb & R2 & _ & P2 & _ & _ & M2 & L2).
  fold sa in E1, C1, R1. fold sb in E2, C2, R2.
  split; [done|]. split; [done|]. split; [exists ra, rb; repeat split; try done; lia|].
  unfold sendLimitBytes. rewrite R1, R2, C1, C2. cbn. rewrite L1, L2.
  unfold hello_of. rewrite !hello_limit. lia.
Qed.

(** ** What an answer, a timeout and a refusal do *)

Lemma settle_missing id r s : s_pending s !! id = None -> settle id r s = s.
Proof. intros E. unfold settle. by rewrite E. Qed.

Lemma settle_hit id r s p :
  inv s -> s_pending s !! id = Some p ->
  s_calls (settle id r s) = <[pr_call p := r]> (s_calls s) /\
  s_pending (settle id r s) = delete id (s_pending s) /\
  s_timers (settle id r s) = delete id (s_timers s) /\
  s_abortListeners (settle id r s) = s_abortListeners s ∖ {[id]}.
Proof.
  intros H E. destruct (calls_pending _ _ (core_calls _ _ (inv_core _ _ H)) _ _ E) as (Hn & _).
  unfold settle. rewrite E. unfold settle_call. cbn. by rewrite Hn.
Qed.

(** What the answer frame [f] settles its request with. *)
Definition settlement_of (f : frame) : option (jstring * settlement) :=
  match f with
  | FRes id v => Some (id, Resolved v)
  | FErr id e => Some (id, Rejected (FRemote (remoteError (err_code e) (err_message e) (err_details e))))
  | _ => None
  end.

(** An answer settles the request it names and no other. The [res] or [err] of
    a pending request resolves or rejects that request's promise alone, releases
    its timer and its abort listener and has no other effect; an answer to an id
    that is not pending (a late or an invented one) changes nothing at all. *)
Theorem answer_settles_its_request port f id r s ins evs :
  reachable s ins evs -> s_state s <> closed -> settlement_of f = Some (id, r) ->
  match s_pending s !! id with
  | Some p =>
      let s' := (step port (InFrame f) s).1 in
      s_calls s !! pr_call p = None /\ s_calls s' = <[pr_call p := r]> (s_calls s) /\
      s_pending s' = delete id (s_pending s) /\ s_timers s' = delete id (s_timers s) /\
      s_abortListeners s' = s_abortListeners s ∖ {[id]} /\ (step port (InFrame f) s).2 = []
  | None => step port (InFrame f) s = (s, [])
  end.
Proof.
  intros H%reachable_inv Ho Hf. cbn [step]. unfold receive. rewrite (inv_open_attached s H Ho). cbn [negb].
  assert ((match f with
           | FRes id v => (settle id (Resolved v) s, @nil effect)
           | FErr id e => (settle id (Rejected (FRemote (remoteError (err_code e) (err_message e) (err_details e)))) s, [])
           | _ => (s, []) end) = (settle id r s, [])) as E by (destruct f; simplify_eq/=; done).
  destruct (s_pending s !! id) as [p|] eqn:Ep.
  - destruct (settle_hit id r s p H Ep) as (E1 & E2 & E3 & E4).
    destruct (calls_pending _ _ (core_calls _ _ (inv_core _ _ H)) _ _ Ep) as (Hn & _).
    destruct f; simplify_eq/=; repeat split; done.
  - rewrite (settle_missing id r s Ep) in E. destruct f; simplify_eq/=; by rewrite settle_missing.
Qed.

(** A request's own deadline cancels it. When the timer fires the promise rejects
    with [TIMEOUT], a [cancel] for the id is handed to the port, and whatever the
    peer answers later under that id changes nothing. *)
Theorem timeout_cancels port id ms s ins evs :
  reachable s ins evs -> s_timers s !! id = Some ms ->
  exists p, s_pending s !! id = Some p /\
    let '(s', evs') := step port (InTimeout id) s in
    (exists e, s_calls s' !! pr_call p = Some (Rejected (FRemote e)) /\ re_code e = TIMEOUT) /\
    (exists ok, sends evs' = [(FCancel id, ok)]) /\
    (forall port' v, step port' (InFrame (FRes id v)) s' = (s', [])) /\
    (forall port' e, step port' (InFrame (FErr id e)) s' = (s', [])).
Proof.
  intros H%reachable_inv Ht. pose proof (core_calls _ _ (inv_core _ _ H)) as Hk.
  destruct (calls_timers _ _ Hk id) as [p Hp]; [by eexists|]. exists p. split; [done|].
  destruct (calls_pending _ _ Hk _ _ Hp) as (Hn & _).
  assert (s_state s <> closed) as Ho.
  { intros E. destruct (inv_closed_empty _ _ H E) as (He & _). by rewrite He, lookup_empty in Hp. }
  cbn [step]. unfold requestTimeout. rewrite Ht, Hp. cbn zeta.
  pose proof (take_pending_inv _ _ _ H Hp) as Hl. set (s1 := cleanup id _) in *.
  destruct (trySend_sends port (FCancel id) s1) as [[Hc _]|[_ [ok Hs]]]; [done|].
  pose proof (trySend_settles port (FCancel id) s1) as Hset.
  destruct (trySend port (FCancel id) s1) as [s2 evs2]; cbn [fst snd] in *.
  assert (s_calls s2 !! pr_call p = None /\ s_pending s2 !! id = None) as [H1 H2].
  { pose proof (settles_inv _ _ _ Hl Hset) as H2. split.
    - destruct (s_calls s2 !! pr_call p) eqn:E; [|done].
      destruct (calls_settled _ _ (core_calls _ _ (inv_core _ _ H2)) _ _ E) as [_ []]. done.
    - destruct (settles_state _ _ Hset) as [->|E]; [cbn; apply lookup_delete_eq|].
      destruct (inv_closed_empty _ _ H2 E) as (-> & _). apply lookup_empty. }
  split; [|split; [eauto|]].
  - eexists. rewrite settle_call_lookup, H1, decide_True by done. done.
  - set (s3 := settle_call _ _ s2). assert (s_pending s3 !! id = None) as H3 by (subst s3; by rewrite settle_call_other).
    split; intros port' x; cbn [step]; unfold receive; destruct (negb _); try done; by rewrite settle_missing.
Qed.

(** C39: past its in-flight ceiling a session refuses new requests, retryably: the
    answer is [UNAVAILABLE] with [details.kind] of [in_flight_limit], no handler
    runs, and unless the transport itself goes the session is exactly as before. *)
Theorem overload_refused port id method params s ins evs :
  reachable s ins evs -> s_state s = ready -> c_maxInFlight (s_cfg s) <= Z.of_nat (inFlight s) ->
  exists e ok, sends (step port (InFrame (FReq id method params)) s).2 = [(FErr id e, ok)] /\
    err_code e = UNAVAILABLE /\
    (forall details, err_details e = Some details ->
       member (js "kind") (JObj details) = Some (JStr IN_FLIGHT_LIMIT_KIND)) /\ is_Some (err_details e) /\
    (forall r h i m p, EvInvoke r h i m p ∉ (step port (InFrame (FReq id method params)) s).2) /\
    (reply_closure (port (FErr id e)) = None -> (step port (InFrame (FReq id method params)) s).1 = s).
Proof.
  intros H%reachable_inv E Hm. cbn [step]. unfold receive. rewrite (inv_open_attached s H) by (by rewrite E).
  cbn [negb]. unfold dispatch. rewrite decide_True by done. rewrite (proj2 (Z.leb_le _ _)) by done.
  match goal with |- context [respondError port id ?e s] => exists e end.
  unfold respondError, trySend. rewrite decide_False by (by rewrite E).
  unfold port_send. match goal with |- context [reply_closure (port ?f)] => set (g := f) end.
  destruct (reply_closure (port g)) as [c|].
  - pose proof (port_closed_sends c s) as Hs.
    assert (forall r h i m p, EvInvoke r h i m p ∉ (port_closed c s).2) as Hni.
    { intros. unfold port_closed, handlePortClosed, teardown. destruct (s_attached s); [|set_solver].
      destruct c; (destruct (decide _); [set_solver|]); cbn zeta; cbn [snd];
        rewrite elem_of_app, !list_elem_of_fmap; intros [([] & ? & _)|(? & ? & _)]; done. }
    destruct (port_closed c s) as [s' evs']; cbn [fst snd] in *. eexists.
    split; [unfold sends in *; cbn in *; by rewrite Hs|].
    repeat split; try done; [by intros d [= <-]|]. intros r h i m p. rewrite elem_of_cons. naive_solver.
  - eexists. cbn. repeat split; try done; [by intros d [= <-]|set_solver].
Qed.
