(* ===== verification/SessionExamples.v ===== *)
(** * Sessions at work

    A hub session driven by hand: the constructor, the peer's hello, a request
    and its answer, a handler, events, and the end. Each theorem about sessions
    is applied to the states this run goes through. *)

From S2P Require Import Prelude Utf8 Regex Json JsonFacts Wire Frames Ndjson Listeners Session SessionFacts SessionTrace SessionLife.

(** A port that takes every frame. *)
Definition open_port : port_fn := fun _ => {| reply_closure := None; reply_throw := None |}.

Definition hub_options : SessionOptions :=
  {| so_peer := {| peer_name := js "hub"; peer_version := js "1"; peer_role := js "hub" |};
     so_capabilities := None; so_protocol := None; so_maxFrameBytes := Some (ANum (NInt 8192));
     so_maxInFlight := Some (ANum (NInt 1)); so_maxStreamKeys := None; so_handshakeTimeoutMs := None;
     so_livenessIntervalMs := LiveDefault; so_handlers := [(js "text.echo", 7%nat)];
     so_requestIdPrefix := None |}.

Definition runtime_hello : frame :=
  FHello {| major := 1; minor := 0 |}
    {| peer_name := js "runtime"; peer_version := js "1"; peer_role := js "runtime" |} [] None.

Definition no_session : session * list effect :=
  (initial_session {| c_peer := so_peer hub_options; c_capabilities := []; c_localProtocol := PROTOCOL_VERSION;
     c_localMaxFrameBytes := 0; c_maxInFlight := 0; c_maxStreamKeys := 0; c_handshakeTimeoutMs := 0;
     c_livenessIntervalMs := None; c_requestIdPrefix := [] |} [], []).

Definition booted : session * list effect := default no_session (ok_of (newSession open_port hub_options None)).

Definition drive (ins : list input) : session * list effect :=
  fold_left (fun '(s, evs) i => let '(s', evs') := step open_port i s in (s', evs ++ evs')) ins booted.

Lemma booted_reachable : reachable booted.1 [] booted.2.
Proof. apply (reach_new open_port hub_options None). vm_compute. reflexivity. Qed.

Lemma drive_reachable ins : reachable (drive ins).1 ins (drive ins).2.
Proof.
  induction ins as [|i ins IH] using rev_ind; [apply booted_reachable|].
  unfold drive in *. rewrite fold_left_app. cbn [fold_left].
  destruct (fold_left _ ins booted) as [s evs]; cbn [fst snd] in *.
  destruct (step open_port i s) as [s' evs'] eqn:E. by eapply reach_step.
Qed.

(** The run: hello, a request that is sent with a deadline, a handler at work. *)
Definition opening : list input :=
  [InFrame runtime_hello; InRequest (js "text.echo") (VJson JNull) true (Some 250); InResume 0 false].
Definition serving : list input := opening ++ [InFrame (FReq (js "p-1") (js "text.echo") (VJson JNull))].
Definition event (last : bool) : EventInput :=
  {| ei_topic := js "log.line"; ei_payload := VJson JNull; ei_streamId := None; ei_end := last |}.
Definition ended : list input := serving ++ [InEmit (event false); InCloseNow RELEASED None].

Example opening_state :
  s_state (drive opening).1 = ready /\
  sends (drive opening).2 = [(hello_of (s_cfg (drive opening).1), true);
                             (FReq (js "r-1") (js "text.echo") (VJson JNull), true)] /\
  s_timers (drive opening).1 !! js "r-1" = Some 250.
Proof. vm_compute. auto. Qed.

Example ended_calls :
  s_state (drive ended).1 = closed /\ s_nextCall (drive ended).1 = 1%nat /\
  match s_calls (drive ended).1 !! 0%nat with Some (Rejected f) => isSessionClosedRequestError f | _ => false end = true.
Proof. vm_compute. auto. Qed.

Lemma session_wellformed_witness : inv (drive serving).1.
Proof. apply (session_wellformed _ serving (drive serving).2). apply drive_reachable. Defined.

Lemma closed_session_final_witness :
  s_state (step open_port (InFrame FPing) (drive ended).1).1 = closed /\
  (step open_port (InFrame FPing) (drive ended).1).2 = [].
Proof.
  destruct (closed_session_final open_port (InFrame FPing) (drive ended).1 ended (drive ended).2) as (H1 & _ & H2).
  - apply drive_reachable.
  - vm_compute. reflexivity.
  - split; [exact H1|exact H2].
Defined.

Lemma requests_never_lost_witness :
  is_Some (s_calls (drive ended).1 !! 0%nat) \/
  forall port aborted, exists f, s_calls (resumeRequest port 0 aborted (drive ended).1).1 !! 0%nat = Some (Rejected f).
Proof.
  apply (requests_never_lost (drive ended).1 ended (drive ended).2 0).
  - apply drive_reachable.
  - vm_compute. lia.
  - vm_compute. reflexivity.
Defined.

Lemma settled_promises_stay_witness :
  s_calls (step open_port InPing (drive ended).1).1 !! 0%nat = s_calls (drive ended).1 !! 0%nat.
Proof.
  destruct (s_calls (drive ended).1 !! 0%nat) as [r|] eqn:E; [|vm_compute in E; discriminate].
  apply (settled_promises_stay open_port InPing (drive ended).1 ended (drive ended).2 0 r); [|exact E].
  apply drive_reachable.
Defined.

Lemma sent_frames_fit_witness :
  sendLimitBytes (drive opening).1 <= c_localMaxFrameBytes (s_cfg (drive opening).1).
Proof. apply (sent_frames_fit (drive opening).1 opening (drive opening).2). apply drive_reachable. Defined.

(** The handler of [p-1] ends, and the port refuses its result. *)
Definition refusing_port : port_fn := fun _ => {| reply_closure := None; reply_throw := Some (FOther (js "the port is closed")) |}.
Definition unanswered : session * list effect :=
  let '(s, evs) := drive serving in
  let '(s', evs') := step refusing_port (InHandlerSettled 0 (HReturn (VJson JNull))) s in (s', evs ++ evs').

Lemma requests_answered_once_witness :
  asked (js "p-1") (serving ++ [InHandlerSettled 0 (HReturn (VJson JNull))]) = 1%nat /\ s_state unanswered.1 = ready
  /\ asked (js "p-1") (serving ++ [InHandlerSettled 0 (HReturn (VJson JNull))]) =
       (answered (js "p-1") unanswered.2 + dropped (js "p-1") unanswered.2 + running (js "p-1") unanswered.1)%nat
  /\ dropped (js "p-1") unanswered.2 = 1%nat.
Proof.
  split; [vm_compute; reflexivity|]. split; [vm_compute; reflexivity|]. split; [|vm_compute; reflexivity].
  destruct (requests_answered_once unanswered.1 (serving ++ [InHandlerSettled 0 (HReturn (VJson JNull))]) unanswered.2 (js "p-1")) as [E _].
  - unfold unanswered. pose proof (drive_reachable serving) as Hr. destruct (drive serving) as [s evs]. cbn [fst snd] in *.
    destruct (step refusing_port _ s) as [s' evs'] eqn:Es. by eapply reach_step.
  - vm_compute. discriminate.
  - exact E.
Defined.

Definition publishing : list input := opening ++ [InEmit (event false); InEmit (event false); InEmit (event true); InEmit (event false)].

Lemma events_numbered_witness :
  numbered ∅ (sends (drive publishing).2) /\ s_eventSequences (drive publishing).1 !! js "log.line" = Some 1.
Proof.
  split; [|vm_compute; reflexivity].
  apply (events_numbered (drive publishing).1 publishing (drive publishing).2). apply drive_reachable.
Defined.

Lemma request_ids_unique_witness :
  NoDup (request_ids (sends (drive opening).2)) /\ request_ids (sends (drive opening).2) = [js "r-1"].
Proof.
  split; [|vm_compute; reflexivity].
  apply (request_ids_unique (drive opening).1 opening (drive opening).2). apply drive_reachable.
Defined.

Lemma closing_releases_witness : s_pending (drive ended).1 = ∅ /\ is_Some (s_closure (drive ended).1).
Proof.
  destruct (closing_releases (drive ended).1 ended (drive ended).2) as (_ & Hp & _ & _ & _ & _ & _ & _ & _ & Hc).
  - apply drive_reachable.
  - vm_compute. reflexivity.
  - split; [exact Hp|exact Hc].
Defined.

Lemma closeNow_records_closure_witness :
  s_closure (closeNow RELEASED None (drive serving).1).1 =
  Some (close_result RELEASED None (closeNow RELEASED None (drive serving).1).1).
Proof.
  apply (closeNow_records_closure RELEASED None (drive serving).1 serving (drive serving).2). apply drive_reachable.
Defined.

Lemma handshake_deadline_witness : s_handshakeTimer (drive []).1 = true.
Proof.
  apply (handshake_deadline (drive []).1 [] (drive []).2).
  - apply drive_reachable.
  - vm_compute. reflexivity.
Defined.

Lemma silent_peer_dropped_witness :
  s_state (run ((open_port, InLivenessTick) :: [(open_port, InFrame FPing)] ++ [(open_port, InLivenessTick)])
    (drive opening).1) = closed.
Proof.
  apply (silent_peer_dropped open_port open_port [(open_port, InFrame FPing)] (drive opening).1 opening (drive opening).2).
  - apply drive_reachable.
  - vm_compute. reflexivity.
  - vm_compute. reflexivity.
  - intros p i Hin. apply list_elem_of_singleton in Hin. congruence.
Defined.

Lemma handshake_agreement_witness :
  let c := s_cfg (drive []).1 in
  sendLimitBytes (received_hello open_port (set_handshakeTimer true (initial_session c [])) (hello_of c)) = agreed_limit c c.
Proof.
  destruct (handshake_agreement open_port open_port (s_cfg (drive []).1) (s_cfg (drive []).1) true true [] []
    eq_refl) as (_ & _ & _ & H & _).
  exact H.
Defined.

Lemma answer_settles_its_request_witness :
  s_calls (step open_port (InFrame (FRes (js "r-1") (VJson JNull))) (drive opening).1).1 !! 0%nat
  = Some (Resolved (VJson JNull)).
Proof.
  pose proof (answer_settles_its_request open_port (FRes (js "r-1") (VJson JNull)) (js "r-1") (Resolved (VJson JNull))
    (drive opening).1 opening (drive opening).2 (drive_reachable opening)) as H.
  assert (s_pending (drive opening).1 !! js "r-1" = Some {| pr_method := js "text.echo"; pr_call := 0 |}) as Ep
    by (vm_compute; reflexivity).
  rewrite Ep in H. destruct H as (_ & H & _); [vm_compute; discriminate|reflexivity|].
  rewrite H. apply lookup_insert_eq.
Defined.

Lemma timeout_cancels_witness :
  exists p, s_pending (drive opening).1 !! js "r-1" = Some p.
Proof.
  destruct (timeout_cancels open_port (js "r-1") 250 (drive opening).1 opening (drive opening).2) as (p & Hp & _).
  - apply drive_reachable.
  - vm_compute. reflexivity.
  - exists p. exact Hp.
Defined.

Lemma overload_refused_witness :
  exists e ok, sends (step open_port (InFrame (FReq (js "p-2") (js "text.echo") (VJson JNull))) (drive serving).1).2
    = [(FErr (js "p-2") e, ok)] /\ err_code e = UNAVAILABLE.
Proof.
  destruct (overload_refused open_port (js "p-2") (js "text.echo") (VJson JNull) (drive serving).1 serving (drive serving).2)
    as (e & ok & H1 & H2 & _).
  - apply drive_reachable.
  - vm_compute. reflexivity.
  - vm_compute. discriminate.
  - exists e, ok. split; [exact H1|exact H2].
Defined.
