(* ===== verification/NdjsonPort.v ===== *)
(** * The NDJSON port

    [packages/protocol/src/transports/ndjson-port.ts]: the port every byte-oriented
    transport reuses. It owns no operating-system object: a sink takes encoded
    lines and may throw, and the transport drives [feed], [eof], [failed] and
    [terminate]. A frame listener is the program's own code; what it does with
    the port while it is being called is a list of operations. *)

From S2P Require Import Prelude Utf8 Regex Json JsonFacts Wire Frames Ndjson Listeners Session.

Inductive PortState : Type := POpen | PClosedByOwner | PProtocolRefused | PEnded | PFailed.

Global Instance PortState_eq_dec : EqDecision PortState.
Proof. solve_decision. Defined.

Definition state_name (s : PortState) : jstring :=
  match s with
  | POpen => js "open" | PClosedByOwner => js "closed" | PProtocolRefused => js "protocol-error"
  | PEnded => js "ended" | PFailed => js "failed"
  end.

Record ndjson_port : Type := {
  np_maxFrameBytes : Z;
  np_decoder : LineDecoder;
  np_frames : list nat;
  np_closed : list nat;
  np_state : PortState;
  np_why : jstring;
  np_sinkWritable : bool;
  np_sinkEnded : bool
}.

(** What a port does to the world. [WWrite b ok] is a call of [sink.write], [ok]
    when it did not throw. *)
Inductive port_effect : Type :=
| WWrite (b : bytes) (ok : bool)
| WEnd
| WFrame (listener : nat) (v : json)
| WClosed (listener : nat) (c : PortClosure).

(** The sink: what [write] throws for these bytes, if it throws. *)
Definition sink_fn : Type := bytes -> option jstring.

Definition set_decoder d (p : ndjson_port) : ndjson_port :=
  Build_ndjson_port (np_maxFrameBytes p) d (np_frames p) (np_closed p) (np_state p) (np_why p)
    (np_sinkWritable p) (np_sinkEnded p).
Definition set_frames l (p : ndjson_port) : ndjson_port :=
  Build_ndjson_port (np_maxFrameBytes p) (np_decoder p) l (np_closed p) (np_state p) (np_why p)
    (np_sinkWritable p) (np_sinkEnded p).
Definition set_closed l (p : ndjson_port) : ndjson_port :=
  Build_ndjson_port (np_maxFrameBytes p) (np_decoder p) (np_frames p) l (np_state p) (np_why p)
    (np_sinkWritable p) (np_sinkEnded p).
Definition set_phase st why (p : ndjson_port) : ndjson_port :=
  Build_ndjson_port (np_maxFrameBytes p) (np_decoder p) (np_frames p) (np_closed p) st why
    (np_sinkWritable p) (np_sinkEnded p).
Definition set_writable b (p : ndjson_port) : ndjson_port :=
  Build_ndjson_port (np_maxFrameBytes p) (np_decoder p) (np_frames p) (np_closed p) (np_state p) (np_why p)
    b (np_sinkEnded p).
Definition set_ended b (p : ndjson_port) : ndjson_port :=
  Build_ndjson_port (np_maxFrameBytes p) (np_decoder p) (np_frames p) (np_closed p) (np_state p) (np_why p)
    (np_sinkWritable p) b.

(** The constructor. *)
Definition newNdjsonPort (maxFrameBytes : option jsarg) : outcome exn ndjson_port :=
  limit ← range (resolveFrameLimit maxFrameBytes);
  decoder ← newLineDecoder (Some (ANum (NInt limit)));
  Ok {| np_maxFrameBytes := limit; np_decoder := decoder; np_frames := []; np_closed := [];
        np_state := POpen; np_why := []; np_sinkWritable := true; np_sinkEnded := false |}.

(** [#endSink] *)
Definition endSink (p : ndjson_port) : ndjson_port * list port_effect :=
  if np_sinkEnded p then (p, [])
  else (set_writable false (set_ended true p), [WEnd]).

(** [#report] *)
Definition report (c : PortClosure) (p : ndjson_port) : ndjson_port * list port_effect :=
  let p := set_frames [] p in
  (set_closed [] p, map (fun l => WClosed l c) (np_closed p)).

(** [failed] *)
Definition failed (msg : jstring) (p : ndjson_port) : ndjson_port * list port_effect :=
  if decide (np_state p = POpen) then
    let '(p, e1) := endSink (set_phase PFailed msg p) in
    let '(p, e2) := report (PClosed None (Some msg)) p in
    (p, e1 ++ e2)
  else (p, []).

(** [#writeLine] *)
Definition writeLine (sink : sink_fn) (line : bytes) (p : ndjson_port) : ndjson_port * list port_effect * bool :=
  if negb (np_sinkWritable p) then (p, [], false)
  else
    match sink line with
    | None => (p, [WWrite line true], true)
    | Some msg =>
        let '(p, e) := failed msg (set_writable false p) in
        (p, WWrite line false :: e, false)
    end.

(** [#closedError] *)
Definition closedError (p : ndjson_port) : jstring :=
  js "NDJSON port is in state " ++ [34] ++ state_name (np_state p) ++ [34] ++ js " (" ++ np_why p ++
  js "); expected state " ++ [34] ++ js "open" ++ [34] ++ js " to send a frame.".

Section Port.
  Context `{TypeBox, JsonEngine}.

Definition line_bytes (p : ndjson_port) (f : frame) : outcome exn bytes :=
  utf8_encode <$> encodeLine f (Some (ANum (NInt (np_maxFrameBytes p)))).

(** [send]: the effects, and what it throws. *)
Definition send (sink : sink_fn) (f : frame) (p : ndjson_port) : ndjson_port * list port_effect * option failure :=
  if decide (np_state p = POpen) then
    match line_bytes p f with
    | Err e => (p, [], Some (exn_failure e))
    | Ok line =>
        match writeLine sink line p with
        | (p, e, true) => (p, e, None)
        | (p, e, false) => (p, e, Some (FOther (closedError p)))
        end
    end
  else (p, [], Some (FOther (closedError p))).

(** [#encodeClose]: the farewell, without its reason if that is what it takes. *)
Definition encodeClose (p : ndjson_port) (code : Z) (reason : option jstring) : option bytes :=
  match line_bytes p (FClose code reason) with
  | Ok line => Some line
  | Err _ => ok_of (line_bytes p (FClose code None))
  end.

(** [#writeClose] *)
Definition writeClose (sink : sink_fn) (code : Z) (reason : option jstring) (p : ndjson_port)
    : ndjson_port * list port_effect :=
  if negb (np_sinkWritable p) then (p, [])
  else
    match encodeClose p code (take (Z.to_nat CLOSE_REASON_MAX_LENGTH) <$> reason) with
    | None => (set_writable false p, [])
    | Some line =>
        match sink line with
        | None => (p, [WWrite line true])
        | Some _ => (set_writable false p, [WWrite line false])
        end
    end.

(** [close]: the owner's own end, which reports nothing back. *)
Definition close (sink : sink_fn) (code : Z) (reason : option jstring) (p : ndjson_port)
    : ndjson_port * list port_effect :=
  if decide (np_state p = POpen) then
    let p := set_phase PClosedByOwner (js "closed by this side with " ++ dec code) p in
    let '(p, e1) := writeClose sink code reason p in
    let '(p, e2) := endSink p in
    (set_closed [] (set_frames [] p), e1 ++ e2)
  else (p, []).

(** [terminate]: the transport ends the port and tells the owner. *)
Definition terminate (sink : sink_fn) (code : Z) (reason : option jstring) (p : ndjson_port)
    : ndjson_port * list port_effect :=
  if decide (np_state p = POpen) then
    let p := set_phase PEnded (default (js "the transport ended with " ++ dec code) reason) p in
    let '(p, e1) := writeClose sink code reason p in
    let '(p, e2) := endSink p in
    let '(p, e3) := report (PClosed (Some code) reason) p in
    (p, e1 ++ e2 ++ e3)
  else (p, []).

(** [eof] *)
Definition eof (p : ndjson_port) : ndjson_port * list port_effect :=
  if decide (np_state p = POpen) then
    let '(p, e1) := endSink (set_phase PEnded (js "the peer reached end of file") p) in
    let '(p, e2) := report (PClosed None None) p in
    (p, e1 ++ e2)
  else (p, []).

(** [#refuse] *)
Definition refuse_record (sink : sink_fn) (error : CodecError) (p : ndjson_port) : ndjson_port * list port_effect :=
  let code := closeCodeForCodecError error in
  let p := set_phase PProtocolRefused (message error) p in
  let '(p, e1) := writeClose sink code (Some (message error)) p in
  let '(p, e2) := endSink p in
  let '(p, e3) := report (PProtocolError error code) p in
  (p, e1 ++ e2 ++ e3).

(** The methods of [Port] a listener may call. *)
Inductive port_op : Type :=
| OpSend (f : frame)
| OpClose (code : Z) (reason : option jstring)
| OpOnFrame (l : nat)
| OpOffFrame (l : nat)
| OpOnClosed (l : nat)
| OpOffClosed (l : nat).

Definition apply_op (sink : sink_fn) (op : port_op) (p : ndjson_port) : ndjson_port * list port_effect :=
  match op with
  | OpSend f => let '(p, e, _) := send sink f p in (p, e)
  | OpClose code reason => close sink code reason p
  | OpOnFrame l => (set_frames (add l (np_frames p)) p, [])
  | OpOffFrame l => (set_frames (remove l (np_frames p)) p, [])
  | OpOnClosed l => (set_closed (add l (np_closed p)) p, [])
  | OpOffClosed l => (set_closed (remove l (np_closed p)) p, [])
  end.

Fixpoint apply_ops (sink : sink_fn) (ops : list port_op) (p : ndjson_port) : ndjson_port * list port_effect :=
  match ops with
  | [] => (p, [])
  | op :: rest =>
      let '(p, e1) := apply_op sink op p in
      let '(p, e2) := apply_ops sink rest p in
      (p, e1 ++ e2)
  end.

(** What each listener does with the port when it is called with a frame. *)
Definition reaction : Type := nat -> json -> list port_op.

(** [#frames.emit(frame)] over the snapshot. *)
Fixpoint emit_frame (sink : sink_fn) (react : reaction) (v : json) (snapshot : list nat) (p : ndjson_port)
    : ndjson_port * list port_effect :=
  match snapshot with
  | [] => (p, [])
  | l :: rest =>
      let '(p, e1) := apply_ops sink (react l v) p in
      let '(p, e2) := emit_frame sink react v rest p in
      (p, WFrame l v :: e1 ++ e2)
  end.

(** The loop of [feed]; [None] when a listener ended the port before the last frame. *)
Fixpoint deliver (sink : sink_fn) (react : reaction) (vs : list json) (p : ndjson_port)
    : ndjson_port * list port_effect * bool :=
  match vs with
  | [] => (p, [], true)
  | v :: rest =>
      if decide (np_state p = POpen) then
        let '(p, e1) := emit_frame sink react v (np_frames p) p in
        let '(p, e2, done) := deliver sink react rest p in
        (p, e1 ++ e2, done)
      else (p, [], false)
  end.

(** [feed] *)
Definition feed (sink : sink_fn) (react : reaction) (chunk : bytes) (p : ndjson_port)
    : ndjson_port * list port_effect :=
  if decide (np_state p = POpen) then
    let '(d, o) := push (np_decoder p) chunk in
    match deliver sink react (frames o) (set_decoder d p) with
    | (p, e1, false) => (p, e1)
    | (p, e1, true) =>
        match error o with
        | None => (p, e1)
        | Some err => let '(p, e2) := refuse_record sink err p in (p, e1 ++ e2)
        end
    end
  else (p, []).

(** ** The port as a transition system *)

Inductive port_input : Type :=
| PFeed (chunk : bytes) (react : reaction)
| PEof
| PFail (msg : jstring)
| PTerminate (code : Z) (reason : option jstring)
| POp (op : port_op).

Definition port_step (sink : sink_fn) (i : port_input) (p : ndjson_port) : ndjson_port * list port_effect :=
  match i with
  | PFeed chunk react => feed sink react chunk p
  | PEof => eof p
  | PFail msg => failed msg p
  | PTerminate code reason => terminate sink code reason p
  | POp op => apply_op sink op p
  end.

(** Every port a transport can drive with inputs [ok] allows, with what it did; the
    sink may answer differently each time. *)
Inductive port_reachable (ok : ndjson_port -> port_input -> Prop) : ndjson_port -> list port_effect -> Prop :=
| port_reach_new o p : newNdjsonPort o = Ok p -> port_reachable ok p []
| port_reach_step sink i p evs p' evs' :
    port_reachable ok p evs -> ok p i -> port_step sink i p = (p', evs') -> port_reachable ok p' (evs ++ evs').

(** ** The sink is used, then ended, once *)

(** The calls of the sink, in order: a write with its bytes, or its end. *)
Definition sink_calls (evs : list port_effect) : list (option (bytes * bool)) :=
  omap (fun e => match e with WWrite b ok => Some (Some (b, ok)) | WEnd => Some None | _ => None end) evs.

Lemma sink_calls_app a b : sink_calls (a ++ b) = sink_calls a ++ sink_calls b.
Proof. apply omap_app. Qed.

Lemma sink_calls_closed (l : list nat) c : sink_calls (map (fun l => WClosed l c) l) = [].
Proof. by induction l. Qed.

(** A port is open exactly while its sink is there. *)
Definition sink_ok (p : ndjson_port) : Prop :=
  np_sinkWritable p = negb (np_sinkEnded p) /\ (np_state p = POpen <-> np_sinkEnded p = false).

(** Between two states the sink is written to, then ended if the port ended;
    nothing reaches a sink that had ended. *)
Record sink_log (p : ndjson_port) (evs : list port_effect) (p' : ndjson_port) : Prop := {
  log_ok : sink_ok p';
  log_after : np_sinkEnded p = true -> sink_calls evs = [] /\ np_sinkEnded p' = true;
  log_before : np_sinkEnded p = false ->
    exists ws, Forall is_Some ws /\ sink_calls evs = ws ++ (if np_sinkEnded p' then [None] else [])
}.

Lemma sink_log_refl p : sink_ok p -> sink_log p [] p.
Proof. intros H1. split; [done|done|]. intros ->. by exists []. Qed.

Lemma sink_log_trans p1 e1 p2 e2 p3 : sink_log p1 e1 p2 -> sink_log p2 e2 p3 -> sink_log p1 (e1 ++ e2) p3.
Proof.
  intros [O1 A1 B1] [O2 A2 B2]. split; [done| |]; intros E; rewrite sink_calls_app.
  - destruct (A1 E) as [-> E2]. by apply A2.
  - destruct (B1 E) as (ws & Hw & Hs). rewrite Hs. destruct (np_sinkEnded p2) eqn:E2.
    + destruct (A2 eq_refl) as [-> ->]. exists ws. by rewrite app_nil_r.
    + destruct (B2 eq_refl) as (ws' & Hw' & ->). exists (ws ++ ws'). rewrite app_nil_r, app_assoc.
      split; [by apply Forall_app|done].
Qed.

(** An update of fields the sink does not see. *)
Lemma sink_log_ext p evs p' q :
  sink_log p evs p' -> np_sinkWritable q = np_sinkWritable p' -> np_sinkEnded q = np_sinkEnded p' ->
  np_state q = np_state p' -> sink_log p evs q.
Proof.
  intros [[O1 O2] A B] E1 E2 E3. split.
  - split; rewrite ?E1, ?E2, ?E3; done.
  - by rewrite E2.
  - by rewrite E2.
Qed.

(** [#writeClose] writes at most once, and changes nothing but the writability. *)
Lemma writeClose_shape sink code reason p :
  exists b e, writeClose sink code reason p = (set_writable b p, e) /\
    (exists ws, Forall is_Some ws /\ sink_calls e = ws) /\ (np_sinkWritable p = false -> e = [] /\ b = false) /\
    (forall l c, WClosed l c ∉ e) /\ (forall l v, WFrame l v ∉ e).
Proof.
  unfold writeClose. destruct (np_sinkWritable p) eqn:Ew; cbn [negb].
  2: { exists false, []. split; [rewrite <- Ew; by destruct p|]. split; [by exists []|]. set_solver. }
  destruct (encodeClose p code _) as [line|].
  2: { exists false, []. split; [done|]. split; [by exists []|]. set_solver. }
  destruct (sink line) as [m|].
  - exists false, [WWrite line false]. split; [done|]. split; [|set_solver].
    exists [Some (line, false)]. split; [by repeat constructor|done].
  - exists true, [WWrite line true]. split; [rewrite <- Ew; by destruct p|]. split; [|set_solver].
    exists [Some (line, true)]. split; [by repeat constructor|done].
Qed.

(** Ending the sink of a port that has left the open state, and the notices. *)
Lemma end_log p st why b e e3 q :
  sink_ok p -> st <> POpen -> (exists ws, Forall is_Some ws /\ sink_calls e = ws) ->
  (np_sinkWritable p = false -> e = [] /\ b = false) -> sink_calls e3 = [] ->
  np_sinkWritable q = np_sinkWritable (endSink (set_writable b (set_phase st why p))).1 ->
  np_sinkEnded q = np_sinkEnded (endSink (set_writable b (set_phase st why p))).1 -> np_state q = st ->
  sink_log p (e ++ (endSink (set_writable b (set_phase st why p))).2 ++ e3) q.
Proof.
  intros [O1 O2] Hst (ws & Hw & Hs) Hn H3. unfold endSink. cbn [np_sinkEnded set_writable set_phase].
  destruct (np_sinkEnded p) eqn:Ee; cbn; intros Q1 Q2 Q3.
  - destruct (Hn O1) as [-> ->]. split.
    + split; rewrite ?Q1, ?Q2, ?Q3, ?Ee; done.
    + intros _. cbn [app]. by rewrite H3, Q2.
    + congruence.
  - split.
    + split; rewrite ?Q1, ?Q2, ?Q3; done.
    + congruence.
    + intros _. exists ws. split; [done|]. rewrite sink_calls_app, Hs, Q2.
      change (sink_calls (WEnd :: e3)) with (None :: sink_calls e3). by rewrite H3.
Qed.

Lemma report_calls c p : sink_calls (report c p).2 = [].
Proof. apply sink_calls_closed. Qed.

(** Ending without a farewell. *)
Lemma end_log_silent p st why c :
  sink_ok p -> st <> POpen ->
  let p1 := (endSink (set_phase st why p)).1 in
  sink_log p ((endSink (set_phase st why p)).2 ++ (report c p1).2) (report c p1).1.
Proof.
  intros H1 Hst p1. subst p1.
  assert (set_phase st why p = set_writable (np_sinkWritable p) (set_phase st why p)) as E by done.
  rewrite E. apply (end_log p st why (np_sinkWritable p) []); try done; [by exists []|apply report_calls|].
  unfold report, endSink; cbn. by destruct (np_sinkEnded p).
Qed.

Lemma failed_log msg p : sink_ok p -> sink_log p (failed msg p).2 (failed msg p).1.
Proof.
  intros H1. unfold failed. destruct (decide _); [|by apply sink_log_refl].
  pose proof (end_log_silent p PFailed msg (PClosed None (Some msg)) H1 ltac:(done)) as Hl.
  destruct (endSink _) as [p1 e1]. cbn [fst snd] in *. by destruct (report _ p1).
Qed.

Lemma eof_log p : sink_ok p -> sink_log p (eof p).2 (eof p).1.
Proof.
  intros H1. unfold eof. destruct (decide _); [|by apply sink_log_refl].
  pose proof (end_log_silent p PEnded (js "the peer reached end of file") (PClosed None None) H1 ltac:(done)) as Hl.
  destruct (endSink _) as [p1 e1]. cbn [fst snd] in *. by destruct (report _ p1).
Qed.

(** Ending with a farewell and notices. *)
Lemma end_log_farewell sink p st why code reason c :
  sink_ok p -> st <> POpen ->
  let '(p1, e1) := writeClose sink code reason (set_phase st why p) in
  let '(p2, e2) := endSink p1 in
  let '(p3, e3) := report c p2 in
  sink_log p (e1 ++ e2 ++ e3) p3 /\ sink_log p (e1 ++ e2) (set_closed [] (set_frames [] p2)).
Proof.
  intros H1 Hst. destruct (writeClose_shape sink code reason (set_phase st why p)) as (b & e & -> & Hw & Hn & _).
  cbn [np_sinkWritable set_phase] in Hn.
  pose proof (end_log p st why b e) as Hl.
  destruct (endSink (set_writable b (set_phase st why p))) as [p2 e2] eqn:E2. cbn [fst snd] in Hl.
  assert (np_state p2 = st) as Est.
  { unfold endSink in E2. cbn in E2. destruct (np_sinkEnded p); by injection E2 as <- <-. }
  destruct (report c p2) as [p3 e3] eqn:E3. injection E3 as <- <-. split.
  - apply Hl; try done. apply sink_calls_closed.
  - rewrite <- (app_nil_r e2). by apply Hl.
Qed.

Lemma close_log sink code reason p : sink_ok p -> sink_log p (close sink code reason p).2 (close sink code reason p).1.
Proof.
  intros H1. unfold close. destruct (decide _); [|by apply sink_log_refl].
  pose proof (end_log_farewell sink p PClosedByOwner (js "closed by this side with " ++ dec code) code reason
    (PClosed None None) H1 ltac:(done)) as Hl.
  destruct (writeClose _ _ _ _) as [p1 e1]. destruct (endSink p1) as [p2 e2]. by destruct (report _ p2), Hl.
Qed.

Lemma terminate_log sink code reason p :
  sink_ok p -> sink_log p (terminate sink code reason p).2 (terminate sink code reason p).1.
Proof.
  intros H1. unfold terminate. destruct (decide _); [|by apply sink_log_refl].
  pose proof (end_log_farewell sink p PEnded (default (js "the transport ended with " ++ dec code) reason) code reason
    (PClosed (Some code) reason) H1 ltac:(done)) as Hl.
  destruct (writeClose _ _ _ _) as [p1 e1]. destruct (endSink p1) as [p2 e2]. by destruct (report _ p2), Hl.
Qed.

Lemma refuse_log sink err p : sink_ok p -> sink_log p (refuse_record sink err p).2 (refuse_record sink err p).1.
Proof.
  intros H1. unfold refuse_record.
  pose proof (end_log_farewell sink p PProtocolRefused (message err) (closeCodeForCodecError err) (Some (message err))
    (PProtocolError err (closeCodeForCodecError err)) H1 ltac:(done)) as Hl.
  destruct (writeClose _ _ _ _) as [p1 e1]. destruct (endSink p1) as [p2 e2]. by destruct (report _ p2), Hl.
Qed.

Lemma writeLine_log sink line p :
  sink_ok p -> np_state p = POpen -> sink_log p (writeLine sink line p).1.2 (writeLine sink line p).1.1.
Proof.
  intros [O1 O2] Ho. pose proof (proj1 O2 Ho) as Ee. unfold writeLine. rewrite O1, Ee. cbn [negb].
  destruct (sink line) as [msg|]; cbn [fst snd].
  - unfold failed, endSink. cbn [np_state set_writable]. rewrite decide_True by done. cbn [np_sinkEnded set_phase set_writable].
    rewrite Ee. cbn. split; [split; done|congruence|]. intros _. exists [Some (line, false)].
    split; [by repeat constructor|]. unfold sink_calls. cbn. f_equal. f_equal. apply (sink_calls_closed (np_closed p)).
  - split; [by split|congruence|]. intros _. exists [Some (line, true)]. split; [by repeat constructor|]. by rewrite Ee.
Qed.

Lemma send_log sink f p : sink_ok p -> sink_log p (send sink f p).1.2 (send sink f p).1.1.
Proof.
  intros H1. unfold send. destruct (decide _) as [Ho|]; [|by apply sink_log_refl].
  destruct (line_bytes p f) as [line|]; [|by apply sink_log_refl].
  pose proof (writeLine_log sink line p H1 Ho). by destruct (writeLine sink line p) as [[q e] []].
Qed.

Lemma apply_op_log sink op p : sink_ok p -> sink_log p (apply_op sink op p).2 (apply_op sink op p).1.
Proof.
  intros H1. destruct op; cbn [apply_op fst snd]; try (by eapply sink_log_ext; [apply sink_log_refl|..]).
  - pose proof (send_log sink f p H1). by destruct (send sink f p) as [[]].
  - by apply close_log.
Qed.

Lemma apply_ops_log sink ops p : sink_ok p -> sink_log p (apply_ops sink ops p).2 (apply_ops sink ops p).1.
Proof.
  revert p; induction ops as [|op ops IH]; intros p H1; [by apply sink_log_refl|]. cbn [apply_ops].
  pose proof (apply_op_log sink op p H1) as L1. destruct (apply_op sink op p) as [p1 e1]; cbn [fst snd] in *.
  pose proof (IH p1 (log_ok _ _ _ L1)) as L2. destruct (apply_ops sink ops p1) as [p2 e2]; cbn [fst snd] in *.
  by eapply sink_log_trans.
Qed.

Lemma sink_log_frame p l v evs p' : sink_log p evs p' -> sink_log p (WFrame l v :: evs) p'.
Proof. intros [O A B]. by split. Qed.

Lemma emit_frame_log sink react v snapshot p :
  sink_ok p -> sink_log p (emit_frame sink react v snapshot p).2 (emit_frame sink react v snapshot p).1.
Proof.
  revert p; induction snapshot as [|l rest IH]; intros p H1; [by apply sink_log_refl|]. cbn [emit_frame].
  pose proof (apply_ops_log sink (react l v) p H1) as L1. destruct (apply_ops _ _ p) as [p1 e1]; cbn [fst snd] in *.
  pose proof (IH p1 (log_ok _ _ _ L1)) as L2. destruct (emit_frame _ _ _ rest p1) as [p2 e2]; cbn [fst snd] in *.
  apply sink_log_frame. by eapply sink_log_trans.
Qed.

Lemma deliver_log sink react vs p :
  sink_ok p -> sink_log p (deliver sink react vs p).1.2 (deliver sink react vs p).1.1.
Proof.
  revert p; induction vs as [|v vs IH]; intros p H1; [by apply sink_log_refl|]. cbn [deliver].
  destruct (decide _); [|by apply sink_log_refl].
  pose proof (emit_frame_log sink react v (np_frames p) p H1) as L1.
  destruct (emit_frame _ _ _ _ p) as [p1 e1]; cbn [fst snd] in *.
  pose proof (IH p1 (log_ok _ _ _ L1)) as L2. destruct (deliver _ _ vs p1) as [[p2 e2] d]; cbn [fst snd] in *.
  by eapply sink_log_trans.
Qed.

Lemma feed_log sink react chunk p : sink_ok p -> sink_log p (feed sink react chunk p).2 (feed sink react chunk p).1.
Proof.
  intros H1. unfold feed. destruct (decide _); [|by apply sink_log_refl].
  destruct (push (np_decoder p) chunk) as [d o].
  assert (sink_ok (set_decoder d p)) as H2 by done.
  pose proof (deliver_log sink react (frames o) (set_decoder d p) H2) as L1.
  destruct (deliver _ _ _ _) as [[p1 e1] []]; cbn [fst snd] in *.
  2: { destruct L1. by split. }
  destruct (error o) as [err|]; cbn [fst snd].
  2: { destruct L1. by split. }
  pose proof (refuse_log sink err p1 (log_ok _ _ _ L1)) as L2. destruct (refuse_record sink err p1); cbn [fst snd] in *.
  pose proof (sink_log_trans _ _ _ _ _ L1 L2) as L3. destruct L3. by split.
Qed.

Lemma port_step_log sink i p : sink_ok p -> sink_log p (port_step sink i p).2 (port_step sink i p).1.
Proof. destruct i; cbn [port_step]; auto using feed_log, eof_log, failed_log, terminate_log, apply_op_log. Qed.

Lemma newNdjsonPort_ok o p :
  newNdjsonPort o = Ok p -> sink_ok p /\ np_state p = POpen /\ np_sinkEnded p = false /\ np_closed p = [].
Proof.
  unfold newNdjsonPort. intros E. apply bind_ok in E as (l & _ & E). apply bind_ok in E as (d & _ & E).
  injection E as <-. done.
Qed.

(** Whatever the transport, the peer and the listeners do, and whether or not
    writes throw, a port ends its sink exactly once, when it leaves the open
    state, and never writes to it afterwards. *)
Theorem sink_ended_once ok p evs :
  port_reachable ok p evs ->
  (exists ws, Forall is_Some ws /\
     sink_calls evs = ws ++ (if decide (np_state p = POpen) then [] else [None])) /\
  (np_state p = POpen <-> np_sinkWritable p = true).
Proof.
  intros Hr. assert (sink_ok p /\ exists ws, Forall is_Some ws /\
    sink_calls evs = ws ++ (if np_sinkEnded p then [None] else [])) as [[O1 O2] (ws & Hw & Hs)].
  { induction Hr as [o p Hn|sink i p evs p' evs' _ [IH1 (ws & Hw & Hs)] _ E].
    - destruct (newNdjsonPort_ok _ _ Hn) as (? & _ & -> & _). split; [done|]. by exists [].
    - pose proof (port_step_log sink i p IH1) as [L1 L2 L3]. rewrite E in *. cbn [fst snd] in *. split; [done|].
      rewrite sink_calls_app, Hs. destruct (np_sinkEnded p).
      + destruct (L2 eq_refl) as [-> ->]. exists ws. by rewrite app_nil_r.
      + destruct (L3 eq_refl) as (ws' & Hw' & ->). exists (ws ++ ws'). rewrite app_nil_r, app_assoc.
        split; [by apply Forall_app|done]. }
  split.
  - exists ws. split; [done|]. rewrite Hs. f_equal. destruct (np_sinkEnded p).
    + rewrite decide_False; [done|]. by rewrite O2.
    + by rewrite decide_True by (by apply O2).
  - rewrite O2, O1. by destruct (np_sinkEnded p).
Qed.

(** ** The owner hears of one closure, and never of its own *)

Definition reports (evs : list port_effect) : list (nat * PortClosure) :=
  omap (fun e => match e with WClosed l c => Some (l, c) | _ => None end) evs.

Lemma reports_app a b : reports (a ++ b) = reports a ++ reports b.
Proof. apply omap_app. Qed.

Lemma reports_map (l : list nat) c : reports (map (fun l => WClosed l c) l) = map (fun x => (x, c)) l.
Proof. induction l as [|x l IH]; [done|]. unfold reports in *. cbn in *. by rewrite IH. Qed.

Lemma reports_none evs : (forall l c, WClosed l c ∉ evs) -> reports evs = [].
Proof.
  induction evs as [|e evs IH]; [done|]. intros Hn. cbn.
  destruct e; try (apply IH; intros l' c'; specialize (Hn l' c'); set_solver).
  exfalso. eapply Hn. left.
Qed.

(** Closure listeners are added while the port is open, and not by a frame
    listener while it is being called. *)
Definition early_subscription (p : ndjson_port) (i : port_input) : Prop :=
  match i with
  | PFeed _ react => forall l v l', OpOnClosed l' ∉ react l v
  | POp (OpOnClosed _) => np_state p = POpen
  | _ => True
  end.

Record report_ok (p : ndjson_port) : Prop := {
  rep_nodup : NoDup (np_closed p);
  rep_closed : np_state p <> POpen -> np_closed p = []
}.

(** Between two states: nothing is reported unless the port ends here, and then one
    closure, once to each listener. *)
Record report_log (p : ndjson_port) (evs : list port_effect) (p' : ndjson_port) : Prop := {
  rlog_ok : report_ok p';
  rlog_after : np_state p <> POpen -> reports evs = [] /\ np_state p' <> POpen;
  rlog_before : np_state p = POpen ->
    np_state p' = POpen /\ reports evs = [] \/
    np_state p' <> POpen /\ exists c ls, NoDup ls /\ reports evs = map (fun l => (l, c)) ls
}.

Lemma report_log_refl p : report_ok p -> report_log p [] p.
Proof. intros Hr. split; [done|done|]. auto. Qed.

Lemma report_log_trans p1 e1 p2 e2 p3 : report_log p1 e1 p2 -> report_log p2 e2 p3 -> report_log p1 (e1 ++ e2) p3.
Proof.
  intros [O1 A1 B1] [O2 A2 B2]. split; [done| |]; intros E; rewrite reports_app.
  - destruct (A1 E) as [-> E2]. by apply A2.
  - destruct (B1 E) as [[E2 ->]|[E2 (c & ls & Hn & ->)]]; [by apply B2|].
    destruct (A2 E2) as [-> E3]. right. split; [done|]. exists c, ls. by rewrite app_nil_r.
Qed.

(** The port leaves the open state (or had left it) and reports one closure. *)
Lemma end_report p evs p' c :
  report_ok p -> np_state p' <> POpen -> np_closed p' = [] ->
  reports evs = map (fun l => (l, c)) (np_closed p) -> report_log p evs p'.
Proof.
  intros [R1 R2] Hst Hcl He. split.
  - split; rewrite Hcl; [constructor|done].
  - intros Hn. rewrite He, (R2 Hn). done.
  - intros _. right. split; [done|]. by exists c, (np_closed p).
Qed.

Lemma endSink_fields p :
  np_state (endSink p).1 = np_state p /\ np_closed (endSink p).1 = np_closed p /\ reports (endSink p).2 = [].
Proof. unfold endSink. by destruct (np_sinkEnded p). Qed.

Lemma failed_report msg p : report_ok p -> report_log p (failed msg p).2 (failed msg p).1.
Proof.
  intros Hr. unfold failed. destruct (decide _); [|by apply report_log_refl].
  destruct (endSink_fields (set_phase PFailed msg p)) as (E1 & E2 & E3).
  destruct (endSink _) as [p1 e1]. cbn [fst snd] in *. unfold report. cbn [fst snd]. apply (end_report _ _ _ (PClosed None (Some msg))); try done.
  - cbn. by rewrite E1.
  - rewrite reports_app, E3, reports_map. cbn. by rewrite E2.
Qed.

Lemma eof_report p : report_ok p -> report_log p (eof p).2 (eof p).1.
Proof.
  intros Hr. unfold eof. destruct (decide _); [|by apply report_log_refl].
  destruct (endSink_fields (set_phase PEnded (js "the peer reached end of file") p)) as (E1 & E2 & E3).
  destruct (endSink _) as [p1 e1]. cbn [fst snd] in *. unfold report. cbn [fst snd]. apply (end_report _ _ _ (PClosed None None)); try done.
  - cbn. by rewrite E1.
  - rewrite reports_app, E3, reports_map. cbn. by rewrite E2.
Qed.

(** A farewell reports nothing itself. *)
Lemma farewell_fields sink code reason p :
  let '(p1, e1) := writeClose sink code reason p in
  let '(p2, e2) := endSink p1 in
  np_state p2 = np_state p /\ np_closed p2 = np_closed p /\ reports (e1 ++ e2) = [].
Proof.
  destruct (writeClose_shape sink code reason p) as (b & e & -> & _ & _ & Hr & _).
  destruct (endSink_fields (set_writable b p)) as (E1 & E2 & E3). destruct (endSink _) as [p2 e2]. cbn [fst snd] in *.
  split; [done|]. split; [done|]. by rewrite reports_app, E3, reports_none.
Qed.

Lemma close_report sink code reason p :
  report_ok p ->
  report_log p (close sink code reason p).2 (close sink code reason p).1 /\ reports (close sink code reason p).2 = [].
Proof.
  intros Hr. unfold close. destruct (decide _); [|split; [by apply report_log_refl|done]].
  pose proof (farewell_fields sink code reason (set_phase PClosedByOwner (js "closed by this side with " ++ dec code) p)) as Hf.
  destruct (writeClose _ _ _ _) as [p1 e1]. destruct (endSink p1) as [p2 e2]. destruct Hf as (E1 & E2 & E3).
  cbn [fst snd]. split; [|done]. split.
  - split; cbn; [constructor|done].
  - intros Hn. done.
  - intros _. right. split; [cbn; by rewrite E1|]. exists (PClosed None None), []. split; [constructor|done].
Qed.

Lemma terminate_report sink code reason p :
  report_ok p -> report_log p (terminate sink code reason p).2 (terminate sink code reason p).1.
Proof.
  intros Hr. unfold terminate. destruct (decide _); [|by apply report_log_refl].
  pose proof (farewell_fields sink code reason
    (set_phase PEnded (default (js "the transport ended with " ++ dec code) reason) p)) as Hf.
  destruct (writeClose _ _ _ _) as [p1 e1]. destruct (endSink p1) as [p2 e2]. destruct Hf as (E1 & E2 & E3).
  unfold report. cbn [fst snd]. apply (end_report _ _ _ (PClosed (Some code) reason)); try done.
  - cbn. by rewrite E1.
  - rewrite app_assoc, reports_app, E3, reports_map. cbn. by rewrite E2.
Qed.

Lemma refuse_report sink err p : report_ok p -> report_log p (refuse_record sink err p).2 (refuse_record sink err p).1.
Proof.
  intros Hr. unfold refuse_record.
  pose proof (farewell_fields sink (closeCodeForCodecError err) (Some (message err))
    (set_phase PProtocolRefused (message err) p)) as Hf.
  destruct (writeClose _ _ _ _) as [p1 e1]. destruct (endSink p1) as [p2 e2]. destruct Hf as (E1 & E2 & E3).
  unfold report. cbn [fst snd]. apply (end_report _ _ _ (PProtocolError err (closeCodeForCodecError err))); try done.
  - cbn. by rewrite E1.
  - rewrite app_assoc, reports_app, E3, reports_map. cbn. by rewrite E2.
Qed.

Lemma send_report sink f p : report_ok p -> report_log p (send sink f p).1.2 (send sink f p).1.1.
Proof.
  intros Hr. unfold send. destruct (decide _) as [Ho|]; [|by apply report_log_refl].
  destruct (line_bytes p f) as [line|]; [|by apply report_log_refl].
  unfold writeLine. destruct (negb _); [by apply report_log_refl|].
  destruct (sink line) as [msg|].
  - pose proof (failed_report msg (set_writable false p) ltac:(by destruct Hr)) as Hf.
    destruct (failed msg _) as [p1 e1]. cbn [fst snd] in *. destruct Hf. by split.
  - split; [done|done|]. by left.
Qed.

Lemma apply_op_report sink op p :
  report_ok p -> (forall l, op = OpOnClosed l -> np_state p = POpen) ->
  report_log p (apply_op sink op p).2 (apply_op sink op p).1.
Proof.
  intros Hr Hop. destruct op; cbn [apply_op fst snd].
  - pose proof (send_report sink f p Hr). by destruct (send sink f p) as [[]].
  - by apply close_report.
  - destruct Hr. split; [by split|done|by left].
  - destruct Hr. split; [by split|done|by left].
  - specialize (Hop _ eq_refl). destruct Hr. split; [|done|by left]. split; cbn; [by apply add_NoDup|congruence].
  - destruct Hr as [R1 R2]. split; [|done|by left]. split; cbn; [by apply remove_NoDup|].
    intros Hn. by rewrite (R2 Hn).
Qed.

Lemma apply_ops_report sink ops p :
  report_ok p -> (forall l, OpOnClosed l ∉ ops) -> report_log p (apply_ops sink ops p).2 (apply_ops sink ops p).1.
Proof.
  revert p; induction ops as [|op ops IH]; intros p Hr Hop; [by apply report_log_refl|]. cbn [apply_ops].
  pose proof (apply_op_report sink op p Hr ltac:(intros l ->; exfalso; apply (Hop l); left)) as L1.
  destruct (apply_op sink op p) as [p1 e1]; cbn [fst snd] in *.
  pose proof (IH p1 (rlog_ok _ _ _ L1) ltac:(intros l Hl; apply (Hop l); by right)) as L2.
  destruct (apply_ops sink ops p1) as [p2 e2]; cbn [fst snd] in *. by eapply report_log_trans.
Qed.

Lemma emit_frame_report sink react v snapshot p :
  report_ok p -> (forall l v l', OpOnClosed l' ∉ react l v) ->
  report_log p (emit_frame sink react v snapshot p).2 (emit_frame sink react v snapshot p).1.
Proof.
  revert p; induction snapshot as [|l rest IH]; intros p Hr Hop; [by apply report_log_refl|]. cbn [emit_frame].
  pose proof (apply_ops_report sink (react l v) p Hr (Hop l v)) as L1.
  destruct (apply_ops _ _ p) as [p1 e1]; cbn [fst snd] in *.
  pose proof (IH p1 (rlog_ok _ _ _ L1) Hop) as L2. destruct (emit_frame _ _ _ rest p1) as [p2 e2]; cbn [fst snd] in *.
  pose proof (report_log_trans _ _ _ _ _ L1 L2) as [O A B]. by split.
Qed.

Lemma deliver_report sink react vs p :
  report_ok p -> (forall l v l', OpOnClosed l' ∉ react l v) ->
  report_log p (deliver sink react vs p).1.2 (deliver sink react vs p).1.1.
Proof.
  revert p; induction vs as [|v vs IH]; intros p Hr Hop; [by apply report_log_refl|]. cbn [deliver].
  destruct (decide _); [|by apply report_log_refl].
  pose proof (emit_frame_report sink react v (np_frames p) p Hr Hop) as L1.
  destruct (emit_frame _ _ _ _ p) as [p1 e1]; cbn [fst snd] in *.
  pose proof (IH p1 (rlog_ok _ _ _ L1) Hop) as L2. destruct (deliver _ _ vs p1) as [[p2 e2] d]; cbn [fst snd] in *.
  by eapply report_log_trans.
Qed.

Lemma feed_report sink react chunk p :
  report_ok p -> (forall l v l', OpOnClosed l' ∉ react l v) ->
  report_log p (feed sink react chunk p).2 (feed sink react chunk p).1.
Proof.
  intros Hr Hop. unfold feed. destruct (decide _); [|by apply report_log_refl].
  destruct (push (np_decoder p) chunk) as [d o].
  pose proof (deliver_report sink react (frames o) (set_decoder d p) ltac:(by destruct Hr) Hop) as L1.
  destruct (deliver _ _ _ _) as [[p1 e1] []]; cbn [fst snd] in *.
  2: { destruct L1. by split. }
  destruct (error o) as [err|]; cbn [fst snd].
  2: { destruct L1. by split. }
  pose proof (refuse_report sink err p1 (rlog_ok _ _ _ L1)) as L2. destruct (refuse_record sink err p1); cbn [fst snd] in *.
  pose proof (report_log_trans _ _ _ _ _ L1 L2) as L3. destruct L3. by split.
Qed.

Lemma port_step_report sink i p :
  report_ok p -> early_subscription p i -> report_log p (port_step sink i p).2 (port_step sink i p).1.
Proof.
  destruct i; cbn [port_step]; auto using eof_report, failed_report, terminate_report, feed_report.
  intros Hr Hop. apply apply_op_report; [done|]. by intros l ->.
Qed.

Lemma port_reachable_report p evs :
  port_reachable early_subscription p evs ->
  report_ok p /\ (np_state p = POpen -> reports evs = []) /\
  exists c ls, NoDup ls /\ reports evs = map (fun l => (l, c)) ls.
Proof.
  induction 1 as [o p Hn|sink i p evs p' evs' _ (IH1 & IH2 & c & ls & Hls & IH3) Hi E].
  - destruct (newNdjsonPort_ok _ _ Hn) as (_ & Ho & _ & Hc). split; [split; rewrite Hc; [constructor|done]|].
    split; [done|]. exists (PClosed None None), []. split; [constructor|done].
  - pose proof (port_step_report sink i p IH1 Hi) as [L1 L2 L3]. rewrite E in *. cbn [fst snd] in *.
    split; [done|]. rewrite reports_app. destruct (decide (np_state p = POpen)) as [Ho|Ho].
    + rewrite (IH2 Ho). cbn [app]. destruct (L3 Ho) as [[Ho' ->]|[Ho' Hx]]; [|split; [done|exact Hx]].
      split; [done|]. exists c, []. split; [constructor|done].
    + destruct (L2 Ho) as [-> Ho']. split; [done|]. exists c, ls. by rewrite app_nil_r.
Qed.

(** [onClosed] fires at most once. A port reports one closure, once to each
    subscriber, and none while it is open; after that, and after the owner's own
    [close], no further step reports anything or delivers it twice. *)
Theorem closure_reported_once p evs :
  port_reachable early_subscription p evs ->
  (exists c ls, NoDup ls /\ reports evs = map (fun l => (l, c)) ls) /\
  (np_state p = POpen -> reports evs = []) /\
  (forall sink code reason, reports (close sink code reason p).2 = []) /\
  (np_state p <> POpen -> forall sink i, early_subscription p i ->
     reports (port_step sink i p).2 = [] /\ np_state (port_step sink i p).1 <> POpen).
Proof.
  intros Hr. destruct (port_reachable_report _ _ Hr) as (Hok & Ho & Hx).
  split; [done|]. split; [done|]. split.
  - intros. by apply close_report.
  - intros Hn sink i Hi. by apply (rlog_after _ _ _ (port_step_report sink i p Hok Hi)).
Qed.

(** ** Two ports *)

(** Frames sent one after the other; [None] if a send throws. *)
Fixpoint send_all (sink : sink_fn) (fs : list frame) (p : ndjson_port) : option (ndjson_port * list port_effect) :=
  match fs with
  | [] => Some (p, [])
  | f :: rest =>
      match send sink f p with
      | (p, e1, None) =>
          match send_all sink rest p with Some (p, e2) => Some (p, e1 ++ e2) | None => None end
      | _ => None
      end
  end.

(** The byte stream a sink was given. *)
Definition written (evs : list port_effect) : bytes :=
  concat (omap (fun e => match e with WWrite b true => Some b | _ => None end) evs).

Fixpoint feed_all (sink : sink_fn) (react : reaction) (chunks : list bytes) (p : ndjson_port)
    : ndjson_port * list port_effect :=
  match chunks with
  | [] => (p, [])
  | c :: rest =>
      let '(p, e1) := feed sink react c p in
      let '(p, e2) := feed_all sink react rest p in
      (p, e1 ++ e2)
  end.

Definition silent : reaction := fun _ _ => [].

Lemma deliver_silent sink vs p l :
  np_state p = POpen -> np_frames p = [l] -> deliver sink silent vs p = (p, map (WFrame l) vs, true).
Proof.
  intros Ho Hf. induction vs as [|v vs IH]; [done|]. cbn [deliver]. rewrite decide_True, Hf by done. cbn.
  rewrite IH. done.
Qed.

Lemma feed_all_silent sink chunks p l :
  np_state p = POpen -> np_frames p = [l] -> error (push_all (np_decoder p) chunks).2 = None ->
  feed_all sink silent chunks p =
  (set_decoder (push_all (np_decoder p) chunks).1 p, map (WFrame l) (frames (push_all (np_decoder p) chunks).2)).
Proof.
  revert p; induction chunks as [|c chunks IH]; intros p Ho Hf He; [by destruct p|].
  cbn [feed_all push_all] in *. unfold feed. rewrite decide_True by done.
  destruct (push (np_decoder p) c) as [d1 o1]. rewrite (deliver_silent _ _ _ l) by done.
  destruct (error o1) as [e|] eqn:E1; [cbn in He; congruence|].
  specialize (IH (set_decoder d1 p) Ho Hf). cbn [np_decoder set_decoder] in IH.
  destruct (push_all d1 chunks) as [d2 o2]. cbn in He. rewrite IH by done. cbn [fst snd]. by rewrite <- map_app.
Qed.

Lemma written_app a b : written (a ++ b) = written a ++ written b.
Proof. unfold written. by rewrite omap_app, concat_app. Qed.

(** What a port whose sink never throws writes for frames it accepts. *)
Lemma send_all_written fs p p' evs :
  np_state p = POpen -> np_sinkWritable p = true -> send_all (fun _ => None) fs p = Some (p', evs) ->
  exists lines, Forall2 (fun f line => encodeLine f (Some (ANum (NInt (np_maxFrameBytes p)))) = Ok line) fs lines /\
    written evs = concat (map utf8_encode lines).
Proof.
  revert p evs; induction fs as [|f fs IH]; intros p evs Ho Hw E; cbn [send_all] in E.
  { injection E as <- <-. by exists []. }
  unfold send in E. rewrite decide_True in E by done.
  destruct (line_bytes p f) as [line|] eqn:El; [|done].
  unfold writeLine in E. rewrite Hw in E. cbn [negb] in E.
  destruct (send_all _ fs p) as [[q e2]|] eqn:Er; [|done]. injection E as <- <-.
  destruct (IH p e2 Ho Hw Er) as (lines & HF & HW).
  unfold line_bytes in El. destruct (encodeLine f _) as [text|] eqn:Et; [|done]. injection El as <-.
  exists (text :: lines). split; [by constructor|]. cbn. by rewrite <- HW.
Qed.

Lemma ports_deliver o a b a' evs fs l chunks :
  newNdjsonPort o = Ok a -> newNdjsonPort o = Ok b -> Forall plain fs ->
  send_all (fun _ => None) fs a = Some (a', evs) -> concat chunks = written evs ->
  let '(b', evs') := feed_all (fun _ => None) silent chunks (set_frames [l] b) in
  exists vs, evs' = map (WFrame l) vs /\ map frame_of vs = map Some fs /\ np_state b' = POpen.
Proof.
  intros Ha Hb Hp Hs Hc. rewrite Hb in Ha. injection Ha as <-.
  unfold newNdjsonPort in Hb. apply bind_ok in Hb as (limit & Hl & Hb). apply bind_ok in Hb as (d & Hd & Hb).
  injection Hb as <-. apply send_all_written in Hs as (lines & HF & Hw); [|done..]. rewrite Hw in Hc.
  destruct (stream_roundtrip _ _ _ _ _ Hd Hp HF Hc) as (Hfr & Her & _).
  set (b1 := set_frames _ _). rewrite (feed_all_silent _ chunks b1 l); try done.
  eexists. split; [done|]. split; [exact Hfr|done].
Qed.

Lemma feed_all_over sink react chunks p : np_state p <> POpen -> feed_all sink react chunks p = (p, []).
Proof. intros Hs. induction chunks as [|c chunks IH]; [done|]. cbn [feed_all]. unfold feed. rewrite decide_False by done. by rewrite IH. Qed.

(** Effects that show no frame to a listener *)
Definition shows_none (evs : list port_effect) : Prop := forall l v, WFrame l v ∉ evs.

Lemma refuse_record_ends sink e p :
  np_closed p = [] -> np_state (refuse_record sink e p).1 = PProtocolRefused /\ shows_none (refuse_record sink e p).2.
Proof.
  intros Hc. unfold refuse_record, writeClose, endSink, report, shows_none. cbn [np_sinkWritable np_state set_phase].
  repeat case_match; simplify_eq/=; rewrite ?Hc; (split; [done|]); intros l v Hin; set_solver.
Qed.

(** Pieces fed to a port with one silent listener, whatever they hold *)
Lemma feed_all_arrives sink chunks p l :
  np_state p = POpen -> np_frames p = [l] -> np_closed p = [] ->
  exists tail, (feed_all sink silent chunks p).2 = map (WFrame l) (frames (push_all (np_decoder p) chunks).2) ++ tail
    /\ shows_none tail
    /\ match error (push_all (np_decoder p) chunks).2 with
       | None => tail = [] /\ np_state (feed_all sink silent chunks p).1 = POpen
       | Some _ => np_state (feed_all sink silent chunks p).1 = PProtocolRefused
       end.
Proof.
  revert p; induction chunks as [|c chunks IH]; intros p Ho Hf Hc.
  { exists []. cbn. split; [done|]. split; [|done]. by intros ? ? ?%not_elem_of_nil. }
  cbn [feed_all push_all]. unfold feed. rewrite decide_True by done.
  destruct (push (np_decoder p) c) as [d1 o1]. rewrite (deliver_silent _ _ _ l) by done.
  destruct (error o1) as [e|] eqn:E1.
  - pose proof (refuse_record_ends sink e (set_decoder d1 p) Hc) as [Hst Hno].
    destruct (refuse_record sink e (set_decoder d1 p)) as [p2 e2]; cbn [fst snd] in *. rewrite feed_all_over by (by rewrite Hst).
    exists e2. cbn [fst snd]. by rewrite app_nil_r, E1.
  - destruct (IH (set_decoder d1 p) Ho Hf Hc) as (tail & E & Hno & Hm). cbn [np_decoder set_decoder] in *.
    destruct (feed_all sink silent chunks (set_decoder d1 p)) as [p2 e2]. destruct (push_all d1 chunks) as [d2 o2]. cbn [fst snd frames error] in *.
    exists tail. rewrite E, map_app, <- app_assoc. done.
Qed.

(** C11: what one end sends the other end delivers. When a port accepts frames (no
    [send] throws) and its bytes reach a port with the same limit in whatever
    pieces, the listener there receives these frames in this order and nothing else, and
    that port stays open. A port also accepts a frame whose payload is [undefined], which JSON leaves out: then the listener
    receives the frames before the first such frame, and the port refuses that one and ends with a protocol error. The values in the
    frames are assumed to be ones a program can hold. *)
Theorem ports_deliver_in_order o a b a' evs fs l chunks :
  newNdjsonPort o = Ok a -> newNdjsonPort o = Ok b -> Forall carried fs ->
  send_all (fun _ => None) fs a = Some (a', evs) -> concat chunks = written evs ->
  let '(b', evs') := feed_all (fun _ => None) silent chunks (set_frames [l] b) in
  exists vs tail, evs' = map (WFrame l) vs ++ tail /\ shows_none tail /\ map frame_of vs = map Some (arrives fs).1
    /\ np_state b' = (match (arrives fs).2 with None => POpen | Some _ => PProtocolRefused end)
    /\ ((forall f, f ∈ fs -> payload_of f <> VUndefined) -> (arrives fs).1 = fs /\ np_state b' = POpen /\ tail = []).
Proof.
  intros Ha Hb Hp Hs Hc. rewrite Hb in Ha. injection Ha as <-.
  unfold newNdjsonPort in Hb. apply bind_ok in Hb as (limit & Hl & Hb). apply bind_ok in Hb as (d & Hd & Hb).
  injection Hb as <-. apply send_all_written in Hs as (lines & HF & Hw); [|done..]. rewrite Hw in Hc.
  destruct (stream_arrive _ _ _ _ _ Hd Hp HF Hc) as (Hfr & Her & Hall).
  set (b1 := set_frames _ _). destruct (feed_all_arrives (fun _ => None) chunks b1 l) as (tail & E & Hno & Hm); [done..|].
  destruct (feed_all _ silent chunks b1) as [b' evs']. cbn [fst snd np_decoder b1 set_frames] in *.
  eexists _, tail. split; [exact E|]. split; [done|]. split; [exact Hfr|].
  rewrite <- Her. destruct (error _) as [e|] eqn:Ee; cbn in *.
  - split; [done|]. intros Hn. by destruct (Hall Hn) as (_ & ? & _).
  - destruct Hm as [-> Hst]. split; [done|]. intros Hn. by destruct (Hall Hn) as (? & _ & _).
Qed.

(** ** The port a session sees *)

(** A session's port at one moment: what [send] throws and the closure it reports. *)
Definition as_port (sink : sink_fn) (p : ndjson_port) : port_fn := fun f =>
  let '(_, evs, thrown) := send sink f p in
  {| reply_closure := snd <$> head (reports evs); reply_throw := thrown |}.

(** [send] keeps its contract with the session: it returns only when the encoded
    line reached the sink whole; it throws when the port is not open, when the
    frame cannot be encoded (nothing is written then) or when the pipe broke,
    and a closure is reported from inside [send] only in that last case. *)
Theorem send_contract sink f p ok evs :
  port_reachable ok p evs ->
  match send sink f p with
  | (p', e, None) =>
      np_state p = POpen /\ p' = p /\ exists line, line_bytes p f = Ok line /\ e = [WWrite line true]
  | (p', e, Some _) =>
      (np_state p <> POpen \/ exists x, line_bytes p f = Err x) /\ p' = p /\ e = [] \/
      (exists line msg, line_bytes p f = Ok line /\ sink line = Some msg /\ np_state p' = PFailed /\
        e = WWrite line false :: WEnd :: map (fun l => WClosed l (PClosed None (Some msg))) (np_closed p))
  end.
Proof.
  intros Hr. assert (sink_ok p) as [O1 O2].
  { induction Hr as [o p Hn|s i p ev p' ev' _ IH _ E]; [by apply (newNdjsonPort_ok _ _ Hn)|].
    pose proof (port_step_log s i p IH) as [L _ _]. by rewrite E in L. }
  unfold send. destruct (decide (np_state p = POpen)) as [Ho|Ho]; [|by left; auto].
  destruct (line_bytes p f) as [line|x]; [|left; eauto].
  pose proof (proj1 O2 Ho) as Ee. unfold writeLine. rewrite O1, Ee. cbn [negb].
  destruct (sink line) as [msg|] eqn:Es; [|by eauto 6].
  unfold failed. cbn [np_state set_writable]. rewrite decide_True by done.
  unfold endSink. cbn [np_sinkEnded set_phase set_writable]. rewrite Ee. cbn. right. by exists line, msg.
Qed.
End Port.

#[local] Existing Instance conforming_checker.
#[local] Existing Instance plain_engine.

(** ** A port at work *)

Definition sample_port : ndjson_port :=
  {| np_maxFrameBytes := DEFAULT_MAX_FRAME_BYTES; np_decoder := sample_decoder; np_frames := []; np_closed := [];
     np_state := POpen; np_why := []; np_sinkWritable := true; np_sinkEnded := false |}.

Definition pipe : sink_fn := fun _ => None.
Definition broken_pipe : sink_fn := fun _ => Some (js "EPIPE").

(** A listener subscribes, then the pipe breaks under a send. *)
Definition subscribed : ndjson_port := (port_step pipe (POp (OpOnClosed 4)) sample_port).1.
Definition broken : ndjson_port * list port_effect := port_step broken_pipe (POp (OpSend FPing)) subscribed.

Lemma broken_reachable ok :
  ok sample_port (POp (OpOnClosed 4)) -> ok subscribed (POp (OpSend FPing)) -> port_reachable ok broken.1 broken.2.
Proof.
  intros H1 H2. apply (port_reach_step ok broken_pipe (POp (OpSend FPing)) subscribed []);
    [|done|vm_compute; reflexivity].
  apply (port_reach_step ok pipe (POp (OpOnClosed 4)) sample_port [] subscribed []); [|done|vm_compute; reflexivity].
  apply (port_reach_new ok None). vm_compute. reflexivity.
Qed.

Lemma sink_ended_once_witness :
  exists ws, Forall is_Some ws /\
    sink_calls broken.2 = ws ++ (if decide (np_state broken.1 = POpen) then [] else [None]).
Proof. apply (sink_ended_once (fun _ _ => True) broken.1 broken.2). by apply broken_reachable. Defined.

Lemma closure_reported_once_witness :
  reports broken.2 = [(4%nat, PClosed None (Some (js "EPIPE")))] /\
  reports (port_step pipe PEof broken.1).2 = [].
Proof.
  split; [vm_compute; reflexivity|].
  destruct (closure_reported_once broken.1 broken.2) as (_ & _ & _ & H).
  - apply broken_reachable; [vm_compute; reflexivity|exact I].
  - apply H; [vm_compute; discriminate|exact I].
Defined.

Lemma ports_deliver_in_order_witness :
  (let '(b', evs') := feed_all pipe silent sample_pieces (set_frames [1%nat] sample_port) in
   exists vs tail, evs' = map (WFrame 1) vs ++ tail /\ shows_none tail /\ map frame_of vs = map Some sample_stream /\ np_state b' = POpen)
  /\ (let '(b', evs') := feed_all pipe silent gap_pieces (set_frames [1%nat] sample_port) in
      exists vs tail, evs' = map (WFrame 1) vs ++ tail /\ shows_none tail /\ map frame_of vs = map Some sample_stream /\ np_state b' = PProtocolRefused).
Proof.
  split.
  - pose proof (ports_deliver_in_order None sample_port sample_port sample_port
      (map (fun l => WWrite (utf8_encode l) true) sample_lines) sample_stream 1 sample_pieces) as Hd.
    destruct (feed_all _ _ _ _) as [b' evs']. destruct Hd as (vs & tail & H1 & H2 & H3 & H4 & _);
      [vm_compute; reflexivity|vm_compute; reflexivity|repeat constructor|vm_compute; reflexivity|vm_compute; reflexivity|]. by exists vs, tail.
  - pose proof (ports_deliver_in_order None sample_port sample_port sample_port
      (map (fun l => WWrite (utf8_encode l) true) gap_lines) gap_stream 1 gap_pieces) as Hd.
    destruct (feed_all _ _ _ _) as [b' evs']. destruct Hd as (vs & tail & H1 & H2 & H3 & H4 & _);
      [vm_compute; reflexivity|vm_compute; reflexivity|repeat constructor|vm_compute; reflexivity|vm_compute; reflexivity|]. by exists vs, tail.
Defined.

Lemma send_contract_witness :
  match send broken_pipe FPing subscribed with (p', _, Some _) => np_state p' = PFailed | _ => False end.
Proof.
  assert (port_reachable (fun _ _ => True) subscribed []) as Hr.
  { apply (port_reach_step _ pipe (POp (OpOnClosed 4)) sample_port [] subscribed []); [|done|vm_compute; reflexivity].
    apply (port_reach_new _ None). vm_compute. reflexivity. }
  pose proof (send_contract broken_pipe FPing subscribed (fun _ _ => True) [] Hr) as H.
  vm_compute in H |- *. destruct H as [([H|[x H]] & _)|(_ & _ & _ & _ & H & _)]; [by destruct H|discriminate|done].
Defined.

(** A listener that closes the port on the last frame of a piece whose next record is
    refused: the refusal is processed on the closed port, which ends up in the
    state of a protocol error although its owner had closed it. *)
Definition close_on_frame : reaction := fun _ _ => [OpClose RELEASED None].

Example owner_close_overwritten :
  let p := set_frames [1%nat] sample_port in
  np_state (close pipe RELEASED None p).1 = PClosedByOwner /\
  np_state (feed pipe close_on_frame (concat (map utf8_encode (take 1 sample_lines)) ++ js "nope" ++ [10]) p).1 =
    PProtocolRefused.
Proof. vm_compute. auto. Qed.
