(* ===== verification/WebSocketPort.v ===== *)
(** * The WebSocket port

    [packages/protocol/src/transports/websocket.ts]: frames travel as runs of chunk
    messages through one queue, under the socket's backpressure; incoming messages
    are reassembled; the socket's close becomes the port's one closure. The socket
    is a parameter: what it does with each message it is handed (the [n]th of
    its life), and the close event its own [close] raises before returning, if
    it does. The two microtasks are inputs of their own. *)

From S2P Require Import Prelude Utf8 Regex Json JsonFacts Wire Frames Ndjson Chunk Listeners Session.

Inductive SendOutcome : Type := sent | buffered | dropped.

Record socket : Type := {
  sock_send : nat -> bytes -> SendOutcome;
  sock_close : Z -> option jstring -> option (Z * option jstring)
}.

(** [outcomeOfBunSend] *)
Definition outcomeOfBunSend (result : Z) : SendOutcome :=
  if result =? 0 then dropped else if result <? 0 then buffered else sent.

(** [isOriginAllowed]: [allowed.includes(origin)], exact. *)
Definition isOriginAllowed (origin : option jstring) (allowed : list jstring) : bool :=
  match origin with None => true | Some o => bool_decide (o ∈ allowed) end.

(** ** [clampCloseReason] *)

Definition MAX_CLOSE_REASON_BYTES : Z := 123.

(** The [while] loop: units are dropped from the end until the text fits. *)
Fixpoint shrink (fuel : nat) (text : jstring) : jstring :=
  match fuel with
  | O => text
  | S fuel =>
      if (0 <? zlen text) && (MAX_CLOSE_REASON_BYTES <? zlen (utf8_encode text))
      then shrink fuel (take (length text - 1) text)
      else text
  end.

Definition clampCloseReason (reason : option jstring) : option jstring :=
  match reason with
  | None => None
  | Some r =>
      if zlen (utf8_encode r) <=? MAX_CLOSE_REASON_BYTES then Some r
      else
        let text := take (Z.to_nat MAX_CLOSE_REASON_BYTES) r in
        Some (shrink (length text) text)
  end.

(** ** State *)

(** Sending: the queue, its size, and whether the socket asked to wait. *)
Record outbound : Type := { wq_queue : list bytes; wq_bytes : Z; wq_paused : bool; wq_sends : nat }.

(** Receiving: the reassembler, the frame listeners, and frames nobody has read. *)
Record inbound : Type := {
  wi_reassembler : ChunkReassembler;
  wi_frames : list nat;
  wi_arrivals : list json;
  wi_flushScheduled : bool
}.

(** The end: who asked for it, and the closure that is owed. *)
Record ending : Type := {
  we_open : bool;
  we_ownerClosed : bool;
  we_reported : bool;
  we_pending : option PortClosure;
  we_scheduled : bool;
  we_code : option Z;
  we_closed : list nat
}.

Record ws_config : Type := { wc_maxFrameBytes : Z; wc_chunk : ChunkOptions; wc_sendCloseFrame : bool }.

Record ws_port : Type := { wp_cfg : ws_config; wp_out : outbound; wp_in : inbound; wp_end : ending }.

(** What the port does to the world. [XAccepted], [XDecoded] and [XEmit] are marks for
    the theorems: chunks taken from [send], a frame the reassembler completed, and a
    frame handed to the listeners. *)
Inductive ws_effect : Type :=
| XAccepted (ms : list bytes)
| XSend (m : bytes) (o : SendOutcome)
| XSocketClose (code : Z) (reason : option jstring)
| XDecoded (v : json)
| XEmit (v : json)
| XFrame (l : nat) (v : json)
| XClosed (l : nat) (c : PortClosure).

Definition is_open (p : ws_port) : bool := we_open (wp_end p).

Definition with_out o (p : ws_port) : ws_port :=
  {| wp_cfg := wp_cfg p; wp_out := o; wp_in := wp_in p; wp_end := wp_end p |}.
Definition with_in i (p : ws_port) : ws_port :=
  {| wp_cfg := wp_cfg p; wp_out := wp_out p; wp_in := i; wp_end := wp_end p |}.
Definition with_end e (p : ws_port) : ws_port :=
  {| wp_cfg := wp_cfg p; wp_out := wp_out p; wp_in := wp_in p; wp_end := e |}.

Definition set_listeners l (i : inbound) : inbound :=
  {| wi_reassembler := wi_reassembler i; wi_frames := l; wi_arrivals := wi_arrivals i;
     wi_flushScheduled := wi_flushScheduled i |}.
Definition set_arrivals l (i : inbound) : inbound :=
  {| wi_reassembler := wi_reassembler i; wi_frames := wi_frames i; wi_arrivals := l;
     wi_flushScheduled := wi_flushScheduled i |}.
Definition set_flushScheduled b (i : inbound) : inbound :=
  {| wi_reassembler := wi_reassembler i; wi_frames := wi_frames i; wi_arrivals := wi_arrivals i;
     wi_flushScheduled := b |}.
Definition set_reassembler r (i : inbound) : inbound :=
  {| wi_reassembler := r; wi_frames := wi_frames i; wi_arrivals := wi_arrivals i;
     wi_flushScheduled := wi_flushScheduled i |}.

Definition set_ownerClosed (e : ending) : ending :=
  {| we_open := we_open e; we_ownerClosed := true; we_reported := we_reported e; we_pending := we_pending e;
     we_scheduled := we_scheduled e; we_code := we_code e; we_closed := we_closed e |}.
Definition set_pendingClosure c (e : ending) : ending :=
  {| we_open := we_open e; we_ownerClosed := we_ownerClosed e; we_reported := we_reported e; we_pending := c;
     we_scheduled := we_scheduled e; we_code := we_code e; we_closed := we_closed e |}.
Definition set_scheduled b (e : ending) : ending :=
  {| we_open := we_open e; we_ownerClosed := we_ownerClosed e; we_reported := we_reported e;
     we_pending := we_pending e; we_scheduled := b; we_code := we_code e; we_closed := we_closed e |}.
Definition set_closedListeners l (e : ending) : ending :=
  {| we_open := we_open e; we_ownerClosed := we_ownerClosed e; we_reported := we_reported e;
     we_pending := we_pending e; we_scheduled := we_scheduled e; we_code := we_code e; we_closed := l |}.

(** ** Ending *)

(** [#shutdown] *)
Definition shutdown (code : option Z) (p : ws_port) : ws_port :=
  if negb (is_open p) then p
  else
    {| wp_cfg := wp_cfg p;
       wp_out := {| wq_queue := []; wq_bytes := 0; wq_paused := false; wq_sends := wq_sends (wp_out p) |};
       wp_in := {| wi_reassembler := reset (wi_reassembler (wp_in p)); wi_frames := []; wi_arrivals := [];
                   wi_flushScheduled := wi_flushScheduled (wp_in p) |};
       wp_end := {| we_open := false; we_ownerClosed := we_ownerClosed (wp_end p);
                    we_reported := we_reported (wp_end p); we_pending := we_pending (wp_end p);
                    we_scheduled := we_scheduled (wp_end p); we_code := code;
                    we_closed := we_closed (wp_end p) |} |}.

(** [#report] *)
Definition report_closure (c : PortClosure) (p : ws_port) : ws_port * list ws_effect :=
  let e := wp_end p in
  if we_reported e || we_ownerClosed e then (p, [])
  else
    match we_closed e with
    | [] =>
        (with_end (set_pendingClosure (Some (default c (we_pending e))) e) p, [])
    | ls =>
        (with_end {| we_open := we_open e; we_ownerClosed := we_ownerClosed e; we_reported := true;
                     we_pending := None; we_scheduled := we_scheduled e; we_code := we_code e;
                     we_closed := [] |} p,
         map (fun l => XClosed l c) ls)
    end.

(** The socket closed; only a code of the reason-code range is a reason. *)
Definition receiveClose (code : Z) (reason : option jstring) (p : ws_port) : ws_port * list ws_effect :=
  let p := shutdown (Some code) p in
  if negb (isCloseCode (NInt code)) then report_closure (PClosed None None) p
  else
    report_closure (PClosed (Some code) (match reason with Some [] => None | r => r end)) p.

(** [sink.close], with the close event it may raise at once. *)
Definition close_socket (sock : socket) (code : Z) (reason : option jstring) (p : ws_port) : ws_port * list ws_effect :=
  match sock_close sock code reason with
  | None => (p, [XSocketClose code reason])
  | Some (c, r) => let '(p, e) := receiveClose c r p in (p, XSocketClose code reason :: e)
  end.

(** [receiveError] *)
Definition receiveError (msg : jstring) (p : ws_port) : ws_port * list ws_effect :=
  report_closure (PClosed None (Some msg)) (shutdown None p).

(** [#failSend] *)
Definition failSend (sock : socket) (reason : jstring) (p : ws_port) : ws_port * list ws_effect :=
  let p := shutdown (Some PROTOCOL_ERROR) p in
  let '(p, e1) := report_closure (PClosed (Some PROTOCOL_ERROR) (Some reason)) p in
  let '(p, e2) := close_socket sock PROTOCOL_ERROR (clampCloseReason (Some reason)) p in
  (p, e1 ++ e2).

(** [#failReceive] *)
Definition failReceive (sock : socket) (error : CodecError) (p : ws_port) : ws_port * list ws_effect :=
  let code := closeCodeForCodecError error in
  let p := shutdown (Some code) p in
  let '(p, e1) := report_closure (PProtocolError error code) p in
  let '(p, e2) := close_socket sock code (clampCloseReason (Some (message error))) p in
  (p, e1 ++ e2).

(** [refuseOrigin] *)
Definition refuseOrigin (sock : socket) (p : ws_port) : ws_port * list ws_effect :=
  let p := shutdown (Some FORBIDDEN) p in
  let '(p, e1) := close_socket sock FORBIDDEN (Some (js "origin not allowed")) p in
  let '(p, e2) := report_closure (PClosed (Some FORBIDDEN) (Some (js "origin not allowed"))) p in
  (p, e1 ++ e2).

(** ** Sending *)

Inductive flush_end : Type := FlushedAll | FlushPaused | FlushDropped (m : bytes).

(** The loop of [#flush] on an open port that is not paused. *)
Fixpoint flush_queue (sock : socket) (n : nat) (queue : list bytes) (size : Z)
    : list bytes * Z * nat * list ws_effect * flush_end :=
  match queue with
  | [] => ([], size, n, [], FlushedAll)
  | m :: rest =>
      match sock_send sock n m with
      | dropped => (queue, size, S n, [XSend m dropped], FlushDropped m)
      | buffered => (rest, size - zlen m, S n, [XSend m buffered], FlushPaused)
      | sent =>
          let '(q, sz, k, e, r) := flush_queue sock (S n) rest (size - zlen m) in
          (q, sz, k, XSend m sent :: e, r)
      end
  end.

(** The check behind the loop. *)
Definition check_backpressure (sock : socket) (p : ws_port) : ws_port * list ws_effect :=
  if wq_paused (wp_out p) && (wc_maxFrameBytes (wp_cfg p) <? wq_bytes (wp_out p)) then
    failSend sock (js "the send queue holds " ++ dec (wq_bytes (wp_out p)) ++
      js " bytes while the socket is not draining; expected at most " ++ dec (wc_maxFrameBytes (wp_cfg p))) p
  else (p, []).

(** [#flush] *)
Definition flush (sock : socket) (p : ws_port) : ws_port * list ws_effect :=
  let o := wp_out p in
  if is_open p && negb (wq_paused o) then
    let '(q, size, n, e1, r) := flush_queue sock (wq_sends o) (wq_queue o) (wq_bytes o) in
    let p := with_out {| wq_queue := q; wq_bytes := size;
                         wq_paused := match r with FlushPaused => true | _ => false end; wq_sends := n |} p in
    match r with
    | FlushedAll => (p, e1)
    | FlushDropped m =>
        let '(p, e2) := failSend sock (js "the socket dropped a " ++ dec (zlen m) ++
                          js "-byte chunk; expected it to be sent or buffered") p in
        (p, e1 ++ e2)
    | FlushPaused => let '(p, e2) := check_backpressure sock p in (p, e1 ++ e2)
    end
  else check_backpressure sock p.

Definition total (ms : list bytes) : Z := fold_right (fun m n => zlen m + n) 0 ms.

(** [#enqueue] *)
Definition enqueue (sock : socket) (ms : list bytes) (p : ws_port) : ws_port * list ws_effect :=
  let o := wp_out p in
  let '(p, e) := flush sock (with_out {| wq_queue := wq_queue o ++ ms; wq_bytes := wq_bytes o + total ms;
                                         wq_paused := wq_paused o; wq_sends := wq_sends o |} p) in
  (p, XAccepted ms :: e).

Definition frame_type (f : frame) : jstring :=
  match f with
  | FHello _ _ _ _ => js "hello" | FReq _ _ _ => js "req" | FRes _ _ => js "res" | FErr _ _ => js "err"
  | FEvt _ _ _ _ _ => js "evt" | FCancel _ => js "cancel" | FPing => js "ping" | FPong => js "pong"
  | FClose _ _ => js "close"
  end.

(** [#state] *)
Definition ws_state (p : ws_port) : jstring :=
  if is_open p then js "open"
  else match we_code (wp_end p) with None => js "closed" | Some c => js "closed with code " ++ dec c end.

Section Port.
  Context `{TypeBox, JsonEngine}.

(** [send]: the effects, and what it throws. *)
Definition ws_send (sock : socket) (f : frame) (p : ws_port) : ws_port * list ws_effect * option failure :=
  if negb (is_open p) then
    (p, [], Some (FOther (js "WebSocket port is " ++ ws_state p ++ js "; expected an open port to send a "
                          ++ frame_type f ++ js " frame.")))
  else
    match encodeChunks f (wc_chunk (wp_cfg p)) with
    | Err e => (p, [], Some (exn_failure e))
    | Ok ms => let '(p, e) := enqueue sock ms p in (p, e, None)
    end.

(** [#sendFarewell] *)
Definition sendFarewell (sock : socket) (code : Z) (reason : option jstring) (p : ws_port) : ws_port * list ws_effect :=
  if negb (isCloseCode (NInt code)) then (p, [])
  else
    match encodeChunks (FClose code reason) (wc_chunk (wp_cfg p)) with
    | Err _ => (p, [])
    | Ok ms => enqueue sock ms p
    end.

(** [close] *)
Definition ws_close (sock : socket) (code : Z) (reason : option jstring) (p : ws_port) : ws_port * list ws_effect :=
  if negb (is_open p) then (p, [])
  else
    let p := with_end (set_ownerClosed (wp_end p)) p in
    let '(p, e1) := if wc_sendCloseFrame (wp_cfg p) then sendFarewell sock code reason p else (p, []) in
    if negb (is_open p) then (p, e1)
    else
      let '(p, e2) := close_socket sock code (clampCloseReason reason) (shutdown (Some code) p) in
      (p, e1 ++ e2).

(** ** Subscribing *)

(** [#scheduleArrivals] *)
Definition scheduleArrivals (p : ws_port) : ws_port :=
  let i := wp_in p in
  match wi_flushScheduled i, wi_frames i, wi_arrivals i with
  | false, _ :: _, _ :: _ => with_in (set_flushScheduled true i) p
  | _, _, _ => p
  end.

(** [#scheduleClosure] *)
Definition scheduleClosure (p : ws_port) : ws_port :=
  let e := wp_end p in
  match we_scheduled e, we_pending e, we_closed e with
  | false, Some _, _ :: _ => with_end (set_scheduled true e) p
  | _, _, _ => p
  end.

Definition onFrame (l : nat) (p : ws_port) : ws_port :=
  scheduleArrivals (with_in (set_listeners (add l (wi_frames (wp_in p))) (wp_in p)) p).
Definition offFrame (l : nat) (p : ws_port) : ws_port :=
  with_in (set_listeners (remove l (wi_frames (wp_in p))) (wp_in p)) p.
Definition onClosed (l : nat) (p : ws_port) : ws_port :=
  scheduleClosure (with_end (set_closedListeners (add l (we_closed (wp_end p))) (wp_end p)) p).
Definition offClosed (l : nat) (p : ws_port) : ws_port :=
  with_end (set_closedListeners (remove l (we_closed (wp_end p))) (wp_end p)) p.

(** The microtask [#scheduleClosure] queued. *)
Definition closureTask (p : ws_port) : ws_port * list ws_effect :=
  let e := wp_end p in
  if negb (we_scheduled e) then (p, [])
  else
    let p := with_end (set_scheduled false e) p in
    match we_pending e with
    | None => (p, [])
    | Some c => report_closure c (with_end (set_pendingClosure None (set_scheduled false e)) p)
    end.

(** ** Receiving *)

Inductive ws_op : Type :=
| WsSend (f : frame)
| WsClose (code : Z) (reason : option jstring)
| WsOnFrame (l : nat)
| WsOffFrame (l : nat)
| WsOnClosed (l : nat)
| WsOffClosed (l : nat).

Definition ws_apply (sock : socket) (op : ws_op) (p : ws_port) : ws_port * list ws_effect :=
  match op with
  | WsSend f => let '(p, e, _) := ws_send sock f p in (p, e)
  | WsClose code reason => ws_close sock code reason p
  | WsOnFrame l => (onFrame l p, [])
  | WsOffFrame l => (offFrame l p, [])
  | WsOnClosed l => (onClosed l p, [])
  | WsOffClosed l => (offClosed l p, [])
  end.

Fixpoint ws_apply_all (sock : socket) (ops : list ws_op) (p : ws_port) : ws_port * list ws_effect :=
  match ops with
  | [] => (p, [])
  | op :: rest =>
      let '(p, e1) := ws_apply sock op p in
      let '(p, e2) := ws_apply_all sock rest p in
      (p, e1 ++ e2)
  end.

(** What each frame listener does with the port when it is called. *)
Definition ws_reaction : Type := nat -> json -> list ws_op.

Fixpoint call_listeners (sock : socket) (react : ws_reaction) (v : json) (snapshot : list nat) (p : ws_port)
    : ws_port * list ws_effect :=
  match snapshot with
  | [] => (p, [])
  | l :: rest =>
      let '(p, e1) := ws_apply_all sock (react l v) p in
      let '(p, e2) := call_listeners sock react v rest p in
      (p, XFrame l v :: e1 ++ e2)
  end.

(** [#frames.emit(frame)] *)
Definition emit_to_listeners (sock : socket) (react : ws_reaction) (v : json) (p : ws_port) : ws_port * list ws_effect :=
  let '(p, e) := call_listeners sock react v (wi_frames (wp_in p)) p in (p, XEmit v :: e).

(** [#deliver] *)
Definition deliver_frame (sock : socket) (react : ws_reaction) (v : json) (p : ws_port) : ws_port * list ws_effect :=
  match wi_frames (wp_in p), wi_arrivals (wp_in p) with
  | _ :: _, [] => emit_to_listeners sock react v p
  | _, waiting => (scheduleArrivals (with_in (set_arrivals (waiting ++ [v]) (wp_in p)) p), [])
  end.

(** The loop of the microtask [#scheduleArrivals] queued; nothing a listener does adds
    an arrival, so their number bounds the turns. *)
Fixpoint drain_arrivals (fuel : nat) (sock : socket) (react : ws_reaction) (p : ws_port) : ws_port * list ws_effect :=
  match fuel with
  | O => (p, [])
  | S fuel =>
      match wi_frames (wp_in p), wi_arrivals (wp_in p) with
      | _ :: _, v :: rest =>
          let '(p, e1) := emit_to_listeners sock react v (with_in (set_arrivals rest (wp_in p)) p) in
          let '(p, e2) := drain_arrivals fuel sock react p in
          (p, e1 ++ e2)
      | _, _ => (p, [])
      end
  end.

Definition arrivalsTask (sock : socket) (react : ws_reaction) (p : ws_port) : ws_port * list ws_effect :=
  if negb (wi_flushScheduled (wp_in p)) then (p, [])
  else drain_arrivals (length (wi_arrivals (wp_in p))) sock react (with_in (set_flushScheduled false (wp_in p)) p).

(** [asCodecError] *)
Definition asCodecError (e : exn) : CodecError :=
  match e with
  | ECodec c => c
  | ERange m => codecError schema_refused (js "the chunk decoder threw " ++ m ++ js "; expected a CodecError")
  end.

(** One incoming message: bytes, or text of some length. *)
Inductive ws_message : Type := WBytes (m : bytes) | WText (characters : Z).

Definition WEBSOCKET_SUBPROTOCOL : jstring := js "mango.v1".

(** [receiveMessage] *)
Definition receiveMessage (sock : socket) (react : ws_reaction) (m : ws_message) (p : ws_port)
    : ws_port * list ws_effect :=
  if negb (is_open p) then (p, [])
  else
    match m with
    | WText n =>
        failReceive sock (codecError schema_refused
          (js "message is text of " ++ dec n ++ js " characters; expected a binary message, the only kind "
           ++ WEBSOCKET_SUBPROTOCOL ++ js " carries")) p
    | WBytes b =>
        match push_message (wi_reassembler (wp_in p)) b with
        | (r, Err e) => failReceive sock (asCodecError e) (with_in (set_reassembler r (wp_in p)) p)
        | (r, Ok None) => (with_in (set_reassembler r (wp_in p)) p, [])
        | (r, Ok (Some v)) =>
            let '(p, e) := deliver_frame sock react v (with_in (set_reassembler r (wp_in p)) p) in
            (p, XDecoded v :: e)
        end
    end.

(** [receiveDrain] *)
Definition receiveDrain (sock : socket) (p : ws_port) : ws_port * list ws_effect :=
  let o := wp_out p in
  if negb (is_open p) || negb (wq_paused o) then (p, [])
  else flush sock (with_out {| wq_queue := wq_queue o; wq_bytes := wq_bytes o; wq_paused := false;
                               wq_sends := wq_sends o |} p).

(** ** Construction *)

Record WebSocketPortOptions : Type := {
  wo_maxFrameBytes : option jsarg;
  wo_maxMessageBytes : option jsarg;
  wo_sendCloseFrame : option bool;
  wo_accept : option (option jstring * list jstring)
}.

Definition newWebSocketPort (o : WebSocketPortOptions) : outcome exn ws_port :=
  limit ← range (resolveFrameLimit (wo_maxFrameBytes o));
  r ← newChunkReassembler (Some (ANum (NInt limit)));
  Ok {| wp_cfg := {| wc_maxFrameBytes := limit;
                     wc_chunk := {| co_maxMessageBytes := wo_maxMessageBytes o;
                                    co_maxFrameBytes := Some (ANum (NInt limit)) |};
                     wc_sendCloseFrame := default true (wo_sendCloseFrame o) |};
        wp_out := {| wq_queue := []; wq_bytes := 0; wq_paused := false; wq_sends := 0 |};
        wp_in := {| wi_reassembler := r; wi_frames := []; wi_arrivals := []; wi_flushScheduled := false |};
        wp_end := {| we_open := true; we_ownerClosed := false; we_reported := false; we_pending := None;
                     we_scheduled := false; we_code := None; we_closed := [] |} |}.

(** [createWebSocketPort] *)
Definition createWebSocketPort (sock : socket) (o : WebSocketPortOptions) : outcome exn (ws_port * list ws_effect) :=
  p ← newWebSocketPort o;
  Ok (match wo_accept o with
      | Some (origin, allowed) => if isOriginAllowed origin allowed then (p, []) else refuseOrigin sock p
      | None => (p, [])
      end).

(** ** The port as a transition system *)

Inductive ws_input : Type :=
| WMessage (m : ws_message) (react : ws_reaction)
| WDrain
| WSocketClosed (code : Z) (reason : option jstring)
| WSocketError (msg : jstring)
| WArrivals (react : ws_reaction)
| WClosure
| WOp (op : ws_op).

Definition ws_step (sock : socket) (i : ws_input) (p : ws_port) : ws_port * list ws_effect :=
  match i with
  | WMessage m react => receiveMessage sock react m p
  | WDrain => receiveDrain sock p
  | WSocketClosed code reason => receiveClose code reason p
  | WSocketError msg => receiveError msg p
  | WArrivals react => arrivalsTask sock react p
  | WClosure => closureTask p
  | WOp op => ws_apply sock op p
  end.

Inductive ws_reachable (sock : socket) : ws_port -> list ws_effect -> Prop :=
| ws_reach_new o p evs : createWebSocketPort sock o = Ok (p, evs) -> ws_reachable sock p evs
| ws_reach_step i p evs p' evs' :
    ws_reachable sock p evs -> ws_step sock i p = (p', evs') -> ws_reachable sock p' (evs ++ evs').
End Port.
