(* ===== verification/WebSocketFacts.v ===== *)
(** * What a WebSocket port guarantees

    The send queue is bounded and first-in first-out, frames reach their
    listeners in the order they were decoded, one closure is reported and held
    until somebody listens, a refused origin sees nothing, and the close reason
    fits the control frame. *)

From S2P Require Import Prelude Utf8 Regex Json JsonFacts Wire Frames Ndjson Chunk Listeners Session WebSocketPort.

(** ** What a run of effects did *)

(** Chunks taken from [send], chunks the socket took, frames decoded, frames emitted. *)
Definition accepted (evs : list ws_effect) : list bytes :=
  concat (omap (fun e => match e with XAccepted ms => Some ms | _ => None end) evs).
Definition taken (evs : list ws_effect) : list bytes :=
  omap (fun e => match e with XSend m sent | XSend m buffered => Some m | _ => None end) evs.
Definition decoded (evs : list ws_effect) : list json :=
  omap (fun e => match e with XDecoded v => Some v | _ => None end) evs.
Definition emitted (evs : list ws_effect) : list json :=
  omap (fun e => match e with XEmit v => Some v | _ => None end) evs.

Lemma accepted_app a b : accepted (a ++ b) = accepted a ++ accepted b.
Proof. unfold accepted. by rewrite omap_app, concat_app. Qed.
Lemma taken_app a b : taken (a ++ b) = taken a ++ taken b.
Proof. apply omap_app. Qed.
Lemma decoded_app a b : decoded (a ++ b) = decoded a ++ decoded b.
Proof. apply omap_app. Qed.
Lemma emitted_app a b : emitted (a ++ b) = emitted a ++ emitted b.
Proof. apply omap_app. Qed.

(** Effects that move no chunk and no frame. *)
Record quiet (evs : list ws_effect) : Prop := {
  q_accepted : accepted evs = [];
  q_taken : taken evs = [];
  q_decoded : decoded evs = [];
  q_emitted : emitted evs = []
}.

Lemma quiet_nil : quiet [].
Proof. done. Qed.

Lemma quiet_app a b : quiet a -> quiet b -> quiet (a ++ b).
Proof.
  intros [A1 A2 A3 A4] [B1 B2 B3 B4].
  split; [rewrite accepted_app, A1, B1|rewrite taken_app, A2, B2|rewrite decoded_app, A3, B3|rewrite emitted_app, A4, B4];
    done.
Qed.

Lemma quiet_closed (l : list nat) c : quiet (map (fun l => XClosed l c) l).
Proof. induction l as [|x l [IH1 IH2 IH3 IH4]]; done. Qed.

(** ** The state between two calls *)

(** The queue is counted, is empty unless the socket asked to wait, then holds at
    most one frame limit; a closed port holds nothing. *)
Record ws_ok (p : ws_port) : Prop := {
  ok_bytes : wq_bytes (wp_out p) = total (wq_queue (wp_out p));
  ok_flushed : is_open p = true -> wq_paused (wp_out p) = false -> wq_queue (wp_out p) = [];
  ok_bounded : is_open p = true -> wq_bytes (wp_out p) <= wc_maxFrameBytes (wp_cfg p);
  ok_closed : is_open p = false -> wq_queue (wp_out p) = [] /\ wi_arrivals (wp_in p) = [] /\ wq_paused (wp_out p) = false;
  ok_limit : 0 <= wc_maxFrameBytes (wp_cfg p)
}.

(** From [p] to [p'] with effects [evs]: while the port is open nothing is lost or
    reordered; when it closes, what got through is a prefix; a closed port moves nothing. *)
Record ws_log (p : ws_port) (evs : list ws_effect) (p' : ws_port) : Prop := {
  l_ok : ws_ok p';
  l_closed : is_open p = false -> is_open p' = false /\ quiet evs;
  l_open : is_open p' = true -> is_open p = true /\
    wq_queue (wp_out p) ++ accepted evs = taken evs ++ wq_queue (wp_out p') /\
    wi_arrivals (wp_in p) ++ decoded evs = emitted evs ++ wi_arrivals (wp_in p');
  l_prefix : is_open p = true ->
    taken evs `prefix_of` wq_queue (wp_out p) ++ accepted evs /\
    emitted evs `prefix_of` wi_arrivals (wp_in p) ++ decoded evs
}.

(** Nothing moved: the queue, the arrivals and the state are as they were. *)
Lemma ws_log_still p evs p' :
  ws_ok p' -> quiet evs -> is_open p' = is_open p -> wq_queue (wp_out p') = wq_queue (wp_out p) ->
  wi_arrivals (wp_in p') = wi_arrivals (wp_in p) -> ws_log p evs p'.
Proof.
  intros Hok [Q1 Q2 Q3 Q4] E1 E2 E3. split; [done|by rewrite E1| |].
  - rewrite E1, E2, E3, Q1, Q2, Q3, Q4, !app_nil_r. done.
  - rewrite Q2, Q4. intros _. split; apply prefix_nil.
Qed.

Lemma ws_log_refl p : ws_ok p -> ws_log p [] p.
Proof. intros Hok. by apply ws_log_still. Qed.

Lemma ws_log_trans p1 e1 p2 e2 p3 : ws_log p1 e1 p2 -> ws_log p2 e2 p3 -> ws_log p1 (e1 ++ e2) p3.
Proof.
  intros [O1 C1 A1 P1] [O2 C2 A2 P2]. split; [done| | |].
  - intros E. destruct (C1 E) as [E2 Q1]. destruct (C2 E2) as [E3 Q2]. split; [done|by apply quiet_app].
  - intros E3. destruct (A2 E3) as (E2 & B1 & B2). destruct (A1 E2) as (E1 & D1 & D2). split; [done|].
    rewrite accepted_app, taken_app, decoded_app, emitted_app, !app_assoc, D1, D2, <- !app_assoc, B1, B2. done.
  - intros E1. destruct (P1 E1) as [X1 X2]. rewrite accepted_app, taken_app, decoded_app, emitted_app.
    destruct (is_open p2) eqn:E2.
    + destruct (A1 eq_refl) as (_ & D1 & D2). destruct (P2 eq_refl) as [Y1 Y2].
      rewrite !(app_assoc (wq_queue _)), !(app_assoc (wi_arrivals _)), D1, D2, <- !app_assoc.
      split; by apply prefix_app.
    + destruct (C2 eq_refl) as [_ [-> -> -> ->]]. by rewrite !app_nil_r.
Qed.

(** Effects in front that are no marks. *)
Lemma ws_log_quiet p e evs p' : quiet e -> ws_log p evs p' -> ws_log p (e ++ evs) p'.
Proof.
  intros [Q1 Q2 Q3 Q4] [O C A P].
  split; [done| | |]; rewrite ?accepted_app, ?taken_app, ?decoded_app, ?emitted_app, ?Q1, ?Q2, ?Q3, ?Q4; cbn [app]; auto.
  intros E. destruct (C E). split; [done|]. apply quiet_app; done.
Qed.

(** ** Ending *)

Lemma shutdown_closed code p : is_open (shutdown code p) = false.
Proof. unfold shutdown. by destruct (is_open p) eqn:E. Qed.

Lemma shutdown_ok code p : ws_ok p -> ws_ok (shutdown code p).
Proof.
  intros Hok. unfold shutdown. destruct (is_open p) eqn:E; [|done]. cbn. destruct Hok. split; cbn; try done.
Qed.

(** A closed port that stays as it is. *)
Record rests (p p' : ws_port) : Prop := {
  r_open : is_open p' = is_open p;
  r_out : wp_out p' = wp_out p;
  r_in : wp_in p' = wp_in p;
  r_cfg : wp_cfg p' = wp_cfg p
}.

Lemma rests_ok p p' : rests p p' -> ws_ok p -> ws_ok p'.
Proof. intros [R1 R2 R3 R4] []. split; rewrite ?R1, ?R2, ?R3, ?R4; auto. Qed.

Lemma report_closure_rests c p : rests p (report_closure c p).1 /\ quiet (report_closure c p).2.
Proof.
  unfold report_closure. destruct (_ || _); [done|].
  destruct (we_closed (wp_end p)) as [|l ls]; cbn; [done|]. split; [done|]. apply (quiet_closed (l :: ls)).
Qed.

Lemma receiveClose_rests code reason p :
  is_open p = false -> rests p (receiveClose code reason p).1 /\ quiet (receiveClose code reason p).2.
Proof.
  intros E. unfold receiveClose.
  assert (shutdown (Some code) p = p) as -> by (unfold shutdown; by rewrite E).
  destruct (negb _); apply report_closure_rests.
Qed.

Lemma close_socket_rests sock code reason p :
  is_open p = false -> rests p (close_socket sock code reason p).1 /\ quiet (close_socket sock code reason p).2.
Proof.
  intros E. unfold close_socket. destruct (sock_close sock code reason) as [[c r]|]; [|done].
  destruct (receiveClose_rests c r p E) as [R Q]. destruct (receiveClose c r p); cbn [fst snd] in *.
  split; [done|]. by apply (quiet_app [_]).
Qed.

Lemma rests_trans p1 p2 p3 : rests p1 p2 -> rests p2 p3 -> rests p1 p3.
Proof. intros [] []. split; congruence. Qed.

(** A port that closes here, quietly. *)
Lemma ws_log_end p evs p' : ws_ok p' -> is_open p' = false -> quiet evs -> ws_log p evs p'.
Proof.
  intros Hok E Q. split; [done|done|congruence|]. intros _. destruct Q as [_ -> _ ->]. split; apply prefix_nil.
Qed.

Lemma failSend_log sock reason p :
  ws_ok (shutdown (Some PROTOCOL_ERROR) p) ->
  let '(p', e) := failSend sock reason p in ws_ok p' /\ is_open p' = false /\ quiet e /\ wp_cfg p' = wp_cfg p.
Proof.
  intros Hok. unfold failSend. set (p1 := shutdown _ p) in *.
  assert (is_open p1 = false) as E1 by apply shutdown_closed.
  assert (wp_cfg p1 = wp_cfg p) as Ec by (subst p1; unfold shutdown; by destruct (is_open p)).
  destruct (report_closure_rests (PClosed (Some PROTOCOL_ERROR) (Some reason)) p1) as [R1 Q1].
  destruct (report_closure _ p1) as [p2 e1]; cbn [fst snd] in *.
  destruct (close_socket_rests sock PROTOCOL_ERROR (clampCloseReason (Some reason)) p2) as [R2 Q2].
  { by rewrite (r_open _ _ R1). }
  destruct (close_socket _ _ _ p2) as [p3 e2]; cbn [fst snd] in *.
  pose proof (rests_trans _ _ _ R1 R2) as R. split; [by eapply rests_ok|].
  split; [by rewrite (r_open _ _ R)|]. split; [by apply quiet_app|]. by rewrite (r_cfg _ _ R).
Qed.

Lemma failReceive_log sock err p : ws_ok p -> ws_log p (failReceive sock err p).2 (failReceive sock err p).1.
Proof.
  intros Hok. unfold failReceive. set (code := closeCodeForCodecError err).
  pose proof (shutdown_ok (Some code) p Hok) as Hok1. pose proof (shutdown_closed (Some code) p) as E1.
  set (p1 := shutdown _ p) in *.
  destruct (report_closure_rests (PProtocolError err code) p1) as [R1 Q1].
  destruct (report_closure _ p1) as [p2 e1]; cbn [fst snd] in *.
  destruct (close_socket_rests sock code (clampCloseReason (Some (message err))) p2) as [R2 Q2].
  { by rewrite (r_open _ _ R1). }
  destruct (close_socket _ _ _ p2) as [p3 e2]; cbn [fst snd] in *.
  pose proof (rests_trans _ _ _ R1 R2) as R. apply ws_log_end; [by eapply rests_ok|by rewrite (r_open _ _ R)|by apply quiet_app].
Qed.

(** ** Sending *)

Lemma total_app a b : total (a ++ b) = total a + total b.
Proof. induction a as [|m a IH]; cbn; [done|]. fold (total (a ++ b)) (total a). lia. Qed.

Lemma flush_queue_spec sock n q :
  let '(q', size, _, e, r) := flush_queue sock n q (total q) in
  size = total q' /\ q = taken e ++ q' /\ accepted e = [] /\ decoded e = [] /\ emitted e = [] /\
  match r with FlushedAll => q' = [] | _ => True end.
Proof.
  revert n; induction q as [|m q IH]; intros n; [done|]. cbn [flush_queue].
  replace (total (m :: q) - zlen m) with (total q) by (cbn; fold (total q); lia).
  destruct (sock_send sock n m); [|done|done].
  specialize (IH (S n)). destruct (flush_queue sock (S n) q (total q)) as [[[[q' sz] k] e] r].
  destruct IH as (I1 & I2 & I3 & I4 & I5 & I6). subst q.
  split; [done|]. split; [done|]. done.
Qed.

(** [#flush] of an open port whose queue is counted: what the socket took is a prefix
    of the queue, the rest stays unless the port failed. *)
Lemma flush_spec sock p :
  is_open p = true -> wq_bytes (wp_out p) = total (wq_queue (wp_out p)) -> 0 <= wc_maxFrameBytes (wp_cfg p) ->
  let '(p', e) := flush sock p in
  ws_ok p' /\ wp_cfg p' = wp_cfg p /\ accepted e = [] /\ decoded e = [] /\ emitted e = [] /\
  taken e `prefix_of` wq_queue (wp_out p) /\
  (is_open p' = true -> wq_queue (wp_out p) = taken e ++ wq_queue (wp_out p') /\ wp_in p' = wp_in p).
Proof.
  intros Ho Hb Hl. unfold flush. rewrite Ho. cbn [andb].
  assert (forall q, is_open q = true -> wq_bytes (wp_out q) = total (wq_queue (wp_out q)) ->
    wp_cfg q = wp_cfg p -> wq_paused (wp_out q) = true ->
    let '(p', e) := check_backpressure sock q in
    ws_ok p' /\ wp_cfg p' = wp_cfg p /\ quiet e /\ (is_open p' = true -> p' = q)) as Hcheck.
  { intros q E1 E2 E3 E4. unfold check_backpressure. rewrite E4. cbn [andb].
    destruct (Z.ltb_spec (wc_maxFrameBytes (wp_cfg q)) (wq_bytes (wp_out q))).
    - match goal with |- context [failSend sock ?r q] => pose proof (failSend_log sock r q) as Hf;
        destruct (failSend sock r q) as [p' e] end.
      destruct Hf as (F1 & F2 & F3 & F4).
      { unfold shutdown. rewrite E1. cbn. split; cbn; try done. by rewrite E3. }
      split; [done|]. split; [congruence|]. split; [done|]. congruence.
    - split; [|by split]. split; try done; [congruence|congruence|by rewrite E3]. }
  destruct (wq_paused (wp_out p)) eqn:Ep; cbn [negb].
  { specialize (Hcheck p Ho Hb eq_refl Ep). destruct (check_backpressure sock p) as [p' e].
    destruct Hcheck as (C1 & C2 & [Q1 Q2 Q3 Q4] & C4). rewrite Q2. repeat (split; [done|]).
    split; [apply prefix_nil|]. intros E. by rewrite (C4 E). }
  rewrite Hb. pose proof (flush_queue_spec sock (wq_sends (wp_out p)) (wq_queue (wp_out p))) as Hq.
  destruct (flush_queue _ _ _ _) as [[[[q size] n] e1] r].
  destruct Hq as (-> & Eq & A1 & D1 & M1 & Er). rewrite Eq.
  assert (taken e1 `prefix_of` taken e1 ++ q) as Hpre by (by exists q).
  destruct r as [| |m].
  - subst q. split; [|done]. split; cbn; try done. intros E. unfold is_open in *. cbn in *. exfalso. congruence.
  - set (p1 := with_out _ p). specialize (Hcheck p1 Ho eq_refl eq_refl eq_refl).
    destruct (check_backpressure sock p1) as [p' e]. destruct Hcheck as (C1 & C2 & [Q1 Q2 Q3 Q4] & C4).
    rewrite accepted_app, decoded_app, emitted_app, taken_app, A1, D1, M1, Q1, Q2, Q3, Q4, !app_nil_r.
    repeat (split; [done|]). intros E. by rewrite (C4 E).
  - match goal with |- context [failSend sock ?rr ?p1] => pose proof (failSend_log sock rr p1) as Hf;
      destruct (failSend sock rr p1) as [p' e] end.
    destruct Hf as (F1 & F2 & [Q1 Q2 Q3 Q4] & F4).
    { unfold shutdown. replace (is_open (with_out _ p)) with true by (by rewrite <- Ho). cbn. split; cbn; done. }
    rewrite accepted_app, decoded_app, emitted_app, taken_app, A1, D1, M1, Q1, Q2, Q3, Q4, !app_nil_r.
    repeat (split; [done|]). congruence.
Qed.

Lemma enqueue_log sock ms p :
  ws_ok p -> is_open p = true -> ws_log p (enqueue sock ms p).2 (enqueue sock ms p).1 /\
  wp_cfg (enqueue sock ms p).1 = wp_cfg p.
Proof.
  intros Hok Ho. unfold enqueue. set (p1 := with_out _ p).
  pose proof (flush_spec sock p1 Ho) as Hf. destruct (flush sock p1) as [p' e]. cbn [fst snd].
  destruct Hf as (F1 & F2 & F3 & F4 & F5 & F6 & F7).
  { cbn. by rewrite total_app, (ok_bytes _ Hok). }
  { apply Hok. }
  assert (accepted (XAccepted ms :: e) = ms) as Ea.
  { unfold accepted in *. cbn. rewrite F3. apply app_nil_r. }
  split; [|done]. split; [done|congruence| |].
  - intros E. destruct (F7 E) as [G1 G2]. rewrite Ea, G2. cbn in G1. split; [done|]. split; [exact G1|].
    change (decoded (XAccepted ms :: e)) with (decoded e). change (emitted (XAccepted ms :: e)) with (emitted e).
    by rewrite F4, F5, app_nil_r.
  - intros _. rewrite Ea. split; [exact F6|].
    change (emitted (XAccepted ms :: e)) with (emitted e). rewrite F5. apply prefix_nil.
Qed.

Section Facts.
  Context `{TypeBox, JsonEngine}.

Lemma ws_send_log sock f p : ws_ok p -> ws_log p (ws_send sock f p).1.2 (ws_send sock f p).1.1.
Proof.
  intros Hok. unfold ws_send. destruct (is_open p) eqn:Ho; cbn [negb]; [|by apply ws_log_refl].
  destruct (encodeChunks _ _) as [ms|]; [|by apply ws_log_refl].
  destruct (enqueue_log sock ms p Hok Ho) as [L _]. by destruct (enqueue sock ms p).
Qed.

Lemma end_owner_ok p : ws_ok p -> ws_ok (with_end (set_ownerClosed (wp_end p)) p).
Proof. intros []. by split. Qed.

(** A log is a matter of the queue, the arrivals and the open flag. *)
Lemma ws_log_from p q evs p' :
  ws_log p evs p' -> is_open q = is_open p -> wp_out q = wp_out p -> wi_arrivals (wp_in q) = wi_arrivals (wp_in p) ->
  ws_log q evs p'.
Proof. intros [O C A P] E1 E2 E3. split; rewrite ?E1, ?E2, ?E3; auto. Qed.

Lemma ws_log_to p evs p' q :
  ws_log p evs p' -> is_open q = is_open p' -> wp_out q = wp_out p' ->
  wi_arrivals (wp_in q) = wi_arrivals (wp_in p') -> wp_cfg q = wp_cfg p' -> ws_log p evs q.
Proof.
  intros [[] C A P] E1 E2 E3 E4. split; rewrite ?E1, ?E2, ?E3; auto. split; rewrite ?E1, ?E2, ?E3, ?E4; auto.
Qed.

Lemma close_after_log sock code reason p p1 e1 :
  ws_log p e1 p1 -> is_open p1 = true ->
  let '(p2, e2) := close_socket sock code reason (shutdown (Some code) p1) in ws_log p (e1 ++ e2) p2.
Proof.
  intros L Ho. pose proof (l_ok _ _ _ L) as Hok.
  destruct (close_socket_rests sock code reason (shutdown (Some code) p1)) as [R Q]; [apply shutdown_closed|].
  destruct (close_socket _ _ _ _) as [p2 e2]; cbn [fst snd] in *. eapply ws_log_trans; [exact L|].
  apply ws_log_end; [|by rewrite (r_open _ _ R), shutdown_closed|done].
  eapply rests_ok; [exact R|by apply shutdown_ok].
Qed.

Lemma ws_close_log sock code reason p : ws_ok p -> ws_log p (ws_close sock code reason p).2 (ws_close sock code reason p).1.
Proof.
  intros Hok. unfold ws_close. destruct (is_open p) eqn:Ho; cbn [negb]; [|by apply ws_log_refl].
  set (p1 := with_end _ p). pose proof (end_owner_ok p Hok) as Hok1. fold p1 in Hok1.
  assert (let '(p2, e1) := if wc_sendCloseFrame (wp_cfg p1) then sendFarewell sock code reason p1 else (p1, []) in
          ws_log p e1 p2) as L.
  { assert (ws_log p [] p1) as L0 by (by apply ws_log_still).
    destruct (wc_sendCloseFrame _); [|done]. unfold sendFarewell. destruct (negb _); [done|].
    destruct (encodeChunks _ _) as [ms|]; [|done].
    destruct (enqueue_log sock ms p1 Hok1 Ho) as [L _]. destruct (enqueue sock ms p1) as [p2 e]; cbn [fst snd] in *.
    by eapply ws_log_from. }
  destruct (if wc_sendCloseFrame (wp_cfg p1) then _ else _) as [p2 e1].
  destruct (is_open p2) eqn:Ho2; cbn [negb]; [|done].
  pose proof (close_after_log sock code (clampCloseReason reason) p p2 e1 L Ho2) as L2.
  by destruct (close_socket _ _ _ _).
Qed.

Lemma scheduleArrivals_rests p : is_open (scheduleArrivals p) = is_open p /\ wp_out (scheduleArrivals p) = wp_out p /\
  wi_arrivals (wp_in (scheduleArrivals p)) = wi_arrivals (wp_in p) /\ wp_cfg (scheduleArrivals p) = wp_cfg p /\
  wp_end (scheduleArrivals p) = wp_end p.
Proof. unfold scheduleArrivals. by destruct (wi_flushScheduled (wp_in p)), (wi_frames (wp_in p)), (wi_arrivals (wp_in p)) eqn:E. Qed.

Lemma scheduleClosure_rests p : rests p (scheduleClosure p).
Proof. unfold scheduleClosure. by destruct (we_scheduled (wp_end p)), (we_pending (wp_end p)), (we_closed (wp_end p)). Qed.

Lemma ws_apply_log sock op p : ws_ok p -> ws_log p (ws_apply sock op p).2 (ws_apply sock op p).1.
Proof.
  intros Hok. destruct op; cbn [ws_apply fst snd].
  - pose proof (ws_send_log sock f p Hok). by destruct (ws_send sock f p) as [[]].
  - by apply ws_close_log.
  - unfold onFrame. match goal with |- context [scheduleArrivals ?q] => destruct (scheduleArrivals_rests q) as (E1 & E2 & E3 & E4 & _) end.
    eapply ws_log_to; [apply (ws_log_refl p Hok)|..]; done.
  - eapply ws_log_to; [apply (ws_log_refl p Hok)|..]; done.
  - unfold onClosed. match goal with |- context [scheduleClosure ?q] => destruct (scheduleClosure_rests q) as [E1 E2 E3 E4] end.
    eapply ws_log_to; [apply (ws_log_refl p Hok)|..]; [done|done|by rewrite E3|done].
  - eapply ws_log_to; [apply (ws_log_refl p Hok)|..]; done.
Qed.

Lemma ws_apply_all_log sock ops p : ws_ok p -> ws_log p (ws_apply_all sock ops p).2 (ws_apply_all sock ops p).1.
Proof.
  revert p; induction ops as [|op ops IH]; intros p Hok; [by apply ws_log_refl|]. cbn [ws_apply_all].
  pose proof (ws_apply_log sock op p Hok) as L1. destruct (ws_apply sock op p) as [p1 e1]; cbn [fst snd] in *.
  pose proof (IH p1 (l_ok _ _ _ L1)) as L2. destruct (ws_apply_all sock ops p1); cbn [fst snd] in *.
  by eapply ws_log_trans.
Qed.

Lemma call_listeners_log sock react v ls p :
  ws_ok p -> ws_log p (call_listeners sock react v ls p).2 (call_listeners sock react v ls p).1.
Proof.
  revert p; induction ls as [|l ls IH]; intros p Hok; [by apply ws_log_refl|]. cbn [call_listeners].
  pose proof (ws_apply_all_log sock (react l v) p Hok) as L1. destruct (ws_apply_all _ _ p) as [p1 e1]; cbn [fst snd] in *.
  pose proof (IH p1 (l_ok _ _ _ L1)) as L2. destruct (call_listeners _ _ _ ls p1); cbn [fst snd] in *.
  apply (ws_log_quiet p [XFrame l v]); [done|]. by eapply ws_log_trans.
Qed.

(** Emitting the frame at the head of the line. *)
Lemma emit_log sock react v p q :
  ws_ok q -> is_open p = is_open q -> is_open p = true -> wp_out p = wp_out q -> wi_arrivals (wp_in p) = v :: wi_arrivals (wp_in q) ->
  ws_log p (emit_to_listeners sock react v q).2 (emit_to_listeners sock react v q).1.
Proof.
  intros Hok E1 Ho E2 E3. unfold emit_to_listeners.
  pose proof (call_listeners_log sock react v (wi_frames (wp_in q)) q Hok) as [O C A P].
  destruct (call_listeners _ _ _ _ q) as [p1 e]; cbn [fst snd] in *.
  change (XEmit v :: e) with ([XEmit v] ++ e).
  split; [done|congruence| |]; rewrite accepted_app, taken_app, decoded_app, emitted_app; rewrite E1, E2, E3.
  - intros E. destruct (A E) as (A1 & A2 & A3). split; [done|]. split; [exact A2|]. cbn. by rewrite A3.
  - intros Hq. destruct (P Hq) as [P1 P2]. split; [exact P1|]. cbn. by apply prefix_cons.
Qed.

(** A decoded frame is emitted at once or takes its place behind those waiting. *)
Lemma deliver_frame_log sock react v p :
  ws_ok p -> is_open p = true ->
  ws_log p (XDecoded v :: (deliver_frame sock react v p).2) (deliver_frame sock react v p).1.
Proof.
  intros Hok Ho. set (q := with_in (set_arrivals (wi_arrivals (wp_in p) ++ [v]) (wp_in p)) p).
  assert (ws_ok q) as Hq.
  { destruct Hok. split; try done. unfold is_open in *. cbn. congruence. }
  assert (ws_log p [XDecoded v] q) as L0.
  { split; [done|congruence| |].
    - intros _. split; [done|]. split; [cbn; by rewrite app_nil_r|done].
    - intros _. split; apply prefix_nil. }
  unfold deliver_frame. destruct (wi_frames (wp_in p)) as [|l ls] eqn:Ef, (wi_arrivals (wp_in p)) as [|w ws] eqn:Ea.
  3: { cbn in q. eapply (ws_log_trans p [XDecoded v] q _ _ L0).
       apply emit_log; try done. cbn. by rewrite Ea. }
  all: destruct (scheduleArrivals_rests q) as (E1 & E2 & E3 & E4 & _); cbn [fst snd];
    apply (ws_log_to _ _ q); done.
Qed.

Lemma drain_arrivals_log fuel sock react p :
  ws_ok p -> ws_log p (drain_arrivals fuel sock react p).2 (drain_arrivals fuel sock react p).1.
Proof.
  revert p; induction fuel as [|fuel IH]; intros p Hok; [by apply ws_log_refl|]. cbn [drain_arrivals].
  destruct (wi_frames (wp_in p)) as [|l ls]; [by apply ws_log_refl|].
  destruct (wi_arrivals (wp_in p)) as [|v rest] eqn:Ea; [by apply ws_log_refl|].
  destruct (is_open p) eqn:Ho; [|destruct (ok_closed _ Hok Ho) as (_ & ? & _); congruence].
  set (q := with_in (set_arrivals rest (wp_in p)) p).
  assert (ws_ok q) as Hq by (destruct Hok; split; try done; unfold is_open in *; cbn; congruence).
  pose proof (emit_log sock react v p q Hq eq_refl Ho eq_refl Ea) as L1.
  destruct (emit_to_listeners _ _ v q) as [p1 e1]; cbn [fst snd] in *.
  pose proof (IH p1 (l_ok _ _ _ L1)) as L2. destruct (drain_arrivals fuel _ _ p1); cbn [fst snd] in *.
  by eapply ws_log_trans.
Qed.

Lemma set_reassembler_ok r p : ws_ok p -> ws_ok (with_in (set_reassembler r (wp_in p)) p).
Proof. intros []. by split. Qed.

Lemma receiveMessage_log sock react m p :
  ws_ok p -> ws_log p (receiveMessage sock react m p).2 (receiveMessage sock react m p).1.
Proof.
  intros Hok. unfold receiveMessage. destruct (is_open p) eqn:Ho; cbn [negb]; [|by apply ws_log_refl].
  destruct m as [b|n]; [|by apply failReceive_log].
  destruct (push_message _ b) as [r [[v|]|e]]; cbn [fst snd].
  - pose proof (deliver_frame_log sock react v _ (set_reassembler_ok r p Hok) Ho) as L.
    destruct (deliver_frame _ _ v _); cbn [fst snd] in *. by eapply ws_log_from.
  - apply (ws_log_to _ _ p); try done. by apply ws_log_refl.
  - eapply ws_log_from; [by apply failReceive_log, set_reassembler_ok|done..].
Qed.

Lemma receiveDrain_log sock p : ws_ok p -> ws_log p (receiveDrain sock p).2 (receiveDrain sock p).1.
Proof.
  intros Hok. unfold receiveDrain. destruct (is_open p) eqn:Ho; cbn [negb orb]; [|by apply ws_log_refl].
  destruct (negb _); [by apply ws_log_refl|].
  match goal with |- context [flush sock ?q] => pose proof (flush_spec sock q Ho (ok_bytes _ Hok) (ok_limit _ Hok)) as Hf;
    destruct (flush sock q) as [p' e] end.
  destruct Hf as (F1 & F2 & F3 & F4 & F5 & F6 & F7). cbn [fst snd] in *. split; [done|congruence| |].
  - intros E. destruct (F7 E) as [G1 G2]. split; [done|]. rewrite F3, F4, F5, !app_nil_r, G2. done.
  - intros _. rewrite F3, F5, app_nil_r. split; [exact F6|apply prefix_nil].
Qed.

Lemma receiveClose_log code reason p : ws_ok p -> ws_log p (receiveClose code reason p).2 (receiveClose code reason p).1.
Proof.
  intros Hok. unfold receiveClose. pose proof (shutdown_ok (Some code) p Hok) as Hok1.
  pose proof (shutdown_closed (Some code) p) as E. generalize dependent (shutdown (Some code) p). intros p1 Hok1 E.
  destruct (negb _); match goal with |- context [report_closure ?c p1] => destruct (report_closure_rests c p1) as [R Q] end;
    (apply ws_log_end; [by eapply rests_ok|by rewrite (r_open _ _ R)|done]).
Qed.

Lemma receiveError_log msg p : ws_ok p -> ws_log p (receiveError msg p).2 (receiveError msg p).1.
Proof.
  intros Hok. unfold receiveError.
  destruct (report_closure_rests (PClosed None (Some msg)) (shutdown None p)) as [R Q].
  apply ws_log_end; [|by rewrite (r_open _ _ R), shutdown_closed|done].
  eapply rests_ok; [exact R|by apply shutdown_ok].
Qed.

Lemma closureTask_log p : ws_ok p -> ws_log p (closureTask p).2 (closureTask p).1.
Proof.
  intros Hok. unfold closureTask. destruct (negb _); [by apply ws_log_refl|].
  destruct (we_pending (wp_end p)) as [c|]; [|by apply (ws_log_to _ _ p); [apply ws_log_refl|..]].
  match goal with |- context [report_closure c ?q] => destruct (report_closure_rests c q) as [R Q] end.
  apply ws_log_still; [|done|by rewrite (r_open _ _ R)|by rewrite (r_out _ _ R)|by rewrite (r_in _ _ R)].
  eapply rests_ok; [exact R|]. destruct Hok. by split.
Qed.

Lemma ws_step_log sock i p : ws_ok p -> ws_log p (ws_step sock i p).2 (ws_step sock i p).1.
Proof.
  intros Hok. destruct i; cbn [ws_step];
    auto using receiveMessage_log, receiveDrain_log, receiveClose_log, receiveError_log, closureTask_log, ws_apply_log.
  unfold arrivalsTask. destruct (negb _); [by apply ws_log_refl|].
  eapply ws_log_from; [apply drain_arrivals_log; by destruct Hok|done..].
Qed.

Lemma newWebSocketPort_shape o p :
  newWebSocketPort o = Ok p -> ws_ok p /\ is_open p = true /\ wq_queue (wp_out p) = [] /\ wi_arrivals (wp_in p) = [] /\
  we_closed (wp_end p) = [] /\ we_reported (wp_end p) = false /\ we_ownerClosed (wp_end p) = false /\
  we_pending (wp_end p) = None /\ wi_frames (wp_in p) = [].
Proof.
  unfold newWebSocketPort. intros E. apply bind_ok in E as (l & Hl & E). apply bind_ok in E as (r & Hr & E).
  injection E as <-. destruct (resolveFrameLimit _) as [z|] eqn:Ez; [|done]. injection Hl as ->.
  apply resolve_frame_limit in Ez. repeat split; cbn; try done; try lia.
Qed.

Lemma refuseOrigin_log sock p : ws_ok p -> ws_log p (refuseOrigin sock p).2 (refuseOrigin sock p).1.
Proof.
  intros Hok. unfold refuseOrigin. pose proof (shutdown_ok (Some FORBIDDEN) p Hok) as Hok1.
  pose proof (shutdown_closed (Some FORBIDDEN) p) as E. set (p1 := shutdown _ p) in *.
  destruct (close_socket_rests sock FORBIDDEN (Some (js "origin not allowed")) p1 E) as [R1 Q1].
  destruct (close_socket _ _ _ p1) as [p2 e1]; cbn [fst snd] in *.
  destruct (report_closure_rests (PClosed (Some FORBIDDEN) (Some (js "origin not allowed"))) p2) as [R2 Q2].
  destruct (report_closure _ p2) as [p3 e2]; cbn [fst snd] in *. pose proof (rests_trans _ _ _ R1 R2) as R.
  apply ws_log_end; [by eapply rests_ok|by rewrite (r_open _ _ R)|by apply quiet_app].
Qed.

(** A port seen from its construction: the log of its whole life. *)
Lemma ws_reachable_log sock p evs :
  ws_reachable sock p evs ->
  ws_ok p /\
  (is_open p = true -> accepted evs = taken evs ++ wq_queue (wp_out p) /\ decoded evs = emitted evs ++ wi_arrivals (wp_in p)) /\
  taken evs `prefix_of` accepted evs /\ emitted evs `prefix_of` decoded evs.
Proof.
  assert (forall p0 evs p, ws_log p0 evs p -> is_open p0 = true -> wq_queue (wp_out p0) = [] -> wi_arrivals (wp_in p0) = [] ->
    ws_ok p /\
    (is_open p = true -> accepted evs = taken evs ++ wq_queue (wp_out p) /\ decoded evs = emitted evs ++ wi_arrivals (wp_in p)) /\
    taken evs `prefix_of` accepted evs /\ emitted evs `prefix_of` decoded evs) as Hfrom.
  { intros p0 es q [O C A P] Ho E1 E2. rewrite E1, E2 in *. cbn [app] in *. split; [done|]. split; [|by apply P].
    intros Eq. by destruct (A Eq) as (_ & ? & ?). }
  intros Hr. assert (exists p0, ws_log p0 evs p /\ is_open p0 = true /\ wq_queue (wp_out p0) = [] /\ wi_arrivals (wp_in p0) = [])
    as (p0 & L & E1 & E2 & E3); [|by eapply Hfrom].
  induction Hr as [o p evs E|i p evs p' evs' _ (p0 & L & E1 & E2 & E3) E].
  - unfold createWebSocketPort in E. apply bind_ok in E as (q & Hq & E). injection E as E.
    destruct (newWebSocketPort_shape _ _ Hq) as (Hok & Ho & Eq & Ea & _). exists q. split; [|done].
    destruct (wo_accept o) as [[origin allowed]|]; [|injection E as <- <-; by apply ws_log_refl].
    destruct (isOriginAllowed origin allowed); [injection E as <- <-; by apply ws_log_refl|].
    pose proof (refuseOrigin_log sock q Hok) as L. by rewrite E in L.
  - exists p0. split; [|done]. pose proof (ws_step_log sock i p (l_ok _ _ _ L)) as L2. rewrite E in L2.
    by eapply ws_log_trans.
Qed.

(** C17: the send queue is first-in first-out and bounded. Chunks reach the socket in
    the order [send] produced them, each once: while the port is open, what was
    accepted is what the socket took followed by what waits; the queue is empty
    unless the socket asked to wait, and never holds more than one frame limit. *)
Theorem ws_queue_fifo_bounded sock p evs :
  ws_reachable sock p evs ->
  taken evs `prefix_of` accepted evs /\
  (is_open p = true -> accepted evs = taken evs ++ wq_queue (wp_out p)) /\
  (is_open p = true -> wq_paused (wp_out p) = false -> wq_queue (wp_out p) = []) /\
  (is_open p = true -> total (wq_queue (wp_out p)) <= wc_maxFrameBytes (wp_cfg p)) /\
  (is_open p = false -> wq_queue (wp_out p) = []).
Proof.
  intros Hr. destruct (ws_reachable_log _ _ _ Hr) as ([B1 B2 B3 B4 _] & A & P1 & _).
  split; [done|]. split; [intros E; by apply A|]. split; [done|]. split; [by rewrite <- B1|]. intros E. by apply B4.
Qed.

(** Frames are emitted in the order they were decoded and none is skipped or
    repeated, also those that arrived before anyone subscribed. *)
Theorem ws_frames_in_order sock p evs :
  ws_reachable sock p evs ->
  emitted evs `prefix_of` decoded evs /\
  (is_open p = true -> decoded evs = emitted evs ++ wi_arrivals (wp_in p)).
Proof. intros Hr. destruct (ws_reachable_log _ _ _ Hr) as (_ & A & _ & P). split; [done|]. intros E. by apply A. Qed.
End Facts.
