(* ===== verification/WebSocketEnd.v ===== *)
(** * How a WebSocket port ends

    At most one closure is reported, never for a close the owner asked for, and
    one raised before anybody listens is held for the first subscriber. A refused
    origin is told nothing. The close reason fits the 123 bytes of a control frame. *)

From S2P Require Import Prelude Utf8 Regex Json JsonFacts Wire Frames Ndjson Chunk Listeners Session WebSocketPort WebSocketFacts.

Definition closures (evs : list ws_effect) : list (nat * PortClosure) :=
  omap (fun e => match e with XClosed l c => Some (l, c) | _ => None end) evs.

Lemma closures_app a b : closures (a ++ b) = closures a ++ closures b.
Proof. apply omap_app. Qed.

Lemma closures_map (l : list nat) c : closures (map (fun l => XClosed l c) l) = map (fun x => (x, c)) l.
Proof. induction l as [|x l IH]; [done|]. unfold closures in *. cbn in *. by rewrite IH. Qed.

(** ** The invariant of the end *)

Record end_ok (p : ws_port) : Prop := {
  eo_nodup : NoDup (we_closed (wp_end p));
  eo_open : is_open p = true -> we_reported (wp_end p) = false /\ we_pending (wp_end p) = None;
  eo_reported : we_reported (wp_end p) = true -> we_pending (wp_end p) = None
}.

(** From [p] to [p'] with effects [evs]. *)
Record end_log (p : ws_port) (evs : list ws_effect) (p' : ws_port) : Prop := {
  el_ok : end_ok p';
  el_open : is_open p' = true -> is_open p = true;
  el_reported : we_reported (wp_end p) = true -> we_reported (wp_end p') = true /\ closures evs = [];
  el_owner : we_ownerClosed (wp_end p) = true -> we_ownerClosed (wp_end p') = true;
  el_silent : we_ownerClosed (wp_end p') = true ->
    closures evs = [] /\ we_reported (wp_end p') = we_reported (wp_end p) /\
    (we_ownerClosed (wp_end p) = true \/ is_open p = true);
  el_none : we_reported (wp_end p') = false -> closures evs = [];
  el_one : exists c ls, NoDup ls /\ closures evs = map (fun l => (l, c)) ls
}.

(** Nothing is reported and the flags stay. *)
Lemma end_log_still p evs p' :
  end_ok p' -> (is_open p' = true -> is_open p = true) -> closures evs = [] ->
  we_reported (wp_end p') = we_reported (wp_end p) ->
  we_ownerClosed (wp_end p') = we_ownerClosed (wp_end p) -> end_log p evs p'.
Proof.
  intros Hok E0 E1 E2 E3. split; rewrite ?E1, ?E2, ?E3; auto.
  exists (PClosed None None), []. split; [constructor|done].
Qed.

Lemma end_log_refl p : end_ok p -> end_log p [] p.
Proof. intros Hok. by apply end_log_still. Qed.

Lemma end_log_trans p1 e1 p2 e2 p3 : end_log p1 e1 p2 -> end_log p2 e2 p3 -> end_log p1 (e1 ++ e2) p3.
Proof.
  intros [O1 P1 R1 W1 S1 N1 X1] [O2 P2 R2 W2 S2 N2 X2]. split; [done|auto| |auto| | |]; rewrite closures_app.
  - intros E. destruct (R1 E) as [E2 ->], (R2 E2) as [E3 ->]. done.
  - intros E. destruct (S2 E) as (-> & Er & [Ho|Ho]).
    + destruct (S1 Ho) as (-> & Er1 & Hd). split; [done|]. split; [congruence|done].
    + destruct (eo_open _ O1 Ho) as [Hr _]. rewrite (N1 Hr).
      assert (we_reported (wp_end p1) = false) as Hr1.
      { destruct (we_reported (wp_end p1)) eqn:E1; [|done]. destruct (R1 eq_refl). congruence. }
      split; [done|]. split; [congruence|auto].
  - intros E. rewrite (N2 E), app_nil_r. apply N1. destruct (we_reported (wp_end p2)) eqn:E2; [|done].
    destruct (R2 eq_refl). congruence.
  - destruct (we_reported (wp_end p2)) eqn:E2.
    + destruct (R2 eq_refl) as [_ ->]. by rewrite app_nil_r.
    + by rewrite (N1 eq_refl).
Qed.

(** A closed port reports a closure, holds it, or has no use for it. *)
Lemma report_closure_end c p : end_ok p -> is_open p = false -> end_log p (report_closure c p).2 (report_closure c p).1.
Proof.
  intros Hok Ho. unfold report_closure.
  destruct (we_reported (wp_end p)) eqn:Er; cbn [orb]; [by apply end_log_refl|].
  destruct (we_ownerClosed (wp_end p)) eqn:Ew; [by apply end_log_refl|].
  destruct (we_closed (wp_end p)) as [|l ls] eqn:Ec; cbn [fst snd].
  - apply end_log_still; try done. split; cbn; rewrite ?Ec, ?Er; [constructor| |done].
    unfold is_open in *. cbn. congruence.
  - unfold is_open in *. split; cbn; try congruence.
    + split; cbn; [constructor| |done]. unfold is_open. cbn. congruence.
    + exists c, (l :: ls). split; [rewrite <- Ec; apply Hok|]. apply (closures_map (l :: ls)).
Qed.

Lemma shutdown_end code p : end_ok p -> end_log p [] (shutdown code p).
Proof.
  intros Hok. unfold shutdown. destruct (is_open p) eqn:Ho; [|by apply end_log_refl]. cbn [negb].
  apply end_log_still; try done. destruct Hok. by split.
Qed.

(** Reporting right after a shutdown. *)
Lemma end_with code c p :
  end_ok p -> end_log p (report_closure c (shutdown code p)).2 (report_closure c (shutdown code p)).1.
Proof.
  intros Hok. pose proof (shutdown_end code p Hok) as L1.
  apply (end_log_trans _ [] (shutdown code p)); [done|].
  apply report_closure_end; [apply L1|apply shutdown_closed].
Qed.

Lemma receiveClose_end code reason p : end_ok p -> end_log p (receiveClose code reason p).2 (receiveClose code reason p).1.
Proof. intros Hok. unfold receiveClose. destruct (negb _); by apply end_with. Qed.

Lemma close_socket_end sock code reason p :
  end_ok p -> end_log p (close_socket sock code reason p).2 (close_socket sock code reason p).1.
Proof.
  intros Hok. unfold close_socket. destruct (sock_close sock code reason) as [[c r]|]; [|by apply end_log_still].
  pose proof (receiveClose_end c r p Hok) as L. destruct (receiveClose c r p); cbn [fst snd] in *.
  apply (end_log_trans _ [_] p); [by apply end_log_still|done].
Qed.

Lemma fail_end sock code code' c reason p :
  end_ok p ->
  let '(p1, e1) := report_closure c (shutdown (Some code) p) in
  let '(p2, e2) := close_socket sock code' reason p1 in
  end_log p (e1 ++ e2) p2.
Proof.
  intros Hok. pose proof (end_with (Some code) c p Hok) as L1. destruct (report_closure _ _) as [p1 e1]; cbn [fst snd] in *.
  pose proof (close_socket_end sock code' reason p1 (el_ok _ _ _ L1)) as L2.
  destruct (close_socket _ _ _ p1); cbn [fst snd] in *. by eapply end_log_trans.
Qed.

Lemma failSend_end sock reason p : end_ok p -> end_log p (failSend sock reason p).2 (failSend sock reason p).1.
Proof.
  intros Hok. unfold failSend.
  pose proof (fail_end sock PROTOCOL_ERROR PROTOCOL_ERROR (PClosed (Some PROTOCOL_ERROR) (Some reason))
    (clampCloseReason (Some reason)) p Hok) as L.
  destruct (report_closure _ _) as [p1 e1]. by destruct (close_socket _ _ _ p1).
Qed.

Lemma failReceive_end sock err p : end_ok p -> end_log p (failReceive sock err p).2 (failReceive sock err p).1.
Proof.
  intros Hok. unfold failReceive.
  pose proof (fail_end sock (closeCodeForCodecError err) (closeCodeForCodecError err)
    (PProtocolError err (closeCodeForCodecError err)) (clampCloseReason (Some (message err))) p Hok) as L.
  destruct (report_closure _ _) as [p1 e1]. by destruct (close_socket _ _ _ p1).
Qed.

Lemma flush_queue_closures sock n q size :
  let '(_, _, _, e, _) := flush_queue sock n q size in closures e = [].
Proof.
  revert n size; induction q as [|m q IH]; intros n size; [done|]. cbn [flush_queue].
  destruct (sock_send sock n m); [|done|done]. specialize (IH (S n) (size - zlen m)).
  by destruct (flush_queue _ _ _ _) as [[[[]]]].
Qed.

(** An update of the queue or of the inbound side. *)
Lemma end_log_out p evs p' q : end_log p evs p' -> wp_end q = wp_end p -> end_log q evs p'.
Proof. intros [O P R W S N X] E. split; unfold is_open in *; rewrite ?E in *; auto. Qed.

Lemma end_ok_ext p q : end_ok p -> wp_end q = wp_end p -> end_ok q.
Proof. intros [] E. split; unfold is_open in *; by rewrite ?E. Qed.

Lemma flush_end_log sock p : end_ok p -> end_log p (flush sock p).2 (flush sock p).1.
Proof.
  intros Hok. assert (forall q, end_ok q -> end_log q (check_backpressure sock q).2 (check_backpressure sock q).1) as Hc.
  { intros q Hq. unfold check_backpressure. destruct (_ && _); [by apply failSend_end|by apply end_log_refl]. }
  unfold flush. destruct (is_open p && negb _); [|by apply Hc].
  pose proof (flush_queue_closures sock (wq_sends (wp_out p)) (wq_queue (wp_out p)) (wq_bytes (wp_out p))) as Hq.
  destruct (flush_queue _ _ _ _) as [[[[q size] n] e1] r].
  set (p1 := with_out _ p). assert (end_ok p1) as Hok1 by (by eapply end_ok_ext).
  assert (end_log p e1 p1) as L1 by (by apply end_log_still).
  destruct r as [| |m]; [done| |].
  - pose proof (Hc p1 Hok1). destruct (check_backpressure sock p1). by eapply end_log_trans.
  - match goal with |- context [failSend sock ?r p1] => pose proof (failSend_end sock r p1 Hok1); destruct (failSend sock r p1) end.
    by eapply end_log_trans.
Qed.

Lemma enqueue_end sock ms p : end_ok p -> end_log p (enqueue sock ms p).2 (enqueue sock ms p).1.
Proof.
  intros Hok. unfold enqueue. set (p1 := with_out _ p). assert (end_ok p1) as Hok1 by (by eapply end_ok_ext).
  pose proof (flush_end_log sock p1 Hok1) as L. destruct (flush sock p1); cbn [fst snd] in *.
  apply (end_log_trans _ [_] p); [by apply end_log_still|]. by eapply end_log_out.
Qed.

Section End.
  Context `{TypeBox, JsonEngine}.

(** The owner's close: from here on nothing is reported. *)
Lemma ws_close_end sock code reason p : end_ok p -> end_log p (ws_close sock code reason p).2 (ws_close sock code reason p).1.
Proof.
  intros Hok. unfold ws_close. destruct (is_open p) eqn:Ho; cbn [negb]; [|by apply end_log_refl].
  set (p1 := with_end _ p).
  assert (end_log p [] p1) as L0.
  { destruct (eo_open _ Hok Ho) as [Hr Hp]. split; cbn; auto.
    - destruct Hok. by split.
    - exists (PClosed None None), []. split; [constructor|done]. }
  assert (let '(p2, e1) := if wc_sendCloseFrame (wp_cfg p1) then sendFarewell sock code reason p1 else (p1, []) in
          end_log p e1 p2) as L.
  { destruct (wc_sendCloseFrame _); [|done]. unfold sendFarewell. destruct (negb _); [done|].
    destruct (encodeChunks _ _) as [ms|]; [|done].
    pose proof (enqueue_end sock ms p1 (el_ok _ _ _ L0)). destruct (enqueue sock ms p1).
    by apply (end_log_trans _ [] p1). }
  destruct (if wc_sendCloseFrame (wp_cfg p1) then _ else _) as [p2 e1].
  destruct (is_open p2) eqn:Ho2; cbn [negb]; [|done].
  pose proof (shutdown_end (Some code) p2 (el_ok _ _ _ L)) as L2.
  pose proof (close_socket_end sock code (clampCloseReason reason) _ (el_ok _ _ _ L2)) as L3.
  destruct (close_socket _ _ _ _); cbn [fst snd] in *. eapply end_log_trans; [exact L|].
  by apply (end_log_trans _ [] (shutdown (Some code) p2)).
Qed.

Lemma ws_apply_end sock op p : end_ok p -> end_log p (ws_apply sock op p).2 (ws_apply sock op p).1.
Proof.
  intros Hok. destruct op; cbn [ws_apply fst snd].
  - unfold ws_send. destruct (negb _); [by apply end_log_refl|]. destruct (encodeChunks _ _) as [ms|]; [|by apply end_log_refl].
    pose proof (enqueue_end sock ms p Hok). by destruct (enqueue sock ms p).
  - by apply ws_close_end.
  - unfold onFrame. match goal with |- context [scheduleArrivals ?q] => destruct (scheduleArrivals_rests q) as (E1 & _ & _ & _ & E5) end.
    apply end_log_still; [by eapply end_ok_ext| | | |]; rewrite ?E1, ?E5; done.
  - apply end_log_still; try done. by eapply end_ok_ext.
  - destruct Hok as [K1 K2 K3]. unfold onClosed, scheduleClosure. cbn.
    destruct (we_scheduled (wp_end p)), (we_pending (wp_end p)) eqn:Ep, (add l (we_closed (wp_end p))) eqn:Ea;
      apply end_log_still; try done; split; cbn; rewrite <- ?Ea, ?Ep; auto using add_NoDup.
  - destruct Hok as [K1 K2 K3]. apply end_log_still; try done. split; cbn; auto. by apply remove_NoDup.
Qed.

Lemma ws_apply_all_end sock ops p : end_ok p -> end_log p (ws_apply_all sock ops p).2 (ws_apply_all sock ops p).1.
Proof.
  revert p; induction ops as [|op ops IH]; intros p Hok; [by apply end_log_refl|]. cbn [ws_apply_all].
  pose proof (ws_apply_end sock op p Hok) as L1. destruct (ws_apply sock op p) as [p1 e1]; cbn [fst snd] in *.
  pose proof (IH p1 (el_ok _ _ _ L1)) as L2. destruct (ws_apply_all sock ops p1); cbn [fst snd] in *.
  by eapply end_log_trans.
Qed.

Lemma emit_to_listeners_end sock react v p :
  end_ok p -> end_log p (emit_to_listeners sock react v p).2 (emit_to_listeners sock react v p).1.
Proof.
  unfold emit_to_listeners. generalize (wi_frames (wp_in p)). intros ls Hok.
  assert (end_log p (call_listeners sock react v ls p).2 (call_listeners sock react v ls p).1) as L.
  { revert p Hok; induction ls as [|l ls IH]; intros p Hok; [by apply end_log_refl|]. cbn [call_listeners].
    pose proof (ws_apply_all_end sock (react l v) p Hok) as L1. destruct (ws_apply_all _ _ p) as [p1 e1]; cbn [fst snd] in *.
    pose proof (IH p1 (el_ok _ _ _ L1)) as L2. destruct (call_listeners _ _ _ ls p1); cbn [fst snd] in *.
    apply (end_log_trans _ [_] p); [by apply end_log_still|]. by eapply end_log_trans. }
  destruct (call_listeners _ _ _ _ p); cbn [fst snd] in *.
  apply (end_log_trans _ [_] p); [by apply end_log_still|done].
Qed.

Lemma drain_arrivals_end fuel sock react p :
  end_ok p -> end_log p (drain_arrivals fuel sock react p).2 (drain_arrivals fuel sock react p).1.
Proof.
  revert p; induction fuel as [|fuel IH]; intros p Hok; [by apply end_log_refl|]. cbn [drain_arrivals].
  destruct (wi_frames (wp_in p)); [by apply end_log_refl|]. destruct (wi_arrivals (wp_in p)) as [|v rest]; [by apply end_log_refl|].
  set (q := with_in _ p). assert (end_ok q) as Hq by (by eapply end_ok_ext).
  pose proof (emit_to_listeners_end sock react v q Hq) as L1.
  destruct (emit_to_listeners _ _ v q) as [p1 e1]; cbn [fst snd] in *.
  pose proof (IH p1 (el_ok _ _ _ L1)) as L2. destruct (drain_arrivals fuel _ _ p1); cbn [fst snd] in *.
  eapply end_log_trans; [by eapply end_log_out|done].
Qed.

Lemma deliver_frame_end sock react v p :
  end_ok p -> end_log p (deliver_frame sock react v p).2 (deliver_frame sock react v p).1.
Proof.
  intros Hok. unfold deliver_frame.
  destruct (wi_frames (wp_in p)) as [|l ls], (wi_arrivals (wp_in p)) as [|w ws].
  3: by apply emit_to_listeners_end.
  all: cbn [fst snd]; match goal with |- context [scheduleArrivals ?q] =>
      destruct (scheduleArrivals_rests q) as (E1 & _ & _ & _ & E5) end.
  all: apply end_log_still; [by eapply end_ok_ext| | | |]; rewrite ?E1, ?E5; done.
Qed.

Lemma ws_step_end sock i p : ws_ok p -> end_ok p -> end_log p (ws_step sock i p).2 (ws_step sock i p).1.
Proof.
  intros Hws Hok. destruct i; cbn [ws_step]; auto using receiveClose_end, ws_apply_end.
  - unfold receiveMessage. destruct (negb _); [by apply end_log_refl|].
    destruct m as [b|n]; [|by apply failReceive_end].
    destruct (push_message _ b) as [r [[v|]|e]]; cbn [fst snd].
    + pose proof (deliver_frame_end sock react v (with_in (set_reassembler r (wp_in p)) p)) as L.
      destruct (deliver_frame _ _ v _); cbn [fst snd] in *.
      apply (end_log_trans _ [_] p); [by apply end_log_still|]. eapply end_log_out; [apply L; by eapply end_ok_ext|done].
    + apply end_log_still; try done. by eapply end_ok_ext.
    + eapply end_log_out; [apply failReceive_end; by eapply end_ok_ext|done].
  - unfold receiveDrain. destruct (_ || _); [by apply end_log_refl|].
    eapply end_log_out; [apply flush_end_log; by eapply end_ok_ext|done].
  - by apply end_with.
  - unfold arrivalsTask. destruct (negb _); [by apply end_log_refl|].
    eapply end_log_out; [apply drain_arrivals_end; by eapply end_ok_ext|done].
  - unfold closureTask. destruct (negb _); [by apply end_log_refl|].
    destruct (we_pending (wp_end p)) as [c|] eqn:Ep.
    2: { apply end_log_still; try done. destruct Hok. by split. }
    assert (is_open p = false) as Ho.
    { destruct (is_open p) eqn:E; [|done]. destruct (eo_open _ Hok E). congruence. }
    set (q := with_end (set_pendingClosure None _) _).
    assert (end_ok q) as Hq by (destruct Hok; split; cbn; auto; unfold is_open in *; cbn; congruence).
    apply (end_log_trans _ [] q); [by apply end_log_still|]. by apply report_closure_end.
Qed.

Lemma new_end_ok o p : newWebSocketPort o = Ok p -> end_ok p.
Proof.
  intros Hn. destruct (newWebSocketPort_shape _ _ Hn) as (_ & _ & _ & _ & E1 & E2 & _ & E3 & _).
  split; [rewrite E1; constructor|done|congruence].
Qed.

Lemma refuseOrigin_end sock p : end_ok p -> end_log p (refuseOrigin sock p).2 (refuseOrigin sock p).1.
Proof.
  intros Hok. unfold refuseOrigin. pose proof (shutdown_end (Some FORBIDDEN) p Hok) as L1.
  pose proof (close_socket_end sock FORBIDDEN (Some (js "origin not allowed")) _ (el_ok _ _ _ L1)) as L2.
  pose proof (close_socket_rests sock FORBIDDEN (Some (js "origin not allowed")) _ (shutdown_closed (Some FORBIDDEN) p)) as [R _].
  destruct (close_socket _ _ _ _) as [p2 e1]; cbn [fst snd] in *.
  assert (is_open p2 = false) as Ho by (by rewrite (r_open _ _ R), shutdown_closed).
  pose proof (report_closure_end (PClosed (Some FORBIDDEN) (Some (js "origin not allowed"))) p2 (el_ok _ _ _ L2) Ho) as L3.
  destruct (report_closure _ p2); cbn [fst snd] in *.
  apply (end_log_trans _ [] _ _ _ L1). by eapply end_log_trans.
Qed.

Lemma ws_reachable_end sock p evs :
  ws_reachable sock p evs ->
  exists p0, end_log p0 evs p /\ we_reported (wp_end p0) = false /\ we_ownerClosed (wp_end p0) = false.
Proof.
  induction 1 as [o p evs E|i p evs p' evs' Hr (p0 & L & E1 & E2) E].
  - unfold createWebSocketPort in E. apply bind_ok in E as (q & Hq & E). injection E as E.
    pose proof (new_end_ok _ _ Hq) as Hok. destruct (newWebSocketPort_shape _ _ Hq) as (_ & _ & _ & _ & _ & Er & Ew & _).
    exists q. split; [|done].
    destruct (wo_accept o) as [[origin allowed]|]; [|injection E as <- <-; by apply end_log_refl].
    destruct (isOriginAllowed origin allowed); [injection E as <- <-; by apply end_log_refl|].
    pose proof (refuseOrigin_end sock q Hok) as L. by rewrite E in L.
  - exists p0. split; [|done]. pose proof (ws_step_end sock i p) as L2. rewrite E in L2.
    eapply end_log_trans; [exact L|]. apply L2; [by apply (ws_reachable_log _ _ _ Hr)|apply L].
Qed.

(** A WebSocket port reports at most one closure, once to each subscriber, none
    while it is open and none at all once its owner has closed it, however the
    socket, the peer and the listeners interleave. *)
Theorem ws_closure_once sock p evs :
  ws_reachable sock p evs ->
  (exists c ls, NoDup ls /\ closures evs = map (fun l => (l, c)) ls) /\
  (is_open p = true -> closures evs = []) /\
  (we_ownerClosed (wp_end p) = true -> closures evs = []).
Proof.
  intros Hr. destruct (ws_reachable_end _ _ _ Hr) as (p0 & L & E1 & E2).
  split; [apply L|]. split.
  - intros Ho. apply (el_none _ _ _ L). by apply (eo_open _ (el_ok _ _ _ L) Ho).
  - intros Hw. by apply (el_silent _ _ _ L).
Qed.

(** ** A closure nobody was there to hear *)

(** Held closures are owed: nobody listened, and the port was not closed by its owner. *)
Lemma pending_owed sock p evs c :
  ws_reachable sock p evs -> we_pending (wp_end p) = Some c -> we_reported (wp_end p) = false.
Proof.
  intros Hr Hp. destruct (ws_reachable_end _ _ _ Hr) as (p0 & L & _). destruct (we_reported (wp_end p)) eqn:E; [|done].
  rewrite (eo_reported _ (el_ok _ _ _ L) E) in Hp. done.
Qed.

(** A closure raised before anyone subscribed is not lost: the first listener to
    subscribe is told it, once, on the next microtask. *)
Theorem held_closure_delivered sock p evs c l :
  ws_reachable sock p evs -> we_pending (wp_end p) = Some c -> we_ownerClosed (wp_end p) = false ->
  we_closed (wp_end p) = [] -> we_scheduled (wp_end p) = false ->
  closureTask (onClosed l p) =
    (with_end {| we_open := we_open (wp_end p); we_ownerClosed := false; we_reported := true; we_pending := None;
                 we_scheduled := false; we_code := we_code (wp_end p); we_closed := [] |} p, [XClosed l c]).
Proof.
  intros Hr Hp Hw Hc Hs. pose proof (pending_owed _ _ _ _ Hr Hp) as Hrep.
  unfold onClosed, scheduleClosure. cbn. rewrite Hs, Hp, Hc, add_empty. cbn.
  unfold closureTask. cbn. rewrite Hp. unfold report_closure. cbn. rewrite Hrep, Hw. done.
Qed.

(** ** Origins *)

(** A socket whose origin is not on the allow-list gets nothing: the port is
    closed before it is handed out, the only thing that reached the socket is a
    close with 4403, and the first subscriber learns of that closure. The check
    is exact, and passes a request that carries no origin. *)
Theorem refused_origin_sees_nothing sock o p evs origin allowed :
  createWebSocketPort sock o = Ok (p, evs) -> wo_accept o = Some (Some origin, allowed) -> origin ∉ allowed ->
  (forall c r, sock_close sock c r = None) ->
  evs = [XSocketClose FORBIDDEN (Some (js "origin not allowed"))] /\ is_open p = false /\
  (forall f, exists e, ws_send sock f p = (p, [], Some e)) /\
  (forall l, (closureTask (onClosed l p)).2 =
     [XClosed l (PClosed (Some FORBIDDEN) (Some (js "origin not allowed")))]).
Proof.
  intros E Ha Hn Hsock. unfold createWebSocketPort in E. apply bind_ok in E as (q & Hq & E). injection E as E.
  rewrite Ha in E. unfold isOriginAllowed in E. rewrite bool_decide_eq_false_2 in E by done.
  unfold newWebSocketPort in Hq. apply bind_ok in Hq as (z & Hz & Hq). apply bind_ok in Hq as (r & Hr & Hq).
  injection Hq as <-. unfold refuseOrigin, close_socket in E. rewrite Hsock in E. cbn in E. injection E as <- <-.
  split; [done|]. split; [done|]. split; [intros f; unfold ws_send; cbn; eauto|].
  intros l. unfold onClosed. cbn. by rewrite add_empty.
Qed.

(** The origin check admits exactly the listed origins and requests that carry none. *)
Lemma origin_check_exact origin allowed :
  isOriginAllowed origin allowed = true <-> origin = None \/ exists o, origin = Some o /\ o ∈ allowed.
Proof. unfold isOriginAllowed. destruct origin as [o|]; [|naive_solver]. rewrite bool_decide_eq_true. naive_solver. Qed.
End End.

#[local] Existing Instance conforming_checker.
#[local] Existing Instance plain_engine.

(** ** Close reasons *)

Lemma shrink_spec fuel text :
  (length text <= fuel)%nat ->
  exists k, shrink fuel text = take k text /\ zlen (utf8_encode (shrink fuel text)) <= MAX_CLOSE_REASON_BYTES.
Proof.
  revert text; induction fuel as [|fuel IH]; intros text Hlen.
  - destruct text; [|cbn in Hlen; lia]. exists 0%nat. split; [done|]. by vm_compute.
  - cbn [shrink]. destruct (Z.ltb_spec 0 (zlen text)) as [Hpos|Hz]; cbn [andb].
    2: { exists (length text). rewrite firstn_all. split; [done|].
         rewrite (zlen_zero text) by (pose proof (zlen_nonneg text); lia). by vm_compute. }
    destruct (Z.ltb_spec MAX_CLOSE_REASON_BYTES (zlen (utf8_encode text))) as [Hbig|Hfit].
    + destruct (IH (take (length text - 1) text)) as (k & E & Hk).
      { rewrite length_take. unfold zlen in Hpos. lia. }
      rewrite E in *. exists (k `min` (length text - 1))%nat. rewrite take_take in *. done.
    + exists (length text). by rewrite firstn_all.
Qed.

(** The reason given to the socket's close fits the 123 bytes of a WebSocket
    control frame, is the caller's own reason when that fits, and otherwise a
    leading part of it. *)
Theorem close_reason_fits reason r :
  clampCloseReason (Some reason) = Some r ->
  zlen (utf8_encode r) <= MAX_CLOSE_REASON_BYTES /\ (exists k, r = take k reason) /\
  (zlen (utf8_encode reason) <= MAX_CLOSE_REASON_BYTES -> r = reason).
Proof.
  unfold clampCloseReason. destruct (Z.leb_spec (zlen (utf8_encode reason)) MAX_CLOSE_REASON_BYTES) as [Hfit|Hbig].
  - intros [= <-]. split; [done|]. split; [|done]. exists (length reason). by rewrite firstn_all.
  - intros [= <-]. set (text := take _ reason). destruct (shrink_spec (length text) text ltac:(lia)) as (k & E & Hk).
    split; [done|]. split; [|lia]. rewrite E. subst text. rewrite take_take. eauto.
Qed.

(** The cut is made between UTF-16 units, not between characters: 120 ASCII
    characters and an emoji are 124 bytes; dropping the second half of the
    surrogate pair leaves a lone one, which encodes to the replacement character
    in exactly 123 bytes. *)
Example clamp_splits_surrogate_pair :
  clampCloseReason (Some (repeat 97 120 ++ [0xd83e; 0xdd6d])) = Some (repeat 97 120 ++ [0xd83e]).
Proof. vm_compute. reflexivity. Qed.

(** ** A connection at work *)

(** A socket that asks to wait after the first message, and one that refuses everything. *)
Definition slow_socket : socket := {| sock_send n _ := if (n =? 0)%nat then buffered else sent; sock_close _ _ := None |}.
Definition dead_socket : socket := {| sock_send _ _ := dropped; sock_close _ _ := None |}.

Definition plain_options : WebSocketPortOptions :=
  {| wo_maxFrameBytes := None; wo_maxMessageBytes := None; wo_sendCloseFrame := None; wo_accept := None |}.

Definition ws_fallback : ws_port * list ws_effect :=
  ({| wp_cfg := {| wc_maxFrameBytes := 0; wc_chunk := sample_options; wc_sendCloseFrame := true |};
      wp_out := {| wq_queue := []; wq_bytes := 0; wq_paused := false; wq_sends := 0 |};
      wp_in := {| wi_reassembler := sample_reassembler; wi_frames := []; wi_arrivals := []; wi_flushScheduled := false |};
      wp_end := {| we_open := true; we_ownerClosed := false; we_reported := false; we_pending := None;
                   we_scheduled := false; we_code := None; we_closed := [] |} |}, []).

Definition ws_new (sock : socket) (o : WebSocketPortOptions) : ws_port * list ws_effect :=
  default ws_fallback (ok_of (createWebSocketPort sock o)).

Definition ws_drive (sock : socket) (o : WebSocketPortOptions) (ins : list ws_input) : ws_port * list ws_effect :=
  fold_left (fun '(p, evs) i => let '(p', evs') := ws_step sock i p in (p', evs ++ evs')) ins (ws_new sock o).

Lemma ws_drive_reachable sock o ins p evs :
  createWebSocketPort sock o = Ok (p, evs) -> ws_reachable sock (ws_drive sock o ins).1 (ws_drive sock o ins).2.
Proof.
  intros Hn. induction ins as [|i ins IH] using rev_ind.
  - unfold ws_drive, ws_new. rewrite Hn. by eapply ws_reach_new.
  - unfold ws_drive in *. rewrite fold_left_app. cbn [fold_left].
    destruct (fold_left _ ins (ws_new sock o)) as [q e]; cbn [fst snd] in *.
    destruct (ws_step sock i q) as [q' e'] eqn:E. by eapply ws_reach_step.
Qed.

(** Two frames into a slow socket: the first chunk goes, the second waits. *)
Definition two_pings : list ws_input := [WOp (WsSend FPing); WOp (WsSend FPong)].

Lemma ws_queue_fifo_bounded_witness :
  length (wq_queue (wp_out (ws_drive slow_socket plain_options two_pings).1)) = 1%nat /\
  taken (ws_drive slow_socket plain_options two_pings).2 `prefix_of` accepted (ws_drive slow_socket plain_options two_pings).2.
Proof.
  split; [vm_compute; reflexivity|].
  apply (ws_queue_fifo_bounded slow_socket (ws_drive slow_socket plain_options two_pings).1).
  apply (ws_drive_reachable _ _ _ (ws_new slow_socket plain_options).1 []). vm_compute. reflexivity.
Defined.

(** A frame that arrives before anyone listens. *)
Definition early_frame : list ws_input :=
  map (fun m => WMessage (WBytes m) (fun _ _ => [])) (concat sample_runs).

Lemma ws_frames_in_order_witness :
  decoded (ws_drive slow_socket plain_options early_frame).2 =
  emitted (ws_drive slow_socket plain_options early_frame).2 ++
    wi_arrivals (wp_in (ws_drive slow_socket plain_options early_frame).1).
Proof.
  apply (ws_frames_in_order slow_socket (ws_drive slow_socket plain_options early_frame).1).
  - apply (ws_drive_reachable _ _ _ (ws_new slow_socket plain_options).1 []). vm_compute. reflexivity.
  - vm_compute. reflexivity.
Defined.

(** A send the socket drops, with two listeners. *)
Definition dropped_send : list ws_input := [WOp (WsOnClosed 1); WOp (WsOnClosed 2); WOp (WsSend FPing)].

Lemma ws_closure_once_witness :
  exists c ls, NoDup ls /\ closures (ws_drive dead_socket plain_options dropped_send).2 = map (fun l => (l, c)) ls.
Proof.
  apply (ws_closure_once dead_socket (ws_drive dead_socket plain_options dropped_send).1).
  apply (ws_drive_reachable _ _ _ (ws_new dead_socket plain_options).1 []). vm_compute. reflexivity.
Defined.

Definition hung_up : list ws_input := [WSocketClosed RELEASED None].

Lemma held_closure_delivered_witness :
  (closureTask (onClosed 9 (ws_drive slow_socket plain_options hung_up).1)).2 = [XClosed 9 (PClosed (Some RELEASED) None)].
Proof.
  rewrite (held_closure_delivered slow_socket (ws_drive slow_socket plain_options hung_up).1
    (ws_drive slow_socket plain_options hung_up).2 (PClosed (Some RELEASED) None) 9);
    [reflexivity| |vm_compute; reflexivity..].
  apply (ws_drive_reachable _ _ _ (ws_new slow_socket plain_options).1 []). vm_compute. reflexivity.
Defined.

Definition guarded_options : WebSocketPortOptions :=
  {| wo_maxFrameBytes := None; wo_maxMessageBytes := None; wo_sendCloseFrame := None;
     wo_accept := Some (Some (js "https://app.example.attacker.test"), [js "https://app.example"]) |}.

Lemma refused_origin_sees_nothing_witness :
  (ws_new slow_socket guarded_options).2 = [XSocketClose FORBIDDEN (Some (js "origin not allowed"))].
Proof.
  destruct (refused_origin_sees_nothing slow_socket guarded_options (ws_new slow_socket guarded_options).1
    (ws_new slow_socket guarded_options).2 (js "https://app.example.attacker.test") [js "https://app.example"]) as (E & _).
  - vm_compute. reflexivity.
  - reflexivity.
  - intros Hin. apply list_elem_of_singleton in Hin. vm_compute in Hin. discriminate.
  - reflexivity.
  - exact E.
Defined.

Lemma close_reason_fits_witness :
  zlen (utf8_encode (repeat 97 120 ++ [0xd83e])) <= MAX_CLOSE_REASON_BYTES.
Proof. apply (close_reason_fits (repeat 97 120 ++ [0xd83e; 0xdd6d])). vm_compute. reflexivity. Defined.
