(* ===== verification/InProcess.v ===== *)
(** * The in-process port pair

    [packages/protocol/src/transports/in-process.ts]: two ports back to back, each
    delivering to the other on a later microtask. The pair is modelled with the
    queue of the microtasks it scheduled; a listener that uses a port while it is
    called is a later operation on the pair. *)

From S2P Require Import Prelude Utf8 Regex Json JsonFacts Wire Frames Ndjson Listeners Session.

Inductive side : Type := A | B.

Global Instance side_eq_dec : EqDecision side.
Proof. solve_decision. Defined.

Definition other (x : side) : side := match x with A => B | B => A end.

Record in_process_port : Type := { ip_open : bool; ip_frames : list nat; ip_closed : list nat }.

(** What arrives: the record the codec read back, or the structural clone. *)
Inductive delivered : Type := DRecord (v : json) | DClone (f : frame).

Inductive microtask : Type :=
| TDeliver (dest : side) (v : delivered)
| TClose (dest : side) (code : Z) (reason : option jstring).

Record InProcessOptions : Type := { io_validateFrames : option bool; io_maxFrameBytes : option jsarg }.

Record pair_state : Type := {
  ps_options : InProcessOptions;
  ps_maxFrameBytes : Z;
  ps_a : in_process_port;
  ps_b : in_process_port;
  ps_tasks : list microtask
}.

Inductive pair_effect : Type :=
| ISent (src : side) (v : delivered)
| IArrived (dest : side) (v : delivered)
| IFrame (dest : side) (l : nat) (v : delivered)
| IClosed (dest : side) (l : nat) (c : PortClosure).

Definition port_of (x : side) (s : pair_state) : in_process_port := match x with A => ps_a s | B => ps_b s end.

Definition set_port (x : side) (p : in_process_port) (s : pair_state) : pair_state :=
  {| ps_options := ps_options s; ps_maxFrameBytes := ps_maxFrameBytes s;
     ps_a := match x with A => p | B => ps_a s end;
     ps_b := match x with A => ps_b s | B => p end; ps_tasks := ps_tasks s |}.

Definition set_tasks (ts : list microtask) (s : pair_state) : pair_state :=
  {| ps_options := ps_options s; ps_maxFrameBytes := ps_maxFrameBytes s; ps_a := ps_a s; ps_b := ps_b s; ps_tasks := ts |}.

(** [createInProcessPortPair] *)
Definition createInProcessPortPair (o : InProcessOptions) : outcome exn pair_state :=
  limit ← range (resolveFrameLimit (io_maxFrameBytes o));
  let port := {| ip_open := true; ip_frames := []; ip_closed := [] |} in
  Ok {| ps_options := o; ps_maxFrameBytes := limit; ps_a := port; ps_b := port; ps_tasks := [] |}.

(** [#dispose] *)
Definition dispose (p : in_process_port) : in_process_port :=
  {| ip_open := false; ip_frames := []; ip_closed := ip_closed p |}.

Section Pair.
  Context `{TypeBox, JsonEngine}.
  (** The platform's [structuredClone] of a frame: a copy, or the error it throws. *)
  Variable structuredClone : frame -> outcome exn frame.

(** [#clone] *)
Definition clone (o : InProcessOptions) (f : frame) : outcome exn delivered :=
  if default true (io_validateFrames o) then
    bytes ← encodeFrameBytes f (io_maxFrameBytes o);
    v ← decodeLine (LBytes bytes) (io_maxFrameBytes o);
    Ok (DRecord v)
  else
    cloned ← structuredClone f;
    _ ← codec (assertFrame (frame_view cloned));
    Ok (DClone cloned).

(** [send] *)
Definition ip_send (x : side) (f : frame) (s : pair_state) : pair_state * list pair_effect * option failure :=
  if negb (ip_open (port_of x s)) || negb (ip_open (port_of (other x) s)) then
    (s, [], Some (FOther (js "In-process port is closed; expected an open port pair, received a closed one.")))
  else
    match clone (ps_options s) f with
    | Err e => (s, [], Some (exn_failure e))
    | Ok v => (set_tasks (ps_tasks s ++ [TDeliver (other x) v]) s, [ISent x v], None)
    end.

(** [close] *)
Definition ip_close (x : side) (code : Z) (reason : option jstring) (s : pair_state) : pair_state :=
  if negb (ip_open (port_of x s)) then s
  else
    let s := set_port x (dispose (port_of x s)) s in
    if negb (ip_open (port_of (other x) s)) then s
    else set_tasks (ps_tasks s ++ [TClose (other x) code reason]) s.

Definition ip_onFrame (x : side) (l : nat) (s : pair_state) : pair_state :=
  let p := port_of x s in
  set_port x {| ip_open := ip_open p; ip_frames := add l (ip_frames p); ip_closed := ip_closed p |} s.
Definition ip_offFrame (x : side) (l : nat) (s : pair_state) : pair_state :=
  let p := port_of x s in
  set_port x {| ip_open := ip_open p; ip_frames := remove l (ip_frames p); ip_closed := ip_closed p |} s.
Definition ip_onClosed (x : side) (l : nat) (s : pair_state) : pair_state :=
  let p := port_of x s in
  set_port x {| ip_open := ip_open p; ip_frames := ip_frames p; ip_closed := add l (ip_closed p) |} s.
Definition ip_offClosed (x : side) (l : nat) (s : pair_state) : pair_state :=
  let p := port_of x s in
  set_port x {| ip_open := ip_open p; ip_frames := ip_frames p; ip_closed := remove l (ip_closed p) |} s.

(** The microtask at the head of the queue. *)
Definition run_task (s : pair_state) : pair_state * list pair_effect :=
  match ps_tasks s with
  | [] => (s, [])
  | t :: rest =>
      let s := set_tasks rest s in
      match t with
      | TDeliver dest v =>
          if negb (ip_open (port_of dest s)) then (s, [])
          else (s, IArrived dest v :: map (fun l => IFrame dest l v) (ip_frames (port_of dest s)))
      | TClose dest code reason =>
          let p := port_of dest s in
          if negb (ip_open p) then (s, [])
          else
            (set_port dest {| ip_open := false; ip_frames := []; ip_closed := [] |} s,
             map (fun l => IClosed dest l (PClosed (Some code) reason)) (ip_closed p))
      end
  end.

Inductive pair_input : Type :=
| ISend (x : side) (f : frame)
| IClose (x : side) (code : Z) (reason : option jstring)
| IOnFrame (x : side) (l : nat)
| IOffFrame (x : side) (l : nat)
| IOnClosed (x : side) (l : nat)
| IOffClosed (x : side) (l : nat)
| ITask.

Definition pair_step (i : pair_input) (s : pair_state) : pair_state * list pair_effect :=
  match i with
  | ISend x f => let '(s, e, _) := ip_send x f s in (s, e)
  | IClose x code reason => (ip_close x code reason s, [])
  | IOnFrame x l => (ip_onFrame x l s, [])
  | IOffFrame x l => (ip_offFrame x l s, [])
  | IOnClosed x l => (ip_onClosed x l s, [])
  | IOffClosed x l => (ip_offClosed x l s, [])
  | ITask => run_task s
  end.

Inductive pair_reachable : pair_state -> list pair_effect -> Prop :=
| pair_reach_new o s : createInProcessPortPair o = Ok s -> pair_reachable s []
| pair_reach_step i s evs s' evs' :
    pair_reachable s evs -> pair_step i s = (s', evs') -> pair_reachable s' (evs ++ evs').

(** ** Order of delivery *)

Definition sent_from (x : side) (evs : list pair_effect) : list delivered :=
  omap (fun e => match e with ISent y v => if decide (y = x) then Some v else None | _ => None end) evs.
Definition arrived_at (x : side) (evs : list pair_effect) : list delivered :=
  omap (fun e => match e with IArrived y v => if decide (y = x) then Some v else None | _ => None end) evs.
Definition waiting_for (x : side) (ts : list microtask) : list delivered :=
  omap (fun t => match t with TDeliver y v => if decide (y = x) then Some v else None | _ => None end) ts.

Lemma port_set_same x p s : port_of x (set_port x p s) = p.
Proof. by destruct x. Qed.

Lemma port_set_other x y p s : x <> y -> port_of y (set_port x p s) = port_of y s.
Proof. by destruct x, y. Qed.

Lemma set_port_tasks x p s : ps_tasks (set_port x p s) = ps_tasks s.
Proof. done. Qed.

Lemma port_set_tasks x ts s : port_of x (set_tasks ts s) = port_of x s.
Proof. by destruct x. Qed.

(** A step keeps the ledger of each direction, and openness never returns. *)
Record direction (x : side) (s : pair_state) (evs : list pair_effect) (s' : pair_state) : Prop := {
  d_open : ip_open (port_of x s') = true -> ip_open (port_of x s) = true;
  d_ledger : ip_open (port_of x s') = true ->
    waiting_for x (ps_tasks s) ++ sent_from (other x) evs = arrived_at x evs ++ waiting_for x (ps_tasks s');
  d_prefix : arrived_at x evs `prefix_of` waiting_for x (ps_tasks s) ++ sent_from (other x) evs;
  d_closed : ip_open (port_of x s) = false -> arrived_at x evs = []
}.

Lemma waiting_app x a b : waiting_for x (a ++ b) = waiting_for x a ++ waiting_for x b.
Proof. apply omap_app. Qed.

Lemma direction_still x s s' :
  ps_tasks s' = ps_tasks s \/ (exists c r, ps_tasks s' = ps_tasks s ++ [TClose (other x) c r]) \/
  (exists c r, ps_tasks s' = ps_tasks s ++ [TClose x c r]) ->
  (ip_open (port_of x s') = true -> ip_open (port_of x s) = true) -> direction x s [] s'.
Proof.
  intros Ht Ho. assert (waiting_for x (ps_tasks s') = waiting_for x (ps_tasks s)) as E.
  { destruct Ht as [->|[(c & r & ->)|(c & r & ->)]]; [done|by rewrite waiting_app, app_nil_r..]. }
  split; [done| |apply prefix_nil|done]. intros _. by rewrite E, app_nil_r.
Qed.

Lemma pair_step_direction x i s : direction x s (pair_step i s).2 (pair_step i s).1.
Proof.
  destruct i; cbn [pair_step fst snd].
  - unfold ip_send. destruct (_ || _) eqn:Eo; [by apply direction_still; [left|]|].
    destruct (clone _ f) as [v|]; [|by apply direction_still; [left|]]. cbn [fst snd].
    apply orb_false_iff in Eo as [E1 E2]. apply negb_false_iff in E1, E2.
    split; [by rewrite port_set_tasks| |apply prefix_nil|done].
    intros _. cbn [ps_tasks set_tasks]. rewrite waiting_app. by destruct x, x0.
  - unfold ip_close. destruct (ip_open (port_of x0 s)) eqn:Eo; cbn [negb]; [|by apply direction_still; [left|]].
    destruct (negb _).
    + apply direction_still; [by left|]. destruct (decide (x0 = x)) as [->|Hne]; [by rewrite port_set_same|].
      by rewrite port_set_other.
    + apply direction_still.
      * destruct x, x0; cbn; eauto.
      * rewrite port_set_tasks. destruct (decide (x0 = x)) as [->|Hne]; [by rewrite port_set_same|].
        by rewrite port_set_other.
  - apply direction_still; [by left|]. by destruct x, x0.
  - apply direction_still; [by left|]. by destruct x, x0.
  - apply direction_still; [by left|]. by destruct x, x0.
  - apply direction_still; [by left|]. by destruct x, x0.
  - unfold run_task. destruct (ps_tasks s) as [|t rest] eqn:Et; [apply direction_still; [by left|done]|].
    assert (forall y v (l : list nat) z, sent_from z (map (fun l => IFrame y l v) l) = [] /\
             arrived_at z (map (fun l => IFrame y l v) l) = []) as Hmap by (intros; by induction l).
    assert (forall y c (l : list nat) z, sent_from z (map (fun l => IClosed y l c) l) = [] /\
             arrived_at z (map (fun l => IClosed y l c) l) = []) as Hmap' by (intros; by induction l).
    destruct t as [dest v|dest code reason].
    + rewrite port_set_tasks. destruct (ip_open (port_of dest s)) eqn:Eo; cbn [negb fst snd].
      * destruct (Hmap dest v (ip_frames (port_of dest s)) (other x)) as [M1 _].
        destruct (Hmap dest v (ip_frames (port_of dest s)) x) as [_ M2].
        set (l := map _ _) in *.
        assert (sent_from (other x) (IArrived dest v :: l) = []) as S1 by exact M1.
        assert (arrived_at x (IArrived dest v :: l) = if decide (dest = x) then [v] else []) as S2.
        { change (match (if decide (dest = x) then Some v else None) with Some y => y :: arrived_at x l | None => arrived_at x l end
                  = if decide (dest = x) then [v] else []). rewrite M2. by destruct (decide (dest = x)). }
        assert (waiting_for x (ps_tasks s) = (if decide (dest = x) then [v] else []) ++ waiting_for x rest) as S3.
        { rewrite Et. cbn. by destruct (decide (dest = x)). }
        split; rewrite ?port_set_tasks, ?S1, ?S2, ?S3, ?app_nil_r; try done.
        -- by exists (waiting_for x rest).
        -- intros Hc. destruct (decide (dest = x)) as [->|]; [congruence|done].
      * split; rewrite ?port_set_tasks; cbn; try done; [|apply prefix_nil].
        intros Ho. rewrite Et. cbn. rewrite decide_False by congruence. by rewrite app_nil_r.
    + rewrite port_set_tasks. destruct (ip_open (port_of dest s)) eqn:Eo; cbn [negb fst snd].
      * destruct (Hmap' dest (PClosed (Some code) reason) (ip_closed (port_of dest s)) (other x)) as [M1 _].
        destruct (Hmap' dest (PClosed (Some code) reason) (ip_closed (port_of dest s)) x) as [_ M2].
        split; rewrite ?M1, ?M2, ?set_port_tasks, ?Et; try done; [| |apply prefix_nil].
        -- destruct (decide (dest = x)) as [->|Hne]; [by rewrite port_set_same|]. by rewrite port_set_other, port_set_tasks.
        -- intros _. cbn. by rewrite app_nil_r.
      * split; rewrite ?port_set_tasks, ?Et; cbn; try done; [|apply prefix_nil]. by rewrite app_nil_r.
Qed.

Lemma sent_app x a b : sent_from x (a ++ b) = sent_from x a ++ sent_from x b.
Proof. apply omap_app. Qed.

Lemma arrived_app x a b : arrived_at x (a ++ b) = arrived_at x a ++ arrived_at x b.
Proof. apply omap_app. Qed.

(** Each direction of the pair is first-in first-out. What arrives at a side is,
    in order, what the other side sent; while the side is open, whatever has not
    arrived is still scheduled, and nothing else is. *)
Theorem pair_fifo s evs x :
  pair_reachable s evs ->
  arrived_at x evs `prefix_of` sent_from (other x) evs /\
  (ip_open (port_of x s) = true -> sent_from (other x) evs = arrived_at x evs ++ waiting_for x (ps_tasks s)).
Proof.
  induction 1 as [o s E|i s evs s' evs' _ [IH1 IH2] E].
  - unfold createInProcessPortPair in E. apply bind_ok in E as (l & _ & E). injection E as <-. by split.
  - pose proof (pair_step_direction x i s) as [D1 D2 D3 D4]. rewrite E in *. cbn [fst snd] in *.
    rewrite sent_app, arrived_app. destruct (ip_open (port_of x s)) eqn:Eo.
    + rewrite (IH2 eq_refl). split.
      * rewrite <- app_assoc. by apply prefix_app.
      * intros Ho. by rewrite <- !app_assoc, D2.
    + rewrite (D4 eq_refl), app_nil_r. split; [by apply prefix_app_r|]. intros Ho. by discriminate (D1 Ho).
Qed.

(** ** One closure per side *)

Definition closed_at (x : side) (evs : list pair_effect) : list (nat * PortClosure) :=
  omap (fun e => match e with IClosed y l c => if decide (y = x) then Some (l, c) else None | _ => None end) evs.

Lemma closed_app x a b : closed_at x (a ++ b) = closed_at x a ++ closed_at x b.
Proof. apply omap_app. Qed.

Lemma closed_frames x y v (l : list nat) : closed_at x (map (fun l => IFrame y l v) l) = [].
Proof. by induction l. Qed.

Lemma closed_closed x y c (l : list nat) :
  closed_at x (map (fun l => IClosed y l c) l) = if decide (y = x) then map (fun l => (l, c)) l else [].
Proof.
  induction l as [|n l IH]; [by destruct (decide (y = x))|]. unfold closed_at in *. cbn. rewrite IH.
  by destruct (decide (y = x)).
Qed.

Lemma pair_step_closures x i s :
  NoDup (ip_closed (port_of x s)) ->
  NoDup (ip_closed (port_of x (pair_step i s).1)) /\
  (ip_open (port_of x (pair_step i s).1) = true -> ip_open (port_of x s) = true /\ closed_at x (pair_step i s).2 = []) /\
  (ip_open (port_of x s) = false -> closed_at x (pair_step i s).2 = []) /\
  (exists c ls, NoDup ls /\ closed_at x (pair_step i s).2 = map (fun l => (l, c)) ls).
Proof.
  intros Hn. assert (exists c ls, NoDup ls /\ @nil (nat * PortClosure) = map (fun l : nat => (l, c)) ls) as Hnil.
  { exists (PClosed None None), []. split; [constructor|done]. }
  destruct i; cbn [pair_step fst snd].
  - unfold ip_send. destruct (_ || _); [by auto|]. destruct (clone _ f); cbn [fst snd]; rewrite ?port_set_tasks; auto.
  - unfold ip_close. destruct (ip_open (port_of x0 s)) eqn:Eo; cbn [negb]; [|by auto].
    destruct (negb _); rewrite ?port_set_tasks.
    all: destruct (decide (x0 = x)) as [->|Hne]; [rewrite port_set_same; cbn; auto|rewrite port_set_other by done; auto].
  - destruct x, x0; cbn in *; auto.
  - destruct x, x0; cbn in *; auto.
  - destruct x, x0; cbn in *; auto using add_NoDup.
  - destruct x, x0; cbn in *; auto using remove_NoDup.
  - unfold run_task. destruct (ps_tasks s) as [|t rest]; [by auto|].
    destruct t as [dest v|dest code reason]; rewrite ?port_set_tasks.
    + destruct (negb _); cbn [fst snd]; rewrite ?port_set_tasks; [by auto|].
      change (closed_at x (IArrived dest v :: ?l)) with (closed_at x l). rewrite closed_frames. auto.
    + destruct (ip_open (port_of dest s)) eqn:Eo; cbn [negb fst snd]; rewrite ?port_set_tasks; [|by auto].
      rewrite closed_closed. destruct (decide (dest = x)) as [->|Hne].
      * rewrite port_set_same. cbn. split; [constructor|]. split; [done|]. split; [congruence|]. eauto.
      * rewrite port_set_other, port_set_tasks by done. auto.
Qed.

(** Each side hears of at most one closure, once per subscriber, none while it is
    open and none after it closed by itself or was told. *)
Theorem pair_closure_once s evs x :
  pair_reachable s evs ->
  (exists c ls, NoDup ls /\ closed_at x evs = map (fun l => (l, c)) ls) /\
  (ip_open (port_of x s) = true -> closed_at x evs = []) /\
  (ip_open (port_of x s) = false -> forall i, closed_at x (pair_step i s).2 = []).
Proof.
  intros Hr. assert (NoDup (ip_closed (port_of x s)) /\ (ip_open (port_of x s) = true -> closed_at x evs = []) /\
    exists c ls, NoDup ls /\ closed_at x evs = map (fun l => (l, c)) ls) as (Hn & Ho & Hx).
  { induction Hr as [o s E|i s evs s' evs' _ (IH1 & IH2 & IH3) E].
    - unfold createInProcessPortPair in E. apply bind_ok in E as (l & _ & E). injection E as <-.
      split; [by destruct x; constructor|]. split; [done|]. exists (PClosed None None), []. split; [constructor|done].
    - destruct (pair_step_closures x i s IH1) as (S1 & S2 & S3 & S4). rewrite E in *. cbn [fst snd] in *.
      split; [done|]. rewrite closed_app. split.
      + intros Hop. destruct (S2 Hop) as [H1 ->]. by rewrite (IH2 H1).
      + destruct (ip_open (port_of x s)) eqn:Eo; [by rewrite (IH2 eq_refl)|].
        rewrite (S3 eq_refl), app_nil_r. done. }
  split; [done|]. split; [done|]. intros Hc i. by apply (pair_step_closures x i s Hn).
Qed.

(** ** The round trip through the codec *)

(** With frame validation on, a frame the codec accepts arrives as the same frame:
    an embedded peer sees exactly what a remote one would. *)
Theorem pair_transparent o f limit bytes :
  default true (io_validateFrames o) = true -> plain f -> resolveFrameLimit (io_maxFrameBytes o) = Ok limit ->
  encodeFrameBytes f (io_maxFrameBytes o) = Ok bytes ->
  clone o f = Ok (DRecord (frame_json f)) /\ frame_of (frame_json f) = Some f.
Proof.
  intros Hv Hp Hl Hb. unfold clone. rewrite Hv, Hb. cbn [mbind outcome_bind].
  unfold encodeFrameBytes in Hb. rewrite Hl in Hb. cbn in Hb.
  destruct (encodeChecked f limit) as [[t b]|] eqn:Ec; [|done]. cbn in Hb. injection Hb as <-.
  apply encodeChecked_ok in Ec as (Hf & _ & -> & Hz); [|done].
  destruct Hp as [[j Hj] Hok]. split; [|by apply (frame_of_frame_json f j)].
  unfold decodeLine. rewrite Hl. cbn [range mbind outcome_bind input_bytes].
  rewrite strip_text by done. rewrite (proj2 (Z.ltb_ge _ _)) by done.
  rewrite stringify_utf8, not_blank, decodeRecord_text by done. done.
Qed.
End Pair.

#[local] Existing Instance conforming_checker.
#[local] Existing Instance plain_engine.

(** ** A pair at work *)

Definition keep_frame : frame -> outcome exn frame := fun f => Ok f.

Definition sample_pair : pair_state :=
  let port := {| ip_open := true; ip_frames := []; ip_closed := [] |} in
  {| ps_options := {| io_validateFrames := None; io_maxFrameBytes := None |};
     ps_maxFrameBytes := DEFAULT_MAX_FRAME_BYTES; ps_a := port; ps_b := port; ps_tasks := [] |}.

Definition pair_drive (ins : list pair_input) : pair_state * list pair_effect :=
  fold_left (fun '(s, evs) i => let '(s', evs') := pair_step keep_frame i s in (s', evs ++ evs')) ins (sample_pair, []).

Lemma pair_drive_reachable ins : pair_reachable keep_frame (pair_drive ins).1 (pair_drive ins).2.
Proof.
  induction ins as [|i ins IH] using rev_ind.
  - apply (pair_reach_new _ {| io_validateFrames := None; io_maxFrameBytes := None |}). vm_compute. reflexivity.
  - unfold pair_drive in *. rewrite fold_left_app. cbn [fold_left].
    destruct (fold_left _ ins (sample_pair, [])) as [s e]; cbn [fst snd] in *.
    destruct (pair_step keep_frame i s) as [s' e'] eqn:E. by eapply pair_reach_step.
Qed.

(** A sends twice and closes; B reads the first. *)
Definition exchange : list pair_input :=
  [IOnClosed B 5; ISend A FPing; ISend A FPong; IClose A RELEASED None; ITask].

Lemma pair_fifo_witness :
  length (arrived_at B (pair_drive exchange).2) = 1%nat /\
  sent_from A (pair_drive exchange).2 = arrived_at B (pair_drive exchange).2 ++ waiting_for B (ps_tasks (pair_drive exchange).1).
Proof.
  split; [vm_compute; reflexivity|].
  apply (pair_fifo keep_frame (pair_drive exchange).1 (pair_drive exchange).2 B); [apply pair_drive_reachable|].
  vm_compute. reflexivity.
Defined.

Lemma pair_closure_once_witness :
  exists c ls, NoDup ls /\ closed_at B (pair_drive (exchange ++ [ITask; ITask; ITask])).2 = map (fun l => (l, c)) ls.
Proof.
  apply (pair_closure_once keep_frame (pair_drive (exchange ++ [ITask; ITask; ITask])).1). apply pair_drive_reachable.
Defined.

Lemma pair_transparent_witness :
  clone keep_frame {| io_validateFrames := None; io_maxFrameBytes := None |} FPing = Ok (DRecord (frame_json FPing)).
Proof.
  apply (pair_transparent keep_frame {| io_validateFrames := None; io_maxFrameBytes := None |} FPing
    DEFAULT_MAX_FRAME_BYTES (default [] (ok_of (encodeFrameBytes FPing None)))).
  - reflexivity.
  - split; [eexists; reflexivity|reflexivity].
  - vm_compute. reflexivity.
  - vm_compute. reflexivity.
Defined.
