(* ===== verification/Contract.v ===== *)
(** * Contracts

    [packages/protocol/src/contract.ts] and [packages/protocol/src/schemas/catalog.ts]:
    an application contract, the catalog document built from it, and the handlers
    [serve] registers on a session. The schemas of a contract are TypeBox values
    the application wrote: what the library does with them is the interface
    [SchemaEngine]. *)

From S2P Require Import Prelude Utf8 Regex Json JsonFacts Wire Frames Ndjson Listeners Session.

(** ** Schemas the application wrote *)

(** The part of a TypeBox validation error the contract reads. *)
Inductive violation_keyword : Type :=
| KRequired (requiredProperties : list jstring)
| KAdditional (additionalProperties : list jstring)
| KOther.

Record validation_error : Type := {
  ve_keyword : violation_keyword;
  ve_instancePath : jstring;
  ve_message : jstring
}.

(** [Value.Check], [Value.Errors] and [JSON.parse(JSON.stringify(schema))] on the
    application's schemas; a schema that is not an object has no document. *)
Class SchemaEngine : Type := {
  tschema : Type;
  value_check : tschema -> jsval -> bool;
  value_errors : tschema -> jsval -> list validation_error;
  schema_document : tschema -> list (jstring * json)
}.

(** ** Pointers *)

(** [token.replaceAll(c, r)] for a one-unit pattern. *)
Definition replaceAll (c : Z) (r s : jstring) : jstring := concat (map (fun u => if u =? c then r else [u]) s).

(** RFC 6901: [~] then [/]. *)
Definition escapePointerToken (token : jstring) : jstring :=
  replaceAll 47 [126; 49] (replaceAll 126 [126; 48] token).

(** Reading an escaped token back. *)
Fixpoint unescapePointerToken (s : jstring) : jstring :=
  match s with
  | [] => []
  | u :: rest =>
      match rest with
      | v :: rest' =>
          if (u =? 126) && (v =? 48) then 126 :: unescapePointerToken rest'
          else if (u =? 126) && (v =? 49) then 47 :: unescapePointerToken rest'
          else u :: unescapePointerToken rest
      | [] => [u]
      end
  end.

Lemma escape_cons u s :
  escapePointerToken (u :: s) =
  (if u =? 126 then [126; 48] else if u =? 47 then [126; 49] else [u]) ++ escapePointerToken s.
Proof.
  unfold escapePointerToken, replaceAll. cbn [map concat].
  rewrite map_app, concat_app. f_equal. destruct (Z.eqb_spec u 126) as [->|]; [done|].
  cbn. by rewrite app_nil_r.
Qed.

(** Escaping a property name for a JSON pointer loses nothing and keeps it one
    token: the escaped name has no slash and reads back as the name. *)
Lemma pointer_token_roundtrip token :
  unescapePointerToken (escapePointerToken token) = token /\ 47 ∉ escapePointerToken token.
Proof.
  induction token as [|u s [IH1 IH2]]; [split; [done|apply not_elem_of_nil]|]. rewrite escape_cons.
  destruct (Z.eqb_spec u 126) as [->|H1]; [|destruct (Z.eqb_spec u 47) as [->|H2]].
  - cbn [app unescapePointerToken]. rewrite IH1. split; [done|]. set_solver.
  - cbn [app unescapePointerToken]. rewrite IH1. split; [done|]. set_solver.
  - cbn [app]. split; [|set_solver].
    rewrite <-IH1 at 2. destruct (escapePointerToken s); [done|]. cbn [unescapePointerToken].
    by rewrite (proj2 (Z.eqb_neq u 126) H1).
Qed.

Record violation : Type := { v_path : jstring; v_message : jstring }.

Definition offendingProperty (e : validation_error) : option jstring :=
  match ve_keyword e with
  | KRequired ps => head ps
  | KAdditional ps => head ps
  | KOther => None
  end.

(** The empty string is falsy: no property, and the root pointer renders as [/]. *)
Definition firstViolation `{SchemaEngine} (s : tschema) (v : jsval) : option violation :=
  match value_errors s v with
  | [] => None
  | e :: _ =>
      let pointer :=
        match offendingProperty e with
        | Some ((_ :: _) as p) => ve_instancePath e ++ [47] ++ escapePointerToken p
        | _ => ve_instancePath e
        end in
      Some {| v_path := match pointer with [] => [47] | _ => pointer end; v_message := ve_message e |}
  end.

(** ** Definitions *)

Record MethodDefinition `{SchemaEngine} : Type := {
  md_params : tschema;
  md_result : tschema;
  md_capabilities : option (list jstring);
  md_description : option jstring;
  md_deprecated : option bool
}.

Record EventDefinition `{SchemaEngine} : Type := {
  ed_payload : tschema;
  ed_stream : option bool;
  ed_description : option jstring
}.

(** [methods] and [events] as [Object.entries] lists them. *)
Record ContractDefinition `{SchemaEngine} : Type := {
  cd_name : jstring;
  cd_version : jstring;
  cd_description : option jstring;
  cd_protocol : option ProtocolVersion;
  cd_methods : list (jstring * MethodDefinition);
  cd_events : option (list (jstring * EventDefinition));
  cd_capabilities : option tschema
}.

(** [assertContractName]: the message of the [TypeError], if it throws. *)
Definition assertContractName (kind name : jstring) : option jstring :=
  if isValidMethodName name && negb (isReservedMethodName name) then None
  else Some (js "Contract " ++ kind ++ js " " ++ [34] ++ name ++ [34] ++
    js " is not a valid name; expected two or more dot-separated lowercase segments outside the reserved rpc. namespace.").

Fixpoint first_refusal (kind : jstring) (names : list jstring) : option jstring :=
  match names with
  | [] => None
  | n :: rest => match assertContractName kind n with Some e => Some e | None => first_refusal kind rest end
  end.

(** [defineContract]: the checked definition, or the message it throws. *)
Definition defineContract `{SchemaEngine} (d : ContractDefinition) : outcome jstring ContractDefinition :=
  match first_refusal (js "method") (map fst (cd_methods d)) with
  | Some e => Err e
  | None =>
      match first_refusal (js "topic") (map fst (default [] (cd_events d))) with
      | Some e => Err e
      | None => Ok d
      end
  end.

Definition definitionFor `{SchemaEngine} (d : ContractDefinition) (method : jstring) : outcome RemoteError MethodDefinition :=
  match List.find (fun p => bool_decide (p.1 = method)) (cd_methods d) with
  | Some (_, entry) => Ok entry
  | None =>
      Err (remoteError METHOD_UNSUPPORTED
        (js "Method " ++ [34] ++ method ++ [34] ++ js " is not part of contract " ++ [34] ++ cd_name d ++ [34] ++ js ".")
        (Some [(js "method", JStr method); (js "contract", JStr (cd_name d))]))
  end.

(** The end of the two messages that name a violation, and their details. *)
Definition at_violation (first : option violation) : jstring :=
  match first with Some v => js " at " ++ v_path v ++ js ": " ++ v_message v | None => [] end ++ js ".".

Definition violation_details (method : jstring) (first : option violation) : option (list (jstring * json)) :=
  Some ((js "method", JStr method) ::
        match first with Some v => [(js "path", JStr (v_path v)); (js "reason", JStr (v_message v))] | None => [] end).

Definition assertParams `{SchemaEngine} (d : ContractDefinition) (method : jstring) (params : jsval)
    : outcome RemoteError unit :=
  entry ← definitionFor d method;
  if value_check (md_params entry) params then Ok tt
  else
    let first := firstViolation (md_params entry) params in
    Err (remoteError INVALID_PARAMS
      (js "Parameters of " ++ [34] ++ method ++ [34] ++ js " do not match the contract" ++ at_violation first)
      (violation_details method first)).

(** ** The catalog *)

Definition CatalogMethodSchema : schema :=
  SObject [required (js "name") MethodSchema;
           optional (js "description") (SString None None None);
           required (js "params") SOpenObject;
           required (js "result") SOpenObject;
           optional (js "capabilities") (SArray (SString (Some 1) None None) true);
           optional (js "deprecated") SBoolean].

Definition CatalogEventSchema : schema :=
  SObject [required (js "topic") TopicSchema;
           optional (js "description") (SString None None None);
           required (js "payload") SOpenObject;
           optional (js "stream") SBoolean].

Definition CatalogSchema : schema :=
  SObject [required (js "name") (SString (Some 1) (Some PEER_FIELD_MAX_LENGTH) None);
           required (js "version") (SString (Some 1) (Some PEER_FIELD_MAX_LENGTH) None);
           optional (js "description") (SString None None None);
           optional (js "protocol") ProtocolVersionSchema;
           required (js "methods") (SArray CatalogMethodSchema false);
           optional (js "events") (SArray CatalogEventSchema false);
           optional (js "capabilities") SOpenObject].

Definition isCatalog `{TypeBox} (value : json) : bool := check CatalogSchema value.

Definition assertCatalog `{TypeBox} (value : json) : outcome CodecError unit :=
  if isCatalog value then Ok tt
  else Err (codecError schema_refused (describeSchemaFailure (js "catalog does not match catalog.json") CatalogSchema value)).

Definition plainSchema `{SchemaEngine} (s : tschema) : json := JObj (schema_document s).

Definition catalog_method `{SchemaEngine} (p : jstring * MethodDefinition) : json :=
  JObj ([(js "name", JStr p.1)] ++ present (js "description") (md_description p.2) JStr ++
        [(js "params", plainSchema (md_params p.2)); (js "result", plainSchema (md_result p.2))] ++
        present (js "capabilities") (md_capabilities p.2) (fun cs => JArr (map JStr cs)) ++
        present (js "deprecated") (md_deprecated p.2) JBool).

Definition catalog_event `{SchemaEngine} (p : jstring * EventDefinition) : json :=
  JObj ([(js "topic", JStr p.1)] ++ present (js "description") (ed_description p.2) JStr ++
        [(js "payload", plainSchema (ed_payload p.2))] ++ present (js "stream") (ed_stream p.2) JBool).

Definition catalog_json `{SchemaEngine} (d : ContractDefinition) : json :=
  JObj ([(js "name", JStr (cd_name d)); (js "version", JStr (cd_version d))] ++
        present (js "description") (cd_description d) JStr ++ present (js "protocol") (cd_protocol d) version_json ++
        [(js "methods", JArr (map catalog_method (cd_methods d)));
         (js "events", JArr (map catalog_event (default [] (cd_events d))))] ++
        present (js "capabilities") (cd_capabilities d) plainSchema).

(** [buildCatalog] *)
Definition buildCatalog `{SchemaEngine, TypeBox} (d : ContractDefinition) : outcome CodecError json :=
  _ ← assertCatalog (catalog_json d); Ok (catalog_json d).

(** ** Serving *)

(** [ServeOptions]: whether there is a guard, and the two switches. *)
Record ServeOptions : Type := {
  sv_guard : bool;
  sv_validateResults : option bool;
  sv_discover : option bool
}.

(** What a served method calls of the application's: the guard with what its
    context adds, and the handler. *)
Inductive served_effect : Type :=
| CallGuard (method : jstring) (capabilities : list jstring) (params : jsval) (inFlight : nat) (remote : RemotePeer)
| CallHandler (method : jstring) (params : jsval).

(** Where the async handler [serve] registers for a method is. *)
Inductive served_phase : Type :=
| AwaitingGuard
| AwaitingHandler
| Settled (o : handler_outcome).

(** How the promise it awaits settles. *)
Inductive served_input : Type :=
| GuardSettled (thrown : option handler_throw)
| HandlerSettled (o : handler_outcome).

(** The handler up to its first [await]; [s] is the session that called it. *)
Definition serve_call `{SchemaEngine} (d : ContractDefinition) (o : ServeOptions) (method : jstring)
    (entry : MethodDefinition) (params : jsval) (s : session) : served_phase * list served_effect :=
  match assertParams d method params with
  | Err e => (Settled (HThrow (TRemote e)), [])
  | Ok _ =>
      if sv_guard o then
        match remote s with
        | Err e => (Settled (HThrow (TRemote e)), [])
        | Ok r => (AwaitingGuard, [CallGuard method (default [] (md_capabilities entry)) params (inFlight s) r])
        end
      else (AwaitingHandler, [CallHandler method params])
  end.

(** The result check, behind [validateResults]. *)
Definition checkResult `{SchemaEngine} (o : ServeOptions) (method : jstring) (entry : MethodDefinition) (v : jsval)
    : handler_outcome :=
  if default false (sv_validateResults o) && negb (value_check (md_result entry) v) then
    let first := firstViolation (md_result entry) v in
    HThrow (TRemote (remoteError INTERNAL
      (js "Result of " ++ [34] ++ method ++ [34] ++ js " does not match the contract" ++ at_violation first)
      (violation_details method first)))
  else HReturn v.

(** The handler from one [await] to the next. *)
Definition serve_resume `{SchemaEngine} (o : ServeOptions) (method : jstring) (entry : MethodDefinition) (params : jsval)
    (i : served_input) (phase : served_phase) : served_phase * list served_effect :=
  match phase, i with
  | AwaitingGuard, GuardSettled (Some t) => (Settled (HThrow t), [])
  | AwaitingGuard, GuardSettled None => (AwaitingHandler, [CallHandler method params])
  | AwaitingHandler, HandlerSettled (HThrow t) => (Settled (HThrow t), [])
  | AwaitingHandler, HandlerSettled (HReturn v) => (Settled (checkResult o method entry v), [])
  | _, _ => (phase, [])
  end.

Fixpoint serve_resumes `{SchemaEngine} (o : ServeOptions) (method : jstring) (entry : MethodDefinition) (params : jsval)
    (ins : list served_input) (phase : served_phase) : served_phase * list served_effect :=
  match ins with
  | [] => (phase, [])
  | i :: rest =>
      let '(phase, effs) := serve_resume o method entry params i phase in
      let '(phase, effs') := serve_resumes o method entry params rest phase in
      (phase, effs ++ effs')
  end.

(** One call of a served method, whatever the application's promises do. *)
Definition serve_run `{SchemaEngine} (d : ContractDefinition) (o : ServeOptions) (method : jstring)
    (entry : MethodDefinition) (params : jsval) (s : session) (ins : list served_input)
    : served_phase * list served_effect :=
  let '(phase, effs) := serve_call d o method entry params s in
  let '(phase, effs') := serve_resumes o method entry params ins phase in
  (phase, effs ++ effs').

(** The handler of [rpc.discover]. *)
Definition discover_handler (catalog : json) (params : jsval) : handler_outcome :=
  match params with
  | VJson (JObj _) => HReturn (VJson catalog)
  | _ =>
      HThrow (TRemote (remoteError INVALID_PARAMS
        (js "Parameters of " ++ [34] ++ RPC_DISCOVER ++ [34] ++ js " must be an object.")
        (Some [(js "method", JStr RPC_DISCOVER)])))
  end.

(** The registrations of [serve], in order: the closures it makes are numbered from [h]. *)
Definition registrations `{SchemaEngine} (d : ContractDefinition) (o : ServeOptions) (h : nat) : list (jstring * nat) :=
  let names := (if default true (sv_discover o) then [RPC_DISCOVER] else []) ++ map fst (cd_methods d) in
  zip names (seq h (length names)).

(** [serve]: the session with every handler registered and what the returned
    remover holds, or the error of a catalog that does not build. *)
Definition serve `{SchemaEngine, TypeBox} (d : ContractDefinition) (o : ServeOptions) (h : nat) (s : session)
    : outcome CodecError (session * list (jstring * nat)) :=
  _ ← (if default true (sv_discover o) then buildCatalog d else Ok JNull);
  let rs := registrations d o h in
  Ok (fold_left (fun s r => handle r.1 r.2 s) rs s, rs).

(** The function [serve] returns. *)
Definition unserve (removers : list (jstring * nat)) (s : session) : session :=
  fold_left (fun s r => unhandle r.1 r.2 s) removers s.

(** ** The client and the events *)

(** [client(session).discover] once the request settled, with a JSON answer or a failure. *)
Definition discover_settled `{TypeBox} (answer : outcome failure json) : outcome failure json :=
  v ← answer;
  match assertCatalog v with Ok _ => Ok v | Err e => Err (FCodec e) end.

(** [events(session).emit] *)
Definition contract_emit (port : port_fn) (topic : jstring) (payload : jsval)
    (streamId : option jstring) (ending : bool) (s : session)
    : session * list effect * outcome failure bool :=
  emit port {| ei_topic := topic; ei_payload := payload; ei_streamId := streamId; ei_end := ending |} s.

(** [events(session).on]: the wrapped listener, given a frame. *)
Definition contract_listener (topic : jstring) (f : frame) : option jsval :=
  match f with
  | FEvt t _ _ payload _ => if bool_decide (t = topic) then Some payload else None
  | _ => None
  end.
