(* ===== verification/ContractFacts.v ===== *)
(** * What a contract promises

    Theorems about [contract.ts]: the order in which a served method checks its
    parameters, asks the guard and runs the handler, what [serve] leaves on the
    session and what its remover takes away, and when a catalog builds. *)

From S2P Require Import Prelude Utf8 Regex Json JsonFacts Wire Frames Ndjson Listeners Session SessionFacts SessionTrace SessionLife SessionExamples Contract.

Section Serving.
Context `{SchemaEngine}.
Variables (d : ContractDefinition) (o : ServeOptions) (method : jstring) (entry : MethodDefinition) (params : jsval).

(** What the application sees of one call, cut at the phase reached. *)
Definition served_so_far (s : session) (ins : list served_input) (phase : served_phase) (effs : list served_effect) : Prop :=
  let guard r := CallGuard method (default [] (md_capabilities entry)) params (inFlight s) r in
  let handler := CallHandler method params in
  match phase with
  | AwaitingGuard => sv_guard o = true /\ exists r, remote s = Ok r /\ effs = [guard r]
  | AwaitingHandler =>
      if sv_guard o then exists r, remote s = Ok r /\ effs = [guard r; handler] /\ GuardSettled None ∈ ins
      else effs = [handler]
  | Settled out =>
      (sv_guard o = true /\ (exists e, remote s = Err e /\ effs = [] /\ out = HThrow (TRemote e))) \/
      (sv_guard o = true /\
       exists r t, remote s = Ok r /\ effs = [guard r] /\ GuardSettled (Some t) ∈ ins /\ out = HThrow t) \/
      ((if sv_guard o then exists r, remote s = Ok r /\ effs = [guard r; handler] /\ GuardSettled None ∈ ins
        else effs = [handler]) /\
       exists h, HandlerSettled h ∈ ins /\
         out = match h with HThrow t => HThrow t | HReturn v => checkResult o method entry v end)
  end.

Lemma serve_resume_invariant s ins phase effs i :
  served_so_far s ins phase effs ->
  let '(phase', effs') := serve_resume o method entry params i phase in
  served_so_far s (ins ++ [i]) phase' (effs ++ effs').
Proof.
  intros Hinv. destruct phase as [| |out].
  - destruct Hinv as (Hg & r & Hr & ->), i as [[t|]|h]; cbn; rewrite ?Hg; [| |eauto].
    + right; left. split; [done|]. exists r, t. set_solver.
    + exists r. set_solver.
  - destruct i as [t|[v|t]]; cbn in *; rewrite app_nil_r; [destruct (sv_guard o); set_solver| |];
      right; right; (split; [destruct (sv_guard o); set_solver|]);
      eexists; (split; [apply elem_of_app; right; by constructor|done]).
  - cbn in *. rewrite app_nil_r. destruct Hinv as [Hl|[(Hg & r & t & ? & ? & ? & ?)|[Hc (h & ? & ?)]]].
    + by left.
    + right; left. split; [done|]. exists r, t. set_solver.
    + right; right. split; [destruct (sv_guard o); set_solver|]. exists h. set_solver.
Qed.

Lemma serve_resumes_invariant s ins ins0 phase effs :
  served_so_far s ins0 phase effs ->
  let '(phase', effs') := serve_resumes o method entry params ins phase in
  served_so_far s (ins0 ++ ins) phase' (effs ++ effs').
Proof.
  revert ins0 phase effs; induction ins as [|i rest IH]; intros ins0 phase effs Hinv; cbn.
  - by rewrite !app_nil_r.
  - pose proof (serve_resume_invariant _ _ _ _ i Hinv) as Hi. destruct (serve_resume _ _ _ _ _ _) as [p e].
    specialize (IH _ _ _ Hi). destruct (serve_resumes _ _ _ _ _ _) as [p' e'].
    by rewrite <-!app_assoc in IH.
Qed.

Lemma serve_run_valid s ins :
  definitionFor d method = Ok entry -> value_check (md_params entry) params = true ->
  let '(phase, effs) := serve_run d o method entry params s ins in served_so_far s ins phase effs.
Proof.
  intros Hd Hv. unfold serve_run, serve_call, assertParams. rewrite Hd. cbn. rewrite Hv.
  destruct (sv_guard o) eqn:Hg; [destruct (remote s) as [r|e] eqn:Hr|].
  - pose proof (serve_resumes_invariant s ins [] AwaitingGuard
      [CallGuard method (default [] (md_capabilities entry)) params (inFlight s) r]) as Hi.
    destruct (serve_resumes _ _ _ _ _ _). apply Hi. cbn. eauto.
  - pose proof (serve_resumes_invariant s ins [] (Settled (HThrow (TRemote e))) []) as Hi.
    destruct (serve_resumes _ _ _ _ _ _). apply Hi. left. eauto.
  - pose proof (serve_resumes_invariant s ins [] AwaitingHandler [CallHandler method params]) as Hi.
    destruct (serve_resumes _ _ _ _ _ _). apply Hi. cbn. by rewrite Hg.
Qed.

Lemma served_prefix s ins phase effs r :
  served_so_far s ins phase effs -> remote s = Ok r ->
  effs `prefix_of` (if sv_guard o
    then [CallGuard method (default [] (md_capabilities entry)) params (inFlight s) r]
    else []) ++ [CallHandler method params].
Proof.
  intros Hinv Hr. unfold served_so_far in Hinv. rewrite Hr in Hinv.
  set (g := CallGuard _ _ _ _ r). assert ([g] `prefix_of` [g; CallHandler method params]) by (by exists [CallHandler method params]).
  destruct phase.
  - destruct Hinv as (-> & r' & [= <-] & ->). done.
  - destruct (sv_guard o); [by destruct Hinv as (r' & [= <-] & -> & _)|by subst effs].
  - destruct Hinv as [(_ & e & [=] & _)|[(-> & r' & t & [= <-] & -> & _)|[Heffs _]]]; [done|].
    destruct (sv_guard o); [by destruct Heffs as (r' & [= <-] & -> & _)|by subst effs].
Qed.

Lemma served_guarded s ins phase effs :
  served_so_far s ins phase effs ->
  CallHandler method params ∈ effs -> sv_guard o = true -> GuardSettled None ∈ ins.
Proof.
  intros Hinv Hin Hg. unfold served_so_far in Hinv. rewrite Hg in Hinv.
  destruct phase; [destruct Hinv as (_ & r & _ & ->); set_solver|naive_solver|].
  destruct Hinv as [(_ & e & _ & -> & _)|[(_ & r & t & _ & -> & _)|[(r & _ & _ & ?) _]]]; set_solver.
Qed.

Lemma served_result s ins v effs :
  served_so_far s ins (Settled (HReturn v)) effs ->
  CallHandler method params ∈ effs /\ HandlerSettled (HReturn v) ∈ ins /\
  (sv_validateResults o = Some true -> value_check (md_result entry) v = true).
Proof.
  intros [(_ & e & _ & _ & [=])|[(_ & r & t & _ & _ & _ & [=])|[Heffs (h & Hin & Hout)]]].
  split; [destruct (sv_guard o); [destruct Heffs as (r & _ & -> & _)|subst effs]; set_solver|].
  destruct h as [w|t]; [|done]. unfold checkResult in Hout.
  destruct (sv_validateResults o) as [[]|], (value_check (md_result entry) w) eqn:Hw; simplify_eq/=; done.
Qed.

Lemma serve_resumes_settled ins out :
  serve_resumes o method entry params ins (Settled out) = (Settled out, []).
Proof. induction ins as [|i rest IH]; [done|]. cbn. by rewrite IH. Qed.

(** C13: a served method checks its parameters first, asks the guard second and runs
    its handler last, whatever the guard and the handler do and in whatever
    order their promises settle. Parameters the schema refuses are answered
    INVALID_PARAMS and reach neither the guard nor the handler; the handler runs
    only once a configured guard has allowed the call, with the validated
    parameters; and the method returns a value only when the handler returned it
    and, with [validateResults], it matches the result schema. *)
Theorem serve_gated s ins phase effs :
  definitionFor d method = Ok entry ->
  serve_run d o method entry params s ins = (phase, effs) ->
  (value_check (md_params entry) params = false ->
     effs = [] /\ exists e, phase = Settled (HThrow (TRemote e)) /\ re_code e = INVALID_PARAMS) /\
  (forall r, remote s = Ok r -> value_check (md_params entry) params = true ->
     effs `prefix_of` (if sv_guard o
                then [CallGuard method (default [] (md_capabilities entry)) params (inFlight s) r]
                else []) ++ [CallHandler method params]) /\
  (CallHandler method params ∈ effs -> sv_guard o = true -> GuardSettled None ∈ ins) /\
  (forall v, phase = Settled (HReturn v) ->
     CallHandler method params ∈ effs /\ HandlerSettled (HReturn v) ∈ ins /\
     (sv_validateResults o = Some true -> value_check (md_result entry) v = true)).
Proof.
  intros Hd Hrun. destruct (value_check (md_params entry) params) eqn:Hv.
  - pose proof (serve_run_valid s ins Hd Hv) as Hinv. rewrite Hrun in Hinv.
    split; [done|]. split; [intros r Hr _; by eapply served_prefix|].
    split; [by eapply served_guarded|]. intros v ->. by eapply served_result.
  - unfold serve_run, serve_call, assertParams in Hrun. rewrite Hd in Hrun. cbn in Hrun.
    rewrite Hv, serve_resumes_settled in Hrun. injection Hrun as <- <-.
    split; [intros _; split; [done|eexists; split; [done|done]]|].
    split; [done|]. split; [by intros ?%elem_of_nil|done].
Qed.

End Serving.

(** ** Registration *)

Lemma handle_all rs s :
  NoDup rs.*1 -> fold_left (fun s r => handle r.1 r.2 s) rs s = set_handlers (list_to_map rs ∪ s_handlers s) s.
Proof.
  revert s; induction rs as [|[m h] rs IH]; intros s Hnd; cbn.
  - rewrite map_empty_union. by destruct s.
  - apply NoDup_cons in Hnd as [Hm Hnd]. rewrite IH by done. unfold handle; cbn.
    rewrite <-insert_union_r by (by apply not_elem_of_list_to_map_1).
    by rewrite insert_union_l.
Qed.

Lemma unhandle_lookup m h s k :
  s_handlers (unhandle m h s) !! k =
  if decide (k = m /\ s_handlers s !! m = Some h) then None else s_handlers s !! k.
Proof.
  unfold unhandle. destruct (decide (s_handlers s !! m = Some h)) as [Hm|Hm]; cbn.
  - destruct (decide (k = m)) as [->|Hk]; [rewrite lookup_delete_eq, decide_True by done; done|].
    rewrite lookup_delete_ne by done. by rewrite decide_False by tauto.
  - by rewrite decide_False by tauto.
Qed.

Lemma unserve_lookup rs s k :
  s_handlers (unserve rs s) !! k =
  match s_handlers s !! k with
  | Some h => if decide ((k, h) ∈ rs) then None else Some h
  | None => None
  end.
Proof.
  unfold unserve. revert s; induction rs as [|[m h] rs IH]; intros s; cbn.
  - by destruct (s_handlers s !! k).
  - rewrite IH, unhandle_lookup. destruct (decide (k = m /\ _)) as [[-> ->]|Hne].
    + by rewrite decide_True by constructor.
    + destruct (s_handlers s !! k) as [h'|] eqn:Hk; [|done].
      destruct (decide ((k, h') ∈ rs)); [by rewrite decide_True by (by constructor)|].
      rewrite decide_False; [done|]. intros [[= -> ->]|]%elem_of_cons; naive_solver.
Qed.

Lemma first_refusal_none kind names :
  first_refusal kind names = None <->
  Forall (fun n => isValidMethodName n = true /\ isReservedMethodName n = false) names.
Proof.
  induction names as [|n names IH]; cbn; [by split|]. unfold assertContractName.
  rewrite Forall_cons, <-IH. destruct (isValidMethodName n), (isReservedMethodName n); cbn; naive_solver.
Qed.

Lemma defineContract_names `{SchemaEngine} d d' :
  defineContract d = Ok d' ->
  Forall (fun n => isValidMethodName n = true /\ isReservedMethodName n = false) (map fst (cd_methods d)) /\
  Forall (fun n => isValidMethodName n = true /\ isReservedMethodName n = false) (map fst (default [] (cd_events d))).
Proof.
  unfold defineContract. destruct (first_refusal (js "method") _) eqn:H1; [done|].
  destruct (first_refusal (js "topic") _) eqn:H2; [done|]. intros _.
  by apply first_refusal_none in H1, H2.
Qed.

Lemma registrations_fst `{SchemaEngine} d o h :
  (registrations d o h).*1 = (if default true (sv_discover o) then [RPC_DISCOVER] else []) ++ map fst (cd_methods d).
Proof. unfold registrations. apply fst_zip. rewrite length_seq. lia. Qed.

Lemma registrations_nodup `{SchemaEngine} d d' o h :
  defineContract d = Ok d' -> NoDup (map fst (cd_methods d)) -> NoDup (registrations d o h).*1.
Proof.
  intros [Hm _]%defineContract_names Hnd. rewrite registrations_fst.
  destruct (default true (sv_discover o)); [|done]. apply NoDup_app. split; [apply NoDup_singleton|].
  split; [|done]. intros ? ->%list_elem_of_singleton Hin.
  rewrite Forall_forall in Hm. by destruct (Hm _ Hin) as [_ [=]].
Qed.

(** A request for a registered, unreserved method of a ready session with a free slot reaches its handler. *)
Lemma dispatch_invokes port id method params s h :
  s_state s = ready -> Z.of_nat (inFlight s) < c_maxInFlight (s_cfg s) -> s_active s !! id = None ->
  isReservedMethodName method = false -> s_handlers s !! method = Some h ->
  exists s', dispatch port id method params s = (s', [EvInvoke (s_nextRun s) h id method params]) /\
    inFlight s' = S (inFlight s) /\ s_remote s' = s_remote s.
Proof.
  intros Hs Hf Hid Hr Hh. unfold dispatch. rewrite decide_True by done.
  rewrite (proj2 (Z.leb_gt _ _) Hf), Hr, Hh, decide_False by (rewrite Hid; by intros [? [=]]).
  cbn. eexists. split; [done|]. split; [|done]. unfold inFlight; cbn. by rewrite map_size_insert_None.
Qed.

Section Registering.
Context `{SchemaEngine, TypeBox}.

(** [serve] puts exactly the contract on the session and its remover takes exactly
    that away. Every method of the contract (and [rpc.discover], unless switched
    off) answers with the closure [serve] made for it, every other handler is
    untouched, and the rest of the session is unchanged; a request for a served
    method on a ready session with a free slot runs that closure, and the number
    of requests in flight its guard sees counts it. Removing later drops the
    methods that still have those closures and leaves any method the
    application has since given another handler. *)
Theorem serve_reversible d d' o h s s1 rs :
  defineContract d = Ok d' -> NoDup (map fst (cd_methods d)) -> serve d o h s = Ok (s1, rs) ->
  rs.*1 = (if default true (sv_discover o) then [RPC_DISCOVER] else []) ++ map fst (cd_methods d) /\
  s1 = set_handlers (list_to_map rs ∪ s_handlers s) s /\
  (forall m hd, (m, hd) ∈ rs -> s_handlers s1 !! m = Some hd) /\
  (forall m, m ∉ rs.*1 -> s_handlers s1 !! m = s_handlers s !! m) /\
  (forall port id m hd params, (m, hd) ∈ rs -> m <> RPC_DISCOVER -> s_state s = ready ->
     Z.of_nat (inFlight s) < c_maxInFlight (s_cfg s) -> s_active s !! id = None ->
     exists s2, dispatch port id m params s1 = (s2, [EvInvoke (s_nextRun s) hd id m params]) /\
       inFlight s2 = S (inFlight s) /\ remote s2 = remote s) /\
  (forall s2 m hd, s_handlers (unserve rs s2) !! m = Some hd <-> s_handlers s2 !! m = Some hd /\ (m, hd) ∉ rs).
Proof.
  intros Hd Hnd Hserve. pose proof (registrations_nodup _ _ o h Hd Hnd) as Hrs.
  assert (rs = registrations d o h /\ s1 = fold_left (fun s r => handle r.1 r.2 s) rs s) as [-> ->].
  { unfold serve in Hserve. apply bind_ok in Hserve as (? & _ & [= <- <-]). done. }
  rewrite handle_all by done. cbn [s_handlers set_handlers].
  assert (forall m hd, (m, hd) ∈ registrations d o h ->
    (list_to_map (registrations d o h) ∪ s_handlers s : gmap jstring nat) !! m = Some hd) as Hin.
  { intros m hd Hm. apply lookup_union_Some_l. by apply elem_of_list_to_map_1. }
  split_and!; [apply registrations_fst|done|done| | |].
  - intros m Hm. apply lookup_union_r. by apply not_elem_of_list_to_map_1.
  - intros port id m hd params Hm Hne Hst Hf Hid.
    assert (isReservedMethodName m = false) as Hres.
    { assert (m ∈ (registrations d o h).*1) as Hm1 by (apply list_elem_of_fmap; by exists (m, hd)).
      rewrite registrations_fst in Hm1. apply defineContract_names in Hd as [Hmethods _].
      rewrite Forall_forall in Hmethods. apply elem_of_app in Hm1 as [Hm1|Hm1]; [|by apply Hmethods].
      destruct (default true (sv_discover o)); set_solver. }
    destruct (dispatch_invokes port id m params (set_handlers (list_to_map (registrations d o h) ∪ s_handlers s) s) hd)
      as (s2 & Hs2 & Hfl & Hre); [done|done|done|done|by apply Hin|].
    exists s2. split; [exact Hs2|]. split; [exact Hfl|]. unfold remote. by rewrite Hre.
  - intros s2 m hd. rewrite unserve_lookup. destruct (s_handlers s2 !! m) as [h'|]; [|naive_solver].
    destruct (decide ((m, h') ∈ registrations d o h)); naive_solver.
Qed.

End Registering.

(** ** The catalog *)

Section Catalog.
Context `{SchemaEngine, TypeBox}.

(** What [catalog.json] asks of the text of a definition, its names apart. *)
Definition field_ok (s : jstring) : bool := (1 <=? count s) && (count s <=? PEER_FIELD_MAX_LENGTH).
Definition version_ok (v : ProtocolVersion) : bool := (1 <=? major v) && (0 <=? minor v).
Definition capabilities_ok (cs : list jstring) : bool :=
  forallb (fun c => 1 <=? count c) cs && distinct (map quote cs).
Definition metadata_ok (d : ContractDefinition) : bool :=
  field_ok (cd_name d) && field_ok (cd_version d) && from_option version_ok true (cd_protocol d) &&
  forallb (fun p => from_option capabilities_ok true (md_capabilities p.2)) (cd_methods d).

Lemma method_name_conforms n : isValidMethodName n = true -> conforms count MethodSchema (JStr n) = true.
Proof.
  intros Hn. destruct (method_name_ascii n Hn) as [Hascii Hlen]. unfold isValidMethodName in Hn.
  apply andb_true_iff in Hn as [_ Hp]. cbn. rewrite count_ascii, Hp by done.
  by rewrite !andb_true_iff, !Z.leb_le.
Qed.

Lemma strings_conform cs :
  conforms count (SArray (SString (Some 1) None None) true) (JArr (map JStr cs)) = capabilities_ok cs.
Proof.
  unfold capabilities_ok. cbn. rewrite map_map. f_equal.
  induction cs as [|c cs IH]; [done|]. cbn. by rewrite IH, !andb_true_r.
Qed.

Lemma version_conforms v : conforms count ProtocolVersionSchema (version_json v) = version_ok v.
Proof.
  unfold version_ok, ProtocolVersionSchema, version_json. cbn [conforms forallb required fst snd].
  read_members. unfold JInt. rewrite !Z_of_num_of_Z. cbn. by rewrite !andb_true_r.
Qed.

Lemma catalog_method_conforms p :
  isValidMethodName p.1 = true ->
  conforms count CatalogMethodSchema (catalog_method p) = from_option capabilities_ok true (md_capabilities p.2).
Proof.
  destruct p as [n [params result caps desc dep]]. cbn [fst snd md_capabilities]. intros Hn.
  apply method_name_conforms in Hn. unfold CatalogMethodSchema, catalog_method.
  destruct desc, caps as [cs|], dep; cbn [present app md_params md_result md_capabilities md_description md_deprecated fst snd plainSchema];
    cbn [conforms forallb required optional fst snd]; read_members; cbn [member from_option];
    rewrite Hn; cbn; rewrite ?andb_true_r; first [done | apply strings_conform].
Qed.

Lemma catalog_event_conforms p :
  isValidMethodName p.1 = true -> conforms count CatalogEventSchema (catalog_event p) = true.
Proof.
  destruct p as [n [payload stream desc]]. cbn [fst snd]. intros Hn.
  apply method_name_conforms in Hn. change MethodSchema with TopicSchema in Hn.
  unfold CatalogEventSchema, catalog_event.
  destruct desc, stream; cbn [present app ed_payload ed_stream ed_description fst snd];
    cbn [conforms forallb required optional fst snd]; read_members; cbn [member];
    rewrite Hn; done.
Qed.

Lemma methods_conform ms :
  Forall (fun n => isValidMethodName n = true /\ isReservedMethodName n = false) (map fst ms) ->
  conforms count (SArray CatalogMethodSchema false) (JArr (map catalog_method ms)) =
  forallb (fun p => from_option capabilities_ok true (md_capabilities p.2)) ms.
Proof.
  intros Hms. cbn [conforms negb orb]. rewrite andb_true_r. induction ms as [|p ms IH]; [done|].
  apply Forall_cons in Hms as [[Hn _] Hms]. cbn [map forallb]. by rewrite IH, catalog_method_conforms.
Qed.

Lemma events_conform es :
  Forall (fun n => isValidMethodName n = true /\ isReservedMethodName n = false) (map fst es) ->
  conforms count (SArray CatalogEventSchema false) (JArr (map catalog_event es)) = true.
Proof.
  intros Hes. cbn [conforms negb orb]. rewrite andb_true_r. induction es as [|p es IH]; [done|].
  apply Forall_cons in Hes as [[Hn _] Hes]. cbn [map forallb]. by rewrite IH, catalog_event_conforms.
Qed.

Lemma field_conforms s : conforms count (SString (Some 1) (Some PEER_FIELD_MAX_LENGTH) None) (JStr s) = field_ok s.
Proof. unfold field_ok. cbn. by rewrite andb_true_r. Qed.

Lemma isCatalog_metadata d d' : defineContract d = Ok d' -> isCatalog (catalog_json d) = metadata_ok d.
Proof.
  intros [Hms Hes]%defineContract_names. unfold isCatalog. rewrite check_conforms.
  apply methods_conform in Hms. apply events_conform in Hes. unfold catalog_json, metadata_ok.
  destruct d as [name version desc proto ms es caps]; cbn [cd_name cd_version cd_description cd_protocol cd_methods cd_events cd_capabilities] in *.
  unfold CatalogSchema. remember (SArray CatalogMethodSchema false) as sm. remember (SArray CatalogEventSchema false) as se.
  remember ProtocolVersionSchema as sp. remember (SString (Some 1) (Some PEER_FIELD_MAX_LENGTH) None) as sf.
  destruct desc, proto, caps; cbn [present app]; cbn [conforms forallb required optional fst snd from_option];
    read_members; cbn [member from_option]; rewrite Hms, Hes; subst;
    rewrite !field_conforms, ?version_conforms; cbn; rewrite ?andb_true_r, ?andb_assoc; done.
Qed.

(** The catalog of a contract [defineContract] accepted builds exactly when the
    texts the application chose fit [catalog.json]: the name and the version have a
    permitted length, the wire version is a version, and each method's
    capabilities are distinct and not empty. Method and topic names, schemas
    and descriptions can never make it fail, so [serve] fails only for those
    texts; a catalog that builds is the document of the definition, and the
    client of a peer that serves it accepts it. *)
Theorem catalog_builds d d' :
  defineContract d = Ok d' ->
  (metadata_ok d = true -> buildCatalog d = Ok (catalog_json d) /\
     discover_settled (Ok (catalog_json d)) = Ok (catalog_json d)) /\
  (metadata_ok d = false -> exists e, buildCatalog d = Err e /\ kind e = schema_refused) /\
  (forall o h s e, serve d o h s = Err e -> metadata_ok d = false /\ sv_discover o <> Some false).
Proof.
  intros Hd. pose proof (isCatalog_metadata _ _ Hd) as Hm.
  unfold serve, buildCatalog, discover_settled, assertCatalog. cbn [mbind outcome_bind]. rewrite Hm.
  split_and!.
  - intros ->. by split.
  - intros ->. eexists. split; [done|done].
  - intros o h s e [He|(? & _ & [=])]%bind_err. destruct (sv_discover o) as [[]|], (metadata_ok d); naive_solver.
Qed.

End Catalog.

(** ** An echo contract *)

(** Schemas that only say which members an object must have. *)
Definition members_engine : SchemaEngine :=
  {| tschema := list jstring;
     value_check := fun ks v =>
       match v with VJson (JObj kvs) => forallb (fun k => bool_decide (k ∈ map fst kvs)) ks | _ => false end;
     value_errors := fun ks v =>
       [{| ve_keyword := KRequired ks; ve_instancePath := []; ve_message := js "must have required properties" |}];
     schema_document := fun ks => [(js "type", JStr (js "object")); (js "required", JArr (map JStr ks))] |}.
#[local] Existing Instance members_engine.
#[local] Existing Instance conforming_checker.

Definition echo_method : MethodDefinition :=
  {| md_params := [js "text"] : tschema; md_result := [js "text"] : tschema;
     md_capabilities := Some [js "echo"]; md_description := None; md_deprecated := None |}.
Definition echo_contract : ContractDefinition :=
  {| cd_name := js "example"; cd_version := js "1.0.0"; cd_description := None; cd_protocol := None;
     cd_methods := [(js "text.say", echo_method)];
     cd_events := Some [(js "text.tick", {| ed_payload := [] : tschema; ed_stream := None; ed_description := None |})];
     cd_capabilities := None |}.
Definition guarded : ServeOptions := {| sv_guard := true; sv_validateResults := Some true; sv_discover := None |}.
Definition text_hi : jsval := VJson (JObj [(js "text", JStr (js "hi"))]).
Definition opened : session := (drive opening).1.
Definition served : session * list (jstring * nat) :=
  default (opened, []) (ok_of (serve echo_contract guarded 40 opened)).
Definition hi_run : list served_input := [GuardSettled None; HandlerSettled (HReturn text_hi)].

Example echo_refused :
  exists e, serve_run echo_contract guarded (js "text.say") echo_method (VJson (JObj [])) opened hi_run =
            (Settled (HThrow (TRemote e)), []) /\
  re_message e = js "Parameters of " ++ [34] ++ js "text.say" ++ [34] ++
                 js " do not match the contract at /text: must have required properties.".
Proof. eexists. split; vm_compute; reflexivity. Qed.

Lemma serve_gated_witness :
  exists effs, serve_run echo_contract guarded (js "text.say") echo_method text_hi opened hi_run =
               (Settled (HReturn text_hi), effs) /\
    CallHandler (js "text.say") text_hi ∈ effs /\ value_check (md_result echo_method) text_hi = true.
Proof.
  set (effs := (serve_run echo_contract guarded (js "text.say") echo_method text_hi opened hi_run).2).
  assert (serve_run echo_contract guarded (js "text.say") echo_method text_hi opened hi_run =
          (Settled (HReturn text_hi), effs)) as Hrun by (vm_compute; reflexivity).
  exists effs. split; [exact Hrun|].
  destruct (serve_gated echo_contract guarded (js "text.say") echo_method text_hi opened hi_run _ effs
    ltac:(vm_compute; reflexivity) Hrun) as (_ & _ & _ & Hres).
  destruct (Hres text_hi eq_refl) as (Hc & _ & Hv). split; [exact Hc|exact (Hv eq_refl)].
Defined.

Lemma serve_reversible_witness :
  served.2 = [(RPC_DISCOVER, 40%nat); (js "text.say", 41%nat)] /\
  s_handlers served.1 !! js "text.say" = Some 41%nat.
Proof.
  split; [vm_compute; reflexivity|].
  assert (serve echo_contract guarded 40 opened = Ok (served.1, served.2)) as Hs by (vm_compute; reflexivity).
  assert (NoDup (map fst (cd_methods echo_contract))) as Hnd by (apply (bool_decide_unpack _); vm_compute; exact I).
  destruct (serve_reversible echo_contract echo_contract guarded 40 opened served.1 served.2
    ltac:(vm_compute; reflexivity) Hnd Hs) as (_ & _ & Hin & _).
  apply Hin. apply (bool_decide_unpack _). vm_compute. exact I.
Defined.

Lemma catalog_builds_witness :
  metadata_ok echo_contract = true /\ buildCatalog echo_contract = Ok (catalog_json echo_contract).
Proof.
  assert (metadata_ok echo_contract = true) as Hm by (vm_compute; reflexivity).
  split; [exact Hm|].
  destruct (catalog_builds echo_contract echo_contract ltac:(vm_compute; reflexivity)) as (Hb & _).
  exact (proj1 (Hb Hm)).
Defined.
