(* ===== verification/Ssh.v ===== *)
(** * Launching a peer over ssh

    [packages/protocol/src/transports/text.ts] and [packages/protocol/src/transports/ssh.ts]:
    the argument vector of the ssh preset, the quoting of the remote command and
    the exit classifier. *)

From S2P Require Import Prelude Json Wire.

(** ** [text.ts] *)

(** The characters [\s] matches and [trim] strips: the ECMAScript white space and line terminators. *)
Definition js_space (u : Z) : bool :=
  (9 <=? u) && (u <=? 13) || (u =? 32) || (u =? 160) || (u =? 0x1680) || (0x2000 <=? u) && (u <=? 0x200A) ||
  (u =? 0x2028) || (u =? 0x2029) || (u =? 0x202F) || (u =? 0x205F) || (u =? 0x3000) || (u =? 0xFEFF).

Fixpoint trim_start (s : jstring) : jstring :=
  match s with
  | [] => []
  | u :: rest => if js_space u then trim_start rest else s
  end.

Definition trim (s : jstring) : jstring := reverse (trim_start (reverse (trim_start s))).

(** [text.split('\n')]: never empty. *)
Fixpoint split_lines (s : jstring) : list jstring :=
  match s with
  | [] => [[]]
  | u :: rest =>
      match split_lines rest with
      | line :: lines => if u =? 10 then [] :: line :: lines else (u :: line) :: lines
      | [] => [[u]]
      end
  end.

(** The loop runs from the last line to the first. *)
Fixpoint first_non_empty (lines : list jstring) : option jstring :=
  match lines with
  | [] => None
  | line :: rest => match trim line with [] => first_non_empty rest | t => Some t end
  end.

Definition lastNonEmptyLine (text : jstring) : option jstring := first_non_empty (reverse (split_lines text)).

(** ** [ssh.ts] *)

Record ExitStatus : Type := { es_code : option Z; es_signal : option jstring }.

Global Instance ExitStatus_eq_dec : EqDecision ExitStatus.
Proof. solve_decision. Defined.

Record SshArgvOptions : Type := {
  ssh_host : jstring;
  ssh_user : option jstring;
  ssh_port : option jsnum;
  ssh_identityFile : option jstring;
  ssh_command : list jstring;
  ssh_connectTimeoutSeconds : option jsnum
}.

Definition DEFAULT_CONNECT_TIMEOUT_SECONDS : Z := 10.
Definition PORT_MIN : Z := 1.
Definition PORT_MAX : Z := 65535.
Definition SSH_OWN_FAILURE : Z := 255.
Definition COMMAND_NOT_FOUND : Z := 127.

(** [name.length === 0 || name.startsWith('-') || /\s/.test(name)] *)
Definition unsafe_name (name : jstring) : bool :=
  match name with [] => true | u :: _ => (u =? 45) || existsb js_space name end.

Definition checkedHost (host : jstring) : outcome jstring jstring :=
  if unsafe_name host
  then Err (js "ssh host is " ++ quote host ++
            js "; expected a non-empty host name without whitespace and not beginning with " ++ [34; 45; 34])
  else Ok host.

Definition checkedUser (user : jstring) : outcome jstring jstring :=
  if unsafe_name user
  then Err (js "ssh user is " ++ quote user ++
            js "; expected a non-empty user name without whitespace and not beginning with " ++ [34; 45; 34])
  else Ok user.

Definition checkedPort (port : jsnum) : outcome jstring Z :=
  let refused := Err (js "ssh port is " ++ received (ANum port) ++ js "; expected an integer between "
                      ++ dec PORT_MIN ++ js " and " ++ dec PORT_MAX) in
  match port with
  | NInt z => if (z <? PORT_MIN) || (PORT_MAX <? z) then refused else Ok z
  | NOther _ => refused
  end.

Definition checkedTimeout (seconds : jsnum) : outcome jstring Z :=
  let refused := Err (js "ssh connectTimeoutSeconds is " ++ received (ANum seconds)
                      ++ js "; expected an integer of at least 1 second") in
  match seconds with
  | NInt z => if z <? 1 then refused else Ok z
  | NOther _ => refused
  end.

Definition checkedCommand (command : list jstring) : outcome jstring (jstring * list jstring) :=
  match command with
  | (u :: path) :: rest => Ok (u :: path, rest)
  | _ => Err (js "ssh command is " ++ stringify (JArr (map JStr command)) ++
              js "; expected [remotePath, ...remoteArgs] with a non-empty remote path")
  end.

(** A quote closes the string, is written escaped, and reopens it. *)
Definition singleQuote (value : jstring) : jstring :=
  [39] ++ concat (map (fun u => if u =? 39 then [39; 92; 39; 39] else [u]) value) ++ [39].

Definition quoteRemotePath (remotePath : jstring) : jstring :=
  if starts_with (js "~/") remotePath then js "~/" ++ singleQuote (drop 2 remotePath)
  else singleQuote remotePath.

Definition ssh_options (connectTimeout : Z) : list jstring :=
  [js "ssh"; js "-o"; js "BatchMode=yes"; js "-o"; js "ConnectTimeout=" ++ dec connectTimeout;
   js "-o"; js "ServerAliveInterval=15"; js "-o"; js "ServerAliveCountMax=3";
   js "-o"; js "StrictHostKeyChecking=yes"; js "-o"; js "ControlMaster=no"; js "-o"; js "ControlPath=none";
   js "-o"; js "RemoteCommand=none"].

(** [sshArgv]: the argument vector, or the message it throws. *)
Definition sshArgv (o : SshArgvOptions) : outcome jstring (list jstring) :=
  host ← checkedHost (ssh_host o);
  user ← match ssh_user o with None => Ok None | Some u => Some <$> checkedUser u end;
  connectTimeout ← checkedTimeout (default (NInt DEFAULT_CONNECT_TIMEOUT_SECONDS) (ssh_connectTimeoutSeconds o));
  command ← checkedCommand (ssh_command o);
  let identity :=
    match ssh_identityFile o with Some f => [js "-o"; js "IdentitiesOnly=yes"; js "-i"; f] | None => [] end in
  port ← match ssh_port o with None => Ok [] | Some p => (fun z => [js "-p"; dec z]) <$> checkedPort p end;
  let destination := match user with None => host | Some u => u ++ js "@" ++ host end in
  Ok (ssh_options connectTimeout ++ identity ++ port ++ [js "-T"; js "--"; destination] ++
      quoteRemotePath command.1 :: map singleQuote command.2).

Definition classifySshExit (status : ExitStatus) (stderrTail : jstring) : jstring :=
  if bool_decide (es_code status = Some SSH_OWN_FAILURE) then
    js "ssh exited 255, its own failure (connection, authentication or host key), not a status from the remote command"
    ++ match lastNonEmptyLine stderrTail with Some d => js ": " ++ d | None => [] end ++ js "."
  else if bool_decide (es_code status = Some COMMAND_NOT_FOUND) then
    js "ssh exited 127: the remote login shell could not find the command; check the remote path and the PATH of a non-interactive shell."
  else
    match es_signal status, es_code status with
    | Some signal, _ => js "ssh was killed by " ++ signal ++ js " before the remote command reported a status."
    | None, None => js "ssh ended without an exit status, so the launcher could not observe how the remote command finished."
    | None, Some code => js "ssh exited " ++ dec code ++ js ", which is the status the remote command returned."
    end.

(** ** What the login shell reads

    The words of a POSIX shell command line made of single-quoted strings,
    backslash escapes and unquoted characters that have no meaning of their own
    (the shell command language, quoting and token recognition). A word is a list of
    characters, each with whether it was quoted: an unquoted one may still be
    expanded. [None] is a line that holds an unquoted operator, substitution or pattern
    character, or that ends inside a quotation: the shell would do more than run a
    command with these words. *)

Definition shell_plain (u : Z) : bool :=
  (48 <=? u) && (u <=? 57) || (65 <=? u) && (u <=? 90) || (97 <=? u) && (u <=? 122) ||
  existsb (Z.eqb u) [45; 46; 47; 58; 64; 95; 126; 43; 44; 37].

Definition shell_blank (u : Z) : bool := (u =? 32) || (u =? 9).

Abbreviation word := (list (bool * Z)).

(** The word being read, if one has begun, is kept reversed. *)
Definition end_word (w : option word) : list word :=
  match w with Some w => [reverse w] | None => [] end.

Inductive shell_mode : Type := Unquoted | SingleQuoted | Escaped.

Fixpoint shell_scan (s : jstring) (mode : shell_mode) (w : option word) : option (list word) :=
  match s with
  | [] => match mode with Unquoted => Some (end_word w) | _ => None end
  | u :: rest =>
      match mode with
      | SingleQuoted =>
          if u =? 39 then shell_scan rest Unquoted w
          else shell_scan rest SingleQuoted (Some ((true, u) :: default [] w))
      | Escaped => if u =? 10 then None else shell_scan rest Unquoted (Some ((true, u) :: default [] w))
      | Unquoted =>
          if shell_blank u then (fun ws => end_word w ++ ws) <$> shell_scan rest Unquoted None
          else if u =? 39 then shell_scan rest SingleQuoted (Some (default [] w))
          else if u =? 92 then shell_scan rest Escaped w
          else if shell_plain u then shell_scan rest Unquoted (Some ((false, u) :: default [] w))
          else None
      end
  end.

Definition shell_words (line : jstring) : option (list word) := shell_scan line Unquoted None.

(** ssh joins the words after the destination with spaces. *)
Fixpoint join_spaces (words : list jstring) : jstring :=
  match words with
  | [] => []
  | [w] => w
  | w :: rest => w ++ [32] ++ join_spaces rest
  end.

Definition literal (value : jstring) : word := map (pair true) value.

(** The remote path as the shell sees it: a leading [~/] is left to expand. *)
Definition path_word (path : jstring) : word :=
  if starts_with (js "~/") path then (false, 126) :: (false, 47) :: literal (drop 2 path) else literal path.

(** ** Quoting *)

Lemma scan_quoted value rest w :
  shell_scan (concat (map (fun u => if u =? 39 then [39; 92; 39; 39] else [u]) value) ++ 39 :: rest) SingleQuoted (Some w) =
  shell_scan rest Unquoted (Some (reverse (literal value) ++ w)).
Proof.
  revert w; induction value as [|u value IH]; intros w; [done|].
  change (literal (u :: value)) with ((true, u) :: literal value). rewrite reverse_cons, <-app_assoc.
  cbn [map concat app]. destruct (Z.eqb_spec u 39) as [->|Hu].
  - cbn -[concat literal reverse]. by rewrite IH.
  - cbn -[concat literal reverse]. rewrite (proj2 (Z.eqb_neq u 39) Hu). by rewrite IH.
Qed.

Lemma scan_singleQuote value rest w :
  shell_scan (singleQuote value ++ rest) Unquoted w =
  shell_scan rest Unquoted (Some (reverse (literal value) ++ default [] w)).
Proof.
  unfold singleQuote. rewrite <-!app_assoc. cbn [app]. cbn -[concat literal reverse].
  apply scan_quoted.
Qed.

Lemma scan_quoteRemotePath path rest :
  shell_scan (quoteRemotePath path ++ rest) Unquoted None =
  shell_scan rest Unquoted (Some (reverse (path_word path))).
Proof.
  unfold quoteRemotePath, path_word. destruct (starts_with (js "~/") path).
  - rewrite <-app_assoc. transitivity (shell_scan (singleQuote (drop 2 path) ++ rest) Unquoted (Some [(false, 47); (false, 126)]));
      [reflexivity|]. rewrite scan_singleQuote. by rewrite !reverse_cons, <-!app_assoc.
  - rewrite scan_singleQuote. cbn. by rewrite app_nil_r.
Qed.

Lemma scan_arguments args w :
  shell_scan (concat (map (fun a => 32 :: singleQuote a) args)) Unquoted (Some w) =
  Some (reverse w :: map literal args).
Proof.
  revert w; induction args as [|a args IH]; intros w; [done|].
  cbn [map concat app]. cbn -[singleQuote literal reverse map concat]. rewrite scan_singleQuote.
  cbn [default]. rewrite app_nil_r, IH. cbn -[literal]. by rewrite reverse_involutive.
Qed.

Lemma join_spaces_cons w ws : join_spaces (w :: ws) = w ++ concat (map (cons 32) ws).
Proof.
  revert w; induction ws as [|v ws IH]; intros w; [cbn; by rewrite app_nil_r|].
  change (join_spaces (w :: v :: ws)) with (w ++ [32] ++ join_spaces (v :: ws)). by rewrite IH.
Qed.

Lemma remote_command_words path args :
  shell_words (join_spaces (quoteRemotePath path :: map singleQuote args)) =
  Some (path_word path :: map literal args).
Proof.
  rewrite join_spaces_cons, map_map. unfold shell_words. rewrite scan_quoteRemotePath, scan_arguments.
  by rewrite reverse_involutive.
Qed.

(** ** The argument vector *)

Definition destination (o : SshArgvOptions) : jstring :=
  match ssh_user o with None => ssh_host o | Some u => u ++ js "@" ++ ssh_host o end.

Lemma checkedHost_ok h h' : checkedHost h = Ok h' -> h' = h /\ unsafe_name h = false.
Proof. unfold checkedHost. destruct (unsafe_name h); naive_solver. Qed.

Lemma checkedUser_ok h h' : checkedUser h = Ok h' -> h' = h /\ unsafe_name h = false.
Proof. unfold checkedUser. destruct (unsafe_name h); naive_solver. Qed.

Lemma checkedCommand_ok c p : checkedCommand c = Ok p -> c = p.1 :: p.2 /\ p.1 <> [].
Proof. destruct c as [|[|u path] rest]; cbn; [done|done|]. intros [= <-]. by split. Qed.

Lemma unsafe_name_app u h :
  unsafe_name u = false -> unsafe_name h = false -> unsafe_name (u ++ js "@" ++ h) = false.
Proof.
  unfold unsafe_name. destruct u as [|x u]; [done|]. destruct h as [|y h]; [done|].
  intros [H1 H2]%orb_false_iff [_ H3]%orb_false_iff. cbn [app].
  rewrite orb_false_iff. split; [done|]. cbn [existsb] in *. rewrite existsb_app.
  apply orb_false_iff in H2 as [-> ->]. cbn. by rewrite <-H3.
Qed.

Lemma destination_safe o host user :
  checkedHost (ssh_host o) = Ok host ->
  match ssh_user o with None => Ok None | Some u => Some <$> checkedUser u end = Ok user ->
  match user with None => host | Some u => u ++ js "@" ++ host end = destination o /\
  unsafe_name (destination o) = false.
Proof.
  intros [-> Hh]%checkedHost_ok. unfold destination. destruct (ssh_user o) as [u|].
  - destruct (checkedUser u) as [u'|] eqn:E; [|done]. intros [= <-].
    apply checkedUser_ok in E as [-> Hu]. split; [done|]. by apply unsafe_name_app.
  - intros [= <-]. by split.
Qed.

Lemma ok_inj {E A} (a b : A) : @Ok E A a = Ok b -> a = b.
Proof. by intros [=]. Qed.

Lemma regroup {A} (a b c : list A) x y z rest :
  a ++ b ++ c ++ [x; y; z] ++ rest = (a ++ b ++ c ++ [x]) ++ [y; z] ++ rest.
Proof. by rewrite <-!app_assoc. Qed.

(** An ssh launch runs exactly the command it was given. The argument vector
    ends with [--], one destination that is not empty, holds no white space and does
    not begin with a dash, so it cannot be read as an option, and the remote command;
    what the login shell reads from that command, once ssh has joined it with spaces,
    is the remote path and the arguments, character for character: no quote, space,
    semicolon, dollar or newline of an argument ends its word or is interpreted, and
    the only unquoted characters are a leading [~/] of the path. *)
Theorem ssh_command_exact o argv :
  sshArgv o = Ok argv ->
  exists options path args,
    ssh_command o = path :: args /\
    argv = options ++ [js "--"; destination o] ++ quoteRemotePath path :: map singleQuote args /\
    unsafe_name (destination o) = false /\
    shell_words (join_spaces (quoteRemotePath path :: map singleQuote args)) =
      Some (path_word path :: map literal args).
Proof.
  unfold sshArgv. intros Ho.
  apply bind_ok in Ho as (host & Hh & Ho). apply bind_ok in Ho as (user & Hu & Ho).
  apply bind_ok in Ho as (t & _ & Ho). apply bind_ok in Ho as ([path args] & [Hc _]%checkedCommand_ok & Ho).
  apply bind_ok in Ho as (port & _ & Ho).
  destruct (destination_safe o host user Hh Hu) as [Hd Hs]. cbn zeta in Ho. rewrite Hd in Ho. apply ok_inj in Ho as <-.
  eexists _, path, args. split; [exact Hc|]. split; [apply regroup|].
  split; [done|apply remote_command_words].
Qed.

Definition build_box : SshArgvOptions :=
  {| ssh_host := js "build-box"; ssh_user := Some (js "ci"); ssh_port := Some (NInt 2222);
     ssh_identityFile := None; ssh_command := [js "~/bin/run it"; js "it's; rm -rf $HOME"; []];
     ssh_connectTimeoutSeconds := None |}.

Lemma ssh_command_exact_witness :
  exists argv words, sshArgv build_box = Ok argv /\
    join_spaces (drop 22 argv) = js "~/'bin/run it' 'it'\''s; rm -rf $HOME' ''" /\
    shell_words (join_spaces words) =
      Some [path_word (js "~/bin/run it"); literal (js "it's; rm -rf $HOME"); []].
Proof.
  destruct (sshArgv build_box) as [argv|] eqn:E; [|vm_compute in E; discriminate].
  destruct (ssh_command_exact build_box argv E) as (options & path & args & Hc & _ & _ & Hw).
  exists argv, (quoteRemotePath path :: map singleQuote args). split; [reflexivity|]. split.
  - vm_compute in E. injection E as <-. vm_compute. reflexivity.
  - rewrite Hw. vm_compute in Hc. injection Hc as <- <-. reflexivity.
Defined.
