(* ===== verification/StreamPort.v ===== *)
(** * A port over a pair of streams

    [packages/protocol/src/transports/node-stream.ts] and
    [packages/protocol/src/transports/stdio.ts]: the NDJSON port fed from a readable
    stream and writing to a writable one, with reads delivered inside the
    stream's callback or, for child pipes, on a later turn of the event loop in
    arrival order. *)

From S2P Require Import Prelude Utf8 Regex Json JsonFacts Wire Frames Ndjson Listeners Session NdjsonPort.

(** ** Streams *)

(** The writable stream at one moment: its [writable] flag, and what [write] throws. *)
Record writable_stream : Type := { ws_writable : bool; ws_write : bytes -> option jstring }.

Definition writeTo (w : writable_stream) : sink_fn := fun b =>
  if ws_writable w then ws_write w b
  else Some (js "the stream is not writable; expected an open pipe, received one that ended or was destroyed").

(** One chunk of a readable stream; [CObject] is what a stream in object mode gives, by its [typeof]. *)
Inductive stream_chunk : Type :=
| CString (s : jstring)
| CView (b : bytes)
| CObject (kind : jstring).

Definition toBytes (c : stream_chunk) : outcome jstring bytes :=
  match c with
  | CString s => Ok (utf8_encode s)
  | CView b => Ok b
  | CObject kind =>
      Err (js "stream chunk is " ++ kind ++
           js "; expected a Buffer, a Uint8Array or a string (the stream must not be in object mode)")
  end.

Record StreamPortOptions : Type := { st_maxFrameBytes : option jsarg; st_deferReads : bool }.

(** The port, and the delivery between the streams and it. [sp_same] is whether both
    halves are one duplex object, [sp_listening] whether the readable half still has its
    [data], [end] and [close] listeners. An event that waits is the call of the
    port it will make. *)
Record stream_port : Type := {
  sp_port : ndjson_port;
  sp_defer : bool;
  sp_same : bool;
  sp_waiting : list port_input;
  sp_scheduled : bool;
  sp_stopped : bool;
  sp_listening : bool
}.

(** [YTake] and [YRun] say which event was accepted for delivery and which one reached
    the port, while it was open; [YThrow] says that the stream's callback threw. *)
Inductive stream_effect : Type :=
| YPort (e : port_effect)
| YTake (i : port_input)
| YRun (i : port_input)
| YPause
| YEndWritable
| YRelease
| YThrow (message : jstring).

Definition with_port p (sp : stream_port) : stream_port :=
  {| sp_port := p; sp_defer := sp_defer sp; sp_same := sp_same sp; sp_waiting := sp_waiting sp;
     sp_scheduled := sp_scheduled sp; sp_stopped := sp_stopped sp; sp_listening := sp_listening sp |}.
Definition with_queue ws scheduled (sp : stream_port) : stream_port :=
  {| sp_port := sp_port sp; sp_defer := sp_defer sp; sp_same := sp_same sp; sp_waiting := ws;
     sp_scheduled := scheduled; sp_stopped := sp_stopped sp; sp_listening := sp_listening sp |}.

(** [detach]: [deliver.stop], and the listeners of the readable half go. *)
Definition detach (sp : stream_port) : stream_port :=
  {| sp_port := sp_port sp; sp_defer := sp_defer sp; sp_same := sp_same sp; sp_waiting := [];
     sp_scheduled := sp_scheduled sp; sp_stopped := true; sp_listening := false |}.

(** [sink.end]: detach and pause the readable half, end the writable half, [onRelease]. *)
Definition stream_effects (w : writable_stream) (e : port_effect) : list stream_effect :=
  match e with
  | WEnd => [YPort WEnd; YPause] ++ (if ws_writable w then [YEndWritable] else []) ++ [YRelease]
  | e => [YPort e]
  end.

Section Streams.
Context `{TypeBox, JsonEngine}.

(** One call of the port, with what the end of its sink does to the streams. *)
Definition call_port (w : writable_stream) (i : port_input) (sp : stream_port) : stream_port * list stream_effect :=
  let '(p, evs) := port_step (writeTo w) i (sp_port sp) in
  let sp := with_port p sp in
  (if np_sinkEnded p then detach sp else sp, concat (map (stream_effects w) evs)).

Definition run_event (w : writable_stream) (i : port_input) (sp : stream_port) : stream_port * list stream_effect :=
  let log := if sp_stopped sp then [] else [YRun i] in
  let '(sp, evs) := call_port w i sp in (sp, log ++ evs).

(** An event that does not wait. *)
Definition deliver_now (w : writable_stream) (i : port_input) (sp : stream_port) : stream_port * list stream_effect :=
  let log := if sp_stopped sp then [] else [YTake i] in
  let '(sp, evs) := run_event w i sp in (sp, log ++ evs).

(** [deliver.run]: at once, or queued for the next turn. *)
Definition deliver_run (w : writable_stream) (i : port_input) (sp : stream_port) : stream_port * list stream_effect :=
  if sp_defer sp then
    if sp_stopped sp then (sp, [])
    else (with_queue (sp_waiting sp ++ [i]) true sp, [YTake i])
  else deliver_now w i sp.

(** [deliver.after]: behind whatever waits, and at once when nothing does. *)
Definition deliver_after (w : writable_stream) (i : port_input) (sp : stream_port) : stream_port * list stream_effect :=
  match sp_waiting sp with
  | _ :: _ => deliver_run w i sp
  | [] => deliver_now w i sp
  end.

(** The loop of [drain] over what waited when the turn began. *)
Fixpoint drain_events (w : writable_stream) (remaining : nat) (sp : stream_port) : stream_port * list stream_effect :=
  match remaining with
  | O => (sp, [])
  | S n =>
      if sp_stopped sp then (sp, [])
      else
        match sp_waiting sp with
        | [] => (sp, [])
        | i :: rest =>
            let '(sp, e1) := run_event w i (with_queue rest (sp_scheduled sp) sp) in
            let '(sp, e2) := drain_events w n sp in
            (sp, e1 ++ e2)
        end
  end.

Definition drain_turn (w : writable_stream) (sp : stream_port) : stream_port * list stream_effect :=
  let '(sp, evs) := drain_events w (length (sp_waiting sp)) (with_queue (sp_waiting sp) false sp) in
  (match sp_waiting sp with [] => sp | ws => with_queue ws true sp end, evs).

(** [createStreamPort] *)
Definition createStreamPort (same : bool) (o : StreamPortOptions) : outcome exn stream_port :=
  p ← newNdjsonPort (st_maxFrameBytes o);
  Ok {| sp_port := p; sp_defer := st_deferReads o; sp_same := same; sp_waiting := [];
        sp_scheduled := false; sp_stopped := false; sp_listening := true |}.

(** [stdioPort]: two different streams, read inside their callbacks. *)
Definition stdioPort (maxFrameBytes : option jsarg) : outcome exn stream_port :=
  createStreamPort false {| st_maxFrameBytes := maxFrameBytes; st_deferReads := false |}.

(** ** The port as a transition system

    A stream event, a turn of the event loop, a call of the handle, or a call of the port. *)
Inductive stream_input : Type :=
| SData (c : stream_chunk) (react : reaction)
| SEnd
| SClose
| SReadError (msg : jstring)
| SWriteError (msg : jstring)
| SImmediate
| SFailed (msg : jstring)
| STerminate (code : Z) (reason : option jstring)
| SOp (op : port_op).

Definition stream_step (w : writable_stream) (i : stream_input) (sp : stream_port) : stream_port * list stream_effect :=
  match i with
  | SData c react =>
      if sp_listening sp then
        match toBytes c with
        | Ok b => deliver_run w (PFeed b react) sp
        | Err m => (sp, [YThrow m])
        end
      else (sp, [])
  | SEnd | SClose => if sp_listening sp then deliver_run w PEof sp else (sp, [])
  | SReadError m => deliver_run w (PFail m) sp
  | SWriteError m => if sp_same sp then (sp, []) else deliver_run w (PFail m) sp
  | SImmediate => if sp_scheduled sp then drain_turn w sp else (sp, [])
  | SFailed m => deliver_after w (PFail m) sp
  | STerminate code reason => deliver_after w (PTerminate code reason) sp
  | SOp op => call_port w (POp op) sp
  end.

(** Every stream port, with what it did; the writable half may change at any time. *)
Inductive stream_reachable : stream_port -> list stream_effect -> Prop :=
| stream_new same o sp : createStreamPort same o = Ok sp -> stream_reachable sp []
| stream_next w i sp evs sp' evs' :
    stream_reachable sp evs -> stream_step w i sp = (sp', evs') -> stream_reachable sp' (evs ++ evs').

(** ** What reached the port *)

Definition taken_events (evs : list stream_effect) : list port_input :=
  omap (fun e => match e with YTake i => Some i | _ => None end) evs.
Definition run_events (evs : list stream_effect) : list port_input :=
  omap (fun e => match e with YRun i => Some i | _ => None end) evs.
Definition releases (evs : list stream_effect) : nat :=
  length (omap (fun e => match e with YRelease => Some tt | _ => None end) evs).
Definition pauses (evs : list stream_effect) : nat :=
  length (omap (fun e => match e with YPause => Some tt | _ => None end) evs).
Definition ends (evs : list port_effect) : nat :=
  length (omap (fun e => match e with WEnd => Some tt | _ => None end) evs).

Lemma taken_events_app a b : taken_events (a ++ b) = taken_events a ++ taken_events b.
Proof. apply omap_app. Qed.
Lemma run_events_app a b : run_events (a ++ b) = run_events a ++ run_events b.
Proof. apply omap_app. Qed.
Lemma releases_app a b : releases (a ++ b) = (releases a + releases b)%nat.
Proof. unfold releases. by rewrite omap_app, length_app. Qed.
Lemma pauses_app a b : pauses (a ++ b) = (pauses a + pauses b)%nat.
Proof. unfold pauses. by rewrite omap_app, length_app. Qed.
Lemma ends_calls evs : ends evs = length (filter (fun c => c = None) (sink_calls evs)).
Proof. induction evs as [|[] evs IH]; cbn in *; unfold ends in *; cbn; try done; by rewrite IH. Qed.

Lemma stream_effects_log w evs :
  let ys := concat (map (stream_effects w) evs) in
  taken_events ys = [] /\ run_events ys = [] /\ releases ys = ends evs /\ pauses ys = ends evs.
Proof.
  induction evs as [|e evs (I1 & I2 & I3 & I4)]; [done|]. cbn [map concat].
  rewrite taken_events_app, run_events_app, releases_app, pauses_app, I1, I2, I3, I4.
  by destruct e; cbn; destruct (ws_writable w).
Qed.

(** ** The invariant *)

Record sp_ok (sp : stream_port) : Prop := {
  ok_sink : sink_ok (sp_port sp);
  ok_stopped : sp_stopped sp = np_sinkEnded (sp_port sp);
  ok_listening : sp_listening sp = negb (sp_stopped sp);
  ok_empty : sp_stopped sp = true -> sp_waiting sp = [];
  ok_now : sp_defer sp = false -> sp_waiting sp = []
}.

(** What a step does to the events: first in, first out while the port is open, nothing
    after it ended, and its streams released when it ends. *)
Record stream_log (sp : stream_port) (evs : list stream_effect) (sp' : stream_port) : Prop := {
  sl_ok : sp_ok sp';
  sl_open : sp_stopped sp' = false -> sp_waiting sp ++ taken_events evs = run_events evs ++ sp_waiting sp';
  sl_prefix : run_events evs `prefix_of` sp_waiting sp ++ taken_events evs;
  sl_closed : sp_stopped sp = true -> taken_events evs = [] /\ run_events evs = [] /\ sp_stopped sp' = true;
  sl_release : let n := if sp_stopped sp then 0%nat else if sp_stopped sp' then 1%nat else 0%nat in
    releases evs = n /\ pauses evs = n
}.

Lemma stream_log_still sp sp' evs :
  sp_ok sp' -> sp_stopped sp' = sp_stopped sp -> sp_waiting sp' = sp_waiting sp ->
  taken_events evs = [] -> run_events evs = [] -> releases evs = 0%nat -> pauses evs = 0%nat ->
  stream_log sp evs sp'.
Proof.
  intros Ho Hs Hw E1 E2 E3 E4. split; rewrite ?E1, ?E2, ?Hw, ?Hs, ?app_nil_r; try done.
  - apply prefix_nil.
  - destruct (sp_stopped sp); done.
Qed.

Lemma stream_log_trans sp1 e1 sp2 e2 sp3 :
  stream_log sp1 e1 sp2 -> stream_log sp2 e2 sp3 -> stream_log sp1 (e1 ++ e2) sp3.
Proof.
  intros [O1 F1 P1 C1 R1] [O2 F2 P2 C2 R2].
  split; [done| | | |]; rewrite ?taken_events_app, ?run_events_app, ?releases_app, ?pauses_app.
  - intros E. destruct (sp_stopped sp2) eqn:E2; [by destruct (C2 eq_refl) as (_ & _ & ?); congruence|].
    rewrite app_assoc, F1, <-app_assoc, F2 by done. by rewrite app_assoc.
  - destruct (sp_stopped sp2) eqn:E2.
    + destruct (C2 eq_refl) as (-> & -> & _). by rewrite !app_nil_r.
    + rewrite app_assoc, F1, <-app_assoc by done. by apply prefix_app.
  - intros E. destruct (C1 E) as (-> & -> & E2). by apply C2.
  - destruct R1 as [-> ->], R2 as [-> ->]. destruct (sp_stopped sp1) eqn:E1.
    + destruct (C1 eq_refl) as (_ & _ & ->). done.
    + destruct (sp_stopped sp2) eqn:E2; [|done]. by destruct (C2 eq_refl) as (_ & _ & ->).
Qed.

Lemma ends_log p evs p' :
  sink_log p evs p' ->
  ends evs = if np_sinkEnded p then 0%nat else if np_sinkEnded p' then 1%nat else 0%nat.
Proof.
  intros [_ A B]. rewrite ends_calls. destruct (np_sinkEnded p).
  - by destruct (A eq_refl) as [-> _].
  - destruct (B eq_refl) as (ws & Hws & ->). rewrite filter_app, length_app.
    replace (filter _ ws) with (@nil (option (bytes * bool))); [by destruct (np_sinkEnded p')|].
    symmetry. induction Hws as [|x ws [y ->] _ IH]; [done|]. by rewrite filter_cons_False.
Qed.

Lemma call_port_log w i sp :
  sp_ok sp ->
  let '(sp', evs) := call_port w i sp in
  sp_ok sp' /\ sp_waiting sp' = (if sp_stopped sp' then [] else sp_waiting sp) /\
  sp_defer sp' = sp_defer sp /\ sp_scheduled sp' = sp_scheduled sp /\
  run_events evs = [] /\ taken_events evs = [] /\ (sp_stopped sp = true -> sp_stopped sp' = true) /\
  (let n := if sp_stopped sp then 0%nat else if sp_stopped sp' then 1%nat else 0%nat in
   releases evs = n /\ pauses evs = n).
Proof.
  intros [Hs Hst Hl He Hn]. unfold call_port.
  pose proof (port_step_log (writeTo w) i (sp_port sp) Hs) as Hlog.
  destruct (port_step (writeTo w) i (sp_port sp)) as [p evs]. cbn [fst snd] in Hlog.
  destruct (stream_effects_log w evs) as (E1 & E2 & E3 & E4). rewrite (ends_log _ _ _ Hlog) in E3, E4.
  destruct Hlog as [Hok A _]. rewrite <-Hst in E3, E4, A.
  assert (sp_stopped sp = true -> np_sinkEnded p = true) as Hmono by (intros E; by apply A).
  destruct (np_sinkEnded p) eqn:Ep; cbn -[run_events taken_events releases pauses].
  - split_and!; first [done | split; cbn; done].
  - destruct (sp_stopped sp) eqn:Esp; [by specialize (Hmono eq_refl)|].
    split_and!; first [done | split; cbn; rewrite ?Esp; done].
Qed.

(** A call that is not an event. *)
Lemma call_port_op w i sp : sp_ok sp -> let '(sp', evs) := call_port w i sp in stream_log sp evs sp'.
Proof.
  intros Ho. pose proof (call_port_log w i sp Ho) as Hc. destruct (call_port w i sp) as [sp' evs].
  destruct Hc as (Ho' & Hw & _ & _ & Hr & Ht & Hm & Hrel). split; rewrite ?Hr, ?Ht; try done.
  - intros E. rewrite Hw, E. by rewrite app_nil_r.
  - apply prefix_nil.
  - intros E. by split_and!; [..|apply Hm].
Qed.

(** An event taken from the head of the queue. *)
Lemma run_event_log w i rest sp :
  sp_ok sp -> sp_stopped sp = false -> sp_waiting sp = i :: rest ->
  let '(sp', evs) := run_event w i (with_queue rest (sp_scheduled sp) sp) in
  stream_log sp evs sp' /\ sp_scheduled sp' = sp_scheduled sp /\ sp_defer sp' = sp_defer sp /\
  sp_waiting sp' = (if sp_stopped sp' then [] else rest).
Proof.
  intros Ho Es Ew. set (sp0 := with_queue rest (sp_scheduled sp) sp).
  assert (sp_ok sp0) as Ho0.
  { destruct Ho as [H1 H2 H3 H4 H5]. split; cbn; try done; [congruence|].
    intros E. specialize (H5 E). congruence. }
  unfold run_event. pose proof (call_port_log w i sp0 Ho0) as Hc. destruct (call_port w i sp0) as [sp' evs].
  destruct Hc as (Ho' & Hw & Hd & Hsch & Hr & Ht & Hm & Hrel). change (sp_stopped sp0) with (sp_stopped sp) in *.
  rewrite Es in *. split; [|by split_and!]. split; [done| | | |].
  - intros E. change (YRun i :: evs) with ([YRun i] ++ evs).
    rewrite taken_events_app, run_events_app, Hr, Ht, Hw, E, Ew. cbn. by rewrite app_nil_r.
  - rewrite taken_events_app, run_events_app, Hr, Ht, Ew. exists rest. cbn. by rewrite app_nil_r.
  - congruence.
  - rewrite releases_app, pauses_app, Es. apply Hrel.
Qed.

Lemma deliver_now_log w i sp :
  sp_ok sp -> sp_waiting sp = [] -> let '(sp', evs) := deliver_now w i sp in stream_log sp evs sp' /\ sp_waiting sp' = [].
Proof.
  intros Ho Ew. unfold deliver_now, run_event.
  pose proof (call_port_log w i sp Ho) as Hc. destruct (call_port w i sp) as [sp' evs].
  destruct Hc as (Ho' & Hw & _ & _ & Hr & Ht & Hm & Hrel). rewrite Ew in Hw.
  assert (sp_waiting sp' = []) as Hw' by (by destruct (sp_stopped sp')). split; [|done].
  destruct (sp_stopped sp) eqn:Es; cbn [app].
  - split; rewrite ?Hr, ?Ht, ?Ew, ?Hw', ?Es; try done. intros _. by split_and!; [..|apply Hm].
  - change (YTake i :: YRun i :: evs) with ([YTake i; YRun i] ++ evs).
    split; rewrite ?taken_events_app, ?run_events_app, ?Hr, ?Ht, ?Ew, ?Hw', ?releases_app, ?pauses_app, ?Es; try done.
Qed.

Lemma deliver_run_log w i sp : sp_ok sp -> let '(sp', evs) := deliver_run w i sp in stream_log sp evs sp'.
Proof.
  intros Ho. unfold deliver_run. destruct (sp_defer sp) eqn:Ed.
  - destruct (sp_stopped sp) eqn:Es; [by apply stream_log_still|].
    split; cbn; rewrite ?Es; try done; [|apply prefix_nil].
    destruct Ho as [H1 H2 H3 H4 H5]. split; cbn; congruence.
  - pose proof (deliver_now_log w i sp Ho (ok_now _ Ho Ed)) as Hd. destruct (deliver_now w i sp) as [sp' evs].
    apply Hd.
Qed.

Lemma deliver_after_log w i sp : sp_ok sp -> let '(sp', evs) := deliver_after w i sp in stream_log sp evs sp'.
Proof.
  intros Ho. unfold deliver_after. destruct (sp_waiting sp) as [|x ws] eqn:Ew; [|by apply deliver_run_log].
  pose proof (deliver_now_log w i sp Ho Ew) as Hd. destruct (deliver_now w i sp) as [sp' evs]. apply Hd.
Qed.

Lemma drain_events_log w n sp :
  sp_ok sp -> let '(sp', evs) := drain_events w n sp in stream_log sp evs sp' /\ sp_scheduled sp' = sp_scheduled sp.
Proof.
  revert sp; induction n as [|n IH]; intros sp Ho; cbn [drain_events]; [split; [by apply stream_log_still|done]|].
  destruct (sp_stopped sp) eqn:Es; [split; [by apply stream_log_still|done]|].
  destruct (sp_waiting sp) as [|i rest] eqn:Ew; [split; [by apply stream_log_still|done]|].
  pose proof (run_event_log w i rest sp Ho Es Ew) as Hr. destruct (run_event _ _ _) as [sp1 e1].
  destruct Hr as (Hr & Hsch & _). specialize (IH sp1 (sl_ok _ _ _ Hr)). destruct (drain_events w n sp1) as [sp2 e2].
  destruct IH as [IH Hsch2]. split; [by eapply stream_log_trans|congruence].
Qed.

Lemma with_queue_log sp sched : sp_ok sp -> stream_log sp [] (with_queue (sp_waiting sp) sched sp).
Proof. intros Ho. apply stream_log_still; try done. destruct Ho as [H1 H2 H3 H4 H5]. by split. Qed.

Lemma drain_turn_log w sp :
  sp_ok sp -> let '(sp', evs) := drain_turn w sp in stream_log sp evs sp' /\ (sp_waiting sp' <> [] -> sp_scheduled sp' = true).
Proof.
  intros Ho. unfold drain_turn. pose proof (with_queue_log sp false Ho) as Hq.
  pose proof (drain_events_log w (length (sp_waiting sp)) _ (sl_ok _ _ _ Hq)) as Hd.
  destruct (drain_events _ _ _) as [sp1 evs]. destruct Hd as [Hd _].
  pose proof (stream_log_trans _ _ _ _ _ Hq Hd) as Hl. cbn [app] in Hl.
  destruct (sp_waiting sp1) as [|i ws] eqn:Ew; [by split|]. split; [|done]. rewrite <-Ew.
  pose proof (stream_log_trans _ _ _ _ _ Hl (with_queue_log sp1 true (sl_ok _ _ _ Hl))) as Hf.
  by rewrite app_nil_r in Hf.
Qed.

(** Whatever waits has a turn coming. *)
Definition turn_coming (sp : stream_port) : Prop := sp_waiting sp <> [] -> sp_scheduled sp = true.

Lemma call_port_turn w i sp : sp_ok sp -> turn_coming sp -> turn_coming (call_port w i sp).1.
Proof.
  intros Ho Ht. pose proof (call_port_log w i sp Ho) as Hc. destruct (call_port w i sp) as [sp' evs].
  destruct Hc as (_ & Hw & _ & Hs & _). unfold turn_coming. cbn. rewrite Hw, Hs. by destruct (sp_stopped sp').
Qed.

Lemma deliver_now_turn w i sp : sp_ok sp -> turn_coming sp -> turn_coming (deliver_now w i sp).1.
Proof.
  intros Ho Ht. pose proof (call_port_turn w i sp Ho Ht) as Hc. unfold deliver_now, run_event.
  by destruct (call_port w i sp) as [sp' evs].
Qed.

Lemma deliver_run_turn w i sp : sp_ok sp -> turn_coming sp -> turn_coming (deliver_run w i sp).1.
Proof.
  intros Ho Ht. unfold deliver_run. destruct (sp_defer sp); [|by apply deliver_now_turn].
  by destruct (sp_stopped sp).
Qed.

Lemma deliver_after_turn w i sp : sp_ok sp -> turn_coming sp -> turn_coming (deliver_after w i sp).1.
Proof.
  intros Ho Ht. unfold deliver_after. destruct (sp_waiting sp); [by apply deliver_now_turn|by apply deliver_run_turn].
Qed.

Lemma stream_step_log w i sp :
  sp_ok sp -> turn_coming sp ->
  stream_log sp (stream_step w i sp).2 (stream_step w i sp).1 /\ turn_coming (stream_step w i sp).1.
Proof.
  intros Ho Ht.
  assert (forall i, stream_log sp (deliver_run w i sp).2 (deliver_run w i sp).1 /\ turn_coming (deliver_run w i sp).1) as Hrun.
  { intros j. pose proof (deliver_run_log w j sp Ho). pose proof (deliver_run_turn w j sp Ho Ht).
    by destruct (deliver_run w j sp). }
  assert (forall i, stream_log sp (deliver_after w i sp).2 (deliver_after w i sp).1 /\ turn_coming (deliver_after w i sp).1) as Haft.
  { intros j. pose proof (deliver_after_log w j sp Ho). pose proof (deliver_after_turn w j sp Ho Ht).
    by destruct (deliver_after w j sp). }
  assert (forall evs, taken_events evs = [] -> run_events evs = [] -> releases evs = 0%nat -> pauses evs = 0%nat ->
    stream_log sp evs sp /\ turn_coming sp) as Hstill by (intros; split; [by apply stream_log_still|done]).
  destruct i as [c react| | |m|m| |m|code reason|op]; cbn [stream_step]; auto.
  - destruct (sp_listening sp); [|by apply Hstill]. destruct (toBytes c); [auto|by apply Hstill].
  - destruct (sp_listening sp); [auto|by apply Hstill].
  - destruct (sp_listening sp); [auto|by apply Hstill].
  - destruct (sp_same sp); [by apply Hstill|auto].
  - destruct (sp_scheduled sp); [|by apply Hstill].
    pose proof (drain_turn_log w sp Ho). by destruct (drain_turn w sp).
  - pose proof (call_port_op w (POp op) sp Ho). pose proof (call_port_turn w (POp op) sp Ho Ht).
    by destruct (call_port w (POp op) sp).
Qed.

Lemma createStreamPort_ok same o sp :
  createStreamPort same o = Ok sp -> sp_ok sp /\ turn_coming sp /\ sp_stopped sp = false /\ sp_waiting sp = [].
Proof.
  intros (p & Hp & [= <-])%bind_ok. destruct (newNdjsonPort_ok _ _ Hp) as (Hs & _ & He & _).
  split_and!; [by split|by intros []|done|done].
Qed.

Lemma stream_reachable_log sp evs :
  stream_reachable sp evs ->
  exists sp0, sp_stopped sp0 = false /\ sp_waiting sp0 = [] /\ stream_log sp0 evs sp /\ turn_coming sp.
Proof.
  induction 1 as [same o sp Hnew|w i sp evs sp' evs' _ IH Hstep].
  - destruct (createStreamPort_ok _ _ _ Hnew) as (Ho & Ht & Hs & Hw). exists sp. split_and!; try done.
    by apply stream_log_still.
  - destruct IH as (sp0 & Hs & Hw & Hl & Ht). exists sp0.
    destruct (stream_step_log w i sp (sl_ok _ _ _ Hl) Ht) as [Hl' Ht']. rewrite Hstep in Hl', Ht'.
    split_and!; try done. by eapply stream_log_trans.
Qed.

(** A stream port delivers in order and loses nothing. The events of the streams and of
    the transport (data, end of file, errors) reach the open port in the order they
    arrived, each once; while the port is open whatever has not reached it waits, and has a
    turn of the event loop coming; once the port has ended nothing reaches it. *)
Theorem stream_events_in_order sp evs :
  stream_reachable sp evs ->
  run_events evs `prefix_of` taken_events evs /\
  (np_state (sp_port sp) = POpen -> taken_events evs = run_events evs ++ sp_waiting sp) /\
  (sp_waiting sp <> [] -> sp_scheduled sp = true) /\
  (np_state (sp_port sp) <> POpen ->
     forall w i, run_events (stream_step w i sp).2 = [] /\ taken_events (stream_step w i sp).2 = []).
Proof.
  intros (sp0 & Hs & Hw & Hl & Ht)%stream_reachable_log.
  destruct (ok_sink _ (sl_ok _ _ _ Hl)) as [_ Hopen]. rewrite <-(ok_stopped _ (sl_ok _ _ _ Hl)) in Hopen.
  pose proof (sl_prefix _ _ _ Hl) as Hp. pose proof (sl_open _ _ _ Hl) as Hf. rewrite Hw in Hp, Hf. cbn in Hp, Hf.
  split_and!; [done| |done|].
  - intros E. by apply Hf, Hopen.
  - intros E w i. destruct (stream_step_log w i sp (sl_ok _ _ _ Hl) Ht) as [Hl' _].
    destruct (sp_stopped sp) eqn:Es; [|by rewrite Hopen in E].
    by destruct (sl_closed _ _ _ Hl' Es) as (-> & -> & _).
Qed.

(** Ending a stream port releases its streams exactly once, whatever ended it and
    whatever still arrives: the readable half is paused and has lost its listeners, and the
    transport's own release has run, from the moment the port leaves its open state. *)
Theorem streams_released_once sp evs :
  stream_reachable sp evs ->
  releases evs = (if decide (np_state (sp_port sp) = POpen) then 0 else 1)%nat /\
  pauses evs = releases evs /\
  (sp_listening sp = true <-> np_state (sp_port sp) = POpen).
Proof.
  intros (sp0 & Hs & _ & Hl & _)%stream_reachable_log.
  destruct (ok_sink _ (sl_ok _ _ _ Hl)) as [_ Hopen]. rewrite <-(ok_stopped _ (sl_ok _ _ _ Hl)) in Hopen.
  pose proof (ok_listening _ (sl_ok _ _ _ Hl)) as Hli. destruct (sl_release _ _ _ Hl) as [Hr Hp].
  rewrite Hs in Hr, Hp. rewrite Hr, Hp, Hli.
  destruct (sp_stopped sp), (decide (np_state (sp_port sp) = POpen)); naive_solver.
Qed.

(** ** From one end to the other *)

Definition open_pipe : writable_stream := {| ws_writable := true; ws_write := fun _ => None |}.

Definition stream_run (ins : list stream_input) (sp : stream_port) : stream_port * list stream_effect :=
  fold_left (fun '(sp, evs) i => let '(sp', evs') := stream_step open_pipe i sp in (sp', evs ++ evs')) ins (sp, []).

(** A script of data events and turns of the event loop, with the data it brings. *)
Inductive data_script : list stream_input -> list bytes -> Prop :=
| script_nil : data_script [] []
| script_data b ins cs : data_script ins cs -> data_script (SData (CView b) silent :: ins) (b :: cs)
| script_turn ins cs : data_script ins cs -> data_script (SImmediate :: ins) cs.

Definition port_effects (evs : list stream_effect) : list port_effect :=
  omap (fun e => match e with YPort e => Some e | _ => None end) evs.

Lemma port_effects_app a b : port_effects (a ++ b) = port_effects a ++ port_effects b.
Proof. apply omap_app. Qed.

Lemma port_effects_lift w evs : port_effects (concat (map (stream_effects w) evs)) = evs.
Proof.
  induction evs as [|e evs IH]; [done|]. cbn [map concat]. rewrite port_effects_app, IH.
  by destruct e; cbn; destruct (ws_writable w).
Qed.

Abbreviation fed := (feed_all (fun _ => None) silent).
Abbreviation feeds := (map (fun c => PFeed c silent)).

Lemma fed_cons c cs p :
  fed (c :: cs) p =
  ((fed cs (feed (fun _ => None) silent c p).1).1,
   (feed (fun _ => None) silent c p).2 ++ (fed cs (feed (fun _ => None) silent c p).1).2).
Proof. cbn [feed_all]. destruct (feed _ _ c p) as [p1 e1]. cbn. by destruct (fed cs p1). Qed.

Lemma fed_app a b p :
  fed (a ++ b) p = ((fed b (fed a p).1).1, (fed a p).2 ++ (fed b (fed a p).1).2).
Proof.
  revert p; induction a as [|c a IH]; intros p; [cbn; by destruct (fed b p)|].
  cbn [app]. rewrite !fed_cons, IH. cbn [fst snd]. by rewrite app_assoc.
Qed.

Lemma fed_ended cs p : sink_ok p -> np_sinkEnded p = true -> np_sinkEnded (fed cs p).1 = true.
Proof.
  revert p; induction cs as [|c cs IH]; intros p Hs He; [done|]. rewrite fed_cons. cbn [fst].
  destruct (feed_log (fun _ => None) silent c p Hs) as [Ok A _]. apply IH; [done|]. by apply A.
Qed.

(** Feeding an open stream port one piece, when that does not end it. *)
Lemma run_feed c sp :
  sp_ok sp -> sp_stopped sp = false -> np_sinkEnded (fed [c] (sp_port sp)).1 = false ->
  exists evs, run_event open_pipe (PFeed c silent) sp = (with_port (fed [c] (sp_port sp)).1 sp, evs) /\
    port_effects evs = (fed [c] (sp_port sp)).2.
Proof.
  intros Ho Es He. unfold run_event, call_port. rewrite Es. rewrite fed_cons in *. cbn [fst snd feed_all] in *.
  cbn [port_step]. change (writeTo open_pipe) with (fun _ : bytes => @None jstring).
  destruct (feed _ _ c (sp_port sp)) as [p evs]. cbn [fst snd] in *. rewrite He. eexists. split; [done|].
  rewrite port_effects_app, port_effects_lift. cbn. by rewrite app_nil_r.
Qed.

Lemma sp_ok_with_port p sp :
  sp_ok sp -> sink_ok p -> np_sinkEnded p = np_sinkEnded (sp_port sp) -> sp_ok (with_port p sp).
Proof. intros [H1 H2 H3 H4 H5] Hs He. by split; cbn; rewrite ?He. Qed.

Lemma sp_ok_queue ws sched sp :
  sp_ok sp -> sp_stopped sp = false -> (sp_defer sp = false -> ws = []) -> sp_ok (with_queue ws sched sp).
Proof. intros [H1 H2 H3 H4 H5] Es Hd. split; cbn; try done. congruence. Qed.

Lemma fed_sink_ok cs p : sink_ok p -> sink_ok (fed cs p).1.
Proof.
  revert p; induction cs as [|c cs IH]; intros p Hs; [done|]. rewrite fed_cons. apply IH.
  by destruct (feed_log (fun _ => None) silent c p Hs).
Qed.

(** A prefix of data that does not end a port does not end it either. *)
Lemma fed_prefix a b p :
  sink_ok p -> np_sinkEnded (fed (a ++ b) p).1 = false -> np_sinkEnded (fed a p).1 = false.
Proof.
  intros Hs. rewrite fed_app. cbn [fst]. intros He. destruct (np_sinkEnded (fed a p).1) eqn:E; [|done].
  rewrite fed_ended in He; [done| |done]. by apply fed_sink_ok.
Qed.

Lemma drain_feeds ws sp :
  sp_ok sp -> sp_stopped sp = false -> sp_waiting sp = feeds ws -> np_sinkEnded (fed ws (sp_port sp)).1 = false ->
  exists evs, drain_events open_pipe (length ws) sp = (with_queue [] (sp_scheduled sp) (with_port (fed ws (sp_port sp)).1 sp), evs) /\
    port_effects evs = (fed ws (sp_port sp)).2.
Proof.
  revert sp; induction ws as [|c ws IH]; intros sp Ho Es Ew He.
  { exists []. split; [|done]. cbn [length drain_events feed_all fst]. f_equal. destruct sp; cbn in *. by subst. }
  cbn [length drain_events]. rewrite Es, Ew. cbn [map].
  set (sp0 := with_queue (feeds ws) (sp_scheduled sp) sp).
  assert (sp_ok sp0) as Ho0.
  { apply sp_ok_queue; [done|done|]. intros Ed. rewrite (ok_now _ Ho Ed) in Ew. done. }
  change (c :: ws) with ([c] ++ ws) in He. pose proof (fed_prefix [c] ws _ (ok_sink _ Ho) He) as H1.
  destruct (run_feed c sp0 Ho0 Es H1) as (e1 & -> & E1). cbn [sp_port with_queue sp0] in *.
  rewrite fed_app in He. cbn [fst] in He.
  destruct (IH (with_port (fed [c] (sp_port sp)).1 sp0)) as (e2 & H2 & E2); [|done|done|done|].
  { apply sp_ok_with_port; [done|apply fed_sink_ok, (ok_sink _ Ho)|].
    cbn [sp_port with_queue sp0]. rewrite H1, <-(ok_stopped _ Ho). done. }
  rewrite H2. eexists. split.
  - change (c :: ws) with ([c] ++ ws). by rewrite fed_app.
  - change (c :: ws) with ([c] ++ ws). by rewrite fed_app, port_effects_app, E1, E2.
Qed.

Lemma stream_run_cons i ins sp :
  stream_run (i :: ins) sp =
  ((stream_run ins (stream_step open_pipe i sp).1).1,
   (stream_step open_pipe i sp).2 ++ (stream_run ins (stream_step open_pipe i sp).1).2).
Proof.
  unfold stream_run. cbn [fold_left]. destruct (stream_step open_pipe i sp) as [sp1 e1]. cbn [fst snd].
  assert (forall e, fold_left (fun '(sp, evs) i => let '(sp', evs') := stream_step open_pipe i sp in (sp', evs ++ evs')) ins (sp1, e)
    = ((stream_run ins sp1).1, e ++ (stream_run ins sp1).2)) as Hf; [|apply Hf].
  unfold stream_run. revert sp1. induction ins as [|j ins IH]; intros sp1 e; cbn [fold_left]; [cbn; by rewrite app_nil_r|].
  destruct (stream_step open_pipe j sp1) as [sp2 e2]. rewrite (IH _ (e ++ e2)), (IH _ ([] ++ e2)). cbn [fst snd app].
  by rewrite app_assoc.
Qed.

(** What a script of data leaves: some of it reached the port, in order, and the rest waits. *)
Lemma script_delivers ins cs ws sp :
  data_script ins cs -> sp_ok sp -> sp_stopped sp = false -> sp_waiting sp = feeds ws ->
  np_sinkEnded (fed (ws ++ cs) (sp_port sp)).1 = false ->
  exists got rest, ws ++ cs = got ++ rest /\ sp_waiting (stream_run ins sp).1 = feeds rest /\
    sp_port (stream_run ins sp).1 = (fed got (sp_port sp)).1 /\
    port_effects (stream_run ins sp).2 = (fed got (sp_port sp)).2.
Proof.
  intros Hscript. revert ws sp. induction Hscript as [|b ins cs _ IH|ins cs _ IH]; intros ws sp Ho Es Ew He.
  - exists [], ws. by rewrite app_nil_r.
  - rewrite stream_run_cons. cbn [stream_step]. rewrite (ok_listening _ Ho), Es. cbn [negb toBytes].
    unfold deliver_run. destruct (sp_defer sp) eqn:Ed.
    + rewrite Es. cbn [fst snd]. change (ws ++ b :: cs) with (ws ++ [b] ++ cs) in *. rewrite app_assoc in *.
      destruct (IH (ws ++ [b]) (with_queue (sp_waiting sp ++ [PFeed b silent]) true sp)) as (got & rest & E1 & E2 & E3 & E4);
        [apply sp_ok_queue; congruence|done|cbn; rewrite Ew; by rewrite map_app|done|].
      exists got, rest. by rewrite port_effects_app, E4.
    + assert (ws = []) as -> by (rewrite (ok_now _ Ho Ed) in Ew; by destruct ws). cbn [app] in *.
      change (b :: cs) with ([b] ++ cs) in He. pose proof (fed_prefix [b] cs _ (ok_sink _ Ho) He) as H1.
      unfold deliver_now. rewrite Es. destruct (run_feed b sp Ho Es H1) as (e1 & -> & E1). cbn [fst snd].
      rewrite fed_app in He. cbn [fst] in He.
      destruct (IH [] (with_port (fed [b] (sp_port sp)).1 sp)) as (got & rest & E2 & E3 & E4 & E5); [|done|done|done|].
      { apply sp_ok_with_port; [done|apply fed_sink_ok, (ok_sink _ Ho)|]. rewrite H1, <-(ok_stopped _ Ho). done. }
      cbn [app] in E2. exists (b :: got), rest. subst cs. split; [done|]. split; [done|].
      change (b :: got) with ([b] ++ got). rewrite fed_app. cbn [fst snd sp_port with_port] in *. split; [done|].
      by rewrite !port_effects_app, E1, E5.
  - rewrite stream_run_cons. cbn [stream_step]. destruct (sp_scheduled sp) eqn:Esch; [|by apply IH].
    pose proof (fed_prefix ws cs _ (ok_sink _ Ho) He) as H1. unfold drain_turn.
    assert (sp_ok (with_queue (sp_waiting sp) false sp)) as Hq.
    { apply sp_ok_queue; [done|done|]. apply (ok_now _ Ho). }
    destruct (drain_feeds ws (with_queue (sp_waiting sp) false sp)) as (e1 & H2 & E1); [done|done|done|done|].
    rewrite Ew, length_map, <-Ew, H2. cbn [sp_waiting with_queue fst snd].
    rewrite fed_app in He. cbn [fst] in He.
    destruct (IH [] (with_queue [] false (with_port (fed ws (sp_port sp)).1 (with_queue (sp_waiting sp) false sp))))
      as (got & rest & E2 & E3 & E4 & E5); [|done|done|done|].
    { apply sp_ok_queue; [|done|done]. apply sp_ok_with_port; [done|apply fed_sink_ok, (ok_sink _ Ho)|].
      cbn [sp_port with_queue]. rewrite H1, <-(ok_stopped _ Ho). done. }
    cbn [app sp_port with_queue with_port] in *. exists (ws ++ got), rest. subst cs. rewrite app_assoc. split; [done|].
    split; [done|]. rewrite fed_app. cbn [fst snd]. split; [done|].
    rewrite port_effects_app, E1. f_equal. exact E5.
Qed.

(** A spawned or piped peer hears exactly what was said. When one end sends frames and
    their bytes reach a stream port with the same limit, in whatever pieces and with its
    reads delivered at once or on later turns of the event loop, then once nothing waits
    its listener has received exactly these frames in this order, and the port is open. *)
Theorem streams_deliver_frames o same a a' evs fs l sp ins cs :
  newNdjsonPort (st_maxFrameBytes o) = Ok a -> createStreamPort same o = Ok sp -> Forall plain fs ->
  send_all (fun _ => None) fs a = Some (a', evs) ->
  data_script ins cs -> concat cs = written evs ->
  let '(sp', evs') := stream_run ins (with_port (set_frames [l] (sp_port sp)) sp) in
  sp_waiting sp' = [] ->
  exists vs, port_effects evs' = map (WFrame l) vs /\ map frame_of vs = map Some fs /\ np_state (sp_port sp') = POpen.
Proof.
  intros Ha Hsp Hp Hs Hscript Hc.
  destruct (createStreamPort_ok _ _ _ Hsp) as (Ho & _ & Es & Ew).
  apply bind_ok in Hsp as (b & Hb & [= <-]). cbn [sp_port].
  pose proof (ports_deliver _ a b a' evs fs l cs Ha Hb Hp Hs Hc) as Hd.
  set (sp0 := with_port _ _). set (b1 := set_frames [l] b) in *.
  assert (sp_ok sp0) as Ho0 by (apply sp_ok_with_port; [done|by destruct (newNdjsonPort_ok _ _ Hb)|done]).
  pose proof (fed_sink_ok cs b1 (ok_sink _ Ho0)) as Hok.
  destruct (script_delivers ins cs [] sp0 Hscript Ho0) as (got & rest & E1 & E2 & E3 & E4); [done|done| |].
  { cbn [app sp_port with_port sp0]. destruct (fed cs b1) as [b' evs']. cbn [fst] in *. destruct Hd as (_ & _ & _ & Hopen).
    by apply (proj2 Hok). }
  destruct (stream_run ins sp0) as [sp' evs']. cbn [fst snd app sp_port with_port sp0] in *. intros Hw.
  rewrite Hw in E2. assert (rest = []) as -> by (by destruct rest). rewrite app_nil_r in E1. subst got.
  destruct (fed cs b1) as [b' evs1]. cbn [fst snd] in *. destruct Hd as (vs & -> & Hvs & Hopen).
  exists vs. by rewrite E3.
Qed.

End Streams.

(** ** A child pipe *)

#[local] Existing Instance conforming_checker.
#[local] Existing Instance plain_engine.

Definition child_options : StreamPortOptions := {| st_maxFrameBytes := None; st_deferReads := true |}.
Definition child_pipe : stream_port :=
  {| sp_port := sample_port; sp_defer := true; sp_same := false; sp_waiting := []; sp_scheduled := false;
     sp_stopped := false; sp_listening := true |}.

Lemma stream_run_reachable ins sp evs : stream_reachable sp evs -> stream_reachable (stream_run ins sp).1 (evs ++ (stream_run ins sp).2).
Proof.
  revert sp evs; induction ins as [|i ins IH]; intros sp evs Hr; [cbn; by rewrite app_nil_r|].
  rewrite stream_run_cons. cbn [fst snd]. destruct (stream_step open_pipe i sp) as [sp1 e1] eqn:E. cbn [fst snd].
  rewrite app_assoc. apply IH. by eapply stream_next.
Qed.

Lemma child_pipe_reachable : stream_reachable child_pipe [].
Proof. apply (stream_new false child_options). vm_compute. reflexivity. Qed.

(** The child answers and exits: its last frames are delivered before the end of file. *)
Definition last_words : list stream_input := map (fun b => SData (CView b) silent) sample_pieces ++ [SEnd; SImmediate; SClose].

Lemma last_words_reachable : stream_reachable (stream_run last_words child_pipe).1 (stream_run last_words child_pipe).2.
Proof. rewrite <-(app_nil_l (stream_run last_words child_pipe).2). apply stream_run_reachable, child_pipe_reachable. Qed.

Lemma stream_events_in_order_witness :
  length (taken_events (stream_run last_words child_pipe).2) = S (length sample_pieces) /\
  run_events (stream_run last_words child_pipe).2 `prefix_of` taken_events (stream_run last_words child_pipe).2.
Proof.
  split; [vm_compute; reflexivity|].
  exact (proj1 (stream_events_in_order _ _ last_words_reachable)).
Defined.

Lemma streams_released_once_witness :
  releases (stream_run last_words child_pipe).2 =
  (if decide (np_state (sp_port (stream_run last_words child_pipe).1) = POpen) then 0 else 1)%nat /\
  np_state (sp_port (stream_run last_words child_pipe).1) = PEnded.
Proof.
  split; [|vm_compute; reflexivity].
  exact (proj1 (streams_released_once _ _ last_words_reachable)).
Defined.

Definition child_answers : list stream_input := map (fun b => SData (CView b) silent) sample_pieces ++ [SImmediate].

Lemma streams_deliver_frames_witness :
  let '(sp', evs') := stream_run child_answers (with_port (set_frames [1%nat] (sp_port child_pipe)) child_pipe) in
  sp_waiting sp' = [] /\ exists vs, port_effects evs' = map (WFrame 1) vs /\ map frame_of vs = map Some sample_stream.
Proof.
  pose proof (streams_deliver_frames child_options false sample_port sample_port
    (map (fun l => WWrite (utf8_encode l) true) sample_lines) sample_stream 1 child_pipe child_answers sample_pieces
    ltac:(vm_compute; reflexivity) ltac:(vm_compute; reflexivity) ltac:(repeat constructor; eexists; reflexivity)
    ltac:(vm_compute; reflexivity) ltac:(repeat constructor) ltac:(vm_compute; reflexivity)) as Hd.
  assert (sp_waiting (stream_run child_answers (with_port (set_frames [1%nat] (sp_port child_pipe)) child_pipe)).1 = []) as Hw
    by (vm_compute; reflexivity).
  destruct (stream_run child_answers (with_port (set_frames [1%nat] (sp_port child_pipe)) child_pipe)) as [sp' evs'].
  cbn [fst] in Hw. split; [exact Hw|]. destruct (Hd Hw) as (vs & H1 & H2 & _). exists vs. split; [exact H1|exact H2].
Defined.
