(* ===== verification/Spawn.v ===== *)
(** * Launching a child process

    [packages/protocol/src/transports/spawn.ts]: the environment a child inherits,
    the bounded tail of its diagnostics, the launch record, and the launcher that
    drives a stream port over the child's pipes and ends the child with the
    escalation of end of input, SIGTERM and SIGKILL. *)

From S2P Require Import Prelude Utf8 Regex Json JsonFacts Wire Frames Ndjson Listeners Session NdjsonPort StreamPort Ssh.

(** ** The environment *)

(** [String.prototype.toUpperCase]: on ASCII, letter by letter. *)
Class CaseMapping : Type := {
  toUpperCase : jstring -> jstring;
  upper_ascii s : Forall (fun u => 0 <= u < 128) s ->
    toUpperCase s = map (fun u => if (97 <=? u) && (u <=? 122) then u - 32 else u) s
}.

Definition ENV_ALLOWLIST : list jstring :=
  [js "PATH"; js "HOME"; js "USERPROFILE"; js "SYSTEMROOT"; js "TEMP"; js "TMP"; js "TMPDIR"; js "LANG"; js "TERM";
   js "SHELL"; js "XDG_RUNTIME_DIR"].

Definition LOCALE_PREFIX : jstring := js "LC_".

Definition ends_with (suffix s : jstring) : bool := starts_with (reverse suffix) (reverse s).

Fixpoint includes (part s : jstring) : bool :=
  starts_with part s || match s with [] => false | _ :: rest => includes part rest end.

(** [SECRET_PATTERNS.some((pattern) => pattern.test(upper))] *)
Definition secret_shaped (upper : jstring) : bool :=
  ends_with (js "_TOKEN") upper || ends_with (js "_SECRET") upper || ends_with (js "_KEY") upper ||
  includes (js "PASSWORD") upper.

(** Whether the loop keeps a variable of this name. *)
Definition inherits `{CaseMapping} (name : jstring) : bool :=
  let upper := toUpperCase name in
  (bool_decide (upper ∈ ENV_ALLOWLIST) || starts_with LOCALE_PREFIX upper) && negb (secret_shaped upper).

(** The loop over [Object.entries(source)]; a variable may be there and undefined. *)
Fixpoint keep_variables `{CaseMapping} (source : list (jstring * option jstring)) (kept : gmap jstring jstring)
    : gmap jstring jstring :=
  match source with
  | [] => kept
  | (name, None) :: rest => keep_variables rest kept
  | (name, Some value) :: rest =>
      if inherits name then keep_variables rest (<[name := value]> kept) else keep_variables rest kept
  end.

Definition sanitizedEnv `{CaseMapping} (source : list (jstring * option jstring)) (extra : gmap jstring jstring)
    : gmap jstring jstring :=
  extra ∪ keep_variables source ∅.

(** ** The tail of the diagnostics *)

Record BoundedTail : Type := { bt_limit : Z; bt_bytes : bytes }.

Definition append (chunk : bytes) (t : BoundedTail) : BoundedTail :=
  let merged := bt_bytes t ++ chunk in
  {| bt_limit := bt_limit t;
     bt_bytes := if zlen merged <=? bt_limit t then merged
                 else drop (Z.to_nat (zlen merged - bt_limit t)) merged |}.

Definition appendText (text : jstring) (t : BoundedTail) : BoundedTail := append (utf8_encode text) t.

Definition tail_text (t : BoundedTail) : jstring := decode_text (bt_bytes t).

(** ** Errors of a spawn *)

(** An [Error] with its [code], when that is a string. *)
Record os_error : Type := { oe_message : jstring; oe_code : option jstring }.

Definition errorCode (e : os_error) : option jstring :=
  match oe_code e with Some ((_ :: _) as c) => Some c | _ => None end.

Definition withErrorCode (e : os_error) : os_error :=
  match errorCode e with
  | None => e
  | Some code =>
      if includes code (oe_message e) then e
      else {| oe_message := code ++ js ": " ++ oe_message e; oe_code := Some code |}
  end.

(** ** Options *)

Definition DEFAULT_STDERR_TAIL_BYTES : Z := 16 * 1024.
Definition DEFAULT_TERMINATE_GRACE_MS : Z := 2000.
Definition DEFAULT_KILL_GRACE_MS : Z := 2000.
Definition DEFAULT_EXIT_GRACE_MS : Z := 2000.

Record SpawnOptions : Type := {
  sw_argv : list jstring;
  sw_cwd : option jstring;
  sw_env : option (gmap jstring jstring);
  sw_maxFrameBytes : option jsarg;
  sw_stderrTailBytes : option jsarg;
  sw_terminateGraceMs : option jsarg;
  sw_killGraceMs : option jsarg;
  sw_exitGraceMs : option jsarg;
  sw_windowsHide : option bool
}.

Record Graces : Type := { terminateMs : Z; killMs : Z; exitMs : Z }.

Definition resolveGraces (o : SpawnOptions) : outcome jstring Graces :=
  t ← resolveIntegerAtLeast (js "terminateGraceMs") (sw_terminateGraceMs o) DEFAULT_TERMINATE_GRACE_MS 0 None;
  k ← resolveIntegerAtLeast (js "killGraceMs") (sw_killGraceMs o) DEFAULT_KILL_GRACE_MS 0 None;
  x ← resolveIntegerAtLeast (js "exitGraceMs") (sw_exitGraceMs o) DEFAULT_EXIT_GRACE_MS 0 None;
  Ok {| terminateMs := t; killMs := k; exitMs := x |}.

(** What the launcher asks of the child-process call, its [stdio] being three pipes. *)
Record child_request : Type := {
  cq_command : jstring;
  cq_args : list jstring;
  cq_cwd : option jstring;
  cq_env : gmap jstring jstring;
  cq_windowsHide : bool
}.

(** What the call answers: it throws, or there is a child, with or without a process
    and with or without its input and output pipes. *)
Inductive spawn_result : Type :=
| SpawnThrew (e : os_error)
| SpawnedChild (hasPid hasPipes : bool).

(** ** The launcher *)

(** The waits of the escalation, and its end. *)
Inductive escalation : Type :=
| AwaitStdinEnd
| AwaitSigterm
| AwaitSigkill
| Ended (status : option ExitStatus).

(** The handle: a stream port over the pipes, or a port whose sink always throws. *)
Inductive peer_handle : Type :=
| OverPipes (sp : stream_port)
| Unspawned (p : ndjson_port).

Record launcher : Type := {
  la_child : bool;
  la_hasPid : bool;
  la_handle : peer_handle;
  la_tail : BoundedTail;
  la_spawnErrorCode : option jstring;
  la_exit : option ExitStatus;
  la_graces : Graces;
  la_terminateGraceMs : Z;
  la_termination : option escalation
}.

Inductive launcher_effect : Type :=
| LaStream (e : stream_effect)
| LaStdinEnd
| LaKill (signal : option jstring)
| LaStderr (b : bytes).

Definition with_handle h (la : launcher) : launcher :=
  {| la_child := la_child la; la_hasPid := la_hasPid la; la_handle := h; la_tail := la_tail la;
     la_spawnErrorCode := la_spawnErrorCode la; la_exit := la_exit la; la_graces := la_graces la;
     la_terminateGraceMs := la_terminateGraceMs la; la_termination := la_termination la |}.
Definition with_tail t (la : launcher) : launcher :=
  {| la_child := la_child la; la_hasPid := la_hasPid la; la_handle := la_handle la; la_tail := t;
     la_spawnErrorCode := la_spawnErrorCode la; la_exit := la_exit la; la_graces := la_graces la;
     la_terminateGraceMs := la_terminateGraceMs la; la_termination := la_termination la |}.
Definition with_spawnError c (la : launcher) : launcher :=
  {| la_child := la_child la; la_hasPid := la_hasPid la; la_handle := la_handle la; la_tail := la_tail la;
     la_spawnErrorCode := c; la_exit := la_exit la; la_graces := la_graces la;
     la_terminateGraceMs := la_terminateGraceMs la; la_termination := la_termination la |}.
Definition with_exit x (la : launcher) : launcher :=
  {| la_child := la_child la; la_hasPid := la_hasPid la; la_handle := la_handle la; la_tail := la_tail la;
     la_spawnErrorCode := la_spawnErrorCode la; la_exit := x; la_graces := la_graces la;
     la_terminateGraceMs := la_terminateGraceMs la; la_termination := la_termination la |}.
Definition with_terminateGrace g (la : launcher) : launcher :=
  {| la_child := la_child la; la_hasPid := la_hasPid la; la_handle := la_handle la; la_tail := la_tail la;
     la_spawnErrorCode := la_spawnErrorCode la; la_exit := la_exit la; la_graces := la_graces la;
     la_terminateGraceMs := g; la_termination := la_termination la |}.
Definition with_termination t (la : launcher) : launcher :=
  {| la_child := la_child la; la_hasPid := la_hasPid la; la_handle := la_handle la; la_tail := la_tail la;
     la_spawnErrorCode := la_spawnErrorCode la; la_exit := la_exit la; la_graces := la_graces la;
     la_terminateGraceMs := la_terminateGraceMs la; la_termination := t |}.

(** [LaunchRecord.refused]: the first code stays. *)
Definition refused (e : os_error) (la : launcher) : launcher :=
  match la_spawnErrorCode la with Some _ => la | None => with_spawnError (errorCode e) la end.

(** A wait is over: [return await exited]. *)
Definition wait_over (la : launcher) : launcher :=
  match la_exit la, la_termination la with
  | Some _, None | Some _, Some (Ended _) | None, _ => la
  | Some st, Some _ => with_termination (Some (Ended (Some st))) la
  end.

(** [exit.settle]: the first status stays, and a wait in progress sees it. *)
Definition settle_exit (st : ExitStatus) (la : launcher) : launcher :=
  match la_exit la with Some _ => la | None => wait_over (with_exit (Some st) la) end.

Definition unspawnedSink : sink_fn := fun _ =>
  Some (js "the child process never started; expected a running child, received a failed spawn").

Section Launcher.
Context `{TypeBox, JsonEngine}.

(** One event on the handle. A port without pipes has no streams to hear from. *)
Definition handle_step (w : writable_stream) (i : stream_input) (h : peer_handle) : peer_handle * list stream_effect :=
  match h with
  | OverPipes sp => let '(sp, evs) := stream_step w i sp in (OverPipes sp, evs)
  | Unspawned p =>
      let call j := let '(p, evs) := port_step unspawnedSink j p in (Unspawned p, map YPort evs) in
      match i with
      | SFailed m => call (PFail m)
      | STerminate code reason => call (PTerminate code reason)
      | SOp op => call (POp op)
      | _ => (h, [])
      end
  end.

(** The launcher's own subscription to the port's closure; the program's are the others. *)
Definition LAUNCHER : nat := 0.

Definition told_closed (evs : list stream_effect) : bool :=
  existsb (fun e => match e with YPort (WClosed l _) => bool_decide (l = LAUNCHER) | _ => false end) evs.

Definition ended_writable (evs : list stream_effect) : bool :=
  existsb (fun e => match e with YEndWritable => true | _ => false end) evs.

(** [terminate], up to its first wait: [escalate] starts once. *)
Definition start_termination (w : writable_stream) (la : launcher) : launcher * list launcher_effect :=
  match la_termination la with
  | Some _ => (la, [])
  | None =>
      let '(h, evs) := handle_step w (SOp (OpClose RELEASED (Some (js "launcher terminating")))) (la_handle la) in
      let stdin := match h with OverPipes _ => ws_writable w && negb (ended_writable evs) | Unspawned _ => false end in
      let la := with_termination (Some AwaitStdinEnd) (with_handle h la) in
      (wait_over la, map LaStream evs ++ (if stdin then [LaStdinEnd] else []))
  end.

(** The answer of [terminate]: none yet, or what [(await termination) ?? settledStatus] gives. *)
Definition terminate_answer (la : launcher) : option (option ExitStatus) :=
  match la_termination la with
  | Some (Ended (Some st)) => Some (Some st)
  | Some (Ended None) => Some (la_exit la)
  | _ => None
  end.

(** How long the wait in progress lasts. *)
Definition wait_ms (la : launcher) : option Z :=
  match la_termination la with
  | Some AwaitStdinEnd => Some (la_terminateGraceMs la)
  | Some AwaitSigterm => Some (killMs (la_graces la))
  | Some AwaitSigkill => Some (exitMs (la_graces la))
  | _ => None
  end.

Definition SIGTERM : jstring := js "SIGTERM".
Definition SIGKILL : jstring := js "SIGKILL".

(** [kill]: [gone] is whether the child already has an exit code or a signal. *)
Definition kill (windows gone : bool) (signal : jstring) : list launcher_effect :=
  if gone then [] else [LaKill (if windows then None else Some signal)].

(** The timer of the wait in progress fires. A child that was never created has no timer. *)
Definition grace_elapsed (windows gone : bool) (la : launcher) : launcher * list launcher_effect :=
  if la_child la then
    match la_termination la with
    | Some AwaitStdinEnd => (with_termination (Some AwaitSigterm) la, kill windows gone SIGTERM)
    | Some AwaitSigterm => (with_termination (Some AwaitSigkill) la, kill windows gone SIGKILL)
    | Some AwaitSigkill => (with_termination (Some (Ended None)) la, [])
    | _ => (la, [])
    end
  else (la, []).

(** [setTerminateGraceMs] *)
Definition setTerminateGraceMs (ms : jsarg) (la : launcher) : outcome jstring (launcher * bool) :=
  next ← resolveIntegerAtLeast (js "terminateGraceMs") (Some ms) (la_terminateGraceMs la) 0 None;
  match la_termination la with
  | Some _ => Ok (la, false)
  | None => Ok (with_terminateGrace next la, true)
  end.

(** What [startError] reports once its grace is over; [landed] is whether the exit settled in it. *)
Record SpawnStartError : Type := { sr_exit : option ExitStatus; sr_spawnErrorCode : option jstring; sr_stderrLine : jstring }.

Definition observeStartError (landed : bool) (la : launcher) : SpawnStartError :=
  {| sr_exit := if landed then la_exit la else None;
     sr_spawnErrorCode := la_spawnErrorCode la;
     sr_stderrLine := default [] (lastNonEmptyLine (tail_text (la_tail la))) |}.

(** ** Starting *)

Definition no_status : ExitStatus := {| es_code := None; es_signal := None |}.

Definition report_line (e : os_error) : jstring := [10] ++ oe_message e ++ [10].

Definition child_request_of `{CaseMapping} (command : jstring) (args : list jstring) (o : SpawnOptions)
    (process_env : list (jstring * option jstring)) : child_request :=
  {| cq_command := command; cq_args := args; cq_cwd := sw_cwd o;
     cq_env := match sw_env o with Some env => env | None => sanitizedEnv process_env ∅ end;
     cq_windowsHide := default true (sw_windowsHide o) |}.

Definition as_failure {A} (o : outcome exn A) : outcome failure A := catch o (fun e => Err (exn_failure e)).

(** [spawnPort]: everything is checked before [spawnChild] is called; the launcher is
    the first to subscribe to the port's closure. *)
Definition spawnPort `{CaseMapping} (spawnChild : child_request -> spawn_result)
    (process_env : list (jstring * option jstring)) (o : SpawnOptions) : outcome failure launcher :=
  match sw_argv o with
  | ((_ :: _) as command) :: args =>
      maxFrameBytes ← as_failure (range (resolveFrameLimit (sw_maxFrameBytes o)));
      tailBytes ← as_failure (range (resolveIntegerAtLeast (js "stderrTailBytes") (sw_stderrTailBytes o)
                    DEFAULT_STDERR_TAIL_BYTES 1 None));
      graces ← as_failure (range (resolveGraces o));
      let limit := Some (ANum (NInt maxFrameBytes)) in
      let tail := {| bt_limit := tailBytes; bt_bytes := [] |} in
      let made child hasPid h :=
        {| la_child := child; la_hasPid := hasPid; la_handle := h; la_tail := tail; la_spawnErrorCode := None;
           la_exit := None; la_graces := graces; la_terminateGraceMs := terminateMs graces; la_termination := None |} in
      let subscribe la := (with_handle (handle_step open_pipe (SOp (OpOnClosed LAUNCHER)) (la_handle la)).1 la) in
      match spawnChild (child_request_of command args o process_env) with
      | SpawnThrew cause =>
          p ← as_failure (newNdjsonPort limit);
          let e := withErrorCode cause in
          let la := refused e (made false false (Unspawned p)) in
          Ok (subscribe (settle_exit no_status (with_tail (appendText (report_line e) (la_tail la)) la)))
      | SpawnedChild hasPid true =>
          sp ← as_failure (createStreamPort false {| st_maxFrameBytes := limit; st_deferReads := true |});
          Ok (subscribe (made true hasPid (OverPipes sp)))
      | SpawnedChild hasPid false =>
          p ← as_failure (newNdjsonPort limit);
          Ok (subscribe (made true hasPid (Unspawned p)))
      end
  | argv =>
      Err (FOther (js "spawn argv is " ++ stringify (JArr (map JStr argv)) ++
                   js "; expected [command, ...args] with a non-empty command"))
  end.

(** ** The launcher as a transition system *)

Inductive launcher_input : Type :=
| LStream (i : stream_input)
| LExit (st : ExitStatus)
| LError (e : os_error)
| LStderr (c : stream_chunk)
| LNeverStarted
| LTerminate
| LGrace (gone : bool)
| LSetGrace (ms : jsarg).

(** A call of the handle, and the termination its closure starts. *)
Definition drive_handle (w : writable_stream) (i : stream_input) (la : launcher) : launcher * list launcher_effect :=
  let '(h, evs) := handle_step w i (la_handle la) in
  let la := with_handle h la in
  if told_closed evs then let '(la, more) := start_termination w la in (la, map LaStream evs ++ more)
  else (la, map LaStream evs).

Definition launcher_step (windows : bool) (w : writable_stream) (i : launcher_input) (la : launcher)
    : launcher * list launcher_effect :=
  match i with
  | LStream (SOp (OpClose code reason)) =>
      let '(la, e1) := drive_handle w (SOp (OpClose code reason)) la in
      let '(la, e2) := start_termination w la in
      (la, e1 ++ e2)
  | LStream i => drive_handle w i la
  | LExit st => if la_child la then (settle_exit st la, []) else (la, [])
  | LError cause =>
      if negb (la_child la) then (la, []) else
      let e := withErrorCode cause in
      let la := if la_hasPid la then la else refused e la in
      let la := with_tail (appendText (report_line e) (la_tail la)) la in
      let '(la, evs) := drive_handle w (SFailed (oe_message e)) la in
      (settle_exit no_status la, evs)
  | LStderr c =>
      match toBytes c with
      | Ok b => if la_child la then (with_tail (append b (la_tail la)) la, [LaStderr b]) else (la, [])
      | Err _ => (la, [])
      end
  | LNeverStarted =>
      if la_child la then (la, [])
      else
        let why := match trim (tail_text (la_tail la)) with [] => js "the child never started" | t => t end in
        drive_handle w (SFailed why) la
  | LTerminate => start_termination w la
  | LGrace gone => grace_elapsed windows gone la
  | LSetGrace ms => (match setTerminateGraceMs ms la with Ok (la, _) => la | Err _ => la end, [])
  end.

Inductive launcher_reachable (windows : bool) : launcher -> list launcher_input -> list launcher_effect -> Prop :=
| launch_new `{CaseMapping} spawnChild env o la :
    spawnPort spawnChild env o = Ok la -> launcher_reachable windows la [] []
| launch_next w i la ins evs la' evs' :
    launcher_reachable windows la ins evs -> launcher_step windows w i la = (la', evs') ->
    launcher_reachable windows la' (ins ++ [i]) (evs ++ evs').

(** ** The environment is clean *)

Lemma keep_variables_lookup `{CaseMapping} source kept name :
  NoDup source.*1 ->
  keep_variables source kept !! name =
  match (list_to_map source : gmap jstring (option jstring)) !! name with
  | Some (Some value) => if inherits name then Some value else kept !! name
  | _ => kept !! name
  end.
Proof.
  revert kept; induction source as [|[n v] source IH]; intros kept Hnd; [done|].
  apply NoDup_cons in Hnd as [Hn Hnd]. cbn [keep_variables list_to_map foldr].
  change (foldr _ _ source) with (list_to_map source : gmap jstring (option jstring)).
  assert (n <> name \/ n = name) as [Hne|<-] by (destruct (decide (n = name)); auto).
  - rewrite lookup_insert_ne by done. destruct v as [v|]; [|by apply IH].
    destruct (inherits n); [|by apply IH]. rewrite IH by done. by rewrite lookup_insert_ne.
  - rewrite lookup_insert_eq.
    assert ((list_to_map source : gmap jstring (option jstring)) !! n = None) as Hn' by (by apply not_elem_of_list_to_map_1).
    destruct v as [v|]; [destruct (inherits n)|]; rewrite IH, Hn' by done; [by rewrite lookup_insert_eq|done|done].
Qed.

(** The names of the allowlist are not secret-shaped. *)
Lemma allowlist_plain : forallb (fun n => negb (secret_shaped n)) ENV_ALLOWLIST = true.
Proof. reflexivity. Qed.

(** A child inherits only what it may. A variable reaches it exactly when the
    application added it, or when it is set here under a name that, in upper case, is on
    the allowlist or belongs to the locale family and is not shaped like a secret; an
    application's own value wins. In particular no variable of the parent whose name
    looks like a token, secret, key or password is inherited. *)
Theorem env_sanitized `{CaseMapping} source extra name value :
  NoDup source.*1 ->
  (sanitizedEnv source extra !! name = Some value <->
   extra !! name = Some value \/
   (extra !! name = None /\ (name, Some value) ∈ source /\
    (toUpperCase name ∈ ENV_ALLOWLIST \/ starts_with LOCALE_PREFIX (toUpperCase name) = true) /\
    secret_shaped (toUpperCase name) = false)) /\
  (secret_shaped (toUpperCase name) = true -> extra !! name = None -> sanitizedEnv source extra !! name = None).
Proof.
  intros Hnd. unfold sanitizedEnv. rewrite lookup_union, keep_variables_lookup, lookup_empty by done.
  assert ((name, Some value) ∈ source <-> (list_to_map source : gmap jstring (option jstring)) !! name = Some (Some value)) as ->
    by (by rewrite elem_of_list_to_map).
  unfold inherits. destruct (extra !! name) as [x|] eqn:Ex.
  { split; [|done]. destruct ((list_to_map source : gmap jstring (option jstring)) !! name) as [[v|]|]; cbn; try destruct (_ && _); naive_solver. }
  destruct ((list_to_map source : gmap jstring (option jstring)) !! name) as [[v|]|] eqn:Es; [|naive_solver..].
  destruct (bool_decide_reflect (toUpperCase name ∈ ENV_ALLOWLIST)), (starts_with LOCALE_PREFIX (toUpperCase name)),
    (secret_shaped (toUpperCase name)); cbn; naive_solver.
Qed.

(** ** The tail keeps the end *)

Lemma append_tail limit written chunk :
  0 <= limit ->
  append chunk {| bt_limit := limit; bt_bytes := drop (length written - Z.to_nat limit) written |} =
  {| bt_limit := limit; bt_bytes := drop (length (written ++ chunk) - Z.to_nat limit) (written ++ chunk) |}.
Proof.
  intros Hl. unfold append. cbn [bt_bytes bt_limit]. f_equal.
  assert (drop (length written - Z.to_nat limit) written ++ chunk = drop (length written - Z.to_nat limit) (written ++ chunk)) as ->
    by (by rewrite drop_app_le by lia).
  unfold zlen. rewrite length_drop, length_app.
  destruct (Z.leb_spec (Z.of_nat (length written + length chunk - (length written - Z.to_nat limit))) limit).
  - f_equal. lia.
  - rewrite drop_drop. f_equal. lia.
Qed.

(** The tail of a child's diagnostics is exactly the last bytes it wrote, as many as the
    limit allows, however they were cut into chunks; it never holds more than the limit. *)
Theorem tail_keeps_last limit chunks :
  0 <= limit ->
  let t := fold_left (fun t c => append c t) chunks {| bt_limit := limit; bt_bytes := [] |} in
  bt_bytes t = drop (length (concat chunks) - Z.to_nat limit) (concat chunks) /\ zlen (bt_bytes t) <= limit.
Proof.
  intros Hl t.
  assert (t = {| bt_limit := limit; bt_bytes := drop (length (concat chunks) - Z.to_nat limit) (concat chunks) |}) as ->.
  { unfold t. clear t. induction chunks as [|c chunks IH] using rev_ind; [done|].
    rewrite fold_left_app, IH. cbn [fold_left]. rewrite append_tail by done. rewrite concat_app. cbn [concat]. by rewrite app_nil_r. }
  cbn. split; [done|]. unfold zlen. rewrite length_drop. lia.
Qed.

(** ** The escalation *)

Definition kills (evs : list launcher_effect) : list (option jstring) :=
  omap (fun e => match e with LaKill s => Some s | _ => None end) evs.

Lemma kills_app a b : kills (a ++ b) = kills a ++ kills b.
Proof. apply omap_app. Qed.
Lemma kills_stream evs : kills (map LaStream evs) = [].
Proof. by induction evs. Qed.

(** What the escalation looks at. *)
Definition view (la : launcher) : option escalation * option ExitStatus := (la_termination la, la_exit la).

Definition start_view (v : option escalation * option ExitStatus) : option escalation * option ExitStatus :=
  match v.1, v.2 with
  | Some _, _ => v
  | None, Some st => (Some (Ended (Some st)), v.2)
  | None, None => (Some AwaitStdinEnd, v.2)
  end.

Definition settle_view (st : ExitStatus) (v : option escalation * option ExitStatus) : option escalation * option ExitStatus :=
  match v.2 with
  | Some _ => v
  | None => (match v.1 with None => None | Some (Ended r) => Some (Ended r) | Some _ => Some (Ended (Some st)) end, Some st)
  end.

Lemma start_termination_view w la :
  view (start_termination w la).1 = start_view (view la) /\ kills (start_termination w la).2 = [] /\
  la_child (start_termination w la).1 = la_child la /\ la_graces (start_termination w la).1 = la_graces la.
Proof.
  unfold start_termination, start_view, view. destruct (la_termination la) eqn:Et; [cbn; by rewrite Et|].
  destruct (handle_step _ _ _) as [h evs]. unfold wait_over. cbn [la_exit la_termination with_termination with_handle fst snd].
  rewrite kills_app, kills_stream. destruct (la_exit la) eqn:Ex; cbn; rewrite ?Ex; (split; [done|]);
    (split; [by repeat case_match|done]).
Qed.

Lemma settle_exit_view st la :
  view (settle_exit st la) = settle_view st (view la) /\ la_child (settle_exit st la) = la_child la.
Proof.
  unfold settle_exit, settle_view, view, wait_over. destruct (la_exit la) eqn:Ex; cbn; rewrite ?Ex; [done|].
  destruct (la_termination la) as [[]|] eqn:Et; cbn; rewrite ?Et; done.
Qed.

Lemma drive_handle_view w i la :
  (view (drive_handle w i la).1 = view la \/ view (drive_handle w i la).1 = start_view (view la)) /\
  kills (drive_handle w i la).2 = [] /\ la_child (drive_handle w i la).1 = la_child la.
Proof.
  unfold drive_handle. destruct (handle_step w i (la_handle la)) as [h evs]. destruct (told_closed evs).
  - destruct (start_termination_view w (with_handle h la)) as (Hv & Hk & Hc & _).
    destruct (start_termination w (with_handle h la)) as [la' more]. cbn [fst snd] in *.
    rewrite kills_app, kills_stream, Hk. auto.
  - cbn [fst snd]. rewrite kills_stream. auto.
Qed.

Lemma drive_handle_stays w i la :
  la_child (drive_handle w i la).1 = la_child la /\ kills (drive_handle w i la).2 = [] /\
  (view (drive_handle w i la).1 = view la \/ view (drive_handle w i la).1 = start_view (view la)).
Proof. destruct (drive_handle_view w i la) as (? & ? & ?). auto. Qed.

(** Each input but the grace timer leaves the view, starts the escalation or settles the exit. *)
Lemma launcher_step_view windows w i la :
  la_child (launcher_step windows w i la).1 = la_child la /\
  match i with
  | LGrace gone => launcher_step windows w i la = grace_elapsed windows gone la
  | LExit _ | LError _ =>
      kills (launcher_step windows w i la).2 = [] /\
      (view (launcher_step windows w i la).1 = view la \/
       la_child la = true /\ exists st v, (v = view la \/ v = start_view (view la)) /\
         view (launcher_step windows w i la).1 = settle_view st v)
  | _ =>
      kills (launcher_step windows w i la).2 = [] /\
      (view (launcher_step windows w i la).1 = view la \/ view (launcher_step windows w i la).1 = start_view (view la))
  end.
Proof.
  destruct i as [i|st|e|c| | |gone|ms].
  - destruct i as [| | | | | | | |op]; try by apply drive_handle_stays. destruct op as [| code reason| | | |]; try by apply drive_handle_stays.
    cbn [launcher_step]. destruct (drive_handle_view w (SOp (OpClose code reason)) la) as (Hv & Hk & Hc).
    destruct (drive_handle _ _ la) as [la1 e1]. destruct (start_termination_view w la1) as (Hv1 & Hk1 & Hc1 & _).
    destruct (start_termination w la1) as [la2 e2]. cbn [fst snd] in *. rewrite kills_app, Hk, Hk1, Hc1, Hc.
    split; [done|]. split; [done|]. right. rewrite Hv1. destruct Hv as [-> | ->]; [done|].
    unfold start_view. destruct (view la) as [[t|] [x|]]; done.
  - cbn [launcher_step]. destruct (la_child la) eqn:Ec; cbn [fst snd]; [|by auto].
    destruct (settle_exit_view st la) as [Hv Hc]. split; [congruence|]. split; [done|]. right. split; [done|]. eauto.
  - cbn [launcher_step]. destruct (la_child la) eqn:Ec; cbn [negb fst snd]; [|by auto].
    set (la0 := with_tail _ _). assert (view la0 = view la /\ la_child la0 = true) as [Hv0 Hc0].
    { unfold la0, refused. destruct (la_hasPid la), (la_spawnErrorCode la); done. }
    destruct (drive_handle_view w (SFailed (oe_message (withErrorCode e))) la0) as (Hv & Hk & Hc).
    destruct (drive_handle _ _ la0) as [la1 e1]. cbn [fst snd] in *.
    destruct (settle_exit_view no_status la1) as [Hv1 Hc1]. split; [congruence|]. split; [done|]. right. split; [done|].
    exists no_status, (view la1). rewrite Hv0 in Hv. auto.
  - cbn [launcher_step]. destruct (toBytes c); [|by auto]. destruct (la_child la) eqn:Ec; cbn; auto.
  - cbn [launcher_step]. destruct (la_child la) eqn:Ec; cbn [fst snd]; [by auto|].
    match goal with |- context [drive_handle w ?j la] => destruct (drive_handle_view w j la) as (? & ? & ?) end.
    split_and!; eauto; congruence.
  - cbn [launcher_step]. destruct (start_termination_view w la) as (? & ? & ? & _). by auto.
  - cbn [launcher_step]. split; [|done]. unfold grace_elapsed. destruct (la_child la) eqn:Ec; [|done].
    by destruct (la_termination la) as [[]|].
  - cbn [launcher_step fst snd]. unfold setTerminateGraceMs. destruct (resolveIntegerAtLeast _ _ _ _ _); cbn; [|by auto].
    by destruct (la_termination la) eqn:Et; auto.
Qed.

(** A wait is in progress only while the exit is unknown, and an escalation that ended
    with a status ended with the child's. *)
Definition view_ok (child : bool) (v : option escalation * option ExitStatus) : Prop :=
  match v.1 with
  | None | Some (Ended None) => True
  | Some (Ended (Some st)) => v.2 = Some st
  | Some _ => v.2 = None
  end /\ (child = false -> is_Some v.2).

Lemma start_view_ok child v : view_ok child v -> view_ok child (start_view v).
Proof. destruct v as [[t|] [x|]]; unfold view_ok; cbn; naive_solver. Qed.

Lemma settle_view_ok child st v : view_ok child v -> view_ok child (settle_view st v).
Proof. destruct v as [[[| | |[]]|] [x|]]; unfold view_ok; cbn; naive_solver eauto. Qed.

Lemma grace_view_ok windows gone la :
  view_ok (la_child la) (view la) -> view_ok (la_child la) (view (grace_elapsed windows gone la).1).
Proof.
  unfold grace_elapsed, view, view_ok. destruct (la_child la) eqn:Ec; [|done].
  destruct (la_termination la) as [[| | |[]]|] eqn:Et; cbn; rewrite ?Et; naive_solver.
Qed.

(** Runs a tactic in the case of an elapsed grace. *)
Ltac on_grace Hv tac := lazymatch type of Hv with _ = grace_elapsed _ _ _ => tac | _ => idtac end.

Lemma launcher_step_ok windows w i la :
  view_ok (la_child la) (view la) ->
  view_ok (la_child (launcher_step windows w i la).1) (view (launcher_step windows w i la).1).
Proof.
  intros Hok. destruct (launcher_step_view windows w i la) as [Hc Hv]. rewrite Hc.
  destruct i; on_grace Hv ltac:(rewrite Hv; by apply grace_view_ok);
    first [destruct Hv as [_ [-> | ->]] | destruct Hv as [_ [-> |(_ & st' & v & [-> | ->] & ->)]]];
    auto using start_view_ok, settle_view_ok.
Qed.

(** The exit status is settled once. *)
Lemma launcher_step_exit windows w i la st :
  la_exit la = Some st -> la_exit (launcher_step windows w i la).1 = Some st.
Proof.
  intros Hx. destruct (launcher_step_view windows w i la) as [_ Hv].
  assert (forall v, v = view la \/ v = start_view (view la) -> v.2 = Some st) as Hsv.
  { intros v [-> | ->]; [done|]. unfold start_view, view. cbn. rewrite Hx. by destruct (la_termination la). }
  change (la_exit (launcher_step windows w i la).1) with (view (launcher_step windows w i la).1).2.
  assert (forall st' v, v.2 = Some st -> (settle_view st' v).2 = Some st) as Hset by (intros ? [? ?] Hy; cbn in *; by rewrite Hy).
  destruct i;
    on_grace Hv ltac:(rewrite Hv; unfold grace_elapsed; destruct (la_child la); [by destruct (la_termination la) as [[]|]|done]);
    destruct Hv as [_ Hv]; first [by apply Hsv | destruct Hv as [-> |(_ & st' & v & Hor & ->)]; [done|apply Hset; by apply Hsv]].
Qed.

Lemma subscribe_view la :
  view (with_handle (handle_step open_pipe (SOp (OpOnClosed LAUNCHER)) (la_handle la)).1 la) = view la.
Proof. done. Qed.

Lemma spawnPort_view `{CaseMapping} spawnChild env o la :
  spawnPort spawnChild env o = Ok la -> la_termination la = None /\ (la_child la = false -> is_Some (la_exit la)).
Proof.
  unfold spawnPort. destruct (sw_argv o) as [|[|u c] args]; [done|done|]. intros E.
  apply bind_ok in E as (? & _ & E). apply bind_ok in E as (? & _ & E). apply bind_ok in E as (g & _ & E).
  destruct (spawnChild _) as [e|pid []].
  - apply bind_ok in E as (p & _ & E). injection E as <-. split; [|intros _; eexists];
      cbn -[withErrorCode handle_step]; unfold refused; cbn -[withErrorCode handle_step]; done.
  - apply bind_ok in E as (sp & _ & [= <-]). done.
  - apply bind_ok in E as (p & _ & [= <-]). done.
Qed.

Lemma launcher_reachable_view windows la ins evs :
  launcher_reachable windows la ins evs -> view_ok (la_child la) (view la).
Proof.
  induction 1 as [? spawnChild env o la Hnew|w i la ins evs la' evs' _ IH Hstep].
  - destruct (spawnPort_view _ _ _ _ Hnew) as [Ht Hx]. unfold view_ok, view. rewrite Ht. done.
  - pose proof (launcher_step_ok windows w i la IH) as Hok. by rewrite Hstep in Hok.
Qed.

(** The launcher tells the truth about its child. The exit status settles once and never
    changes; [terminate] answers with a status only if that is how the child ended, and
    once the child has ended it answers with exactly that, however the escalation went. *)
Theorem exit_status_truthful windows la ins evs :
  launcher_reachable windows la ins evs ->
  (forall st, terminate_answer la = Some (Some st) -> la_exit la = Some st) /\
  (forall st, la_exit la = Some st -> la_termination la <> None -> terminate_answer la = Some (Some st)) /\
  (forall st w i, la_exit la = Some st -> la_exit (launcher_step windows w i la).1 = Some st).
Proof.
  intros [Hv _]%launcher_reachable_view. unfold terminate_answer. cbn in Hv. split_and!.
  - intros st. destruct (la_termination la) as [[| | |[]]|]; congruence.
  - intros st Hx Ht. destruct (la_termination la) as [[| | |[]]|]; congruence.
  - intros st w i. apply launcher_step_exit.
Qed.

(** ** It ends *)

Definition waits_left (la : launcher) : nat :=
  match la_termination la with
  | Some AwaitStdinEnd => 3
  | Some AwaitSigterm => 2
  | Some AwaitSigkill => 1
  | Some (Ended _) => 0
  | None => 4
  end.

Definition launcher_run (windows : bool) (script : list (writable_stream * launcher_input)) (la : launcher) : launcher :=
  fold_left (fun la '(w, i) => (launcher_step windows w i la).1) script la.

Definition graces_in (ins : list launcher_input) : nat :=
  length (omap (fun i => match i with LGrace _ => Some tt | _ => None end) ins).

Lemma start_view_started v : v.1 <> None -> start_view v = v.
Proof. destruct v as [[t|] x]; done. Qed.

Lemma launcher_step_waits windows w i la :
  la_child la = true -> la_termination la <> None ->
  la_termination (launcher_step windows w i la).1 <> None /\
  (waits_left (launcher_step windows w i la).1 <= waits_left la - graces_in [i])%nat.
Proof.
  intros Hc Ht. destruct (launcher_step_view windows w i la) as [_ Hv].
  assert (forall v st, v = view la \/ v = start_view (view la) ->
    (settle_view st v).1 <> None /\
    (match (settle_view st v).1 with Some AwaitStdinEnd => 3 | Some AwaitSigterm => 2 | Some AwaitSigkill => 1 | Some (Ended _) => 0 | None => 4 end <= waits_left la)%nat)
    as Hset.
  { intros v st Hor. assert (v = view la) as -> by (destruct Hor as [-> | ->]; [done|by apply start_view_started]).
    unfold settle_view, view, waits_left. cbn. destruct (la_exit la), (la_termination la) as [[]|]; cbn; try done; split; try done; lia. }
  unfold waits_left in *. change (la_termination (launcher_step windows w i la).1) with (view (launcher_step windows w i la).1).1.
  assert (start_view (view la) = view la) as Hsv by (by apply start_view_started).
  assert (graces_in [i] = match i with LGrace _ => 1 | _ => 0 end)%nat as -> by (by destruct i).
  destruct i; on_grace Hv ltac:(rewrite Hv; unfold grace_elapsed; rewrite Hc; destruct (la_termination la) as [[]|] eqn:Et; cbn; rewrite ?Et).
  all: try (split; first [done | lia | congruence]).
  all: rewrite Nat.sub_0_r; destruct Hv as [_ Hv].
  all: first [destruct Hv as [-> | ->] | destruct Hv as [-> |(_ & st' & v & Hor & ->)]; [|by apply Hset]].
  all: rewrite ?Hsv; split; [exact Ht|apply Nat.le_refl].
Qed.

Lemma graces_in_cons i ins : graces_in (i :: ins) = (graces_in [i] + graces_in ins)%nat.
Proof. by destruct i. Qed.

Lemma run_with_child windows script la :
  la_child la = true -> la_termination la <> None -> (waits_left la <= graces_in (map snd script))%nat ->
  is_Some (terminate_answer (launcher_run windows script la)).
Proof.
  revert la; induction script as [|[w i] script IH]; intros la Hc Ht Hw.
  - cbn in Hw. unfold launcher_run, terminate_answer, waits_left in *. cbn.
    destruct (la_termination la) as [[| | |[]]|]; first [lia | done].
  - cbn [launcher_run fold_left]. destruct (launcher_step_waits windows w i la Hc Ht) as [Ht' Hw'].
    apply IH; [by destruct (launcher_step_view windows w i la) as [-> _]|done|].
    cbn [map snd] in Hw. rewrite graces_in_cons in Hw. lia.
Qed.

Lemma started_stays windows w i la :
  la_child la = false -> la_termination la <> None -> la_termination (launcher_step windows w i la).1 <> None.
Proof.
  intros Hc Ht. destruct (launcher_step_view windows w i la) as [_ Hv].
  assert (start_view (view la) = view la) as Hsv by (by apply start_view_started).
  change (la_termination (launcher_step windows w i la).1) with (view (launcher_step windows w i la).1).1.
  destruct i; on_grace Hv ltac:(rewrite Hv; unfold grace_elapsed; by rewrite Hc);
    destruct Hv as [_ Hv]; first [destruct Hv as [-> | ->]; by rewrite ?Hsv | destruct Hv as [-> |(Hcc & _)]; [done|congruence]].
Qed.

Lemma run_without_child windows script la :
  la_child la = false -> la_termination la <> None -> view_ok (la_child la) (view la) ->
  is_Some (terminate_answer (launcher_run windows script la)).
Proof.
  revert la; induction script as [|[w i] script IH]; intros la Hc Ht Hok.
  - destruct Hok as [Hv Hx]. destruct (Hx Hc) as [st Hst]. unfold launcher_run, terminate_answer. cbn in *.
    destruct (la_termination la) as [[| | |[]]|]; try done; congruence.
  - cbn [launcher_run fold_left].
    apply IH; [by destruct (launcher_step_view windows w i la) as [-> _]|by apply started_stays|by apply launcher_step_ok].
Qed.

(** C40: [terminate] is never blocked by its child. From the moment the escalation has
    started, three elapsed graces, with whatever else happens in between, give it its
    answer: a child that ignores its input, SIGTERM and SIGKILL delays a shutdown and does
    not hold it. A child that was never created is answered at once. *)
Theorem termination_bounded windows script la ins evs :
  launcher_reachable windows la ins evs -> la_termination la <> None ->
  (la_child la = false \/ (3 <= graces_in (map snd script))%nat) ->
  is_Some (terminate_answer (launcher_run windows script la)).
Proof.
  intros Hr%launcher_reachable_view Ht Hcase. destruct (la_child la) eqn:Hc.
  - destruct Hcase as [|Hn]; [done|]. apply run_with_child; [done|done|].
    unfold waits_left. destruct (la_termination la) as [[]|]; [lia..|done].
  - apply run_without_child; [done|done|by rewrite Hc].
Qed.

(** ** In order *)

(** The handle of a launcher, and whether its port has ended. *)
Definition handle_ok (h : peer_handle) : Prop :=
  match h with OverPipes sp => sp_ok sp /\ turn_coming sp | Unspawned p => sink_ok p end.
Definition port_in (h : peer_handle) : ndjson_port := match h with OverPipes sp => sp_port sp | Unspawned p => p end.

Lemma handle_ok_sink h : handle_ok h -> sink_ok (port_in h).
Proof. destruct h as [sp|p]; [|done]. intros [Ho _]. apply (ok_sink _ Ho). Qed.

Lemma handle_step_ok w i h :
  handle_ok h ->
  handle_ok (handle_step w i h).1 /\
  (np_sinkEnded (port_in h) = true -> np_sinkEnded (port_in (handle_step w i h).1) = true).
Proof.
  destruct h as [sp|p]; cbn [handle_ok port_in handle_step].
  - intros [Ho Ht]. destruct (stream_step_log w i sp Ho Ht) as [Hl Ht'].
    destruct (stream_step w i sp) as [sp' evs]. cbn [fst snd handle_ok port_in] in *. split; [split; [apply Hl|done]|].
    rewrite <-(ok_stopped _ Ho), <-(ok_stopped _ (sl_ok _ _ _ Hl)). intros E. by apply (sl_closed _ _ _ Hl).
  - intros Hs. assert (forall j, sink_ok (port_step unspawnedSink j p).1 /\
      (np_sinkEnded p = true -> np_sinkEnded (port_step unspawnedSink j p).1 = true)) as Hj.
    { intros j. destruct (port_step_log unspawnedSink j p Hs) as [Hok Ha _]. split; [done|]. intros E. by apply Ha. }
    destruct i; cbn -[port_step]; try done;
      match goal with |- context [port_step _ ?j p] => specialize (Hj j); by destruct (port_step unspawnedSink j p) end.
Qed.

Lemma close_ends sink code reason p : sink_ok p -> np_sinkEnded (close sink code reason p).1 = true.
Proof.
  intros Hs. pose proof (close_log sink code reason p Hs) as [[_ Hok] Ha _].
  destruct (decide (np_state p = POpen)) as [Ho|Hn].
  - destruct (np_sinkEnded (close sink code reason p).1) eqn:E; [done|].
    assert (np_state (close sink code reason p).1 = POpen) as Hp by (by apply Hok). revert Hp. unfold close.
    rewrite decide_True by done. destruct (writeClose _ _ _ _) as [p1 e1] eqn:Ew.
    destruct (writeClose_shape sink code reason (set_phase PClosedByOwner (js "closed by this side with " ++ dec code) p))
      as (b & e & Hw & _). rewrite Ew in Hw. injection Hw as -> _.
    unfold endSink. cbn. by destruct (np_sinkEnded p).
  - apply Ha. destruct Hs as [_ Hso]. destruct (np_sinkEnded p); [done|]. by destruct Hn; apply Hso.
Qed.

Lemma handle_close_ends w code reason h :
  handle_ok h -> np_sinkEnded (port_in (handle_step w (SOp (OpClose code reason)) h).1) = true.
Proof.
  intros Hh. pose proof (handle_ok_sink h Hh) as Hs. destruct h as [sp|p]; cbn [handle_step stream_step port_in] in *.
  - unfold call_port. cbn [port_step apply_op]. pose proof (close_ends (writeTo w) code reason (sp_port sp) Hs) as He.
    destruct (close _ _ _ _) as [p evs]. cbn [fst] in *. rewrite He. done.
  - cbn [port_step apply_op]. pose proof (close_ends unspawnedSink code reason p Hs) as He.
    by destruct (close _ _ _ _) as [p' evs].
Qed.

(** An escalation that has started has ended the port. *)
Definition farewell_ok (la : launcher) : Prop :=
  handle_ok (la_handle la) /\ (la_termination la <> None -> np_sinkEnded (port_in (la_handle la)) = true).

Lemma farewell_ext la la' :
  la_handle la' = la_handle la -> (la_termination la' <> None -> la_termination la <> None) -> farewell_ok la -> farewell_ok la'.
Proof. intros E Ht [Hh He]. split; rewrite E; auto. Qed.

Lemma settle_exit_farewell st la : farewell_ok la -> farewell_ok (settle_exit st la).
Proof.
  unfold settle_exit, wait_over. destruct (la_exit la); [done|]. cbn.
  destruct (la_termination la) as [[]|] eqn:Et; apply farewell_ext; cbn; try done; by rewrite Et.
Qed.

Lemma start_termination_farewell w la : farewell_ok la -> farewell_ok (start_termination w la).1.
Proof.
  intros [Hh He]. unfold start_termination. destruct (la_termination la) eqn:Et; [by split; rewrite ?Et in *; auto|].
  pose proof (handle_close_ends w RELEASED (Some (js "launcher terminating")) (la_handle la) Hh) as Hc.
  destruct (handle_step_ok w (SOp (OpClose RELEASED (Some (js "launcher terminating")))) (la_handle la) Hh) as [Hok _].
  destruct (handle_step _ _ _) as [h evs]. cbn [fst] in *. unfold wait_over. cbn.
  destruct (la_exit la); split; cbn; auto.
Qed.

Lemma drive_handle_farewell w i la : farewell_ok la -> farewell_ok (drive_handle w i la).1.
Proof.
  intros [Hh He]. unfold drive_handle. destruct (handle_step_ok w i (la_handle la) Hh) as [Hok Hm].
  destruct (handle_step w i (la_handle la)) as [h evs]. cbn [fst] in *.
  assert (farewell_ok (with_handle h la)) as Hf by (split; cbn; auto). destruct (told_closed evs); [|done].
  pose proof (start_termination_farewell w _ Hf). by destruct (start_termination w (with_handle h la)).
Qed.

Lemma launcher_step_farewell windows w i la : farewell_ok la -> farewell_ok (launcher_step windows w i la).1.
Proof.
  intros Hf. destruct i as [i|st|e|c| | |gone|ms]; cbn [launcher_step].
  - assert (farewell_ok (drive_handle w i la).1) as Hd by (by apply drive_handle_farewell).
    destruct i as [| | | | | | | |op]; try done. destruct op as [| code reason| | | |]; try done.
    destruct (drive_handle _ _ la) as [la1 e1]. pose proof (start_termination_farewell w la1 Hd).
    by destruct (start_termination w la1).
  - destruct (la_child la); [by apply settle_exit_farewell|done].
  - destruct (la_child la); [|done]. cbn [negb]. set (la0 := with_tail _ _).
    assert (farewell_ok la0) as Hla0.
    { unfold la0, refused. destruct (la_hasPid la), (la_spawnErrorCode la); by apply (farewell_ext la). }
    pose proof (drive_handle_farewell w (SFailed (oe_message (withErrorCode e))) la0 Hla0) as Hd.
    destruct (drive_handle _ _ la0) as [la1 e1]. by apply settle_exit_farewell.
  - destruct (toBytes c); [|done]. destruct (la_child la); [by apply (farewell_ext la)|done].
  - destruct (la_child la); [done|by apply drive_handle_farewell].
  - by apply start_termination_farewell.
  - unfold grace_elapsed. destruct (la_child la); [|done].
    destruct (la_termination la) as [[]|] eqn:Et; try done; apply (farewell_ext la); cbn; try done; by rewrite Et.
  - unfold setTerminateGraceMs. destruct (resolveIntegerAtLeast _ _ _ _ _); cbn; [|done].
    destruct (la_termination la); [done|by apply (farewell_ext la)].
Qed.

Lemma spawnPort_farewell `{CaseMapping} spawnChild env o la : spawnPort spawnChild env o = Ok la -> farewell_ok la.
Proof.
  intros Hs. destruct (spawnPort_view _ _ _ _ Hs) as [Ht _]. split; [|by rewrite Ht]. revert Hs. clear Ht.
  unfold spawnPort. destruct (sw_argv o) as [|[|u c] args]; [done|done|]. intros E.
  apply bind_ok in E as (? & _ & E). apply bind_ok in E as (? & _ & E). apply bind_ok in E as (g & _ & E).
  assert (forall limit p, as_failure (newNdjsonPort limit) = Ok p -> sink_ok p) as Hp.
  { intros limit p. unfold as_failure, catch. destruct (newNdjsonPort limit) as [q|] eqn:Eq; [|done]. intros [= <-].
    by destruct (newNdjsonPort_ok _ _ Eq). }
  assert (forall h l, handle_ok h -> handle_ok (handle_step open_pipe (SOp (OpOnClosed l)) h).1) as Hsub
    by (intros h l Hh; by apply handle_step_ok).
  destruct (spawnChild _) as [e|pid []].
  - apply bind_ok in E as (p & Hnew%Hp & E). injection E as <-. exact Hnew.
  - apply bind_ok in E as (sp & Hnew & [= <-]). cbn [la_handle with_handle]. apply (Hsub (OverPipes sp)). cbn.
    unfold as_failure, catch in Hnew. destruct (createStreamPort _ _) as [q|] eqn:Eq; [|done]. injection Hnew as <-.
    by destruct (createStreamPort_ok _ _ _ Eq) as (? & ? & _).
  - apply bind_ok in E as (p & Hnew%Hp & [= <-]). cbn [la_handle with_handle]. by apply (Hsub (Unspawned p)).
Qed.

(** The signal of a step, as the platform names it. *)
Definition signal_of (windows : bool) (signal : jstring) : option jstring := if windows then None else Some signal.

Definition kills_ok (windows : bool) (t : option escalation) (ks : list (option jstring)) (graces : nat) : Prop :=
  (length ks <= graces)%nat /\
  match t with
  | None | Some AwaitStdinEnd => ks = []
  | Some AwaitSigterm => ks `sublist_of` [signal_of windows SIGTERM]
  | Some AwaitSigkill | Some (Ended _) => ks `sublist_of` [signal_of windows SIGTERM; signal_of windows SIGKILL]
  end.

Lemma kills_ok_view windows (v v' : option escalation * option ExitStatus) ks n m :
  kills_ok windows v.1 ks n -> (n <= m)%nat ->
  (v' = v \/ v' = start_view v \/ exists st, v' = settle_view st v \/ v' = settle_view st (start_view v)) ->
  kills_ok windows v'.1 ks m.
Proof.
  intros [Hl Hk] Hm Hv. split; [lia|].
  destruct v as [[[| | |r]|] [x|]]; destruct Hv as [-> |[-> |(st & [-> | ->])]]; cbn in *; subst; try done;
    auto using sublist_nil_l, sublist_inserts_r, sublist_cons; try (by apply sublist_nil_l);
    by apply (sublist_inserts_r [signal_of windows SIGKILL]) in Hk.
Qed.

Lemma grace_kills windows gone la ks n :
  kills_ok windows (la_termination la) ks n ->
  kills_ok windows (la_termination (grace_elapsed windows gone la).1) (ks ++ kills (grace_elapsed windows gone la).2) (S n).
Proof.
  intros [Hl Hk]. unfold grace_elapsed, kill. fold (signal_of windows SIGTERM) (signal_of windows SIGKILL).
  assert (kills_ok windows (la_termination la) (ks ++ []) (S n)) as Hsame by (rewrite app_nil_r; split; [lia|done]).
  destruct (la_child la); [|exact Hsame].
  destruct (la_termination la) as [[| | |r]|] eqn:Et; cbn [fst snd la_termination with_termination]; rewrite ?Et; try exact Hsame.
  - subst ks. destruct gone; (split; [cbn [kills omap list_omap app length]; lia|]); [apply sublist_nil_l|reflexivity].
  - destruct gone.
    + split; [by destruct Hsame|]. rewrite app_nil_r. by apply (sublist_inserts_r [signal_of windows SIGKILL]) in Hk.
    + change (kills [LaKill (signal_of windows SIGKILL)]) with [signal_of windows SIGKILL].
      split; [rewrite length_app; cbn [length]; lia|].
      apply (sublist_app ks [signal_of windows SIGTERM] [_] [signal_of windows SIGKILL]); [done|reflexivity].
Qed.

Lemma graces_in_app a b : graces_in (a ++ b) = (graces_in a + graces_in b)%nat.
Proof. unfold graces_in. by rewrite omap_app, length_app. Qed.

Lemma launcher_reachable_kills windows la ins evs :
  launcher_reachable windows la ins evs -> kills_ok windows (la_termination la) (kills evs) (graces_in ins) /\ farewell_ok la.
Proof.
  induction 1 as [? spawnChild env o la Hnew|w i la ins evs la' evs' _ [IH Hf] Hstep].
  - split; [|by eapply spawnPort_farewell]. destruct (spawnPort_view _ _ _ _ Hnew) as [-> _]. done.
  - pose proof (launcher_step_farewell windows w i la Hf) as Hf'. rewrite Hstep in Hf'. split; [|done].
    destruct (launcher_step_view windows w i la) as [_ Hv]. rewrite Hstep in Hv. cbn [fst snd] in Hv.
    rewrite kills_app, graces_in_app.
    assert (forall ks m, ks = [] -> (view la' = view la \/ view la' = start_view (view la) \/
      exists st, view la' = settle_view st (view la) \/ view la' = settle_view st (start_view (view la))) ->
      kills_ok windows (la_termination la') (kills evs ++ ks) (graces_in ins + m)) as Hstay.
    { intros ks m -> Hor. rewrite app_nil_r. apply (kills_ok_view windows (view la) (view la') _ (graces_in ins)); [done|lia|done]. }
    destruct i; on_grace Hv ltac:(idtac).
    all: try (destruct Hv as [Hk [Hv|Hv]]; [apply Hstay; auto|apply Hstay; auto; destruct Hv as (_ & st' & v & [-> | ->] & ->); eauto]).
    all: try (destruct Hv as [Hk Hv]; apply Hstay; [done|naive_solver]).
    cbn [launcher_step] in Hstep. pose proof (grace_kills windows gone la _ _ IH) as Hg. rewrite Hstep in Hg.
    by rewrite Nat.add_1_r.
Qed.

(** A child is ended gently first. Whatever happens around it, a launcher sends at most
    SIGTERM and then SIGKILL, each at most once, never before the port has been closed (which
    told the child why and ended its input), and each only after a grace of its own has
    elapsed. On Windows both are a plain termination. *)
Theorem termination_escalates windows la ins evs :
  launcher_reachable windows la ins evs ->
  kills evs `sublist_of` [signal_of windows SIGTERM; signal_of windows SIGKILL] /\
  (length (kills evs) <= graces_in ins)%nat /\
  (kills evs <> [] -> la_termination la <> None /\ np_state (port_in (la_handle la)) <> POpen) /\
  (la_termination la <> None -> np_state (port_in (la_handle la)) <> POpen).
Proof.
  intros [[Hl Hk] [Hh He]]%launcher_reachable_kills.
  assert (la_termination la <> None -> np_state (port_in (la_handle la)) <> POpen) as Hclosed.
  { intros Ht Ho. specialize (He Ht). apply (proj2 (handle_ok_sink _ Hh)) in Ho. congruence. }
  split_and!; [|done| |done].
  - destruct (la_termination la) as [[]|]; try done; try (rewrite Hk; apply sublist_nil_l).
    by apply (sublist_inserts_r [signal_of windows SIGKILL]) in Hk.
  - intros Hne. assert (la_termination la <> None) as Ht by (intros E; rewrite E in Hk; done). auto.
Qed.

End Launcher.

(** ** A runtime that will not leave *)

#[local] Existing Instance conforming_checker.
#[local] Existing Instance plain_engine.

Definition ascii_upper (s : jstring) : jstring := map (fun u => if (97 <=? u) && (u <=? 122) then u - 32 else u) s.
Definition ascii_case : CaseMapping := {| toUpperCase := ascii_upper; upper_ascii := fun s _ => eq_refl |}.
#[local] Existing Instance ascii_case.

Definition parent_env : list (jstring * option jstring) :=
  [(js "Path", Some (js "/bin")); (js "LC_ALL", Some (js "C")); (js "LC_API_KEY", Some (js "k"));
   (js "GITHUB_TOKEN", Some (js "t")); (js "HOME", None)].

Lemma env_sanitized_witness :
  sanitizedEnv parent_env {[js "MANGO_TOKEN" := js "m"]} !! js "Path" = Some (js "/bin") /\
  sanitizedEnv parent_env {[js "MANGO_TOKEN" := js "m"]} !! js "LC_API_KEY" = None.
Proof.
  assert (NoDup parent_env.*1) as Hnd by (apply (bool_decide_unpack _); vm_compute; exact I). split.
  - vm_compute. reflexivity.
  - apply (proj2 (env_sanitized parent_env {[js "MANGO_TOKEN" := js "m"]} (js "LC_API_KEY") [] Hnd)); vm_compute; reflexivity.
Defined.

Lemma tail_keeps_last_witness :
  bt_bytes (fold_left (fun t c => append c t) [js "boot: "; js "config missing"] {| bt_limit := 7; bt_bytes := [] |}) = js "missing".
Proof.
  rewrite (proj1 (tail_keeps_last 7 [js "boot: "; js "config missing"] ltac:(lia))). vm_compute. reflexivity.
Defined.

Definition runtime_options : SpawnOptions :=
  {| sw_argv := [js "runtime"; js "--stdio"]; sw_cwd := None; sw_env := None; sw_maxFrameBytes := None;
     sw_stderrTailBytes := None; sw_terminateGraceMs := None; sw_killGraceMs := None;
     sw_exitGraceMs := Some (ANum (NInt 500)); sw_windowsHide := None |}.

Definition unborn : launcher :=
  {| la_child := false; la_hasPid := false; la_handle := Unspawned sample_port; la_tail := {| bt_limit := 0; bt_bytes := [] |};
     la_spawnErrorCode := None; la_exit := None; la_graces := {| terminateMs := 0; killMs := 0; exitMs := 0 |};
     la_terminateGraceMs := 0; la_termination := None |}.

Definition launched : launcher :=
  default unborn (ok_of (spawnPort (fun _ => SpawnedChild true true) parent_env runtime_options)).

Definition launcher_drive (ins : list launcher_input) : launcher * list launcher_effect :=
  fold_left (fun '(la, evs) i => let '(la', evs') := launcher_step false open_pipe i la in (la', evs ++ evs')) ins (launched, []).

Lemma launcher_drive_reachable ins : launcher_reachable false (launcher_drive ins).1 ins (launcher_drive ins).2.
Proof.
  induction ins as [|i ins IH] using rev_ind.
  - apply (launch_new false (fun _ => SpawnedChild true true) parent_env runtime_options). vm_compute. reflexivity.
  - unfold launcher_drive in *. rewrite fold_left_app. cbn [fold_left].
    destruct (fold_left _ ins (launched, [])) as [la evs]; cbn [fst snd] in *.
    destruct (launcher_step false open_pipe i la) as [la' evs'] eqn:E. by eapply launch_next.
Qed.

(** The owner closes the port, both signals go out, and the child exits late. *)
Definition stubborn : list launcher_input :=
  [LStream (SOp (OpClose RELEASED None)); LGrace false; LGrace false; LGrace false].
Definition late_exit : list launcher_input := stubborn ++ [LExit {| es_code := None; es_signal := Some SIGKILL |}].

Example stubborn_answers :
  terminate_answer (launcher_drive stubborn).1 = Some None /\
  terminate_answer (launcher_drive late_exit).1 = Some (Some {| es_code := None; es_signal := Some SIGKILL |}).
Proof. vm_compute. split; reflexivity. Qed.

Lemma termination_escalates_witness :
  kills (launcher_drive stubborn).2 = [Some SIGTERM; Some SIGKILL] /\
  np_state (port_in (la_handle (launcher_drive stubborn).1)) <> POpen.
Proof.
  assert (kills (launcher_drive stubborn).2 = [Some SIGTERM; Some SIGKILL]) as Hk by (vm_compute; reflexivity).
  split; [exact Hk|].
  destruct (termination_escalates false _ _ _ (launcher_drive_reachable stubborn)) as (_ & _ & Hp & _).
  apply Hp. rewrite Hk. discriminate.
Defined.

Lemma exit_status_truthful_witness :
  terminate_answer (launcher_drive late_exit).1 = Some (Some {| es_code := None; es_signal := Some SIGKILL |}).
Proof.
  destruct (exit_status_truthful false _ _ _ (launcher_drive_reachable late_exit)) as (_ & Ha & _).
  apply Ha; [vm_compute; reflexivity|vm_compute; discriminate].
Defined.

Lemma termination_bounded_witness :
  is_Some (terminate_answer (launcher_run false (map (pair open_pipe) [LGrace false; LStderr (CString (js "no")); LGrace true; LGrace true])
    (launcher_drive [LTerminate]).1)).
Proof.
  apply (termination_bounded false _ (launcher_drive [LTerminate]).1 [LTerminate] (launcher_drive [LTerminate]).2).
  - apply launcher_drive_reachable.
  - vm_compute. discriminate.
  - right. vm_compute. apply le_n.
Defined.
