(* ===== verification/Dial.v ===== *)
(** * Dialling

    [packages/protocol/src/transports/deadline.ts], the connecting half of
    [packages/protocol/src/transports/websocket-client.ts] and of
    [packages/protocol/src/transports/ipc.ts]: a connection attempt under the caller's
    abort signal and a timeout, settled once on whichever of its events comes first. *)

From S2P Require Import Prelude Utf8 Regex Json JsonFacts Wire Frames Ndjson Chunk Listeners Session NdjsonPort StreamPort WebSocketPort.

(** ** [deadline.ts] *)

(** A [timeoutMs] as it is written: a number with whether it is finite and positive, or another value. *)
Inductive timeout_value : Type :=
| TvNumber (finite positive : bool) (shown : jstring)
| TvOther (shown : jstring).

Definition shown_timeout (v : timeout_value) : jstring := match v with TvNumber _ _ s | TvOther s => s end.

(** [checkedTimeout]: the milliseconds as they render, or the message it throws. *)
Definition checked_timeout (timeoutMs : option timeout_value) : outcome jstring (option jstring) :=
  match timeoutMs with
  | None => Ok None
  | Some (TvNumber true true shown) => Ok (Some shown)
  | Some v => Err (js "timeoutMs is " ++ shown_timeout v ++
                   js "; expected a positive finite number of milliseconds, or none for no deadline")
  end.

(** The reason of an abort: an [Error], or anything else. *)
Inductive abort_cause : Type :=
| CauseError (name message : jstring)
| CauseOther.

Definition timeoutError (target ms : jstring) : abort_cause :=
  CauseError (js "TimeoutError")
    (js "The connection to " ++ target ++ js " timed out after " ++ ms ++ js " ms; expected the peer to accept it.").

(** What an attempt abandoned through its deadline rejects with: a name and a message. *)
Definition abortReason (target : jstring) (cause : abort_cause) : jstring * jstring :=
  match cause with
  | CauseError name m => (name, m)
  | CauseOther => (js "AbortError", js "The connection to " ++ target ++ js " was aborted.")
  end.

(** The composed signal: why it aborted, the timer that still runs, and whether the
    caller's signal is still listened to. *)
Record deadline : Type := { dl_cause : option abort_cause; dl_timer : option jstring; dl_forwarding : bool }.

(** The caller's [signal]: absent, or present and aborted or not. *)
Definition caller_signal : Type := option (option abort_cause).

Definition connectDeadline (signal : caller_signal) (timeoutMs : option timeout_value) : outcome jstring deadline :=
  ms ← checked_timeout timeoutMs;
  match signal with
  | Some (Some cause) => Ok {| dl_cause := Some cause; dl_timer := None; dl_forwarding := false |}
  | Some None => Ok {| dl_cause := None; dl_timer := ms; dl_forwarding := true |}
  | None => Ok {| dl_cause := None; dl_timer := ms; dl_forwarding := false |}
  end.

(** [dispose] *)
Definition dispose (d : deadline) : deadline := {| dl_cause := dl_cause d; dl_timer := None; dl_forwarding := false |}.

(** [controller.abort]: the first reason stays. The flag says whether this call aborted it. *)
Definition abort_deadline (cause : abort_cause) (d : deadline) : deadline * bool :=
  match dl_cause d with
  | Some _ => (d, false)
  | None => ({| dl_cause := Some cause; dl_timer := dl_timer d; dl_forwarding := dl_forwarding d |}, true)
  end.

(** The timer fires. *)
Definition deadline_passes (target : jstring) (d : deadline) : deadline * bool :=
  match dl_timer d with
  | None => (d, false)
  | Some ms => abort_deadline (timeoutError target ms) {| dl_cause := dl_cause d; dl_timer := None; dl_forwarding := dl_forwarding d |}
  end.

(** The caller's signal aborts; the listener runs once. *)
Definition caller_aborts (cause : abort_cause) (d : deadline) : deadline * bool :=
  if dl_forwarding d
  then abort_deadline cause {| dl_cause := dl_cause d; dl_timer := dl_timer d; dl_forwarding := false |}
  else (d, false).

(** ** One attempt

    What both connect functions share: [finish] runs its argument once, after the abort
    listener and the deadline are gone. [R] is what the promise resolves with. *)

(** [DialLost] is an attempt whose [settleWith] threw: the promise stays pending for good. *)
Inductive dial_outcome (R : Type) : Type :=
| DialPort (r : R)
| DialError (name message : jstring)
| DialLost.
Arguments DialPort {R} r.
Arguments DialError {R} name message.
Arguments DialLost {R}.

Record attempt (R : Type) : Type := {
  at_deadline : deadline;
  at_onAbort : bool;
  at_settled : option (dial_outcome R)
}.
Arguments at_deadline {R} a.
Arguments at_onAbort {R} a.
Arguments at_settled {R} a.

Definition new_attempt {R} (d : deadline) : attempt R := {| at_deadline := d; at_onAbort := true; at_settled := None |}.

(** [finish(settleWith)]: the flag says whether [settleWith] ran. *)
Definition finish {R} (r : dial_outcome R) (a : attempt R) : attempt R * bool :=
  match at_settled a with
  | Some _ => (a, false)
  | None => ({| at_deadline := dispose (at_deadline a); at_onAbort := false; at_settled := Some r |}, true)
  end.

(** An abort of the composed signal reaches [onAbort] while it listens (once). *)
Definition on_abort {R} (target : jstring) (fired : deadline * bool) (a : attempt R) : attempt R * bool :=
  let a' := {| at_deadline := fired.1; at_onAbort := at_onAbort a; at_settled := at_settled a |} in
  match fired.2 && at_onAbort a, dl_cause fired.1 with
  | true, Some cause =>
      let '(name, m) := abortReason target cause in
      finish (DialError name m) {| at_deadline := fired.1; at_onAbort := false; at_settled := at_settled a |}
  | _, _ => (a', false)
  end.

(** ** [connectWebSocket] *)

Section WebSocketClient.
Context `{TypeBox, JsonEngine}.
Variable url : jstring.
Variable sock : socket.

(** What a runtime puts in [event.data]: text, bytes in one of two shapes, or something
    else, described. *)
Inductive message_data : Type :=
| MText (characters : Z)
| MBuffer (b : bytes)
| MView (b : bytes)
| MOther (described : jstring).

(** [deliver]: the port's input for one message event. *)
Definition message_input (data : message_data) (react : ws_reaction) : ws_input :=
  match data with
  | MText n => WMessage (WText n) react
  | MBuffer b | MView b => WMessage (WBytes b) react
  | MOther d =>
      WSocketError (js "WebSocket message data is " ++ d ++ js "; expected a string, an ArrayBuffer or a typed array")
  end.

Record ws_dial : Type := { wd_attempt : attempt unit; wd_port : ws_port }.

Inductive dial_effect : Type :=
| DPortEffect (e : ws_effect)
| DSocketClose (code : Z) (reason : jstring)
| DSettled (r : dial_outcome unit).

(** The socket's events, the two ways the attempt is abandoned, and the use of the port. *)
Inductive ws_dial_input : Type :=
| DOpen (protocol : jstring)
| DClose (code : Z) (reason : jstring)
| DError
| DMessage (data : message_data) (react : ws_reaction)
| DTimer
| DCallerAbort (cause : abort_cause)
| DPort (i : ws_input).

Definition settles (r : dial_outcome unit) (before : list dial_effect) (a : attempt unit * bool) (p : ws_port)
    : ws_dial * list dial_effect :=
  ({| wd_attempt := a.1; wd_port := p |}, if a.2 then before ++ [DSettled r] else []).

(** What the attempt rejects with, once it has: for the effect of an abort. *)
Definition settled_with (a : attempt unit) : dial_outcome unit := default (DialError [] []) (at_settled a).

Definition abandon (a : attempt unit * bool) (p : ws_port) : ws_dial * list dial_effect :=
  settles (settled_with a.1) [DSocketClose RELEASED (js "dial aborted")] a p.

Definition ws_dial_step (i : ws_dial_input) (d : ws_dial) : ws_dial * list dial_effect :=
  let a := wd_attempt d in
  let through j := let '(p, evs) := ws_step sock j (wd_port d) in (p, map DPortEffect evs) in
  match i with
  | DOpen protocol =>
      if bool_decide (protocol = WEBSOCKET_SUBPROTOCOL) then settles (DialPort tt) [] (finish (DialPort tt) a) (wd_port d)
      else
        let r := DialError (js "Error") (js "WebSocket at " ++ url ++ js " selected subprotocol " ++ quote protocol ++
                   js "; expected " ++ quote WEBSOCKET_SUBPROTOCOL ++ js ".") in
        settles r [DSocketClose PROTOCOL_ERROR (js "subprotocol not selected")] (finish r a) (wd_port d)
  | DClose code reason =>
      let '(p, evs) := through (WSocketClosed code (Some reason)) in
      let r := DialError (js "Error") (js "WebSocket to " ++ url ++ js " closed with code " ++ dec code ++
                 match reason with [] => [] | _ => js ": " ++ reason end ++ js " before it opened.") in
      let '(d, more) := settles r [] (finish r a) p in (d, evs ++ more)
  | DError =>
      let '(p, evs) := through (WSocketError (js "the WebSocket reported an error; expected it to stay open")) in
      let r := DialError (js "Error") (js "WebSocket to " ++ url ++ js " failed before it opened.") in
      let '(d, more) := settles r [] (finish r a) p in (d, evs ++ more)
  | DMessage data react => let '(p, evs) := through (message_input data react) in ({| wd_attempt := a; wd_port := p |}, evs)
  | DTimer => abandon (on_abort url (deadline_passes url (at_deadline a)) a) (wd_port d)
  | DCallerAbort cause => abandon (on_abort url (caller_aborts cause (at_deadline a)) a) (wd_port d)
  | DPort j => let '(p, evs) := through j in ({| wd_attempt := a; wd_port := p |}, evs)
  end.

(** [connectWebSocket] up to the wait for an event: the attempt in progress, or what the
    promise rejected with, the deadline it leaves behind and whether a socket it created
    is left open. [created] is what the constructor throws, described. *)
Inductive ws_start : Type :=
| DialRefused (r : dial_outcome unit) (left : deadline) (leftOpen : bool)
| DialStarted (d : ws_dial) (evs : list ws_effect).

Definition no_deadline : deadline := {| dl_cause := None; dl_timer := None; dl_forwarding := false |}.

Definition connectWebSocket (signal : caller_signal) (timeoutMs : option timeout_value) (created : option jstring)
    (o : WebSocketPortOptions) : ws_start :=
  match connectDeadline signal timeoutMs with
  | Err m => DialRefused (DialError (js "Error") m) no_deadline false
  | Ok d =>
      match dl_cause d, created with
      | Some cause, _ => let '(name, m) := abortReason url cause in DialRefused (DialError name m) (dispose d) false
      | None, Some why =>
          DialRefused (DialError (js "Error") (js "WebSocket to " ++ url ++ js " could not be created: " ++ why)) (dispose d) false
      | None, None =>
          match createWebSocketPort sock o with
          | Err e => DialRefused (DialError (js "RangeError") (describe (exn_failure e))) d true
          | Ok (p, evs) => DialStarted {| wd_attempt := new_attempt d; wd_port := p |} evs
          end
      end
  end.

(** [webSocketPort] over a socket object in [readyState]. *)
Definition webSocketPort (readyState : Z) (o : WebSocketPortOptions) : outcome failure (ws_port * list ws_effect) :=
  if readyState =? 1 then match createWebSocketPort sock o with Ok r => Ok r | Err e => Err (exn_failure e) end
  else Err (FOther (js "WebSocket readyState is " ++ dec readyState ++ js "; expected OPEN (1).")).

Inductive ws_dialling : ws_dial -> list ws_dial_input -> list dial_effect -> Prop :=
| dialling_new signal timeoutMs created o d evs :
    connectWebSocket signal timeoutMs created o = DialStarted d evs -> ws_dialling d [] (map DPortEffect evs)
| dialling_next i d ins evs d' evs' :
    ws_dialling d ins evs -> ws_dial_step i d = (d', evs') -> ws_dialling d' (ins ++ [i]) (evs ++ evs').

End WebSocketClient.

(** ** [connectIpc] *)

Section LocalSocket.
Variable path : jstring.
Variable maxFrameBytes : option jsarg.

(** The socket's events: connected, an error with its name and message, and the two
    ways the attempt is abandoned. *)
Inductive ipc_dial_input : Type :=
| IConnect
| IError (name message : jstring)
| ITimer
| ICallerAbort (cause : abort_cause).

(** [IDiscard] is [discard(socket)]; [IUncaught] a throw out of the socket's own event. *)
Inductive ipc_dial_effect : Type :=
| IDiscard
| IUncaught (message : jstring)
| ISettled (r : dial_outcome stream_port).

Definition ipc_settles (before : list ipc_dial_effect) (a : attempt stream_port * bool)
    : attempt stream_port * list ipc_dial_effect :=
  match a.2, at_settled a.1 with
  | true, Some r => (a.1, before ++ [ISettled r])
  | _, _ => (a.1, [])
  end.

Definition ipcSocketPort : outcome exn stream_port :=
  createStreamPort true {| st_maxFrameBytes := maxFrameBytes; st_deferReads := false |}.

Definition ipc_dial_step (i : ipc_dial_input) (a : attempt stream_port) : attempt stream_port * list ipc_dial_effect :=
  match i with
  | IConnect =>
      match ipcSocketPort with
      | Ok sp => ipc_settles [] (finish (DialPort sp) a)
      | Err e =>
          let '(a, ran) := finish DialLost a in
          (a, if ran then [IUncaught (describe (exn_failure e))] else [])
      end
  | IError name m => ipc_settles [IDiscard] (finish (DialError name m) a)
  | ITimer => ipc_settles [IDiscard] (on_abort path (deadline_passes path (at_deadline a)) a)
  | ICallerAbort cause => ipc_settles [IDiscard] (on_abort path (caller_aborts cause (at_deadline a)) a)
  end.

(** [connectIpc] up to its wait; [refused] is what the dialler throws. *)
Definition connectIpc (signal : caller_signal) (timeoutMs : option timeout_value) (refused : option (jstring * jstring))
    : outcome (dial_outcome stream_port) (attempt stream_port) :=
  match connectDeadline signal timeoutMs with
  | Err m => Err (DialError (js "Error") m)
  | Ok d =>
      match dl_cause d, refused with
      | Some cause, _ => let '(name, m) := abortReason path cause in Err (DialError name m)
      | None, Some (name, m) => Err (DialError name m)
      | None, None => Ok (new_attempt d)
      end
  end.

Inductive ipc_dialling : attempt stream_port -> list ipc_dial_input -> list ipc_dial_effect -> Prop :=
| ipc_dialling_new signal timeoutMs refused a :
    connectIpc signal timeoutMs refused = Ok a -> ipc_dialling a [] []
| ipc_dialling_next i a ins evs a' evs' :
    ipc_dialling a ins evs -> ipc_dial_step i a = (a', evs') -> ipc_dialling a' (ins ++ [i]) (evs ++ evs').

End LocalSocket.

(** ** An attempt settles once and leaves nothing behind *)

Section Attempts.
Context {R : Type}.

(** An unsettled attempt is still listening and was not aborted; a settled one holds no
    timer and no listener. *)
Definition attempt_ok (a : attempt R) : Prop :=
  match at_settled a with
  | None => at_onAbort a = true /\ dl_cause (at_deadline a) = None
  | Some _ => at_onAbort a = false /\ dl_timer (at_deadline a) = None /\ dl_forwarding (at_deadline a) = false
  end.

Lemma finish_ok r (a : attempt R) :
  attempt_ok a -> attempt_ok (finish r a).1 /\ at_settled (finish r a).1 = Some (default r (at_settled a)) /\
  (finish r a).2 = match at_settled a with None => true | Some _ => false end.
Proof.
  unfold finish, attempt_ok. destruct (at_settled a) as [x|] eqn:E; intros Ha; cbn; rewrite ?E; done.
Qed.

(** The composed signal fires only while the attempt is unsettled. *)
Definition fires (fired : deadline * bool) (a : attempt R) : Prop :=
  if fired.2 then at_settled a = None /\ is_Some (dl_cause fired.1)
  else match at_settled a with
       | None => dl_cause fired.1 = None
       | Some _ => dl_timer fired.1 = None /\ dl_forwarding fired.1 = false
       end.

Lemma deadline_passes_fires target (a : attempt R) : attempt_ok a -> fires (deadline_passes target (at_deadline a)) a.
Proof.
  unfold attempt_ok, fires, deadline_passes, abort_deadline. destruct (at_settled a), (at_deadline a) as [[c|] [t|] f]; cbn; naive_solver eauto.
Qed.

Lemma caller_aborts_fires cause (a : attempt R) : attempt_ok a -> fires (caller_aborts cause (at_deadline a)) a.
Proof.
  unfold attempt_ok, fires, caller_aborts, abort_deadline. destruct (at_settled a), (at_deadline a) as [[c|] t []]; cbn; naive_solver eauto.
Qed.

Lemma on_abort_ok target fired (a : attempt R) :
  attempt_ok a -> fires fired a ->
  attempt_ok (on_abort target fired a).1 /\ (on_abort target fired a).2 = fired.2 /\
  (if fired.2 then exists name m, at_settled (on_abort target fired a).1 = Some (DialError name m)
   else at_settled (on_abort target fired a).1 = at_settled a).
Proof.
  unfold attempt_ok, fires, on_abort. destruct fired as [d []]; cbn [fst snd andb].
  - intros Ha [Hs [c Hc]]. rewrite Hs in Ha. destruct Ha as [-> _]. rewrite Hc.
    destruct (abortReason target c) as [name m]. unfold finish. rewrite Hs. cbn. split_and!; eauto.
  - intros Ha Hf. destruct (at_settled a) eqn:E; cbn; rewrite ?E; naive_solver.
Qed.

End Attempts.

Section WebSocketClientFacts.
Context `{TypeBox, JsonEngine}.
Variable url : jstring.
Variable sock : socket.

Definition settlements (evs : list dial_effect) : list (dial_outcome unit) :=
  omap (fun e => match e with DSettled r => Some r | _ => None end) evs.

Lemma settlements_app a b : settlements (a ++ b) = settlements a ++ settlements b.
Proof. apply omap_app. Qed.
Lemma settlements_port evs : settlements (map DPortEffect evs) = [].
Proof. by induction evs. Qed.

(** The promise before and after: settled at most once, and then for good. *)
Definition settle_log (a : attempt unit) (evs : list dial_effect) (a' : attempt unit) : Prop :=
  attempt_ok a' /\
  match at_settled a with
  | Some r => at_settled a' = Some r /\ settlements evs = []
  | None => settlements evs = match at_settled a' with Some r => [r] | None => [] end
  end.

Lemma settles_finish r before a p :
  attempt_ok a -> settlements before = [] ->
  settle_log a (settles r before (finish r a) p).2 (wd_attempt (settles r before (finish r a) p).1) /\
  at_settled (wd_attempt (settles r before (finish r a) p).1) = Some (default r (at_settled a)).
Proof.
  intros Ha Hb. destruct (finish_ok r a Ha) as (Hok & Hs & Hr). unfold settles, settle_log. cbn. rewrite Hs, Hr.
  destruct (at_settled a) as [x|]; [done|]. by rewrite settlements_app, Hb.
Qed.

(** An input that settles an attempt still open: an event of the socket, the armed timer or
    the forwarded abort of the caller. *)
Definition decides (i : ws_dial_input) (d : deadline) : bool :=
  match i with
  | DOpen _ | DClose _ _ | DError => true
  | DTimer => if dl_timer d then true else false
  | DCallerAbort _ => dl_forwarding d
  | _ => false
  end.

(** What one step does to the promise. *)
Definition dial_progress (i : ws_dial_input) (a : attempt unit) (evs : list dial_effect) (a' : attempt unit) : Prop :=
  settle_log a evs a' /\
  (at_settled a' = Some (DialPort tt) -> at_settled a = Some (DialPort tt) \/ i = DOpen WEBSOCKET_SUBPROTOCOL) /\
  (decides i (at_deadline a) = true -> at_settled a' <> None).

Lemma settles_progress i a p before evs0 r :
  attempt_ok a -> settlements before = [] -> settlements evs0 = [] ->
  (r = DialPort tt -> i = DOpen WEBSOCKET_SUBPROTOCOL) ->
  dial_progress i a (evs0 ++ (settles r before (finish r a) p).2) (wd_attempt (settles r before (finish r a) p).1).
Proof.
  intros Ha Hb He Hi. destruct (settles_finish r before a p Ha Hb) as [[Hok Hl] Hs].
  split_and!; [split; [done|]; by rewrite settlements_app, He| |by rewrite Hs].
  rewrite Hs. destruct (at_settled a) as [x|]; cbn; naive_solver.
Qed.

Lemma idle_progress i a evs :
  attempt_ok a -> settlements evs = [] -> decides i (at_deadline a) = false -> dial_progress i a evs a.
Proof.
  intros Ha He Hd. unfold dial_progress, settle_log. rewrite He, Hd. by destruct (at_settled a); split_and!; auto.
Qed.

Lemma abandon_progress i fired a p :
  attempt_ok a -> fires fired a -> (decides i (at_deadline a) = true -> dl_cause (at_deadline a) = None -> fired.2 = true) ->
  dial_progress i a (abandon (on_abort url fired a) p).2 (wd_attempt (abandon (on_abort url fired a) p).1).
Proof.
  intros Ha Hf Hd. destruct (on_abort_ok url fired a Ha Hf) as (Hok & Hr & Hs).
  unfold dial_progress, abandon, settles, settle_log, settled_with. cbn [fst snd wd_attempt]. rewrite Hr. unfold fires in Hf.
  unfold attempt_ok in Ha. destruct (fired.2).
  - destruct Hf as [Hn _], Hs as (name & m & Hs). rewrite Hn, Hs. by split_and!.
  - rewrite Hs. destruct (at_settled a) as [x|] eqn:E; [split_and!; auto|]. split_and!; [done|done|done|].
    destruct Ha as [_ Hc]. intros D. by specialize (Hd D Hc).
Qed.

Lemma ws_dial_step_progress i d :
  attempt_ok (wd_attempt d) ->
  dial_progress i (wd_attempt d) (ws_dial_step url sock i d).2 (wd_attempt (ws_dial_step url sock i d).1).
Proof.
  intros Ha. destruct i as [protocol|code reason| |data react| |cause|j]; unfold ws_dial_step.
  - case_bool_decide as Hp; [|rewrite <-(app_nil_l (snd _))]; [rewrite <-(app_nil_l (snd _))|];
      apply settles_progress; naive_solver.
  - destruct (ws_step _ _ _) as [p evs]. rewrite (surjective_pairing (settles _ _ _ _)). cbn [fst snd].
    apply settles_progress; try done. apply settlements_port.
  - destruct (ws_step _ _ _) as [p evs]. rewrite (surjective_pairing (settles _ _ _ _)). cbn [fst snd].
    apply settles_progress; try done. apply settlements_port.
  - destruct (ws_step _ _ _) as [p evs]. apply idle_progress; [done|apply settlements_port|done].
  - apply abandon_progress; [done|by apply deadline_passes_fires|].
    unfold decides, deadline_passes, abort_deadline. destruct (dl_timer _); [|done]. by intros _ ->.
  - apply abandon_progress; [done|by apply caller_aborts_fires|].
    unfold decides, caller_aborts, abort_deadline. intros -> Hc. cbn. by rewrite Hc.
  - destruct (ws_step _ _ _) as [p evs]. apply idle_progress; [done|apply settlements_port|done].
Qed.

Lemma connect_started signal timeoutMs created o d evs :
  connectWebSocket url sock signal timeoutMs created o = DialStarted d evs ->
  attempt_ok (wd_attempt d) /\ at_settled (wd_attempt d) = None.
Proof.
  unfold connectWebSocket, attempt_ok. destruct (connectDeadline signal timeoutMs) as [dl|] eqn:E; [|done].
  destruct (dl_cause dl) eqn:Hc; [by destruct (abortReason _ _)|]. destruct created; [done|].
  destruct (createWebSocketPort _ _) as [[p ev]|]; [|done]. by intros [= <- <-].
Qed.

(** A dial settles once and leaves nothing behind. Whatever the order of the socket's
    events, the timer, the caller's abort and the use of the port, the promise of
    [connectWebSocket] is settled at most once and never changes after; once it is, the timer
    is cleared, the caller's signal is no longer listened to and no abort listener stands; it
    resolved with a port only after the socket opened with the protocol's subprotocol; and an
    opening, a closing, an error, the armed timer or the forwarded abort each settle an attempt
    that is still open. *)
Theorem ws_dial_settles_once d ins evs :
  ws_dialling url sock d ins evs ->
  settlements evs = match at_settled (wd_attempt d) with Some r => [r] | None => [] end /\
  (forall r, at_settled (wd_attempt d) = Some r ->
     dl_timer (at_deadline (wd_attempt d)) = None /\ dl_forwarding (at_deadline (wd_attempt d)) = false /\
     at_onAbort (wd_attempt d) = false) /\
  (at_settled (wd_attempt d) = Some (DialPort tt) -> DOpen WEBSOCKET_SUBPROTOCOL ∈ ins) /\
  (forall i, decides i (at_deadline (wd_attempt d)) = true ->
     at_settled (wd_attempt (ws_dial_step url sock i d).1) <> None).
Proof.
  intros Hr.
  assert (attempt_ok (wd_attempt d) /\
    settlements evs = match at_settled (wd_attempt d) with Some r => [r] | None => [] end /\
    (at_settled (wd_attempt d) = Some (DialPort tt) -> DOpen WEBSOCKET_SUBPROTOCOL ∈ ins)) as (Hok & Hl & Hp).
  { induction Hr as [signal timeoutMs created o d evs Hc|i d ins evs d' evs' _ (Hok & Hl & Hp) Hs].
    - apply connect_started in Hc as [Hok Hn]. by rewrite Hn, settlements_port.
    - pose proof (ws_dial_step_progress i d Hok) as ((Hok' & Hlog) & Hport & _). rewrite Hs in *. cbn [fst snd] in *.
      split_and!; [done| |].
      + rewrite settlements_app, Hl. destruct (at_settled (wd_attempt d)) as [r|]; [|done]. by destruct Hlog as [-> ->].
      + intros Hx. rewrite elem_of_app, list_elem_of_singleton. destruct (Hport Hx) as [Hy| ->]; auto. }
  split_and!; [done| |done|intros i; apply (ws_dial_step_progress i d Hok)].
  intros r E. unfold attempt_ok in Hok. rewrite E in Hok. tauto.
Qed.

End WebSocketClientFacts.

Section LocalSocketFacts.
Variable path : jstring.
Variable maxFrameBytes : option jsarg.

Definition ipc_settlements (evs : list ipc_dial_effect) : list (dial_outcome stream_port) :=
  omap (fun e => match e with ISettled r => Some r | _ => None end) evs.

(** An input that settles an attempt still open. *)
Definition ipc_decides (i : ipc_dial_input) (d : deadline) : bool :=
  match i with
  | IConnect | IError _ _ => true
  | ITimer => if dl_timer d then true else false
  | ICallerAbort _ => dl_forwarding d
  end.

(** What one step does to the promise: [lost] is an attempt that ended without settling it. *)
Definition ipc_progress (i : ipc_dial_input) (a : attempt stream_port) (evs : list ipc_dial_effect)
    (a' : attempt stream_port) : Prop :=
  attempt_ok a' /\
  match at_settled a with
  | Some r => at_settled a' = Some r /\ evs = []
  | None => match at_settled a' with
            | None => evs = []
            | Some (DialPort sp) => evs = [ISettled (DialPort sp)] /\ i = IConnect
            | Some (DialError name m) => evs = [IDiscard; ISettled (DialError name m)]
            | Some DialLost => (exists m, evs = [IUncaught m]) /\ is_ok (ipcSocketPort maxFrameBytes) = false
            end
  end /\
  (ipc_decides i (at_deadline a) = true -> at_settled a' <> None).

Lemma ipc_abandon_progress i fired (a : attempt stream_port) :
  attempt_ok a -> fires fired a ->
  (ipc_decides i (at_deadline a) = true -> dl_cause (at_deadline a) = None -> fired.2 = true) ->
  ipc_progress i a (ipc_settles [IDiscard] (on_abort path fired a)).2 (ipc_settles [IDiscard] (on_abort path fired a)).1.
Proof.
  intros Ha Hf Hd. destruct (on_abort_ok path fired a Ha Hf) as (Hok & Hr & Hs).
  unfold ipc_progress, ipc_settles. rewrite Hr. unfold fires in Hf. unfold attempt_ok in Ha. destruct (fired.2).
  - destruct Hf as [Hn _], Hs as (name & m & Hs). rewrite Hn, Hs. cbn. rewrite Hs. by split_and!.
  - cbn. rewrite Hs. destruct (at_settled a) as [x|] eqn:E; [split_and!; auto|]. split_and!; [done|done|].
    destruct Ha as [_ Hc]. intros D. by specialize (Hd D Hc).
Qed.

Lemma ipc_dial_step_progress i a :
  attempt_ok a ->
  ipc_progress i a (ipc_dial_step path maxFrameBytes i a).2 (ipc_dial_step path maxFrameBytes i a).1.
Proof.
  intros Ha. destruct i as [|name m| |cause]; unfold ipc_dial_step.
  - destruct (ipcSocketPort maxFrameBytes) as [sp|e] eqn:E; unfold ipc_progress, ipc_settles, finish, attempt_ok in *;
      rewrite ?E; destruct (at_settled a) as [x|] eqn:Es; cbn; rewrite ?Es, ?E; cbn; eauto 10.
  - unfold ipc_progress, ipc_settles, finish, attempt_ok in *.
    destruct (at_settled a) as [x|] eqn:Es; cbn; rewrite ?Es; eauto 10.
  - apply ipc_abandon_progress; [done|by apply deadline_passes_fires|].
    unfold ipc_decides, deadline_passes, abort_deadline. destruct (dl_timer _); [|done]. by intros _ ->.
  - apply ipc_abandon_progress; [done|by apply caller_aborts_fires|].
    unfold ipc_decides, caller_aborts, abort_deadline. intros -> Hc. cbn. by rewrite Hc.
Qed.

(** A local dial settles once, destroys what it abandons and leaves nothing behind. With
    options a port can be built from, whatever the order of the connection, the socket's
    errors, the timer and the caller's abort, the promise of [connectIpc] settles at most once;
    a rejection has destroyed the socket first, a resolution keeps it and came from a
    connection; once settled no timer runs and no listener stands; and a connection, an error,
    the armed timer or the forwarded abort each settle an attempt that is still open. *)
Theorem ipc_dial_settles_once a ins evs :
  is_ok (ipcSocketPort maxFrameBytes) = true ->
  ipc_dialling path maxFrameBytes a ins evs ->
  match at_settled a with
  | None => evs = []
  | Some (DialPort sp) => evs = [ISettled (DialPort sp)] /\ IConnect ∈ ins
  | Some (DialError name m) => evs = [IDiscard; ISettled (DialError name m)]
  | Some DialLost => False
  end /\
  (forall r, at_settled a = Some r ->
     dl_timer (at_deadline a) = None /\ dl_forwarding (at_deadline a) = false /\ at_onAbort a = false) /\
  (forall i, ipc_decides i (at_deadline a) = true ->
     at_settled (ipc_dial_step path maxFrameBytes i a).1 <> None).
Proof.
  intros Hport Hr.
  assert (attempt_ok a /\
    match at_settled a with
    | None => evs = []
    | Some (DialPort sp) => evs = [ISettled (DialPort sp)] /\ IConnect ∈ ins
    | Some (DialError name m) => evs = [IDiscard; ISettled (DialError name m)]
    | Some DialLost => False
    end) as [Hok Hl].
  { induction Hr as [signal timeoutMs refused a Hc|i a ins evs a' evs' _ [Hok Hl] Hs].
    - unfold connectIpc in Hc. destruct (connectDeadline signal timeoutMs) as [dl|] eqn:E; [|done].
      destruct (dl_cause dl) eqn:Hd; [by destruct (abortReason _ _)|]. destruct refused as [[]|]; [done|].
      by injection Hc as <-.
    - pose proof (ipc_dial_step_progress i a Hok) as (Hok' & Hlog & _). rewrite Hs in *. cbn [fst snd] in *. split; [done|].
      destruct (at_settled a) as [r|]; [destruct Hlog as [-> ->]; rewrite app_nil_r; destruct r; set_solver|].
      subst evs. cbn [app]. destruct (at_settled a') as [[sp|name m|]|]; [|done| |done].
      + destruct Hlog as [-> ->]. split; [done|set_solver].
      + destruct Hlog as [_ Hbad]. by rewrite Hport in Hbad. }
  split_and!; [done| |intros i; apply (ipc_dial_step_progress i a Hok)].
  intros r E. unfold attempt_ok in Hok. rewrite E in Hok. tauto.
Qed.

End LocalSocketFacts.

(** ** Evaluated attempts *)

#[local] Existing Instance conforming_checker.
#[local] Existing Instance plain_engine.

Definition dial_options : WebSocketPortOptions :=
  {| wo_maxFrameBytes := None; wo_maxMessageBytes := None; wo_sendCloseFrame := None; wo_accept := None |}.
Definition quiet_socket : socket := {| sock_send _ _ := sent; sock_close _ _ := None |}.
Definition five_seconds : option timeout_value := Some (TvNumber true true (js "5000")).

Definition opened_late : list ws_dial_input := [DTimer; DOpen WEBSOCKET_SUBPROTOCOL; DCallerAbort CauseOther].

Fixpoint dial_run (url : jstring) (ins : list ws_dial_input) (d : ws_dial) : ws_dial * list dial_effect :=
  match ins with
  | [] => (d, [])
  | i :: rest => let '(d, evs) := ws_dial_step url quiet_socket i d in
                 let '(d, more) := dial_run url rest d in (d, evs ++ more)
  end.

Lemma dial_run_reachable url ins d done evs :
  ws_dialling url quiet_socket d done evs ->
  ws_dialling url quiet_socket (dial_run url ins d).1 (done ++ ins) (evs ++ (dial_run url ins d).2).
Proof.
  revert d done evs. induction ins as [|i ins IH]; intros d done evs Hr; cbn; [by rewrite !app_nil_r|].
  destruct (ws_dial_step _ _ _ _) as [d1 e1] eqn:E. specialize (IH d1 (done ++ [i]) (evs ++ e1)).
  destruct (dial_run url ins d1) as [d2 e2]. cbn in *. rewrite <-!app_assoc in IH. apply IH. by econstructor.
Qed.

(** The timer wins against an opening and an abort of the caller that come after it. *)
Lemma ws_dial_settles_once_witness :
  match connectWebSocket (js "ws://hub") quiet_socket (Some None) five_seconds None dial_options with
  | DialStarted d evs =>
      settlements (dial_run (js "ws://hub") opened_late d).2 =
        [DialError (js "TimeoutError")
           (js "The connection to ws://hub timed out after 5000 ms; expected the peer to accept it.")] /\
      settlements (map DPortEffect evs ++ (dial_run (js "ws://hub") opened_late d).2) =
        match at_settled (wd_attempt (dial_run (js "ws://hub") opened_late d).1) with Some r => [r] | None => [] end
  | DialRefused _ _ _ => False
  end.
Proof.
  destruct (connectWebSocket (js "ws://hub") quiet_socket (Some None) five_seconds None dial_options) as [r left open|d evs] eqn:E.
  - vm_compute in E. discriminate.
  - split.
    + assert (E' := E). vm_compute in E'. injection E' as <- <-. vm_compute. reflexivity.
    + exact (proj1 (ws_dial_settles_once (js "ws://hub") quiet_socket _ _ _
        (dial_run_reachable (js "ws://hub") opened_late d [] _ (dialling_new _ _ _ _ _ _ _ _ E)))).
Defined.

Definition ipc_raced : attempt stream_port * list ipc_dial_effect :=
  ipc_dial_step (js "/run/hub.sock") None (IError (js "Error") (js "ECONNREFUSED")) (new_attempt no_deadline).

Lemma ipc_dial_settles_once_witness :
  ipc_raced.2 = [IDiscard; ISettled (DialError (js "Error") (js "ECONNREFUSED"))] /\
  at_onAbort ipc_raced.1 = false.
Proof.
  split; [reflexivity|].
  refine (proj2 (proj2 (proj1 (proj2 (ipc_dial_settles_once (js "/run/hub.sock") None ipc_raced.1 [IError (js "Error") (js "ECONNREFUSED")]
    ([] ++ ipc_raced.2) _ (ipc_dialling_next _ _ _ (new_attempt no_deadline) [] [] _ _ (ipc_dialling_new _ _ None None None _ _) _)))
    (DialError (js "Error") (js "ECONNREFUSED")) _))); vm_compute; reflexivity.
Defined.

(** A frame ceiling below the floor is noticed after the socket and the deadline exist: the
    promise rejects, the timer keeps running and the socket stays open. *)
Example refused_port_leaves_socket :
  exists r dl, connectWebSocket (js "ws://hub") quiet_socket (Some None) five_seconds None
    {| wo_maxFrameBytes := Some (ANum (NInt 1)); wo_maxMessageBytes := None; wo_sendCloseFrame := None; wo_accept := None |}
    = DialRefused r dl true /\ dl_timer dl = Some (js "5000") /\ dl_forwarding dl = true.
Proof. eexists _, _. split; [vm_compute; reflexivity|by vm_compute]. Qed.

(** The same ceiling in [connectIpc] throws out of the socket's connect event: the attempt is
    over and its promise never settles. *)
Example refused_port_never_settles :
  match connectIpc (js "/run/hub.sock") None five_seconds None with
  | Ok a => let '(a', evs) := ipc_dial_step (js "/run/hub.sock") (Some (ANum (NInt 1))) IConnect a in
            ipc_settlements evs = [] /\ length evs = 1%nat /\ dl_timer (at_deadline a') = None /\ at_settled a' = Some DialLost
  | Err _ => False
  end.
Proof. by vm_compute. Qed.
