(* ===== verification/Ipc.v ===== *)
(** * Local sockets

    The listening half of [packages/protocol/src/transports/ipc.ts]: where a named
    endpoint lives, how its socket file is published without ever being open to another
    user, and the table of connections a listener serves. *)

From S2P Require Import Prelude Utf8 Regex Json JsonFacts Wire Frames Ndjson Listeners Session NdjsonPort StreamPort.

(** ** Paths

    What the module uses of [node:path] (POSIX): [join] and [dirname]. *)

Definition SLASH : Z := 47.
Definition BACKSLASH : Z := 92.

(** The segments of a path, empty ones included. *)
Fixpoint segments (s : jstring) : list jstring :=
  match s with
  | [] => [[]]
  | c :: rest =>
      if c =? SLASH then [] :: segments rest
      else match segments rest with
           | [] => [[c]]
           | x :: xs => (c :: x) :: xs
           end
  end.

(** One segment of [normalizeString]: [acc] holds the segments kept so far, last first. *)
Definition keep_segment (allowAboveRoot : bool) (acc : list jstring) (x : jstring) : list jstring :=
  if bool_decide (x = []) || bool_decide (x = js ".") then acc
  else if bool_decide (x = js "..") then
    match acc with
    | y :: rest => if bool_decide (y = js "..") then if allowAboveRoot then x :: acc else acc else rest
    | [] => if allowAboveRoot then [x] else []
    end
  else x :: acc.

Definition normal_segments (allowAboveRoot : bool) (s : jstring) : list jstring :=
  rev (fold_left (keep_segment allowAboveRoot) (segments s) []).

Fixpoint with_slashes (xs : list jstring) : jstring :=
  match xs with
  | [] => []
  | [x] => x
  | x :: rest => x ++ SLASH :: with_slashes rest
  end.

Definition isAbsolute (s : jstring) : bool := match s with c :: _ => c =? SLASH | [] => false end.
Definition endsInSlash (s : jstring) : bool := match last s with Some c => c =? SLASH | None => false end.

Definition normalize (s : jstring) : jstring :=
  match s with
  | [] => js "."
  | _ =>
      let body := with_slashes (normal_segments (negb (isAbsolute s)) s) in
      match body with
      | [] => if isAbsolute s then js "/" else if endsInSlash s then js "./" else js "."
      | _ => (if isAbsolute s then [SLASH] else []) ++ body ++ (if endsInSlash s then [SLASH] else [])
      end
  end.

(** [join(a, b)] *)
Definition path_join (a b : jstring) : jstring :=
  match a, b with
  | [], [] => js "."
  | [], _ => normalize b
  | _, [] => normalize a
  | _, _ => normalize (a ++ SLASH :: b)
  end.

(** The loop of [dirname], from the last unit to the second: where the parent ends. *)
Fixpoint dirname_scan (reversed : jstring) (matchedSlash : bool) : option nat :=
  match reversed with
  | [] => None
  | c :: rest =>
      match rest with
      | [] => None
      | _ => if c =? SLASH then if matchedSlash then dirname_scan rest true else Some (length rest)
             else dirname_scan rest false
      end
  end.

Definition dirname (s : jstring) : jstring :=
  match s with
  | [] => js "."
  | _ => match dirname_scan (rev s) true with
         | None => if isAbsolute s then js "/" else js "."
         | Some e => if isAbsolute s && (e =? 1)%nat then js "//" else take e s
         end
  end.

(** ** [ipcPath] *)

Fixpoint includes (needle s : jstring) : bool :=
  bool_decide (needle `prefix_of` s) || match s with [] => false | _ :: rest => includes needle rest end.

Definition assertIpcName (name : jstring) : outcome jstring unit :=
  if bool_decide (name = []) || includes [SLASH] name || includes [BACKSLASH] name || includes (js "..") name
  then Err (js "ipc name is " ++ quote name ++ js "; expected one non-empty path segment without " ++
            [34; SLASH; 34] ++ js ", " ++ [34; BACKSLASH; 34] ++ js " or " ++ [34; 46; 46; 34])
  else Ok tt.

(** [windows] is the platform, [runtimeDir] the environment's [XDG_RUNTIME_DIR]. *)
Definition ipcPath (windows : bool) (runtimeDir : option jstring) (tmpdir : jstring) (name : jstring)
    : outcome jstring jstring :=
  _ ← assertIpcName name;
  Ok (if windows then [BACKSLASH; BACKSLASH; 46; BACKSLASH] ++ js "pipe" ++ [BACKSLASH] ++ name
      else let directory := match runtimeDir with Some (c :: d) => c :: d | _ => tmpdir end in
           path_join directory (name ++ js ".sock")).

(** A name is accepted exactly when it is one segment. *)
Lemma includes_unit c s : includes [c] s = false <-> c ∉ s.
Proof.
  induction s as [|x s IH]; cbn [includes].
  - rewrite orb_false_r, bool_decide_eq_false. split; [by intros _ ?%elem_of_nil|]. by intros _ [? ?].
  - rewrite orb_false_iff, IH, bool_decide_eq_false, not_elem_of_cons. split; intros [A B]; split; auto.
    + intros ->. apply A. by exists s.
    + intros [k Hk]. injection Hk as -> _. done.
Qed.

Lemma segments_one s : SLASH ∉ s -> segments s = [s].
Proof.
  induction s as [|c s IH]; [done|]. rewrite not_elem_of_cons. intros [Hc Hs]. cbn.
  destruct (Z.eqb_spec c SLASH); [congruence|]. by rewrite IH.
Qed.

Lemma segments_nonempty s : segments s <> [].
Proof. destruct s as [|c s]; cbn; [done|]. destruct (c =? SLASH); [done|]. by destruct (segments s). Qed.

Lemma segments_app a b : segments (a ++ SLASH :: b) = segments a ++ segments b.
Proof.
  induction a as [|c a IH]; [done|]. cbn. rewrite IH. destruct (c =? SLASH); [done|].
  pose proof (segments_nonempty a). by destruct (segments a).
Qed.

Lemma with_slashes_nonempty xs x : x <> [] -> with_slashes (xs ++ [x]) <> [].
Proof. intros Hx. destruct xs as [|y [|z xs]]; [done|..]; cbn; by destruct y. Qed.

Lemma endsInSlash_plain a x : x <> [] -> SLASH ∉ x -> endsInSlash (a ++ x) = false.
Proof.
  intros Hx Hs. destruct (exists_last Hx) as (l & z & ->). unfold endsInSlash. rewrite app_assoc, last_snoc.
  apply Z.eqb_neq. set_solver.
Qed.

(** A plain segment joined to a directory is a file of that directory. *)
Lemma join_segment d x :
  d <> [] -> SLASH ∉ x -> x <> [] -> x <> js "." -> x <> js ".." ->
  path_join d x = (if isAbsolute d then [SLASH] else []) ++
             with_slashes (normal_segments (negb (isAbsolute d)) d ++ [x]).
Proof.
  intros Hd Hx H0 H1 H2. destruct d as [|c d]; [done|]. destruct x as [|u x]; [done|].
  unfold path_join, normalize. set (s := (c :: d) ++ SLASH :: u :: x).
  assert (isAbsolute s = isAbsolute (c :: d)) as Ha by done.
  assert (normal_segments (negb (isAbsolute s)) s =
          normal_segments (negb (isAbsolute (c :: d))) (c :: d) ++ [u :: x]) as Hn.
  { unfold normal_segments, s. rewrite segments_app, (segments_one _ Hx), fold_left_app. cbn [fold_left].
    unfold keep_segment at 1. by rewrite !bool_decide_eq_false_2 by done. }
  assert (endsInSlash s = false) as He.
  { unfold s. change (SLASH :: u :: x) with ([SLASH] ++ u :: x). rewrite app_assoc. by apply endsInSlash_plain. }
  unfold s at 1. cbn [app]. fold s. rewrite Hn, Ha, He, app_nil_r.
  destruct (with_slashes _) eqn:E; [|done]. by apply with_slashes_nonempty in E.
Qed.

(** Where a named endpoint lives: [Some] directory on POSIX, the pipe namespace on Windows. *)
Definition runtime_directory (runtimeDir : option jstring) (tmpdir : jstring) : jstring :=
  match runtimeDir with Some (c :: d) => c :: d | _ => tmpdir end.

Lemma assertIpcName_ok name :
  assertIpcName name = Ok tt <->
  name <> [] /\ SLASH ∉ name /\ BACKSLASH ∉ name /\ includes (js "..") name = false.
Proof.
  unfold assertIpcName. destruct (bool_decide (name = []) || _ || _ || _) eqn:E.
  - split; [done|]. intros (A & B%includes_unit & C%includes_unit & D).
    rewrite bool_decide_eq_false_2, B, C, D in E by done. done.
  - rewrite !orb_false_iff, bool_decide_eq_false in E. destruct E as [[[A B%includes_unit] C%includes_unit] D]. done.
Qed.

Lemma sock_suffix (name x : jstring) : (length x < 5)%nat -> name ++ js ".sock" <> x.
Proof. intros Hx <-. rewrite length_app in Hx. cbn in Hx. lia. Qed.

(** A named endpoint is one entry of its directory. [ipcPath] throws exactly for an empty
    name and for one with a slash, a backslash or two dots in a row; otherwise, on Windows, the
    pipe's name after the pipe prefix is the name itself, a single component; on POSIX the path
    has the segments of the runtime directory ([XDG_RUNTIME_DIR], else the temporary
    directory) followed by one segment, the name with its suffix. *)
Theorem ipc_path_confined runtimeDir tmpdir name :
  tmpdir <> [] ->
  let d := runtime_directory runtimeDir tmpdir in
  (is_ok (ipcPath false runtimeDir tmpdir name) = true <->
     name <> [] /\ SLASH ∉ name /\ BACKSLASH ∉ name /\ includes (js "..") name = false) /\
  is_ok (ipcPath true runtimeDir tmpdir name) = is_ok (ipcPath false runtimeDir tmpdir name) /\
  (forall p, ipcPath true runtimeDir tmpdir name = Ok p ->
     p = [BACKSLASH; BACKSLASH; 46; BACKSLASH] ++ js "pipe" ++ [BACKSLASH] ++ name /\ BACKSLASH ∉ name) /\
  (forall p, ipcPath false runtimeDir tmpdir name = Ok p ->
     p = (if isAbsolute d then [SLASH] else []) ++
         with_slashes (normal_segments (negb (isAbsolute d)) d ++ [name ++ js ".sock"]) /\
     segments (name ++ js ".sock") = [name ++ js ".sock"]).
Proof.
  intros Ht d. unfold ipcPath. pose proof (assertIpcName_ok name) as Hok.
  destruct (assertIpcName name) as [[]|m]; cbn [mbind outcome_bind is_ok]; [|naive_solver].
  destruct Hok as [Hok _]. destruct (Hok eq_refl) as (H0 & H1 & H2 & H3). fold d.
  assert (SLASH ∉ name ++ js ".sock") as Hs.
  { rewrite elem_of_app. intros [?|E]; [done|]. revert E. by vm_compute; set_solver. }
  split_and!; [done|done| |].
  - by intros p [= <-].
  - intros p [= <-]. fold d. split; [|by apply segments_one].
    apply join_segment; [|done|apply sock_suffix; cbn; lia..].
    unfold d, runtime_directory. by destruct runtimeDir as [[]|].
Qed.

Lemma ipc_path_confined_witness :
  ipcPath false (Some (js "/run/user/1000/")) (js "/tmp") (js "mango-hub") = Ok (js "/run/user/1000/mango-hub.sock") /\
  segments (js "mango-hub" ++ js ".sock") = [js "mango-hub" ++ js ".sock"].
Proof.
  split; [vm_compute; reflexivity|].
  exact (proj2 (proj2 (proj2 (proj2 (ipc_path_confined (Some (js "/run/user/1000/")) (js "/tmp") (js "mango-hub") ltac:(discriminate))))
    _ ltac:(vm_compute; reflexivity))).
Defined.
