(* ===== verification/IpcPublish.v ===== *)
(** * Publishing a local socket

    The address half of [listenIpc] in [packages/protocol/src/transports/ipc.ts]: the
    search for a private staging directory, the probe of an occupied path, and the
    sequence of system calls that makes a socket reachable only once it is owner-only. *)

From S2P Require Import Prelude Utf8 Regex Json JsonFacts Wire Frames Ndjson Listeners Session NdjsonPort StreamPort Ipc.

(** ** System calls

    The program awaits one call at a time; what the system answers is not its own. *)

Record fs_error : Type := { er_code : option jstring; er_message : jstring }.

(** [ProbeVerdict] *)
Inductive probe_outcome : Type := connected | refused | inconclusive.
Record ProbeVerdict : Type := { pv_outcome : probe_outcome; pv_reason : jstring }.

Inductive syscall : Type :=
| SysLstat (p : jstring)
| SysStat (p : jstring)
| SysRealpath (p : jstring)
| SysMkdtemp (prefix : jstring)
| SysRmdir (p : jstring)
| SysChmod (p : jstring) (mode : Z)
| SysListen (p : jstring)
| SysLink (existing new : jstring)
| SysCwd
| SysProbe (p : jstring)
| SysStop.

(** The type of a successful answer: whether it is a socket, a device, a path, a verdict. *)
Definition answer (c : syscall) : Type :=
  match c with
  | SysLstat _ => bool
  | SysStat _ => Z
  | SysRealpath _ | SysMkdtemp _ | SysCwd => jstring
  | SysProbe _ => ProbeVerdict
  | _ => unit
  end.

(** A program that awaits system calls. *)
Inductive prog (A : Type) : Type :=
| Done (a : A)
| Throws (e : fs_error)
| OutOfFuel
| Await (c : syscall) (k : outcome fs_error (answer c) -> prog A).
Arguments Done {A} a.
Arguments Throws {A} e.
Arguments OutOfFuel {A}.
Arguments Await {A} c k.

Fixpoint bind_prog {A B} (m : prog A) (f : A -> prog B) : prog B :=
  match m with
  | Done a => f a
  | Throws e => Throws e
  | OutOfFuel => OutOfFuel
  | Await c k => Await c (fun r => bind_prog (k r) f)
  end.

(** [await c], its rejection thrown on. *)
Definition await (c : syscall) : prog (answer c) :=
  Await c (fun r => match r with Ok a => Done a | Err e => Throws e end).

(** [try { m } catch (cause) { h(cause) }] *)
Fixpoint try_prog {A} (m : prog A) (h : fs_error -> prog A) : prog A :=
  match m with
  | Done a => Done a
  | Throws e => h e
  | OutOfFuel => OutOfFuel
  | Await c k => Await c (fun r => try_prog (k r) h)
  end.

Notation "x <~ m ;; k" := (bind_prog m (fun x => k)) (at level 100, m at next level, right associativity) : mango_scope.

(** What happened: each call with whether it succeeded, and what the answer said: the path it named or, of a look at a
    path that failed, the code of the error. *)
Inductive sys_event : Type := Called (c : syscall) (ok : bool) (said : jstring).

Definition answered (c : syscall) : outcome fs_error (answer c) -> jstring :=
  match c return outcome fs_error (answer c) -> jstring with
  | SysRealpath _ | SysMkdtemp _ | SysCwd => fun r => match r with Ok p => p | Err _ => [] end
  | SysLstat _ => fun r => match r with Ok _ => [] | Err e => default [] (er_code e) end
  | _ => fun _ => []
  end.

Inductive ended (A : Type) : Type := EndDone (a : A) | EndThrows (e : fs_error) | EndFuel.
Arguments EndDone {A} a.
Arguments EndThrows {A} e.
Arguments EndFuel {A}.

(** Every run, whatever the system answers. *)
Fixpoint runs {A} (m : prog A) (tr : list sys_event) (x : ended A) : Prop :=
  match m with
  | Done a => tr = [] /\ x = EndDone a
  | Throws e => tr = [] /\ x = EndThrows e
  | OutOfFuel => tr = [] /\ x = EndFuel
  | Await c k => exists r t, tr = Called c (is_ok r) (answered c r) :: t /\ runs (k r) t x
  end.

(** ** The operations *)

Section Publish.
(** [process.platform === 'linux'] *)
Variable linux : bool.

Definition UNIX_SOCKET_PATH_MAX_BYTES : Z := if linux then 107 else 103.
Definition SOCKET_MODE : Z := 384.
Definition STAGING_MODE : Z := 448.

Definition byteLength (s : jstring) : Z := zlen (utf8_encode s).

Definition occupiedPathError (path reason : jstring) : fs_error :=
  {| er_code := Some (js "EADDRINUSE");
     er_message := path ++ js ": " ++ reason ++ js "; path preserved; expected a free address" |}.

Definition verdict_name (o : probe_outcome) : jstring :=
  match o with connected => js "connected" | refused => js "refused" | inconclusive => js "inconclusive" end.

Definition probeError (code : option jstring) : ProbeVerdict :=
  {| pv_outcome := match code with
                   | Some c => if bool_decide (c = js "ECONNREFUSED") || bool_decide (c = js "ENOENT") then refused else inconclusive
                   | None => inconclusive
                   end;
     pv_reason := default (js "unknown error") code |}.

(** [probe]: the verdict so far, and whether its timer runs. [refusedWith] is the code of
    what the dialler throws. *)
Record probe_state : Type := { pr_timer : bool; pr_verdict : option ProbeVerdict }.

Inductive probe_input : Type := PrConnect | PrError (code : option jstring) | PrTimeout.

Definition probe_start (refusedWith : option (option jstring)) : probe_state :=
  match refusedWith with
  | Some code => {| pr_timer := false; pr_verdict := Some (probeError code) |}
  | None => {| pr_timer := true; pr_verdict := None |}
  end.

(** Its [finish]: the flag says that the socket was discarded. *)
Definition probe_finish (v : ProbeVerdict) (s : probe_state) : probe_state * bool :=
  match pr_verdict s with
  | Some _ => (s, false)
  | None => ({| pr_timer := false; pr_verdict := Some v |}, true)
  end.

Definition probe_step (i : probe_input) (s : probe_state) : probe_state * bool :=
  match i with
  | PrConnect => probe_finish {| pv_outcome := connected; pv_reason := js "connection established" |} s
  | PrError code => probe_finish (probeError code) s
  | PrTimeout => if pr_timer s then probe_finish {| pv_outcome := inconclusive; pv_reason := js "timeout" |} s else (s, false)
  end.

(** [cwd] is the working directory read before, for a relative path. *)
Definition refuseOccupiedSocket (path publicPath : jstring) (cwd : option jstring) : prog unit :=
  Await (SysLstat publicPath) (fun r =>
    match r with
    | Err cause => if bool_decide (er_code cause = Some (js "ENOENT")) then Done tt else Throws cause
    | Ok isSocket =>
        if negb isSocket then Throws (occupiedPathError path (js "address is occupied by a non-socket"))
        else
          verdict <~ (if byteLength publicPath <=? UNIX_SOCKET_PATH_MAX_BYTES then await (SysProbe publicPath)
                      else now <~ await SysCwd ;;
                           if bool_decide (cwd = Some now) then await (SysProbe path)
                           else Done {| pv_outcome := inconclusive; pv_reason := js "working directory changed before probe" |}) ;;
          Throws (occupiedPathError path (js "probe " ++ verdict_name (pv_outcome verdict) ++ js " (" ++ pv_reason verdict ++ js ")"))
    end).

(** The errors of a candidate directory that let the search go on to its parent. *)
Definition skippable (e : fs_error) : bool :=
  bool_decide (default [] (er_code e) ∈ [js "EACCES"; js "EPERM"; js "EROFS"]).

(** The loop of [createStagingDirectory]. One round: a directory, or the last error. *)
Definition try_candidate (maximum device : Z) (candidate : jstring) (lastError : option fs_error)
    : prog (jstring + option fs_error) :=
  let prefix := path_join candidate (js ".mango-") in
  if byteLength prefix + 8 <=? maximum then
    dev <~ await (SysStat candidate) ;;
    if dev =? device then
      try_prog
        (directory <~ await (SysMkdtemp prefix) ;;
         if byteLength (path_join directory (js "s")) <=? maximum then Done (inl directory)
         else _ <~ await (SysRmdir directory) ;; Done (inr lastError))
        (fun error => if skippable error then Done (inr (Some error)) else Throws error)
    else Done (inr lastError)
  else Done (inr lastError).

Fixpoint search_staging (fuel : nat) (path : jstring) (maximum device : Z) (candidate : jstring) (lastError : option fs_error)
    : prog jstring :=
  match fuel with
  | O => OutOfFuel
  | S n =>
      r <~ try_candidate maximum device candidate lastError ;;
      match r with
      | inl directory => Done directory
      | inr lastError =>
          let ancestor := dirname candidate in
          if bool_decide (ancestor = candidate) then
            Throws {| er_code := Some (default (js "ENAMETOOLONG") (lastError ≫= er_code));
                      er_message := path ++ js ": cannot create private same-filesystem staging within the Unix socket pathname limit; public path preserved" |}
          else search_staging n path maximum device ancestor lastError
      end
  end.

Definition createStagingDirectory (path : jstring) : prog jstring :=
  parent <~ await (SysRealpath (dirname path)) ;;
  device <~ await (SysStat parent) ;;
  search_staging (length parent + 3) path UNIX_SOCKET_PATH_MAX_BYTES device parent None.

(** [await stopListening(server, sockets)], a promise that only resolves. *)
Definition stop_server : prog unit := Await SysStop (fun _ => Done tt).

(** What [catch] does after a failed publication. [listening] is [server.listening]. *)
Definition undo_publication (path staging : jstring) (listening : bool) (cause : fs_error) : prog unit :=
  _ <~ (if listening then stop_server else Done tt) ;;
  Await (SysRmdir staging) (fun _ =>
    Throws (if bool_decide (er_code cause = Some (js "EEXIST"))
            then occupiedPathError path (js "address became occupied before publication") else cause)).

(** The [try] block: protect the directory, listen in it, protect the socket, publish it. *)
Definition link_staged (path publicPath staging : jstring) : prog jstring :=
  let staged := path_join staging (js "s") in
  Await (SysChmod staging STAGING_MODE) (fun r =>
    match r with
    | Err cause => _ <~ undo_publication path staging false cause ;; Done staging
    | Ok _ =>
        Await (SysListen staged) (fun r =>
          match r with
          | Err cause => _ <~ undo_publication path staging false cause ;; Done staging
          | Ok _ =>
              _ <~ try_prog (_ <~ await (SysChmod staged SOCKET_MODE) ;; await (SysLink staged publicPath))
                     (undo_publication path staging true) ;;
              Done staging
          end)
    end).

(** The POSIX branch of [listenIpc] once the working directory is known: the staging
    directory the listener keeps. *)
Definition publish_at (path : jstring) (cwd : option jstring) : prog jstring :=
  let publicPath := match cwd with None => path | Some d => d ++ SLASH :: path end in
  _ <~ refuseOccupiedSocket path publicPath cwd ;;
  staging <~ createStagingDirectory publicPath ;;
  link_staged path publicPath staging.

Definition publish (path : jstring) : prog jstring :=
  cwd <~ (if isAbsolute path then Done None else now <~ await SysCwd ;; Done (Some now)) ;;
  publish_at path cwd.

(** [listenIpc] before its listener exists, POSIX: the length of the public path first. *)
Definition bindListener (path : jstring) : prog jstring :=
  if UNIX_SOCKET_PATH_MAX_BYTES <? byteLength path then
    Throws {| er_code := Some (js "ENAMETOOLONG");
              er_message := path ++ js ": public Unix socket pathname has " ++ dec (byteLength path) ++
                            js " bytes; expected at most " ++ dec UNIX_SOCKET_PATH_MAX_BYTES ++ js "; no endpoint published" |}
  else publish path.

(** What [close] of the listener returns, after [stopListening] and the removal of its staging directory. *)
Definition unpublish (staging : option jstring) : prog unit :=
  _ <~ stop_server ;;
  match staging with
  | Some d => Await (SysRmdir d) (fun _ => Done tt)
  | None => Done tt
  end.

End Publish.

(** ** Runs of composed programs *)

Lemma runs_bind {A B} (m : prog A) (f : A -> prog B) tr x :
  runs (bind_prog m f) tr x ->
  (exists t1 t2 a, tr = t1 ++ t2 /\ runs m t1 (EndDone a) /\ runs (f a) t2 x) \/
  (exists e, runs m tr (EndThrows e) /\ x = EndThrows e) \/
  (runs m tr EndFuel /\ x = EndFuel).
Proof.
  revert tr. induction m as [a|e| |c k IH]; intros tr Hr; cbn in Hr.
  - left. by exists [], tr, a.
  - destruct Hr as [-> ->]. right; left. by exists e.
  - destruct Hr as [-> ->]. by right; right.
  - destruct Hr as (r & t & -> & [(t1 & t2 & a & -> & H1 & H2)|[(e & H1 & ->)|[H1 ->]]]%IH).
    + left. exists (Called c (is_ok r) (answered c r) :: t1), t2, a. split_and!; [done| |done]. by exists r, t1.
    + right; left. exists e. split; [|done]. by exists r, t.
    + right; right. split; [|done]. by exists r, t.
Qed.

Lemma runs_try {A} (m : prog A) h tr x :
  runs (try_prog m h) tr x ->
  (runs m tr x /\ (forall e, x <> EndThrows e)) \/
  (exists t1 t2 e, tr = t1 ++ t2 /\ runs m t1 (EndThrows e) /\ runs (h e) t2 x).
Proof.
  revert tr. induction m as [a|e| |c k IH]; intros tr Hr; cbn in Hr.
  - destruct Hr as [-> ->]. by left.
  - right. by exists [], tr, e.
  - destruct Hr as [-> ->]. by left.
  - destruct Hr as (r & t & -> & [[H1 H2]|(t1 & t2 & e & -> & H1 & H2)]%IH).
    + left. split; [|done]. by exists r, t.
    + right. exists (Called c (is_ok r) (answered c r) :: t1), t2, e. split_and!; [done| |done]. by exists r, t1.
Qed.

Lemma runs_await c tr x :
  runs (await c) tr x ->
  exists r, tr = [Called c (is_ok r) (answered c r)] /\
    x = match r with Ok a => EndDone a | Err e => EndThrows e end.
Proof. intros (r & t & -> & Hr). exists r. destruct r; cbn in Hr; destruct Hr as [-> ->]; done. Qed.

(** Programs that only make some calls. *)
Fixpoint calls_only {A} (P : syscall -> Prop) (m : prog A) : Prop :=
  match m with Await c k => P c /\ forall r, calls_only P (k r) | _ => True end.

Definition event_call (e : sys_event) : syscall := match e with Called c _ _ => c end.

Lemma calls_only_runs {A} P (m : prog A) tr x : calls_only P m -> runs m tr x -> Forall (fun e => P (event_call e)) tr.
Proof.
  revert tr. induction m as [a|e| |c k IH]; intros tr Hc Hr; cbn in Hr; [by destruct Hr as [-> _]..|].
  destruct Hr as (r & t & -> & Hr), Hc as [Hc Hk]. constructor; [done|]. by apply (IH r).
Qed.

Lemma calls_only_bind {A B} P (m : prog A) (f : A -> prog B) :
  calls_only P m -> (forall a, calls_only P (f a)) -> calls_only P (bind_prog m f).
Proof. intros Hm Hf. induction m as [a|e| |c k IH]; cbn in *; [done..|]. split; [apply Hm|]. intros r. apply IH, Hm. Qed.

Lemma calls_only_try {A} P (m : prog A) h :
  calls_only P m -> (forall e, calls_only P (h e)) -> calls_only P (try_prog m h).
Proof. intros Hm Hf. induction m as [a|e| |c k IH]; cbn in *; [done..|]. split; [apply Hm|]. intros r. apply IH, Hm. Qed.

Lemma calls_only_await (P : syscall -> Prop) c : P c -> calls_only P (await c).
Proof. intros Hc. split; [done|]. by intros []. Qed.

Create HintDb calls.
#[export] Hint Resolve calls_only_bind calls_only_try calls_only_await : calls.

(** ** The search ends *)

Lemma dirname_scan_bound r m e : dirname_scan r m = Some e -> (e + (if m then 2 else 1) <= length r)%nat.
Proof.
  revert m. induction r as [|c r IH]; intros m; [done|]. cbn. destruct r as [|d r]; [done|].
  destruct (c =? SLASH), m; intros Hs.
  - apply IH in Hs. cbn in *. lia.
  - injection Hs as <-. cbn. lia.
  - apply IH in Hs. cbn in *. lia.
  - apply IH in Hs. cbn in *. lia.
Qed.

(** How far a path is from the point where [dirname] stops. *)
Definition dirname_measure (s : jstring) : nat := if bool_decide (s = js ".") then 0 else S (length s).

Lemma dirname_decreases s : dirname s <> s -> (dirname_measure (dirname s) < dirname_measure s)%nat.
Proof.
  intros Hne. assert (s <> js ".") as Hs by (intros ->; by apply Hne).
  unfold dirname_measure. rewrite (bool_decide_eq_false_2 (s = js ".")) by done.
  case_bool_decide as Hd; [lia|]. apply le_n_S.
  destruct s as [|c s]; [done|]. unfold dirname in *.
  destruct (dirname_scan _ _) as [e|] eqn:E.
  - apply dirname_scan_bound in E. rewrite length_rev in E. cbn [length] in *.
    destruct (isAbsolute (c :: s) && _) eqn:E1; [|rewrite length_take; cbn [length]; lia].
    apply andb_true_iff in E1 as [_ ->%Nat.eqb_eq]. cbn. lia.
  - destruct (isAbsolute (c :: s)) eqn:Ea; [|done]. cbn in Ea. apply Z.eqb_eq in Ea as ->.
    destruct s; [by exfalso; apply Hne|]. cbn. lia.
Qed.

(** Programs that never run out of fuel, whatever the system answers. *)
Fixpoint fuelled {A} (m : prog A) : Prop :=
  match m with OutOfFuel => False | Await c k => forall r, fuelled (k r) | _ => True end.

Lemma fuelled_runs {A} (m : prog A) tr x : fuelled m -> runs m tr x -> x <> EndFuel.
Proof.
  revert tr. induction m as [a|e| |c k IH]; intros tr Hf Hr; cbn in *; [by destruct Hr as [_ ->]..|done|].
  destruct Hr as (r & t & -> & Hr). by apply (IH r t).
Qed.

Lemma fuelled_bind {A B} (m : prog A) (f : A -> prog B) : fuelled m -> (forall a, fuelled (f a)) -> fuelled (bind_prog m f).
Proof. intros Hm Hf. induction m as [a|e| |c k IH]; cbn in *; auto. Qed.

Lemma fuelled_try {A} (m : prog A) h : fuelled m -> (forall e, fuelled (h e)) -> fuelled (try_prog m h).
Proof. intros Hm Hf. induction m as [a|e| |c k IH]; cbn in *; auto. Qed.

Lemma fuelled_await c : fuelled (await c).
Proof. by intros []. Qed.

#[export] Hint Resolve fuelled_bind fuelled_try fuelled_await : calls.

Lemma try_candidate_fuelled maximum device candidate lastError : fuelled (try_candidate maximum device candidate lastError).
Proof. unfold try_candidate. repeat (break_match || intros || apply fuelled_bind || apply fuelled_try); try exact I; auto with calls. Qed.

Lemma search_staging_fuelled fuel path maximum device candidate lastError :
  (dirname_measure candidate < fuel)%nat -> fuelled (search_staging fuel path maximum device candidate lastError).
Proof.
  revert candidate lastError. induction fuel as [|n IH]; intros candidate lastError Hf; [lia|]. cbn [search_staging].
  apply fuelled_bind; [apply try_candidate_fuelled|]. intros [d|l]; [done|]. case_bool_decide as Hd; [done|].
  apply IH. apply dirname_decreases in Hd. lia.
Qed.

Section PublishFacts.
Variable linux : bool.

Lemma createStagingDirectory_fuelled path : fuelled (createStagingDirectory linux path).
Proof.
  unfold createStagingDirectory. apply fuelled_bind; [apply fuelled_await|]. intros parent.
  apply fuelled_bind; [apply fuelled_await|]. intros device. apply search_staging_fuelled.
  unfold dirname_measure. case_bool_decide; cbn; lia.
Qed.

Lemma refuseOccupiedSocket_fuelled path publicPath cwd : fuelled (refuseOccupiedSocket linux path publicPath cwd).
Proof.
  intros [isSocket|cause]; [|by case_bool_decide]. destruct (negb isSocket); [done|].
  apply fuelled_bind; [|done]. destruct (_ <=? _); [apply fuelled_await|].
  apply fuelled_bind; [apply fuelled_await|]. intros now. case_bool_decide; [exact (fuelled_await (SysProbe path))|done].
Qed.

Lemma undo_fuelled path staging listening cause : fuelled (undo_publication path staging listening cause).
Proof. unfold undo_publication. apply fuelled_bind; [by destruct listening|]. by intros _ _. Qed.

(** Binding a local socket always comes to an end. However deep the directory of the
    address is and whatever the system answers, the search for a staging directory climbs to
    the root and stops: no run of the publication is cut short by the fuel of the model, so
    each one publishes the socket or throws. *)
Theorem binding_terminates path tr x :
  runs (bindListener linux path) tr x ->
  (exists staging, x = EndDone staging) \/ (exists e, x = EndThrows e).
Proof.
  intros Hr. enough (fuelled (bindListener linux path)) as Hf.
  { apply fuelled_runs in Hr; [|done]. destruct x; eauto; done. }
  unfold bindListener, publish. destruct (_ <? _); [done|].
  apply fuelled_bind; [destruct (isAbsolute path); [done|apply fuelled_bind; auto with calls; by intros]|]. intros cwd.
  apply fuelled_bind; [apply refuseOccupiedSocket_fuelled|]. intros _.
  apply fuelled_bind; [apply createStagingDirectory_fuelled|]. intros staging.
  intros [_|e]; [|apply fuelled_bind; [apply undo_fuelled|done]].
  intros [_|e]; [|apply fuelled_bind; [apply undo_fuelled|done]].
  apply fuelled_bind; [|done]. apply fuelled_try; [|intros; apply undo_fuelled].
  apply fuelled_bind; intros; apply fuelled_await.
Qed.

(** ** Nothing is reachable before it is private *)

(** The calls of a program that has not published anything. *)
Definition quiet (c : syscall) : Prop :=
  match c with SysChmod _ _ | SysListen _ | SysLink _ _ | SysStop => False | _ => True end.

Lemma refuseOccupiedSocket_calls (P : syscall -> Prop) path publicPath cwd :
  P (SysLstat publicPath) -> (forall p, P (SysProbe p)) -> P SysCwd ->
  calls_only P (refuseOccupiedSocket linux path publicPath cwd).
Proof.
  intros Hl Hp Hc. split; [done|]. intros [isSocket|cause]; [|by case_bool_decide]. destruct (negb isSocket); [done|].
  apply calls_only_bind; [|done]. destruct (_ <=? _); [by apply calls_only_await|].
  apply calls_only_bind; [by apply calls_only_await|]. intros now.
  case_bool_decide; [by apply (calls_only_await P (SysProbe path))|done].
Qed.

Lemma search_staging_quiet fuel path maximum device candidate lastError :
  calls_only quiet (search_staging fuel path maximum device candidate lastError).
Proof.
  revert candidate lastError. induction fuel as [|n IH]; intros candidate lastError; [done|]. cbn [search_staging].
  apply calls_only_bind.
  - unfold try_candidate. repeat (break_match || intros || apply calls_only_bind || apply calls_only_try);
      try exact I; by apply calls_only_await.
  - intros [d|l]; [done|]. by case_bool_decide.
Qed.

Lemma createStagingDirectory_quiet path : calls_only quiet (createStagingDirectory linux path).
Proof.
  unfold createStagingDirectory. apply calls_only_bind; [by apply calls_only_await|]. intros parent.
  apply calls_only_bind; [by apply calls_only_await|]. intros device. apply search_staging_quiet.
Qed.

(** Every directory made is the one returned, or was removed. *)
Definition accounted {A} (mine : A -> jstring -> Prop) (tr : list sys_event) (x : ended A) : Prop :=
  forall q d, Called (SysMkdtemp q) true d ∈ tr ->
    (exists a, x = EndDone a /\ mine a d) \/ exists ok, Called (SysRmdir d) ok [] ∈ tr.

Lemma accounted_nil {A} (mine : A -> jstring -> Prop) x : accounted mine [] x.
Proof. by intros q d ?%elem_of_nil. Qed.

(** A call that makes no directory. *)
Lemma accounted_cons {A} (mine : A -> jstring -> Prop) c ok p tr x :
  (forall q, c <> SysMkdtemp q) -> accounted mine tr x -> accounted mine (Called c ok p :: tr) x.
Proof.
  intros Hc Ht q d. rewrite elem_of_cons. intros [[= <- _ _]|Hd]; [by destruct (Hc q)|].
  destruct (Ht q d Hd) as [?|[ok' ?]]; [by left|right; exists ok'; by right].
Qed.

Lemma accounted_app {A B} (mine : A -> jstring -> Prop) (mine' : B -> jstring -> Prop) t1 t2 y x :
  accounted mine t1 y -> accounted mine' t2 x ->
  (forall a d, y = EndDone a -> mine a d -> (exists b, x = EndDone b /\ mine' b d) \/ exists ok, Called (SysRmdir d) ok [] ∈ t2) ->
  accounted mine' (t1 ++ t2) x.
Proof.
  intros H1 H2 H12 q d [Hd|Hd]%elem_of_app.
  - destruct (H1 q d Hd) as [(a & Ha & Hm)|[ok Hr]]; [|right; exists ok; apply elem_of_app; auto].
    destruct (H12 a d Ha Hm) as [?|[ok Hr]]; [by left|right; exists ok; apply elem_of_app; auto].
  - destruct (H2 q d Hd) as [?|[ok Hr]]; [by left|right; exists ok; apply elem_of_app; auto].
Qed.

Lemma try_candidate_accounted maximum device candidate lastError tr x :
  runs (try_candidate maximum device candidate lastError) tr x -> accounted (fun a d => a = inl d) tr x.
Proof.
  unfold try_candidate. destruct (_ <=? _); [|intros [-> ->]; apply accounted_nil].
  intros (r1 & t1 & -> & Hr). apply accounted_cons; [done|]. destruct r1 as [dev|e]; [|destruct Hr as [-> ->]; apply accounted_nil].
  cbn in Hr. destruct (_ =? _); [|destruct Hr as [-> ->]; apply accounted_nil].
  destruct Hr as (r2 & t2 & -> & Hr). destruct r2 as [dir|e]; cbn in Hr.
  - destruct (_ <=? _).
    + destruct Hr as [-> ->]. intros q d [= _ <-]%list_elem_of_singleton. left. eauto.
    + destruct Hr as (r3 & t3 & -> & Hr). intros q d Hd. right.
      assert (d = dir) as ->.
      { assert (t3 = []) as -> by (destruct r3; cbn in Hr; [|destruct (skippable _)]; by destruct Hr as [-> _]). set_solver. }
      exists (is_ok r3). set_solver.
  - assert (t2 = []) as -> by (destruct (skippable e); by destruct Hr as [-> _]).
    intros q d Hd. set_solver.
Qed.

Lemma search_staging_accounted fuel path maximum device candidate lastError tr x :
  runs (search_staging fuel path maximum device candidate lastError) tr x -> accounted eq tr x.
Proof.
  revert candidate lastError tr. induction fuel as [|n IH]; intros candidate lastError tr; [intros [-> ->]; apply accounted_nil|].
  cbn [search_staging].
  intros [(t1 & t2 & r & -> & H1%try_candidate_accounted & Hr)|[(e & H1%try_candidate_accounted & ->)|
    [H1%try_candidate_accounted ->]]]%runs_bind; [|intros q d [(? & [=] & _)|?]%H1; by right..].
  destruct r as [dir|l].
  - destruct Hr as [-> ->]. eapply accounted_app; [exact H1|apply accounted_nil|].
    intros a d [= <-] [= ->]. left. eauto.
  - case_bool_decide.
    + destruct Hr as [-> ->]. eapply accounted_app; [exact H1|apply accounted_nil|]. by intros a d [= <-].
    + eapply accounted_app; [exact H1|by eapply IH|]. by intros a d [= <-].
Qed.

(** The directory returned is one that was just made. *)
Lemma try_candidate_made maximum device candidate lastError tr d :
  runs (try_candidate maximum device candidate lastError) tr (EndDone (inl d)) -> exists q, Called (SysMkdtemp q) true d ∈ tr.
Proof.
  unfold try_candidate. destruct (_ <=? _); [|by intros [_ [=]]]. intros (r1 & t1 & -> & Hr). destruct r1 as [dev|e]; [|by destruct Hr].
  cbn in Hr. destruct (_ =? _); [|by destruct Hr]. destruct Hr as (r2 & t2 & -> & Hr). destruct r2 as [dir|e]; cbn in Hr.
  - destruct (_ <=? _); [destruct Hr as [_ [= ->]]; eexists; right; left|].
    destruct Hr as (r3 & t3 & _ & Hr). destruct r3; cbn in Hr; [|destruct (skippable _)]; by destruct Hr.
  - by destruct (skippable e), Hr.
Qed.

Lemma search_staging_made fuel path maximum device candidate lastError tr d :
  runs (search_staging fuel path maximum device candidate lastError) tr (EndDone d) -> exists q, Called (SysMkdtemp q) true d ∈ tr.
Proof.
  revert candidate lastError tr. induction fuel as [|n IH]; intros candidate lastError tr; [by intros [_ [=]]|]. cbn [search_staging].
  intros [(t1 & t2 & r & -> & H1 & Hr)|[(e & _ & [=])|[_ [=]]]]%runs_bind. destruct r as [dir|l].
  - destruct Hr as [-> [= <-]]. apply try_candidate_made in H1 as [q ?]. exists q. apply elem_of_app. auto.
  - case_bool_decide; [by destruct Hr|]. apply IH in Hr as [q ?]. exists q. apply elem_of_app. auto.
Qed.

Lemma createStagingDirectory_made path tr d :
  runs (createStagingDirectory linux path) tr (EndDone d) -> exists q, Called (SysMkdtemp q) true d ∈ tr.
Proof.
  intros (r1 & t1 & -> & Hr). destruct r1 as [parent|e]; [|by destruct Hr]. destruct Hr as (r2 & t2 & -> & Hr).
  destruct r2 as [dev|e]; [|by destruct Hr]. apply search_staging_made in Hr as [q ?]. exists q. by do 2 right.
Qed.

Lemma createStagingDirectory_accounted path tr x : runs (createStagingDirectory linux path) tr x -> accounted eq tr x.
Proof.
  intros (r1 & t1 & -> & Hr). apply accounted_cons; [done|]. destruct r1 as [parent|e]; [|destruct Hr as [-> ->]; apply accounted_nil].
  destruct Hr as (r2 & t2 & -> & Hr). apply accounted_cons; [done|]. destruct r2 as [dev|e]; [|destruct Hr as [-> ->]; apply accounted_nil].
  by eapply search_staging_accounted.
Qed.

Definition ENOENT : jstring := js "ENOENT".

(** An address is passed only when there is nothing at the path. *)
Lemma refuseOccupiedSocket_free path publicPath cwd tr :
  runs (refuseOccupiedSocket linux path publicPath cwd) tr (EndDone tt) -> tr = [Called (SysLstat publicPath) false ENOENT].
Proof.
  intros (r & t & -> & Hr). destruct r as [isSocket|cause].
  - destruct (negb isSocket); [by destruct Hr|].
    by apply runs_bind in Hr as [(t1 & t2 & v & -> & _ & [_ ?])|[(e & _ & ?)|[_ ?]]].
  - cbn [answered]. case_bool_decide as E; [|by destruct Hr]. rewrite E. by destruct Hr as [-> ?].
Qed.

(** The undoing of a publication stops the server if it listens, then removes the directory. *)
Definition undone (staging : jstring) (listening : bool) (tr : list sys_event) : Prop :=
  exists ok ok', tr = (if listening then [Called SysStop ok' []] else []) ++ [Called (SysRmdir staging) ok []].

Lemma undo_runs path staging listening cause tr x :
  runs (undo_publication path staging listening cause) tr x -> (exists e, x = EndThrows e) /\ undone staging listening tr.
Proof.
  unfold undo_publication, undone. destruct listening; cbn.
  - intros (r & t & -> & r' & t' & -> & -> & ->). split; [eauto|]. by exists (is_ok r'), (is_ok r).
  - intros (r' & t' & -> & -> & ->). split; [eauto|]. by exists (is_ok r'), true.
Qed.

(** What is left to do once the staging directory exists: every trace it can have. *)
Inductive publication_tail (staging publicPath : jstring) : list sys_event -> ended jstring -> Prop :=
| tail_unprotected e tr :
    undone staging false tr ->
    publication_tail staging publicPath (Called (SysChmod staging STAGING_MODE) false [] :: tr) (EndThrows e)
| tail_unbound e tr :
    undone staging false tr ->
    publication_tail staging publicPath
      (Called (SysChmod staging STAGING_MODE) true [] :: Called (SysListen (path_join staging (js "s"))) false [] :: tr)
      (EndThrows e)
| tail_exposed e tr :
    undone staging true tr ->
    publication_tail staging publicPath
      ([Called (SysChmod staging STAGING_MODE) true []; Called (SysListen (path_join staging (js "s"))) true [];
        Called (SysChmod (path_join staging (js "s")) SOCKET_MODE) false []] ++ tr) (EndThrows e)
| tail_unlinked e tr :
    undone staging true tr ->
    publication_tail staging publicPath
      ([Called (SysChmod staging STAGING_MODE) true []; Called (SysListen (path_join staging (js "s"))) true [];
        Called (SysChmod (path_join staging (js "s")) SOCKET_MODE) true [];
        Called (SysLink (path_join staging (js "s")) publicPath) false []] ++ tr) (EndThrows e)
| tail_published :
    publication_tail staging publicPath
      [Called (SysChmod staging STAGING_MODE) true []; Called (SysListen (path_join staging (js "s"))) true [];
       Called (SysChmod (path_join staging (js "s")) SOCKET_MODE) true [];
       Called (SysLink (path_join staging (js "s")) publicPath) true []] (EndDone staging).

Lemma undo_bind path staging listening cause tr x :
  runs (_ <~ undo_publication path staging listening cause ;; Done staging) tr x ->
  (exists e, x = EndThrows e) /\ undone staging listening tr.
Proof.
  intros [(t1 & t2 & a & -> & [[e He] _]%undo_runs & _)|[(e & [_ Hu]%undo_runs & ->)|[[[e He] _]%undo_runs _]]]%runs_bind;
    [done|eauto|done].
Qed.

(** The address a binding was asked for: the path itself, or below the working directory that was read first. *)
Definition public_address (path : jstring) (tr : list sys_event) (b : jstring) : Prop :=
  if isAbsolute path then b = path
  else exists d rest, tr = Called SysCwd true d :: rest /\ b = d ++ SLASH :: path.

Lemma public_address_app path tr tr' b : public_address path tr b -> public_address path (tr ++ tr') b.
Proof. unfold public_address. destruct (isAbsolute path); [done|]. intros (d & rest & -> & ->). by exists d, (rest ++ tr'). Qed.

(** The whole of a publication: nothing but looking, then a staging directory, then its tail. *)
Definition publication (path : jstring) (tr : list sys_event) (x : ended jstring) : Prop :=
  exists quietly rest, tr = quietly ++ rest /\ Forall (fun e => quiet (event_call e)) quietly /\
    ((rest = [] /\ (exists e, x = EndThrows e) /\ accounted (fun _ _ : jstring => False) quietly x) \/
     exists staging publicPath,
       publication_tail staging publicPath rest x /\ Called (SysLstat publicPath) false ENOENT ∈ quietly /\
       public_address path quietly publicPath /\ (exists q, Called (SysMkdtemp q) true staging ∈ quietly) /\
       accounted (fun _ d => d = staging) quietly (EndDone tt)).

Lemma protect_runs path staging publicPath tr x :
  runs (_ <~ try_prog (_ <~ await (SysChmod (path_join staging (js "s")) SOCKET_MODE) ;;
                       await (SysLink (path_join staging (js "s")) publicPath))
              (undo_publication path staging true) ;;
        Done staging) tr x ->
  publication_tail staging publicPath
    (Called (SysChmod staging STAGING_MODE) true [] :: Called (SysListen (path_join staging (js "s"))) true [] :: tr) x.
Proof.
  intros (r & t & -> & Hr). destruct r as [[]|e]; cbn in Hr |- *.
  - destruct Hr as (r & t' & -> & Hr). destruct r as [[]|e]; cbn in Hr |- *.
    + destruct Hr as [-> ->]. constructor.
    + apply (undo_bind path staging true e) in Hr as [[e' ->] Hu].
      by apply (tail_unlinked staging publicPath e' t').
  - apply (undo_bind path staging true e) in Hr as [[e' ->] Hu].
    by apply (tail_exposed staging publicPath e' t).
Qed.

Lemma tail_runs path staging publicPath tr x :
  runs (link_staged path publicPath staging) tr x -> publication_tail staging publicPath tr x.
Proof.
  intros (r & t & -> & Hr). destruct r as [[]|e].
  - destruct Hr as (r & t' & -> & Hr). destruct r as [[]|e].
    + by apply (protect_runs path).
    + apply undo_bind in Hr as [[e' ->] Hu]. by constructor.
  - apply undo_bind in Hr as [[e' ->] Hu]. by constructor.
Qed.

Lemma accounted_none {A} (mine : A -> jstring -> Prop) tr x :
  Forall (fun e => forall q, event_call e <> SysMkdtemp q) tr -> accounted mine tr x.
Proof. rewrite Forall_forall. intros H q d Hd. by destruct (H _ Hd q). Qed.

(** An outcome that made nothing keeps nothing. *)
Lemma accounted_throws {A B} (mine : A -> jstring -> Prop) (mine' : B -> jstring -> Prop) tr e x :
  accounted mine tr (EndThrows e) -> accounted mine' tr x.
Proof. intros H q d Hd. destruct (H q d Hd) as [(a & [=] & _)|?]; auto. Qed.

Lemma accounted_mono {A B} (mine : A -> jstring -> Prop) (mine' : B -> jstring -> Prop) tr x y :
  accounted mine tr x -> (forall a d, x = EndDone a -> mine a d -> exists b, y = EndDone b /\ mine' b d) -> accounted mine' tr y.
Proof. intros H Hm q d Hd. destruct (H q d Hd) as [(a & Ha & ?)|?]; [left; by eapply Hm|by right]. Qed.

Lemma staging_publication path publicPath pre tr x :
  Forall (fun e => quiet (event_call e)) pre -> Forall (fun e => forall q, event_call e <> SysMkdtemp q) pre ->
  Called (SysLstat publicPath) false ENOENT ∈ pre -> public_address path pre publicPath ->
  runs (staging <~ createStagingDirectory linux publicPath ;; link_staged path publicPath staging) tr x ->
  publication path (pre ++ tr) x.
Proof.
  intros Hq Hn Hfree Hpub.
  intros [(t1 & t2 & staging & -> & H1 & Hr%tail_runs)|[(e & H1 & ->)|[H1 ->]]]%runs_bind.
  - exists (pre ++ t1), t2. pose proof (calls_only_runs _ _ _ _ (createStagingDirectory_quiet _) H1) as Hq1.
    pose proof (createStagingDirectory_made _ _ _ H1) as [q Hmade]. apply createStagingDirectory_accounted in H1.
    split_and!; [by rewrite app_assoc|by apply Forall_app|]. right. exists staging, publicPath.
    split_and!; [done|apply elem_of_app; auto|by apply public_address_app|exists q; apply elem_of_app; auto|].
    eapply (accounted_app (fun _ _ => False) _ _ _ (EndDone tt)); [by apply accounted_none| |done].
    eapply accounted_mono; [exact H1|]. intros a d [= <-] ->. by exists tt.
  - exists (pre ++ tr), []. pose proof (calls_only_runs _ _ _ _ (createStagingDirectory_quiet _) H1) as Hq1.
    apply createStagingDirectory_accounted in H1.
    split_and!; [by rewrite app_nil_r|by apply Forall_app|]. left. split_and!; [done|eauto|].
    eapply (accounted_app (fun (_ : unit) _ => False) _ _ _ (EndDone tt)); [by apply accounted_none| |done].
    by eapply accounted_throws.
  - by eapply fuelled_runs in H1; [|apply createStagingDirectory_fuelled].
Qed.

Lemma publish_at_runs path cwd pre tr x :
  public_address path pre match cwd with None => path | Some d => d ++ SLASH :: path end ->
  Forall (fun e => quiet (event_call e)) pre -> Forall (fun e => forall q, event_call e <> SysMkdtemp q) pre ->
  runs (publish_at linux path cwd) tr x -> publication path (pre ++ tr) x.
Proof.
  intros Hpub Hq Hn. unfold publish_at. set (publicPath := match cwd with None => path | Some d => _ end).
  intros [(t1 & t2 & [] & -> & ->%refuseOccupiedSocket_free & Hr)|[(e & H1 & ->)|[H1 ->]]]%runs_bind.
  - rewrite app_assoc. apply (staging_publication path publicPath); [..|by apply public_address_app|done].
    + apply Forall_app. split; [done|by repeat constructor].
    + apply Forall_app. split; [done|by repeat constructor].
    + apply elem_of_app. right. by left.
  - exists (pre ++ tr), []. rewrite app_nil_r. split_and!; [done| |left; split_and!; [done|eauto|]].
    + apply Forall_app. split; [done|]. eapply calls_only_runs; [|exact H1]. by apply refuseOccupiedSocket_calls.
    + apply accounted_none, Forall_app. split; [done|].
      eapply (calls_only_runs (fun c => forall q, c <> SysMkdtemp q)); [|exact H1]. by apply refuseOccupiedSocket_calls.
  - by eapply fuelled_runs in H1; [|apply refuseOccupiedSocket_fuelled].
Qed.

Lemma publish_runs path tr x : runs (publish linux path) tr x -> publication path tr x.
Proof.
  unfold publish. destruct (isAbsolute path) eqn:Ha.
  { apply (publish_at_runs path None []); [unfold public_address; by rewrite Ha|constructor..]. }
  cbn [bind_prog].
  intros (r & t & -> & Hr). destruct r as [d|e].
  - apply (publish_at_runs path (Some d) [_]); [unfold public_address; rewrite Ha; by eexists _, _|by repeat constructor..|done].
  - destruct Hr as [-> ->]. eexists [_], []. split_and!; [done|by repeat constructor|].
    left. split_and!; [done|eauto|]. apply accounted_none. by repeat constructor.
Qed.

Lemma quiet_no_link tr a b ok p : Forall (fun e => quiet (event_call e)) tr -> Called (SysLink a b) ok p ∉ tr.
Proof. rewrite Forall_forall. intros H Hin. by apply H in Hin. Qed.

Lemma tail_link staging publicPath tr x pre a b ok p post :
  publication_tail staging publicPath tr x -> tr = pre ++ Called (SysLink a b) ok p :: post ->
  a = path_join staging (js "s") /\ b = publicPath /\
  pre = [Called (SysChmod staging STAGING_MODE) true []; Called (SysListen a) true []; Called (SysChmod a SOCKET_MODE) true []].
Proof.
  intros Ht E. assert (forall l t, undone staging l t -> Called (SysLink a b) ok p ∉ t) as Hu.
  { intros l t (? & ? & ->). destruct l; set_solver. }
  destruct Ht as [e t Hd|e t Hd|e t Hd|e t Hd|]; cbn [app] in E;
    destruct pre as [|? [|? [|? [|? pre]]]]; cbn [app] in E; simplify_eq; try done;
    try (by destruct pre); exfalso; eapply (Hu _ _ Hd); set_solver.
Qed.

Lemma tail_undone staging publicPath tr x e :
  publication_tail staging publicPath tr x -> x = EndThrows e -> exists ok, Called (SysRmdir staging) ok [] ∈ tr.
Proof.
  intros Ht E. destruct Ht as [e' t (ok & ok' & ->)|e' t (ok & ok' & ->)|e' t (ok & ok' & ->)|e' t (ok & ok' & ->)|];
    [exists ok; set_solver..|done].
Qed.

Lemma tail_stopped staging publicPath tr x e a :
  publication_tail staging publicPath tr x -> x = EndThrows e -> Called (SysListen a) true [] ∈ tr ->
  exists ok, Called SysStop ok [] ∈ tr.
Proof.
  intros Ht E. destruct Ht as [e' t (ok & ok' & ->)|e' t (ok & ok' & ->)|e' t (ok & ok' & ->)|e' t (ok & ok' & ->)|];
    [set_solver|set_solver|exists ok'; set_solver..|done].
Qed.

(** C37: a local socket is private before it is reachable. Whatever the system answers, the only path a binding ever
    links is the address it was asked for, a relative one below the working directory read at the start; it is linked
    only after [lstat] of that very path failed because nothing is there (ENOENT), and directly after a staging directory
    made for it was restricted to its owner, the socket bound inside it and the socket file itself restricted; the
    link is the last thing a binding that succeeds does. A binding that throws has tried to remove every
    staging directory it made, and stopped the server if it was listening. *)
Theorem socket_published_private path tr x :
  runs (bindListener linux path) tr x ->
  (forall pre a b ok p post, tr = pre ++ Called (SysLink a b) ok p :: post ->
     exists before staging, a = path_join staging (js "s") /\ public_address path tr b /\
       Called (SysLstat b) false ENOENT ∈ before /\ (exists q, Called (SysMkdtemp q) true staging ∈ before) /\
       pre = before ++ [Called (SysChmod staging STAGING_MODE) true []; Called (SysListen a) true [];
                        Called (SysChmod a SOCKET_MODE) true []]) /\
  (forall staging, x = EndDone staging ->
     exists before b, tr = before ++ [Called (SysLink (path_join staging (js "s")) b) true []]) /\
  (forall e, x = EndThrows e ->
     (forall q d, Called (SysMkdtemp q) true d ∈ tr -> exists ok, Called (SysRmdir d) ok [] ∈ tr) /\
     (forall a, Called (SysListen a) true [] ∈ tr -> exists ok, Called SysStop ok [] ∈ tr)).
Proof.
  unfold bindListener. destruct (_ <? _).
  { intros [-> ->]. split_and!; [by intros [] |done|]. intros e _. split; intros *; by intros ?%elem_of_nil. }
  intros (quietly & rest & -> & Hq & [(-> & [e ->] & Hacc)|(staging & publicPath & Ht & Hfree & Hpub & Hmade & Hacc)])%publish_runs.
  - rewrite app_nil_r. split_and!; [|done|].
    + intros pre a b ok p post ->. destruct (quiet_no_link _ a b ok p Hq). apply elem_of_app. right. by left.
    + intros e' _. split.
      * intros q d Hd. destruct (Hacc q d Hd) as [(? & [=] & _)|?]; done.
      * intros a Ha. rewrite Forall_forall in Hq. by apply Hq in Ha.
  - split_and!.
    + intros pre a b ok p post E. apply app_eq_app in E as (l & [[-> Hl]|[-> Hl]]).
      * destruct l as [|e l]; [|injection Hl as <- ->].
        { cbn in Hl. symmetry in Hl. apply (tail_link _ _ _ _ [] _ _ _ _ _ Ht) in Hl as (_ & _ & ?). done. }
        destruct (quiet_no_link _ a b ok p Hq). apply elem_of_app. right. by left.
      * apply (tail_link _ _ _ _ _ _ _ _ _ _ Ht) in Hl as (-> & -> & ->). exists quietly, staging. split_and!; [done|by apply public_address_app|done..].
    + intros s ->. inversion Ht; subst. eexists (quietly ++ [_; _; _]), _. by rewrite <-app_assoc.
    + intros e ->. split.
      * intros q d [Hd|Hd]%elem_of_app.
        -- destruct (Hacc q d Hd) as [(_ & _ & ->)|[ok ?]]; [|exists ok; apply elem_of_app; auto].
           destruct (tail_undone _ _ _ _ _ Ht eq_refl) as [ok ?]. exists ok. apply elem_of_app; auto.
        -- exfalso. clear -Ht Hd. destruct Ht as [e' t (ok & ok' & ->)|e' t (ok & ok' & ->)|e' t (ok & ok' & ->)|e' t (ok & ok' & ->)|]; set_solver.
      * intros a [Ha|Ha]%elem_of_app; [rewrite Forall_forall in Hq; by apply Hq in Ha|].
        destruct (tail_stopped _ _ _ _ _ _ Ht eq_refl Ha) as [ok ?]. exists ok. apply elem_of_app; auto.
Qed.

End PublishFacts.

(** The first event decides a probe that dialled, and nothing after it changes the verdict. *)
Lemma probe_first_event i rest :
  let s := fold_left (fun s j => (probe_step j s).1) (i :: rest) (probe_start None) in
  pr_timer s = false /\ (pv_outcome <$> pr_verdict s) =
    Some match i with
         | PrConnect => connected
         | PrError code => pv_outcome (probeError code)
         | PrTimeout => inconclusive
         end.
Proof.
  cbn [fold_left].
  assert (forall v, fold_left (fun s j => (probe_step j s).1) rest {| pr_timer := false; pr_verdict := Some v |} =
                    {| pr_timer := false; pr_verdict := Some v |}) as Hstay.
  { intros v. induction rest as [|j rest IH]; [done|]. by destruct j. }
  destruct i; cbn; by rewrite Hstay.
Qed.

(** ** A binding evaluated

    The directory of the address is too deep for a staging name, its parent takes it. *)

Definition free_address (c : syscall) : outcome fs_error (answer c) :=
  match c return outcome fs_error (answer c) with
  | SysLstat _ => Err {| er_code := Some (js "ENOENT"); er_message := js "no such file" |}
  | SysStat _ => Ok 1
  | SysRealpath p => Ok p
  | SysMkdtemp prefix => Ok (prefix ++ js "abc123")
  | SysCwd => Ok (js "/")
  | SysProbe _ => Ok (probeError None)
  | _ => Ok tt
  end.

(** The link finds that another process published the address first. *)
Definition raced_address (c : syscall) : outcome fs_error (answer c) :=
  match c return outcome fs_error (answer c) with
  | SysLink _ _ => Err {| er_code := Some (js "EEXIST"); er_message := js "file exists" |}
  | c => free_address c
  end.

Fixpoint run_with {A} (system : forall c, outcome fs_error (answer c)) (m : prog A) : list sys_event * ended A :=
  match m with
  | Done a => ([], EndDone a)
  | Throws e => ([], EndThrows e)
  | OutOfFuel => ([], EndFuel)
  | Await c k => let '(tr, x) := run_with system (k (system c)) in (Called c (is_ok (system c)) (answered c (system c)) :: tr, x)
  end.

Lemma run_with_runs {A} system (m : prog A) : runs m (run_with system m).1 (run_with system m).2.
Proof.
  induction m as [a|e| |c k IH]; cbn; [done..|]. specialize (IH (system c)).
  destruct (run_with system (k (system c))) as [tr x]. by exists (system c), tr.
Qed.

Definition hub_socket : jstring := js "/run/mango/hub.sock".
Definition bound : list sys_event * ended jstring := run_with free_address (bindListener true hub_socket).
Definition lost_race : list sys_event * ended jstring := run_with raced_address (bindListener true hub_socket).

Lemma binding_terminates_witness :
  bound.2 = EndDone (js "/run/mango/.mango-abc123") /\
  ((exists staging, lost_race.2 = EndDone staging) \/ (exists e, lost_race.2 = EndThrows e)).
Proof.
  split; [vm_compute; reflexivity|].
  exact (binding_terminates true hub_socket lost_race.1 lost_race.2 (run_with_runs raced_address _)).
Defined.

Lemma socket_published_private_witness :
  lost_race.2 = EndThrows (occupiedPathError hub_socket (js "address became occupied before publication")) /\
  (forall q d, Called (SysMkdtemp q) true d ∈ lost_race.1 -> exists ok, Called (SysRmdir d) ok [] ∈ lost_race.1).
Proof.
  split; [vm_compute; reflexivity|].
  exact (proj1 (proj2 (proj2 (socket_published_private true hub_socket lost_race.1 lost_race.2 (run_with_runs raced_address _)))
    (occupiedPathError hub_socket (js "address became occupied before publication")) ltac:(vm_compute; reflexivity))).
Defined.
