(* ===== verification/IpcListener.v ===== *)
(** * The connections of a local listener

    The serving half of [listenIpc] in [packages/protocol/src/transports/ipc.ts]: the
    table of accepted sockets with their ports, the deadline for the first hello, the
    release of a socket whose port ended, and the orderly end of the listener. *)

From S2P Require Import Prelude Utf8 Regex Json JsonFacts Wire Frames Ndjson Listeners Session NdjsonPort StreamPort Dial IpcPublish.

Definition MAX_IPC_CONNECTIONS : Z := 64.

(** ** One connection *)

(** A socket: the port over it, the timer of the first hello, whether a hello came, whether
    it was destroyed, whether everything written was flushed ([writableFinished]), whether
    the timer of [releaseSocket] runs. *)
Record ipc_socket : Type := {
  sk_stream : stream_port;
  sk_deadline : bool;
  sk_hello : bool;
  sk_destroyed : bool;
  sk_finished : bool;
  sk_grace : bool
}.

Definition sk_with_stream sp (c : ipc_socket) : ipc_socket :=
  {| sk_stream := sp; sk_deadline := sk_deadline c; sk_hello := sk_hello c; sk_destroyed := sk_destroyed c;
     sk_finished := sk_finished c; sk_grace := sk_grace c |}.
Definition sk_stop_deadline (hello : bool) (c : ipc_socket) : ipc_socket :=
  {| sk_stream := sk_stream c; sk_deadline := false; sk_hello := sk_hello c || hello; sk_destroyed := sk_destroyed c;
     sk_finished := sk_finished c; sk_grace := sk_grace c |}.
Definition sk_destroy (c : ipc_socket) : ipc_socket :=
  {| sk_stream := sk_stream c; sk_deadline := sk_deadline c; sk_hello := sk_hello c; sk_destroyed := true;
     sk_finished := sk_finished c; sk_grace := false |}.
Definition sk_arm_grace (c : ipc_socket) : ipc_socket :=
  {| sk_stream := sk_stream c; sk_deadline := sk_deadline c; sk_hello := sk_hello c; sk_destroyed := sk_destroyed c;
     sk_finished := sk_finished c; sk_grace := true |}.
Definition sk_finish (c : ipc_socket) : ipc_socket :=
  {| sk_stream := sk_stream c; sk_deadline := sk_deadline c; sk_hello := sk_hello c; sk_destroyed := sk_destroyed c;
     sk_finished := true; sk_grace := sk_grace c |}.

(** [releaseSocket] *)
Definition releaseSocket (c : ipc_socket) : ipc_socket :=
  if sk_destroyed c then c else if sk_finished c then sk_destroy c else sk_arm_grace c.

(** The frame listener that waits for a hello is number 0 of its port; the application's are others. *)
Definition HELLO_LISTENER : nat := 0.

Definition is_hello (v : json) : bool := bool_decide (frameTypeOf v = Some (js "hello")).

(** The hello listener takes itself off when it is called with a hello. *)
Definition with_hello_listener (react : reaction) : reaction := fun l v =>
  if (l =? HELLO_LISTENER)%nat then if is_hello v then [OpOffFrame HELLO_LISTENER] else [] else react l v.

Definition listened (i : stream_input) : stream_input :=
  match i with SData c react => SData c (with_hello_listener react) | i => i end.

Definition hello_heard (evs : list stream_effect) : bool :=
  existsb (fun e => match e with YPort (WFrame l v) => (l =? HELLO_LISTENER)%nat && is_hello v | _ => false end) evs.
Definition released (evs : list stream_effect) : bool :=
  existsb (fun e => match e with YRelease => true | _ => false end) evs.

Section Listener.
Context `{TypeBox, JsonEngine}.

(** A call or an event of the connection's port, with what the listener's own callbacks do. *)
Definition connection_step (w : writable_stream) (i : stream_input) (c : ipc_socket) : ipc_socket * list stream_effect :=
  let '(sp, evs) := stream_step w (listened i) (sk_stream c) in
  let c := sk_with_stream sp c in
  let c := if hello_heard evs then sk_stop_deadline true c else c in
  (if released evs then releaseSocket c else c, evs).

(** [ipcSocketHandle] and what the accept does before [onConnection]. *)
Definition new_connection (maxFrameBytes : option jsarg) : outcome exn ipc_socket :=
  sp ← ipcSocketPort maxFrameBytes;
  Ok {| sk_stream := sp; sk_deadline := true; sk_hello := false; sk_destroyed := false; sk_finished := false; sk_grace := false |}.

Fixpoint connection_ops (w : writable_stream) (ops : list port_op) (c : ipc_socket) : ipc_socket * list stream_effect :=
  match ops with
  | [] => (c, [])
  | op :: rest =>
      let '(c, e1) := connection_step w (SOp op) c in
      let '(c, e2) := connection_ops w rest c in
      (c, e1 ++ e2)
  end.

(** ** The listener *)

(** [il_handles] is in the order of arrival; [il_closing] are the calls of [close] that wait for the server, each with the failure
    it will throw; [il_stopGrace] is the timer of [stopListening]. *)
Record ipc_listener : Type := {
  il_listening : bool;
  il_conns : gmap nat ipc_socket;
  il_sockets : gset nat;
  il_handles : list nat;
  il_stopGrace : bool;
  il_closing : list (option jstring)
}.

Inductive listener_effect : Type :=
| LStream (id : nat) (e : stream_effect)
| LDiscard (id : nat)
| LConnection (id : nat)
| LUncaught (message : jstring)
| LClosed (failure : option jstring).

Inductive listener_input : Type :=
| LAccept (id : nat) (w : writable_stream) (ops : list port_op) (throws : bool)
| LConn (id : nat) (w : writable_stream) (i : stream_input)
| LHelloDeadline (id : nat) (w : writable_stream)
| LFinish (id : nat)
| LReleaseGrace (id : nat)
| LSocketClose (id : nat) (w : writable_stream)
| LClose (ws : nat -> writable_stream) (throws : nat -> option jstring)
| LStopGrace
| LServerClosed.

Definition il_set_conn id c (l : ipc_listener) : ipc_listener :=
  {| il_listening := il_listening l; il_conns := <[id := c]> (il_conns l); il_sockets := il_sockets l;
     il_handles := il_handles l; il_stopGrace := il_stopGrace l; il_closing := il_closing l |}.
Definition il_set_tables sockets handles (l : ipc_listener) : ipc_listener :=
  {| il_listening := il_listening l; il_conns := il_conns l; il_sockets := sockets;
     il_handles := handles; il_stopGrace := il_stopGrace l; il_closing := il_closing l |}.

Definition on_connection (id : nat) (l : ipc_listener) (f : ipc_socket -> ipc_socket * list stream_effect)
    : ipc_listener * list listener_effect :=
  match il_conns l !! id with
  | Some c => let '(c, evs) := f c in (il_set_conn id c l, map (LStream id) evs)
  | None => (l, [])
  end.

(** The callback of [createServer]. A [throws] is [onConnection] throwing after its operations. *)
Definition accept_connection (maxFrameBytes : option jsarg) (id : nat) (w : writable_stream) (ops : list port_op) (throws : bool)
    (l : ipc_listener) : ipc_listener * list listener_effect :=
  if MAX_IPC_CONNECTIONS <=? Z.of_nat (size (il_sockets l)) then (l, [LDiscard id])
  else
    let sockets := {[id]} ∪ il_sockets l in
    match new_connection maxFrameBytes with
    | Err e => (il_set_tables sockets (il_handles l) l, [LUncaught (describe (exn_failure e))])
    | Ok c =>
        let '(c, _) := connection_step w (SOp (OpOnFrame HELLO_LISTENER)) c in
        let '(c, e1) := connection_ops w ops c in
        let '(c, e2) := if throws then connection_step w (SOp (OpClose INTERNAL_CLOSE (Some (js "the connection handler refused this connection")))) c
                        else (c, []) in
        let c := if throws then sk_destroy c else c in
        (il_set_conn id c (il_set_tables sockets (il_handles l ++ [id]) l), LConnection id :: map (LStream id) (e1 ++ e2))
    end.

Definition hello_deadline (w : writable_stream) (c : ipc_socket) : ipc_socket * list stream_effect :=
  if sk_deadline c then
    let '(c, evs) := connection_step w (STerminate PROTOCOL_ERROR (Some (js "local socket hello deadline exceeded"))) c in
    (sk_destroy (sk_stop_deadline false c), evs)
  else (c, []).

(** The socket's own close event, when it is destroyed: the port hears of it, then the tables are pruned. *)
Definition socket_close (w : writable_stream) (c : ipc_socket) : ipc_socket * list stream_effect :=
  let '(c, e1) := connection_step w SClose (sk_destroy c) in
  let '(c, e2) := connection_step w (SOp (OpOffFrame HELLO_LISTENER)) (sk_stop_deadline false c) in
  (c, e1 ++ e2).

(** The loop of [close] over the handles. *)
Fixpoint terminate_all (ws : nat -> writable_stream) (ids : list nat) (l : ipc_listener) : ipc_listener * list listener_effect :=
  match ids with
  | [] => (l, [])
  | id :: rest =>
      let '(l, e1) := on_connection id l (connection_step (ws id) (STerminate RELEASED (Some (js "listener closing")))) in
      let '(l, e2) := terminate_all ws rest l in
      (l, e1 ++ e2)
  end.

(** [failure ??= asError(error)]: the first throw stays. *)
Definition first_failure (throws : nat -> option jstring) (ids : list nat) : option jstring :=
  head (omap throws ids).

Definition close_listener (ws : nat -> writable_stream) (throws : nat -> option jstring) (l : ipc_listener)
    : ipc_listener * list listener_effect :=
  let closing := il_handles l in
  let '(l, evs) := terminate_all ws closing (il_set_tables (il_sockets l) [] l) in
  ({| il_listening := false; il_conns := il_conns l; il_sockets := il_sockets l; il_handles := il_handles l;
      il_stopGrace := true; il_closing := il_closing l ++ [first_failure throws closing] |}, evs).

Definition listener_step (maxFrameBytes : option jsarg) (i : listener_input) (l : ipc_listener)
    : ipc_listener * list listener_effect :=
  match i with
  | LAccept id w ops throws =>
      if il_listening l && bool_decide (il_conns l !! id = None) then accept_connection maxFrameBytes id w ops throws l else (l, [])
  | LConn id w j => on_connection id l (connection_step w j)
  | LHelloDeadline id w => on_connection id l (hello_deadline w)
  | LFinish id => on_connection id l (fun c => (let c := sk_finish c in if sk_grace c then sk_destroy c else c, []))
  | LReleaseGrace id => on_connection id l (fun c => (if sk_grace c then sk_destroy c else c, []))
  | LSocketClose id w =>
      let '(l, evs) := on_connection id l (socket_close w) in
      (il_set_tables (il_sockets l ∖ {[id]}) (filter (fun h => h <> id) (il_handles l)) l, evs)
  | LClose ws throws => close_listener ws throws l
  | LStopGrace =>
      if il_stopGrace l then
        ({| il_listening := il_listening l;
            il_conns := map_imap (fun id c => Some (if bool_decide (id ∈ il_sockets l) then sk_destroy c else c)) (il_conns l);
            il_sockets := il_sockets l; il_handles := il_handles l; il_stopGrace := false; il_closing := il_closing l |}, [])
      else (l, [])
  | LServerClosed =>
      if negb (il_listening l) && bool_decide (il_sockets l = ∅) then
        ({| il_listening := false; il_conns := il_conns l; il_sockets := il_sockets l; il_handles := il_handles l;
            il_stopGrace := false; il_closing := [] |}, map LClosed (il_closing l))
      else (l, [])
  end.

Definition new_listener : ipc_listener :=
  {| il_listening := true; il_conns := ∅; il_sockets := ∅; il_handles := []; il_stopGrace := false; il_closing := [] |}.

Inductive listener_reachable (maxFrameBytes : option jsarg) : ipc_listener -> list listener_effect -> Prop :=
| listener_new : listener_reachable maxFrameBytes new_listener []
| listener_next i l evs l' evs' :
    listener_reachable maxFrameBytes l evs -> listener_step maxFrameBytes i l = (l', evs') ->
    listener_reachable maxFrameBytes l' (evs ++ evs').

End Listener.

(** ** One connection stays accounted for *)

Section ListenerFacts.
Context `{TypeBox, JsonEngine}.

(** A connection either still has its deadline, or heard a hello, or is destroyed; a port
    that ended has its socket destroyed or its release timer running. *)
Record conn_ok (c : ipc_socket) : Prop := {
  co_stream : sp_ok (sk_stream c);
  co_turn : turn_coming (sk_stream c);
  co_now : sp_defer (sk_stream c) = false;
  co_hello : sk_deadline c = true \/ sk_hello c = true \/ sk_destroyed c = true;
  co_release : sp_stopped (sk_stream c) = true -> sk_destroyed c = true \/ sk_grace c = true
}.

Lemma released_spec evs : released evs = negb (releases evs =? 0)%nat.
Proof. induction evs as [|[] evs IH]; cbn in *; unfold releases in *; cbn; done. Qed.

Lemma call_port_defer w i sp : sp_defer (call_port w i sp).1 = sp_defer sp.
Proof. unfold call_port. destruct (port_step _ _ _) as [p evs]. cbn. by destruct (np_sinkEnded p). Qed.

Lemma deliver_now_defer w i sp : sp_defer (deliver_now w i sp).1 = sp_defer sp.
Proof.
  unfold deliver_now, run_event. pose proof (call_port_defer w i sp). by destruct (call_port w i sp).
Qed.

Lemma stream_step_now w i sp : sp_ok sp -> turn_coming sp -> sp_defer sp = false -> sp_defer (stream_step w i sp).1 = false.
Proof.
  intros Ho Ht Hd. pose proof (ok_now _ Ho Hd) as Hw.
  assert (forall j, sp_defer (deliver_run w j sp).1 = false) as Hrun.
  { intros j. unfold deliver_run. rewrite Hd. by rewrite deliver_now_defer. }
  assert (forall j, sp_defer (deliver_after w j sp).1 = false) as Haft.
  { intros j. unfold deliver_after. rewrite Hw. by rewrite deliver_now_defer. }
  destruct i as [c react| | |m|m| |m|code reason|op]; cbn [stream_step]; auto.
  - destruct (sp_listening sp); [|done]. destruct (toBytes c); [apply Hrun|done].
  - destruct (sp_listening sp); [apply Hrun|done].
  - destruct (sp_listening sp); [apply Hrun|done].
  - destruct (sp_same sp); [done|apply Hrun].
  - destruct (sp_scheduled sp); [|done]. unfold drain_turn. rewrite Hw. cbn. done.
  - by rewrite call_port_defer.
Qed.

(** A connection's step keeps what a port that ended promises. *)
Lemma connection_step_ok w i c :
  conn_ok c ->
  conn_ok (connection_step w i c).1 /\
  (sp_stopped (sk_stream c) = true -> sp_stopped (sk_stream (connection_step w i c).1) = true) /\
  (sk_destroyed c = true -> sk_destroyed (connection_step w i c).1 = true).
Proof.
  intros [Ho Ht Hn Hh Hr]. unfold connection_step.
  destruct (stream_step_log w (listened i) _ Ho Ht) as [Hl Ht'].
  pose proof (stream_step_now w (listened i) _ Ho Ht Hn) as Hn'.
  destruct (stream_step w (listened i) (sk_stream c)) as [sp evs]. cbn [fst snd] in *.
  rewrite released_spec. destruct Hl as [Ho' _ _ Hc [Hrel _]]. rewrite Hrel. clear Hrel.
  assert (sp_stopped (sk_stream c) = true -> sp_stopped sp = true) as Hs by (intros E; by apply Hc).
  set (c1 := sk_with_stream sp c). set (c2 := if hello_heard evs then sk_stop_deadline true c1 else c1).
  assert (sk_stream c2 = sp /\ sk_destroyed c2 = sk_destroyed c /\ sk_grace c2 = sk_grace c /\
    (sk_deadline c2 = true \/ sk_hello c2 = true \/ sk_destroyed c2 = true)) as (Es & Ed & Eg & Eh).
  { unfold c2. destruct (hello_heard evs); cbn; rewrite ?orb_true_r; split_and!; tauto. }
  clearbody c2. clear c1. destruct c2 as [sp2 dl2 he2 de2 fi2 gr2]. cbn in Es, Ed, Eg, Eh. subst sp2 de2 gr2.
  destruct (sp_stopped (sk_stream c)) eqn:E0; cbn [Nat.eqb negb].
  - split_and!; [split|..]; cbn; auto.
  - destruct (sp_stopped sp) eqn:E1; cbn [Nat.eqb negb].
    + unfold releaseSocket. cbn. destruct (sk_destroyed c) eqn:E2; [|destruct fi2];
        (split_and!; [split|..]); cbn; auto; tauto.
    + split_and!; [split|..]; cbn; rewrite ?E1; auto; done.
Qed.

Lemma connection_ops_ok w ops c : conn_ok c -> conn_ok (connection_ops w ops c).1.
Proof.
  revert c. induction ops as [|op ops IH]; intros c Hc; [done|]. cbn.
  pose proof (proj1 (connection_step_ok w (SOp op) c Hc)) as H1. destruct (connection_step w (SOp op) c) as [c1 e1].
  specialize (IH c1 H1). by destruct (connection_ops w ops c1).
Qed.

Lemma destroy_ok c : conn_ok c -> conn_ok (sk_destroy c).
Proof. intros [Ho Ht Hn Hh Hr]. split; cbn; auto. Qed.

Lemma destroy_stopped_ok c b : conn_ok c -> conn_ok (sk_destroy (sk_stop_deadline b c)).
Proof. intros [Ho Ht Hn Hh Hr]. split; cbn; auto. Qed.

Lemma new_connection_ok m c : new_connection m = Ok c -> conn_ok c.
Proof.
  intros (sp & Hsp & [= <-])%bind_ok. assert (sp_defer sp = false) as Hd.
  { unfold ipcSocketPort, createStreamPort in Hsp. apply bind_ok in Hsp as (p & _ & [= <-]). done. }
  apply createStreamPort_ok in Hsp as (Ho & Ht & Hs & _). split; cbn; auto. by rewrite Hs.
Qed.

Lemma hello_deadline_ok w c :
  conn_ok c -> conn_ok (hello_deadline w c).1 /\
  (sp_stopped (sk_stream c) = true -> sp_stopped (sk_stream (hello_deadline w c).1) = true).
Proof.
  intros Hc. unfold hello_deadline. destruct (sk_deadline c); [|done].
  destruct (connection_step_ok w (STerminate PROTOCOL_ERROR (Some (js "local socket hello deadline exceeded"))) c Hc) as (H1 & H2 & _).
  destruct (connection_step _ _ _) as [c1 e1]. cbn in *. split; [by apply destroy_stopped_ok|done].
Qed.

Lemma socket_close_ok w c :
  conn_ok c -> conn_ok (socket_close w c).1 /\
  (sp_stopped (sk_stream c) = true -> sp_stopped (sk_stream (socket_close w c).1) = true).
Proof.
  intros Hc%destroy_ok. unfold socket_close.
  destruct (connection_step_ok w SClose _ Hc) as (H1 & H2 & H3). destruct (connection_step w SClose _) as [c1 e1]. cbn [fst snd] in *.
  assert (conn_ok (sk_stop_deadline false c1)) as H1'.
  { destruct H1 as [Ho Ht Hn Hh Hr]. split; cbn; auto. }
  destruct (connection_step_ok w (SOp (OpOffFrame HELLO_LISTENER)) _ H1') as (H4 & H5 & H6).
  destruct (connection_step w (SOp _) _) as [c2 e2]. cbn in *. auto.
Qed.

(** Terminating a connection's port ends it, whatever state it was in. *)
Lemma terminate_ends sink code reason p : np_state (terminate sink code reason p).1 <> POpen.
Proof.
  unfold terminate. destruct (decide _) as [E|E]; [|done].
  destruct (writeClose_shape sink code reason
    (set_phase PEnded (default (js "the transport ended with " ++ dec code) reason) p)) as (b & e & -> & _).
  unfold endSink, report. cbn. destruct (np_sinkEnded p); cbn; done.
Qed.

Lemma terminate_stops w code reason c :
  conn_ok c -> sp_stopped (sk_stream (connection_step w (STerminate code reason) c).1) = true.
Proof.
  intros [Ho Ht Hn _ _]. unfold connection_step. cbn [listened stream_step]. unfold deliver_after. rewrite (ok_now _ Ho Hn).
  assert (sp_stopped (deliver_now w (PTerminate code reason) (sk_stream c)).1 = true) as Hs.
  { unfold deliver_now, run_event, call_port. cbn [port_step].
    pose proof (terminate_log (writeTo w) code reason (sp_port (sk_stream c)) (ok_sink _ Ho)) as Hl.
    pose proof (terminate_ends (writeTo w) code reason (sp_port (sk_stream c))) as He.
    destruct (terminate _ _ _ _) as [p evs]. cbn [fst snd] in *. destruct Hl as [[_ Hop] _ _].
    destruct (np_sinkEnded p); [done|]. by destruct He; apply Hop. }
  destruct (deliver_now _ _ _) as [sp evs]. cbn [fst snd] in *.
  unfold releaseSocket. by repeat (case_match; cbn in * ).
Qed.

(** ** The table *)

Record listener_ok (l : ipc_listener) : Prop := {
  lo_size : Z.of_nat (size (il_sockets l)) <= MAX_IPC_CONNECTIONS;
  lo_conns : map_Forall (fun _ c => conn_ok c) (il_conns l);
  lo_handles : forall id, id ∈ il_handles l -> id ∈ il_sockets l /\ is_Some (il_conns l !! id);
  lo_open : il_listening l = true -> forall id, id ∈ il_sockets l -> is_Some (il_conns l !! id) -> id ∈ il_handles l;
  lo_stopped : il_listening l = false ->
    forall id c, id ∈ il_sockets l -> il_conns l !! id = Some c -> sp_stopped (sk_stream c) = true
}.

(** Something that happens to one connection. *)
Lemma on_connection_ok id l f :
  listener_ok l ->
  (forall c, conn_ok c -> conn_ok (f c).1 /\ (sp_stopped (sk_stream c) = true -> sp_stopped (sk_stream (f c).1) = true)) ->
  listener_ok (on_connection id l f).1.
Proof.
  intros [Hsz Hc Hh Ho Hs] Hf. unfold on_connection. destruct (il_conns l !! id) as [c|] eqn:E; [|by split].
  destruct (Hf c (Hc _ _ E)) as [H1 H2]. destruct (f c) as [c' evs]. cbn in *. split; cbn; auto.
  - by apply map_Forall_insert_2.
  - intros id' Hid. destruct (Hh id' Hid). split; [done|]. rewrite lookup_insert_is_Some'. auto.
  - intros L id' Hid His. apply Ho; auto. rewrite lookup_insert_is_Some' in His. destruct His as [->|?]; [by exists c|done].
  - intros L id' c1 Hid. rewrite lookup_insert_Some. intros [[-> <-]|[Hne Hc1]]; [|by eapply Hs].
    apply H2. by apply (Hs L id' c).
Qed.

Lemma on_connection_sockets id l f :
  il_sockets (on_connection id l f).1 = il_sockets l /\ il_listening (on_connection id l f).1 = il_listening l /\
  il_handles (on_connection id l f).1 = il_handles l /\ il_closing (on_connection id l f).1 = il_closing l /\
  (forall id', is_Some (il_conns (on_connection id l f).1 !! id') <-> is_Some (il_conns l !! id')).
Proof.
  unfold on_connection. destruct (il_conns l !! id) as [c|] eqn:E; [|done]. destruct (f c) as [c' evs]. cbn.
  split_and!; try done. intros id'. rewrite lookup_insert_is_Some'. split; [|auto]. intros [->|?]; [by exists c|done].
Qed.

Lemma accept_ok m id w ops throws l :
  listener_ok l -> il_listening l = true -> il_conns l !! id = None -> listener_ok (accept_connection m id w ops throws l).1.
Proof.
  intros Hl Hlis Hid. unfold accept_connection.
  destruct (Z.leb_spec MAX_IPC_CONNECTIONS (Z.of_nat (size (il_sockets l)))) as [_|Hfree]; [done|].
  assert (Z.of_nat (size ({[id]} ∪ il_sockets l)) <= MAX_IPC_CONNECTIONS) as Hsz.
  { pose proof (size_union_alt {[id]} (il_sockets l)) as E. rewrite size_singleton in E.
    pose proof (subseteq_size (il_sockets l ∖ {[id]}) (il_sockets l) ltac:(set_solver)). lia. }
  destruct Hl as [_ Hc Hh Ho Hs].
  destruct (new_connection m) as [c|e] eqn:En.
  - apply new_connection_ok in En. pose proof (proj1 (connection_step_ok w (SOp (OpOnFrame HELLO_LISTENER)) c En)) as H1.
    destruct (connection_step w (SOp (OpOnFrame HELLO_LISTENER)) c) as [c1 e1]. cbn [fst] in H1.
    pose proof (connection_ops_ok w ops c1 H1) as H2. destruct (connection_ops w ops c1) as [c2 e2]. cbn [fst] in H2.
    pose proof (proj1 (connection_step_ok w (SOp (OpClose INTERNAL_CLOSE (Some (js "the connection handler refused this connection")))) c2 H2)) as H3.
    assert (forall c e, conn_ok c ->
      listener_ok (il_set_conn id c (il_set_tables ({[id]} ∪ il_sockets l) (il_handles l ++ [id]) l),
        LConnection id :: map (LStream id) e).1) as Hall.
    { intros c' e' Hc'. split; cbn; [done|by apply map_Forall_insert_2| | |].
      - intros id' [Hin| ->%list_elem_of_singleton]%elem_of_app; rewrite lookup_insert_is_Some'; [|split; [set_solver|by left]].
        destruct (Hh id' Hin). split; [set_solver|by right].
      - intros _ id' Hid' Hsome. apply elem_of_app. destruct (decide (id' = id)) as [->|Hne]; [right; by left|left].
        apply Ho; [done|set_solver|]. by rewrite lookup_insert_ne in Hsome.
      - congruence. }
    destruct throws; [|by apply Hall]. destruct (connection_step w (SOp (OpClose _ _)) c2) as [c3 e3].
    by apply Hall, destroy_ok.
  - split; cbn; [done|done| | |congruence].
    + intros id' Hin. destruct (Hh id' Hin). split; [set_solver|done].
    + intros L id' Hid' Hsome. apply Ho; [done| |done]. destruct (decide (id' = id)) as [->|]; [|set_solver].
      rewrite Hid in Hsome. by destruct Hsome.
Qed.

Lemma terminate_all_ok ws ids l :
  map_Forall (fun _ c => conn_ok c) (il_conns l) ->
  map_Forall (fun _ c => conn_ok c) (il_conns (terminate_all ws ids l).1) /\
  il_sockets (terminate_all ws ids l).1 = il_sockets l /\ il_handles (terminate_all ws ids l).1 = il_handles l /\
  il_listening (terminate_all ws ids l).1 = il_listening l /\ il_closing (terminate_all ws ids l).1 = il_closing l /\
  (forall id, is_Some (il_conns (terminate_all ws ids l).1 !! id) <-> is_Some (il_conns l !! id)) /\
  (forall id c, il_conns (terminate_all ws ids l).1 !! id = Some c ->
     (id ∈ ids \/ exists c0, il_conns l !! id = Some c0 /\ sp_stopped (sk_stream c0) = true) -> sp_stopped (sk_stream c) = true).
Proof.
  revert l. induction ids as [|id ids IH]; intros l Hl; cbn [terminate_all].
  - split_and!; try done. intros id c Hc [?%elem_of_nil|(c0 & Hc0 & Hs)]; [done|]. cbn in Hc. congruence.
  - pose (step := connection_step (ws id) (STerminate RELEASED (Some (js "listener closing")))). fold step.
    destruct (on_connection_sockets id l step) as (E1 & E2 & E3 & E4 & E5).
    assert (map_Forall (fun _ c => conn_ok c) (il_conns (on_connection id l step).1)) as Hl1.
    { unfold on_connection. destruct (il_conns l !! id) as [c0|] eqn:E; [|done].
      pose proof (proj1 (connection_step_ok (ws id) (STerminate RELEASED (Some (js "listener closing"))) c0 (Hl id c0 E))) as Hc0.
      fold step in Hc0. destruct (step c0). by apply map_Forall_insert_2. }
    assert (forall c0, il_conns l !! id = Some c0 -> il_conns (on_connection id l step).1 !! id = Some (step c0).1) as Hid.
    { intros c0 Hc0. unfold on_connection. rewrite Hc0. destruct (step c0). cbn. apply lookup_insert_eq. }
    assert (forall id', id' <> id -> il_conns (on_connection id l step).1 !! id' = il_conns l !! id') as Hne.
    { intros id' Hn. unfold on_connection. destruct (il_conns l !! id) as [c0|]; [|done]. destruct (step c0). cbn.
      by apply lookup_insert_ne. }
    destruct (on_connection id l step) as [l1 e1]. cbn [fst snd] in *.
    destruct (IH l1 Hl1) as (H1 & H2 & H3 & H4 & H5 & H6 & H7).
    destruct (terminate_all ws ids l1) as [l2 e2]. cbn [fst snd] in *.
    split_and!; [done|congruence..| |].
    + intros id'. by rewrite H6, E5.
    + intros id' c Hc Hor. apply (H7 _ _ Hc). destruct (decide (id' = id)) as [->|Hn].
      * right. assert (is_Some (il_conns l !! id)) as [c0 Hc0] by (rewrite <-E5, <-H6; by exists c).
        exists (step c0).1. split; [by apply Hid|]. apply terminate_stops. by apply (Hl id).
      * destruct Hor as [[?|?]%elem_of_cons|(c0 & Hc0 & Hs)]; [done|by left|].
        right. exists c0. by rewrite Hne.
Qed.

(** What [close] leaves behind. *)
Lemma close_listener_spec ws throws l :
  listener_ok l ->
  let l' := (close_listener ws throws l).1 in
  listener_ok l' /\ il_listening l' = false /\ il_handles l' = [] /\ il_sockets l' = il_sockets l /\ il_stopGrace l' = true /\
  il_closing l' = il_closing l ++ [first_failure throws (il_handles l)].
Proof.
  intros [Hsz Hc Hh Ho Hs]. unfold close_listener.
  destruct (terminate_all_ok ws (il_handles l) (il_set_tables (il_sockets l) [] l) Hc) as (H1 & H2 & H3 & H4 & H5 & H6 & H7).
  destruct (terminate_all _ _ _) as [l1 evs]. cbn in *. split_and!; [|congruence..].
  split; cbn; [by rewrite H2|done| |done|].
  - rewrite H3. by intros id ?%elem_of_nil.
  - intros _ id c Hin Hlook. apply (H7 id c Hlook). rewrite H2 in Hin.
    assert (is_Some (il_conns l !! id)) as [c0 Hc0] by (apply H6; by exists c).
    destruct (il_listening l) eqn:L; [left; apply Ho; [done|done|by exists c0]|].
    right. exists c0. split; [done|]. by apply (Hs eq_refl id).
Qed.

Lemma listener_step_ok m i l : listener_ok l -> listener_ok (listener_step m i l).1.
Proof.
  intros Hl. destruct i as [id w ops throws|id w j|id w|id|id|id w|ws throws| |]; cbn [listener_step].
  - destruct (il_listening l) eqn:L; [|done]. cbn [andb]. case_bool_decide; [|done]. by apply accept_ok.
  - apply on_connection_ok; [done|]. intros c Hc. destruct (connection_step_ok w j c Hc) as (? & ? & _). done.
  - apply on_connection_ok; [done|]. intros c. apply hello_deadline_ok.
  - apply on_connection_ok; [done|]. intros c [Hs Ht Hn Hh Hr]. cbn. destruct (sk_grace c) eqn:Eg; (split; [split|]); cbn; rewrite ?Eg; auto.
  - apply on_connection_ok; [done|]. intros c [Hs Ht Hn Hh Hr]. cbn. destruct (sk_grace c) eqn:Eg; (split; [split|]); cbn; rewrite ?Eg; auto.
  - pose proof (on_connection_ok id l (socket_close w) Hl (socket_close_ok w)) as Hl1.
    destruct (on_connection id l (socket_close w)) as [l1 e1]. cbn [fst] in *. destruct Hl1 as [Hsz Hc Hh Ho Hs]. split; cbn; [|done|..].
    + pose proof (subseteq_size (il_sockets l1 ∖ {[id]}) (il_sockets l1) ltac:(set_solver)). lia.
    + intros id' [Hne Hin]%list_elem_of_filter. destruct (Hh id' Hin). set_solver.
    + intros L id' Hin Hsome. apply list_elem_of_filter. split; [set_solver|]. apply Ho; [done|set_solver|done].
    + intros L id' c' Hin. apply Hs; [done|set_solver].
  - by apply close_listener_spec.
  - destruct (il_stopGrace l); [|done]. destruct Hl as [Hsz Hc Hh Ho Hs].
    assert (forall id, is_Some (map_imap (fun id c => Some (if bool_decide (id ∈ il_sockets l) then sk_destroy c else c)) (il_conns l) !! id)
      <-> is_Some (il_conns l !! id)) as Hsome.
    { intros id. rewrite map_lookup_imap. by destruct (il_conns l !! id). }
    split; cbn; [done| | | |].
    + intros id c. rewrite map_lookup_imap. destruct (il_conns l !! id) as [c0|] eqn:E; [|done]. cbn. intros [= <-].
      specialize (Hc id c0 E). case_bool_decide; [by apply destroy_ok|done].
    + intros id Hin. destruct (Hh id Hin). split; [done|]. by apply Hsome.
    + intros L id Hin H'%Hsome. by apply Ho.
    + intros L id c Hin. rewrite map_lookup_imap. destruct (il_conns l !! id) as [c0|] eqn:E; [|done]. cbn. intros [= <-].
      specialize (Hs L id c0 Hin E). by case_bool_decide.
  - destruct (il_listening l) eqn:L; [done|]. cbn [negb andb]. case_bool_decide; [|done]. destruct Hl as [Hsz Hc Hh Ho Hs].
    split; cbn; [done..|]. intros _. by apply Hs.
Qed.

Lemma new_listener_ok : listener_ok new_listener.
Proof. split; cbn; [by vm_compute|by apply map_Forall_empty| | |done]; intros *; [by intros ?%elem_of_nil|set_solver]. Qed.

Lemma reachable_ok m l evs : listener_reachable m l evs -> listener_ok l.
Proof.
  induction 1 as [|i l evs l' evs' _ IH Hs]; [apply new_listener_ok|].
  pose proof (listener_step_ok m i l IH) as Hl. by rewrite Hs in Hl.
Qed.

(** A local listener is never overrun and forgets no socket. Whatever its peers, its
    application and its timers do, it serves at most sixty-four connections at once and
    refuses the next; a connection that has not said hello still has its deadline running or
    is destroyed; and a socket whose port has ended is destroyed or has the timer running that
    will destroy it. *)
Theorem ipc_connections_bounded m l evs :
  listener_reachable m l evs ->
  Z.of_nat (size (il_sockets l)) <= MAX_IPC_CONNECTIONS /\
  (forall id, id ∈ il_handles l -> id ∈ il_sockets l) /\
  (forall id c, il_conns l !! id = Some c ->
     (sk_deadline c = true \/ sk_hello c = true \/ sk_destroyed c = true) /\
     (np_state (sp_port (sk_stream c)) <> POpen -> sk_destroyed c = true \/ sk_grace c = true)) /\
  (forall id w ops throws, il_listening l = true -> il_conns l !! id = None ->
     Z.of_nat (size (il_sockets l)) = MAX_IPC_CONNECTIONS ->
     listener_step m (LAccept id w ops throws) l = (l, [LDiscard id])).
Proof.
  intros [Hsz Hc Hh Ho Hs]%reachable_ok. split_and!; [done|intros id Hin; by destruct (Hh id Hin)| |].
  - intros id c Hlook. destruct (Hc id c Hlook) as [Hsp Ht Hn Hhe Hr]. split; [done|]. intros Hop. apply Hr.
    rewrite (ok_stopped _ Hsp). destruct (np_sinkEnded _) eqn:E; [done|]. by apply (ok_sink _ Hsp) in E.
  - intros id w ops throws L Hid Hfull. cbn. rewrite L, Hid, bool_decide_eq_true_2 by done. cbn.
    unfold accept_connection. by rewrite (proj2 (Z.leb_le _ _)) by lia.
Qed.

(** Closing a local listener reaches every session, and no peer can block it. Whatever
    the callbacks of its connections throw, [close] stops accepting, ends the port of every
    connection and arms the release of its socket, and keeps the first failure to throw once
    the server has closed; when the grace passes every socket that is still there is
    destroyed. *)
Theorem ipc_close_complete m l evs ws throws :
  listener_reachable m l evs ->
  let l' := (listener_step m (LClose ws throws) l).1 in
  il_listening l' = false /\ il_handles l' = [] /\ il_sockets l' = il_sockets l /\
  il_closing l' = il_closing l ++ [first_failure throws (il_handles l)] /\
  (forall i, match i with LAccept _ _ _ _ => listener_step m i l' = (l', []) | _ => True end) /\
  (forall id c, id ∈ il_sockets l' -> il_conns l' !! id = Some c ->
     np_state (sp_port (sk_stream c)) <> POpen /\ (sk_destroyed c = true \/ sk_grace c = true)) /\
  (forall id c, id ∈ il_sockets l' -> il_conns (listener_step m LStopGrace l').1 !! id = Some c -> sk_destroyed c = true).
Proof.
  intros Hl%reachable_ok. cbn [listener_step]. destruct (close_listener_spec ws throws l Hl) as (Hl' & L & Hh & Hsk & Hg & Hcl).
  set (l' := (close_listener ws throws l).1) in *. split_and!; try done.
  - intros [id w ops th| | | | | | | |]; try done. cbn. by rewrite L.
  - intros id c Hin Hc. pose proof (lo_stopped _ Hl' L id c Hin Hc) as Hst. destruct (lo_conns _ Hl' id c Hc) as [Hsp _ _ _ Hr].
    split; [|auto]. rewrite (ok_stopped _ Hsp) in Hst. intros Hop%(ok_sink _ Hsp). congruence.
  - intros id c Hin. rewrite Hg. cbn. rewrite map_lookup_imap. destruct (il_conns l' !! id) as [c0|]; [|done]. cbn.
    rewrite bool_decide_eq_true_2 by done. by intros [= <-].
Qed.
End ListenerFacts.

(** ** A listener that closes over a peer that never spoke *)

#[local] Existing Instance conforming_checker.
#[local] Existing Instance plain_engine.

Definition listener_run (m : option jsarg) (ins : list listener_input) : ipc_listener * list listener_effect :=
  fold_left (fun '(l, evs) i => let '(l', evs') := listener_step m i l in (l', evs ++ evs')) ins (new_listener, []).

Lemma listener_run_reachable m ins : listener_reachable m (listener_run m ins).1 (listener_run m ins).2.
Proof.
  induction ins as [|i ins IH] using rev_ind; [constructor|].
  unfold listener_run in *. rewrite fold_left_app. cbn [fold_left]. destruct (fold_left _ ins _) as [l evs].
  destruct (listener_step m i l) as [l' evs'] eqn:E. by eapply listener_next.
Qed.

Definition silent_peers : list listener_input :=
  [LAccept 1 open_pipe [OpOnFrame 1; OpOnClosed 1] false; LAccept 2 open_pipe [] true; LHelloDeadline 1 open_pipe].

Lemma ipc_connections_bounded_witness :
  size (il_sockets (listener_run None silent_peers).1) = 2%nat /\
  Z.of_nat (size (il_sockets (listener_run None silent_peers).1)) <= MAX_IPC_CONNECTIONS.
Proof.
  split; [vm_compute; reflexivity|].
  exact (proj1 (ipc_connections_bounded None _ _ (listener_run_reachable None silent_peers))).
Defined.

Definition slow_peer : list listener_input := [LAccept 1 open_pipe [OpOnFrame 1; OpOnClosed 1] false].

Lemma ipc_close_complete_witness :
  il_handles (listener_run None slow_peer).1 = [1%nat] /\
  il_closing (listener_step None (LClose (fun _ => open_pipe) (fun _ => Some (js "callback failed"))) (listener_run None slow_peer).1).1 =
    [Some (js "callback failed")].
Proof.
  split; [vm_compute; reflexivity|].
  rewrite (proj1 (proj2 (proj2 (proj2 (ipc_close_complete None _ _ (fun _ => open_pipe) (fun _ => Some (js "callback failed"))
    (listener_run_reachable None slow_peer)))))). vm_compute. reflexivity.
Defined.

(** A frame ceiling below the floor is noticed by the first accept, as a throw out of the
    server's connection event, and the socket stays in the table. *)
Example bad_ceiling_uncaught :
  let '(l, evs) := listener_run (Some (ANum (NInt 1))) slow_peer in
  size (il_sockets l) = 1%nat /\ il_handles l = [] /\ length evs = 1%nat /\ il_listening l = true.
Proof. by vm_compute. Qed.
