(* ===== verification/MessageParts.v ===== *)
(** * Message parts

    The content blocks of an assistant message, [apps/shared/src/types/agent-events.ts],
    and the rules both the hub and the client apply to them: vendor notices
    ([apps/shared/src/external-agents/notice.ts]), the outcome of an activity whose close
    was omitted ([terminal-status.ts]), the merging of adjacent runs
    ([apps/shared/src/generation/merge-message-parts.ts]) and the lifecycle of a tool call
    ([apps/shared/src/tool-executions/lifecycle.ts]). *)

From S2P Require Import Prelude Json.

(** ** The lifecycle of a tool call *)

Inductive ToolExecutionStatus : Type := queued | running | awaiting_user | succeeded | failed_tool | cancelled_tool | timed_out.
Inductive ToolExecutionSource : Type := builtin | skill | mcp | subagent.

Global Instance ToolExecutionStatus_eq_dec : EqDecision ToolExecutionStatus.
Proof. solve_decision. Defined.

(** Times and durations are JavaScript numbers of milliseconds; the reducer compares none of them. *)
Record ToolExecutionSnapshot : Type := {
  tx_status : ToolExecutionStatus;
  tx_source : ToolExecutionSource;
  tx_queuedAt : Z;
  tx_startedAt : option Z;
  tx_awaitingUserAt : option Z;
  tx_finishedAt : option Z;
  tx_durationMs : option Z;
  tx_reasonCode : option jstring
}.

Definition isTerminalToolExecutionStatus (s : ToolExecutionStatus) : bool :=
  match s with succeeded | failed_tool | cancelled_tool | timed_out => true | _ => false end.

(** [VALID_TRANSITIONS] *)
Definition canTransitionToolExecution (from to : ToolExecutionStatus) : bool :=
  match from, to with
  | queued, (running | succeeded | failed_tool | cancelled_tool | timed_out) => true
  | running, (awaiting_user | succeeded | failed_tool | cancelled_tool | timed_out) => true
  | awaiting_user, (running | succeeded | failed_tool | cancelled_tool | timed_out) => true
  | _, _ => false
  end.

(** The duration of a transition is given already rounded ([Math.round]). *)
Record ToolExecutionTransition : Type := {
  tt_status : ToolExecutionStatus;
  tt_at : Z;
  tt_durationMs : option Z;
  tt_reasonCode : option jstring
}.

Definition createToolExecutionSnapshot (source : ToolExecutionSource) (queuedAt : Z) : ToolExecutionSnapshot :=
  {| tx_status := queued; tx_source := source; tx_queuedAt := queuedAt; tx_startedAt := None; tx_awaitingUserAt := None;
     tx_finishedAt := None; tx_durationMs := None; tx_reasonCode := None |}.

Definition applyToolExecutionTransition (s : ToolExecutionSnapshot) (t : ToolExecutionTransition) : ToolExecutionSnapshot :=
  if negb (canTransitionToolExecution (tx_status s) (tt_status t)) then s
  else
    let terminal := isTerminalToolExecutionStatus (tt_status t) in
    {| tx_status := tt_status t; tx_source := tx_source s; tx_queuedAt := tx_queuedAt s;
       tx_startedAt := match tt_status t, tx_startedAt s with running, None => Some (tt_at t) | _, at_ => at_ end;
       tx_awaitingUserAt := match tt_status t with awaiting_user => Some (tt_at t) | _ => tx_awaitingUserAt s end;
       tx_finishedAt := if terminal then Some (tt_at t) else tx_finishedAt s;
       tx_durationMs := match terminal, tt_durationMs t with true, Some d => Some (Z.max 0 d) | _, _ => tx_durationMs s end;
       tx_reasonCode := match terminal, tt_reasonCode t with true, Some r => Some r | _, _ => tx_reasonCode s end |}.

(** What is known of a tool call when it is read back. *)
Record ToolCallLifecycleView : Type := {
  tv_execution : option ToolExecutionSnapshot;
  tv_hasResult : bool;
  tv_isError : bool;
  tv_isStreaming : bool
}.

Definition resolveLegacyResultStatus (isError : bool) : ToolExecutionStatus := if isError then failed_tool else succeeded.

Definition resolveToolCallStatus (v : ToolCallLifecycleView) : ToolExecutionStatus :=
  match tv_execution v with
  | Some x =>
      if isTerminalToolExecutionStatus (tx_status x) then tx_status x
      else if tv_isStreaming v then tx_status x
      else if tv_hasResult v then resolveLegacyResultStatus (tv_isError v) else cancelled_tool
  | None =>
      if tv_hasResult v then resolveLegacyResultStatus (tv_isError v)
      else if tv_isStreaming v then running else cancelled_tool
  end.

Definition isActiveToolExecutionStatus (s : ToolExecutionStatus) : bool :=
  match s with queued | running | awaiting_user => true | _ => false end.

(** ** Parts of an external turn *)

Inductive activity_status : Type := act_running | act_completed | act_failed | act_cancelled.
Inductive decision_source : Type := by_user | by_auto_review | by_expiry | by_cancel.
Inductive terminal_reason : Type :=
| r_completed | r_cancelled_by_user | r_interrupted | r_vendor_error | r_runtime_disconnected | r_hub_restarted
| r_sequence_gap | r_limit_exceeded | r_consent_revoked | r_session_lost | r_acceptance_unknown.

Global Instance activity_status_eq_dec : EqDecision activity_status.
Proof. solve_decision. Defined.
Global Instance decision_source_eq_dec : EqDecision decision_source.
Proof. solve_decision. Defined.
Global Instance terminal_reason_eq_dec : EqDecision terminal_reason.
Proof. solve_decision. Defined.

(** [ExternalUsage]: sparse token counts by field name. *)
Definition ExternalUsage : Type := gmap jstring Z.

(** [{ ...current, ...report }] *)
Definition merge_usage (current : option ExternalUsage) (report : ExternalUsage) : ExternalUsage :=
  report ∪ default ∅ current.

Record agent_error : Type := { ae_code : jstring; ae_message : jstring }.
Record agent_remedy : Type := { rm_kind : jstring; rm_command : option jstring }.

Record ExternalActivityPart : Type := {
  xa_targetId : jstring; xa_callId : jstring; xa_name : jstring; xa_kind : jstring; xa_title : jstring;
  xa_detail : option jstring; xa_status : activity_status; xa_isError : bool; xa_truncated : bool
}.

Record ExternalApprovalPart : Type := {
  xp_targetId : jstring; xp_requestId : jstring; xp_kind : jstring; xp_title : jstring; xp_detail : option jstring;
  xp_options : list json; xp_expiresAtMs : Z; xp_decision : option jstring; xp_decisionSource : option decision_source;
  xp_resolvedAt : option Z; xp_truncated : bool
}.

(** [xs_rejected] is the reason of a rejection; [None] is the status [accepted]. *)
Record ExternalSteerPart : Type := {
  xs_targetId : jstring; xs_clientMessageId : jstring; xs_text : jstring; xs_rejected : option jstring; xs_createdAt : Z
}.

Record ExternalNoticePart : Type := { xn_severity : jstring; xn_title : jstring; xn_description : option jstring }.

(** [xt_terminal] is the terminal reason; [None] is the status [active]. *)
Record ExternalTurnPart : Type := {
  xt_targetId : jstring; xt_sessionId : jstring; xt_nativeTurnId : option jstring; xt_terminal : option terminal_reason;
  xt_startedAt : Z; xt_updatedAt : Z; xt_lastSequence : Z; xt_eventCount : Z; xt_persistedBytes : Z;
  xt_usage : option ExternalUsage; xt_error : option agent_error; xt_remedy : option agent_remedy;
  xt_unavailableReason : option jstring; xt_requiredVersion : option jstring; xt_conversationReset : option jstring
}.

(** ** The other parts *)

Inductive image_status : Type := generating | image_completed | image_error.

Record GeneratedImagePart : Type := {
  gi_imageId : jstring; gi_toolCallId : jstring; gi_status : image_status; gi_prompt : jstring; gi_imageUrl : option jstring;
  gi_error : option jstring; gi_errorCode : option jstring; gi_modelName : option jstring; gi_generationTime : option jstring
}.

Record McpMediaPart : Type := {
  mm_toolCallId : jstring; mm_serverSlug : jstring; mm_toolName : jstring; mm_kind : jstring; mm_mimeType : jstring;
  mm_url : jstring; mm_uri : option jstring
}.

Record McpElicitationPart : Type := {
  me_elicitationId : jstring; me_toolCallId : jstring; me_serverSlug : jstring; me_message : jstring; me_fields : list json;
  me_status : jstring; me_reason : option jstring
}.

Record SubagentTraceEvent : Type := { te_event : jstring; te_attempt : option number; te_detail : option jstring }.

Global Instance SubagentTraceEvent_eq_dec : EqDecision SubagentTraceEvent.
Proof. solve_decision. Defined.

(** [st_messages] are pairs of a role and a text, [st_tools] of a call id and a name. *)
Record SubagentTracePart : Type := {
  st_toolCallId : jstring; st_agentId : jstring; st_agentName : jstring; st_status : jstring; st_summary : jstring;
  st_toolCallCount : Z; st_lastMessage : option jstring; st_messages : list (jstring * jstring);
  st_tools : list (jstring * jstring); st_events : option (list SubagentTraceEvent); st_error : option jstring
}.

Record ErrorPart : Type := {
  ep_text : jstring; ep_unavailableReason : option jstring; ep_remedy : option agent_remedy;
  ep_requiredVersion : option jstring; ep_code : option jstring
}.

Record ContinuationPart : Type := {
  cp_provider : jstring; cp_modelName : jstring; cp_fromProvider : option jstring; cp_fromMode : jstring; cp_toMode : jstring;
  cp_reasonCode : jstring; cp_detail : option jstring; cp_recovered : bool
}.

Inductive MessagePart : Type :=
| PText (text : jstring) (incomplete : bool)
| PThinking (text : jstring) (redacted incomplete : bool)
| PToolCall (toolCallId name : jstring) (args : json) (execution : option ToolExecutionSnapshot)
| PToolResult (toolCallId content : jstring) (isError : option bool)
| PGeneratedImage (g : GeneratedImagePart)
| PMcpMedia (m : McpMediaPart)
| PQuestion (toolCallId : jstring) (questions : list json)
| PMcpElicitation (e : McpElicitationPart)
| PTodo (toolCallId : jstring) (todos : list json)
| PSubagentTrace (t : SubagentTracePart)
| PTurnCheckpoint (checkpoint : json)
| PExternalActivity (a : ExternalActivityPart)
| PExternalApproval (a : ExternalApprovalPart)
| PExternalSteer (s : ExternalSteerPart)
| PExternalNotice (n : ExternalNoticePart)
| PExternalTurn (t : ExternalTurnPart)
| PErrorPart (e : ErrorPart)
| PSystemEvent (event : jstring) (detail : option jstring)
| PContinuation (c : ContinuationPart).

(** ** [notice.ts] *)

Definition MAX_EXTERNAL_NOTICES_PER_TURN : nat := 8.

Definition externalNoticePart (severity title : jstring) (description : option jstring) : MessagePart :=
  PExternalNotice {| xn_severity := severity; xn_title := title; xn_description := description |}.

Definition is_notice (p : MessagePart) : bool := match p with PExternalNotice _ => true | _ => false end.

Definition canAddExternalNotice (parts : list MessagePart) : bool :=
  (length (List.filter is_notice parts) <? MAX_EXTERNAL_NOTICES_PER_TURN)%nat.

(** [lastContentIndex]: the loop from the last part; [None] is -1. *)
Fixpoint last_content_from (parts : list MessagePart) (n : nat) : option nat :=
  match n with
  | O => None
  | S k => match parts !! k with
           | Some p => if is_notice p then last_content_from parts k else Some k
           | None => last_content_from parts k
           end
  end.

Definition lastContentIndex (parts : list MessagePart) : option nat := last_content_from parts (length parts).

(** ** [terminal-status.ts] *)

Definition externalActivityStatusForTerminal (r : terminal_reason) : activity_status :=
  match r with
  | r_completed => act_completed
  | r_cancelled_by_user | r_interrupted | r_consent_revoked => act_cancelled
  | _ => act_failed
  end.

(** ** [merge-message-parts.ts] *)

(** [isMergeable(previous) && previous.type === part.type]: the run of two parts, or none. *)
Definition merge_run (previous part : MessagePart) : option MessagePart :=
  match previous, part with
  | PText a _, PText b incomplete => Some (PText (a ++ b) incomplete)
  | PThinking a r _, PThinking b r' incomplete => Some (PThinking (a ++ b) (r || r') incomplete)
  | _, _ => None
  end.

(** One turn of the loop: [merged] is kept last first. *)
Definition merge_part (merged : list MessagePart) (part : MessagePart) : list MessagePart :=
  match part with
  | PText [] _ => merged
  | _ =>
      match merged with
      | previous :: rest =>
          match merge_run previous part with
          | Some run => run :: rest
          | None => part :: merged
          end
      | [] => [part]
      end
  end.

Definition mergeMessageParts (parts : list MessagePart) : list MessagePart := rev (fold_left merge_part parts []).
