(* ===== verification/Transcript.v ===== *)
(** * The durable record of an external turn

    [apps/api/src/modules/external-agents/domain/external-turn-transcript.ts]: the class that
    builds what one external turn looks like on disk, event by event, with the remedy of a
    refused turn ([external-turn-error-remedy.ts], [apps/shared/src/external-agents/remedies.ts]).

    The class mutates the objects of [#parts] through references it keeps elsewhere
    ([#turnPart], [#openThinking], three maps), so the objects have identities here: a slot
    of the list either is the object of [#turnPart] or names an object by a number.

    The length of an event's JSON depends on the object that arrived and is an argument. *)

From S2P Require Import Prelude Utf8 Json MessageParts.

(** ** Neutral events *)

Record ExternalThreadUsage : Type := {
  tu_last : option ExternalUsage; tu_total : option ExternalUsage; tu_contextWindowTokens : option Z
}.

Record ExternalApprovalRequest : Type := {
  ar_requestId : jstring; ar_kind : jstring; ar_title : jstring; ar_detail : option jstring;
  ar_options : list json; ar_expiresAtMs : Z; ar_truncated : bool
}.

Inductive ExternalAgentEvent : Type :=
| session_started
| commands_available (commands : list json)
| text_delta (text : jstring)
| reasoning_delta (text : jstring)
| reasoning_started
| reasoning_ended
| activity_started (callId name kind title : jstring) (detail : option jstring) (truncated : bool)
| activity_updated (callId : jstring) (title detail : option jstring) (truncated : bool)
| activity_completed (callId : jstring) (status : activity_status) (detail : option jstring) (truncated : bool)
| approval_requested (request : ExternalApprovalRequest)
| approval_resolved (requestId : jstring) (optionId : option jstring) (source : decision_source)
| usage_event (usage : ExternalUsage)
| thread_usage (usage : ExternalThreadUsage)
| account_limits (limits : json)
| notice_event (severity title : jstring) (description : option jstring)
| cancelled_event
| completed_event
| error_event (error : agent_error).

(** ** Remedies *)

Definition EXTERNAL_AUTH_REQUIRED_ERROR_CODE : jstring := js "acp-auth-required".

(** [EXTERNAL_AGENT_REMEDIES] at the one reason [externalRemedyForError] asks for. *)
Definition signed_out_remedy : jstring := js "sign-in".

(** [login.json], as [externalAgentLoginCommand] joins it; no other target has a descriptor. *)
Definition productLoginCommand (targetId : jstring) : option jstring :=
  if decide (targetId = js "codex") then Some (js "codex login")
  else if decide (targetId = js "cursor") then Some (js "cursor-agent login")
  else if decide (targetId = js "claude") then Some (js "claude auth login")
  else None.

Definition externalRemedyForError (error : agent_error) (loginCommand : option jstring) : option agent_remedy :=
  if decide (ae_code error = EXTERNAL_AUTH_REQUIRED_ERROR_CODE) then
    Some {| rm_kind := signed_out_remedy; rm_command := loginCommand |}
  else None.

Definition turnErrorRemedyFor (targetId : jstring) (error : agent_error) : option agent_remedy :=
  externalRemedyForError error (productLoginCommand targetId).

(** The presentation of a refused reopen. *)
Record OpenRefusalPresentation : Type := {
  or_unavailableReason : jstring; or_remedy : agent_remedy; or_requiredVersion : option jstring
}.

(** ** State *)

Inductive slot : Type := turn_slot | item (id : nat) (p : MessagePart).

(** A JavaScript [Map]: keys in the order of their first insertion. *)
Fixpoint map_set {A} (k : jstring) (v : A) (m : list (jstring * A)) : list (jstring * A) :=
  match m with
  | [] => [(k, v)]
  | (k', v') :: rest => if decide (k = k') then (k', v) :: rest else (k', v') :: map_set k v rest
  end.

Fixpoint map_get {A} (k : jstring) (m : list (jstring * A)) : option A :=
  match m with
  | [] => None
  | (k', v) :: rest => if decide (k = k') then Some v else map_get k rest
  end.

Record Transcript : Type := {
  tr_parts : list slot;
  tr_turn : ExternalTurnPart;
  tr_fresh : nat;
  tr_activities : list (jstring * nat);
  tr_approvals : list (jstring * nat);
  tr_steers : list (jstring * nat);
  tr_maxBytes : Z;
  tr_maxEvents : Z;
  tr_text : jstring;
  tr_openThinking : option nat;
  tr_terminated : bool;
  tr_vendorInterrupted : bool
}.

Definition EXTERNAL_TURN_PAYLOAD_MAX_BYTES : Z := 2 * 1024 * 1024.
Definition EXTERNAL_TURN_MAX_EVENTS : Z := 10000.

Definition new_turn (targetId sessionId : jstring) (startedAt : Z) : ExternalTurnPart :=
  {| xt_targetId := targetId; xt_sessionId := sessionId; xt_nativeTurnId := None; xt_terminal := None;
     xt_startedAt := startedAt; xt_updatedAt := startedAt; xt_lastSequence := 0; xt_eventCount := 0; xt_persistedBytes := 0;
     xt_usage := None; xt_error := None; xt_remedy := None; xt_unavailableReason := None; xt_requiredVersion := None;
     xt_conversationReset := None |}.

(** The constructor. *)
Definition new_transcript (targetId sessionId : jstring) (startedAt : Z) (maxBytes maxEvents : option Z) : Transcript :=
  {| tr_parts := [turn_slot]; tr_turn := new_turn targetId sessionId startedAt; tr_fresh := 0;
     tr_activities := []; tr_approvals := []; tr_steers := [];
     tr_maxBytes := default EXTERNAL_TURN_PAYLOAD_MAX_BYTES maxBytes;
     tr_maxEvents := default EXTERNAL_TURN_MAX_EVENTS maxEvents;
     tr_text := []; tr_openThinking := None; tr_terminated := false; tr_vendorInterrupted := false |}.

(** *** Assignments to a field *)

Definition with_turn (f : ExternalTurnPart -> ExternalTurnPart) (t : Transcript) : Transcript :=
  {| tr_parts := tr_parts t; tr_turn := f (tr_turn t); tr_fresh := tr_fresh t; tr_activities := tr_activities t;
     tr_approvals := tr_approvals t; tr_steers := tr_steers t; tr_maxBytes := tr_maxBytes t; tr_maxEvents := tr_maxEvents t;
     tr_text := tr_text t; tr_openThinking := tr_openThinking t; tr_terminated := tr_terminated t;
     tr_vendorInterrupted := tr_vendorInterrupted t |}.

Definition with_parts (f : list slot -> list slot) (t : Transcript) : Transcript :=
  {| tr_parts := f (tr_parts t); tr_turn := tr_turn t; tr_fresh := tr_fresh t; tr_activities := tr_activities t;
     tr_approvals := tr_approvals t; tr_steers := tr_steers t; tr_maxBytes := tr_maxBytes t; tr_maxEvents := tr_maxEvents t;
     tr_text := tr_text t; tr_openThinking := tr_openThinking t; tr_terminated := tr_terminated t;
     tr_vendorInterrupted := tr_vendorInterrupted t |}.

Definition with_text (text : jstring) (t : Transcript) : Transcript :=
  {| tr_parts := tr_parts t; tr_turn := tr_turn t; tr_fresh := tr_fresh t; tr_activities := tr_activities t;
     tr_approvals := tr_approvals t; tr_steers := tr_steers t; tr_maxBytes := tr_maxBytes t; tr_maxEvents := tr_maxEvents t;
     tr_text := text; tr_openThinking := tr_openThinking t; tr_terminated := tr_terminated t;
     tr_vendorInterrupted := tr_vendorInterrupted t |}.

Definition with_open (open : option nat) (t : Transcript) : Transcript :=
  {| tr_parts := tr_parts t; tr_turn := tr_turn t; tr_fresh := tr_fresh t; tr_activities := tr_activities t;
     tr_approvals := tr_approvals t; tr_steers := tr_steers t; tr_maxBytes := tr_maxBytes t; tr_maxEvents := tr_maxEvents t;
     tr_text := tr_text t; tr_openThinking := open; tr_terminated := tr_terminated t;
     tr_vendorInterrupted := tr_vendorInterrupted t |}.

Definition with_flags (terminated interrupted : bool) (t : Transcript) : Transcript :=
  {| tr_parts := tr_parts t; tr_turn := tr_turn t; tr_fresh := tr_fresh t; tr_activities := tr_activities t;
     tr_approvals := tr_approvals t; tr_steers := tr_steers t; tr_maxBytes := tr_maxBytes t; tr_maxEvents := tr_maxEvents t;
     tr_text := tr_text t; tr_openThinking := tr_openThinking t; tr_terminated := terminated;
     tr_vendorInterrupted := interrupted |}.

Definition with_maps (activities approvals steers : list (jstring * nat)) (t : Transcript) : Transcript :=
  {| tr_parts := tr_parts t; tr_turn := tr_turn t; tr_fresh := tr_fresh t; tr_activities := activities;
     tr_approvals := approvals; tr_steers := steers; tr_maxBytes := tr_maxBytes t; tr_maxEvents := tr_maxEvents t;
     tr_text := tr_text t; tr_openThinking := tr_openThinking t; tr_terminated := tr_terminated t;
     tr_vendorInterrupted := tr_vendorInterrupted t |}.

(** [this.#parts.push(part)] of a fresh object, whose identity is [tr_fresh t]. *)
Definition push_part (p : MessagePart) (t : Transcript) : Transcript :=
  {| tr_parts := tr_parts t ++ [item (tr_fresh t) p]; tr_turn := tr_turn t; tr_fresh := S (tr_fresh t);
     tr_activities := tr_activities t; tr_approvals := tr_approvals t; tr_steers := tr_steers t;
     tr_maxBytes := tr_maxBytes t; tr_maxEvents := tr_maxEvents t; tr_text := tr_text t;
     tr_openThinking := tr_openThinking t; tr_terminated := tr_terminated t;
     tr_vendorInterrupted := tr_vendorInterrupted t |}.

(** *** Reading *)

Definition deref (t : Transcript) (s : slot) : MessagePart :=
  match s with turn_slot => PExternalTurn (tr_turn t) | item _ p => p end.

(** The getter [parts]. *)
Definition parts (t : Transcript) : list MessagePart := map (deref t) (tr_parts t).

Definition slot_id (s : slot) : option nat := match s with turn_slot => None | item id _ => Some id end.

Definition slot_is (id : nat) (s : slot) : bool :=
  match s with turn_slot => false | item id' _ => (id =? id')%nat end.

(** Mutation of the object [id]; an object no longer in the list is unreachable from [parts]. *)
Definition update_object (id : nat) (f : MessagePart -> MessagePart) : list slot -> list slot :=
  map (fun s => match s with item id' p => if (id =? id')%nat then item id' (f p) else s | turn_slot => s end).

Definition object (t : Transcript) (id : nat) : option MessagePart :=
  deref t <$> List.find (slot_is id) (tr_parts t).

Fixpoint last_index {A} (f : A -> bool) (l : list A) : option nat :=
  match l with
  | [] => None
  | x :: rest => match last_index f rest with Some k => Some (S k) | None => if f x then Some O else None end
  end.

(** [this.#parts[lastContentIndex(this.#parts)]], by identity. *)
Definition trailing_content (t : Transcript) : option slot :=
  match lastContentIndex (parts t) with Some k => tr_parts t !! k | None => None end.

Definition trailing_is (t : Transcript) (id : nat) : bool :=
  match trailing_content t with Some s => slot_is id s | None => false end.

(** ** Operations *)

Definition rebindSession (sessionId : jstring) : Transcript -> Transcript :=
  with_turn (fun p => {| xt_targetId := xt_targetId p; xt_sessionId := sessionId; xt_nativeTurnId := xt_nativeTurnId p;
    xt_terminal := xt_terminal p; xt_startedAt := xt_startedAt p; xt_updatedAt := xt_updatedAt p;
    xt_lastSequence := xt_lastSequence p; xt_eventCount := xt_eventCount p; xt_persistedBytes := xt_persistedBytes p;
    xt_usage := xt_usage p; xt_error := xt_error p; xt_remedy := xt_remedy p; xt_unavailableReason := xt_unavailableReason p;
    xt_requiredVersion := xt_requiredVersion p; xt_conversationReset := xt_conversationReset p |}).

Definition markConversationReset (reason : jstring) : Transcript -> Transcript :=
  with_turn (fun p => {| xt_targetId := xt_targetId p; xt_sessionId := xt_sessionId p; xt_nativeTurnId := xt_nativeTurnId p;
    xt_terminal := xt_terminal p; xt_startedAt := xt_startedAt p; xt_updatedAt := xt_updatedAt p;
    xt_lastSequence := xt_lastSequence p; xt_eventCount := xt_eventCount p; xt_persistedBytes := xt_persistedBytes p;
    xt_usage := xt_usage p; xt_error := xt_error p; xt_remedy := xt_remedy p; xt_unavailableReason := xt_unavailableReason p;
    xt_requiredVersion := xt_requiredVersion p; xt_conversationReset := Some reason |}).

Definition bindNativeTurn (nativeTurnId : jstring) : Transcript -> Transcript :=
  with_turn (fun p => {| xt_targetId := xt_targetId p; xt_sessionId := xt_sessionId p; xt_nativeTurnId := Some nativeTurnId;
    xt_terminal := xt_terminal p; xt_startedAt := xt_startedAt p; xt_updatedAt := xt_updatedAt p;
    xt_lastSequence := xt_lastSequence p; xt_eventCount := xt_eventCount p; xt_persistedBytes := xt_persistedBytes p;
    xt_usage := xt_usage p; xt_error := xt_error p; xt_remedy := xt_remedy p; xt_unavailableReason := xt_unavailableReason p;
    xt_requiredVersion := xt_requiredVersion p; xt_conversationReset := xt_conversationReset p |}).

(** [lastSequence], [updatedAt], [eventCount] and [persistedBytes] of one event. *)
Definition charge (sequence : option Z) (at_ bytes : Z) (p : ExternalTurnPart) : ExternalTurnPart :=
  {| xt_targetId := xt_targetId p; xt_sessionId := xt_sessionId p; xt_nativeTurnId := xt_nativeTurnId p;
     xt_terminal := xt_terminal p; xt_startedAt := xt_startedAt p; xt_updatedAt := at_;
     xt_lastSequence := default (xt_lastSequence p) sequence; xt_eventCount := xt_eventCount p + 1;
     xt_persistedBytes := xt_persistedBytes p + bytes;
     xt_usage := xt_usage p; xt_error := xt_error p; xt_remedy := xt_remedy p; xt_unavailableReason := xt_unavailableReason p;
     xt_requiredVersion := xt_requiredVersion p; xt_conversationReset := xt_conversationReset p |}.

Definition set_terminal (reason : terminal_reason) (at_ : Z) (p : ExternalTurnPart) : ExternalTurnPart :=
  {| xt_targetId := xt_targetId p; xt_sessionId := xt_sessionId p; xt_nativeTurnId := xt_nativeTurnId p;
     xt_terminal := Some reason; xt_startedAt := xt_startedAt p; xt_updatedAt := at_;
     xt_lastSequence := xt_lastSequence p; xt_eventCount := xt_eventCount p; xt_persistedBytes := xt_persistedBytes p;
     xt_usage := xt_usage p; xt_error := xt_error p; xt_remedy := xt_remedy p; xt_unavailableReason := xt_unavailableReason p;
     xt_requiredVersion := xt_requiredVersion p; xt_conversationReset := xt_conversationReset p |}.

Definition set_usage (report : ExternalUsage) (p : ExternalTurnPart) : ExternalTurnPart :=
  {| xt_targetId := xt_targetId p; xt_sessionId := xt_sessionId p; xt_nativeTurnId := xt_nativeTurnId p;
     xt_terminal := xt_terminal p; xt_startedAt := xt_startedAt p; xt_updatedAt := xt_updatedAt p;
     xt_lastSequence := xt_lastSequence p; xt_eventCount := xt_eventCount p; xt_persistedBytes := xt_persistedBytes p;
     xt_usage := Some (merge_usage (xt_usage p) report); xt_error := xt_error p; xt_remedy := xt_remedy p;
     xt_unavailableReason := xt_unavailableReason p; xt_requiredVersion := xt_requiredVersion p;
     xt_conversationReset := xt_conversationReset p |}.

Definition set_error (error : agent_error) (remedy : option agent_remedy) (reason version : option jstring)
    (p : ExternalTurnPart) : ExternalTurnPart :=
  {| xt_targetId := xt_targetId p; xt_sessionId := xt_sessionId p; xt_nativeTurnId := xt_nativeTurnId p;
     xt_terminal := xt_terminal p; xt_startedAt := xt_startedAt p; xt_updatedAt := xt_updatedAt p;
     xt_lastSequence := xt_lastSequence p; xt_eventCount := xt_eventCount p; xt_persistedBytes := xt_persistedBytes p;
     xt_usage := xt_usage p; xt_error := Some error; xt_remedy := remedy; xt_unavailableReason := reason;
     xt_requiredVersion := version; xt_conversationReset := xt_conversationReset p |}.

(** *** Reasoning *)

(** [#closeThinking]: the part that survived, by identity. *)
Definition closeThinking (t : Transcript) : Transcript * option nat :=
  let t' := with_open None t in
  match tr_openThinking t with
  | None => (t', None)
  | Some open =>
      match object t open with
      | Some (PThinking [] _ _) =>
          (match last_index (slot_is open) (tr_parts t) with
           | Some k => with_parts (fun ps => delete k ps) t'
           | None => t'
           end, None)
      | _ => (t', Some open)
      end
  end.

(** [#trailingThinking]: the last part when it is a reasoning block. *)
Definition trailingThinking (t : Transcript) : option nat :=
  match last (tr_parts t) with Some (item id (PThinking _ _ _)) => Some id | _ => None end.

Definition mark_incomplete (p : MessagePart) : MessagePart :=
  match p with PText s _ => PText s true | PThinking s r _ => PThinking s r true | _ => p end.

(** [#markIncomplete] *)
Definition markIncomplete (id : option nat) (t : Transcript) : Transcript :=
  match id with Some id => with_parts (update_object id mark_incomplete) t | None => t end.

Inductive text_kind : Type := kind_text | kind_thinking.

Definition is_kind (k : text_kind) (p : MessagePart) : bool :=
  match k, p with kind_text, PText _ _ | kind_thinking, PThinking _ _ _ => true | _, _ => false end.

Definition fresh_run (k : text_kind) (text : jstring) : MessagePart :=
  match k with kind_text => PText text false | kind_thinking => PThinking text false false end.

(** [last.text += text] *)
Definition add_text (text : jstring) (p : MessagePart) : MessagePart :=
  match p with PText s i => PText (s ++ text) i | PThinking s r i => PThinking (s ++ text) r i | _ => p end.

(** [#appendText] *)
Definition appendText (k : text_kind) (text : jstring) (t : Transcript) : Transcript :=
  match last (tr_parts t) with
  | Some (item id p) => if is_kind k p then with_parts (update_object id (add_text text)) t else push_part (fresh_run k text) t
  | _ => push_part (fresh_run k text) t
  end.

(** [#appendReasoning] *)
Definition appendReasoning (text : jstring) (t : Transcript) : Transcript :=
  match tr_openThinking t with
  | Some open => if trailing_is t open then with_parts (update_object open (add_text text)) t
                 else appendText kind_thinking text t
  | None => appendText kind_thinking text t
  end.

(** *** The end of the turn *)

(** The body of [finalize]'s loop at one activity. *)
Definition settle_activity (status : activity_status) (p : MessagePart) : MessagePart :=
  match p with
  | PExternalActivity a =>
      match xa_status a with
      | act_running =>
          PExternalActivity {| xa_targetId := xa_targetId a; xa_callId := xa_callId a; xa_name := xa_name a; xa_kind := xa_kind a;
            xa_title := xa_title a; xa_detail := xa_detail a; xa_status := status;
            xa_isError := match status with act_failed => true | _ => xa_isError a end; xa_truncated := xa_truncated a |}
      | _ => p
      end
  | _ => p
  end.

Definition finalize (reason : terminal_reason) (at_ : Z) (t : Transcript) : Transcript :=
  if tr_terminated t then t
  else
    let t := with_flags true (tr_vendorInterrupted t) t in
    let stoppedInReasoning := match tr_openThinking t with Some open => trailing_is t open | None => false end in
    let '(t, openPhase) := closeThinking t in
    let t := match reason with
             | r_completed => t
             | _ => markIncomplete (if stoppedInReasoning then openPhase else trailing_content t ≫= slot_id) t
             end in
    let status := externalActivityStatusForTerminal reason in
    let t := with_parts (fun ps => fold_left (fun ps id => update_object id (settle_activity status) ps)
                                             (map snd (tr_activities t)) ps) t in
    with_turn (set_terminal reason at_) t.

(** *** Approvals, errors and steering *)

Definition is_undecided (p : MessagePart) : bool :=
  match p with PExternalApproval a => match xp_decisionSource a with None => true | _ => false end | _ => false end.

Definition decide_approval (optionId : option jstring) (source : decision_source) (resolvedAt : option Z) (p : MessagePart)
  : MessagePart :=
  match p with
  | PExternalApproval a =>
      match xp_decisionSource a with
      | Some _ => p
      | None =>
          PExternalApproval {| xp_targetId := xp_targetId a; xp_requestId := xp_requestId a; xp_kind := xp_kind a;
            xp_title := xp_title a; xp_detail := xp_detail a; xp_options := xp_options a; xp_expiresAtMs := xp_expiresAtMs a;
            xp_decision := match optionId with Some o => Some o | None => xp_decision a end;
            xp_decisionSource := Some source; xp_resolvedAt := resolvedAt; xp_truncated := xp_truncated a |}
      end
  | _ => p
  end.

Definition resolveApproval (requestId : jstring) (optionId : option jstring) (source : decision_source) (at_ : Z)
    (t : Transcript) : Transcript :=
  match map_get requestId (tr_approvals t) with
  | Some id => with_parts (update_object id (decide_approval optionId source (Some at_))) t
  | None => t
  end.

Definition pendingApprovalIds (t : Transcript) : list jstring :=
  omap (fun '(_, id) => match object t id with
                        | Some (PExternalApproval a) => if is_undecided (PExternalApproval a) then Some (xp_requestId a) else None
                        | _ => None
                        end) (tr_approvals t).

Definition recordError (error : agent_error) (refusal : option OpenRefusalPresentation) : Transcript -> Transcript :=
  with_turn (fun p =>
    match refusal with
    | Some r => set_error error (Some (or_remedy r)) (Some (or_unavailableReason r))
                  (match or_requiredVersion r with Some v => if decide (v = []) then xt_requiredVersion p else Some v
                   | None => xt_requiredVersion p end) p
    | None => set_error error (match turnErrorRemedyFor (xt_targetId p) error with Some m => Some m | None => xt_remedy p end)
                (xt_unavailableReason p) (xt_requiredVersion p) p
    end).

Definition budgetExceeded (t : Transcript) : bool :=
  (tr_maxBytes t <? xt_persistedBytes (tr_turn t)) || (tr_maxEvents t <? xt_eventCount (tr_turn t)).

Definition recordSteerAttempt (clientMessageId text : jstring) (at_ : Z) (t : Transcript) : Transcript * option terminal_reason :=
  let part := PExternalSteer {| xs_targetId := xt_targetId (tr_turn t); xs_clientMessageId := clientMessageId; xs_text := text;
                                xs_rejected := None; xs_createdAt := at_ |} in
  let t := push_part part (with_maps (tr_activities t) (tr_approvals t) (map_set clientMessageId (tr_fresh t) (tr_steers t)) t) in
  let t := with_turn (charge None at_ (zlen (utf8_encode text))) t in
  if budgetExceeded t then (finalize r_limit_exceeded at_ t, Some r_limit_exceeded) else (t, None).

Definition reject_steer (reasonCode : jstring) (p : MessagePart) : MessagePart :=
  match p with
  | PExternalSteer s =>
      match xs_rejected s with
      | Some _ => p
      | None => PExternalSteer {| xs_targetId := xs_targetId s; xs_clientMessageId := xs_clientMessageId s; xs_text := xs_text s;
                                  xs_rejected := Some reasonCode; xs_createdAt := xs_createdAt s |}
      end
  | _ => p
  end.

Definition resolveSteerRejected (clientMessageId reasonCode : jstring) (t : Transcript) : Transcript :=
  match map_get clientMessageId (tr_steers t) with
  | Some id => with_parts (update_object id (reject_steer reasonCode)) t
  | None => t
  end.

(** *** Events *)

Record application : Type := {
  ap_durable : bool; ap_terminal : option terminal_reason;
  ap_approvalRequested : option ExternalApprovalRequest; ap_approvalResolved : option jstring
}.

Definition applied (durable : bool) : application :=
  {| ap_durable := durable; ap_terminal := None; ap_approvalRequested := None; ap_approvalResolved := None |}.

Definition ended (reason : option terminal_reason) : application :=
  {| ap_durable := true; ap_terminal := reason; ap_approvalRequested := None; ap_approvalResolved := None |}.

Definition activity_part (targetId callId name kind title : jstring) (detail : option jstring) (truncated : bool) : MessagePart :=
  PExternalActivity {| xa_targetId := targetId; xa_callId := callId; xa_name := name; xa_kind := kind; xa_title := title;
    xa_detail := detail; xa_status := act_running; xa_isError := false; xa_truncated := truncated |}.

Definition update_activity (title detail : option jstring) (truncated : bool) (p : MessagePart) : MessagePart :=
  match p with
  | PExternalActivity a =>
      PExternalActivity {| xa_targetId := xa_targetId a; xa_callId := xa_callId a; xa_name := xa_name a; xa_kind := xa_kind a;
        xa_title := default (xa_title a) title; xa_detail := match detail with Some d => Some d | None => xa_detail a end;
        xa_status := xa_status a; xa_isError := xa_isError a; xa_truncated := truncated || xa_truncated a |}
  | _ => p
  end.

Definition complete_activity (status : activity_status) (isError : bool) (detail : option jstring) (truncated : bool)
    (p : MessagePart) : MessagePart :=
  match p with
  | PExternalActivity a =>
      PExternalActivity {| xa_targetId := xa_targetId a; xa_callId := xa_callId a; xa_name := xa_name a; xa_kind := xa_kind a;
        xa_title := xa_title a; xa_detail := match detail with Some d => Some d | None => xa_detail a end;
        xa_status := status; xa_isError := isError || xa_isError a; xa_truncated := truncated || xa_truncated a |}
  | _ => p
  end.

Definition is_failed (s : activity_status) : bool := match s with act_failed => true | _ => false end.

Definition approval_part (targetId : jstring) (q : ExternalApprovalRequest) : MessagePart :=
  PExternalApproval {| xp_targetId := targetId; xp_requestId := ar_requestId q; xp_kind := ar_kind q; xp_title := ar_title q;
    xp_detail := ar_detail q; xp_options := ar_options q; xp_expiresAtMs := ar_expiresAtMs q; xp_decision := None;
    xp_decisionSource := None; xp_resolvedAt := None; xp_truncated := ar_truncated q |}.

(** [#applyEvent] *)
Definition applyEvent (event : ExternalAgentEvent) (at_ : Z) (t : Transcript) : Transcript * application :=
  match event with
  | session_started | commands_available _ => (t, applied false)
  | text_delta text => (appendText kind_text text (with_text (tr_text t ++ text) t), applied false)
  | reasoning_delta text => (appendReasoning text t, applied false)
  | reasoning_started =>
      let t := appendText kind_thinking [] (closeThinking t).1 in
      (with_open (trailingThinking t) t, applied false)
  | reasoning_ended => ((closeThinking t).1, applied false)
  | activity_started callId name kind title detail truncated =>
      let t := with_maps (map_set callId (tr_fresh t) (tr_activities t)) (tr_approvals t) (tr_steers t) t in
      (push_part (activity_part (xt_targetId (tr_turn t)) callId name kind title detail truncated) t, applied true)
  | activity_updated callId title detail truncated =>
      match map_get callId (tr_activities t) with
      | Some id => (with_parts (update_object id (update_activity title detail truncated)) t, applied false)
      | None => (t, applied false)
      end
  | activity_completed callId status detail truncated =>
      match map_get callId (tr_activities t) with
      | Some id => (with_parts (update_object id (complete_activity status (is_failed status) detail truncated)) t, applied true)
      | None => (t, applied false)
      end
  | approval_requested q =>
      let t := with_maps (tr_activities t) (map_set (ar_requestId q) (tr_fresh t) (tr_approvals t)) (tr_steers t) t in
      (push_part (approval_part (xt_targetId (tr_turn t)) q) t,
       {| ap_durable := true; ap_terminal := None; ap_approvalRequested := Some q; ap_approvalResolved := None |})
  | approval_resolved requestId optionId source =>
      (resolveApproval requestId optionId source at_ t,
       {| ap_durable := true; ap_terminal := None; ap_approvalRequested := None; ap_approvalResolved := Some requestId |})
  | usage_event report => (with_turn (set_usage report) t, applied false)
  | thread_usage _ | account_limits _ => (t, applied false)
  | notice_event severity title description => (push_part (externalNoticePart severity title description) t, applied false)
  | cancelled_event => (with_flags (tr_terminated t) true t, applied false)
  | completed_event =>
      let reason := if tr_vendorInterrupted t then r_interrupted else r_completed in
      (finalize reason at_ t, ended (Some reason))
  | error_event error => (finalize r_vendor_error at_ (recordError error None t), ended (Some r_vendor_error))
  end.

(** Events that are streamed for display only. *)
Definition is_observational (event : ExternalAgentEvent) : bool :=
  match event with thread_usage _ | account_limits _ | commands_available _ => true | _ => false end.

Definition is_notice_event (event : ExternalAgentEvent) : bool :=
  match event with notice_event _ _ _ => true | _ => false end.

(** [apply]; [bytes] is [byteLengthOf(event)]. *)
Definition apply (event : ExternalAgentEvent) (sequence at_ bytes : Z) (t : Transcript) : Transcript * application :=
  if tr_terminated t then (t, applied false)
  else if is_observational event then (t, applied false)
  else if is_notice_event event && negb (canAddExternalNotice (parts t)) then (t, applied false)
  else
    let t := with_turn (charge (Some sequence) at_ bytes) t in
    if budgetExceeded t then
      let '(t, a) := applyEvent event at_ t in
      let t := finalize r_limit_exceeded at_ t in
      (t, {| ap_durable := true; ap_terminal := xt_terminal (tr_turn t); ap_approvalRequested := ap_approvalRequested a;
             ap_approvalResolved := ap_approvalResolved a |})
    else applyEvent event at_ t.
