(* ===== verification/StreamReducer.v ===== *)
(** * The live view of a turn

    [apps/frontend/src/features/generation/text-generation-stream-reducer.ts]: the reducer that
    rebuilds an assistant message from the chunks of a stream, one chunk at a time, and the two
    functions that seal a row whose stream ended early.

    Numbers of a chunk are the decimals of [Json]; a fallback such as [text || error] or
    [field ? { field } : {}] treats the empty string as absent, as JavaScript does. *)

From S2P Require Import Prelude Json MessageParts Transcript.

(** ** Chunks *)

Inductive StreamChunk : Type :=
| ch_user_message_id (messageId : jstring)
| ch_assistant_message_id (messageId : jstring)
| ch_error (error : jstring) (unavailableReason : option jstring) (remedy : option agent_remedy)
    (requiredVersion code : option jstring)
| ch_thinking_start
| ch_thinking (text : jstring)
| ch_text (text : jstring)
| ch_tool_call_started (callId name : jstring)
| ch_tool_call_completed (callId arguments : jstring)
| ch_tool_result (callId : jstring) (result : json) (isError : option bool)
| ch_tool_execution (callId name : jstring) (execution : ToolExecutionSnapshot)
| ch_subagent_started (callId agentId agentName task : jstring)
| ch_subagent_text (callId text : jstring)
| ch_subagent_tool_call_started (callId toolCallId name : jstring)
| ch_subagent_completed (callId summary : jstring) (toolCallCount : Z)
| ch_subagent_failed (callId error : jstring)
| ch_mcp_media (media : McpMediaPart)
| ch_question (toolCallId : jstring) (questions : list json)
| ch_mcp_elicitation_request (elicitationId toolCallId serverSlug message : jstring) (fields : list json) (status : jstring)
| ch_mcp_elicitation_status (elicitationId status : jstring) (reason : option jstring)
| ch_todo_update (toolCallId : jstring) (todos : list json)
| ch_image_generation_started (imageId toolCallId prompt : jstring)
| ch_image_generation_completed (imageId toolCallId prompt imageUrl : jstring) (modelName generationTime : option jstring)
| ch_image_generation_failed (imageId toolCallId prompt error : jstring) (errorCode modelName generationTime : option jstring)
| ch_continuation_transition (provider modelName : jstring) (fromProvider : option jstring)
    (fromMode toMode reasonCode : jstring) (detail : option jstring)
| ch_system_event (event : jstring) (detail : option jstring)
| ch_external_session_started (sessionId targetId : jstring) (conversationReset model : option jstring)
| ch_external_text (text : jstring)
| ch_external_reasoning_started
| ch_external_reasoning_ended
| ch_external_reasoning (text : jstring)
| ch_external_activity_started (callId name kind title : jstring) (detail : option jstring) (truncated : bool)
| ch_external_activity_updated (callId : jstring) (title detail : option jstring) (truncated : bool)
| ch_external_activity_completed (callId : jstring) (status : activity_status) (detail : option jstring)
    (isError truncated : bool)
| ch_external_approval_request (request : ExternalApprovalRequest)
| ch_external_approval_status (requestId : jstring) (optionId : option jstring) (source : decision_source)
| ch_external_usage (usage : ExternalUsage)
| ch_external_thread_usage (usage : ExternalThreadUsage)
| ch_external_steer (clientMessageId text : jstring) (rejected : option jstring)
| ch_external_notice (severity title : jstring) (description : option jstring)
| ch_external_error (error : agent_error) (remedy : option agent_remedy) (unavailableReason requiredVersion : option jstring)
| ch_external_turn_completed (reason : terminal_reason)
| ch_external_account_limits (limits : json) (vendorAccountFingerprint : option jstring)
| ch_external_commands (commands : list json)
| ch_done (messageId generationTime : option jstring)
| ch_context_info
| ch_fallback_notice.

(** [chunk.type.startsWith('external_')] *)
Definition is_external (c : StreamChunk) : bool :=
  match c with
  | ch_external_session_started _ _ _ _ | ch_external_text _ | ch_external_reasoning_started | ch_external_reasoning_ended
  | ch_external_reasoning _ | ch_external_activity_started _ _ _ _ _ _ | ch_external_activity_updated _ _ _ _
  | ch_external_activity_completed _ _ _ _ _ | ch_external_approval_request _ | ch_external_approval_status _ _ _
  | ch_external_usage _ | ch_external_thread_usage _ | ch_external_steer _ _ _ | ch_external_notice _ _ _
  | ch_external_error _ _ _ _ | ch_external_turn_completed _ | ch_external_account_limits _ _ | ch_external_commands _ => true
  | _ => false
  end.

(** ** State *)

(** [Partial<Message>]; [mp_generationTime] is [Some None] when the key is there with [undefined]. *)
Record message_patch : Type := {
  mp_id : option jstring; mp_isGenerating : option bool; mp_text : option jstring; mp_parts : option (list MessagePart);
  mp_generationTime : option (option jstring); mp_modelName : option jstring
}.

Definition patch_parts (ps : list MessagePart) : message_patch :=
  {| mp_id := None; mp_isGenerating := None; mp_text := None; mp_parts := Some ps; mp_generationTime := None; mp_modelName := None |}.

Definition patch_text (text : jstring) (ps : list MessagePart) : message_patch :=
  {| mp_id := None; mp_isGenerating := None; mp_text := Some text; mp_parts := Some ps; mp_generationTime := None;
     mp_modelName := None |}.

Definition patch_id (id : jstring) : message_patch :=
  {| mp_id := Some id; mp_isGenerating := None; mp_text := None; mp_parts := None; mp_generationTime := None; mp_modelName := None |}.

Record message_update : Type := { mu_target : jstring; mu_patch : message_patch }.

Record StreamState : Type := {
  ss_text : jstring;
  ss_parts : list MessagePart;
  ss_userMessageId : jstring;
  ss_aiMessageId : jstring;
  ss_receivedUser : bool;
  ss_receivedAi : bool;
  ss_openThinking : option nat;
  ss_userUpdate : option message_update;
  ss_aiUpdate : option message_update;
  ss_sealed : bool;
  ss_threadUsage : option ExternalThreadUsage
}.

Definition createTextGenerationStreamState (userMessageId aiMessageId : jstring) : StreamState :=
  {| ss_text := []; ss_parts := []; ss_userMessageId := userMessageId; ss_aiMessageId := aiMessageId;
     ss_receivedUser := false; ss_receivedAi := false; ss_openThinking := None; ss_userUpdate := None; ss_aiUpdate := None;
     ss_sealed := false; ss_threadUsage := None |}.

Definition clearChunkUpdates (s : StreamState) : StreamState :=
  {| ss_text := ss_text s; ss_parts := ss_parts s; ss_userMessageId := ss_userMessageId s; ss_aiMessageId := ss_aiMessageId s;
     ss_receivedUser := ss_receivedUser s; ss_receivedAi := ss_receivedAi s; ss_openThinking := ss_openThinking s;
     ss_userUpdate := None; ss_aiUpdate := None; ss_sealed := ss_sealed s; ss_threadUsage := ss_threadUsage s |}.

(** [{ ...state, text, parts, openExternalThinkingIndex }] *)
Definition with_content (text : jstring) (ps : list MessagePart) (open : option nat) (s : StreamState) : StreamState :=
  {| ss_text := text; ss_parts := ps; ss_userMessageId := ss_userMessageId s; ss_aiMessageId := ss_aiMessageId s;
     ss_receivedUser := ss_receivedUser s; ss_receivedAi := ss_receivedAi s; ss_openThinking := open;
     ss_userUpdate := ss_userUpdate s; ss_aiUpdate := ss_aiUpdate s; ss_sealed := ss_sealed s;
     ss_threadUsage := ss_threadUsage s |}.

Definition withUserMessageUpdate (s : StreamState) (p : message_patch) (next : jstring) (received : bool) : StreamState :=
  {| ss_text := ss_text s; ss_parts := ss_parts s; ss_userMessageId := next; ss_aiMessageId := ss_aiMessageId s;
     ss_receivedUser := received; ss_receivedAi := ss_receivedAi s; ss_openThinking := ss_openThinking s;
     ss_userUpdate := Some {| mu_target := ss_userMessageId s; mu_patch := p |}; ss_aiUpdate := ss_aiUpdate s;
     ss_sealed := ss_sealed s; ss_threadUsage := ss_threadUsage s |}.

(** The default arguments are the state's own id and flag. *)
Definition withAiMessageUpdate (s : StreamState) (p : message_patch) (next : option jstring) (received : option bool)
  : StreamState :=
  {| ss_text := ss_text s; ss_parts := ss_parts s; ss_userMessageId := ss_userMessageId s;
     ss_aiMessageId := default (ss_aiMessageId s) next; ss_receivedUser := ss_receivedUser s;
     ss_receivedAi := default (ss_receivedAi s) received; ss_openThinking := ss_openThinking s;
     ss_userUpdate := ss_userUpdate s; ss_aiUpdate := Some {| mu_target := ss_aiMessageId s; mu_patch := p |};
     ss_sealed := ss_sealed s || match mp_isGenerating p with Some false => true | _ => false end;
     ss_threadUsage := ss_threadUsage s |}.

(** The return of most reducers: [withAiMessageUpdate({ ...state, parts }, { parts })]. *)
Definition update_parts (ps : list MessagePart) (s : StreamState) : StreamState :=
  withAiMessageUpdate (with_content (ss_text s) ps (ss_openThinking s) s) (patch_parts ps) None None.

Definition truthy (o : option jstring) : option jstring := match o with Some [] => None | _ => o end.

(** [findIndex] *)
Fixpoint find_index {A} (f : A -> bool) (l : list A) : option nat :=
  match l with
  | [] => None
  | x :: rest => if f x then Some O else S <$> find_index f rest
  end.

Definition replacePartAt (ps : list MessagePart) (index : nat) (next : MessagePart) : list MessagePart :=
  imap (fun i p => if (i =? index)%nat then next else p) ps.

(** ** Internal turns *)

Definition reduceStreamError (s : StreamState) (error : jstring) (reason : option jstring) (remedy : option agent_remedy)
    (version code : option jstring) : StreamState :=
  let ps := ss_parts s ++ [PErrorPart {| ep_text := error; ep_unavailableReason := truthy reason; ep_remedy := remedy;
                                         ep_requiredVersion := truthy version; ep_code := truthy code |}] in
  let text := match ss_text s with [] => error | t => t end in
  withAiMessageUpdate (with_content (ss_text s) ps (ss_openThinking s) s)
    {| mp_id := None; mp_isGenerating := Some false; mp_text := Some text; mp_parts := Some ps; mp_generationTime := None;
       mp_modelName := None |} None None.

(** [appendTrailingText] *)
Definition appendTrailingText (ps : list MessagePart) (k : text_kind) (text : jstring) : list MessagePart :=
  match last ps with
  | Some p => if is_kind k p then removelast ps ++ [add_text text p] else ps ++ [fresh_run k text]
  | None => ps ++ [fresh_run k text]
  end.

Definition reduceThinkingStart (s : StreamState) : StreamState :=
  update_parts (ss_parts s ++ [PThinking [] false false]) s.

Definition reduceThinkingDelta (s : StreamState) (text : jstring) : StreamState :=
  update_parts (appendTrailingText (ss_parts s) kind_thinking text) s.

Definition reduceTextDelta (s : StreamState) (delta : jstring) : StreamState :=
  let text := ss_text s ++ delta in
  let ps := appendTrailingText (ss_parts s) kind_text delta in
  withAiMessageUpdate (with_content text ps (ss_openThinking s) s) (patch_text text ps) None None.

Definition reduceToolCallStarted (s : StreamState) (callId name : jstring) : StreamState :=
  update_parts (ss_parts s ++ [PToolCall callId name (JObj []) None]) s.

Definition parseToolArguments (text : jstring) : json := default (JObj []) (parse text).

Definition update_tool_call (callId : jstring) (f : json -> option ToolExecutionSnapshot -> json * option ToolExecutionSnapshot)
    (p : MessagePart) : MessagePart :=
  match p with
  | PToolCall id name args x =>
      if decide (id = callId) then let '(args', x') := f args x in PToolCall id name args' x' else p
  | _ => p
  end.

Definition reduceToolCallCompleted (s : StreamState) (callId arguments : jstring) : StreamState :=
  let parsed := parseToolArguments arguments in
  update_parts (map (update_tool_call callId (fun _ x => (parsed, x))) (ss_parts s)) s.

Definition reduceToolResult (s : StreamState) (callId : jstring) (result : json) (isError : option bool) : StreamState :=
  update_parts (ss_parts s ++ [PToolResult callId (stringify result) isError]) s.

Definition is_tool_call (callId : jstring) (p : MessagePart) : bool :=
  match p with PToolCall id _ _ _ => bool_decide (id = callId) | _ => false end.

Definition reduceToolExecution (s : StreamState) (callId name : jstring) (execution : ToolExecutionSnapshot) : StreamState :=
  update_parts
    (if existsb (is_tool_call callId) (ss_parts s)
     then map (update_tool_call callId (fun args _ => (args, Some execution))) (ss_parts s)
     else ss_parts s ++ [PToolCall callId name (JObj []) (Some execution)]) s.

(** *** Sub-agents *)

(** [mergeSubagentTraceEvents] *)
Definition mergeSubagentTraceEvents (current next : option (list SubagentTraceEvent)) : option (list SubagentTraceEvent) :=
  match current, next with
  | (None | Some []), _ => next
  | Some c, (None | Some []) => Some c
  | Some c, Some n => Some (fold_left (fun merged e => if decide (e ∈ merged) then merged else merged ++ [e]) n c)
  end.

Definition is_trace (callId : jstring) (p : MessagePart) : bool :=
  match p with PSubagentTrace t => bool_decide (st_toolCallId t = callId) | _ => false end.

(** Applies [f] to the trace at [index] only. *)
Definition update_trace_at (index : nat) (f : SubagentTracePart -> SubagentTracePart) (ps : list MessagePart) : list MessagePart :=
  imap (fun i p => match p with
                   | PSubagentTrace t => if (i =? index)%nat then PSubagentTrace (f t) else p
                   | _ => p
                   end) ps.

Definition upsertSubagentTracePart (ps : list MessagePart) (trace : SubagentTracePart) : list MessagePart :=
  match find_index (is_trace (st_toolCallId trace)) ps with
  | None => ps ++ [PSubagentTrace trace]
  | Some index =>
      update_trace_at index (fun part =>
        {| st_toolCallId := st_toolCallId trace; st_agentId := st_agentId trace; st_agentName := st_agentName trace;
           st_status := st_status trace; st_summary := st_summary trace; st_toolCallCount := st_toolCallCount trace;
           st_lastMessage := st_lastMessage trace;
           st_messages := match st_messages trace with [] => st_messages part | ms => ms end;
           st_tools := match st_tools trace with [] => st_tools part | ts => ts end;
           st_events := mergeSubagentTraceEvents (st_events part) (st_events trace); st_error := st_error trace |}) ps
  end.

(** [updateSubagentTracePart] *)
Definition updateSubagentTracePart (ps : list MessagePart) (callId : jstring) (f : SubagentTracePart -> SubagentTracePart)
  : list MessagePart :=
  map (fun p => match p with
                | PSubagentTrace t => if decide (st_toolCallId t = callId) then PSubagentTrace (f t) else p
                | _ => p
                end) ps.

Definition reduceSubagentStarted (s : StreamState) (callId agentId agentName task : jstring) : StreamState :=
  update_parts (upsertSubagentTracePart (ss_parts s)
    {| st_toolCallId := callId; st_agentId := agentId; st_agentName := agentName; st_status := js "running"; st_summary := task;
       st_toolCallCount := 0; st_lastMessage := None; st_messages := []; st_tools := []; st_events := None; st_error := None |}) s.

Definition ASSISTANT : jstring := js "assistant".

(** [reduceSubagentText]'s update of the trace. *)
Definition append_message (messages : list (jstring * jstring)) (text : jstring) : list (jstring * jstring) :=
  match last messages with
  | Some (role, previous) =>
      if decide (role = ASSISTANT) then removelast messages ++ [(ASSISTANT, previous ++ text)] else messages ++ [(ASSISTANT, text)]
  | None => messages ++ [(ASSISTANT, text)]
  end.

Definition reduceSubagentText (s : StreamState) (callId text : jstring) : StreamState :=
  update_parts (updateSubagentTracePart (ss_parts s) callId (fun part =>
    let messages := append_message (st_messages part) text in
    let lastMessage := truthy (snd <$> last messages) in
    {| st_toolCallId := st_toolCallId part; st_agentId := st_agentId part; st_agentName := st_agentName part;
       st_status := st_status part; st_summary := st_summary part; st_toolCallCount := st_toolCallCount part;
       st_lastMessage := match lastMessage with Some m => Some m | None => st_lastMessage part end; st_messages := messages;
       st_tools := st_tools part; st_events := st_events part; st_error := st_error part |})) s.

Definition reduceSubagentToolCallStarted (s : StreamState) (callId toolCallId name : jstring) : StreamState :=
  update_parts (updateSubagentTracePart (ss_parts s) callId (fun part =>
    {| st_toolCallId := st_toolCallId part; st_agentId := st_agentId part; st_agentName := st_agentName part;
       st_status := st_status part; st_summary := st_summary part; st_toolCallCount := st_toolCallCount part + 1;
       st_lastMessage := st_lastMessage part; st_messages := st_messages part; st_tools := st_tools part ++ [(toolCallId, name)];
       st_events := st_events part; st_error := st_error part |})) s.

Definition reduceSubagentCompleted (s : StreamState) (callId summary : jstring) (toolCallCount : Z) : StreamState :=
  update_parts (updateSubagentTracePart (ss_parts s) callId (fun part =>
    {| st_toolCallId := st_toolCallId part; st_agentId := st_agentId part; st_agentName := st_agentName part;
       st_status := js "completed"; st_summary := summary; st_toolCallCount := toolCallCount; st_lastMessage := Some summary;
       st_messages := st_messages part; st_tools := st_tools part; st_events := st_events part; st_error := st_error part |})) s.

Definition reduceSubagentFailed (s : StreamState) (callId error : jstring) : StreamState :=
  update_parts (updateSubagentTracePart (ss_parts s) callId (fun part =>
    {| st_toolCallId := st_toolCallId part; st_agentId := st_agentId part; st_agentName := st_agentName part;
       st_status := js "failed"; st_summary := error; st_toolCallCount := st_toolCallCount part;
       st_lastMessage := st_lastMessage part; st_messages := st_messages part; st_tools := st_tools part;
       st_events := st_events part; st_error := Some error |})) s.

(** *** Media, questions, elicitations, todos and images *)

Definition reduceMcpMedia (s : StreamState) (m : McpMediaPart) : StreamState :=
  let part := PMcpMedia {| mm_toolCallId := mm_toolCallId m; mm_serverSlug := mm_serverSlug m; mm_toolName := mm_toolName m;
    mm_kind := mm_kind m; mm_mimeType := mm_mimeType m; mm_url := mm_url m; mm_uri := truthy (mm_uri m) |} in
  let exists_ := existsb (fun p => match p with
    | PMcpMedia q => bool_decide (mm_toolCallId q = mm_toolCallId m) && bool_decide (mm_url q = mm_url m)
    | _ => false end) (ss_parts s) in
  update_parts (if exists_ then ss_parts s else ss_parts s ++ [part]) s.

Definition reduceQuestion (s : StreamState) (toolCallId : jstring) (questions : list json) : StreamState :=
  let exists_ := existsb (fun p => match p with PQuestion id _ => bool_decide (id = toolCallId) | _ => false end) (ss_parts s) in
  update_parts (if exists_ then ss_parts s else ss_parts s ++ [PQuestion toolCallId questions]) s.

Definition PENDING : jstring := js "pending".

Definition updateElicitationStatus (ps : list MessagePart) (elicitationId status : jstring) (reason : option jstring)
  : list MessagePart :=
  map (fun p => match p with
    | PMcpElicitation e =>
        if decide (me_elicitationId e = elicitationId /\ me_status e = PENDING /\ me_status e <> status) then
          PMcpElicitation {| me_elicitationId := me_elicitationId e; me_toolCallId := me_toolCallId e;
            me_serverSlug := me_serverSlug e; me_message := me_message e; me_fields := me_fields e; me_status := status;
            me_reason := match truthy reason with Some r => Some r | None => me_reason e end |}
        else p
    | _ => p
    end) ps.

Definition reduceMcpElicitation (s : StreamState) (elicitationId toolCallId serverSlug message : jstring) (fields : list json)
    (status : jstring) : StreamState :=
  let exists_ := existsb (fun p => match p with PMcpElicitation e => bool_decide (me_elicitationId e = elicitationId) | _ => false end)
                   (ss_parts s) in
  update_parts
    (if exists_ then updateElicitationStatus (ss_parts s) elicitationId status None
     else ss_parts s ++ [PMcpElicitation {| me_elicitationId := elicitationId; me_toolCallId := toolCallId;
       me_serverSlug := serverSlug; me_message := message; me_fields := fields; me_status := status; me_reason := None |}]) s.

Definition reduceMcpElicitationStatus (s : StreamState) (elicitationId status : jstring) (reason : option jstring) : StreamState :=
  update_parts (updateElicitationStatus (ss_parts s) elicitationId status reason) s.

Definition reduceTodoUpdate (s : StreamState) (toolCallId : jstring) (todos : list json) : StreamState :=
  let exists_ := existsb (fun p => match p with PTodo id _ => bool_decide (id = toolCallId) | _ => false end) (ss_parts s) in
  update_parts (if exists_ then ss_parts s else ss_parts s ++ [PTodo toolCallId todos]) s.

Definition upsertGeneratedImagePart (ps : list MessagePart) (g : GeneratedImagePart) : list MessagePart :=
  match find_index (fun p => match p with
    | PGeneratedImage h => bool_decide (gi_imageId h = gi_imageId g) && bool_decide (gi_toolCallId h = gi_toolCallId g)
    | _ => false end) ps with
  | None => ps ++ [PGeneratedImage g]
  | Some index => replacePartAt ps index (PGeneratedImage g)
  end.

Definition reduceImageGenerationStarted (s : StreamState) (imageId toolCallId prompt : jstring) : StreamState :=
  update_parts (upsertGeneratedImagePart (ss_parts s)
    {| gi_imageId := imageId; gi_toolCallId := toolCallId; gi_status := generating; gi_prompt := prompt; gi_imageUrl := None;
       gi_error := None; gi_errorCode := None; gi_modelName := None; gi_generationTime := None |}) s.

Definition reduceImageGenerationCompleted (s : StreamState) (imageId toolCallId prompt imageUrl : jstring)
    (modelName generationTime : option jstring) : StreamState :=
  update_parts (upsertGeneratedImagePart (ss_parts s)
    {| gi_imageId := imageId; gi_toolCallId := toolCallId; gi_status := image_completed; gi_prompt := prompt;
       gi_imageUrl := Some imageUrl; gi_error := None; gi_errorCode := None; gi_modelName := modelName;
       gi_generationTime := generationTime |}) s.

Definition reduceImageGenerationFailed (s : StreamState) (imageId toolCallId prompt error : jstring)
    (errorCode modelName generationTime : option jstring) : StreamState :=
  update_parts (upsertGeneratedImagePart (ss_parts s)
    {| gi_imageId := imageId; gi_toolCallId := toolCallId; gi_status := image_error; gi_prompt := prompt; gi_imageUrl := None;
       gi_error := Some error; gi_errorCode := errorCode; gi_modelName := modelName; gi_generationTime := generationTime |}) s.

Definition reduceContinuationTransition (s : StreamState) (provider modelName : jstring) (fromProvider : option jstring)
    (fromMode toMode reasonCode : jstring) (detail : option jstring) : StreamState :=
  update_parts (ss_parts s ++ [PContinuation {| cp_provider := provider; cp_modelName := modelName;
    cp_fromProvider := fromProvider; cp_fromMode := fromMode; cp_toMode := toMode; cp_reasonCode := reasonCode;
    cp_detail := detail; cp_recovered := false |}]) s.

(** *** System events *)

(** The characters of [\s]. *)
Definition is_space (c : Z) : bool :=
  (9 <=? c) && (c <=? 13) || (c =? 32) || (c =? 0xA0) || (c =? 0x1680) || (0x2000 <=? c) && (c <=? 0x200A)
  || (c =? 0x2028) || (c =? 0x2029) || (c =? 0x202F) || (c =? 0x205F) || (c =? 0x3000) || (c =? 0xFEFF).

Fixpoint span_word (s : jstring) : jstring :=
  match s with c :: rest => if is_space c then [] else c :: span_word rest | [] => [] end.

(** A match of [field=([^\s]+)] here: the greedy group, which must not be empty. *)
Definition field_here (field s : jstring) : option jstring :=
  match strip_prefix (field ++ js "=") s with
  | Some rest => match span_word rest with [] => None | w => Some w end
  | None => None
  end.

(** The leftmost match of [(?:^|\s)field=([^\s]+)]; [start] says whether this is the start of the input.
    At the start [^] is tried before [\s]; elsewhere only [\s] can match. *)
Fixpoint find_field (field : jstring) (start : bool) (s : jstring) : option jstring :=
  match (if start then field_here field s else None) with
  | Some w => Some w
  | None =>
      match s with
      | [] => None
      | c :: rest =>
          match (if is_space c then field_here field rest else None) with
          | Some w => Some w
          | None => find_field field false rest
          end
      end
  end.

Definition readDetailField (detail : option jstring) (field : jstring) : option jstring :=
  detail ≫= find_field field true.

(** [SUBAGENT_SYSTEM_EVENTS[event]]; the names an object inherits are not event names of a stream. *)
Definition SUBAGENT_SYSTEM_EVENTS : list (jstring * jstring) :=
  [(js "subagent_delegation_started", js "delegation_started");
   (js "subagent_delegation_completed", js "delegation_completed");
   (js "subagent_delegation_failed", js "delegation_failed");
   (js "subagent_response_attempt", js "response_attempt");
   (js "subagent_response_recovered", js "response_recovered");
   (js "subagent_response_timeout", js "response_timeout");
   (js "subagent_response_fallback", js "response_fallback")].

(** *** [Number(text)] for a text without white space; [None] is a value that is not finite.
    A finite literal stands for itself and is not rounded to a double. *)

Definition radix_digit (radix c : Z) : option Z :=
  let d := if (48 <=? c) && (c <=? 57) then c - 48
           else if (97 <=? c) && (c <=? 102) then c - 87
           else if (65 <=? c) && (c <=? 70) then c - 55 else 16 in
  if d <? radix then Some d else None.

Fixpoint radix_digits (radix acc : Z) (s : jstring) : option Z :=
  match s with
  | [] => Some acc
  | c :: rest => match radix_digit radix c with Some d => radix_digits radix (radix * acc + d) rest | None => None end
  end.

(** [0x], [0o] and [0b] literals, which take no sign. *)
Definition radix_literal (s : jstring) : option (option Z) :=
  match s with
  | 48 :: c :: (_ :: _) as s' =>
      let digits_ := drop 2 s' in
      if (c =? 120) || (c =? 88) then Some (radix_digits 16 0 digits_)
      else if (c =? 111) || (c =? 79) then Some (radix_digits 8 0 digits_)
      else if (c =? 98) || (c =? 66) then Some (radix_digits 2 0 digits_)
      else None
  | _ => None
  end.

(** A decimal literal with its optional sign, fraction and exponent; at least one digit around the point. *)
Definition decimal_literal (s : jstring) : option number :=
  let '(sign, s) := match s with 45 :: r => (true, r) | 43 :: r => (false, r) | _ => (false, s) end in
  let '(whole, s) := span_digits s in
  let '(fraction, s) := match s with 46 :: r => span_digits r | _ => ([], s) end in
  match whole ++ fraction with
  | [] => None
  | ds =>
      match s with
      | [] => Some (normalise sign ds (- zlen fraction))
      | _ => match parse_exponent s with
             | Some (e, []) => Some (normalise sign ds (e - zlen fraction))
             | _ => None
             end
      end
  end.

(** A magnitude that rounds to a finite double: below the midpoint of the largest one and 2^1024. *)
Definition is_finite (n : number) : bool :=
  if zlen (sig n) + expo n <=? 308 then true
  else (zlen (sig n) + expo n =? 309) &&
       (digits_value (sig n) * 10 ^ Z.max 0 (expo n) <? (2 ^ 1024 - 2 ^ 970) * 10 ^ Z.max 0 (- expo n)).

Definition finite_number (s : jstring) : option number :=
  n ← match radix_literal s with Some z => num_of_Z <$> z | None => decimal_literal s end;
  if is_finite n then Some n else None.

Record ParsedSubagentEvent : Type := {
  ps_callId : jstring; ps_agentId : option jstring; ps_event : jstring; ps_attempt : option number; ps_detail : option jstring
}.

Definition parseSubagentSystemEvent (event : jstring) (detail : option jstring) : option ParsedSubagentEvent :=
  match map_get event SUBAGENT_SYSTEM_EVENTS with
  | None => None
  | Some name =>
      match readDetailField detail (js "call") with
      | None => None
      | Some callId =>
          Some {| ps_callId := callId; ps_event := name;
                  ps_agentId := match readDetailField detail (js "agent") with
                                | Some a => Some a
                                | None => readDetailField detail (js "target")
                                end;
                  ps_attempt := readDetailField detail (js "attempt") ≫= finite_number;
                  ps_detail := truthy detail |}
      end
  end.

Definition appendSubagentTraceEvent (ps : list MessagePart) (e : ParsedSubagentEvent) (pendingSubagentName : jstring)
  : list MessagePart :=
  let traceEvent := {| te_event := ps_event e; te_attempt := ps_attempt e; te_detail := truthy (ps_detail e) |} in
  match find_index (is_trace (ps_callId e)) ps with
  | None =>
      ps ++ [PSubagentTrace {| st_toolCallId := ps_callId e; st_agentId := default (ps_callId e) (ps_agentId e);
        st_agentName := default pendingSubagentName (ps_agentId e); st_status := js "running"; st_summary := [];
        st_toolCallCount := 0; st_lastMessage := None; st_messages := []; st_tools := []; st_events := Some [traceEvent];
        st_error := None |}]
  | Some index =>
      update_trace_at index (fun part =>
        {| st_toolCallId := st_toolCallId part; st_agentId := default (st_agentId part) (ps_agentId e);
           st_agentName := match truthy (ps_agentId e) with
                           | Some a => if decide (st_agentName part = pendingSubagentName) then a else st_agentName part
                           | None => st_agentName part
                           end;
           st_status := st_status part; st_summary := st_summary part; st_toolCallCount := st_toolCallCount part;
           st_lastMessage := st_lastMessage part; st_messages := st_messages part; st_tools := st_tools part;
           st_events := mergeSubagentTraceEvents (st_events part) (Some [traceEvent]); st_error := st_error part |}) ps
  end.

Definition reduceSystemEvent (s : StreamState) (event : jstring) (detail : option jstring) (pendingSubagentName : jstring)
  : StreamState :=
  update_parts
    (match parseSubagentSystemEvent event detail with
     | Some e => appendSubagentTraceEvent (ss_parts s) e pendingSubagentName
     | None => ss_parts s ++ [PSystemEvent event detail]
     end) s.

Definition reduceDone (s : StreamState) (messageId generationTime : option jstring) : StreamState :=
  withAiMessageUpdate s
    {| mp_id := truthy messageId; mp_isGenerating := Some false; mp_text := Some (ss_text s); mp_parts := Some (ss_parts s);
       mp_generationTime := Some generationTime; mp_modelName := None |}
    messageId (Some (match truthy messageId with Some _ => true | None => ss_receivedAi s end)).

(** ** External turns *)

Definition is_turn (p : MessagePart) : bool := match p with PExternalTurn _ => true | _ => false end.

(** [reduceExternalSessionRebound]; two present strings or two absences are equal. *)
Definition reduceExternalSessionRebound (s : StreamState) (index : nat) (sessionId : jstring) (conversationReset : option jstring)
  : StreamState :=
  match ss_parts s !! index with
  | Some (PExternalTurn current) =>
      if decide (xt_sessionId current = sessionId /\ xt_conversationReset current = conversationReset) then s
      else
        let rebound := PExternalTurn {| xt_targetId := xt_targetId current; xt_sessionId := sessionId;
          xt_nativeTurnId := xt_nativeTurnId current; xt_terminal := xt_terminal current; xt_startedAt := xt_startedAt current;
          xt_updatedAt := xt_updatedAt current; xt_lastSequence := xt_lastSequence current;
          xt_eventCount := xt_eventCount current; xt_persistedBytes := xt_persistedBytes current; xt_usage := xt_usage current;
          xt_error := xt_error current; xt_remedy := xt_remedy current; xt_unavailableReason := xt_unavailableReason current;
          xt_requiredVersion := xt_requiredVersion current; xt_conversationReset := truthy conversationReset |} in
        update_parts (replacePartAt (ss_parts s) index rebound) s
  | _ => s
  end.

Definition reduceExternalSessionStarted (s : StreamState) (sessionId targetId : jstring) (conversationReset model : option jstring)
  : StreamState :=
  match find_index is_turn (ss_parts s) with
  | Some existing => reduceExternalSessionRebound s existing sessionId conversationReset
  | None =>
      let ps := ss_parts s ++ [PExternalTurn {| xt_targetId := targetId; xt_sessionId := sessionId; xt_nativeTurnId := None;
        xt_terminal := None; xt_startedAt := 0; xt_updatedAt := 0; xt_lastSequence := 0; xt_eventCount := 0;
        xt_persistedBytes := 0; xt_usage := None; xt_error := None; xt_remedy := None; xt_unavailableReason := None;
        xt_requiredVersion := None; xt_conversationReset := truthy conversationReset |}] in
      withAiMessageUpdate (with_content (ss_text s) ps (ss_openThinking s) s)
        {| mp_id := None; mp_isGenerating := None; mp_text := None; mp_parts := Some ps; mp_generationTime := None;
           mp_modelName := model |} None None
  end.

Definition reduceExternalText (s : StreamState) (delta : jstring) : StreamState :=
  let text := ss_text s ++ delta in
  let ps := appendTrailingText (ss_parts s) kind_text delta in
  withAiMessageUpdate (with_content text ps (ss_openThinking s) s) (patch_text text ps) None None.

Definition reduceExternalReasoning (s : StreamState) (delta : jstring) : StreamState :=
  let otherwise := update_parts (appendTrailingText (ss_parts s) kind_thinking delta) s in
  match ss_openThinking s with
  | Some open =>
      match ss_parts s !! open with
      | Some (PThinking text r i) =>
          if decide (lastContentIndex (ss_parts s) = Some open) then
            update_parts (take open (ss_parts s) ++ [PThinking (text ++ delta) r i] ++ drop (S open) (ss_parts s)) s
          else otherwise
      | _ => otherwise
      end
  | None => otherwise
  end.

(** [closeThinkingAt]: the parts and [stoppedInside], where [None] is -1. *)
Definition closeThinkingAt (ps : list MessagePart) (open : option nat) : list MessagePart * option nat :=
  match open with
  | None => (ps, lastContentIndex ps)
  | Some open =>
      match ps !! open with
      | Some (PThinking text _ _) =>
          let displaced := negb (bool_decide (lastContentIndex ps = Some open)) in
          match text with
          | _ :: _ => (ps, if displaced then lastContentIndex ps else Some open)
          | [] =>
              let kept := take open ps ++ drop (S open) ps in
              (kept, if displaced then lastContentIndex kept else None)
          end
      | _ => (ps, lastContentIndex ps)
      end
  end.

(** [markIncompleteAt] *)
Definition markIncompleteAt (ps : list MessagePart) (index : option nat) : list MessagePart :=
  match index with
  | Some i =>
      match ps !! i with
      | Some (PText _ _ as p) | Some (PThinking _ _ _ as p) => take i ps ++ [mark_incomplete p] ++ drop (S i) ps
      | _ => ps
      end
  | None => ps
  end.

Definition reduceExternalReasoningStarted (s : StreamState) : StreamState :=
  let ps := appendTrailingText (closeThinkingAt (ss_parts s) (ss_openThinking s)).1 kind_thinking [] in
  withAiMessageUpdate (with_content (ss_text s) ps (Some (pred (length ps))) s) (patch_parts ps) None None.

Definition reduceExternalReasoningEnded (s : StreamState) : StreamState :=
  let ps := (closeThinkingAt (ss_parts s) (ss_openThinking s)).1 in
  withAiMessageUpdate (with_content (ss_text s) ps None s) (patch_parts ps) None None.

(** [externalTargetId] *)
Definition externalTargetId (ps : list MessagePart) : jstring :=
  match List.find is_turn ps with Some (PExternalTurn t) => xt_targetId t | _ => js "codex" end.

Definition updateExternalTurn (ps : list MessagePart) (f : ExternalTurnPart -> ExternalTurnPart) : list MessagePart :=
  map (fun p => match p with PExternalTurn t => PExternalTurn (f t) | _ => p end) ps.

Definition updateExternalActivity (ps : list MessagePart) (callId : jstring) (f : MessagePart -> MessagePart) : list MessagePart :=
  map (fun p => match p with PExternalActivity a => if decide (xa_callId a = callId) then f p else p | _ => p end) ps.

Definition reduceExternalActivityStarted (s : StreamState) (callId name kind title : jstring) (detail : option jstring)
    (truncated : bool) : StreamState :=
  update_parts (ss_parts s ++ [activity_part (externalTargetId (ss_parts s)) callId name kind title detail truncated]) s.

Definition reduceExternalActivityUpdated (s : StreamState) (callId : jstring) (title detail : option jstring) (truncated : bool)
  : StreamState :=
  update_parts (updateExternalActivity (ss_parts s) callId (update_activity title detail truncated)) s.

Definition reduceExternalActivityCompleted (s : StreamState) (callId : jstring) (status : activity_status)
    (detail : option jstring) (isError truncated : bool) : StreamState :=
  update_parts (updateExternalActivity (ss_parts s) callId (complete_activity status isError detail truncated)) s.

Definition is_approval (requestId : jstring) (p : MessagePart) : bool :=
  match p with PExternalApproval a => bool_decide (xp_requestId a = requestId) | _ => false end.

Definition reduceExternalApprovalRequest (s : StreamState) (q : ExternalApprovalRequest) : StreamState :=
  if existsb (is_approval (ar_requestId q)) (ss_parts s) then s
  else update_parts (ss_parts s ++ [approval_part (externalTargetId (ss_parts s)) q]) s.

(** [reduceExternalApprovalStatus]: [decision] is assigned even when the option is [undefined]. *)
Definition resolve_live (requestId : jstring) (optionId : option jstring) (source : decision_source) (p : MessagePart) : MessagePart :=
  match p with
  | PExternalApproval a =>
      if decide (xp_requestId a = requestId /\ xp_decisionSource a = None) then
        PExternalApproval {| xp_targetId := xp_targetId a; xp_requestId := xp_requestId a; xp_kind := xp_kind a;
          xp_title := xp_title a; xp_detail := xp_detail a; xp_options := xp_options a; xp_expiresAtMs := xp_expiresAtMs a;
          xp_decision := optionId; xp_decisionSource := Some source; xp_resolvedAt := xp_resolvedAt a;
          xp_truncated := xp_truncated a |}
      else p
  | _ => p
  end.

Definition reduceExternalApprovalStatus (s : StreamState) (requestId : jstring) (optionId : option jstring)
    (source : decision_source) : StreamState :=
  update_parts (map (resolve_live requestId optionId source) (ss_parts s)) s.

Definition reduceExternalUsage (s : StreamState) (report : ExternalUsage) : StreamState :=
  update_parts (updateExternalTurn (ss_parts s) (set_usage report)) s.

Definition reduceExternalThreadUsage (s : StreamState) (u : ExternalThreadUsage) : StreamState :=
  let current (f : ExternalThreadUsage -> option ExternalUsage) := ss_threadUsage s ≫= f in
  let merged (f : ExternalThreadUsage -> option ExternalUsage) :=
    match f u with Some report => Some (merge_usage (current f) report) | None => current f end in
  {| ss_text := ss_text s; ss_parts := ss_parts s; ss_userMessageId := ss_userMessageId s; ss_aiMessageId := ss_aiMessageId s;
     ss_receivedUser := ss_receivedUser s; ss_receivedAi := ss_receivedAi s; ss_openThinking := ss_openThinking s;
     ss_userUpdate := ss_userUpdate s; ss_aiUpdate := ss_aiUpdate s; ss_sealed := ss_sealed s;
     ss_threadUsage := Some {| tu_last := merged tu_last; tu_total := merged tu_total;
       tu_contextWindowTokens := match tu_contextWindowTokens u with
                                 | Some n => Some n
                                 | None => ss_threadUsage s ≫= tu_contextWindowTokens
                                 end |} |}.

Definition is_steer (clientMessageId : jstring) (p : MessagePart) : bool :=
  match p with PExternalSteer x => bool_decide (xs_clientMessageId x = clientMessageId) | _ => false end.

Definition steer_part (targetId clientMessageId text : jstring) (rejected : option jstring) (createdAt : Z) : MessagePart :=
  PExternalSteer {| xs_targetId := targetId; xs_clientMessageId := clientMessageId; xs_text := text; xs_rejected := rejected;
                    xs_createdAt := createdAt |}.

Definition reduceExternalSteer (s : StreamState) (clientMessageId text : jstring) (rejected : option jstring) : StreamState :=
  if existsb (is_steer clientMessageId) (ss_parts s) then s
  else update_parts (ss_parts s ++ [steer_part (externalTargetId (ss_parts s)) clientMessageId text rejected 0]) s.

Definition reduceExternalNotice (s : StreamState) (severity title : jstring) (description : option jstring) : StreamState :=
  if canAddExternalNotice (ss_parts s) then update_parts (ss_parts s ++ [externalNoticePart severity title description]) s
  else s.

(** [reduceExternalError], with the truthy fields of the chunk. *)
Definition reduceExternalError (s : StreamState) (error : agent_error) (remedy : option agent_remedy)
    (reason version : option jstring) : StreamState :=
  update_parts (updateExternalTurn (ss_parts s) (fun p =>
    set_error error (match remedy with Some m => Some m | None => xt_remedy p end)
      (match truthy reason with Some r => Some r | None => xt_unavailableReason p end)
      (match truthy version with Some v => Some v | None => xt_requiredVersion p end) p)) s.

(** The live part keeps [updatedAt]. *)
Definition end_turn (reason : terminal_reason) (p : ExternalTurnPart) : ExternalTurnPart :=
  match xt_terminal p with Some _ => p | None => set_terminal reason (xt_updatedAt p) p end.

Definition reduceExternalTurnCompleted (s : StreamState) (reason : terminal_reason) : StreamState :=
  let '(closed, stoppedInside) := closeThinkingAt (ss_parts s) (ss_openThinking s) in
  let marked := match reason with r_completed => closed | _ => markIncompleteAt closed stoppedInside end in
  let settled := map (settle_activity (externalActivityStatusForTerminal reason)) marked in
  let ps := updateExternalTurn settled (end_turn reason) in
  withAiMessageUpdate (with_content (ss_text s) ps None s) (patch_parts ps) None None.

(** ** The reducer *)

Definition is_terminal_turn (p : MessagePart) : bool :=
  match p with PExternalTurn t => match xt_terminal t with Some _ => true | None => false end | _ => false end.

Definition reduceTextGenerationStreamChunk (state : StreamState) (chunk : StreamChunk) (pendingSubagentName : jstring)
  : StreamState :=
  let s := clearChunkUpdates state in
  if is_external chunk && existsb is_terminal_turn (ss_parts state) then s
  else
    match chunk with
    | ch_user_message_id id => withUserMessageUpdate s (patch_id id) id true
    | ch_assistant_message_id id => withAiMessageUpdate s (patch_id id) (Some id) (Some true)
    | ch_error error reason remedy version code => reduceStreamError s error reason remedy version code
    | ch_thinking_start => reduceThinkingStart s
    | ch_thinking text => reduceThinkingDelta s text
    | ch_text text => reduceTextDelta s text
    | ch_tool_call_started callId name => reduceToolCallStarted s callId name
    | ch_tool_call_completed callId arguments => reduceToolCallCompleted s callId arguments
    | ch_tool_result callId result isError => reduceToolResult s callId result isError
    | ch_tool_execution callId name execution => reduceToolExecution s callId name execution
    | ch_subagent_started callId agentId agentName task => reduceSubagentStarted s callId agentId agentName task
    | ch_subagent_text callId text => reduceSubagentText s callId text
    | ch_subagent_tool_call_started callId toolCallId name => reduceSubagentToolCallStarted s callId toolCallId name
    | ch_subagent_completed callId summary count => reduceSubagentCompleted s callId summary count
    | ch_subagent_failed callId error => reduceSubagentFailed s callId error
    | ch_mcp_media m => reduceMcpMedia s m
    | ch_question toolCallId questions => reduceQuestion s toolCallId questions
    | ch_mcp_elicitation_request id toolCallId slug message fields status =>
        reduceMcpElicitation s id toolCallId slug message fields status
    | ch_mcp_elicitation_status id status reason => reduceMcpElicitationStatus s id status reason
    | ch_todo_update toolCallId todos => reduceTodoUpdate s toolCallId todos
    | ch_image_generation_started imageId toolCallId prompt => reduceImageGenerationStarted s imageId toolCallId prompt
    | ch_image_generation_completed imageId toolCallId prompt url model time =>
        reduceImageGenerationCompleted s imageId toolCallId prompt url model time
    | ch_image_generation_failed imageId toolCallId prompt error code model time =>
        reduceImageGenerationFailed s imageId toolCallId prompt error code model time
    | ch_continuation_transition provider model fromProvider fromMode toMode reason detail =>
        reduceContinuationTransition s provider model fromProvider fromMode toMode reason detail
    | ch_system_event event detail => reduceSystemEvent s event detail pendingSubagentName
    | ch_external_session_started sessionId targetId reset model => reduceExternalSessionStarted s sessionId targetId reset model
    | ch_external_text text => reduceExternalText s text
    | ch_external_reasoning_started => reduceExternalReasoningStarted s
    | ch_external_reasoning_ended => reduceExternalReasoningEnded s
    | ch_external_reasoning text => reduceExternalReasoning s text
    | ch_external_activity_started callId name kind title detail truncated =>
        reduceExternalActivityStarted s callId name kind title detail truncated
    | ch_external_activity_updated callId title detail truncated => reduceExternalActivityUpdated s callId title detail truncated
    | ch_external_activity_completed callId status detail isError truncated =>
        reduceExternalActivityCompleted s callId status detail isError truncated
    | ch_external_approval_request q => reduceExternalApprovalRequest s q
    | ch_external_approval_status requestId optionId source => reduceExternalApprovalStatus s requestId optionId source
    | ch_external_usage report => reduceExternalUsage s report
    | ch_external_thread_usage u => reduceExternalThreadUsage s u
    | ch_external_steer id text rejected => reduceExternalSteer s id text rejected
    | ch_external_notice severity title description => reduceExternalNotice s severity title description
    | ch_external_error error remedy reason version => reduceExternalError s error remedy reason version
    | ch_external_turn_completed reason => reduceExternalTurnCompleted s reason
    | ch_done messageId time => reduceDone s messageId time
    | ch_external_account_limits _ _ | ch_external_commands _ | ch_context_info | ch_fallback_notice => s
    end.

(** ** Rows whose stream ended early *)

Definition isUnfinishedImagePart (p : MessagePart) : bool :=
  match p with PGeneratedImage g => match gi_status g with generating => true | _ => false end | _ => false end.

Definition fail_image (error : jstring) (p : MessagePart) : MessagePart :=
  match p with
  | PGeneratedImage g =>
      PGeneratedImage {| gi_imageId := gi_imageId g; gi_toolCallId := gi_toolCallId g; gi_status := image_error;
        gi_prompt := gi_prompt g; gi_imageUrl := gi_imageUrl g; gi_error := Some error; gi_errorCode := gi_errorCode g;
        gi_modelName := gi_modelName g; gi_generationTime := gi_generationTime g |}
  | _ => p
  end.

Definition settleUnfinishedImageParts (ps : list MessagePart) (error : jstring) : list MessagePart :=
  if existsb isUnfinishedImagePart ps then map (fun p => if isUnfinishedImagePart p then fail_image error p else p) ps else ps.

Definition settleUnfinishedExternalTurn (s : StreamState) (reason : terminal_reason) : StreamState :=
  match List.find is_turn (ss_parts s) with
  | Some (PExternalTurn t) => match xt_terminal t with None => reduceExternalTurnCompleted s reason | Some _ => s end
  | _ => s
  end.
