(* ===== verification/Sequencer.v ===== *)
(** * Ordering of an external session's events

    [apps/api/src/modules/external-agents/domain/external-event-sequencer.ts]: the state machine
    that decides, for each envelope of a session, whether its event is applied. *)

From Stdlib Require Import Sorted.
From S2P Require Import Prelude.

(** ** State *)

(** The addressing of an [ExternalAgentEventEnvelope]. *)
Record envelope : Type := { en_sequence : Z; en_idempotencyKey : option jstring; en_nativeTurnId : option jstring }.

Inductive verdict : Type :=
| v_apply
| v_duplicate
| v_gap (expected received : Z)
| v_after_terminal (nativeTurnId : jstring)
| v_foreign_turn (nativeTurnId : option jstring).

(** The two sets are kept in insertion order, which is the order a JavaScript [Set] iterates in. *)
Record Sequencer : Type := {
  sq_last : Z; sq_liveTurn : option jstring; sq_terminalTurns : list jstring; sq_keys : list jstring
}.

Definition IDEMPOTENCY_WINDOW : Z := 512.

Definition new_sequencer (lastAppliedSequence : Z) : Sequencer :=
  {| sq_last := lastAppliedSequence; sq_liveTurn := None; sq_terminalTurns := []; sq_keys := [] |}.

Definition set_add (k : jstring) (l : list jstring) : list jstring := if decide (k ∈ l) then l else l ++ [k].

Definition isExpectedTailOfEndedTurn (eventType : option jstring) : bool :=
  bool_decide (eventType = Some (js "cancelled")) || bool_decide (eventType = Some (js "completed")).

Definition beginTurn (nativeTurnId : jstring) (s : Sequencer) : Sequencer :=
  {| sq_last := sq_last s; sq_liveTurn := Some nativeTurnId;
     sq_terminalTurns := filter (fun id => id <> nativeTurnId) (sq_terminalTurns s); sq_keys := sq_keys s |}.

Definition endTurn (nativeTurnId : jstring) (s : Sequencer) : Sequencer :=
  {| sq_last := sq_last s;
     sq_liveTurn := if decide (sq_liveTurn s = Some nativeTurnId) then None else sq_liveTurn s;
     sq_terminalTurns := set_add nativeTurnId (sq_terminalTurns s); sq_keys := sq_keys s |}.

(** A key that is absent or empty is no key. *)
Definition key_of (e : envelope) : option jstring :=
  match en_idempotencyKey e with Some [] => None | k => k end.

(** [#advance] *)
Definition advance (e : envelope) (s : Sequencer) : Sequencer :=
  {| sq_last := en_sequence e; sq_liveTurn := sq_liveTurn s; sq_terminalTurns := sq_terminalTurns s;
     sq_keys := match key_of e with
                | None => sq_keys s
                | Some k =>
                    let keys := set_add k (sq_keys s) in
                    if zlen keys <=? IDEMPOTENCY_WINDOW then keys else tail keys
                end |}.

Definition admit_envelope (e : envelope) (s : Sequencer) : Sequencer * verdict :=
  if en_sequence e <=? sq_last s then (s, v_duplicate)
  else if negb (en_sequence e =? sq_last s + 1) then (s, v_gap (sq_last s + 1) (en_sequence e))
  else if match key_of e with Some k => bool_decide (k ∈ sq_keys s) | None => false end then (advance e s, v_duplicate)
  else
    match en_nativeTurnId e with
    | Some id =>
        if decide (id ∈ sq_terminalTurns s) then (advance e s, v_after_terminal id)
        else if match sq_liveTurn s with Some live => bool_decide (live <> id) | None => false end
             then (advance e s, v_foreign_turn (Some id))
        else (advance e s, v_apply)
    | None =>
        match sq_liveTurn s with
        | Some _ => (advance e s, v_foreign_turn None)
        | None => (advance e s, v_apply)
        end
    end.

(** ** Facts *)

(** What one envelope does to the cursor. *)
Lemma admit_cursor e s : let '(s', v) := admit_envelope e s in
  match v with
  | v_apply | v_after_terminal _ | v_foreign_turn _ => sq_last s' = sq_last s + 1 /\ en_sequence e = sq_last s + 1
  | v_gap expected received => s' = s /\ expected = sq_last s + 1 /\ received = en_sequence e /\ sq_last s + 1 < en_sequence e
  | v_duplicate => s' = s /\ en_sequence e <= sq_last s \/ sq_last s' = sq_last s + 1 /\ en_sequence e = sq_last s + 1
  end.
Proof. unfold admit_envelope. repeat (case_match; bool_to_prop; cbn; simplify_eq); repeat split; try lia; eauto with lia. Qed.

Lemma set_add_length k l : zlen (set_add k l) <= zlen l + 1.
Proof. unfold set_add. case_decide; zlia. Qed.

Lemma advance_keys e s : zlen (sq_keys s) <= IDEMPOTENCY_WINDOW -> zlen (sq_keys (advance e s)) <= IDEMPOTENCY_WINDOW.
Proof.
  intros H. cbn. destruct (key_of e) as [k|]; [|done]. case_match; bool_to_prop; [done|].
  pose proof (set_add_length k (sq_keys s)). destruct (set_add k (sq_keys s)); cbn in *; zlia.
Qed.

Lemma admit_keys e s : zlen (sq_keys s) <= IDEMPOTENCY_WINDOW -> zlen (sq_keys (admit_envelope e s).1) <= IDEMPOTENCY_WINDOW.
Proof. intros H. unfold admit_envelope. repeat (case_match; cbn [fst]; try (by apply advance_keys); try done). Qed.

(** *** Whole streams *)

(** The calls a session makes on its sequencer. *)
Inductive call : Type := c_begin (id : jstring) | c_end (id : jstring) | c_admit (e : envelope).

(** The states a list of calls leads to, with the verdicts it draws. *)
Fixpoint sequence_all (s : Sequencer) (cs : list call) : Sequencer * list (envelope * verdict) :=
  match cs with
  | [] => (s, [])
  | c_begin id :: rest => sequence_all (beginTurn id s) rest
  | c_end id :: rest => sequence_all (endTurn id s) rest
  | c_admit e :: rest =>
      let '(s', v) := admit_envelope e s in
      let '(s'', vs) := sequence_all s' rest in
      (s'', (e, v) :: vs)
  end.

Definition applied_sequences (vs : list (envelope * verdict)) : list Z :=
  omap (fun '(e, v) => match v with v_apply => Some (en_sequence e) | _ => None end) vs.

Lemma sequence_all_cursor cs : forall s,
  let '(s', vs) := sequence_all s cs in
  sq_last s <= sq_last s' /\
  Forall (fun z => sq_last s < z <= sq_last s') (applied_sequences vs) /\
  StronglySorted Z.lt (applied_sequences vs).
Proof.
  induction cs as [|[id|id|e] cs IH]; intros s; cbn [sequence_all].
  - split_and!; [lia|constructor|constructor].
  - specialize (IH (beginTurn id s)). by destruct (sequence_all _ cs).
  - specialize (IH (endTurn id s)). by destruct (sequence_all _ cs).
  - pose proof (admit_cursor e s) as Hc. destruct (admit_envelope e s) as [s1 v]. specialize (IH s1).
    destruct (sequence_all s1 cs) as [s2 vs]. destruct IH as (Hle & Hall & Hsort).
    assert (sq_last s <= sq_last s1) as Hs by (destruct v; intuition (subst; lia)).
    assert (Forall (fun z => sq_last s < z <= sq_last s2) (applied_sequences vs)) as Hall'
      by (eapply Forall_impl; [exact Hall|]; cbn; lia).
    split_and!; [lia| |]; destruct v; cbn; try done; destruct Hc as [Hc1 Hc2].
    + constructor; [lia|done].
    + constructor; [done|]. eapply Forall_impl; [exact Hall|]. cbn. lia.
Qed.

Lemma sequence_all_keys cs : forall s, zlen (sq_keys s) <= IDEMPOTENCY_WINDOW ->
  zlen (sq_keys (sequence_all s cs).1) <= IDEMPOTENCY_WINDOW.
Proof.
  induction cs as [|[id|id|e] cs IH]; intros s H; cbn [sequence_all]; [done|by apply IH|by apply IH|].
  pose proof (admit_keys e s H) as H1. destruct (admit_envelope e s) as [s1 v]. specialize (IH s1 H1).
  by destruct (sequence_all s1 cs).
Qed.

(** *** Idempotency keys *)

(** The key [k] is remembered, with at most [n] keys after it. *)
Definition remembered (k : jstring) (n : nat) (s : Sequencer) : Prop := exists p q, sq_keys s = p ++ k :: q /\ (length q <= n)%nat.

Lemma remembered_mono k n n' s : (n <= n')%nat -> remembered k n s -> remembered k n' s.
Proof. intros Hn (p & q & E & Hq). exists p, q. split; [done|lia]. Qed.

Lemma remembered_known k n s : remembered k n s -> k ∈ sq_keys s.
Proof. intros (p & q & -> & _). set_solver. Qed.

(** How many envelopes of a list carry a key *)
Definition keyed (vs : list (envelope * verdict)) : nat := length (List.filter (fun x => match key_of x.1 with Some _ => true | None => false end) vs).

Lemma advance_remembers k n e s :
  remembered k n s -> (n < 511)%nat \/ key_of e = None ->
  remembered k (match key_of e with Some _ => S n | None => n end) (advance e s).
Proof.
  intros (p & q & E & Hq) Hn. unfold remembered, advance. cbn [sq_keys]. destruct (key_of e) as [k'|]; [|by exists p, q].
  destruct Hn as [Hn|]; [|done]. unfold set_add. case_decide; [|].
  - case_match; bool_to_prop; [exists p, q; split; [done|lia]|]. rewrite E in *. destruct p as [|x p]; [|exists p, q; split; [done|lia]].
    exfalso. unfold IDEMPOTENCY_WINDOW in *. cbn in *. unfold zlen in *. cbn in *. lia.
  - rewrite E. case_match; bool_to_prop; [exists p, (q ++ [k']); rewrite <- app_assoc, length_app; cbn; split; [done|lia]|].
    destruct p as [|x p]; [|exists p, (q ++ [k']); cbn; rewrite <- app_assoc, length_app; cbn; split; [done|lia]].
    exfalso. unfold IDEMPOTENCY_WINDOW in *. cbn in *. unfold zlen in *. cbn in *. rewrite length_app in *. cbn in *. lia.
Qed.

Lemma admit_remembers k n e s :
  remembered k n s -> (n < 511)%nat \/ key_of e = None ->
  remembered k (match key_of e with Some _ => S n | None => n end) (admit_envelope e s).1.
Proof.
  intros H Hn. pose proof (advance_remembers k n e s H Hn) as Ha.
  assert (remembered k (match key_of e with Some _ => S n | None => n end) s) as Hs by (eapply remembered_mono; [|exact H]; case_match; lia).
  unfold admit_envelope. repeat (case_match; cbn [fst]; try done).
Qed.

(** A remembered key is not applied again until as many keyed envelopes have come as the window holds. *)
Lemma remembered_not_applied k : forall cs s n b e2 c,
  remembered k n s -> (sequence_all s cs).2 = b ++ (e2, v_apply) :: c -> key_of e2 = Some k -> (n + keyed b >= 512)%nat.
Proof.
  induction cs as [|[id|id|e] cs IH]; intros s n b e2 c Hr E Hk; cbn [sequence_all] in E.
  - by destruct b.
  - by eapply (IH (beginTurn id s)).
  - by eapply (IH (endTurn id s)).
  - pose proof (admit_remembers k n e s Hr) as Ha. destruct (admit_envelope e s) as [s1 v] eqn:Ead. destruct (sequence_all s1 cs) as [s2 vs] eqn:Es.
    cbn [snd] in E. destruct b as [|x b]; cbn [app] in E.
    + injection E as -> -> _. exfalso. unfold admit_envelope in Ead. rewrite Hk in Ead. rewrite bool_decide_eq_true_2 in Ead by by eapply remembered_known.
      repeat case_match; simplify_eq.
    + injection E as <- E. assert (keyed ((e, v) :: b) = ((match key_of e with Some _ => 1 | None => 0 end) + keyed b)%nat) as ->
        by (unfold keyed; cbn; by destruct (key_of e)).
      destruct (key_of e) as [k'|] eqn:Hke.
      * destruct (Nat.lt_ge_cases n 511) as [Hn|Hn]; [|lia]. specialize (IH s1 (S n) b e2 c (Ha (or_introl Hn))). rewrite Es in IH. specialize (IH E Hk). lia.
      * specialize (IH s1 n b e2 c (Ha (or_intror eq_refl))). rewrite Es in IH. specialize (IH E Hk). lia.
Qed.

Lemma applied_remembers e s s' k : zlen (sq_keys s) <= IDEMPOTENCY_WINDOW -> admit_envelope e s = (s', v_apply) -> key_of e = Some k -> remembered k 0 s'.
Proof.
  intros Hw E Hk. assert (s' = advance e s /\ k ∉ sq_keys s) as [-> Hni].
  { unfold admit_envelope in E. rewrite Hk in E. repeat case_match; bool_to_prop; simplify_eq; done. }
  unfold remembered, advance. cbn [sq_keys]. rewrite Hk. unfold set_add. rewrite decide_False by done.
  case_match; [by exists (sq_keys s), []|]. bool_to_prop. destruct (sq_keys s) as [|x l]; [|by exists l, []].
  exfalso. unfold IDEMPOTENCY_WINDOW in *. cbn in *. unfold zlen in *. cbn in *. lia.
Qed.

Lemma applied_key_not_repeated cs : forall s a e1 b e2 c k,
  zlen (sq_keys s) <= IDEMPOTENCY_WINDOW -> (sequence_all s cs).2 = a ++ (e1, v_apply) :: b ++ (e2, v_apply) :: c ->
  key_of e1 = Some k -> key_of e2 = Some k -> IDEMPOTENCY_WINDOW <= Z.of_nat (keyed b).
Proof.
  induction cs as [|[id|id|e] cs IH]; intros s a e1 b e2 c k Hw E H1 H2; cbn [sequence_all] in E.
  - by destruct a.
  - by eapply (IH (beginTurn id s)).
  - by eapply (IH (endTurn id s)).
  - pose proof (admit_keys e s Hw) as Hw'. destruct (admit_envelope e s) as [s1 v] eqn:Ead. destruct (sequence_all s1 cs) as [s2 vs] eqn:Es.
    cbn [fst snd] in *. destruct a as [|x a]; cbn [app] in E.
    + injection E as -> -> E. pose proof (remembered_not_applied k cs s1 0 b e2 c (applied_remembers _ _ _ _ Hw Ead H1)) as H.
      rewrite Es in H. specialize (H E H2). unfold IDEMPOTENCY_WINDOW. lia.
    + injection E as _ E. eapply (IH s1 a e1 b e2 c k Hw'); [by rewrite Es|done|done].
Qed.

(** C18: over any interleaving of turn boundaries and envelopes, the events a session applies carry strictly
    increasing sequence numbers above the cursor it started from, so a redelivered envelope is never applied twice; the
    cursor never goes back, whatever comes next; an envelope that skips a number is reported as a gap and leaves the whole state as it
    was. An event retried under a new sequence number is not applied twice either: between two applied envelopes with the same
    idempotency key at least as many envelopes with a key have come as the window of remembered keys holds, and that window never exceeds its bound. *)
Theorem sequencer_applies_once start cs :
  let '(s, vs) := sequence_all (new_sequencer start) cs in
  StronglySorted Z.lt (applied_sequences vs) /\
  Forall (fun z => start < z <= sq_last s) (applied_sequences vs) /\
  start <= sq_last s /\
  (forall more, sq_last s <= sq_last (sequence_all s more).1) /\
  (forall a e1 b e2 c k, vs = a ++ (e1, v_apply) :: b ++ (e2, v_apply) :: c -> key_of e1 = Some k -> key_of e2 = Some k ->
    IDEMPOTENCY_WINDOW <= Z.of_nat (keyed b)) /\
  zlen (sq_keys s) <= IDEMPOTENCY_WINDOW /\
  (forall e, sq_last s + 1 < en_sequence e -> admit_envelope e s = (s, v_gap (sq_last s + 1) (en_sequence e))).
Proof.
  pose proof (sequence_all_cursor cs (new_sequencer start)) as H.
  pose proof (sequence_all_keys cs (new_sequencer start)) as Hk.
  pose proof (applied_key_not_repeated cs (new_sequencer start)) as Hi.
  destruct (sequence_all _ cs) as [s vs]. destruct H as (Hc & ? & ?). cbn [fst snd sq_keys sq_last new_sequencer] in *.
  split_and!; [done|done|done| | |apply Hk; vm_compute; discriminate|].
  - intros more. pose proof (sequence_all_cursor more s) as H'. destruct (sequence_all s more). by destruct H'.
  - intros a e1 b e2 c k -> H1 H2. eapply Hi; [vm_compute; discriminate|done|done|done].
  - intros e He. unfold admit_envelope. case_match; bool_to_prop; [lia|]. case_match; bool_to_prop; [done|lia].
Qed.

(** An envelope of a turn that is not the live one is refused, and the cursor moves past it all the same: the method's
    comment says the cursor advances only for an applied envelope. *)
Example refused_envelope_advances :
  let s := beginTurn (js "t1") (new_sequencer 0) in
  let '(s', v) := admit_envelope {| en_sequence := 1; en_idempotencyKey := None; en_nativeTurnId := Some (js "t2") |} s in
  v = v_foreign_turn (Some (js "t2")) /\ sq_last s' = 1.
Proof. vm_compute. done. Qed.
