(* ===== verification/TurnController.v ===== *)
(** * A live external turn at the hub

    How one external turn reaches its two readers: the projection of a neutral event onto the
    stream ([apps/shared/src/streaming/external-events.ts]), the stream's observer
    ([external-turn-stream.ts], [openStream]) and, of
    [apps/api/src/modules/external-agents/application/external-turn-controller.ts], the intake of
    envelopes, steering, the answer to an approval and the end of the turn. Every [await] of the
    controller separates two operations of the model; the writer and the runtime calls are not
    modelled beyond the ways they can settle. *)

From S2P Require Import Prelude Json MessageParts Transcript StreamReducer Sequencer.

(** ** Projection onto the stream *)

Definition externalTurnCompletedChunk (reason : terminal_reason) : StreamChunk := ch_external_turn_completed reason.

(** The fields [resumed] and [fallbackReason] of the chunk are not read by the reducer. *)
Definition externalSessionStartedChunk (sessionId targetId : jstring) (conversationReset model : option jstring) : StreamChunk :=
  ch_external_session_started sessionId targetId conversationReset model.

Definition externalSteerChunk (clientMessageId text : jstring) (rejected : option jstring) : StreamChunk :=
  ch_external_steer clientMessageId text rejected.

(** [externalAgentEventToStreamChunk]; [None] is [null]. *)
Definition externalAgentEventToStreamChunk (event : ExternalAgentEvent) (fingerprint : option jstring)
    (errorRemedy : option agent_remedy) (errorReason : option (jstring * option jstring)) : option StreamChunk :=
  match event with
  | session_started | cancelled_event | completed_event => None
  | commands_available commands => Some (ch_external_commands commands)
  | text_delta text => Some (ch_external_text text)
  | reasoning_delta text => Some (ch_external_reasoning text)
  | reasoning_started => Some ch_external_reasoning_started
  | reasoning_ended => Some ch_external_reasoning_ended
  | activity_started callId name kind title detail truncated =>
      Some (ch_external_activity_started callId name kind title detail truncated)
  | activity_updated callId title detail truncated => Some (ch_external_activity_updated callId title detail truncated)
  | activity_completed callId status detail truncated =>
      Some (ch_external_activity_completed callId status detail (is_failed status) truncated)
  | approval_requested q => Some (ch_external_approval_request q)
  | approval_resolved requestId optionId source => Some (ch_external_approval_status requestId optionId source)
  | usage_event report => Some (ch_external_usage report)
  | thread_usage u => Some (ch_external_thread_usage u)
  | account_limits limits => Some (ch_external_account_limits limits (truthy fingerprint))
  | notice_event severity title description => Some (ch_external_notice severity title description)
  | error_event error =>
      Some (ch_external_error error errorRemedy (fst <$> errorReason) (truthy (errorReason ≫= snd)))
  end.

(** ** The live turn *)

(** Where a steering attempt waits: for its durable write, for the runtime's answer, or for the write of a correction. *)
Inductive steer_phase : Type :=
| writing (terminal : option terminal_reason)
| calling
| correcting (reasonCode : jstring).

(** [hb_steers] is [pendingSteerIds], each with its attempt's text and phase; [hb_stream] is what was sent to the client.
    [hb_decided] is not state of the controller: it lists the approvals whose outcome the hub recorded by itself. *)
Record HubTurn : Type := {
  hb_transcript : Transcript;
  hb_targetId : jstring;
  hb_fingerprint : option jstring;
  hb_assistantMessageId : jstring;
  hb_review : bool;
  hb_attempts : list (jstring * jstring);
  hb_steers : list (jstring * (jstring * steer_phase));
  hb_deferred : list ExternalAgentEvent;
  hb_dispatchPending : bool;
  hb_terminalReason : option terminal_reason;
  hb_settled : bool;
  hb_stream : list StreamChunk;
  hb_closed : bool;
  hb_decided : list jstring
}.

Definition upd_transcript (f : Transcript -> Transcript) (h : HubTurn) : HubTurn :=
  {| hb_transcript := f (hb_transcript h); hb_targetId := hb_targetId h; hb_fingerprint := hb_fingerprint h;
     hb_assistantMessageId := hb_assistantMessageId h; hb_review := hb_review h; hb_attempts := hb_attempts h;
     hb_steers := hb_steers h; hb_deferred := hb_deferred h; hb_dispatchPending := hb_dispatchPending h;
     hb_terminalReason := hb_terminalReason h; hb_settled := hb_settled h; hb_stream := hb_stream h; hb_closed := hb_closed h;
     hb_decided := hb_decided h |}.

Definition upd_steers (attempts : list (jstring * jstring)) (steers : list (jstring * (jstring * steer_phase))) (h : HubTurn)
  : HubTurn :=
  {| hb_transcript := hb_transcript h; hb_targetId := hb_targetId h; hb_fingerprint := hb_fingerprint h;
     hb_assistantMessageId := hb_assistantMessageId h; hb_review := hb_review h; hb_attempts := attempts;
     hb_steers := steers; hb_deferred := hb_deferred h; hb_dispatchPending := hb_dispatchPending h;
     hb_terminalReason := hb_terminalReason h; hb_settled := hb_settled h; hb_stream := hb_stream h; hb_closed := hb_closed h;
     hb_decided := hb_decided h |}.

Definition upd_deferred (deferred : list ExternalAgentEvent) (h : HubTurn) : HubTurn :=
  {| hb_transcript := hb_transcript h; hb_targetId := hb_targetId h; hb_fingerprint := hb_fingerprint h;
     hb_assistantMessageId := hb_assistantMessageId h; hb_review := hb_review h; hb_attempts := hb_attempts h;
     hb_steers := hb_steers h; hb_deferred := deferred; hb_dispatchPending := hb_dispatchPending h;
     hb_terminalReason := hb_terminalReason h; hb_settled := hb_settled h; hb_stream := hb_stream h; hb_closed := hb_closed h;
     hb_decided := hb_decided h |}.

Definition upd_end (dispatchPending : bool) (reason : option terminal_reason) (settled closed : bool) (h : HubTurn) : HubTurn :=
  {| hb_transcript := hb_transcript h; hb_targetId := hb_targetId h; hb_fingerprint := hb_fingerprint h;
     hb_assistantMessageId := hb_assistantMessageId h; hb_review := hb_review h; hb_attempts := hb_attempts h;
     hb_steers := hb_steers h; hb_deferred := hb_deferred h; hb_dispatchPending := dispatchPending;
     hb_terminalReason := reason; hb_settled := settled; hb_stream := hb_stream h; hb_closed := closed;
     hb_decided := hb_decided h |}.

Definition upd_decided (ids : list jstring) (h : HubTurn) : HubTurn :=
  {| hb_transcript := hb_transcript h; hb_targetId := hb_targetId h; hb_fingerprint := hb_fingerprint h;
     hb_assistantMessageId := hb_assistantMessageId h; hb_review := hb_review h; hb_attempts := hb_attempts h;
     hb_steers := hb_steers h; hb_deferred := hb_deferred h; hb_dispatchPending := hb_dispatchPending h;
     hb_terminalReason := hb_terminalReason h; hb_settled := hb_settled h; hb_stream := hb_stream h; hb_closed := hb_closed h;
     hb_decided := ids ++ hb_decided h |}.

(** [send]: a closed stream takes nothing more. *)
Definition send (c : StreamChunk) (h : HubTurn) : HubTurn :=
  if hb_closed h then h
  else {| hb_transcript := hb_transcript h; hb_targetId := hb_targetId h; hb_fingerprint := hb_fingerprint h;
     hb_assistantMessageId := hb_assistantMessageId h; hb_review := hb_review h; hb_attempts := hb_attempts h;
     hb_steers := hb_steers h; hb_deferred := hb_deferred h; hb_dispatchPending := hb_dispatchPending h;
     hb_terminalReason := hb_terminalReason h; hb_settled := hb_settled h; hb_stream := hb_stream h ++ [c]; hb_closed := hb_closed h;
     hb_decided := hb_decided h |}.

(** The chunk [onEvent] sends for an event that no refusal accompanies. *)
Definition event_chunk (fingerprint : option jstring) (targetId : jstring) (event : ExternalAgentEvent) : option StreamChunk :=
  externalAgentEventToStreamChunk event fingerprint
    (match event with error_event error => turnErrorRemedyFor targetId error | _ => None end) None.

(** [onEvent] *)
Definition onEvent (event : ExternalAgentEvent) (h : HubTurn) : HubTurn :=
  match event_chunk (hb_fingerprint h) (hb_targetId h) event with Some c => send c h | None => h end.

(** [onSteer] *)
Definition onSteer (clientMessageId text : jstring) (rejected : option jstring) : HubTurn -> HubTurn :=
  send (externalSteerChunk clientMessageId text rejected).

Definition flushDeferredEvents (h : HubTurn) : HubTurn :=
  fold_left (fun h e => onEvent e h) (hb_deferred h) (upd_deferred [] h).

(** The synchronous part of [terminate]; [hb_dispatchPending] is [submitting && dispatchPending]. *)
Definition terminate (requested : terminal_reason) (h : HubTurn) : HubTurn :=
  match hb_terminalReason h with
  | Some _ => h
  | None =>
      let reason := match requested, hb_dispatchPending h with
                    | r_hub_restarted, true => r_acceptance_unknown
                    | _, _ => requested
                    end in
      upd_end (hb_dispatchPending h) (Some reason) (hb_settled h) (hb_closed h) h
  end.

(** What follows once the steering attempts settled or the grace period lapsed. *)
Definition settle (at_ : Z) (h : HubTurn) : HubTurn :=
  match hb_terminalReason h with
  | Some reason =>
      if hb_settled h then h
      else
        let h := flushDeferredEvents h in
        let h := upd_transcript (finalize reason at_) h in
        upd_end (hb_dispatchPending h) (hb_terminalReason h) true (hb_closed h) h
  | None => h
  end.

(** [finish] and the two chunks the stream sends behind it. *)
Definition finish (at_ : Z) (h : HubTurn) : HubTurn :=
  match hb_terminalReason h with
  | Some reason =>
      if negb (hb_settled h) || hb_closed h then h
      else
        let source := match reason with r_cancelled_by_user => by_cancel | _ => by_expiry end in
        let pending := pendingApprovalIds (hb_transcript h) in
        let h := upd_decided pending h in
        let h := upd_transcript (fun t => fold_left (fun t id => resolveApproval id None source at_ t) pending t) h in
        let h := send (externalTurnCompletedChunk reason) h in
        let h := send (ch_done (Some (hb_assistantMessageId h)) None) h in
        upd_end (hb_dispatchPending h) (hb_terminalReason h) true true h
  | None => h
  end.

(** [consumer.onEnvelope]; [event] is [None] when the schema does not recognise it. *)
Definition onEnvelope (v : verdict) (event : option ExternalAgentEvent) (sequence at_ bytes : Z) (h : HubTurn) : HubTurn :=
  match hb_terminalReason h with
  | Some _ => h
  | None =>
      match v with
      | v_duplicate | v_after_terminal _ | v_foreign_turn _ => h
      | v_gap _ _ => terminate r_sequence_gap h
      | v_apply =>
          match event with
          | None => h
          | Some e =>
              let '(t, application) := apply e sequence at_ bytes (hb_transcript h) in
              let h := upd_transcript (fun _ => t) h in
              let h := match e with
                       | session_started => h
                       | _ => match hb_steers h with
                              | [] => onEvent e h
                              | _ => upd_deferred (hb_deferred h ++ [e]) h
                              end
                       end in
              match ap_terminal application with Some reason => terminate reason h | None => h end
          end
      end
  end.

(** [answerApproval] once the registry accepted the answer. *)
Definition answerApproval (requestId : jstring) (optionId : option jstring) (at_ : Z) (h : HubTurn) : HubTurn :=
  upd_transcript (resolveApproval requestId optionId by_user at_) (upd_decided [requestId] h).

(** The part of [reacquire] that moves the turn to a reopened session. *)
Definition reacquire (sessionId : jstring) (conversationReset model : option jstring) (h : HubTurn) : HubTurn :=
  match hb_terminalReason h with
  | Some _ => h
  | None =>
      if decide (xt_sessionId (tr_turn (hb_transcript h)) = sessionId) then h
      else
        let reset := truthy (match truthy conversationReset with
                             | Some r => Some r
                             | None => xt_conversationReset (tr_turn (hb_transcript h))
                             end) in
        let h := upd_transcript (fun t => match reset with Some r => markConversationReset r t | None => t end) h in
        let h := upd_transcript (rebindSession sessionId) h in
        send (externalSessionStartedChunk sessionId (hb_targetId h) reset model) h
  end.

(** *** Steering *)

Definition hasEnded (h : HubTurn) : bool :=
  match hb_terminalReason h with Some _ => true | None => tr_terminated (hb_transcript h) || hb_closed h end.

(** The [finally] block of an attempt. *)
Definition steer_finally (id : jstring) (h : HubTurn) : HubTurn :=
  let steers := filter (fun '(id', _) => id' <> id) (hb_steers h) in
  let h := upd_steers (hb_attempts h) steers h in
  match steers with [] => flushDeferredEvents h | _ => h end.

Definition set_phase (id text : jstring) (phase : steer_phase) (h : HubTurn) : HubTurn :=
  upd_steers (hb_attempts h) (map_set id (text, phase) (hb_steers h)) h.

(** [steer] up to its first [await]; an attempt refused at the entry, or repeated, changes nothing. *)
Definition steer (clientMessageId text : jstring) (at_ : Z) (h : HubTurn) : HubTurn :=
  if hasEnded h then h
  else if hb_review h then h
  else match map_get clientMessageId (hb_attempts h) with
  | Some _ => h
  | None =>
      let '(t, terminal) := recordSteerAttempt clientMessageId text at_ (hb_transcript h) in
      let h := upd_transcript (fun _ => t) h in
      upd_steers (map_set clientMessageId text (hb_attempts h))
        (map_set clientMessageId (text, writing terminal) (hb_steers h)) h
  end.

Definition ALREADY_COMPLETED : jstring := js "turn-already-completed".
Definition NOT_STEERABLE : jstring := js "turn-not-steerable".

(** The first write resolved. *)
Definition steer_written (id : jstring) (h : HubTurn) : HubTurn :=
  match map_get id (hb_steers h) with
  | Some (text, writing (Some reason)) => steer_finally id (terminate reason h)
  | Some (text, writing None) =>
      if hasEnded h then
        let h := upd_transcript (resolveSteerRejected id ALREADY_COMPLETED) h in
        steer_finally id (onSteer id text (Some ALREADY_COMPLETED) h)
      else set_phase id text calling h
  | _ => h
  end.

(** The first write failed: the record is corrected and the caller sees the failure. *)
Definition steer_write_failed (id : jstring) (h : HubTurn) : HubTurn :=
  match map_get id (hb_steers h) with
  | Some (_, writing _) => steer_finally id (upd_transcript (resolveSteerRejected id NOT_STEERABLE) h)
  | _ => h
  end.

(** The runtime answered: [None] is an acceptance. *)
Definition steer_answered (id : jstring) (rejected : option jstring) (h : HubTurn) : HubTurn :=
  match map_get id (hb_steers h) with
  | Some (text, calling) =>
      match rejected with
      | None => steer_finally id (onSteer id text None h)
      | Some reason => set_phase id text (correcting reason) (upd_transcript (resolveSteerRejected id reason) h)
      end
  | _ => h
  end.

(** The write of the correction resolved. *)
Definition steer_corrected (id : jstring) (h : HubTurn) : HubTurn :=
  match map_get id (hb_steers h) with
  | Some (text, correcting reason) => steer_finally id (onSteer id text (Some reason) h)
  | _ => h
  end.

(** The runtime call threw, or the write of the correction failed. *)
Definition steer_threw (id : jstring) (h : HubTurn) : HubTurn :=
  match map_get id (hb_steers h) with
  | Some (_, (calling | correcting _)) => steer_finally id h
  | _ => h
  end.

(** ** Runs *)

Inductive hub_op : Type :=
| o_envelope (v : verdict) (event : option ExternalAgentEvent) (sequence at_ bytes : Z)
| o_bind (nativeTurnId : jstring)
| o_reacquire (sessionId : jstring) (conversationReset model : option jstring)
| o_dispatch (pending : bool)
| o_terminate (reason : terminal_reason)
| o_answer (requestId : jstring) (optionId : option jstring) (at_ : Z)
| o_steer (clientMessageId text : jstring) (at_ : Z)
| o_steer_written (id : jstring)
| o_steer_write_failed (id : jstring)
| o_steer_answered (id : jstring) (rejected : option jstring)
| o_steer_corrected (id : jstring)
| o_steer_threw (id : jstring)
| o_settle (at_ : Z)
| o_finish (at_ : Z).

Definition hub_step (h : HubTurn) (o : hub_op) : HubTurn :=
  match o with
  | o_envelope v event sequence at_ bytes => onEnvelope v event sequence at_ bytes h
  | o_bind nativeTurnId => upd_transcript (bindNativeTurn nativeTurnId) h
  | o_reacquire sessionId reset model => reacquire sessionId reset model h
  | o_dispatch pending => upd_end pending (hb_terminalReason h) (hb_settled h) (hb_closed h) h
  | o_terminate reason => terminate reason h
  | o_answer requestId optionId at_ => if hb_closed h then h else answerApproval requestId optionId at_ h
  | o_steer id text at_ => steer id text at_ h
  | o_steer_written id => steer_written id h
  | o_steer_write_failed id => steer_write_failed id h
  | o_steer_answered id rejected => steer_answered id rejected h
  | o_steer_corrected id => steer_corrected id h
  | o_steer_threw id => steer_threw id h
  | o_settle at_ => settle at_ h
  | o_finish at_ => finish at_ h
  end.

Definition hub_run (h : HubTurn) (os : list hub_op) : HubTurn := fold_left hub_step os h.

(** A turn as it starts: the session and the message ids are announced, and the record holds the turn part alone. *)
Definition start_turn (targetId sessionId userMessageId assistantMessageId : jstring) (conversationReset model : option jstring)
    (fingerprint : option jstring) (review : bool) (startedAt : Z) (maxBytes maxEvents : option Z) : HubTurn :=
  let t := new_transcript targetId sessionId startedAt maxBytes maxEvents in
  {| hb_transcript := match truthy conversationReset with Some r => markConversationReset r t | None => t end;
     hb_targetId := targetId; hb_fingerprint := fingerprint; hb_assistantMessageId := assistantMessageId; hb_review := review;
     hb_attempts := []; hb_steers := []; hb_deferred := []; hb_dispatchPending := false; hb_terminalReason := None;
     hb_settled := false;
     hb_stream := [externalSessionStartedChunk sessionId targetId (truthy conversationReset) model;
                   ch_user_message_id userMessageId; ch_assistant_message_id assistantMessageId];
     hb_closed := false; hb_decided := [] |}.

(** The client: the reducer over the chunks it was sent. *)
Definition live_view (userMessageId aiMessageId pendingSubagentName : jstring) (chunks : list StreamChunk) : StreamState :=
  fold_left (fun s c => reduceTextGenerationStreamChunk s c pendingSubagentName) chunks
    (createTextGenerationStreamState userMessageId aiMessageId).
