(* ===== verification/LiveParts.v ===== *)
(** * Relations on parts that the reducer respects

    The reducer of an external turn reads little of a part: its kind, its keys, the text of a
    run and the status of an activity. This file states that as a parametricity lemma
    ([reduce_related]): two states whose parts are related, by any relation that lets the
    reducer see the same things, stay related under every chunk of an external turn. It is
    used with three relations: parts that differ in what only the server keeps, a steer and
    its correction, and a turn before and after it moved to another session. *)

From S2P Require Import Prelude Json MessageParts Transcript StreamReducer.

(** ** Chunks of a running turn *)

(** The chunks an external event, a steer or the end of the turn become. *)
Definition is_turn_chunk (c : StreamChunk) : bool :=
  match c with ch_external_session_started _ _ _ _ => false | _ => is_external c end.

Definition is_steer_chunk (c : StreamChunk) : bool := match c with ch_external_steer _ _ _ => true | _ => false end.

(** ** Related parts *)

Section Related.
Variable Rt : ExternalTurnPart -> ExternalTurnPart -> Prop.
Variable Ra : ExternalApprovalPart -> ExternalApprovalPart -> Prop.
Variable Rs : ExternalSteerPart -> ExternalSteerPart -> Prop.

Definition related (p q : MessagePart) : Prop :=
  match p, q with
  | PExternalTurn a, PExternalTurn b => Rt a b
  | PExternalApproval a, PExternalApproval b => Ra a b
  | PExternalSteer a, PExternalSteer b => Rs a b
  | (PExternalTurn _ | PExternalApproval _ | PExternalSteer _), _ => False
  | _, _ => p = q
  end.

(** What the reducer reads of the three, and what it does to them. *)
Hypothesis Rt_target : forall a b, Rt a b -> xt_targetId a = xt_targetId b.
Hypothesis Rt_terminal : forall a b, Rt a b -> xt_terminal a = xt_terminal b.
Hypothesis Rt_usage : forall u a b, Rt a b -> Rt (set_usage u a) (set_usage u b).
Hypothesis Rt_error : forall e (m : option agent_remedy) (r v : option jstring) a b, Rt a b ->
  Rt (set_error e (match m with Some m => Some m | None => xt_remedy a end)
        (match r with Some r => Some r | None => xt_unavailableReason a end)
        (match v with Some v => Some v | None => xt_requiredVersion a end) a)
     (set_error e (match m with Some m => Some m | None => xt_remedy b end)
        (match r with Some r => Some r | None => xt_unavailableReason b end)
        (match v with Some v => Some v | None => xt_requiredVersion b end) b).
Hypothesis Rt_end : forall r a b, Rt a b -> Rt (end_turn r a) (end_turn r b).
Hypothesis Ra_refl : forall t q, related (approval_part t q) (approval_part t q).
Hypothesis Ra_id : forall a b, Ra a b -> xp_requestId a = xp_requestId b.
Hypothesis Ra_resolve : forall i o s a b, Ra a b ->
  related (resolve_live i o s (PExternalApproval a)) (resolve_live i o s (PExternalApproval b)).
Hypothesis Rs_id : forall a b, Rs a b -> xs_clientMessageId a = xs_clientMessageId b.

Local Notation R := related.
Local Notation Rl := (Forall2 related).

(** Splits a pair of related parts into its possible kinds. *)
Ltac related_cases :=
  match goal with H : related ?p ?q |- _ => destruct p, q; cbn in H |- *; try done; simplify_eq; eauto end.

Lemma related_notice p q : R p q -> is_notice p = is_notice q.
Proof. intros. related_cases. Qed.

Lemma related_turn p q : R p q -> is_turn p = is_turn q.
Proof. intros. related_cases. Qed.

Lemma related_terminal p q : R p q -> is_terminal_turn p = is_terminal_turn q.
Proof. intros. related_cases. by rewrite (Rt_terminal _ _ H). Qed.

Lemma related_kind k p q : R p q -> is_kind k p = is_kind k q.
Proof. intros. destruct k; related_cases. Qed.

Lemma related_thinking x r i q : R (PThinking x r i) q <-> q = PThinking x r i.
Proof. split; [destruct q; cbn; naive_solver auto|by intros ->]. Qed.

Lemma related_thinking_r x r i p : R p (PThinking x r i) <-> p = PThinking x r i.
Proof. split; [destruct p; cbn; naive_solver auto|by intros ->]. Qed.

Lemma related_add_text x p q : R p q -> R (add_text x p) (add_text x q).
Proof. intros. related_cases. Qed.

Lemma related_mark p q : R p q -> R (mark_incomplete p) (mark_incomplete q).
Proof. intros. related_cases. Qed.

Lemma related_settle st p q : R p q -> R (settle_activity st p) (settle_activity st q).
Proof. intros. related_cases. by destruct (xa_status _). Qed.

Lemma related_fresh_run k x : R (fresh_run k x) (fresh_run k x).
Proof. by destruct k. Qed.

(** *** Lists of parts *)

Lemma related_map f ps qs : (forall p q, R p q -> R (f p) (f q)) -> Rl ps qs -> Rl (map f ps) (map f qs).
Proof. intros Hf. induction 1; cbn; eauto. Qed.

Lemma related_snoc ps qs p q : Rl ps qs -> R p q -> Rl (ps ++ [p]) (qs ++ [q]).
Proof. intros. apply Forall2_app; eauto. Qed.

Lemma related_existsb f ps qs : (forall p q, R p q -> f p = f q) -> Rl ps qs -> existsb f ps = existsb f qs.
Proof. intros Hf. induction 1 as [|p q ps qs H]; cbn; [done|]. by rewrite (Hf _ _ H), IHForall2. Qed.

Lemma related_filter_length f ps qs : (forall p q, R p q -> f p = f q) -> Rl ps qs ->
  length (List.filter f ps) = length (List.filter f qs).
Proof. intros Hf. induction 1 as [|p q ps qs H]; cbn; [done|]. rewrite (Hf _ _ H). destruct (f q); cbn; lia. Qed.

Lemma related_canAdd ps qs : Rl ps qs -> canAddExternalNotice ps = canAddExternalNotice qs.
Proof. intros. unfold canAddExternalNotice. by rewrite (related_filter_length is_notice ps qs related_notice). Qed.

Lemma related_last_content ps qs : Rl ps qs -> lastContentIndex ps = lastContentIndex qs.
Proof.
  intros H. unfold lastContentIndex. rewrite (Forall2_length _ _ _ H).
  induction (length qs) as [|n IH]; cbn; [done|]. rewrite IH.
  destruct (ps !! n) as [p|] eqn:Ep.
  - destruct (Forall2_lookup_l _ _ _ _ _ H Ep) as (q & -> & Hq). by rewrite (related_notice p q Hq).
  - by rewrite (Forall2_lookup_r_None _ _ _ _ H Ep) || (destruct (qs !! n) as [q|] eqn:Eq; [|done];
      destruct (Forall2_lookup_r _ _ _ _ _ H Eq) as (p & ? & _); congruence).
Qed.

Lemma related_target ps qs : Rl ps qs -> externalTargetId ps = externalTargetId qs.
Proof.
  unfold externalTargetId. induction 1 as [|p q ps qs H]; cbn; [done|]. rewrite (related_turn _ _ H).
  destruct (is_turn q) eqn:E; [|done]. related_cases.
Qed.

Lemma related_append ps qs k x : Rl ps qs -> Rl (appendTrailingText ps k x) (appendTrailingText qs k x).
Proof.
  intros H. unfold appendTrailingText. pose proof (related_fresh_run k x) as Hf.
  destruct ps as [|p ps _] using rev_ind; [inversion H; cbn; by repeat constructor|].
  apply Forall2_app_inv_l in H as (qs' & l & H1 & H2 & ->). apply Forall2_cons_inv_l in H2 as (q & l0 & Hq & Hn & ->). apply Forall2_nil_inv_l in Hn as ->.
  rewrite !last_snoc, !removelast_last, (related_kind k p q Hq).
  destruct (is_kind k q); apply related_snoc; eauto using related_add_text, related_snoc.
Qed.

Lemma related_take_drop ps qs n : Rl ps qs -> Rl (take n ps ++ drop (S n) ps) (take n qs ++ drop (S n) qs).
Proof. intros. apply Forall2_app; [by apply Forall2_take|by apply Forall2_drop]. Qed.

Lemma related_replace ps qs n p q : Rl ps qs -> R p q ->
  Rl (take n ps ++ [p] ++ drop (S n) ps) (take n qs ++ [q] ++ drop (S n) qs).
Proof. intros. repeat apply Forall2_app; [by apply Forall2_take|by repeat constructor|by apply Forall2_drop]. Qed.

(** A lookup on one side, with what the other side has there. *)
Lemma related_lookup ps qs n : Rl ps qs ->
  (ps !! n = None /\ qs !! n = None) \/ exists p q, ps !! n = Some p /\ qs !! n = Some q /\ R p q.
Proof.
  intros H. destruct (ps !! n) as [p|] eqn:E.
  - right. destruct (Forall2_lookup_l _ _ _ _ _ H E) as (q & ? & ?). eauto.
  - left. split; [done|]. apply lookup_ge_None. rewrite <-(Forall2_length _ _ _ H). by apply lookup_ge_None.
Qed.

Lemma related_close ps qs o : Rl ps qs ->
  Rl (closeThinkingAt ps o).1 (closeThinkingAt qs o).1 /\ (closeThinkingAt ps o).2 = (closeThinkingAt qs o).2.
Proof.
  intros H. pose proof (related_last_content ps qs H) as Hl. unfold closeThinkingAt.
  destruct o as [k|]; [|by rewrite Hl].
  destruct (related_lookup ps qs k H) as [[-> ->]|(p & q & -> & -> & Hpq)]; [by rewrite Hl|].
  pose proof (related_take_drop ps qs k H) as Hd. pose proof (related_last_content _ _ Hd) as Hld.
  rewrite Hl, Hld. destruct p, q; cbn in Hpq; try done; simplify_eq; by destruct text0.
Qed.

Lemma related_markAt ps qs i : Rl ps qs -> Rl (markIncompleteAt ps i) (markIncompleteAt qs i).
Proof.
  intros H. unfold markIncompleteAt. destruct i as [k|]; [|done].
  destruct (related_lookup ps qs k H) as [[-> ->]|(p & q & -> & -> & Hpq)]; [done|].
  destruct p, q; cbn in Hpq; try done; simplify_eq; by apply related_replace.
Qed.

Lemma related_updateTurn ps qs f g : (forall a b, Rt a b -> Rt (f a) (g b)) -> Rl ps qs ->
  Rl (updateExternalTurn ps f) (updateExternalTurn qs g).
Proof. intros Hf. induction 1 as [|p q ps qs H]; cbn; constructor; [related_cases|done]. Qed.

Lemma related_updateActivity ps qs id f : (forall a, exists b, f (PExternalActivity a) = PExternalActivity b) -> Rl ps qs ->
  Rl (updateExternalActivity ps id f) (updateExternalActivity qs id f).
Proof.
  intros Hf. apply related_map. intros p q H. related_cases. case_decide; [|done].
  destruct (Hf a0) as [b ->]. done.
Qed.

(** ** States *)

Definition related_states (s s' : StreamState) : Prop :=
  ss_text s = ss_text s' /\ Rl (ss_parts s) (ss_parts s') /\ ss_openThinking s = ss_openThinking s'.

Lemma related_update s s' ps qs : related_states s s' -> Rl ps qs -> related_states (update_parts ps s) (update_parts qs s').
Proof. intros (? & ? & ?) ?. split_and!; done. Qed.

Lemma related_completed s s' r : related_states s s' ->
  related_states (reduceExternalTurnCompleted s r) (reduceExternalTurnCompleted s' r).
Proof.
  intros (Ht & Hp & Ho). unfold reduceExternalTurnCompleted.
  destruct (related_close _ _ (ss_openThinking s) Hp) as [Hc Hs]. rewrite <-Ho.
  destruct (closeThinkingAt (ss_parts s) _) as [c i], (closeThinkingAt (ss_parts s') _) as [c' i']. cbn in Hc, Hs. subst i'.
  split_and!; [done| |done]. cbn. apply related_updateTurn; [by apply Rt_end|]. apply related_map; [apply related_settle|].
  destruct r; try done; by apply related_markAt.
Qed.

Lemma related_reasoning s s' x : related_states s s' ->
  related_states (reduceExternalReasoning s x) (reduceExternalReasoning s' x).
Proof.
  intros H. pose proof H as (Ht & Hp & Ho). unfold reduceExternalReasoning. rewrite <-Ho, (related_last_content _ _ Hp).
  pose proof (related_update _ _ _ _ H (related_append _ _ kind_thinking x Hp)) as Helse.
  destruct (ss_openThinking s) as [k|]; [|done].
  destruct (related_lookup _ _ k Hp) as [[-> ->]|(p & q & -> & -> & Hpq)]; [done|].
  destruct p, q; cbn in Hpq; try done; simplify_eq; case_decide; try done.
  apply related_update; [done|]. by apply related_replace.
Qed.

(** One chunk of a running turn. *)
Lemma reduce_related s s' c n : is_turn_chunk c = true ->
  (forall i x r t, c = ch_external_steer i x r -> R (steer_part t i x r 0) (steer_part t i x r 0)) -> related_states s s' ->
  related_states (reduceTextGenerationStreamChunk s c n) (reduceTextGenerationStreamChunk s' c n).
Proof.
  intros Hc Hst (Ht & Hp & Ho).
  assert (related_states (clearChunkUpdates s) (clearChunkUpdates s')) as H by by split_and!.
  unfold reduceTextGenerationStreamChunk.
  rewrite (related_existsb is_terminal_turn _ _ related_terminal Hp). case_match; [done|].
  set (u := clearChunkUpdates s) in *. set (u' := clearChunkUpdates s') in *.
  change (Rl (ss_parts u) (ss_parts u')) in Hp. change (ss_openThinking u = ss_openThinking u') in Ho.
  change (ss_text u = ss_text u') in Ht. clearbody u u'.
  destruct c; try discriminate Hc; try done.
  - unfold reduceExternalText. rewrite Ht. split_and!; [done|by apply related_append|done].
  - unfold reduceExternalReasoningStarted. rewrite <-Ho. destruct (related_close _ _ (ss_openThinking u) Hp) as [Hcl _].
    pose proof (related_append _ _ kind_thinking [] Hcl) as Ha. split_and!; [done|done|]. cbn. by rewrite (Forall2_length _ _ _ Ha).
  - unfold reduceExternalReasoningEnded. rewrite <-Ho. destruct (related_close _ _ (ss_openThinking u) Hp) as [Hcl _].
    by split_and!.
  - by apply related_reasoning.
  - unfold reduceExternalActivityStarted. rewrite (related_target _ _ Hp). by apply related_update, related_snoc.
  - apply related_update, related_updateActivity; [done|by eexists|done].
  - apply related_update, related_updateActivity; [done|by eexists|done].
  - unfold reduceExternalApprovalRequest. rewrite (related_target _ _ Hp).
    rewrite (related_existsb (is_approval (ar_requestId request)) (ss_parts u) (ss_parts u')); [|intros p q ?; related_cases; by rewrite (Ra_id _ _ H1)|done].
    case_match; [done|]. by apply related_update, related_snoc.
  - apply related_update, related_map; [done| |done]. intros p q ?. related_cases.
  - apply related_update, related_updateTurn; [done|apply Rt_usage|done].
  - unfold reduceExternalSteer. rewrite (related_target _ _ Hp).
    rewrite (related_existsb (is_steer clientMessageId) (ss_parts u) (ss_parts u')); [|intros p q ?; related_cases; by rewrite (Rs_id _ _ H1)|done].
    case_match; [done|]. apply related_update, related_snoc; [done|done|]. by apply Hst.
  - unfold reduceExternalNotice. rewrite (related_canAdd _ _ Hp). case_match; [|done]. by apply related_update, related_snoc.
  - apply related_update, related_updateTurn; [done|apply Rt_error|done].
  - by apply related_completed.
Qed.

Lemma reduce_all_related cs n : forall s s', Forall (fun c => is_turn_chunk c = true /\ is_steer_chunk c = false) cs ->
  related_states s s' ->
  related_states (fold_left (fun s c => reduceTextGenerationStreamChunk s c n) cs s)
                 (fold_left (fun s c => reduceTextGenerationStreamChunk s c n) cs s').
Proof. induction cs as [|c cs IH]; cbn; [done|]. intros s s' [[Hc Hs] Hcs]%Forall_cons H. apply IH; [done|]. apply reduce_related; [done| |done]. intros; by subst c. Qed.

End Related.
