(* ===== verification/TranscriptFacts.v ===== *)
(** * Well-formed transcripts

    The invariant of [Transcript]: the references the class keeps beside its list (the three
    maps, the open reasoning phase) name exactly the objects they should. Under it, each
    mutation through a reference is the update of the parts by key or by position that a
    reader of the list sees. *)

From S2P Require Import Prelude Utf8 Json MessageParts Transcript StreamReducer.

(** ** The invariant *)

Definition key_activity (p : MessagePart) : option jstring := match p with PExternalActivity a => Some (xa_callId a) | _ => None end.
Definition key_approval (p : MessagePart) : option jstring := match p with PExternalApproval a => Some (xp_requestId a) | _ => None end.
Definition key_steer (p : MessagePart) : option jstring := match p with PExternalSteer x => Some (xs_clientMessageId x) | _ => None end.

(** The map [m] names exactly the objects of the list that have a key, each under its own. *)
Definition registered (key : MessagePart -> option jstring) (m : list (jstring * nat)) (l : list slot) : Prop :=
  forall i p, item i p ∈ l -> forall c, map_get c m = Some i <-> key p = Some c.

Definition below (n : nat) (m : list (jstring * nat)) : Prop := forall c i, map_get c m = Some i -> (i < n)%nat.

(** An approval nobody decided carries no option. *)
Definition tidy (p : MessagePart) : Prop :=
  match p with PExternalApproval a => xp_decisionSource a = None -> xp_decision a = None | _ => True end.

Record wf (t : Transcript) : Prop := {
  wf_head : exists rest, tr_parts t = turn_slot :: rest /\ turn_slot ∉ rest;
  wf_items : forall i p, item i p ∈ tr_parts t -> (i < tr_fresh t)%nat /\ is_turn p = false /\ tidy p;
  wf_unique : forall j k i p q, tr_parts t !! j = Some (item i p) -> tr_parts t !! k = Some (item i q) -> j = k;
  wf_activities : registered key_activity (tr_activities t) (tr_parts t) /\ below (tr_fresh t) (tr_activities t);
  wf_approvals : registered key_approval (tr_approvals t) (tr_parts t) /\ below (tr_fresh t) (tr_approvals t);
  wf_steers : registered key_steer (tr_steers t) (tr_parts t) /\ below (tr_fresh t) (tr_steers t);
  wf_terminated : tr_terminated t = match xt_terminal (tr_turn t) with Some _ => true | None => false end;
  wf_open : forall id, tr_openThinking t = Some id -> exists k x r i, tr_parts t !! k = Some (item id (PThinking x r i))
}.

(** ** Maps *)

Lemma map_get_set {A} c c' (v : A) m : map_get c (map_set c' v m) = if decide (c = c') then Some v else map_get c m.
Proof.
  induction m as [|[k x] m IH]; cbn; [done|].
  destruct (decide (c' = k)) as [->|]; cbn; repeat case_decide; congruence.
Qed.

(** The map after a part with a new key was pushed. *)
Definition reg_push (key : MessagePart -> option jstring) (p : MessagePart) (n : nat) (m : list (jstring * nat)) :=
  match key p with Some c => map_set c n m | None => m end.

Definition unkeyed (key : MessagePart -> option jstring) (p : MessagePart) (m : list (jstring * nat)) : Prop :=
  forall c, key p = Some c -> map_get c m = None.

Lemma registered_push key m l n p :
  registered key m l -> below n m -> (forall i q, item i q ∈ l -> (i < n)%nat) -> unkeyed key p m ->
  registered key (reg_push key p n m) (l ++ [item n p]).
Proof.
  intros Hr Hb Hl Hk i q [Hin|Hin]%elem_of_app c; unfold reg_push.
  - rewrite <-(Hr i q Hin c). pose proof (Hl i q Hin). destruct (key p) as [c'|] eqn:E; [|done].
    rewrite map_get_set. case_decide; [|done]. subst c'. rewrite (Hk c E). split; [intros [= ->]; lia|done].
  - apply list_elem_of_singleton in Hin as [= -> ->]. destruct (key p) as [c'|] eqn:E.
    + rewrite map_get_set. case_decide; [naive_solver auto|]. split; [intros ?%Hb; lia|congruence].
    + split; [intros ?%Hb; lia|done].
Qed.

Lemma below_push key m n p : below n m -> below (S n) (reg_push key p n m).
Proof.
  intros Hb c i. unfold reg_push. destruct (key p) as [c'|]; [rewrite map_get_set; case_decide|]; intros Hi.
  - injection Hi as <-. lia.
  - apply Hb in Hi. lia.
  - apply Hb in Hi. lia.
Qed.

(** ** Objects *)

(** Updates that leave what identifies a part alone. *)
Record gentle (f : MessagePart -> MessagePart) : Prop := {
  g_turn : forall p, is_turn (f p) = is_turn p;
  g_activity : forall p, key_activity (f p) = key_activity p;
  g_approval : forall p, key_approval (f p) = key_approval p;
  g_steer : forall p, key_steer (f p) = key_steer p;
  g_tidy : forall p, tidy p -> tidy (f p);
  g_thinking : forall x r i, exists x' r' i', f (PThinking x r i) = PThinking x' r' i'
}.

Ltac gentle_tac :=
  split; [intros []; cbn; repeat case_match; done..|intros []; cbn; repeat case_match; cbn; naive_solver auto|intros; cbn; eauto].

Lemma gentle_add_text x : gentle (add_text x).
Proof. gentle_tac. Qed.
Lemma gentle_mark : gentle mark_incomplete.
Proof. gentle_tac. Qed.
Lemma gentle_settle s : gentle (settle_activity s).
Proof. gentle_tac. Qed.
Lemma gentle_decide o s r : gentle (decide_approval o s r).
Proof. gentle_tac. Qed.
Lemma gentle_reject r : gentle (reject_steer r).
Proof. gentle_tac. Qed.
Lemma gentle_update a b c : gentle (update_activity a b c).
Proof. gentle_tac. Qed.
Lemma gentle_complete a b c d : gentle (complete_activity a b c d).
Proof. gentle_tac. Qed.
Global Hint Resolve gentle_add_text gentle_mark gentle_settle gentle_decide gentle_reject gentle_update gentle_complete : mango.

(** The slot at a position after an update. *)
Lemma lookup_update id f l k : update_object id f l !! k =
  (fun s => match s with item i p => if (id =? i)%nat then item i (f p) else s | turn_slot => s end) <$> l !! k.
Proof. apply list_lookup_fmap. Qed.

Lemma elem_update id f l i p : item i p ∈ update_object id f l ->
  exists q, item i q ∈ l /\ p = if (id =? i)%nat then f q else q.
Proof.
  intros [[|j q] [H1 H2]]%list_elem_of_fmap; [done|]. destruct (Nat.eqb_spec id j) as [->|Hn]; injection H1 as -> ->; exists q.
  - by rewrite Nat.eqb_refl.
  - split; [done|]. by destruct (Nat.eqb_spec id j).
Qed.

Lemma registered_update key m l id f : (forall p, key (f p) = key p) -> registered key m l -> registered key m (update_object id f l).
Proof. intros Hf Hr i p (q & Hq & ->)%elem_update c. rewrite (Hr i q Hq c). case_match; by rewrite ?Hf. Qed.

Lemma wf_update t id f : gentle f -> wf t -> wf (with_parts (update_object id f) t).
Proof.
  intros G [(rest & Hh & Hn) Hi Hu [Ha ?] [Hp ?] [Hs ?] Ht Ho]. split; cbn [tr_parts with_parts tr_fresh tr_activities
    tr_approvals tr_steers tr_terminated tr_turn tr_openThinking].
  - rewrite Hh. cbn. eexists; split; [done|]. intros ([|] & Es & Hs')%list_elem_of_fmap; [done|]. by case_match.
  - intros i p (q & Hq & ->)%elem_update. destruct (Hi i q Hq) as (? & ? & ?). destruct (id =? i)%nat; [|done].
    split_and!; [done|by rewrite (g_turn f G)|by apply (g_tidy f G)].
  - intros j k i p q Hj Hk. rewrite lookup_update in Hj, Hk.
    apply fmap_Some in Hj as ([|] & Hj & Ej), Hk as ([|] & Hk & Ek); simplify_eq.
    apply (Hu j k i p0 p1); [by destruct (id =? id0)%nat; simplify_eq|by destruct (id =? id1)%nat; simplify_eq].
  - split; [|done]. apply registered_update; [apply G|done].
  - split; [|done]. apply registered_update; [apply G|done].
  - split; [|done]. apply registered_update; [apply G|done].
  - done.
  - intros o (k & x & r & i & Hk)%Ho. exists k. rewrite lookup_update, Hk. cbn.
    destruct (id =? o)%nat; [|eauto]. destruct (g_thinking f G x r i) as (? & ? & ? & ->). eauto.
Qed.

(** The next fields of a transcript that only bookkeeping changes. *)
Lemma wf_with_turn t f : (xt_terminal (f (tr_turn t)) = xt_terminal (tr_turn t)) -> wf t -> wf (with_turn f t).
Proof. intros Hf [? ? ? ? ? ? Ht ?]. split; cbn; try done. by rewrite Hf. Qed.

Lemma wf_with_text t x : wf t -> wf (with_text x t).
Proof. intros []. by split. Qed.

Lemma wf_interrupted t b : wf t -> wf (with_flags (tr_terminated t) b t).
Proof. intros []. by split. Qed.

(** A push, with the maps that register the part. *)
Lemma wf_push t p : is_turn p = false -> tidy p ->
  unkeyed key_activity p (tr_activities t) -> unkeyed key_approval p (tr_approvals t) -> unkeyed key_steer p (tr_steers t) ->
  wf t ->
  wf (push_part p (with_maps (reg_push key_activity p (tr_fresh t) (tr_activities t))
                             (reg_push key_approval p (tr_fresh t) (tr_approvals t))
                             (reg_push key_steer p (tr_fresh t) (tr_steers t)) t)).
Proof.
  intros Hp Hd Ka Kp Ks [(rest & Hh & Hn) Hi Hu [Ha Hba] [Hr Hbr] [Hs Hbs] Ht Ho].
  assert (forall i q, item i q ∈ tr_parts t -> (i < tr_fresh t)%nat) as Hlt by (intros i q ?%Hi; tauto).
  split; cbn [tr_parts push_part with_maps tr_fresh tr_activities tr_approvals tr_steers tr_terminated tr_turn tr_openThinking].
  - rewrite Hh. cbn. eexists; split; [done|]. rewrite elem_of_app, list_elem_of_singleton. by intros [|].
  - intros i q [Hin|Hin]%elem_of_app; [apply Hi in Hin; intuition lia|].
    apply list_elem_of_singleton in Hin as [= -> ->]. split_and!; [lia|done|done].
  - intros j k i q r Hj Hk. apply lookup_app_Some in Hj as [Hj|[? Hj]], Hk as [Hk|[? Hk]].
    + by apply (Hu j k i q r).
    + apply list_lookup_singleton_Some in Hk as [? [= <- <-]]. apply list_elem_of_lookup_2, Hlt in Hj. lia.
    + apply list_lookup_singleton_Some in Hj as [? [= <- <-]]. apply list_elem_of_lookup_2, Hlt in Hk. lia.
    + apply list_lookup_singleton_Some in Hj as [? _], Hk as [? _]. lia.
  - split; [by apply registered_push|by apply below_push].
  - split; [by apply registered_push|by apply below_push].
  - split; [by apply registered_push|by apply below_push].
  - done.
  - intros o (k & x & r & i & Hk)%Ho. exists k, x, r, i. by apply lookup_app_l_Some.
Qed.

Lemma with_maps_id t : with_maps (tr_activities t) (tr_approvals t) (tr_steers t) t = t.
Proof. by destruct t. Qed.

(** A push of a part that no map registers. *)
Lemma wf_push_plain t p : is_turn p = false -> key_activity p = None -> key_approval p = None -> key_steer p = None ->
  wf t -> wf (push_part p t).
Proof.
  intros Hp Ha Hr Hs H.
  pose proof (wf_push t p Hp) as W. unfold reg_push, unkeyed in W. rewrite Ha, Hr, Hs, with_maps_id in W.
  apply W; try done. by destruct p.
Qed.

(** ** What a reader of the parts sees *)

Lemma parts_push p t : parts (push_part p t) = parts t ++ [p].
Proof. unfold parts. cbn [tr_parts push_part]. by rewrite map_app. Qed.

Lemma parts_with_turn f t : wf t -> parts (with_turn f t) = updateExternalTurn (parts t) f.
Proof.
  intros W. unfold parts, updateExternalTurn. rewrite map_map. apply map_ext_in. intros [|i p] Hin; [done|].
  apply list_elem_of_In, (wf_items t W) in Hin as (_ & Hp & _). by destruct p.
Qed.

(** An update through a map is an update of every part with the key. *)
Lemma parts_update_key key m t c id f g : registered key m (tr_parts t) -> map_get c m = Some id ->
  (forall u, key (PExternalTurn u) = None) -> (forall p, g p = if decide (key p = Some c) then f p else p) ->
  parts (with_parts (update_object id f) t) = map g (parts t).
Proof.
  intros Hr Hm Hk Hg. unfold parts, update_object. cbn [tr_parts with_parts]. rewrite !map_map. apply map_ext_in.
  intros [|i p] Hin; cbn.
  - by rewrite Hg, Hk.
  - apply list_elem_of_In in Hin. rewrite Hg. pose proof (Hr i p Hin c) as Hc.
    destruct (Nat.eqb_spec id i) as [->|]; cbn; case_decide as Hd; try done.
    + by apply Hc in Hm.
    + apply Hc in Hd. congruence.
Qed.

(** A key no map registers is the key of no part. *)
Lemma parts_no_key key m t c p : registered key m (tr_parts t) -> map_get c m = None ->
  (forall u, key (PExternalTurn u) = None) -> p ∈ parts t -> key p <> Some c.
Proof.
  intros Hr Hm Hk Hp. apply list_elem_of_fmap in Hp as ([|i q] & -> & Hin); cbn; [by rewrite Hk|].
  intros Hc%(Hr i q Hin c). congruence.
Qed.

Lemma parts_keep_key key m t c g : registered key m (tr_parts t) -> map_get c m = None ->
  (forall u, key (PExternalTurn u) = None) -> (forall p, key p <> Some c -> g p = p) -> map g (parts t) = parts t.
Proof.
  intros Hr Hm Hk Hg. rewrite <-map_id. apply map_ext_in. intros p Hin%list_elem_of_In.
  apply Hg. by eapply parts_no_key.
Qed.

(** An update of the object at a position. *)
Lemma parts_update_at t k id p f : wf t -> tr_parts t !! k = Some (item id p) ->
  parts (with_parts (update_object id f) t) = alter f k (parts t).
Proof.
  intros W Hk. apply list_eq. intros j. unfold parts. cbn [tr_parts with_parts].
  rewrite !list_lookup_fmap, lookup_update. destruct (decide (j = k)) as [->|Hj].
  - rewrite Hk, list_lookup_alter_eq, list_lookup_fmap, Hk. cbn. by rewrite Nat.eqb_refl.
  - rewrite list_lookup_alter_ne, list_lookup_fmap by done. destruct (tr_parts t !! j) as [[|i q]|] eqn:E; cbn; [done| |done].
    destruct (Nat.eqb_spec id i) as [->|]; [|done]. destruct Hj. by eapply (wf_unique t W).
Qed.

Lemma object_at t k id p : wf t -> tr_parts t !! k = Some (item id p) -> object t id = Some p.
Proof.
  intros W Hk. unfold object. destruct (List.find (slot_is id) (tr_parts t)) as [s|] eqn:E.
  - apply find_some in E as [Hin Hs]. apply list_elem_of_In, list_elem_of_lookup in Hin as (j & Hj). destruct s as [|i q]; [done|]. cbn in Hs.
    apply Nat.eqb_eq in Hs as <-. rewrite (wf_unique t W j k id q p Hj Hk) in Hj. cbn. congruence.
  - eapply find_none in E; [|by apply list_elem_of_In, (list_elem_of_lookup_2 _ k)]. cbn in E. by rewrite Nat.eqb_refl in E.
Qed.

Lemma last_index_spec {A} (f : A -> bool) l k : (exists x, l !! k = Some x /\ f x = true) ->
  (forall j x, l !! j = Some x -> f x = true -> j = k) -> last_index f l = Some k.
Proof.
  revert k. induction l as [|a l IH]; intros k (x & Hx & Hf) Hu; [done|]. cbn. destruct k as [|k]; cbn in Hx.
  - injection Hx as ->. assert (last_index f l = None) as ->; [|by rewrite Hf].
    assert (forall j y, l !! j = Some y -> f y = false) as Hn.
    { intros j y Hj. destruct (f y) eqn:Ey; [|done]. by specialize (Hu (S j) y Hj Ey). }
    clear -Hn. induction l as [|b l IH]; [done|]. cbn. rewrite IH by (intros j y Hj; by apply (Hn (S j) y)).
    by rewrite (Hn 0%nat b eq_refl).
  - rewrite (IH k); [done|eauto|]. intros j y Hj Hy. specialize (Hu (S j) y Hj Hy). lia.
Qed.

Lemma last_index_at t k id p : wf t -> tr_parts t !! k = Some (item id p) -> last_index (slot_is id) (tr_parts t) = Some k.
Proof.
  intros W Hk. apply last_index_spec; [eexists; split; [done|apply Nat.eqb_refl]|].
  intros j [|i q] Hj Hs; [done|]. cbn in Hs. apply Nat.eqb_eq in Hs as <-. by eapply (wf_unique t W).
Qed.

Lemma trailing_is_at t k id p : wf t -> tr_parts t !! k = Some (item id p) ->
  trailing_is t id = bool_decide (lastContentIndex (parts t) = Some k).
Proof.
  intros W Hk. unfold trailing_is, trailing_content. destruct (lastContentIndex (parts t)) as [j|]; [|done].
  destruct (decide (j = k)) as [->|Hj].
  - rewrite Hk, bool_decide_eq_true_2 by done. apply Nat.eqb_refl.
  - rewrite bool_decide_eq_false_2 by congruence. destruct (tr_parts t !! j) as [[|i q]|] eqn:E; cbn; [done| |done].
    destruct (Nat.eqb_spec id i) as [->|]; [|done]. destruct Hj. by eapply (wf_unique t W).
Qed.

(** *** Reasoning *)

(** [closeThinking] at the position of the open phase: the parts, and the position of the survivor. *)
Lemma close_none t : tr_openThinking t = None -> closeThinking t = (with_open None t, None).
Proof. unfold closeThinking. by intros ->. Qed.

Lemma close_some t k id x r i : wf t -> tr_openThinking t = Some id -> tr_parts t !! k = Some (item id (PThinking x r i)) ->
  closeThinking t = match x with
                    | [] => (with_parts (fun ps => delete k ps) (with_open None t), None)
                    | _ => (with_open None t, Some id)
                    end.
Proof.
  intros W Ho Hk. unfold closeThinking. rewrite Ho, (object_at _ _ _ _ W Hk), (last_index_at _ _ _ _ W Hk).
  by destruct x.
Qed.

Lemma wf_with_open t o : (forall id, o = Some id -> exists k x r i, tr_parts t !! k = Some (item id (PThinking x r i))) ->
  wf t -> wf (with_open o t).
Proof. intros Ho []. by split. Qed.

Lemma parts_delete t k : parts (with_parts (fun ps => delete k ps) t) = delete k (parts t).
Proof. unfold parts. cbn [tr_parts with_parts]. apply (list_fmap_delete (deref t)). Qed.

(** Removing the object at a position, which nothing refers to any more. *)
Lemma wf_delete t k id x r i : wf t -> tr_parts t !! k = Some (item id (PThinking x r i)) -> tr_openThinking t = None ->
  wf (with_parts (fun ps => delete k ps) t).
Proof.
  intros [(rest & Hh & Hn) Hi Hu [Ha ?] [Hr ?] [Hs ?] Ht Ho] Hk Hno.
  assert (forall s, s ∈ delete k (tr_parts t) -> s ∈ tr_parts t) as Hin.
  { intros s. apply elem_of_list_sublist || (intros (j & Hj)%list_elem_of_lookup; rewrite list_lookup_delete in Hj;
      by eapply list_elem_of_lookup_2). }
  split; cbn [tr_parts with_parts tr_fresh tr_activities tr_approvals tr_steers tr_terminated tr_turn tr_openThinking].
  - rewrite Hh in *. destruct k as [|k]; [done|]. exists (delete k rest). split; [done|]. intros Hd. apply Hn.
    apply list_elem_of_lookup in Hd as (j & Hj). rewrite list_lookup_delete in Hj. by eapply list_elem_of_lookup_2.
  - intros j p ?%Hin. by apply Hi.
  - intros j l a p q Hj Hl. rewrite list_lookup_delete in Hj, Hl.
    pose proof (Hu _ _ _ _ _ Hj Hl) as He. repeat case_decide; lia.
  - split; [|done]. intros a p ?%Hin. by apply Ha.
  - split; [|done]. intros a p ?%Hin. by apply Hr.
  - split; [|done]. intros a p ?%Hin. by apply Hs.
  - done.
  - congruence.
Qed.

(** The open phase of a well-formed transcript and its position. *)
Lemma open_position t : wf t -> tr_openThinking t = None \/
  exists id k x r i, tr_openThinking t = Some id /\ tr_parts t !! k = Some (item id (PThinking x r i)).
Proof. intros W. destruct (tr_openThinking t) as [id|] eqn:E; [|by left]. right. destruct (wf_open t W id E) as (k & x & r & i & Hk). eauto 9. Qed.

Lemma wf_close t : wf t -> wf (closeThinking t).1 /\ tr_openThinking (closeThinking t).1 = None.
Proof.
  intros W. destruct (open_position t W) as [Ho|(id & k & x & r & i & Ho & Hk)].
  - rewrite close_none by done. split; [by apply wf_with_open|done].
  - rewrite (close_some _ _ _ _ _ _ W Ho Hk). assert (wf (with_open None t)) as W' by by apply wf_with_open.
    destruct x; cbn [fst]; split; try done. by eapply wf_delete.
Qed.

(** *** Runs of text *)

Lemma parts_append k x t : wf t -> parts (appendText k x t) = appendTrailingText (parts t) k x.
Proof.
  intros W. unfold appendText, appendTrailingText. unfold parts at 2 3 4. rewrite fmap_last.
  destruct (last (tr_parts t)) as [[|id p]|] eqn:E; cbn [fmap option_fmap option_map deref]; rewrite ?parts_push; [by destruct k| |done].
  destruct (is_kind k p); [|by rewrite parts_push].
  apply last_Some in E as (l & E). pose proof (length_app l [item id p]) as Hl.
  assert (tr_parts t !! length l = Some (item id p)) as Hk by (rewrite E; apply list_lookup_middle; done).
  rewrite (parts_update_at t (length l) id p) by done. unfold parts. rewrite E, map_app. cbn. rewrite removelast_last.
  rewrite alter_app_r_alt by (rewrite length_map; lia). by rewrite length_map, Nat.sub_diag.
Qed.

Lemma wf_append k x t : wf t -> wf (appendText k x t).
Proof.
  intros W. unfold appendText. assert (wf (push_part (fresh_run k x) t)) as Wp by (apply wf_push_plain; by destruct k).
  destruct (last (tr_parts t)) as [[|id p]|]; try done. destruct (is_kind k p); [|done]. apply wf_update; auto with mango.
Qed.

Lemma open_append k x t : tr_openThinking (appendText k x t) = tr_openThinking t.
Proof. unfold appendText. repeat case_match; done. Qed.

(** The position of the open phase. *)
Definition open_index (t : Transcript) (o : option nat) : Prop :=
  match tr_openThinking t, o with
  | None, None => True
  | Some id, Some k => exists x r i, tr_parts t !! k = Some (item id (PThinking x r i))
  | _, _ => False
  end.

Lemma open_index_cases t o : open_index t o -> tr_openThinking t = None /\ o = None \/
  exists id k x r i, tr_openThinking t = Some id /\ o = Some k /\ tr_parts t !! k = Some (item id (PThinking x r i)).
Proof. unfold open_index. destruct (tr_openThinking t), o; naive_solver auto. Qed.

Lemma parts_lookup t k s : tr_parts t !! k = Some s -> parts t !! k = Some (deref t s).
Proof. unfold parts. intros H. by rewrite list_lookup_fmap, H. Qed.

Lemma parts_close t o : wf t -> open_index t o -> parts (closeThinking t).1 = (closeThinkingAt (parts t) o).1.
Proof.
  intros W [[Ho ->]|(id & k & x & r & i & Ho & -> & Hk)]%open_index_cases; [by rewrite close_none|].
  rewrite (close_some _ _ _ _ _ _ W Ho Hk). unfold closeThinkingAt. rewrite (parts_lookup _ _ _ Hk). cbn [deref].
  destruct x; cbn [fst]; [|done]. rewrite parts_delete. apply delete_take_drop.
Qed.

Lemma alter_split {A} (f : A -> A) (k : nat) (l : list A) x : l !! k = Some x -> alter f k l = take k l ++ [f x] ++ drop (S k) l.
Proof. revert k. induction l as [|a l IH]; intros [|k] H; cbn in *; try done; [by injection H as ->|]. f_equal. by apply IH. Qed.

Lemma alter_same {A} (f : A -> A) (k : nat) (l : list A) : (forall x, l !! k = Some x -> f x = x) -> alter f k l = l.
Proof.
  revert k. induction l as [|a l IH]; intros [|k] H; cbn in *; try done; [by rewrite (H a)|].
  f_equal. by apply IH.
Qed.

Lemma markIncompleteAt_alter ps i : markIncompleteAt ps i = match i with Some k => alter mark_incomplete k ps | None => ps end.
Proof.
  unfold markIncompleteAt. destruct i as [k|]; [|done]. destruct (ps !! k) as [p|] eqn:E.
  - destruct p; rewrite <-?(alter_split mark_incomplete k ps _ E); try done; symmetry; apply alter_same; intros ? Hx; rewrite E in Hx; by injection Hx as <-.
  - symmetry. apply alter_same. congruence.
Qed.

(** *** The end of the turn *)

Lemma settle_idem st p : st <> act_running -> settle_activity st (settle_activity st p) = settle_activity st p.
Proof. intros Hst. destruct p as [| | | | | | | | | | |a| | | | | | |]; try done. cbn. destruct (xa_status a) eqn:E; cbn; rewrite ?E; try done. by destruct st. Qed.

Lemma fold_update f ids : (forall p, f (f p) = f p) -> forall l,
  fold_left (fun l id => update_object id f l) ids l =
  map (fun s => match s with item i p => if decide (i ∈ ids) then item i (f p) else s | turn_slot => s end) l.
Proof.
  intros Hf. induction ids as [|id ids IH]; intros l; cbn [fold_left].
  - rewrite <-(map_id l) at 1. apply map_ext. intros [|i p]; [done|]. case_decide as H; [inversion H|done].
  - rewrite IH. unfold update_object. rewrite map_map. apply map_ext. intros [|i p]; [done|].
    destruct (Nat.eqb_spec id i) as [->|Hn].
    + rewrite (decide_True (P := i ∈ i :: ids)) by left. case_decide; [by rewrite Hf|done].
    + destruct (decide (i ∈ ids)); [rewrite decide_True by (by right)|rewrite decide_False by (rewrite elem_of_cons; naive_solver)]; done.
Qed.

(** Settling through the map of activities settles every activity. *)
Lemma parts_settle t st : wf t -> st <> act_running ->
  parts (with_parts (fun ps => fold_left (fun ps id => update_object id (settle_activity st) ps) (map snd (tr_activities t)) ps) t)
  = map (settle_activity st) (parts t).
Proof.
  intros W Hst. unfold parts. cbn [tr_parts with_parts]. rewrite fold_update by (intros; by apply settle_idem).
  rewrite !map_map. apply map_ext_in. intros [|i p] Hs%list_elem_of_In; [done|]. cbn. case_decide as Hd; [done|]. cbn.
  destruct p as [| | | | | | | | | | |a| | | | | | |]; try done. destruct Hd.
  pose proof (proj2 (proj1 (wf_activities t W) i _ Hs (xa_callId a)) eq_refl) as Hg.
  clear -Hg. induction (tr_activities t) as [|[c j] m IH]; [done|]. cbn in *. case_decide; [injection Hg as ->; left|right; auto].
Qed.

Lemma wf_settle t st ids : wf t -> wf (with_parts (fun ps => fold_left (fun ps id => update_object id (settle_activity st) ps) ids ps) t).
Proof.
  revert t. induction ids as [|id ids IH]; intros t W; [by destruct W|]. apply (IH (with_parts (update_object id (settle_activity st)) t)).
  by apply wf_update, W; auto with mango.
Qed.

Lemma terminal_status_settles r : externalActivityStatusForTerminal r <> act_running.
Proof. by destruct r. Qed.

(** [finalize] as the live view writes it. *)
Definition finalized_parts (r : terminal_reason) (at_ : Z) (ps : list MessagePart) (o : option nat) : list MessagePart :=
  let '(c, i) := closeThinkingAt ps o in
  updateExternalTurn (map (settle_activity (externalActivityStatusForTerminal r))
    (match r with r_completed => c | _ => markIncompleteAt c i end)) (set_terminal r at_).

Definition close_and_mark (r : terminal_reason) (t : Transcript) : Transcript :=
  let stopped := match tr_openThinking t with Some open => trailing_is t open | None => false end in
  let '(t, openPhase) := closeThinking t in
  match r with
  | r_completed => t
  | _ => markIncomplete (if stopped then openPhase else trailing_content t ≫= slot_id) t
  end.

Lemma close_flags t a b : closeThinking (with_flags a b t) = (with_flags a b (closeThinking t).1, (closeThinking t).2).
Proof.
  unfold closeThinking. cbn [tr_openThinking with_flags]. destruct (tr_openThinking t) as [id|]; [|done].
  change (object (with_flags a b t) id) with (object t id). cbn [tr_parts with_flags].
  destruct (object t id) as [[]|]; try done. destruct text; [|done]. by destruct (last_index _ _).
Qed.

Lemma close_and_mark_flags r t a b : close_and_mark r (with_flags a b t) = with_flags a b (close_and_mark r t).
Proof.
  unfold close_and_mark. rewrite close_flags. cbn [tr_openThinking with_flags].
  change (trailing_is (with_flags a b t)) with (trailing_is t). destruct (closeThinking t) as [t' p]. cbn [fst snd].
  change (trailing_content (with_flags a b t')) with (trailing_content t').
  destruct (match tr_openThinking t with Some _ => _ | None => _ end), p, (trailing_content t' ≫= slot_id), r; done.
Qed.

Lemma finalize_eq r at_ t : tr_terminated t = false ->
  finalize r at_ t =
  let u := close_and_mark r t in
  with_flags true (tr_vendorInterrupted t) (with_turn (set_terminal r at_)
    (with_parts (fun ps => fold_left (fun ps id => update_object id (settle_activity (externalActivityStatusForTerminal r)) ps)
                             (map snd (tr_activities u)) ps) u)).
Proof.
  intros H. transitivity (with_turn (set_terminal r at_)
    (let u := close_and_mark r (with_flags true (tr_vendorInterrupted t) t) in
     with_parts (fun ps => fold_left (fun ps id => update_object id (settle_activity (externalActivityStatusForTerminal r)) ps)
                             (map snd (tr_activities u)) ps) u)).
  - unfold finalize, close_and_mark. rewrite H. destruct (closeThinking _). done.
  - by rewrite close_and_mark_flags.
Qed.

(** The trailing part, marked. *)
Lemma parts_mark_trailing t : wf t -> parts (markIncomplete (trailing_content t ≫= slot_id) t) = markIncompleteAt (parts t) (lastContentIndex (parts t)).
Proof.
  intros W. rewrite markIncompleteAt_alter. unfold trailing_content. destruct (lastContentIndex (parts t)) as [k|]; [|done].
  destruct (tr_parts t !! k) as [[|id p]|] eqn:E; cbn.
  - symmetry. apply alter_same. rewrite (parts_lookup _ _ _ E). cbn. naive_solver.
  - by apply (parts_update_at _ _ _ p).
  - symmetry. apply alter_same. unfold parts. rewrite list_lookup_fmap, E. done.
Qed.

Lemma wf_mark id t : wf t -> wf (markIncomplete id t).
Proof. intros W. destruct id; [|done]. apply wf_update; auto with mango. Qed.

Lemma open_mark id t : tr_openThinking (markIncomplete id t) = tr_openThinking t.
Proof. by destruct id. Qed.

Lemma wf_close_and_mark r t : wf t -> wf (close_and_mark r t) /\ tr_openThinking (close_and_mark r t) = None.
Proof.
  intros W. unfold close_and_mark. destruct (wf_close t W) as [Wc Hc]. destruct (closeThinking t) as [t' p]. cbn in *.
  destruct r; rewrite ?open_mark; split; auto using wf_mark.
Qed.

Lemma parts_close_and_mark r t o : wf t -> open_index t o ->
  parts (close_and_mark r t) =
  let '(c, i) := closeThinkingAt (parts t) o in match r with r_completed => c | _ => markIncompleteAt c i end.
Proof.
  intros W Hi. pose proof (parts_close t o W Hi) as Hc. destruct (wf_close t W) as [Wc _]. unfold close_and_mark.
  assert (let '(t', p) := closeThinking t in
          parts (markIncomplete (if match tr_openThinking t with Some open => trailing_is t open | None => false end
                                 then p else trailing_content t' ≫= slot_id) t') =
          let '(c, i) := closeThinkingAt (parts t) o in markIncompleteAt c i) as Hm.
  { apply open_index_cases in Hi as [[Ho ->]|(id & k & x & r' & i & Ho & -> & Hk)].
    - rewrite Ho, close_none in * by done. cbn in Wc |- *. by rewrite parts_mark_trailing.
    - rewrite Ho, (trailing_is_at _ _ _ _ W Hk), (close_some _ _ _ _ _ _ W Ho Hk) in *.
      unfold closeThinkingAt in *. rewrite (parts_lookup _ _ _ Hk) in *. cbn [deref] in *.
      destruct x; cbn [fst] in *.
      + rewrite <-Hc. case_bool_decide; cbn; [done|]. by rewrite parts_mark_trailing.
      + case_bool_decide; cbn [negb]; [|by rewrite parts_mark_trailing].
        rewrite markIncompleteAt_alter. by apply (parts_update_at (with_open None t) k id (PThinking (z :: x) r' i)). }
  destruct (closeThinking t) as [t' p], (closeThinkingAt (parts t) o) as [c i]. cbn in Hc. by destruct r.
Qed.

Lemma wf_end t r at_ b : wf t -> wf (with_flags true b (with_turn (set_terminal r at_) t)).
Proof. intros []. by split. Qed.

Lemma wf_finalize r at_ t : wf t -> wf (finalize r at_ t).
Proof.
  intros W. destruct (tr_terminated t) eqn:E; [unfold finalize; by rewrite E|]. rewrite finalize_eq by done.
  by apply wf_end, wf_settle, wf_close_and_mark.
Qed.

Lemma parts_finalize r at_ t o : wf t -> tr_terminated t = false -> open_index t o ->
  parts (finalize r at_ t) = finalized_parts r at_ (parts t) o.
Proof.
  intros W E Ho. rewrite finalize_eq by done. destruct (wf_close_and_mark r t W) as [Wm _]. cbn zeta.
  change (parts (with_flags true (tr_vendorInterrupted t) ?u)) with (parts u).
  rewrite parts_with_turn by by apply wf_settle. rewrite parts_settle by (done || apply terminal_status_settles).
  rewrite (parts_close_and_mark r t o W Ho). unfold finalized_parts. by destruct (closeThinkingAt (parts t) o).
Qed.

Lemma text_mark id t : tr_text (markIncomplete id t) = tr_text t.
Proof. by destruct id. Qed.

Lemma text_close_and_mark r t : tr_text (close_and_mark r t) = tr_text t.
Proof.
  unfold close_and_mark. assert (tr_text (closeThinking t).1 = tr_text t) as H by (unfold closeThinking; repeat case_match; done).
  destruct (closeThinking t) as [t' p]. cbn in H. destruct r; rewrite ?text_mark; done.
Qed.

Lemma finalize_terminal r at_ t : wf t -> tr_terminated t = false ->
  tr_terminated (finalize r at_ t) = true /\ xt_terminal (tr_turn (finalize r at_ t)) = Some r /\
  tr_openThinking (finalize r at_ t) = None /\ tr_text (finalize r at_ t) = tr_text t.
Proof.
  intros W E. rewrite finalize_eq by done. destruct (wf_close_and_mark r t W) as [_ Ho]. split_and!; try done.
  apply (text_close_and_mark r t).
Qed.

(** *** Events *)

(** The keys of a new activity or approval are new. *)
Definition fresh_event (t : Transcript) (e : ExternalAgentEvent) : Prop :=
  match e with
  | activity_started callId _ _ _ _ _ => map_get callId (tr_activities t) = None
  | approval_requested q => map_get (ar_requestId q) (tr_approvals t) = None
  | _ => True
  end.

Global Instance fresh_event_dec t e : Decision (fresh_event t e).
Proof. destruct e; cbn; apply _. Defined.

Lemma wf_resolve id o s at_ t : wf t -> wf (resolveApproval id o s at_ t).
Proof. intros W. unfold resolveApproval. case_match; [|done]. apply wf_update; auto with mango. Qed.

Lemma wf_started t : wf t -> let u := appendText kind_thinking [] t in wf (with_open (trailingThinking u) u).
Proof.
  intros W u. assert (wf u) as Wu by by apply wf_append. apply wf_with_open; [|done]. intros id.
  unfold trailingThinking. destruct (last (tr_parts u)) as [[|i []]|] eqn:E; try done. intros [= <-].
  rewrite last_lookup in E. eauto.
Qed.

Lemma wf_applyEvent e at_ t : wf t -> fresh_event t e -> wf (applyEvent e at_ t).1.
Proof.
  intros W Hf. destruct e; cbn [applyEvent fst]; try done.
  - by apply wf_append, wf_with_text.
  - unfold appendReasoning. repeat case_match; try (by apply wf_append). apply wf_update; auto with mango.
  - by apply wf_started, wf_close.
  - by apply wf_close.
  - by apply (wf_push t (activity_part _ _ _ _ _ _ _)); try done; intros ? [= <-].
  - case_match; [|done]. apply wf_update; auto with mango.
  - case_match; [|done]. apply wf_update; auto with mango.
  - by apply (wf_push t (approval_part _ _)); try done; intros ? [= <-].
  - by apply wf_resolve.
  - by apply wf_with_turn.
  - by apply wf_push_plain.
  - by apply wf_interrupted.
  - by apply wf_finalize.
  - by apply wf_finalize, wf_with_turn.
Qed.

Lemma wf_apply e sequence at_ bytes t : wf t -> fresh_event t e -> wf (apply e sequence at_ bytes t).1.
Proof.
  intros W Hf. unfold apply. repeat case_match; try done.
  - cbn [fst]. apply wf_finalize. match goal with H : applyEvent _ _ _ = _ |- _ => apply (f_equal fst) in H; cbn [fst] in H; subst end.
    apply wf_applyEvent; [by apply wf_with_turn|by destruct e].
  - apply wf_applyEvent; [by apply wf_with_turn|by destruct e].
Qed.

Lemma wf_recordSteer id text at_ t : wf t -> map_get id (tr_steers t) = None -> wf (recordSteerAttempt id text at_ t).1.
Proof.
  intros W Hf. unfold recordSteerAttempt.
  match goal with |- context [with_turn ?f (push_part ?p ?u)] => assert (wf (with_turn f (push_part p u))) as Wp end.
  { apply wf_with_turn; [done|]. by apply (wf_push t (steer_part (xt_targetId (tr_turn t)) id text None at_)); try done; intros ? [= <-]. }
  case_match; cbn [fst]; [by apply wf_finalize|done].
Qed.

Lemma wf_resolveSteer id r t : wf t -> wf (resolveSteerRejected id r t).
Proof. intros W. unfold resolveSteerRejected. case_match; [|done]. apply wf_update; auto with mango. Qed.

Lemma wf_new targetId sessionId at_ b e : wf (new_transcript targetId sessionId at_ b e).
Proof.
  split; cbn; try done.
  - exists []. split; [done|]. apply not_elem_of_nil.
  - by intros i p ?%list_elem_of_singleton.
  - intros [|j] [|k] ? ? ?; done.
  - split; [|done]. by intros i p ?%list_elem_of_singleton.
  - split; [|done]. by intros i p ?%list_elem_of_singleton.
  - split; [|done]. by intros i p ?%list_elem_of_singleton.
Qed.

(** *** Events before their end *)

(** [applyEvent] before it ends the turn. *)
Definition applyCore (e : ExternalAgentEvent) (at_ : Z) (t : Transcript) : Transcript :=
  match e with
  | completed_event => t
  | error_event error => recordError error None t
  | _ => (applyEvent e at_ t).1
  end.

Definition ending (e : ExternalAgentEvent) (t : Transcript) : option terminal_reason :=
  match e with
  | completed_event => Some (if tr_vendorInterrupted t then r_interrupted else r_completed)
  | error_event _ => Some r_vendor_error
  | _ => None
  end.

Lemma applyEvent_core e at_ t : tr_terminated t = false ->
  (applyEvent e at_ t).1 = match ending e t with Some r => finalize r at_ (applyCore e at_ t) | None => applyCore e at_ t end.
Proof. by destruct e. Qed.

Lemma wf_applyCore e at_ t : wf t -> fresh_event t e -> wf (applyCore e at_ t).
Proof. intros W H. pose proof (wf_applyEvent e at_ t W H). destruct e; try done. by apply wf_with_turn. Qed.

Lemma terminated_append k x t : tr_terminated (appendText k x t) = tr_terminated t.
Proof. unfold appendText. repeat case_match; done. Qed.

Lemma terminated_close t : tr_terminated (closeThinking t).1 = tr_terminated t.
Proof. unfold closeThinking. repeat case_match; done. Qed.

Lemma core_running e at_ t : tr_terminated t = false -> tr_terminated (applyCore e at_ t) = false.
Proof.
  intros H. destruct e; cbn; try done.
  - by rewrite terminated_append.
  - unfold appendReasoning. destruct (tr_openThinking t) as [o|]; [destruct (trailing_is t o)|]; rewrite ?terminated_append; exact H.
  - by rewrite terminated_append, terminated_close.
  - by rewrite terminated_close.
  - by case_match.
  - by case_match.
  - unfold resolveApproval. by case_match.
Qed.
