(* ===== verification/TranscriptRuns.v ===== *)
(** * The durable record over its whole life

    Every operation the controller performs on a transcript, in any order: the record of a turn
    stays within its budget, and once the turn has ended nothing in it is still running and its
    reason never changes. *)

From S2P Require Import Prelude Utf8 Json MessageParts Transcript StreamReducer TranscriptFacts.

(** ** Operations *)

Inductive record_op : Type :=
| t_event (e : ExternalAgentEvent) (sequence at_ bytes : Z)
| t_steer (clientMessageId text : jstring) (at_ : Z)
| t_reject (clientMessageId reasonCode : jstring)
| t_decide (requestId : jstring) (optionId : option jstring) (source : decision_source) (at_ : Z)
| t_error (error : agent_error) (refusal : option OpenRefusalPresentation)
| t_bind (nativeTurnId : jstring)
| t_rebind (sessionId : jstring)
| t_reset (reason : jstring)
| t_finalize (reason : terminal_reason) (at_ : Z).

(** [steer] refuses an attempt on a transcript that has ended, and one under an id it has seen. *)
Definition record_step (t : Transcript) (o : record_op) : Transcript :=
  match o with
  | t_event e sequence at_ bytes => (apply e sequence at_ bytes t).1
  | t_steer id text at_ =>
      if tr_terminated t then t
      else match map_get id (tr_steers t) with Some _ => t | None => (recordSteerAttempt id text at_ t).1 end
  | t_reject id reason => resolveSteerRejected id reason t
  | t_decide id o source at_ => resolveApproval id o source at_ t
  | t_error error refusal => recordError error refusal t
  | t_bind id => bindNativeTurn id t
  | t_rebind id => rebindSession id t
  | t_reset reason => markConversationReset reason t
  | t_finalize reason at_ => finalize reason at_ t
  end.

Definition record_run (t : Transcript) (os : list record_op) : Transcript := fold_left record_step os t.

(** ** Budget *)

Definition charged (t : Transcript) : Z * Z := (xt_eventCount (tr_turn t), xt_persistedBytes (tr_turn t)).

(** Below its budget while it runs; at most one charge above it afterwards, and one part for each charge. *)
Record within (mE mB : Z) (t : Transcript) (largest : Z) : Prop := {
  w_limits : tr_maxEvents t = mE /\ tr_maxBytes t = mB;
  w_events : 0 <= xt_eventCount (tr_turn t) <= tr_maxEvents t + 1;
  w_bytes : 0 <= xt_persistedBytes (tr_turn t) <= tr_maxBytes t + largest;
  w_running : tr_terminated t = false -> xt_eventCount (tr_turn t) <= tr_maxEvents t /\ xt_persistedBytes (tr_turn t) <= tr_maxBytes t;
  w_parts : zlen (tr_parts t) <= xt_eventCount (tr_turn t) + 1
}.

(** Two transcripts with the same charges and limits. *)
Definition same_charge (t t' : Transcript) : Prop :=
  charged t' = charged t /\ tr_maxEvents t' = tr_maxEvents t /\ tr_maxBytes t' = tr_maxBytes t.

Lemma same_charge_trans t t' t'' : same_charge t t' -> same_charge t' t'' -> same_charge t t''.
Proof. unfold same_charge. intuition congruence. Qed.

Lemma length_update id f l : zlen (update_object id f l) = zlen l.
Proof. unfold zlen, update_object. by rewrite length_map. Qed.

Lemma append_frame k x t : same_charge t (appendText k x t) /\ zlen (tr_parts (appendText k x t)) <= zlen (tr_parts t) + 1.
Proof.
  assert (zlen (tr_parts (push_part (fresh_run k x) t)) <= zlen (tr_parts t) + 1) as Hp by (cbn [tr_parts push_part]; zlia).
  unfold appendText. destruct (last (tr_parts t)) as [[|id p]|]; try done. destruct (is_kind k p); [|done].
  split; [done|]. cbn [tr_parts with_parts]. rewrite length_update. lia.
Qed.

Lemma delete_length {A} (l : list A) (k : nat) : zlen (delete k l) <= zlen l.
Proof. unfold zlen. apply Nat2Z.inj_le, sublist_length, sublist_delete. Qed.

Lemma close_frame t : same_charge t (closeThinking t).1 /\ zlen (tr_parts (closeThinking t).1) <= zlen (tr_parts t).
Proof.
  unfold closeThinking. repeat case_match; (split; [done|]); cbn [fst tr_parts with_parts with_open]; try apply delete_length; lia.
Qed.

Lemma settle_length st ids : forall l, zlen (fold_left (fun ps id => update_object id (settle_activity st) ps) ids l) = zlen l.
Proof. induction ids as [|id ids IH]; intros l; cbn; [done|]. by rewrite IH, length_update. Qed.

Lemma finalize_frame r at_ t : same_charge t (finalize r at_ t) /\ zlen (tr_parts (finalize r at_ t)) <= zlen (tr_parts t).
Proof.
  unfold finalize. destruct (tr_terminated t); [split; [done|lia]|]. set (v := with_flags _ _ t).
  destruct (close_frame v) as [C1 C2]. destruct (closeThinking v) as [w p]. cbn [fst] in *.
  assert (forall id, same_charge w (markIncomplete id w) /\ zlen (tr_parts (markIncomplete id w)) = zlen (tr_parts w)) as Hm.
  { intros [id|]; [|done]. split; [done|]. cbn. apply length_update. }
  match goal with |- context [markIncomplete ?x w] => set (b := x) end.
  set (m := match r with r_completed => w | _ => markIncomplete b w end).
  assert (same_charge w m /\ zlen (tr_parts m) = zlen (tr_parts w)) as [M1 M2] by (unfold m; destruct r; try apply Hm; done).
  split.
  - eapply same_charge_trans; [exact C1|]. eapply same_charge_trans; [exact M1|]. done.
  - cbn [tr_parts with_turn with_parts]. rewrite settle_length, M2. exact C2.
Qed.

Lemma resolve_frame id o s at_ t : same_charge t (resolveApproval id o s at_ t) /\
  zlen (tr_parts (resolveApproval id o s at_ t)) = zlen (tr_parts t) /\ tr_terminated (resolveApproval id o s at_ t) = tr_terminated t.
Proof. unfold resolveApproval. case_match; [|done]. split_and!; [done| |done]. cbn. apply length_update. Qed.

Lemma applyEvent_frame e at_ t : same_charge t (applyEvent e at_ t).1 /\ zlen (tr_parts (applyEvent e at_ t).1) <= zlen (tr_parts t) + 1.
Proof.
  destruct e; cbn [applyEvent fst]; try (split; [done|]; cbn [tr_parts push_part with_maps with_turn with_flags]; zlia).
  - apply (append_frame kind_text text (with_text (tr_text t ++ text) t)).
  - unfold appendReasoning. destruct (tr_openThinking t) as [o|]; [destruct (trailing_is t o)|]; try apply append_frame.
    split; [done|]. cbn. rewrite length_update. lia.
  - destruct (close_frame t) as [C1 C2]. destruct (append_frame kind_thinking [] (closeThinking t).1) as [A1 A2].
    split; [|cbn [tr_parts with_open]; lia]. eapply same_charge_trans; [exact C1|]. exact A1.
  - destruct (close_frame t) as [? ?]. split; [done|lia].
  - destruct (map_get _ _); cbn [fst]; (split; [done|]); [cbn; rewrite length_update|]; lia.
  - destruct (map_get _ _); cbn [fst]; (split; [done|]); [cbn; rewrite length_update|]; lia.
  - destruct (resolve_frame requestId optionId source at_ t) as (? & -> & _). split; [done|lia].
  - destruct (finalize_frame (if tr_vendorInterrupted t then r_interrupted else r_completed) at_ t) as [? ?]. split; [done|lia].
  - destruct (finalize_frame r_vendor_error at_ (recordError error None t)) as [F1 F2]. split; [exact F1|]. cbn [tr_parts recordError with_turn] in F2. lia.
Qed.

Lemma finalize_terminated r at_ t : tr_terminated (finalize r at_ t) = true.
Proof. destruct (tr_terminated t) eqn:E; [unfold finalize; by rewrite E|]. by rewrite finalize_eq. Qed.

Section Budget.
Variables (mE mB : Z).
Local Notation within := (within mE mB).

Definition op_bytes (o : record_op) : Z :=
  match o with t_event _ _ _ b => b | t_steer _ text _ => zlen (utf8_encode text) | _ => 0 end.

(** An operation that charges nothing. *)
Lemma within_frame t t' m : within t m -> same_charge t t' -> zlen (tr_parts t') <= zlen (tr_parts t) ->
  (tr_terminated t' = false -> tr_terminated t = false) -> within t' m.
Proof.
  intros [Wl We Wb Wr Wp] (H1 & H2 & H3) Hl Ht. unfold charged in H1. injection H1 as E1 E2.
  split; rewrite ?E1, ?E2, ?H2, ?H3; try done; [auto|lia].
Qed.

(** The charge of one operation on a running transcript, whatever else it does. *)
Lemma within_charge t t' q at_ b m v : within t m -> tr_terminated t = false -> 0 <= b <= m ->
  v = with_turn (charge q at_ b) t -> same_charge v t' -> zlen (tr_parts t') <= zlen (tr_parts t) + 1 ->
  (tr_terminated t' = false -> budgetExceeded v = false) -> within t' m.
Proof.
  intros [Wl We Wb Wr Wp] Ht Hb -> (H1 & H2 & H3) Hl Hx. unfold charged in H1. cbn in H1, H2, H3. injection H1 as E1 E2.
  destruct (Wr Ht) as [? ?]. split; rewrite ?E1, ?E2, ?H2, ?H3; try done; try lia.
  intros Hf. specialize (Hx Hf). unfold budgetExceeded in Hx. cbn in Hx. apply orb_false_iff in Hx as [? ?]. bool_to_prop. lia.
Qed.

Lemma within_apply t e q at_ b m : within t m -> 0 <= b <= m -> within (apply e q at_ b t).1 m.
Proof.
  intros W Hb. unfold apply. destruct (tr_terminated t) eqn:Et; [done|]. destruct (is_observational e); [done|].
  destruct (is_notice_event e && _); [done|]. set (v := with_turn (charge (Some q) at_ b) t).
  destruct (applyEvent_frame e at_ v) as [A1 A2]. destruct (budgetExceeded v) eqn:Eb.
  - destruct (applyEvent e at_ v) as [w ap]. cbn [fst] in *. destruct (finalize_frame r_limit_exceeded at_ w) as [F1 F2].
    eapply (within_charge t _ (Some q) at_ b m v); [done|done|done|done|by eapply same_charge_trans| |by rewrite finalize_terminated].
    change (tr_parts v) with (tr_parts t) in A2. lia.
  - by apply (within_charge t _ (Some q) at_ b m v).
Qed.

Lemma within_steer t id text at_ m : within t m -> tr_terminated t = false -> zlen (utf8_encode text) <= m ->
  within (recordSteerAttempt id text at_ t).1 m.
Proof.
  intros W Ht Hb. unfold recordSteerAttempt. pose proof (zlen_nonneg (utf8_encode text)).
  match goal with |- context [with_turn ?f (push_part ?p ?x)] => set (v := with_turn f (push_part p x)) end.
  assert (same_charge (with_turn (charge None at_ (zlen (utf8_encode text))) t) v) as Hv by done.
  assert (zlen (tr_parts v) = zlen (tr_parts t) + 1) as Hl by (unfold v; cbn [tr_parts with_turn push_part with_maps]; zlia).
  destruct (budgetExceeded v) eqn:Eb; cbn [fst].
  - destruct (finalize_frame r_limit_exceeded at_ v) as [F1 F2].
    eapply (within_charge t _ None at_ _ m); [done|done| |done|by eapply same_charge_trans|lia|by rewrite finalize_terminated]. lia.
  - eapply (within_charge t _ None at_ _ m); [done|done| |done|done|lia|done]. lia.
Qed.

Lemma within_step t o m : within t m -> 0 <= op_bytes o <= m -> within (record_step t o) m.
Proof.
  intros W Hb. destruct o; cbn [record_step op_bytes] in *.
  - by apply within_apply.
  - destruct (tr_terminated t) eqn:E; [done|]. case_match; [done|]. apply within_steer; [done|done|lia].
  - unfold resolveSteerRejected. case_match; [|done]. eapply within_frame; [exact W|done| |done]. cbn. rewrite length_update. lia.
  - destruct (resolve_frame requestId optionId source at_ t) as (? & ? & Ht). eapply within_frame; [exact W|done|lia|by rewrite Ht].
  - eapply within_frame; [exact W| |cbn; lia|done]. unfold recordError, same_charge, charged. cbn. by case_match.
  - by eapply within_frame.
  - by eapply within_frame.
  - by eapply within_frame.
  - destruct (finalize_frame reason at_ t). eapply within_frame; [exact W|done|lia|]. by rewrite finalize_terminated.
Qed.

Lemma within_run m os : Forall (fun o => 0 <= op_bytes o <= m) os -> forall t, within t m -> within (record_run t os) m.
Proof. induction 1 as [|o os Ho _ IH]; intros t W; [done|]. cbn. by apply IH, within_step. Qed.
End Budget.



(** ** The end *)

Definition quiet (p : MessagePart) : Prop := match p with PExternalActivity a => xa_status a <> act_running | _ => True end.

(** Every event of a run has new keys. *)
Fixpoint fresh_ops (t : Transcript) (os : list record_op) : bool :=
  match os with
  | [] => true
  | o :: rest => match o with t_event e _ _ _ => bool_decide (fresh_event t e) | _ => true end && fresh_ops (record_step t o) rest
  end.

Lemma settle_quiet st p : st <> act_running -> quiet (settle_activity st p).
Proof. intros Hst. destruct p as [| | | | | | | | | | |a| | | | | | |]; try done. cbn. destruct (xa_status a) eqn:E; cbn; congruence. Qed.

Lemma quiet_turn ps f : Forall quiet ps -> Forall quiet (updateExternalTurn ps f).
Proof. intros H. unfold updateExternalTurn. apply Forall_fmap. eapply Forall_impl; [exact H|]. by intros []. Qed.

Lemma finalize_quiet r at_ t : wf t -> tr_terminated t = false -> Forall quiet (parts (finalize r at_ t)).
Proof.
  intros W Ht. destruct (open_position t W) as [Ho|(id & k & x & b & i & Ho & Hk)].
  - rewrite (parts_finalize r at_ t None); [|done|done|unfold open_index; by rewrite Ho].
    unfold finalized_parts. destruct (closeThinkingAt _ _). apply quiet_turn, Forall_fmap, Forall_true.
    intros p. apply settle_quiet, terminal_status_settles.
  - rewrite (parts_finalize r at_ t (Some k)); [|done|done|unfold open_index; rewrite Ho; eauto].
    unfold finalized_parts. destruct (closeThinkingAt _ _). apply quiet_turn, Forall_fmap, Forall_true.
    intros p. apply settle_quiet, terminal_status_settles.
Qed.

Lemma update_quiet t id f : (forall p, quiet p -> quiet (f p)) -> Forall quiet (parts t) -> Forall quiet (parts (with_parts (update_object id f) t)).
Proof.
  intros Hf H. unfold parts, update_object in *. cbn [tr_parts with_parts]. apply Forall_fmap, Forall_fmap.
  apply (proj1 (Forall_fmap _ _ _)) in H. eapply Forall_impl; [exact H|]. intros [|i p]; [done|]. cbn. destruct (id =? i)%nat; [apply Hf|done].
Qed.

(** Well formed, with nothing running once it ended. *)
Definition settled_record (t : Transcript) : Prop := wf t /\ (tr_terminated t = true -> Forall quiet (parts t)).

(** An operation on a record that has ended changes neither its end nor any activity. *)
Lemma ended_step t o : settled_record t -> tr_terminated t = true ->
  settled_record (record_step t o) /\ tr_terminated (record_step t o) = true /\ xt_terminal (tr_turn (record_step t o)) = xt_terminal (tr_turn t).
Proof.
  intros [W Hq] Ht. specialize (Hq Ht). assert (forall f, (forall p, xt_terminal (f p) = xt_terminal p) ->
    settled_record (with_turn f t) /\ tr_terminated (with_turn f t) = true /\ xt_terminal (tr_turn (with_turn f t)) = xt_terminal (tr_turn t)) as Hturn.
  { intros f Hf. split; [split; [by apply wf_with_turn|intros _; rewrite parts_with_turn by done; by apply quiet_turn]|]. split; [done|apply Hf]. }
  destruct o; cbn [record_step].
  - unfold apply. by rewrite Ht.
  - by rewrite Ht.
  - split; [split; [by apply wf_resolveSteer|intros _]|unfold resolveSteerRejected; by case_match].
    unfold resolveSteerRejected. case_match; [|done]. apply update_quiet; [|done]. intros [] ?; cbn; try done. by case_match.
  - split; [split; [by apply wf_resolve|intros _]|unfold resolveApproval; by case_match].
    unfold resolveApproval. case_match; [|done]. apply update_quiet; [|done]. intros [] ?; cbn; try done. by case_match.
  - apply Hturn. intros p. by case_match.
  - by apply Hturn.
  - by apply Hturn.
  - by apply Hturn.
  - unfold finalize. by rewrite Ht.
Qed.

Lemma ended_run os : forall t, settled_record t -> tr_terminated t = true ->
  settled_record (record_run t os) /\ xt_terminal (tr_turn (record_run t os)) = xt_terminal (tr_turn t).
Proof.
  induction os as [|o os IH]; intros t Hs Ht; [done|]. cbn. destruct (ended_step t o Hs Ht) as (S1 & S2 & S3).
  destruct (IH _ S1 S2) as [? E]. split; [done|]. unfold record_run in *. congruence.
Qed.

Lemma apply_settled t e q at_ b : wf t -> tr_terminated t = false -> fresh_event t e -> settled_record (apply e q at_ b t).1.
Proof.
  intros W Ht Hf. split; [by apply wf_apply|]. unfold apply. rewrite Ht. destruct (is_observational e); [cbn; congruence|].
  destruct (is_notice_event e && _); [cbn; congruence|]. set (v := with_turn _ t).
  assert (wf v) as Wv by by apply wf_with_turn. assert (fresh_event v e) as Fv by by destruct e.
  pose proof (wf_applyEvent e at_ v Wv Fv) as We.
  assert (tr_terminated (applyEvent e at_ v).1 = true -> Forall quiet (parts (applyEvent e at_ v).1)) as He.
  { assert (tr_terminated v = false) as Tv by done. rewrite (applyEvent_core e at_ v Tv).
    pose proof (wf_applyCore e at_ v Wv Fv) as Wc. pose proof (core_running e at_ v Tv) as Tc.
    destruct (ending e v); [intros _; by apply finalize_quiet|congruence]. }
  destruct (budgetExceeded v); [|done]. destruct (applyEvent e at_ v) as [w ap]. cbn [fst] in *. intros _.
  destruct (tr_terminated w) eqn:Ew; [|by apply finalize_quiet]. unfold finalize. rewrite Ew. auto.
Qed.

Lemma settled_step t o : settled_record t -> match o with t_event e _ _ _ => fresh_event t e | _ => True end -> settled_record (record_step t o).
Proof.
  intros Hs Hf. destruct (tr_terminated t) eqn:Ht; [by apply (ended_step t o Hs Ht)|]. destruct Hs as [W _].
  assert (forall f, (forall p, xt_terminal (f p) = xt_terminal p) -> settled_record (with_turn f t)) as Hturn.
  { intros f Hx. split; [by apply wf_with_turn|cbn; congruence]. }
  destruct o; cbn [record_step].
  - by apply apply_settled.
  - rewrite Ht. destruct (map_get _ _) eqn:E; [split; [done|congruence]|].
    split; [by apply wf_recordSteer|]. unfold recordSteerAttempt.
    match goal with |- context [with_turn ?f (push_part ?p ?x)] => assert (wf (with_turn f (push_part p x))) as Wp end.
    { apply wf_with_turn; [done|]. by apply (wf_push t (steer_part (xt_targetId (tr_turn t)) clientMessageId text None at_)); try done; intros ? [= <-]. }
    destruct (budgetExceeded _); cbn [fst]; [intros _; by apply finalize_quiet|cbn; congruence].
  - split; [by apply wf_resolveSteer|]. unfold resolveSteerRejected. destruct (map_get _ _); cbn; congruence.
  - split; [by apply wf_resolve|]. unfold resolveApproval. destruct (map_get _ _); cbn; congruence.
  - apply Hturn. intros p. by case_match.
  - by apply Hturn.
  - by apply Hturn.
  - by apply Hturn.
  - split; [by apply wf_finalize|]. intros _. by apply finalize_quiet.
Qed.

Lemma settled_run os : forall t, settled_record t -> fresh_ops t os = true -> settled_record (record_run t os).
Proof.
  induction os as [|o os IH]; intros t Hs Hf; [done|]. cbn in Hf |- *. apply andb_true_iff in Hf as [Ho Hos]. apply IH; [|done].
  apply settled_step; [done|]. destruct o; try done. by apply bool_decide_eq_true in Ho.
Qed.

(** C14: however a turn ended, a budget, a cancellation or the vendor, its record is closed for good: it carries a terminal
    reason, no activity in it is still running, and no later operation, of the vendor, the user or the hub, changes the
    reason or sets an activity running again. The keys of the vendor's activities and approvals are assumed new. *)
Theorem ended_record_settled tgt sid at_ maxBytes maxEvents os later :
  let t := record_run (new_transcript tgt sid at_ maxBytes maxEvents) os in
  fresh_ops (new_transcript tgt sid at_ maxBytes maxEvents) os = true -> tr_terminated t = true ->
  exists reason, xt_terminal (tr_turn t) = Some reason /\
    xt_terminal (tr_turn (record_run t later)) = Some reason /\
    Forall quiet (parts t) /\ Forall quiet (parts (record_run t later)).
Proof.
  intros t Hf Ht. assert (settled_record t) as Hs by (apply settled_run; [split; [apply wf_new|done]|done]).
  destruct (ended_run later t Hs Ht) as [[Wl Hl] El]. destruct Hs as [W Hq].
  pose proof (wf_terminated t W) as Hx. rewrite Ht in Hx. destruct (xt_terminal (tr_turn t)) as [r|] eqn:Er; [|done].
  exists r. split_and!; [done|done|by apply Hq|]. apply Hl. rewrite (wf_terminated _ Wl). by rewrite El.
Qed.

Lemma ended_record_settled_witness :
  let os := [t_event (activity_started (js "c1") (js "sh") (js "command") (js "ls") None false) 1 1 5; t_finalize r_cancelled_by_user 2] in
  let t := record_run (new_transcript (js "codex") (js "s1") 0 None None) os in
  exists reason, xt_terminal (tr_turn t) = Some reason /\
    xt_terminal (tr_turn (record_run t [t_finalize r_completed 3])) = Some reason /\
    Forall quiet (parts t) /\ Forall quiet (parts (record_run t [t_finalize r_completed 3])).
Proof.
  exact (ended_record_settled (js "codex") (js "s1") 0 None None
    [t_event (activity_started (js "c1") (js "sh") (js "command") (js "ls") None false) 1 1 5; t_finalize r_cancelled_by_user 2]
    [t_finalize r_completed 3] ltac:(vm_compute; reflexivity) ltac:(vm_compute; reflexivity)).
Defined.
