(* ===== verification/LiveReload.v ===== *)
(** * The live view and the durable record agree

    The hub writes an external turn twice: as a stream of chunks that the client reduces, and as
    the record a reload reads. This file proves that the two are the same message: the record
    refines the live view. Parts are compared up to what only the server keeps (times, the
    vendor's turn id, the counters of the budget) and up to the outcome of the approvals the hub
    decided by itself, which it tells the client in the answer to a request and not on the stream. *)

From S2P Require Import Prelude Utf8 Json MessageParts Transcript StreamReducer Sequencer TurnController LiveParts TranscriptFacts.

(** ** Parts up to server-owned bookkeeping *)

Definition turn_view (t : ExternalTurnPart) : ExternalTurnPart :=
  {| xt_targetId := xt_targetId t; xt_sessionId := xt_sessionId t; xt_nativeTurnId := None; xt_terminal := xt_terminal t;
     xt_startedAt := 0; xt_updatedAt := 0; xt_lastSequence := 0; xt_eventCount := 0; xt_persistedBytes := 0;
     xt_usage := xt_usage t; xt_error := xt_error t; xt_remedy := xt_remedy t; xt_unavailableReason := xt_unavailableReason t;
     xt_requiredVersion := xt_requiredVersion t; xt_conversationReset := xt_conversationReset t |}.

Definition approval_view (A : list jstring) (a : ExternalApprovalPart) : ExternalApprovalPart :=
  let hub := bool_decide (xp_requestId a ∈ A) in
  {| xp_targetId := xp_targetId a; xp_requestId := xp_requestId a; xp_kind := xp_kind a; xp_title := xp_title a;
     xp_detail := xp_detail a; xp_options := xp_options a; xp_expiresAtMs := xp_expiresAtMs a;
     xp_decision := if hub then None else xp_decision a; xp_decisionSource := if hub then None else xp_decisionSource a;
     xp_resolvedAt := None; xp_truncated := xp_truncated a |}.

Definition steer_view (x : ExternalSteerPart) : ExternalSteerPart :=
  {| xs_targetId := xs_targetId x; xs_clientMessageId := xs_clientMessageId x; xs_text := xs_text x;
     xs_rejected := xs_rejected x; xs_createdAt := 0 |}.

Definition turn_same (a b : ExternalTurnPart) : Prop := turn_view a = turn_view b.
Definition approval_same (A : list jstring) (a b : ExternalApprovalPart) : Prop := approval_view A a = approval_view A b.
Definition steer_same (a b : ExternalSteerPart) : Prop := steer_view a = steer_view b.

(** The two parts show the same, [A] being the approvals the hub decided. *)
Definition same (A : list jstring) : MessagePart -> MessagePart -> Prop := related turn_same (approval_same A) steer_same.

Global Instance same_equiv A : Equivalence (same A).
Proof.
  split.
  - intros []; done.
  - intros p q H. destruct p, q; cbn in *; try done; by symmetry.
  - intros p q r Hp Hq. destruct p, q; cbn in Hp; try done; destruct r; cbn in Hq |- *; try done; congruence.
Qed.

Ltac view_cases :=
  match goal with
  | H : turn_same ?a ?b |- _ => destruct a, b; unfold turn_same, turn_view in H; cbn in H; injection H; clear H; intros; subst; cbn
  | H : approval_same _ ?a ?b |- _ => destruct a, b; unfold approval_same, approval_view in H; cbn in H; injection H; clear H; intros; subst; cbn
  | H : steer_same ?a ?b |- _ => destruct a, b; unfold steer_same, steer_view in H; cbn in H; injection H; clear H; intros; subst; cbn
  end.

Lemma same_resolve A i o s a b : approval_same A a b ->
  same A (resolve_live i o s (PExternalApproval a)) (resolve_live i o s (PExternalApproval b)).
Proof.
  intros H. view_cases. unfold approval_same, approval_view. repeat case_decide; cbn; unfold approval_same, approval_view; cbn; repeat case_bool_decide; simplify_eq; try done; naive_solver.
Qed.

(** The live view only reads what both sides share. *)
Lemma reduce_same A s s' c n : is_turn_chunk c = true ->
  related_states turn_same (approval_same A) steer_same s s' ->
  related_states turn_same (approval_same A) steer_same (reduceTextGenerationStreamChunk s c n) (reduceTextGenerationStreamChunk s' c n).
Proof.
  intros Hc. apply reduce_related; try done.
  - intros a b H. by view_cases.
  - intros a b H. by view_cases.
  - intros u a b H. by view_cases.
  - intros e m r v a b H. by view_cases.
  - intros r a b H. view_cases. by destruct xt_terminal0.
  - intros a b H. by view_cases.
  - apply same_resolve.
  - intros a b H. by view_cases.
Qed.

(** ** Simulation *)

Definition sim (A : list jstring) (s : StreamState) (t : Transcript) : Prop :=
  ss_text s = tr_text t /\ Forall2 (same A) (ss_parts s) (parts t) /\ open_index t (ss_openThinking s).

(** A bookkeeping update of the turn. *)
Lemma sim_with_turn A s t f : wf t -> (forall a, turn_same (f a) a) -> sim A s t -> sim A s (with_turn f t).
Proof.
  intros W Hf (? & Hp & ?). split_and!; [done| |done]. rewrite parts_with_turn by done.
  etrans; [exact Hp|]. unfold updateExternalTurn. generalize (parts t). intros ps.
  induction ps as [|p ps IH]; cbn; constructor; [|done]. destruct p; try done. symmetry. apply Hf.
Qed.

(** *** Initial conditions of a step *)

(** No chunk ended the live turn. *)
Definition live_open (s : StreamState) : Prop := existsb is_terminal_turn (ss_parts s) = false.

Lemma parts_open t : wf t -> existsb is_terminal_turn (parts t) = tr_terminated t.
Proof.
  intros W. destruct (wf_head t W) as (rest & Hh & Hn). unfold parts. rewrite Hh. cbn.
  rewrite (wf_terminated t W). destruct (xt_terminal (tr_turn t)); [done|]. cbn.
  assert (forall s, s ∈ rest -> s ∈ tr_parts t) as Hin by (rewrite Hh; by right). clear Hh.
  induction rest as [|[|i p] rest IH]; cbn; [done|destruct Hn; left|].
  rewrite not_elem_of_cons in Hn. rewrite IH; [|tauto|intros; apply Hin; by right].
  assert (item i p ∈ tr_parts t) as (_ & Hp & _)%(wf_items t W) by (apply Hin; left). by destruct p.
Qed.

Lemma target_parts t : wf t -> externalTargetId (parts t) = xt_targetId (tr_turn t).
Proof. intros W. destruct (wf_head t W) as (rest & Hh & _). unfold parts, externalTargetId. by rewrite Hh. Qed.

Lemma sim_open_live A s t : wf t -> sim A s t -> existsb is_terminal_turn (ss_parts s) = tr_terminated t.
Proof.
  intros W (_ & Hp & _). rewrite <-parts_open by done.
  eapply related_existsb; [|exact Hp]. apply related_terminal. intros a b H. by view_cases.
Qed.

(** The state whose parts are those of the record. *)
Definition mirror (t : Transcript) (s : StreamState) : StreamState := with_content (tr_text t) (parts t) (ss_openThinking s) s.

Lemma sim_mirror A s t : sim A s t -> related_states turn_same (approval_same A) steer_same s (mirror t s).
Proof. intros (? & ? & ?). by split_and!. Qed.

(** It is enough to step the mirror. *)
Lemma sim_step A s t t' c n : is_turn_chunk c = true -> sim A s t ->
  sim A (reduceTextGenerationStreamChunk (mirror t s) c n) t' -> sim A (reduceTextGenerationStreamChunk s c n) t'.
Proof.
  intros Hc H (Hx & Hp & Ho). destruct (reduce_same A s (mirror t s) c n Hc (sim_mirror A s t H)) as (Hx' & Hp' & Ho').
  split_and!; [congruence| |by rewrite Ho']. etrans; [exact Hp'|exact Hp].
Qed.

Lemma same_refl_list A ps : Forall2 (same A) ps ps.
Proof. reflexivity. Qed.

(** The position of the open phase survives a push and a gentle update. *)
Lemma open_push t u p o : tr_parts u = tr_parts t ++ [p] -> tr_openThinking u = tr_openThinking t -> open_index t o -> open_index u o.
Proof.
  unfold open_index. intros -> ->. destruct (tr_openThinking t), o; try done. intros (x & r & i & H).
  exists x, r, i. by apply lookup_app_l_Some.
Qed.

Lemma open_update t id f o : gentle f -> open_index t o -> open_index (with_parts (update_object id f) t) o.
Proof.
  intros G. unfold open_index. cbn [tr_openThinking with_parts tr_parts]. destruct (tr_openThinking t) as [k|], o as [j|]; try done.
  intros (x & r & i & H). rewrite lookup_update, H. cbn. destruct (id =? k)%nat; [|eauto].
  destruct (g_thinking f G x r i) as (? & ? & ? & ->). eauto.
Qed.

Lemma open_append_index k x t o : open_index t o -> open_index (appendText k x t) o.
Proof.
  intros H. unfold appendText.
  assert (open_index (push_part (fresh_run k x) t) o) by by apply (open_push t _ (item (tr_fresh t) (fresh_run k x))).
  repeat case_match; try done. apply open_update; auto with mango.
Qed.

(** *** One event *)

(** What the client makes of one event. *)
Definition live_event (fp : option jstring) (tgt n : jstring) (e : ExternalAgentEvent) (s : StreamState) : StreamState :=
  match event_chunk fp tgt e with Some c => reduceTextGenerationStreamChunk s c n | None => s end.

Definition notice_fits (e : ExternalAgentEvent) (t : Transcript) : Prop :=
  is_notice_event e = true -> canAddExternalNotice (parts t) = true.

(** A chunk whose reducer leaves the text and the open phase alone. *)
Lemma sim_parts A t t' o u ps : tr_text t' = tr_text t -> open_index t' o -> ss_text u = tr_text t -> ss_openThinking u = o ->
  Forall2 (same A) ps (parts t') -> sim A (update_parts ps u) t'.
Proof. intros Hx Ho Hu Hi Hp. split_and!; cbn; [congruence|done|by rewrite Hi]. Qed.

Lemma sim_reasoning A t u x : wf t -> ss_text u = tr_text t -> ss_parts u = parts t -> open_index t (ss_openThinking u) ->
  sim A (reduceExternalReasoning u x) (appendReasoning x t).
Proof.
  intros W Hx Hp Ho. unfold reduceExternalReasoning, appendReasoning. rewrite Hp.
  assert (sim A (update_parts (appendTrailingText (parts t) kind_thinking x) u) (appendText kind_thinking x t)) as Helse.
  { apply (sim_parts A t _ (ss_openThinking u)); try done.
    - unfold appendText. repeat case_match; done.
    - by apply open_append_index.
    - by rewrite parts_append. }
  apply open_index_cases in Ho as Hc. destruct Hc as [[-> ->]|(id & k & y & r & i & E1 & E2 & Hk)]; [done|].
  rewrite E1, E2, (parts_lookup _ _ _ Hk). cbn [deref]. rewrite (trailing_is_at _ _ _ _ W Hk).
  case_decide as Hd; [rewrite bool_decide_eq_true_2 by done|by rewrite bool_decide_eq_false_2].
  apply (sim_parts A t _ (ss_openThinking u)); try done; [apply open_update; auto with mango|].
  rewrite (parts_update_at _ _ _ _ _ W Hk), (alter_split _ _ _ _ (parts_lookup _ _ _ Hk)). done.
Qed.

Lemma sim_started A t u : wf t -> ss_text u = tr_text t -> ss_parts u = parts t -> open_index t (ss_openThinking u) ->
  sim A (reduceExternalReasoningStarted u) (applyCore reasoning_started 0 t).
Proof.
  intros W Hx Hp Ho. unfold reduceExternalReasoningStarted. rewrite Hp, <-(parts_close t _ W Ho).
  destruct (wf_close t W) as [Wc _]. assert (tr_text (closeThinking t).1 = tr_text t) as Ht by (unfold closeThinking; repeat case_match; done).
  cbn [applyCore applyEvent fst]. destruct (closeThinking t) as [t' p]. cbn [fst] in *.
  pose proof (parts_append kind_thinking [] t' Wc) as Ha. pose proof (wf_append kind_thinking [] t' Wc) as Wa.
  set (v := appendText kind_thinking [] t') in *. rewrite <-Ha.
  assert (tr_text v = tr_text t') as Hv by (unfold v, appendText; repeat case_match; done).
  assert (exists id y r i, last (tr_parts v) = Some (item id (PThinking y r i))) as (id & y & r & i & El).
  { assert (exists y r i, last (parts v) = Some (PThinking y r i)) as (y & r & i & Hl).
    { rewrite Ha. unfold appendTrailingText. destruct (last (parts t')) as [q|] eqn:E; [|rewrite last_snoc; eauto].
      destruct (is_kind kind_thinking q) eqn:Ek; rewrite last_snoc; [|eauto]. destruct q; try done. cbn. eauto. }
    unfold parts in Hl. rewrite fmap_last in Hl. destruct (last (tr_parts v)) as [[|id q]|]; try done. injection Hl as ->. eauto. }
  split_and!; [cbn; congruence|done|]. cbn [ss_openThinking withAiMessageUpdate with_content].
  unfold open_index, trailingThinking. cbn [tr_openThinking with_open tr_parts]. rewrite El.
  exists y, r, i. rewrite last_lookup in El. unfold parts. by rewrite length_map.
Qed.

Lemma sim_ended A t u : wf t -> ss_text u = tr_text t -> ss_parts u = parts t -> open_index t (ss_openThinking u) ->
  sim A (reduceExternalReasoningEnded u) (closeThinking t).1.
Proof.
  intros W Hx Hp Ho. unfold reduceExternalReasoningEnded. rewrite Hp, <-(parts_close t _ W Ho).
  destruct (wf_close t W) as [Wc Hc]. split_and!; cbn; [|done|unfold open_index; by rewrite Hc].
  rewrite Hx. unfold closeThinking. repeat case_match; done.
Qed.

(** An update of the activities with a key. *)
Lemma activity_update_parts t callId f : wf t -> (forall p, key_activity p = None -> f p = p) ->
  parts (match map_get callId (tr_activities t) with Some id => with_parts (update_object id f) t | None => t end) =
  updateExternalActivity (parts t) callId f.
Proof.
  intros W Hf. unfold updateExternalActivity. set (g := fun p => match p with PExternalActivity a => _ | _ => _ end).
  assert (forall p, g p = if decide (key_activity p = Some callId) then f p else p) as Hg.
  { intros []; cbn; try done. repeat case_decide; naive_solver. }
  destruct (map_get callId (tr_activities t)) as [id|] eqn:E.
  - by apply (parts_update_key key_activity (tr_activities t) t callId id f g (proj1 (wf_activities t W))).
  - symmetry. apply (parts_keep_key key_activity (tr_activities t) t callId g (proj1 (wf_activities t W))); try done.
    intros p Hp. rewrite Hg. by rewrite decide_False.
Qed.

Lemma Forall2_map_both A f g (ps : list MessagePart) : (forall p, p ∈ ps -> same A (f p) (g p)) -> Forall2 (same A) (map f ps) (map g ps).
Proof. induction ps as [|p ps IH]; intros H; cbn; constructor; [apply H; left|apply IH; intros; apply H; by right]. Qed.

Lemma existsb_false {B} (f : B -> bool) (l : list B) : (forall x, x ∈ l -> f x = false) -> existsb f l = false.
Proof. induction l as [|x l IH]; intros H; cbn; [done|]. rewrite (H x) by left. apply IH. intros; apply H; by right. Qed.

Lemma parts_tidy t p : wf t -> p ∈ parts t -> tidy p.
Proof. intros W ([|i q] & -> & Hin)%list_elem_of_fmap; [done|]. by apply (wf_items t W) in Hin as (_ & _ & ?). Qed.

(** Two updates of the turn part that show the same. *)
Lemma updateTurn_same A t f g : wf t -> (forall a, a = tr_turn t -> turn_same (f a) (g a)) ->
  Forall2 (same A) (updateExternalTurn (parts t) f) (updateExternalTurn (parts t) g).
Proof.
  intros W H. apply Forall2_map_both. intros p ([|i q] & -> & Hin)%list_elem_of_fmap; cbn; [by apply H|].
  apply (wf_items t W) in Hin as (_ & Hq & _). by destruct q.
Qed.

(** A resolution of the approval with a key; the record also keeps when. *)
Lemma approval_resolve_parts A t requestId o src at_ : wf t ->
  Forall2 (same A) (map (resolve_live requestId o src) (parts t)) (parts (resolveApproval requestId o src at_ t)).
Proof.
  intros W. unfold resolveApproval.
  set (g := fun p => if decide (key_approval p = Some requestId) then decide_approval o src (Some at_) p else p).
  assert (parts (match map_get requestId (tr_approvals t) with
                 | Some id => with_parts (update_object id (decide_approval o src (Some at_))) t | None => t end) = map g (parts t)) as ->.
  { destruct (map_get requestId (tr_approvals t)) as [id|] eqn:E.
    - by apply (parts_update_key key_approval (tr_approvals t) t requestId id _ g (proj1 (wf_approvals t W))).
    - symmetry. apply (parts_keep_key key_approval (tr_approvals t) t requestId g (proj1 (wf_approvals t W))); try done.
      intros p Hp. unfold g. by rewrite decide_False. }
  apply Forall2_map_both. intros p Hp%(parts_tidy t p W). unfold g.
  destruct p as [| | | | | | | | | | | |a| | | | | |]; try (cbn [key_approval]; by case_decide). cbn [key_approval].
  destruct (decide (xp_requestId a = requestId)) as [Hi|Hi].
  - rewrite (decide_True (P := Some (xp_requestId a) = Some requestId)) by congruence. cbn in Hp |- *.
    destruct (xp_decisionSource a) eqn:Es; [rewrite decide_False by naive_solver; done|].
    rewrite decide_True by done. rewrite (Hp eq_refl). cbn. unfold approval_same, approval_view. cbn. by destruct o.
  - rewrite (decide_False (P := Some (xp_requestId a) = Some requestId)) by congruence. cbn. rewrite decide_False by naive_solver. done.
Qed.

(** One event, on both sides. *)
Lemma sim_event A s t e at_ fp n : wf t -> tr_terminated t = false -> fresh_event t e -> notice_fits e t -> sim A s t ->
  sim A (live_event fp (xt_targetId (tr_turn t)) n e s) (applyCore e at_ t).
Proof.
  intros W Hr Hf Hn H. unfold live_event.
  destruct (event_chunk fp (xt_targetId (tr_turn t)) e) as [c|] eqn:Ec; [|by destruct e].
  assert (is_turn_chunk c = true) as Hc by (destruct e; cbn in Ec; try discriminate; by injection Ec as <-).
  apply (sim_step A s t _ c n Hc H). pose proof H as (_ & _ & Ho).
  unfold reduceTextGenerationStreamChunk. change (ss_parts (mirror t s)) with (parts t). rewrite (parts_open t W), Hr, andb_false_r.
  set (u := clearChunkUpdates (mirror t s)). assert (ss_text u = tr_text t) as Ux by done.
  assert (ss_parts u = parts t) as Up by done. assert (ss_openThinking u = ss_openThinking s) as Uo by done. clearbody u.
  destruct e; cbn in Ec; try discriminate; injection Ec as <-; cbn [applyCore applyEvent fst].
  - split_and!; [done|by rewrite Up|by rewrite Uo].
  - unfold reduceExternalText. rewrite Ux, Up. pose proof (parts_append kind_text text _ (wf_with_text t (tr_text t ++ text) W)) as Ha.
    split_and!; cbn [ss_text ss_parts ss_openThinking withAiMessageUpdate with_content].
    + unfold appendText. repeat case_match; done.
    + rewrite Ha. done.
    + rewrite Uo. by apply open_append_index.
  - by apply sim_reasoning; rewrite ?Uo.
  - by apply (sim_started A t u); rewrite ?Uo.
  - by apply sim_ended; rewrite ?Uo.
  - unfold reduceExternalActivityStarted. rewrite Up, target_parts by done.
    eapply (sim_parts A t _ (ss_openThinking s)); try done; [by eapply (open_push t)|]. by rewrite parts_push.
  - unfold reduceExternalActivityUpdated. rewrite Up, <-activity_update_parts by (done || by intros []).
    apply (sim_parts A t _ (ss_openThinking s)); try done; case_match; try done. apply open_update; auto with mango.
  - unfold reduceExternalActivityCompleted. rewrite Up, <-activity_update_parts by (done || by intros []).
    apply (sim_parts A t _ (ss_openThinking s)); try done; case_match; try done. apply open_update; auto with mango.
  - unfold reduceExternalApprovalRequest. rewrite Up, target_parts by done.
    assert (existsb (is_approval (ar_requestId request)) (parts t) = false) as ->.
    { apply existsb_false. intros p Hp. pose proof (parts_no_key key_approval _ t _ p (proj1 (wf_approvals t W)) Hf (fun _ => eq_refl) Hp) as Hk.
      destruct p; try done. cbn in *. apply bool_decide_eq_false. congruence. }
    eapply (sim_parts A t _ (ss_openThinking s)); try done; [by eapply (open_push t)|]. by rewrite parts_push.
  - unfold reduceExternalApprovalStatus. rewrite Up. apply (sim_parts A t _ (ss_openThinking s)); try done.
    + unfold resolveApproval. by case_match.
    + unfold resolveApproval. case_match; [|done]. apply open_update; auto with mango.
    + by apply approval_resolve_parts.
  - unfold reduceExternalUsage. rewrite Up. apply (sim_parts A t _ (ss_openThinking s)); try done. by rewrite parts_with_turn.
  - split_and!; cbn; [done|by rewrite Up|by rewrite Uo].
  - split_and!; [done|by rewrite Up|by rewrite Uo].
  - unfold reduceExternalNotice. rewrite Up, Hn by done.
    eapply (sim_parts A t _ (ss_openThinking s)); try done; [by eapply (open_push t)|]. by rewrite parts_push.
  - unfold reduceExternalError. rewrite Up. apply (sim_parts A t _ (ss_openThinking s)); try done.
    unfold recordError. rewrite parts_with_turn by done. apply updateTurn_same; [done|]. intros a ->. cbn. done.
Qed.

(** *** The end of the turn *)

Lemma turn_close_and_mark r t : tr_turn (close_and_mark r t) = tr_turn t.
Proof.
  unfold close_and_mark. assert (tr_turn (closeThinking t).1 = tr_turn t) as H by (unfold closeThinking; repeat case_match; done).
  destruct (closeThinking t) as [t' p]. cbn in H.
  assert (forall id, tr_turn (markIncomplete id t') = tr_turn t') as Hm by by intros []. destruct r; rewrite ?Hm; done.
Qed.

Lemma sim_finalize A s t r at_ : wf t -> tr_terminated t = false -> sim A s t ->
  sim A (reduceExternalTurnCompleted s r) (finalize r at_ t).
Proof.
  intros W Hr H. pose proof H as (_ & _ & Ho). destruct (finalize_terminal r at_ t W Hr) as (_ & _ & Fo & Ft).
  assert (related_states turn_same (approval_same A) steer_same (reduceExternalTurnCompleted s r)
            (reduceExternalTurnCompleted (mirror t s) r)) as (Rx & Rp & Ro).
  { apply related_completed; [|by apply sim_mirror]. intros r' a b Hab. view_cases. by destruct xt_terminal0. }
  assert (forall u, ss_text (reduceExternalTurnCompleted u r) = ss_text u /\ ss_openThinking (reduceExternalTurnCompleted u r) = None) as Hc.
  { intros u. unfold reduceExternalTurnCompleted. by destruct (closeThinkingAt _ _). }
  destruct (Hc s) as [Hx Hn], (Hc (mirror t s)) as [Mx Mn].
  split_and!; [rewrite Hx, Ft; apply H| |unfold open_index; by rewrite Fo, Hn].
  etrans; [exact Rp|]. rewrite (parts_finalize r at_ t _ W Hr Ho). unfold reduceExternalTurnCompleted, finalized_parts.
  change (ss_parts (mirror t s)) with (parts t). change (ss_openThinking (mirror t s)) with (ss_openThinking s).
  destruct (wf_close_and_mark r t W) as [Wm _]. pose proof (parts_close_and_mark r t _ W Ho) as Hm.
  destruct (closeThinkingAt (parts t) (ss_openThinking s)) as [c i]. cbn [ss_parts withAiMessageUpdate with_content].
  rewrite <-Hm, <-(parts_settle _ _ Wm (terminal_status_settles r)).
  apply updateTurn_same; [by apply wf_settle|]. intros a ->. cbn [tr_turn with_parts]. rewrite turn_close_and_mark.
  unfold end_turn. rewrite (wf_terminated t W) in Hr. by destruct (xt_terminal (tr_turn t)).
Qed.

(** The client is at most the announcement of the end behind the record. *)
Definition caught_up (s : StreamState) (t : Transcript) : StreamState :=
  match xt_terminal (tr_turn t) with Some r => reduceExternalTurnCompleted s r | None => s end.

Definition ahead (A : list jstring) (s : StreamState) (t : Transcript) : Prop := live_open s /\ sim A (caught_up s t) t.

Lemma ahead_running A s t : wf t -> tr_terminated t = false -> sim A s t -> ahead A s t.
Proof.
  intros W Hr H. pose proof (sim_open_live A s t W H) as Hl. rewrite Hr in Hl. split; [done|].
  unfold caught_up. rewrite (wf_terminated t W) in Hr. by destruct (xt_terminal (tr_turn t)).
Qed.

Lemma ahead_finalize A s t r at_ : wf t -> tr_terminated t = false -> sim A s t -> ahead A s (finalize r at_ t).
Proof.
  intros W Hr H. pose proof (sim_open_live A s t W H) as Hl. rewrite Hr in Hl. split; [done|].
  unfold caught_up. destruct (finalize_terminal r at_ t W Hr) as (_ & -> & _). by apply sim_finalize.
Qed.

Lemma charge_same q at_ b a : turn_same (charge q at_ b a) a.
Proof. done. Qed.

Lemma notices_update ps f : canAddExternalNotice (updateExternalTurn ps f) = canAddExternalNotice ps.
Proof.
  unfold canAddExternalNotice. assert (List.filter is_notice (updateExternalTurn ps f) = List.filter is_notice ps) as ->; [|done].
  induction ps as [|p ps IH]; [done|]. cbn. destruct p; cbn; try done. by f_equal.
Qed.

(** One applied event: the record after it, and the client after the event's chunk. *)
Lemma apply_ahead A s t e q at_ b fp n : wf t -> tr_terminated t = false -> fresh_event t e -> sim A s t ->
  ahead A (live_event fp (xt_targetId (tr_turn t)) n e s) (apply e q at_ b t).1.
Proof.
  intros W Hr Hf H. unfold apply. rewrite Hr.
  destruct (is_observational e) eqn:Eo.
  { apply ahead_running; [done|done|]. assert (t = applyCore e at_ t) as Hc by by destruct e.
    rewrite Hc at 2. apply sim_event; try done. by destruct e. }
  destruct (is_notice_event e && negb (canAddExternalNotice (parts t))) eqn:En.
  { apply andb_true_iff in En as [En Ec%negb_true_iff]. destruct e; try done. apply ahead_running; [done|done|].
    apply (sim_step A s t); [done|done|]. unfold reduceTextGenerationStreamChunk.
    change (ss_parts (mirror t s)) with (parts t). rewrite (parts_open t W), Hr, andb_false_r.
    unfold reduceExternalNotice. change (ss_parts (clearChunkUpdates (mirror t s))) with (parts t). rewrite Ec.
    destruct H as (? & ? & ?). by split_and!. }
  set (u := with_turn (charge (Some q) at_ b) t). assert (wf u) as Wu by by apply wf_with_turn.
  assert (sim A s u) as Hu by (by apply sim_with_turn; [|apply charge_same|]).
  assert (fresh_event u e) as Fu by by destruct e.
  assert (notice_fits e u) as Nu.
  { intros Hn. rewrite Hn in En. cbn in En. apply negb_false_iff in En. rewrite <-En. unfold u.
    rewrite parts_with_turn by done. apply notices_update. }
  assert (tr_terminated u = false) as Tu by done.
  pose proof (sim_event A s u e at_ fp n Wu Tu Fu Nu Hu) as Hs. change (xt_targetId (tr_turn u)) with (xt_targetId (tr_turn t)) in Hs.
  pose proof (wf_applyCore e at_ u Wu Fu) as Wc. pose proof (core_running e at_ u Tu) as Tc.
  pose proof (applyEvent_core e at_ u Tu) as Hc.
  destruct (budgetExceeded u); [destruct (applyEvent e at_ u) as [t' a]; cbn [fst] in Hc |- *|]; rewrite Hc; destruct (ending e u) as [r|].
  - unfold finalize at 1. destruct (finalize_terminal r at_ _ Wc Tc) as [-> _]. by apply ahead_finalize.
  - by apply ahead_finalize.
  - by apply ahead_finalize.
  - by apply ahead_running.
Qed.

(** *** Steers *)

Lemma live_view_snoc u a n cs c : live_view u a n (cs ++ [c]) = reduceTextGenerationStreamChunk (live_view u a n cs) c n.
Proof. unfold live_view. by rewrite fold_left_app. Qed.

(** A recorded attempt, and the chunk of an attempt that was accepted so far. *)
Lemma steer_ahead A s t id text at_ n : wf t -> tr_terminated t = false -> map_get id (tr_steers t) = None ->
  (recordSteerAttempt id text at_ t).2 = None -> sim A s t ->
  ahead A (reduceTextGenerationStreamChunk s (ch_external_steer id text None) n) (recordSteerAttempt id text at_ t).1.
Proof.
  intros W Hr Hf Hb H. pose proof (wf_recordSteer id text at_ t W Hf) as Wt. unfold recordSteerAttempt in *.
  case_match; cbn [fst snd] in *; [done|]. apply ahead_running; [done|done|].
  match goal with |- sim _ _ (with_turn ?f (push_part ?p ?m)) => set (v := push_part p m) in * end.
  assert (wf v) as Wv by (by apply (wf_push t (steer_part (xt_targetId (tr_turn t)) id text None at_)); try done; intros ? [= <-]).
  apply sim_with_turn; [done|done|].
  apply (sim_step A s t); [done|done|]. unfold reduceTextGenerationStreamChunk. change (ss_parts (mirror t s)) with (parts t).
  rewrite (parts_open t W), Hr, andb_false_r. unfold reduceExternalSteer.
  change (ss_parts (clearChunkUpdates (mirror t s))) with (parts t). rewrite target_parts by done.
  assert (existsb (is_steer id) (parts t) = false) as ->.
  { apply existsb_false. intros p Hp. pose proof (parts_no_key key_steer _ t _ p (proj1 (wf_steers t W)) Hf (fun _ => eq_refl) Hp) as Hk.
    destruct p; try done. cbn in *. apply bool_decide_eq_false. congruence. }
  eapply (sim_parts A t _ (ss_openThinking s)); try done; [eapply (open_push t); try done; apply H|].
  unfold v. rewrite parts_push. apply Forall2_app; [reflexivity|]. by repeat constructor.
Qed.

(** The correction of one attempt. *)
Definition correct (id r : jstring) (p : MessagePart) : MessagePart :=
  if decide (key_steer p = Some id) then reject_steer r p else p.

Definition steer_corrects (id r : jstring) (a b : ExternalSteerPart) : Prop := PExternalSteer b = correct id r (PExternalSteer a).

Lemma correct_steer id r x : exists y, correct id r (PExternalSteer x) = PExternalSteer y /\ xs_clientMessageId y = xs_clientMessageId x.
Proof. unfold correct. case_decide; [|eauto]. cbn. destruct (xs_rejected x); eauto. Qed.

Lemma correct_other id r p : key_steer p = None -> correct id r p = p.
Proof. intros H. unfold correct. by rewrite H. Qed.

Lemma corrected_eq id r p q : related eq eq (steer_corrects id r) p q <-> q = correct id r p.
Proof.
  destruct p as [| | | | | | | | | | | | |x| | | | |].
  all: try (rewrite correct_other by done; destruct q; cbn; split; naive_solver auto).
  destruct (correct_steer id r x) as (y & Ey & _). rewrite Ey. destruct q; cbn; unfold steer_corrects; rewrite ?Ey; split; naive_solver auto.
Qed.

Section Correction.
Variables (A : list jstring) (n id text r : jstring).
Local Notation rel := (related_states eq eq (steer_corrects id r)).

Lemma correct_reduce s c : is_turn_chunk c = true -> is_steer_chunk c = false -> forall s', rel s s' ->
  rel (reduceTextGenerationStreamChunk s c n) (reduceTextGenerationStreamChunk s' c n).
Proof.
  intros Hc Hs s'. apply reduce_related; try done; try (by intros; subst).
  - intros i o src a b ->. apply corrected_eq. symmetry. apply correct_other. cbn. by case_decide.
  - intros a b H. destruct (correct_steer id r a) as (y & Ey & Hy). unfold steer_corrects in H. rewrite Ey in H. by injection H as ->.
Qed.

(** Without the attempt nothing is corrected. *)
Lemma correct_none ps : existsb (is_steer id) ps = false -> Forall2 (related eq eq (steer_corrects id r)) ps ps.
Proof.
  induction ps as [|p ps IH]; [done|]. cbn. intros [Hp Hps]%orb_false_iff. constructor; [|auto]. apply corrected_eq.
  unfold correct. rewrite decide_False; [done|]. intros Hk. destruct p; try done. cbn in Hp, Hk. apply bool_decide_eq_false in Hp. congruence.
Qed.

Lemma correct_first s : existsb (is_steer id) (ss_parts s) = false ->
  rel (reduceTextGenerationStreamChunk s (ch_external_steer id text None) n)
      (reduceTextGenerationStreamChunk s (ch_external_steer id text (Some r)) n).
Proof.
  intros H. assert (rel s s) as Hrel by (split_and!; [done|by apply correct_none|done]).
  unfold reduceTextGenerationStreamChunk. cbn [is_external andb]. destruct (existsb is_terminal_turn (ss_parts s)); [destruct Hrel as (? & ? & ?); by split_and!|]. unfold reduceExternalSteer.
  change (ss_parts (clearChunkUpdates s)) with (ss_parts s). rewrite H. split_and!; [done| |done]. cbn.
  apply Forall2_app; [by apply correct_none|]. constructor; [|done]. apply corrected_eq. unfold correct. by rewrite decide_True.
Qed.

(** Two runs that differ in the outcome of the attempt. *)
Lemma correct_run s ds : existsb (is_steer id) (ss_parts s) = false ->
  Forall (fun c => is_turn_chunk c = true /\ is_steer_chunk c = false) ds ->
  rel (fold_left (fun s c => reduceTextGenerationStreamChunk s c n) (ch_external_steer id text None :: ds) s)
      (fold_left (fun s c => reduceTextGenerationStreamChunk s c n) (ch_external_steer id text (Some r) :: ds) s).
Proof.
  intros H Hds. cbn. generalize (correct_first s H).
  generalize (reduceTextGenerationStreamChunk s (ch_external_steer id text None) n)
    (reduceTextGenerationStreamChunk s (ch_external_steer id text (Some r)) n). clear H.
  induction Hds as [|c ds [Hc Hs] _ IH]; intros x y Hxy; [done|]. cbn. by apply IH, correct_reduce.
Qed.

Lemma parts_resolveSteer t : wf t -> parts (resolveSteerRejected id r t) = map (correct id r) (parts t).
Proof.
  intros W. unfold resolveSteerRejected. destruct (map_get id (tr_steers t)) as [o|] eqn:E.
  - by apply (parts_update_key key_steer (tr_steers t) t id o _ (correct id r) (proj1 (wf_steers t W))).
  - symmetry. apply (parts_keep_key key_steer (tr_steers t) t id _ (proj1 (wf_steers t W))); try done.
    intros p Hp. unfold correct. by rewrite decide_False.
Qed.

Lemma same_correct p q : same A p q -> same A (correct id r p) (correct id r q).
Proof.
  intros H. destruct p as [| | | | | | | | | | | | |x| | | | |], q as [| | | | | | | | | | | | |y| | | | |]; cbn in H; try done;
    rewrite ?correct_other by done; try done.
  unfold correct. cbn. view_cases. case_decide; cbn; [|done]. by destruct xs_rejected0.
Qed.

Lemma related_corrected ps qs : Forall2 (related eq eq (steer_corrects id r)) ps qs -> qs = map (correct id r) ps.
Proof. induction 1 as [|p q ps qs H _ IH]; [done|]. apply corrected_eq in H. cbn. congruence. Qed.

Lemma correct_ahead s s' t : wf t -> rel s s' -> ahead A s t -> ahead A s' (resolveSteerRejected id r t).
Proof.
  intros W Hs [Hl Hsim]. assert (tr_turn (resolveSteerRejected id r t) = tr_turn t) as Ht by (unfold resolveSteerRejected; by case_match).
  assert (tr_text (resolveSteerRejected id r t) = tr_text t) as Hx by (unfold resolveSteerRejected; by case_match).
  assert (rel (caught_up s t) (caught_up s' t)) as (Cx & Cp & Co).
  { unfold caught_up. destruct (xt_terminal (tr_turn t)); [|done]. apply related_completed; [|done]. by intros ? ? ? ->. }
  unfold ahead, caught_up. rewrite Ht. fold (caught_up s' t). split.
  - destruct Hs as (_ & Hp & _). unfold live_open. rewrite <-Hl. symmetry. eapply related_existsb; [|exact Hp].
    apply related_terminal. by intros ? ? ->.
  - destruct Hsim as (Sx & Sp & So). split_and!; [congruence| |].
    + rewrite (related_corrected _ _ Cp), parts_resolveSteer by done. clear -Sp. induction Sp; cbn; constructor; auto using same_correct.
    + rewrite <-Co. unfold resolveSteerRejected. case_match; [|done]. apply open_update; auto with mango.
Qed.
End Correction.
