(* ===== verification/LiveTurn.v ===== *)
(** * A whole turn, live and reloaded

    The invariant that ties the hub's record of an external turn to what its client has reduced
    from the stream, over every operation of [TurnController], and the refinement theorem it
    gives. A run is smooth when the keys of the vendor's activities and approvals are new, steers
    come one at a time and reach their outcome, and none of them exhausts the turn's budget; the
    examples at the end show what happens otherwise. *)

From S2P Require Import Prelude Utf8 Json MessageParts Transcript StreamReducer Sequencer TurnController LiveParts TranscriptFacts LiveReload.

(** ** Smooth runs *)

Definition no_steers (h : HubTurn) : bool := match hb_steers h with [] => true | _ => false end.

Definition smooth (h : HubTurn) (o : hub_op) : bool :=
  match o with
  | o_envelope v_apply (Some e) _ _ _ => bool_decide (fresh_event (hb_transcript h) e)
  | o_reacquire _ _ _ => no_steers h
  | o_steer id text at_ =>
      no_steers h && match (recordSteerAttempt id text at_ (hb_transcript h)).2 with None => true | Some _ => false end
  | o_steer_write_failed _ | o_steer_threw _ => false
  | o_settle _ => no_steers h
  | _ => true
  end.

Fixpoint smooth_run (h : HubTurn) (os : list hub_op) : bool :=
  match os with [] => true | o :: rest => smooth h o && smooth_run (hub_step h o) rest end.

(** ** What events leave alone *)

Definition kept (t t' : Transcript) : Prop :=
  tr_steers t' = tr_steers t /\ xt_targetId (tr_turn t') = xt_targetId (tr_turn t) /\
  xt_conversationReset (tr_turn t') = xt_conversationReset (tr_turn t).

Lemma kept_trans t t' t'' : kept t t' -> kept t' t'' -> kept t t''.
Proof. unfold kept. intuition congruence. Qed.

Lemma kept_append k x t : kept t (appendText k x t).
Proof. unfold appendText. repeat case_match; done. Qed.

Lemma kept_close t : kept t (closeThinking t).1.
Proof. unfold closeThinking. repeat case_match; done. Qed.

Lemma kept_finalize r at_ t : kept t (finalize r at_ t).
Proof.
  unfold finalize. destruct (tr_terminated t); [done|]. set (v := with_flags _ _ t).
  apply (kept_trans t v); [done|]. pose proof (kept_close v) as Hc. destruct (closeThinking v) as [w p]. cbn [fst] in Hc.
  eapply kept_trans; [exact Hc|]. set (b := match tr_openThinking v with Some _ => _ | None => _ end).
  assert (forall id, kept w (markIncomplete id w)) as Hm by by intros []. destruct r; try apply Hm; done.
Qed.

Lemma kept_applyEvent e at_ t : kept t (applyEvent e at_ t).1.
Proof.
  destruct e; cbn [applyEvent fst]; try done.
  - eapply kept_trans; [|apply kept_append]. done.
  - unfold appendReasoning. repeat case_match; first [apply kept_append|done].
  - eapply kept_trans; [apply kept_close|]. eapply kept_trans; [apply (kept_append kind_thinking [])|]. done.
  - apply kept_close.
  - by case_match.
  - by case_match.
  - unfold resolveApproval. by case_match.
  - apply kept_finalize.
  - eapply kept_trans; [|apply kept_finalize]. done.
Qed.

Lemma kept_apply e q at_ b t : kept t (apply e q at_ b t).1.
Proof.
  unfold apply. destruct (tr_terminated t); [done|]. destruct (is_observational e); [done|].
  destruct (is_notice_event e && _); [done|]. set (v := with_turn _ t). pose proof (kept_applyEvent e at_ v) as H.
  apply (kept_trans t v); [done|]. destruct (budgetExceeded v); [|done].
  destruct (applyEvent e at_ v) as [w ap]. eapply kept_trans; [exact H|]. apply kept_finalize.
Qed.

(** The end an application reports is the end the record has. *)
Lemma apply_terminal e q at_ b t : wf t -> tr_terminated t = false -> fresh_event t e ->
  ap_terminal (apply e q at_ b t).2 = xt_terminal (tr_turn (apply e q at_ b t).1) /\
  xt_terminal (tr_turn (apply e q at_ b t).1) <> Some r_hub_restarted.
Proof.
  intros W Hr Hf. assert (xt_terminal (tr_turn t) = None) as Hx.
  { rewrite (wf_terminated t W) in Hr. by destruct (xt_terminal (tr_turn t)). }
  unfold apply. rewrite Hr. destruct (is_observational e); [cbn; by rewrite Hx|]. destruct (is_notice_event e && _); [cbn; by rewrite Hx|].
  set (v := with_turn _ t). assert (wf v) as Wv by by apply wf_with_turn. assert (tr_terminated v = false) as Tv by done.
  assert (fresh_event v e) as Fv by by destruct e.
  pose proof (wf_applyCore e at_ v Wv Fv) as Wc. pose proof (core_running e at_ v Tv) as Tc. pose proof (applyEvent_core e at_ v Tv) as Hc.
  assert (ap_terminal (applyEvent e at_ v).2 = ending e v) as Ha. { destruct e; cbn; try done. all: by destruct (map_get _ _). }
  assert (ending e v <> Some r_hub_restarted) as Hn by (destruct e; cbn; try done; by destruct (tr_vendorInterrupted _)).
  assert (xt_terminal (tr_turn (applyCore e at_ v)) = None) as Hcx.
  { rewrite (wf_terminated _ Wc) in Tc. by destruct (xt_terminal (tr_turn (applyCore e at_ v))). }
  assert (xt_terminal (tr_turn (applyEvent e at_ v).1) = ending e v /\
          tr_terminated (applyEvent e at_ v).1 = match ending e v with Some _ => true | None => false end) as [Hev Hter].
  { rewrite Hc. destruct (ending e v) as [r|]; [|done]. by destruct (finalize_terminal r at_ _ Wc Tc) as (-> & -> & _). }
  pose proof (wf_applyEvent e at_ v Wv Fv) as We.
  destruct (budgetExceeded v); [|split; congruence].
  destruct (applyEvent e at_ v) as [w ap]. cbn [fst snd ap_terminal] in *. split; [done|].
  destruct (tr_terminated w) eqn:Ew.
  - unfold finalize. rewrite Ew. congruence.
  - by destruct (finalize_terminal r_limit_exceeded at_ w We Ew) as (_ & -> & _).
Qed.

(** ** The invariant *)

Section Turn.
Variables (u a n : jstring).
Local Notation live := (live_view u a n).

Definition reported (p : steer_phase) : option jstring := match p with correcting r => Some r | _ => None end.

Definition deferred_chunks (h : HubTurn) : list StreamChunk := omap (event_chunk (hb_fingerprint h) (hb_targetId h)) (hb_deferred h).

(** What the client will be sent once the attempt in flight is reported. *)
Definition in_flight (h : HubTurn) : list StreamChunk :=
  match hb_steers h with
  | (id, (text, phase)) :: _ => ch_external_steer id text (reported phase) :: deferred_chunks h
  | [] => []
  end.

(** At most one attempt is in flight; it did not exhaust the budget and was not reported. *)
Definition steers_ok (h : HubTurn) : Prop :=
  match hb_steers h with
  | [] => hb_deferred h = []
  | [(id, (_, phase))] => (forall r, phase <> writing (Some r)) /\ existsb (is_steer id) (ss_parts (live (hb_stream h))) = false
  | _ => False
  end.

Record inv (h : HubTurn) : Prop := {
  i_wf : wf (hb_transcript h);
  i_target : hb_targetId h = xt_targetId (tr_turn (hb_transcript h));
  i_reset : truthy (xt_conversationReset (tr_turn (hb_transcript h))) = xt_conversationReset (tr_turn (hb_transcript h));
  i_attempts : forall id, map_get id (hb_attempts h) = None -> map_get id (tr_steers (hb_transcript h)) = None;
  i_term : tr_terminated (hb_transcript h) = true -> hb_terminalReason h = xt_terminal (tr_turn (hb_transcript h));
  i_settled : hb_settled h = true -> tr_terminated (hb_transcript h) = true /\ hb_steers h = [];
  i_closed : hb_closed h = true -> hb_settled h = true /\ ss_sealed (live (hb_stream h)) = true;
  i_steers : steers_ok h;
  i_live : if hb_closed h then sim (hb_decided h) (live (hb_stream h)) (hb_transcript h)
           else ahead (hb_decided h) (live (hb_stream h ++ in_flight h)) (hb_transcript h)
}.

Lemma term_none h : inv h -> hb_terminalReason h = None -> tr_terminated (hb_transcript h) = false /\ hb_settled h = false /\ hb_closed h = false.
Proof.
  intros I Hn. assert (tr_terminated (hb_transcript h) = false) as Ht.
  { destruct (tr_terminated (hb_transcript h)) eqn:E; [|done]. pose proof (i_term h I E) as Hx. rewrite (wf_terminated _ (i_wf h I)) in E.
    rewrite <-Hx, Hn in E. done. }
  assert (hb_settled h = false) as Hs by (destruct (hb_settled h) eqn:E; [|done]; apply (i_settled h I) in E as [? _]; congruence).
  split_and!; [done|done|]. destruct (hb_closed h) eqn:E; [|done]. apply (i_closed h I) in E as [? _]. congruence.
Qed.

(** A running turn: the client, once told of the steer in flight, has the record. *)
Lemma running_sim h : inv h -> hb_terminalReason h = None -> sim (hb_decided h) (live (hb_stream h ++ in_flight h)) (hb_transcript h).
Proof.
  intros I Hn. destruct (term_none h I Hn) as (Ht & _ & Hc). pose proof (i_live h I) as Hl. rewrite Hc in Hl. destruct Hl as [_ Hl].
  unfold caught_up in Hl. rewrite (wf_terminated _ (i_wf h I)) in Ht. by destruct (xt_terminal (tr_turn (hb_transcript h))).
Qed.

Lemma event_chunk_turn fp tgt e c : event_chunk fp tgt e = Some c -> is_turn_chunk c = true /\ is_steer_chunk c = false.
Proof. destruct e; cbn; try discriminate; by intros [= <-]. Qed.

Lemma deferred_turn h : Forall (fun c => is_turn_chunk c = true /\ is_steer_chunk c = false) (deferred_chunks h).
Proof. unfold deferred_chunks. induction (hb_deferred h) as [|e es IH]; cbn; [done|]. case_match; [|done]. constructor; [by eapply event_chunk_turn|done]. Qed.

Lemma live_app cs ds : live (cs ++ ds) = fold_left (fun s c => reduceTextGenerationStreamChunk s c n) ds (live cs).
Proof. unfold live_view. by rewrite fold_left_app. Qed.

(** The stream after the events that were held back. *)
Lemma flush_stream h : hb_closed h = false ->
  flushDeferredEvents h =
  upd_deferred [] {| hb_transcript := hb_transcript h; hb_targetId := hb_targetId h; hb_fingerprint := hb_fingerprint h;
     hb_assistantMessageId := hb_assistantMessageId h; hb_review := hb_review h; hb_attempts := hb_attempts h;
     hb_steers := hb_steers h; hb_deferred := hb_deferred h; hb_dispatchPending := hb_dispatchPending h;
     hb_terminalReason := hb_terminalReason h; hb_settled := hb_settled h; hb_stream := hb_stream h ++ deferred_chunks h;
     hb_closed := hb_closed h; hb_decided := hb_decided h |}.
Proof.
  unfold flushDeferredEvents, deferred_chunks. destruct h as [t tg fp am rv at' st df dp tr se cs cl de]. cbn. intros ->.
  unfold upd_deferred. cbn. revert cs. induction df as [|e df IH]; intros cs; cbn; [by rewrite app_nil_r|].
  unfold onEvent at 2. cbn. destruct (event_chunk fp tg e) as [c|]; [|apply IH]. unfold send. cbn. rewrite IH. by rewrite <-app_assoc.
Qed.

(** *** Frames: what the operations leave alone *)

(** Bookkeeping of the turn part. *)
Lemma ahead_with_turn A s t f : wf t -> (forall x, turn_same (f x) x) -> ahead A s t -> ahead A s (with_turn f t).
Proof.
  intros W Hf [Hl Hs]. split; [done|]. unfold caught_up in *. cbn [tr_turn with_turn].
  assert (xt_terminal (f (tr_turn t)) = xt_terminal (tr_turn t)) as ->; [|by apply sim_with_turn].
  pose proof (Hf (tr_turn t)) as H. by apply (f_equal xt_terminal) in H.
Qed.

Lemma same_mono A id p q : same A p q -> same (id :: A) p q.
Proof.
  destruct p, q; cbn; try done. intros H. view_cases. unfold approval_same, approval_view. cbn.
  match goal with |- context [bool_decide (?x ∈ _)] => destruct (decide (x ∈ id :: A)) as [Hi|Hi] end.
  - by rewrite !bool_decide_eq_true_2.
  - rewrite !bool_decide_eq_false_2 by done. rewrite not_elem_of_cons in Hi. rewrite !bool_decide_eq_false_2 in * by tauto. congruence.
Qed.

Lemma resolve_same A t id o src at_ : wf t -> id ∈ A -> Forall2 (same A) (parts t) (parts (resolveApproval id o src at_ t)).
Proof.
  intros W HA. etrans; [|by apply approval_resolve_parts].
  rewrite <-(map_id (parts t)) at 1. apply Forall2_map_both. intros p _. destruct p; try done. cbn. case_decide as Hd; [|done].
  destruct Hd as [<- _]. cbn. unfold approval_same, approval_view. cbn. by rewrite !bool_decide_eq_true_2.
Qed.

(** A decision of the hub. *)
Lemma sim_decided A s t id o src at_ : wf t -> id ∈ A -> sim A s t -> sim A s (resolveApproval id o src at_ t).
Proof.
  intros W HA (Hx & Hp & Ho). split_and!.
  - rewrite Hx. unfold resolveApproval. by case_match.
  - etrans; [exact Hp|]. by apply resolve_same.
  - unfold resolveApproval. case_match; [|done]. apply open_update; auto with mango.
Qed.

Lemma sim_mono A id s t : sim A s t -> sim (id :: A) s t.
Proof. intros (? & Hp & ?). split_and!; [done| |done]. eapply Forall2_impl; [exact Hp|]. intros. by apply same_mono. Qed.

Lemma steer_key_same A id p q : same A p q -> is_steer id p = is_steer id q.
Proof. destruct p, q; cbn; try done; intros H; try congruence. by view_cases. Qed.

Lemma turn_resolve id o src at_ t : tr_turn (resolveApproval id o src at_ t) = tr_turn t.
Proof. unfold resolveApproval. by case_match. Qed.

Lemma steers_resolve id o src at_ t : tr_steers (resolveApproval id o src at_ t) = tr_steers t.
Proof. unfold resolveApproval. by case_match. Qed.

Lemma terminated_resolve id o src at_ t : tr_terminated (resolveApproval id o src at_ t) = tr_terminated t.
Proof. unfold resolveApproval. by case_match. Qed.

(** *** The operations *)

Lemma inv_terminate h r : inv h -> inv (terminate r h).
Proof.
  intros I. unfold terminate. destruct (hb_terminalReason h) eqn:E; [done|]. destruct (term_none h I E) as (Ht & Hs & Hc).
  destruct I. split; cbn; try done. congruence.
Qed.

(** An event on its way to the client: sent, or held back behind the steer in flight. *)
Definition report_event (e : ExternalAgentEvent) (h : HubTurn) : HubTurn :=
  match e with
  | session_started => h
  | _ => match hb_steers h with [] => onEvent e h | _ => upd_deferred (hb_deferred h ++ [e]) h end
  end.

Lemma report_frame e h : hb_closed h = false ->
  hb_transcript (report_event e h) = hb_transcript h /\ hb_targetId (report_event e h) = hb_targetId h /\
  hb_attempts (report_event e h) = hb_attempts h /\ hb_settled (report_event e h) = hb_settled h /\
  hb_closed (report_event e h) = hb_closed h /\ hb_terminalReason (report_event e h) = hb_terminalReason h /\
  hb_decided (report_event e h) = hb_decided h /\ hb_steers (report_event e h) = hb_steers h.
Proof.
  intros Hc. assert (report_event e h = h \/ report_event e h = onEvent e h \/ report_event e h = upd_deferred (hb_deferred h ++ [e]) h) as [->|[->| ->]].
  { unfold report_event. destruct e, (hb_steers h); auto. }
  - done.
  - unfold onEvent, send. rewrite Hc. by destruct (event_chunk _ _ _).
  - done.
Qed.

Lemma report_live e h : hb_closed h = false -> steers_ok h ->
  steers_ok (report_event e h) /\
  live (hb_stream (report_event e h) ++ in_flight (report_event e h)) =
  live_event (hb_fingerprint h) (hb_targetId h) n e (live (hb_stream h ++ in_flight h)).
Proof.
  intros Hc Hs. assert (e = session_started \/ report_event e h = match hb_steers h with [] => onEvent e h | _ => upd_deferred (hb_deferred h ++ [e]) h end)
    as [->| ->] by (destruct e; auto); [done|]. unfold steers_ok in Hs. destruct (hb_steers h) as [|[id [text ph]] rest] eqn:E.
  - unfold onEvent, send, live_event. rewrite Hc. unfold in_flight, steers_ok. destruct (event_chunk _ _ e) as [c|]; cbn; rewrite ?E, ?app_nil_r.
    + split; [done|]. apply live_view_snoc.
    + done.
  - unfold steers_ok, in_flight, deferred_chunks. cbn. rewrite E. destruct rest; [|done]. split; [done|].
    rewrite omap_app. cbn. unfold live_event. destruct (event_chunk _ _ e) as [c|]; [|by rewrite app_nil_r].
    rewrite app_comm_cons, app_assoc. apply live_view_snoc.
Qed.

(** The end an event brought, once the client was told of the event. *)
Lemma inv_envelope h v e q at_ b : inv h -> smooth h (o_envelope v e q at_ b) = true -> inv (onEnvelope v e q at_ b h).
Proof.
  intros I Hs. unfold onEnvelope. destruct (hb_terminalReason h) eqn:E; [done|].
  destruct v; try done; [|by apply inv_terminate]. destruct e as [e|]; [|done].
  cbn in Hs. apply bool_decide_eq_true in Hs. destruct (term_none h I E) as (Ht & Hst & Hcl).
  pose proof (running_sim h I E) as Hsim. pose proof (i_wf h I) as W.
  pose proof (apply_ahead _ _ _ e q at_ b (hb_fingerprint h) n W Ht Hs Hsim) as Ha.
  pose proof (wf_apply e q at_ b _ W Hs) as W'. destruct (kept_apply e q at_ b (hb_transcript h)) as (K1 & K2 & K3).
  destruct (apply_terminal e q at_ b _ W Ht Hs) as [T1 T2].
  destruct (apply e q at_ b (hb_transcript h)) as [t' ap]. cbn [fst snd] in *. rewrite T1. clear T1 ap.
  rewrite <-(i_target h I) in Ha.
  match goal with |- context [terminate _ ?x] => change x with (report_event e (upd_transcript (fun _ => t') h)) end.
  destruct (report_frame e (upd_transcript (fun _ => t') h) Hcl) as (H1 & H2 & H3 & H4 & H5 & H6 & H7 & H8').
  destruct (report_live e (upd_transcript (fun _ => t') h) Hcl (i_steers h I)) as [H8 H9].
  set (h1 := report_event e (upd_transcript (fun _ => t') h)) in *. clearbody h1.
  cbn [upd_transcript hb_transcript hb_targetId hb_attempts hb_settled hb_closed hb_terminalReason hb_decided hb_steers] in H1, H2, H3, H4, H5, H6, H7.
  rewrite Hst in H4. rewrite Hcl in H5. rewrite E in H6.
  change (live (hb_stream (upd_transcript (fun _ => t') h) ++ in_flight (upd_transcript (fun _ => t') h)))
    with (live (hb_stream h ++ in_flight h)) in H9. cbn [hb_fingerprint hb_targetId upd_transcript] in H9.
  set (r := xt_terminal (tr_turn t')) in *.
  assert (match r with Some r => terminate r h1 | None => h1 end =
          upd_end (hb_dispatchPending h1) r (hb_settled h1) (hb_closed h1) h1) as ->.
  { unfold terminate. rewrite H6. destruct r as [r|]; [|destruct h1; cbn in *; by subst]. by destruct r. }
  split; cbn [hb_transcript upd_end hb_targetId hb_attempts hb_terminalReason hb_settled hb_closed hb_steers hb_stream hb_decided].
  - by rewrite H1.
  - rewrite H1, H2, K2. apply (i_target h I).
  - rewrite H1, K3. apply (i_reset h I).
  - intros id. rewrite H1, H3, K1. apply (i_attempts h I).
  - by rewrite H1.
  - by rewrite H4.
  - by rewrite H5.
  - exact H8.
  - rewrite H5, H7, H1. change (in_flight (upd_end _ _ _ _ h1)) with (in_flight h1). by rewrite H9.
Qed.

Lemma inv_bind h id : inv h -> inv (upd_transcript (bindNativeTurn id) h).
Proof.
  intros [W Ht Hr Ha Hm Hs Hc Hst Hl]. split; cbn [hb_transcript upd_transcript hb_closed hb_stream hb_decided hb_steers hb_settled]; try done.
  - by apply wf_with_turn.
  - change (in_flight (upd_transcript _ h)) with (in_flight h). destruct (hb_closed h).
    + by apply sim_with_turn.
    + by apply ahead_with_turn.
Qed.

(** The turn part of a client that has the record. *)
Lemma sim_head A s t : wf t -> sim A s t -> exists cur rest, ss_parts s = PExternalTurn cur :: rest /\ turn_same cur (tr_turn t) /\
  exists rest', parts t = PExternalTurn (tr_turn t) :: rest' /\ Forall2 (same A) rest rest' /\ forall p, p ∈ rest' -> is_turn p = false.
Proof.
  intros W (_ & Hp & _). destruct (wf_head t W) as (rs & Hh & Hn).
  assert (parts t = PExternalTurn (tr_turn t) :: map (deref t) rs) as Hpt by (unfold parts; by rewrite Hh).
  rewrite Hpt in Hp. apply Forall2_cons_inv_r in Hp as (p & l & Hp & Hl & ->). destruct p; try done.
  eexists _, _. split; [done|]. split; [done|]. eexists. split; [done|]. split; [done|].
  intros p ([|i q] & -> & Hin)%list_elem_of_fmap; [done|].
  assert (item i q ∈ tr_parts t) as (_ & ? & _)%(wf_items t W) by (rewrite Hh; by right). done.
Qed.

(** The turn part in another session. *)
Definition moved (sid : jstring) (reset : option jstring) (p : ExternalTurnPart) : ExternalTurnPart :=
  {| xt_targetId := xt_targetId p; xt_sessionId := sid; xt_nativeTurnId := xt_nativeTurnId p; xt_terminal := xt_terminal p;
     xt_startedAt := xt_startedAt p; xt_updatedAt := xt_updatedAt p; xt_lastSequence := xt_lastSequence p;
     xt_eventCount := xt_eventCount p; xt_persistedBytes := xt_persistedBytes p; xt_usage := xt_usage p; xt_error := xt_error p;
     xt_remedy := xt_remedy p; xt_unavailableReason := xt_unavailableReason p; xt_requiredVersion := xt_requiredVersion p;
     xt_conversationReset := reset |}.

Lemma rebind_moved sid r t : (r = None -> xt_conversationReset (tr_turn t) = None) ->
  rebindSession sid (match r with Some x => markConversationReset x t | None => t end) = with_turn (moved sid r) t.
Proof.
  intros Hr. destruct r as [x|]; [done|]. unfold rebindSession, with_turn. cbn. f_equal. unfold moved.
  by rewrite (Hr eq_refl).
Qed.

Lemma moved_same sid r x y : turn_same x y -> turn_same (moved sid r x) (moved sid r y).
Proof. intros H. by view_cases. Qed.

Lemma imap_other index next l k : (index < k)%nat -> imap (fun i p => if ((k + i) =? index)%nat then next else p) l = l :> list MessagePart.
Proof.
  revert k. induction l as [|p l IH]; intros k Hk; cbn; [done|]. rewrite Nat.add_0_r. destruct (Nat.eqb_spec k index); [lia|]. f_equal.
  rewrite <-(IH (S k)) at 2 by lia. apply imap_ext. intros i q _. cbn. by rewrite Nat.add_succ_r.
Qed.

Lemma replace_head p ps next : replacePartAt (p :: ps) 0 next = next :: ps.
Proof. unfold replacePartAt. cbn. f_equal. exact (imap_other 0 next ps 1 ltac:(lia)). Qed.

(** The announcement of another session. *)
Lemma sim_moved A s t sid tgt r model : wf t -> tr_terminated t = false -> sim A s t -> xt_sessionId (tr_turn t) <> sid ->
  truthy r = r -> sim A (reduceTextGenerationStreamChunk s (ch_external_session_started sid tgt r model) n) (with_turn (moved sid r) t).
Proof.
  intros W Hr H Hsid Hrr. pose proof (sim_open_live A s t W H) as Hl. rewrite Hr in Hl.
  destruct (sim_head A s t W H) as (cur & rest & Hc & Hcur & rest' & Hpt & Hrest & Hno). destruct H as (Hx & Hp & Ho).
  unfold reduceTextGenerationStreamChunk. rewrite Hl, andb_false_r. unfold reduceExternalSessionStarted.
  change (ss_parts (clearChunkUpdates s)) with (ss_parts s). rewrite Hc. cbn [find_index is_turn].
  unfold reduceExternalSessionRebound. change (ss_parts (clearChunkUpdates s)) with (ss_parts s). rewrite Hc. cbn [lookup list_lookup].
  rewrite decide_False; [|intros [Hs _]; apply Hsid; rewrite <-Hs; apply (f_equal xt_sessionId) in Hcur; by symmetry].
  rewrite replace_head, Hrr. split_and!; [done| |done]. cbn [ss_parts update_parts withAiMessageUpdate with_content].
  rewrite parts_with_turn, Hpt by done. unfold updateExternalTurn. cbn [map]. constructor; [by apply (moved_same sid r cur)|].
  assert (map (fun p => match p with PExternalTurn x => PExternalTurn (moved sid r x) | _ => p end) rest' = rest') as ->; [|done].
  rewrite <-(map_id rest') at 2. apply map_ext_in. intros p Hin%list_elem_of_In%Hno. by destruct p.
Qed.

Lemma inv_reacquire h sid reset model : inv h -> hb_steers h = [] -> inv (reacquire sid reset model h).
Proof.
  intros I Hno. unfold reacquire. destruct (hb_terminalReason h) eqn:E; [done|]. case_decide as Hsid; [done|].
  destruct (term_none h I E) as (Ht & Hse & Hcl). pose proof (running_sim h I E) as Hs. pose proof (i_wf h I) as W.
  pose proof (i_steers h I) as Hst. unfold steers_ok in Hst. unfold in_flight in Hs. rewrite Hno in Hst, Hs. rewrite app_nil_r in Hs.
  set (r := truthy (match truthy reset with Some r => Some r | None => _ end)).
  assert (truthy r = r) as Hr by (unfold r; by destruct (match truthy reset with Some _ => _ | None => _ end) as [[]|]).
  assert (r = None -> xt_conversationReset (tr_turn (hb_transcript h)) = None) as Hn.
  { unfold r. intros Hr'. rewrite <-(i_reset h I). destruct reset as [[]|]; done. }
  pose proof (sim_moved _ _ _ sid (hb_targetId h) r model W Ht Hs Hsid Hr) as Hm.
  set (f := fun t => match r with Some x => markConversationReset x t | None => t end).
  change (upd_transcript (rebindSession sid) (upd_transcript f h)) with (upd_transcript (fun t => rebindSession sid (f t)) h).
  assert (rebindSession sid (f (hb_transcript h)) = with_turn (moved sid r) (hb_transcript h)) as Hf by by apply rebind_moved.
  assert (wf (with_turn (moved sid r) (hb_transcript h))) as Wm by by apply wf_with_turn.
  unfold send. cbn [hb_closed upd_transcript]. rewrite Hcl.
  destruct I. split; cbn [hb_transcript hb_targetId hb_attempts hb_terminalReason hb_settled hb_closed hb_steers hb_stream hb_decided
    upd_transcript]; rewrite ?Hf; try done.
  - unfold steers_ok. cbn. by rewrite Hno.
  - unfold in_flight. cbn. rewrite Hno, app_nil_r, live_view_snoc. by apply ahead_running.
Qed.

Lemma inv_answer h id o at_ : inv h -> hb_closed h = false -> inv (answerApproval id o at_ h).
Proof.
  intros [W Ht Hr Ha Hm Hs Hc Hst Hl] Hcl. unfold answerApproval.
  split; cbn [hb_transcript hb_targetId hb_attempts hb_terminalReason hb_settled hb_closed hb_steers hb_stream hb_decided
    upd_transcript upd_decided]; rewrite ?turn_resolve, ?steers_resolve, ?terminated_resolve; try done.
  - by apply wf_resolve.
  - rewrite Hcl in *. destruct Hl as [Hlo Hsim]. split; [done|]. unfold caught_up in *. rewrite turn_resolve.
    apply sim_decided; [done|left|]. by apply sim_mono.
Qed.

Lemma inv_steer h id text at_ : inv h -> smooth h (o_steer id text at_) = true -> inv (steer id text at_ h).
Proof.
  intros I Hs. unfold steer. destruct (hasEnded h) eqn:En; [done|]. destruct (hb_review h); [done|].
  destruct (map_get id (hb_attempts h)) eqn:Eg; [done|]. unfold hasEnded in En. destruct (hb_terminalReason h) eqn:E; [done|].
  destruct (term_none h I E) as (Ht & Hse & Hcl). pose proof (running_sim h I E) as Hsim. pose proof (i_wf h I) as W.
  cbn in Hs. apply andb_true_iff in Hs as [Hno Hb]. unfold no_steers in Hno. destruct (hb_steers h) as [|] eqn:Est; [|done].
  unfold in_flight in Hsim. rewrite Est, app_nil_r in Hsim. pose proof (i_attempts h I id Eg) as Hf.
  pose proof (i_steers h I) as Hst. unfold steers_ok in Hst. rewrite Est in Hst.
  assert ((recordSteerAttempt id text at_ (hb_transcript h)).2 = None) as Hb' by by destruct (recordSteerAttempt _ _ _ _).2.
  pose proof (steer_ahead _ _ _ id text at_ n W Ht Hf Hb' Hsim) as Ha. pose proof (wf_recordSteer id text at_ _ W Hf) as W'.
  assert (let t' := (recordSteerAttempt id text at_ (hb_transcript h)).1 in
    xt_targetId (tr_turn t') = xt_targetId (tr_turn (hb_transcript h)) /\
    xt_conversationReset (tr_turn t') = xt_conversationReset (tr_turn (hb_transcript h)) /\
    tr_steers t' = map_set id (tr_fresh (hb_transcript h)) (tr_steers (hb_transcript h)) /\ tr_terminated t' = false) as (K1 & K2 & K3 & K4).
  { clear -Hb' Ht. unfold recordSteerAttempt in *. by case_match. }
  assert (existsb (is_steer id) (ss_parts (live (hb_stream h))) = false) as Hnew.
  { destruct Hsim as (_ & Hp & _). rewrite (related_existsb _ _ _ (is_steer id) _ (parts (hb_transcript h)) (steer_key_same _ id) Hp).
    apply existsb_false. intros p Hin. pose proof (parts_no_key key_steer _ _ _ p (proj1 (wf_steers _ W)) Hf (fun _ => eq_refl) Hin) as Hk.
    destruct p; try done. cbn in *. apply bool_decide_eq_false. congruence. }
  destruct (recordSteerAttempt id text at_ (hb_transcript h)) as [t' tm]. cbn [fst snd] in *. subst tm.
  split; cbn [hb_transcript hb_targetId hb_attempts hb_terminalReason hb_settled hb_closed hb_steers hb_stream hb_decided
    upd_transcript upd_steers].
  - done.
  - rewrite K1. apply (i_target h I).
  - rewrite K2. apply (i_reset h I).
  - intros id'. rewrite K3, !map_get_set. case_decide; [done|]. apply (i_attempts h I).
  - congruence.
  - congruence.
  - congruence.
  - unfold steers_ok. cbn. rewrite Est. cbn. split; [by intros r [=]|done].
  - rewrite Hcl. unfold in_flight, deferred_chunks. cbn. rewrite Est, Hst. cbn. rewrite live_view_snoc. exact Ha.
Qed.

(** The attempt in flight. *)
Lemma steer_in_flight h id x : inv h -> map_get id (hb_steers h) = Some x -> exists text ph, x = (text, ph) /\ hb_steers h = [(id, (text, ph))] /\
  (forall r, ph <> writing (Some r)) /\ existsb (is_steer id) (ss_parts (live (hb_stream h))) = false /\ hb_closed h = false /\ hb_settled h = false.
Proof.
  intros I Hg. pose proof (i_steers h I) as Hst. unfold steers_ok in Hst.
  assert (hb_settled h = false) as Hs by (destruct (hb_settled h) eqn:Es; [|done]; apply (i_settled h I) in Es as [_ Es]; by rewrite Es in Hg).
  assert (hb_closed h = false) as Hc by (destruct (hb_closed h) eqn:Ec; [|done]; apply (i_closed h I) in Ec as [? _]; congruence).
  destruct (hb_steers h) as [|[id' [text ph]] [|]] eqn:E; try done. cbn in Hg. case_decide; [|done]. subst id'. injection Hg as <-.
  destruct Hst. eauto 10.
Qed.

(** An attempt that ends: what was held back follows its report. *)
Lemma finally_stream h id c text ph : hb_closed h = false -> hb_steers h = [(id, (text, ph))] ->
  steer_finally id (send c h) =
  {| hb_transcript := hb_transcript h; hb_targetId := hb_targetId h; hb_fingerprint := hb_fingerprint h;
     hb_assistantMessageId := hb_assistantMessageId h; hb_review := hb_review h; hb_attempts := hb_attempts h;
     hb_steers := []; hb_deferred := []; hb_dispatchPending := hb_dispatchPending h;
     hb_terminalReason := hb_terminalReason h; hb_settled := hb_settled h; hb_stream := hb_stream h ++ c :: deferred_chunks h;
     hb_closed := false; hb_decided := hb_decided h |}.
Proof.
  intros Hc Hs. unfold steer_finally, send. rewrite Hc. cbn [hb_steers upd_steers hb_attempts]. rewrite Hs.
  rewrite filter_cons_False by naive_solver. rewrite filter_nil. rewrite flush_stream by done.
  unfold upd_deferred, deferred_chunks. cbn. by rewrite <-app_assoc.
Qed.

(** The report of the attempt, in the form the client was going to be told. *)
Lemma inv_report h id text ph : inv h -> hb_steers h = [(id, (text, ph))] -> hb_closed h = false ->
  inv (steer_finally id (onSteer id text (reported ph) h)).
Proof.
  intros I Hs Hc. unfold onSteer. rewrite (finally_stream _ _ _ text ph Hc Hs). pose proof (i_live h I) as Hl. rewrite Hc in Hl.
  unfold in_flight in Hl. rewrite Hs in Hl. destruct I. split; cbn [hb_transcript hb_targetId hb_attempts hb_terminalReason hb_settled
    hb_closed hb_steers hb_stream hb_decided]; try done.
  - intros Hse. split; [|done]. by apply i_settled0 in Hse as [? _].
  - unfold in_flight. cbn. by rewrite app_nil_r.
Qed.

(** A correction of the attempt in flight. *)
Lemma inv_correct h id text ph r : inv h -> hb_steers h = [(id, (text, ph))] -> hb_closed h = false -> reported ph = None ->
  inv (set_phase id text (correcting r) (upd_transcript (resolveSteerRejected id r) h)).
Proof.
  intros I Hs Hc Hp. pose proof (i_live h I) as Hl. pose proof (i_steers h I) as Hst. unfold steers_ok in Hst. rewrite Hs in Hst.
  rewrite Hc in Hl. unfold in_flight in Hl. rewrite Hs, Hp, live_app in Hl.
  pose proof (correct_ahead (hb_decided h) id r _ _ _ (i_wf h I) (correct_run n id text r _ _ (proj2 Hst) (deferred_turn h)) Hl) as Ha.
  rewrite <-live_app in Ha.
  assert (tr_turn (resolveSteerRejected id r (hb_transcript h)) = tr_turn (hb_transcript h)) as Ht by (unfold resolveSteerRejected; by case_match).
  assert (tr_steers (resolveSteerRejected id r (hb_transcript h)) = tr_steers (hb_transcript h)) as Hts by (unfold resolveSteerRejected; by case_match).
  assert (tr_terminated (resolveSteerRejected id r (hb_transcript h)) = tr_terminated (hb_transcript h)) as Htt by (unfold resolveSteerRejected; by case_match).
  unfold set_phase. cbn [hb_steers upd_transcript hb_attempts]. rewrite Hs. cbn [map_set]. rewrite decide_True by done.
  destruct I. split; cbn [hb_transcript hb_targetId hb_attempts hb_terminalReason hb_settled hb_closed hb_steers hb_stream hb_decided
    upd_transcript upd_steers]; rewrite ?Ht, ?Hts, ?Htt; try done.
  - by apply wf_resolveSteer.
  - intros Hse. apply i_settled0 in Hse as [_ ?]. congruence.
  - unfold steers_ok. cbn. split; [by intros ? [=]|apply Hst].
  - by rewrite Hc.
Qed.

Lemma inv_steer_written h id : inv h -> inv (steer_written id h).
Proof.
  intros I. unfold steer_written. destruct (map_get id (hb_steers h)) as [[text ph]|] eqn:E; [|done].
  destruct (steer_in_flight h id _ I E) as (text' & ph' & [= <- <-] & Hs & Hw & Hnew & Hc & Hse).
  destruct ph as [[r|]| |]; try done; [by destruct (Hw r)|]. destruct (hasEnded h).
  - pose proof (inv_correct h id text _ ALREADY_COMPLETED I Hs Hc eq_refl) as I'.
    set (h' := set_phase id text (correcting ALREADY_COMPLETED) (upd_transcript (resolveSteerRejected id ALREADY_COMPLETED) h)) in *.
    assert (hb_steers h' = [(id, (text, correcting ALREADY_COMPLETED))]) as Hs'.
    { unfold h', set_phase. cbn. rewrite Hs. cbn. by rewrite decide_True. }
    pose proof (inv_report h' id text _ I' Hs' Hc) as I''. unfold onSteer in *.
    rewrite (finally_stream h' id _ text (correcting ALREADY_COMPLETED) Hc Hs') in I''.
    rewrite (finally_stream (upd_transcript _ h) _ _ text (writing None) Hc Hs). exact I''.
  - pose proof (i_steers h I) as Hst. pose proof (i_live h I) as Hl. rewrite Hc in Hl. unfold in_flight in Hl. rewrite Hs in Hl.
    unfold set_phase. rewrite Hs. cbn [map_set]. rewrite decide_True by done.
    destruct I. split; cbn [hb_transcript hb_targetId hb_attempts hb_terminalReason hb_settled hb_closed hb_steers hb_stream hb_decided
      upd_steers]; try done.
    + congruence.
    + by rewrite Hc.
Qed.

Lemma inv_steer_answered h id rej : inv h -> inv (steer_answered id rej h).
Proof.
  intros I. unfold steer_answered. destruct (map_get id (hb_steers h)) as [[text ph]|] eqn:E; [|done].
  destruct (steer_in_flight h id _ I E) as (text' & ph' & [= <- <-] & Hs & Hw & Hnew & Hc & Hse).
  destruct ph; try done. destruct rej as [r|]; [by eapply inv_correct|]. by apply (inv_report h id text calling).
Qed.

Lemma inv_steer_corrected h id : inv h -> inv (steer_corrected id h).
Proof.
  intros I. unfold steer_corrected. destruct (map_get id (hb_steers h)) as [[text ph]|] eqn:E; [|done].
  destruct (steer_in_flight h id _ I E) as (text' & ph' & [= <- <-] & Hs & Hw & Hnew & Hc & Hse).
  destruct ph; try done. by apply (inv_report h id text (correcting reasonCode)).
Qed.

Lemma inv_settle h at_ : inv h -> hb_steers h = [] -> inv (settle at_ h).
Proof.
  intros I Hno. unfold settle. destruct (hb_terminalReason h) as [r|] eqn:E; [|done]. destruct (hb_settled h) eqn:Es; [done|].
  assert (hb_closed h = false) as Hc by (destruct (hb_closed h) eqn:Ec; [|done]; apply (i_closed h I) in Ec as [? _]; congruence).
  pose proof (i_steers h I) as Hst. unfold steers_ok in Hst. rewrite Hno in Hst. pose proof (i_live h I) as Hl. rewrite Hc in Hl.
  rewrite flush_stream by done. unfold deferred_chunks. rewrite Hst. cbn [omap list_omap]. rewrite app_nil_r.
  destruct (kept_finalize r at_ (hb_transcript h)) as (K1 & K2 & K3). pose proof (i_wf h I) as W. pose proof (wf_finalize r at_ _ W) as W'.
  assert (tr_terminated (finalize r at_ (hb_transcript h)) = true /\ xt_terminal (tr_turn (finalize r at_ (hb_transcript h))) = Some r /\
          ahead (hb_decided h) (live (hb_stream h ++ in_flight h)) (finalize r at_ (hb_transcript h))) as (F1 & F2 & F3).
  { destruct (tr_terminated (hb_transcript h)) eqn:Et.
    - unfold finalize. rewrite Et. split_and!; [done| |done]. by rewrite <-(i_term h I Et).
    - destruct (finalize_terminal r at_ _ W Et) as (? & ? & _). split_and!; [done|done|]. apply ahead_finalize; try done.
      destruct Hl as [_ Hl]. unfold caught_up in Hl. rewrite (wf_terminated _ W) in Et. by destruct (xt_terminal (tr_turn (hb_transcript h))). }
  unfold in_flight in F3. rewrite Hno in F3.
  destruct I. split; cbn [hb_transcript hb_targetId hb_attempts hb_terminalReason hb_settled hb_closed hb_steers hb_stream hb_decided
    upd_transcript upd_end upd_deferred]; rewrite ?K1, ?K2, ?K3; try done.
  - congruence.
  - congruence.
  - unfold steers_ok. cbn. by rewrite Hno.
  - rewrite Hc. unfold in_flight. cbn. by rewrite Hno.
Qed.

Lemma sim_ext A s s' t : ss_text s = ss_text s' -> ss_parts s = ss_parts s' -> ss_openThinking s = ss_openThinking s' -> sim A s t -> sim A s' t.
Proof. intros H1 H2 H3 (? & ? & ?). unfold sim. by rewrite <-H1, <-H2, <-H3. Qed.

Lemma sim_mono_list A ids s t : sim A s t -> sim (ids ++ A) s t.
Proof. intros H. induction ids; cbn; [done|]. by apply sim_mono. Qed.

Lemma sim_decided_all A ids src at_ s : forall t, (forall i, i ∈ ids -> i ∈ A) -> wf t -> sim A s t ->
  let t' := fold_left (fun t id => resolveApproval id None src at_ t) ids t in
  sim A s t' /\ wf t' /\ tr_turn t' = tr_turn t /\ tr_steers t' = tr_steers t /\ tr_terminated t' = tr_terminated t.
Proof.
  induction ids as [|id ids IH]; intros t HA W H; cbn; [done|].
  destruct (IH (resolveApproval id None src at_ t)) as (? & ? & E1 & E2 & E3).
  - intros i Hi. apply HA. by right.
  - by apply wf_resolve.
  - apply sim_decided; [done|apply HA; left|done].
  - rewrite turn_resolve in E1. rewrite steers_resolve in E2. rewrite terminated_resolve in E3. by split_and!.
Qed.

(** The two chunks behind the end of a turn. *)
Lemma live_end s r id : live_open s ->
  let s' := reduceTextGenerationStreamChunk (reduceTextGenerationStreamChunk s (ch_external_turn_completed r) n) (ch_done id None) n in
  ss_text s' = ss_text (reduceExternalTurnCompleted s r) /\ ss_parts s' = ss_parts (reduceExternalTurnCompleted s r) /\
  ss_openThinking s' = ss_openThinking (reduceExternalTurnCompleted s r) /\ ss_sealed s' = true.
Proof.
  intros Ho. unfold reduceTextGenerationStreamChunk at 2. rewrite Ho, andb_false_r. unfold reduceTextGenerationStreamChunk.
  cbn [is_external andb]. unfold reduceDone, reduceExternalTurnCompleted.
  change (ss_parts (clearChunkUpdates s)) with (ss_parts s). change (ss_openThinking (clearChunkUpdates s)) with (ss_openThinking s).
  destruct (closeThinkingAt (ss_parts s) (ss_openThinking s)) as [c i]. cbn. by rewrite orb_true_r.
Qed.

Lemma inv_finish h at_ : inv h -> inv (finish at_ h).
Proof.
  intros I. unfold finish. destruct (hb_terminalReason h) as [r|] eqn:E; [|done].
  destruct (negb (hb_settled h) || hb_closed h) eqn:Eb; [done|]. apply orb_false_iff in Eb as [Es%negb_false_iff Hc].
  destruct (i_settled h I Es) as [Ht Hno]. pose proof (i_live h I) as Hl. rewrite Hc in Hl. unfold in_flight in Hl. rewrite Hno, app_nil_r in Hl.
  destruct Hl as [Hlo Hs]. unfold caught_up in Hs. rewrite <-(i_term h I Ht), E in Hs.
  pose proof (i_steers h I) as Hst. unfold steers_ok in Hst. rewrite Hno in Hst.
  destruct (live_end _ r (Some (hb_assistantMessageId h)) Hlo) as (L1 & L2 & L3 & L4). rewrite <-!live_view_snoc in L1, L2, L3, L4.
  set (ids := pendingApprovalIds (hb_transcript h)). set (src := match r with r_cancelled_by_user => by_cancel | _ => by_expiry end).
  destruct (sim_decided_all (ids ++ hb_decided h) ids src at_ _ (hb_transcript h)
    (fun i Hi => proj2 (elem_of_app _ _ _) (or_introl Hi)) (i_wf h I) (sim_mono_list _ ids _ _ Hs)) as (S1 & S2 & S3 & S4 & S5).
  eapply (sim_ext _ _ _ _ (eq_sym L1) (eq_sym L2) (eq_sym L3)) in S1.
  unfold send. cbn [hb_closed upd_decided upd_transcript]. rewrite Hc. cbn [hb_closed]. rewrite ?Hc.
  destruct I. split; cbn [hb_transcript hb_targetId hb_attempts hb_terminalReason hb_settled hb_closed hb_steers hb_stream hb_decided
    hb_assistantMessageId upd_transcript upd_end upd_deferred upd_decided externalTurnCompletedChunk]; rewrite ?S3, ?S4, ?S5; try done.
  unfold steers_ok. cbn. by rewrite Hno.
Qed.

(** *** Runs *)

Lemma inv_step h o : inv h -> smooth h o = true -> inv (hub_step h o).
Proof.
  intros I Hs. assert (forall b, no_steers h = b -> b = true -> hb_steers h = []) as Hno by (intros b <-; unfold no_steers; by destruct (hb_steers h)).
  destruct o; cbn [hub_step]; try discriminate Hs.
  - by apply inv_envelope.
  - by apply inv_bind.
  - apply inv_reacquire; [done|]. by eapply Hno.
  - destruct I. by split.
  - by apply inv_terminate.
  - destruct (hb_closed h) eqn:E; [done|]. by apply inv_answer.
  - by apply inv_steer.
  - by apply inv_steer_written.
  - by apply inv_steer_answered.
  - by apply inv_steer_corrected.
  - apply inv_settle; [done|]. by eapply Hno.
  - by apply inv_finish.
Qed.

Lemma inv_run os : forall h, inv h -> smooth_run h os = true -> inv (hub_run h os).
Proof. induction os as [|o os IH]; intros h I Hs; [done|]. cbn in Hs. apply andb_true_iff in Hs as [? ?]. cbn. apply IH; [by apply inv_step|done]. Qed.

Lemma inv_start tgt sid reset model fp rv at_ b e : inv (start_turn tgt sid u a reset model fp rv at_ b e).
Proof.
  assert (truthy (truthy reset) = truthy reset) as Hr by by destruct reset as [[]|].
  assert (exists f, hb_transcript (start_turn tgt sid u a reset model fp rv at_ b e) = with_turn f (new_transcript tgt sid at_ b e) /\
    f (new_turn tgt sid at_) = moved sid (truthy reset) (new_turn tgt sid at_)) as (f & Ef & Hf).
  { unfold start_turn. cbn. destruct (truthy reset) as [x|]; [eexists; split; [reflexivity|done]|]. by exists (fun p => p). }
  assert (wf (with_turn f (new_transcript tgt sid at_ b e))) as W by (apply wf_with_turn; [cbn; by rewrite Hf|apply wf_new]).
  split; rewrite ?Ef; cbn [tr_turn with_turn new_transcript tr_terminated tr_steers]; rewrite ?Hf; try done.
  cbn [hb_closed start_turn]. apply ahead_running; [done|done|]. unfold in_flight. cbn. rewrite Hr.
  split_and!; [done| |done]. unfold parts. cbn. rewrite Hf. by repeat constructor.
Qed.
End Turn.

(** ** Refinement *)

(** C3: the record of an external turn refines the live view of it. Over any smooth interleaving of vendor envelopes,
    approvals answered at the hub, moves to a reopened session, steers and ways to end the turn, once the stream is closed
    the client's reduction of every chunk it was sent has the text of the stored message and the same parts in the same
    order, and its row is sealed; and at any moment of a running turn with no steer in flight the same holds of what was
    streamed so far. Parts are compared up to server-owned bookkeeping and the outcome of the approvals the hub decided. *)
Theorem record_refines_live_view userId aiId pending tgt sid reset model fp rv at_ b e os :
  let h0 := start_turn tgt sid userId aiId reset model fp rv at_ b e in
  smooth_run h0 os = true ->
  let h := hub_run h0 os in
  let s := live_view userId aiId pending (hb_stream h) in
  (hb_closed h = true \/ hb_terminalReason h = None /\ hb_steers h = [] ->
   ss_text s = tr_text (hb_transcript h) /\ Forall2 (same (hb_decided h)) (ss_parts s) (parts (hb_transcript h))) /\
  (hb_closed h = true -> ss_sealed s = true).
Proof.
  intros h0 Hs h s. pose proof (inv_run userId aiId pending os h0 (inv_start _ _ _ _ _ _ _ _ _ _ _ _) Hs) as I.
  fold h in I. split; [|intros Hc; by apply (i_closed _ _ _ h I) in Hc as [_ ?]].
  intros [Hc|[Ht Hno]].
  - pose proof (i_live _ _ _ h I) as Hl. rewrite Hc in Hl. destruct Hl as (? & ? & _). done.
  - pose proof (running_sim _ _ _ h I Ht) as Hl. unfold in_flight in Hl. rewrite Hno, app_nil_r in Hl. by destruct Hl as (? & ? & _).
Qed.

(** ** A turn *)

Definition demo_turn : HubTurn :=
  start_turn (js "codex") (js "s1") (js "u1") (js "a1") None (Some (js "gpt")) None false 1000 None None.

Definition demo_request : ExternalApprovalRequest :=
  {| ar_requestId := js "q1"; ar_kind := js "file-change"; ar_title := js "Write"; ar_detail := None; ar_options := [];
     ar_expiresAtMs := 0; ar_truncated := false |}.

Definition event_op (k : Z) (e : ExternalAgentEvent) : hub_op := o_envelope v_apply (Some e) k (1000 + k) 10.

(** Reasoning, an activity, an approval nobody answers, a steer refused after an event overtook it, and the end. *)
Definition demo_ops : list hub_op :=
  [o_bind (js "n1"); event_op 1 session_started; event_op 2 reasoning_started; event_op 3 (reasoning_delta (js "hm"));
   event_op 4 (text_delta (js "Hello")); event_op 5 (activity_started (js "c1") (js "shell") (js "command") (js "ls") None false);
   event_op 6 (approval_requested demo_request); o_steer (js "m1") (js "faster") 1010; o_steer_written (js "m1");
   event_op 7 (text_delta (js " world")); o_steer_answered (js "m1") (Some (js "session-lost")); o_steer_corrected (js "m1");
   o_envelope v_duplicate None 7 1017 10; event_op 8 completed_event; o_settle 1020; o_finish 1030].

Lemma record_refines_live_view_witness :
  smooth_run demo_turn demo_ops = true /\
  (let h := hub_run demo_turn demo_ops in
   hb_closed h = true /\ Forall2 (same (hb_decided h)) (ss_parts (live_view (js "u1") (js "a1") (js "sub") (hb_stream h))) (parts (hb_transcript h))).
Proof.
  split; [vm_compute; reflexivity|]. split; [vm_compute; reflexivity|].
  exact (proj2 (proj1 (record_refines_live_view (js "u1") (js "a1") (js "sub") (js "codex") (js "s1") None (Some (js "gpt")) None false 1000 None None
    demo_ops ltac:(vm_compute; reflexivity)) ltac:(left; vm_compute; reflexivity))).
Defined.

(** ** Runs that are not smooth *)

(** The kinds of the parts, for reading an order. *)
Definition part_label (p : MessagePart) : jstring :=
  match p with
  | PText x _ => x
  | PExternalSteer x => xs_clientMessageId x
  | PExternalTurn _ => js "turn"
  | PExternalActivity x => xa_title x
  | _ => []
  end.

Definition durable_order (h : HubTurn) : list jstring := map part_label (parts (hb_transcript h)).
Definition live_order (h : HubTurn) : list jstring :=
  map part_label (ss_parts (live_view (js "u1") (js "a1") (js "sub") (hb_stream h))).

(** Two steers in flight, the later one answered first: the record has the first steer, the event and the second steer,
    and the client the second steer, the first one and the event. *)
Example concurrent_steers_reorder :
  let h := hub_run demo_turn
    [o_steer (js "A") (js "one") 1; o_steer_written (js "A"); event_op 1 (text_delta (js "e"));
     o_steer (js "B") (js "two") 2; o_steer_written (js "B"); o_steer_answered (js "B") None; o_steer_answered (js "A") None;
     event_op 2 completed_event; o_settle 3; o_finish 4] in
  durable_order h = [js "turn"; js "A"; js "e"; js "B"] /\ live_order h = [js "turn"; js "B"; js "A"; js "e"].
Proof. vm_compute. done. Qed.

(** A steer that exhausts the budget stays recorded as accepted, though the runtime was never asked and the client is told
    of no steer. *)
Example budget_steer_recorded_accepted :
  let h := hub_run (start_turn (js "codex") (js "s1") (js "u1") (js "a1") None None None false 0 (Some 3) None)
    [o_steer (js "A") (js "four") 1; o_steer_written (js "A"); o_settle 2; o_finish 3] in
  (exists x, parts (hb_transcript h) !! 1%nat = Some (PExternalSteer x) /\ xs_rejected x = None) /\
  live_order h = [js "turn"] /\ hb_terminalReason h = Some r_limit_exceeded.
Proof. split; [eexists; split; reflexivity|]. vm_compute. done. Qed.

Definition running_titles (ps : list MessagePart) : list (jstring * activity_status) :=
  omap (fun p => match p with PExternalActivity x => Some (xa_title x, xa_status x) | _ => None end) ps.

(** Two activities with one call id: the record completes the newer one and settles only what its map names, so the older
    one stays running on disk after the end, while the client completes both. *)
Example repeated_call_id_diverges :
  let h := hub_run demo_turn
    [event_op 1 (activity_started (js "c") (js "sh") (js "command") (js "first") None false);
     event_op 2 (activity_started (js "c") (js "sh") (js "command") (js "second") None false);
     event_op 3 (activity_completed (js "c") act_completed None false); event_op 4 completed_event; o_settle 5; o_finish 6] in
  running_titles (parts (hb_transcript h)) = [(js "first", act_running); (js "second", act_completed)] /\
  running_titles (ss_parts (live_view (js "u1") (js "a1") (js "sub") (hb_stream h))) =
    [(js "first", act_completed); (js "second", act_completed)].
Proof. vm_compute. done. Qed.
