(* ===== verification/MessagePartsFacts.v ===== *)
(** * Facts about message parts

    The lifecycle of a tool call, and the agreement of the two places that join adjacent runs of
    text: the reducer, one delta at a time, and [mergeMessageParts], over the parts a turn stored. *)

From S2P Require Import Prelude Json MessageParts Transcript StreamReducer.

(** ** Tool calls *)

Definition run_transitions (x : ToolExecutionSnapshot) (ts : list ToolExecutionTransition) : ToolExecutionSnapshot :=
  fold_left applyToolExecutionTransition ts x.

Definition is_started (s : ToolExecutionStatus) : bool := match s with running | awaiting_user => true | _ => false end.

Record lifecycle (x : ToolExecutionSnapshot) : Prop := {
  l_finished : isTerminalToolExecutionStatus (tx_status x) = match tx_finishedAt x with Some _ => true | None => false end;
  l_started : is_started (tx_status x) = true -> tx_startedAt x <> None;
  l_duration : forall d, tx_durationMs x = Some d -> 0 <= d /\ isTerminalToolExecutionStatus (tx_status x) = true;
  l_reason : forall r, tx_reasonCode x = Some r -> isTerminalToolExecutionStatus (tx_status x) = true
}.

Lemma terminal_stuck x t : isTerminalToolExecutionStatus (tx_status x) = true -> applyToolExecutionTransition x t = x.
Proof. intros H. unfold applyToolExecutionTransition. by destruct (tx_status x). Qed.

Lemma lifecycle_step x t : lifecycle x -> lifecycle (applyToolExecutionTransition x t).
Proof.
  intros L. destruct (isTerminalToolExecutionStatus (tx_status x)) eqn:Ht; [by rewrite terminal_stuck|].
  destruct L as [Lf Ls Ld Lr]. rewrite Ht in *. unfold applyToolExecutionTransition.
  destruct (canTransitionToolExecution (tx_status x) (tt_status t)) eqn:Hc; cbn [negb]; [|by split; rewrite ?Ht].
  assert (tx_durationMs x = None) as Hd by (destruct (tx_durationMs x) as [d|]; [by destruct (Ld d eq_refl)|done]).
  assert (tx_reasonCode x = None) as Hr by (destruct (tx_reasonCode x) as [r|]; [by specialize (Lr r eq_refl)|done]).
  assert (tx_finishedAt x = None) as Hf by by destruct (tx_finishedAt x).
  split; cbn.
  - rewrite Hf. by destruct (tt_status t).
  - destruct (tt_status t); cbn; try done; intros _.
    + by destruct (tx_startedAt x).
    + apply Ls. by destruct (tx_status x).
  - rewrite Hd. intros d. destruct (isTerminalToolExecutionStatus (tt_status t)); [|done]. destruct (tt_durationMs t); [|done].
    intros [= <-]. lia.
  - rewrite Hr. intros r. by destruct (isTerminalToolExecutionStatus (tt_status t)).
Qed.

(** Whatever transitions a tool call is offered, in any order, its snapshot has a finish time exactly when its status
    is terminal, a start time whenever it is running or waiting for the user, and a duration (never negative) or a reason
    only after it finished; and the first terminal status is final, every later transition leaving the snapshot as it is. *)
Theorem tool_call_lifecycle source queuedAt ts later :
  let x := run_transitions (createToolExecutionSnapshot source queuedAt) ts in
  lifecycle x /\ tx_source x = source /\ tx_queuedAt x = queuedAt /\
  (isTerminalToolExecutionStatus (tx_status x) = true -> run_transitions x later = x).
Proof.
  intros x. assert (lifecycle x /\ tx_source x = source /\ tx_queuedAt x = queuedAt) as (L & Hs & Hq).
  { unfold x, run_transitions. set (x0 := createToolExecutionSnapshot source queuedAt).
    assert (lifecycle x0 /\ tx_source x0 = source /\ tx_queuedAt x0 = queuedAt) as H0 by by split_and!.
    clearbody x0. revert x0 H0. induction ts as [|t ts IH]; intros x0 (H1 & H2 & H3); [done|]. cbn. apply IH.
    split_and!; [by apply lifecycle_step| |]; unfold applyToolExecutionTransition; by destruct (negb _). }
  split_and!; [done|done|done|]. intros Ht. unfold run_transitions. induction later as [|t later IH]; [done|]. cbn. by rewrite terminal_stuck.
Qed.

(** ** Runs of text *)

(** A fragment as a producer stores it: a delta of a run, or a part of another kind. *)
Definition plain (p : MessagePart) : bool :=
  match p with PText x i => negb (bool_decide (x = [])) && negb i | PThinking _ r i => negb r && negb i | _ => true end.

(** What the reducer does with the fragment when it is streamed. *)
Definition stream_fragment (ps : list MessagePart) (p : MessagePart) : list MessagePart :=
  match p with
  | PText x _ => appendTrailingText ps kind_text x
  | PThinking x _ _ => appendTrailingText ps kind_thinking x
  | _ => ps ++ [p]
  end.

Definition whole (p : MessagePart) : Prop := match p with PText _ i => i = false | PThinking _ r i => r = false /\ i = false | _ => True end.

Lemma plain_whole p : plain p = true -> whole p.
Proof. destruct p; cbn; try done; rewrite ?andb_true_iff, ?negb_true_iff; tauto. Qed.

Lemma stream_whole ps p : plain p = true -> Forall whole ps -> Forall whole (stream_fragment ps p).
Proof.
  intros Hp H. assert (Forall whole (ps ++ [p])) as Ho by (apply Forall_app; split; [done|constructor; [by apply plain_whole|done]]).
  assert (forall k x, Forall whole (appendTrailingText ps k x)) as Ha; [|destruct p; cbn [stream_fragment]; first [apply Ha|exact Ho]].
  intros k x. unfold appendTrailingText. assert (Forall whole (ps ++ [fresh_run k x])) as Hf.
  { apply Forall_app; split; [done|]. constructor; [by destruct k|done]. }
  destruct ps as [|q ps _] using rev_ind; [done|]. rewrite last_snoc, removelast_last. destruct (is_kind k q); [|done].
  apply Forall_app in H as [H1 H2]. apply Forall_app; split; [done|]. apply Forall_cons in H2 as [Hq _]. constructor; [by destruct q|done].
Qed.

Lemma merge_stream ps p : plain p = true -> Forall whole ps -> merge_part (rev ps) p = rev (stream_fragment ps p).
Proof.
  intros Hp H. destruct ps as [|q ps _] using rev_ind.
  - cbn. destruct p; try done; cbn in Hp |- *; bool_to_prop.
    + destruct text; [done|]. by destruct incomplete.
    + by destruct redacted, incomplete.
  - apply Forall_app in H as [_ [Hq _]%Forall_cons]. rewrite rev_app_distr. cbn [rev app].
    assert (forall k x, appendTrailingText (ps ++ [q]) k x = if is_kind k q then ps ++ [add_text x q] else (ps ++ [q]) ++ [fresh_run k x]) as Ha.
    { intros k x. unfold appendTrailingText. by rewrite last_snoc, removelast_last. }
    destruct p; cbn [stream_fragment]; rewrite ?Ha, ?rev_app_distr; cbn in Hp; bool_to_prop; try (by destruct q).
    + destruct text; [done|]. destruct incomplete; [done|]. destruct q; cbn; rewrite ?rev_app_distr; cbn; try done. by rewrite Hq.
    + destruct redacted, incomplete; try done. destruct q; cbn; rewrite ?rev_app_distr; cbn; try done. destruct Hq as [-> ->]. done.
Qed.

(** Joining the fragments of a turn as they stream, the way the client does, gives the parts that merging the stored
    fragments gives on a reload: for any sequence of text deltas, reasoning deltas and other parts, the live rule (append to
    the trailing part when it is of the same kind) and [mergeMessageParts] agree. *)
Theorem live_runs_are_merged fragments :
  forallb plain fragments = true -> fold_left stream_fragment fragments [] = mergeMessageParts fragments.
Proof.
  intros H. unfold mergeMessageParts. rewrite <-(rev_involutive (fold_left stream_fragment fragments [])). f_equal.
  change (fold_left merge_part fragments []) with (fold_left merge_part fragments (rev [])).
  assert (Forall whole []) as Hw by constructor. revert H Hw. generalize (@nil MessagePart) as ps.
  induction fragments as [|p fs IH]; intros ps H Hw; [done|]. cbn in H |- *. apply andb_true_iff in H as [Hp Hfs].
  rewrite merge_stream by done. apply IH; [done|by apply stream_whole].
Qed.

Lemma live_runs_are_merged_witness :
  let fs := [PThinking (js "a") false false; PThinking (js "b") false false; PText (js "c") false; PSystemEvent (js "e") None; PText (js "d") false] in
  fold_left stream_fragment fs [] = mergeMessageParts fs.
Proof.
  exact (live_runs_are_merged [PThinking (js "a") false false; PThinking (js "b") false false; PText (js "c") false;
    PSystemEvent (js "e") None; PText (js "d") false] ltac:(vm_compute; reflexivity)).
Defined.

(** An empty delta leaves an empty part in the live view that the merge drops. *)
Example empty_delta_differs :
  fold_left stream_fragment [PText [] false] [] = [PText [] false] /\ mergeMessageParts [PText [] false] = [].
Proof. done. Qed.

(** *** Merging again *)

Definition blank (p : MessagePart) : bool := match p with PText [] _ => true | _ => false end.

(** A merged list, last first: no empty text, no two neighbours that would join. *)
Fixpoint merged (l : list MessagePart) : Prop :=
  match l with
  | [] => True
  | p :: rest => blank p = false /\ match rest with q :: _ => merge_run q p = None | [] => True end /\ merged rest
  end.

Lemma merge_run_kind a b r : merge_run a b = Some r -> blank a = false -> blank r = false /\ forall q, merge_run q r = None <-> merge_run q a = None.
Proof.
  destruct a, b; cbn; try done; intros [= <-] Hb; (split; [|by intros []]); try done. by destruct text.
Qed.

Lemma merge_part_merged acc p : merged acc -> merged (merge_part acc p).
Proof.
  intros H. unfold merge_part. destruct (blank p) eqn:Eb; [by destruct p as [[]| | | | | | | | | | | | | | | | | |]|].
  assert (forall A (x y : A), match p with PText [] _ => x | _ => y end = y) as Hp by (intros; destruct p as [[]| | | | | | | | | | | | | | | | | |]; done).
  rewrite Hp. destruct acc as [|a rest]; [done|]. destruct (merge_run a p) as [r|] eqn:E.
  - destruct H as (Ha & Hn & Hr). destruct (merge_run_kind a p r E Ha) as [Hb Hq]. cbn. split_and!; [done| |done].
    destruct rest; [done|]. by apply Hq.
  - done.
Qed.

Lemma merge_merged acc : merged acc -> fold_left merge_part (rev acc) [] = acc.
Proof.
  induction acc as [|p rest IH]; [done|]. intros (Hb & Hn & Hr). cbn [rev]. rewrite fold_left_app, IH by done. cbn.
  assert (forall A (x y : A), match p with PText [] _ => x | _ => y end = y) as Hp by (intros; destruct p as [[]| | | | | | | | | | | | | | | | | |]; done).
  unfold merge_part. rewrite Hp. destruct rest; [done|]. by rewrite Hn.
Qed.

(** The prose of a message. *)
Definition prose (ps : list MessagePart) : jstring := concat (map (fun p => match p with PText x _ => x | _ => [] end) ps).

Lemma merge_part_prose acc p : prose (rev (merge_part acc p)) = prose (rev acc) ++ prose [p].
Proof.
  assert (forall l k, prose (l ++ k) = prose l ++ prose k) as Happ by (intros; unfold prose; by rewrite map_app, concat_app).
  assert (prose (rev (p :: acc)) = prose (rev acc) ++ prose [p]) as Hc by (cbn [rev]; apply Happ).
  unfold merge_part. destruct acc as [|a rest].
  - destruct p as [[]| | | | | | | | | | | | | | | | | |]; done.
  - destruct (merge_run a p) as [r|] eqn:E.
    + assert (prose (rev (r :: rest)) = prose (rev (a :: rest)) ++ prose [p]) as Hr.
      { cbn [rev]. rewrite !Happ, <-app_assoc. f_equal. destruct a, p; cbn in E; try done; injection E as <-; cbn; by rewrite ?app_nil_r. }
      destruct p as [[]| | | | | | | | | | | | | | | | | |]; try exact Hr. cbn [rev prose map concat]. by rewrite !app_nil_r.
    + destruct p as [[]| | | | | | | | | | | | | | | | | |]; try exact Hc. cbn [rev prose map concat]. by rewrite !app_nil_r.
Qed.

(** Merging a message's parts keeps its prose, letter for letter and in order, and is idempotent: a stored row that is
    merged again on a continuation does not change. *)
Theorem merge_is_idempotent ps :
  mergeMessageParts (mergeMessageParts ps) = mergeMessageParts ps /\ prose (mergeMessageParts ps) = prose ps.
Proof.
  split.
  - unfold mergeMessageParts. rewrite merge_merged; [done|]. assert (merged []) as H by done. revert H. generalize (@nil MessagePart).
    induction ps as [|p ps IH]; intros acc H; [done|]. cbn. by apply IH, merge_part_merged.
  - unfold mergeMessageParts. transitivity (prose (rev []) ++ prose ps); [|done]. generalize (@nil MessagePart).
    induction ps as [|p ps IH]; intros acc; cbn [fold_left]; [by rewrite app_nil_r|]. rewrite IH, merge_part_prose, <-app_assoc. f_equal.
    unfold prose. cbn. by rewrite app_nil_r.
Qed.
