(* ===== verification/PathContainment.v ===== *)
(** * Path containment

    [apps/shared/src/workspaces/path-containment.ts], [workspaces/path.ts] and the part of
    [library/machine/path-safety.ts] and [library/keys.ts] that builds on it: resolving a path through
    its symbolic links and deciding whether it lies below a root. POSIX paths; the
    file system does not change while a path is resolved.

    The reference is the kernel's own path walk: [land] is the object that opening
    a path reaches, or would create when its last components do not exist. *)

From S2P Require Import Prelude Regex Wire Ssh Ipc.

(** ** [node:path] *)

(** [resolve(...args)]: arguments are prepended from the last one until the path is absolute. *)
Fixpoint resolve_scan (cwd : jstring) (reversed : list jstring) (acc : jstring) : jstring :=
  match reversed with
  | [] => cwd ++ SLASH :: acc
  | p :: rest =>
      match p with
      | [] => resolve_scan cwd rest acc
      | _ => let acc := p ++ SLASH :: acc in if isAbsolute p then acc else resolve_scan cwd rest acc
      end
  end.

Definition path_resolve (cwd : jstring) (args : list jstring) : jstring :=
  let r := resolve_scan cwd (rev args) [] in
  let body := with_slashes (normal_segments (negb (isAbsolute r)) r) in
  if isAbsolute r then SLASH :: body else match body with [] => js "." | _ => body end.

(** ** The file system

    What a path of component names holds. [Unreadable] is an entry whose inspection fails
    with an error code of its own. *)

Inductive node : Type :=
| Directory
| RegularFile
| SymbolicLink (target : jstring)
| Unreadable (code : jstring).

Global Instance node_eq_dec : EqDecision node.
Proof. solve_decision. Defined.

Record FileSystem : Type := {
  fs_node : list jstring -> option node;
  fs_root : fs_node [] = Some Directory;
  fs_parent : forall p x, is_Some (fs_node (p ++ [x])) -> fs_node p = Some Directory;
  fs_present : forall p code, fs_node p = Some (Unreadable code) -> code <> js "ENOENT";
}.

(** Why a walk stopped: too many links followed, or a system error. *)
Inductive walk_error : Type :=
| LinkLimit
| Code (code : jstring).

Definition is_here (x : jstring) : bool := bool_decide (x = []) || bool_decide (x = js ".").

(** [.filter((segment) => segment.length > 0)] *)
Definition non_empty (xs : list jstring) : list jstring := List.filter (fun x => negb (bool_decide (x = []))) xs.

Section Kernel.
  Context (F : FileSystem).

(** Path resolution: [cur] is the directory reached, [pending] the components still to walk,
    [links] how many links may still be followed; [missing] answers for a component that
    does not exist. *)
Fixpoint walk (missing : list jstring -> list jstring -> outcome walk_error (list jstring)) (links : nat)
    : list jstring -> list jstring -> outcome walk_error (list jstring) :=
  fix go cur pending :=
    match pending with
    | [] => Ok cur
    | x :: rest =>
        if is_here x then go cur rest
        else if bool_decide (x = js "..") then go (removelast cur) rest
        else match fs_node F (cur ++ [x]) with
             | None => missing cur pending
             | Some Directory => go (cur ++ [x]) rest
             | Some RegularFile => match rest with [] => Ok (cur ++ [x]) | _ => Err (Code (js "ENOTDIR")) end
             | Some (Unreadable code) => Err (Code code)
             | Some (SymbolicLink target) =>
                 match links with
                 | O => Err LinkLimit
                 | S links => walk missing links (if isAbsolute target then [] else cur) (segments target ++ rest)
                 end
             end
    end.

Definition absent (cur pending : list jstring) : outcome walk_error (list jstring) := Err (Code (js "ENOENT")).

(** Where a write to the path lands: the missing components are those it creates. *)
Definition land (links : nat) : list jstring -> list jstring -> outcome walk_error (list jstring) :=
  walk (fun cur pending => Ok (cur ++ pending)) links.

(** Linux follows at most forty links in one resolution. *)
Definition KERNEL_LINKS : nat := 40.

Definition errno {A} (o : outcome walk_error A) : outcome jstring A :=
  match o with Ok a => Ok a | Err LinkLimit => Err (js "ELOOP") | Err (Code c) => Err c end.

Definition render (xs : list jstring) : jstring := SLASH :: with_slashes xs.

Definition components (path : jstring) : list jstring := non_empty (segments path).

(** [realpathSync] of an absolute path *)
Definition realpathSync (path : jstring) : outcome jstring jstring :=
  render <$> errno (walk absent KERNEL_LINKS [] (components path)).

(** [lstatSync] of an absolute path: the last component is not followed. *)
Definition lstatSync (path : jstring) : outcome jstring node :=
  match last (components path) with
  | None => Ok Directory
  | Some x =>
      dir ← errno (walk absent KERNEL_LINKS [] (removelast (components path)));
      match fs_node F dir with
      | Some Directory =>
          if bool_decide (x = js ".") || bool_decide (x = js "..") then Ok Directory
          else match fs_node F (dir ++ [x]) with
               | None => Err (js "ENOENT")
               | Some (Unreadable code) => Err code
               | Some n => Ok n
               end
      | _ => Err (js "ENOTDIR")
      end
  end.

Definition readlinkSync (path : jstring) : outcome jstring jstring :=
  n ← lstatSync path;
  match n with SymbolicLink target => Ok target | _ => Err (js "EINVAL") end.

(** ** [path-containment.ts] *)

Definition MAX_SYMLINK_HOPS : nat := 32.

(** What the module throws: a system error, or one of its own classes with its message. *)
Inductive thrown : Type :=
| SystemError (code : jstring)
| PathAccessError (message : jstring)
| WorkspacePathError (message : jstring).

Definition sys {A} (o : outcome jstring A) : outcome thrown A :=
  match o with Ok a => Ok a | Err c => Err (SystemError c) end.

Definition isPathPrefix (root candidate : jstring) : bool :=
  bool_decide (candidate = root) || starts_with (root ++ [SLASH]) candidate.

(** [splitAbsolutePath]: the segments; the root of an absolute path is ["/"]. *)
Definition splitAbsolutePath (path : jstring) : list jstring := non_empty (segments (drop 1 path)).

Definition too_many_links (inputPath : jstring) : thrown :=
  PathAccessError (js "Too many symbolic links while resolving " ++ [34] ++ inputPath ++ [34] ++ js ".").

(** The loop; [hops] is how many links may still be followed. *)
Fixpoint resolve_loop (cwd inputPath : jstring) (hops : nat) : jstring -> list jstring -> outcome thrown jstring :=
  fix go resolvedPath pending :=
    match pending with
    | [] => sys (realpathSync resolvedPath)
    | segment :: pending =>
        let candidate := path_resolve cwd [resolvedPath; segment] in
        match lstatSync candidate with
        | Err code =>
            if bool_decide (code = js "ENOENT") then
              base ← sys (realpathSync resolvedPath); Ok (path_resolve cwd (base :: segment :: pending))
            else Err (SystemError code)
        | Ok (SymbolicLink _) =>
            match hops with
            | O => Err (too_many_links inputPath)
            | S hops =>
                link ← sys (readlinkSync candidate);
                resolve_loop cwd inputPath hops (js "/")
                  (splitAbsolutePath (path_resolve cwd [dirname candidate; link]) ++ pending)
            end
        | Ok _ => go candidate pending
        end
    end.

Definition resolvePathThroughExistingAncestor (cwd inputPath : jstring) : outcome thrown jstring :=
  resolve_loop cwd inputPath MAX_SYMLINK_HOPS (js "/") (splitAbsolutePath (path_resolve cwd [inputPath])).

Definition resolvePathForContainment (cwd inputPath : jstring) : outcome thrown jstring :=
  resolvePathThroughExistingAncestor cwd inputPath.

(** ** [workspaces/path.ts]; [homedir()] is a parameter. *)

Definition expandHome (homedir path : jstring) : jstring :=
  if bool_decide (path = js "~") then homedir
  else if starts_with (js "~/") path || starts_with (js "~\") path then path_join homedir (drop 2 path)
  else path.

Definition resolveWorkspacePath (cwd homedir path : jstring) (requireAbsolute : bool) : outcome thrown jstring :=
  match trim path with
  | [] => Err (WorkspacePathError (js "A directory path is required."))
  | _ =>
      let expandedPath := expandHome homedir path in
      if requireAbsolute && negb (isAbsolute expandedPath)
      then Err (WorkspacePathError (js "An absolute path is required."))
      else Ok (path_resolve cwd [expandedPath])
  end.

Definition resolveContainmentRoot (cwd homedir root : jstring) : outcome thrown jstring :=
  path ← resolveWorkspacePath cwd homedir root false; sys (realpathSync path).

Definition isInsideResolvedRoot (cwd resolvedRoot candidate : jstring) : outcome thrown bool :=
  isPathPrefix resolvedRoot <$> resolvePathForContainment cwd candidate.

Definition isInside (cwd homedir root candidate : jstring) : outcome thrown bool :=
  r ← resolveContainmentRoot cwd homedir root; isInsideResolvedRoot cwd r candidate.

(** ** [library/machine/path-safety.ts] *)

Definition LIBRARY_RESOURCE_SLUG_MAX_LENGTH : Z := 128.
Definition slug_class : regex := RClass [upper; lower; digit; (95, 95); (45, 45)].
Definition LIBRARY_RESOURCE_SLUG_PATTERN : regex :=
  RSeq (RPlus slug_class) (RStar (RSeq (RChar 46) (RPlus slug_class))).

Definition isValidResourceSlug (slug : jstring) : bool :=
  (zlen slug <=? LIBRARY_RESOURCE_SLUG_MAX_LENGTH) && matches LIBRARY_RESOURCE_SLUG_PATTERN slug.

Inductive LibraryWriteFailure : Type := invalid_slug | path_escape | unexpected_entry_type.

Record ContainedResourcePath : Type := { logicalPath : jstring; resolvedRoot : jstring; resolvedPath : jstring }.

(** The reason of the [LibraryWriteError] is modelled, its text is not. *)
Definition resolveContainedResourcePath (cwd locationRoot slug : jstring)
    : outcome LibraryWriteFailure ContainedResourcePath :=
  if negb (isAbsolute locationRoot) then Err path_escape
  else if negb (isValidResourceSlug slug) then Err invalid_slug
  else
    let logicalRoot := path_resolve cwd [locationRoot] in
    let logicalPath := path_join logicalRoot slug in
    match resolvePathThroughExistingAncestor cwd logicalRoot with
    | Err _ => Err path_escape
    | Ok resolvedRoot =>
        match resolvePathThroughExistingAncestor cwd logicalPath with
        | Err _ => Err path_escape
        | Ok resolvedPath =>
            if negb (isPathPrefix resolvedRoot resolvedPath) || bool_decide (resolvedPath = resolvedRoot)
            then Err path_escape
            else Ok {| logicalPath := logicalPath; resolvedRoot := resolvedRoot; resolvedPath := resolvedPath |}
        end
    end.

(** [assertExpectedResourceEntry]; [statSync] follows the last component too. *)
Definition statSync (path : jstring) : outcome jstring node :=
  p ← errno (walk absent KERNEL_LINKS [] (components path));
  match fs_node F p with Some n => Ok n | None => Err (js "ENOENT") end.

Definition assertExpectedResourceEntry (path : jstring) (directory : bool) : outcome LibraryWriteFailure unit :=
  match statSync path with
  | Err code => if bool_decide (code = js "ENOENT") then Ok () else Err unexpected_entry_type
  | Ok n =>
      if match n with Directory => directory | RegularFile => negb directory | _ => false end
      then Ok () else Err unexpected_entry_type
  end.

End Kernel.

(** ** Names and rendered paths *)

Definition name (x : jstring) : Prop := x <> [] /\ SLASH ∉ x /\ x <> js "." /\ x <> js "..".

Lemma name_not_here x : name x -> is_here x = false.
Proof. intros (H1 & _ & H2 & _). unfold is_here. by rewrite !bool_decide_eq_false_2. Qed.

Lemma segments_with_slashes x xs : Forall name (x :: xs) -> segments (with_slashes (x :: xs)) = x :: xs.
Proof.
  revert x. induction xs as [|y xs IH]; intros x H; inversion H as [|?? Hx Hr]; subst; [by apply segments_one, Hx|].
  change (with_slashes (x :: y :: xs)) with (x ++ SLASH :: with_slashes (y :: xs)).
  rewrite segments_app, IH, segments_one by (done || apply Hx). done.
Qed.

Lemma non_empty_names xs : Forall name xs -> non_empty xs = xs.
Proof. induction 1 as [|x xs Hx _ IH]; [done|]. cbn. rewrite bool_decide_eq_false_2 by apply Hx. cbn. by f_equal. Qed.

Lemma components_slashes xs : Forall name xs -> non_empty (segments (with_slashes xs)) = xs.
Proof. intros H. destruct xs as [|x xs]; [done|]. rewrite segments_with_slashes by done. by apply non_empty_names. Qed.

Lemma split_render xs : Forall name xs -> splitAbsolutePath (render xs) = xs.
Proof. apply components_slashes. Qed.

Lemma components_render xs : Forall name xs -> components (render xs) = xs.
Proof. apply components_slashes. Qed.

(** ** Lexical normalisation *)

Definition lexical (xs : list jstring) : list jstring := rev (fold_left (keep_segment false) xs []).

Lemma keep_here x acc : is_here x = true -> keep_segment false acc x = acc.
Proof. unfold keep_segment, is_here. by intros ->. Qed.

Lemma keep_name x acc : name x -> keep_segment false acc x = x :: acc.
Proof. intros H. unfold keep_segment. pose proof (name_not_here x H) as E. unfold is_here in E. rewrite E.
  rewrite bool_decide_eq_false_2 by apply H. done. Qed.

Lemma keep_up acc : keep_segment false acc (js "..") =
  match acc with y :: rest => if bool_decide (y = js "..") then acc else rest | [] => [] end.
Proof. done. Qed.

Lemma fold_names xs acc : Forall name xs -> fold_left (keep_segment false) xs acc = rev xs ++ acc.
Proof.
  intros H. revert acc. induction H as [|x xs Hx _ IH]; intros acc; [done|]. cbn [fold_left]. rewrite keep_name by done.
  rewrite IH. cbn. by rewrite <-app_assoc.
Qed.

Lemma lexical_names xs : Forall name xs -> lexical xs = xs.
Proof. intros H. unfold lexical. rewrite fold_names by done. by rewrite app_nil_r, rev_involutive. Qed.

Lemma fold_keep_names xs acc :
  Forall (fun x => SLASH ∉ x) xs -> Forall name acc -> Forall name (fold_left (keep_segment false) xs acc).
Proof.
  intros H. revert acc. induction H as [|x xs Hx _ IH]; intros acc Ha; [done|]. cbn [fold_left]. apply IH.
  destruct (is_here x) eqn:Eh; [by rewrite keep_here|]. destruct (decide (x = js "..")) as [->|Hd].
  - rewrite keep_up. destruct Ha as [|y acc Hy Ha]; [constructor|]. case_bool_decide; [by constructor|done].
  - assert (name x) as Hn; [|rewrite keep_name by done; by constructor]. unfold is_here in Eh. repeat split; try done; naive_solver.
Qed.

Lemma segments_no_slash s : Forall (fun x => SLASH ∉ x) (segments s).
Proof.
  induction s as [|c s IH]; cbn; [repeat constructor; apply not_elem_of_nil|].
  destruct (Z.eqb_spec c SLASH); [constructor; [apply not_elem_of_nil|done]|].
  destruct IH as [|x xs Hx Hxs]; [repeat constructor; set_solver|]. constructor; [set_solver|done].
Qed.

Lemma lexical_is_names xs : Forall (fun x => SLASH ∉ x) xs -> Forall name (lexical xs).
Proof. intros H. unfold lexical. apply Forall_rev, fold_keep_names; [done|constructor]. Qed.

(** ** What [resolve] answers *)

Lemma resolve_absolute cwd args :
  isAbsolute (resolve_scan cwd (rev args) []) = true ->
  path_resolve cwd args = render (lexical (segments (resolve_scan cwd (rev args) []))).
Proof. intros H. unfold path_resolve, lexical, normal_segments, render. by rewrite H. Qed.

(** Names below an absolute path. *)
Lemma scan_names cwd a xs acc :
  isAbsolute a = true -> Forall name xs ->
  isAbsolute (resolve_scan cwd (rev xs ++ [a]) acc) = true /\
  segments (resolve_scan cwd (rev xs ++ [a]) acc) = segments a ++ xs ++ segments acc.
Proof.
  intros Ha H. revert acc. induction xs as [|x xs IH] using rev_ind; intros acc.
  - destruct a as [|c a]; [done|]. cbn [rev app resolve_scan]. rewrite Ha. split; [done|].
    change (c :: a ++ SLASH :: acc) with ((c :: a) ++ SLASH :: acc). by rewrite segments_app.
  - apply Forall_app in H as [Hxs [Hx _]%Forall_cons]. rewrite rev_app_distr. cbn [rev app resolve_scan].
    destruct x as [|c x]; [by destruct Hx as [? _]|].
    replace (isAbsolute (c :: x)) with false by (symmetry; apply Z.eqb_neq; destruct Hx as (_ & Hs & _); set_solver).
    destruct (IH Hxs ((c :: x) ++ SLASH :: acc)) as [I1 I2]. split; [done|].
    rewrite I2, segments_app, (segments_one (c :: x)) by apply Hx. by rewrite <-!app_assoc.
Qed.

(** Empty and [.] components do not matter. *)
Definition clean (xs : list jstring) : list jstring := List.filter (fun x => negb (is_here x)) xs.

Lemma lexical_clean xs : lexical xs = lexical (clean xs).
Proof.
  unfold lexical. f_equal. generalize (@nil jstring). induction xs as [|x xs IH]; intros acc; [done|]. cbn.
  destruct (is_here x) eqn:E; cbn; [by rewrite keep_here|done].
Qed.

Lemma clean_app xs ys : clean (xs ++ ys) = clean xs ++ clean ys.
Proof. apply List.filter_app. Qed.

Lemma clean_names xs : Forall name xs -> clean xs = xs.
Proof. induction 1 as [|x xs Hx _ IH]; [done|]. cbn. rewrite name_not_here by done. cbn. by f_equal. Qed.

Lemma clean_render xs : Forall name xs -> clean (segments (render xs)) = xs.
Proof.
  intros H. unfold render. cbn. destruct xs as [|x xs]; [done|]. rewrite segments_with_slashes by done. by apply clean_names.
Qed.

Lemma resolve_names cwd cur xs :
  Forall name cur -> Forall name xs -> path_resolve cwd (render cur :: xs) = render (cur ++ xs).
Proof.
  intros Hc Hx. destruct (scan_names cwd (render cur) xs [] eq_refl Hx) as [S1 S2].
  rewrite resolve_absolute; cbn [rev]; [|done]. rewrite S2. f_equal. rewrite lexical_clean, !clean_app, clean_render by done.
  rewrite (clean_names xs) by done. cbn. rewrite app_nil_r. apply lexical_names. by apply Forall_app.
Qed.

Lemma scan_absolute cwd a rest acc : isAbsolute a = true -> resolve_scan cwd (a :: rest) acc = a ++ SLASH :: acc.
Proof. destruct a; [done|]. intros H. cbn [resolve_scan]. by rewrite H. Qed.

(** A link's target, against the directory that holds the link. *)
Lemma resolve_target cwd cur t :
  Forall name cur ->
  path_resolve cwd [render cur; t] = render (lexical ((if isAbsolute t then [] else cur) ++ segments t)).
Proof.
  intros Hc. assert (isAbsolute (render cur) = true) as Hr by done. pose proof (clean_render cur Hc) as Hcl.
  revert Hr Hcl. generalize (render cur) as r. intros r Hr Hcl.
  assert (exists s, resolve_scan cwd (rev [r; t]) [] = s /\ isAbsolute s = true /\
                    clean (segments s) = clean ((if isAbsolute t then [] else cur) ++ segments t)) as (s & Es & Ha & Hs).
  { cbn [rev app]. destruct (isAbsolute t) eqn:Et.
    - rewrite scan_absolute by done. eexists; split_and!; [done|by destruct t|]. rewrite segments_app, !clean_app. cbn. by rewrite app_nil_r.
    - assert (exists acc, resolve_scan cwd [t; r] [] = r ++ SLASH :: acc /\ clean (segments acc) = clean (segments t)) as (acc & -> & Hacc).
      { destruct t as [|c t]; cbn [resolve_scan]; rewrite ?Et; (destruct r as [|u r]; [done|]); rewrite Hr.
        - by exists [].
        - exists ((c :: t) ++ [SLASH]). split; [done|]. rewrite segments_app, clean_app. cbn [segments clean List.filter is_here]. apply app_nil_r. }
      eexists; split_and!; [done|by destruct r|]. by rewrite segments_app, !clean_app, Hcl, Hacc, (clean_names cur). }
  rewrite resolve_absolute by by rewrite Es. by rewrite Es, lexical_clean, Hs, <-lexical_clean.
Qed.

Lemma with_slashes_snoc cur x : cur <> [] -> with_slashes (cur ++ [x]) = with_slashes cur ++ SLASH :: x.
Proof.
  induction cur as [|y cur IH]; [done|]. intros _. destruct cur as [|z cur]; [done|].
  change (with_slashes ((y :: z :: cur) ++ [x])) with (y ++ SLASH :: with_slashes ((z :: cur) ++ [x])).
  rewrite IH by done. change (with_slashes (y :: z :: cur)) with (y ++ SLASH :: with_slashes (z :: cur)). by rewrite <-app_assoc.
Qed.

Lemma dirname_scan_name x r m :
  x <> [] \/ m = false -> SLASH ∉ x ->
  dirname_scan (x ++ SLASH :: r) m = match r with [] => None | _ => Some (length r) end.
Proof.
  revert m. induction x as [|c x IH]; intros m Hm Hx.
  - destruct Hm as [?| ->]; [done|]. cbn. by destruct r.
  - cbn. destruct (x ++ SLASH :: r) as [|u l] eqn:E; [by destruct x|].
    replace (c =? SLASH) with false by (symmetry; apply Z.eqb_neq; set_solver). apply IH; [by right|set_solver].
Qed.

Lemma no_slash_rev x : SLASH ∉ x -> SLASH ∉ rev x.
Proof. intros H E. apply H. rewrite !list_elem_of_In in *. by apply in_rev. Qed.

Lemma rev_nonempty {A} (x : list A) : x <> [] -> rev x <> [].
Proof. intros H E. apply H. by rewrite <-(rev_involutive x), E. Qed.

Lemma dirname_render cur x : Forall name cur -> name x -> dirname (render (cur ++ [x])) = render cur.
Proof.
  intros Hc (Hx & Hs & _). unfold dirname, render. destruct cur as [|y cur].
  - cbn [app with_slashes rev]. by rewrite dirname_scan_name by auto using no_slash_rev, rev_nonempty.
  - rewrite with_slashes_snoc by done. rewrite app_comm_cons, rev_app_distr. cbn [rev]. rewrite <-app_assoc. cbn [app].
    rewrite dirname_scan_name by auto using no_slash_rev, rev_nonempty.
    assert (y <> []) as Hy by (apply Forall_cons in Hc as [[? _] _]; done).
    destruct (rev (with_slashes (y :: cur)) ++ [SLASH]) as [|u l] eqn:E; [by destruct (rev (with_slashes (y :: cur)))|].
    rewrite <-E, length_app, length_rev. destruct (with_slashes (y :: cur)) as [|v w] eqn:Ew.
    { destruct cur; cbn in Ew; [done|]. by destruct y. }
    cbn [length isAbsolute]. replace (S (length w) + 1 =? 1)%nat with false by (symmetry; apply Nat.eqb_neq; lia).
    rewrite andb_false_r, !app_comm_cons, take_app_le by (cbn; lia). apply take_ge. cbn. lia.
Qed.

(** ** The walk *)

Section Resolution.
  Context (F : FileSystem).

(** A path the loop has reached: names down to a directory or a file. *)
Definition reached (cur : list jstring) : Prop :=
  Forall name cur /\ (fs_node F cur = Some Directory \/ fs_node F cur = Some RegularFile).

Definition walked (cur : list jstring) : Prop := Forall name cur /\ fs_node F cur = Some Directory.

Lemma walked_root : walked [].
Proof. split; [constructor|apply fs_root]. Qed.

Lemma reached_parent cur x : reached (cur ++ [x]) -> walked cur /\ name x.
Proof.
  intros [[Hc Hx%Forall_cons]%Forall_app Hn]. split; [|apply Hx]. split; [done|]. apply (fs_parent F cur x).
  destruct Hn as [->| ->]; eauto.
Qed.

Lemma walked_parent cur : walked cur -> walked (removelast cur).
Proof.
  intros H. destruct cur as [|x cur _] using rev_ind; [done|]. rewrite removelast_last.
  by apply (reached_parent cur x); destruct H; split; [|left].
Qed.

(** One step of the walk on a name. *)
Lemma walk_name m l cur x rest :
  name x -> walk F m l cur (x :: rest) =
    match fs_node F (cur ++ [x]) with
    | None => m cur (x :: rest)
    | Some Directory => walk F m l (cur ++ [x]) rest
    | Some RegularFile => match rest with [] => Ok (cur ++ [x]) | _ => Err (Code (js "ENOTDIR")) end
    | Some (Unreadable code) => Err (Code code)
    | Some (SymbolicLink target) =>
        match l with
        | O => Err LinkLimit
        | S l => walk F m l (if isAbsolute target then [] else cur) (segments target ++ rest)
        end
    end.
Proof.
  intros H. destruct l; cbn [walk]; rewrite (name_not_here x H), (bool_decide_eq_false_2 (x = js "..")) by apply H; done.
Qed.

Lemma walk_here m l cur x rest : is_here x = true -> walk F m l cur (x :: rest) = walk F m l cur rest.
Proof. intros H. destruct l; cbn [walk]; by rewrite H. Qed.

Lemma walk_up m l cur rest : walk F m l cur (js ".." :: rest) = walk F m l (removelast cur) rest.
Proof. by destruct l. Qed.

(** Directories already reached are walked again without following a link. *)
Lemma walk_again m l cur rest : walked cur -> walk F m l [] (cur ++ rest) = walk F m l cur rest.
Proof.
  revert rest. induction cur as [|x cur IH] using rev_ind; intros rest H; [done|]. rewrite <-app_assoc. cbn [app].
  destruct (reached_parent cur x) as [Hc Hx]; [by destruct H; split; [|left]|].
  rewrite IH, walk_name by done. by rewrite (proj2 H).
Qed.

Lemma walk_reached m l cur : reached cur -> walk F m l [] cur = Ok cur.
Proof.
  intros H. destruct cur as [|x cur _] using rev_ind; [by destruct l|]. destruct (reached_parent cur x H) as [Hc Hx].
  rewrite walk_again, walk_name by done. destruct H as [_ [-> | ->]]; [by destruct l|done].
Qed.

Lemma realpath_reached cur : reached cur -> realpathSync F (render cur) = Ok (render cur).
Proof. intros H. unfold realpathSync. rewrite components_render by apply H. by rewrite walk_reached. Qed.

(** Inspecting a component below a path the loop has reached. *)
Lemma lstat_below cur x :
  reached cur -> name x ->
  lstatSync F (render (cur ++ [x])) =
    match fs_node F cur, fs_node F (cur ++ [x]) with
    | Some Directory, None => Err (js "ENOENT")
    | Some Directory, Some (Unreadable code) => Err code
    | Some Directory, Some n => Ok n
    | _, _ => Err (js "ENOTDIR")
    end.
Proof.
  intros H Hx. unfold lstatSync. rewrite components_render by (apply Forall_app; split; [apply H|by repeat constructor; apply Hx]).
  rewrite last_snoc, removelast_last, walk_reached by done. cbn [errno].
  assert (bool_decide (x = js ".") || bool_decide (x = js "..") = false) as E.
  { rewrite !bool_decide_eq_false_2 by apply Hx. done. }
  change (Ok cur ≫= ?f) with (f cur). cbn beta. rewrite E. by destruct (fs_node F cur) as [[]|].
Qed.

(** ** Plain paths

    [resolve] removes [a/..] by its text. The kernel walks through [a], which may be a link: the two agree when no [..]
    follows a name. [resolve] also drops empty and [.] components, on which the kernel insists that what comes before is a
    directory. In a plain path all of these come before the first name: no [..] or [.] after a name, no doubled slash, and
    no slash at the end. *)

Fixpoint plain_path (xs : list jstring) : bool :=
  match xs with
  | [] => true
  | x :: rest =>
      if is_here x || bool_decide (x = js "..") then plain_path rest
      else forallb (fun y => negb (is_here y || bool_decide (y = js ".."))) rest
  end.

Definition plain_links : Prop := forall p t, fs_node F p = Some (SymbolicLink t) -> plain_path (segments t) = true.

Lemma other_is_name x : SLASH ∉ x -> is_here x || bool_decide (x = js "..") = false -> name x.
Proof. unfold is_here. intros Hs H. repeat split; [|done|..]; intros ->; done. Qed.

Lemma plain_names xs :
  Forall (fun x => SLASH ∉ x) xs -> forallb (fun y => negb (is_here y || bool_decide (y = js ".."))) xs = true -> Forall name xs.
Proof.
  induction 1 as [|x xs Hx _ IH]; cbn; [constructor|]. intros [H1%negb_true_iff H2]%andb_true_iff.
  constructor; [by apply other_is_name|by apply IH].
Qed.

Lemma lexical_up cur x rest : Forall name (cur ++ [x]) -> lexical ((cur ++ [x]) ++ js ".." :: rest) = lexical (cur ++ rest).
Proof.
  intros H. unfold lexical. rewrite !fold_left_app. f_equal. cbn [fold_left]. f_equal.
  apply Forall_app in H as [Hc Hx%Forall_cons]. rewrite (keep_name x) by apply Hx. rewrite keep_up, bool_decide_eq_false_2 by apply Hx. done.
Qed.

Lemma walk_plain m l xs cur rest :
  walked cur -> Forall (fun x => SLASH ∉ x) xs -> plain_path xs = true ->
  walk F m l [] (lexical (cur ++ xs) ++ rest) = walk F m l cur (xs ++ rest).
Proof.
  revert cur. induction xs as [|x xs IH]; intros cur Hc Hs Hp.
  { rewrite app_nil_r, lexical_names by apply Hc. by apply walk_again. }
  apply Forall_cons in Hs as [Hx Hs]. cbn [plain_path] in Hp. destruct (is_here x) eqn:Eh; cbn [orb] in Hp.
  - cbn [app]. rewrite walk_here, <-IH by done. f_equal. f_equal.
    rewrite lexical_clean, (lexical_clean (cur ++ xs)), !clean_app. f_equal. f_equal. cbn. by rewrite Eh.
  - case_bool_decide as Eu; subst.
    + cbn [app]. rewrite walk_up, <-IH by (done || by apply walked_parent).
      destruct cur as [|y cur _] using rev_ind; [done|]. rewrite removelast_last, lexical_up by apply Hc. done.
    + assert (Forall name (x :: xs)) as Hn.
      { constructor; [apply other_is_name; [done|by rewrite Eh, bool_decide_eq_false_2]|by apply plain_names]. }
      rewrite lexical_names by (apply Forall_app; split; [apply Hc|done]). rewrite <-app_assoc. by apply walk_again.
Qed.

(** ** The loop is the kernel's walk *)

(** What the caller sees of where a walk ended. *)
Definition told (inputPath : jstring) (o : outcome walk_error (list jstring)) : outcome thrown jstring :=
  match o with
  | Ok q => Ok (render q)
  | Err LinkLimit => Err (too_many_links inputPath)
  | Err (Code code) => Err (SystemError code)
  end.

Lemma loop_cons cwd input h cur x rest :
  reached cur -> name x ->
  resolve_loop F cwd input h (render cur) (x :: rest) =
    match lstatSync F (render (cur ++ [x])) with
    | Err code =>
        if bool_decide (code = js "ENOENT") then Ok (path_resolve cwd (render cur :: x :: rest)) else Err (SystemError code)
    | Ok (SymbolicLink _) =>
        match h with
        | O => Err (too_many_links input)
        | S h =>
            link ← sys (readlinkSync F (render (cur ++ [x])));
            resolve_loop F cwd input h (render [])
              (splitAbsolutePath (path_resolve cwd [dirname (render (cur ++ [x])); link]) ++ rest)
        end
    | Ok _ => resolve_loop F cwd input h (render (cur ++ [x])) rest
    end.
Proof.
  intros H Hx. assert (path_resolve cwd [render cur; x] = render (cur ++ [x])) as E.
  { apply resolve_names; [apply H|by repeat constructor; apply Hx]. }
  pose proof (realpath_reached cur H) as R.
  destruct h; cbn [resolve_loop]; rewrite E, R; reflexivity.
Qed.

Lemma loop_lands cwd input h cur pending :
  plain_links -> walked cur -> Forall name pending ->
  resolve_loop F cwd input h (render cur) pending = told input (land F h cur pending).
Proof.
  intros Hl. revert cur pending. induction h as [h IHh] using lt_wf_ind. intros cur pending.
  revert cur. induction pending as [|x rest IH]; intros cur Hc Hp.
  { destruct h; cbn [resolve_loop]; rewrite realpath_reached by (destruct Hc; split; [done|by left]); done. }
  assert (reached cur) as Hr by (destruct Hc; split; [done|by left]). apply Forall_cons in Hp as [Hx Hp].
  assert (Forall name (cur ++ [x])) as Hcx by (apply Forall_app; split; [apply Hc|by constructor]).
  unfold land in *. rewrite loop_cons, walk_name, lstat_below, (proj2 Hc) by done.
  destruct (fs_node F (cur ++ [x])) as [[| |t|code]|] eqn:En.
  - apply IH; [by split|done].
  - destruct rest as [|y rest].
    + destruct h; cbn [resolve_loop]; rewrite realpath_reached by (split; [done|by right]); done.
    + assert (reached (cur ++ [x])) as Hf by (split; [done|by right]). apply Forall_cons in Hp as [Hy Hp].
      rewrite loop_cons, lstat_below, En by done. done.
  - destruct h as [|h]; [done|]. assert (readlinkSync F (render (cur ++ [x])) = Ok t) as ->.
    { unfold readlinkSync. by rewrite lstat_below, (proj2 Hc), En by done. }
    change (sys (Ok t) ≫= ?f) with (f t). cbn beta.
    rewrite dirname_render, resolve_target by (done || apply Hc). set (base := if isAbsolute t then [] else cur). assert (walked base) as Hb by (unfold base; destruct (isAbsolute t); [apply walked_root|done]).
    pose proof (segments_no_slash t) as Hs.
    assert (Forall name (lexical (base ++ segments t))) as Hn.
    { apply lexical_is_names, Forall_app. split; [|done]. eapply Forall_impl; [apply Hb|]. by intros ? (_ & ? & _). }
    rewrite split_render by done. rewrite (IHh h); [|lia|apply walked_root|by apply Forall_app].
    f_equal. apply walk_plain; [done|done|by apply (Hl _ _ En)].
  - rewrite bool_decide_eq_false_2; [done|]. by apply (fs_present F (cur ++ [x])).
  - rewrite resolve_names by (apply Hc || by constructor). done.
Qed.

Lemma absolute_scan cwd p : isAbsolute cwd = true -> isAbsolute (resolve_scan cwd [p] []) = true.
Proof.
  intros H. destruct p as [|c p]; cbn [resolve_scan]; [by destruct cwd|]. destruct (isAbsolute (c :: p)) eqn:E; [done|by destruct cwd].
Qed.

(** The components of the path that [resolve] makes of its argument. *)
Definition resolved_components (cwd p : jstring) : list jstring := lexical (segments (resolve_scan cwd [p] [])).

Lemma resolve_one cwd p : isAbsolute cwd = true -> path_resolve cwd [p] = render (resolved_components cwd p).
Proof. intros H. apply resolve_absolute. by apply absolute_scan. Qed.

Lemma resolved_names cwd p : Forall name (resolved_components cwd p).
Proof. apply lexical_is_names, segments_no_slash. Qed.

Lemma resolve_lands cwd p :
  plain_links -> isAbsolute cwd = true ->
  resolvePathThroughExistingAncestor F cwd p = told p (land F MAX_SYMLINK_HOPS [] (resolved_components cwd p)).
Proof.
  intros Hl Hc. unfold resolvePathThroughExistingAncestor. rewrite resolve_one, split_render by (done || apply resolved_names).
  change (js "/") with (render []). apply loop_lands; [done|apply walked_root|apply resolved_names].
Qed.

(** Where the kernel starts on a path, and what a working directory is: [process.cwd()] is the path of a directory
    without links in it. *)
Definition starts_at (cwd p : jstring) : list jstring := if isAbsolute p then [] else components cwd.

Definition real_directory (cwd : jstring) : Prop := exists cur, cwd = render cur /\ walked cur.

Lemma starts_walked cwd p : real_directory cwd -> walked (starts_at cwd p).
Proof.
  intros (cur & -> & Hc). unfold starts_at. destruct (isAbsolute p); [apply walked_root|]. by rewrite components_render by apply Hc.
Qed.

Lemma resolved_start cwd p : real_directory cwd -> resolved_components cwd p = lexical (starts_at cwd p ++ segments p).
Proof.
  intros (cur & -> & Hc & _). unfold starts_at. rewrite components_render by done. pose proof (resolve_target (render cur) cur p Hc) as T.
  assert (path_resolve (render cur) [p] = path_resolve (render cur) [render cur; p]) as E.
  { unfold path_resolve. cbn [rev app]. replace (resolve_scan (render cur) [p; render cur] []) with (resolve_scan (render cur) [p] []); [done|].
    destruct p as [|c p]; [done|]. cbn [resolve_scan]. by destruct (isAbsolute (c :: p)). }
  rewrite <-E, resolve_one in T by done. apply (f_equal splitAbsolutePath) in T.
  rewrite !split_render in T; [done| |apply resolved_names].
  apply lexical_is_names, Forall_app. split; [|apply segments_no_slash]. destruct (isAbsolute p); [constructor|].
  eapply Forall_impl; [exact Hc|]. by intros ? (_ & ? & _).
Qed.

(** ** Where walks end *)

(** A link followed from a directory: the same walk from the root, over names. *)
Lemma walk_link m l cur t rest p :
  plain_links -> walked cur -> fs_node F p = Some (SymbolicLink t) ->
  exists xs, Forall name xs /\ walk F m l (if isAbsolute t then [] else cur) (segments t ++ rest) = walk F m l [] (xs ++ rest).
Proof.
  intros Hl Hc Hp. set (base := if isAbsolute t then [] else cur).
  assert (walked base) as Hb by (unfold base; destruct (isAbsolute t); [apply walked_root|done]).
  exists (lexical (base ++ segments t)). pose proof (segments_no_slash t) as Hs. split.
  - apply lexical_is_names, Forall_app. split; [|done]. eapply Forall_impl; [apply Hb|]. by intros ? (_ & ? & _).
  - symmetry. apply walk_plain; [done|done|by apply (Hl p)].
Qed.

Lemma land_names h cur pending q :
  plain_links -> walked cur -> Forall name pending -> land F h cur pending = Ok q -> Forall name q.
Proof.
  intros Hl. revert cur pending. induction h as [h IHh] using lt_wf_ind. intros cur pending.
  revert cur. induction pending as [|x rest IH]; intros cur Hc Hp E; unfold land in *.
  { destruct h; injection E as <-; apply Hc. }
  apply Forall_cons in Hp as [Hx Hp]. rewrite walk_name in E by done.
  assert (Forall name (cur ++ [x])) as Hcx by (apply Forall_app; split; [apply Hc|by constructor]).
  destruct (fs_node F (cur ++ [x])) as [[| |t|code]|] eqn:En.
  - apply (IH (cur ++ [x])); [by split|done|done].
  - destruct rest; [by injection E as <-|done].
  - destruct h as [|h]; [done|]. destruct (walk_link (fun c p => Ok (c ++ p)) h cur t rest _ Hl Hc En) as (xs & Hxs & Ew).
    rewrite Ew in E. apply (IHh h) in E; [done|lia|apply walked_root|by apply Forall_app].
  - done.
  - injection E as <-. apply Forall_app. split; [apply Hc|by constructor].
Qed.

(** [realpath] answers a path of names, whatever the links hold. *)
Lemma walk_absent_names l cur pending q :
  Forall name cur -> Forall (fun x => SLASH ∉ x) pending -> walk F absent l cur pending = Ok q -> Forall name q.
Proof.
  revert cur pending. induction l as [l IHl] using lt_wf_ind. intros cur pending.
  revert cur. induction pending as [|x rest IH]; intros cur Hc Hp E; [by destruct l; injection E as <-|].
  apply Forall_cons in Hp as [Hx Hp]. destruct (is_here x) eqn:Eh; [rewrite walk_here in E by done; by apply (IH cur)|].
  destruct (decide (x = js "..")) as [->|Hu].
  { rewrite walk_up in E. apply (IH (removelast cur)); [|done|done].
    destruct cur as [|y cur _] using rev_ind; [done|]. rewrite removelast_last. by apply Forall_app in Hc as [? _]. }
  assert (name x) as Hn by (apply other_is_name; [done|by rewrite Eh, bool_decide_eq_false_2]).
  assert (Forall name (cur ++ [x])) as Hcx by (apply Forall_app; split; [done|by constructor]).
  rewrite walk_name in E by done. destruct (fs_node F (cur ++ [x])) as [[| |t|code]|]; [by apply (IH (cur ++ [x]))| | |done|done].
  - destruct rest; [by injection E as <-|done].
  - destruct l as [|l]; [done|]. apply (IHl l) in E; [done|lia|by destruct (isAbsolute t)|].
    apply Forall_app; split; [apply segments_no_slash|done].
Qed.

Lemma realpath_names p r : realpathSync F p = Ok r -> exists xs, r = render xs /\ Forall name xs.
Proof.
  unfold realpathSync. destruct (walk F absent KERNEL_LINKS [] (components p)) as [q|e] eqn:E; [|by destruct e].
  intros [= <-]. exists q. split; [done|]. apply walk_absent_names in E; [done|constructor|].
  unfold components, non_empty. apply Forall_forall. intros x Hx. rewrite list_elem_of_In, List.filter_In, <-list_elem_of_In in Hx.
  by apply (proj1 (Forall_forall _ _) (segments_no_slash p)), Hx.
Qed.

End Resolution.

(** ** Prefixes of paths *)

Lemma starts_with_spec p s : starts_with p s = true <-> exists k, s = p ++ k.
Proof.
  unfold starts_with. rewrite bool_decide_eq_true. split.
  - intros E. exists (drop (length p) s). by rewrite <-E at 1; rewrite take_drop.
  - intros [k ->]. by rewrite take_app_length.
Qed.

(** Below a root that is not ["/"], the text and the components agree. *)
Lemma prefix_components a b :
  a <> [] -> Forall name a -> Forall name b -> isPathPrefix (render a) (render b) = true <-> a `prefix_of` b.
Proof.
  intros Ha Na Nb. unfold isPathPrefix. rewrite orb_true_iff, bool_decide_eq_true, starts_with_spec. split.
  - intros [E|[k E]].
    + rewrite <-(split_render a), <-(split_render b), E by done. done.
    + unfold render in E. injection E as E. apply (f_equal segments) in E. rewrite <-app_assoc in E. cbn [app] in E.
      rewrite segments_app in E. destruct a as [|x a]; [done|]. rewrite (segments_with_slashes x a) in E by done.
      destruct b as [|y b]; [cbn in E; destruct (segments k) eqn:Ek; [by apply segments_nonempty in Ek|by destruct a]|].
      rewrite segments_with_slashes in E by done. rewrite E. by exists (segments k).
  - intros [k ->]. destruct k as [|y k]; [left; by rewrite app_nil_r|right].
    apply Forall_app in Nb as [_ Nk]. exists (with_slashes (y :: k)). unfold render. cbn [app]. f_equal. rewrite <-app_assoc. cbn [app].
    clear Na Nk. induction a as [|x a IH]; [done|]. destruct a as [|z a]; [done|].
    change (with_slashes ((x :: z :: a) ++ y :: k)) with (x ++ SLASH :: with_slashes ((z :: a) ++ y :: k)). rewrite IH by done.
    change (with_slashes (x :: z :: a)) with (x ++ SLASH :: with_slashes (z :: a)). by rewrite <-app_assoc.
Qed.

(** ** Resource slugs *)

Fixpoint alphabet (r : regex) : list (Z * Z) :=
  match r with
  | RNone | REps => []
  | RClass ranges => ranges
  | RSeq r1 r2 | RAlt r1 r2 => alphabet r1 ++ alphabet r2
  | RStar r => alphabet r
  end.

Lemma lang_alphabet r s : lang r s -> Forall (fun c => in_class (alphabet r) c = true) s.
Proof.
  induction 1; cbn; rewrite ?Forall_app; try (by repeat constructor); unfold in_class in *;
    repeat split; try done; eapply Forall_impl; try eassumption; cbn; intros; rewrite existsb_app; apply orb_true_iff; auto.
Qed.

Lemma slug_is_name slug : isValidResourceSlug slug = true -> name slug.
Proof.
  intros [_ H%matches_lang]%andb_true_iff. pose proof (lang_alphabet _ _ H) as Ha.
  apply lang_seq in H as (s & t & -> & (part & parts & -> & [(c & -> & Hc)%lang_class _]%Forall_cons)%lang_plus & _).
  cbn [concat app] in *. repeat split; [done| |by intros [= -> _]|by intros [= -> _]].
  intros Hs. by apply (proj1 (Forall_forall _ _) Ha) in Hs.
Qed.

Lemma join_render X slug : Forall name X -> name slug -> path_join (render X) slug = render (X ++ [slug]).
Proof.
  intros HX (H1 & H2 & H3 & H4). assert (lexical (segments (render X)) = X) as E by by rewrite lexical_clean, clean_render, lexical_names.
  rewrite join_segment by done. change (normal_segments (negb (isAbsolute (render X))) (render X)) with (lexical (segments (render X))).
  by rewrite E.
Qed.

Lemma resolved_render cwd Y : Forall name Y -> resolved_components cwd (render Y) = Y.
Proof.
  intros H. unfold resolved_components. rewrite scan_absolute by done. rewrite segments_app, lexical_clean, clean_app, clean_render by done.
  cbn. by rewrite app_nil_r, lexical_names.
Qed.

(** ** Theorems *)

(** C34: resolving a path follows symbolic links as the kernel does. Whatever the file system holds, dangling
    links, chains and cycles, files used as directories and entries that cannot be inspected, the answer is the place
    where the kernel lands for the path once [resolve] has normalised its text, with the missing components appended; it refuses
    with its own error exactly when more than thirty-two links are met, and passes any other system error on. When the
    path as given is plain, nothing is lost in the normalisation: the answer is where a write to the very path lands,
    walked from the working directory. Plain is every path whose [.], [..] and empty components all come before its first
    name, so neither [a/../b], where [a] may be a link, nor [a//b] nor [a/]; the targets of the links are assumed
    plain throughout. *)
Theorem resolution_follows_kernel F cwd inputPath :
  plain_links F -> isAbsolute cwd = true ->
  resolvePathThroughExistingAncestor F cwd inputPath =
    told inputPath (land F MAX_SYMLINK_HOPS [] (splitAbsolutePath (path_resolve cwd [inputPath]))) /\
  (real_directory F cwd -> plain_path (segments inputPath) = true ->
   resolvePathThroughExistingAncestor F cwd inputPath =
     told inputPath (land F MAX_SYMLINK_HOPS (starts_at cwd inputPath) (segments inputPath))).
Proof.
  intros Hl Hc. rewrite resolve_one, split_render by (done || apply resolved_names). rewrite resolve_lands by done. split; [done|].
  intros Hd Hp. rewrite (resolved_start F) by done. unfold land. pose proof (starts_walked F cwd inputPath Hd) as Hw.
  pose proof (walk_plain F (fun cur pending => Ok (cur ++ pending)) MAX_SYMLINK_HOPS (segments inputPath) _ [] Hw (segments_no_slash _) Hp) as E.
  rewrite !app_nil_r in E. by rewrite E.
Qed.

(** Containment is the kernel's. For a root other than the top of the file system, [isInside] is true exactly when the
    place where a write to the candidate lands has the root's real path as a prefix of its components: a link that leads
    out is seen, and a sibling whose name starts with the root's is not taken for a descendant. *)
Theorem inside_is_kernel_containment F cwd homedir root candidate top place :
  plain_links F -> isAbsolute cwd = true ->
  resolveContainmentRoot F cwd homedir root = Ok top -> top <> js "/" ->
  land F MAX_SYMLINK_HOPS [] (splitAbsolutePath (path_resolve cwd [candidate])) = Ok place ->
  isInside F cwd homedir root candidate = Ok (bool_decide (splitAbsolutePath top `prefix_of` place)).
Proof.
  intros Hl Hc Hr Ht. rewrite resolve_one, split_render by (done || apply resolved_names). intros Hp.
  unfold isInside. rewrite Hr. unfold resolveContainmentRoot in Hr. apply bind_ok in Hr as (path & _ & Hr).
  destruct (realpathSync F path) as [p|] eqn:Ep; [|done]. injection Hr as <-. apply realpath_names in Ep as (xs & -> & Hx).
  assert (xs <> []) as Hn by (intros ->; done). cbn [mbind outcome_bind].
  unfold isInsideResolvedRoot, resolvePathForContainment. rewrite resolve_lands, Hp, split_render by done. cbn. f_equal.
  apply eq_true_iff_eq. rewrite bool_decide_eq_true. apply prefix_components; [done|done|].
  by apply (land_names F) in Hp; [|done|apply walked_root|apply resolved_names].
Qed.

(** A library resource is written strictly below its location. When [resolveContainedResourcePath] accepts a slug, the
    location's root and the destination are the places where the kernel lands for [root] and [root/slug], and the
    destination has the root as a proper prefix, whatever links lie on the way. *)
Theorem contained_resource_inside F cwd locationRoot slug c :
  plain_links F -> isAbsolute cwd = true -> resolveContainedResourcePath F cwd locationRoot slug = Ok c ->
  let base := splitAbsolutePath (path_resolve cwd [locationRoot]) in
  exists top below, below <> [] /\
    logicalPath c = render (base ++ [slug]) /\ resolvedRoot c = render top /\ resolvedPath c = render (top ++ below) /\
    land F MAX_SYMLINK_HOPS [] base = Ok top /\ land F MAX_SYMLINK_HOPS [] (base ++ [slug]) = Ok (top ++ below).
Proof.
  intros Hl Hc H. unfold resolveContainedResourcePath in H. rewrite resolve_one in * by done. rewrite split_render by apply resolved_names.
  destruct (isAbsolute locationRoot); [|done]. destruct (isValidResourceSlug slug) eqn:Es; [|done]. cbn [negb] in H.
  apply slug_is_name in Es. pose proof (resolved_names cwd locationRoot) as Hb. set (base := resolved_components cwd locationRoot) in *.
  assert (Forall name (base ++ [slug])) as Hbs by (apply Forall_app; split; [done|by constructor]).
  rewrite join_render, !resolve_lands, !resolved_render in H by done.
  destruct (land F MAX_SYMLINK_HOPS [] base) as [top|[]] eqn:E1; [|done|done]. cbn [told] in H.
  destruct (land F MAX_SYMLINK_HOPS [] (base ++ [slug])) as [dest|[]] eqn:E2; [|done|done]. cbn [told] in H.
  destruct (isPathPrefix (render top) (render dest)) eqn:Ep; [|done]. cbn [negb orb] in H. case_bool_decide as Ed; [done|].
  injection H as <-. pose proof (land_names F _ _ _ _ Hl (walked_root F) Hb E1) as Nt.
  pose proof (land_names F _ _ _ _ Hl (walked_root F) Hbs E2) as Nd.
  destruct (decide (top = [])) as [->|Ht].
  { exfalso. unfold isPathPrefix in Ep. rewrite bool_decide_eq_false_2 in Ep by done. apply starts_with_spec in Ep as [k Ek].
    destruct dest as [|[|u y] dest]; [done|by apply Forall_cons in Nd as [[? _] _]|].
    apply Forall_cons in Nd as [(_ & Hs & _) _]. destruct dest; injection Ek as -> _; set_solver. }
  apply prefix_components in Ep as [below ->]; [|done..]. exists top, below. split_and!; try done. intros ->. by rewrite app_nil_r in Ed.
Qed.

(** ** Concrete file systems *)

Definition tree : Type := list (list jstring * node).

Definition tree_node (t : tree) (p : list jstring) : option node :=
  match p with
  | [] => Some Directory
  | _ => snd <$> List.find (fun e => bool_decide (e.1 = p)) t
  end.

Definition tree_ok (t : tree) : bool :=
  forallb (fun e => bool_decide (tree_node t (removelast e.1) = Some Directory) &&
                    match e.2 with Unreadable code => negb (bool_decide (code = js "ENOENT")) | _ => true end) t.

Lemma tree_in t p n : p <> [] -> tree_node t p = Some n -> (p, n) ∈ t.
Proof.
  intros Hp H. destruct p as [|x p]; [done|]. cbn [tree_node] in H.
  destruct (List.find _ t) as [[q m]|] eqn:E; [|done]. apply List.find_some in E as [Hin Hq]. injection H as <-.
  apply bool_decide_eq_true in Hq as <-. by apply list_elem_of_In.
Qed.

Lemma tree_parent t p x : tree_ok t = true -> is_Some (tree_node t (p ++ [x])) -> tree_node t p = Some Directory.
Proof.
  intros H [n Hn]. apply tree_in in Hn; [|by destruct p]. apply list_elem_of_In in Hn.
  apply (proj1 (forallb_forall _ _) H) in Hn. cbn in Hn. apply andb_true_iff in Hn as [Hn _].
  rewrite removelast_last in Hn. by apply bool_decide_eq_true in Hn.
Qed.

Lemma tree_present t p code : tree_ok t = true -> tree_node t p = Some (Unreadable code) -> code <> js "ENOENT".
Proof.
  intros H Hn. destruct p as [|x p]; [done|]. apply tree_in, list_elem_of_In in Hn; [|done].
  apply (proj1 (forallb_forall _ _) H) in Hn. cbn [fst snd] in Hn. apply andb_true_iff in Hn as [_ Hn]. intros ->. done.
Qed.

Definition tree_fs (t : tree) (H : tree_ok t = true) : FileSystem :=
  {| fs_node := tree_node t; fs_root := eq_refl; fs_parent := fun p x => tree_parent t p x H;
     fs_present := fun p code => tree_present t p code H |}.

Definition tree_plain (t : tree) : bool :=
  forallb (fun e => match e.2 with SymbolicLink target => plain_path (segments target) | _ => true end) t.

Lemma tree_plain_links t H : tree_plain t = true -> plain_links (tree_fs t H).
Proof.
  intros Hp p target Hn. change (tree_node t p = Some (SymbolicLink target)) in Hn. destruct p as [|x p]; [done|]. apply tree_in, list_elem_of_In in Hn; [|done].
  by apply (proj1 (forallb_forall _ _) Hp) in Hn.
Qed.

(** A workspace with a link out of it, one within it, a dangling one and a cycle. *)
Definition workspace_tree : tree :=
  [([js "w"], Directory); ([js "w"; js "src"], Directory); ([js "w"; js "out"], SymbolicLink (js "../etc"));
   ([js "w"; js "in"], SymbolicLink (js "./src")); ([js "w"; js "new"], SymbolicLink (js "/w/src/later"));
   ([js "w"; js "loop"], SymbolicLink (js "loop")); ([js "w2"], Directory); ([js "etc"], Directory);
   ([js "etc"; js "passwd"], RegularFile)].

Definition workspace : FileSystem := tree_fs workspace_tree eq_refl.

Lemma resolution_follows_kernel_witness :
  land workspace MAX_SYMLINK_HOPS [js "w"] [js ".."; js "w"; js "new"; js "x"] = Ok [js "w"; js "src"; js "later"; js "x"] /\
  resolvePathThroughExistingAncestor workspace (js "/w") (js "../w/new/x") = Ok (js "/w/src/later/x") /\
  resolvePathThroughExistingAncestor workspace (js "/w") (js "loop") = Err (too_many_links (js "loop")).
Proof.
  assert (plain_links workspace) as Hl by (apply tree_plain_links; reflexivity).
  split; [vm_compute; reflexivity|]. split.
  - rewrite (proj2 (resolution_follows_kernel workspace (js "/w") (js "../w/new/x") Hl eq_refl)); [vm_compute; reflexivity| |reflexivity].
    exists [js "w"]. split; [reflexivity|]. split; [|reflexivity]. repeat constructor; try discriminate. vm_compute. set_solver.
  - rewrite (proj1 (resolution_follows_kernel workspace (js "/w") (js "loop") Hl eq_refl)). vm_compute. reflexivity.
Defined.

Lemma inside_is_kernel_containment_witness :
  isInside workspace (js "/") (js "/home") (js "/w") (js "/w/out/passwd") = Ok false /\
  isInside workspace (js "/") (js "/home") (js "/w") (js "/w/in/a.ts") = Ok true /\
  isInside workspace (js "/") (js "/home") (js "/w") (js "/w2") = Ok false.
Proof.
  assert (plain_links workspace) as Hl by (apply tree_plain_links; reflexivity).
  split; [|split].
  - exact (inside_is_kernel_containment workspace (js "/") (js "/home") (js "/w") (js "/w/out/passwd") (js "/w")
             [js "etc"; js "passwd"] Hl eq_refl ltac:(vm_compute; reflexivity) ltac:(discriminate) ltac:(vm_compute; reflexivity)).
  - exact (inside_is_kernel_containment workspace (js "/") (js "/home") (js "/w") (js "/w/in/a.ts") (js "/w")
             [js "w"; js "src"; js "a.ts"] Hl eq_refl ltac:(vm_compute; reflexivity) ltac:(discriminate) ltac:(vm_compute; reflexivity)).
  - exact (inside_is_kernel_containment workspace (js "/") (js "/home") (js "/w") (js "/w2") (js "/w")
             [js "w2"] Hl eq_refl ltac:(vm_compute; reflexivity) ltac:(discriminate) ltac:(vm_compute; reflexivity)).
Defined.

Lemma contained_resource_inside_witness :
  exists c, resolveContainedResourcePath workspace (js "/") (js "/w/in") (js "my-skill") = Ok c /\
    exists top below, below <> [] /\ resolvedRoot c = render top /\ resolvedPath c = render (top ++ below).
Proof.
  eexists. split; [vm_compute; reflexivity|].
  destruct (contained_resource_inside workspace (js "/") (js "/w/in") (js "my-skill")
              {| logicalPath := js "/w/in/my-skill"; resolvedRoot := js "/w/src"; resolvedPath := js "/w/src/my-skill" |}
              ltac:(apply tree_plain_links; reflexivity) eq_refl ltac:(vm_compute; reflexivity))
    as (top & below & H1 & _ & H2 & H3 & _).
  exists top, below. split; [exact H1|]. split; [exact H2|exact H3].
Defined.

(** A link whose target goes up after a link: the text [l/../secret] is resolved to [/w/secret], which is inside the
    workspace, while opening it reaches [/etc/secret]. *)
Definition escape_tree : tree :=
  [([js "w"], Directory); ([js "w"; js "l"], SymbolicLink (js "/etc/d")); ([js "w"; js "esc"], SymbolicLink (js "l/../secret"));
   ([js "etc"], Directory); ([js "etc"; js "d"], Directory); ([js "etc"; js "secret"], RegularFile)].

Definition escape_fs : FileSystem := tree_fs escape_tree eq_refl.

Example link_dotdot_escapes :
  isInside escape_fs (js "/") (js "/home") (js "/w") (js "/w/esc") = Ok true /\
  land escape_fs MAX_SYMLINK_HOPS [] [js "w"; js "esc"] = Ok [js "etc"; js "secret"].
Proof. vm_compute. done. Qed.

(** The same of an input: it is compared by its text, before any link is followed. *)
Example input_dotdot_escapes :
  resolvePathThroughExistingAncestor escape_fs (js "/") (js "/w/l/../secret") = Ok (js "/w/secret") /\
  land escape_fs MAX_SYMLINK_HOPS [] (segments (js "/w/l/../secret")) = Ok [js "etc"; js "secret"].
Proof. vm_compute. done. Qed.

(** A slash after a file is dropped, where the kernel refuses. *)
Example trailing_slash_dropped :
  resolvePathThroughExistingAncestor escape_fs (js "/") (js "/etc/secret/") = Ok (js "/etc/secret") /\
  land escape_fs MAX_SYMLINK_HOPS [] (segments (js "/etc/secret/")) = Err (Code (js "ENOTDIR")).
Proof. vm_compute. done. Qed.

(** The top of the file system contains nothing but itself. *)
Example top_contains_nothing : isInside workspace (js "/") (js "/home") (js "/") (js "/w") = Ok false.
Proof. vm_compute. done. Qed.
