(* ===== verification/TerminalWire.v ===== *)
(** * The terminal socket's framing

    [apps/shared/src/terminal/wire.ts] and the parts of [terminal/schemas.ts] it uses: one type byte, then raw bytes, a
    JSON document or a 32-bit count. *)

From S2P Require Import Prelude Utf8 Regex Json JsonFacts Wire Frames Chunk.

(** ** [terminal/schemas.ts] *)

Definition HUB_WEBSOCKET_MAX_PAYLOAD_BYTES : Z := 16 * 1024.
Definition HUB_WEBSOCKET_BACKPRESSURE_LIMIT_BYTES : Z := 64 * 1024.

Definition TERMINAL_CHUNK_MAX_BYTES : Z := 8 * 1024.
Definition TERMINAL_CLIENT_MESSAGE_MAX_BYTES : Z := HUB_WEBSOCKET_MAX_PAYLOAD_BYTES.
Definition TERMINAL_HUB_QUEUE_MAX_BYTES : Z := 1024 * 1024.
Definition TERMINAL_SOCKET_SEND_HIGH_WATER_BYTES : Z := HUB_WEBSOCKET_BACKPRESSURE_LIMIT_BYTES / 4 * 3.

Definition TERMINAL_COLS_MIN : Z := 2.
Definition TERMINAL_COLS_MAX : Z := 500.
Definition TERMINAL_ROWS_MIN : Z := 1.
Definition TERMINAL_ROWS_MAX : Z := 300.
Definition TERMINAL_DEFAULT_COLS : Z := 80.
Definition TERMINAL_DEFAULT_ROWS : Z := 24.

Definition TerminalSizeSchema : schema :=
  SClosedObject [required (js "cols") (SInteger (Some TERMINAL_COLS_MIN) (Some TERMINAL_COLS_MAX));
                 required (js "rows") (SInteger (Some TERMINAL_ROWS_MIN) (Some TERMINAL_ROWS_MAX))].

Definition TerminalExitSchema : schema :=
  SClosedObject [required (js "exitCode") (SUnion [SInteger None None; SNull]);
                 required (js "signal") (SUnion [SString None (Some 32) None; SNull]);
                 optional (js "reason") (SLiteral (js "consent-revoked"))].

Definition TerminalNoticeSchema : schema :=
  SClosedObject [required (js "kind") (SUnion [SLiteral (js "dropped"); SLiteral (js "queue_overflow"); SLiteral (js "runtime_disconnected")]);
                 optional (js "bytes") (SInteger (Some 0) None)].

Record TerminalExit : Type := { te_exitCode : option Z; te_signal : option jstring; te_consentRevoked : bool }.

Inductive notice_kind : Type := nk_dropped | nk_queue_overflow | nk_runtime_disconnected.
Record TerminalNotice : Type := { tn_kind : notice_kind; tn_bytes : option Z }.

(** ** [terminal/wire.ts] *)

Inductive TerminalClientMessage : Type :=
| CData (data : bytes)
| CResize (cols rows : Z)
| CAck (count : jsnum)
| CPing.

Inductive TerminalServerMessage : Type :=
| SData (data : bytes)
| SExit (exit : TerminalExit)
| SNotice (notice : TerminalNotice)
| SPong.

Definition ACK_BODY_BYTES : Z := 4.
Definition MAX_ACK_BYTES : Z := 0xFFFFFFFF.

Definition withTypeByte (type : Z) (body : bytes) : bytes := type :: body.

(** The objects [JSON.stringify] is given. *)
Definition size_json (cols rows : Z) : json := JObj [(js "cols", JInt cols); (js "rows", JInt rows)].

Definition exit_json (x : TerminalExit) : json :=
  JObj ([(js "exitCode", match te_exitCode x with Some z => JInt z | None => JNull end);
         (js "signal", match te_signal x with Some s => JStr s | None => JNull end)] ++
        (if te_consentRevoked x then [(js "reason", JStr (js "consent-revoked"))] else [])).

Definition kind_text (k : notice_kind) : jstring :=
  match k with
  | nk_dropped => js "dropped"
  | nk_queue_overflow => js "queue_overflow"
  | nk_runtime_disconnected => js "runtime_disconnected"
  end.

Definition notice_json (n : TerminalNotice) : json :=
  JObj ((js "kind", JStr (kind_text (tn_kind n))) :: present (js "bytes") (tn_bytes n) JInt).

Definition json_body (v : json) : bytes := utf8_encode (stringify v).

Definition shown_number (n : jsnum) : jstring := match n with NInt z => dec z | NOther shown => shown end.

(** The thrown value is the message of the [TerminalWireError]. *)
Definition encodeTerminalClientMessage (m : TerminalClientMessage) : outcome jstring bytes :=
  match m with
  | CData data => Ok (withTypeByte 0 data)
  | CResize cols rows => Ok (withTypeByte 1 (json_body (size_json cols rows)))
  | CAck count =>
      let refused := Err (js "Terminal ack must be an integer between 0 and " ++ dec MAX_ACK_BYTES ++ js "; received "
                          ++ shown_number count ++ js ".") in
      match count with
      | NInt z => if (z <? 0) || (MAX_ACK_BYTES <? z) then refused else Ok (withTypeByte 2 (setUint32 z))
      | NOther _ => refused
      end
  | CPing => Ok (withTypeByte 3 [])
  end.

Definition encodeTerminalServerMessage (m : TerminalServerMessage) : bytes :=
  match m with
  | SData data => withTypeByte 0 data
  | SExit exit => withTypeByte 1 (json_body (exit_json exit))
  | SNotice notice => withTypeByte 2 (json_body (notice_json notice))
  | SPong => withTypeByte 3 []
  end.

Definition typeByteOf (b : bytes) (side : jstring) : outcome jstring Z :=
  match b with
  | [] => Err (js "Terminal " ++ side ++ js " message must carry a type byte; received 0 bytes.")
  | type :: _ => Ok type
  end.

(** What the typed result of a checked document is. *)
Definition size_of (v : json) : option (Z * Z) :=
  cols ← member (js "cols") v ≫= int_of; rows ← member (js "rows") v ≫= int_of; Some (cols, rows).

Definition nullable_of {A} (f : json -> option A) (v : json) : option (option A) :=
  match v with JNull => Some None | _ => Some <$> f v end.

Definition exit_of (v : json) : option TerminalExit :=
  code ← member (js "exitCode") v ≫= nullable_of int_of;
  signal ← member (js "signal") v ≫= nullable_of str_of;
  Some {| te_exitCode := code; te_signal := signal;
          te_consentRevoked := match member (js "reason") v with Some _ => true | None => false end |}.

Definition kind_of (s : jstring) : option notice_kind :=
  if bool_decide (s = js "dropped") then Some nk_dropped
  else if bool_decide (s = js "queue_overflow") then Some nk_queue_overflow
  else if bool_decide (s = js "runtime_disconnected") then Some nk_runtime_disconnected
  else None.

Definition notice_of (v : json) : option TerminalNotice :=
  kind ← (x ← member (js "kind") v; s ← str_of x; kind_of s);
  count ← opt_member (js "bytes") int_of v;
  Some {| tn_kind := kind; tn_bytes := count |}.

Section Codec.
  Context `{TypeBox}.

(** [parseJsonBody]: the parsed value, read as [T]. *)
Definition parseJsonBody {T} (read : json -> option T) (body : bytes) (s : schema) (name : jstring) : outcome jstring T :=
  match parse (decode_text body) with
  | None => Err (js "Terminal " ++ name ++ js " body must be JSON; received " ++ dec (zlen body) ++ js " undecodable bytes.")
  | Some parsed =>
      let refused := Err (js "Terminal " ++ name ++ js " body does not match its schema; received " ++ stringify parsed ++ js ".") in
      if check s parsed then match read parsed with Some t => Ok t | None => refused end else refused
  end.

Definition decodeTerminalClientMessage (b : bytes) : outcome jstring TerminalClientMessage :=
  if TERMINAL_CLIENT_MESSAGE_MAX_BYTES <? zlen b then
    Err (js "Terminal client message must be at most " ++ dec TERMINAL_CLIENT_MESSAGE_MAX_BYTES ++ js " bytes; received "
         ++ dec (zlen b) ++ js ".")
  else
    type ← typeByteOf b (js "client");
    let body := drop 1 b in
    if type =? 0 then Ok (CData body)
    else if type =? 1 then
      size ← parseJsonBody size_of body TerminalSizeSchema (js "resize"); Ok (CResize size.1 size.2)
    else if type =? 2 then
      if zlen body =? ACK_BODY_BYTES then Ok (CAck (NInt (getUint32 body 0)))
      else Err (js "Terminal ack body must be " ++ dec ACK_BODY_BYTES ++ js " bytes; received " ++ dec (zlen body) ++ js ".")
    else if type =? 3 then Ok CPing
    else Err (js "Terminal client frame type must be 0..3; received " ++ dec type ++ js ".").

Definition decodeTerminalServerMessage (b : bytes) : outcome jstring TerminalServerMessage :=
  type ← typeByteOf b (js "server");
  let body := drop 1 b in
  if type =? 0 then Ok (SData body)
  else if type =? 1 then SExit <$> parseJsonBody exit_of body TerminalExitSchema (js "exit")
  else if type =? 2 then SNotice <$> parseJsonBody notice_of body TerminalNoticeSchema (js "notice")
  else if type =? 3 then Ok SPong
  else Err (js "Terminal server frame type must be 0..3; received " ++ dec type ++ js ".").

End Codec.

(** The loop of [chunkTerminalBytes] from [offset] on; it runs at most once per byte. *)
Fixpoint chunk_loop (fuel : nat) (maxBytes : Z) (b : bytes) (offset : Z) : list bytes :=
  match fuel with
  | O => []
  | S fuel =>
      if offset <? zlen b
      then subarray offset (Z.min (offset + maxBytes) (zlen b)) b :: chunk_loop fuel maxBytes b (offset + maxBytes)
      else []
  end.

Definition chunkTerminalBytes (b : bytes) (maxBytes : jsnum) : outcome jstring (list bytes) :=
  let refused := Err (js "Terminal chunk size must be a positive integer; received " ++ shown_number maxBytes ++ js ".") in
  match maxBytes with
  | NInt z => if z <? 1 then refused else Ok (chunk_loop (length b) z b 0)
  | NOther _ => refused
  end.

(** ** Facts *)

Section Facts.
  Context `{TypeBox}.

(** The messages each side may send. *)
Definition client_ok (m : TerminalClientMessage) : Prop :=
  match m with
  | CResize cols rows => TERMINAL_COLS_MIN <= cols <= TERMINAL_COLS_MAX /\ TERMINAL_ROWS_MIN <= rows <= TERMINAL_ROWS_MAX
  | CAck (NInt z) => 0 <= z <= MAX_ACK_BYTES
  | CAck (NOther _) => False
  | _ => True
  end.

Definition server_ok (m : TerminalServerMessage) : Prop :=
  match m with
  | SExit x => match te_signal x with Some s => count s <= 32 | None => True end
  | SNotice n => match tn_bytes n with Some z => 0 <= z | None => True end
  | _ => True
  end.

(** A signal is a JavaScript string. *)
Definition typed (m : TerminalServerMessage) : Prop :=
  match m with SExit x => match te_signal x with Some s => forallb unit_ok s = true | None => True end | _ => True end.

Lemma decode_json_body v kvs : v = JObj kvs -> json_ok v = true -> parse (decode_text (json_body v)) = Some v.
Proof.
  intros -> Hv. unfold decode_text, json_body. rewrite stringify_utf8 by done. rewrite stringify_obj. apply parse_stringify in Hv.
  by rewrite stringify_obj in Hv.
Qed.

Lemma parse_body_ok {T} (read : json -> option T) kvs s name t :
  json_ok (JObj kvs) = true -> conforms count s (JObj kvs) = true -> read (JObj kvs) = Some t ->
  parseJsonBody read (json_body (JObj kvs)) s name = Ok t.
Proof.
  intros Hv Hc Hr. unfold parseJsonBody. rewrite (decode_json_body _ kvs), check_conforms, Hc, Hr by done. done.
Qed.

Lemma parse_body_inv {T} (read : json -> option T) body s name t :
  parseJsonBody read body s name = Ok t -> exists v, conforms count s v = true /\ read v = Some t.
Proof.
  unfold parseJsonBody. destruct (parse _) as [v|]; [|done]. rewrite check_conforms. destruct (conforms count s v) eqn:E; [|done].
  destruct (read v) eqn:R; [|done]. intros [= <-]. eauto.
Qed.

Lemma int_of_conforms lo hi v z : conforms count (SInteger lo hi) v = true -> int_of v = Some z -> at_least lo z = true /\ at_most hi z = true.
Proof. destruct v; cbn; try done. intros Hc Hz. rewrite Hz in Hc. by apply andb_true_iff. Qed.

(** Evaluates a document's members and schema down to the numbers in it. *)
Ltac eval_document :=
  cbv -[num_of_Z number_ok Z_of_num at_least at_most count] in *; rewrite ?num_of_Z_ok, ?Z_of_num_of_Z.

Lemma json_ok_members kvs :
  distinct (map fst kvs) = true -> forallb (forallb unit_ok) (map fst kvs) = true -> Forall (fun v => json_ok v = true) (map snd kvs) ->
  json_ok (JObj kvs) = true.
Proof.
  intros H1 H2 H3. cbn [json_ok]. rewrite H1. cbn [andb]. induction kvs as [|[k v] kvs IH]; [done|]. cbn in *.
  apply andb_true_iff in H1 as [_ H1], H2 as [-> H2]. apply Forall_cons in H3 as [-> H3]. by apply IH.
Qed.

Lemma at_bounds lo hi z : lo <= z <= hi -> at_least (Some lo) z = true /\ at_most (Some hi) z = true.
Proof. cbn. rewrite !Z.leb_le. done. Qed.

Lemma size_body cols rows :
  TERMINAL_COLS_MIN <= cols <= TERMINAL_COLS_MAX -> TERMINAL_ROWS_MIN <= rows <= TERMINAL_ROWS_MAX ->
  parseJsonBody size_of (json_body (size_json cols rows)) TerminalSizeSchema (js "resize") = Ok (cols, rows).
Proof.
  intros [C1 C2]%at_bounds [R1 R2]%at_bounds. apply parse_body_ok; eval_document; rewrite ?C1, ?C2, ?R1, ?R2; reflexivity.
Qed.

Lemma exit_body x :
  server_ok (SExit x) -> typed (SExit x) ->
  parseJsonBody exit_of (json_body (exit_json x)) TerminalExitSchema (js "exit") = Ok x.
Proof.
  destruct x as [code [s|] revoked]; intros Hs Ht.
  - assert (at_most (Some 32) (count s) = true) as Hc by by apply Z.leb_le. clear Hs. cbn [typed te_signal] in Ht.
    apply parse_body_ok.
    + apply json_ok_members; [by destruct code, revoked..|].
      destruct revoked; repeat constructor; try done; destruct code; try apply num_of_Z_ok; done.
    + clear Ht. destruct code, revoked; eval_document; rewrite ?Hc; reflexivity.
    + clear Ht Hc. destruct code, revoked; eval_document; reflexivity.
  - apply parse_body_ok; destruct code, revoked; eval_document; reflexivity.
Qed.

Lemma notice_body n :
  server_ok (SNotice n) -> parseJsonBody notice_of (json_body (notice_json n)) TerminalNoticeSchema (js "notice") = Ok n.
Proof.
  destruct n as [kind [z|]]; intros Hb.
  - assert (at_least (Some 0) z = true) as Hc by by apply Z.leb_le. clear Hb.
    apply parse_body_ok; destruct kind; eval_document; rewrite ?Hc; reflexivity.
  - apply parse_body_ok; destruct kind; eval_document; reflexivity.
Qed.

Lemma client_roundtrip m b :
  client_ok m -> encodeTerminalClientMessage m = Ok b -> zlen b <= TERMINAL_CLIENT_MESSAGE_MAX_BYTES ->
  decodeTerminalClientMessage b = Ok m.
Proof.
  intros Hm He Hb. unfold decodeTerminalClientMessage. rewrite (proj2 (Z.ltb_ge _ _)) by done.
  destruct m as [data|cols rows|[z|]|]; cbn [client_ok] in Hm; cbn [encodeTerminalClientMessage] in He; try done.
  - by injection He as <-.
  - injection He as <-. unfold withTypeByte. cbn -[parseJsonBody json_body size_json TerminalSizeSchema js].
    rewrite drop_0, size_body by apply Hm. done.
  - rewrite (proj2 (Z.ltb_ge z 0)), (proj2 (Z.ltb_ge MAX_ACK_BYTES z)) in He by lia. injection He as <-.
    change (Ok (CAck (NInt (getUint32 (setUint32 z) 0))) = Ok (CAck (NInt z)) :> outcome jstring _). f_equal. f_equal. f_equal.
    rewrite <-(app_nil_r (setUint32 z)). apply (getUint32_set [] z []). unfold MAX_ACK_BYTES in Hm. lia.
  - by injection He as <-.
Qed.

Lemma server_roundtrip m :
  server_ok m -> typed m -> decodeTerminalServerMessage (encodeTerminalServerMessage m) = Ok m.
Proof.
  intros Hm Ht. destruct m as [data|x|n|]; [done| | |done].
  - cbn -[parseJsonBody json_body exit_json TerminalExitSchema js]. rewrite drop_0, exit_body by done. done.
  - cbn -[parseJsonBody json_body notice_json TerminalNoticeSchema js]. rewrite drop_0, notice_body by done. done.
Qed.

(** ** Chunks *)

Lemma chunk_loop_spec fuel z b offset :
  1 <= z -> 0 <= offset -> zlen b - offset <= Z.of_nat fuel ->
  take (Z.to_nat offset) b ++ concat (chunk_loop fuel z b offset) = b /\
  Forall (fun c => 1 <= zlen c <= z) (chunk_loop fuel z b offset).
Proof.
  intros Hz. revert offset. induction fuel as [|fuel IH]; intros offset Ho Hf; cbn [chunk_loop].
  - cbn. rewrite app_nil_r, take_ge by (unfold zlen in Hf; lia). done.
  - destruct (Z.ltb_spec offset (zlen b)) as [Hl|Hl].
    + destruct (IH (offset + z)) as [I1 I2]; [lia|lia|]. cbn [concat].
      assert (take (Z.to_nat offset) b ++ subarray offset (Z.min (offset + z) (zlen b)) b = take (Z.to_nat (offset + z)) b) as E.
      { rewrite subarray_app by lia. destruct (Z.le_gt_cases (offset + z) (zlen b)); [by rewrite Z.min_l by lia|].
        rewrite Z.min_r by lia. rewrite !take_ge; [done|unfold zlen in *; lia..]. }
      rewrite app_assoc, E. split; [done|]. constructor; [|done]. rewrite zlen_subarray by lia. lia.
    + cbn. rewrite app_nil_r, take_ge by (unfold zlen in Hl; lia). done.
Qed.

(** ** What decoders let through *)

Lemma closed_member props v k s :
  conforms count (SClosedObject props) v = true -> (k, (true, s)) ∈ props -> exists x, member k v = Some x /\ conforms count s x = true.
Proof.
  destruct v; cbn [conforms]; try done. intros [H1 _]%andb_true_iff Hp%list_elem_of_In. apply (proj1 (forallb_forall _ _) H1) in Hp.
  cbn [fst snd] in Hp. destruct (member k (JObj kvs)); [eauto|done].
Qed.

Lemma closed_optional props v k s x :
  conforms count (SClosedObject props) v = true -> (k, (false, s)) ∈ props -> member k v = Some x -> conforms count s x = true.
Proof.
  destruct v; cbn [conforms]; try done. intros [H1 _]%andb_true_iff Hp%list_elem_of_In Hm. apply (proj1 (forallb_forall _ _) H1) in Hp.
  cbn [fst snd] in Hp. by rewrite Hm in Hp.
Qed.

Lemma size_sound v cols rows :
  conforms count TerminalSizeSchema v = true -> size_of v = Some (cols, rows) -> client_ok (CResize cols rows).
Proof.
  intros Hv Hs. destruct (closed_member _ v (js "cols") (SInteger (Some TERMINAL_COLS_MIN) (Some TERMINAL_COLS_MAX)) Hv ltac:(left)) as (x & Hx & Cx).
  destruct (closed_member _ v (js "rows") (SInteger (Some TERMINAL_ROWS_MIN) (Some TERMINAL_ROWS_MAX)) Hv ltac:(right; left)) as (y & Hy & Cy).
  unfold size_of in Hs. rewrite Hx, Hy in Hs. cbn [mbind option_bind] in Hs.
  destruct (int_of x) as [c|] eqn:Ex; [|done]. destruct (int_of y) as [r|] eqn:Ey; [|done]. cbn in Hs. injection Hs as <- <-.
  destruct (int_of_conforms _ _ _ _ Cx Ex) as [X1 X2], (int_of_conforms _ _ _ _ Cy Ey) as [Y1 Y2].
  apply Z.leb_le in X1, X2, Y1, Y2. done.
Qed.

Lemma uint32_bounds b : Forall is_byte b -> zlen b = 4 -> 0 <= getUint32 b 0 <= MAX_ACK_BYTES.
Proof.
  intros Hb Hl. destruct b as [|b0 [|b1 [|b2 [|b3 [|]]]]]; try (by unfold zlen in Hl; cbn in Hl; lia).
  repeat match goal with H : Forall is_byte (_ :: _) |- _ => apply Forall_cons in H as [? ?] end. unfold is_byte, getUint32, MAX_ACK_BYTES in *. cbn. lia.
Qed.

Lemma client_sound b m : Forall is_byte b -> decodeTerminalClientMessage b = Ok m -> client_ok m /\ zlen b <= TERMINAL_CLIENT_MESSAGE_MAX_BYTES.
Proof.
  unfold decodeTerminalClientMessage. intros Hb. destruct (Z.ltb_spec TERMINAL_CLIENT_MESSAGE_MAX_BYTES (zlen b)) as [|Hl]; [done|].
  intros (type & _ & Hd)%bind_ok. split; [|done]. revert Hd.
  destruct (type =? 0); [by intros [= <-]|]. destruct (type =? 1).
  { intros ([c r] & (v & Hv & Hs)%parse_body_inv & [= <-])%bind_ok. by apply (size_sound v). }
  destruct (type =? 2).
  { destruct (Z.eqb_spec (zlen (drop 1 b)) ACK_BODY_BYTES) as [E|]; [|done]. intros [= <-]. apply uint32_bounds; [by apply Forall_drop|done]. }
  by destruct (type =? 3); [intros [= <-]|].
Qed.

Lemma server_sound b m : decodeTerminalServerMessage b = Ok m -> server_ok m.
Proof.
  unfold decodeTerminalServerMessage. intros (type & _ & Hd)%bind_ok. revert Hd.
  destruct (type =? 0); [by intros [= <-]|]. destruct (type =? 1).
  { destruct (parseJsonBody _ _ _ _) as [x|] eqn:E; [|done]. intros [= <-]. apply parse_body_inv in E as (v & Hv & Hx). unfold exit_of in Hx.
    destruct (closed_member _ v (js "signal") (SUnion [SString None (Some 32) None; SNull]) Hv ltac:(right; left)) as (y & Hy & Cy). rewrite Hy in Hx.
    destruct (member (js "exitCode") v ≫= nullable_of int_of) as [code|]; [|done]. cbn [mbind option_bind] in Hx.
    destruct (nullable_of str_of y) as [signal|] eqn:Es; [|done]. injection Hx as <-. cbn [server_ok te_signal].
    destruct y; try done; injection Es as <-; [done|]. cbn in Cy. rewrite andb_true_r, orb_false_r in Cy. by apply Z.leb_le. }
  destruct (type =? 2).
  { destruct (parseJsonBody _ _ _ _) as [n|] eqn:E; [|done]. intros [= <-]. apply parse_body_inv in E as (v & Hv & Hn). unfold notice_of in Hn.
    destruct (x ← member (js "kind") v; s ← str_of x; kind_of s) as [k|]; [|done]. cbn [mbind option_bind] in Hn.
    unfold opt_member in Hn. destruct (member (js "bytes") v) as [y|] eqn:Ey.
    - pose proof (closed_optional _ v (js "bytes") (SInteger (Some 0) None) y Hv ltac:(right; left) Ey) as Cy. destruct (int_of y) as [z|] eqn:Ez; [|done].
      injection Hn as <-. destruct (int_of_conforms _ _ _ _ Cy Ez) as [L _]. by apply Z.leb_le in L.
    - by injection Hn as <-. }
  by destruct (type =? 3); [intros [= <-]|].
Qed.

End Facts.

(** ** Frames *)

Section Frames.
  Context `{TypeBox}.

(** What the bytes of a frame say, stated without the decoders: its type byte, and the body that goes with it. The body
    of a ping or a pong is not read. A document is any JSON text of an object its schema admits. *)
Definition document (s : schema) (body : bytes) (v : json) : Prop :=
  parse (decode_text body) = Some v /\ conforms count s v = true.

Definition client_frame (m : TerminalClientMessage) (b : bytes) : Prop :=
  zlen b <= TERMINAL_CLIENT_MESSAGE_MAX_BYTES /\
  match m with
  | CData data => b = 0 :: data
  | CResize cols rows => exists body v, b = 1 :: body /\ document TerminalSizeSchema body v /\ size_of v = Some (cols, rows)
  | CAck (NInt z) => 0 <= z <= MAX_ACK_BYTES /\ b = 2 :: setUint32 z
  | CAck (NOther _) => False
  | CPing => exists body, b = 3 :: body
  end.

Definition server_frame (m : TerminalServerMessage) (b : bytes) : Prop :=
  match m with
  | SData data => b = 0 :: data
  | SExit x => exists body v, b = 1 :: body /\ document TerminalExitSchema body v /\ exit_of v = Some x
  | SNotice n => exists body v, b = 2 :: body /\ document TerminalNoticeSchema body v /\ notice_of v = Some n
  | SPong => exists body, b = 3 :: body
  end.

Lemma parse_body_exact {T} (read : json -> option T) body s name t :
  parseJsonBody read body s name = Ok t <-> exists v, document s body v /\ read v = Some t.
Proof.
  unfold parseJsonBody, document. split.
  - destruct (parse _) as [v|]; [|done]. rewrite check_conforms. destruct (conforms count s v) eqn:E; [|done].
    destruct (read v) eqn:R; [|done]. intros [= <-]. eauto.
  - intros (v & [-> Hc] & Hr). by rewrite check_conforms, Hc, Hr.
Qed.

Lemma uint32_read body : Forall is_byte body -> zlen body = ACK_BODY_BYTES -> body = setUint32 (getUint32 body 0).
Proof.
  intros Hb Hl. destruct body as [|b0 [|b1 [|b2 [|b3 [|]]]]]; try (by unfold zlen, ACK_BODY_BYTES in Hl; cbn in Hl; lia).
  repeat match goal with H : Forall is_byte (_ :: _) |- _ => apply Forall_cons in H as [? ?] end.
  unfold is_byte, setUint32, getUint32 in *. cbn [nth Nat.add]. repeat f_equal; Z.to_euclidean_division_equations; lia.
Qed.

Lemma client_exact b m : Forall is_byte b -> decodeTerminalClientMessage b = Ok m <-> client_frame m b.
Proof.
  intros Hb. unfold decodeTerminalClientMessage, client_frame.
  destruct (Z.ltb_spec TERMINAL_CLIENT_MESSAGE_MAX_BYTES (zlen b)) as [Hl|Hl]; [split; [done|lia]|].
  destruct b as [|type body]; [split; [done|destruct m as [| |[]|]; naive_solver]|].
  apply Forall_cons in Hb as [_ Hb]. cbn [typeByteOf mbind outcome_bind drop]. rewrite drop_0. split.
  - intros Hd. split; [done|]. revert Hd. destruct (Z.eqb_spec type 0) as [->|_]; [by intros [= <-]|]. destruct (Z.eqb_spec type 1) as [->|_].
    { intros ([c r] & (v & Hv & Hs)%parse_body_exact & [= <-])%bind_ok. eauto. }
    destruct (Z.eqb_spec type 2) as [->|_].
    { destruct (Z.eqb_spec (zlen body) ACK_BODY_BYTES) as [E|]; [|done]. intros [= <-]. split; [by apply uint32_bounds|].
      f_equal. by apply uint32_read. }
    destruct (Z.eqb_spec type 3) as [->|_]; [intros [= <-]; eauto|done].
  - intros [_ Hm]. destruct m as [data|cols rows|[z|]|].
    + by injection Hm as -> ->.
    + destruct Hm as (body' & v & [= -> ->] & Hv & Hs). cbn [Z.eqb Pos.eqb]. apply bind_ok. exists (cols, rows). split; [|done].
      apply parse_body_exact. eauto.
    + destruct Hm as [Hz [= -> ->]]. cbn -[getUint32 setUint32]. do 3 f_equal.
      rewrite <-(app_nil_r (setUint32 z)). apply (getUint32_set [] z []). unfold MAX_ACK_BYTES in Hz. lia.
    + done.
    + by destruct Hm as (body' & [= -> ->]).
Qed.

Lemma server_exact b m : decodeTerminalServerMessage b = Ok m <-> server_frame m b.
Proof.
  unfold decodeTerminalServerMessage. destruct b as [|type body]; [split; [done|destruct m; naive_solver]|].
  cbn [typeByteOf mbind outcome_bind drop]. rewrite drop_0. split.
  - destruct (Z.eqb_spec type 0) as [->|_]; [by intros [= <-]|]. destruct (Z.eqb_spec type 1) as [->|_].
    { destruct (parseJsonBody _ _ _ _) eqn:E; [|done]. intros [= <-]. apply parse_body_exact in E as (v & ? & ?). cbn. eauto. }
    destruct (Z.eqb_spec type 2) as [->|_].
    { destruct (parseJsonBody _ _ _ _) eqn:E; [|done]. intros [= <-]. apply parse_body_exact in E as (v & ? & ?). cbn. eauto. }
    destruct (Z.eqb_spec type 3) as [->|_]; [intros [= <-]; cbn; eauto|done].
  - destruct m as [data|x|n|]; cbn [server_frame].
    + by intros [= -> ->].
    + intros (body' & v & [= -> ->] & Hv & Hs). cbn [Z.eqb Pos.eqb].
      rewrite (proj2 (parse_body_exact exit_of body' TerminalExitSchema (js "exit") x)) by eauto. done.
    + intros (body' & v & [= -> ->] & Hv & Hs). cbn [Z.eqb Pos.eqb].
      rewrite (proj2 (parse_body_exact notice_of body' TerminalNoticeSchema (js "notice") n)) by eauto. done.
    + by intros (body' & [= -> ->]).
Qed.

End Frames.

(** ** Theorem *)

(** C35: the terminal socket loses nothing and lets nothing else through. Every message a side may send is decoded to
    itself by the other side. Whatever bytes arrive, the decoder accepts them exactly when they are a frame of the
    message it returns: the message's type byte, then the data, a JSON document of the schema that reads to the message,
    the four bytes of the count, or, for a ping or a pong, a body that is ignored; a client frame also never exceeds its
    limit. Everything else, such as an unknown type byte, a count of another width or a document off its schema, is
    refused. A decoded message has its sizes, counts and texts within the schemas, and a paste cut for the socket arrives
    as frames that decode to its pieces in order, each at least one byte. *)
Theorem terminal_wire_faithful `{TypeBox} client server received_bytes pasted :
  client_ok client -> server_ok server -> typed server -> Forall is_byte received_bytes ->
  (exists b, encodeTerminalClientMessage client = Ok b /\
             (zlen b <= TERMINAL_CLIENT_MESSAGE_MAX_BYTES -> decodeTerminalClientMessage b = Ok client)) /\
  decodeTerminalServerMessage (encodeTerminalServerMessage server) = Ok server /\
  (forall m, decodeTerminalClientMessage received_bytes = Ok m <-> client_frame m received_bytes) /\
  (forall m, decodeTerminalServerMessage received_bytes = Ok m <-> server_frame m received_bytes) /\
  (forall m, decodeTerminalClientMessage received_bytes = Ok m ->
     client_ok m /\ zlen received_bytes <= TERMINAL_CLIENT_MESSAGE_MAX_BYTES) /\
  (forall m, decodeTerminalServerMessage received_bytes = Ok m -> server_ok m) /\
  exists pieces, chunkTerminalBytes pasted (NInt (TERMINAL_CLIENT_MESSAGE_MAX_BYTES - 1)) = Ok pieces /\
    concat pieces = pasted /\
    Forall (fun c => 1 <= zlen c /\ exists b, encodeTerminalClientMessage (CData c) = Ok b /\ decodeTerminalClientMessage b = Ok (CData c)) pieces.
Proof.
  intros Hc Hs Ht Hb. split; [|split; [|split; [|split; [|split; [|split]]]]].
  - assert (exists b, encodeTerminalClientMessage client = Ok b) as [b E].
    { destruct client as [| |[z|]|]; cbn in Hc |- *; eauto; [|done]. rewrite !(proj2 (Z.ltb_ge _ _)) by lia. eauto. }
    exists b. split; [done|]. by apply client_roundtrip.
  - by apply server_roundtrip.
  - intros m. by apply client_exact.
  - intros m. apply server_exact.
  - intros m. by apply client_sound.
  - intros m. apply server_sound.
  - destruct (chunk_loop_spec (length pasted) (TERMINAL_CLIENT_MESSAGE_MAX_BYTES - 1) pasted 0) as [E F]; [done|lia|unfold zlen; lia|].
    eexists. split; [reflexivity|]. split; [done|]. eapply Forall_impl; [exact F|]. intros c [H1 H2]. split; [done|].
    eexists. split; [reflexivity|]. apply client_roundtrip; [done|done|]. unfold withTypeByte. rewrite zlen_cons. lia.
Qed.

Lemma terminal_wire_faithful_witness :
  let checker := conforming_checker in
  decodeTerminalServerMessage
    (encodeTerminalServerMessage (SExit {| te_exitCode := None; te_signal := Some (js "SIGHUP"); te_consentRevoked := true |})) =
    Ok (SExit {| te_exitCode := None; te_signal := Some (js "SIGHUP"); te_consentRevoked := true |}) /\
  (exists pieces, chunkTerminalBytes (js "ls -la") (NInt (TERMINAL_CLIENT_MESSAGE_MAX_BYTES - 1)) = Ok pieces /\ concat pieces = js "ls -la").
Proof.
  intros checker.
  destruct (@terminal_wire_faithful checker (CResize 80 24) (SExit {| te_exitCode := None; te_signal := Some (js "SIGHUP"); te_consentRevoked := true |})
              [2; 0; 0; 32; 0] (js "ls -la"))
    as (_ & H1 & _ & _ & _ & _ & pieces & H2 & H3 & _).
  - vm_compute. repeat split; discriminate.
  - vm_compute. discriminate.
  - vm_compute. reflexivity.
  - repeat constructor; vm_compute; congruence.
  - split; [exact H1|]. exists pieces. split; [exact H2|exact H3].
Defined.
