(* ===== verification/TerminalRelay.v ===== *)
(** * The terminal socket's outbound relay

    [apps/api/src/modules/terminals/application/terminal-socket-relay.ts]: the queue between a terminal and a browser's
    socket, its backpressure, the notice for discarded output and the close that waits for the queues to drain. *)

From S2P Require Import Prelude TerminalWire.

(** [TerminalSocketRelayDeps], defaults resolved. The socket's answers are sequences indexed by how often it
    was asked: any behaviour of a socket in a run is one of them. *)
Record TerminalSocketRelayDeps : Type := {
  rd_send : nat -> Z;
  rd_getBufferedAmount : nat -> Z;
  rd_buildOverflowNotice : Z -> bytes;
  rd_highWaterBytes : Z;
  rd_maxQueueBytes : Z;
  rd_closeDeadlineMs : Z;
  rd_closePollMs : Z;
}.

Definition DROPPED_CLOSE_REASON : jstring := js "Send buffer exceeded".
Definition DEFAULT_CLOSE_DEADLINE_MS : Z := 5000.
Definition DEFAULT_CLOSE_POLL_MS : Z := 25.

(** [TERMINAL_SOCKET_CLOSE_CODES.INTERNAL_ERROR] and [.GONE] *)
Definition INTERNAL_ERROR : Z := 1011.
Definition GONE : Z := 4410.

Record closing_request : Type := { cl_code : Z; cl_reason : jstring; cl_deadline : Z }.

(** What the relay does to the outside, and what enters and leaves its queue. *)
Inductive relay_effect : Type :=
| RSend (frame : bytes) (buffered result : Z)
| RClose (code : Z) (reason : jstring)
| RSchedule (delay : Z)
| RCancel
| RQueued (frame : bytes)
| RDiscarded (frame : bytes)
| RNotice (discarded : Z) (frame : bytes).

(** The closure's variables, and how often the socket was asked. *)
Record relay : Type := {
  rl_queue : list bytes;
  rl_queuedBytes : Z;
  rl_closed : bool;
  rl_closing : option closing_request;
  rl_closeCheck : bool;
  rl_waitingForDrain : bool;
  rl_asked : nat;
}.

Definition createTerminalSocketRelay : relay :=
  {| rl_queue := []; rl_queuedBytes := 0; rl_closed := false; rl_closing := None; rl_closeCheck := false;
     rl_waitingForDrain := false; rl_asked := 0 |}.

Definition with_relay_queue (q : list bytes) (n : Z) (r : relay) : relay :=
  {| rl_queue := q; rl_queuedBytes := n; rl_closed := rl_closed r; rl_closing := rl_closing r;
     rl_closeCheck := rl_closeCheck r; rl_waitingForDrain := rl_waitingForDrain r; rl_asked := rl_asked r |}.
Definition with_relay_close (closed : bool) (closing : option closing_request) (check : bool) (r : relay) : relay :=
  {| rl_queue := rl_queue r; rl_queuedBytes := rl_queuedBytes r; rl_closed := closed; rl_closing := closing;
     rl_closeCheck := check; rl_waitingForDrain := rl_waitingForDrain r; rl_asked := rl_asked r |}.
Definition with_waiting (w : bool) (r : relay) : relay :=
  {| rl_queue := rl_queue r; rl_queuedBytes := rl_queuedBytes r; rl_closed := rl_closed r; rl_closing := rl_closing r;
     rl_closeCheck := rl_closeCheck r; rl_waitingForDrain := w; rl_asked := rl_asked r |}.
Definition ask (r : relay) : relay :=
  {| rl_queue := rl_queue r; rl_queuedBytes := rl_queuedBytes r; rl_closed := rl_closed r; rl_closing := rl_closing r;
     rl_closeCheck := rl_closeCheck r; rl_waitingForDrain := rl_waitingForDrain r; rl_asked := S (rl_asked r) |}.

Section Relay.
  Context (d : TerminalSocketRelayDeps).

Definition finishClose (code : Z) (reason : jstring) (r : relay) : relay * list relay_effect :=
  if rl_closed r then (r, [])
  else (with_relay_close true (rl_closing r) false r, (if rl_closeCheck r then [RCancel] else []) ++ [RClose code reason]).

Definition finishIfDrained (r : relay) : relay * list relay_effect :=
  match rl_closing r with
  | None => (r, [])
  | Some c =>
      if rl_waitingForDrain r then (r, [])
      else match rl_queue r with
           | _ :: _ => (r, [])
           | [] =>
               let buffered := rd_getBufferedAmount d (rl_asked r) in
               let r := ask r in
               if 0 <? buffered then (r, []) else finishClose (cl_code c) (cl_reason c) r
           end
  end.

(** The loop of [pump]; [queue] is the relay's queue. *)
Fixpoint pump_loop (queue : list bytes) (r : relay) : relay * list relay_effect :=
  match queue with
  | [] => finishIfDrained r
  | next :: rest =>
      if rl_closed r then finishIfDrained r
      else
        let buffered := rd_getBufferedAmount d (rl_asked r) in
        let r := ask r in
        if rd_highWaterBytes d <? buffered + zlen next then (r, [])
        else
          let result := rd_send d (rl_asked r) in
          let r := with_relay_queue rest (rl_queuedBytes r - zlen next) (ask r) in
          let sent := RSend next buffered result in
          if result =? 0 then
            let '(r, e) := finishClose INTERNAL_ERROR DROPPED_CLOSE_REASON r in (r, sent :: e)
          else if result <? 0 then (with_waiting true r, [sent])
          else let '(r, e) := pump_loop rest r in (r, sent :: e)
  end.

Definition pump (r : relay) : relay * list relay_effect :=
  if rl_waitingForDrain r then (r, []) else pump_loop (rl_queue r) r.

Definition scheduleCloseCheck (now : Z) (r : relay) : relay * list relay_effect :=
  match rl_closing r with
  | None => (r, [])
  | Some c =>
      if rl_closed r || rl_closeCheck r then (r, [])
      else (with_relay_close (rl_closed r) (rl_closing r) true r,
            [RSchedule (Z.max 0 (Z.min (rd_closePollMs d) (cl_deadline c - now)))])
  end.

(** [pump(); finishIfDrained(); scheduleCloseCheck();] *)
Definition pump_and_check (now : Z) (r : relay) : relay * list relay_effect :=
  let '(r, e1) := pump r in
  let '(r, e2) := finishIfDrained r in
  let '(r, e3) := scheduleCloseCheck now r in (r, e1 ++ e2 ++ e3).

(** The callback [scheduleCloseCheck] schedules; it only runs while it is scheduled. *)
Definition close_check (now : Z) (r : relay) : relay * list relay_effect :=
  if negb (rl_closeCheck r) then (r, [])
  else
    let r := with_relay_close (rl_closed r) (rl_closing r) false r in
    match rl_closing r with
    | None => (r, [])
    | Some c =>
        if rl_closed r then (r, [])
        else if cl_deadline c <=? now then finishClose (cl_code c) (cl_reason c) r
        else pump_and_check now r
    end.

(** The loop of [discardOldestUntilWithinBudget]; [queue] and [queued] are the relay's. *)
Fixpoint discard_loop (queue : list bytes) (queued incoming : Z) : list bytes * Z * list bytes :=
  match queue with
  | [] => ([], queued, [])
  | oldest :: rest =>
      if rd_maxQueueBytes d <? queued + incoming then
        let '(q, n, gone) := discard_loop rest (queued - zlen oldest) incoming in (q, n, oldest :: gone)
      else (queue, queued, [])
  end.

Fixpoint total_bytes (fs : list bytes) : Z := match fs with [] => 0 | f :: rest => zlen f + total_bytes rest end.

Definition discardOldestUntilWithinBudget (incoming : Z) (r : relay) : relay * list relay_effect :=
  let '(q, n, gone) := discard_loop (rl_queue r) (rl_queuedBytes r) incoming in
  let discarded := total_bytes gone in
  if discarded =? 0 then (with_relay_queue q n r, map RDiscarded gone)
  else
    let notice := rd_buildOverflowNotice d discarded in
    (with_relay_queue (q ++ [notice]) (n + zlen notice) r, map RDiscarded gone ++ [RNotice discarded notice]).

Definition relay_push (frame : bytes) (r : relay) : relay * list relay_effect :=
  if rl_closed r || bool_decide (is_Some (rl_closing r)) then (r, [])
  else
    let '(r, e1) := discardOldestUntilWithinBudget (zlen frame) r in
    let '(r, e2) := pump (with_relay_queue (rl_queue r ++ [frame]) (rl_queuedBytes r + zlen frame) r) in
    (r, e1 ++ [RQueued frame] ++ e2).

Definition relay_drain (r : relay) : relay * list relay_effect := pump (with_waiting false r).

Definition closeAfterDrain (now code : Z) (reason : jstring) (r : relay) : relay * list relay_effect :=
  if rl_closed r || bool_decide (is_Some (rl_closing r)) then (r, [])
  else
    let c := {| cl_code := code; cl_reason := reason; cl_deadline := now + rd_closeDeadlineMs d |} in
    pump_and_check now (with_relay_close (rl_closed r) (Some c) (rl_closeCheck r) r).

(** ** Runs *)

Inductive relay_op : Type :=
| OPush (frame : bytes)
| ODrain
| OCloseAfterDrain (now code : Z) (reason : jstring)
| OCloseCheck (now : Z).

Definition relay_step (r : relay) (o : relay_op) : relay * list relay_effect :=
  match o with
  | OPush frame => relay_push frame r
  | ODrain => relay_drain r
  | OCloseAfterDrain now code reason => closeAfterDrain now code reason r
  | OCloseCheck now => close_check now r
  end.

Fixpoint relay_run (r : relay) (os : list relay_op) : relay * list relay_effect :=
  match os with
  | [] => (r, [])
  | o :: rest => let '(r1, e1) := relay_step r o in let '(r2, e2) := relay_run r1 rest in (r2, e1 ++ e2)
  end.

End Relay.

(** ** What a log says *)

(** What entered the queue, and what left it at the front, in order. *)
Definition entered (es : list relay_effect) : list bytes :=
  omap (fun e => match e with RQueued f | RNotice _ f => Some f | _ => None end) es.
Definition departed (es : list relay_effect) : list bytes :=
  omap (fun e => match e with RSend f _ _ | RDiscarded f => Some f | _ => None end) es.
Definition frames_sent (es : list relay_effect) : list bytes :=
  omap (fun e => match e with RSend f _ _ => Some f | _ => None end) es.
Definition discarded (es : list relay_effect) : list bytes :=
  omap (fun e => match e with RDiscarded f => Some f | _ => None end) es.
Definition announced (es : list relay_effect) : list Z :=
  omap (fun e => match e with RNotice n _ => Some n | _ => None end) es.
Definition closures (es : list relay_effect) : list (Z * jstring) :=
  omap (fun e => match e with RClose c s => Some (c, s) | _ => None end) es.

Fixpoint sum (ns : list Z) : Z := match ns with [] => 0 | n :: rest => n + sum rest end.

Lemma total_bytes_app a b : total_bytes (a ++ b) = total_bytes a + total_bytes b.
Proof. induction a as [|f a IH]; cbn; [done|]. rewrite IH. lia. Qed.

Lemma total_bytes_nonneg a : 0 <= total_bytes a.
Proof. induction a as [|f a IH]; cbn; [done|]. pose proof (zlen_nonneg f). lia. Qed.

Lemma sum_app a b : sum (a ++ b) = sum a + sum b.
Proof. induction a as [|n a IH]; cbn; [done|]. rewrite IH. lia. Qed.

Section RelayFacts.
  Context (d : TerminalSocketRelayDeps).

(** A send stays below the high-water mark the socket reported against. *)
Definition below_mark (e : relay_effect) : Prop :=
  match e with RSend f buffered _ => buffered + zlen f <= rd_highWaterBytes d | _ => True end.

Definition flag (b : bool) : nat := if b then 1 else 0.

(** What every piece of the relay keeps. *)
Record keeps (r r' : relay) (es : list relay_effect) : Prop := {
  keeps_fifo : rl_queue r ++ entered es = departed es ++ rl_queue r';
  keeps_count : rl_queuedBytes r' - total_bytes (rl_queue r') = rl_queuedBytes r - total_bytes (rl_queue r);
  keeps_announced : sum (announced es) = total_bytes (discarded es);
  keeps_closures : (length (closures es) + flag (rl_closed r) = flag (rl_closed r'))%nat;
  keeps_mark : Forall below_mark es;
  keeps_silent : rl_closed r = true -> frames_sent es = [];
}.

Lemma keeps_refl r : keeps r r [].
Proof. constructor; try done; cbn; by rewrite app_nil_r. Qed.

Lemma keeps_trans r r' r'' e e' : keeps r r' e -> keeps r' r'' e' -> keeps r r'' (e ++ e').
Proof.
  intros [F1 C1 A1 L1 M1 S1] [F2 C2 A2 L2 M2 S2]. unfold entered, departed, announced, discarded, closures, frames_sent in *.
  constructor; unfold entered, departed, announced, discarded, closures, frames_sent; rewrite ?omap_app.
  - by rewrite app_assoc, F1, <-app_assoc, F2, app_assoc.
  - lia.
  - rewrite sum_app, total_bytes_app. lia.
  - rewrite length_app. lia.
  - by apply Forall_app.
  - intros Hc. rewrite S1 by done. apply S2. rewrite Hc in L1. destruct (rl_closed r'); [done|]. cbn in L1. lia.
Qed.

(** A piece that only touches flags. *)
Lemma keeps_same r r' : rl_queue r' = rl_queue r -> rl_queuedBytes r' = rl_queuedBytes r -> rl_closed r' = rl_closed r -> keeps r r' [].
Proof. intros H1 H2 H3. constructor; cbn; rewrite ?H1, ?H2, ?H3, ?app_nil_r; done. Qed.

Lemma keeps_finishClose code reason r : keeps r (finishClose code reason r).1 (finishClose code reason r).2.
Proof.
  unfold finishClose. destruct (rl_closed r) eqn:E; cbn [fst snd]; [apply keeps_refl|].
  constructor; destruct (rl_closeCheck r); cbn; rewrite ?E, ?app_nil_r; try done; repeat constructor.
Qed.

Lemma keeps_finishIfDrained r : keeps r (finishIfDrained d r).1 (finishIfDrained d r).2.
Proof.
  unfold finishIfDrained. destruct (rl_closing r); [|apply keeps_refl]. destruct (rl_waitingForDrain r); [apply keeps_refl|].
  destruct (rl_queue r); [|apply keeps_refl]. case_match; [by apply keeps_same|].
  apply (keeps_trans r (ask r) _ []); [by apply keeps_same|apply keeps_finishClose].
Qed.

(** One frame handed to the socket. *)
Lemma keeps_send r next rest buffered result :
  rl_queue r = next :: rest -> rl_closed r = false -> buffered + zlen next <= rd_highWaterBytes d ->
  keeps r (with_relay_queue rest (rl_queuedBytes r - zlen next) (ask (ask r))) [RSend next buffered result].
Proof.
  intros Hq Hc Hm. constructor; cbn; rewrite ?Hq, ?Hc; cbn; try done; [by rewrite app_nil_r|lia|by repeat constructor].
Qed.

Lemma keeps_pump_loop q r : rl_queue r = q -> keeps r (pump_loop d q r).1 (pump_loop d q r).2.
Proof.
  revert r. induction q as [|next rest IH]; intros r Hq; cbn [pump_loop]; [apply keeps_finishIfDrained|].
  destruct (rl_closed r) eqn:Hc; [apply keeps_finishIfDrained|].
  set (buffered := rd_getBufferedAmount d (rl_asked r)).
  destruct (Z.ltb_spec (rd_highWaterBytes d) (buffered + zlen next)) as [|Hm]; [by apply keeps_same|].
  set (result := rd_send d (rl_asked (ask r))). set (r1 := with_relay_queue rest _ _).
  assert (keeps r r1 [RSend next buffered result]) as K by exact (keeps_send r next rest buffered result Hq Hc Hm).
  destruct (result =? 0); [|destruct (result <? 0)].
  - pose proof (keeps_finishClose INTERNAL_ERROR DROPPED_CLOSE_REASON r1) as K2.
    destruct (finishClose _ _ r1) as [r2 e2]. apply (keeps_trans _ _ _ _ _ K K2).
  - apply (keeps_trans r r1 (with_waiting true r1) [RSend next buffered result] []); [done|by apply keeps_same].
  - pose proof (IH r1 eq_refl) as K2. destruct (pump_loop d rest r1) as [r2 e2]. apply (keeps_trans _ _ _ _ _ K K2).
Qed.

Lemma keeps_pump r : keeps r (pump d r).1 (pump d r).2.
Proof. unfold pump. destruct (rl_waitingForDrain r); [apply keeps_refl|by apply keeps_pump_loop]. Qed.

Lemma keeps_schedule now r : keeps r (scheduleCloseCheck d now r).1 (scheduleCloseCheck d now r).2.
Proof.
  unfold scheduleCloseCheck. destruct (rl_closing r); [|apply keeps_refl]. case_match; [apply keeps_refl|].
  constructor; cbn; rewrite ?app_nil_r; try done; by repeat constructor.
Qed.

Lemma keeps_pump_and_check now r : keeps r (pump_and_check d now r).1 (pump_and_check d now r).2.
Proof.
  unfold pump_and_check. pose proof (keeps_pump r) as K1. destruct (pump d r) as [r1 e1]. cbn [fst snd] in K1.
  pose proof (keeps_finishIfDrained r1) as K2. destruct (finishIfDrained d r1) as [r2 e2]. cbn [fst snd] in K2.
  pose proof (keeps_schedule now r2) as K3. destruct (scheduleCloseCheck d now r2) as [r3 e3]. cbn [fst snd] in K3 |- *.
  apply (keeps_trans _ r1); [done|]. by apply (keeps_trans _ r2).
Qed.

(** Discarding takes frames off the front until the budget fits. *)
Lemma discard_loop_spec q n incoming :
  let '(q', n', gone) := discard_loop d q n incoming in
  q = gone ++ q' /\ n' = n - total_bytes gone /\ (q' = [] \/ n' + incoming <= rd_maxQueueBytes d).
Proof.
  revert n. induction q as [|f q IH]; intros n; cbn [discard_loop]; [cbn; split_and!; [done|lia|by left]|].
  destruct (Z.ltb_spec (rd_maxQueueBytes d) (n + incoming)) as [|Hm].
  - specialize (IH (n - zlen f)). destruct (discard_loop d q (n - zlen f) incoming) as [[q' n'] gone]. destruct IH as (-> & -> & Hrest).
    cbn. split_and!; [done|lia|done].
  - cbn. split_and!; [done|lia|by right].
Qed.

Lemma omap_discarded {A} (g : relay_effect -> option A) gone :
  (forall f, g (RDiscarded f) = None) -> omap g (map RDiscarded gone) = [].
Proof. intros H. induction gone as [|f gone IH]; [done|]. cbn. by rewrite H. Qed.

Lemma departed_discarded gone : departed (map RDiscarded gone) = gone.
Proof. unfold departed. induction gone as [|f gone IH]; [done|]. cbn. by f_equal. Qed.

Lemma discarded_discarded gone : discarded (map RDiscarded gone) = gone.
Proof. unfold discarded. induction gone as [|f gone IH]; [done|]. cbn. by f_equal. Qed.

Lemma below_discarded gone : Forall below_mark (map RDiscarded gone).
Proof. induction gone; by constructor. Qed.

Lemma keeps_discard incoming r : keeps r (discardOldestUntilWithinBudget d incoming r).1 (discardOldestUntilWithinBudget d incoming r).2.
Proof.
  unfold discardOldestUntilWithinBudget. pose proof (discard_loop_spec (rl_queue r) (rl_queuedBytes r) incoming) as H.
  destruct (discard_loop d (rl_queue r) (rl_queuedBytes r) incoming) as [[q n] gone]. destruct H as (Hq & Hn & _).
  destruct (Z.eqb_spec (total_bytes gone) 0) as [E|E]; cbn [fst snd].
  - constructor; unfold entered, announced, closures, frames_sent; rewrite ?departed_discarded, ?discarded_discarded, ?omap_discarded by done;
      cbn; rewrite ?Hq, ?app_nil_r, ?total_bytes_app; try done; try lia. apply below_discarded.
  - constructor; unfold entered, departed, discarded, announced, closures, frames_sent; rewrite ?omap_app;
      fold (departed (map RDiscarded gone)); fold (discarded (map RDiscarded gone)); rewrite ?departed_discarded, ?discarded_discarded, ?omap_discarded by done;
      cbn; rewrite ?Hq, ?app_nil_r, ?total_bytes_app; cbn; rewrite ?app_assoc, ?total_bytes_app; cbn; try done; try lia.
    apply Forall_app; split; [apply below_discarded|by repeat constructor].
Qed.

Lemma keeps_push frame r : keeps r (relay_push d frame r).1 (relay_push d frame r).2.
Proof.
  unfold relay_push. case_match; [apply keeps_refl|].
  pose proof (keeps_discard (zlen frame) r) as K1. destruct (discardOldestUntilWithinBudget d (zlen frame) r) as [r1 e1]. cbn [fst snd] in K1.
  set (r2 := with_relay_queue _ _ r1). pose proof (keeps_pump r2) as K3. destruct (pump d r2) as [r3 e3]. cbn [fst snd] in K3 |- *.
  apply (keeps_trans _ r1); [done|]. apply (keeps_trans _ r2); [|done].
  constructor; unfold r2; cbn; try done; [|by repeat constructor]. rewrite total_bytes_app. cbn. lia.
Qed.

Lemma keeps_step r o : keeps r (relay_step d r o).1 (relay_step d r o).2.
Proof.
  destruct o as [frame| |now code reason|now]; cbn [relay_step]; [apply keeps_push| | |].
  - unfold relay_drain. apply (keeps_trans r (with_waiting false r) _ []); [by apply keeps_same|apply keeps_pump].
  - unfold closeAfterDrain. case_match; [apply keeps_refl|].
    eapply (keeps_trans r _ _ []); [|apply keeps_pump_and_check]. by apply keeps_same.
  - unfold close_check. case_match; [apply keeps_refl|]. set (r1 := with_relay_close _ _ _ r).
    assert (keeps r r1 []) as K by by apply keeps_same. destruct (rl_closing r1); [|done]. destruct (rl_closed r1); [done|].
    case_match; apply (keeps_trans r r1 _ [] _ K); [apply keeps_finishClose|apply keeps_pump_and_check].
Qed.

Lemma keeps_run r os : keeps r (relay_run d r os).1 (relay_run d r os).2.
Proof.
  revert r. induction os as [|o os IH]; intros r; [apply keeps_refl|]. cbn [relay_run].
  pose proof (keeps_step r o) as K. destruct (relay_step d r o) as [r1 e1]. specialize (IH r1).
  destruct (relay_run d r1 os) as [r2 e2]. apply (keeps_trans _ _ _ _ _ K IH).
Qed.

(** ** Closing *)

(** A close that waits has its check scheduled; a closed relay has none. *)
Definition check_armed (r : relay) : Prop :=
  (rl_closed r = true -> rl_closeCheck r = false) /\
  (rl_closed r = false -> is_Some (rl_closing r) -> rl_closeCheck r = true).

(** A piece that leaves the request and the check alone, or closes. *)
Definition unarmed (r r' : relay) : Prop :=
  rl_closing r' = rl_closing r /\
  (rl_closed r' = rl_closed r /\ rl_closeCheck r' = rl_closeCheck r \/
   rl_closed r' = true /\ rl_closeCheck r' = false).

Lemma unarmed_trans r r' r'' : unarmed r r' -> unarmed r' r'' -> unarmed r r''.
Proof. unfold unarmed. intros [C1 H1] [C2 H2]. split; [congruence|]. destruct H1 as [[]|[]], H2 as [[]|[]]; [left|right..]; split; congruence. Qed.

Lemma unarmed_finishClose code reason r : unarmed r (finishClose code reason r).1.
Proof. unfold finishClose. destruct (rl_closed r) eqn:E; split; cbn; auto. Qed.

Lemma unarmed_finishIfDrained r : unarmed r (finishIfDrained d r).1.
Proof.
  unfold finishIfDrained. repeat case_match; try (by split; [|left]). apply (unarmed_trans _ (ask r)); [by split; [|left]|apply unarmed_finishClose].
Qed.

Lemma unarmed_pump_loop q r : unarmed r (pump_loop d q r).1.
Proof.
  revert r. induction q as [|f q IH]; intros r; cbn [pump_loop]; [apply unarmed_finishIfDrained|].
  destruct (rl_closed r); [apply unarmed_finishIfDrained|]. case_match; [by split; [|left]|].
  set (r1 := with_relay_queue _ _ _). assert (unarmed r r1) as U by (by split; [|left]). case_match; [|case_match].
  - pose proof (unarmed_finishClose INTERNAL_ERROR DROPPED_CLOSE_REASON r1) as U2. destruct (finishClose _ _ r1). by apply (unarmed_trans _ r1).
  - by split; [|left].
  - specialize (IH r1). destruct (pump_loop d q r1). by apply (unarmed_trans _ r1).
Qed.

Lemma unarmed_pump r : unarmed r (pump d r).1.
Proof. unfold pump. case_match; [by split; [|left]|apply unarmed_pump_loop]. Qed.

Lemma unarmed_armed r r' : unarmed r r' -> check_armed r -> check_armed r'.
Proof. unfold unarmed, check_armed. intros [C [[H1 H2]|[H1 H2]]] [A1 A2]; rewrite C, H1, H2; [done|]. by split. Qed.

Lemma armed_pump_and_check now r : (rl_closed r = true -> rl_closeCheck r = false) -> check_armed (pump_and_check d now r).1.
Proof.
  intros Hr. unfold pump_and_check. pose proof (unarmed_pump r) as U1. destruct (pump d r) as [r1 e1].
  pose proof (unarmed_finishIfDrained r1) as U2. destruct (finishIfDrained d r1) as [r2 e2]. cbn [fst] in *.
  assert (rl_closed r2 = true -> rl_closeCheck r2 = false) as H2.
  { destruct (unarmed_trans _ _ _ U1 U2) as [_ [[-> ->]|[_ ->]]]; [done|done]. }
  unfold scheduleCloseCheck. destruct (rl_closing r2) eqn:Ec; [|split; cbn; [done|rewrite Ec; by intros _ [? ?]]].
  destruct (rl_closed r2) eqn:El; cbn [orb]; [by split; cbn; [auto|rewrite El]|].
  destruct (rl_closeCheck r2) eqn:Ek; cbn; by split; cbn; rewrite ?El, ?Ek.
Qed.

Lemma armed_step r o : check_armed r -> check_armed (relay_step d r o).1.
Proof.
  intros A. destruct o as [frame| |now code reason|now]; cbn [relay_step].
  - unfold relay_push. case_match; [done|].
    assert (unarmed r (discardOldestUntilWithinBudget d (zlen frame) r).1) as U.
    { unfold discardOldestUntilWithinBudget. destruct (discard_loop _ _ _ _) as [[q n] gone]. by case_match; split; [|left| |left]. }
    destruct (discardOldestUntilWithinBudget d (zlen frame) r) as [r1 e1]. cbn [fst] in U. set (r2 := with_relay_queue _ _ r1).
    pose proof (unarmed_pump r2) as U2. destruct (pump d r2) as [r3 e3]. apply (unarmed_armed r); [|done].
    apply (unarmed_trans _ r1); [done|]. apply (unarmed_trans _ r2); [by split; [|left]|done].
  - unfold relay_drain. apply (unarmed_armed r); [|done]. apply (unarmed_trans _ (with_waiting false r)); [by split; [|left]|apply unarmed_pump].
  - unfold closeAfterDrain. case_match; [done|]. apply armed_pump_and_check. cbn. apply A.
  - unfold close_check. destruct (rl_closeCheck r) eqn:Ek; cbn [negb]; [|done]. cbn [rl_closing rl_closed with_relay_close].
    destruct A as [A1 A2]. destruct (rl_closing r) as [c|] eqn:Ec; cbn.
    + destruct (rl_closed r) eqn:El; [by specialize (A1 eq_refl); rewrite Ek in A1|]. case_match; [|by apply armed_pump_and_check].
      by split.
    + split; cbn; [done|]. intros _ [? [=]].
Qed.

Lemma armed_run r os : check_armed r -> check_armed (relay_run d r os).1.
Proof.
  revert r. induction os as [|o os IH]; intros r A; [done|]. cbn [relay_run]. pose proof (armed_step r o A) as A1.
  destruct (relay_step d r o) as [r1 e1]. specialize (IH r1 A1). by destruct (relay_run d r1 os).
Qed.

(** ** Bounds *)

Lemma departs_less r r' es : keeps r r' es -> entered es = [] -> rl_queuedBytes r' <= rl_queuedBytes r.
Proof.
  intros [F C _ _ _ _] E. rewrite E, app_nil_r in F. rewrite F, total_bytes_app in C. pose proof (total_bytes_nonneg (departed es)). lia.
Qed.

Lemma finishClose_enters code reason r : entered (finishClose code reason r).2 = [].
Proof. unfold finishClose. by destruct (rl_closed r), (rl_closeCheck r). Qed.

Lemma finishIfDrained_enters r : entered (finishIfDrained d r).2 = [].
Proof. unfold finishIfDrained. repeat case_match; try done. apply finishClose_enters. Qed.

Lemma pump_enters r : entered (pump d r).2 = [].
Proof.
  unfold pump. case_match; [done|]. generalize (rl_queue r) as q. intros q. clear. revert r.
  induction q as [|f q IH]; intros r; cbn [pump_loop]; [apply finishIfDrained_enters|]. case_match; [apply finishIfDrained_enters|].
  case_match; [done|]. set (r1 := with_relay_queue _ _ _). case_match; [|case_match; [done|]].
  - pose proof (finishClose_enters INTERNAL_ERROR DROPPED_CLOSE_REASON r1). by destruct (finishClose _ _ r1).
  - specialize (IH r1). by destruct (pump_loop d q r1).
Qed.

Lemma pump_and_check_enters now r : entered (pump_and_check d now r).2 = [].
Proof.
  unfold pump_and_check. pose proof (pump_enters r) as E1. destruct (pump d r) as [r1 e1].
  pose proof (finishIfDrained_enters r1) as E2. destruct (finishIfDrained d r1) as [r2 e2].
  assert (entered (scheduleCloseCheck d now r2).2 = []) as E3 by (unfold scheduleCloseCheck; by repeat case_match).
  destruct (scheduleCloseCheck d now r2) as [r3 e3]. cbn [snd] in *. unfold entered in *. by rewrite !omap_app, E1, E2, E3.
Qed.

(** The queue never holds more than its budget and one notice. *)
Lemma bounded_step (noticeMax : Z) r o :
  0 <= noticeMax -> (forall n, zlen (rd_buildOverflowNotice d n) <= noticeMax) ->
  match o with OPush f => zlen f <= rd_maxQueueBytes d | _ => True end ->
  rl_queuedBytes r = total_bytes (rl_queue r) ->
  rl_queuedBytes r <= rd_maxQueueBytes d + noticeMax -> rl_queuedBytes (relay_step d r o).1 <= rd_maxQueueBytes d + noticeMax.
Proof.
  intros H0 Hn Ho Hs Hb. pose proof (keeps_step r o) as K.
  assert (entered (relay_step d r o).2 = [] -> rl_queuedBytes (relay_step d r o).1 <= rd_maxQueueBytes d + noticeMax) as Hless.
  { intros E. apply departs_less in K; [lia|done]. }
  destruct o as [frame| |now code reason|now]; cbn [relay_step] in *.
  - clear Hless K. unfold relay_push. case_match; [done|]. unfold discardOldestUntilWithinBudget.
    pose proof (discard_loop_spec (rl_queue r) (rl_queuedBytes r) (zlen frame)) as D.
    destruct (discard_loop d (rl_queue r) (rl_queuedBytes r) (zlen frame)) as [[q n] gone]. destruct D as (Dq & Dn & Db).
    assert (n + zlen frame <= rd_maxQueueBytes d) as Hf.
    { destruct Db as [->|]; [|done]. rewrite Dq, app_nil_r in Hs. lia. }
    specialize (Hn (total_bytes gone)).
    destruct (total_bytes gone =? 0); (match goal with |- context [pump d ?x] => pose proof (keeps_pump x) as K; pose proof (pump_enters x) as E;
      destruct (pump d x) as [r3 e3]; cbn [fst snd] in *; apply departs_less in K; [|done]; cbn in K end).
    + lia.
    + lia.
  - apply Hless. unfold relay_drain. apply pump_enters.
  - apply Hless. unfold closeAfterDrain. case_match; [done|]. apply pump_and_check_enters.
  - apply Hless. unfold close_check. repeat case_match; try done; [apply finishClose_enters|apply pump_and_check_enters].
Qed.

End RelayFacts.

(** ** Theorems *)

Lemma bounded_run d noticeMax os r :
  0 <= noticeMax -> (forall n, zlen (rd_buildOverflowNotice d n) <= noticeMax) ->
  Forall (fun o => match o with OPush f => zlen f <= rd_maxQueueBytes d | _ => True end) os ->
  rl_queuedBytes r = total_bytes (rl_queue r) -> rl_queuedBytes r <= rd_maxQueueBytes d + noticeMax ->
  rl_queuedBytes (relay_run d r os).1 <= rd_maxQueueBytes d + noticeMax.
Proof.
  intros H0 Hn Ho. revert r. induction Ho as [|o os Ho _ IH]; intros r Hs Hb; [done|]. cbn [relay_run].
  pose proof (bounded_step d noticeMax r o H0 Hn Ho Hs Hb) as B. pose proof (keeps_count _ _ _ _ (keeps_step d r o)) as C.
  destruct (relay_step d r o) as [r1 e1]. cbn [fst] in B, C. specialize (IH r1 ltac:(lia) B). by destruct (relay_run d r1 os).
Qed.

(** What goes into the queue of a run, told from outside: each notice the relay asked [buildOverflowNotice] for, as the
    frame that function gives for that number, and each frame pushed before the socket was closed or asked to close. *)
Fixpoint incoming (d : TerminalSocketRelayDeps) (open : bool) (r : relay) (os : list relay_op) : list bytes :=
  match os with
  | [] => []
  | o :: rest =>
      let '(r1, es) := relay_step d r o in
      (map (rd_buildOverflowNotice d) (announced es) ++ match o with OPush f => if open then [f] else [] | _ => [] end) ++
      incoming d (open && bool_decide (closures es = []) && match o with OCloseAfterDrain _ _ _ => false | _ => true end) r1 rest
  end.

Section Incoming.
  Context (d : TerminalSocketRelayDeps).

Definition relay_open (r : relay) : bool := negb (rl_closed r || bool_decide (is_Some (rl_closing r))).

(** A notice enters the queue, so where nothing enters none is built. *)
Lemma enters_announces es : entered es = [] -> announced es = [].
Proof. unfold entered, announced. induction es as [|[] es IH]; cbn; done || auto. Qed.

Lemma step_enters r o :
  entered (relay_step d r o).2 =
    map (rd_buildOverflowNotice d) (announced (relay_step d r o).2) ++
    match o with OPush f => if relay_open r then [f] else [] | _ => [] end.
Proof.
  assert (forall es, entered es = [] -> entered es = map (rd_buildOverflowNotice d) (announced es) ++ []) as Q.
  { intros es E. by rewrite E, enters_announces. }
  destruct o as [frame| |now code reason|now]; cbn [relay_step].
  - unfold relay_push, relay_open. case_match eqn:Ho; [done|]. cbn [negb]. unfold discardOldestUntilWithinBudget.
    destruct (discard_loop _ _ _ _) as [[q n] gone]. destruct (total_bytes gone =? 0);
      (match goal with |- context [pump d ?x] => pose proof (pump_enters d x) as E; pose proof (enters_announces _ E) as A; destruct (pump d x) as [r3 e3] end);
      cbn [snd fst] in *; unfold entered, announced in *; rewrite ?omap_app, E, A, ?omap_discarded by done; reflexivity.
  - apply Q. unfold relay_drain. apply pump_enters.
  - apply Q. unfold closeAfterDrain. case_match; [done|]. apply pump_and_check_enters.
  - apply Q. unfold close_check. repeat case_match; try done; [apply finishClose_enters|apply pump_and_check_enters].
Qed.

Lemma closing_pump_and_check now r : rl_closing (pump_and_check d now r).1 = rl_closing r.
Proof.
  unfold pump_and_check. pose proof (unarmed_pump d r) as [U1 _]. destruct (pump d r) as [r1 e1].
  pose proof (unarmed_finishIfDrained d r1) as [U2 _]. destruct (finishIfDrained d r1) as [r2 e2].
  assert (rl_closing (scheduleCloseCheck d now r2).1 = rl_closing r2) as U3.
  { unfold scheduleCloseCheck. destruct (rl_closing r2) eqn:E; [|done]. by case_match. }
  destruct (scheduleCloseCheck d now r2). cbn [fst] in *. congruence.
Qed.

(** Only [closeAfterDrain] asks for a close. *)
Lemma closing_step r o :
  match o with
  | OCloseAfterDrain _ _ _ => relay_open (relay_step d r o).1 = false
  | _ => rl_closing (relay_step d r o).1 = rl_closing r
  end.
Proof.
  destruct o as [frame| |now code reason|now]; cbn [relay_step].
  - unfold relay_push. case_match; [done|]. unfold discardOldestUntilWithinBudget. destruct (discard_loop _ _ _ _) as [[q n] gone].
    destruct (total_bytes gone =? 0);
      (match goal with |- context [pump d ?x] => pose proof (unarmed_pump d x) as [U _]; destruct (pump d x) end); apply U.
  - unfold relay_drain. apply (unarmed_pump d (with_waiting false r)).
  - unfold closeAfterDrain, relay_open. case_match eqn:E; [by cbn; rewrite E|]. rewrite closing_pump_and_check. cbn.
    by rewrite orb_true_r.
  - unfold close_check. case_match; [done|]. cbn [rl_closing rl_closed with_relay_close]. destruct (rl_closing r) as [c|] eqn:E; [|done].
    case_match; [done|]. case_match; [|rewrite closing_pump_and_check; done]. rewrite (proj1 (unarmed_finishClose _ _ _)). done.
Qed.

Lemma open_step r o :
  relay_open (relay_step d r o).1 =
    relay_open r && bool_decide (closures (relay_step d r o).2 = []) && match o with OCloseAfterDrain _ _ _ => false | _ => true end.
Proof.
  pose proof (keeps_closures _ _ _ _ (keeps_step d r o)) as L. pose proof (closing_step r o) as C.
  assert (rl_closed (relay_step d r o).1 = rl_closed r || negb (bool_decide (closures (relay_step d r o).2 = []))) as E.
  { case_bool_decide as D; [rewrite D in L|destruct (closures _) eqn:F; [done|]]; destruct (rl_closed r), (rl_closed (relay_step d r o).1); cbn in *; done || lia. }
  destruct o; try (unfold relay_open; rewrite C, E; destruct (rl_closed r), (bool_decide (closures _ = [])), (bool_decide (is_Some _)); reflexivity).
  by rewrite C, andb_false_r.
Qed.

(** Whatever a run's [incoming] is leaves at the front of the queue in order, or is in it. *)
Lemma incoming_entered r os : entered (relay_run d r os).2 = incoming d (relay_open r) r os.
Proof.
  revert r. induction os as [|o os IH]; intros r; [done|]. cbn [relay_run incoming]. pose proof (step_enters r o) as E. pose proof (open_step r o) as O.
  destruct (relay_step d r o) as [r1 e1]. cbn [fst snd] in *. rewrite <-O. specialize (IH r1). destruct (relay_run d r1 os) as [r2 e2].
  cbn [snd] in *. unfold entered in *. by rewrite omap_app, IH, E.
Qed.

(** The loop stops as soon as the frame fits. *)
Lemma discard_loop_minimal q n size kept rest :
  (discard_loop d q n size).2 = kept ++ rest -> rest <> [] -> rd_maxQueueBytes d < n - total_bytes kept + size.
Proof.
  revert n kept. induction q as [|f q IH]; intros n kept; cbn [discard_loop]; [by destruct kept, rest|].
  destruct (Z.ltb_spec (rd_maxQueueBytes d) (n + size)) as [Hm|]; [|by destruct kept, rest].
  specialize (IH (n - zlen f)). destruct (discard_loop d q (n - zlen f) size) as [[q' n'] gone]. cbn [snd] in *.
  destruct kept as [|g kept]; cbn [total_bytes app]; [lia|]. intros [= -> E] Hr. specialize (IH kept E Hr). lia.
Qed.

(** A pump only sends, closes and cancels its check. *)
Definition pumping (e : relay_effect) : Prop := match e with RSend _ _ _ | RClose _ _ | RCancel => True | _ => False end.

Lemma pumping_finishIfDrained r : Forall pumping (finishIfDrained d r).2.
Proof.
  unfold finishIfDrained, finishClose. repeat case_match; repeat constructor.
Qed.

Lemma pumping_pump r : Forall pumping (pump d r).2.
Proof.
  unfold pump. case_match; [constructor|]. generalize (rl_queue r) as q. intros q. clear. revert r.
  induction q as [|f q IH]; intros r; cbn [pump_loop]; [apply pumping_finishIfDrained|]. case_match; [apply pumping_finishIfDrained|].
  case_match; [constructor|]. set (r1 := with_relay_queue _ _ _). case_match; [|case_match; [by repeat constructor|]].
  - unfold finishClose. destruct (rl_closed r1), (rl_closeCheck r1); repeat constructor.
  - specialize (IH r1). destruct (pump_loop d q r1). by constructor.
Qed.

Lemma pump_discards r : discarded (pump d r).2 = [].
Proof. pose proof (pumping_pump r) as F. induction F as [|[] es He _ IH]; done. Qed.

Lemma push_minimal r f kept rest :
  discarded (relay_push d f r).2 = kept ++ rest -> rest <> [] -> rd_maxQueueBytes d < rl_queuedBytes r - total_bytes kept + zlen f.
Proof.
  intros E Hr. apply (discard_loop_minimal (rl_queue r) _ _ kept rest); [|done]. revert E. unfold relay_push.
  case_match; [by destruct kept, rest|]. unfold discardOldestUntilWithinBudget.
  destruct (discard_loop _ _ _ _) as [[q n] gone]. cbn [snd].
  destruct (total_bytes gone =? 0);
    (match goal with |- context [pump d ?x] => pose proof (pump_discards x) as D; destruct (pump d x) as [r3 e3] end);
    cbn [snd] in *; unfold discarded in *; rewrite ?omap_app, D; fold (discarded (map RDiscarded gone)); rewrite discarded_discarded;
    cbn; by rewrite ?app_nil_r.
Qed.

End Incoming.

(** C36: the relay of a terminal socket accounts for every frame, whatever the socket answers and in whatever order
    output, drains and closes come. What comes in is every frame pushed before the socket was closed or asked to close
    and, before the push that displaced output, the frame [buildOverflowNotice] makes of the displaced bytes; exactly
    these leave the queue from its front, in order, by being sent or discarded, or are still in it. The bytes discarded
    are exactly the bytes the notices were asked to announce (an announced notice that is itself displaced is announced
    again with what displaced it); a push displaces the oldest frames only, and no frame more than it takes to bring the
    queue with the pushed frame within the budget, so one that fits displaces nothing; the byte count is the queue's; and
    no frame is handed to the socket above its high-water mark. As long as no pushed frame is by itself larger than the
    budget and no notice longer than [noticeMax], the queue stays within the budget and one notice. *)
Theorem relay_accounts_for_output d os :
  let '(r, es) := relay_run d createTerminalSocketRelay os in
  incoming d true createTerminalSocketRelay os = departed es ++ rl_queue r /\
  sum (announced es) = total_bytes (discarded es) /\
  (forall f kept rest, discarded (relay_push d f r).2 = kept ++ rest -> rest <> [] ->
     rd_maxQueueBytes d < rl_queuedBytes r - total_bytes kept + zlen f) /\
  rl_queuedBytes r = total_bytes (rl_queue r) /\
  Forall (below_mark d) es /\
  (forall noticeMax, 0 <= rd_maxQueueBytes d -> 0 <= noticeMax -> (forall n, zlen (rd_buildOverflowNotice d n) <= noticeMax) ->
     Forall (fun o => match o with OPush f => zlen f <= rd_maxQueueBytes d | _ => True end) os ->
     rl_queuedBytes r <= rd_maxQueueBytes d + noticeMax).
Proof.
  pose proof (keeps_run d createTerminalSocketRelay os) as [F C A _ M _].
  pose proof (incoming_entered d createTerminalSocketRelay os) as I.
  pose proof (fun noticeMax Hq H0 Hn Ho => bounded_run d noticeMax os createTerminalSocketRelay H0 Hn Ho eq_refl (Z.add_nonneg_nonneg _ _ Hq H0)) as B.
  destruct (relay_run d createTerminalSocketRelay os) as [r es]. cbn in F, C, A, M, B, I. rewrite <-I.
  split_and!; [done|done| |lia|done|done]. intros f kept rest. apply push_minimal.
Qed.

(** A terminal socket is closed once and by its deadline. In any run the relay closes at most once and sends nothing
    after it; while a close waits for the queues to drain, a check is scheduled, never later than the deadline; and
    the check that runs at the deadline closes the socket with the requested code, however little the
    viewer drained. *)
Theorem relay_closes_by_deadline d os :
  let '(r, es) := relay_run d createTerminalSocketRelay os in
  (length (closures es) <= 1)%nat /\
  (rl_closed r = true -> forall o, frames_sent (relay_step d r o).2 = [] /\ closures (relay_step d r o).2 = []) /\
  (forall c, rl_closing r = Some c -> rl_closed r = false ->
     rl_closeCheck r = true /\
     forall now, cl_deadline c <= now ->
       rl_closed (close_check d now r).1 = true /\ closures (close_check d now r).2 = [(cl_code c, cl_reason c)]) /\
  (forall now delay c, rl_closing r = Some c -> now <= cl_deadline c ->
     RSchedule delay ∈ (scheduleCloseCheck d now r).2 -> 0 <= delay <= cl_deadline c - now).
Proof.
  pose proof (keeps_closures _ _ _ _ (keeps_run d createTerminalSocketRelay os)) as L.
  pose proof (armed_run d createTerminalSocketRelay os ltac:(split; [done|by intros _ [? ?]])) as [A1 A2].
  destruct (relay_run d createTerminalSocketRelay os) as [r es]. cbn [fst snd] in *. split_and!.
  - cbn in L. destruct (rl_closed r); cbn in L; lia.
  - intros Hc o. pose proof (keeps_step d r o) as [_ _ _ Ls _ S]. split; [by apply S|]. rewrite Hc in Ls.
    destruct (closures (relay_step d r o).2); [done|]. destruct (rl_closed (relay_step d r o).1); cbn in Ls; lia.
  - intros c Hc Hl. split; [apply A2; [done|by rewrite Hc]|]. intros now Hn. unfold close_check.
    rewrite A2 by (done || by rewrite Hc). cbn. rewrite Hc, Hl, (proj2 (Z.leb_le _ _)) by done. done.
  - intros now delay c Hc Hn. unfold scheduleCloseCheck. rewrite Hc. case_match; [by intros ?%not_elem_of_nil|].
    intros [= ->]%list_elem_of_singleton. lia.
Qed.

(** A socket that takes one frame, buffers the next and then accepts all. *)
Definition slow_socket : TerminalSocketRelayDeps := {|
  rd_send n := if (n =? 3)%nat then -1 else 1;
  rd_getBufferedAmount n := 0;
  rd_buildOverflowNotice n := encodeTerminalServerMessage (SNotice {| tn_kind := nk_queue_overflow; tn_bytes := None |});
  rd_highWaterBytes := TERMINAL_SOCKET_SEND_HIGH_WATER_BYTES;
  rd_maxQueueBytes := 6;
  rd_closeDeadlineMs := DEFAULT_CLOSE_DEADLINE_MS;
  rd_closePollMs := DEFAULT_CLOSE_POLL_MS |}.

Definition slow_run : list relay_op :=
  [OPush [0; 97]; OPush [0; 98]; OPush [0; 99; 99]; OPush [0; 100; 100; 100]; ODrain; OPush [3]; OCloseAfterDrain 7 GONE (js "Session exited")].

Lemma relay_accounts_for_output_witness :
  let '(r, es) := relay_run slow_socket createTerminalSocketRelay slow_run in
  incoming slow_socket true createTerminalSocketRelay slow_run = departed es ++ rl_queue r /\
  discarded es = [[0; 99; 99]] /\ announced es = [3] /\ rl_queuedBytes r <= 38 /\ rl_closed r = true.
Proof.
  pose proof (relay_accounts_for_output slow_socket slow_run) as H.
  remember (relay_run slow_socket createTerminalSocketRelay slow_run) as run eqn:E. destruct run as [r es].
  destruct H as (H1 & _ & _ & _ & _ & H6). split; [exact H1|].
  specialize (H6 32 ltac:(cbn; lia) ltac:(lia) ltac:(intros n; vm_compute; discriminate) ltac:(repeat constructor; vm_compute; discriminate)).
  vm_compute in E. injection E as -> ->. vm_compute. split; [reflexivity|]. split; [reflexivity|]. split; [discriminate|reflexivity].
Defined.
