(* ===== verification/TerminalSessions.v ===== *)
(** * Terminal sessions

    [apps/api/src/modules/terminals/application/terminal-session-service.ts], its errors ([domain/terminal-errors.ts]) and
    the error mapping of [http/terminal-routes.ts]: the hub's registry of live terminals. Every method is a function
    from the registry to the registry and its effects, cut at each [await]; the answer to an awaited call is an
    input of its own, so inputs of any calls interleave. Texts of errors are left out, their classes and reasons are kept. *)

From S2P Require Import Prelude TerminalWire TerminalRelay.

(** ** Data *)

Inductive session_status : Type := st_running | st_exited.

(** [TerminalSession] *)
Record TerminalSession : Type := {
  ts_id : jstring;
  ts_environmentId : jstring;
  ts_chatId : option jstring;
  ts_title : jstring;
  ts_shell : jstring;
  ts_cwd : jstring;
  ts_cols : Z;
  ts_rows : Z;
  ts_status : session_status;
  ts_exit : option TerminalExit;
  ts_attached : bool;
  ts_createdAt : Z;
  ts_lastActivityAt : Z;
}.

Inductive login_attach : Type := la_waiting | la_attaching.
Inductive session_cleanup : Type := cu_revoked | cu_abandoned_login.
Inductive close_reason : Type := cr_idle | cr_cleanup (c : session_cleanup).
Inductive scope_end : Type := se_runtime_disconnected | se_revoked | se_shutdown.

Global Instance session_status_eq_dec : EqDecision session_status.
Proof. solve_decision. Defined.
Global Instance scope_end_eq_dec : EqDecision scope_end.
Proof. solve_decision. Defined.
Global Instance session_cleanup_eq_dec : EqDecision session_cleanup.
Proof. solve_decision. Defined.
Global Instance login_attach_eq_dec : EqDecision login_attach.
Proof. solve_decision. Defined.

(** Clients and viewers are objects, compared by identity: each has a number. *)
Record TerminalSessionEntry : Type := {
  en_session : TerminalSession;
  en_ownerUserId : jstring;
  en_client : nat;
  en_viewer : option nat;
  en_loginAttach : option login_attach;
  en_cleanupPending : option session_cleanup;
}.

Record TerminalReservation : Type := {
  rv_client : option nat;
  rv_canceled : bool;
  rv_scopeEnded : option scope_end;
  rv_openSent : bool;
}.

(** What the service reads of a client's manifest. *)
Record terminal_manifest : Type := {
  mf_terminal : bool;
  mf_shellRefused : bool;
  mf_terminalCloseAfterRevocation : bool;
  mf_terminalLoginArgv : bool;
  mf_shells : list jstring;
  mf_homeDir : jstring;
}.

(** [TerminalConfig] *)
Record TerminalConfig : Type := {
  tc_enabled : bool;
  tc_idleTimeoutMinutes : Z;
  tc_maxSessionsPerUser : Z;
  tc_scrollbackKib : Z;
}.

(** [TerminalOpenBody] *)
Record TerminalOpenBody : Type := {
  ob_environmentId : jstring;
  ob_loginTarget : option jstring;
  ob_chatId : option jstring;
  ob_shell : option jstring;
  ob_cwd : option jstring;
  ob_cols : option Z;
  ob_rows : option Z;
  ob_title : option jstring;
}.

Inductive unavailable_reason : Type := ur_disconnected | ur_unavailable | ur_runtime_unavailable | ur_runtime_update_required.

(** What a failed [terminal.open] tells its caller. *)
Record open_failure : Type := {
  of_consentDenied : bool;
  of_requestNotSent : bool;
  of_noReplyClosed : bool;
  of_noReplyDeadline : bool;
  of_timedOut : bool;
  of_remoteUnavailable : bool;
}.

Inductive terminal_error : Type :=
| TerminalDisabledError
| TerminalInvalidOpenError
| TerminalLimitError (limit : Z)
| TerminalNotIsolatedError
| TerminalUnavailableError (reason : unavailable_reason)
| TerminalSessionNotFoundError (id : jstring)
| ChatNotFoundError (id : jstring)
| AbortError
| OtherError.

(** Where a call of [open] waits; [open_begun] is the synchronous stretch up to its reservation. *)
Inductive open_stage : Type :=
| open_begun
| at_reconcile (task : nat)
| at_chat
| at_client
| at_toolchain
| at_open
| at_late_close (shell cwd : jstring)
| at_error_close (error : open_failure)
| open_done.

(** A call of [open]: its arguments, its locals and its reservation. *)
Record OpenCall : Type := {
  oc_user : jstring;
  oc_body : TerminalOpenBody;
  oc_config : TerminalConfig;
  oc_aborted : bool;
  oc_chatId : option jstring;
  oc_cwd : option jstring;
  oc_client : nat;
  oc_reservation : TerminalReservation;
  oc_stage : open_stage;
}.

(** The service's variables and its calls in flight: opens, tracked closes, user closes and reconciliations, by number. *)
Record registry : Type := {
  rg_entries : gmap nat TerminalSessionEntry;
  rg_sessions : list (jstring * nat);
  rg_opens : gmap nat OpenCall;
  rg_reservations : list nat;
  rg_reaping : gset jstring;
  rg_handlers : gset nat;
  rg_shuttingDown : bool;
  rg_tracked : gmap nat (jstring * nat * close_reason);
  rg_closes : gmap nat (jstring * nat);
  rg_reconciles : gmap nat (list (nat * list (jstring * nat)));
  rg_next : nat;
}.

Definition set_entries (x : gmap nat TerminalSessionEntry) (r : registry) : registry :=
  {| rg_entries := x; rg_sessions := rg_sessions r; rg_opens := rg_opens r;
     rg_reservations := rg_reservations r; rg_reaping := rg_reaping r; rg_handlers := rg_handlers r;
     rg_shuttingDown := rg_shuttingDown r; rg_tracked := rg_tracked r; rg_closes := rg_closes r;
     rg_reconciles := rg_reconciles r; rg_next := rg_next r |}.
Definition set_sessions (x : list (jstring * nat)) (r : registry) : registry :=
  {| rg_entries := rg_entries r; rg_sessions := x; rg_opens := rg_opens r;
     rg_reservations := rg_reservations r; rg_reaping := rg_reaping r; rg_handlers := rg_handlers r;
     rg_shuttingDown := rg_shuttingDown r; rg_tracked := rg_tracked r; rg_closes := rg_closes r;
     rg_reconciles := rg_reconciles r; rg_next := rg_next r |}.
Definition set_opens (x : gmap nat OpenCall) (r : registry) : registry :=
  {| rg_entries := rg_entries r; rg_sessions := rg_sessions r; rg_opens := x;
     rg_reservations := rg_reservations r; rg_reaping := rg_reaping r; rg_handlers := rg_handlers r;
     rg_shuttingDown := rg_shuttingDown r; rg_tracked := rg_tracked r; rg_closes := rg_closes r;
     rg_reconciles := rg_reconciles r; rg_next := rg_next r |}.
Definition set_reservations (x : list nat) (r : registry) : registry :=
  {| rg_entries := rg_entries r; rg_sessions := rg_sessions r; rg_opens := rg_opens r;
     rg_reservations := x; rg_reaping := rg_reaping r; rg_handlers := rg_handlers r;
     rg_shuttingDown := rg_shuttingDown r; rg_tracked := rg_tracked r; rg_closes := rg_closes r;
     rg_reconciles := rg_reconciles r; rg_next := rg_next r |}.
Definition set_reaping (x : gset jstring) (r : registry) : registry :=
  {| rg_entries := rg_entries r; rg_sessions := rg_sessions r; rg_opens := rg_opens r;
     rg_reservations := rg_reservations r; rg_reaping := x; rg_handlers := rg_handlers r;
     rg_shuttingDown := rg_shuttingDown r; rg_tracked := rg_tracked r; rg_closes := rg_closes r;
     rg_reconciles := rg_reconciles r; rg_next := rg_next r |}.
Definition set_handlers (x : gset nat) (r : registry) : registry :=
  {| rg_entries := rg_entries r; rg_sessions := rg_sessions r; rg_opens := rg_opens r;
     rg_reservations := rg_reservations r; rg_reaping := rg_reaping r; rg_handlers := x;
     rg_shuttingDown := rg_shuttingDown r; rg_tracked := rg_tracked r; rg_closes := rg_closes r;
     rg_reconciles := rg_reconciles r; rg_next := rg_next r |}.
Definition set_shuttingDown (x : bool) (r : registry) : registry :=
  {| rg_entries := rg_entries r; rg_sessions := rg_sessions r; rg_opens := rg_opens r;
     rg_reservations := rg_reservations r; rg_reaping := rg_reaping r; rg_handlers := rg_handlers r;
     rg_shuttingDown := x; rg_tracked := rg_tracked r; rg_closes := rg_closes r;
     rg_reconciles := rg_reconciles r; rg_next := rg_next r |}.
Definition set_tracked (x : gmap nat (jstring * nat * close_reason)) (r : registry) : registry :=
  {| rg_entries := rg_entries r; rg_sessions := rg_sessions r; rg_opens := rg_opens r;
     rg_reservations := rg_reservations r; rg_reaping := rg_reaping r; rg_handlers := rg_handlers r;
     rg_shuttingDown := rg_shuttingDown r; rg_tracked := x; rg_closes := rg_closes r;
     rg_reconciles := rg_reconciles r; rg_next := rg_next r |}.
Definition set_closes (x : gmap nat (jstring * nat)) (r : registry) : registry :=
  {| rg_entries := rg_entries r; rg_sessions := rg_sessions r; rg_opens := rg_opens r;
     rg_reservations := rg_reservations r; rg_reaping := rg_reaping r; rg_handlers := rg_handlers r;
     rg_shuttingDown := rg_shuttingDown r; rg_tracked := rg_tracked r; rg_closes := x;
     rg_reconciles := rg_reconciles r; rg_next := rg_next r |}.
Definition set_reconciles (x : gmap nat (list (nat * list (jstring * nat)))) (r : registry) : registry :=
  {| rg_entries := rg_entries r; rg_sessions := rg_sessions r; rg_opens := rg_opens r;
     rg_reservations := rg_reservations r; rg_reaping := rg_reaping r; rg_handlers := rg_handlers r;
     rg_shuttingDown := rg_shuttingDown r; rg_tracked := rg_tracked r; rg_closes := rg_closes r;
     rg_reconciles := x; rg_next := rg_next r |}.
Definition set_next (x : nat) (r : registry) : registry :=
  {| rg_entries := rg_entries r; rg_sessions := rg_sessions r; rg_opens := rg_opens r;
     rg_reservations := rg_reservations r; rg_reaping := rg_reaping r; rg_handlers := rg_handlers r;
     rg_shuttingDown := rg_shuttingDown r; rg_tracked := rg_tracked r; rg_closes := rg_closes r;
     rg_reconciles := rg_reconciles r; rg_next := x |}.

(** What the service does to the outside. [TeGone] and [TeLost] say what it has learnt: a terminal that is certainly not
    on its runtime, and a runtime whose connection is gone with everything on it. *)
Inductive terminal_effect : Type :=
| TeOpen (client : nat) (sessionId : jstring) (cols rows scrollbackBytes : Z)
    (loginTarget shell cwd chatEnv toolchain : option jstring)
| TeClose (client : nat) (sessionId : jstring)
| TeList (client : nat)
| TeOnClose (client : nat)
| TeNotice (viewer : nat) (notice : TerminalNotice)
| TeEndWithExit (viewer : nat) (exit : TerminalExit)
| TeViewerClose (viewer : nat) (code : Z) (reason : jstring)
| TeOpened (call : nat) (session : TerminalSession)
| TeOpenFailed (call : nat) (error : terminal_error)
| TeClosed (task : nat)
| TeCloseFailed (task : nat) (error : terminal_error)
| TeGone (client : nat) (sessionId : jstring)
| TeLost (client : nat).

Definition new_registry : registry :=
  {| rg_entries := ∅; rg_sessions := []; rg_opens := ∅; rg_reservations := []; rg_reaping := ∅; rg_handlers := ∅;
     rg_shuttingDown := false; rg_tracked := ∅; rg_closes := ∅; rg_reconciles := ∅; rg_next := 0 |}.

(** ** The [sessions] map, in insertion order *)

Fixpoint sess_get (id : jstring) (m : list (jstring * nat)) : option nat :=
  match m with [] => None | (i, k) :: rest => if decide (i = id) then Some k else sess_get id rest end.

Fixpoint sess_set (id : jstring) (k : nat) (m : list (jstring * nat)) : list (jstring * nat) :=
  match m with
  | [] => [(id, k)]
  | (i, j) :: rest => if decide (i = id) then (id, k) :: rest else (i, j) :: sess_set id k rest
  end.

Definition sess_delete (id : jstring) (m : list (jstring * nat)) : list (jstring * nat) :=
  List.filter (fun p => negb (bool_decide (p.1 = id))) m.

Definition drop_reservation (k : nat) (r : registry) : registry :=
  set_reservations (List.filter (fun j => negb (bool_decide (j = k))) (rg_reservations r)) r.

(** ** Entries *)

Definition with_session (s : TerminalSession) (e : TerminalSessionEntry) : TerminalSessionEntry :=
  {| en_session := s; en_ownerUserId := en_ownerUserId e; en_client := en_client e; en_viewer := en_viewer e;
     en_loginAttach := en_loginAttach e; en_cleanupPending := en_cleanupPending e |}.

Definition with_viewer (v : option nat) (la : option login_attach) (e : TerminalSessionEntry) : TerminalSessionEntry :=
  {| en_session := en_session e; en_ownerUserId := en_ownerUserId e; en_client := en_client e; en_viewer := v;
     en_loginAttach := la; en_cleanupPending := en_cleanupPending e |}.

Definition with_cleanup (c : option session_cleanup) (e : TerminalSessionEntry) : TerminalSessionEntry :=
  {| en_session := en_session e; en_ownerUserId := en_ownerUserId e; en_client := en_client e; en_viewer := en_viewer e;
     en_loginAttach := en_loginAttach e; en_cleanupPending := c |}.

Definition touched (now : Z) (s : TerminalSession) : TerminalSession :=
  {| ts_id := ts_id s; ts_environmentId := ts_environmentId s; ts_chatId := ts_chatId s; ts_title := ts_title s;
     ts_shell := ts_shell s; ts_cwd := ts_cwd s; ts_cols := ts_cols s; ts_rows := ts_rows s; ts_status := ts_status s;
     ts_exit := ts_exit s; ts_attached := ts_attached s; ts_createdAt := ts_createdAt s; ts_lastActivityAt := now |}.

Definition exited_with (exit : TerminalExit) (s : TerminalSession) : TerminalSession :=
  {| ts_id := ts_id s; ts_environmentId := ts_environmentId s; ts_chatId := ts_chatId s; ts_title := ts_title s;
     ts_shell := ts_shell s; ts_cwd := ts_cwd s; ts_cols := ts_cols s; ts_rows := ts_rows s; ts_status := st_exited;
     ts_exit := Some exit; ts_attached := ts_attached s; ts_createdAt := ts_createdAt s;
     ts_lastActivityAt := ts_lastActivityAt s |}.

Definition attached_as (b : bool) (s : TerminalSession) : TerminalSession :=
  {| ts_id := ts_id s; ts_environmentId := ts_environmentId s; ts_chatId := ts_chatId s; ts_title := ts_title s;
     ts_shell := ts_shell s; ts_cwd := ts_cwd s; ts_cols := ts_cols s; ts_rows := ts_rows s; ts_status := ts_status s;
     ts_exit := ts_exit s; ts_attached := b; ts_createdAt := ts_createdAt s; ts_lastActivityAt := ts_lastActivityAt s |}.

Definition titled (t : jstring) (s : TerminalSession) : TerminalSession :=
  {| ts_id := ts_id s; ts_environmentId := ts_environmentId s; ts_chatId := ts_chatId s; ts_title := t;
     ts_shell := ts_shell s; ts_cwd := ts_cwd s; ts_cols := ts_cols s; ts_rows := ts_rows s; ts_status := ts_status s;
     ts_exit := ts_exit s; ts_attached := ts_attached s; ts_createdAt := ts_createdAt s;
     ts_lastActivityAt := ts_lastActivityAt s |}.

Definition resized (cols rows : Z) (s : TerminalSession) : TerminalSession :=
  {| ts_id := ts_id s; ts_environmentId := ts_environmentId s; ts_chatId := ts_chatId s; ts_title := ts_title s;
     ts_shell := ts_shell s; ts_cwd := ts_cwd s; ts_cols := cols; ts_rows := rows; ts_status := ts_status s;
     ts_exit := ts_exit s; ts_attached := ts_attached s; ts_createdAt := ts_createdAt s;
     ts_lastActivityAt := ts_lastActivityAt s |}.

Definition no_status : TerminalExit := {| te_exitCode := None; te_signal := None; te_consentRevoked := false |}.
Definition consent_revoked : TerminalExit := {| te_exitCode := None; te_signal := None; te_consentRevoked := true |}.

Definition markExited (exit : TerminalExit) (now : Z) (e : TerminalSessionEntry) : TerminalSessionEntry :=
  let s := touched now (en_session e) in
  with_session (if decide (ts_status s = st_exited) then s else exited_with exit s) e.

(** An entry is an object: changing it changes it for everyone who holds it. *)
Definition update_entry (k : nat) (f : TerminalSessionEntry -> TerminalSessionEntry) (r : registry) : registry :=
  set_entries (alter f k (rg_entries r)) r.

(** [sessions.get(id)], with its identity *)
Definition find_entry (id : jstring) (r : registry) : option (nat * TerminalSessionEntry) :=
  k ← sess_get id (rg_sessions r); e ← rg_entries r !! k; Some (k, e).

Definition is_live (user : jstring) (r : registry) (p : jstring * nat) : bool :=
  match rg_entries r !! p.2 with
  | Some e => bool_decide (en_ownerUserId e = user) && bool_decide (ts_status (en_session e) = st_running)
  | None => false
  end.

Definition is_reserved (user : jstring) (r : registry) (k : nat) : bool :=
  match rg_opens r !! k with Some c => bool_decide (oc_user c = user) | None => false end.

Definition countRunning (user : jstring) (r : registry) : Z :=
  zlen (List.filter (is_live user r) (rg_sessions r)) + zlen (List.filter (is_reserved user r) (rg_reservations r)).

(** ** Reservations *)

Definition with_reservation (v : TerminalReservation) (c : OpenCall) : OpenCall :=
  {| oc_user := oc_user c; oc_body := oc_body c; oc_config := oc_config c; oc_aborted := oc_aborted c; oc_chatId := oc_chatId c;
     oc_cwd := oc_cwd c; oc_client := oc_client c; oc_reservation := v; oc_stage := oc_stage c |}.

Definition with_stage (s : open_stage) (c : OpenCall) : OpenCall :=
  {| oc_user := oc_user c; oc_body := oc_body c; oc_config := oc_config c; oc_aborted := oc_aborted c; oc_chatId := oc_chatId c;
     oc_cwd := oc_cwd c; oc_client := oc_client c; oc_reservation := oc_reservation c; oc_stage := s |}.

Definition with_chat (chatId cwd : option jstring) (c : OpenCall) : OpenCall :=
  {| oc_user := oc_user c; oc_body := oc_body c; oc_config := oc_config c; oc_aborted := oc_aborted c; oc_chatId := chatId;
     oc_cwd := cwd; oc_client := oc_client c; oc_reservation := oc_reservation c; oc_stage := oc_stage c |}.

Definition with_client (client : nat) (c : OpenCall) : OpenCall :=
  {| oc_user := oc_user c; oc_body := oc_body c; oc_config := oc_config c; oc_aborted := oc_aborted c; oc_chatId := oc_chatId c;
     oc_cwd := oc_cwd c; oc_client := client;
     oc_reservation := {| rv_client := Some client; rv_canceled := rv_canceled (oc_reservation c);
                          rv_scopeEnded := rv_scopeEnded (oc_reservation c); rv_openSent := rv_openSent (oc_reservation c) |};
     oc_stage := oc_stage c |}.

Definition with_aborted (c : OpenCall) : OpenCall :=
  {| oc_user := oc_user c; oc_body := oc_body c; oc_config := oc_config c; oc_aborted := true; oc_chatId := oc_chatId c;
     oc_cwd := oc_cwd c; oc_client := oc_client c; oc_reservation := oc_reservation c; oc_stage := oc_stage c |}.

Definition new_reservation : TerminalReservation :=
  {| rv_client := None; rv_canceled := false; rv_scopeEnded := None; rv_openSent := false |}.

Definition canceled_by (reason : option scope_end) (v : TerminalReservation) : TerminalReservation :=
  {| rv_client := rv_client v; rv_canceled := true;
     rv_scopeEnded := match reason with Some e => Some e | None => rv_scopeEnded v end; rv_openSent := rv_openSent v |}.

Definition sent (v : TerminalReservation) : TerminalReservation :=
  {| rv_client := rv_client v; rv_canceled := rv_canceled v; rv_scopeEnded := rv_scopeEnded v; rv_openSent := true |}.

Definition update_call (k : nat) (f : OpenCall -> OpenCall) (r : registry) : registry := set_opens (alter f k (rg_opens r)) r.

Definition cancelReservation (k : nat) (reason : scope_end) (r : registry) : registry :=
  drop_reservation k (update_call k (fun c => with_reservation (canceled_by (Some reason) (oc_reservation c)) c) r).

(** [requireReservation]: what it throws, if anything *)
Definition requireReservation (c : OpenCall) : option terminal_error :=
  if negb (rv_canceled (oc_reservation c)) then None
  else if oc_aborted c then Some AbortError
  else Some (TerminalUnavailableError ur_disconnected).

(** [onAbort] *)
Definition onAbort (k : nat) (r : registry) : registry :=
  match rg_opens r !! k with
  | None => r
  | Some c =>
      let r := update_call k (fun c => with_reservation (canceled_by None (oc_reservation c)) (with_aborted c)) r in
      if rv_openSent (oc_reservation c) then r else drop_reservation k r
  end.

(** ** Closing and reaping *)

Definition closeTrackedSession (id : jstring) (k : nat) (reason : close_reason) (r : registry) : registry * list terminal_effect :=
  if decide (id ∈ rg_reaping r) then (r, [])
  else
    match rg_entries r !! k with
    | None => (r, [])
    | Some e =>
        let task := rg_next r in
        (set_next (S task) (set_tracked (<[task := (id, k, reason)]> (rg_tracked r)) (set_reaping ({[id]} ∪ rg_reaping r) r)),
         [TeClose (en_client e) id])
    end.

(** The rest of a tracked close, once the runtime answered or failed to. *)
Definition tracked_closed (task : nat) (ok : bool) (now : Z) (r : registry) : registry * list terminal_effect :=
  match rg_tracked r !! task with
  | None => (r, [])
  | Some (id, k, reason) =>
      let r := set_tracked (delete task (rg_tracked r)) r in
      let r := set_reaping (rg_reaping r ∖ {[id]}) r in
      match rg_entries r !! k with
      | None => (r, [])
      | Some e =>
          if negb ok then (r, [])
          else if decide (sess_get id (rg_sessions r) = Some k) then
            match en_viewer e with
            | Some v =>
                (set_sessions (sess_delete id (rg_sessions r)) (update_entry k (markExited no_status now) r),
                 [TeGone (en_client e) id;
                  TeViewerClose v GONE (match reason with
                                        | cr_cleanup cu_revoked => js "Terminal access revoked"
                                        | _ => js "Session closed while idle"
                                        end)])
            | None => (set_sessions (sess_delete id (rg_sessions r)) r, [TeGone (en_client e) id])
            end
          else (r, [TeGone (en_client e) id])
      end
  end.

(** Folds an operation over a snapshot of keys. *)
Fixpoint for_each {A} (f : A -> registry -> registry * list terminal_effect) (xs : list A) (r : registry)
    : registry * list terminal_effect :=
  match xs with
  | [] => (r, [])
  | x :: rest => let '(r, e1) := f x r in let '(r, e2) := for_each f rest r in (r, e1 ++ e2)
  end.

Definition reap_one (cutoff : Z) (p : jstring * nat) (r : registry) : registry * list terminal_effect :=
  let '(id, k) := p in
  if decide (id ∈ rg_reaping r) then (r, [])
  else
    match rg_entries r !! k with
    | None => (r, [])
    | Some e =>
        match en_cleanupPending e with
        | Some c => closeTrackedSession id k (cr_cleanup c) r
        | None =>
            if bool_decide (is_Some (en_viewer e)) || (cutoff <? ts_lastActivityAt (en_session e)) then (r, [])
            else closeTrackedSession id k cr_idle r
        end
    end.

Definition reapIdleNow (config : TerminalConfig) (now : Z) (r : registry) : registry * list terminal_effect :=
  for_each (reap_one (now - tc_idleTimeoutMinutes config * 60000)) (rg_sessions r) r.

(** ** Reconciliation *)

(** The detached running sessions of a user, grouped by client in order of first appearance. *)
Fixpoint add_to_group (client : nat) (p : jstring * nat) (g : list (nat * list (jstring * nat))) : list (nat * list (jstring * nat)) :=
  match g with
  | [] => [(client, [p])]
  | (c, ps) :: rest => if decide (c = client) then (c, ps ++ [p]) :: rest else (c, ps) :: add_to_group client p rest
  end.

Definition is_detached (user : jstring) (e : TerminalSessionEntry) : bool :=
  bool_decide (en_ownerUserId e = user) && bool_decide (en_viewer e = None) && bool_decide (ts_status (en_session e) = st_running).

Definition detached_groups (user : jstring) (r : registry) : list (nat * list (jstring * nat)) :=
  fold_left (fun g p =>
    match rg_entries r !! p.2 with
    | Some e => if is_detached user e then add_to_group (en_client e) p g else g
    | None => g
    end) (rg_sessions r) [].

(** Starts [reconcileDetached]: one list request per client. *)
Definition reconcileDetached (user : jstring) (r : registry) : registry * nat * list terminal_effect :=
  let task := rg_next r in
  let groups := detached_groups user r in
  (set_next (S task) (set_reconciles (<[task := groups]> (rg_reconciles r)) r), task, map (fun g => TeList g.1) groups).

(** A session as [terminal.list] reports it: running, or exited with a code and a signal. *)
Record listed_session : Type := {
  ls_sessionId : jstring; ls_running : bool; ls_exitCode : option Z; ls_signal : option jstring }.

(** [new Map(...).get(id)]: the last one listed *)
Definition listed (id : jstring) (answer : list listed_session) : option listed_session :=
  List.find (fun s => bool_decide (ls_sessionId s = id)) (rev answer).

Definition retire_one (answer : list listed_session) (now : Z) (p : jstring * nat) (r : registry) : registry :=
  let '(id, k) := p in
  match rg_entries r !! k with
  | None => r
  | Some e =>
      if negb (bool_decide (sess_get id (rg_sessions r) = Some k)) || bool_decide (is_Some (en_viewer e))
         || negb (bool_decide (ts_status (en_session e) = st_running)) then r
      else
        let found := listed id answer in
        if match found with Some s => ls_running s | None => false end then r
        else update_entry k (fun e => with_session (touched now (exited_with
               {| te_exitCode := found ≫= ls_exitCode; te_signal := found ≫= ls_signal; te_consentRevoked := false |}
               (en_session e))) e) r
  end.

Definition take_group (client : nat) (g : list (nat * list (jstring * nat))) : list (jstring * nat) :=
  default [] (snd <$> List.find (fun p => bool_decide (p.1 = client)) g).

(** A client's list arrived, or ([None]) the request failed. *)
Definition reconcile_listed (task client : nat) (answer : option (list listed_session)) (now : Z) (r : registry) : registry :=
  match rg_reconciles r !! task with
  | None => r
  | Some groups =>
      let rest := List.filter (fun p => negb (bool_decide (p.1 = client))) groups in
      let r' := match answer with
                | None => r
                | Some sessions => fold_left (fun r p => retire_one sessions now p r) (take_group client groups) r
                end in
      set_reconciles (<[task := rest]> (rg_reconciles r')) r'
  end.

Definition reconciled (task : nat) (r : registry) : bool :=
  match rg_reconciles r !! task with Some [] => true | _ => false end.

(** ** The runtime goes away *)

Definition cancel_for_client (client k : nat) (r : registry) : registry :=
  match rg_opens r !! k with
  | Some c => if decide (rv_client (oc_reservation c) = Some client) then cancelReservation k se_runtime_disconnected r else r
  | None => r
  end.

Definition disconnect_one (client : nat) (now : Z) (p : jstring * nat) (r : registry) : registry * list terminal_effect :=
  let '(id, k) := p in
  match rg_entries r !! k with
  | None => (r, [])
  | Some e =>
      if negb (bool_decide (en_client e = client)) then (r, [])
      else
        (set_sessions (sess_delete id (rg_sessions r))
           (update_entry k (fun e => with_session (touched now (exited_with no_status (en_session e))) e) r),
         match en_viewer e with
         | Some v => [TeNotice v {| tn_kind := nk_runtime_disconnected; tn_bytes := None |};
                      TeViewerClose v GONE (js "Runtime disconnected")]
         | None => []
         end)
  end.

Definition handleRuntimeDisconnected (client : nat) (now : Z) (r : registry) : registry * list terminal_effect :=
  let r := fold_left (fun r k => cancel_for_client client k r) (rg_reservations r) r in
  let '(r, e) := for_each (disconnect_one client now) (rg_sessions r) r in (r, TeLost client :: e).

Definition ensureCloseHandler (client : nat) (r : registry) : registry * list terminal_effect :=
  if decide (client ∈ rg_handlers r) then (r, []) else (set_handlers ({[client]} ∪ rg_handlers r) r, [TeOnClose client]).

(** ** Gates *)

Definition offersTerminal (m : terminal_manifest) : bool := mf_terminal m && negb (mf_shellRefused m).

Definition requireTerminalCapable (m : terminal_manifest) : option terminal_error :=
  if negb (offersTerminal m) then Some (TerminalUnavailableError ur_unavailable)
  else if negb (mf_terminalCloseAfterRevocation m) then Some (TerminalUnavailableError ur_runtime_update_required)
  else None.

Definition LOCAL_ENVIRONMENT_ID : jstring := js "local".

Definition requireIsolatedIfLocal (environmentId : jstring) (attested : bool) : option terminal_error :=
  if negb (bool_decide (environmentId = LOCAL_ENVIRONMENT_ID)) then None
  else if attested then None else Some TerminalNotIsolatedError.

(** A JavaScript string is true unless it is empty. *)
Definition truthy (s : option jstring) : bool := match s with Some (_ :: _) => true | _ => false end.
Definition if_truthy (s : option jstring) : option jstring := if truthy s then s else None.

(** ** [open] *)

Section Open.
  Context (randomId : nat -> jstring).

(** The [finally] of [open]: the reservation is given back, the caller gets its answer. *)
Definition fail_open (k : nat) (error : terminal_error) (r : registry) : registry * list terminal_effect :=
  (drop_reservation k (update_call k (with_stage open_done) r), [TeOpenFailed k error]).

Definition new_session (k : nat) (c : OpenCall) (shell cwd : jstring) (status : session_status) (now : Z) : TerminalSession :=
  let b := oc_body c in
  {| ts_id := randomId k; ts_environmentId := ob_environmentId b; ts_chatId := oc_chatId c;
     ts_title := default shell (ob_title b); ts_shell := shell; ts_cwd := cwd;
     ts_cols := default TERMINAL_DEFAULT_COLS (ob_cols b); ts_rows := default TERMINAL_DEFAULT_ROWS (ob_rows b);
     ts_status := status; ts_exit := match status with st_exited => Some no_status | st_running => None end;
     ts_attached := false; ts_createdAt := now; ts_lastActivityAt := now |}.

(** [registerSession]; the entry is a new object, numbered as the call that made it. *)
Definition registerSession (k : nat) (c : OpenCall) (shell cwd : jstring) (status : session_status) (now : Z) (r : registry)
    : registry :=
  let entry := {| en_session := new_session k c shell cwd status now; en_ownerUserId := oc_user c; en_client := oc_client c;
                  en_viewer := None;
                  en_loginAttach := if truthy (ob_loginTarget (oc_body c)) then Some la_waiting else None;
                  en_cleanupPending := match status with st_exited => Some cu_revoked | st_running => None end |} in
  let r := drop_reservation k r in
  set_sessions (sess_set (randomId k) k (rg_sessions r)) (set_entries (<[k := entry]> (rg_entries r)) r).

Definition retainUnclaimed (k : nat) (c : OpenCall) (shell cwd : jstring) (now : Z) (r : registry) : registry :=
  match rv_scopeEnded (oc_reservation c) with
  | Some se_revoked => registerSession k c shell cwd st_exited now r
  | Some _ => r
  | None => registerSession k c shell cwd st_running now r
  end.

(** From the last capacity check to the first await behind it. *)
Definition open_reserve (k : nat) (r : registry) : registry * list terminal_effect :=
  match rg_opens r !! k with
  | None => (r, [])
  | Some c =>
      let max := tc_maxSessionsPerUser (oc_config c) in
      if rg_shuttingDown r then fail_open k (TerminalUnavailableError ur_disconnected) r
      else if max <=? countRunning (oc_user c) r then fail_open k (TerminalLimitError max) r
      else
        let stage := if truthy (ob_chatId (oc_body c)) then at_chat else at_client in
        let r := set_reservations (rg_reservations r ++ [k]) r in
        let r := update_call k (fun c => with_stage stage (with_reservation new_reservation c)) r in
        if oc_aborted c then fail_open k AbortError (onAbort k r) else (r, [])
  end.

(** [open(userId, body, signal)], [aborted] being [signal?.aborted] *)
Definition open_start (config : TerminalConfig) (user : jstring) (body : TerminalOpenBody) (aborted : bool) (r : registry)
    : registry * list terminal_effect :=
  let k := rg_next r in
  let call := {| oc_user := user; oc_body := body; oc_config := config; oc_aborted := aborted; oc_chatId := None;
                 oc_cwd := ob_cwd body; oc_client := 0%nat; oc_reservation := new_reservation; oc_stage := open_begun |} in
  let r := set_next (S k) (set_opens (<[k := call]> (rg_opens r)) r) in
  if negb (tc_enabled config) then fail_open k TerminalDisabledError r
  else if bool_decide (is_Some (ob_loginTarget body)) && bool_decide (is_Some (ob_shell body)) then fail_open k TerminalInvalidOpenError r
  else if rg_shuttingDown r then fail_open k (TerminalUnavailableError ur_disconnected) r
  else if tc_maxSessionsPerUser config <=? countRunning user r then
    let '(r, task, e) := reconcileDetached user r in
    (update_call k (with_stage (at_reconcile task)) r, e)
  else open_reserve k r.

(** Whether call [k] waits at a stage. *)
Definition waiting_at (k : nat) (stage : open_stage -> bool) (r : registry) : option OpenCall :=
  c ← rg_opens r !! k; if stage (oc_stage c) then Some c else None.

Definition open_reconciled (k : nat) (r : registry) : registry * list terminal_effect :=
  match rg_opens r !! k with
  | Some c => match oc_stage c with
              | at_reconcile task => if reconciled task r then open_reserve k (update_call k (with_stage open_begun) r) else (r, [])
              | _ => (r, [])
              end
  | None => (r, [])
  end.

(** [resolveChat] answered: [Err] when it rejected, [Ok None] for a chat that is missing or another user's. *)
Definition open_chat (k : nat) (answer : outcome unit (option (jstring * option jstring))) (r : registry)
    : registry * list terminal_effect :=
  match waiting_at k (fun s => match s with at_chat => true | _ => false end) r with
  | None => (r, [])
  | Some c =>
      match answer with
      | Err _ => fail_open k OtherError r
      | Ok resolved =>
          match requireReservation c with
          | Some error => fail_open k error r
          | None =>
              match resolved with
              | None => fail_open k (ChatNotFoundError (default [] (ob_chatId (oc_body c)))) r
              | Some (chatId, workdir) =>
                  let cwd := match oc_cwd c with Some d => Some d | None => workdir end in
                  (update_call k (fun c => with_stage at_client (with_chat (Some chatId) cwd c)) r, [])
              end
          end
      end
  end.

(** [getRuntimeClient] answered. *)
Definition open_client (k : nat) (answer : option (nat * terminal_manifest)) (attested : bool) (r : registry)
    : registry * list terminal_effect :=
  match waiting_at k (fun s => match s with at_client => true | _ => false end) r with
  | None => (r, [])
  | Some c =>
      match answer with
      | None => fail_open k (TerminalUnavailableError ur_disconnected) r
      | Some (client, m) =>
          match requireReservation c with
          | Some error => fail_open k error r
          | None =>
              let r := update_call k (with_client client) r in
              let '(r, e) := ensureCloseHandler client r in
              let refuse error := let '(r, e2) := fail_open k error r in (r, e ++ e2) in
              match requireTerminalCapable m with
              | Some error => refuse error
              | None =>
                  if truthy (ob_loginTarget (oc_body c)) && negb (mf_terminalLoginArgv m)
                  then refuse (TerminalUnavailableError ur_runtime_update_required)
                  else match requireIsolatedIfLocal (ob_environmentId (oc_body c)) attested with
                       | Some error => refuse error
                       | None => (update_call k (with_stage at_toolchain) r, e)
                       end
              end
          end
      end
  end.

(** [resolveToolchainParams] answered: the request is sent. *)
Definition open_toolchain (k : nat) (answer : outcome unit (option jstring)) (r : registry) : registry * list terminal_effect :=
  match waiting_at k (fun s => match s with at_toolchain => true | _ => false end) r with
  | None => (r, [])
  | Some c =>
      match answer with
      | Err _ => fail_open k OtherError r
      | Ok toolchain =>
          match requireReservation c with
          | Some error => fail_open k error r
          | None =>
              let b := oc_body c in
              (update_call k (fun c => with_stage at_open (with_reservation (sent (oc_reservation c)) c)) r,
               [TeOpen (oc_client c) (randomId k) (default TERMINAL_DEFAULT_COLS (ob_cols b)) (default TERMINAL_DEFAULT_ROWS (ob_rows b))
                  (tc_scrollbackKib (oc_config c) * 1024) (if_truthy (ob_loginTarget b)) (if_truthy (ob_shell b)) (if_truthy (oc_cwd c))
                  (if truthy (oc_chatId c) && negb (truthy (ob_loginTarget b)) then oc_chatId c else None) toolchain])
          end
      end
  end.

(** Registering answers the call; the [finally] has nothing left to give back. *)
Definition finish_open (k : nat) (c : OpenCall) (shell cwd : jstring) (now : Z) (r : registry) : registry * list terminal_effect :=
  (update_call k (with_stage open_done) (registerSession k c shell cwd st_running now r),
   [TeOpened k (new_session k c shell cwd st_running now)]).

(** [terminal.open] answered with the shell and the directory, or failed. *)
Definition open_answered (k : nat) (answer : outcome open_failure (jstring * jstring)) (now : Z) (r : registry)
    : registry * list terminal_effect :=
  match waiting_at k (fun s => match s with at_open => true | _ => false end) r with
  | None => (r, [])
  | Some c =>
      match answer with
      | Ok (shell, cwd) =>
          if rv_canceled (oc_reservation c)
          then (update_call k (with_stage (at_late_close shell cwd)) r, [TeClose (oc_client c) (randomId k)])
          else finish_open k c shell cwd now r
      | Err error =>
          (update_call k (with_stage (at_error_close error)) r,
           [TeClose (oc_client c) (randomId k)])
      end
  end.

(** What [open] throws after a failed request. *)
Definition open_error (c : OpenCall) (error : open_failure) : terminal_error :=
  match requireReservation c with
  | Some e => e
  | None =>
      if of_consentDenied error then TerminalUnavailableError ur_unavailable
      else if of_requestNotSent error || of_noReplyClosed error then TerminalUnavailableError ur_disconnected
      else if of_timedOut error || of_noReplyDeadline error || of_remoteUnavailable error
      then TerminalUnavailableError ur_runtime_unavailable
      else OtherError
  end.

(** [closeUnclaimed] answered; [m] is the client's manifest now. *)
Definition open_close_answered (k : nat) (ok : bool) (m : terminal_manifest) (now : Z) (r : registry) : registry * list terminal_effect :=
  match rg_opens r !! k with
  | None => (r, [])
  | Some c =>
      let gone (b : bool) := if b then [TeGone (oc_client c) (randomId k)] else [] in
      match oc_stage c with
      | at_late_close shell cwd =>
          let r := if ok then r else retainUnclaimed k c shell cwd now r in
          match requireReservation c with
          | Some error => let '(r, e) := fail_open k error r in (r, gone ok ++ e)
          | None => let '(r, e) := finish_open k c shell cwd now r in (r, gone ok ++ e)
          end
      | at_error_close error =>
          let shell := default (default (js "bash") (head (mf_shells m))) (ob_shell (oc_body c)) in
          let cwd := default (mf_homeDir m) (oc_cwd c) in
          let r := if ok || of_consentDenied error then r else retainUnclaimed k c shell cwd now r in
          let '(r, e) := fail_open k (open_error c error) r in (r, gone (ok || of_consentDenied error) ++ e)
      | _ => (r, [])
      end
  end.

(** The caller's signal fires; a finished call no longer listens. *)
Definition open_aborted (k : nat) (r : registry) : registry :=
  match rg_opens r !! k with
  | None => r
  | Some c =>
      match oc_stage c with
      | open_done => r
      | open_begun | at_reconcile _ => update_call k with_aborted r
      | _ => onAbort k r
      end
  end.

End Open.

(** ** The other methods *)

Definition revoke_reservation (user environmentId : jstring) (k : nat) (r : registry) : registry :=
  match rg_opens r !! k with
  | None => r
  | Some c =>
      if negb (bool_decide (oc_user c = user) && bool_decide (ob_environmentId (oc_body c) = environmentId)) then r
      else
        let r := update_call k (fun c => with_reservation (canceled_by (Some se_revoked) (oc_reservation c)) c) r in
        if rv_openSent (oc_reservation c) then r else drop_reservation k r
  end.

Definition revoke_entry (user environmentId : jstring) (now : Z) (p : jstring * nat) (r : registry) : registry * list terminal_effect :=
  let '(id, k) := p in
  match rg_entries r !! k with
  | None => (r, [])
  | Some e =>
      if negb (bool_decide (en_ownerUserId e = user) && bool_decide (ts_environmentId (en_session e) = environmentId)) then (r, [])
      else
        let e' := markExited consent_revoked now (with_cleanup (Some cu_revoked) e) in
        let told := match ts_exit (en_session e'), en_viewer e' with Some exit, Some v => [TeEndWithExit v exit] | _, _ => [] end in
        let '(r, e2) := closeTrackedSession id k (cr_cleanup cu_revoked) (update_entry k (fun _ => e') r) in
        (r, told ++ e2)
  end.

Definition revokeScope (user environmentId : jstring) (now : Z) (r : registry) : registry * list terminal_effect :=
  let r := fold_left (fun r k => revoke_reservation user environmentId k r) (rg_reservations r) r in
  for_each (revoke_entry user environmentId now) (rg_sessions r) r.

(** [list], the filter's members being absent when empty *)
Definition list_sessions (user : jstring) (environmentId chatId : option jstring) (r : registry) : list TerminalSession :=
  omap (fun p =>
    e ← rg_entries r !! p.2;
    if bool_decide (en_ownerUserId e = user)
       && match if_truthy environmentId with Some i => bool_decide (ts_environmentId (en_session e) = i) | None => true end
       && match if_truthy chatId with Some i => bool_decide (ts_chatId (en_session e) = Some i) | None => true end
    then Some (en_session e) else None) (rg_sessions r).

Definition rename (user id title : jstring) (r : registry) : registry * outcome terminal_error TerminalSession :=
  match find_entry id r with
  | Some (k, e) =>
      if decide (en_ownerUserId e = user)
      then (update_entry k (fun e => with_session (titled title (en_session e)) e) r, Ok (titled title (en_session e)))
      else (r, Err (TerminalSessionNotFoundError id))
  | None => (r, Err (TerminalSessionNotFoundError id))
  end.

(** [close]: the request, then ([user_closed]) the rest. *)
Definition close_start (user id : jstring) (r : registry) : registry * list terminal_effect :=
  let task := rg_next r in
  match find_entry id r with
  | Some (k, e) =>
      if decide (en_ownerUserId e = user)
      then (set_next (S task) (set_closes (<[task := (id, k)]> (rg_closes r)) r), [TeClose (en_client e) id])
      else (set_next (S task) r, [TeCloseFailed task (TerminalSessionNotFoundError id)])
  | None => (set_next (S task) r, [TeCloseFailed task (TerminalSessionNotFoundError id)])
  end.

Definition user_closed (task : nat) (ok : bool) (r : registry) : registry * list terminal_effect :=
  match rg_closes r !! task with
  | None => (r, [])
  | Some (id, k) =>
      let r := set_closes (delete task (rg_closes r)) r in
      match rg_entries r !! k with
      | None => (r, [])
      | Some e =>
          if negb ok then (r, [TeCloseFailed task (TerminalUnavailableError ur_disconnected)])
          else
            ((if decide (sess_get id (rg_sessions r) = Some k) then set_sessions (sess_delete id (rg_sessions r)) r else r),
             [TeGone (en_client e) id] ++
             match en_viewer e with Some v => [TeViewerClose v GONE (js "Session closed")] | None => [] end ++ [TeClosed task])
      end
  end.

Definition getForAttach (user id : jstring) (r : registry) : option (TerminalSession * nat) :=
  match find_entry id r with
  | Some (k, e) =>
      if bool_decide (en_ownerUserId e = user) && bool_decide (en_cleanupPending e = None) && bool_decide (id ∉ rg_reaping r)
      then Some (en_session e, en_client e) else None
  | None => None
  end.

Definition attachViewer (id : jstring) (viewer : nat) (now : Z) (r : registry) : registry * option (option nat * bool) :=
  match find_entry id r with
  | None => (r, None)
  | Some (k, e) =>
      match en_loginAttach e with
      | Some la_attaching => (r, None)
      | la =>
          let first := bool_decide (la = Some la_waiting) in
          (update_entry k (fun e => with_session (touched now (attached_as true (en_session e)))
                                      (with_viewer (Some viewer) (if first then Some la_attaching else la) e)) r,
           Some (en_viewer e, first))
      end
  end.

Definition completeFirstLoginAttach (id : jstring) (viewer : nat) (r : registry) : registry :=
  match find_entry id r with
  | Some (k, e) =>
      if bool_decide (en_viewer e = Some viewer) && bool_decide (en_loginAttach e = Some la_attaching)
      then update_entry k (with_viewer (en_viewer e) None) r else r
  | None => r
  end.

Definition isCurrentViewer (id : jstring) (viewer : nat) (r : registry) : bool :=
  match find_entry id r with Some (k, e) => bool_decide (en_viewer e = Some viewer) | None => false end.

Definition detachViewer (id : jstring) (viewer : nat) (now : Z) (r : registry) : registry * bool * list terminal_effect :=
  match find_entry id r with
  | None => (r, false, [])
  | Some (k, e) =>
      if negb (bool_decide (en_viewer e = Some viewer)) then (r, false, [])
      else
        let left la e := with_session (attached_as false (en_session e)) (with_viewer None la e) in
        if bool_decide (en_loginAttach e = Some la_attaching) then
          let r := update_entry k (left None) r in
          if bool_decide (is_Some (en_cleanupPending e)) then (r, false, [])
          else if bool_decide (ts_status (en_session e) = st_exited)
          then (update_entry k (fun e => with_session (touched now (en_session e)) e) r, true, [])
          else
            let r := update_entry k (fun e => markExited no_status now (with_cleanup (Some cu_abandoned_login) e)) r in
            let '(r, eff) := closeTrackedSession id k (cr_cleanup cu_abandoned_login) r in (r, false, eff)
        else (update_entry k (fun e => let e := left (en_loginAttach e) e in with_session (touched now (en_session e)) e) r, true, [])
  end.

Definition on_session (id : jstring) (f : TerminalSession -> TerminalSession) (r : registry) : registry :=
  match find_entry id r with Some (k, _) => update_entry k (fun e => with_session (f (en_session e)) e) r | None => r end.

Definition touchActivity (id : jstring) (now : Z) (r : registry) : registry := on_session id (touched now) r.
Definition recordResize (id : jstring) (cols rows now : Z) (r : registry) : registry :=
  on_session id (fun s => touched now (resized cols rows s)) r.
Definition recordExit (id : jstring) (exit : TerminalExit) (now : Z) (r : registry) : registry :=
  match find_entry id r with Some (k, _) => update_entry k (markExited exit now) r | None => r end.

Definition closeAll (r : registry) : registry * list terminal_effect :=
  let r := set_shuttingDown true r in
  let r := fold_left (fun r k => cancelReservation k se_shutdown r) (rg_reservations r) r in
  let eff := omap (fun p => (fun e => TeClose (en_client e) (ts_id (en_session e))) <$> rg_entries r !! p.2) (rg_sessions r) in
  (set_sessions [] r, eff).

(** [availability], after its reconciliation and after its client answered. *)
Inductive refusal : Type := rf_disabled | rf_limit | rf_not_isolated | rf_unavailable | rf_runtime_update_required | rf_disconnected.

Record TerminalAvailability : Type := {
  av_openSessions : Z; av_maxSessions : Z; av_reason : option refusal; av_shells : list jstring }.

Definition availability_counted (config : TerminalConfig) (user : jstring) (r : registry) : Z * option refusal :=
  let openSessions := countRunning user r in
  (openSessions,
   if negb (tc_enabled config) then Some rf_disabled
   else if tc_maxSessionsPerUser config <=? openSessions then Some rf_limit else None).

Definition availability_answer (config : TerminalConfig) (environmentId : jstring) (counted : Z * option refusal)
    (client : option terminal_manifest) (attested : bool) : TerminalAvailability :=
  let refuse reason := {| av_openSessions := counted.1; av_maxSessions := tc_maxSessionsPerUser config; av_reason := Some reason; av_shells := [] |} in
  match counted.2, client with
  | Some reason, _ => refuse reason
  | None, None => refuse rf_disconnected
  | None, Some m =>
      if negb (offersTerminal m) then refuse rf_unavailable
      else if negb (mf_terminalCloseAfterRevocation m) then refuse rf_runtime_update_required
      else if bool_decide (environmentId = LOCAL_ENVIRONMENT_ID) && negb attested then refuse rf_not_isolated
      else {| av_openSessions := counted.1; av_maxSessions := tc_maxSessionsPerUser config; av_reason := None; av_shells := mf_shells m |}
  end.

(** ** [terminal-routes.ts]: the status of an error, [None] when it is thrown on *)

Definition mapTerminalError (e : terminal_error) : option Z :=
  match e with
  | TerminalInvalidOpenError => Some 400
  | TerminalDisabledError => Some 403
  | TerminalLimitError _ => Some 409
  | TerminalNotIsolatedError => Some 403
  | TerminalUnavailableError _ => Some 409
  | ChatNotFoundError _ | TerminalSessionNotFoundError _ => Some 404
  | AbortError | OtherError => None
  end.

(** The route that opens answers an abort itself. *)
Definition open_route_error (e : terminal_error) : option Z :=
  match e with AbortError => Some 409 | e => mapTerminalError e end.

(** ** Runs *)

Inductive terminal_op : Type :=
| IOpen (config : TerminalConfig) (user : jstring) (body : TerminalOpenBody) (aborted : bool)
| IReconciled (call : nat)
| IChat (call : nat) (answer : outcome unit (option (jstring * option jstring)))
| IClient (call : nat) (answer : option (nat * terminal_manifest)) (attested : bool)
| IToolchain (call : nat) (answer : outcome unit (option jstring))
| IOpenAnswered (call : nat) (answer : outcome open_failure (jstring * jstring)) (now : Z)
| ICloseAnswered (call : nat) (ok : bool) (m : terminal_manifest) (now : Z)
| IAbort (call : nat)
| IReconcile (user : jstring)
| IListed (task client : nat) (answer : option (list listed_session)) (now : Z)
| IDisconnected (client : nat) (now : Z)
| IRevoke (user environmentId : jstring) (now : Z)
| IRename (user id title : jstring)
| IClose (user id : jstring)
| IUserClosed (task : nat) (ok : bool)
| IAttach (id : jstring) (viewer : nat) (now : Z)
| ICompleteLogin (id : jstring) (viewer : nat)
| IDetach (id : jstring) (viewer : nat) (now : Z)
| ITouch (id : jstring) (now : Z)
| IResize (id : jstring) (cols rows now : Z)
| IExit (id : jstring) (exit : TerminalExit) (now : Z)
| IReap (config : TerminalConfig) (now : Z)
| ITrackedClosed (task : nat) (ok : bool) (now : Z)
| ICloseAll.

Definition terminal_step (randomId : nat -> jstring) (o : terminal_op) (r : registry) : registry * list terminal_effect :=
  match o with
  | IOpen config user body aborted => open_start config user body aborted r
  | IReconciled call => open_reconciled call r
  | IChat call answer => open_chat call answer r
  | IClient call answer attested => open_client call answer attested r
  | IToolchain call answer => open_toolchain randomId call answer r
  | IOpenAnswered call answer now => open_answered randomId call answer now r
  | ICloseAnswered call ok m now => open_close_answered randomId call ok m now r
  | IAbort call => (open_aborted call r, [])
  | IReconcile user => let '(r, _, e) := reconcileDetached user r in (r, e)
  | IListed task client answer now => (reconcile_listed task client answer now r, [])
  | IDisconnected client now => handleRuntimeDisconnected client now r
  | IRevoke user environmentId now => revokeScope user environmentId now r
  | IRename user id title => ((rename user id title r).1, [])
  | IClose user id => close_start user id r
  | IUserClosed task ok => user_closed task ok r
  | IAttach id viewer now => ((attachViewer id viewer now r).1, [])
  | ICompleteLogin id viewer => (completeFirstLoginAttach id viewer r, [])
  | IDetach id viewer now => let '(r, _, e) := detachViewer id viewer now r in (r, e)
  | ITouch id now => (touchActivity id now r, [])
  | IResize id cols rows now => (recordResize id cols rows now r, [])
  | IExit id exit now => (recordExit id exit now r, [])
  | IReap config now => reapIdleNow config now r
  | ITrackedClosed task ok now => tracked_closed task ok now r
  | ICloseAll => closeAll r
  end.

Fixpoint terminal_run (randomId : nat -> jstring) (os : list terminal_op) (r : registry) : registry * list terminal_effect :=
  match os with
  | [] => (r, [])
  | o :: rest => let '(r, e1) := terminal_step randomId o r in let '(r, e2) := terminal_run randomId rest r in (r, e1 ++ e2)
  end.
