(* ===== verification/TerminalSessionsFacts.v ===== *)
(** * Terminal sessions: the invariant

    What every operation of the registry keeps. Most operations only wind entries and calls down: they are [tame], and a
    tame change keeps the invariant once and for all. The steps of [open] that do more are treated one by one. *)

From S2P Require Import Prelude TerminalWire TerminalRelay TerminalSessions.

(** ** Winding down *)

(** An entry keeps its identity and only ever exits; a cleanup stays pending, a revocation a revocation. *)
Record entry_tame (e e' : TerminalSessionEntry) : Prop := {
  et_owner : en_ownerUserId e' = en_ownerUserId e;
  et_client : en_client e' = en_client e;
  et_id : ts_id (en_session e') = ts_id (en_session e);
  et_environment : ts_environmentId (en_session e') = ts_environmentId (en_session e);
  et_status : ts_status (en_session e) = st_exited -> ts_status (en_session e') = st_exited;
  et_cleanup : is_Some (en_cleanupPending e) -> is_Some (en_cleanupPending e');
  et_revoked : en_cleanupPending e = Some cu_revoked -> en_cleanupPending e' = Some cu_revoked;
  et_cleaned : is_Some (en_cleanupPending e') -> is_Some (en_cleanupPending e) \/ ts_status (en_session e') = st_exited;
}.

(** A call keeps its arguments and its stage; its reservation is only ever canceled. *)
Record call_tame (c c' : OpenCall) : Prop := {
  ct_user : oc_user c' = oc_user c;
  ct_body : oc_body c' = oc_body c;
  ct_config : oc_config c' = oc_config c;
  ct_client : oc_client c' = oc_client c;
  ct_rclient : rv_client (oc_reservation c') = rv_client (oc_reservation c);
  ct_stage : oc_stage c' = oc_stage c;
  ct_sent : rv_openSent (oc_reservation c') = rv_openSent (oc_reservation c);
  ct_canceled : rv_canceled (oc_reservation c) = true -> rv_canceled (oc_reservation c') = true;
  ct_scope : is_Some (rv_scopeEnded (oc_reservation c)) -> is_Some (rv_scopeEnded (oc_reservation c'));
  ct_ended : rv_canceled (oc_reservation c') = false -> rv_scopeEnded (oc_reservation c') = rv_scopeEnded (oc_reservation c);
}.

Definition both {A} (R : A -> A -> Prop) (x y : option A) : Prop :=
  match x, y with Some a, Some b => R a b | None, None => True | _, _ => False end.

(** Ended by something that took the terminal with it. *)
Definition scope_gone (v : TerminalReservation) : Prop :=
  rv_scopeEnded v = Some se_runtime_disconnected \/ rv_scopeEnded v = Some se_shutdown.

Record tame (es : list terminal_effect) (r r' : registry) : Prop := {
  tm_sessions : rg_sessions r' `sublist_of` rg_sessions r;
  tm_kept : forall p, NoDup (rg_sessions r).*1 -> p ∈ rg_sessions r -> p ∈ rg_sessions r' \/ rg_shuttingDown r' = true \/
    forall e, rg_entries r !! p.2 = Some e -> TeGone (en_client e) p.1 ∈ es \/ TeLost (en_client e) ∈ es;
  tm_entries : forall k, both entry_tame (rg_entries r !! k) (rg_entries r' !! k);
  tm_calls : forall k, both call_tame (rg_opens r !! k) (rg_opens r' !! k);
  tm_reservations : rg_reservations r' `sublist_of` rg_reservations r;
  tm_released : forall k c, k ∈ rg_reservations r -> k ∉ rg_reservations r' -> rg_opens r' !! k = Some c ->
    rv_canceled (oc_reservation c) = true /\ (rv_openSent (oc_reservation c) = false \/ scope_gone (oc_reservation c));
  tm_gone : forall k c c', rg_opens r !! k = Some c -> rg_opens r' !! k = Some c' -> scope_gone (oc_reservation c) ->
    scope_gone (oc_reservation c') \/ k ∈ rg_reservations r;
  tm_held : forall k c c', k ∈ rg_reservations r' -> rg_opens r !! k = Some c -> rg_opens r' !! k = Some c' ->
    scope_gone (oc_reservation c') -> scope_gone (oc_reservation c);
  tm_lost : forall k c c', rg_opens r !! k = Some c -> rg_opens r' !! k = Some c' -> scope_gone (oc_reservation c') ->
    scope_gone (oc_reservation c) \/ rg_shuttingDown r' = true \/
    exists client, rv_client (oc_reservation c) = Some client /\ TeLost client ∈ es;
  tm_next : (rg_next r <= rg_next r')%nat;
  tm_shutdown : rg_shuttingDown r = true -> rg_shuttingDown r' = true;
}.

Lemma entry_tame_refl e : entry_tame e e.
Proof. constructor; auto. Qed.

Lemma call_tame_refl c : call_tame c c.
Proof. constructor; auto. Qed.

Lemma entry_tame_trans e1 e2 e3 : entry_tame e1 e2 -> entry_tame e2 e3 -> entry_tame e1 e3.
Proof.
  intros [] []. constructor; try congruence; auto. intros H. destruct (et_cleaned1 H) as [H2|H2]; [|by right].
  destruct (et_cleaned0 H2) as [|]; auto.
Qed.

Lemma call_tame_trans c1 c2 c3 : call_tame c1 c2 -> call_tame c2 c3 -> call_tame c1 c3.
Proof.
  intros [] []. constructor; try congruence; auto. intros H. rewrite ct_ended1 by done. apply ct_ended0.
  destruct (rv_canceled (oc_reservation c2)); [|done]. by rewrite ct_canceled1 in H.
Qed.

Lemma both_trans {A} (R : A -> A -> Prop) x y z :
  (forall a b c, R a b -> R b c -> R a c) -> both R x y -> both R y z -> both R x z.
Proof. intros HR. destruct x, y, z; cbn; try done. apply HR. Qed.

Lemma both_refl {A} (R : A -> A -> Prop) x : (forall a, R a a) -> both R x x.
Proof. intros HR. by destruct x; cbn. Qed.

Lemma both_some_r {A} (R : A -> A -> Prop) x b : both R x (Some b) -> exists a, x = Some a /\ R a b.
Proof. destruct x; cbn; [eauto|done]. Qed.

Lemma both_some_l {A} (R : A -> A -> Prop) a y : both R (Some a) y -> exists b, y = Some b /\ R a b.
Proof. destruct y; cbn; [eauto|done]. Qed.

Lemma tame_refl es r : tame es r r.
Proof.
  constructor; try done; try lia; intros; simplify_eq; auto; [by apply both_refl, entry_tame_refl|by apply both_refl, call_tame_refl].
Qed.

Lemma tame_mono es es' r r' : es ⊆ es' -> tame es r r' -> tame es' r r'.
Proof.
  intros Hs [S K E C V L G H O N D]. constructor; try done.
  - intros p Hn Hp. destruct (K p Hn Hp) as [|[|Hg]]; auto. right; right. intros e He. destruct (Hg e He); auto.
  - intros k c c' Hc Hc' Hg. destruct (O k c c' Hc Hc' Hg) as [|[|(cl & ? & ?)]]; eauto 6.
Qed.

Lemma nodup_sublist {A} (l1 l2 : list A) : l1 `sublist_of` l2 -> NoDup l2 -> NoDup l1.
Proof. intros H1 H2. by eapply sublist_NoDup. Qed.

Lemma sublist_keys {A B} (l1 l2 : list (A * B)) : l1 `sublist_of` l2 -> l1.*1 `sublist_of` l2.*1.
Proof. induction 1; cbn; by constructor. Qed.

Lemma tame_trans es r r1 r2 : tame es r r1 -> tame es r1 r2 -> tame es r r2.
Proof.
  intros [S1 K1 E1 C1 V1 L1 G1 H1 O1 N1 D1] [S2 K2 E2 C2 V2 L2 G2 H2 O2 N2 D2]. constructor.
  - by etrans.
  - intros p Hn Hp. destruct (K1 p Hn Hp) as [Hp1|[Hd|Hg]]; [|by auto|by auto].
    destruct (K2 p) as [|[|Hg]]; auto; [eapply nodup_sublist; [by apply sublist_keys|done]|]. right; right. intros e He.
    specialize (E1 p.2). rewrite He in E1. apply both_some_l in E1 as (e1 & He1 & T). rewrite <- (et_client _ _ T). auto.
  - intros k. eapply both_trans; [apply entry_tame_trans|apply E1|apply E2].
  - intros k. eapply both_trans; [apply call_tame_trans|apply C1|apply C2].
  - by etrans.
  - intros k c Hin Hout Hc. specialize (C2 k). rewrite Hc in C2. apply both_some_r in C2 as (c1 & Hc1 & T).
    destruct (decide (k ∈ rg_reservations r1)) as [Hm|Hm]; [by apply (L2 k)|].
    destruct (L1 k c1 Hin Hm Hc1) as [F1 F2]. split; [by apply T|]. destruct F2 as [F2|F2]; [left; by rewrite (ct_sent _ _ T)|].
    destruct (G2 k c1 c Hc1 Hc F2); [by right|done].
  - intros k c c2 Hc Hc2 Hg. specialize (C1 k). rewrite Hc in C1. apply both_some_l in C1 as (c1 & Hc1 & T).
    destruct (G1 k c c1 Hc Hc1 Hg) as [Hg1|]; [|by right]. destruct (G2 k c1 c2 Hc1 Hc2 Hg1) as [|Hin]; [by left|right].
    by eapply elem_of_sublist.
  - intros k c c2 Hin Hc Hc2 Hg. specialize (C1 k). rewrite Hc in C1. apply both_some_l in C1 as (c1 & Hc1 & T).
    apply (H1 k c c1); [by eapply elem_of_sublist|done|done|by apply (H2 k c1 c2)].
  - intros k c c2 Hc Hc2 Hg. specialize (C1 k). rewrite Hc in C1. apply both_some_l in C1 as (c1 & Hc1 & T).
    destruct (O2 k c1 c2 Hc1 Hc2 Hg) as [Hg1|[|(cl & Hcl & ?)]]; auto.
    + destruct (O1 k c c1 Hc Hc1 Hg1) as [|[|]]; auto.
    + right; right. exists cl. by rewrite <- (ct_rclient _ _ T).
  - lia.
  - auto.
Qed.

(** Operations that leave the calls and the list of sessions alone. *)
Lemma tame_entries es r r' :
  rg_sessions r' = rg_sessions r -> (forall k, both entry_tame (rg_entries r !! k) (rg_entries r' !! k)) ->
  rg_opens r' = rg_opens r -> rg_reservations r' = rg_reservations r -> (rg_next r <= rg_next r')%nat ->
  rg_shuttingDown r' = rg_shuttingDown r -> tame es r r'.
Proof.
  intros Hs He Ho Hr Hn Hd. constructor; rewrite ?Ho, ?Hr, ?Hd, ?Hs; try done; intros; simplify_eq; auto.
  by apply both_refl, call_tame_refl.
Qed.

Lemma same_entries r k : both entry_tame (rg_entries r !! k) (rg_entries r !! k).
Proof. by apply both_refl, entry_tame_refl. Qed.

(** One entry changed in a tame way. *)
Lemma alter_entries (m : gmap nat TerminalSessionEntry) k f j :
  (forall e, m !! k = Some e -> entry_tame e (f e)) -> both entry_tame (m !! j) (alter f k m !! j).
Proof.
  intros Hf. destruct (decide (k = j)) as [->|Hn]; [rewrite lookup_alter_eq|rewrite lookup_alter_ne by done; by apply both_refl, entry_tame_refl].
  destruct (m !! j) as [e|] eqn:E; cbn; auto.
Qed.

Lemma tame_update es k f r : (forall e, rg_entries r !! k = Some e -> entry_tame e (f e)) -> tame es r (update_entry k f r).
Proof. intros Hf. apply tame_entries; try done. intros j. by apply alter_entries. Qed.

Lemma sess_delete_sublist id m : sess_delete id m `sublist_of` m.
Proof. induction m as [|p m IH]; cbn; [constructor|]. destruct (negb _); by constructor. Qed.

Lemma sess_delete_other id m p : p ∈ m -> p.1 <> id -> p ∈ sess_delete id m.
Proof.
  intros Hp Hn. unfold sess_delete. rewrite list_elem_of_In, filter_In, <- list_elem_of_In. split; [done|].
  by rewrite bool_decide_eq_false_2.
Qed.

Lemma sess_get_in id k m : NoDup m.*1 -> (id, k) ∈ m -> sess_get id m = Some k.
Proof.
  induction m as [|[i j] m IH]; cbn; intros Hn Hin; [by apply not_elem_of_nil in Hin|].
  apply NoDup_cons in Hn as [H1 H2]. apply elem_of_cons in Hin as [Hin|Hin]; [simplify_eq; by rewrite decide_True|].
  rewrite decide_False; [auto|]. intros ->. apply H1. apply list_elem_of_fmap. by exists (id, k).
Qed.

Lemma sess_get_elem id k m : sess_get id m = Some k -> (id, k) ∈ m.
Proof.
  induction m as [|[i j] m IH]; cbn; [done|]. case_decide; intros; simplify_eq; [left|right; auto].
Qed.

(** A session leaves the list when it is known to be gone. *)
Lemma tame_delete es id r :
  (forall k e, NoDup (rg_sessions r).*1 -> (id, k) ∈ rg_sessions r -> rg_entries r !! k = Some e ->
    TeGone (en_client e) id ∈ es \/ TeLost (en_client e) ∈ es) ->
  tame es r (set_sessions (sess_delete id (rg_sessions r)) r).
Proof.
  intros Hg. constructor; cbn; try done; intros; simplify_eq; auto.
  - apply sess_delete_sublist.
  - destruct p as [i k]. destruct (decide (i = id)) as [->|]; [right; right; cbn; eauto|left; by apply sess_delete_other].
  - apply same_entries.
  - by apply both_refl, call_tame_refl.
Qed.

(** ** Changes of an entry *)

Lemma et_touched now e : entry_tame e (with_session (touched now (en_session e)) e).
Proof. constructor; cbn; auto. Qed.

Lemma et_attached now b v la e : entry_tame e (with_session (touched now (attached_as b (en_session e))) (with_viewer v la e)).
Proof. constructor; cbn; auto. Qed.

Lemma et_left b v la e : entry_tame e (with_session (attached_as b (en_session e)) (with_viewer v la e)).
Proof. constructor; cbn; auto. Qed.

Lemma et_exited exit now e : entry_tame e (markExited exit now e).
Proof. unfold markExited. constructor; cbn; try case_decide; cbn; auto. Qed.

Lemma et_cleaning c exit now e :
  c = cu_revoked \/ en_cleanupPending e = None -> entry_tame e (markExited exit now (with_cleanup (Some c) e)).
Proof.
  intros H. unfold markExited. constructor; cbn; try case_decide; cbn; auto; try (by destruct H as [->| ->]; eauto).
  all: by right.
Qed.

Lemma et_detached b v la now e :
  entry_tame e (let e := with_session (attached_as b (en_session e)) (with_viewer v la e) in with_session (touched now (en_session e)) e).
Proof. constructor; cbn; auto. Qed.

Lemma et_titled t e : entry_tame e (with_session (titled t (en_session e)) e).
Proof. constructor; cbn; auto. Qed.

Lemma et_resized c w now e : entry_tame e (with_session (touched now (resized c w (en_session e))) e).
Proof. constructor; cbn; auto. Qed.

Lemma et_gone exit now e : entry_tame e (with_session (touched now (exited_with exit (en_session e))) e).
Proof. constructor; cbn; auto. Qed.

Lemma et_viewer v la e : entry_tame e (with_viewer v la e).
Proof. constructor; cbn; auto. Qed.

Create HintDb terminals.
#[export] Hint Resolve et_detached et_titled et_resized et_gone et_viewer et_touched et_attached et_left et_exited entry_tame_refl : terminals.

(** ** Changes of a call *)

Lemma drop_sublist k l : List.filter (fun j : nat => negb (bool_decide (j = k))) l `sublist_of` l.
Proof. induction l as [|p m IH]; cbn; [constructor|]. destruct (negb _); by constructor. Qed.

Lemma drop_elem k j l : j ∈ List.filter (fun j : nat => negb (bool_decide (j = k))) l <-> j ∈ l /\ j <> k.
Proof. rewrite list_elem_of_In, filter_In, <- list_elem_of_In, negb_true_iff, bool_decide_eq_false. done. Qed.

(** A canceled call gives its seat back ([release]) when nothing was sent or its terminal is gone. *)
Record cancels (es : list terminal_effect) (k : nat) (release : bool) (r : registry) (c c' : OpenCall) : Prop := {
  cn_tame : call_tame c c';
  cn_canceled : rv_canceled (oc_reservation c') = true;
  cn_release : release = true -> rv_openSent (oc_reservation c') = false \/ scope_gone (oc_reservation c');
  cn_hold : release = false -> scope_gone (oc_reservation c') -> scope_gone (oc_reservation c);
  cn_lost : scope_gone (oc_reservation c') -> scope_gone (oc_reservation c) \/ rg_shuttingDown r = true \/
    exists client, rv_client (oc_reservation c) = Some client /\ TeLost client ∈ es;
  cn_gone : scope_gone (oc_reservation c) -> scope_gone (oc_reservation c') \/ k ∈ rg_reservations r;
}.

Lemma tame_cancels es k f release r :
  (forall c, rg_opens r !! k = Some c -> cancels es k release r c (f c)) ->
  tame es r (if release then drop_reservation k (update_call k f r) else update_call k f r).
Proof.
  intros Hf.
  assert (Hall : forall j c c', rg_opens r !! j = Some c -> alter f k (rg_opens r) !! j = Some c' ->
    j = k /\ cancels es k release r c c' \/ j <> k /\ c' = c).
  { intros j c c' Hc. destruct (decide (k = j)) as [->|]; [rewrite lookup_alter_eq|rewrite lookup_alter_ne by done].
    - rewrite Hc. cbn. intros; simplify_eq. auto.
    - rewrite Hc. intros; simplify_eq. auto. }
  assert (Hcalls : forall j, both call_tame (rg_opens r !! j) (alter f k (rg_opens r) !! j)).
  { intros j. destruct (decide (k = j)) as [->|]; [rewrite lookup_alter_eq|rewrite lookup_alter_ne by done; by apply both_refl, call_tame_refl].
    destruct (rg_opens r !! j) as [c|] eqn:E; cbn; [|done]. by apply (Hf c). }
  assert (Hsame : forall j c', alter f k (rg_opens r) !! j = Some c' -> exists c, rg_opens r !! j = Some c).
  { intros j c' Hc'. specialize (Hcalls j). rewrite Hc' in Hcalls. apply both_some_r in Hcalls as (c & ? & _). eauto. }
  set (r' := if release then _ else _).
  assert (rg_opens r' = alter f k (rg_opens r) /\ rg_sessions r' = rg_sessions r /\ rg_entries r' = rg_entries r /\
    rg_next r' = rg_next r /\ rg_shuttingDown r' = rg_shuttingDown r) as (Ho & Hs & He & Hn & Hd) by (by destruct release).
  assert (Hsub : rg_reservations r' `sublist_of` rg_reservations r) by (destruct release; [apply drop_sublist|done]).
  assert (Hin : forall j, j ∈ rg_reservations r' <-> j ∈ rg_reservations r /\ (release = true -> j <> k)).
  { intros j. subst r'. destruct release; cbn; [rewrite drop_elem|]; naive_solver. }
  constructor; rewrite ?Ho, ?Hs, ?He, ?Hn, ?Hd; try done; auto.
  - intros j. apply same_entries.
  - intros j c' Hj Hj' Hc'. destruct (Hsame _ _ Hc') as [c0 Hc0]. rewrite Hin in Hj'.
    destruct (Hall _ _ _ Hc0 Hc') as [[-> [] ]|[? ->]]; [|exfalso; auto]. destruct release; [auto|exfalso; naive_solver].
  - intros j c c' Hc Hc' Hg. destruct (Hall _ _ _ Hc Hc') as [[-> [] ]|[? ->]]; auto.
  - intros j c c' Hj Hc Hc' Hg. apply Hin in Hj as [? Hj].
    destruct (Hall _ _ _ Hc Hc') as [[-> [] ]|[? ->]]; auto. destruct release; [by destruct Hj|auto].
  - intros j c c' Hc Hc' Hg. destruct (Hall _ _ _ Hc Hc') as [[-> [] ]|[? ->]]; auto.
Qed.

Lemma call_tame_canceled reason c : call_tame c (with_reservation (canceled_by reason (oc_reservation c)) c).
Proof. constructor; cbn; try done. destruct reason; [by eexists|auto]. Qed.

Lemma not_gone_revoked v : scope_gone (canceled_by (Some se_revoked) v) <-> False.
Proof. unfold scope_gone; cbn. naive_solver. Qed.

Lemma tame_cancelReservation es k reason r :
  reason = se_shutdown /\ rg_shuttingDown r = true \/
  reason = se_runtime_disconnected /\
    (forall c, rg_opens r !! k = Some c -> exists client, rv_client (oc_reservation c) = Some client /\ TeLost client ∈ es) ->
  tame es r (cancelReservation k reason r).
Proof.
  intros Hr. apply (tame_cancels es k _ true). intros c Hc.
  assert (Hg : scope_gone (canceled_by (Some reason) (oc_reservation c))).
  { destruct Hr as [[-> _]|[-> _]]; [by right|by left]. }
  constructor; cbn; try done; auto using call_tame_canceled; destruct Hr as [[_ ?]|[_ ?]]; auto.
Qed.

Lemma tame_onAbort es k r : tame es r (onAbort k r).
Proof.
  unfold onAbort. destruct (rg_opens r !! k) as [c|] eqn:E; [|apply tame_refl].
  destruct (rv_openSent (oc_reservation c)) eqn:Es; cbv zeta;
    [apply (tame_cancels es k _ false)|apply (tame_cancels es k _ true)]; intros c0 Hc0; simplify_eq;
    (constructor; cbn; try done; auto; constructor; cbn; auto).
Qed.

Lemma tame_revoke_reservation es user env k r : k ∈ rg_reservations r -> tame es r (revoke_reservation user env k r).
Proof.
  intros Hin. unfold revoke_reservation. destruct (rg_opens r !! k) as [c|] eqn:E; [|apply tame_refl].
  case_match; [apply tame_refl|]. destruct (rv_openSent (oc_reservation c)) eqn:Es; cbv zeta;
    [apply (tame_cancels es k _ false)|apply (tame_cancels es k _ true)]; intros c0 Hc0; simplify_eq;
    (constructor; cbn; rewrite ?not_gone_revoked; try done; auto; apply call_tame_canceled).
Qed.

(** ** Loops *)

Lemma for_each_tame {A} es (f : A -> registry -> registry * list terminal_effect) xs r0 r :
  tame es r0 r -> (forall x r', x ∈ xs -> tame es r0 r' -> tame es r' (f x r').1) -> tame es r0 (for_each f xs r).1.
Proof.
  revert r. induction xs as [|x xs IH]; cbn; intros r H0 Hf; [done|].
  pose proof (Hf x r ltac:(left) H0) as H1. destruct (f x r) as [r1 e1]; cbn in H1.
  specialize (IH r1). destruct (for_each f xs r1) as [r2 e2]; cbn in *.
  apply IH; [by eapply tame_trans|]. intros; apply Hf; [by right|done].
Qed.

Lemma for_each_forall {A} (P : terminal_effect -> Prop) (f : A -> registry -> registry * list terminal_effect) xs r :
  (forall x r', Forall P (f x r').2) -> Forall P (for_each f xs r).2.
Proof.
  intros Hf. revert r. induction xs as [|x xs IH]; cbn; intros r; [constructor|].
  specialize (Hf x r). destruct (f x r) as [r1 e1]. specialize (IH r1). destruct (for_each f xs r1) as [r2 e2]; cbn in *.
  by apply Forall_app.
Qed.

Lemma fold_tame {A} es (f : A -> registry -> registry) xs r0 r :
  tame es r0 r -> (forall x r', x ∈ xs -> tame es r0 r' -> tame es r' (f x r')) ->
  tame es r0 (fold_left (fun r x => f x r) xs r).
Proof.
  revert r. induction xs as [|x xs IH]; cbn; intros r H0 Hf; [done|].
  apply IH; [eapply tame_trans; [done|]; apply Hf; [left|done]|]. intros; apply Hf; [by right|done].
Qed.

(** ** The tame operations *)

Lemma tame_closeTracked es id k reason r : tame es r (closeTrackedSession id k reason r).1.
Proof.
  unfold closeTrackedSession. case_decide; [apply tame_refl|]. destruct (rg_entries r !! k); [|apply tame_refl].
  apply tame_entries; cbn; try done; [apply same_entries|lia].
Qed.

Lemma tame_reapIdleNow es config now r : tame es r (reapIdleNow config now r).1.
Proof.
  apply for_each_tame; [apply tame_refl|]. intros [id k] r' _ _. unfold reap_one. case_decide; [apply tame_refl|].
  repeat case_match; try apply tame_refl; apply tame_closeTracked.
Qed.

Lemma tame_retire es answer now p r : tame es r (retire_one answer now p r).
Proof.
  destruct p as [id k]. unfold retire_one. destruct (rg_entries r !! k); [|apply tame_refl].
  repeat case_match; try apply tame_refl; apply tame_update; auto with terminals.
Qed.

Lemma tame_reconcile_listed es task client answer now r : tame es r (reconcile_listed task client answer now r).
Proof.
  unfold reconcile_listed. destruct (rg_reconciles r !! task) as [groups|]; [|apply tame_refl]. cbv zeta.
  match goal with |- tame _ _ (set_reconciles _ ?r') => apply (tame_trans _ _ r') end.
  - destruct answer as [sessions|]; [|apply tame_refl].
    apply (fold_tame es (retire_one sessions now)); [apply tame_refl|]. intros; apply tame_retire.
  - apply tame_entries; cbn; try done. apply same_entries.
Qed.

Lemma tame_reconcileDetached es user r : tame es r (reconcileDetached user r).1.1.
Proof. apply tame_entries; cbn; try done; [apply same_entries|lia]. Qed.

Lemma tame_ensureCloseHandler es client r : tame es r (ensureCloseHandler client r).1.
Proof.
  unfold ensureCloseHandler. case_decide; [apply tame_refl|]. apply tame_entries; cbn; try done. apply same_entries.
Qed.

(** The entry an operation starts from. *)
Lemma tame_find es id (f : nat -> TerminalSessionEntry -> registry) r :
  (forall k e, sess_get id (rg_sessions r) = Some k -> rg_entries r !! k = Some e -> tame es r (f k e)) ->
  tame es r (match find_entry id r with Some (k, e) => f k e | None => r end).
Proof.
  intros Hf. unfold find_entry. destruct (sess_get id _) as [k|] eqn:E; cbn; [|apply tame_refl].
  destruct (rg_entries r !! k) as [e|] eqn:Ee; cbn; [auto|apply tame_refl].
Qed.

Lemma tame_on_session es id f r :
  (forall e, entry_tame e (with_session (f (en_session e)) e)) -> tame es r (on_session id f r).
Proof. intros Hf. apply (tame_find _ _ (fun k _ => update_entry k _ r)). intros. apply tame_update. auto. Qed.

Lemma tame_recordExit es id exit now r : tame es r (recordExit id exit now r).
Proof. apply (tame_find _ _ (fun k _ => update_entry k _ r)). intros. apply tame_update. auto with terminals. Qed.

Lemma tame_completeLogin es id viewer r : tame es r (completeFirstLoginAttach id viewer r).
Proof.
  apply (tame_find _ _ (fun k e => if bool_decide _ && bool_decide _ then update_entry k _ r else r)).
  intros k e _ _. case_match; [|apply tame_refl].
  apply tame_update. auto with terminals.
Qed.

Lemma tame_rename es user id title r : tame es r (rename user id title r).1.
Proof.
  unfold rename. destruct (find_entry id r) as [[k e]|]; [|apply tame_refl]. case_decide; [|apply tame_refl].
  apply tame_update. auto with terminals.
Qed.

Lemma tame_attachViewer es id viewer now r : tame es r (attachViewer id viewer now r).1.
Proof.
  unfold attachViewer. destruct (find_entry id r) as [[k e]|]; [|apply tame_refl].
  destruct (en_loginAttach e) as [[]|]; try apply tame_refl; apply tame_update; auto with terminals.
Qed.

Lemma tame_close_start es user id r : tame es r (close_start user id r).1.
Proof.
  unfold close_start. destruct (find_entry id r) as [[k e]|]; [case_decide|];
    apply tame_entries; cbn; try done; try lia; apply same_entries.
Qed.

Lemma tame_detachViewer es id viewer now r : tame es r (detachViewer id viewer now r).1.1.
Proof.
  unfold detachViewer. destruct (find_entry id r) as [[k e]|] eqn:E; [|apply tame_refl].
  case_match; [apply tame_refl|]. case_match; [|cbn -[en_session]; apply tame_update; intros; apply et_detached].
  case_match eqn:Hc; [cbn; apply tame_update; auto with terminals|].
  match goal with |- context[update_entry k ?f r] => apply (tame_trans _ _ (update_entry k f r)); [apply tame_update; auto with terminals|] end.
  case_match; [cbn; apply tame_update; auto with terminals|].
  match goal with |- context[closeTrackedSession _ _ ?c ?r'] => apply (tame_trans _ _ r'); [|pose proof (tame_closeTracked es id k c r'); by destruct (closeTrackedSession _ _ _ _)] end.
  apply tame_update. intros e' He'. apply et_cleaning. right.
  apply bool_decide_eq_false in Hc. unfold find_entry in E. destruct (sess_get id (rg_sessions r)) as [j|]; [|done]. cbn in E.
  destruct (rg_entries r !! j) as [ej|] eqn:Ej; [|done]. cbn in E. simplify_eq. cbn in He'. rewrite lookup_alter_eq, Ej in He'.
  cbn in He'. simplify_eq. cbn. by apply eq_None_not_Some.

Qed.

Lemma tame_tracked_closed task ok now r : tame (tracked_closed task ok now r).2 r (tracked_closed task ok now r).1.
Proof.
  unfold tracked_closed. destruct (rg_tracked r !! task) as [[[id k] reason]|]; [|apply tame_refl]. cbv zeta.
  set (r1 := set_reaping _ _). assert (T1 : forall es, tame es r r1) by (intros es; apply tame_entries; cbn; try done; apply same_entries).
  destruct (rg_entries r1 !! k) as [e|] eqn:E; [|apply T1]. case_match; [apply T1|]. case_decide as Hg; [|apply T1].
  assert (Hd : forall es, TeGone (en_client e) id ∈ es -> tame es r1 (set_sessions (sess_delete id (rg_sessions r1)) r1)).
  { intros es Hin. apply tame_delete. intros k' e' Hn Hk' He'. left. rewrite (sess_get_in _ _ _ Hn Hk') in Hg. by simplify_eq. }
  destruct (en_viewer e); cbn [fst snd]; (eapply tame_trans; [apply T1|]); [|apply Hd; left].
  eapply tame_trans; [apply Hd; left|]. refine (tame_update _ k _ (set_sessions _ r1) _). cbn. auto with terminals.
Qed.

Lemma tame_user_closed task ok r : tame (user_closed task ok r).2 r (user_closed task ok r).1.
Proof.
  unfold user_closed. destruct (rg_closes r !! task) as [[id k]|]; [|apply tame_refl]. cbv zeta.
  set (r1 := set_closes _ _). assert (T1 : forall es, tame es r r1) by (intros es; apply tame_entries; cbn; try done; apply same_entries).
  destruct (rg_entries r1 !! k) as [e|] eqn:E; [|apply T1]. case_match; [apply T1|]. case_decide as Hg; [|apply T1].
  eapply tame_trans; [apply T1|]. apply tame_delete. intros k' e' Hn Hk' He'.
  left. rewrite (sess_get_in _ _ _ Hn Hk') in Hg. simplify_eq. left.
Qed.

(** ** Ends of a scope *)

Lemma tame_disconnected client now r : NoDup (rg_sessions r).*1 -> tame [TeLost client] r (handleRuntimeDisconnected client now r).1.
Proof.
  intros Hn. unfold handleRuntimeDisconnected. set (r1 := fold_left _ _ _).
  assert (T1 : tame [TeLost client] r r1).
  { apply (fold_tame _ (cancel_for_client client)); [apply tame_refl|]. intros k r' _ _. unfold cancel_for_client.
    destruct (rg_opens r' !! k) as [c|] eqn:E; [|apply tame_refl]. case_decide; [|apply tame_refl].
    apply tame_cancelReservation. right. split; [done|]. intros; simplify_eq. exists client. split; [done|left]. }
  assert (Hn1 : NoDup (rg_sessions r1).*1) by (eapply nodup_sublist; [apply sublist_keys, T1|done]).
  assert (T2 : tame [TeLost client] r1 (for_each (disconnect_one client now) (rg_sessions r1) r1).1).
  { apply for_each_tame; [apply tame_refl|]. intros [id k] r' Hin T. unfold disconnect_one.
    destruct (rg_entries r' !! k) as [e|] eqn:E; [|apply tame_refl]. case_match eqn:Hc; [apply tame_refl|]. cbn.
    apply negb_false_iff, bool_decide_eq_true in Hc.
    eapply tame_trans; [|refine (tame_update _ k _ (set_sessions _ r') _); cbn; auto with terminals]. apply tame_delete. intros k' e' _ Hk' He'. right.
    assert (Hk1 : (id, k') ∈ rg_sessions r1) by (eapply elem_of_sublist; [done|apply T]).
    apply (sess_get_in _ _ _ Hn1) in Hin, Hk1. simplify_eq. left. }
  destruct (for_each _ _ _) as [r2 e2]; cbn in *. by eapply tame_trans.
Qed.

Lemma tame_revoke_all es user env xs r : NoDup xs -> xs ⊆ rg_reservations r ->
  tame es r (fold_left (fun r k => revoke_reservation user env k r) xs r).
Proof.
  revert r. induction xs as [|k xs IH]; intros r Hn Hs; cbn; [apply tame_refl|]. apply NoDup_cons in Hn as [Hk Hn].
  eapply tame_trans; [apply tame_revoke_reservation; apply Hs; left|]. apply IH; [done|]. intros j Hj.
  assert (Hjr : j ∈ rg_reservations r) by (apply Hs; by right). assert (j <> k) by congruence.
  unfold revoke_reservation. repeat case_match; try done. cbn. by apply drop_elem.
Qed.

Lemma tame_revoke_entry es user env now p r : tame es r (revoke_entry user env now p r).1.
Proof.
  destruct p as [id k]. unfold revoke_entry. destruct (rg_entries r !! k) as [e|] eqn:E; [|apply tame_refl]. case_match; [apply tame_refl|].
  match goal with |- context[closeTrackedSession _ _ ?c ?r'] => apply (tame_trans _ _ r'); [|pose proof (tame_closeTracked es id k c r'); by destruct (closeTrackedSession _ _ _ _)] end.
  apply tame_update. intros e' He'. simplify_eq. apply et_cleaning. by left.
Qed.

Lemma tame_revokeScope es user env now r : NoDup (rg_reservations r) -> tame es r (revokeScope user env now r).1.
Proof.
  intros Hn. unfold revokeScope. eapply tame_trans; [by apply (tame_revoke_all es user env)|].
  apply for_each_tame; [apply tame_refl|]. intros. apply tame_revoke_entry.
Qed.

Lemma tame_closeAll es r : tame es r (closeAll r).1.
Proof.
  unfold closeAll. cbv zeta. cbn [fst]. set (r0 := set_shuttingDown true r). set (r1 := fold_left _ _ _).
  assert (T0 : tame es r r0).
  { constructor; cbn; try done; intros; simplify_eq; auto; [apply same_entries|by apply both_refl, call_tame_refl]. }
  assert (T1 : tame es r0 r1).
  { apply (fold_tame _ (fun k => cancelReservation k se_shutdown)); [apply tame_refl|]. intros k r' _ T.
    apply tame_cancelReservation. left. split; [done|]. by apply T. }
  eapply tame_trans; [apply T0|]. eapply tame_trans; [apply T1|].
  constructor; cbn; try done; intros; simplify_eq; auto using sublist_nil_l, same_entries.
  - right; left. by apply T1.
  - by apply both_refl, call_tame_refl.
Qed.

Lemma call_tame_aborted c : call_tame c (with_aborted c).
Proof. constructor; cbn; auto. Qed.

Lemma tame_with_aborted es k r : tame es r (update_call k with_aborted r).
Proof.
  assert (Hsame : forall j c0 c', rg_opens r !! j = Some c0 -> alter with_aborted k (rg_opens r) !! j = Some c' ->
    call_tame c0 c' /\ oc_reservation c' = oc_reservation c0).
  { intros j c0 c' H0. destruct (decide (k = j)) as [->|]; [rewrite lookup_alter_eq|rewrite lookup_alter_ne by done]; rewrite H0;
      cbn; intros; simplify_eq; auto using call_tame_refl, call_tame_aborted. }
  constructor; cbn; try done; auto using same_entries.
  - intros j. destruct (rg_opens r !! j) as [c0|] eqn:E0.
    + destruct (decide (k = j)) as [->|]; [rewrite lookup_alter_eq|rewrite lookup_alter_ne by done]; rewrite E0; cbn;
        [apply call_tame_aborted|apply call_tame_refl].
    + destruct (decide (k = j)) as [->|]; [rewrite lookup_alter_eq|rewrite lookup_alter_ne by done]; by rewrite E0.
  - intros j c0 c1 H0 H1 Hg. destruct (Hsame _ _ _ H0 H1) as [_ ->]. auto.
  - intros j c0 c1 _ H0 H1 Hg. destruct (Hsame _ _ _ H0 H1) as [_ <-]. auto.
  - intros j c0 c1 H0 H1 Hg. destruct (Hsame _ _ _ H0 H1) as [_ <-]. auto.
Qed.

Lemma tame_aborted es k r : tame es r (open_aborted k r).
Proof.
  unfold open_aborted. destruct (rg_opens r !! k) as [c|]; [|apply tame_refl].
  destruct (oc_stage c); auto using tame_refl, tame_onAbort, tame_with_aborted.
Qed.
