(* ===== verification/TerminalSessionsMoves.v ===== *)
(** * Terminal sessions: moves

    Every operation of the registry is a sequence of a few moves: a tame change, a new call of [open], its reservation, its
    progress, the request it sends, the session it registers, its end. What holds of every run is proved once per move. *)

From S2P Require Import Prelude TerminalWire TerminalRelay TerminalSessions TerminalSessionsFacts.

(** ** Stages *)

(** A reservation is held from the capacity check to the end. *)
Definition reserved_stage (s : open_stage) : bool :=
  match s with open_begun | at_reconcile _ | open_done => false | _ => true end.

(** The request is out: there may be a terminal. *)
Definition sent_stage (s : open_stage) : bool :=
  match s with at_open | at_late_close _ _ | at_error_close _ => true | _ => false end.

Definition is_done (s : open_stage) : bool := match s with open_done => true | _ => false end.

(** The client is known from here on. *)
Definition client_stage (s : open_stage) : bool := match s with at_toolchain => true | s => sent_stage s end.

Definition late_stage (s : open_stage) : bool := match s with at_late_close _ _ => true | _ => false end.

(** ** The invariant *)

Record reg_inv (randomId : nat -> jstring) (r : registry) : Prop := {
  iv_res : NoDup (rg_reservations r);
  iv_keys : NoDup (rg_sessions r).*1;
  iv_held : forall k c, rg_opens r !! k = Some c -> reserved_stage (oc_stage c) = true ->
    k ∈ rg_reservations r \/ rv_canceled (oc_reservation c) = true /\
      (rv_openSent (oc_reservation c) = false \/ scope_gone (oc_reservation c));
  iv_sent : forall k c, rg_opens r !! k = Some c -> reserved_stage (oc_stage c) = true ->
    rv_openSent (oc_reservation c) = sent_stage (oc_stage c);
  iv_scope : forall k c, rg_opens r !! k = Some c -> rv_canceled (oc_reservation c) = false -> rv_scopeEnded (oc_reservation c) = None;
  iv_only : forall k, k ∈ rg_reservations r ->
    exists c, rg_opens r !! k = Some c /\ reserved_stage (oc_stage c) = true /\ ~ scope_gone (oc_reservation c);
  iv_calls : forall k c, rg_opens r !! k = Some c -> (k < rg_next r)%nat;
  iv_entries : forall k e, rg_entries r !! k = Some e -> (k < rg_next r)%nat;
  iv_fresh : forall k c, rg_opens r !! k = Some c -> is_done (oc_stage c) = false -> rg_entries r !! k = None;
  iv_listed : forall p, p ∈ rg_sessions r -> p.1 = randomId p.2 /\ exists e, rg_entries r !! p.2 = Some e;
  iv_cleanup : forall k e, rg_entries r !! k = Some e -> is_Some (en_cleanupPending e) -> ts_status (en_session e) = st_exited;
  iv_client : forall k c, rg_opens r !! k = Some c -> client_stage (oc_stage c) = true ->
    rv_client (oc_reservation c) = Some (oc_client c);
  iv_late : forall k c, rg_opens r !! k = Some c -> late_stage (oc_stage c) = true -> rv_canceled (oc_reservation c) = true;
}.

(** ** Moves *)

(** Notices of the registry only ever tell of a disconnection. *)
Definition plain (e : terminal_effect) : bool :=
  match e with TeNotice _ n => match tn_kind n with nk_dropped => false | _ => true end | _ => true end.

(** Nothing is asked of a runtime that could start a terminal. *)
Definition quiet (e : terminal_effect) : bool := match e with TeOpen _ _ _ _ _ _ _ _ _ _ => false | e => plain e end.

(** A call that waits on, nothing new being sent. *)
Record advances (c c' : OpenCall) : Prop := {
  ad_user : oc_user c' = oc_user c;
  ad_body : oc_body c' = oc_body c;
  ad_config : oc_config c' = oc_config c;
  ad_from : reserved_stage (oc_stage c) = true;
  ad_to : reserved_stage (oc_stage c') = true;
  ad_canceled : rv_canceled (oc_reservation c') = rv_canceled (oc_reservation c);
  ad_scope : rv_scopeEnded (oc_reservation c') = rv_scopeEnded (oc_reservation c);
  ad_openSent : rv_openSent (oc_reservation c') = rv_openSent (oc_reservation c);
  ad_sent : sent_stage (oc_stage c') = sent_stage (oc_stage c);
  ad_same : client_stage (oc_stage c) = true -> oc_client c' = oc_client c;
  ad_client : client_stage (oc_stage c') = true -> rv_client (oc_reservation c') = Some (oc_client c');
  ad_late : late_stage (oc_stage c') = true -> rv_canceled (oc_reservation c') = true;
}.

Lemma sess_set_elem id k p m : p ∈ sess_set id k m -> p = (id, k) \/ p ∈ m.
Proof.
  induction m as [|[i j] m IH]; cbn; [rewrite list_elem_of_singleton; auto|].
  case_decide; rewrite !elem_of_cons; [tauto|]. intros [|Hin]; [auto|]. destruct (IH Hin); auto.
Qed.

Lemma sess_set_nodup id k m : NoDup m.*1 -> NoDup (sess_set id k m).*1.
Proof.
  induction m as [|[i j] m IH]; cbn; intros Hn; [apply NoDup_singleton|]. apply NoDup_cons in Hn as [H1 H2].
  case_decide; cbn; [subst; by constructor|]. constructor; [|auto]. intros Hin. apply list_elem_of_fmap in Hin as (p & -> & Hin).
  destruct (sess_set_elem _ _ _ _ Hin) as [->|Hin2]; [done|]. apply H1. apply list_elem_of_fmap. eauto.
Qed.

Section Moves.
  Context (randomId : nat -> jstring) (allowed : TerminalConfig -> Prop).

Inductive move : list terminal_effect -> registry -> registry -> Prop :=
| mv_tame es r r' : Forall quiet es -> tame es r r' -> move es r r'
| mv_create c r : allowed (oc_config c) -> oc_stage c = open_begun -> oc_reservation c = new_reservation ->
    move [] r (set_next (S (rg_next r)) (set_opens (<[rg_next r := c]> (rg_opens r)) r))
| mv_stage k c s r : rg_opens r !! k = Some c -> reserved_stage (oc_stage c) = false -> is_done (oc_stage c) = false ->
    reserved_stage s = false -> is_done s = false -> move [] r (update_call k (with_stage s) r)
| mv_reserve k c s r : rg_opens r !! k = Some c -> reserved_stage (oc_stage c) = false -> is_done (oc_stage c) = false ->
    reserved_stage s = true -> client_stage s = false -> rg_shuttingDown r = false ->
    countRunning (oc_user c) r < tc_maxSessionsPerUser (oc_config c) ->
    move [] r (update_call k (fun c => with_stage s (with_reservation new_reservation c)) (set_reservations (rg_reservations r ++ [k]) r))
| mv_advance es k c f r : Forall quiet es -> rg_opens r !! k = Some c -> advances c (f c) -> move es r (update_call k f r)
| mv_send k c cols rows bytes login shell cwd chat toolchain r : rg_opens r !! k = Some c -> oc_stage c = at_toolchain ->
    rv_canceled (oc_reservation c) = false ->
    move [TeOpen (oc_client c) (randomId k) cols rows bytes login shell cwd chat toolchain] r
      (update_call k (fun c => with_stage at_open (with_reservation (sent (oc_reservation c)) c)) r)
| mv_register es k c shell cwd status now r : Forall quiet es -> rg_opens r !! k = Some c -> sent_stage (oc_stage c) = true ->
    rv_scopeEnded (oc_reservation c) = match status with st_running => None | st_exited => Some se_revoked end ->
    move es r (update_call k (with_stage open_done) (registerSession randomId k c shell cwd status now r))
| mv_finish es k c r : Forall quiet es -> rg_opens r !! k = Some c ->
    (sent_stage (oc_stage c) = true -> TeGone (oc_client c) (randomId k) ∈ es \/ scope_gone (oc_reservation c)) ->
    move es r (drop_reservation k (update_call k (with_stage open_done) r)).

Inductive moves : list terminal_effect -> registry -> registry -> Prop :=
| mvs_nil r : moves [] r r
| mvs_cons es1 es2 r r1 r2 : move es1 r r1 -> moves es2 r1 r2 -> moves (es1 ++ es2) r r2.

Lemma moves_one es r r' : move es r r' -> moves es r r'.
Proof. intros H. rewrite <- (app_nil_r es). econstructor; [done|constructor]. Qed.

Lemma moves_app es1 es2 r r1 r2 : moves es1 r r1 -> moves es2 r1 r2 -> moves (es1 ++ es2) r r2.
Proof. induction 1; cbn; intros; [done|]. rewrite <- app_assoc. econstructor; eauto. Qed.

Lemma moves_tame es r r' : Forall quiet es -> tame es r r' -> moves es r r'.
Proof. intros. by apply moves_one, mv_tame. Qed.

Lemma moves_silent r r' : tame [] r r' -> moves [] r r'.
Proof. intros. by apply moves_tame. Qed.

Lemma moves_quiet es r r' : Forall quiet es -> moves [] r r' -> moves es r r'.
Proof.
  intros Hq H. change es with ([] ++ es). eapply moves_app; [done|]. apply moves_tame; [done|apply tame_refl].
Qed.

(** ** A tame change keeps the invariant *)

Lemma tame_call es r r' k c' : tame es r r' -> rg_opens r' !! k = Some c' -> exists c, rg_opens r !! k = Some c /\ call_tame c c'.
Proof. intros T H. pose proof (tm_calls _ _ _ T k) as B. rewrite H in B. by apply both_some_r. Qed.

Lemma tame_entry es r r' k e' : tame es r r' -> rg_entries r' !! k = Some e' -> exists e, rg_entries r !! k = Some e /\ entry_tame e e'.
Proof. intros T H. pose proof (tm_entries _ _ _ T k) as B. rewrite H in B. by apply both_some_r. Qed.

Lemma tame_entry_l es r r' k e : tame es r r' -> rg_entries r !! k = Some e -> exists e', rg_entries r' !! k = Some e' /\ entry_tame e e'.
Proof. intros T H. pose proof (tm_entries _ _ _ T k) as B. rewrite H in B. by apply both_some_l. Qed.

Lemma tame_call_l es r r' k c : tame es r r' -> rg_opens r !! k = Some c -> exists c', rg_opens r' !! k = Some c' /\ call_tame c c'.
Proof. intros T H. pose proof (tm_calls _ _ _ T k) as B. rewrite H in B. by apply both_some_l. Qed.

Lemma tame_fresh es r r' k : tame es r r' -> rg_entries r !! k = None -> rg_entries r' !! k = None.
Proof. intros T H. pose proof (tm_entries _ _ _ T k) as B. rewrite H in B. by destruct (rg_entries r' !! k). Qed.

Lemma tame_inv es r r' : tame es r r' -> reg_inv randomId r -> reg_inv randomId r'.
Proof.
  intros T I. constructor.
  - eapply nodup_sublist; [apply T|apply I].
  - eapply nodup_sublist; [apply sublist_keys, T|apply I].
  - intros k c' Hc' Hs. destruct (tame_call _ _ _ _ _ T Hc') as (c & Hc & TC). rewrite (ct_stage _ _ TC) in Hs.
    destruct (decide (k ∈ rg_reservations r')); [by left|right].
    destruct (iv_held _ _ I k c Hc Hs) as [Hin|[Hk Hg]]; [by eapply tm_released|].
    destruct (decide (k ∈ rg_reservations r)); [by eapply tm_released|].
    split; [by apply TC|]. rewrite (ct_sent _ _ TC). destruct Hg as [|Hg]; [by left|right].
    by destruct (tm_gone _ _ _ T k c c' Hc Hc' Hg).
  - intros k c' Hc' Hs. destruct (tame_call _ _ _ _ _ T Hc') as (c & Hc & TC). rewrite (ct_stage _ _ TC), (ct_sent _ _ TC) in *.
    by eapply iv_sent.
  - intros k c' Hc' Hs. destruct (tame_call _ _ _ _ _ T Hc') as (c & Hc & TC). rewrite (ct_ended _ _ TC Hs).
    eapply iv_scope; [done..|]. destruct (rv_canceled (oc_reservation c)) eqn:E; [|done]. by rewrite (ct_canceled _ _ TC E) in Hs.
  - intros k Hk. destruct (iv_only _ _ I k) as (c & Hc & Hs & Hg); [eapply elem_of_sublist; [done|apply T]|].
    destruct (tame_call_l _ _ _ _ _ T Hc) as (c' & Hc' & TC). exists c'. rewrite (ct_stage _ _ TC). split; [done|]. split; [done|].
    intros Hg'. apply Hg. by eapply tm_held.
  - intros k c' Hc'. destruct (tame_call _ _ _ _ _ T Hc') as (c & Hc & _). pose proof (iv_calls _ _ I k c Hc). pose proof (tm_next _ _ _ T). lia.
  - intros k e' He'. destruct (tame_entry _ _ _ _ _ T He') as (e & He & _). pose proof (iv_entries _ _ I k e He). pose proof (tm_next _ _ _ T). lia.
  - intros k c' Hc' Hs. destruct (tame_call _ _ _ _ _ T Hc') as (c & Hc & TC). rewrite (ct_stage _ _ TC) in Hs.
    eapply tame_fresh; [done|]. by eapply iv_fresh.
  - intros p Hp. destruct (iv_listed _ _ I p) as (H1 & e & He); [eapply elem_of_sublist; [done|apply T]|].
    destruct (tame_entry_l _ _ _ _ _ T He) as (e' & He' & _). eauto.
  - intros k e' He' Hc. destruct (tame_entry _ _ _ _ _ T He') as (e & He & TE). destruct (et_cleaned _ _ TE Hc) as [|]; [|done].
    apply TE. by eapply iv_cleanup.
  - intros k c' Hc' Hs. destruct (tame_call _ _ _ _ _ T Hc') as (c & Hc & TC).
    rewrite (ct_stage _ _ TC), (ct_rclient _ _ TC), (ct_client _ _ TC) in *. by eapply iv_client.
  - intros k c' Hc' Hs. destruct (tame_call _ _ _ _ _ T Hc') as (c & Hc & TC). rewrite (ct_stage _ _ TC) in Hs.
    apply TC. by eapply iv_late.
Qed.

(** ** One call changes *)

Lemma alter_cases {A} (m : gmap nat A) k f j x' : alter f k m !! j = Some x' ->
  j = k /\ (exists x, m !! k = Some x /\ x' = f x) \/ j <> k /\ m !! j = Some x'.
Proof.
  destruct (decide (k = j)) as [->|]; [rewrite lookup_alter_eq|rewrite lookup_alter_ne by done; auto].
  destruct (m !! j) eqn:E; cbn; [|done]. intros; simplify_eq. eauto.
Qed.

Lemma inv_call k c f res r : reg_inv randomId r -> rg_opens r !! k = Some c -> NoDup res ->
  (forall j, j <> k -> j ∈ res <-> j ∈ rg_reservations r) ->
  (reserved_stage (oc_stage (f c)) = true -> k ∈ res \/ rv_canceled (oc_reservation (f c)) = true /\
    (rv_openSent (oc_reservation (f c)) = false \/ scope_gone (oc_reservation (f c)))) ->
  (reserved_stage (oc_stage (f c)) = true -> rv_openSent (oc_reservation (f c)) = sent_stage (oc_stage (f c))) ->
  (rv_canceled (oc_reservation (f c)) = false -> rv_scopeEnded (oc_reservation (f c)) = None) ->
  (k ∈ res -> reserved_stage (oc_stage (f c)) = true /\ ~ scope_gone (oc_reservation (f c))) ->
  (is_done (oc_stage (f c)) = false -> is_done (oc_stage c) = false) ->
  (client_stage (oc_stage (f c)) = true -> rv_client (oc_reservation (f c)) = Some (oc_client (f c))) ->
  (late_stage (oc_stage (f c)) = true -> rv_canceled (oc_reservation (f c)) = true) ->
  reg_inv randomId (set_reservations res (update_call k f r)).
Proof.
  intros I Hc Hn Hres Hheld Hsent Hscope Honly Hdone Hcl Hlate.
  assert (HA : forall (P : nat -> OpenCall -> Prop), P k (f c) -> (forall j d, j <> k -> rg_opens r !! j = Some d -> P j d) ->
    forall j d, alter f k (rg_opens r) !! j = Some d -> P j d).
  { intros P H1 H2 j d Hd. destruct (alter_cases _ _ _ _ _ Hd) as [[-> (x & Hx & ->)]|[? ?]]; [by simplify_eq|auto]. }
  constructor; cbn; try apply I; try done.
  - refine (HA _ _ _); [done|]. intros j d Hj Hd Hs. rewrite Hres by done. by eapply iv_held.
  - refine (HA _ _ _); [done|]. intros j d Hj Hd Hs. by eapply iv_sent.
  - refine (HA _ _ _); [done|]. intros j d Hj Hd Hs. by eapply iv_scope.
  - intros j Hj. destruct (decide (j = k)) as [->|Hjk].
    + exists (f c). rewrite lookup_alter_eq, Hc. auto.
    + rewrite lookup_alter_ne by done. eapply iv_only; [done|]. by apply Hres.
  - refine (HA _ _ _); [by eapply iv_calls|]. intros j d _. by apply (iv_calls _ _ I).
  - refine (HA _ _ _); [intros; eapply iv_fresh; eauto|]. intros j d Hj Hd Hs. by eapply iv_fresh.
  - refine (HA _ _ _); [done|]. intros j d Hj Hd Hs. by eapply iv_client.
  - refine (HA _ _ _); [done|]. intros j d Hj Hd Hs. by eapply iv_late.
Qed.

(** A call that is not reserved has no seat. *)
Lemma unreserved_out k c r : reg_inv randomId r -> rg_opens r !! k = Some c -> reserved_stage (oc_stage c) = false -> k ∉ rg_reservations r.
Proof. intros I Hc Hs Hin. destruct (iv_only _ _ I k Hin) as (c' & Hc' & Hs' & _). congruence. Qed.

Lemma drop_out k l : k ∉ l -> List.filter (fun j : nat => negb (bool_decide (j = k))) l = l.
Proof.
  induction l as [|x l IH]; cbn; [done|]. rewrite not_elem_of_cons. intros [H1 H2]. rewrite bool_decide_eq_false_2 by done. cbn. by rewrite IH.
Qed.

Lemma drop_nodup k l : NoDup l -> NoDup (List.filter (fun j : nat => negb (bool_decide (j = k))) l).
Proof. apply nodup_sublist, drop_sublist. Qed.

Lemma inv_done k c r : reg_inv randomId r -> rg_opens r !! k = Some c ->
  reg_inv randomId (drop_reservation k (update_call k (with_stage open_done) r)).
Proof.
  intros I Hc. apply (inv_call k c); auto; cbn; try done.
  - apply drop_nodup, I.
  - intros j Hj. rewrite drop_elem. naive_solver.
  - by eapply iv_scope.
  - rewrite drop_elem. naive_solver.
Qed.

Lemma inv_add k c e r : reg_inv randomId r -> rg_opens r !! k = Some c -> is_done (oc_stage c) = true -> rg_entries r !! k = None ->
  (is_Some (en_cleanupPending e) -> ts_status (en_session e) = st_exited) ->
  reg_inv randomId (set_sessions (sess_set (randomId k) k (rg_sessions r)) (set_entries (<[k := e]> (rg_entries r)) r)).
Proof.
  intros I Hc Hd He Hcl.
  pose proof (fun p => sess_set_elem (randomId k) k p (rg_sessions r)) as Hset.
  pose proof (sess_set_nodup (randomId k) k _ (iv_keys _ _ I)) as Hkeys.
  constructor; cbn; try apply I; try done.
  - intros j d Hj. destruct (decide (k = j)) as [->|]; [by eapply iv_calls|rewrite lookup_insert_ne in Hj by done; by eapply iv_entries].
  - intros j d Hj Hs. destruct (decide (k = j)) as [->|]; [simplify_eq; congruence|rewrite lookup_insert_ne by done; by eapply iv_fresh].
  - intros p Hp. destruct (Hset p Hp) as [->|Hp']; cbn; [rewrite lookup_insert_eq; eauto|].
    destruct (iv_listed _ _ I p Hp') as [H1 [e' He']]. split; [done|]. rewrite lookup_insert_ne by congruence. eauto.
  - intros j d Hj. destruct (decide (k = j)) as [->|].
    + rewrite lookup_insert_eq in Hj. by simplify_eq.
    + rewrite lookup_insert_ne in Hj by done. by eapply iv_cleanup.
Qed.

Lemma inv_register k c shell cwd status now r : reg_inv randomId r -> rg_opens r !! k = Some c -> sent_stage (oc_stage c) = true ->
  reg_inv randomId (update_call k (with_stage open_done) (registerSession randomId k c shell cwd status now r)).
Proof.
  intros I Hc Hs. pose proof (inv_done k c r I Hc) as I1.
  refine (inv_add k (with_stage open_done c) _ (drop_reservation k (update_call k (with_stage open_done) r)) I1 _ _ _ _); cbn.
  - by rewrite lookup_alter_eq, Hc.
  - done.
  - eapply iv_fresh; [done..|]. by destruct (oc_stage c).
  - destruct status; cbn; [by intros [? ?]|done].
Qed.

Lemma reserved_live s : reserved_stage s = true -> is_done s = false.
Proof. by destruct s. Qed.

Lemma sent_reserved s : sent_stage s = true -> reserved_stage s = true.
Proof. by destruct s. Qed.

Lemma inv_create c r : oc_stage c = open_begun -> oc_reservation c = new_reservation -> reg_inv randomId r ->
  reg_inv randomId (set_next (S (rg_next r)) (set_opens (<[rg_next r := c]> (rg_opens r)) r)).
Proof.
  intros Hs Hv I.
  assert (HA : forall (P : nat -> OpenCall -> Prop), P (rg_next r) c -> (forall j d, rg_opens r !! j = Some d -> P j d) ->
    forall j d, <[rg_next r := c]> (rg_opens r) !! j = Some d -> P j d).
  { intros P H1 H2 j d Hd. destruct (decide (rg_next r = j)) as [<-|]; [rewrite lookup_insert_eq in Hd|rewrite lookup_insert_ne in Hd by done];
      [by simplify_eq|auto]. }
  constructor; cbn; try apply I.
  - refine (HA _ _ _); [by rewrite Hs|apply I].
  - refine (HA _ _ _); [by rewrite Hs|apply I].
  - refine (HA _ _ _); [by rewrite Hv|apply I].
  - intros j Hj. destruct (iv_only _ _ I j Hj) as (d & Hd & ?). exists d. rewrite lookup_insert_ne; [done|].
    pose proof (iv_calls _ _ I j d Hd). lia.
  - refine (HA _ _ _); [lia|]. intros j d Hd. pose proof (iv_calls _ _ I j d Hd). lia.
  - intros j e He. pose proof (iv_entries _ _ I j e He). lia.
  - refine (HA _ _ _); [|apply I]. intros _. destruct (rg_entries r !! rg_next r) eqn:E; [|done]. pose proof (iv_entries _ _ I _ _ E). lia.
  - refine (HA _ _ _); [by rewrite Hs|apply I].
  - refine (HA _ _ _); [by rewrite Hs|apply I].
Qed.

Lemma inv_advance k c f r : rg_opens r !! k = Some c -> advances c (f c) -> reg_inv randomId r -> reg_inv randomId (update_call k f r).
Proof.
  intros Hc A I. refine (inv_call k c f (rg_reservations r) r I Hc (iv_res _ _ I) _ _ _ _ _ _ _ _); try done; try apply A.
  - intros _. destruct (iv_held _ _ I k c Hc (ad_from _ _ A)) as [|[H1 H2]]; [by left|right].
    unfold scope_gone. by rewrite (ad_canceled _ _ A), (ad_openSent _ _ A), (ad_scope _ _ A).
  - intros _. rewrite (ad_openSent _ _ A), (ad_sent _ _ A). eapply iv_sent; [done..|apply A].
  - rewrite (ad_canceled _ _ A), (ad_scope _ _ A). by eapply iv_scope.
  - intros Hin. destruct (iv_only _ _ I k Hin) as (d & Hd & _ & Hg). simplify_eq. split; [apply A|].
    unfold scope_gone. by rewrite (ad_scope _ _ A).
  - intros _. apply reserved_live, A.
Qed.

Lemma inv_send k c r : rg_opens r !! k = Some c -> oc_stage c = at_toolchain -> rv_canceled (oc_reservation c) = false ->
  reg_inv randomId r -> reg_inv randomId (update_call k (fun c => with_stage at_open (with_reservation (sent (oc_reservation c)) c)) r).
Proof.
  intros Hc Hs Hk I. refine (inv_call k c _ (rg_reservations r) r I Hc (iv_res _ _ I) _ _ _ _ _ _ _ _); cbn; try done.
  - intros _. left. destruct (iv_held _ _ I k c Hc) as [|[? _]]; [by rewrite Hs|done|congruence].
  - intros Hf. by eapply iv_scope.
  - intros Hin. destruct (iv_only _ _ I k Hin) as (d & Hd & _ & Hg). by simplify_eq.
  - by rewrite Hs.
  - intros _. eapply iv_client; [done..|]. by rewrite Hs.
Qed.

Lemma inv_reserve k c s r : rg_opens r !! k = Some c -> reserved_stage (oc_stage c) = false -> is_done (oc_stage c) = false ->
  reserved_stage s = true -> client_stage s = false -> reg_inv randomId r ->
  reg_inv randomId (update_call k (fun c => with_stage s (with_reservation new_reservation c)) (set_reservations (rg_reservations r ++ [k]) r)).
Proof.
  intros Hc Hr Hd Hs Hcl I. pose proof (unreserved_out k c r I Hc Hr) as Hout.
  refine (inv_call k c _ (rg_reservations r ++ [k]) r I Hc _ _ _ _ _ _ _ _ _); cbn; try done.
  - apply NoDup_app. split; [apply I|]. split; [|apply NoDup_singleton]. intros x Hx Hk. apply list_elem_of_singleton in Hk. congruence.
  - intros j Hj. rewrite elem_of_app, list_elem_of_singleton. naive_solver.
  - intros _. left. rewrite elem_of_app, list_elem_of_singleton. by right.
  - by destruct s.
  - intros _. split; [done|]. unfold scope_gone. cbn. naive_solver.
  - congruence.
  - by destruct s.
Qed.

Lemma move_inv es r r' : move es r r' -> reg_inv randomId r -> reg_inv randomId r'.
Proof.
  intros M I. destruct M as [es r r' _ T|c r _ Hs Hv|k c s r Hc Hr Hd Hs Hd'|k c s r Hc Hr Hd Hs Hcl Hsd Hcount
    |es k c f r _ Hc A|k c cols rows bytes login shell cwd chat tool r Hc Hs Hk|es k c shell cwd status now r _ Hc Hs Hsc|es k c r _ Hc Hg].
  - by eapply tame_inv.
  - by apply inv_create.
  - refine (inv_call k c _ (rg_reservations r) r I Hc (iv_res _ _ I) _ _ _ _ _ _ _ _); cbn; try done; try congruence.
    + by eapply iv_scope.
    + intros Hin. by apply (unreserved_out k c r I Hc Hr) in Hin.
    + by destruct s.
    + by destruct s.
  - by eapply inv_reserve.
  - by eapply inv_advance.
  - by eapply inv_send.
  - by apply inv_register.
  - by eapply inv_done.
Qed.

Lemma moves_inv es r r' : moves es r r' -> reg_inv randomId r -> reg_inv randomId r'.
Proof. induction 1; eauto using move_inv. Qed.

(** ** Every operation is a sequence of moves *)

(** [p] is what an operation gives from [r]. *)
Definition by_moves (r : registry) (p : registry * list terminal_effect) : Prop := moves p.2 r p.1.

Lemma by_tame r p : Forall quiet p.2 -> tame p.2 r p.1 -> by_moves r p.
Proof. intros. by apply moves_tame. Qed.

Lemma by_refl r es : Forall quiet es -> by_moves r (r, es).
Proof. intros. apply by_tame; [done|apply tame_refl]. Qed.

Lemma by_fail k c error r : rg_opens r !! k = Some c -> sent_stage (oc_stage c) = false -> by_moves r (fail_open k error r).
Proof. intros Hc Hs. apply moves_one. eapply mv_finish; [by repeat constructor|done|congruence]. Qed.

Lemma by_advance k c f es r : Forall quiet es -> rg_opens r !! k = Some c -> advances c (f c) -> by_moves r (update_call k f r, es).
Proof. intros. apply moves_one. by eapply mv_advance. Qed.

(** One change before an operation. *)
Lemma by_after r r1 p : moves [] r r1 -> by_moves r1 p -> by_moves r p.
Proof. apply (moves_app []). Qed.

Lemma update_call_lookup k f r c : rg_opens r !! k = Some c -> rg_opens (update_call k f r) !! k = Some (f c).
Proof. intros H. cbn. by rewrite lookup_alter_eq, H. Qed.

Lemma by_open_reserve k c r : rg_opens r !! k = Some c -> reserved_stage (oc_stage c) = false -> is_done (oc_stage c) = false ->
  by_moves r (open_reserve k r).
Proof.
  intros Hc Hs Hd. unfold open_reserve. rewrite Hc.
  assert (Hn : sent_stage (oc_stage c) = false) by (by destruct (oc_stage c)).
  destruct (rg_shuttingDown r) eqn:Hsd; [by eapply by_fail|]. case_match eqn:Hm; [by eapply by_fail|]. cbv zeta.
  set (s := if truthy _ then at_chat else at_client).
  set (r1 := update_call k _ _).
  assert (M1 : moves [] r r1).
  { apply moves_one. eapply mv_reserve; try done; [by unfold s; destruct (truthy _)|by unfold s; destruct (truthy _)|lia]. }
  destruct (oc_aborted c); [|done]. eapply by_after; [done|]. eapply by_after; [apply moves_silent, (tame_onAbort [] k)|].
  assert (Hc1 : rg_opens r1 !! k = Some (with_stage s (with_reservation new_reservation c))).
  { unfold r1. cbn. by rewrite lookup_alter_eq, Hc. }
  destruct (tame_call_l _ _ _ _ _ (tame_onAbort [] k r1) Hc1) as (c2 & Hc2 & TC).
  eapply by_fail; [done|]. rewrite (ct_stage _ _ TC). unfold s. by destruct (truthy _).
Qed.

Lemma by_open_start config user body aborted r : allowed config -> by_moves r (open_start config user body aborted r).
Proof.
  intros Ha. unfold open_start. set (k := rg_next r). set (call := {| oc_user := user |}).
  set (r1 := set_next (S k) _).
  assert (M1 : moves [] r r1) by (by apply moves_one, mv_create).
  assert (Hc : rg_opens r1 !! k = Some call) by (unfold r1; cbn; by rewrite lookup_insert_eq).
  cbv zeta. eapply by_after; [done|].
  do 3 (case_match; [by eapply by_fail|]). case_match; [|by eapply by_open_reserve].
  pose proof (tame_reconcileDetached [] user r1) as T.
  assert (Hq : Forall quiet (reconcileDetached user r1).2) by (by apply Forall_map, Forall_true).
  destruct (reconcileDetached user r1) as [[r2 task] es]; cbn in T, Hq.
  destruct (tame_call_l _ _ _ _ _ T Hc) as (c2 & Hc2 & TC). apply moves_quiet; [done|].
  apply (moves_app [] [] r1 r2); [by apply moves_silent|].
  apply moves_one. by eapply (mv_stage k c2); rewrite ?(ct_stage _ _ TC).
Qed.

Lemma by_open_reconciled k r : by_moves r (open_reconciled k r).
Proof.
  unfold open_reconciled. destruct (rg_opens r !! k) as [c|] eqn:Hc; [|by apply by_refl].
  destruct (oc_stage c) eqn:Hs; try by apply by_refl. case_match; [|by apply by_refl].
  eapply by_after; [by apply moves_one, (mv_stage k c open_begun); rewrite ?Hs|].
  eapply by_open_reserve; [by apply update_call_lookup|done..].
Qed.

Lemma waiting_at_some k f r c : waiting_at k f r = Some c -> rg_opens r !! k = Some c /\ f (oc_stage c) = true.
Proof. unfold waiting_at. destruct (rg_opens r !! k) as [d|]; cbn; [|done]. case_match; intros; simplify_eq; auto. Qed.

Lemma by_open_chat k answer r : by_moves r (open_chat k answer r).
Proof.
  unfold open_chat. destruct (waiting_at _ _ _) as [c|] eqn:E; [|by apply by_refl]. apply waiting_at_some in E as [Hc Hs].
  assert (Hst : oc_stage c = at_chat) by (by destruct (oc_stage c)). clear Hs.
  assert (Hn : sent_stage (oc_stage c) = false) by (by rewrite Hst).
  destruct answer as [resolved|]; [|by eapply by_fail]. destruct (requireReservation c); [by eapply by_fail|].
  destruct resolved as [[chatId workdir]|]; [|by eapply by_fail]. eapply by_advance; [done..|]. by constructor; cbn; rewrite ?Hst.
Qed.

Lemma by_open_client k answer attested r : by_moves r (open_client k answer attested r).
Proof.
  unfold open_client. destruct (waiting_at _ _ _) as [c|] eqn:E; [|by apply by_refl]. apply waiting_at_some in E as [Hc Hs].
  assert (Hst : oc_stage c = at_client) by (by destruct (oc_stage c)). clear Hs.
  assert (Hn : sent_stage (oc_stage c) = false) by (by rewrite Hst).
  destruct answer as [[client m]|]; [|by eapply by_fail].
  destruct (requireReservation c); [by eapply by_fail|]. cbv zeta.
  set (r1 := update_call k (with_client client) r).
  assert (M1 : moves [] r r1).
  { apply moves_one. eapply mv_advance; [done..|]. constructor; cbn; rewrite ?Hst; done. }
  assert (Hc1 : rg_opens r1 !! k = Some (with_client client c)) by (by apply update_call_lookup).
  pose proof (tame_ensureCloseHandler [] client r1) as T.
  assert (Hq : Forall quiet (ensureCloseHandler client r1).2) by (unfold ensureCloseHandler; case_decide; by repeat constructor).
  destruct (tame_call_l _ _ _ _ _ T Hc1) as (c2 & Hc2 & TC). destruct (ensureCloseHandler client r1) as [r2 e]; cbn in *.
  assert (M2 : moves e r r2).
  { change e with ([] ++ e). eapply moves_app; [done|]. apply moves_quiet; [done|]. by apply moves_silent. }
  assert (Hst2 : oc_stage c2 = at_client) by (by rewrite (ct_stage _ _ TC)).
  assert (Hf : forall error, by_moves r (let '(r, e2) := fail_open k error r2 in (r, e ++ e2))).
  { intros error. eapply moves_app; [done|]. eapply (by_fail k c2 error); [done|by rewrite Hst2]. }
  destruct (requireTerminalCapable m); [apply Hf|]. destruct (truthy _ && _); [apply Hf|].
  destruct (requireIsolatedIfLocal _ _); [apply Hf|].
  cbn. rewrite <- (app_nil_r e). eapply moves_app; [done|]. apply (by_advance k c2 _ [] r2); [done..|].
  constructor; cbn; rewrite ?Hst2; try done. intros _. by rewrite (ct_rclient _ _ TC), (ct_client _ _ TC).
Qed.

Lemma requireReservation_none c : requireReservation c = None -> rv_canceled (oc_reservation c) = false.
Proof. unfold requireReservation. destruct (rv_canceled _); cbn; [by destruct (oc_aborted c)|done]. Qed.

Lemma by_open_toolchain k answer r : by_moves r (open_toolchain randomId k answer r).
Proof.
  unfold open_toolchain. destruct (waiting_at _ _ _) as [c|] eqn:E; [|by apply by_refl]. apply waiting_at_some in E as [Hc Hs].
  assert (Hst : oc_stage c = at_toolchain) by (by destruct (oc_stage c)). clear Hs.
  assert (Hn : sent_stage (oc_stage c) = false) by (by rewrite Hst).
  destruct answer as [toolchain|]; [|by eapply by_fail].
  destruct (requireReservation c) eqn:Hr; [by eapply by_fail|]. apply requireReservation_none in Hr.
  apply moves_one. by eapply mv_send.
Qed.

Lemma by_finish_open k c shell cwd now es r : Forall quiet es -> rg_opens r !! k = Some c -> sent_stage (oc_stage c) = true ->
  rv_scopeEnded (oc_reservation c) = None ->
  by_moves r (let '(r, e) := finish_open randomId k c shell cwd now r in (r, es ++ e)).
Proof.
  intros Hq Hc Hs Hsc. apply moves_one. eapply mv_register; try done. apply Forall_app. split; [done|]. by repeat constructor.
Qed.

Lemma by_open_answered k answer now r : reg_inv randomId r -> by_moves r (open_answered randomId k answer now r).
Proof.
  intros I. unfold open_answered. destruct (waiting_at _ _ _) as [c|] eqn:E; [|by apply by_refl]. apply waiting_at_some in E as [Hc Hs].
  assert (Hst : oc_stage c = at_open) by (by destruct (oc_stage c)). clear Hs.
  pose proof (iv_client _ _ I k c Hc) as Hcl. rewrite Hst in Hcl. destruct answer as [[shell cwd]|error].
  - destruct (rv_canceled (oc_reservation c)) eqn:Hk.
    + eapply by_advance; [by repeat constructor|done|]. by constructor; cbn; rewrite ?Hst.
    + apply (by_finish_open k c shell cwd now []); [done..|by rewrite Hst|]. by eapply iv_scope.
  - eapply by_advance; [by repeat constructor|done|]. by constructor; cbn; rewrite ?Hst.
Qed.

(** What is left of a canceled or failed request is kept, or known to be gone. *)
Lemma by_retained k c shell cwd now (ok : bool) error r : reg_inv randomId r -> rg_opens r !! k = Some c -> sent_stage (oc_stage c) = true ->
  by_moves r (let '(r, e) := fail_open k error (if ok then r else retainUnclaimed randomId k c shell cwd now r) in
              (r, (if ok then [TeGone (oc_client c) (randomId k)] else []) ++ e)).
Proof.
  intros I Hc Hs. destruct ok.
  - apply moves_one. eapply mv_finish; [by repeat constructor|done|]. intros _. left. left.
  - unfold retainUnclaimed. set (es := [TeOpenFailed k error]).
    assert (Hq : Forall quiet es) by (by repeat constructor).
    assert (Hreg : forall status, rv_scopeEnded (oc_reservation c) = match status with st_running => None | st_exited => Some se_revoked end ->
      by_moves r (let '(r, e) := fail_open k error (registerSession randomId k c shell cwd status now r) in (r, [] ++ e))).
    { intros status Hsc. pose proof (mv_register es k c shell cwd status now r Hq Hc Hs Hsc) as M.
      unfold by_moves, fail_open. cbn [fst snd app].
      replace (drop_reservation k (update_call k (with_stage open_done) (registerSession randomId k c shell cwd status now r)))
        with (update_call k (with_stage open_done) (registerSession randomId k c shell cwd status now r)); [by apply moves_one|].
      unfold drop_reservation at 1. rewrite (drop_out k (rg_reservations (update_call _ _ _))); [done|]. cbn. rewrite drop_elem. naive_solver. }
    destruct (rv_scopeEnded (oc_reservation c)) as [[]|] eqn:Hsc; cbn; [|by apply (Hreg st_exited)| |by apply (Hreg st_running)];
      (apply moves_one; eapply mv_finish; [done..|]; intros _; right); [by left|by right].
Qed.

Lemma by_open_close_answered k ok m now r : reg_inv randomId r -> by_moves r (open_close_answered randomId k ok m now r).
Proof.
  intros I. unfold open_close_answered. destruct (rg_opens r !! k) as [c|] eqn:Hc; [|by apply by_refl].
  destruct (oc_stage c) as [| | | | | |shell cwd|error|] eqn:Hs; try by apply by_refl.
  - destruct (requireReservation c) as [error|] eqn:Hr.
    + apply (by_retained k c shell cwd now ok error r I Hc). by rewrite Hs.
    + apply requireReservation_none in Hr. pose proof (iv_late _ _ I k c Hc) as Hl. rewrite Hs in Hl. by rewrite Hl in Hr.
  - apply (by_retained k c _ _ now (ok || of_consentDenied error) _ r I Hc). by rewrite Hs.
Qed.

Lemma quiet_closeTracked id k reason r : Forall quiet (closeTrackedSession id k reason r).2.
Proof. unfold closeTrackedSession. repeat case_match; by repeat constructor. Qed.

Lemma quiet_reap config now r : Forall quiet (reapIdleNow config now r).2.
Proof.
  apply for_each_forall. intros [id k] r'. unfold reap_one. repeat case_match; try apply quiet_closeTracked; by repeat constructor.
Qed.

Lemma quiet_tracked_closed task ok now r : Forall quiet (tracked_closed task ok now r).2.
Proof. unfold tracked_closed. repeat case_match; by repeat constructor. Qed.

Lemma quiet_user_closed task ok r : Forall quiet (user_closed task ok r).2.
Proof. unfold user_closed. repeat case_match; by repeat constructor. Qed.

Lemma quiet_close_start user id r : Forall quiet (close_start user id r).2.
Proof. unfold close_start. repeat case_match; by repeat constructor. Qed.

Lemma quiet_detach id viewer now r : Forall quiet (detachViewer id viewer now r).2.
Proof.
  unfold detachViewer. repeat case_match; try by repeat constructor.
  match goal with H : closeTrackedSession ?i ?k ?c ?r' = _ |- _ => pose proof (quiet_closeTracked i k c r') as Hq; rewrite H in Hq; done end.
Qed.

Lemma quiet_disconnected client now r : Forall quiet (handleRuntimeDisconnected client now r).2.
Proof.
  unfold handleRuntimeDisconnected. set (r1 := fold_left _ _ _).
  assert (Hq : Forall quiet (for_each (disconnect_one client now) (rg_sessions r1) r1).2).
  { apply for_each_forall. intros [id k] r'. unfold disconnect_one. repeat case_match; by repeat constructor. }
  destruct (for_each _ _ _); cbn in *. by constructor.
Qed.

Lemma quiet_revoke user env now r : Forall quiet (revokeScope user env now r).2.
Proof.
  apply for_each_forall. intros [id k] r'. unfold revoke_entry. destruct (rg_entries r' !! k) as [e|]; [|constructor].
  case_match; [constructor|].
  match goal with |- context[closeTrackedSession ?i ?k ?c ?r''] => pose proof (quiet_closeTracked i k c r'') as Hq; destruct (closeTrackedSession i k c r'') end.
  cbn in *. apply Forall_app. split; [|done]. repeat case_match; by repeat constructor.
Qed.

Lemma quiet_closeAll r : Forall quiet (closeAll r).2.
Proof.
  unfold closeAll; cbv zeta; cbn [snd]. apply Forall_forall. intros e He. apply list_elem_of_omap in He as (p & _ & Hp).
  destruct (_ !! p.2); cbn in Hp; by simplify_eq.
Qed.

(** The configuration of an [open] is one of those allowed. *)
Definition op_allowed (o : terminal_op) : Prop := match o with IOpen config _ _ _ => allowed config | _ => True end.

Lemma step_by_moves o r : op_allowed o -> reg_inv randomId r -> by_moves r (terminal_step randomId o r).
Proof.
  intros Ha I. destruct o; cbn [terminal_step].
  - by apply by_open_start.
  - apply by_open_reconciled.
  - apply by_open_chat.
  - apply by_open_client.
  - apply by_open_toolchain.
  - by apply by_open_answered.
  - by apply by_open_close_answered.
  - apply by_tame; [constructor|apply tame_aborted].
  - apply by_tame; [by apply Forall_map, Forall_true|apply tame_reconcileDetached].
  - apply by_tame; [constructor|apply tame_reconcile_listed].
  - apply by_tame; [apply quiet_disconnected|]. eapply tame_mono; [|apply tame_disconnected, I].
    unfold handleRuntimeDisconnected. destruct (for_each _ _ _); cbn. intros e He. apply list_elem_of_singleton in He as ->. left.
  - apply by_tame; [apply quiet_revoke|apply tame_revokeScope, I].
  - apply by_tame; [constructor|apply tame_rename].
  - apply by_tame; [apply quiet_close_start|apply tame_close_start].
  - apply by_tame; [apply quiet_user_closed|apply tame_user_closed].
  - apply by_tame; [constructor|apply tame_attachViewer].
  - apply by_tame; [constructor|apply tame_completeLogin].
  - pose proof (quiet_detach id viewer now r) as Hq. pose proof (fun es => tame_detachViewer es id viewer now r) as T.
    destruct (detachViewer id viewer now r) as [[r' b] es]. by apply by_tame; [|apply T].
  - apply by_tame; [constructor|]. apply tame_on_session. auto with terminals.
  - apply by_tame; [constructor|]. apply tame_on_session. intros. apply et_resized.
  - apply by_tame; [constructor|apply tame_recordExit].
  - apply by_tame; [apply quiet_reap|apply tame_reapIdleNow].
  - apply by_tame; [apply quiet_tracked_closed|apply tame_tracked_closed].
  - apply by_tame; [apply quiet_closeAll|apply tame_closeAll].
Qed.

Lemma quiet_plain es : Forall quiet es -> Forall plain es.
Proof. intros Hq. eapply Forall_impl; [exact Hq|]. by intros []. Qed.

Lemma moves_plain es r r' : moves es r r' -> Forall plain es.
Proof.
  induction 1 as [|es1 es2 r r1 r2 Mv _ IH]; [constructor|]. apply Forall_app. split; [|done].
  destruct Mv; auto using quiet_plain.
Qed.

Lemma step_plain o r : op_allowed o -> reg_inv randomId r -> Forall plain (terminal_step randomId o r).2.
Proof. intros Ho I. pose proof (step_by_moves o r Ho I). by eapply moves_plain. Qed.

Lemma inv_new : reg_inv randomId new_registry.
Proof.
  by constructor; cbn; try (intros; apply NoDup_nil); try (by intros ? ? ?%lookup_empty_Some); try (by intros ? ?%elem_of_nil); constructor.
Qed.

Lemma run_by_moves os r : Forall op_allowed os -> reg_inv randomId r -> by_moves r (terminal_run randomId os r).
Proof.
  intros Ha. revert r. induction Ha as [|o os Ho Ha IH]; cbn; intros r I; [by apply by_refl|].
  pose proof (step_by_moves o r Ho I) as M. destruct (terminal_step randomId o r) as [r1 e1]. unfold by_moves in M. cbn in M.
  specialize (IH r1 (moves_inv _ _ _ M I)). destruct (terminal_run randomId os r1) as [r2 e2]. by eapply moves_app.
Qed.

End Moves.
