(* ===== verification/TerminalSeats.v ===== *)
(** * Terminal sessions: seats

    A user's live sessions and reserved seats never exceed the limit, whatever opens, aborts, closes and disconnects interleave. *)

From S2P Require Import Prelude TerminalWire TerminalRelay TerminalSessions TerminalSessionsFacts TerminalSessionsMoves.

(** ** Counting *)

Lemma count_sublist {A} (f g : A -> bool) l l' : l' `sublist_of` l -> (forall x, x ∈ l' -> f x = true -> g x = true) ->
  zlen (List.filter f l') <= zlen (List.filter g l).
Proof.
  induction 1 as [|x l1 l2 Hs IH|x l1 l2 Hs IH]; intros Hfg; cbn; [done| |].
  - assert (Hin : x ∈ x :: l1) by left. specialize (Hfg x Hin) as Hx.
    assert (IH' : zlen (List.filter f l1) <= zlen (List.filter g l2)) by (apply IH; intros; apply Hfg; [by right|done]).
    destruct (f x); [rewrite Hx by done; unfold zlen in *; cbn; lia|]. destruct (g x); unfold zlen in *; cbn; lia.
  - specialize (IH Hfg). destruct (g x); unfold zlen in *; cbn; lia.
Qed.

(** Fewer sessions and seats, none livelier than before. *)
Lemma countRunning_le user r r' :
  rg_sessions r' `sublist_of` rg_sessions r -> rg_reservations r' `sublist_of` rg_reservations r ->
  (forall p, p ∈ rg_sessions r' -> is_live user r' p = true -> is_live user r p = true) ->
  (forall k, k ∈ rg_reservations r' -> is_reserved user r' k = true -> is_reserved user r k = true) ->
  countRunning user r' <= countRunning user r.
Proof.
  intros Hs Hr Hl Hv. unfold countRunning.
  pose proof (count_sublist _ _ _ _ Hs Hl). pose proof (count_sublist _ _ _ _ Hr Hv). lia.
Qed.

Lemma tame_countRunning user es r r' : tame es r r' -> countRunning user r' <= countRunning user r.
Proof.
  intros T. apply countRunning_le; [apply T|apply T| |].
  - intros p _. unfold is_live. destruct (rg_entries r' !! p.2) as [e'|] eqn:He'; [|done].
    destruct (tame_entry _ _ _ _ _ T He') as (e & -> & TE). rewrite (et_owner _ _ TE), !andb_true_iff, !bool_decide_eq_true.
    intros [-> Hst]. split; [done|]. destruct (ts_status (en_session e)) eqn:E; [done|]. by rewrite (et_status _ _ TE E) in Hst.
  - intros k _. unfold is_reserved. destruct (rg_opens r' !! k) as [c'|] eqn:Hc'; [|done].
    destruct (tame_call _ _ _ _ _ T Hc') as (c & -> & TC). by rewrite (ct_user _ _ TC).
Qed.

Lemma is_reserved_alter user k f r j : (forall c, rg_opens r !! k = Some c -> oc_user (f c) = oc_user c) ->
  is_reserved user (update_call k f r) j = is_reserved user r j.
Proof.
  intros Hf. unfold is_reserved. cbn. destruct (decide (k = j)) as [->|]; [rewrite lookup_alter_eq|by rewrite lookup_alter_ne by done].
  destruct (rg_opens r !! j); cbn; [by rewrite (Hf _ eq_refl)|done].
Qed.

Lemma sess_set_count (f : jstring * nat -> bool) id k m :
  zlen (List.filter f (sess_set id k m)) <= zlen (List.filter f m) + (if f (id, k) then 1 else 0).
Proof.
  induction m as [|[i j] m IH]; cbn [sess_set List.filter]; [unfold zlen; destruct (f (id, k)); cbn; lia|].
  case_decide; cbn [List.filter]; repeat case_match; unfold zlen in *; cbn [length] in *; lia.
Qed.

Lemma drop_count (f : nat -> bool) k l : NoDup l -> k ∈ l -> f k = true ->
  zlen (List.filter f (List.filter (fun j => negb (bool_decide (j = k))) l)) + 1 <= zlen (List.filter f l).
Proof.
  induction l as [|x l IH]; intros Hn Hk Hf; [by apply elem_of_nil in Hk|]. apply NoDup_cons in Hn as [H1 H2].
  cbn. destruct (decide (x = k)) as [->|Hx].
  - rewrite bool_decide_eq_true_2 by done. cbn. rewrite (drop_out k l H1), Hf. unfold zlen; cbn; lia.
  - rewrite bool_decide_eq_false_2 by done. cbn. apply elem_of_cons in Hk as [|Hk]; [congruence|]. specialize (IH H2 Hk Hf).
    destruct (f x); unfold zlen in *; cbn in *; lia.
Qed.

(** ** Registering *)

(** A running session takes the seat its call held. *)
Lemma register_held randomId k c r : reg_inv randomId r -> rg_opens r !! k = Some c -> sent_stage (oc_stage c) = true ->
  rv_scopeEnded (oc_reservation c) = None -> k ∈ rg_reservations r.
Proof.
  intros I Hc Hs Hsc. apply sent_reserved in Hs as Hr. destruct (iv_held _ _ I k c Hc Hr) as [|[_ [Hf|Hg]]]; [done| |].
  - rewrite (iv_sent _ _ I k c Hc Hr) in Hf. congruence.
  - unfold scope_gone in Hg. rewrite Hsc in Hg. naive_solver.
Qed.

Lemma register_countRunning randomId user k c shell cwd status now r :
  reg_inv randomId r -> rg_opens r !! k = Some c -> sent_stage (oc_stage c) = true ->
  rv_scopeEnded (oc_reservation c) = match status with st_running => None | st_exited => Some se_revoked end ->
  countRunning user (update_call k (with_stage open_done) (registerSession randomId k c shell cwd status now r)) <= countRunning user r.
Proof.
  intros I Hc Hs Hsc. set (r' := update_call k _ _). unfold countRunning.
  assert (Hfresh : rg_entries r !! k = None) by (eapply iv_fresh; [done..|by destruct (oc_stage c)]).
  assert (Hlive : forall p, p ∈ rg_sessions r -> is_live user r' p = true -> is_live user r p = true).
  { intros p Hp. destruct (iv_listed _ _ I p Hp) as [_ [e He]]. unfold is_live. cbn. rewrite lookup_insert_ne; [done|congruence]. }
  pose proof (count_sublist _ _ _ _ (reflexivity (rg_sessions r)) Hlive) as H1.
  pose proof (sess_set_count (is_live user r') (randomId k) k (rg_sessions r)) as H2.
  assert (H3 : forall l, zlen (List.filter (is_reserved user r') l) = zlen (List.filter (is_reserved user r) l)).
  { intros l. f_equal. apply List.filter_ext. intros j. unfold r'. by rewrite is_reserved_alter. }
  rewrite H3. change (rg_reservations r') with (List.filter (fun j => negb (bool_decide (j = k))) (rg_reservations r)).
  change (rg_sessions r') with (sess_set (randomId k) k (rg_sessions r)).
  pose proof (count_sublist _ _ _ _ (drop_sublist k (rg_reservations r)) (fun x _ H => H : is_reserved user r x = true)) as H4.
  destruct (is_live user r' (randomId k, k)) eqn:E; [|lia].
  unfold is_live in E. cbn in E. rewrite lookup_insert_eq in E. cbn in E. apply andb_true_iff in E as [Eu Est].
  apply bool_decide_eq_true in Est, Eu. subst status.
  pose proof (drop_count (is_reserved user r) k (rg_reservations r) (iv_res _ _ I) (register_held _ _ _ _ I Hc Hs Hsc)) as H5.
  unfold is_reserved at 1 in H5. rewrite Hc, bool_decide_eq_true_2 in H5 by done. specialize (H5 eq_refl). lia.
Qed.

(** ** The bound *)

Definition seats_bounded (M : Z) (r : registry) : Prop :=
  (forall k c, rg_opens r !! k = Some c -> tc_maxSessionsPerUser (oc_config c) <= M) /\ forall user, countRunning user r <= M.

Lemma alter_bounded M k f r r' : rg_opens r' = alter f k (rg_opens r) -> (forall c, rg_opens r !! k = Some c -> oc_config (f c) = oc_config c) ->
  seats_bounded M r -> forall j c, rg_opens r' !! j = Some c -> tc_maxSessionsPerUser (oc_config c) <= M.
Proof.
  intros Ho Hf [Hb _] j c Hj. rewrite Ho in Hj. destruct (alter_cases _ _ _ _ _ Hj) as [[-> (x & Hx & ->)]|[_ Hx]]; [rewrite (Hf _ Hx)|]; eauto.
Qed.

Lemma count_update user k f r : (forall c, rg_opens r !! k = Some c -> oc_user (f c) = oc_user c) -> countRunning user (update_call k f r) <= countRunning user r.
Proof. intros Hf. apply countRunning_le; try done. intros j _. by rewrite is_reserved_alter. Qed.

Lemma create_countRunning randomId user c r : reg_inv randomId r ->
  countRunning user (set_next (S (rg_next r)) (set_opens (<[rg_next r := c]> (rg_opens r)) r)) <= countRunning user r.
Proof.
  intros I. apply countRunning_le; try done. intros k Hk. unfold is_reserved. cbn in *.
  destruct (iv_only _ _ I k Hk) as (d & Hd & _). pose proof (iv_calls _ _ I k d Hd). by rewrite lookup_insert_ne by lia.
Qed.

Lemma reserve_countRunning randomId user k c s r : reg_inv randomId r -> rg_opens r !! k = Some c ->
  countRunning user (update_call k (fun c => with_stage s (with_reservation new_reservation c)) (set_reservations (rg_reservations r ++ [k]) r))
  <= countRunning user r + (if decide (oc_user c = user) then 1 else 0).
Proof.
  intros I Hc. etransitivity; [by apply count_update|]. unfold countRunning; cbn. rewrite List.filter_app.
  change (is_reserved user (set_reservations (rg_reservations r ++ [k]) r)) with (is_reserved user r).
  change (is_live user (set_reservations (rg_reservations r ++ [k]) r)) with (is_live user r).
  cbn. unfold is_reserved at 2. rewrite Hc. unfold zlen. rewrite length_app. case_decide as Hu.
  - rewrite bool_decide_eq_true_2 by done. cbn. lia.
  - rewrite bool_decide_eq_false_2 by done. cbn. lia.
Qed.

Lemma move_bounded randomId M es r r' : move randomId (fun c => tc_maxSessionsPerUser c <= M) es r r' -> reg_inv randomId r ->
  seats_bounded M r -> seats_bounded M r'.
Proof.
  intros Mv I B. pose proof B as [B1 B2].
  destruct Mv as [es r r' _ T|c r Ha Hs Hv|k c s r Hc Hr Hd Hs Hd'|k c s r Hc Hr Hd Hs Hcl Hsd Hcount
    |es k c f r _ Hc A|k c cols rows bytes login shell cwd chat tool r Hc Hs Hk|es k c shell cwd status now r _ Hc Hs Hsc|es k c r _ Hc Hg].
  - split; [|intros user; pose proof (tame_countRunning user _ _ _ T); specialize (B2 user); lia].
    intros k c' Hc'. destruct (tame_call _ _ _ _ _ T Hc') as (c & Hc & TC). rewrite (ct_config _ _ TC). eauto.
  - split; [|intros user; pose proof (create_countRunning randomId user c r I); specialize (B2 user); lia].
    cbn. intros j d Hd. destruct (decide (rg_next r = j)) as [<-|]; [rewrite lookup_insert_eq in Hd; by simplify_eq|].
    rewrite lookup_insert_ne in Hd by done. eauto.
  - split; [by eapply (alter_bounded M k _ r)|]. intros user. etransitivity; [by apply count_update|apply B2].
  - split; [by eapply (alter_bounded M k _ r)|]. intros user. pose proof (reserve_countRunning randomId user k c s r I Hc) as H. specialize (B2 user).
    case_decide as Hu; [subst user; pose proof (B1 k c Hc); lia|lia].
  - split; [eapply alter_bounded; [done| |done]; intros; simplify_eq; apply A|].
    intros user. etransitivity; [apply count_update; intros; simplify_eq; apply A|apply B2].
  - split; [by eapply (alter_bounded M k _ r)|]. intros user. etransitivity; [by apply count_update|apply B2].
  - split; [by eapply (alter_bounded M k _ r)|]. intros user. etransitivity; [by apply register_countRunning|apply B2].
  - split; [by eapply (alter_bounded M k _ r)|]. intros user. etransitivity; [|apply B2].
    etransitivity; [|by apply (count_update user k (with_stage open_done))]. apply countRunning_le; try done. apply drop_sublist.
Qed.

Lemma moves_bounded randomId M es r r' : moves randomId (fun c => tc_maxSessionsPerUser c <= M) es r r' -> reg_inv randomId r ->
  seats_bounded M r -> seats_bounded M r'.
Proof. induction 1; eauto using move_bounded, move_inv. Qed.

(** C27: a user's seats are bounded. If no configuration the hub was given allows more than [M] terminals per user, then
    after any interleaving of opens, answers, aborts, revocations, disconnections, closes and reaps no user has more
    than [M] terminals running or being opened: concurrent opens cannot slip past the check, because each reserves
    its seat in the step that checks, and a canceled open keeps its seat while its terminal may still exist. *)
Theorem terminal_seats_bounded (randomId : nat -> jstring) (M : Z) (os : list terminal_op) (user : jstring) :
  0 <= M -> Forall (op_allowed (fun c => tc_maxSessionsPerUser c <= M)) os ->
  countRunning user (terminal_run randomId os new_registry).1 <= M.
Proof.
  intros HM Ha. pose proof (run_by_moves randomId _ os new_registry Ha (inv_new _)) as H.
  apply moves_bounded in H as [_ H]; [apply H|apply inv_new|]. split; [|done]. cbn. intros k c Hc. by apply lookup_empty_Some in Hc.
Qed.
