(* ===== verification/TerminalTracking.v ===== *)
(** * Terminal sessions: no terminal is forgotten

    What the hub's requests may have left running on the runtimes, against what its registry still holds. *)

From S2P Require Import Prelude TerminalWire TerminalRelay TerminalSessions TerminalSessionsFacts TerminalSessionsMoves.

(** ** The terminals that may exist *)

(** Each request to open one adds a terminal; learning that one is gone, or that its runtime is, takes it away. *)
Definition after_effect (l : list (nat * jstring)) (e : terminal_effect) : list (nat * jstring) :=
  match e with
  | TeOpen client id _ _ _ _ _ _ _ _ => l ++ [(client, id)]
  | TeGone client id => List.filter (fun p => negb (bool_decide (p = (client, id)))) l
  | TeLost client => List.filter (fun p => negb (bool_decide (p.1 = client))) l
  | _ => l
  end.

Definition live_terminals (es : list terminal_effect) : list (nat * jstring) := fold_left after_effect es [].

(** What the registry knows: a listed session, or an open that still waits for its answer. *)
Definition tracked (randomId : nat -> jstring) (r : registry) (client : nat) (id : jstring) : Prop :=
  (exists k e, find_entry id r = Some (k, e) /\ en_client e = client) \/
  (exists k c, rg_opens r !! k = Some c /\ sent_stage (oc_stage c) = true /\ oc_client c = client /\ randomId k = id).

Definition covered (randomId : nat -> jstring) (l : list (nat * jstring)) (r : registry) : Prop :=
  forall client id, (client, id) ∈ l -> rg_shuttingDown r = true \/
    (exists k e, (id, k) ∈ rg_sessions r /\ rg_entries r !! k = Some e /\ en_client e = client) \/
    (exists k c, rg_opens r !! k = Some c /\ sent_stage (oc_stage c) = true /\ oc_client c = client /\ randomId k = id /\
       ~ scope_gone (oc_reservation c)).

Lemma after_quiet client id es l : Forall quiet es -> (client, id) ∈ fold_left after_effect es l ->
  (client, id) ∈ l /\ TeGone client id ∉ es /\ TeLost client ∉ es.
Proof.
  intros Hq. revert l. induction Hq as [|e es He Hq IH]; cbn; intros l Hin; [split; [done|]; split; apply not_elem_of_nil|].
  apply IH in Hin as (Hin & H1 & H2). rewrite !not_elem_of_cons.
  destruct e; cbn in He, Hin; try done; try (repeat split; done);
    rewrite list_elem_of_In, filter_In, <- list_elem_of_In, negb_true_iff, bool_decide_eq_false in Hin; naive_solver.
Qed.

Lemma after_quiet_in es l : Forall quiet es -> fold_left after_effect es l ⊆ l.
Proof. intros Hq [client id] Hin. by apply after_quiet in Hin as [? _]. Qed.

Lemma covered_quiet randomId es l r : Forall quiet es -> covered randomId l r -> covered randomId (fold_left after_effect es l) r.
Proof. intros Hq C client id Hin. apply C. by eapply after_quiet_in. Qed.

Section Tracking.
  Context (randomId : nat -> jstring).

(** What one call's change means for the others. *)
Lemma covered_update k c f l r r' : rg_opens r !! k = Some c -> rg_opens r' = alter f k (rg_opens r) ->
  rg_sessions r' = rg_sessions r -> rg_entries r' = rg_entries r -> rg_shuttingDown r' = rg_shuttingDown r ->
  (sent_stage (oc_stage c) = true -> ~ scope_gone (oc_reservation c) -> (oc_client c, randomId k) ∈ l ->
   sent_stage (oc_stage (f c)) = true /\ oc_client (f c) = oc_client c /\ ~ scope_gone (oc_reservation (f c))) ->
  covered randomId l r -> covered randomId l r'.
Proof.
  intros Hc Ho Hs He Hd Hf C client id Hin. rewrite Hd, Hs, He, Ho.
  destruct (C client id Hin) as [|[|(j & d & Hj & Hst & Hcl & Hid & Hg)]]; auto. right; right.
  destruct (decide (k = j)) as [->|].
  - simplify_eq. destruct (Hf Hst Hg Hin) as (? & ? & ?). exists j, (f c). rewrite lookup_alter_eq, Hc. auto.
  - exists j, d. by rewrite lookup_alter_ne by done.
Qed.

Lemma covered_tame es l r r' : Forall quiet es -> tame es r r' -> reg_inv randomId r -> covered randomId l r ->
  covered randomId (fold_left after_effect es l) r'.
Proof.
  intros Hq T I C client id Hin. apply after_quiet in Hin as (Hin & Hg & Hl); [|done].
  destruct (C client id Hin) as [Hd|[(k & e & Hk & He & Hcl)|(k & c & Hc & Hst & Hcl & Hid & Hng)]]; [left; by apply T| |].
  - destruct (tm_kept _ _ _ T (id, k) (iv_keys _ _ I) Hk) as [Hk'|[|Hgone]]; [|by left|].
    + destruct (tame_entry_l _ _ _ _ _ T He) as (e' & He' & TE). right; left. exists k, e'. by rewrite (et_client _ _ TE).
    + destruct (Hgone e He); cbn in *; simplify_eq; done.
  - destruct (tame_call_l _ _ _ _ _ T Hc) as (c' & Hc' & TC).
    destruct (decide (rv_scopeEnded (oc_reservation c') = Some se_runtime_disconnected \/ rv_scopeEnded (oc_reservation c') = Some se_shutdown)) as [Hg'|Hg'].
    + destruct (tm_lost _ _ _ T k c c' Hc Hc' Hg') as [|[|(cl & Hrc & Hcl')]]; [done|by left|].
      rewrite (iv_client _ _ I k c Hc) in Hrc; [simplify_eq; done|]. by destruct (oc_stage c).
    + right; right. exists k, c'. rewrite (ct_stage _ _ TC), (ct_client _ _ TC). done.
Qed.

Lemma sess_set_other id k p m : p ∈ m -> p.1 <> id -> p ∈ sess_set id k m.
Proof.
  induction m as [|[i j] m IH]; cbn; [intros ?%elem_of_nil; done|]. rewrite elem_of_cons. intros [->|Hin] Hn; cbn in *.
  - rewrite decide_False by done. left.
  - case_decide; right; auto.
Qed.

Lemma sess_set_self id k m : (id, k) ∈ sess_set id k m.
Proof. induction m as [|[i j] m IH]; cbn; [left|]. case_decide; [left|by right]. Qed.

Hypothesis randomId_inj : Inj (=) (=) randomId.

Lemma covered_register l k c shell cwd status now r : rg_opens r !! k = Some c -> sent_stage (oc_stage c) = true ->
  reg_inv randomId r -> covered randomId l r ->
  covered randomId l (update_call k (with_stage open_done) (registerSession randomId k c shell cwd status now r)).
Proof.
  intros Hc Hs I C client id Hin. assert (Hfresh : rg_entries r !! k = None) by (eapply iv_fresh; [done..|by destruct (oc_stage c)]).
  destruct (C client id Hin) as [|[(j & e & Hj & He & Hcl)|(j & d & Hj & Hst & Hcl & Hid & Hg)]]; cbn; [by left| |]; right.
  - left. exists j, e. destruct (iv_listed _ _ I _ Hj) as [Hid _]. cbn in Hid. assert (j <> k) by congruence.
    rewrite lookup_insert_ne by done. split; [|done]. apply sess_set_other; [done|]. cbn. rewrite Hid. intros ?. by simplify_eq.
  - destruct (decide (k = j)) as [->|].
    + left. simplify_eq. eexists j, _. rewrite lookup_insert_eq. split; [apply sess_set_self|done].
    + right. exists j, d. by rewrite lookup_alter_ne by done.
Qed.

Lemma covered_move allowed es l r r' : move randomId allowed es r r' -> reg_inv randomId r -> covered randomId l r ->
  covered randomId (fold_left after_effect es l) r'.
Proof.
  intros Mv I C.
  destruct Mv as [es r r' Hq T|c r Ha Hs Hv|k c s r Hc Hr Hd Hs Hd'|k c s r Hc Hr Hd Hs Hcl Hsd Hcount
    |es k c f r Hq Hc A|k c cols rows bytes login shell cwd chat tool r Hc Hs Hk|es k c shell cwd status now r Hq Hc Hs Hsc|es k c r Hq Hc Hg].
  - by eapply covered_tame.
  - intros client id Hin. cbn in Hin. destruct (C client id Hin) as [|[|(j & d & Hj & ?)]]; cbn; auto. right; right. exists j, d.
    pose proof (iv_calls _ _ I j d Hj). by rewrite lookup_insert_ne by lia.
  - eapply (covered_update k c (with_stage s)); try done. intros Hst. by destruct (oc_stage c).
  - eapply (covered_update k c _ _ r); try done. intros Hst. by destruct (oc_stage c).
  - apply covered_quiet; [done|]. eapply (covered_update k c f _ r); try done. intros Hst Hng _.
    rewrite (ad_sent _ _ A). split; [done|]. split; [apply A; by destruct (oc_stage c)|]. unfold scope_gone. by rewrite (ad_scope _ _ A).
  - cbn. intros client id Hin. apply elem_of_app in Hin as [Hin|Hin].
    + revert client id Hin. eapply (covered_update k c _ l r); done.
    + apply list_elem_of_singleton in Hin. simplify_eq. right; right. eexists k, _. cbn. rewrite lookup_alter_eq, Hc. cbn.
      split; [done|]. split; [done|]. split; [done|]. split; [done|]. unfold scope_gone. cbn. rewrite (iv_scope _ _ I k c Hc Hk). naive_solver.
  - apply covered_quiet; [done|]. by apply covered_register.
  - intros client id Hin. apply after_quiet in Hin as (Hin & Hg1 & _); [|done].
    destruct (C client id Hin) as [|[|(j & d & Hj & Hst & Hcl & Hid & Hng)]]; cbn; auto. right; right.
    destruct (decide (k = j)) as [->|]; [|exists j, d; by rewrite lookup_alter_ne by done].
    simplify_eq. by destruct (Hg Hst).
Qed.

Lemma covered_moves allowed es l r r' : moves randomId allowed es r r' -> reg_inv randomId r -> covered randomId l r ->
  covered randomId (fold_left after_effect es l) r'.
Proof.
  intros Ms. revert l. induction Ms; cbn; intros l I C; [done|]. rewrite fold_left_app. eauto using covered_move, move_inv.
Qed.

End Tracking.

(** C26: no terminal is forgotten. The hub numbers its terminals with ids it draws; as long as it draws no id twice, after
    any interleaving of its operations every terminal it asked a runtime to open, and of which it has not since learnt that
    it is gone (a close that was confirmed, an open that was denied) or that its runtime is, is still in the registry under
    its client, or belongs to an open that waits for an answer. So a lost reply, an abort, a revocation or a failed
    close never leaves a shell running that nothing could close, unless the hub is shutting down. *)
Theorem terminals_tracked (randomId : nat -> jstring) (os : list terminal_op) (r : registry) (es : list terminal_effect)
    (client : nat) (id : jstring) :
  Inj (=) (=) randomId -> terminal_run randomId os new_registry = (r, es) -> rg_shuttingDown r = false ->
  (client, id) ∈ live_terminals es -> tracked randomId r client id.
Proof.
  intros Hi Hrun Hd Hin.
  pose proof (run_by_moves randomId (fun _ => True) os new_registry) as H. rewrite Hrun in H.
  assert (Ms : moves randomId (fun _ => True) es new_registry r) by (apply H; [apply Forall_forall; by intros []|apply inv_new]).
  assert (C : covered randomId (live_terminals es) r).
  { eapply covered_moves; [done..|apply inv_new|]. by intros ? ? ?%elem_of_nil. }
  pose proof (moves_inv _ _ _ _ _ Ms (inv_new _)) as I.
  destruct (C client id Hin) as [|[(k & e & Hk & He & Hcl)|(k & c & Hc & Hst & Hcl & Hid & _)]]; [congruence| |right; eauto 6].
  left. exists k, e. split; [|done]. unfold find_entry. rewrite (sess_get_in _ _ _ (iv_keys _ _ I) Hk). cbn. by rewrite He.
Qed.
