(* ===== verification/TerminalRevocation.v ===== *)
(** * Terminal sessions: revocation

    Withdrawing consent for an environment ends every terminal of the user there, those being opened included, for good. *)

From S2P Require Import Prelude TerminalWire TerminalRelay TerminalSessions TerminalSessionsFacts TerminalSessionsMoves.

Definition in_scope (user environmentId : jstring) (c : OpenCall) : Prop :=
  oc_user c = user /\ ob_environmentId (oc_body c) = environmentId.

(** ** Where an entry comes from *)

(** The call numbered as the entry, with its owner and its environment. *)
Definition origin (r : registry) : Prop :=
  forall k e, rg_entries r !! k = Some e -> exists c, rg_opens r !! k = Some c /\
    in_scope (en_ownerUserId e) (ts_environmentId (en_session e)) c.

Lemma origin_update k f r r' : rg_opens r' = alter f k (rg_opens r) -> rg_entries r' = rg_entries r ->
  (forall c, rg_opens r !! k = Some c -> oc_user (f c) = oc_user c /\ oc_body (f c) = oc_body c) -> origin r -> origin r'.
Proof.
  intros Ho He Hf O j e Hj. rewrite He in Hj. rewrite Ho. destruct (O j e Hj) as (c & Hc & H1 & H2).
  destruct (decide (k = j)) as [->|]; [|exists c; by rewrite lookup_alter_ne by done].
  exists (f c). rewrite lookup_alter_eq, Hc. destruct (Hf c Hc) as [E1 E2]. unfold in_scope. by rewrite E1, E2.
Qed.

Lemma origin_move randomId allowed es r r' : move randomId allowed es r r' -> reg_inv randomId r -> origin r -> origin r'.
Proof.
  intros Mv I O.
  destruct Mv as [es r r' _ T|c r Ha Hs Hv|k c s r Hc Hr Hd Hs Hd'|k c s r Hc Hr Hd Hs Hcl Hsd Hcount
    |es k c f r _ Hc A|k c cols rows bytes login shell cwd chat tool r Hc Hs Hk|es k c shell cwd status now r _ Hc Hs Hsc|es k c r _ Hc Hg].
  - intros k e' He'. destruct (tame_entry _ _ _ _ _ T He') as (e & He & TE). destruct (O k e He) as (c & Hc & H1 & H2).
    destruct (tame_call_l _ _ _ _ _ T Hc) as (c' & Hc' & TC). exists c'. split; [done|].
    unfold in_scope. by rewrite (ct_user _ _ TC), (ct_body _ _ TC), (et_owner _ _ TE), (et_environment _ _ TE).
  - intros k e He. cbn in *. destruct (O k e He) as (d & Hd & ?). exists d. pose proof (iv_calls _ _ I k d Hd). by rewrite lookup_insert_ne by lia.
  - by eapply (origin_update k (with_stage s) r).
  - by eapply (origin_update k _ r).
  - eapply (origin_update k f r); try done. intros d Hd. simplify_eq. split; apply A.
  - by eapply (origin_update k _ r).
  - intros j e Hj. cbn in *. destruct (decide (k = j)) as [->|].
    + rewrite lookup_insert_eq in Hj. simplify_eq. rewrite lookup_alter_eq, Hc. eexists. split; [done|]. by split.
    + rewrite lookup_insert_ne in Hj by done. rewrite lookup_alter_ne by done. by apply O.
  - by eapply (origin_update k (with_stage open_done) r).
Qed.

Lemma origin_moves randomId allowed es r r' : moves randomId allowed es r r' -> reg_inv randomId r -> origin r -> origin r'.
Proof. induction 1; eauto using origin_move, move_inv. Qed.

(** ** Condemned *)

Definition revoked_entry (e : TerminalSessionEntry) : Prop :=
  ts_status (en_session e) = st_exited /\ en_cleanupPending e = Some cu_revoked.

(** The call will not register a session that runs. *)
Definition doomed (c : OpenCall) : Prop :=
  rv_canceled (oc_reservation c) = true /\ (rv_openSent (oc_reservation c) = false \/ is_Some (rv_scopeEnded (oc_reservation c))).

Record condemned (k : nat) (r : registry) : Prop := {
  cd_old : (k < rg_next r)%nat;
  cd_entry : forall id e, (id, k) ∈ rg_sessions r -> rg_entries r !! k = Some e -> revoked_entry e;
  cd_call : forall c, rg_opens r !! k = Some c -> is_done (oc_stage c) = false -> reserved_stage (oc_stage c) = true /\ doomed c;
}.

Lemma revoked_tame e e' : entry_tame e e' -> revoked_entry e -> revoked_entry e'.
Proof. intros T [H1 H2]. split; by apply T. Qed.

Lemma doomed_tame c c' : call_tame c c' -> doomed c -> doomed c'.
Proof. intros T [H1 H2]. split; [by apply T|]. rewrite (ct_sent _ _ T). destruct H2 as [|H2]; [by left|right; by apply T]. Qed.

Lemma condemned_update j k c f r r' : rg_opens r !! k = Some c -> rg_opens r' = alter f k (rg_opens r) ->
  rg_sessions r' = rg_sessions r -> rg_entries r' = rg_entries r -> rg_next r' = rg_next r ->
  (is_done (oc_stage c) = false -> reserved_stage (oc_stage c) = true -> doomed c -> is_done (oc_stage (f c)) = false ->
   reserved_stage (oc_stage (f c)) = true /\ doomed (f c)) ->
  (is_done (oc_stage c) = true -> is_done (oc_stage (f c)) = true) ->
  condemned j r -> condemned j r'.
Proof.
  intros Hc Ho Hs He Hn Hf Hd [C1 C2 C3]. constructor; rewrite ?Hs, ?He, ?Hn; [done|done|].
  rewrite Ho. intros d Hj Hdone. destruct (alter_cases _ _ _ _ _ Hj) as [[-> (x & Hx & ->)]|[? ?]]; [|by apply C3].
  simplify_eq. destruct (is_done (oc_stage c)) eqn:E; [by rewrite Hd in Hdone|]. destruct (C3 c Hc E). auto.
Qed.

Lemma condemned_register randomId j k c shell cwd status now r : reg_inv randomId r -> rg_opens r !! k = Some c ->
  sent_stage (oc_stage c) = true ->
  rv_scopeEnded (oc_reservation c) = match status with st_running => None | st_exited => Some se_revoked end ->
  condemned j r -> condemned j (update_call k (with_stage open_done) (registerSession randomId k c shell cwd status now r)).
Proof.
  intros I Hc Hs Hsc C. constructor; cbn; [apply C| |].
  - intros id e Hin He. destruct (decide (k = j)) as [->|].
    + rewrite lookup_insert_eq in He. simplify_eq. destruct (cd_call _ _ C c Hc) as [Hr [_ Hd]]; [by destruct (oc_stage c)|].
      rewrite (iv_sent _ _ I j c Hc Hr), Hs in Hd. destruct Hd as [|Hd]; [done|]. rewrite Hsc in Hd.
      destruct status; [by destruct Hd|by split].
    + rewrite lookup_insert_ne in He by done. destruct (sess_set_elem _ _ _ _ Hin); [by simplify_eq|]. by eapply cd_entry.
  - intros d Hj Hd. destruct (alter_cases _ _ _ _ _ Hj) as [[-> (x & Hx & ->)]|[? ?]]; [done|by apply (cd_call _ _ C)].
Qed.

Lemma condemned_move randomId allowed j es r r' : move randomId allowed es r r' -> reg_inv randomId r -> condemned j r -> condemned j r'.
Proof.
  intros Mv I C.
  destruct Mv as [es r r' _ T|c r Ha Hs Hv|k c s r Hc Hr Hd Hs Hd'|k c s r Hc Hr Hd Hs Hcl Hsd Hcount
    |es k c f r _ Hc A|k c cols rows bytes login shell cwd chat tool r Hc Hs Hk|es k c shell cwd status now r _ Hc Hs Hsc|es k c r _ Hc Hg].
  - constructor.
    + pose proof (cd_old _ _ C). pose proof (tm_next _ _ _ T). lia.
    + intros id e' Hin He'. destruct (tame_entry _ _ _ _ _ T He') as (e & He & TE). eapply revoked_tame; [done|].
      eapply cd_entry; [done| |done]. eapply elem_of_sublist; [done|apply T].
    + intros c' Hc' Hd. destruct (tame_call _ _ _ _ _ T Hc') as (c & Hc & TC). rewrite (ct_stage _ _ TC) in *.
      destruct (cd_call _ _ C c Hc Hd). eauto using doomed_tame.
  - destruct C as [C1 C2 C3]. constructor; cbn; [lia|done|]. intros d Hd. rewrite lookup_insert_ne in Hd by lia. by apply C3.
  - eapply (condemned_update j k c (with_stage s) r); try done; cbn; congruence.
  - eapply (condemned_update j k c _ r); try done; cbn; congruence.
  - eapply (condemned_update j k c f r); try done.
    + intros _ _ [D1 D2] _. split; [apply A|]. unfold doomed. by rewrite (ad_canceled _ _ A), (ad_openSent _ _ A), (ad_scope _ _ A).
    + rewrite (reserved_live _ (ad_from _ _ A)). done.
  - eapply (condemned_update j k c _ r); try done; [|by rewrite Hs]. intros _ _ [D1 _]. congruence.
  - by apply condemned_register.
  - by eapply (condemned_update j k c (with_stage open_done) r).
Qed.

Lemma condemned_moves randomId allowed j es r r' : moves randomId allowed es r r' -> reg_inv randomId r -> condemned j r -> condemned j r'.
Proof. induction 1; eauto using condemned_move, move_inv. Qed.

(** ** Revoking *)

Section Revoking.
  Context (user env : jstring) (now : Z).

(** What revoking establishes of one call and of one session. *)
Definition call_revoked (k : nat) (r : registry) : Prop := forall c, rg_opens r !! k = Some c -> in_scope user env c -> doomed c.
Definition entry_revoked (k : nat) (r : registry) : Prop :=
  forall e, rg_entries r !! k = Some e -> en_ownerUserId e = user -> ts_environmentId (en_session e) = env -> revoked_entry e.

Lemma call_revoked_tame es k r r' : tame es r r' -> call_revoked k r -> call_revoked k r'.
Proof.
  intros T Q c' Hc' [H1 H2]. destruct (tame_call _ _ _ _ _ T Hc') as (c & Hc & TC). rewrite (ct_user _ _ TC) in H1. rewrite (ct_body _ _ TC) in H2.
  eapply doomed_tame; [done|]. by apply Q.
Qed.

Lemma entry_revoked_tame es k r r' : tame es r r' -> entry_revoked k r -> entry_revoked k r'.
Proof.
  intros T Q e' He' H1 H2. destruct (tame_entry _ _ _ _ _ T He') as (e & He & TE). rewrite (et_owner _ _ TE) in H1. rewrite (et_environment _ _ TE) in H2.
  eapply revoked_tame; [done|]. by apply Q.
Qed.

Lemma out_of_scope (u u' v v' : jstring) : negb (bool_decide (u = u') && bool_decide (v = v')) = true -> u = u' -> v = v' -> False.
Proof. intros H Hu Hv. by rewrite !bool_decide_eq_true_2 in H. Qed.

Lemma revoke_reservation_marks k r : call_revoked k (revoke_reservation user env k r).
Proof.
  unfold revoke_reservation, call_revoked. destruct (rg_opens r !! k) as [c|] eqn:E.
  - case_match eqn:Hm.
    + intros c' Hc' [H1 H2]. assert (c' = c) as -> by congruence. by destruct (out_of_scope _ _ _ _ Hm).
    + intros c' Hc' _. assert (Hc : c' = with_reservation (canceled_by (Some se_revoked) (oc_reservation c)) c).
      { destruct (rv_openSent _); cbn in Hc'; rewrite lookup_alter_eq, E in Hc'; cbn in Hc'; congruence. }
      subst c'. split; [done|]. right. by eexists.
  - intros c Hc. congruence.
Qed.

Lemma revoke_all_marks k xs r : NoDup xs -> xs ⊆ rg_reservations r -> k ∈ xs ->
  call_revoked k (fold_left (fun r k => revoke_reservation user env k r) xs r).
Proof.
  revert r. induction xs as [|x xs IH]; cbn; intros r Hn Hs Hk; [by apply elem_of_nil in Hk|].
  apply NoDup_cons in Hn as [H1 H2].
  assert (Hs' : xs ⊆ rg_reservations (revoke_reservation user env x r)).
  { intros j Hj. assert (Hjr : j ∈ rg_reservations r) by (apply Hs; by right). assert (j <> x) by congruence.
    unfold revoke_reservation. repeat case_match; try done. cbn. by apply drop_elem. }
  apply elem_of_cons in Hk as [->|Hk]; [|by apply IH].
  eapply (call_revoked_tame []); [by apply tame_revoke_all|apply revoke_reservation_marks].
Qed.

Lemma revoke_entry_marks p r : entry_revoked p.2 (revoke_entry user env now p r).1.
Proof.
  destruct p as [id k]. unfold revoke_entry, entry_revoked. cbn [snd]. destruct (rg_entries r !! k) as [e|] eqn:E.
  - case_match eqn:Hm; [intros e' He' H1 H2; cbn in He'; assert (e' = e) as -> by congruence; by destruct (out_of_scope _ _ _ _ Hm)|].
    set (e1 := markExited _ _ _). set (r1 := update_entry _ _ _).
    assert (H1 : revoked_entry e1) by (unfold e1, markExited; split; cbn; [destruct (decide _) as [Hx|]; [exact Hx|done]|done]).
    pose proof (tame_closeTracked [] id k (cr_cleanup cu_revoked) r1) as T.
    destruct (closeTrackedSession id k _ r1) as [r2 e2]. cbn in *. intros e' He' _ _.
    destruct (tame_entry _ _ _ _ _ T He') as (e0 & He0 & TE). unfold r1 in He0. cbn in He0. rewrite lookup_alter_eq, E in He0. cbn in He0. simplify_eq.
    by eapply revoked_tame.
  - cbn. intros e He. congruence.
Qed.

Lemma revoke_entries_marks p xs r : p ∈ xs -> entry_revoked p.2 (for_each (revoke_entry user env now) xs r).1.
Proof.
  revert r. induction xs as [|x xs IH]; cbn; intros r Hp; [by apply elem_of_nil in Hp|].
  pose proof (revoke_entry_marks x r) as Hx. destruct (revoke_entry user env now x r) as [r1 e1]. cbn in Hx.
  specialize (IH r1). assert (T : tame [] r1 (for_each (revoke_entry user env now) xs r1).1).
  { apply for_each_tame; [apply tame_refl|]. intros; apply tame_revoke_entry. }
  destruct (for_each _ xs r1) as [r2 e2]. cbn in *. apply elem_of_cons in Hp as [->|Hp]; [|by apply IH].
  by eapply entry_revoked_tame.
Qed.

Lemma revoke_condemns randomId k c r : reg_inv randomId r -> origin r -> rg_opens r !! k = Some c -> in_scope user env c ->
  reserved_stage (oc_stage c) = true \/ is_done (oc_stage c) = true -> condemned k (revokeScope user env now r).1.
Proof.
  intros I O Hc Hin Hst. pose proof (tame_revokeScope [] user env now r (iv_res _ _ I)) as T.
  unfold revokeScope in *. set (r1 := fold_left _ _ _) in *.
  assert (T1 : tame [] r r1) by (apply tame_revoke_all; [apply I|done]). 
  assert (T2 : tame [] r1 (for_each (revoke_entry user env now) (rg_sessions r1) r1).1).
  { apply for_each_tame; [apply tame_refl|]. intros; apply tame_revoke_entry. }
  constructor.
  - pose proof (iv_calls _ _ I k c Hc). pose proof (tm_next _ _ _ T). lia.
  - intros id e' Hs He'. eapply elem_of_sublist in Hs; [|apply T2].
    destruct (tame_entry _ _ _ _ _ T He') as (e & He & TE). destruct (O k e He) as (d & Hd & H1 & H2). simplify_eq.
    eapply (revoke_entries_marks (id, k)); [done..| |]; [rewrite (et_owner _ _ TE)|rewrite (et_environment _ _ TE)]; destruct Hin; congruence.
  - intros c' Hc' Hd. destruct (tame_call _ _ _ _ _ T Hc') as (d & Hd' & TC). simplify_eq. rewrite (ct_stage _ _ TC) in *.
    destruct Hst as [Hst|Hst]; [|congruence]. split; [done|].
    destruct (iv_held _ _ I k c Hc Hst) as [Hres|[K1 K2]].
    + eapply (call_revoked_tame _ k r1); [done| |done|].
      * by apply revoke_all_marks; [apply I| |].
      * destruct Hin as [H1 H2]. split; [by rewrite (ct_user _ _ TC)|by rewrite (ct_body _ _ TC)].
    + eapply doomed_tame; [done|]. split; [done|]. destruct K2 as [|K2]; [by left|right]. destruct K2 as [-> | ->]; by eexists.
Qed.

End Revoking.

(** C28: a revocation is effective, and final. After consent for an environment is withdrawn, in every continuation each
    session of that user there, from a call of [open] that had its seat (or had ended) by then, the calls still in
    flight included, is listed as exited, is marked for cleanup and cannot be attached to by anyone: no late answer,
    retained terminal, reconciliation or reap brings it back. (A call that still waits for its capacity check is not in
    the scope: it has asked for nothing yet, and the runtime's own consent check meets it.) *)
Theorem revocation_effective (randomId : nat -> jstring) (os os' : list terminal_op) (user env viewerUser id : jstring) (now : Z)
    (k : nat) (c : OpenCall) (e : TerminalSessionEntry) :
  let r := (terminal_run randomId os new_registry).1 in
  let r' := (terminal_run randomId os' (revokeScope user env now r).1).1 in
  rg_opens r !! k = Some c -> in_scope user env c -> reserved_stage (oc_stage c) = true \/ is_done (oc_stage c) = true ->
  find_entry id r' = Some (k, e) ->
  ts_status (en_session e) = st_exited /\ en_cleanupPending e = Some cu_revoked /\ getForAttach viewerUser id r' = None.
Proof.
  intros r r' Hc Hin Hst Hf. set (any := fun _ : TerminalConfig => True).
  assert (Hall : forall os, Forall (op_allowed any) os) by (intros; apply Forall_forall; by intros []).
  pose proof (run_by_moves randomId any os new_registry (Hall _) (inv_new _)) as M.
  pose proof (moves_inv _ _ _ _ _ M (inv_new _)) as I.
  assert (O : origin r) by (eapply origin_moves; [exact M|apply inv_new|]; intros j d Hd; cbn in Hd; by apply lookup_empty_Some in Hd).
  pose proof (revoke_condemns user env now randomId k c r I O Hc Hin Hst) as C.
  assert (I1 : reg_inv randomId (revokeScope user env now r).1) by (eapply (tame_inv _ []); [apply tame_revokeScope, I|done]).
  pose proof (run_by_moves randomId any os' _ (Hall _) I1) as M'.
  pose proof (condemned_moves _ _ _ _ _ _ M' I1 C) as C'. fold r' in C'.
  assert (Hs : sess_get id (rg_sessions r') = Some k /\ rg_entries r' !! k = Some e).
  { unfold find_entry in Hf. destruct (sess_get id _) as [j|]; cbn in Hf; [|done]. destruct (rg_entries r' !! j) eqn:Ej; cbn in Hf; by simplify_eq. }
  destruct (cd_entry _ _ C' id e (sess_get_elem _ _ _ (proj1 Hs)) (proj2 Hs)) as [E1 E2]. split; [done|]. split; [done|].
  unfold getForAttach. rewrite Hf, (bool_decide_eq_false_2 (en_cleanupPending e = None)) by congruence. by rewrite andb_false_r.
Qed.
