(* ===== verification/TerminalRuns.v ===== *)
(** * Terminal sessions: runs

    Concrete runs of the registry, at which the theorems on it apply. *)

From S2P Require Import Prelude TerminalWire TerminalRelay TerminalSessions TerminalSessionsFacts TerminalSessionsMoves.
From S2P Require Import TerminalSeats TerminalTracking TerminalRevocation.

Definition numbered (k : nat) : jstring := [Z.of_nat k].

Lemma numbered_inj : Inj (=) (=) numbered.
Proof. intros i j. unfold numbered. intros H. injection H. lia. Qed.

Definition one_seat : TerminalConfig :=
  {| tc_enabled := true; tc_idleTimeoutMinutes := 30; tc_maxSessionsPerUser := 1; tc_scrollbackKib := 64 |}.

Definition capable : terminal_manifest :=
  {| mf_terminal := true; mf_shellRefused := false; mf_terminalCloseAfterRevocation := true; mf_terminalLoginArgv := true;
     mf_shells := [js "bash"]; mf_homeDir := js "/home" |}.

Definition plain_open : TerminalOpenBody :=
  {| ob_environmentId := js "box"; ob_loginTarget := None; ob_chatId := None; ob_shell := None; ob_cwd := None;
     ob_cols := None; ob_rows := None; ob_title := None |}.

Definition timed_out : open_failure :=
  {| of_consentDenied := false; of_requestNotSent := false; of_noReplyClosed := false; of_noReplyDeadline := true;
     of_timedOut := false; of_remoteUnavailable := false |}.

(** An open up to its request, then a second one that finds no seat. *)
Definition two_opens : list terminal_op :=
  [IOpen one_seat (js "ann") plain_open false; IClient 0 (Some (7%nat, capable)) true; IToolchain 0 (Ok None);
   IOpen one_seat (js "ann") plain_open false; IReconciled 1].

(** The request times out and the close that follows fails: the terminal is kept. *)
Definition lost_reply : list terminal_op :=
  [IOpen one_seat (js "ann") plain_open false; IClient 0 (Some (7%nat, capable)) true; IToolchain 0 (Ok None);
   IOpenAnswered 0 (Err timed_out) 5; ICloseAnswered 0 false capable 6].

Lemma terminal_seats_bounded_witness :
  countRunning (js "ann") (terminal_run numbered two_opens new_registry).1 = 1 /\
  countRunning (js "ann") (terminal_run numbered two_opens new_registry).1 <= 1.
Proof.
  split; [by vm_compute|]. apply (terminal_seats_bounded numbered 1 two_opens (js "ann")); [lia|].
  unfold two_opens. repeat constructor; cbn; lia.
Defined.

Lemma terminals_tracked_witness :
  live_terminals (terminal_run numbered lost_reply new_registry).2 = [(7%nat, numbered 0)] /\
  tracked numbered (terminal_run numbered lost_reply new_registry).1 7 (numbered 0).
Proof.
  split; [by vm_compute|].
  apply (terminals_tracked numbered lost_reply _ (terminal_run numbered lost_reply new_registry).2 7 (numbered 0) numbered_inj);
    [by destruct (terminal_run _ _ _)|by vm_compute|].
  assert (H : live_terminals (terminal_run numbered lost_reply new_registry).2 = [(7%nat, numbered 0)]) by (by vm_compute).
  rewrite H. left.
Defined.

(** The runtime answers after the revocation, and cannot be told to close. *)
Definition asked : list terminal_op :=
  [IOpen one_seat (js "ann") plain_open false; IClient 0 (Some (7%nat, capable)) true; IToolchain 0 (Ok None)].
Definition late : list terminal_op := [IOpenAnswered 0 (Ok (js "bash", js "/home")) 5; ICloseAnswered 0 false capable 6].

Definition after_revocation : registry :=
  (terminal_run numbered late (revokeScope (js "ann") (js "box") 4 (terminal_run numbered asked new_registry).1).1).1.

Lemma revocation_effective_witness :
  sess_get (numbered 0) (rg_sessions after_revocation) = Some 0%nat /\
  getForAttach (js "ann") (numbered 0) after_revocation = None.
Proof.
  split; [by vm_compute|].
  destruct (rg_opens (terminal_run numbered asked new_registry).1 !! 0%nat) as [c|] eqn:Hc; [|by vm_compute in Hc].
  destruct (find_entry (numbered 0) after_revocation) as [[k e]|] eqn:Hf; [|by vm_compute in Hf].
  assert (k = 0%nat) as -> by (vm_compute in Hf; congruence).
  refine (proj2 (proj2 (revocation_effective numbered asked late (js "ann") (js "box") (js "ann") (numbered 0) 4 0 c e Hc _ _ Hf))).
  - vm_compute in Hc. injection Hc as <-. by split.
  - vm_compute in Hc. injection Hc as <-. by left.
Defined.
