(* ===== verification/TerminalSocket.v ===== *)
(** * The terminal socket

    [apps/api/src/modules/terminals/http/terminal-socket-routes.ts] and [plugins/browser-socket-handshake.ts]: the browser's
    socket between a viewer and the runtime's terminal. A system is the registry and its sockets; a step is one handler or
    the continuation of one await, and whatever the registry tells a viewer reaches its socket in the same step. What is
    pushed to the relay is an effect ([TerminalRelay] says what becomes of it). Terminal bytes travel as base64 in JSON;
    here events and requests carry the bytes. A socket's close event comes between steps. *)

From S2P Require Import Prelude Json Wire Frames TerminalWire TerminalRelay TerminalSessions.

(** ** The handshake *)

Inductive BrowserSocketRejection : Type := bs_unauthorized | bs_forbidden | bs_internal.

Record BrowserSocketHandshakeResult : Type := { hs_userId : option jstring; hs_rejection : option BrowserSocketRejection }.

(** The answer of [resolveUserId]: [Err] when it throws. *)
Definition browser_handshake (isAllowedOrigin : jstring -> bool) (origin : option jstring) (hasApiKey : bool)
    (resolved : outcome unit (option jstring)) : BrowserSocketHandshakeResult :=
  if match if_truthy origin with Some o => negb (isAllowedOrigin o) | None => false end
  then {| hs_userId := None; hs_rejection := Some bs_forbidden |}
  else if hasApiKey then {| hs_userId := None; hs_rejection := Some bs_unauthorized |}
  else match resolved with
       | Ok user => match if_truthy user with
                    | Some u => {| hs_userId := Some u; hs_rejection := None |}
                    | None => {| hs_userId := None; hs_rejection := Some bs_unauthorized |}
                    end
       | Err _ => {| hs_userId := None; hs_rejection := Some bs_internal |}
       end.

(** ** Codes *)

Definition UNAUTHORIZED : Z := 4401.
Definition FORBIDDEN : Z := 4403.
Definition RATE_LIMITED : Z := 4429.
Definition NOT_FOUND : Z := 4404.
Definition REPLACED : Z := 4409.
Definition PROTOCOL_ERROR_CLOSE_CODE : Z := 1003.
Definition TERMINAL_SOCKET_MAX_PENDING_MESSAGES : Z := 256.

(** ** State *)

(** [RuntimeTerminalOutputEvent], data decoded. *)
Inductive output_event : Type :=
| OData (data : bytes)
| ODropped (count : Z)
| OExit (exit : TerminalExit).

(** Where [attach] is; [first] is the claim's [firstLoginAttach], [queued] the events held back for the replay. *)
Inductive attach_stage : Type :=
| not_attaching
| detaching (first : bool)
| attaching (first : bool) (queued : list output_event) (replayExit : option TerminalExit)
| live
| attach_over.

(** [TerminalSocketState]. The viewer is named by its socket's number. *)
Record TerminalSocketState : Type := {
  sk_sessionId : jstring;
  sk_client : option nat;
  sk_relay : bool;
  sk_viewer : bool;
  sk_loginReplayRemaining : option Z;
  sk_subscribed : bool;
  sk_closed : bool;
  sk_chain : list bytes;
  sk_running : option TerminalClientMessage;
  sk_pendingMessageCount : Z;
  sk_attach : attach_stage;
}.

Definition new_socket (sessionId : jstring) : TerminalSocketState :=
  {| sk_sessionId := sessionId; sk_client := None; sk_relay := false; sk_viewer := false; sk_loginReplayRemaining := None;
     sk_subscribed := false; sk_closed := false; sk_chain := []; sk_running := None; sk_pendingMessageCount := 0;
     sk_attach := not_attaching |}.

Definition sk_stage (a : attach_stage) (k : TerminalSocketState) : TerminalSocketState :=
  {| sk_sessionId := sk_sessionId k; sk_client := sk_client k; sk_relay := sk_relay k; sk_viewer := sk_viewer k;
     sk_loginReplayRemaining := sk_loginReplayRemaining k; sk_subscribed := sk_subscribed k; sk_closed := sk_closed k;
     sk_chain := sk_chain k; sk_running := sk_running k; sk_pendingMessageCount := sk_pendingMessageCount k; sk_attach := a |}.

Definition sk_relayed (k : TerminalSocketState) : TerminalSocketState :=
  {| sk_sessionId := sk_sessionId k; sk_client := sk_client k; sk_relay := true; sk_viewer := sk_viewer k;
     sk_loginReplayRemaining := sk_loginReplayRemaining k; sk_subscribed := sk_subscribed k; sk_closed := sk_closed k;
     sk_chain := sk_chain k; sk_running := sk_running k; sk_pendingMessageCount := sk_pendingMessageCount k; sk_attach := sk_attach k |}.

Definition sk_claimed (client : nat) (k : TerminalSocketState) : TerminalSocketState :=
  {| sk_sessionId := sk_sessionId k; sk_client := Some client; sk_relay := sk_relay k; sk_viewer := true;
     sk_loginReplayRemaining := sk_loginReplayRemaining k; sk_subscribed := sk_subscribed k; sk_closed := sk_closed k;
     sk_chain := sk_chain k; sk_running := sk_running k; sk_pendingMessageCount := sk_pendingMessageCount k; sk_attach := sk_attach k |}.

Definition sk_replay (n : option Z) (k : TerminalSocketState) : TerminalSocketState :=
  {| sk_sessionId := sk_sessionId k; sk_client := sk_client k; sk_relay := sk_relay k; sk_viewer := sk_viewer k;
     sk_loginReplayRemaining := n; sk_subscribed := sk_subscribed k; sk_closed := sk_closed k;
     sk_chain := sk_chain k; sk_running := sk_running k; sk_pendingMessageCount := sk_pendingMessageCount k; sk_attach := sk_attach k |}.

Definition sk_listening (b : bool) (k : TerminalSocketState) : TerminalSocketState :=
  {| sk_sessionId := sk_sessionId k; sk_client := sk_client k; sk_relay := sk_relay k; sk_viewer := sk_viewer k;
     sk_loginReplayRemaining := sk_loginReplayRemaining k; sk_subscribed := b; sk_closed := sk_closed k;
     sk_chain := sk_chain k; sk_running := sk_running k; sk_pendingMessageCount := sk_pendingMessageCount k; sk_attach := sk_attach k |}.

Definition sk_shut (k : TerminalSocketState) : TerminalSocketState :=
  {| sk_sessionId := sk_sessionId k; sk_client := sk_client k; sk_relay := sk_relay k; sk_viewer := sk_viewer k;
     sk_loginReplayRemaining := sk_loginReplayRemaining k; sk_subscribed := sk_subscribed k; sk_closed := true;
     sk_chain := sk_chain k; sk_running := sk_running k; sk_pendingMessageCount := sk_pendingMessageCount k; sk_attach := sk_attach k |}.

Definition sk_messages (chain : list bytes) (running : option TerminalClientMessage) (pending : Z) (k : TerminalSocketState)
    : TerminalSocketState :=
  {| sk_sessionId := sk_sessionId k; sk_client := sk_client k; sk_relay := sk_relay k; sk_viewer := sk_viewer k;
     sk_loginReplayRemaining := sk_loginReplayRemaining k; sk_subscribed := sk_subscribed k; sk_closed := sk_closed k;
     sk_chain := chain; sk_running := running; sk_pendingMessageCount := pending; sk_attach := sk_attach k |}.

(** [teardown] *)
Definition socket_teardown (k : TerminalSocketState) : TerminalSocketState := sk_listening false k.

Record terminal_system : Type := { sy_registry : registry; sy_sockets : gmap nat TerminalSocketState }.

Definition new_system : terminal_system := {| sy_registry := new_registry; sy_sockets := ∅ |}.

Definition set_registry (r : registry) (y : terminal_system) : terminal_system := {| sy_registry := r; sy_sockets := sy_sockets y |}.
Definition set_socket (s : nat) (k : TerminalSocketState) (y : terminal_system) : terminal_system :=
  {| sy_registry := sy_registry y; sy_sockets := <[s := k]> (sy_sockets y) |}.

(** What a socket does: to its browser, to its relay and to the runtime. *)
Inductive socket_effect : Type :=
| SeClose (socket : nat) (code : Z) (reason : jstring)
| SePush (socket : nat) (message : TerminalServerMessage)
| SeCloseAfterDrain (socket : nat) (code : Z) (reason : jstring)
| SeDrain (socket : nat)
| SeDetach (socket client : nat) (sessionId : jstring)
| SeAttach (socket client : nat) (sessionId : jstring)
| SeRequest (socket client : nat) (sessionId : jstring) (message : TerminalClientMessage)
| SeRegistry (effect : terminal_effect).

(** ** The viewer of a socket *)

(** [sendExit], also the viewer's [endWithExit] *)
Definition sendExit (s : nat) (exit : TerminalExit) : list socket_effect :=
  [SePush s (SExit exit); SeCloseAfterDrain s GONE (js "Session exited")].

(** The viewer's [close] *)
Definition viewer_close (s : nat) (code : Z) (reason : jstring) : socket_effect :=
  if code =? REPLACED then SeClose s code reason else SeCloseAfterDrain s code reason.

(** What the registry does, its calls of viewers carried out. *)
Definition to_viewers (e : terminal_effect) : list socket_effect :=
  match e with
  | TeNotice v notice => [SePush v (SNotice notice)]
  | TeEndWithExit v exit => sendExit v exit
  | TeViewerClose v code reason => [viewer_close v code reason]
  | e => [SeRegistry e]
  end.

(** ** Attaching *)

(** [attach] up to its first await. *)
Definition attach_start (s : nat) (user : jstring) (now : Z) (y : terminal_system) : terminal_system * list socket_effect :=
  match sy_sockets y !! s with
  | None => (y, [])
  | Some k =>
      let id := sk_sessionId k in
      match getForAttach user id (sy_registry y) with
      | None => (y, [SeClose s NOT_FOUND (js "Not found")])
      | Some (_, client) =>
          let k := sk_relayed k in
          match attachViewer id s now (sy_registry y) with
          | (r, None) => (set_registry r (set_socket s k y), [SeClose s REPLACED (js "First login viewer is receiving output")])
          | (r, Some (replaced, first)) =>
              (set_registry r (set_socket s (sk_stage (detaching first) (sk_claimed client k)) y),
               match replaced with Some v => [viewer_close v REPLACED (js "Replaced by a new viewer")] | None => [] end ++
               [SeDetach s client id])
          end
      end
  end.

(** The socket's [open] handler. *)
Definition socket_open (s : nat) (hs : BrowserSocketHandshakeResult) (sessionId : jstring) (now : Z) (y : terminal_system)
    : terminal_system * list socket_effect :=
  let y := set_socket s (new_socket sessionId) y in
  match hs_rejection hs with
  | Some bs_forbidden => (y, [SeClose s FORBIDDEN (js "Forbidden")])
  | Some bs_internal => (y, [SeClose s INTERNAL_ERROR (js "Internal error")])
  | Some bs_unauthorized => (y, [SeClose s UNAUTHORIZED (js "Unauthorized")])
  | None =>
      match if_truthy (hs_userId hs) with
      | None => (y, [SeClose s UNAUTHORIZED (js "Unauthorized")])
      | Some user => attach_start s user now y
      end
  end.

(** [stillCurrent], with the close it sends *)
Definition stillCurrent (s : nat) (k : TerminalSocketState) (r : registry) : bool * list socket_effect :=
  if sk_closed k then (false, [])
  else if isCurrentViewer (sk_sessionId k) s r then (true, [])
  else (false, [SeClose s REPLACED (js "Replaced by a new viewer")]).

(** [service.detachViewer]: whether the caller should detach, and what the registry did. *)
Definition detach_viewer (s : nat) (id : jstring) (now : Z) (y : terminal_system) : terminal_system * bool * list socket_effect :=
  let '(r, was, e) := detachViewer id s now (sy_registry y) in (set_registry r y, was, concat (map to_viewers e)).

(** The quiescing [terminal.detach] answered, whatever it answered. *)
Definition attach_detached (s : nat) (now : Z) (y : terminal_system) : terminal_system * list socket_effect :=
  match sy_sockets y !! s with
  | Some k =>
      match sk_attach k, sk_client k with
      | detaching first, Some client =>
          match stillCurrent s k (sy_registry y) with
          | (false, e) =>
              let '(y, _, e2) := detach_viewer s (sk_sessionId k) now (set_socket s (sk_stage attach_over k) y) in (y, e ++ e2)
          | (true, e) =>
              (set_socket s (sk_stage (attaching first [] None) (sk_listening true k)) y, e ++ [SeAttach s client (sk_sessionId k)])
          end
      | _, _ => (y, [])
      end
  | None => (y, [])
  end.

(** [handleOutput] *)
Definition handleOutput (s : nat) (k : TerminalSocketState) (e : output_event) : list socket_effect :=
  if sk_closed k then []
  else match e with
       | OData data => [SePush s (SData data)]
       | ODropped count => [SePush s (SNotice {| tn_kind := nk_dropped; tn_bytes := Some count |})]
       | OExit _ => []
       end.

(** The subscription's callback. *)
Definition on_output (s : nat) (e : output_event) (now : Z) (y : terminal_system) : terminal_system * list socket_effect :=
  match sy_sockets y !! s with
  | None => (y, [])
  | Some k =>
      if negb (sk_subscribed k) || sk_closed k then (y, [])
      else
        match e with
        | OExit exit =>
            let y := set_registry (recordExit (sk_sessionId k) exit now (sy_registry y)) y in
            match sk_attach k with
            | attaching first queued _ => (set_socket s (sk_stage (attaching first queued (Some exit)) k) y, [])
            | _ => (y, sendExit s exit)
            end
        | e =>
            match sk_attach k with
            | attaching first queued exit => (set_socket s (sk_stage (attaching first (queued ++ [e]) exit) k) y, [])
            | _ => (y, handleOutput s k e)
            end
        end
  end.

(** What [terminal.attach] answers. *)
Record attach_result : Type := { ar_exited : bool; ar_exitCode : option Z; ar_signal : option jstring; ar_scrollback : bytes }.

Definition scrollback_chunks (scrollback : bytes) : list bytes :=
  match chunkTerminalBytes scrollback (NInt TERMINAL_CHUNK_MAX_BYTES) with Ok chunks => chunks | Err _ => [] end.

Definition attach_answered (s : nat) (answer : option attach_result) (now : Z) (y : terminal_system)
    : terminal_system * list socket_effect :=
  match sy_sockets y !! s with
  | Some k =>
      match sk_attach k, sk_client k with
      | attaching first queued replayExit, Some client =>
          let id := sk_sessionId k in
          match answer with
          | None =>
              let '(y, _, e) := detach_viewer s id now (set_socket s (sk_stage attach_over (socket_teardown k)) y) in
              (y, e ++ [SeClose s GONE (js "Session unavailable")])
          | Some result =>
              match stillCurrent s k (sy_registry y) with
              | (false, e) =>
                  let '(y, was, e2) := detach_viewer s id now (set_socket s (sk_stage attach_over (socket_teardown k)) y) in
                  (y, e ++ e2 ++ (if was then [SeDetach s client id] else []))
              | (true, _) =>
                  let '(replayExit, r) :=
                    if ar_exited result
                    then let exit := {| te_exitCode := ar_exitCode result; te_signal := ar_signal result; te_consentRevoked := false |} in
                         (Some exit, recordExit id exit now (sy_registry y))
                    else (replayExit, sy_registry y) in
                  let replayed := map (fun c => SePush s (SData c)) (scrollback_chunks (ar_scrollback result)) in
                  let '(k, r) :=
                    if negb first then (k, r)
                    else if 0 <? zlen (ar_scrollback result) then (sk_replay (Some (zlen (ar_scrollback result))) k, r)
                    else (k, completeFirstLoginAttach id s r) in
                  let held := concat (map (handleOutput s k) queued) in
                  match replayExit with
                  | Some exit => (set_registry r (set_socket s (sk_stage attach_over (socket_teardown k)) y), replayed ++ held ++ sendExit s exit)
                  | None => (set_registry r (set_socket s (sk_stage live k) y), replayed ++ held)
                  end
              end
          end
      | _, _ => (y, [])
      end
  | None => (y, [])
  end.

(** ** Messages of the browser *)

Section Messages.
  Context `{TypeBox}.

(** The [message] handler; [None] is a text frame. *)
Definition socket_message (s : nat) (message : option bytes) (y : terminal_system) : terminal_system * list socket_effect :=
  match sy_sockets y !! s with
  | None => (y, [])
  | Some k =>
      if sk_closed k then (y, [])
      else
        match message with
        | None => (y, [SeClose s PROTOCOL_ERROR_CLOSE_CODE (js "Malformed frame")])
        | Some b =>
            if TERMINAL_SOCKET_MAX_PENDING_MESSAGES <=? sk_pendingMessageCount k
            then (y, [SeClose s RATE_LIMITED (js "Message queue limit exceeded")])
            else (set_socket s (sk_messages (sk_chain k ++ [b]) (sk_running k) (sk_pendingMessageCount k + 1) k) y, [])
        end
  end.

Definition ack_bytes (n : jsnum) : Z := match n with NInt z => z | NOther _ => 0 end.

(** The next link of the chain runs: [handleClientMessage] up to its await. *)
Definition message_start (s : nat) (y : terminal_system) : terminal_system * list socket_effect :=
  match sy_sockets y !! s with
  | None => (y, [])
  | Some k =>
      match sk_running k, sk_chain k with
      | None, b :: rest =>
          let over k := sk_messages rest None (sk_pendingMessageCount k - 1) k in
          let id := sk_sessionId k in
          match sk_client k with
          | None => (set_socket s (over k) y, [])
          | Some client =>
              if sk_closed k then (set_socket s (over k) y, [])
              else
                match decodeTerminalClientMessage b with
                | Err _ => (set_socket s (over k) y, [SeClose s PROTOCOL_ERROR_CLOSE_CODE (js "Malformed frame")])
                | Ok CPing => (set_socket s (over k) y, if sk_relay k then [SePush s SPong] else [])
                | Ok (CAck n) =>
                    let '(k, r) :=
                      match sk_loginReplayRemaining k with
                      | Some remaining =>
                          if negb (sk_viewer k) then (k, sy_registry y)
                          else if remaining - ack_bytes n <=? 0
                          then (sk_replay None k, completeFirstLoginAttach id s (sy_registry y))
                          else (sk_replay (Some (remaining - ack_bytes n)) k, sy_registry y)
                      | None => (k, sy_registry y)
                      end in
                    (set_registry r (set_socket s (sk_messages rest (Some (CAck n)) (sk_pendingMessageCount k) k) y),
                     [SeRequest s client id (CAck n)])
                | Ok m => (set_socket s (sk_messages rest (Some m) (sk_pendingMessageCount k) k) y, [SeRequest s client id m])
                end
          end
      | _, _ => (y, [])
      end
  end.

(** The runtime answered the request in flight, or it failed. *)
Definition message_done (s : nat) (ok : bool) (now : Z) (y : terminal_system) : terminal_system :=
  match sy_sockets y !! s with
  | None => y
  | Some k =>
      match sk_running k with
      | None => y
      | Some m =>
          let id := sk_sessionId k in
          let r := sy_registry y in
          let r := if negb ok then r
                   else match m with
                        | CData _ => touchActivity id now r
                        | CResize cols rows => recordResize id cols rows now r
                        | _ => r
                        end in
          set_registry r (set_socket s (sk_messages (sk_chain k) None (sk_pendingMessageCount k - 1) k) y)
      end
  end.

(** The socket's [close] handler. *)
Definition socket_closed (s : nat) (now : Z) (y : terminal_system) : terminal_system * list socket_effect :=
  match sy_sockets y !! s with
  | None => (y, [])
  | Some k =>
      let y := set_socket s (socket_teardown (sk_shut k)) y in
      let '(y, was, e) := if sk_viewer k then detach_viewer s (sk_sessionId k) now y else (y, false, []) in
      (y, e ++ match sk_client k with
               | Some client => if was && truthy (Some (sk_sessionId k)) then [SeDetach s client (sk_sessionId k)] else []
               | None => []
               end)
  end.

(** ** Steps *)

Inductive socket_op : Type :=
| KOpen (s : nat) (hs : BrowserSocketHandshakeResult) (sessionId : jstring) (now : Z)
| KDetached (s : nat) (now : Z)
| KOutput (s : nat) (e : output_event) (now : Z)
| KAttached (s : nat) (answer : option attach_result) (now : Z)
| KMessage (s : nat) (message : option bytes)
| KStart (s : nat)
| KDone (s : nat) (ok : bool) (now : Z)
| KDrain (s : nat)
| KClosed (s : nat) (now : Z)
| KRegistry (o : terminal_op).

Definition socket_step (randomId : nat -> jstring) (o : socket_op) (y : terminal_system) : terminal_system * list socket_effect :=
  match o with
  | KOpen s hs sessionId now =>
      match sy_sockets y !! s with Some _ => (y, []) | None => socket_open s hs sessionId now y end
  | KDetached s now => attach_detached s now y
  | KOutput s e now => on_output s e now y
  | KAttached s answer now => attach_answered s answer now y
  | KMessage s message => socket_message s message y
  | KStart s => message_start s y
  | KDone s ok now => (message_done s ok now y, [])
  | KDrain s => (y, match sy_sockets y !! s with Some k => if sk_relay k then [SeDrain s] else [] | None => [] end)
  | KClosed s now => socket_closed s now y
  | KRegistry o => let '(r, e) := terminal_step randomId o (sy_registry y) in (set_registry r y, concat (map to_viewers e))
  end.

Fixpoint socket_run (randomId : nat -> jstring) (os : list socket_op) (y : terminal_system) : terminal_system * list socket_effect :=
  match os with
  | [] => (y, [])
  | o :: rest => let '(y, e1) := socket_step randomId o y in let '(y, e2) := socket_run randomId rest y in (y, e1 ++ e2)
  end.

End Messages.
