(* ===== verification/TerminalSocketFacts.v ===== *)
(** * The terminal socket: order and ownership

    What a browser's frames become, in which order, and which steps concern a socket. *)

From S2P Require Import Prelude Json Wire Frames TerminalWire TerminalRelay TerminalSessions TerminalSessionsFacts TerminalSessionsMoves TerminalSocket.

Section Facts.
  Context `{TypeBox} (randomId : nat -> jstring).

(** ** Reading a run *)

(** The messages that show terminal output on socket [s]. *)
Definition shown_by (s : nat) (e : socket_effect) : option TerminalServerMessage :=
  match e with
  | SePush v (SData d) => if decide (v = s) then Some (SData d) else None
  | SePush v (SNotice n) => match tn_kind n with nk_dropped => if decide (v = s) then Some (SNotice n) else None | _ => None end
  | _ => None
  end.
Definition shown (s : nat) (es : list socket_effect) : list TerminalServerMessage := omap (shown_by s) es.

Definition message_of (e : output_event) : list TerminalServerMessage :=
  match e with
  | OData data => [SData data]
  | ODropped count => [SNotice {| tn_kind := nk_dropped; tn_bytes := Some count |}]
  | OExit _ => []
  end.

(** The client frames socket [s] accepted. *)
Definition accepted_now (s : nat) (o : socket_op) (y : terminal_system) : list bytes :=
  match o, sy_sockets y !! s with
  | KMessage v (Some b), Some k =>
      if bool_decide (v = s) && negb (sk_closed k) && (sk_pendingMessageCount k <? TERMINAL_SOCKET_MAX_PENDING_MESSAGES) then [b] else []
  | _, _ => []
  end.
Fixpoint accepted (s : nat) (os : list socket_op) (y : terminal_system) : list bytes :=
  match os with [] => [] | o :: rest => accepted_now s o y ++ accepted s rest (socket_step randomId o y).1 end.

(** What a frame asks of the runtime, and what was asked for [s]. *)
Definition request_of (b : bytes) : option TerminalClientMessage :=
  match decodeTerminalClientMessage b with Ok CPing | Err _ => None | Ok m => Some m end.
Definition requests (s : nat) (es : list socket_effect) : list TerminalClientMessage :=
  omap (fun e => match e with SeRequest v _ _ m => if decide (v = s) then Some m else None | _ => None end) es.

(** ** What the sockets' steps have in common *)

Lemma shown_app s es1 es2 : shown s (es1 ++ es2) = shown s es1 ++ shown s es2.
Proof. apply omap_app. Qed.

Lemma requests_app s es1 es2 : requests s (es1 ++ es2) = requests s es1 ++ requests s es2.
Proof. apply omap_app. Qed.

(** Effects of the registry's calls of viewers: notices other than drops, exits and closes. *)
Definition aside (e : socket_effect) : bool :=
  match e with
  | SePush _ (SData _) => false
  | SePush _ (SNotice n) => match tn_kind n with nk_dropped => false | _ => true end
  | SeRequest _ _ _ _ => false
  | _ => true
  end.

Lemma aside_shown s es : Forall aside es -> shown s es = [].
Proof.
  induction 1 as [|e es He _ IH]; [done|]. unfold shown in *. cbn. rewrite IH.
  destruct e as [|v m| | | | | |]; try done. destruct m as [| |n|]; try done. cbn in *.
  by destruct (tn_kind n).
Qed.

Lemma aside_requests s es : Forall aside es -> requests s es = [].
Proof. induction 1 as [|e es He _ IH]; [done|]. unfold requests in *. cbn. rewrite IH. by destruct e. Qed.

Lemma plain_aside es : Forall plain es -> Forall aside (concat (map to_viewers es)).
Proof.
  induction 1 as [|e es He _ IH]; [constructor|]. cbn. apply Forall_app. split; [|done].
  destruct e; cbn in *; try (by apply Forall_singleton).
  - by repeat constructor.
  - apply Forall_singleton. unfold viewer_close. by destruct (code =? REPLACED).
Qed.

(** ** The sockets a step leaves alone *)

Definition op_socket (o : socket_op) : option nat :=
  match o with
  | KOpen s _ _ _ | KDetached s _ | KOutput s _ _ | KAttached s _ _ | KMessage s _ | KStart s | KDone s _ _ | KDrain s | KClosed s _ => Some s
  | KRegistry _ => None
  end.

Definition own (s : nat) (e : socket_effect) : bool :=
  match e with SePush v _ | SeRequest v _ _ _ => bool_decide (v = s) | _ => false end.

(** A socket's step changes its own record and the registry; what it does besides concerns viewers or itself. *)
Definition local (s : nat) (y : terminal_system) (p : terminal_system * list socket_effect) : Prop :=
  (forall j, j <> s -> sy_sockets p.1 !! j = sy_sockets y !! j) /\ Forall (fun e => aside e || own s e) p.2.

Lemma local_shown j s y p : local s y p -> j <> s -> shown j p.2 = [] /\ requests j p.2 = [].
Proof.
  intros [_ Hf] Hj. induction Hf as [|e es He _ [IH1 IH2]]; [done|]. unfold shown, requests in *. cbn. rewrite IH1, IH2.
  destruct e as [|v m| | | | |v c i q|]; try done; cbn in *.
  - destruct m as [| |n|]; try done; cbn in *; [|destruct (tn_kind n); try done]; apply bool_decide_unpack in He; by rewrite decide_False by congruence.
  - apply bool_decide_unpack in He. by rewrite decide_False by congruence.
Qed.

Lemma aside_local s es : Forall aside es -> Forall (fun e => aside e || own s e) es.
Proof. intros Ha. eapply Forall_impl; [exact Ha|]. intros e He. cbv beta in *. by destruct (aside e). Qed.

Lemma set_socket_other s k y j : j <> s -> sy_sockets (set_socket s k y) !! j = sy_sockets y !! j.
Proof. intros. cbn. by rewrite lookup_insert_ne. Qed.

Lemma local_set s k y es : Forall (fun e => aside e || own s e) es -> local s y (set_socket s k y, es).
Proof. intros. split; [|done]. intros. by apply set_socket_other. Qed.

Lemma local_set_registry s r k y es : Forall (fun e => aside e || own s e) es -> local s y (set_registry r (set_socket s k y), es).
Proof. intros. split; [|done]. intros. by apply set_socket_other. Qed.

Lemma local_refl s y es : Forall (fun e => aside e || own s e) es -> local s y (y, es).
Proof. intros. split; [done|done]. Qed.

Lemma detach_viewer_spec s id now y :
  sy_sockets (detach_viewer s id now y).1.1 = sy_sockets y /\ Forall aside (detach_viewer s id now y).2 /\
  sy_registry (detach_viewer s id now y).1.1 = (detachViewer id s now (sy_registry y)).1.1 /\
  (detach_viewer s id now y).1.2 = (detachViewer id s now (sy_registry y)).1.2.
Proof.
  unfold detach_viewer. pose proof (quiet_detach id s now (sy_registry y)) as Hq. destruct (detachViewer id s now (sy_registry y)) as [[r was] e].
  cbn in *. split; [done|]. split; [by apply plain_aside, quiet_plain|done].
Qed.

Lemma local_after_detach s id now k y y' b e : detach_viewer s id now (set_socket s k y) = (y', b, e) ->
  Forall aside e /\ forall es, Forall aside es -> local s y (y', es).
Proof.
  intros E. destruct (detach_viewer_spec s id now (set_socket s k y)) as (E1 & E2 & _). rewrite E in *. cbn in *. split; [done|].
  intros es Hes. split; cbn; [intros j Hj; rewrite E1; by apply set_socket_other|by apply aside_local].
Qed.

Lemma handleOutput_own s k e : Forall (fun e => aside e || own s e) (handleOutput s k e).
Proof. unfold handleOutput. destruct (sk_closed k); [constructor|]. destruct e; repeat constructor; cbn; by rewrite bool_decide_eq_true_2. Qed.

Lemma sendExit_aside s exit : Forall aside (sendExit s exit).
Proof. by repeat constructor. Qed.

Lemma stillCurrent_aside s k r : Forall aside (stillCurrent s k r).2.
Proof. unfold stillCurrent. repeat case_match; by repeat constructor. Qed.

Lemma own_pushes {A} s (f : A -> TerminalServerMessage) xs : Forall (fun e => aside e || own s e) (map (fun x => SePush s (f x)) xs).
Proof. apply Forall_map, Forall_true. intros x. cbn. rewrite bool_decide_eq_true_2 by done. by rewrite orb_true_r. Qed.

Lemma own_request s c id m : Forall (fun e => aside e || own s e) [SeRequest s c id m].
Proof. apply Forall_singleton. cbn. by rewrite bool_decide_eq_true_2. Qed.

Lemma local_open s hs id now y : local s y (socket_open s hs id now y).
Proof.
  unfold socket_open, attach_start. set (y1 := set_socket s _ y).
  assert (L1 : forall es, Forall aside es -> local s y (y1, es)) by (intros; apply local_set; by apply aside_local).
  destruct (hs_rejection hs) as [[]|]; try (by apply L1; repeat constructor).
  destruct (if_truthy (hs_userId hs)); [|by apply L1; repeat constructor].
  unfold y1 at 1. cbn [sy_sockets set_socket]. rewrite lookup_insert_eq.
  destruct (getForAttach _ _ _) as [[sess client]|]; [|by apply L1; repeat constructor].
  destruct (attachViewer _ _ _ _) as [r [[replaced first]|]]; (split; [intros j Hj; cbn; by rewrite !lookup_insert_ne|]); apply aside_local.
  - apply Forall_app. split; [|by repeat constructor]. destruct replaced; by repeat constructor.
  - by repeat constructor.
Qed.

Lemma local_detached s now y : local s y (attach_detached s now y).
Proof.
  unfold attach_detached. destruct (sy_sockets y !! s) as [k|]; [|by apply local_refl].
  destruct (sk_attach k); try by apply local_refl. destruct (sk_client k); [|by apply local_refl].
  pose proof (stillCurrent_aside s k (sy_registry y)) as Ha. destruct (stillCurrent s k (sy_registry y)) as [[] e]; cbn in Ha.
  - apply local_set. apply aside_local, Forall_app. split; [done|]. by repeat constructor.
  - destruct (detach_viewer _ _ _ _) as [[y' b] e2] eqn:E. apply local_after_detach in E as [E2 L]. by apply L, Forall_app.
Qed.

Lemma local_output s e now y : local s y (on_output s e now y).
Proof.
  unfold on_output. destruct (sy_sockets y !! s) as [k|]; [|by apply local_refl]. destruct (negb _ || _); [by apply local_refl|].
  destruct e as [d|n|exit].
  - destruct (sk_attach k); try (apply local_refl; apply handleOutput_own). by apply local_set.
  - destruct (sk_attach k); try (apply local_refl; apply handleOutput_own). by apply local_set.
  - destruct (sk_attach k); try (split; [done|]; apply aside_local, sendExit_aside). by apply (local_set s _ (set_registry _ y)).
Qed.

Lemma local_attached s answer now y : local s y (attach_answered s answer now y).
Proof.
  unfold attach_answered. destruct (sy_sockets y !! s) as [k|]; [|by apply local_refl].
  destruct (sk_attach k) as [| |first queued replayExit| |]; try by apply local_refl. destruct (sk_client k) as [client|]; [|by apply local_refl].
  destruct answer as [result|].
  - pose proof (stillCurrent_aside s k (sy_registry y)) as Ha. destruct (stillCurrent s k (sy_registry y)) as [[] e]; cbn in Ha.
    + destruct (if ar_exited result then _ else _) as [x r]. destruct (if negb first then _ else _) as [k' r'].
      assert (Hp : Forall (fun e => aside e || own s e) (map (fun c => SePush s (SData c)) (scrollback_chunks (ar_scrollback result)) ++
        concat (map (handleOutput s k') queued))).
      { apply Forall_app. split; [apply own_pushes|]. apply Forall_concat, Forall_map, Forall_true. intros. apply handleOutput_own. }
      destruct x as [exit|]; apply local_set_registry; [|done]. rewrite app_assoc. apply Forall_app. split; [done|].
      apply aside_local, sendExit_aside.
    + destruct (detach_viewer _ _ _ _) as [[y' b] e2] eqn:E. apply local_after_detach in E as [E2 L]. apply L, Forall_app.
      split; [done|]. apply Forall_app. split; [done|]. destruct b; by repeat constructor.
  - destruct (detach_viewer _ _ _ _) as [[y' b] e2] eqn:E. apply local_after_detach in E as [E2 L]. apply L, Forall_app.
    split; [done|]. by repeat constructor.
Qed.

Lemma local_message s m y : local s y (socket_message s m y).
Proof.
  unfold socket_message. destruct (sy_sockets y !! s) as [k|]; [|by apply local_refl]. destruct (sk_closed k); [by apply local_refl|].
  destruct m; [|apply local_refl; by repeat constructor]. destruct (_ <=? _); [apply local_refl; by repeat constructor|]. by apply local_set.
Qed.

Lemma local_start s y : local s y (message_start s y).
Proof.
  unfold message_start. destruct (sy_sockets y !! s) as [k|]; [|by apply local_refl]. destruct (sk_running k); [by apply local_refl|].
  destruct (sk_chain k) as [|b rest]; [by apply local_refl|]. destruct (sk_client k) as [client|]; [|by apply local_set].
  destruct (sk_closed k); [by apply local_set|]. destruct (decodeTerminalClientMessage b) as [[d|c w|n|]|]; cbv zeta.
  - apply local_set, own_request.
  - apply local_set, own_request.
  - destruct (match sk_loginReplayRemaining k with Some _ => _ | None => _ end) as [k' r]. apply local_set_registry, own_request.
  - apply local_set. destruct (sk_relay k); by repeat constructor.
  - apply local_set. by repeat constructor.
Qed.

Lemma local_done s ok now y : local s y (message_done s ok now y, []).
Proof.
  unfold message_done. destruct (sy_sockets y !! s) as [k|]; [|by apply local_refl]. destruct (sk_running k); [|by apply local_refl].
  cbv zeta. by apply local_set_registry.
Qed.

Lemma local_closed s now y : local s y (socket_closed s now y).
Proof.
  unfold socket_closed. destruct (sy_sockets y !! s) as [k|]; [|by apply local_refl]. cbv zeta.
  set (y1 := set_socket s _ y).
  assert (Hd : forall b, Forall aside match sk_client k with
     | Some client => if b && truthy (Some (sk_sessionId k)) then [SeDetach s client (sk_sessionId k)] else [] | None => [] end).
  { intros b. destruct (sk_client k); [|constructor]. destruct (b && _); by repeat constructor. }
  destruct (sk_viewer k).
  - destruct (detach_viewer _ _ _ _) as [[y' b] e2] eqn:E. apply local_after_detach in E as [E2 L]. by apply L, Forall_app.
  - split; [intros j Hj; by apply set_socket_other|]. apply aside_local, (Hd false).
Qed.

Lemma step_local o s y : op_socket o = Some s -> local s y (socket_step randomId o y).
Proof.
  intros Ho. destruct o as [v hs sid now|v now|v e now|v answer now|v m|v|v ok now|v|v now|o]; cbn in Ho; simplify_eq; cbn [socket_step].
  - destruct (sy_sockets y !! s); [by apply local_refl|apply local_open].
  - apply local_detached.
  - apply local_output.
  - apply local_attached.
  - apply local_message.
  - apply local_start.
  - apply local_done.
  - apply local_refl. repeat case_match; by repeat constructor.
  - apply local_closed.
Qed.

(** ** What a socket has asked so far *)

Definition running_count (k : TerminalSocketState) : Z := match sk_running k with Some _ => 1 | None => 0 end.

Record socket_history (k : TerminalSocketState) (acc : list bytes) (rq : list TerminalClientMessage) : Prop := {
  sh_requests : exists ran, acc = ran ++ sk_chain k /\ rq `sublist_of` omap request_of ran;
  sh_pending : sk_pendingMessageCount k = zlen (sk_chain k) + running_count k;
  sh_bounded : sk_pendingMessageCount k <= TERMINAL_SOCKET_MAX_PENDING_MESSAGES;
}.

Definition history (s : nat) (y : terminal_system) (acc : list bytes) (rq : list TerminalClientMessage) : Prop :=
  match sy_sockets y !! s with
  | None => acc = [] /\ rq = []
  | Some k => socket_history k acc rq
  end.

(** The parts of a socket a step may leave as they are. *)
Record same_messages (k k' : TerminalSocketState) : Prop := {
  sm_chain : sk_chain k' = sk_chain k;
  sm_running : sk_running k' = sk_running k;
  sm_pending : sk_pendingMessageCount k' = sk_pendingMessageCount k;
}.

Lemma history_same k k' acc rq : same_messages k k' -> socket_history k acc rq -> socket_history k' acc rq.
Proof. intros [E1 E2 E3] []. constructor; unfold running_count in *; rewrite ?E1, ?E2, ?E3; done. Qed.

Lemma shown_pushes s cs : shown s (map (fun c => SePush s (SData c)) cs) = map SData cs.
Proof. induction cs as [|c cs IH]; [done|]. unfold shown in *. cbn. by rewrite decide_True, IH. Qed.

Lemma shown_output s k e : sk_closed k = false -> shown s (handleOutput s k e) = message_of e.
Proof. intros Hc. unfold handleOutput. rewrite Hc. destruct e; cbn; by rewrite ?decide_True. Qed.

Lemma shown_outputs s k es : sk_closed k = false -> shown s (concat (map (handleOutput s k) es)) = concat (map message_of es).
Proof. intros Hc. induction es as [|e es IH]; [done|]. cbn [map concat]. rewrite shown_app, IH. by rewrite shown_output. Qed.

Lemma requests_output s k e : requests s (handleOutput s k e) = [].
Proof. unfold handleOutput. destruct (sk_closed k); [done|]. by destruct e. Qed.

Lemma requests_pushes {A} s (f : A -> TerminalServerMessage) xs : requests s (map (fun x => SePush s (f x)) xs) = [].
Proof. by induction xs. Qed.

Lemma requests_outputs s k es : requests s (concat (map (handleOutput s k) es)) = [].
Proof. induction es as [|e es IH]; [done|]. cbn [map concat]. by rewrite requests_app, IH, requests_output. Qed.

(** ** One step of the socket itself *)

Definition step_history (s : nat) (y : terminal_system) (p : terminal_system * list socket_effect) (ac : list bytes) : Prop :=
  forall acc rq, history s y acc rq -> history s p.1 (acc ++ ac) (rq ++ requests s p.2).

(** The history of a socket that was there. *)
Lemma step_history_some s k y p ac : sy_sockets y !! s = Some k ->
  (forall acc rq, socket_history k acc rq -> history s p.1 (acc ++ ac) (rq ++ requests s p.2)) -> step_history s y p ac.
Proof. intros Hk Hh acc rq Hi. unfold history in Hi. rewrite Hk in Hi. by apply Hh. Qed.

(** Nothing asked or accepted. *)
Lemma step_history_same s y k k' p : sy_sockets y !! s = Some k -> sy_sockets p.1 !! s = Some k' -> same_messages k k' ->
  requests s p.2 = [] -> step_history s y p [].
Proof.
  intros Hk Hk' Hm Hr. apply (step_history_some _ k); [done|]. intros acc rq Hi. rewrite Hr, !app_nil_r. unfold history. rewrite Hk'.
  by apply (history_same k).
Qed.

Lemma step_history_refl s y es : requests s es = [] -> step_history s y (y, es) [].
Proof. intros Hr acc rq Hi. cbn [fst snd]. by rewrite Hr, !app_nil_r. Qed.

Lemma history_open s hs id now y : sy_sockets y !! s = None -> step_history s y (socket_open s hs id now y) [].
Proof.
  intros Hn acc rq Hi. unfold history in Hi. rewrite Hn in Hi. destruct Hi as [-> ->].
  assert (H0 : forall k, same_messages (new_socket id) k -> socket_history k [] []).
  { intros k Hm. apply (history_same (new_socket id)); [done|]. constructor; try done. by exists []. }
  unfold socket_open, attach_start. cbn [sy_sockets set_socket]. rewrite lookup_insert_eq.
  destruct (hs_rejection hs) as [[]|]; try (unfold history; cbn; rewrite lookup_insert_eq; by apply H0).
  destruct (if_truthy (hs_userId hs)); [|unfold history; cbn; rewrite lookup_insert_eq; by apply H0].
  destruct (getForAttach _ _ _) as [[]|]; [|unfold history; cbn; rewrite lookup_insert_eq; by apply H0].
  destruct (attachViewer _ _ _ _) as [r [[[v|] first]|]]; unfold history, viewer_close; cbn; rewrite lookup_insert_eq;
    try (destruct (REPLACED =? REPLACED)); by apply H0.
Qed.

(** A step that lets the viewer go. *)
Lemma detach_history s id now k k0 y y' b e es : sy_sockets y !! s = Some k0 -> detach_viewer s id now (set_socket s k y) = (y', b, e) ->
  Forall aside es -> same_messages k0 k -> step_history s y (y', es) [].
Proof.
  intros Hk E Hes Hm. apply (step_history_same _ _ k0 k); [done| |done|by apply aside_requests].
  destruct (detach_viewer_spec s id now (set_socket s k y)) as (E1 & _). rewrite E in E1. cbn in E1. cbn. by rewrite E1, lookup_insert_eq.
Qed.

Lemma history_detached s now y : step_history s y (attach_detached s now y) [].
Proof.
  unfold attach_detached. destruct (sy_sockets y !! s) as [k|] eqn:Hk; [|by apply step_history_refl].
  destruct (sk_attach k) as [|first| | |] eqn:Ha; try by apply step_history_refl. destruct (sk_client k); [|by apply step_history_refl].
  pose proof (stillCurrent_aside s k (sy_registry y)) as Hs. destruct (stillCurrent s k (sy_registry y)) as [[] e]; cbn in Hs.
  - eapply (step_history_same _ _ k); [done|cbn; apply lookup_insert_eq|done|].
    apply aside_requests, Forall_app. split; [done|by repeat constructor].
  - destruct (detach_viewer _ _ _ _) as [[y' b] e2] eqn:E. destruct (local_after_detach _ _ _ _ _ _ _ _ E) as [E2 _].
    eapply detach_history; [done..|by apply Forall_app|done].
Qed.

Lemma history_output s e now y : step_history s y (on_output s e now y) [].
Proof.
  unfold on_output. destruct (sy_sockets y !! s) as [k|] eqn:Hk; [|by apply step_history_refl].
  destruct (negb _ || _); [by apply step_history_refl|].
  destruct e, (sk_attach k) as [|first|first queued x| |];
    try (by apply step_history_refl, requests_output);
    try (eapply (step_history_same _ _ k); [done|cbn; try apply lookup_insert_eq; exact Hk|done|done]).
Qed.

Lemma history_attached s answer now y : step_history s y (attach_answered s answer now y) [].
Proof.
  unfold attach_answered. destruct (sy_sockets y !! s) as [k|] eqn:Hk; [|by apply step_history_refl].
  destruct (sk_attach k) as [| |first queued replayExit| |] eqn:Ha; try by apply step_history_refl.
  destruct (sk_client k) as [client|]; [|by apply step_history_refl].
  destruct answer as [result|].
  - pose proof (stillCurrent_aside s k (sy_registry y)) as Hs. destruct (stillCurrent s k (sy_registry y)) as [[] e] eqn:Hcur; cbn in Hs.
    + destruct (if ar_exited result then _ else _) as [x r].
      destruct (if negb first then _ else _) as [k' r'] eqn:Hk'.
      assert (Hm : same_messages k k').
      { destruct first; cbn in Hk'; [destruct (0 <? zlen _)|]; simplify_eq; by split. }
      destruct Hm as [M1 M2 M3].
      destruct x as [exit|]; (eapply (step_history_same _ _ k); [done|cbn; apply lookup_insert_eq|by split|]);
        cbn [snd]; rewrite !requests_app, requests_pushes, requests_outputs; done.
    + destruct (detach_viewer _ _ _ _) as [[y' b] e2] eqn:E. destruct (local_after_detach _ _ _ _ _ _ _ _ E) as [E2 _].
      eapply detach_history; [done..| |done]. apply Forall_app. split; [done|]. apply Forall_app. split; [done|]. destruct b; by repeat constructor.
  - destruct (detach_viewer _ _ _ _) as [[y' b] e2] eqn:E. destruct (local_after_detach _ _ _ _ _ _ _ _ E) as [E2 _].
    eapply detach_history; [done..| |done]. apply Forall_app. split; [done|]. by repeat constructor.
Qed.

Lemma history_message s m y : step_history s y (socket_message s m y) (accepted_now s (KMessage s m) y).
Proof.
  unfold socket_message, accepted_now. destruct (sy_sockets y !! s) as [k|] eqn:Hk; [|destruct m; by apply step_history_refl].
  destruct m as [b|]; [|destruct (sk_closed k); by apply step_history_refl].
  rewrite bool_decide_eq_true_2 by done. cbn [andb]. destruct (sk_closed k); [by apply step_history_refl|]. cbn [negb andb].
  destruct (Z.leb_spec TERMINAL_SOCKET_MAX_PENDING_MESSAGES (sk_pendingMessageCount k)) as [Hle|Hlt].
  - destruct (Z.ltb_spec (sk_pendingMessageCount k) TERMINAL_SOCKET_MAX_PENDING_MESSAGES) as [|_]; [lia|]. apply step_history_refl. by repeat constructor.
  - destruct (Z.ltb_spec (sk_pendingMessageCount k) TERMINAL_SOCKET_MAX_PENDING_MESSAGES) as [_|]; [|lia].
    apply (step_history_some _ k); [done|]. intros acc rq Hi. cbn [fst snd]. unfold history. cbn. rewrite lookup_insert_eq, !app_nil_r.
    constructor; cbn.
    + destruct Hi as [(ran & -> & Hr) _ _]. exists ran. by rewrite app_assoc.
    + destruct Hi as [_ Hp _]. unfold running_count in *. cbn. unfold zlen in *. rewrite length_app. cbn. lia.
    + lia.
Qed.

(** The head of the chain ran: it asked for [q], if anything. *)
Lemma history_ran s k k' r y b rest es : sy_sockets y !! s = Some k -> sk_running k = None -> sk_chain k = b :: rest ->
  sk_chain k' = rest -> sk_pendingMessageCount k' = sk_pendingMessageCount k - 1 + running_count k' ->
  requests s es `sublist_of` option_list (request_of b) ->
  step_history s y (set_registry r (set_socket s k' y), es) [].
Proof.
  intros Hk Hrun Hch Hch' Hp' Hrq. apply (step_history_some _ k); [done|]. intros acc rq Hi. cbn [fst snd].
  rewrite !app_nil_r. unfold history. cbn. rewrite lookup_insert_eq. destruct Hi as [(ran & -> & Hr) Hp Hb].
  unfold running_count in Hp at 1. rewrite Hrun, Hch in *. constructor.
  - exists (ran ++ [b]). rewrite <- app_assoc, Hch'. split; [done|]. rewrite omap_app. apply sublist_app; [done|]. cbn.
    destruct (request_of b); cbn in *; done.
  - rewrite Hp', Hch'. unfold zlen in *. cbn in *. lia.
  - rewrite Hp'. unfold running_count; destruct (sk_running k'); lia.
Qed.

Lemma set_registry_id y : set_registry (sy_registry y) y = y.
Proof. by destruct y. Qed.

Lemma history_start s y : step_history s y (message_start s y) [].
Proof.
  unfold message_start. destruct (sy_sockets y !! s) as [k|] eqn:Hk; [|by apply step_history_refl].
  destruct (sk_running k) eqn:Hrun; [by apply step_history_refl|]. destruct (sk_chain k) as [|b rest] eqn:Hch; [by apply step_history_refl|].
  cbv zeta.
  assert (Hover : forall es, Forall aside es -> step_history s y (set_socket s (sk_messages rest None (sk_pendingMessageCount k - 1) k) y, es) []).
  { intros es Hes. refine (history_ran s k _ (sy_registry y) y b rest es Hk Hrun Hch _ _ _); try done; cbn; [lia|].
    rewrite aside_requests by done. apply sublist_nil_l. }
  destruct (sk_client k) as [client|]; [|by apply Hover]. destruct (sk_closed k); [by apply Hover|].
  assert (Hask : forall m k1 r, request_of b = Some m ->
    sk_pendingMessageCount k1 = sk_pendingMessageCount k ->
    step_history s y (set_registry r (set_socket s (sk_messages rest (Some m) (sk_pendingMessageCount k1) k1) y),
      [SeRequest s client (sk_sessionId k) m]) []).
  { intros m k1 r Hm E3. apply (history_ran s k _ r y b rest); try done; cbn; [rewrite E3; lia|]. rewrite decide_True, Hm by done. done. }
  destruct (decodeTerminalClientMessage b) as [[d|c w|n|]|] eqn:Hdec;
    try (assert (Hm : request_of b = Some _) by (unfold request_of; by rewrite Hdec)).
  - rewrite <- (set_registry_id (set_socket s _ y)). by apply Hask.
  - rewrite <- (set_registry_id (set_socket s _ y)). by apply Hask.
  - destruct (match sk_loginReplayRemaining k with Some _ => _ | None => _ end) as [k' r] eqn:Hk'. apply Hask; [done|..];
      (destruct (sk_loginReplayRemaining k) as [n0|]; [destruct (negb (sk_viewer k)); [|destruct (_ <=? 0)]|]; simplify_eq; done).
  - apply Hover. destruct (sk_relay k); by repeat constructor.
  - apply Hover. by repeat constructor.
Qed.

Lemma history_done s ok now y : step_history s y (message_done s ok now y, []) [].
Proof.
  unfold message_done. destruct (sy_sockets y !! s) as [k|] eqn:Hk; [|by apply step_history_refl].
  destruct (sk_running k) eqn:Hrun; [|by apply step_history_refl]. cbv zeta. apply (step_history_some _ k); [done|].
  intros acc rq Hi. cbn [fst snd]. unfold history. cbn. rewrite lookup_insert_eq, !app_nil_r.
  destruct Hi as [Hr Hp Hb]. unfold running_count in Hp. rewrite Hrun in Hp.
  constructor; cbn; [done|unfold running_count; cbn; lia|lia].
Qed.

Lemma history_closed s now y : step_history s y (socket_closed s now y) [].
Proof.
  unfold socket_closed. destruct (sy_sockets y !! s) as [k|] eqn:Hk; [|by apply step_history_refl]. cbv zeta.
  assert (Hd : forall b, Forall aside match sk_client k with
     | Some client => if b && truthy (Some (sk_sessionId k)) then [SeDetach s client (sk_sessionId k)] else [] | None => [] end).
  { intros b. destruct (sk_client k); [|constructor]. destruct (b && _); by repeat constructor. }
  destruct (sk_viewer k).
  - destruct (detach_viewer _ _ _ _) as [[y' b] e2] eqn:E. destruct (local_after_detach _ _ _ _ _ _ _ _ E) as [E2 _].
    eapply detach_history; [done..| |done]. by apply Forall_app.
  - eapply (step_history_same _ _ k); [done|cbn; apply lookup_insert_eq|done|apply aside_requests, (Hd false)].
Qed.

(** ** Any step *)

(** What another socket or the hub does leaves a socket alone. *)
Lemma step_elsewhere o s y : reg_inv randomId (sy_registry y) -> op_socket o <> Some s ->
  sy_sockets (socket_step randomId o y).1 !! s = sy_sockets y !! s /\ shown s (socket_step randomId o y).2 = [] /\
  requests s (socket_step randomId o y).2 = [].
Proof.
  intros I Ho. destruct (op_socket o) as [v|] eqn:Ev.
  - pose proof (step_local o v y Ev) as L. assert (s <> v) by congruence. destruct (local_shown s v _ _ L) as [-> ->]; [done|].
    split; [|done]. by apply L.
  - destruct o as [| | | | | | | | |o]; try done. cbn [socket_step]. pose proof (step_plain randomId (fun _ => True) o (sy_registry y)) as Hp.
    destruct (terminal_step randomId o (sy_registry y)) as [r e]. cbn in Hp. cbn [fst snd].
    assert (Ha : Forall aside (concat (map to_viewers e))) by (apply plain_aside, Hp; [by destruct o|done]).
    by rewrite aside_shown, aside_requests.
Qed.

Lemma step_history_any o s y : reg_inv randomId (sy_registry y) ->
  step_history s y (socket_step randomId o y) (accepted_now s o y).
Proof.
  intros I. destruct (decide (op_socket o = Some s)) as [Ho|Ho].
  - destruct o as [v hs sid now|v now|v e now|v answer now|v m|v|v ok now|v|v now|o]; cbn in Ho; simplify_eq.
    + cbn. destruct (sy_sockets y !! s) eqn:E; [by apply step_history_refl|by apply history_open].
    + apply history_detached.
    + apply history_output.
    + apply history_attached.
    + apply history_message.
    + apply history_start.
    + apply history_done.
    + apply step_history_refl. by repeat case_match.
    + apply history_closed.
  - intros acc rq Hi.
    assert (Hn : accepted_now s o y = []).
    { unfold accepted_now. destruct o as [v hs sid now|v now|v e now|v answer now|v m|v|v ok now|v|v now|o]; cbn in *;
        try done; destruct (sy_sockets y !! s); try done; rewrite ?bool_decide_eq_false_2 by congruence; cbn; try done;
        destruct m; try done; cbn; rewrite ?bool_decide_eq_false_2 by congruence; done. }
    rewrite Hn.
    destruct (step_elsewhere o s y I Ho) as (E1 & _ & ->). rewrite !app_nil_r. unfold history in *. by rewrite E1.
Qed.

(** ** The registry under the sockets *)

Lemma tame_registry o y : op_socket o <> None -> tame [] (sy_registry y) (sy_registry (socket_step randomId o y).1).
Proof.
  intros Ho. destruct o as [s hs sid now|s now|s e now|s answer now|s m|s|s ok now|s|s now|o]; cbn in Ho; [..|done]; cbn [socket_step].
  - destruct (sy_sockets y !! s); [apply tame_refl|]. unfold socket_open, attach_start. repeat (case_match; try apply tame_refl);
      match goal with H : attachViewer ?i ?v ?n ?r = _ |- _ => pose proof (tame_attachViewer [] i v n r) as T; rewrite H in T; exact T end.
  - unfold attach_detached. destruct (sy_sockets y !! s) as [k|]; [|apply tame_refl].
    destruct (sk_attach k), (sk_client k); try apply tame_refl. destruct (stillCurrent s k (sy_registry y)) as [[] e]; [apply tame_refl|].
    destruct (detach_viewer_spec s (sk_sessionId k) now (set_socket s (sk_stage attach_over k) y)) as (_ & _ & E & _).
    destruct (detach_viewer _ _ _ _) as [[y' b] e2]. cbn [fst snd] in *. rewrite E. apply tame_detachViewer.
  - unfold on_output. destruct (sy_sockets y !! s) as [k|]; [|apply tame_refl]. destruct (negb _ || _); [apply tame_refl|].
    destruct e; destruct (sk_attach k); try apply tame_refl; apply tame_recordExit.
  - unfold attach_answered. destruct (sy_sockets y !! s) as [k|]; [|apply tame_refl].
    destruct (sk_attach k) as [| |first queued x| |], (sk_client k) as [client|]; try apply tame_refl.
    assert (Hd : tame [] (sy_registry y) (sy_registry (detach_viewer s (sk_sessionId k) now (set_socket s (sk_stage attach_over (socket_teardown k)) y)).1.1)).
    { destruct (detach_viewer_spec s (sk_sessionId k) now (set_socket s (sk_stage attach_over (socket_teardown k)) y)) as (_ & _ & -> & _).
      apply tame_detachViewer. }
    destruct answer as [result|]; [|by destruct (detach_viewer _ _ _ _) as [[y' b] e2]].
    destruct (stillCurrent s k (sy_registry y)) as [[] e]; [|by destruct (detach_viewer _ _ _ _) as [[y' b] e2]].
    destruct (if ar_exited result then _ else _) as [x' r] eqn:Hr. destruct (if negb first then _ else _) as [k' r'] eqn:Hr'.
    assert (T1 : tame [] (sy_registry y) r) by (destruct (ar_exited result); simplify_eq; [apply tame_recordExit|apply tame_refl]).
    assert (T2 : tame [] r r').
    { destruct first; cbn in Hr'; [destruct (0 <? zlen _)|]; simplify_eq; try apply tame_refl. apply tame_completeLogin. }
    destruct x'; cbn; by eapply tame_trans.
  - unfold socket_message. repeat case_match; apply tame_refl.
  - unfold message_start. destruct (sy_sockets y !! s) as [k|]; [|apply tame_refl]. destruct (sk_running k); [apply tame_refl|].
    destruct (sk_chain k) as [|b rest]; [apply tame_refl|]. destruct (sk_client k); [|apply tame_refl]. destruct (sk_closed k); [apply tame_refl|].
    destruct (decodeTerminalClientMessage b) as [[d|c w|n1|]|]; try apply tame_refl. cbv zeta.
    destruct (match sk_loginReplayRemaining k with Some _ => _ | None => _ end) as [k' r] eqn:Hr. cbn.
    destruct (sk_loginReplayRemaining k) as [n0|]; [destruct (negb (sk_viewer k)); [|destruct (_ <=? 0)]|]; simplify_eq; try apply tame_refl.
    apply tame_completeLogin.
  - unfold message_done. destruct (sy_sockets y !! s) as [k|]; [|apply tame_refl]. destruct (sk_running k) as [m|]; [|apply tame_refl].
    cbn. destruct ok; [|apply tame_refl]. cbn. destruct m; try apply tame_refl; apply tame_on_session; intros; [apply et_touched|apply et_resized].
  - apply tame_refl.
  - unfold socket_closed. destruct (sy_sockets y !! s) as [k|]; [|apply tame_refl]. cbv zeta. destruct (sk_viewer k); [|apply tame_refl].
    destruct (detach_viewer_spec s (sk_sessionId k) now (set_socket s (socket_teardown (sk_shut k)) y)) as (_ & _ & E & _).
    destruct (detach_viewer _ _ _ _) as [[y' b] e2]. cbn [fst snd] in *. rewrite E. apply tame_detachViewer.
Qed.

Lemma step_registry_inv o y : reg_inv randomId (sy_registry y) -> reg_inv randomId (sy_registry (socket_step randomId o y).1).
Proof.
  intros I. destruct (op_socket o) as [s|] eqn:Ho; [eapply tame_inv; [apply tame_registry; congruence|done]|].
  destruct o as [| | | | | | | | |o]; try done. cbn [socket_step].
  pose proof (step_by_moves randomId (fun _ => True) o (sy_registry y)) as M. destruct (terminal_step randomId o (sy_registry y)) as [r e].
  eapply (moves_inv randomId (fun _ => True)); [apply M; [by destruct o|done]|done].
Qed.

Lemma run_history os s y acc rq : reg_inv randomId (sy_registry y) -> history s y acc rq ->
  history s (socket_run randomId os y).1 (acc ++ accepted s os y) (rq ++ requests s (socket_run randomId os y).2).
Proof.
  revert y acc rq. induction os as [|o os IH]; intros y acc rq I Hi.
  - cbn [socket_run fst snd accepted]. unfold requests. cbn. by rewrite !app_nil_r.
  - pose proof (step_history_any o s y I acc rq Hi) as H1. pose proof (step_registry_inv o y I) as I1.
    cbn [socket_run accepted].
    destruct (socket_step randomId o y) as [y1 e1]. cbn [fst snd] in *. specialize (IH y1 _ _ I1 H1).
    destruct (socket_run randomId os y1) as [y2 e2]. cbn [fst snd] in *. by rewrite requests_app, !app_assoc.
Qed.

End Facts.
