(* ===== verification/TerminalViewer.v ===== *)
(** * The terminal socket: viewers

    Who a terminal's stream belongs to, and the theorems on the sockets. *)

From S2P Require Import Prelude Json Wire Frames TerminalWire TerminalRelay TerminalSessions TerminalSessionsFacts TerminalSessionsMoves.
From S2P Require Import TerminalSocket TerminalSocketFacts.

(** ** What leaves the viewers alone *)

Definition same_views (r r' : registry) : Prop :=
  forall k e, rg_entries r !! k = Some e ->
    exists e', rg_entries r' !! k = Some e' /\ en_viewer e' = en_viewer e /\ en_loginAttach e' = en_loginAttach e.

Lemma same_views_entries r r' : rg_entries r' = rg_entries r -> same_views r r'.
Proof. intros He k e H. rewrite He. eauto. Qed.

Lemma same_views_trans r r1 r2 : same_views r r1 -> same_views r1 r2 -> same_views r r2.
Proof. intros H1 H2 k e H. destruct (H1 k e H) as (e1 & E1 & ? & ?). destruct (H2 k e1 E1) as (e2 & E2 & ? & ?). exists e2. split; [done|]. split; congruence. Qed.

Lemma same_views_update k f r : (forall e, rg_entries r !! k = Some e -> en_viewer (f e) = en_viewer e /\ en_loginAttach (f e) = en_loginAttach e) -> same_views r (update_entry k f r).
Proof.
  intros Hf j e Hj. cbn. destruct (decide (k = j)) as [->|]; [|exists e; by rewrite lookup_alter_ne by done].
  exists (f e). rewrite lookup_alter_eq, Hj. split; [done|]. by apply Hf.
Qed.

Lemma same_views_for_each {A} (f : A -> registry -> registry * list terminal_effect) xs r :
  (forall x r', same_views r' (f x r').1) -> same_views r (for_each f xs r).1.
Proof.
  intros Hf. revert r. induction xs as [|x xs IH]; intros r; cbn; [by apply same_views_entries|].
  specialize (Hf x r). destruct (f x r) as [r1 e1]. specialize (IH r1). destruct (for_each f xs r1) as [r2 e2]. by eapply same_views_trans.
Qed.

Lemma same_views_fold {A} (f : A -> registry -> registry) xs r :
  (forall x r', same_views r' (f x r')) -> same_views r (fold_left (fun r x => f x r) xs r).
Proof.
  intros Hf. revert r. induction xs as [|x xs IH]; intros r; cbn; [by apply same_views_entries|].
  eapply same_views_trans; [apply Hf|apply IH].
Qed.

Lemma same_views_markExited k exit now r : same_views r (update_entry k (markExited exit now) r).
Proof. by apply same_views_update. Qed.

Lemma closeTracked_entries id k reason r : rg_entries (closeTrackedSession id k reason r).1 = rg_entries r.
Proof. unfold closeTrackedSession. by repeat case_match. Qed.

Lemma onAbort_entries k r : rg_entries (onAbort k r) = rg_entries r.
Proof. unfold onAbort. by repeat case_match. Qed.

Lemma open_reserve_entries k r : rg_entries (open_reserve k r).1 = rg_entries r.
Proof.
  unfold open_reserve. destruct (rg_opens r !! k) as [c|]; [|done]. do 2 (case_match; [done|]). cbv zeta.
  destruct (oc_aborted c); [|done]. cbn. by rewrite onAbort_entries.
Qed.

Lemma same_views_register randomId k c shell cwd status now r : rg_entries r !! k = None ->
  same_views r (registerSession randomId k c shell cwd status now r).
Proof.
  intros Hn j e Hj. cbn. rewrite lookup_insert_ne by congruence. eauto.
Qed.

Lemma fold_entries {A} (f : A -> registry -> registry) xs r : (forall x r, rg_entries (f x r) = rg_entries r) ->
  rg_entries (fold_left (fun r x => f x r) xs r) = rg_entries r.
Proof. intros Hf. revert r. induction xs as [|x xs IH]; intros r; cbn; [done|]. by rewrite IH, Hf. Qed.

(** The operations that only the sockets call. *)
Definition viewer_op (o : terminal_op) : bool :=
  match o with IAttach _ _ _ | ICompleteLogin _ _ | IDetach _ _ _ => true | _ => false end.

Lemma step_same_views randomId o r : viewer_op o = false -> reg_inv randomId r -> same_views r (terminal_step randomId o r).1.
Proof.
  intros Ho I. destruct o; try done; cbn [terminal_step]; try (apply same_views_entries; done).
  - apply same_views_entries. unfold open_start. cbv zeta. do 3 (case_match; [done|]). case_match; [done|]. by rewrite open_reserve_entries.
  - apply same_views_entries. unfold open_reconciled. repeat case_match; try done. by rewrite open_reserve_entries.
  - apply same_views_entries. unfold open_chat. by repeat case_match.
  - apply same_views_entries. unfold open_client, ensureCloseHandler. by repeat (case_match; simplify_eq/=).
  - apply same_views_entries. unfold open_toolchain. by repeat case_match.
  - unfold open_answered. destruct (waiting_at _ _ _) as [c|] eqn:E; [|by apply same_views_entries]. apply waiting_at_some in E as [Hc Hs].
    destruct answer as [[shell cwd]|]; [|by apply same_views_entries]. destruct (rv_canceled _); [by apply same_views_entries|].
    eapply same_views_trans; [apply same_views_register|by apply same_views_entries]. eapply iv_fresh; [done..|]. by destruct (oc_stage c).
  - unfold open_close_answered. destruct (rg_opens r !! call) as [c|] eqn:Hc; [|by apply same_views_entries].
    assert (Hret : is_done (oc_stage c) = false -> forall shell cwd, same_views r (retainUnclaimed randomId call c shell cwd now r)).
    { intros Hd shell cwd. unfold retainUnclaimed. pose proof (iv_fresh _ _ I call c Hc Hd).
      repeat case_match; try (by apply same_views_entries); by apply same_views_register. }
    destruct (oc_stage c) as [| | | | | |shell cwd|error|] eqn:Hs; try by apply same_views_entries.
    + specialize (Hret eq_refl shell cwd). pose proof (iv_late _ _ I call c Hc) as Hl. rewrite Hs in Hl.
      destruct (requireReservation c) eqn:Hr; [|apply requireReservation_none in Hr; by rewrite Hl in Hr].
      destruct ok; [by apply same_views_entries|]. eapply same_views_trans; [done|by apply same_views_entries].
    + destruct (ok || of_consentDenied error); [by apply same_views_entries|]. eapply same_views_trans; [by apply Hret|by apply same_views_entries].
  - apply same_views_entries. unfold open_aborted. destruct (rg_opens r !! call) as [c|]; [|done]. destruct (oc_stage c); try done; apply onAbort_entries.
  - unfold reconcile_listed. destruct (rg_reconciles r !! task) as [groups|]; [|by apply same_views_entries]. cbv zeta.
    eapply same_views_trans; [|by apply same_views_entries]. destruct answer; [|by apply same_views_entries].
    apply (same_views_fold (retire_one l now)). intros [id k] r'. unfold retire_one.
    repeat case_match; try (by apply same_views_entries); by apply same_views_update.
  - unfold handleRuntimeDisconnected. set (r1 := fold_left _ _ _).
    assert (H1 : same_views r r1).
    { apply same_views_entries. apply (fold_entries (cancel_for_client client)). intros k r'. unfold cancel_for_client. by repeat case_match. }
    assert (H2 : same_views r1 (for_each (disconnect_one client now) (rg_sessions r1) r1).1).
    { apply same_views_for_each. intros [id k] r'. unfold disconnect_one. destruct (rg_entries r' !! k); [|by apply same_views_entries].
      case_match; [by apply same_views_entries|]. cbn. eapply same_views_trans; [|by apply same_views_entries]. by apply same_views_update. }
    destruct (for_each _ _ _) as [r2 e2]. by eapply same_views_trans.
  - unfold revokeScope. eapply same_views_trans.
    + apply same_views_entries. apply (fold_entries (revoke_reservation user environmentId)). intros k r'. unfold revoke_reservation. by repeat case_match.
    + apply same_views_for_each. intros [id k] r'. unfold revoke_entry. destruct (rg_entries r' !! k) as [e|] eqn:E; [|by apply same_views_entries].
      case_match; [by apply same_views_entries|]. set (r1 := update_entry _ _ _). pose proof (closeTracked_entries id k (cr_cleanup cu_revoked) r1) as Hc.
      destruct (closeTrackedSession _ _ _ r1) as [r2 e2]. apply (same_views_trans _ r1); [|by apply same_views_entries].
      apply same_views_update. intros e' He'. by simplify_eq.
  - unfold rename. destruct (find_entry id r) as [[k e]|]; [|by apply same_views_entries]. case_decide; [|by apply same_views_entries]. by apply same_views_update.
  - apply same_views_entries. unfold close_start. by repeat case_match.
  - apply same_views_entries. unfold user_closed. by repeat case_match.
  - unfold touchActivity, on_session. destruct (find_entry id r) as [[k e]|]; [|by apply same_views_entries]. by apply same_views_update.
  - unfold recordResize, on_session. destruct (find_entry id r) as [[k e]|]; [|by apply same_views_entries]. by apply same_views_update.
  - unfold recordExit. destruct (find_entry id r) as [[k e]|]; [|by apply same_views_entries]. by apply same_views_update.
  - apply same_views_for_each. intros [id k] r'. apply same_views_entries. unfold reap_one. repeat case_match; try done; apply closeTracked_entries.
  - unfold tracked_closed. destruct (rg_tracked r !! task) as [[[id k] reason]|]; [|by apply same_views_entries]. cbv zeta.
    repeat case_match; try (by apply same_views_entries); (apply (same_views_trans _ (update_entry k (markExited no_status now) r));
      [by apply same_views_update|by apply same_views_entries]).
  - apply same_views_entries. unfold closeAll. cbn. rewrite (fold_entries (fun k => cancelReservation k se_shutdown)); done.
Qed.

(** ** Reading the viewer *)

Lemma find_entry_some id r k e : find_entry id r = Some (k, e) <-> sess_get id (rg_sessions r) = Some k /\ rg_entries r !! k = Some e.
Proof.
  unfold find_entry. destruct (sess_get id (rg_sessions r)) as [j|]; cbn; [|naive_solver].
  destruct (rg_entries r !! j) as [ej|] eqn:E; cbn; [|split; [done|intros [? ?]; congruence]].
  split; [intros; by simplify_eq|]. intros [? ?]. congruence.
Qed.

Lemma detach_was_viewer id s now r : (detachViewer id s now r).1.2 = true -> isCurrentViewer id s r = true.
Proof.
  unfold detachViewer, isCurrentViewer. destruct (find_entry id r) as [[k e]|]; [|done].
  destruct (bool_decide (en_viewer e = Some s)); [done|]. done.
Qed.

Lemma attach_is_viewer id s now r r' claim : attachViewer id s now r = (r', Some claim) -> isCurrentViewer id s r' = true.
Proof.
  unfold attachViewer. destruct (find_entry id r) as [[k e]|] eqn:E; [|done]. apply find_entry_some in E as [E1 E2].
  assert (H : forall f, en_viewer (f e) = Some s -> isCurrentViewer id s (update_entry k f r) = true).
  { intros f Hf. unfold isCurrentViewer. assert (Hfe : find_entry id (update_entry k f r) = Some (k, f e)).
    { apply find_entry_some. cbn. by rewrite lookup_alter_eq, E2. }
    rewrite Hfe. by apply bool_decide_eq_true_2. }
  destruct (en_loginAttach e) as [[]|]; intros; simplify_eq; by apply H.
Qed.

Lemma viewer_unique id s s' r : isCurrentViewer id s r = true -> isCurrentViewer id s' r = true -> s = s'.
Proof.
  unfold isCurrentViewer. destruct (find_entry id r) as [[k e]|]; [|done]. rewrite !bool_decide_eq_true. congruence.
Qed.

Definition controls (s client : nat) (id : jstring) (es : list socket_effect) : Prop :=
  SeDetach s client id ∈ es \/ SeAttach s client id ∈ es.

Definition uncontrolling (e : socket_effect) : bool := match e with SeDetach _ _ _ | SeAttach _ _ _ => false | _ => true end.

Lemma controls_none s client id es : Forall uncontrolling es -> ~ controls s client id es.
Proof. intros Hf [Hin|Hin]; by pose proof (proj1 (Forall_forall _ _) Hf _ Hin). Qed.

Lemma controls_app s client id es1 es2 : controls s client id (es1 ++ es2) <-> controls s client id es1 \/ controls s client id es2.
Proof. unfold controls. rewrite !elem_of_app. tauto. Qed.

Lemma to_viewers_uncontrolling es : Forall uncontrolling (concat (map to_viewers es)).
Proof.
  apply Forall_concat, Forall_map, Forall_true. intros e. destruct e; try (by apply Forall_singleton); [by repeat constructor|].
  apply Forall_singleton. unfold viewer_close. by destruct (_ =? _).
Qed.

Lemma detach_viewer_controls s id now y y' b e : detach_viewer s id now y = (y', b, e) ->
  Forall uncontrolling e /\ (b = true -> isCurrentViewer id s (sy_registry y) = true).
Proof.
  unfold detach_viewer. pose proof (detach_was_viewer id s now (sy_registry y)) as Hw.
  destruct (detachViewer id s now (sy_registry y)) as [[r was] e']. intros; simplify_eq. split; [apply to_viewers_uncontrolling|done].
Qed.

Lemma stillCurrent_true s k r e : stillCurrent s k r = (true, e) -> isCurrentViewer (sk_sessionId k) s r = true /\ e = [].
Proof. unfold stillCurrent. destruct (sk_closed k); [done|]. destruct (isCurrentViewer _ _ _); intros; by simplify_eq. Qed.

Lemma stillCurrent_uncontrolling s k r : Forall uncontrolling (stillCurrent s k r).2.
Proof. unfold stillCurrent. repeat case_match; by repeat constructor. Qed.

Lemma handleOutput_uncontrolling s k e : Forall uncontrolling (handleOutput s k e).
Proof. unfold handleOutput. destruct (sk_closed k); [constructor|]. by destruct e; repeat constructor. Qed.

Section Viewers.
  Context `{TypeBox} (randomId : nat -> jstring).

Lemma start_uncontrolling s y : Forall uncontrolling (message_start s y).2.
Proof. unfold message_start. cbv zeta. repeat case_match; by repeat constructor. Qed.

Lemma output_uncontrolling s e now y : Forall uncontrolling (on_output s e now y).2.
Proof.
  unfold on_output. destruct (sy_sockets y !! s) as [k|]; [|constructor]. destruct (negb _ || _); [constructor|].
  destruct e; destruct (sk_attach k); try apply handleOutput_uncontrolling; by repeat constructor.
Qed.

(** Opening controls as the new viewer; every other step of a socket as the viewer it was. *)
Lemma open_controls s hs sid now y v client id : controls v client id (socket_open s hs sid now y).2 ->
  v = s /\ isCurrentViewer id s (sy_registry (socket_open s hs sid now y).1) = true.
Proof.
  unfold socket_open, attach_start. set (y1 := set_socket s _ y).
  destruct (hs_rejection hs) as [[]|]; try (intros Hc; exfalso; revert Hc; by apply controls_none; repeat constructor).
  destruct (if_truthy (hs_userId hs)); [|intros Hc; exfalso; revert Hc; by apply controls_none; repeat constructor].
  destruct (sy_sockets y1 !! s) as [k|] eqn:Hk; [|by intros [[]%elem_of_nil|[]%elem_of_nil]].
  destruct (getForAttach _ _ _) as [[sess cl]|]; [|intros Hc; exfalso; revert Hc; by apply controls_none; repeat constructor].
  destruct (attachViewer _ _ _ _) as [r [[replaced first]|]] eqn:Ha; [|intros Hc; exfalso; revert Hc; by apply controls_none; repeat constructor].
  apply attach_is_viewer in Ha. cbn [fst snd]. rewrite controls_app. intros [Hc|Hc].
  - exfalso. revert Hc. apply controls_none. destruct replaced; by repeat constructor.
  - destruct Hc as [Hc|Hc]; apply list_elem_of_singleton in Hc; simplify_eq. done.
Qed.

(** A socket's own steps after the first. *)
Definition viewed (s : nat) (r : registry) (es : list socket_effect) : Prop :=
  forall v client id, controls v client id es -> v = s /\ isCurrentViewer id s r = true.

Lemma viewed_none s r es : Forall uncontrolling es -> viewed s r es.
Proof. intros Hf v client id Hc. exfalso. revert Hc. by apply controls_none. Qed.

Lemma viewed_app s r es1 es2 : viewed s r es1 -> viewed s r es2 -> viewed s r (es1 ++ es2).
Proof. intros H1 H2 v client id [Hc|Hc]%controls_app; eauto. Qed.

Lemma viewed_one s client id r e : isCurrentViewer id s r = true -> e = SeDetach s client id \/ e = SeAttach s client id -> viewed s r [e].
Proof. intros Hv He v c i [Hc|Hc]; apply list_elem_of_singleton in Hc; destruct He; simplify_eq; done. Qed.

Lemma detached_viewed s now y : viewed s (sy_registry y) (attach_detached s now y).2.
Proof.
  unfold attach_detached. destruct (sy_sockets y !! s) as [k|]; [|by apply viewed_none].
  destruct (sk_attach k), (sk_client k); try by apply viewed_none.
  pose proof (stillCurrent_uncontrolling s k (sy_registry y)) as Hu. destruct (stillCurrent s k (sy_registry y)) as [[] e] eqn:Hs; cbn in Hu.
  - apply stillCurrent_true in Hs as [Hv ->]. eapply viewed_one; [done|by right].
  - destruct (detach_viewer _ _ _ _) as [[y' b] e2] eqn:E. apply detach_viewer_controls in E as [E _]. by apply viewed_none, Forall_app.
Qed.

Lemma attached_viewed s answer now y : viewed s (sy_registry y) (attach_answered s answer now y).2.
Proof.
  unfold attach_answered. destruct (sy_sockets y !! s) as [k|]; [|by apply viewed_none].
  destruct (sk_attach k) as [| |first queued x| |], (sk_client k) as [client|]; try by apply viewed_none.
  destruct answer as [result|].
  - pose proof (stillCurrent_uncontrolling s k (sy_registry y)) as Hu. destruct (stillCurrent s k (sy_registry y)) as [[] e] eqn:Hs; cbn in Hu.
    + destruct (if ar_exited result then _ else _) as [x' r]. destruct (if negb first then _ else _) as [k' r'].
      apply viewed_none. assert (Hp : Forall uncontrolling (map (fun c => SePush s (SData c)) (scrollback_chunks (ar_scrollback result)) ++
        concat (map (handleOutput s k') queued))).
      { apply Forall_app. split; [by apply Forall_map, Forall_true|]. apply Forall_concat, Forall_map, Forall_true. intros. apply handleOutput_uncontrolling. }
      destruct x'; cbn [snd]; [|done]. rewrite app_assoc. apply Forall_app. split; [done|]. by repeat constructor.
    + destruct (detach_viewer _ _ _ _) as [[y' b] e2] eqn:E. apply detach_viewer_controls in E as [E Hb]. cbn [snd].
      apply viewed_app; [by apply viewed_none|]. apply viewed_app; [by apply viewed_none|].
      destruct b; [|by apply viewed_none]. eapply viewed_one; [by apply Hb|by left].
  - destruct (detach_viewer _ _ _ _) as [[y' b] e2] eqn:E. apply detach_viewer_controls in E as [E _].
    apply viewed_none, Forall_app. split; [done|]. by repeat constructor.
Qed.

Lemma closed_viewed s now y : viewed s (sy_registry y) (socket_closed s now y).2.
Proof.
  unfold socket_closed. destruct (sy_sockets y !! s) as [k|]; [|by apply viewed_none]. cbv zeta.
  destruct (sk_viewer k); [|apply viewed_none; destruct (sk_client k); constructor].
  destruct (detach_viewer _ _ _ _) as [[y' b] e2] eqn:E. apply detach_viewer_controls in E as [E Hb]. cbn [snd].
  apply viewed_app; [by apply viewed_none|]. destruct (sk_client k) as [client|]; [|by apply viewed_none].
  destruct b; [|by apply viewed_none]. destruct (truthy _); [|by apply viewed_none]. eapply viewed_one; [by apply Hb|by left].
Qed.

(** Whoever attaches to or detaches a terminal's stream holds the terminal. *)
Lemma step_controls o y s client id : controls s client id (socket_step randomId o y).2 ->
  op_socket o = Some s /\ (isCurrentViewer id s (sy_registry y) = true \/ isCurrentViewer id s (sy_registry (socket_step randomId o y).1) = true).
Proof.
  assert (Hv : forall v es, viewed v (sy_registry y) es -> controls s client id es ->
    Some v = Some s /\ (isCurrentViewer id s (sy_registry y) = true \/ isCurrentViewer id s (sy_registry (socket_step randomId o y).1) = true)).
  { intros v es Hes Hc. destruct (Hes _ _ _ Hc) as [-> Hcur]. auto. }
  destruct o as [v hs sid now|v now|v e now|v answer now|v m|v|v ok now|v|v now|o]; cbn [op_socket socket_step] in *.
  - destruct (sy_sockets y !! v); [by intros [[]%elem_of_nil|[]%elem_of_nil]|]. intros Hc. apply open_controls in Hc as [-> Hc]. auto.
  - apply Hv, detached_viewed.
  - apply Hv, viewed_none, output_uncontrolling.
  - apply Hv, attached_viewed.
  - apply Hv, viewed_none. unfold socket_message. repeat case_match; by repeat constructor.
  - apply Hv, viewed_none, start_uncontrolling.
  - by intros [[]%elem_of_nil|[]%elem_of_nil].
  - apply Hv, viewed_none. repeat case_match; by repeat constructor.
  - apply Hv, closed_viewed.
  - destruct (terminal_step randomId o (sy_registry y)) as [r e]. intros Hc. exfalso. revert Hc. apply controls_none, to_viewers_uncontrolling.
Qed.

(** ** The first viewer of a login terminal *)

(** Terminal [k] is being attached to for the first time, by socket [s]. *)
Definition logging_in (k s : nat) (r : registry) : Prop :=
  exists e, rg_entries r !! k = Some e /\ en_loginAttach e = Some la_attaching /\ en_viewer e = Some s.

Lemma logging_in_views k s r r' : same_views r r' -> logging_in k s r -> logging_in k s r'.
Proof. intros Hs (e & He & H1 & H2). destruct (Hs k e He) as (e' & He' & E1 & E2). exists e'. split; [done|]. split; congruence. Qed.

Lemma logging_in_update j k s f r : (forall e, rg_entries r !! k = Some e -> j = k -> en_viewer e <> Some s \/ en_loginAttach e <> Some la_attaching) ->
  logging_in k s r -> logging_in k s (update_entry j f r).
Proof.
  intros Hn (e & He & H1 & H2). destruct (decide (j = k)) as [->|].
  - exfalso. destruct (Hn e He eq_refl); done.
  - exists e. cbn. by rewrite lookup_alter_ne by done.
Qed.

Lemma logging_in_attach k s id v now r : logging_in k s r -> logging_in k s (attachViewer id v now r).1.
Proof.
  intros Hl. unfold attachViewer. destruct (find_entry id r) as [[j e]|] eqn:E; [|done]. apply find_entry_some in E as [_ E].
  destruct (en_loginAttach e) as [[]|] eqn:Ela; try done; (apply logging_in_update; [|done]); intros e' He' ->; right; congruence.
Qed.

Lemma logging_in_detach k s id v now r : v <> s -> logging_in k s r -> logging_in k s (detachViewer id v now r).1.1.
Proof.
  intros Hv Hl. unfold detachViewer. destruct (find_entry id r) as [[j e]|] eqn:E; [|done]. apply find_entry_some in E as [_ E].
  case_match eqn:Hb; [done|]. apply negb_false_iff, bool_decide_eq_true in Hb.
  assert (Hu : forall f r1, (forall e', rg_entries r1 !! k = Some e' -> j = k -> en_viewer e' <> Some s) -> logging_in k s r1 -> logging_in k s (update_entry j f r1)).
  { intros f r1 H1 H2. apply logging_in_update; [|done]. intros; left; auto. }
  assert (Hj : j <> k) by (intros ->; destruct Hl as (e' & He' & _ & H2); congruence).
  assert (Hu' : forall f r1, logging_in k s r1 -> logging_in k s (update_entry j f r1)) by (intros; apply Hu; [done|done]).
  repeat case_match; cbn [fst snd]; auto 6.
  match goal with H : closeTrackedSession ?i ?q ?c ?r1 = (?r2, _) |- _ =>
    pose proof (closeTracked_entries i q c r1) as Hc; rewrite H in Hc; cbn in Hc; eapply logging_in_views; [by apply (same_views_entries r1)|] end.
  auto.
Qed.

Lemma logging_in_complete k s id v r : v <> s -> logging_in k s r -> logging_in k s (completeFirstLoginAttach id v r).
Proof.
  intros Hv Hl. unfold completeFirstLoginAttach. destruct (find_entry id r) as [[j e]|] eqn:E; [|done]. apply find_entry_some in E as [_ E].
  case_match eqn:Hb; [|done]. apply andb_true_iff in Hb as [Hb _]. apply bool_decide_eq_true in Hb.
  apply logging_in_update; [|done]. intros e' He' ->. left. congruence.
Qed.

Lemma recordExit_views id exit now r : same_views r (recordExit id exit now r).
Proof. unfold recordExit. destruct (find_entry id r) as [[k e]|]; [by apply same_views_update|by apply same_views_entries]. Qed.

Lemma on_session_views id f r : same_views r (on_session id f r).
Proof. unfold on_session. destruct (find_entry id r) as [[k e]|]; [by apply same_views_update|by apply same_views_entries]. Qed.

Lemma logging_in_detach_viewer k s v id now y y' b e : v <> s -> detach_viewer v id now y = (y', b, e) ->
  logging_in k s (sy_registry y) -> logging_in k s (sy_registry y').
Proof.
  intros Hv E Hl. destruct (detach_viewer_spec v id now y) as (_ & _ & E1 & _). rewrite E in E1. cbn in E1. rewrite E1. by apply logging_in_detach.
Qed.

(** Another socket's step. *)
Lemma logging_in_socket o v k s y : op_socket o = Some v -> v <> s -> logging_in k s (sy_registry y) ->
  logging_in k s (sy_registry (socket_step randomId o y).1).
Proof.
  intros Ho Hv Hl. destruct o as [w hs sid now|w now|w e now|w answer now|w m|w|w ok now|w|w now|o]; cbn in Ho; simplify_eq; cbn [socket_step].
  - destruct (sy_sockets y !! v); [done|]. unfold socket_open, attach_start. repeat (case_match; try done);
      match goal with E : attachViewer ?i ?u ?n ?r = _ |- _ => pose proof (logging_in_attach k s i u n r Hl) as T; rewrite E in T; exact T end.
  - unfold attach_detached. destruct (sy_sockets y !! v) as [q|]; [|done]. destruct (sk_attach q), (sk_client q); try done.
    destruct (stillCurrent v q (sy_registry y)) as [[] e]; [done|]. destruct (detach_viewer _ _ _ _) as [[y' b] e2] eqn:E.
    eapply logging_in_detach_viewer; [done|exact E|done].
  - unfold on_output. destruct (sy_sockets y !! v) as [q|]; [|done]. destruct (negb _ || _); [done|].
    destruct e; destruct (sk_attach q); try done; (eapply logging_in_views; [apply recordExit_views|done]).
  - unfold attach_answered. destruct (sy_sockets y !! v) as [q|]; [|done].
    destruct (sk_attach q) as [| |first queued x| |], (sk_client q) as [client|]; try done.
    assert (Hd : forall y' b e, detach_viewer v (sk_sessionId q) now (set_socket v (sk_stage attach_over (socket_teardown q)) y) = (y', b, e) ->
      logging_in k s (sy_registry y')) by (intros y' b e E; eapply logging_in_detach_viewer; [done|exact E|done]).
    destruct answer as [result|]; [|destruct (detach_viewer _ _ _ _) as [[y' b] e2] eqn:E; by eapply Hd].
    destruct (stillCurrent v q (sy_registry y)) as [[] e]; [|destruct (detach_viewer _ _ _ _) as [[y' b] e2] eqn:E; by eapply Hd].
    destruct (if ar_exited result then _ else _) as [x' r] eqn:Hr. destruct (if negb first then _ else _) as [q' r'] eqn:Hr'.
    assert (L1 : logging_in k s r) by (destruct (ar_exited result); simplify_eq; [eapply logging_in_views; [apply recordExit_views|done]|done]).
    assert (L2 : logging_in k s r').
    { destruct first; cbn in Hr'; [destruct (0 <? zlen _)|]; simplify_eq; try done. by apply logging_in_complete. }
    by destruct x'.
  - unfold socket_message. by repeat case_match.
  - unfold message_start. destruct (sy_sockets y !! v) as [q|]; [|done]. destruct (sk_running q); [done|].
    destruct (sk_chain q) as [|b rest]; [done|]. destruct (sk_client q); [|done]. destruct (sk_closed q); [done|].
    destruct (decodeTerminalClientMessage b) as [[d|c w|n1|]|]; try done. cbv zeta.
    destruct (match sk_loginReplayRemaining q with Some _ => _ | None => _ end) as [q' r] eqn:Hr. cbn.
    destruct (sk_loginReplayRemaining q) as [n0|]; [destruct (negb (sk_viewer q)); [|destruct (_ <=? 0)]|]; simplify_eq; try done.
    by apply logging_in_complete.
  - unfold message_done. destruct (sy_sockets y !! v) as [q|]; [|done]. destruct (sk_running q) as [m|]; [|done].
    cbn. destruct ok; [|done]. cbn. destruct m; try done; (eapply logging_in_views; [apply on_session_views|done]).
  - done.
  - unfold socket_closed. destruct (sy_sockets y !! v) as [q|]; [|done]. cbv zeta. destruct (sk_viewer q); [|done].
    destruct (detach_viewer _ _ _ _) as [[y' b] e2] eqn:E. eapply logging_in_detach_viewer; [done|exact E|done].
Qed.

End Viewers.
