(* ===== verification/TerminalShown.v ===== *)
(** * The terminal socket: what is pushed to a viewer

    A log of the runtime's side of a socket's stream, kept from what is sent to the runtime and what comes from it, and what
    the socket pushes in terms of it. *)

From S2P Require Import Prelude Json Wire Frames TerminalWire TerminalRelay TerminalSessions TerminalSessionsFacts TerminalSessionsMoves.
From S2P Require Import TerminalSocket TerminalSocketFacts TerminalViewer.

(** ** The log *)

(** Whether the runtime emits for the socket: not before [terminal.attach] is sent, from then on, and on after its answer
    until the socket is over. *)
Inductive stream_phase : Type := stream_off | stream_asked | stream_on.

(** The scrollback an accepted attach was answered with, and every output, exits apart, that came while the runtime emitted. *)
Record stream_log : Type := { lg_phase : stream_phase; lg_snapshot : option bytes; lg_outputs : list output_event }.

Definition no_log : stream_log := {| lg_phase := stream_off; lg_snapshot := None; lg_outputs := [] |}.

Definition with_phase (p : stream_phase) (lg : stream_log) : stream_log :=
  {| lg_phase := p; lg_snapshot := lg_snapshot lg; lg_outputs := lg_outputs lg |}.

Definition asks_stream (s : nat) (e : socket_effect) : bool := match e with SeAttach v _ _ => bool_decide (v = s) | _ => false end.
Definition closes_socket (s : nat) (e : socket_effect) : bool := match e with SeClose v _ _ => bool_decide (v = s) | _ => false end.
Definition says_exit (s : nat) (e : socket_effect) : bool := match e with SePush v (SExit _) => bool_decide (v = s) | _ => false end.

Definition not_exit (e : output_event) : list output_event := match e with OExit _ => [] | e => [e] end.

(** What input [o] and the effects [es] it had say about the stream of [s]. An attach is refused when it fails or the socket is
    closed upon its answer; it is over at once when the answer, or an exit before it, ended the terminal. *)
Definition log_step (s : nat) (lg : stream_log) (o : socket_op) (es : list socket_effect) : stream_log :=
  match o with
  | KOutput v e _ =>
      match lg_phase lg with
      | stream_off => lg
      | p => if bool_decide (v = s)
             then {| lg_phase := p; lg_snapshot := lg_snapshot lg; lg_outputs := lg_outputs lg ++ not_exit e |} else lg
      end
  | KAttached v answer _ =>
      match lg_phase lg with
      | stream_asked =>
          if bool_decide (v = s) then
            match answer with
            | Some result =>
                if existsb (closes_socket s) es then with_phase stream_off lg
                else {| lg_phase := if existsb (says_exit s) es then stream_off else stream_on;
                        lg_snapshot := Some (ar_scrollback result); lg_outputs := lg_outputs lg |}
            | None => with_phase stream_off lg
            end
          else lg
      | _ => lg
      end
  | KClosed v _ => if bool_decide (v = s) then with_phase stream_off lg else lg
  | _ => if existsb (asks_stream s) es then with_phase stream_asked lg else lg
  end.

(** What a viewer is to be shown of a log. *)
Definition replay (lg : stream_log) : list TerminalServerMessage :=
  match lg_snapshot lg with
  | Some scrollback => map SData (scrollback_chunks scrollback) ++ concat (map message_of (lg_outputs lg))
  | None => []
  end.

Section Shown.
  Context `{TypeBox} (randomId : nat -> jstring).

Fixpoint log_of (s : nat) (lg : stream_log) (os : list socket_op) (y : terminal_system) : stream_log :=
  match os with
  | [] => lg
  | o :: rest => log_of s (log_step s lg o (socket_step randomId o y).2) rest (socket_step randomId o y).1
  end.

(** ** The log and the socket *)

Definition phase_if (closed : bool) (p : stream_phase) : stream_phase := if closed then stream_off else p.

(** [sh] is what socket [k] has pushed. *)
Record logged (k : TerminalSocketState) (lg : stream_log) (sh : list TerminalServerMessage) : Prop := {
  lo_client : match sk_attach k with detaching _ | attaching _ _ _ => is_Some (sk_client k) | _ => True end;
  lo_stage : match sk_attach k with
             | not_attaching | detaching _ => lg = no_log /\ sh = [] /\ sk_subscribed k = false
             | attaching _ queued _ =>
                 lg = {| lg_phase := phase_if (sk_closed k) stream_asked; lg_snapshot := None; lg_outputs := queued |} /\ sh = [] /\
                 (sk_closed k = false -> sk_subscribed k = true)
             | live => lg_phase lg = phase_if (sk_closed k) stream_on /\ is_Some (lg_snapshot lg) /\ sh = replay lg /\
                       (sk_closed k = false -> sk_subscribed k = true)
             | attach_over => lg_phase lg = stream_off /\ sh = replay lg /\ sk_subscribed k = false
             end;
}.

Definition logged_at (s : nat) (y : terminal_system) (lg : stream_log) (sh : list TerminalServerMessage) : Prop :=
  match sy_sockets y !! s with None => lg = no_log /\ sh = [] | Some k => logged k lg sh end.

Definition keeps_log (s : nat) (o : socket_op) (y : terminal_system) (p : terminal_system * list socket_effect) : Prop :=
  forall lg sh, logged_at s y lg sh -> logged_at s p.1 (log_step s lg o p.2) (sh ++ shown s p.2).

(** A step that leaves the stream of a socket as it is. *)
Record same_stream (k k' : TerminalSocketState) : Prop := {
  st_attach : sk_attach k' = sk_attach k;
  st_client : sk_client k' = sk_client k;
  st_subscribed : sk_subscribed k' = sk_subscribed k;
  st_closed : sk_closed k' = sk_closed k;
}.

Lemma logged_same k k' lg sh : same_stream k k' -> logged k lg sh -> logged k' lg sh.
Proof. intros [E1 E2 E3 E4] [H1 H2]. constructor; by rewrite E1, ?E2, ?E3, ?E4. Qed.

(** Neither an attach nor anything to show. *)
Definition still (s : nat) (es : list socket_effect) : Prop := existsb (asks_stream s) es = false /\ shown s es = [].

Lemma still_app s es1 es2 : still s es1 -> still s es2 -> still s (es1 ++ es2).
Proof. intros [A1 S1] [A2 S2]. split; [by rewrite existsb_app, A1, A2|by rewrite shown_app, S1, S2]. Qed.

(** The inputs that do nothing but what their effects say. *)
Definition by_effects (o : socket_op) : bool := match o with KOutput _ _ _ | KAttached _ _ _ | KClosed _ _ => false | _ => true end.

Lemma log_step_still s lg o es : by_effects o = true -> still s es -> log_step s lg o es = lg.
Proof. intros Ho [Ha _]. by destruct o; cbn in *; rewrite ?Ha. Qed.

Lemma keeps_still s o y k k' p : by_effects o = true -> sy_sockets y !! s = Some k -> sy_sockets p.1 !! s = Some k' -> same_stream k k' ->
  still s p.2 -> keeps_log s o y p.
Proof.
  intros Ho Hk Hk' Hs He lg sh Hl. rewrite log_step_still by done. destruct He as [_ ->]. rewrite app_nil_r. unfold logged_at in *.
  rewrite Hk in Hl. rewrite Hk'. by apply (logged_same k).
Qed.

Lemma keeps_refl_step s o y es : by_effects o = true -> still s es -> keeps_log s o y (y, es).
Proof. intros Ho He lg sh Hl. cbn [fst snd]. rewrite log_step_still by done. destruct He as [_ ->]. by rewrite app_nil_r. Qed.

Lemma log_open s hs id now y : sy_sockets y !! s = None -> keeps_log s (KOpen s hs id now) y (socket_open s hs id now y).
Proof.
  intros Hn lg sh Hl. unfold logged_at in Hl. rewrite Hn in Hl. destruct Hl as [-> ->].
  assert (H0 : forall k, sk_attach k = not_attaching /\ sk_subscribed k = false -> logged k no_log []) by (intros k [E1 E2]; constructor; by rewrite E1).
  assert (Hp : forall k r es, still s es -> logged k no_log [] ->
    logged_at s (set_registry r (set_socket s k y)) (log_step s no_log (KOpen s hs id now) es) ([] ++ shown s es)).
  { intros k r es He Hk. rewrite log_step_still by done. destruct He as [_ ->]. unfold logged_at. cbn. by rewrite lookup_insert_eq. }
  unfold socket_open, attach_start. cbn [sy_sockets set_socket]. rewrite lookup_insert_eq.
  destruct (hs_rejection hs) as [[]|]; try (by apply (Hp (new_socket id) (sy_registry y)); [|apply H0]).
  destruct (if_truthy (hs_userId hs)); [|by apply (Hp (new_socket id) (sy_registry y)); [|apply H0]].
  destruct (getForAttach _ _ _) as [[sess client]|]; [|by apply (Hp (new_socket id) (sy_registry y)); [|apply H0]].
  destruct (attachViewer _ _ _ _) as [r [[replaced first]|]]; cbn [fst snd].
  - unfold logged_at. cbn. rewrite !lookup_insert_eq.
    assert (Hs : still s (match replaced with Some v => [viewer_close v REPLACED (js "Replaced by a new viewer")] | None => [] end ++ [SeDetach s client (sk_sessionId (new_socket id))])).
    { by destruct replaced. }
    pose proof (log_step_still s no_log (KOpen s hs id now) _ eq_refl Hs) as E. cbn in E, Hs |- *. rewrite E. destruct Hs as [_ Hs].
    rewrite Hs. constructor; cbn; [eauto|done].
  - unfold logged_at. cbn. rewrite !lookup_insert_eq. by apply H0.
Qed.

Lemma log_detached s now y : keeps_log s (KDetached s now) y (attach_detached s now y).
Proof.
  unfold attach_detached. destruct (sy_sockets y !! s) as [k|] eqn:Hk; [|by apply keeps_refl_step].
  destruct (sk_attach k) as [|first| | |] eqn:Ha; try by apply keeps_refl_step.
  destruct (sk_client k) as [client|] eqn:Hc; [|by apply keeps_refl_step].
  pose proof (stillCurrent_aside s k (sy_registry y)) as Hs. destruct (stillCurrent s k (sy_registry y)) as [[] e] eqn:Hcur; cbn in Hs.
  - assert (Hcl : sk_closed k = false) by (unfold stillCurrent in Hcur; by destruct (sk_closed k)).
    apply stillCurrent_true in Hcur as [_ ->]. intros lg sh Hl. unfold logged_at in *. rewrite Hk in Hl. destruct Hl as [_ Hl]. rewrite Ha in Hl.
    destruct Hl as (-> & -> & _). cbn. rewrite lookup_insert_eq, bool_decide_eq_true_2 by done. constructor; cbn; rewrite ?Hcl; [by rewrite Hc|done].
  - destruct (detach_viewer _ _ _ _) as [[y' b] e2] eqn:E. pose proof (detach_viewer_spec s (sk_sessionId k) now (set_socket s (sk_stage attach_over k) y)) as (E1 & E2 & _).
    rewrite E in E1, E2. cbn in E1, E2. apply detach_viewer_controls in E as [E3 _].
    assert (He : still s (e ++ e2)).
    { apply still_app; (split; [|by apply aside_shown]).
      - unfold stillCurrent in Hcur. by repeat case_match; simplify_eq.
      - clear -E3. induction E3 as [|x es Hx _ IH]; [done|]. cbn. rewrite IH. by destruct x. }
    intros lg sh Hl. cbn [fst snd]. rewrite log_step_still by done. destruct He as [_ ->]. rewrite app_nil_r.
    unfold logged_at in *. cbn. rewrite E1. cbn. rewrite lookup_insert_eq. rewrite Hk in Hl. destruct Hl as [_ Hl]. rewrite Ha in Hl.
    destruct Hl as (-> & -> & Hsub). by constructor.
Qed.

Lemma replay_more p sb ds e :
  replay {| lg_phase := p; lg_snapshot := Some sb; lg_outputs := ds ++ not_exit e |} =
  replay {| lg_phase := p; lg_snapshot := Some sb; lg_outputs := ds |} ++ message_of e.
Proof. unfold replay. cbn. rewrite map_app, concat_app, app_assoc. f_equal. destruct e; cbn; by rewrite ?app_nil_r. Qed.

Lemma shown_exit s exit : shown s (sendExit s exit) = [].
Proof. apply aside_shown, sendExit_aside. Qed.

Lemma log_output s e now y : keeps_log s (KOutput s e now) y (on_output s e now y).
Proof.
  intros lg sh Hl. unfold on_output, logged_at in *. cbn [log_step]. rewrite bool_decide_eq_true_2 by done.
  destruct (sy_sockets y !! s) as [k|] eqn:Hk; [|destruct Hl as [-> ->]; cbn; by rewrite Hk].
  pose proof Hl as [Hcl Hst]. destruct (sk_closed k) eqn:Hc; [|destruct (sk_subscribed k) eqn:Hsub]; cbn [negb orb].
  - rewrite orb_true_r. cbn [fst snd]. rewrite Hk. unfold shown. cbn. rewrite app_nil_r.
    assert (lg_phase lg = stream_off) as ->; [|done].
    destruct (sk_attach k); destruct Hst as (Hp & _); try (by rewrite Hp); done.
  - destruct (sk_attach k) as [|first|first queued x| |] eqn:Ha.
    + by destruct Hst as (_ & _ & ?).
    + by destruct Hst as (_ & _ & ?).
    + destruct Hst as (-> & -> & Hs). cbn [phase_if lg_phase lg_snapshot lg_outputs].
      destruct e as [d|n|exit]; cbn; rewrite lookup_insert_eq; (constructor; cbn; [done|]); rewrite Hc; by rewrite ?app_nil_r.
    + destruct Hst as (Hp & [sb Hsb] & -> & Hs). cbn in Hp. rewrite Hp.
      assert (Hr : replay {| lg_phase := stream_on; lg_snapshot := lg_snapshot lg; lg_outputs := lg_outputs lg ++ not_exit e |} = replay lg ++ message_of e).
      { rewrite Hsb, replay_more. unfold replay. by rewrite Hsb. }
      assert (Hg : forall k2 z, sk_attach k2 = live -> sk_closed k2 = false -> sk_subscribed k2 = true -> z = replay lg ++ message_of e ->
        logged k2 {| lg_phase := stream_on; lg_snapshot := lg_snapshot lg; lg_outputs := lg_outputs lg ++ not_exit e |} z).
      { intros k2 z E1 E2 E3 ->. constructor; rewrite E1, ?E2, ?E3; [done|]. rewrite Hsb. split; [done|]. split; [eauto|]. by rewrite <-Hsb, Hr. }
      destruct e as [d|n|exit]; cbn [fst snd sy_sockets set_registry]; rewrite Hk; apply Hg; try done; by rewrite ?shown_output, ?shown_exit.
    + by destruct Hst as (_ & _ & ?).
  - cbn [fst snd]. rewrite Hk. unfold shown. cbn. rewrite app_nil_r.
    assert (lg_phase lg = stream_off) as ->; [|done].
    destruct (sk_attach k); [by destruct Hst as (-> & _)..| | |by destruct Hst as (-> & _)].
    + destruct Hst as (_ & _ & Hs). by specialize (Hs eq_refl).
    + destruct Hst as (_ & _ & _ & Hs). by specialize (Hs eq_refl).
Qed.

Lemma existsb_pushes s f cs : (forall d, f (SePush s (SData d)) = false) -> existsb f (map (fun c => SePush s (SData c)) cs) = false.
Proof. intros Hf. induction cs as [|c cs IH]; [done|]. cbn. by rewrite Hf. Qed.

Lemma existsb_outputs s f k es : (forall m, (forall x, m <> SExit x) -> f (SePush s m) = false) -> existsb f (concat (map (handleOutput s k) es)) = false.
Proof.
  intros Hf. induction es as [|e es IH]; [done|]. cbn [map concat]. rewrite existsb_app, IH, orb_false_r. unfold handleOutput.
  destruct (sk_closed k); [done|]. destruct e; cbn; rewrite ?Hf by done; done.
Qed.

(** An attach that comes to nothing. *)
Lemma logged_refused k k' lg sh : match sk_attach k with attaching _ _ _ => True | _ => False end -> sk_attach k' = attach_over -> sk_subscribed k' = false ->
  logged k lg sh -> logged k' (with_phase stream_off lg) sh.
Proof.
  intros Ha Ha' Hs [_ Hst]. constructor; rewrite Ha'; [done|]. destruct (sk_attach k); try done. by destruct Hst as (-> & -> & _).
Qed.

(** The answer is refused, for whatever reason: the socket was closed before or is closed now. *)
Lemma log_refused s answer now k client y id y' b e es : sy_sockets y !! s = Some k -> sk_attach k <> live ->
  match sk_attach k with attaching _ _ _ => True | _ => False end -> sk_client k = Some client ->
  detach_viewer s id now (set_socket s (sk_stage attach_over (socket_teardown k)) y) = (y', b, e) ->
  Forall aside es -> (sk_closed k = false -> answer = None \/ existsb (closes_socket s) es = true) ->
  keeps_log s (KAttached s answer now) y (y', es).
Proof.
  intros Hk _ Ha Hc E Hes Hcl lg sh Hl. unfold logged_at in *. rewrite Hk in Hl. cbn [fst snd].
  pose proof (detach_viewer_spec s id now (set_socket s (sk_stage attach_over (socket_teardown k)) y)) as (E1 & _). rewrite E in E1. cbn in E1.
  rewrite E1, lookup_insert_eq, (aside_shown s es Hes), app_nil_r.
  assert (log_step s lg (KAttached s answer now) es = with_phase stream_off lg) as ->; [|by apply (logged_refused k)].
  destruct Hl as [_ Hst]. destruct (sk_attach k) as [| |first queued x| |]; try done. destruct Hst as (-> & _ & _).
  destruct (sk_closed k); cbn [phase_if log_step lg_phase]; [done|]. rewrite bool_decide_eq_true_2 by done.
  destruct (Hcl eq_refl) as [->|Hx]; [done|]. destruct answer; [|done]. by rewrite Hx.
Qed.

Lemma log_attached s answer now y : keeps_log s (KAttached s answer now) y (attach_answered s answer now y).
Proof.
  unfold attach_answered. destruct (sy_sockets y !! s) as [k|] eqn:Hk.
  2:{ intros lg sh Hl. unfold logged_at in *. rewrite Hk in Hl. destruct Hl as [-> ->]. cbn. by rewrite Hk. }
  assert (Hidle : match sk_attach k with attaching _ _ _ => False | _ => True end -> keeps_log s (KAttached s answer now) y (y, [])).
  { intros Ha lg sh Hl. unfold logged_at in *. rewrite Hk in Hl. cbn [fst snd]. rewrite Hk. unfold shown. cbn [omap list_omap]. rewrite app_nil_r.
    replace (log_step s lg (KAttached s answer now) []) with lg; [done|]. destruct Hl as [_ Hst]. cbn [log_step].
    destruct (sk_attach k); try done; destruct Hst as (Hp & _); try (by rewrite Hp); subst; done || (destruct (sk_closed k); by rewrite Hp). }
  destruct (sk_attach k) as [| |first queued replayExit| |] eqn:Ha; try by apply Hidle. clear Hidle.
  destruct (sk_client k) as [client|] eqn:Hcl0.
  2:{ intros lg sh Hl. unfold logged_at in *. rewrite Hk in Hl. destruct Hl as [Hc _]. rewrite Ha, Hcl0 in Hc. by destruct Hc. }
  destruct answer as [result|].
  - pose proof (stillCurrent_aside s k (sy_registry y)) as Hs. destruct (stillCurrent s k (sy_registry y)) as [[] e] eqn:Hcur; cbn in Hs.
    + assert (Hcl : sk_closed k = false) by (unfold stillCurrent in Hcur; by destruct (sk_closed k)).
      destruct (if ar_exited result then _ else _) as [x r]. destruct (if negb first then _ else _) as [k' r'] eqn:Hk'.
      assert (Hm : sk_client k' = Some client /\ sk_closed k' = false /\ sk_subscribed k' = sk_subscribed k).
      { destruct first; cbn in Hk'; [destruct (0 <? zlen _)|]; simplify_eq; by split_and!. }
      destruct Hm as (Hm1 & Hm2 & Hm3). intros lg sh Hl. unfold logged_at in *. rewrite Hk in Hl. destruct Hl as [_ Hst]. rewrite Ha in Hst.
      destruct Hst as (-> & -> & Hsub). rewrite Hcl. cbn [phase_if log_step lg_phase]. rewrite bool_decide_eq_true_2 by done.
      destruct x as [exit|]; cbn [fst snd sy_sockets set_registry set_socket]; rewrite lookup_insert_eq; unfold socket_teardown;
        rewrite !existsb_app, !existsb_pushes, !existsb_outputs by (done || intros []; naive_solver);
        rewrite !shown_app, shown_pushes, shown_outputs by done.
      * rewrite shown_exit. cbn [orb existsb closes_socket sendExit says_exit]. rewrite bool_decide_eq_true_2, !app_nil_r by done.
        by constructor.
      * cbn [orb]. constructor; cbn; [done|]. rewrite Hm2, Hm3. split; [done|]. split; [eauto|]. split; [done|]. by rewrite Hsub.
    + destruct (detach_viewer _ _ _ _) as [[y' b] e2] eqn:E. destruct (local_after_detach _ _ _ _ _ _ _ _ E) as [E2 _].
      eapply (log_refused s _ now k client); [done|by rewrite Ha|by rewrite Ha|done|exact E| |].
      * apply Forall_app. split; [done|]. apply Forall_app. split; [done|]. destruct b; by repeat constructor.
      * intros Hcl. right. unfold stillCurrent in Hcur. rewrite Hcl in Hcur. destruct (isCurrentViewer _ _ _); [done|]. simplify_eq.
        cbn. by rewrite bool_decide_eq_true_2.
  - destruct (detach_viewer _ _ _ _) as [[y' b] e2] eqn:E. destruct (local_after_detach _ _ _ _ _ _ _ _ E) as [E2 _].
    eapply (log_refused s _ now k client); [done|by rewrite Ha|by rewrite Ha|done|exact E| |by left].
    apply Forall_app. split; [done|]. by repeat constructor.
Qed.

Lemma log_message s m y : keeps_log s (KMessage s m) y (socket_message s m y).
Proof.
  unfold socket_message. destruct (sy_sockets y !! s) as [k|] eqn:Hk; [|by apply keeps_refl_step].
  destruct (sk_closed k); [by apply keeps_refl_step|]. destruct m; [|by apply keeps_refl_step].
  destruct (_ <=? _); [by apply keeps_refl_step|]. eapply keeps_still; [done|exact Hk|cbn; apply lookup_insert_eq|done|done].
Qed.

Lemma log_start s y : keeps_log s (KStart s) y (message_start s y).
Proof.
  unfold message_start. destruct (sy_sockets y !! s) as [k|] eqn:Hk; [|by apply keeps_refl_step].
  destruct (sk_running k); [by apply keeps_refl_step|]. destruct (sk_chain k) as [|b rest]; [by apply keeps_refl_step|]. cbv zeta.
  assert (Hp : forall r k2 es, same_stream k k2 -> still s es -> keeps_log s (KStart s) y (set_registry r (set_socket s k2 y), es)).
  { intros r k2 es Hs He. eapply keeps_still; [done|exact Hk|cbn; apply lookup_insert_eq|done|done]. }
  assert (Hp' : forall k2 es, same_stream k k2 -> still s es -> keeps_log s (KStart s) y (set_socket s k2 y, es)).
  { intros k2 es. rewrite <-(set_registry_id (set_socket s k2 y)). apply Hp. }
  destruct (sk_client k) as [client|]; [|by apply Hp']. destruct (sk_closed k) eqn:Hcl; [by apply Hp'|].
  destruct (decodeTerminalClientMessage b) as [[d|c w|n|]|]; try by apply Hp'.
  - destruct (match sk_loginReplayRemaining k with Some _ => _ | None => _ end) as [k' r] eqn:Hk'. apply Hp; [|done].
    destruct (sk_loginReplayRemaining k) as [n0|]; [destruct (negb (sk_viewer k)); [|destruct (_ <=? 0)]|]; simplify_eq; done.
  - apply Hp'; [done|]. by destruct (sk_relay k).
Qed.

Lemma log_done s ok now y : keeps_log s (KDone s ok now) y (message_done s ok now y, []).
Proof.
  unfold message_done. destruct (sy_sockets y !! s) as [k|] eqn:Hk; [|by apply keeps_refl_step].
  destruct (sk_running k); [|by apply keeps_refl_step]. cbv zeta. eapply keeps_still; [done|exact Hk|cbn; apply lookup_insert_eq|done|done].
Qed.

Lemma log_closed s now y : keeps_log s (KClosed s now) y (socket_closed s now y).
Proof.
  intros lg sh Hl. assert (Hlog : forall es, log_step s lg (KClosed s now) es = with_phase stream_off lg) by (intros es; cbn; by rewrite bool_decide_eq_true_2).
  rewrite Hlog. unfold socket_closed, logged_at in *. destruct (sy_sockets y !! s) as [k|] eqn:Hk; [|destruct Hl as [-> ->]; cbn; by rewrite Hk].
  cbv zeta. assert (Hk' : logged (socket_teardown (sk_shut k)) (with_phase stream_off lg) sh).
  { destruct Hl as [Hc Hst]. constructor; cbn; [done|]. destruct (sk_attach k); naive_solver. }
  assert (Hd : forall b, Forall aside match sk_client k with
     | Some client => if b && truthy (Some (sk_sessionId k)) then [SeDetach s client (sk_sessionId k)] else [] | None => [] end).
  { intros b. destruct (sk_client k); [|constructor]. destruct (b && _); by repeat constructor. }
  destruct (sk_viewer k); cbn [fst snd].
  - destruct (detach_viewer _ _ _ _) as [[y' b] e2] eqn:E. destruct (local_after_detach _ _ _ _ _ _ _ _ E) as [E2 _].
    pose proof (detach_viewer_spec s (sk_sessionId k) now (set_socket s (socket_teardown (sk_shut k)) y)) as (E1 & _). rewrite E in E1. cbn in E1.
    cbn [fst snd]. rewrite E1, lookup_insert_eq, aside_shown by (by apply Forall_app). by rewrite app_nil_r.
  - cbn [sy_sockets set_socket]. rewrite lookup_insert_eq, aside_shown by apply (Hd false). by rewrite app_nil_r.
Qed.

(** What others do says nothing of the stream of [s]. *)
Lemma log_elsewhere s lg o y : op_socket o <> Some s -> log_step s lg o (socket_step randomId o y).2 = lg.
Proof.
  intros Ho. assert (Ha : existsb (asks_stream s) (socket_step randomId o y).2 = false).
  { apply not_true_is_false. intros (x & Hin & Hx)%existsb_exists. apply list_elem_of_In in Hin. destruct x as [| | | | |v c i| |]; try done.
    cbn in Hx. apply bool_decide_eq_true in Hx as ->. by destruct (step_controls randomId o y s c i (or_intror Hin)) as [? _]. }
  destruct o; cbn [log_step op_socket] in *; rewrite ?Ha; try done; rewrite ?bool_decide_eq_false_2 by congruence; try done; by destruct (lg_phase lg).
Qed.

Lemma log_any s o y : reg_inv randomId (sy_registry y) -> keeps_log s o y (socket_step randomId o y).
Proof.
  intros I. destruct (decide (op_socket o = Some s)) as [Ho|Ho].
  - destruct o as [v hs sid now|v now|v e now|v answer now|v m|v|v ok now|v|v now|o]; cbn in Ho; simplify_eq.
    + cbn. destruct (sy_sockets y !! s) eqn:E; [by apply keeps_refl_step|by apply log_open].
    + apply log_detached.
    + apply log_output.
    + apply log_attached.
    + apply log_message.
    + apply log_start.
    + apply log_done.
    + apply keeps_refl_step; [done|]. by repeat case_match.
    + apply log_closed.
  - intros lg sh Hl. rewrite log_elsewhere by done. destruct (step_elsewhere randomId o s y I Ho) as (E1 & -> & _).
    rewrite app_nil_r. unfold logged_at in *. by rewrite E1.
Qed.

Lemma log_run os s y lg sh : reg_inv randomId (sy_registry y) -> logged_at s y lg sh ->
  logged_at s (socket_run randomId os y).1 (log_of s lg os y) (sh ++ shown s (socket_run randomId os y).2).
Proof.
  revert y lg sh. induction os as [|o os IH]; intros y lg sh I Hl; [cbn; unfold shown; cbn; by rewrite app_nil_r|].
  pose proof (log_any s o y I lg sh Hl) as H1. pose proof (step_registry_inv randomId o y I) as I1. cbn [socket_run log_of].
  destruct (socket_step randomId o y) as [y1 e1]. cbn [fst snd] in *. specialize (IH y1 _ _ I1 H1).
  destruct (socket_run randomId os y1) as [y2 e2]. cbn [fst snd] in *. by rewrite shown_app, app_assoc.
Qed.

Lemma logged_replay k lg sh : logged k lg sh -> sh = replay lg.
Proof. intros [_ Hst]. destruct (sk_attach k); naive_solver. Qed.

End Shown.
