(* ===== verification/TerminalStream.v ===== *)
(** * The terminal socket: theorems

    What a viewer sees, what its keystrokes become, and whose the stream is, in every run of the sockets over the registry. *)

From S2P Require Import Prelude Json Wire Frames TerminalWire TerminalRelay TerminalSessions TerminalSessionsFacts TerminalSessionsMoves.
From S2P Require Import TerminalSocket TerminalSocketFacts TerminalViewer TerminalShown TerminalRuns.

Lemma scrollback_chunks_spec sb :
  concat (scrollback_chunks sb) = sb /\ Forall (fun c => 1 <= zlen c <= TERMINAL_CHUNK_MAX_BYTES) (scrollback_chunks sb).
Proof.
  unfold scrollback_chunks, chunkTerminalBytes. change (TERMINAL_CHUNK_MAX_BYTES <? 1) with false. cbv iota.
  destruct (chunk_loop_spec (length sb) TERMINAL_CHUNK_MAX_BYTES sb 0) as [H1 H2]; [unfold TERMINAL_CHUNK_MAX_BYTES; lia|lia|unfold zlen; lia|].
  split; [exact H1|exact H2].
Qed.

Section Runs.
  Context `{TypeBox} (randomId : nat -> jstring).

Lemma history_new s os : history s (socket_run randomId os new_system).1 (accepted randomId s os new_system)
  (requests s (socket_run randomId os new_system).2).
Proof. apply (run_history randomId os s new_system [] []); [apply inv_new|]. unfold history. cbn. by rewrite lookup_empty. Qed.

Lemma log_new s os : logged_at s (socket_run randomId os new_system).1 (log_of randomId s no_log os new_system)
  (shown s (socket_run randomId os new_system).2).
Proof. apply (log_run randomId os s new_system no_log []); [apply inv_new|]. unfold logged_at. cbn. by rewrite lookup_empty. Qed.

Lemma run_registry_inv os y : reg_inv randomId (sy_registry y) -> reg_inv randomId (sy_registry (socket_run randomId os y).1).
Proof.
  revert y. induction os as [|o os IH]; intros y I; [done|]. cbn. pose proof (step_registry_inv randomId o y I) as I1.
  destruct (socket_step randomId o y) as [y1 e1]. specialize (IH y1 I1). by destruct (socket_run randomId os y1).
Qed.

(** Nobody but socket [s] acts, nor does anyone call the viewers' operations but the sockets. *)
Definition others_only (s : nat) (o : socket_op) : Prop :=
  op_socket o <> Some s /\ match o with KRegistry o => viewer_op o = false | _ => True end.

Lemma logging_in_step o k s y : reg_inv randomId (sy_registry y) -> others_only s o -> logging_in k s (sy_registry y) ->
  logging_in k s (sy_registry (socket_step randomId o y).1).
Proof.
  intros I [Ho Hv] Hl. destruct (op_socket o) as [v|] eqn:Eo; [eapply logging_in_socket; [done|congruence|done]|].
  destruct o as [| | | | | | | | |o]; try done. cbn [socket_step]. pose proof (step_same_views randomId o (sy_registry y) Hv I) as Hs.
  destruct (terminal_step randomId o (sy_registry y)) as [r e]. by eapply logging_in_views.
Qed.

Lemma logging_in_viewer k s id v r : Inj (=) (=) randomId -> reg_inv randomId r -> id = randomId k -> logging_in k s r ->
  isCurrentViewer id v r = true -> v = s.
Proof.
  intros Hi I Hid (e & He & _ & Hv) Hc. unfold isCurrentViewer in Hc. destruct (find_entry id r) as [[j ej]|] eqn:E; [|done].
  apply find_entry_some in E as [E1 E2]. apply sess_get_elem in E1. destruct (iv_listed _ _ I _ E1) as [Hj _]. cbn in Hj.
  assert (j = k) as -> by (apply Hi; congruence). apply bool_decide_eq_true in Hc. congruence.
Qed.

Lemma logging_in_run os k s id y : Inj (=) (=) randomId -> reg_inv randomId (sy_registry y) -> id = randomId k -> Forall (others_only s) os ->
  logging_in k s (sy_registry y) ->
  logging_in k s (sy_registry (socket_run randomId os y).1) /\ forall v client, ~ controls v client id (socket_run randomId os y).2.
Proof.
  intros Hi I Hid Ho. revert y I. induction Ho as [|o os Ho _ IH]; intros y I Hl.
  - split; [done|]. by intros v client [[]%elem_of_nil|[]%elem_of_nil].
  - pose proof (logging_in_step o k s y I Ho Hl) as L1. pose proof (step_registry_inv randomId o y I) as I1.
    pose proof (step_controls randomId o y) as Hctl. cbn. destruct (socket_step randomId o y) as [y1 e1]. cbn in *.
    destruct (IH y1 I1 L1) as [L2 C2]. destruct (socket_run randomId os y1) as [y2 e2]. cbn in *. split; [done|].
    intros v client Hc. destruct (proj1 (controls_app _ _ _ _ _) Hc) as [Hc1|Hc2]; [|by eapply C2].
    destruct (Hctl v client id Hc1) as [Ev Hcur]. assert (v = s) as ->; [|by destruct Ho].
    destruct Hcur as [Hcur|Hcur]; [exact (logging_in_viewer k s id v _ Hi I Hid Hl Hcur)|exact (logging_in_viewer k s id v _ Hi I1 Hid L1 Hcur)].
Qed.

End Runs.

(** C29: a viewer is sent the terminal as it is. In any run of any number of sockets, what socket [s] has pushed of the
    terminal to its relay is exactly this: nothing until its attach was answered and accepted; then the scrollback of the answer, cut
    into chunks whose concatenation is that scrollback, followed by every output that has come for it since [terminal.attach]
    was sent, in order, nothing twice and nothing left out, what came while the attach was in flight included, until its
    browser hangs up or the answer ends the terminal. The stretch in which the runtime emits is told from what the hub sent
    and received, not from the socket's own record, so that subscribing after the request or letting go early would show. What becomes of
    the pushed frames is the relay's account: under backpressure it may discard the oldest, and says so. *)
Theorem viewer_shown_in_order `{TypeBox} (randomId : nat -> jstring) (os : list socket_op) (s : nat) (y : terminal_system)
    (es : list socket_effect) :
  socket_run randomId os new_system = (y, es) ->
  let lg := log_of randomId s no_log os new_system in
  match lg_snapshot lg with
  | None => shown s es = []
  | Some scrollback =>
      concat (scrollback_chunks scrollback) = scrollback /\
      shown s es = map SData (scrollback_chunks scrollback) ++ concat (map message_of (lg_outputs lg))
  end.
Proof.
  intros E. pose proof (log_new randomId s os) as Hh. rewrite E in Hh. cbn [fst snd] in Hh. unfold logged_at in Hh.
  assert (Hr : shown s es = replay (log_of randomId s no_log os new_system)).
  { destruct (sy_sockets y !! s); [by eapply logged_replay|]. by destruct Hh as [-> ->]. }
  unfold replay in Hr. cbv zeta. destruct (lg_snapshot _); [|done]. split; [apply scrollback_chunks_spec|done].
Qed.

(** C32: keystrokes arrive in order, and are bounded. The runtime requests made for a socket are those its accepted frames
    ask for, in the order the browser sent them, each at most once; the frames that still wait, with the one in flight,
    are never more than [TERMINAL_SOCKET_MAX_PENDING_MESSAGES]. *)
Theorem client_frames_in_order `{TypeBox} (randomId : nat -> jstring) (os : list socket_op) (s : nat) (y : terminal_system)
    (es : list socket_effect) (k : TerminalSocketState) :
  socket_run randomId os new_system = (y, es) -> sy_sockets y !! s = Some k ->
  exists ran, accepted randomId s os new_system = ran ++ sk_chain k /\ requests s es `sublist_of` omap request_of ran /\
    zlen (sk_chain k) + running_count k <= TERMINAL_SOCKET_MAX_PENDING_MESSAGES.
Proof.
  intros E Hk. pose proof (history_new randomId s os) as Hh. rewrite E in Hh. cbn [fst snd] in Hh. unfold history in Hh. rewrite Hk in Hh.
  destruct (sh_requests _ _ _ Hh) as (ran & H1 & H2). exists ran. split; [done|]. split; [done|].
  pose proof (sh_pending _ _ _ Hh). pose proof (sh_bounded _ _ _ Hh). lia.
Qed.

(** C30: only a terminal's viewer touches its stream. Whatever step the system takes, a request to attach to or to detach a
    terminal's output comes from the socket that takes the step, and that socket holds the terminal, before the step or,
    when it has just taken it over, after it; no other socket holds it then. So a socket that was replaced never
    silences its successor, whenever its close is noticed. *)
Theorem stream_control_owned `{TypeBox} (randomId : nat -> jstring) (o : socket_op) (y y' : terminal_system) (es : list socket_effect)
    (s client : nat) (id : jstring) :
  socket_step randomId o y = (y', es) -> controls s client id es ->
  op_socket o = Some s /\
  exists r, (r = sy_registry y \/ r = sy_registry y') /\ forall v, isCurrentViewer id v r = true <-> v = s.
Proof.
  intros E Hc. pose proof (step_controls randomId o y s client id) as Hs. rewrite E in Hs. destruct (Hs Hc) as [Ho Hv]. split; [done|].
  assert (Hr : exists r, (r = sy_registry y \/ r = sy_registry y') /\ isCurrentViewer id s r = true) by (destruct Hv; eauto).
  destruct Hr as (r & Hr & Hcur). exists r. split; [done|]. intros v. split; [|by intros ->]. intros Hv'. by eapply viewer_unique.
Qed.

(** C31: the first viewer of a login terminal is the only one. While socket [s] attaches to a login terminal for the first
    time, whatever the hub and the other sockets do, the terminal stays with [s] and nobody else attaches to its stream
    or detaches it: only a step of [s] itself, that its replay was acknowledged, or that it failed or closed, ends it.
    Ids are not drawn twice. *)
Theorem first_login_private `{TypeBox} (randomId : nat -> jstring) (os os' : list socket_op) (s k : nat) (id : jstring) (e : TerminalSessionEntry) :
  Inj (=) (=) randomId ->
  let y := (socket_run randomId os new_system).1 in
  find_entry id (sy_registry y) = Some (k, e) -> en_loginAttach e = Some la_attaching -> en_viewer e = Some s ->
  Forall (others_only s) os' ->
  logging_in k s (sy_registry (socket_run randomId os' y).1) /\ forall v client, ~ controls v client id (socket_run randomId os' y).2.
Proof.
  intros Hi y Hf Hla Hv Ho. assert (I : reg_inv randomId (sy_registry y)) by (apply run_registry_inv, inv_new).
  apply find_entry_some in Hf as [H1 H2]. apply sess_get_elem in H1. destruct (iv_listed _ _ I _ H1) as [Hid _]. cbn in Hid.
  apply logging_in_run; try done. exists e. done.
Qed.

(** ** A run *)

Definition login_open : TerminalOpenBody :=
  {| ob_environmentId := js "box"; ob_loginTarget := Some (js "agent"); ob_chatId := None; ob_shell := None; ob_cwd := None;
     ob_cols := None; ob_rows := None; ob_title := None |}.

Definition signed_in (user : jstring) : BrowserSocketHandshakeResult := {| hs_userId := Some user; hs_rejection := None |}.

(** A login terminal is opened and socket 1 starts to attach to it. *)
Definition login_started : list socket_op :=
  [KRegistry (IOpen one_seat (js "ann") login_open false); KRegistry (IClient 0 (Some (7%nat, capable)) true);
   KRegistry (IToolchain 0 (Ok None)); KRegistry (IOpenAnswered 0 (Ok (js "bash", js "/home")) 5);
   KOpen 1 (signed_in (js "ann")) (numbered 0) 6].

(** The runtime emits while the attach is in flight; the browser types; a second socket tries to take over. *)
Definition login_watched : list socket_op :=
  login_started ++
  [KDetached 1 7; KOutput 1 (OData (js "b")) 8;
   KAttached 1 (Some {| ar_exited := false; ar_exitCode := None; ar_signal := None; ar_scrollback := js "a" |}) 9;
   KOutput 1 (OData (js "c")) 10; KMessage 1 (Some (0 :: js "x")); KStart 1].

Definition intrusion : list socket_op := [KOpen 2 (signed_in (js "ann")) (numbered 0) 7; KRegistry (IReap one_seat 8)].

Definition watched : terminal_system * list socket_effect := @socket_run conforming_checker numbered login_watched new_system.

Lemma viewer_shown_in_order_witness :
  lg_outputs (@log_of conforming_checker numbered 1 no_log login_watched new_system) = [OData (js "b"); OData (js "c")] /\
  shown 1 watched.2 = [SData (js "a"); SData (js "b"); SData (js "c")].
Proof.
  assert (watched = (watched.1, watched.2)) as Hw by by destruct watched.
  pose proof (@viewer_shown_in_order conforming_checker numbered login_watched 1 watched.1 watched.2 Hw) as H. cbv zeta in H.
  assert (@log_of conforming_checker numbered 1 no_log login_watched new_system =
          {| lg_phase := stream_on; lg_snapshot := Some (js "a"); lg_outputs := [OData (js "b"); OData (js "c")] |}) as E by by vm_compute.
  rewrite E in H |- *. cbn [lg_snapshot lg_outputs] in H |- *. destruct H as [_ H]. split; [reflexivity|]. rewrite H. by vm_compute.
Defined.

Lemma client_frames_in_order_witness :
  requests 1 watched.2 = [CData (js "x")] /\
  exists k, sy_sockets watched.1 !! 1%nat = Some k /\ zlen (sk_chain k) + running_count k <= TERMINAL_SOCKET_MAX_PENDING_MESSAGES.
Proof.
  split; [by vm_compute|]. destruct (sy_sockets watched.1 !! 1%nat) as [k|] eqn:Hk; [|by vm_compute in Hk]. exists k. split; [done|].
  destruct (@client_frames_in_order conforming_checker numbered login_watched 1 watched.1 watched.2 k) as (ran & _ & _ & Hb); [|exact Hk|exact Hb].
  unfold watched. by destruct (socket_run _ _ _).
Defined.

Lemma stream_control_owned_witness :
  exists es : list socket_effect, op_socket (KDetached 1 7) = Some 1%nat /\ SeAttach 1 7 (numbered 0) ∈ es /\
    exists r, forall v, isCurrentViewer (numbered 0) v r = true <-> v = 1%nat.
Proof.
  set (y := (@socket_run conforming_checker numbered login_started new_system).1).
  destruct (@socket_step conforming_checker numbered (KDetached 1 7) y) as [y' es] eqn:E. exists es.
  assert (Hc : SeAttach 1 7 (numbered 0) ∈ es).
  { replace es with (@socket_step conforming_checker numbered (KDetached 1 7) y).2 by (by rewrite E). vm_compute. left. }
  destruct (@stream_control_owned conforming_checker numbered (KDetached 1 7) y y' es 1 7 (numbered 0) E (or_intror Hc)) as [H1 (r & _ & H2)].
  split; [exact H1|]. split; [exact Hc|]. exists r. exact H2.
Defined.

Lemma first_login_private_witness :
  let y := (@socket_run conforming_checker numbered login_started new_system).1 in
  (@socket_run conforming_checker numbered intrusion y).2 = [SeClose 2 REPLACED (js "First login viewer is receiving output")] /\
  logging_in 0 1 (sy_registry (@socket_run conforming_checker numbered intrusion y).1).
Proof.
  intros y. split; [by vm_compute|].
  destruct (find_entry (numbered 0) (sy_registry y)) as [[k e]|] eqn:Hf; [|by vm_compute in Hf].
  assert (k = 0%nat) as -> by (vm_compute in Hf; congruence).
  refine (proj1 (@first_login_private conforming_checker numbered login_started intrusion 1 0 (numbered 0) e numbered_inj Hf _ _ _)).
  - vm_compute in Hf. injection Hf as <-. done.
  - vm_compute in Hf. injection Hf as <-. done.
  - repeat constructor; done.
Defined.
