(* ===== verification/RuntimeManifest.v ===== *)
(** * What a runtime may do

    [runtime-contract/manifest.ts], [runtime-contract/implementation.ts] and [services/runtime-client/manifest-from-health.ts]: the
    manifest a runtime announces, and the one the hub rebuilds from a health report. A key that may be absent is an [option]. *)

From S2P Require Import Prelude Regex.

(** ** Data *)

(** [RuntimeCapabilityManifest['features']] *)
Record features : Type := {
  ft_tools : bool;
  ft_git : bool;
  ft_probing : bool;
  ft_mcp : bool;
  ft_library : bool;
  ft_checkpoints : bool;
  ft_fsRead : option bool;
  ft_fsWrite : option bool;
  ft_shell : option bool;
  ft_update : option bool;
  ft_externalAgents : option bool;
  ft_toolchain : option bool;
}.

(** [RuntimeImplementationFeatures] *)
Record RuntimeImplementationFeatures : Type := {
  if_git : bool;
  if_probing : bool;
  if_mcp : bool;
  if_library : bool;
  if_checkpoints : bool;
  if_fsRead : bool;
  if_fsWrite : bool;
  if_shell : bool;
  if_update : bool;
  if_externalAgents : bool;
  if_terminal : bool;
}.

Record RuntimeImplementation : Type := {
  ri_schema : Z;
  ri_fingerprint : jstring;
  ri_features : RuntimeImplementationFeatures;
}.

(** [RuntimeCapabilityAllow] *)
Record RuntimeCapabilityAllow : Type := {
  al_fsRead : bool;
  al_fsWrite : bool;
  al_shell : bool;
  al_git : bool;
  al_probing : bool;
  al_mcp : bool;
  al_library : bool;
  al_checkpoints : bool;
  al_update : bool;
  al_externalAgents : option bool;
}.

(** [git] and [gh] *)
Record tool_facts : Type := { tf_available : bool; tf_version : option jstring }.

Record ExternalIdentityIsolation : Type := { ei_method : jstring; ei_credentialHomeFingerprint : jstring }.

(** [RuntimeCapabilityManifest] *)
Record manifest : Type := {
  mn_platform : jstring;
  mn_arch : jstring;
  mn_pathStyle : jstring;
  mn_homeDir : jstring;
  mn_shells : list jstring;
  mn_git : tool_facts;
  mn_gh : option tool_facts;
  mn_features : features;
  mn_externalAgents : option (list jstring);
  mn_identityIsolation : option ExternalIdentityIsolation;
  mn_terminal : option bool;
  mn_terminalCloseAfterRevocation : option bool;
  mn_terminalLoginArgv : option bool;
  mn_enforcesPathPolicy : option bool;
  mn_publishesWindowsSlot : option bool;
  mn_directoryHashDomain : option Z;
  mn_profile : option jstring;
  mn_allow : option RuntimeCapabilityAllow;
  mn_implementation : option RuntimeImplementation;
}.

(** The fields of [RuntimeHealthReport] the hub reads. *)
Record RuntimeHealthReport : Type := {
  hr_profile : jstring;
  hr_allow : RuntimeCapabilityAllow;
  hr_platform : jstring;
  hr_arch : jstring;
  hr_homeDir : jstring;
  hr_shells : list jstring;
  hr_git : tool_facts;
  hr_gh : option tool_facts;
  hr_targets : option (list jstring);
  hr_identityIsolation : option ExternalIdentityIsolation;
  hr_terminal : option bool;
}.

#[global] Instance features_eq_dec : EqDecision features.
Proof. solve_decision. Defined.
#[global] Instance implementation_features_eq_dec : EqDecision RuntimeImplementationFeatures.
Proof. solve_decision. Defined.
#[global] Instance implementation_eq_dec : EqDecision RuntimeImplementation.
Proof. solve_decision. Defined.
#[global] Instance allow_eq_dec : EqDecision RuntimeCapabilityAllow.
Proof. solve_decision. Defined.
#[global] Instance tool_facts_eq_dec : EqDecision tool_facts.
Proof. solve_decision. Defined.
#[global] Instance isolation_eq_dec : EqDecision ExternalIdentityIsolation.
Proof. solve_decision. Defined.
#[global] Instance manifest_eq_dec : EqDecision manifest.
Proof. solve_decision. Defined.

(** ** The implementation descriptor *)

Definition RUNTIME_IMPLEMENTATION_SCHEMA_VERSION : Z := 1.

Definition hex_digit : regex := RClass [(48, 57); (97, 102)].

Fixpoint r_times (n : nat) (r : regex) : regex := match n with O => REps | S m => RSeq r (r_times m r) end.

(** [RuntimeImplementationFingerprintSchema] *)
Definition RuntimeImplementationFingerprint : regex := r_times 64 hex_digit.

Definition acceptedRuntimeImplementation (value : option RuntimeImplementation) : option RuntimeImplementation :=
  match value with
  | Some v =>
      if (1 <=? ri_schema v) && matches RuntimeImplementationFingerprint (ri_fingerprint v)
      then if ri_schema v =? RUNTIME_IMPLEMENTATION_SCHEMA_VERSION then Some v else None
      else None
  | None => None
  end.

(** ** Rebuilding a manifest *)

Definition is_true (b : option bool) : bool := match b with Some true => true | _ => false end.
Definition not_false (b : option bool) : bool := match b with Some false => false | _ => true end.

(** [effectiveTools] over [RUNTIME_TOOL_GROUPS] *)
Definition effectiveTools (f : features) : bool :=
  existsb is_true [Some (ft_git f); Some (ft_probing f); Some (ft_mcp f); Some (ft_library f); Some (ft_checkpoints f); ft_fsRead f; ft_fsWrite f; ft_shell f].

Definition with_tools (b : bool) (f : features) : features :=
  {| ft_tools := b; ft_git := ft_git f; ft_probing := ft_probing f; ft_mcp := ft_mcp f; ft_library := ft_library f; ft_checkpoints := ft_checkpoints f;
     ft_fsRead := ft_fsRead f; ft_fsWrite := ft_fsWrite f; ft_shell := ft_shell f; ft_update := ft_update f; ft_externalAgents := ft_externalAgents f;
     ft_toolchain := ft_toolchain f |}.

(** [allowedFeatures]; [tools] is not a key of it and is filled in later. *)
Definition allowedFeatures (report : RuntimeHealthReport) : features :=
  let allow := hr_allow report in
  {| ft_tools := false;
     ft_git := al_git allow && tf_available (hr_git report);
     ft_probing := al_probing allow;
     ft_mcp := al_mcp allow;
     ft_library := al_library allow;
     ft_checkpoints := al_checkpoints allow;
     ft_fsRead := Some (al_fsRead allow);
     ft_fsWrite := Some (al_fsWrite allow);
     ft_shell := Some (al_shell allow);
     ft_update := Some (al_update allow);
     ft_externalAgents := Some (is_true (al_externalAgents allow));
     ft_toolchain := None |}.

Definition terminalOf (report : RuntimeHealthReport) (handshake : option manifest) (implementation : option RuntimeImplementation) : option bool :=
  match hr_terminal report with
  | None => None
  | Some terminal =>
      let implemented :=
        match implementation with
        | Some i => if_terminal (ri_features i)
        | None => default true (handshake ≫= mn_terminal)
        end in
      Some (terminal && implemented)
  end.

Definition implementationCeiling (handshake : option manifest) (implementation : option RuntimeImplementation) : option features :=
  match handshake with
  | None => None
  | Some h =>
      match implementation with
      | None => Some (mn_features h)
      | Some i =>
          let implemented := ri_features i in
          Some {| ft_tools := true; ft_git := if_git implemented; ft_probing := if_probing implemented; ft_mcp := if_mcp implemented;
                  ft_library := if_library implemented; ft_checkpoints := if_checkpoints implemented; ft_fsRead := Some (if_fsRead implemented);
                  ft_fsWrite := Some (if_fsWrite implemented); ft_shell := Some (if_shell implemented); ft_update := Some (if_update implemented);
                  ft_externalAgents := Some (if_externalAgents implemented); ft_toolchain := ft_toolchain (mn_features h) |}
      end
  end.

Definition applyImplementationCeiling (allowed : features) (implemented : option features) : features :=
  match implemented with
  | None => with_tools (effectiveTools allowed) allowed
  | Some i =>
      let effective :=
        {| ft_tools := false;
           ft_git := ft_git allowed && ft_git i;
           ft_probing := ft_probing allowed && ft_probing i;
           ft_mcp := ft_mcp allowed && ft_mcp i;
           ft_library := ft_library allowed && ft_library i;
           ft_checkpoints := ft_checkpoints allowed && ft_checkpoints i;
           ft_fsRead := (fun b => b && not_false (ft_fsRead i)) <$> ft_fsRead allowed;
           ft_fsWrite := (fun b => b && not_false (ft_fsWrite i)) <$> ft_fsWrite allowed;
           ft_shell := (fun b => b && not_false (ft_shell i)) <$> ft_shell allowed;
           ft_update := (fun b => b && not_false (ft_update i)) <$> ft_update allowed;
           ft_externalAgents := (fun b => b && is_true (ft_externalAgents i)) <$> ft_externalAgents allowed;
           ft_toolchain := ft_toolchain i |} in
      with_tools (effectiveTools effective) effective
  end.

Definition SHELL_KINDS : list jstring := [js "bash"; js "zsh"; js "powershell"].

Definition capabilityManifestFromHealth (report : RuntimeHealthReport) (handshake : option manifest) : manifest :=
  let allow := hr_allow report in
  let implementation := acceptedRuntimeImplementation (handshake ≫= mn_implementation) in
  {| mn_platform := hr_platform report;
     mn_arch := hr_arch report;
     mn_pathStyle := if bool_decide (hr_platform report = js "win32") then js "win32" else js "posix";
     mn_homeDir := hr_homeDir report;
     mn_shells := if al_shell allow then List.filter (fun shell => bool_decide (shell ∈ SHELL_KINDS)) (hr_shells report) else [];
     mn_git := hr_git report;
     mn_gh := hr_gh report;
     mn_features := applyImplementationCeiling (allowedFeatures report) (implementationCeiling handshake implementation);
     mn_externalAgents := match hr_targets report with Some (_ :: _) => hr_targets report | _ => None end;
     mn_identityIsolation := hr_identityIsolation report;
     mn_terminal := terminalOf report handshake implementation;
     mn_terminalCloseAfterRevocation := handshake ≫= mn_terminalCloseAfterRevocation;
     mn_terminalLoginArgv := handshake ≫= mn_terminalLoginArgv;
     mn_enforcesPathPolicy := handshake ≫= mn_enforcesPathPolicy;
     mn_publishesWindowsSlot := handshake ≫= mn_publishesWindowsSlot;
     mn_directoryHashDomain := handshake ≫= mn_directoryHashDomain;
     mn_profile := Some (hr_profile report);
     mn_allow := Some allow;
     mn_implementation := implementation |}.

(** ** The hub's isolation claim *)

Inductive HubExternalAgentIsolation : Type := iso_single_user | iso_withdrawn.

Definition without_isolation (m : manifest) : manifest :=
  {| mn_platform := mn_platform m; mn_arch := mn_arch m; mn_pathStyle := mn_pathStyle m; mn_homeDir := mn_homeDir m; mn_shells := mn_shells m;
     mn_git := mn_git m; mn_gh := mn_gh m; mn_features := mn_features m; mn_externalAgents := mn_externalAgents m; mn_identityIsolation := None;
     mn_terminal := mn_terminal m; mn_terminalCloseAfterRevocation := mn_terminalCloseAfterRevocation m; mn_terminalLoginArgv := mn_terminalLoginArgv m;
     mn_enforcesPathPolicy := mn_enforcesPathPolicy m; mn_publishesWindowsSlot := mn_publishesWindowsSlot m;
     mn_directoryHashDomain := mn_directoryHashDomain m; mn_profile := mn_profile m; mn_allow := mn_allow m; mn_implementation := mn_implementation m |}.

Definition applyHubIsolationClaim (m : manifest) (claimed : option HubExternalAgentIsolation) : manifest :=
  match claimed, mn_identityIsolation m with
  | Some iso_withdrawn, Some _ => without_isolation m
  | _, _ => m
  end.

(** ** Reference: one capability at a time *)

Inductive capability : Type := cp_git | cp_probing | cp_mcp | cp_library | cp_checkpoints | cp_fsRead | cp_fsWrite | cp_shell | cp_update | cp_externalAgents | cp_terminal.

(** What the manifest says of it; an absent key reads as its documentation says. *)
Definition offered (c : capability) (m : manifest) : bool :=
  let f := mn_features m in
  match c with
  | cp_git => ft_git f | cp_probing => ft_probing f | cp_mcp => ft_mcp f | cp_library => ft_library f | cp_checkpoints => ft_checkpoints f
  | cp_fsRead => not_false (ft_fsRead f) | cp_fsWrite => not_false (ft_fsWrite f) | cp_shell => not_false (ft_shell f) | cp_update => not_false (ft_update f)
  | cp_externalAgents => is_true (ft_externalAgents f)
  | cp_terminal => is_true (mn_terminal m)
  end.

(** What the report says the machine's owner allowed. Of a terminal the report answers itself, with the consent in it. *)
Definition consented (c : capability) (r : RuntimeHealthReport) : bool :=
  let a := hr_allow r in
  match c with
  | cp_git => al_git a | cp_probing => al_probing a | cp_mcp => al_mcp a | cp_library => al_library a
  | cp_checkpoints => al_checkpoints a | cp_fsRead => al_fsRead a | cp_fsWrite => al_fsWrite a | cp_shell => al_shell a | cp_update => al_update a
  | cp_externalAgents => is_true (al_externalAgents a)
  | cp_terminal => is_true (hr_terminal r)
  end.

(** What the report says the machine has. Only git is looked for: a shell is offered on consent alone, and a machine without
    one says so by an empty list of shells. *)
Definition available (c : capability) (r : RuntimeHealthReport) : bool := match c with cp_git => tf_available (hr_git r) | _ => true end.

(** What the peer said on its hello that it can do. A descriptor the hub can read says what the build implements, whatever the
    consent was; without one, what the hello offered, which folds the consent of that time in; without a hello, nothing
    is known against it. *)
Definition ceiling (c : capability) (handshake : option manifest) : bool :=
  match handshake with
  | None => true
  | Some hello =>
      match acceptedRuntimeImplementation (mn_implementation hello) with
      | Some i =>
          let f := ri_features i in
          match c with
          | cp_git => if_git f | cp_probing => if_probing f | cp_mcp => if_mcp f | cp_library => if_library f | cp_checkpoints => if_checkpoints f
          | cp_fsRead => if_fsRead f | cp_fsWrite => if_fsWrite f | cp_shell => if_shell f | cp_update => if_update f
          | cp_externalAgents => if_externalAgents f | cp_terminal => if_terminal f
          end
      | None => match c with cp_terminal => not_false (mn_terminal hello) | _ => offered c hello end
      end
  end.

Lemma accepted_idem i : acceptedRuntimeImplementation (acceptedRuntimeImplementation i) = acceptedRuntimeImplementation i.
Proof. unfold acceptedRuntimeImplementation. destruct i as [v|]; [|done]. destruct (_ && _) eqn:E1; [|done]. destruct (_ =? _) eqn:E2; [|done]. by rewrite E1, E2. Qed.

Lemma is_true_Some b : is_true (Some b) = b.
Proof. by destruct b. Qed.
Lemma not_false_Some b : not_false (Some b) = b.
Proof. by destruct b. Qed.

Lemma rebuilt_offer c r handshake :
  offered c (capabilityManifestFromHealth r handshake) = consented c r && available c r && ceiling c handshake.
Proof.
  unfold ceiling, capabilityManifestFromHealth, terminalOf. destruct handshake as [hello|]; cbn [mbind option_bind].
  - destruct (acceptedRuntimeImplementation (mn_implementation hello)) as [i|], c; cbn -[is_true not_false];
      rewrite ?is_true_Some, ?not_false_Some, ?andb_true_r; try done.
    all: destruct (hr_terminal r); rewrite ?is_true_Some; [|done]; [..|destruct (mn_terminal hello)]; by rewrite ?not_false_Some.
  - destruct c; cbn -[is_true not_false]; rewrite ?is_true_Some, ?not_false_Some, ?andb_true_r; try done.
    destruct (hr_terminal r); cbn; by rewrite ?andb_true_r.
Qed.

(** A ceiling taken from the result of applying one is no new restriction. *)
Lemma ceiling_idem a i : ft_fsRead a <> None -> ft_fsWrite a <> None -> ft_shell a <> None -> ft_update a <> None -> ft_externalAgents a <> None ->
  applyImplementationCeiling a (Some (applyImplementationCeiling a i)) = applyImplementationCeiling a i.
Proof.
  intros. unfold applyImplementationCeiling.
  destruct i as [i|], a as [t g p m l c [] [] [] [] [] tc]; try done; unfold with_tools, effectiveTools;
    cbn -[is_true not_false]; rewrite ?is_true_Some, ?not_false_Some, ?andb_assoc, ?andb_diag; done.
Qed.

Lemma rebuild_idem r handshake : let m := capabilityManifestFromHealth r handshake in capabilityManifestFromHealth r (Some m) = m.
Proof.
  intros m. set (i := acceptedRuntimeImplementation (handshake ≫= mn_implementation)).
  assert (Ei : acceptedRuntimeImplementation (mn_implementation m) = i) by apply accepted_idem.
  assert (Ef : mn_features (capabilityManifestFromHealth r (Some m)) = mn_features m).
  { unfold capabilityManifestFromHealth at 1. cbn [mbind option_bind mn_features]. rewrite Ei. subst m. unfold capabilityManifestFromHealth. cbn [mbind option_bind mn_features].
    destruct handshake as [hello|]; cbn [mbind option_bind] in *; [|by apply ceiling_idem]. fold i. destruct i; [done|]. by apply ceiling_idem. }
  assert (Et : mn_terminal (capabilityManifestFromHealth r (Some m)) = mn_terminal m).
  { unfold capabilityManifestFromHealth at 1. cbn [mbind option_bind mn_terminal]. rewrite Ei. subst m. unfold terminalOf, capabilityManifestFromHealth. cbn.
    fold i. unfold terminalOf. destruct i; [done|]. cbn. destruct (hr_terminal r) as [t|]; [|done]. cbn. by rewrite andb_assoc, andb_diag. }
  unfold capabilityManifestFromHealth at 1. unfold capabilityManifestFromHealth at 1 in Ef. unfold capabilityManifestFromHealth at 1 in Et.
  cbn [mbind option_bind mn_features mn_terminal] in *. rewrite Ef, Et, Ei. done.
Qed.

(** Once a descriptor was read, what the last report said is no ceiling for the next. *)
Lemma rebuild_readable r r' handshake i :
  acceptedRuntimeImplementation (handshake ≫= mn_implementation) = Some i ->
  capabilityManifestFromHealth r' (Some (capabilityManifestFromHealth r handshake)) = capabilityManifestFromHealth r' handshake.
Proof.
  intros Hi. destruct handshake as [hello|]; [|done]. cbn [mbind option_bind] in Hi.
  assert (acceptedRuntimeImplementation (Some i) = Some i) as Hj by by rewrite <-Hi, accepted_idem.
  unfold capabilityManifestFromHealth. cbn [mbind option_bind mn_implementation]. rewrite Hi. rewrite Hj. unfold terminalOf. reflexivity.
Qed.

