(* ===== verification/LocalConnector.v ===== *)
(** * The Local runtime connector

    [createLocalRuntimeConnector] of [apps/api/src/services/runtime-client/runtime-connection-manager.ts]: who the hub's own
    OS account is attested to. An attempt is numbered in the order of the calls; each stretch of code between two awaits is a
    function, and the answer of an awaited call is an input, so attempts interleave as the chain's deadline lets them. *)

From S2P Require Import Prelude TerminalSessions RuntimeManifest.

(** ** State *)

(** [LocalCredentialClaim] *)
Record LocalCredentialClaim : Type := { cl_userId : jstring; cl_withdrawn : bool }.

(** Where an attempt is. [opening] remembers whether it asked for a withdrawn attestation, [revoking] the closes it waits
    for, the attested connections it saw and whether a close failed. *)
Inductive local_stage : Type :=
| lw_waiting
| lw_revoking (pending attested : list nat) (failed : bool)
| lw_opening (withdrawn : bool)
| lw_stand_in
| lw_closing
| lw_settled (handed : option bool).

Record LocalAttempt : Type := {
  lt_definitionId : jstring;
  lt_userId : jstring;
  lt_stage : local_stage;
  lt_released : bool;
}.

(** [ownerUserId], [multipleOwners], [claims], [active] and the chain. A claim and an active entry are named by the attempt
    that made them; an entry carries its [identityAttested]. *)
Record local_connector : Type := {
  lc_ownerUserId : option jstring;
  lc_multipleOwners : bool;
  lc_claims : gmap nat LocalCredentialClaim;
  lc_active : list (nat * bool);
  lc_attempts : gmap nat LocalAttempt;
  lc_next : nat;
}.

Definition new_connector : local_connector :=
  {| lc_ownerUserId := None; lc_multipleOwners := false; lc_claims := ∅; lc_active := []; lc_attempts := ∅; lc_next := 0 |}.

Definition with_claims (x : gmap nat LocalCredentialClaim) (c : local_connector) : local_connector :=
  {| lc_ownerUserId := lc_ownerUserId c; lc_multipleOwners := lc_multipleOwners c; lc_claims := x; lc_active := lc_active c;
     lc_attempts := lc_attempts c; lc_next := lc_next c |}.
Definition with_active (x : list (nat * bool)) (c : local_connector) : local_connector :=
  {| lc_ownerUserId := lc_ownerUserId c; lc_multipleOwners := lc_multipleOwners c; lc_claims := lc_claims c; lc_active := x;
     lc_attempts := lc_attempts c; lc_next := lc_next c |}.
Definition with_attempts (x : gmap nat LocalAttempt) (c : local_connector) : local_connector :=
  {| lc_ownerUserId := lc_ownerUserId c; lc_multipleOwners := lc_multipleOwners c; lc_claims := lc_claims c; lc_active := lc_active c;
     lc_attempts := x; lc_next := lc_next c |}.
Definition with_owner (o : option jstring) (c : local_connector) : local_connector :=
  {| lc_ownerUserId := o; lc_multipleOwners := lc_multipleOwners c; lc_claims := lc_claims c; lc_active := lc_active c;
     lc_attempts := lc_attempts c; lc_next := lc_next c |}.
Definition with_multiple (b : bool) (c : local_connector) : local_connector :=
  {| lc_ownerUserId := lc_ownerUserId c; lc_multipleOwners := b; lc_claims := lc_claims c; lc_active := lc_active c;
     lc_attempts := lc_attempts c; lc_next := lc_next c |}.

Definition at_stage (s : local_stage) (a : LocalAttempt) : LocalAttempt :=
  {| lt_definitionId := lt_definitionId a; lt_userId := lt_userId a; lt_stage := s; lt_released := lt_released a |}.
Definition release_link (a : LocalAttempt) : LocalAttempt :=
  {| lt_definitionId := lt_definitionId a; lt_userId := lt_userId a; lt_stage := lt_stage a; lt_released := true |}.

Definition set_stage (k : nat) (s : local_stage) (c : local_connector) : local_connector :=
  with_attempts (alter (at_stage s) k (lc_attempts c)) c.

(** What the connector does: opens, closes, tells of a loss, settles an attempt. *)
Inductive local_effect : Type :=
| LeOpen (attempt : nat) (user : jstring) (withdrawn : bool)
| LeClose (attempt : nat)
| LeUnavailable (attempt : nat)
| LeSettled (attempt : nat) (handed : option bool).

Definition STAND_IN_USER_ID : jstring := js "local".

(** ** Operations *)

(** The connector is called; [attempt] is behind the chain's last link. *)
Definition local_connect (definitionId userId : jstring) (c : local_connector) : local_connector :=
  {| lc_ownerUserId := lc_ownerUserId c; lc_multipleOwners := lc_multipleOwners c; lc_claims := lc_claims c; lc_active := lc_active c;
     lc_attempts := <[lc_next c := {| lt_definitionId := definitionId; lt_userId := userId; lt_stage := lw_waiting; lt_released := false |}]> (lc_attempts c);
     lc_next := S (lc_next c) |}.

(** [advanceChainAfter]: the link's timer fires. *)
Definition chain_deadline (k : nat) (c : local_connector) : local_connector := with_attempts (alter release_link k (lc_attempts c)) c.

(** The attempt settles: its claim goes, its link is released. *)
Definition settle_attempt (k : nat) (handed : option bool) (c : local_connector) : local_connector * list local_effect :=
  (with_claims (delete k (lc_claims c)) (with_attempts (alter (fun a => release_link (at_stage (lw_settled handed) a)) k (lc_attempts c)) c),
   [LeSettled k handed]).

Definition hasOtherOwner (userId : jstring) (c : local_connector) : bool :=
  match lc_ownerUserId c with Some o => negb (bool_decide (o = userId)) | None => false end
  || existsb (fun p => negb (bool_decide (cl_userId p.2 = userId))) (map_to_list (lc_claims c)).

(** The link before the attempt's is released. *)
Definition link_released (k : nat) (c : local_connector) : bool :=
  match k with
  | O => true
  | S j => match lc_attempts c !! j with Some a => lt_released a | None => false end
  end.

(** [admit] up to its open. *)
Definition admit_open (k : nat) (user : jstring) (c : local_connector) : local_connector * list local_effect :=
  match lc_claims c !! k with
  | None => (c, [])
  | Some claim => (set_stage k (lw_opening (cl_withdrawn claim)) c, [LeOpen k user (cl_withdrawn claim)])
  end.

(** [withdrawAttestation] up to its await *)
Definition withdrawAttestation (k : nat) (c : local_connector) : local_connector * list local_effect :=
  let claims := (fun x => {| cl_userId := cl_userId x; cl_withdrawn := true |}) <$> lc_claims c in
  let attested := map fst (List.filter snd (lc_active c)) in
  (set_stage k (lw_revoking attested attested false) (with_claims claims c), map LeClose attested).

(** The chain reaches the attempt. *)
Definition local_start (k : nat) (c : local_connector) : local_connector * list local_effect :=
  match lc_attempts c !! k with
  | None => (c, [])
  | Some a =>
      match lt_stage a with
      | lw_waiting =>
          if negb (link_released k c) then (c, [])
          else if negb (bool_decide (lt_definitionId a = LOCAL_ENVIRONMENT_ID)) then settle_attempt k None c
          else if negb (truthy (Some (lt_userId a))) then settle_attempt k None c
          else if bool_decide (lt_userId a = STAND_IN_USER_ID) then (set_stage k lw_stand_in c, [LeOpen k (lt_userId a) true])
          else
            let c := if hasOtherOwner (lt_userId a) c then with_multiple true c else c in
            let claim := {| cl_userId := lt_userId a; cl_withdrawn := lc_multipleOwners c |} in
            let c := with_claims (<[k := claim]> (lc_claims c)) c in
            if lc_multipleOwners c then withdrawAttestation k c else admit_open k (lt_userId a) c
      | _ => (c, [])
      end
  end.

(** One of the closes of [withdrawAttestation] settled. *)
Definition revoke_closed (k j : nat) (ok : bool) (c : local_connector) : local_connector * list local_effect :=
  match lc_attempts c !! k with
  | Some a =>
      match lt_stage a with
      | lw_revoking pending attested failed =>
          if bool_decide (j ∈ pending)
          then (set_stage k (lw_revoking (List.filter (fun i => negb (bool_decide (i = j))) pending) attested (failed || negb ok)) c, [LeUnavailable j])
          else (c, [])
      | _ => (c, [])
      end
  | None => (c, [])
  end.

(** All of them have: the attempt fails, or goes on to open. *)
Definition revoke_over (k : nat) (c : local_connector) : local_connector * list local_effect :=
  match lc_attempts c !! k with
  | Some a =>
      match lt_stage a with
      | lw_revoking [] attested failed =>
          if failed then settle_attempt k None c
          else admit_open k (lt_userId a) (with_active (List.filter (fun p => negb (bool_decide (p.1 ∈ attested))) (lc_active c)) c)
      | _ => (c, [])
      end
  | None => (c, [])
  end.

(** [identityAttested]: the client's manifest is the runtime's, less what the hub asked it to withdraw. *)
Definition identity_attested (asked : HubExternalAgentIsolation) (m : manifest) : bool :=
  match mn_identityIsolation (applyHubIsolationClaim m (Some asked)) with Some _ => true | None => false end.

(** The open settled, with a connection and the manifest its runtime announced, or not. *)
Definition local_opened (k : nat) (answer : option manifest) (c : local_connector) : local_connector * list local_effect :=
  match lc_attempts c !! k with
  | Some a =>
      match lt_stage a, answer with
      | lw_stand_in, Some _ => settle_attempt k (Some false) c
      | lw_stand_in, None | lw_opening _, None => settle_attempt k None c
      | lw_opening withdrawn, Some m =>
          match lc_claims c !! k with
          | None => (c, [])
          | Some claim =>
              if negb withdrawn && cl_withdrawn claim then (set_stage k lw_closing c, [LeClose k])
              else
                let attested := identity_attested (if withdrawn then iso_withdrawn else iso_single_user) m in
                let c := with_owner (Some (default (lt_userId a) (lc_ownerUserId c))) c in
                settle_attempt k (Some attested) (with_active (lc_active c ++ [(k, attested)]) c)
          end
      | _, _ => (c, [])
      end
  | None => (c, [])
  end.

(** The close of a connection whose claim was withdrawn settled. *)
Definition local_discarded (k : nat) (c : local_connector) : local_connector * list local_effect :=
  match lc_attempts c !! k with
  | Some a => match lt_stage a with lw_closing => settle_attempt k None c | _ => (c, []) end
  | None => (c, [])
  end.

(** [close] of a connection that was handed out *)
Definition local_close (k : nat) (c : local_connector) : local_connector * list local_effect :=
  match lc_attempts c !! k with
  | Some a =>
      match lt_stage a with
      | lw_settled (Some _) => (with_active (List.filter (fun p => negb (bool_decide (p.1 = k))) (lc_active c)) c, [LeClose k])
      | _ => (c, [])
      end
  | None => (c, [])
  end.

(** ** Runs *)

Inductive local_op : Type :=
| LConnect (definitionId userId : jstring)
| LDeadline (k : nat)
| LStart (k : nat)
| LRevokeClosed (k j : nat) (ok : bool)
| LRevokeOver (k : nat)
| LOpened (k : nat) (answer : option manifest)
| LDiscarded (k : nat)
| LClose (k : nat).

Definition local_step (o : local_op) (c : local_connector) : local_connector * list local_effect :=
  match o with
  | LConnect definitionId userId => (local_connect definitionId userId c, [])
  | LDeadline k => (chain_deadline k c, [])
  | LStart k => local_start k c
  | LRevokeClosed k j ok => revoke_closed k j ok c
  | LRevokeOver k => revoke_over k c
  | LOpened k answer => local_opened k answer c
  | LDiscarded k => local_discarded k c
  | LClose k => local_close k c
  end.

Definition local_run (os : list local_op) (c : local_connector) : local_connector :=
  fold_left (fun c o => (local_step o c).1) os c.
