(* ===== verification/LocalConnectorFacts.v ===== *)
(** * The Local runtime connector: the attestation is exclusive *)

From S2P Require Import Prelude TerminalSessions RuntimeManifest LocalConnector.

(** ** The invariant *)

Definition holds_claim (s : local_stage) : bool := match s with lw_revoking _ _ _ | lw_opening _ | lw_closing => true | _ => false end.

Definition attested (j : nat) (c : local_connector) : Prop := (j, true) ∈ lc_active c.

Definition user_of (k : nat) (c : local_connector) : option jstring := lt_userId <$> lc_attempts c !! k.

Record lc_inv (c : local_connector) : Prop := {
  li_next : forall k a, lc_attempts c !! k = Some a -> (k < lc_next c)%nat;
  li_claims : forall k, is_Some (lc_claims c !! k) <-> exists a, lc_attempts c !! k = Some a /\ holds_claim (lt_stage a) = true;
  li_user : forall k cl a, lc_claims c !! k = Some cl -> lc_attempts c !! k = Some a -> cl_userId cl = lt_userId a;
  li_one : lc_multipleOwners c = false -> forall k cl, lc_claims c !! k = Some cl -> cl_withdrawn cl = false /\
    (forall o, lc_ownerUserId c = Some o -> cl_userId cl = o) /\ forall k' cl', lc_claims c !! k' = Some cl' -> cl_userId cl' = cl_userId cl;
  li_all : lc_multipleOwners c = true -> forall k cl, lc_claims c !! k = Some cl -> cl_withdrawn cl = true;
  li_active : forall j b, (j, b) ∈ lc_active c -> exists a, lc_attempts c !! j = Some a /\ lt_stage a = lw_settled (Some b);
  li_owner : forall j a, attested j c -> lc_attempts c !! j = Some a -> lc_ownerUserId c = Some (lt_userId a);
  li_opening : forall k a, lc_attempts c !! k = Some a -> lt_stage a = lw_opening true -> lc_multipleOwners c = true /\ forall j, ~ attested j c;
  li_revoking : forall k a p att f, lc_attempts c !! k = Some a -> lt_stage a = lw_revoking p att f ->
    lc_multipleOwners c = true /\ forall j, attested j c -> j ∈ att;
  li_single : forall k a, lc_attempts c !! k = Some a -> lt_stage a = lw_opening false \/ lt_stage a = lw_closing ->
    (lt_stage a = lw_closing -> lc_multipleOwners c = true) /\ forall j, attested j c -> user_of j c = Some (lt_userId a);
  li_handed : forall k a b, lc_attempts c !! k = Some a -> lt_stage a = lw_settled (Some b) -> lt_userId a <> STAND_IN_USER_ID ->
    lc_ownerUserId c = Some (lt_userId a) \/ lc_multipleOwners c = true /\ forall j, ~ attested j c;
  li_stand_in : forall k a, lc_attempts c !! k = Some a -> lt_stage a = lw_stand_in -> lt_userId a = STAND_IN_USER_ID;
}.

(** ** What one attempt's change leaves of it *)

Lemma alter_attempt c k f j a' : alter f k (lc_attempts c) !! j = Some a' ->
  j = k /\ (exists a, lc_attempts c !! k = Some a /\ a' = f a) \/ j <> k /\ lc_attempts c !! j = Some a'.
Proof.
  destruct (decide (k = j)) as [->|]; [rewrite lookup_alter_eq|rewrite lookup_alter_ne by done; auto].
  destruct (lc_attempts c !! j) eqn:E; cbn; [|done]. intros; simplify_eq. eauto.
Qed.

(** A new state in terms of the old one: one attempt moves to stage [s], attested connections only go, the owner stays
    unless there was none. *)
Record shift (k : nat) (s : local_stage) (c c' : local_connector) : Prop := {
  sf_attempts : exists f, lc_attempts c' = alter f k (lc_attempts c) /\ forall a, lt_userId (f a) = lt_userId a /\ lt_stage (f a) = s;
  sf_next : lc_next c' = lc_next c;
  sf_attested : forall j, attested j c' -> attested j c;
  sf_active : forall p, p ∈ lc_active c' -> p ∈ lc_active c;
  sf_owner : lc_ownerUserId c' = lc_ownerUserId c;
  sf_multiple : lc_multipleOwners c = true -> lc_multipleOwners c' = true;
}.

Lemma shift_other k s c c' j a : shift k s c c' -> lc_attempts c' !! j = Some a -> j <> k -> lc_attempts c !! j = Some a.
Proof. intros [(f & -> & _) _ _ _ _ _] Hj Hn. by rewrite lookup_alter_ne in Hj by done. Qed.

Lemma shift_self k s c c' a : shift k s c c' -> lc_attempts c' !! k = Some a -> exists a0, lc_attempts c !! k = Some a0 /\ lt_userId a = lt_userId a0 /\ lt_stage a = s.
Proof.
  intros [(f & -> & Hf) _ _ _ _ _] Hj. rewrite lookup_alter_eq in Hj. destruct (lc_attempts c !! k) as [a0|]; cbn in Hj; simplify_eq.
  exists a0. split; [done|]. apply Hf.
Qed.

Lemma shift_user k s c c' j : shift k s c c' -> user_of j c' = user_of j c.
Proof.
  intros [(f & Hf & Hu) _ _ _ _ _]. unfold user_of. rewrite Hf. destruct (decide (k = j)) as [->|]; [rewrite lookup_alter_eq|by rewrite lookup_alter_ne by done].
  destruct (lc_attempts c !! j); cbn; [f_equal; apply Hu|done].
Qed.

(** The parts of the invariant about the other attempts hold again; those about claims and attempt [k] are what is to show. *)
Lemma shift_inv k s a0 c c' : lc_inv c -> shift k s c c' -> lc_attempts c !! k = Some a0 -> (forall b, lt_stage a0 <> lw_settled (Some b)) ->
  (forall j, is_Some (lc_claims c' !! j) <-> exists a, lc_attempts c' !! j = Some a /\ holds_claim (lt_stage a) = true) ->
  (forall j cl a, lc_claims c' !! j = Some cl -> lc_attempts c' !! j = Some a -> cl_userId cl = lt_userId a) ->
  (lc_multipleOwners c' = false -> forall j cl, lc_claims c' !! j = Some cl -> cl_withdrawn cl = false /\
    (forall o, lc_ownerUserId c' = Some o -> cl_userId cl = o) /\ forall j' cl', lc_claims c' !! j' = Some cl' -> cl_userId cl' = cl_userId cl) ->
  (lc_multipleOwners c' = true -> forall j cl, lc_claims c' !! j = Some cl -> cl_withdrawn cl = true) ->
  match s with
  | lw_opening true => lc_multipleOwners c' = true /\ forall j, ~ attested j c'
  | lw_revoking _ att _ => lc_multipleOwners c' = true /\ forall j, attested j c' -> j ∈ att
  | lw_opening false => forall j, attested j c' -> user_of j c = Some (lt_userId a0)
  | lw_closing => lc_multipleOwners c' = true /\ forall j, attested j c' -> user_of j c = Some (lt_userId a0)
  | lw_settled (Some _) => lt_userId a0 = STAND_IN_USER_ID
  | lw_stand_in => lt_userId a0 = STAND_IN_USER_ID
  | _ => True
  end -> lc_inv c'.
Proof.
  intros I S Hk Hns H1 H2 H3 H4 Hs. pose proof S as [_ Hnext Hatt Hact Hown Hmul].
  assert (Hself : forall j a, lc_attempts c' !! j = Some a -> j = k -> lt_userId a = lt_userId a0 /\ lt_stage a = s).
  { intros j a Hj ->. destruct (shift_self _ _ _ _ _ S Hj) as (a1 & Ha1 & E1 & E2). simplify_eq. auto. }
  assert (Hnatt : (forall j, ~ attested j c) -> forall j, ~ attested j c') by (intros Hn j Hj; by eapply Hn, Hatt).
  constructor; try done.
  - intros j a Hj. rewrite Hnext. destruct (decide (j = k)) as [->|]; [by eapply li_next|]. eapply li_next; [done|]. by eapply shift_other.
  - intros j b Hj. destruct (li_active _ I j b (Hact _ Hj)) as (a & Ha & Hst). assert (j <> k) by (intros ->; simplify_eq; by eapply Hns).
    exists a. split; [|done]. destruct S as [(f & -> & _) _ _ _ _ _]. by rewrite lookup_alter_ne.
  - intros j a Hj Ha. rewrite Hown. destruct (decide (j = k)) as [->|].
    + destruct (li_active _ I k true (Hatt _ Hj)) as (a1 & Ha1 & Hst). simplify_eq. by destruct (Hns true).
    + eapply li_owner; [done|by apply Hatt|]. by eapply shift_other.
  - intros j a Hj Hst. destruct (decide (j = k)) as [->|]; [destruct (Hself _ _ Hj eq_refl) as [_ E]; rewrite Hst in E; by subst s|].
    destruct (li_opening _ I j a (shift_other _ _ _ _ _ _ S Hj n) Hst). auto.
  - intros j a p att f Hj Hst. destruct (decide (j = k)) as [->|]; [destruct (Hself _ _ Hj eq_refl) as [_ E]; rewrite Hst in E; by subst s|].
    destruct (li_revoking _ I j a p att f (shift_other _ _ _ _ _ _ S Hj n) Hst). auto.
  - intros j a Hj Hst. destruct (decide (j = k)) as [->|].
    + destruct (Hself _ _ Hj eq_refl) as [Eu E]. rewrite Eu. destruct Hst as [Hst|Hst]; rewrite Hst in E; subst s.
      * split; [congruence|]. intros i Hi. rewrite (shift_user _ _ _ _ i S). by apply Hs.
      * destruct Hs as [Hs1 Hs2]. split; [done|]. intros i Hi. rewrite (shift_user _ _ _ _ i S). by apply Hs2.
    + destruct (li_single _ I j a (shift_other _ _ _ _ _ _ S Hj n) Hst) as [P1 P2]. split; [auto|].
      intros i Hi. rewrite (shift_user _ _ _ _ i S). auto.
  - intros j a b Hj Hst Hu. rewrite Hown. destruct (decide (j = k)) as [->|].
    + destruct (Hself _ _ Hj eq_refl) as [Eu E]. rewrite Hst in E. subst s. congruence.
    + destruct (li_handed _ I j a b (shift_other _ _ _ _ _ _ S Hj n) Hst Hu) as [|[? ?]]; auto.
  - intros j a Hj Hst. destruct (decide (j = k)) as [->|].
    + destruct (Hself _ _ Hj eq_refl) as [Eu E]. rewrite Hst in E. subst s. congruence.
    + eapply li_stand_in; [done| |done]. by eapply shift_other.
Qed.

Lemma shift_lookup k s c c' j : shift k s c c' -> j <> k -> lc_attempts c' !! j = lc_attempts c !! j.
Proof. intros [(f & -> & _) _ _ _ _ _] Hn. by rewrite lookup_alter_ne. Qed.

(** The claims follow the attempts' stages. *)
Lemma claims_follow k s a0 c c' : lc_inv c -> shift k s c c' -> lc_attempts c !! k = Some a0 ->
  (forall j, j <> k -> is_Some (lc_claims c' !! j) <-> is_Some (lc_claims c !! j)) -> (is_Some (lc_claims c' !! k) <-> holds_claim s = true) ->
  forall j, is_Some (lc_claims c' !! j) <-> exists a, lc_attempts c' !! j = Some a /\ holds_claim (lt_stage a) = true.
Proof.
  intros I S Hk Hc Hck j. destruct (decide (j = k)) as [->|].
  - rewrite Hck. destruct S as [(f & -> & Hf) _ _ _ _ _]. rewrite lookup_alter_eq, Hk. cbn. destruct (Hf a0) as [_ E].
    split; [intros; eexists; split; [done|]; by rewrite E|]. intros (a & Ha & Hh). injection Ha as <-. by rewrite E in Hh.
  - rewrite Hc, (shift_lookup _ _ _ _ _ S) by done. apply (li_claims _ I).
Qed.

Lemma shift_attempt k s c c' j a : shift k s c c' -> lc_attempts c' !! j = Some a -> exists a1, lc_attempts c !! j = Some a1 /\ lt_userId a = lt_userId a1.
Proof.
  intros S Hj. destruct (decide (j = k)) as [->|]; [destruct (shift_self _ _ _ _ _ S Hj) as (a1 & ? & ? & _); eauto|].
  exists a. split; [by eapply shift_other|done].
Qed.

(** A change that leaves claims and owners alone. *)
Lemma stage_inv k s a0 c c' : lc_inv c -> shift k s c c' -> lc_attempts c !! k = Some a0 -> holds_claim (lt_stage a0) = holds_claim s ->
  (forall b, lt_stage a0 <> lw_settled (Some b)) -> lc_claims c' = lc_claims c -> lc_multipleOwners c' = lc_multipleOwners c ->
  match s with
  | lw_opening true => lc_multipleOwners c' = true /\ forall j, ~ attested j c'
  | lw_revoking _ att _ => lc_multipleOwners c' = true /\ forall j, attested j c' -> j ∈ att
  | lw_opening false => forall j, attested j c' -> user_of j c = Some (lt_userId a0)
  | lw_closing => lc_multipleOwners c' = true /\ forall j, attested j c' -> user_of j c = Some (lt_userId a0)
  | lw_settled (Some _) => lt_userId a0 = STAND_IN_USER_ID
  | lw_stand_in => lt_userId a0 = STAND_IN_USER_ID
  | _ => True
  end -> lc_inv c'.
Proof.
  intros I S Hk Hh Hns Hcl Hm Hs. eapply shift_inv; [done..| | | | |done].
  - eapply claims_follow; [done..| |]; rewrite Hcl; [done|]. rewrite (li_claims _ I), <- Hh. split; [intros (a & ? & ?); by simplify_eq|eauto].
  - rewrite Hcl. intros j cl a Hj Ha. destruct (shift_attempt _ _ _ _ _ _ S Ha) as (a1 & Ha1 & ->). by eapply li_user.
  - rewrite Hm, Hcl, (sf_owner _ _ _ _ S). apply (li_one _ I).
  - rewrite Hm, Hcl. apply (li_all _ I).
Qed.

Lemma settle_shift k handed c : shift k (lw_settled handed) c (settle_attempt k handed c).1.
Proof. constructor; cbn; try done. eexists. split; [done|]. by split. Qed.

(** Settling without a connection, or for the stand-in. *)
Lemma settle_attempt_inv k handed a0 c : lc_inv c -> lc_attempts c !! k = Some a0 -> (forall b, lt_stage a0 <> lw_settled (Some b)) ->
  (handed = None \/ lt_userId a0 = STAND_IN_USER_ID) -> lc_inv (settle_attempt k handed c).1.
Proof.
  intros I Hk Hns Hh. eapply (shift_inv k (lw_settled handed) a0); [done|apply settle_shift|done|done| | | | |].
  - eapply claims_follow; [done|apply settle_shift|done| |]; cbn.
    + intros j Hj. by rewrite lookup_delete_ne.
    + rewrite lookup_delete_eq. split; [by intros []|done].
  - intros j cl a Hj Ha. destruct (shift_attempt _ _ _ _ _ _ (settle_shift k handed c) Ha) as (a1 & Ha1 & ->).
    cbn in Hj. apply lookup_delete_Some in Hj as [_ Hj]. by eapply li_user.
  - cbn. intros Hm j cl [_ Hj]%lookup_delete_Some. destruct (li_one _ I Hm j cl Hj) as (P1 & P2 & P3). split; [done|]. split; [done|].
    intros j' cl' [_ Hj']%lookup_delete_Some. by eapply P3.
  - cbn. intros Hm j cl [_ Hj]%lookup_delete_Some. by eapply li_all.
  - destruct Hh as [->|]; [done|]. by destruct handed.
Qed.

Lemma hasOtherOwner_false user c : hasOtherOwner user c = false ->
  (forall o, lc_ownerUserId c = Some o -> o = user) /\ forall k cl, lc_claims c !! k = Some cl -> cl_userId cl = user.
Proof.
  unfold hasOtherOwner. rewrite orb_false_iff. intros [H1 H2]. split.
  - intros o Ho. rewrite Ho in H1. apply negb_false_iff, bool_decide_eq_true in H1. done.
  - intros k cl Hk. destruct (decide (cl_userId cl = user)); [done|]. exfalso.
    assert (Hf : existsb (fun p => negb (bool_decide (cl_userId p.2 = user))) (map_to_list (lc_claims c)) = true); [|congruence].
    apply existsb_exists. exists (k, cl). split; [by apply list_elem_of_In, elem_of_map_to_list|]. cbn. by rewrite bool_decide_eq_false_2.
Qed.

Lemma attested_user c j a : lc_inv c -> attested j c -> lc_attempts c !! j = Some a -> user_of j c = lc_ownerUserId c.
Proof. intros I Hj Ha. unfold user_of. rewrite Ha. cbn. by rewrite (li_owner _ I j a Hj Ha). Qed.

Lemma attested_owner c j u : lc_inv c -> (forall o, lc_ownerUserId c = Some o -> o = u) -> attested j c -> user_of j c = Some u.
Proof.
  intros I Ho Hj. destruct (li_active _ I j true Hj) as (a & Ha & _). rewrite (attested_user c j a) by done.
  rewrite (li_owner _ I j a Hj Ha) in *. f_equal. by apply Ho.
Qed.

(** The synchronous part of an attempt that goes on to claim the home. *)
Lemma start_single_inv k a0 c : lc_inv c -> lc_attempts c !! k = Some a0 -> lt_stage a0 = lw_waiting -> lc_multipleOwners c = false ->
  hasOtherOwner (lt_userId a0) c = false ->
  lc_inv (admit_open k (lt_userId a0) (with_claims (<[k := {| cl_userId := lt_userId a0; cl_withdrawn := false |}]> (lc_claims c)) c)).1.
Proof.
  intros I Hk Hst Hm Ho. apply hasOtherOwner_false in Ho as [Ho1 Ho2]. unfold admit_open. cbn. rewrite lookup_insert_eq. cbn.
  set (c' := set_stage _ _ _).
  assert (S : shift k (lw_opening false) c c') by (constructor; cbn; try done; exists (at_stage (lw_opening false)); split; [done|by split]).
  eapply (shift_inv k _ a0); [done|exact S|done|by rewrite Hst| | | | |].
  - eapply claims_follow; [done..| |]; cbn; [intros j Hj; by rewrite lookup_insert_ne|]. rewrite lookup_insert_eq. split; [done|by eexists].
  - cbn. intros j cl a Hj Ha. destruct (shift_attempt _ _ _ _ _ _ S Ha) as (a1 & Ha1 & ->). destruct (decide (k = j)) as [->|].
    + rewrite lookup_insert_eq in Hj. by simplify_eq.
    + rewrite lookup_insert_ne in Hj by done. by eapply li_user.
  - cbn. intros _ j cl Hj. assert (Hcl : cl_userId cl = lt_userId a0 /\ cl_withdrawn cl = false).
    { destruct (decide (k = j)) as [->|]; [rewrite lookup_insert_eq in Hj; by simplify_eq|]. rewrite lookup_insert_ne in Hj by done.
      split; [by eapply Ho2|]. by destruct (li_one _ I Hm j cl Hj). }
    destruct Hcl as [E1 E2]. split; [done|]. split; [intros o Hoo; rewrite E1; symmetry; auto|]. intros j' cl' Hj'. rewrite E1.
    destruct (decide (k = j')) as [->|]; [rewrite lookup_insert_eq in Hj'; by simplify_eq|]. rewrite lookup_insert_ne in Hj' by done. by eapply Ho2.
  - cbn. congruence.
  - cbn. intros j Hj. by apply attested_owner.
Qed.

Lemma attested_filter c j : attested j c <-> j ∈ map fst (List.filter snd (lc_active c)).
Proof.
  unfold attested. induction (lc_active c) as [|[i b] l IH]; cbn; [by rewrite !elem_of_nil|]. rewrite elem_of_cons, IH.
  destruct b; cbn; rewrite ?elem_of_cons; naive_solver.
Qed.

Lemma start_shared_inv k a0 c : lc_inv c -> lc_attempts c !! k = Some a0 -> lt_stage a0 = lw_waiting ->
  lc_inv (withdrawAttestation k (with_claims (<[k := {| cl_userId := lt_userId a0; cl_withdrawn := true |}]> (lc_claims c)) (with_multiple true c))).1.
Proof.
  intros I Hk Hst. set (att := map fst (List.filter snd (lc_active c))). unfold withdrawAttestation. cbn. fold att. set (c' := set_stage _ _ _).
  assert (S : shift k (lw_revoking att att false) c c') by (constructor; cbn; try done; exists (at_stage (lw_revoking att att false)); split; [done|by split]).
  eapply (shift_inv k _ a0); [done|exact S|done|by rewrite Hst| | | | |].
  - eapply claims_follow; [done..| |]; cbn.
    + intros j Hj. by rewrite lookup_fmap, fmap_is_Some, lookup_insert_ne.
    + rewrite lookup_fmap, fmap_is_Some, lookup_insert_eq. split; [done|by eexists].
  - cbn. intros j cl a Hj Ha. destruct (shift_attempt _ _ _ _ _ _ S Ha) as (a1 & Ha1 & ->).
    rewrite lookup_fmap in Hj. apply fmap_Some in Hj as (cl0 & Hj & ->). cbn. destruct (decide (k = j)) as [->|].
    + rewrite lookup_insert_eq in Hj. by simplify_eq.
    + rewrite lookup_insert_ne in Hj by done. by eapply li_user.
  - done.
  - cbn. intros _ j cl Hj. rewrite lookup_fmap in Hj. by apply fmap_Some in Hj as (cl0 & Hj & ->).
  - cbn. split; [done|]. intros j Hj. by apply attested_filter.
Qed.

(** ** Every step *)

Lemma local_start_inv k c : lc_inv c -> lc_inv (local_start k c).1.
Proof.
  intros I. unfold local_start. destruct (lc_attempts c !! k) as [a|] eqn:Hk; [|done]. destruct (lt_stage a) eqn:Hst; try done.
  assert (Hns : forall b, lt_stage a <> lw_settled (Some b)) by (by rewrite Hst).
  destruct (negb (link_released k c)); [done|]. destruct (negb (bool_decide (lt_definitionId a = _))); [by eapply settle_attempt_inv; eauto|].
  destruct (negb (truthy _)); [by eapply settle_attempt_inv; eauto|].
  case_bool_decide as Hsi.
  { eapply (stage_inv k lw_stand_in a); [done| |done|by rewrite Hst|done..]. constructor; cbn; try done. exists (at_stage lw_stand_in). split; [done|by split]. }
  cbv zeta. destruct (hasOtherOwner (lt_userId a) c) eqn:Ho; cbn [lc_multipleOwners with_multiple].
  - exact (start_shared_inv k a c I Hk Hst).
  - destruct (lc_multipleOwners c) eqn:Hm.
    + pose proof (start_shared_inv k a c I Hk Hst) as H. assert (E : with_multiple true c = c) by (destruct c; cbn in Hm; by subst).
      rewrite E in H. cbn. by rewrite Hm.
    + cbn [lc_multipleOwners with_claims]. rewrite Hm. by apply start_single_inv.
Qed.

Lemma revoke_closed_inv k j ok c : lc_inv c -> lc_inv (revoke_closed k j ok c).1.
Proof.
  intros I. unfold revoke_closed. destruct (lc_attempts c !! k) as [a|] eqn:Hk; [|done]. destruct (lt_stage a) as [|p att f| | | |] eqn:Hst; try done.
  case_bool_decide; [|done]. cbn. set (p' := List.filter _ p). destruct (li_revoking _ I k a p att f Hk Hst).
  eapply (stage_inv k (lw_revoking p' att (f || negb ok)) a); [done| |done|by rewrite Hst|by rewrite Hst|done..].
  constructor; cbn; try done. exists (at_stage (lw_revoking p' att (f || negb ok))). split; [done|by split].
Qed.

Lemma claim_of k c a : lc_inv c -> lc_attempts c !! k = Some a -> holds_claim (lt_stage a) = true -> exists cl, lc_claims c !! k = Some cl /\ cl_userId cl = lt_userId a.
Proof.
  intros I Hk Hh. assert (Hs : is_Some (lc_claims c !! k)) by (apply (li_claims _ I); eauto). destruct Hs as [cl Hcl]. exists cl. split; [done|].
  by eapply li_user.
Qed.

Lemma revoke_over_inv k c : lc_inv c -> lc_inv (revoke_over k c).1.
Proof.
  intros I. unfold revoke_over. destruct (lc_attempts c !! k) as [a|] eqn:Hk; [|done].
  destruct (lt_stage a) as [|[|] att f| | | |] eqn:Hst; try done. destruct f; [eapply settle_attempt_inv; [done..|by rewrite Hst|by left]|].
  destruct (li_revoking _ I k a _ _ _ Hk Hst) as [Hm Hatt]. destruct (claim_of k c a I Hk) as (cl & Hcl & _); [by rewrite Hst|].
  unfold admit_open. cbn. rewrite Hcl, (li_all _ I Hm k cl Hcl). cbn.
  assert (Hsub : forall p, p ∈ List.filter (fun p => negb (bool_decide (p.1 ∈ att))) (lc_active c) -> p ∈ lc_active c /\ p.1 ∉ att).
  { intros p Hp. apply list_elem_of_In, filter_In in Hp as [Hp Hn]. apply negb_true_iff, bool_decide_eq_false in Hn. split; [by apply list_elem_of_In|done]. }
  eapply (stage_inv k (lw_opening true) a); [done| |done|by rewrite Hst|by rewrite Hst|done|done|].
  - constructor; cbn; try done; [exists (at_stage (lw_opening true)); split; [done|by split]| |]; intros j Hj; by apply Hsub in Hj as [? _].
  - split; [done|]. intros j Hj. unfold attested in Hj. cbn in Hj. apply Hsub in Hj as [Hj Hn]. by apply Hn, Hatt.
Qed.

Lemma local_discarded_inv k c : lc_inv c -> lc_inv (local_discarded k c).1.
Proof.
  intros I. unfold local_discarded. destruct (lc_attempts c !! k) as [a|] eqn:Hk; [|done]. destruct (lt_stage a) eqn:Hst; try done.
  eapply settle_attempt_inv; [done..|by rewrite Hst|by left].
Qed.

(** The owner, the flag and the claims stay, connections only go, and attempts keep their users and stages. *)
Lemma inv_shrink c c' : lc_inv c ->
  (forall k, (fun a => (lt_userId a, lt_stage a)) <$> lc_attempts c' !! k = (fun a => (lt_userId a, lt_stage a)) <$> lc_attempts c !! k) ->
  (forall p, p ∈ lc_active c' -> p ∈ lc_active c) -> lc_claims c' = lc_claims c -> lc_ownerUserId c' = lc_ownerUserId c ->
  lc_multipleOwners c' = lc_multipleOwners c -> lc_next c' = lc_next c -> lc_inv c'.
Proof.
  intros I Ha Hact Hcl Hown Hm Hn.
  assert (Hold : forall k a, lc_attempts c' !! k = Some a -> exists a0, lc_attempts c !! k = Some a0 /\ lt_userId a0 = lt_userId a /\ lt_stage a0 = lt_stage a).
  { intros k a Hk. specialize (Ha k). rewrite Hk in Ha. destruct (lc_attempts c !! k) as [a0|]; [|done]. injection Ha as E1 E2. exists a0. auto. }
  assert (Hnew : forall k a, lc_attempts c !! k = Some a -> exists a0, lc_attempts c' !! k = Some a0 /\ lt_userId a0 = lt_userId a /\ lt_stage a0 = lt_stage a).
  { intros k a Hk. specialize (Ha k). rewrite Hk in Ha. destruct (lc_attempts c' !! k) as [a0|]; [|done]. injection Ha as E1 E2. exists a0. auto. }
  assert (Huser : forall j, user_of j c' = user_of j c).
  { intros j. unfold user_of. specialize (Ha j). destruct (lc_attempts c' !! j), (lc_attempts c !! j); cbn in *; simplify_eq; congruence. }
  constructor.
  - intros k a Hk. rewrite Hn. destruct (Hold k a Hk) as (a0 & ? & _). by eapply li_next.
  - intros k. rewrite Hcl, (li_claims _ I). split.
    + intros (a & Hk & Hh). destruct (Hnew k a Hk) as (a0 & ? & _ & E). exists a0. by rewrite E.
    + intros (a & Hk & Hh). destruct (Hold k a Hk) as (a0 & ? & _ & E). exists a0. by rewrite E.
  - rewrite Hcl. intros k cl a Hk Hka. destruct (Hold k a Hka) as (a0 & ? & <- & _). by eapply li_user.
  - rewrite Hm, Hcl, Hown. apply (li_one _ I).
  - rewrite Hm, Hcl. apply (li_all _ I).
  - intros j b Hj. destruct (li_active _ I j b (Hact _ Hj)) as (a & Hk & Hs). destruct (Hnew j a Hk) as (a0 & ? & _ & E). exists a0. by rewrite E.
  - intros j a Hj Hk. rewrite Hown. destruct (Hold j a Hk) as (a0 & ? & <- & _). eapply li_owner; [done|by apply Hact|done].
  - intros k a Hk Hs. rewrite Hm. destruct (Hold k a Hk) as (a0 & Hk0 & _ & E). rewrite <- E in Hs. destruct (li_opening _ I k a0 Hk0 Hs) as [? P].
    split; [done|]. intros j Hj. by eapply P, Hact.
  - intros k a p att f Hk Hs. rewrite Hm. destruct (Hold k a Hk) as (a0 & Hk0 & _ & E). rewrite <- E in Hs. destruct (li_revoking _ I k a0 _ _ _ Hk0 Hs) as [? P].
    split; [done|]. intros j Hj. by eapply P, Hact.
  - intros k a Hk Hs. rewrite Hm. destruct (Hold k a Hk) as (a0 & Hk0 & <- & E). rewrite <- E in *. destruct (li_single _ I k a0 Hk0 Hs) as [P1 P2].
    split; [done|]. intros j Hj. rewrite Huser. by eapply P2, Hact.
  - intros k a b Hk Hs Hu. rewrite Hown, Hm. destruct (Hold k a Hk) as (a0 & Hk0 & Eu & E). rewrite <- E in Hs. rewrite <- Eu in Hu |- *.
    destruct (li_handed _ I k a0 b Hk0 Hs Hu) as [|[? P]]; [by left|right]. split; [done|]. intros j Hj. by eapply P, Hact.
  - intros k a Hk Hs. destruct (Hold k a Hk) as (a0 & Hk0 & <- & E). rewrite <- E in Hs. by eapply li_stand_in.
Qed.

Lemma local_close_inv k c : lc_inv c -> lc_inv (local_close k c).1.
Proof.
  intros I. unfold local_close. repeat case_match; try done. eapply inv_shrink; [done..| |done|done|done|done]. cbn.
  intros p Hp. apply list_elem_of_In, filter_In in Hp as [Hp _]. by apply list_elem_of_In.
Qed.

Lemma chain_deadline_inv k c : lc_inv c -> lc_inv (chain_deadline k c).
Proof.
  intros I. eapply inv_shrink; [done| |done..]. cbn. intros j.
  destruct (decide (k = j)) as [->|]; [rewrite lookup_alter_eq|by rewrite lookup_alter_ne by done]. by destruct (lc_attempts c !! j).
Qed.

Lemma local_connect_inv id user c : lc_inv c -> lc_inv (local_connect id user c).
Proof.
  intros I. set (a0 := {| lt_definitionId := id; lt_userId := user; lt_stage := lw_waiting; lt_released := false |}).
  assert (Hfresh : lc_attempts c !! lc_next c = None).
  { destruct (lc_attempts c !! lc_next c) eqn:E; [|done]. pose proof (li_next _ I _ _ E). lia. }
  assert (HA : forall (P : nat -> LocalAttempt -> Prop), (lt_stage a0 = lw_waiting -> P (lc_next c) a0) -> (forall j a, lc_attempts c !! j = Some a -> P j a) ->
    forall j a, <[lc_next c := a0]> (lc_attempts c) !! j = Some a -> P j a).
  { intros P H1 H2 j a Hj. destruct (decide (lc_next c = j)) as [<-|]; [rewrite lookup_insert_eq in Hj; simplify_eq; by apply H1|].
    rewrite lookup_insert_ne in Hj by done. auto. }
  assert (Hold : forall j a, lc_attempts c !! j = Some a -> <[lc_next c := a0]> (lc_attempts c) !! j = Some a).
  { intros j a Hj. rewrite lookup_insert_ne; [done|]. intros <-. congruence. }
  assert (Huser : forall j u, user_of j c = Some u -> user_of j (local_connect id user c) = Some u).
  { intros j u Hu. unfold user_of in *. cbn. fold a0. destruct (lc_attempts c !! j) as [a|] eqn:E; [|done]. by rewrite (Hold j a E). }
  constructor; cbn [local_connect lc_attempts lc_claims lc_active lc_ownerUserId lc_multipleOwners lc_next]; fold a0; try apply I.
  - refine (HA _ _ _); [lia|]. intros j a Hj. pose proof (li_next _ I j a Hj). lia.
  - intros k. rewrite (li_claims _ I). split; [intros (a & Hk & Hh); eauto|]. intros (a & Hk & Hh).
    destruct (decide (lc_next c = k)) as [<-|]; [rewrite lookup_insert_eq in Hk; by simplify_eq|]. rewrite lookup_insert_ne in Hk by done. eauto.
  - intros k cl a Hk Hka. assert (Hne : lc_next c <> k).
    { intros <-. assert (Hs : is_Some (lc_claims c !! lc_next c)) by eauto. apply (li_claims _ I) in Hs as (? & ? & _). congruence. }
    rewrite lookup_insert_ne in Hka by done. by eapply li_user.
  - intros j b Hj. destruct (li_active _ I j b Hj) as (a & Ha & Hs). eauto.
  - intros j a Hj Ha. destruct (li_active _ I j true Hj) as (a1 & Ha1 & _). rewrite (Hold _ _ Ha1) in Ha. simplify_eq. by eapply li_owner.
  - refine (HA _ _ _); [done|]. apply (li_opening _ I).
  - intros k a p att f Hk. revert k a Hk p att f. refine (HA _ _ _); [done|]. intros j a Hj p att f Hs. by eapply (li_revoking _ I).
  - refine (HA _ _ _); [intros _ [|]; done|]. intros j a Hj Hs. destruct (li_single _ I j a Hj Hs) as [P1 P2]. split; [done|].
    intros i Hi. apply Huser. by apply P2.
  - intros k a b Hk. revert k a Hk b. refine (HA _ _ _); [done|]. intros j a Hj b Hs. by eapply (li_handed _ I).
  - refine (HA _ _ _); [done|]. apply (li_stand_in _ I).
Qed.

(** The attempt is settled with a connection: what the rest of the state has to look like. *)
Lemma hand_out_inv k a0 b c : lc_inv c -> lc_attempts c !! k = Some a0 -> holds_claim (lt_stage a0) = true ->
  (lc_multipleOwners c = true /\ (forall j, ~ attested j c) /\ b = false \/
   lc_multipleOwners c = false /\ default (lt_userId a0) (lc_ownerUserId c) = lt_userId a0 /\ forall j cl, lc_claims c !! j = Some cl -> cl_userId cl = lt_userId a0) ->
  lc_inv (settle_attempt k (Some b) (with_active (lc_active c ++ [(k, b)]) (with_owner (Some (default (lt_userId a0) (lc_ownerUserId c))) c))).1.
Proof.
  intros I Hk Hh Hc. assert (Hns : forall b, lt_stage a0 <> lw_settled (Some b)) by (intros b' E; by rewrite E in Hh).
  set (c' := (settle_attempt _ _ _).1).
  assert (Hatt : forall j, attested j c' -> attested j c \/ j = k /\ b = true).
  { intros j Hj. unfold attested in Hj. cbn in Hj. apply elem_of_app in Hj as [|Hj]; [by left|]. apply list_elem_of_singleton in Hj. right. by simplify_eq. }
  assert (Hother : forall j, j <> k -> lc_attempts c' !! j = lc_attempts c !! j) by (intros; cbn; by rewrite lookup_alter_ne).
  assert (Hself : lc_attempts c' !! k = Some (release_link (at_stage (lw_settled (Some b)) a0))) by (cbn; by rewrite lookup_alter_eq, Hk).
  assert (Hat : forall j a, lc_attempts c' !! j = Some a -> j = k /\ lt_userId a = lt_userId a0 /\ lt_stage a = lw_settled (Some b) \/ j <> k /\ lc_attempts c !! j = Some a).
  { intros j a Hj. destruct (decide (j = k)) as [->|]; [left; rewrite Hself in Hj; by simplify_eq|right; by rewrite Hother in Hj]. }
  assert (Hcl : forall j cl, lc_claims c' !! j = Some cl -> j <> k /\ lc_claims c !! j = Some cl) by (intros j cl Hj; cbn in Hj; apply lookup_delete_Some in Hj as [? ?]; auto).
  constructor.
  - intros j a Hj. change (j < lc_next c)%nat. destruct (Hat j a Hj) as [(-> & _ & _)|[_ Hj']]; by eapply (li_next _ I).
  - intros j. destruct (decide (j = k)) as [->|].
    + rewrite Hself. cbn. rewrite lookup_delete_eq. split; [by intros []|intros (a & ? & ?); by simplify_eq].
    + rewrite Hother by done. cbn. rewrite lookup_delete_ne by done. apply (li_claims _ I).
  - intros j cl a Hj Ha. destruct (Hcl j cl Hj) as [Hn Hj']. rewrite Hother in Ha by done. by eapply li_user.
  - intros Hm j cl Hj. change (lc_multipleOwners c = false) in Hm. destruct (Hcl j cl Hj) as [Hn Hj']. destruct Hc as [(? & _)|(_ & Ho & Hall)]; [congruence|].
    rewrite (Hall j cl Hj'). destruct (li_one _ I Hm j cl Hj') as (P1 & P2 & P3). split; [done|]. cbn. split; [intros o [= <-]; by rewrite Ho|].
    intros j' cl' [_ Hj'']%Hcl. by eapply Hall.
  - intros Hm j cl [_ Hj]%Hcl. by eapply li_all.
  - intros j b' Hj. cbn in Hj. apply elem_of_app in Hj as [Hj|Hj].
    + destruct (li_active _ I j b' Hj) as (a & Ha & Hs). exists a. rewrite Hother; [done|]. intros ->. simplify_eq. by eapply Hns.
    + apply list_elem_of_singleton in Hj. simplify_eq. eauto.
  - intros j a Hj Ha. cbn. destruct (Hatt j Hj) as [Hj'|[-> ->]].
    + destruct (li_active _ I j true Hj') as (a1 & Ha1 & Hs1). destruct (Hat j a Ha) as [(-> & _ & _)|[_ Ha']]; [simplify_eq; by destruct (Hns true)|].
      by rewrite (li_owner _ I j a Hj' Ha').
    + rewrite Hself in Ha. simplify_eq. cbn. destruct Hc as [(_ & _ & ?)|(_ & -> & _)]; done.
  - intros j a Hj Hs. destruct (Hat j a Hj) as [(_ & _ & ?)|[_ Hj']]; [congruence|]. destruct (li_opening _ I j a Hj' Hs) as [Hm Hno].
    destruct Hc as [(_ & _ & ->)|(? & _)]; [|congruence]. split; [done|]. intros i Hi. destruct (Hatt i Hi) as [|[_ ?]]; [by eapply Hno|done].
  - intros j a p att f Hj Hs. destruct (Hat j a Hj) as [(_ & _ & ?)|[_ Hj']]; [congruence|]. destruct (li_revoking _ I j a p att f Hj' Hs) as [Hm Hin].
    destruct Hc as [(_ & _ & ->)|(? & _)]; [|congruence]. split; [done|]. intros i Hi. destruct (Hatt i Hi) as [|[_ ?]]; [by eapply Hin|done].
  - intros j a Hj Hs. destruct (Hat j a Hj) as [(_ & _ & E)|[Hn Hj']]; [destruct Hs; congruence|]. destruct (li_single _ I j a Hj' Hs) as [P1 P2].
    split; [done|]. intros i Hi. unfold user_of. destruct (Hatt i Hi) as [Hi'|[-> ->]].
    + destruct (li_active _ I i true Hi') as (a1 & Ha1 & Hs1). rewrite Hother by (intros ->; simplify_eq; by eapply Hns). by apply P2.
    + rewrite Hself. cbn. f_equal. destruct Hc as [(_ & _ & ?)|(_ & _ & Hall)]; [done|].
      destruct (claim_of j c a I Hj') as (cl & Hcl' & <-); [destruct Hs as [->| ->]; done|]. symmetry. by eapply Hall.
  - intros j a b' Hj Hs Hu. cbn [lc_ownerUserId lc_multipleOwners c' settle_attempt fst with_claims with_attempts with_active with_owner].
    destruct (Hat j a Hj) as [(-> & Eu & _)|[_ Hj']].
    + rewrite Eu. destruct Hc as [(Hm & Hno & ->)|(_ & -> & _)]; [right|by left]. split; [done|].
      intros i Hi. destruct (Hatt i Hi) as [|[_ ?]]; [by eapply Hno|done].
    + destruct (li_handed _ I j a b' Hj' Hs Hu) as [->|[Hm Hno]]; [by left|]. destruct Hc as [(_ & _ & ->)|(? & _)]; [|congruence].
      right. split; [done|]. intros i Hi. destruct (Hatt i Hi) as [|[_ ?]]; [by eapply Hno|done].
  - intros j a Hj Hs. destruct (Hat j a Hj) as [(_ & _ & ?)|[_ Hj']]; [congruence|]. by eapply li_stand_in.
Qed.

Lemma withdrawn_not_attested m : identity_attested iso_withdrawn m = false.
Proof. unfold identity_attested, applyHubIsolationClaim. by destruct (mn_identityIsolation m) eqn:E; [|rewrite E]. Qed.

Lemma local_opened_inv k answer c : lc_inv c -> lc_inv (local_opened k answer c).1.
Proof.
  intros I. unfold local_opened. destruct (lc_attempts c !! k) as [a|] eqn:Hk; [|done].
  destruct (lt_stage a) as [| |w| | |] eqn:Hst; try done; [|destruct answer; eapply settle_attempt_inv; try done; rewrite ?Hst; try done; [right; by eapply li_stand_in|by left]].
  destruct answer as [m|]; [|eapply settle_attempt_inv; [done..|by rewrite Hst|by left]].
  destruct (claim_of k c a I Hk) as (cl & Hcl & Eu); [by rewrite Hst|]. rewrite Hcl.
  destruct (negb w && cl_withdrawn cl) eqn:Hw.
  - apply andb_true_iff in Hw as [Hw1 Hw2]. destruct w; [done|]. destruct (li_single _ I k a Hk (or_introl Hst)) as [_ P].
    eapply (stage_inv k lw_closing a); [done| |done|by rewrite Hst|by rewrite Hst|done|done|].
    + constructor; cbn; try done. exists (at_stage lw_closing). split; [done|by split].
    + split; [|done]. cbn. destruct (lc_multipleOwners c) eqn:Hm; [done|]. destruct (li_one _ I Hm k cl Hcl). congruence.
  - refine (hand_out_inv k a _ c I Hk _ _); [by rewrite Hst|]. destruct w.
    + left. destruct (li_opening _ I k a Hk Hst) as [Hm Hno]. split; [done|]. split; [done|]. apply withdrawn_not_attested.
    + right. cbn in Hw. destruct (lc_multipleOwners c) eqn:Hm; [by rewrite (li_all _ I Hm k cl Hcl) in Hw|].
      destruct (li_one _ I Hm k cl Hcl) as (_ & P2 & P3). split; [done|]. rewrite <- Eu. split; [|done].
      destruct (lc_ownerUserId c) as [o|]; [|done]. cbn. symmetry. by apply P2.
Qed.

Lemma new_connector_inv : lc_inv new_connector.
Proof. constructor; unfold attested; cbn; intros; try (rewrite lookup_empty in *; done); try (by set_solver). split; [by intros []|intros (? & ? & _); done]. Qed.

Lemma local_step_inv o c : lc_inv c -> lc_inv (local_step o c).1.
Proof.
  intros I. destruct o; cbn [local_step fst].
  - by apply local_connect_inv.
  - by apply chain_deadline_inv.
  - by apply local_start_inv.
  - by apply revoke_closed_inv.
  - by apply revoke_over_inv.
  - by apply local_opened_inv.
  - by apply local_discarded_inv.
  - by apply local_close_inv.
Qed.

Lemma local_run_inv os c : lc_inv c -> lc_inv (local_run os c).
Proof. revert c. induction os as [|o os IH]; intros c I; [done|]. by apply IH, local_step_inv. Qed.

(** ** The theorem *)

(** The attempt has no connection of its own, and none on its way. *)
Definition kept_out (s : local_stage) : bool := match s with lw_waiting | lw_revoking _ _ _ | lw_settled None => true | _ => false end.

(** C25: in any interleaving of connects, closes, deadlines and answers, however attempts overlap and whatever the runtimes
    report about themselves, an attested Local connection the connector holds belongs to the only
    real user that has, has had, or is being opened a Local connection: every other authenticated user's attempt still
    waits, is revoking that very attestation, or failed. *)
Theorem attestation_exclusive (os : list local_op) (j : nat) : (j, true) ∈ lc_active (local_run os new_connector) ->
  exists owner, lc_attempts (local_run os new_connector) !! j = Some owner /\
    forall k a, lc_attempts (local_run os new_connector) !! k = Some a -> lt_userId a <> lt_userId owner -> lt_userId a <> STAND_IN_USER_ID ->
      kept_out (lt_stage a) = true /\ (forall pending attested failed, lt_stage a = lw_revoking pending attested failed -> j ∈ attested).
Proof.
  intros Hj. pose proof (local_run_inv os _ new_connector_inv) as I. destruct (li_active _ I j true Hj) as (owner & Hown & _).
  exists owner. split; [done|]. intros k a Hk Hne Hsi. split.
  - assert (Hu : user_of j (local_run os new_connector) = Some (lt_userId owner)) by (unfold user_of; by rewrite Hown).
    destruct (lt_stage a) as [| |[]| | |[b|]] eqn:Hst; try done.
    + destruct (li_opening _ I k a Hk Hst) as [_ Hno]. by destruct (Hno j).
    + destruct (li_single _ I k a Hk (or_introl Hst)) as [_ P]. rewrite (P j Hj) in Hu. congruence.
    + by destruct Hsi; eapply li_stand_in.
    + destruct (li_single _ I k a Hk (or_intror Hst)) as [_ P]. rewrite (P j Hj) in Hu. congruence.
    + destruct (li_handed _ I k a b Hk Hst Hsi) as [Ho|[_ Hno]]; [|by destruct (Hno j)]. rewrite (li_owner _ I j owner Hj Hown) in Ho. congruence.
  - intros p att f Hst. destruct (li_revoking _ I k a p att f Hk Hst) as [_ P]. by apply P.
Qed.

(** A runtime that attests to its credential home. *)
Definition attesting_manifest : manifest :=
  {| mn_platform := js "linux"; mn_arch := js "x64"; mn_pathStyle := js "posix"; mn_homeDir := js "/h"; mn_shells := [js "bash"];
     mn_git := {| tf_available := true; tf_version := None |}; mn_gh := None;
     mn_features := {| ft_tools := true; ft_git := true; ft_probing := true; ft_mcp := true; ft_library := true; ft_checkpoints := true;
                       ft_fsRead := None; ft_fsWrite := None; ft_shell := None; ft_update := None; ft_externalAgents := Some true; ft_toolchain := None |};
     mn_externalAgents := None;
     mn_identityIsolation := Some {| ei_method := js "single-user-host"; ei_credentialHomeFingerprint := js "f" |};
     mn_terminal := None; mn_terminalCloseAfterRevocation := None; mn_terminalLoginArgv := None; mn_enforcesPathPolicy := None;
     mn_publishesWindowsSlot := None; mn_directoryHashDomain := None; mn_profile := None; mn_allow := None; mn_implementation := None |}.

(** One user's open is slow past the chain's deadline, the same user's second attempt is attested, and another user's waits. *)
Definition slow_run : list local_op :=
  [LConnect LOCAL_ENVIRONMENT_ID (js "ana"); LStart 0; LDeadline 0; LConnect LOCAL_ENVIRONMENT_ID (js "ana"); LStart 1;
   LOpened 1 (Some attesting_manifest); LConnect LOCAL_ENVIRONMENT_ID (js "bo"); LStart 2].

Lemma attestation_exclusive_witness : exists owner, lc_attempts (local_run slow_run new_connector) !! 1%nat = Some owner /\ lt_userId owner = js "ana" /\
  exists a, lc_attempts (local_run slow_run new_connector) !! 2%nat = Some a /\ lt_stage a = lw_revoking [1%nat] [1%nat] false /\ kept_out (lt_stage a) = true.
Proof.
  destruct (attestation_exclusive slow_run 1) as (owner & Ho & H); [by vm_compute; left|].
  exists owner. split; [exact Ho|]. vm_compute in Ho. injection Ho as <-. split; [reflexivity|].
  eexists. split; [vm_compute; reflexivity|]. split; [reflexivity|].
  eapply (H 2%nat); [vm_compute; reflexivity|vm_compute; discriminate|vm_compute; discriminate].
Defined.
