(* ===== verification/ConnectionManager.v ===== *)
(** * The runtime connection manager

    [RuntimeConnectionManager] of [apps/api/src/services/runtime-client/runtime-connection-manager.ts]. A step is a public call up to its
    first await, or the continuation of one, with the clock and the answer of what was awaited as inputs; so calls, timers and
    answers interleave freely. What the manager does outside itself is an effect. Two things are settled within the step that
    causes them: the bookkeeping of a teardown's promise, and the rejection that a throw inside an opener leads to. The hooks
    and [close] do not call back into the manager before they return; [publish] may throw where the code catches it. *)

From S2P Require Import Prelude Wire RuntimeManifest.

(** ** Data *)

(** [EnvironmentConnectionState] *)
Inductive EnvironmentConnectionState : Type := cs_disconnected | cs_connecting | cs_connected | cs_error.

Inductive EnvironmentTransportKind : Type := tk_in_process | tk_stdio | tk_wsl | tk_websocket | tk_http | tk_ssh | tk_container.

#[global] Instance state_eq_dec : EqDecision EnvironmentConnectionState.
Proof. solve_decision. Defined.
#[global] Instance kind_eq_dec : EqDecision EnvironmentTransportKind.
Proof. solve_decision. Defined.

(** [EnvironmentConnectionStatus]. The flags are absent or [true]. *)
Record EnvironmentConnectionStatus : Type := {
  es_state : EnvironmentConnectionState;
  es_manifest : option manifest;
  es_errorCode : option jstring;
  es_runtimeVersion : option jstring;
  es_runtimeVersionDrift : option bool;
  es_sshFailureReason : option jstring;
  es_containerFailureReason : option jstring;
  es_localFailureReason : option jstring;
  es_pullingImage : bool;
  es_updating : bool;
  es_offlineRuntimeCache : bool;
  es_boundElsewhere : bool;
}.

(** What an attempt fails with: the code of a [RemoteError], [None] for any other error; the details the manager reads;
    whether it is a [RuntimeTerminationIncompleteError]. *)
Record conn_error : Type := {
  er_code : option jstring;
  er_closeCode : option Z;
  er_sshFailureReason : option jstring;
  er_containerFailureReason : option jstring;
  er_localFailureReason : option jstring;
  er_incomplete : bool;
}.

Definition unavailable_error : conn_error :=
  {| er_code := Some UNAVAILABLE; er_closeCode := None; er_sshFailureReason := None; er_containerFailureReason := None; er_localFailureReason := None;
     er_incomplete := false |}.

(** [RuntimeEnvironmentDefinition]; [df_configValid] is what [isEnvironmentConfigValid] says of its [config]. *)
Record RuntimeEnvironmentDefinition : Type := {
  df_name : jstring;
  df_transportKind : EnvironmentTransportKind;
  df_configValid : bool;
  df_enabled : bool;
}.

(** [ManagedRuntimeConnection] and its client; the attempt that opened it owns its entry. *)
Record ManagedRuntimeConnection : Type := {
  cn_attempt : nat;
  cn_manifest : manifest;
  cn_runtimeVersion : jstring;
  cn_isolation : option HubExternalAgentIsolation;
  cn_identityAttested : bool;
}.

(** [retryAfterMs]: a time, or [Infinity]. *)
Inductive retry_after : Type := At (t : Z) | Never.

#[global] Instance retry_eq_dec : EqDecision retry_after.
Proof. solve_decision. Defined.

(** Tracked work: an opener's ownership, or a connection's close. *)
Definition teardown : Type := nat + nat.
Notation TdOpening k := (inl k : teardown).
Notation TdClose c := (inr c : teardown).

Inductive RuntimeConnectionCloseReason : Type := cr_released | cr_superseded | cr_none.

Inductive RuntimeConnectPhase : Type := ph_pulling | ph_offline_cache.

(** Where the opener is: not called yet, called, answered. *)
Inductive opening_stage : Type := og_before | og_called | og_settled.

(** What [ownOpening] still waits for. *)
Inductive ownership : Type := ow_opening | ow_closing (c : nat) | ow_over.

(** The promise a caller has: in the race, its outcome on the way to [then] or [catch], in the read of hosted agents, in
    [finally], settled. *)
Inductive public_stage : Type :=
| pb_racing
| pb_settling (o : outcome conn_error nat)
| pb_reading (c : nat)
| pb_finally (o : outcome conn_error nat)
| pb_done (o : outcome conn_error nat).

Record release_wait : Type := {
  rw_key : jstring;
  rw_waits : list teardown;
  rw_previous : option nat;
  rw_outcome : option bool;
}.

(** A [refreshManifest] waiting for health; [rf_reader] is the attempt that waits for it. *)
Record refresh_call : Type := {
  rf_userId : jstring;
  rf_environmentId : jstring;
  rf_conn : nat;
  rf_revision : Z;
  rf_reader : option nat;
  rf_background : bool;
}.

(** What the manager is built with. *)
Record manager_config : Type := {
  mc_hubVersion : jstring;
  mc_connectors : EnvironmentTransportKind -> bool;
  mc_connectDeadlinesMs : EnvironmentTransportKind -> option Z;
}.

(** [RuntimeConnectionEntry]. A promise or a callback it holds is named by the attempt, release or refresh behind it; the sets
    are lists in insertion order. *)
Record RuntimeConnectionEntry : Type := {
  rc_userId : jstring;
  rc_environmentId : jstring;
  rc_revision : Z;
  rc_status : EnvironmentConnectionStatus;
  rc_environmentName : option jstring;
  rc_announcedState : option EnvironmentConnectionState;
  rc_transportKind : option EnvironmentTransportKind;
  rc_connection : option nat;
  rc_announcedManifest : option manifest;
  rc_connecting : option nat;
  rc_pendingTeardowns : list teardown;
  rc_failedTeardowns : list teardown;
  rc_pendingOpenings : list nat;
  rc_releasing : option nat;
  rc_failureCount : Z;
  rc_connectedAtMs : option Z;
  rc_manifestReadAtMs : option Z;
  rc_manifestRefresh : option nat;
  rc_health : option RuntimeHealthReport;
  rc_healthReadAtMs : option Z;
  rc_retryAfterMs : retry_after;
  rc_expectedUpdateDisconnect : bool;
  rc_abort : option nat;
  rc_pullWaiters : list nat;
}.

Definition rc_set_revision (v : Z) (e : RuntimeConnectionEntry) : RuntimeConnectionEntry :=
  {| rc_userId := rc_userId e; rc_environmentId := rc_environmentId e; rc_revision := v; rc_status := rc_status e; rc_environmentName :=
     rc_environmentName e; rc_announcedState := rc_announcedState e; rc_transportKind := rc_transportKind e; rc_connection := rc_connection e;
     rc_announcedManifest := rc_announcedManifest e; rc_connecting := rc_connecting e; rc_pendingTeardowns := rc_pendingTeardowns e;
     rc_failedTeardowns := rc_failedTeardowns e; rc_pendingOpenings := rc_pendingOpenings e; rc_releasing := rc_releasing e; rc_failureCount :=
     rc_failureCount e; rc_connectedAtMs := rc_connectedAtMs e; rc_manifestReadAtMs := rc_manifestReadAtMs e; rc_manifestRefresh := rc_manifestRefresh
     e; rc_health := rc_health e; rc_healthReadAtMs := rc_healthReadAtMs e; rc_retryAfterMs := rc_retryAfterMs e; rc_expectedUpdateDisconnect :=
     rc_expectedUpdateDisconnect e; rc_abort := rc_abort e; rc_pullWaiters := rc_pullWaiters e |}.
Definition rc_set_status (v : EnvironmentConnectionStatus) (e : RuntimeConnectionEntry) : RuntimeConnectionEntry :=
  {| rc_userId := rc_userId e; rc_environmentId := rc_environmentId e; rc_revision := rc_revision e; rc_status := v; rc_environmentName :=
     rc_environmentName e; rc_announcedState := rc_announcedState e; rc_transportKind := rc_transportKind e; rc_connection := rc_connection e;
     rc_announcedManifest := rc_announcedManifest e; rc_connecting := rc_connecting e; rc_pendingTeardowns := rc_pendingTeardowns e;
     rc_failedTeardowns := rc_failedTeardowns e; rc_pendingOpenings := rc_pendingOpenings e; rc_releasing := rc_releasing e; rc_failureCount :=
     rc_failureCount e; rc_connectedAtMs := rc_connectedAtMs e; rc_manifestReadAtMs := rc_manifestReadAtMs e; rc_manifestRefresh := rc_manifestRefresh
     e; rc_health := rc_health e; rc_healthReadAtMs := rc_healthReadAtMs e; rc_retryAfterMs := rc_retryAfterMs e; rc_expectedUpdateDisconnect :=
     rc_expectedUpdateDisconnect e; rc_abort := rc_abort e; rc_pullWaiters := rc_pullWaiters e |}.
Definition rc_set_environmentName (v : option jstring) (e : RuntimeConnectionEntry) : RuntimeConnectionEntry :=
  {| rc_userId := rc_userId e; rc_environmentId := rc_environmentId e; rc_revision := rc_revision e; rc_status := rc_status e; rc_environmentName :=
     v; rc_announcedState := rc_announcedState e; rc_transportKind := rc_transportKind e; rc_connection := rc_connection e; rc_announcedManifest :=
     rc_announcedManifest e; rc_connecting := rc_connecting e; rc_pendingTeardowns := rc_pendingTeardowns e; rc_failedTeardowns := rc_failedTeardowns
     e; rc_pendingOpenings := rc_pendingOpenings e; rc_releasing := rc_releasing e; rc_failureCount := rc_failureCount e; rc_connectedAtMs :=
     rc_connectedAtMs e; rc_manifestReadAtMs := rc_manifestReadAtMs e; rc_manifestRefresh := rc_manifestRefresh e; rc_health := rc_health e;
     rc_healthReadAtMs := rc_healthReadAtMs e; rc_retryAfterMs := rc_retryAfterMs e; rc_expectedUpdateDisconnect := rc_expectedUpdateDisconnect e;
     rc_abort := rc_abort e; rc_pullWaiters := rc_pullWaiters e |}.
Definition rc_set_announcedState (v : option EnvironmentConnectionState) (e : RuntimeConnectionEntry) : RuntimeConnectionEntry :=
  {| rc_userId := rc_userId e; rc_environmentId := rc_environmentId e; rc_revision := rc_revision e; rc_status := rc_status e; rc_environmentName :=
     rc_environmentName e; rc_announcedState := v; rc_transportKind := rc_transportKind e; rc_connection := rc_connection e; rc_announcedManifest :=
     rc_announcedManifest e; rc_connecting := rc_connecting e; rc_pendingTeardowns := rc_pendingTeardowns e; rc_failedTeardowns := rc_failedTeardowns
     e; rc_pendingOpenings := rc_pendingOpenings e; rc_releasing := rc_releasing e; rc_failureCount := rc_failureCount e; rc_connectedAtMs :=
     rc_connectedAtMs e; rc_manifestReadAtMs := rc_manifestReadAtMs e; rc_manifestRefresh := rc_manifestRefresh e; rc_health := rc_health e;
     rc_healthReadAtMs := rc_healthReadAtMs e; rc_retryAfterMs := rc_retryAfterMs e; rc_expectedUpdateDisconnect := rc_expectedUpdateDisconnect e;
     rc_abort := rc_abort e; rc_pullWaiters := rc_pullWaiters e |}.
Definition rc_set_transportKind (v : option EnvironmentTransportKind) (e : RuntimeConnectionEntry) : RuntimeConnectionEntry :=
  {| rc_userId := rc_userId e; rc_environmentId := rc_environmentId e; rc_revision := rc_revision e; rc_status := rc_status e; rc_environmentName :=
     rc_environmentName e; rc_announcedState := rc_announcedState e; rc_transportKind := v; rc_connection := rc_connection e; rc_announcedManifest :=
     rc_announcedManifest e; rc_connecting := rc_connecting e; rc_pendingTeardowns := rc_pendingTeardowns e; rc_failedTeardowns := rc_failedTeardowns
     e; rc_pendingOpenings := rc_pendingOpenings e; rc_releasing := rc_releasing e; rc_failureCount := rc_failureCount e; rc_connectedAtMs :=
     rc_connectedAtMs e; rc_manifestReadAtMs := rc_manifestReadAtMs e; rc_manifestRefresh := rc_manifestRefresh e; rc_health := rc_health e;
     rc_healthReadAtMs := rc_healthReadAtMs e; rc_retryAfterMs := rc_retryAfterMs e; rc_expectedUpdateDisconnect := rc_expectedUpdateDisconnect e;
     rc_abort := rc_abort e; rc_pullWaiters := rc_pullWaiters e |}.
Definition rc_set_connection (v : option nat) (e : RuntimeConnectionEntry) : RuntimeConnectionEntry :=
  {| rc_userId := rc_userId e; rc_environmentId := rc_environmentId e; rc_revision := rc_revision e; rc_status := rc_status e; rc_environmentName :=
     rc_environmentName e; rc_announcedState := rc_announcedState e; rc_transportKind := rc_transportKind e; rc_connection := v; rc_announcedManifest
     := rc_announcedManifest e; rc_connecting := rc_connecting e; rc_pendingTeardowns := rc_pendingTeardowns e; rc_failedTeardowns :=
     rc_failedTeardowns e; rc_pendingOpenings := rc_pendingOpenings e; rc_releasing := rc_releasing e; rc_failureCount := rc_failureCount e;
     rc_connectedAtMs := rc_connectedAtMs e; rc_manifestReadAtMs := rc_manifestReadAtMs e; rc_manifestRefresh := rc_manifestRefresh e; rc_health :=
     rc_health e; rc_healthReadAtMs := rc_healthReadAtMs e; rc_retryAfterMs := rc_retryAfterMs e; rc_expectedUpdateDisconnect :=
     rc_expectedUpdateDisconnect e; rc_abort := rc_abort e; rc_pullWaiters := rc_pullWaiters e |}.
Definition rc_set_announcedManifest (v : option manifest) (e : RuntimeConnectionEntry) : RuntimeConnectionEntry :=
  {| rc_userId := rc_userId e; rc_environmentId := rc_environmentId e; rc_revision := rc_revision e; rc_status := rc_status e; rc_environmentName :=
     rc_environmentName e; rc_announcedState := rc_announcedState e; rc_transportKind := rc_transportKind e; rc_connection := rc_connection e;
     rc_announcedManifest := v; rc_connecting := rc_connecting e; rc_pendingTeardowns := rc_pendingTeardowns e; rc_failedTeardowns :=
     rc_failedTeardowns e; rc_pendingOpenings := rc_pendingOpenings e; rc_releasing := rc_releasing e; rc_failureCount := rc_failureCount e;
     rc_connectedAtMs := rc_connectedAtMs e; rc_manifestReadAtMs := rc_manifestReadAtMs e; rc_manifestRefresh := rc_manifestRefresh e; rc_health :=
     rc_health e; rc_healthReadAtMs := rc_healthReadAtMs e; rc_retryAfterMs := rc_retryAfterMs e; rc_expectedUpdateDisconnect :=
     rc_expectedUpdateDisconnect e; rc_abort := rc_abort e; rc_pullWaiters := rc_pullWaiters e |}.
Definition rc_set_connecting (v : option nat) (e : RuntimeConnectionEntry) : RuntimeConnectionEntry :=
  {| rc_userId := rc_userId e; rc_environmentId := rc_environmentId e; rc_revision := rc_revision e; rc_status := rc_status e; rc_environmentName :=
     rc_environmentName e; rc_announcedState := rc_announcedState e; rc_transportKind := rc_transportKind e; rc_connection := rc_connection e;
     rc_announcedManifest := rc_announcedManifest e; rc_connecting := v; rc_pendingTeardowns := rc_pendingTeardowns e; rc_failedTeardowns :=
     rc_failedTeardowns e; rc_pendingOpenings := rc_pendingOpenings e; rc_releasing := rc_releasing e; rc_failureCount := rc_failureCount e;
     rc_connectedAtMs := rc_connectedAtMs e; rc_manifestReadAtMs := rc_manifestReadAtMs e; rc_manifestRefresh := rc_manifestRefresh e; rc_health :=
     rc_health e; rc_healthReadAtMs := rc_healthReadAtMs e; rc_retryAfterMs := rc_retryAfterMs e; rc_expectedUpdateDisconnect :=
     rc_expectedUpdateDisconnect e; rc_abort := rc_abort e; rc_pullWaiters := rc_pullWaiters e |}.
Definition rc_set_pendingTeardowns (v : list teardown) (e : RuntimeConnectionEntry) : RuntimeConnectionEntry :=
  {| rc_userId := rc_userId e; rc_environmentId := rc_environmentId e; rc_revision := rc_revision e; rc_status := rc_status e; rc_environmentName :=
     rc_environmentName e; rc_announcedState := rc_announcedState e; rc_transportKind := rc_transportKind e; rc_connection := rc_connection e;
     rc_announcedManifest := rc_announcedManifest e; rc_connecting := rc_connecting e; rc_pendingTeardowns := v; rc_failedTeardowns :=
     rc_failedTeardowns e; rc_pendingOpenings := rc_pendingOpenings e; rc_releasing := rc_releasing e; rc_failureCount := rc_failureCount e;
     rc_connectedAtMs := rc_connectedAtMs e; rc_manifestReadAtMs := rc_manifestReadAtMs e; rc_manifestRefresh := rc_manifestRefresh e; rc_health :=
     rc_health e; rc_healthReadAtMs := rc_healthReadAtMs e; rc_retryAfterMs := rc_retryAfterMs e; rc_expectedUpdateDisconnect :=
     rc_expectedUpdateDisconnect e; rc_abort := rc_abort e; rc_pullWaiters := rc_pullWaiters e |}.
Definition rc_set_failedTeardowns (v : list teardown) (e : RuntimeConnectionEntry) : RuntimeConnectionEntry :=
  {| rc_userId := rc_userId e; rc_environmentId := rc_environmentId e; rc_revision := rc_revision e; rc_status := rc_status e; rc_environmentName :=
     rc_environmentName e; rc_announcedState := rc_announcedState e; rc_transportKind := rc_transportKind e; rc_connection := rc_connection e;
     rc_announcedManifest := rc_announcedManifest e; rc_connecting := rc_connecting e; rc_pendingTeardowns := rc_pendingTeardowns e;
     rc_failedTeardowns := v; rc_pendingOpenings := rc_pendingOpenings e; rc_releasing := rc_releasing e; rc_failureCount := rc_failureCount e;
     rc_connectedAtMs := rc_connectedAtMs e; rc_manifestReadAtMs := rc_manifestReadAtMs e; rc_manifestRefresh := rc_manifestRefresh e; rc_health :=
     rc_health e; rc_healthReadAtMs := rc_healthReadAtMs e; rc_retryAfterMs := rc_retryAfterMs e; rc_expectedUpdateDisconnect :=
     rc_expectedUpdateDisconnect e; rc_abort := rc_abort e; rc_pullWaiters := rc_pullWaiters e |}.
Definition rc_set_pendingOpenings (v : list nat) (e : RuntimeConnectionEntry) : RuntimeConnectionEntry :=
  {| rc_userId := rc_userId e; rc_environmentId := rc_environmentId e; rc_revision := rc_revision e; rc_status := rc_status e; rc_environmentName :=
     rc_environmentName e; rc_announcedState := rc_announcedState e; rc_transportKind := rc_transportKind e; rc_connection := rc_connection e;
     rc_announcedManifest := rc_announcedManifest e; rc_connecting := rc_connecting e; rc_pendingTeardowns := rc_pendingTeardowns e;
     rc_failedTeardowns := rc_failedTeardowns e; rc_pendingOpenings := v; rc_releasing := rc_releasing e; rc_failureCount := rc_failureCount e;
     rc_connectedAtMs := rc_connectedAtMs e; rc_manifestReadAtMs := rc_manifestReadAtMs e; rc_manifestRefresh := rc_manifestRefresh e; rc_health :=
     rc_health e; rc_healthReadAtMs := rc_healthReadAtMs e; rc_retryAfterMs := rc_retryAfterMs e; rc_expectedUpdateDisconnect :=
     rc_expectedUpdateDisconnect e; rc_abort := rc_abort e; rc_pullWaiters := rc_pullWaiters e |}.
Definition rc_set_releasing (v : option nat) (e : RuntimeConnectionEntry) : RuntimeConnectionEntry :=
  {| rc_userId := rc_userId e; rc_environmentId := rc_environmentId e; rc_revision := rc_revision e; rc_status := rc_status e; rc_environmentName :=
     rc_environmentName e; rc_announcedState := rc_announcedState e; rc_transportKind := rc_transportKind e; rc_connection := rc_connection e;
     rc_announcedManifest := rc_announcedManifest e; rc_connecting := rc_connecting e; rc_pendingTeardowns := rc_pendingTeardowns e;
     rc_failedTeardowns := rc_failedTeardowns e; rc_pendingOpenings := rc_pendingOpenings e; rc_releasing := v; rc_failureCount := rc_failureCount e;
     rc_connectedAtMs := rc_connectedAtMs e; rc_manifestReadAtMs := rc_manifestReadAtMs e; rc_manifestRefresh := rc_manifestRefresh e; rc_health :=
     rc_health e; rc_healthReadAtMs := rc_healthReadAtMs e; rc_retryAfterMs := rc_retryAfterMs e; rc_expectedUpdateDisconnect :=
     rc_expectedUpdateDisconnect e; rc_abort := rc_abort e; rc_pullWaiters := rc_pullWaiters e |}.
Definition rc_set_failureCount (v : Z) (e : RuntimeConnectionEntry) : RuntimeConnectionEntry :=
  {| rc_userId := rc_userId e; rc_environmentId := rc_environmentId e; rc_revision := rc_revision e; rc_status := rc_status e; rc_environmentName :=
     rc_environmentName e; rc_announcedState := rc_announcedState e; rc_transportKind := rc_transportKind e; rc_connection := rc_connection e;
     rc_announcedManifest := rc_announcedManifest e; rc_connecting := rc_connecting e; rc_pendingTeardowns := rc_pendingTeardowns e;
     rc_failedTeardowns := rc_failedTeardowns e; rc_pendingOpenings := rc_pendingOpenings e; rc_releasing := rc_releasing e; rc_failureCount := v;
     rc_connectedAtMs := rc_connectedAtMs e; rc_manifestReadAtMs := rc_manifestReadAtMs e; rc_manifestRefresh := rc_manifestRefresh e; rc_health :=
     rc_health e; rc_healthReadAtMs := rc_healthReadAtMs e; rc_retryAfterMs := rc_retryAfterMs e; rc_expectedUpdateDisconnect :=
     rc_expectedUpdateDisconnect e; rc_abort := rc_abort e; rc_pullWaiters := rc_pullWaiters e |}.
Definition rc_set_connectedAtMs (v : option Z) (e : RuntimeConnectionEntry) : RuntimeConnectionEntry :=
  {| rc_userId := rc_userId e; rc_environmentId := rc_environmentId e; rc_revision := rc_revision e; rc_status := rc_status e; rc_environmentName :=
     rc_environmentName e; rc_announcedState := rc_announcedState e; rc_transportKind := rc_transportKind e; rc_connection := rc_connection e;
     rc_announcedManifest := rc_announcedManifest e; rc_connecting := rc_connecting e; rc_pendingTeardowns := rc_pendingTeardowns e;
     rc_failedTeardowns := rc_failedTeardowns e; rc_pendingOpenings := rc_pendingOpenings e; rc_releasing := rc_releasing e; rc_failureCount :=
     rc_failureCount e; rc_connectedAtMs := v; rc_manifestReadAtMs := rc_manifestReadAtMs e; rc_manifestRefresh := rc_manifestRefresh e; rc_health :=
     rc_health e; rc_healthReadAtMs := rc_healthReadAtMs e; rc_retryAfterMs := rc_retryAfterMs e; rc_expectedUpdateDisconnect :=
     rc_expectedUpdateDisconnect e; rc_abort := rc_abort e; rc_pullWaiters := rc_pullWaiters e |}.
Definition rc_set_manifestReadAtMs (v : option Z) (e : RuntimeConnectionEntry) : RuntimeConnectionEntry :=
  {| rc_userId := rc_userId e; rc_environmentId := rc_environmentId e; rc_revision := rc_revision e; rc_status := rc_status e; rc_environmentName :=
     rc_environmentName e; rc_announcedState := rc_announcedState e; rc_transportKind := rc_transportKind e; rc_connection := rc_connection e;
     rc_announcedManifest := rc_announcedManifest e; rc_connecting := rc_connecting e; rc_pendingTeardowns := rc_pendingTeardowns e;
     rc_failedTeardowns := rc_failedTeardowns e; rc_pendingOpenings := rc_pendingOpenings e; rc_releasing := rc_releasing e; rc_failureCount :=
     rc_failureCount e; rc_connectedAtMs := rc_connectedAtMs e; rc_manifestReadAtMs := v; rc_manifestRefresh := rc_manifestRefresh e; rc_health :=
     rc_health e; rc_healthReadAtMs := rc_healthReadAtMs e; rc_retryAfterMs := rc_retryAfterMs e; rc_expectedUpdateDisconnect :=
     rc_expectedUpdateDisconnect e; rc_abort := rc_abort e; rc_pullWaiters := rc_pullWaiters e |}.
Definition rc_set_manifestRefresh (v : option nat) (e : RuntimeConnectionEntry) : RuntimeConnectionEntry :=
  {| rc_userId := rc_userId e; rc_environmentId := rc_environmentId e; rc_revision := rc_revision e; rc_status := rc_status e; rc_environmentName :=
     rc_environmentName e; rc_announcedState := rc_announcedState e; rc_transportKind := rc_transportKind e; rc_connection := rc_connection e;
     rc_announcedManifest := rc_announcedManifest e; rc_connecting := rc_connecting e; rc_pendingTeardowns := rc_pendingTeardowns e;
     rc_failedTeardowns := rc_failedTeardowns e; rc_pendingOpenings := rc_pendingOpenings e; rc_releasing := rc_releasing e; rc_failureCount :=
     rc_failureCount e; rc_connectedAtMs := rc_connectedAtMs e; rc_manifestReadAtMs := rc_manifestReadAtMs e; rc_manifestRefresh := v; rc_health :=
     rc_health e; rc_healthReadAtMs := rc_healthReadAtMs e; rc_retryAfterMs := rc_retryAfterMs e; rc_expectedUpdateDisconnect :=
     rc_expectedUpdateDisconnect e; rc_abort := rc_abort e; rc_pullWaiters := rc_pullWaiters e |}.
Definition rc_set_health (v : option RuntimeHealthReport) (e : RuntimeConnectionEntry) : RuntimeConnectionEntry :=
  {| rc_userId := rc_userId e; rc_environmentId := rc_environmentId e; rc_revision := rc_revision e; rc_status := rc_status e; rc_environmentName :=
     rc_environmentName e; rc_announcedState := rc_announcedState e; rc_transportKind := rc_transportKind e; rc_connection := rc_connection e;
     rc_announcedManifest := rc_announcedManifest e; rc_connecting := rc_connecting e; rc_pendingTeardowns := rc_pendingTeardowns e;
     rc_failedTeardowns := rc_failedTeardowns e; rc_pendingOpenings := rc_pendingOpenings e; rc_releasing := rc_releasing e; rc_failureCount :=
     rc_failureCount e; rc_connectedAtMs := rc_connectedAtMs e; rc_manifestReadAtMs := rc_manifestReadAtMs e; rc_manifestRefresh := rc_manifestRefresh
     e; rc_health := v; rc_healthReadAtMs := rc_healthReadAtMs e; rc_retryAfterMs := rc_retryAfterMs e; rc_expectedUpdateDisconnect :=
     rc_expectedUpdateDisconnect e; rc_abort := rc_abort e; rc_pullWaiters := rc_pullWaiters e |}.
Definition rc_set_healthReadAtMs (v : option Z) (e : RuntimeConnectionEntry) : RuntimeConnectionEntry :=
  {| rc_userId := rc_userId e; rc_environmentId := rc_environmentId e; rc_revision := rc_revision e; rc_status := rc_status e; rc_environmentName :=
     rc_environmentName e; rc_announcedState := rc_announcedState e; rc_transportKind := rc_transportKind e; rc_connection := rc_connection e;
     rc_announcedManifest := rc_announcedManifest e; rc_connecting := rc_connecting e; rc_pendingTeardowns := rc_pendingTeardowns e;
     rc_failedTeardowns := rc_failedTeardowns e; rc_pendingOpenings := rc_pendingOpenings e; rc_releasing := rc_releasing e; rc_failureCount :=
     rc_failureCount e; rc_connectedAtMs := rc_connectedAtMs e; rc_manifestReadAtMs := rc_manifestReadAtMs e; rc_manifestRefresh := rc_manifestRefresh
     e; rc_health := rc_health e; rc_healthReadAtMs := v; rc_retryAfterMs := rc_retryAfterMs e; rc_expectedUpdateDisconnect :=
     rc_expectedUpdateDisconnect e; rc_abort := rc_abort e; rc_pullWaiters := rc_pullWaiters e |}.
Definition rc_set_retryAfterMs (v : retry_after) (e : RuntimeConnectionEntry) : RuntimeConnectionEntry :=
  {| rc_userId := rc_userId e; rc_environmentId := rc_environmentId e; rc_revision := rc_revision e; rc_status := rc_status e; rc_environmentName :=
     rc_environmentName e; rc_announcedState := rc_announcedState e; rc_transportKind := rc_transportKind e; rc_connection := rc_connection e;
     rc_announcedManifest := rc_announcedManifest e; rc_connecting := rc_connecting e; rc_pendingTeardowns := rc_pendingTeardowns e;
     rc_failedTeardowns := rc_failedTeardowns e; rc_pendingOpenings := rc_pendingOpenings e; rc_releasing := rc_releasing e; rc_failureCount :=
     rc_failureCount e; rc_connectedAtMs := rc_connectedAtMs e; rc_manifestReadAtMs := rc_manifestReadAtMs e; rc_manifestRefresh := rc_manifestRefresh
     e; rc_health := rc_health e; rc_healthReadAtMs := rc_healthReadAtMs e; rc_retryAfterMs := v; rc_expectedUpdateDisconnect :=
     rc_expectedUpdateDisconnect e; rc_abort := rc_abort e; rc_pullWaiters := rc_pullWaiters e |}.
Definition rc_set_expectedUpdateDisconnect (v : bool) (e : RuntimeConnectionEntry) : RuntimeConnectionEntry :=
  {| rc_userId := rc_userId e; rc_environmentId := rc_environmentId e; rc_revision := rc_revision e; rc_status := rc_status e; rc_environmentName :=
     rc_environmentName e; rc_announcedState := rc_announcedState e; rc_transportKind := rc_transportKind e; rc_connection := rc_connection e;
     rc_announcedManifest := rc_announcedManifest e; rc_connecting := rc_connecting e; rc_pendingTeardowns := rc_pendingTeardowns e;
     rc_failedTeardowns := rc_failedTeardowns e; rc_pendingOpenings := rc_pendingOpenings e; rc_releasing := rc_releasing e; rc_failureCount :=
     rc_failureCount e; rc_connectedAtMs := rc_connectedAtMs e; rc_manifestReadAtMs := rc_manifestReadAtMs e; rc_manifestRefresh := rc_manifestRefresh
     e; rc_health := rc_health e; rc_healthReadAtMs := rc_healthReadAtMs e; rc_retryAfterMs := rc_retryAfterMs e; rc_expectedUpdateDisconnect := v;
     rc_abort := rc_abort e; rc_pullWaiters := rc_pullWaiters e |}.
Definition rc_set_abort (v : option nat) (e : RuntimeConnectionEntry) : RuntimeConnectionEntry :=
  {| rc_userId := rc_userId e; rc_environmentId := rc_environmentId e; rc_revision := rc_revision e; rc_status := rc_status e; rc_environmentName :=
     rc_environmentName e; rc_announcedState := rc_announcedState e; rc_transportKind := rc_transportKind e; rc_connection := rc_connection e;
     rc_announcedManifest := rc_announcedManifest e; rc_connecting := rc_connecting e; rc_pendingTeardowns := rc_pendingTeardowns e;
     rc_failedTeardowns := rc_failedTeardowns e; rc_pendingOpenings := rc_pendingOpenings e; rc_releasing := rc_releasing e; rc_failureCount :=
     rc_failureCount e; rc_connectedAtMs := rc_connectedAtMs e; rc_manifestReadAtMs := rc_manifestReadAtMs e; rc_manifestRefresh := rc_manifestRefresh
     e; rc_health := rc_health e; rc_healthReadAtMs := rc_healthReadAtMs e; rc_retryAfterMs := rc_retryAfterMs e; rc_expectedUpdateDisconnect :=
     rc_expectedUpdateDisconnect e; rc_abort := v; rc_pullWaiters := rc_pullWaiters e |}.
Definition rc_set_pullWaiters (v : list nat) (e : RuntimeConnectionEntry) : RuntimeConnectionEntry :=
  {| rc_userId := rc_userId e; rc_environmentId := rc_environmentId e; rc_revision := rc_revision e; rc_status := rc_status e; rc_environmentName :=
     rc_environmentName e; rc_announcedState := rc_announcedState e; rc_transportKind := rc_transportKind e; rc_connection := rc_connection e;
     rc_announcedManifest := rc_announcedManifest e; rc_connecting := rc_connecting e; rc_pendingTeardowns := rc_pendingTeardowns e;
     rc_failedTeardowns := rc_failedTeardowns e; rc_pendingOpenings := rc_pendingOpenings e; rc_releasing := rc_releasing e; rc_failureCount :=
     rc_failureCount e; rc_connectedAtMs := rc_connectedAtMs e; rc_manifestReadAtMs := rc_manifestReadAtMs e; rc_manifestRefresh := rc_manifestRefresh
     e; rc_health := rc_health e; rc_healthReadAtMs := rc_healthReadAtMs e; rc_retryAfterMs := rc_retryAfterMs e; rc_expectedUpdateDisconnect :=
     rc_expectedUpdateDisconnect e; rc_abort := rc_abort e; rc_pullWaiters := v |}.

(** One call of [connect] or [adopt] that opens, with what its closures hold. *)
Record connect_attempt : Type := {
  ca_key : jstring;
  ca_userId : jstring;
  ca_environmentId : jstring;
  ca_revision : Z;
  ca_adopt : bool;
  ca_aborted : option conn_error;
  ca_closedWhileOpening : bool;
  ca_opening : opening_stage;
  ca_ownership : ownership;
  ca_public : public_stage;
  ca_deadline : bool;
  ca_bounded : bool;
}.

Definition ca_set_aborted (v : option conn_error) (a : connect_attempt) : connect_attempt :=
  {| ca_key := ca_key a; ca_userId := ca_userId a; ca_environmentId := ca_environmentId a; ca_revision := ca_revision a; ca_adopt := ca_adopt a;
     ca_aborted := v; ca_closedWhileOpening := ca_closedWhileOpening a; ca_opening := ca_opening a; ca_ownership := ca_ownership a; ca_public :=
     ca_public a; ca_deadline := ca_deadline a; ca_bounded := ca_bounded a |}.
Definition ca_set_closedWhileOpening (v : bool) (a : connect_attempt) : connect_attempt :=
  {| ca_key := ca_key a; ca_userId := ca_userId a; ca_environmentId := ca_environmentId a; ca_revision := ca_revision a; ca_adopt := ca_adopt a;
     ca_aborted := ca_aborted a; ca_closedWhileOpening := v; ca_opening := ca_opening a; ca_ownership := ca_ownership a; ca_public := ca_public a;
     ca_deadline := ca_deadline a; ca_bounded := ca_bounded a |}.
Definition ca_set_opening (v : opening_stage) (a : connect_attempt) : connect_attempt :=
  {| ca_key := ca_key a; ca_userId := ca_userId a; ca_environmentId := ca_environmentId a; ca_revision := ca_revision a; ca_adopt := ca_adopt a;
     ca_aborted := ca_aborted a; ca_closedWhileOpening := ca_closedWhileOpening a; ca_opening := v; ca_ownership := ca_ownership a; ca_public :=
     ca_public a; ca_deadline := ca_deadline a; ca_bounded := ca_bounded a |}.
Definition ca_set_ownership (v : ownership) (a : connect_attempt) : connect_attempt :=
  {| ca_key := ca_key a; ca_userId := ca_userId a; ca_environmentId := ca_environmentId a; ca_revision := ca_revision a; ca_adopt := ca_adopt a;
     ca_aborted := ca_aborted a; ca_closedWhileOpening := ca_closedWhileOpening a; ca_opening := ca_opening a; ca_ownership := v; ca_public :=
     ca_public a; ca_deadline := ca_deadline a; ca_bounded := ca_bounded a |}.
Definition ca_set_public (v : public_stage) (a : connect_attempt) : connect_attempt :=
  {| ca_key := ca_key a; ca_userId := ca_userId a; ca_environmentId := ca_environmentId a; ca_revision := ca_revision a; ca_adopt := ca_adopt a;
     ca_aborted := ca_aborted a; ca_closedWhileOpening := ca_closedWhileOpening a; ca_opening := ca_opening a; ca_ownership := ca_ownership a;
     ca_public := v; ca_deadline := ca_deadline a; ca_bounded := ca_bounded a |}.
Definition ca_set_deadline (v : bool) (a : connect_attempt) : connect_attempt :=
  {| ca_key := ca_key a; ca_userId := ca_userId a; ca_environmentId := ca_environmentId a; ca_revision := ca_revision a; ca_adopt := ca_adopt a;
     ca_aborted := ca_aborted a; ca_closedWhileOpening := ca_closedWhileOpening a; ca_opening := ca_opening a; ca_ownership := ca_ownership a;
     ca_public := ca_public a; ca_deadline := v; ca_bounded := ca_bounded a |}.
Definition ca_set_bounded (v : bool) (a : connect_attempt) : connect_attempt :=
  {| ca_key := ca_key a; ca_userId := ca_userId a; ca_environmentId := ca_environmentId a; ca_revision := ca_revision a; ca_adopt := ca_adopt a;
     ca_aborted := ca_aborted a; ca_closedWhileOpening := ca_closedWhileOpening a; ca_opening := ca_opening a; ca_ownership := ca_ownership a;
     ca_public := ca_public a; ca_deadline := ca_deadline a; ca_bounded := v |}.

(** The fields of [RuntimeConnectionManager], and the calls it has under way. Attempts, connections, releases, refreshes,
    pending adoptions and waiters share one counter. *)
Record manager : Type := {
  cm_config : manager_config;
  cm_entries : gmap jstring RuntimeConnectionEntry;
  cm_keys : list jstring;
  cm_attempts : gmap nat connect_attempt;
  cm_conns : gmap nat ManagedRuntimeConnection;
  cm_closings : gset nat;
  cm_outcomes : gmap teardown bool;
  cm_releases : gmap nat release_wait;
  cm_refreshes : gmap nat refresh_call;
  cm_adopts : gmap nat (jstring * jstring);
  cm_waiters : gmap nat (jstring * option nat);
  cm_shutdown : option (list nat);
  cm_next : nat;
}.

Definition cm_set_entries (v : gmap jstring RuntimeConnectionEntry) (m : manager) : manager :=
  {| cm_config := cm_config m; cm_entries := v; cm_keys := cm_keys m; cm_attempts := cm_attempts m; cm_conns := cm_conns m; cm_closings := cm_closings
     m; cm_outcomes := cm_outcomes m; cm_releases := cm_releases m; cm_refreshes := cm_refreshes m; cm_adopts := cm_adopts m; cm_waiters := cm_waiters
     m; cm_shutdown := cm_shutdown m; cm_next := cm_next m |}.
Definition cm_set_keys (v : list jstring) (m : manager) : manager :=
  {| cm_config := cm_config m; cm_entries := cm_entries m; cm_keys := v; cm_attempts := cm_attempts m; cm_conns := cm_conns m; cm_closings :=
     cm_closings m; cm_outcomes := cm_outcomes m; cm_releases := cm_releases m; cm_refreshes := cm_refreshes m; cm_adopts := cm_adopts m; cm_waiters
     := cm_waiters m; cm_shutdown := cm_shutdown m; cm_next := cm_next m |}.
Definition cm_set_attempts (v : gmap nat connect_attempt) (m : manager) : manager :=
  {| cm_config := cm_config m; cm_entries := cm_entries m; cm_keys := cm_keys m; cm_attempts := v; cm_conns := cm_conns m; cm_closings := cm_closings
     m; cm_outcomes := cm_outcomes m; cm_releases := cm_releases m; cm_refreshes := cm_refreshes m; cm_adopts := cm_adopts m; cm_waiters := cm_waiters
     m; cm_shutdown := cm_shutdown m; cm_next := cm_next m |}.
Definition cm_set_conns (v : gmap nat ManagedRuntimeConnection) (m : manager) : manager :=
  {| cm_config := cm_config m; cm_entries := cm_entries m; cm_keys := cm_keys m; cm_attempts := cm_attempts m; cm_conns := v; cm_closings :=
     cm_closings m; cm_outcomes := cm_outcomes m; cm_releases := cm_releases m; cm_refreshes := cm_refreshes m; cm_adopts := cm_adopts m; cm_waiters
     := cm_waiters m; cm_shutdown := cm_shutdown m; cm_next := cm_next m |}.
Definition cm_set_closings (v : gset nat) (m : manager) : manager :=
  {| cm_config := cm_config m; cm_entries := cm_entries m; cm_keys := cm_keys m; cm_attempts := cm_attempts m; cm_conns := cm_conns m; cm_closings :=
     v; cm_outcomes := cm_outcomes m; cm_releases := cm_releases m; cm_refreshes := cm_refreshes m; cm_adopts := cm_adopts m; cm_waiters := cm_waiters
     m; cm_shutdown := cm_shutdown m; cm_next := cm_next m |}.
Definition cm_set_outcomes (v : gmap teardown bool) (m : manager) : manager :=
  {| cm_config := cm_config m; cm_entries := cm_entries m; cm_keys := cm_keys m; cm_attempts := cm_attempts m; cm_conns := cm_conns m; cm_closings :=
     cm_closings m; cm_outcomes := v; cm_releases := cm_releases m; cm_refreshes := cm_refreshes m; cm_adopts := cm_adopts m; cm_waiters := cm_waiters
     m; cm_shutdown := cm_shutdown m; cm_next := cm_next m |}.
Definition cm_set_releases (v : gmap nat release_wait) (m : manager) : manager :=
  {| cm_config := cm_config m; cm_entries := cm_entries m; cm_keys := cm_keys m; cm_attempts := cm_attempts m; cm_conns := cm_conns m; cm_closings :=
     cm_closings m; cm_outcomes := cm_outcomes m; cm_releases := v; cm_refreshes := cm_refreshes m; cm_adopts := cm_adopts m; cm_waiters := cm_waiters
     m; cm_shutdown := cm_shutdown m; cm_next := cm_next m |}.
Definition cm_set_refreshes (v : gmap nat refresh_call) (m : manager) : manager :=
  {| cm_config := cm_config m; cm_entries := cm_entries m; cm_keys := cm_keys m; cm_attempts := cm_attempts m; cm_conns := cm_conns m; cm_closings :=
     cm_closings m; cm_outcomes := cm_outcomes m; cm_releases := cm_releases m; cm_refreshes := v; cm_adopts := cm_adopts m; cm_waiters := cm_waiters
     m; cm_shutdown := cm_shutdown m; cm_next := cm_next m |}.
Definition cm_set_adopts (v : gmap nat (jstring * jstring)) (m : manager) : manager :=
  {| cm_config := cm_config m; cm_entries := cm_entries m; cm_keys := cm_keys m; cm_attempts := cm_attempts m; cm_conns := cm_conns m; cm_closings :=
     cm_closings m; cm_outcomes := cm_outcomes m; cm_releases := cm_releases m; cm_refreshes := cm_refreshes m; cm_adopts := v; cm_waiters :=
     cm_waiters m; cm_shutdown := cm_shutdown m; cm_next := cm_next m |}.
Definition cm_set_waiters (v : gmap nat (jstring * option nat)) (m : manager) : manager :=
  {| cm_config := cm_config m; cm_entries := cm_entries m; cm_keys := cm_keys m; cm_attempts := cm_attempts m; cm_conns := cm_conns m; cm_closings :=
     cm_closings m; cm_outcomes := cm_outcomes m; cm_releases := cm_releases m; cm_refreshes := cm_refreshes m; cm_adopts := cm_adopts m; cm_waiters
     := v; cm_shutdown := cm_shutdown m; cm_next := cm_next m |}.
Definition cm_set_shutdown (v : option (list nat)) (m : manager) : manager :=
  {| cm_config := cm_config m; cm_entries := cm_entries m; cm_keys := cm_keys m; cm_attempts := cm_attempts m; cm_conns := cm_conns m; cm_closings :=
     cm_closings m; cm_outcomes := cm_outcomes m; cm_releases := cm_releases m; cm_refreshes := cm_refreshes m; cm_adopts := cm_adopts m; cm_waiters
     := cm_waiters m; cm_shutdown := v; cm_next := cm_next m |}.
Definition cm_set_next (v : nat) (m : manager) : manager :=
  {| cm_config := cm_config m; cm_entries := cm_entries m; cm_keys := cm_keys m; cm_attempts := cm_attempts m; cm_conns := cm_conns m; cm_closings :=
     cm_closings m; cm_outcomes := cm_outcomes m; cm_releases := cm_releases m; cm_refreshes := cm_refreshes m; cm_adopts := cm_adopts m; cm_waiters
     := cm_waiters m; cm_shutdown := cm_shutdown m; cm_next := v |}.

Inductive manager_effect : Type :=
| MgOpen (attempt : nat)
| MgClose (conn : nat) (reason : RuntimeConnectionCloseReason)
| MgAbort (attempt : nat)
| MgPublish (userId : jstring)
| MgTransition (key environmentName : jstring) (previousState state : EnvironmentConnectionState)
| MgObserve (key : jstring) (m : manifest)
| MgForget (key : jstring)
| MgHealth (conn : nat)
| MgAgentsRevoked (userId environmentId : jstring)
| MgTerminalsRevoked (userId environmentId : jstring)
| MgWake (waiter : nat)
| MgSettled (attempt : nat) (o : outcome conn_error nat).

(** ** Constants *)

Definition RECONNECT_BASE_DELAY_MS : Z := 1000.
Definition RECONNECT_MAX_DELAY_MS : Z := 30000.
Definition MAX_RECONNECT_ATTEMPTS : Z := 5.
Definition BOUND_ELSEWHERE_RETRY_MS : Z := 60000.
Definition HEALTHY_CONNECTION_MS : Z := 10000.
Definition MANIFEST_FRESHNESS_MS : Z := 15000.
Definition RUNTIME_ALREADY_BOUND_CLOSE_CODE : Z := 4423.
Definition DEVELOPMENT_VERSION : jstring := js "dev".
Definition RUNTIME_UPDATE_REFUSED : jstring := js "RUNTIME_UPDATE_REFUSED".

Definition SshFailureReasons : list jstring :=
  [js "client-missing"; js "auth-refused"; js "host-key-unverified"; js "unreachable"; js "runtime-missing"; js "runtime-not-executable";
   js "setup-pending"; js "unknown"].
Definition ContainerFailureReasons : list jstring :=
  [js "engine-missing"; js "engine-unreachable"; js "image-missing"; js "image-pull-failed"; js "image-unsupported"; js "runtime-unavailable"; js "unknown"].
Definition LocalFailureReasons : list jstring := [js "binary-missing"].

(** ** Pure parts *)

(** [runtimeDiscoveryKey], the key of an entry *)
Definition connectionKey (userId environmentId : jstring) : jstring := userId ++ js ":" ++ environmentId.

Definition isBoundElsewhere (e : conn_error) : bool :=
  match er_code e, er_closeCode e with Some _, Some c => c =? RUNTIME_ALREADY_BOUND_CLOSE_CODE | _, _ => false end.

Definition isDialIn (kind : option EnvironmentTransportKind) : bool := bool_decide (kind = Some tk_websocket).

Definition settledState (s : EnvironmentConnectionStatus) : option EnvironmentConnectionState :=
  match es_state s with cs_connecting => None | st => Some st end.

Definition retryDeadline (now failureCount : Z) (errorCode : jstring) (dialIn : bool) : retry_after :=
  if dialIn then At 0
  else if bool_decide (errorCode = CODE_PROTOCOL_MISMATCH) || (MAX_RECONNECT_ATTEMPTS <=? failureCount) then Never
  else At (now + Z.min (RECONNECT_BASE_DELAY_MS * 2 ^ failureCount / 2) RECONNECT_MAX_DELAY_MS).

(** [Date.now() < retryAfterMs] *)
Definition held_back (now : Z) (r : retry_after) : bool := match r with At t => now <? t | Never => true end.

(** [narrowRuntimeErrorCode] *)
Definition narrowRuntimeErrorCode (code : jstring) : jstring :=
  if bool_decide (code ∈ RESERVED_ERROR_CODES ++ [RUNTIME_UPDATE_REFUSED]) then code else INTERNAL.

Definition statusErrorCode (e : conn_error) : jstring :=
  match er_code e with Some code => narrowRuntimeErrorCode code | None => UNAVAILABLE end.

Definition normalizeUnavailable (e : conn_error) : conn_error :=
  if bool_decide (er_code e = Some UNAVAILABLE) then e else unavailable_error.

Definition one_of (reasons : list jstring) (r : option jstring) : option jstring :=
  match r with Some x => if bool_decide (x ∈ reasons) then Some x else None | None => None end.

(** A status with a state and nothing else. *)
Definition bare_status (s : EnvironmentConnectionState) : EnvironmentConnectionStatus :=
  {| es_state := s; es_manifest := None; es_errorCode := None; es_runtimeVersion := None; es_runtimeVersionDrift := None; es_sshFailureReason := None;
     es_containerFailureReason := None; es_localFailureReason := None; es_pullingImage := false; es_updating := false; es_offlineRuntimeCache := false;
     es_boundElsewhere := false |}.

(** [cachedPeer]: [peer_status s old] is [{ state: s, ...cachedPeer }]. *)
Definition peer_status (s : EnvironmentConnectionState) (old : EnvironmentConnectionStatus) : EnvironmentConnectionStatus :=
  let version := match es_runtimeVersion old with Some (_ :: _) => es_runtimeVersion old | _ => None end in
  {| es_state := s; es_manifest := es_manifest old; es_errorCode := None; es_runtimeVersion := version;
     es_runtimeVersionDrift := match version with Some _ => Some (default false (es_runtimeVersionDrift old)) | None => None end;
     es_sshFailureReason := None; es_containerFailureReason := None; es_localFailureReason := None; es_pullingImage := false; es_updating := false;
     es_offlineRuntimeCache := false; es_boundElsewhere := false |}.

Definition with_errorCode (code : jstring) (s : EnvironmentConnectionStatus) : EnvironmentConnectionStatus :=
  {| es_state := es_state s; es_manifest := es_manifest s; es_errorCode := Some code; es_runtimeVersion := es_runtimeVersion s;
     es_runtimeVersionDrift := es_runtimeVersionDrift s; es_sshFailureReason := es_sshFailureReason s;
     es_containerFailureReason := es_containerFailureReason s; es_localFailureReason := es_localFailureReason s; es_pullingImage := es_pullingImage s;
     es_updating := es_updating s; es_offlineRuntimeCache := es_offlineRuntimeCache s; es_boundElsewhere := es_boundElsewhere s |}.

(** [failureDetail] *)
Definition with_failureDetail (e : conn_error) (s : EnvironmentConnectionStatus) : EnvironmentConnectionStatus :=
  let detail r := match er_code e with Some _ => r | None => None end in
  {| es_state := es_state s; es_manifest := es_manifest s; es_errorCode := es_errorCode s; es_runtimeVersion := es_runtimeVersion s;
     es_runtimeVersionDrift := es_runtimeVersionDrift s; es_sshFailureReason := one_of SshFailureReasons (detail (er_sshFailureReason e));
     es_containerFailureReason := one_of ContainerFailureReasons (detail (er_containerFailureReason e));
     es_localFailureReason := one_of LocalFailureReasons (detail (er_localFailureReason e)); es_pullingImage := es_pullingImage s;
     es_updating := es_updating s; es_offlineRuntimeCache := es_offlineRuntimeCache s; es_boundElsewhere := es_boundElsewhere s |}.

(** The flags, set to [true] or dropped. *)
Definition with_flags (pulling updating offline bound : bool) (s : EnvironmentConnectionStatus) : EnvironmentConnectionStatus :=
  {| es_state := es_state s; es_manifest := es_manifest s; es_errorCode := es_errorCode s; es_runtimeVersion := es_runtimeVersion s;
     es_runtimeVersionDrift := es_runtimeVersionDrift s; es_sshFailureReason := es_sshFailureReason s;
     es_containerFailureReason := es_containerFailureReason s; es_localFailureReason := es_localFailureReason s; es_pullingImage := pulling;
     es_updating := updating; es_offlineRuntimeCache := offline; es_boundElsewhere := bound |}.

(** [peerRelease] laid over a status *)
Definition with_peerRelease (hubVersion version : jstring) (s : EnvironmentConnectionStatus) : EnvironmentConnectionStatus :=
  match version with
  | [] => s
  | _ =>
      {| es_state := es_state s; es_manifest := es_manifest s; es_errorCode := es_errorCode s; es_runtimeVersion := Some version;
         es_runtimeVersionDrift := Some (negb (bool_decide (hubVersion = DEVELOPMENT_VERSION)) && negb (bool_decide (version = hubVersion)));
         es_sshFailureReason := es_sshFailureReason s; es_containerFailureReason := es_containerFailureReason s;
         es_localFailureReason := es_localFailureReason s; es_pullingImage := es_pullingImage s; es_updating := es_updating s;
         es_offlineRuntimeCache := es_offlineRuntimeCache s; es_boundElsewhere := es_boundElsewhere s |}
  end.

Definition with_connected (m : manifest) (s : EnvironmentConnectionStatus) : EnvironmentConnectionStatus :=
  {| es_state := cs_connected; es_manifest := Some m; es_errorCode := es_errorCode s; es_runtimeVersion := es_runtimeVersion s;
     es_runtimeVersionDrift := es_runtimeVersionDrift s; es_sshFailureReason := es_sshFailureReason s;
     es_containerFailureReason := es_containerFailureReason s; es_localFailureReason := es_localFailureReason s; es_pullingImage := es_pullingImage s;
     es_updating := es_updating s; es_offlineRuntimeCache := es_offlineRuntimeCache s; es_boundElsewhere := es_boundElsewhere s |}.

Definition new_entry (userId environmentId : jstring) : RuntimeConnectionEntry :=
  {| rc_userId := userId; rc_environmentId := environmentId; rc_revision := 0; rc_status := bare_status cs_disconnected; rc_environmentName := None;
     rc_announcedState := None; rc_transportKind := None; rc_connection := None; rc_announcedManifest := None; rc_connecting := None;
     rc_pendingTeardowns := []; rc_failedTeardowns := []; rc_pendingOpenings := []; rc_releasing := None; rc_failureCount := 0; rc_connectedAtMs := None;
     rc_manifestReadAtMs := None; rc_manifestRefresh := None; rc_health := None; rc_healthReadAtMs := None; rc_retryAfterMs := At 0;
     rc_expectedUpdateDisconnect := false; rc_abort := None; rc_pullWaiters := [] |}.

Definition new_manager (cfg : manager_config) : manager :=
  {| cm_config := cfg; cm_entries := ∅; cm_keys := []; cm_attempts := ∅; cm_conns := ∅; cm_closings := ∅; cm_outcomes := ∅; cm_releases := ∅;
     cm_refreshes := ∅; cm_adopts := ∅; cm_waiters := ∅; cm_shutdown := None; cm_next := 0 |}.

(** ** Plumbing *)

Definition mres : Type := manager * list manager_effect.

(** Run [f] after [p], collecting the effects. *)
Definition then_do (p : mres) (f : manager -> mres) : mres :=
  let '(m, es) := p in let '(m', es') := f m in (m', es ++ es').

Definition on_entry (key : jstring) (f : RuntimeConnectionEntry -> RuntimeConnectionEntry) (m : manager) : manager :=
  cm_set_entries (alter f key (cm_entries m)) m.

Definition on_attempt (k : nat) (f : connect_attempt -> connect_attempt) (m : manager) : manager :=
  cm_set_attempts (alter f k (cm_attempts m)) m.

(** [entries.set] *)
Definition put_entry (key : jstring) (e : RuntimeConnectionEntry) (m : manager) : manager :=
  cm_set_keys (if bool_decide (key ∈ cm_keys m) then cm_keys m else cm_keys m ++ [key]) (cm_set_entries (<[key := e]> (cm_entries m)) m).

(** [Set.add] and [Set.delete] on a list without repeats *)
Definition add_to {A} `{EqDecision A} (x : A) (l : list A) : list A := if bool_decide (x ∈ l) then l else l ++ [x].
Definition drop_from {A} `{EqDecision A} (x : A) (l : list A) : list A := List.filter (fun y => negb (bool_decide (y = x))) l.

(** ** Announcing *)

Definition announce (userId : jstring) (e : RuntimeConnectionEntry) : RuntimeConnectionEntry :=
  if bool_decide (rc_userId e = userId)
  then match settledState (rc_status e) with Some s => rc_set_announcedState (Some s) e | None => e end
  else e.

(** What one entry of the loop records *)
Definition transition_of (userId : jstring) (m : manager) (key : jstring) : list manager_effect :=
  match cm_entries m !! key with
  | Some e =>
      if bool_decide (rc_userId e = userId) then
        match settledState (rc_status e), rc_announcedState e with
        | Some s, Some previous => if bool_decide (s = previous) then [] else [MgTransition key (default (rc_environmentId e) (rc_environmentName e)) previous s]
        | _, _ => []
        end
      else []
  | None => []
  end.

Definition publish (userId : jstring) (m : manager) : mres :=
  (cm_set_entries (announce userId <$> cm_entries m) m, flat_map (transition_of userId m) (cm_keys m) ++ [MgPublish userId]).

(** ** Teardowns *)

(** The work behind a tracked teardown settled: its [catch] and [finally] run. *)
Definition settle_teardown (key : jstring) (td : teardown) (ok : bool) (m : manager) : manager :=
  match cm_outcomes m !! td with
  | Some _ => m
  | None =>
      cm_set_outcomes (<[td := ok]> (cm_outcomes m))
        (on_entry key (fun e =>
           let e := rc_set_pendingTeardowns (drop_from td (rc_pendingTeardowns e)) e in
           if ok then e else rc_set_failedTeardowns (add_to td (rc_failedTeardowns e)) e) m)
  end.

Definition closeConnection (key : jstring) (c : nat) (reason : RuntimeConnectionCloseReason) (m : manager) : mres :=
  if bool_decide (c ∈ cm_closings m) then (m, [])
  else (cm_set_closings ({[c]} ∪ cm_closings m) (on_entry key (fun e => rc_set_pendingTeardowns (add_to (TdClose c) (rc_pendingTeardowns e)) e) m),
        [MgClose c reason]).

(** A [close] settled; the opener that waits for it is done. *)
Definition close_settled (c : nat) (ok : bool) (m : manager) : mres :=
  match cm_conns m !! c with
  | Some conn =>
      match cm_attempts m !! cn_attempt conn with
      | Some a =>
          if bool_decide (c ∈ cm_closings m) && bool_decide (cm_outcomes m !! TdClose c = None) then
            let m := settle_teardown (ca_key a) (TdClose c) ok m in
            match ca_ownership a with
            | ow_closing _ => (settle_teardown (ca_key a) (TdOpening (cn_attempt conn)) ok (on_attempt (cn_attempt conn) (ca_set_ownership ow_over) m), [])
            | _ => (m, [])
            end
          else (m, [])
      | None => (m, [])
      end
  | None => (m, [])
  end.

(** ** Attempts *)

(** [ready] and the abort race for the caller's promise: the first one decides. *)
Definition race_settled (k : nat) (o : outcome conn_error nat) (m : manager) : manager :=
  on_attempt k (fun a => match ca_public a with pb_racing => ca_set_public (pb_settling o) a | _ => a end) m.

Definition abort_attempt (k : nat) (reason : conn_error) (m : manager) : mres :=
  match cm_attempts m !! k with
  | Some a =>
      match ca_aborted a with
      | None => (race_settled k (Err reason) (on_attempt k (ca_set_aborted (Some reason)) m), [MgAbort k])
      | Some _ => (m, [])
      end
  | None => (m, [])
  end.

(** [finishOpening] *)
Definition finishOpening (k : nat) (key : jstring) (m : manager) : manager :=
  on_attempt k (fun a => ca_set_bounded false (ca_set_opening og_settled a))
    (on_entry key (fun e => rc_set_pendingOpenings (drop_from k (rc_pendingOpenings e)) e) m).

(** The opener rejected. *)
Definition opening_failed (k : nat) (key : jstring) (e : conn_error) (m : manager) : mres :=
  let m := race_settled k (Err e) (finishOpening k key m) in
  (settle_teardown key (TdOpening k) (negb (er_incomplete e)) (on_attempt k (ca_set_ownership ow_over) m), []).

(** What every attempt installs on its entry. *)
Definition begin_attempt (k : nat) (e : RuntimeConnectionEntry) : RuntimeConnectionEntry :=
  rc_set_pendingOpenings (add_to k (rc_pendingOpenings e))
    (rc_set_pendingTeardowns (add_to (TdOpening k) (rc_pendingTeardowns e))
       (rc_set_abort (Some k)
          (rc_set_status (peer_status cs_connecting (rc_status e))
             (rc_set_revision (rc_revision e + 1) e)))).

Definition new_attempt (key userId environmentId : jstring) (revision : Z) (adopting : bool) : connect_attempt :=
  {| ca_key := key; ca_userId := userId; ca_environmentId := environmentId; ca_revision := revision; ca_adopt := adopting; ca_aborted := None;
     ca_closedWhileOpening := false; ca_opening := og_before; ca_ownership := ow_opening; ca_public := pb_racing; ca_deadline := false; ca_bounded := false |}.

Definition add_attempt (a : connect_attempt) (m : manager) : manager :=
  cm_set_next (S (cm_next m)) (cm_set_attempts (<[cm_next m := a]> (cm_attempts m)) m).

(** What [connect] gives its caller before the first await. *)
Inductive connect_answer : Type :=
| CaRefused
| CaClient (c : nat)
| CaJoined (k : nat)
| CaStarted (k : nat).

Definition running (m : manager) : bool := match cm_shutdown m with None => true | Some _ => false end.

(** [connect] past the live connection and the one being opened *)
Definition connect_entry (now : Z) (key userId environmentId : jstring) (force : bool) (e : RuntimeConnectionEntry) (m : manager) : mres * connect_answer :=
  let e := if force then rc_set_retryAfterMs (At 0) (rc_set_failureCount 0 e) else e in
  if negb force && held_back now (rc_retryAfterMs e) then ((put_entry key e m, []), CaRefused)
  else
    let k := cm_next m in
    let e' := rc_set_connecting (Some k) (begin_attempt k e) in
    let m := add_attempt (new_attempt key userId environmentId (rc_revision e') false) (put_entry key e' m) in
    (publish userId m, CaStarted k).

Definition connect (now : Z) (userId environmentId : jstring) (force : bool) (m : manager) : mres * connect_answer :=
  if negb (running m) then ((m, []), CaRefused)
  else
    let key := connectionKey userId environmentId in
    match cm_entries m !! key with
    | Some e =>
        match rc_connection e, rc_connecting e with
        | Some c, _ => ((m, []), CaClient c)
        | None, Some k => ((m, []), CaJoined k)
        | None, None => connect_entry now key userId environmentId force e m
        end
    | None => connect_entry now key userId environmentId force (new_entry userId environmentId) m
    end.

(** [getClient] *)
Definition getClient (now : Z) (userId environmentId : jstring) (m : manager) : mres * connect_answer := connect now userId environmentId false m.

(** [getExistingClient] *)
Definition getExistingClient (userId environmentId : jstring) (m : manager) : connect_answer :=
  if negb (running m) then CaRefused
  else match cm_entries m !! connectionKey userId environmentId with
       | Some e => match rc_connection e, rc_connecting e with Some c, _ => CaClient c | None, Some k => CaJoined k | None, None => CaRefused end
       | None => CaRefused
       end.

(** [connectInteractive]; the answer [true] is ['pulling'] at once, otherwise a waiter is left on the entry. *)
Definition connectInteractive (now : Z) (userId environmentId : jstring) (m : manager) : mres * bool :=
  let key := connectionKey userId environmentId in
  let '((m, es), answer) := connect now userId environmentId true m in
  match cm_entries m !! key with
  | None => ((m, es), false)
  | Some e =>
      if es_pullingImage (rc_status e) then ((m, es), true)
      else
        let w := cm_next m in
        let joined := match answer with CaJoined k | CaStarted k => Some k | _ => None end in
        ((cm_set_next (S w) (cm_set_waiters (<[w := (key, joined)]> (cm_waiters m)) (on_entry key (fun e => rc_set_pullWaiters (rc_pullWaiters e ++ [w]) e) m)), es), false)
  end.

(** The wait of [connectInteractive] is over: its [finally]. *)
Definition waiter_done (w : nat) (m : manager) : manager :=
  match cm_waiters m !! w with
  | Some (key, _) => cm_set_waiters (delete w (cm_waiters m)) (on_entry key (fun e => rc_set_pullWaiters (drop_from w (rc_pullWaiters e)) e) m)
  | None => m
  end.

(** ** Opening *)

Definition stale (a : connect_attempt) (e : RuntimeConnectionEntry) : bool := negb (rc_revision e =? ca_revision a).

Definition was_aborted (a : connect_attempt) : bool := match ca_aborted a with Some _ => true | None => false end.

(** [resolveEnvironment] answered a [connect]; [Err] when it threw. *)
Definition connect_resolved (k : nat) (answer : outcome conn_error (option RuntimeEnvironmentDefinition)) (m : manager) : mres :=
  match cm_attempts m !! k with
  | Some a =>
      match ca_adopt a, ca_opening a, cm_entries m !! ca_key a with
      | false, og_before, Some e =>
          match answer with
          | Err err => opening_failed k (ca_key a) err m
          | Ok definition =>
              if was_aborted a || stale a e then opening_failed k (ca_key a) unavailable_error m
              else match definition with
                   | None => opening_failed k (ca_key a) unavailable_error m
                   | Some d =>
                       let m := on_entry (ca_key a) (fun e => rc_set_environmentName (Some (df_name d)) (rc_set_transportKind (Some (df_transportKind d)) e)) m in
                       let armed := match mc_connectDeadlinesMs (cm_config m) (df_transportKind d) with Some _ => true | None => false end in
                       let m := on_attempt k (ca_set_deadline armed) m in
                       if negb (df_enabled d) || negb (df_configValid d) || negb (mc_connectors (cm_config m) (df_transportKind d))
                       then opening_failed k (ca_key a) unavailable_error m
                       else (on_attempt k (ca_set_opening og_called) m, [MgOpen k])
                   end
          end
      | _, _, _ => (m, [])
      end
  | None => (m, [])
  end.

(** The deadline of a transport fired; only [connect] has one. *)
Definition connect_deadline (k : nat) (m : manager) : mres :=
  match cm_attempts m !! k with
  | Some a => if negb (ca_adopt a) && ca_deadline a then abort_attempt k unavailable_error (on_attempt k (ca_set_deadline false) m) else (m, [])
  | None => (m, [])
  end.

(** [adopt] up to its first await *)
Definition adopt_call (userId environmentId : jstring) (m : manager) : manager :=
  if negb (running m) then m else cm_set_next (S (cm_next m)) (cm_set_adopts (<[cm_next m := (userId, environmentId)]> (cm_adopts m)) m).

(** The connection the adoption supersedes is closed, and the attempt under way aborted. *)
Definition supersede (key : jstring) (superseded : option nat) (aborted : option nat) (m : manager) : mres :=
  then_do (match superseded with Some c => closeConnection key c cr_superseded m | None => (m, []) end)
    (fun m => match aborted with Some j => abort_attempt j unavailable_error m | None => (m, []) end).

Definition adopt_resolved (n : nat) (answer : outcome conn_error (option RuntimeEnvironmentDefinition)) (m : manager) : mres :=
  match cm_adopts m !! n with
  | Some (userId, environmentId) =>
      let m := cm_set_adopts (delete n (cm_adopts m)) m in
      match answer with
      | Ok (Some d) =>
          if negb (running m) || negb (df_enabled d) then (m, [])
          else
            let key := connectionKey userId environmentId in
            let e := default (new_entry userId environmentId) (cm_entries m !! key) in
            let k := cm_next m in
            let e' := rc_set_connecting None (rc_set_connection None (begin_attempt k
                        (rc_set_environmentName (Some (df_name d)) (rc_set_transportKind (Some (df_transportKind d)) e)))) in
            let m := add_attempt (new_attempt key userId environmentId (rc_revision e') true) (put_entry key e' m) in
            then_do (supersede key (rc_connection e) (rc_abort e) m) (publish userId)
      | _ => (m, [])
      end
  | None => (m, [])
  end.

(** The adoption calls its [open]. *)
Definition adopt_started (k : nat) (m : manager) : mres :=
  match cm_attempts m !! k with
  | Some a =>
      match ca_adopt a, ca_opening a with
      | true, og_before =>
          if was_aborted a then opening_failed k (ca_key a) unavailable_error m else (on_attempt k (ca_set_opening og_called) m, [MgOpen k])
      | _, _ => (m, [])
      end
  | None => (m, [])
  end.

(** [accept] *)
Definition acceptable (a : connect_attempt) (e : RuntimeConnectionEntry) : bool :=
  negb (stale a e) && negb (ca_closedWhileOpening a) && (ca_adopt a || negb (was_aborted a)).

(** [#adopt] and what the two [accept] callbacks add to it *)
Definition install (now : Z) (hubVersion : jstring) (adopting : bool) (c : nat) (conn : ManagedRuntimeConnection) (e : RuntimeConnectionEntry) : RuntimeConnectionEntry :=
  let offline := if adopting then false else es_offlineRuntimeCache (rc_status e) in
  rc_set_status (with_flags false false offline false (with_peerRelease hubVersion (cn_runtimeVersion conn) (with_connected (cn_manifest conn) (bare_status cs_connected))))
    (rc_set_retryAfterMs (At 0)
       (rc_set_failureCount (if adopting then 0 else rc_failureCount e)
          (rc_set_manifestReadAtMs (Some now)
             (rc_set_connectedAtMs (Some now) (rc_set_announcedManifest (Some (cn_manifest conn)) (rc_set_connection (Some c) e)))))).

Definition reason_of (a : connect_attempt) : RuntimeConnectionCloseReason := if ca_adopt a then cr_superseded else cr_released.

(** The opener owns [c] until its close has finished. *)
Definition refuse_connection (k : nat) (a : connect_attempt) (c : nat) (err : conn_error) (m : manager) : mres :=
  closeConnection (ca_key a) c (reason_of a) (on_attempt k (ca_set_ownership (ow_closing c)) (race_settled k (Err err) m)).

(** The opener delivered a connection; [hookError] is what [publish] threw in [accept]. *)
Definition opening_delivered (k : nat) (now : Z) (mf : manifest) (version : jstring) (isolation : option HubExternalAgentIsolation) (attested : bool)
    (hookError : option conn_error) (m : manager) : mres :=
  match cm_attempts m !! k with
  | Some a =>
      match ca_opening a, cm_entries m !! ca_key a with
      | og_called, Some e =>
          let c := cm_next m in
          let conn := {| cn_attempt := k; cn_manifest := mf; cn_runtimeVersion := version; cn_isolation := isolation; cn_identityAttested := attested |} in
          let m := finishOpening k (ca_key a) (cm_set_next (S c) (cm_set_conns (<[c := conn]> (cm_conns m)) m)) in
          if negb (acceptable a e) then refuse_connection k a c unavailable_error m
          else
            let m := on_entry (ca_key a) (install now (mc_hubVersion (cm_config m)) (ca_adopt a) c conn) m in
            then_do (then_do (m, [MgObserve (ca_key a) mf]) (publish (ca_userId a))) (fun m =>
              match hookError with
              | Some err => refuse_connection k a c err (on_entry (ca_key a) (rc_set_connection None) m)
              | None => (settle_teardown (ca_key a) (TdOpening k) true (on_attempt k (ca_set_ownership ow_over) (race_settled k (Ok c) m)), [])
              end)
      | _, _ => (m, [])
      end
  | None => (m, [])
  end.

(** The opener rejected with [err]. *)
Definition opening_rejected (k : nat) (err : conn_error) (m : manager) : mres :=
  match cm_attempts m !! k with
  | Some a => match ca_opening a with og_called => opening_failed k (ca_key a) err m | _ => (m, []) end
  | None => (m, [])
  end.

(** The bound of a released opener expired. *)
Definition opening_expired (k : nat) (m : manager) : manager :=
  match cm_attempts m !! k with
  | Some a =>
      if ca_bounded a then
        settle_teardown (ca_key a) (TdOpening k) false
          (on_attempt k (ca_set_bounded false) (on_entry (ca_key a) (fun e => rc_set_pendingOpenings (drop_from k (rc_pendingOpenings e)) e) m))
      else m
  | None => m
  end.

(** ** Manifests *)

(** [refreshManifest] up to its await; [None] when there is nothing to ask. *)
Definition refresh_start (now : Z) (userId environmentId : jstring) (reader : option nat) (background : bool) (m : manager) : mres * option nat :=
  let key := connectionKey userId environmentId in
  match cm_entries m !! key with
  | Some e =>
      match rc_connection e with
      | Some c =>
          if bool_decide (es_state (rc_status e) = cs_connected) then
            let f := cm_next m in
            let call := {| rf_userId := userId; rf_environmentId := environmentId; rf_conn := c; rf_revision := rc_revision e; rf_reader := reader; rf_background := background |} in
            ((cm_set_next (S f) (cm_set_refreshes (<[f := call]> (cm_refreshes m)) (on_entry key (rc_set_manifestReadAtMs (Some now)) m)), [MgHealth c]), Some f)
          else ((m, []), None)
      | None => ((m, []), None)
      end
  | None => ((m, []), None)
  end.

Definition externalAgentsRevoked (old : option manifest) (new : manifest) : bool :=
  match old with Some o => is_true (ft_externalAgents (mn_features o)) | None => false end && negb (is_true (ft_externalAgents (mn_features new))).

Definition terminalsRevoked (old : option manifest) (new : manifest) : bool :=
  match old with
  | Some o =>
      is_true (ft_shell (mn_features o)) && negb (is_true (ft_shell (mn_features new))) || is_true (mn_terminal o) && negb (is_true (mn_terminal new))
  | None => false
  end.

Definition cn_replace (mf : manifest) (c : ManagedRuntimeConnection) : ManagedRuntimeConnection :=
  {| cn_attempt := cn_attempt c; cn_manifest := mf; cn_runtimeVersion := cn_runtimeVersion c; cn_isolation := cn_isolation c;
     cn_identityAttested := cn_identityAttested c |}.

(** The health of a connection that is still the live one *)
Definition apply_health (userId environmentId : jstring) (c : nat) (health : RuntimeHealthReport) (m : manager) : mres :=
  let key := connectionKey userId environmentId in
  match cm_entries m !! key, cm_conns m !! c with
  | Some e, Some conn =>
      let mf := applyHubIsolationClaim (capabilityManifestFromHealth health (Some (default (cn_manifest conn) (rc_announcedManifest e)))) (cn_isolation conn) in
      let old := es_manifest (rc_status e) in
      let status := with_peerRelease (mc_hubVersion (cm_config m)) (cn_runtimeVersion conn) (with_connected mf (rc_status e)) in
      let e' := rc_set_status status (rc_set_healthReadAtMs (rc_manifestReadAtMs e) (rc_set_health (Some health) e)) in
      let m := cm_set_conns (<[c := cn_replace mf conn]> (cm_conns m)) (on_entry key (fun _ => e') m) in
      let es := (if externalAgentsRevoked old mf then [MgAgentsRevoked userId environmentId] else [])
        ++ (if terminalsRevoked old mf then [MgTerminalsRevoked userId environmentId] else []) in
      then_do (m, es) (if bool_decide (old = Some mf) then fun m => (m, []) else publish userId)
  | _, _ => (m, [])
  end.

(** The caller's promise of an attempt is settled; an [adopt] has no separate [finally]. *)
Definition attempt_answered (k : nat) (a : connect_attempt) (o : outcome conn_error nat) (m : manager) : mres :=
  if ca_adopt a
  then (on_attempt k (ca_set_public (pb_done o)) (on_entry (ca_key a) (fun e => if bool_decide (rc_abort e = Some k) then rc_set_abort None e else e) m),
        [MgSettled k o])
  else (on_attempt k (ca_set_public (pb_finally o)) m, []).

(** The connection a refresh asked is still the entry's live one. *)
Definition refresh_current (call : refresh_call) (m : manager) : bool :=
  match cm_entries m !! connectionKey (rf_userId call) (rf_environmentId call) with
  | Some e => (rc_revision e =? rf_revision call) && bool_decide (rc_connection e = Some (rf_conn call)) && bool_decide (es_state (rc_status e) = cs_connected)
  | None => false
  end.

(** Whoever waits for the refresh goes on. *)
Definition refresh_over (call : refresh_call) (m : manager) : mres :=
  let m := if rf_background call then on_entry (connectionKey (rf_userId call) (rf_environmentId call)) (rc_set_manifestRefresh None) m else m in
  match rf_reader call with
  | Some k =>
      match cm_attempts m !! k with
      | Some a => match ca_public a with pb_reading c => attempt_answered k a (Ok c) m | _ => (m, []) end
      | None => (m, [])
      end
  | None => (m, [])
  end.

(** [runtime.health] answered a refresh, or failed. *)
Definition health_answered (f : nat) (answer : option RuntimeHealthReport) (m : manager) : mres :=
  match cm_refreshes m !! f with
  | Some call =>
      let m := cm_set_refreshes (delete f (cm_refreshes m)) m in
      then_do (match answer with
               | Some health => if refresh_current call m then apply_health (rf_userId call) (rf_environmentId call) (rf_conn call) health m else (m, [])
               | None => (m, [])
               end) (refresh_over call)
  | None => (m, [])
  end.

Definition refreshManifestIfStale (now : Z) (userId environmentId : jstring) (m : manager) : mres :=
  let key := connectionKey userId environmentId in
  match cm_entries m !! key with
  | Some e =>
      if negb (bool_decide (es_state (rc_status e) = cs_connected)) || match rc_manifestRefresh e with Some _ => true | None => false end then (m, [])
      else if now - default 0 (rc_manifestReadAtMs e) <? MANIFEST_FRESHNESS_MS then (m, [])
      else
        let '((m, es), f) := refresh_start now userId environmentId None true m in
        (match f with Some f => on_entry key (rc_set_manifestRefresh (Some f)) m | None => m end, es)
  | None => (m, [])
  end.

(** ** The caller's promise *)

(** [readHostedAgents] *)
Definition readHostedAgents (now : Z) (k : nat) (a : connect_attempt) (e : RuntimeConnectionEntry) (m : manager) : mres :=
  match rc_connection e with
  | None => (on_attempt k (ca_set_public (pb_settling (Err unavailable_error))) m, [])
  | Some c =>
      let needsRead :=
        match cm_conns m !! c with
        | Some conn =>
            is_true (ft_externalAgents (mn_features (cn_manifest conn))) && match mn_externalAgents (cn_manifest conn) with None => true | Some _ => false end
        | None => false
        end in
      if negb needsRead || stale a e then attempt_answered k a (Ok c) m
      else
        let '((m, es), f) := refresh_start now (ca_userId a) (ca_environmentId a) (Some k) false m in
        match f with
        | Some _ => (on_attempt k (ca_set_public (pb_reading c)) m, es)
        | None => then_do (m, es) (attempt_answered k a (Ok c))
        end
  end.

(** [markBoundElsewhere] on its entry *)
Definition bound_elsewhere (now : Z) (e : RuntimeConnectionEntry) : RuntimeConnectionEntry :=
  rc_set_status (with_flags false false false true (with_errorCode UNAVAILABLE (peer_status cs_error (rc_status e))))
    (rc_set_retryAfterMs (At (now + BOUND_ELSEWHERE_RETRY_MS)) (rc_set_connection None e)).

(** The [catch] of [connect] on its entry *)
Definition connect_failed (now : Z) (err : conn_error) (e : RuntimeConnectionEntry) : RuntimeConnectionEntry :=
  let errorCode := statusErrorCode err in
  let dialIn := isDialIn (rc_transportKind e) in
  let failureCount := if dialIn then 0 else rc_failureCount e + 1 in
  rc_set_status (with_failureDetail err (with_errorCode errorCode (peer_status (if dialIn then cs_disconnected else cs_error) (rc_status e))))
    (rc_set_retryAfterMs (retryDeadline now failureCount errorCode dialIn) (rc_set_failureCount failureCount (rc_set_connection None e))).

(** The race or the read is over: [then] and [catch]. *)
Definition attempt_continues (now : Z) (k : nat) (m : manager) : mres :=
  match cm_attempts m !! k with
  | Some a =>
      match ca_public a, cm_entries m !! ca_key a with
      | pb_settling (Ok _), Some e =>
          readHostedAgents now k a e (if ca_adopt a then m else on_attempt k (ca_set_deadline false) m)
      | pb_settling (Err err), Some e =>
          if ca_adopt a then
            then_do (if stale a e then (m, [])
                     else publish (ca_userId a) (on_entry (ca_key a) (fun e => rc_set_status (peer_status cs_disconnected (rc_status e)) e) m))
              (attempt_answered k a (Err (normalizeUnavailable err)))
          else
            let failed := if isBoundElsewhere err then bound_elsewhere now else connect_failed now err in
            let answer := if isBoundElsewhere err then {| er_code := Some UNAVAILABLE; er_closeCode := er_closeCode err; er_sshFailureReason := er_sshFailureReason err;
                er_containerFailureReason := er_containerFailureReason err; er_localFailureReason := er_localFailureReason err; er_incomplete := false |}
              else normalizeUnavailable err in
            then_do (if stale a e then (m, []) else publish (ca_userId a) (on_entry (ca_key a) failed m)) (attempt_answered k a (Err answer))
      | _, _ => (m, [])
      end
  | None => (m, [])
  end.

(** The [finally] of [connect] *)
Definition attempt_finally (k : nat) (m : manager) : mres :=
  match cm_attempts m !! k with
  | Some a =>
      match ca_public a with
      | pb_finally o =>
          (on_attempt k (fun a => ca_set_public (pb_done o) (ca_set_deadline false a))
             (on_entry (ca_key a) (fun e =>
                let e := if bool_decide (rc_connecting e = Some k) then rc_set_connecting None e else e in
                if bool_decide (rc_abort e = Some k) then rc_set_abort None e else e) m), [MgSettled k o])
      | _ => (m, [])
      end
  | None => (m, [])
  end.

(** ** Losing, releasing *)

(** [markUnavailable] on its entry, the connection taken off it *)
Definition lost_connection (now : Z) (e : RuntimeConnectionEntry) : RuntimeConnectionEntry :=
  if rc_expectedUpdateDisconnect e then
    rc_set_status (with_flags false true false false (peer_status cs_disconnected (rc_status e)))
      (rc_set_retryAfterMs (At 0) (rc_set_failureCount 0 (rc_set_connectedAtMs None (rc_set_expectedUpdateDisconnect false e))))
  else
    let healthy := HEALTHY_CONNECTION_MS <=? now - default 0 (rc_connectedAtMs e) in
    let dialIn := isDialIn (rc_transportKind e) in
    let failureCount := if dialIn then 0 else if healthy then 1 else rc_failureCount e + 1 in
    let retry := retryDeadline now failureCount UNAVAILABLE dialIn in
    rc_set_status (with_errorCode UNAVAILABLE (peer_status (if bool_decide (retry = Never) then cs_error else cs_disconnected) (rc_status e)))
      (rc_set_retryAfterMs retry (rc_set_failureCount failureCount (rc_set_connectedAtMs None e))).

(** The [onUnavailable] an attempt gave its connector *)
Definition attempt_unavailable (now : Z) (k : nat) (m : manager) : mres :=
  match cm_attempts m !! k with
  | Some a =>
      let m := on_attempt k (ca_set_closedWhileOpening true) m in
      match cm_entries m !! ca_key a with
      | Some e =>
          match rc_connection e with
          | Some c =>
              if stale a e then (m, [])
              else
                then_do (closeConnection (ca_key a) c cr_none (on_entry (ca_key a) (rc_set_connection None) m)) (fun m =>
                  publish (ca_userId a) (on_entry (ca_key a) (lost_connection now) m))
          | None => (m, [])
          end
      | None => (m, [])
      end
  | None => (m, [])
  end.

(** [release] on its entry *)
Definition released_entry (r : nat) (e : RuntimeConnectionEntry) : RuntimeConnectionEntry :=
  rc_set_releasing (Some r)
    (rc_set_status (peer_status cs_disconnected (rc_status e))
       (rc_set_expectedUpdateDisconnect false
          (rc_set_retryAfterMs (At 0)
             (rc_set_failureCount 0
                (rc_set_connectedAtMs None (rc_set_connecting None (rc_set_connection None (rc_set_abort None (rc_set_revision (rc_revision e + 1) e))))))))).

Definition bound_openings (ks : list nat) (m : manager) : manager := foldr (fun k m => on_attempt k (ca_set_bounded true) m) m ks.

(** What a release waits for: the teardowns that failed or are pending, and the release before it. *)
Definition release_waits (key : jstring) (r : nat) (previous : option nat) (m : manager) : mres :=
  let waits := match cm_entries m !! key with Some e => rc_failedTeardowns e ++ rc_pendingTeardowns e | None => [] end in
  (cm_set_releases (<[r := {| rw_key := key; rw_waits := waits; rw_previous := previous; rw_outcome := None |}]> (cm_releases m)) m, []).

Definition release (key : jstring) (m : manager) : mres :=
  match cm_entries m !! key with
  | Some e =>
      let r := cm_next m in
      let m := bound_openings (rc_pendingOpenings e) (on_entry key (released_entry r) (cm_set_next (S r) m)) in
      then_do (then_do (match rc_abort e with Some k => abort_attempt k unavailable_error m | None => (m, []) end)
                 (fun m => match rc_connection e with Some c => closeConnection key c cr_released m | None => (m, []) end))
        (release_waits key r (rc_releasing e))
  | None => (m, [])
  end.

(** A release's teardowns have settled. *)
Definition release_settled (r : nat) (m : manager) : manager :=
  match cm_releases m !! r with
  | Some w =>
      let outcomes := map (fun td => cm_outcomes m !! td) (rw_waits w)
        ++ match rw_previous w with Some p => [match cm_releases m !! p with Some q => rw_outcome q | None => None end] | None => [] end in
      match rw_outcome w with
      | Some _ => m
      | None =>
          if forallb (fun o => match o with Some _ => true | None => false end) outcomes then
            let ok := forallb is_true outcomes in
            on_entry (rw_key w) (fun e => if bool_decide (rc_releasing e = Some r) then rc_set_releasing None e else e)
              (cm_set_releases (<[r := {| rw_key := rw_key w; rw_waits := rw_waits w; rw_previous := rw_previous w; rw_outcome := Some ok |}]> (cm_releases m)) m)
          else m
      end
  | None => m
  end.

Definition disconnect (userId environmentId : jstring) (m : manager) : mres :=
  let key := connectionKey userId environmentId in
  then_do (m, [MgForget key]) (fun m =>
    match cm_entries m !! key with Some _ => then_do (release key m) (publish userId) | None => (m, []) end).

Definition disconnectIfCurrent (userId environmentId : jstring) (expected : nat) (m : manager) : mres * bool :=
  let key := connectionKey userId environmentId in
  match cm_entries m !! key with
  | Some e => if bool_decide (rc_connection e = Some expected) then (then_do (release key m) (publish userId), true) else ((m, []), false)
  | None => ((m, []), false)
  end.

Fixpoint release_all (keys : list jstring) (m : manager) : mres :=
  match keys with [] => (m, []) | key :: rest => then_do (release key m) (release_all rest) end.

(** [closeAll] and the releases it waits for *)
Definition closeAll (m : manager) : mres * list nat :=
  let p := release_all (cm_keys m) m in (p, seq (cm_next m) (cm_next p.1 - cm_next m)).

Definition shutdown (m : manager) : mres :=
  match cm_shutdown m with
  | Some _ => (m, [])
  | None =>
      let '((m, es), rs) := closeAll (cm_set_shutdown (Some []) m) in (cm_set_shutdown (Some rs) m, es)
  end.

(** ** Small operations *)

Definition expectUpdateDisconnect (userId environmentId : jstring) (m : manager) : mres :=
  let key := connectionKey userId environmentId in
  match cm_entries m !! key with
  | Some _ =>
      publish userId (on_entry key (fun e =>
        let s := rc_status e in
        rc_set_status (with_flags (es_pullingImage s) true (es_offlineRuntimeCache s) (es_boundElsewhere s) s) (rc_set_expectedUpdateDisconnect true e)) m)
  | None => (m, [])
  end.

Definition clearExpectedUpdateDisconnect (userId environmentId : jstring) (m : manager) : mres :=
  let key := connectionKey userId environmentId in
  match cm_entries m !! key with
  | Some _ =>
      publish userId (on_entry key (fun e =>
        let s := rc_status e in
        rc_set_status (with_flags (es_pullingImage s) false (es_offlineRuntimeCache s) (es_boundElsewhere s) s) (rc_set_expectedUpdateDisconnect false e)) m)
  | None => (m, [])
  end.

Definition clearBackoff (userId environmentId : jstring) (m : manager) : mres :=
  let key := connectionKey userId environmentId in
  match cm_entries m !! key with
  | Some e =>
      if (rc_failureCount e =? 0) && bool_decide (rc_retryAfterMs e = At 0) then (m, [])
      else
        publish userId (on_entry key (fun e =>
          let e := rc_set_retryAfterMs (At 0) (rc_set_failureCount 0 e) in
          if bool_decide (es_state (rc_status e) = cs_error) then rc_set_status (peer_status cs_disconnected (rc_status e)) e else e) m)
  | None => (m, [])
  end.

Definition clearHealth (userId environmentId : jstring) (m : manager) : mres :=
  let key := connectionKey userId environmentId in
  then_do (m, [MgForget key]) (fun m =>
    match cm_entries m !! key with
    | Some e =>
        let hadPeer := bool_decide (is_Some (rc_health e)) || bool_decide (is_Some (rc_healthReadAtMs e)) || bool_decide (is_Some (es_manifest (rc_status e)))
          || bool_decide (is_Some (es_runtimeVersion (rc_status e))) in
        if negb hadPeer then (m, [])
        else
          (on_entry key (fun e =>
             let s := rc_status e in
             let state := match es_state s with cs_connected => cs_disconnected | x => x end in
             rc_set_status
               {| es_state := state; es_manifest := None; es_errorCode := es_errorCode s; es_runtimeVersion := None; es_runtimeVersionDrift := None;
                  es_sshFailureReason := es_sshFailureReason s; es_containerFailureReason := None; es_localFailureReason := None; es_pullingImage := false;
                  es_updating := false; es_offlineRuntimeCache := false; es_boundElsewhere := false |}
               (rc_set_healthReadAtMs None (rc_set_health None e))) m, [])
    | None => (m, [])
    end).

(** [reportPhase] *)
Definition reportPhase (k : nat) (phase : RuntimeConnectPhase) (m : manager) : mres :=
  match cm_attempts m !! k with
  | Some a =>
      match cm_entries m !! ca_key a with
      | Some e =>
          let s := rc_status e in
          if stale a e || negb (bool_decide (es_state s = cs_connecting)) then (m, [])
          else
            match phase with
            | ph_offline_cache =>
                if es_offlineRuntimeCache s then (m, [])
                else publish (ca_userId a) (on_entry (ca_key a) (rc_set_status (with_flags (es_pullingImage s) (es_updating s) true (es_boundElsewhere s) s)) m)
            | ph_pulling =>
                if es_pullingImage s then (m, [])
                else
                  then_do (publish (ca_userId a) (on_entry (ca_key a) (rc_set_status (with_flags true (es_updating s) (es_offlineRuntimeCache s) (es_boundElsewhere s) s)) m))
                    (fun m => (m, map MgWake (rc_pullWaiters e)))
            end
      | None => (m, [])
      end
  | None => (m, [])
  end.

(** ** Reading *)

Definition getStatus (userId environmentId : jstring) (m : manager) : EnvironmentConnectionStatus :=
  match cm_entries m !! connectionKey userId environmentId with Some e => rc_status e | None => bare_status cs_disconnected end.

Definition getCachedHealth (userId environmentId : jstring) (m : manager) : option (RuntimeHealthReport * Z) :=
  match cm_entries m !! connectionKey userId environmentId with
  | Some e => match rc_health e, rc_healthReadAtMs e with Some h, Some t => Some (h, t) | _, _ => None end
  | None => None
  end.

Definition isIdentityAttested (userId environmentId : jstring) (m : manager) : bool :=
  match cm_entries m !! connectionKey userId environmentId with
  | Some e => match rc_connection e ≫= fun c => cm_conns m !! c with Some conn => cn_identityAttested conn | None => false end
  | None => false
  end.

(** ** Runs *)

Inductive manager_op : Type :=
| MoConnect (now : Z) (userId environmentId : jstring) (force : bool)
| MoConnectInteractive (now : Z) (userId environmentId : jstring)
| MoWaiterDone (w : nat)
| MoResolved (k : nat) (answer : outcome conn_error (option RuntimeEnvironmentDefinition))
| MoDeadline (k : nat)
| MoPhase (k : nat) (phase : RuntimeConnectPhase)
| MoAdopt (userId environmentId : jstring)
| MoAdoptResolved (n : nat) (answer : outcome conn_error (option RuntimeEnvironmentDefinition))
| MoAdoptStarted (k : nat)
| MoDelivered (k : nat) (now : Z) (mf : manifest) (version : jstring) (isolation : option HubExternalAgentIsolation) (attested : bool) (hookError : option conn_error)
| MoRejected (k : nat) (err : conn_error)
| MoExpired (k : nat)
| MoContinue (now : Z) (k : nat)
| MoFinally (k : nat)
| MoUnavailable (now : Z) (k : nat)
| MoCloseSettled (c : nat) (ok : bool)
| MoReleaseSettled (r : nat)
| MoDisconnect (userId environmentId : jstring)
| MoDisconnectIfCurrent (userId environmentId : jstring) (expected : nat)
| MoCloseAll
| MoShutdown
| MoExpectUpdate (userId environmentId : jstring)
| MoClearExpected (userId environmentId : jstring)
| MoClearBackoff (userId environmentId : jstring)
| MoClearHealth (userId environmentId : jstring)
| MoRefresh (now : Z) (userId environmentId : jstring)
| MoRefreshIfStale (now : Z) (userId environmentId : jstring)
| MoHealth (f : nat) (answer : option RuntimeHealthReport).

Definition manager_step (o : manager_op) (m : manager) : mres :=
  match o with
  | MoConnect now userId environmentId force => (connect now userId environmentId force m).1
  | MoConnectInteractive now userId environmentId => (connectInteractive now userId environmentId m).1
  | MoWaiterDone w => (waiter_done w m, [])
  | MoResolved k answer => connect_resolved k answer m
  | MoDeadline k => connect_deadline k m
  | MoPhase k phase => reportPhase k phase m
  | MoAdopt userId environmentId => (adopt_call userId environmentId m, [])
  | MoAdoptResolved n answer => adopt_resolved n answer m
  | MoAdoptStarted k => adopt_started k m
  | MoDelivered k now mf version isolation attested hookError => opening_delivered k now mf version isolation attested hookError m
  | MoRejected k err => opening_rejected k err m
  | MoExpired k => (opening_expired k m, [])
  | MoContinue now k => attempt_continues now k m
  | MoFinally k => attempt_finally k m
  | MoUnavailable now k => attempt_unavailable now k m
  | MoCloseSettled c ok => close_settled c ok m
  | MoReleaseSettled r => (release_settled r m, [])
  | MoDisconnect userId environmentId => disconnect userId environmentId m
  | MoDisconnectIfCurrent userId environmentId expected => (disconnectIfCurrent userId environmentId expected m).1
  | MoCloseAll => (closeAll m).1
  | MoShutdown => shutdown m
  | MoExpectUpdate userId environmentId => expectUpdateDisconnect userId environmentId m
  | MoClearExpected userId environmentId => clearExpectedUpdateDisconnect userId environmentId m
  | MoClearBackoff userId environmentId => clearBackoff userId environmentId m
  | MoClearHealth userId environmentId => clearHealth userId environmentId m
  | MoRefresh now userId environmentId => (refresh_start now userId environmentId None false m).1
  | MoRefreshIfStale now userId environmentId => refreshManifestIfStale now userId environmentId m
  | MoHealth f answer => health_answered f answer m
  end.

Fixpoint manager_run (os : list manager_op) (m : manager) : mres :=
  match os with [] => (m, []) | o :: rest => then_do (manager_step o m) (manager_run rest) end.
