(* ===== verification/ConnectionOwnership.v ===== *)
(** * The runtime connection manager: who owns a connection

    What the manager's state says about connections, as a smaller state of its own ([owned]), the moves its operations make on it,
    and the invariant the moves keep. *)

From S2P Require Import Prelude Wire RuntimeManifest ConnectionManager.

(** ** The view *)

Record own_entry : Type := { oe_revision : Z; oe_connection : option nat; oe_abort : option nat }.

Inductive own_public : Type := ou_racing | ou_ok | ou_err | ou_past.

Record own_attempt : Type := {
  oa_key : jstring;
  oa_revision : Z;
  oa_adopt : bool;
  oa_aborted : bool;
  oa_opening : opening_stage;
  oa_public : own_public;
}.

Record owned : Type := {
  ow_entries : gmap jstring own_entry;
  ow_attempts : gmap nat own_attempt;
  ow_conns : gmap nat nat;
  ow_closings : gset nat;
  ow_next : nat;
}.

Definition core (e : RuntimeConnectionEntry) : own_entry :=
  {| oe_revision := rc_revision e; oe_connection := rc_connection e; oe_abort := rc_abort e |}.

Definition public_of (p : public_stage) : own_public :=
  match p with pb_racing => ou_racing | pb_settling (Ok _) => ou_ok | pb_settling (Err _) => ou_err | _ => ou_past end.

Definition acore (a : connect_attempt) : own_attempt :=
  {| oa_key := ca_key a; oa_revision := ca_revision a; oa_adopt := ca_adopt a; oa_aborted := was_aborted a; oa_opening := ca_opening a;
     oa_public := public_of (ca_public a) |}.

Definition view (m : manager) : owned :=
  {| ow_entries := core <$> cm_entries m; ow_attempts := acore <$> cm_attempts m; ow_conns := cn_attempt <$> cm_conns m; ow_closings := cm_closings m;
     ow_next := cm_next m |}.

(** ** The invariant *)

Record own_inv (o : owned) : Prop := {
  oi_attempt_fresh : forall k a, ow_attempts o !! k = Some a -> (k < ow_next o)%nat;
  oi_conn_fresh : forall c k, ow_conns o !! c = Some k -> (c < ow_next o)%nat;
  oi_closing : forall c, c ∈ ow_closings o -> is_Some (ow_conns o !! c);
  oi_revision : forall k a, ow_attempts o !! k = Some a -> exists e, ow_entries o !! oa_key a = Some e /\ oa_revision a <= oe_revision e;
  oi_unique : forall j k a b, ow_attempts o !! j = Some a -> ow_attempts o !! k = Some b -> oa_key a = oa_key b -> oa_revision a = oa_revision b -> j = k;
  oi_conn : forall c k, ow_conns o !! c = Some k -> exists a, ow_attempts o !! k = Some a /\ oa_opening a = og_settled;
  oi_single : forall c d k, ow_conns o !! c = Some k -> ow_conns o !! d = Some k -> c = d;
  oi_live : forall key e c, ow_entries o !! key = Some e -> oe_connection e = Some c -> c ∉ ow_closings o /\
    exists k a, ow_conns o !! c = Some k /\ ow_attempts o !! k = Some a /\ oa_key a = key /\ oa_revision a = oe_revision e;
  oi_owned : forall c k, ow_conns o !! c = Some k -> c ∈ ow_closings o \/ exists key e, ow_entries o !! key = Some e /\ oe_connection e = Some c;
  oi_failed : forall k a e, ow_attempts o !! k = Some a -> oa_public a = ou_err \/ oa_public a = ou_racing -> ow_entries o !! oa_key a = Some e ->
    oe_revision e = oa_revision a -> oe_connection e = None;
  oi_racing : forall k a, ow_attempts o !! k = Some a -> oa_opening a <> og_settled -> oa_public a = ou_racing \/ oa_aborted a = true;
  oi_adopt : forall k a e, ow_attempts o !! k = Some a -> oa_adopt a = true -> oa_aborted a = true -> ow_entries o !! oa_key a = Some e -> oa_revision a < oe_revision e;
  oi_abort : forall key e k, ow_entries o !! key = Some e -> oe_abort e = Some k -> exists a, ow_attempts o !! k = Some a /\ oa_key a = key;
}.

(** ** Moves *)

Definition set_attempt (k : nat) (a : own_attempt) (o : owned) : owned :=
  {| ow_entries := ow_entries o; ow_attempts := <[k := a]> (ow_attempts o); ow_conns := ow_conns o; ow_closings := ow_closings o; ow_next := ow_next o |}.

Definition set_entry (key : jstring) (e : own_entry) (o : owned) : owned :=
  {| ow_entries := <[key := e]> (ow_entries o); ow_attempts := ow_attempts o; ow_conns := ow_conns o; ow_closings := ow_closings o; ow_next := ow_next o |}.

Definition shut (cs : gset nat) (o : owned) : owned :=
  {| ow_entries := ow_entries o; ow_attempts := ow_attempts o; ow_conns := ow_conns o; ow_closings := cs ∪ ow_closings o; ow_next := ow_next o |}.

Definition set_next (n : nat) (o : owned) : owned :=
  {| ow_entries := ow_entries o; ow_attempts := ow_attempts o; ow_conns := ow_conns o; ow_closings := ow_closings o; ow_next := n |}.

Definition conn_set (c : option nat) : gset nat := match c with Some c => {[c]} | None => ∅ end.

Lemma set_next_inv n o : own_inv o -> (ow_next o <= n)%nat -> own_inv (set_next n o).
Proof. intros [] Hn. constructor; try done; intros; (eapply Nat.lt_le_trans; [|exact Hn]); eauto. Qed.

(** An attempt moves on. *)
Lemma set_attempt_inv k a a' o : own_inv o -> ow_attempts o !! k = Some a -> oa_key a' = oa_key a -> oa_revision a' = oa_revision a -> oa_adopt a' = oa_adopt a ->
  (oa_opening a = og_settled -> oa_opening a' = og_settled) -> (oa_opening a' <> og_settled -> oa_public a' = ou_racing \/ oa_aborted a' = true) ->
  (oa_adopt a = true -> oa_aborted a' = true -> forall e, ow_entries o !! oa_key a = Some e -> oa_revision a < oe_revision e) ->
  (oa_public a' = ou_err \/ oa_public a' = ou_racing -> forall e, ow_entries o !! oa_key a = Some e -> oe_revision e = oa_revision a -> oe_connection e = None) ->
  own_inv (set_attempt k a' o).
Proof.
  intros I Hk Ek Er Ea Hop Hrace Had Herr.
  assert (HA : forall j b, <[k := a']> (ow_attempts o) !! j = Some b -> j = k /\ b = a' \/ j <> k /\ ow_attempts o !! j = Some b).
  { intros j b Hj. apply lookup_insert_Some in Hj as [[-> <-]|[Hn Hj]]; [by left|right; auto]. }
  assert (HB : forall j b, ow_attempts o !! j = Some b -> exists b', <[k := a']> (ow_attempts o) !! j = Some b' /\ oa_key b' = oa_key b /\ oa_revision b' = oa_revision b /\
    (oa_opening b = og_settled -> oa_opening b' = og_settled)).
  { intros j b Hj. destruct (decide (j = k)) as [->|Hn]; [exists a'; rewrite lookup_insert_eq; by simplify_eq|exists b; by rewrite lookup_insert_ne]. }
  constructor; cbn.
  - intros j b Hj. destruct (HA j b Hj) as [[-> ->]|[_ Hj']]; by eapply oi_attempt_fresh.
  - apply (oi_conn_fresh _ I).
  - apply (oi_closing _ I).
  - intros j b Hj. destruct (HA j b Hj) as [[-> ->]|[_ Hj']]; [rewrite Ek, Er|]; by eapply oi_revision.
  - intros j j' b b' Hj Hj' E1 E2. destruct (HA j b Hj) as [[-> ->]|[_ Hj1]], (HA j' b' Hj') as [[-> ->]|[_ Hj2]]; try done;
      rewrite ?Ek, ?Er in *; by eapply oi_unique.
  - intros c j Hc. destruct (oi_conn _ I c j Hc) as (b & Hb & Hs). destruct (HB j b Hb) as (b' & Hb' & _ & _ & Hop'). eauto.
  - apply (oi_single _ I).
  - intros key e c He Hc. destruct (oi_live _ I key e c He Hc) as (Hn & j & b & Hj & Hb & E1 & E2). split; [done|].
    destruct (HB j b Hb) as (b' & Hb' & E3 & E4 & _). exists j, b'. repeat split; congruence.
  - apply (oi_owned _ I).
  - intros j b e Hj Hp He Hr. destruct (HA j b Hj) as [[-> ->]|[_ Hj']]; [rewrite Ek, Er in *; by apply Herr|by eapply oi_failed].
  - intros j b Hj Ho. destruct (HA j b Hj) as [[-> ->]|[_ Hj']]; [by apply Hrace|by eapply oi_racing].
  - intros j b e Hj H1 H2 He. destruct (HA j b Hj) as [[-> ->]|[_ Hj']]; [rewrite Ek, Er, Ea in *; by apply Had|by eapply oi_adopt].
  - intros key e j He Hab. destruct (oi_abort _ I key e j He Hab) as (b & Hb & E). destruct (HB j b Hb) as (b' & Hb' & E' & _). exists b'. split; congruence.
Qed.

(** An entry gives up its connection, which is closed. *)
Lemma drop_inv key e e' o : own_inv o -> ow_entries o !! key = Some e -> oe_revision e <= oe_revision e' -> oe_connection e' = None ->
  (oe_abort e' = None \/ oe_abort e' = oe_abort e) -> own_inv (shut (conn_set (oe_connection e)) (set_entry key e' o)).
Proof.
  intros I He Hr Hc Hab.
  assert (HE : forall x b, <[key := e']> (ow_entries o) !! x = Some b -> x = key /\ b = e' \/ x <> key /\ ow_entries o !! x = Some b).
  { intros x b Hx. apply lookup_insert_Some in Hx as [[-> <-]|[Hn Hx]]; [by left|right; auto]. }
  assert (HL : forall c x b, ow_entries o !! x = Some b -> oe_connection b = Some c -> x <> key -> c ∉ conn_set (oe_connection e)).
  { intros c x b Hx Hb Hn. destruct (oe_connection e) as [d|] eqn:Ed; cbn; [|set_solver]. rewrite elem_of_singleton. intros ->.
    destruct (oi_live _ I x b d Hx Hb) as (_ & k1 & a1 & Hk1 & Ha1 & E1 & _). destruct (oi_live _ I key e d He Ed) as (_ & k2 & a2 & Hk2 & Ha2 & E2 & _).
    congruence. }
  constructor; cbn.
  - apply (oi_attempt_fresh _ I).
  - apply (oi_conn_fresh _ I).
  - intros c [Hin|Hin]%elem_of_union; [|by apply (oi_closing _ I)]. destruct (oe_connection e) as [d|] eqn:Ed; cbn in Hin; [|set_solver].
    apply elem_of_singleton in Hin as ->. destruct (oi_live _ I key e d He Ed) as (_ & k & a & Hk & _). eauto.
  - intros k a Hk. destruct (oi_revision _ I k a Hk) as (b & Hb & Hle). destruct (decide (oa_key a = key)) as [E|Hn].
    + exists e'. rewrite E, lookup_insert_eq. split; [done|]. rewrite E, He in Hb. simplify_eq. lia.
    + exists b. by rewrite lookup_insert_ne.
  - apply (oi_unique _ I).
  - apply (oi_conn _ I).
  - apply (oi_single _ I).
  - intros x b c Hx Hb. destruct (HE x b Hx) as [[-> ->]|[Hn Hx']]; [congruence|]. destruct (oi_live _ I x b c Hx' Hb) as (Hnc & H). split; [|done].
    rewrite elem_of_union. intros [Hin|Hin]; [by eapply HL|done].
  - intros c k Hk. destruct (oi_owned _ I c k Hk) as [Hin|(x & b & Hx & Hb)]; [left; set_solver|]. destruct (decide (x = key)) as [->|Hn].
    + left. simplify_eq. rewrite Hb. cbn. set_solver.
    + right. exists x, b. by rewrite lookup_insert_ne.
  - intros k a b Hk Hp Hb Hrev. destruct (HE _ b Hb) as [[_ ->]|[Hn Hb']]; [done|]. by eapply oi_failed.
  - apply (oi_racing _ I).
  - intros k a b Hk H1 H2 Hb. destruct (HE _ b Hb) as [[E ->]|[Hn Hb']]; [|by eapply oi_adopt].
    rewrite <- E in He. pose proof (oi_adopt _ I k a e Hk H1 H2 He). lia.
  - intros x b k Hx Hb. destruct (HE x b Hx) as [[-> ->]|[Hn Hx']]; [|by eapply oi_abort]. destruct Hab as [Hab|Hab]; [congruence|].
    rewrite Hab in Hb. by eapply oi_abort.
Qed.

(** Anything but the abort handle of an entry stays. *)
Lemma keep_inv key e e' o : own_inv o -> ow_entries o !! key = Some e -> oe_revision e' = oe_revision e -> oe_connection e' = oe_connection e ->
  (oe_abort e' = None \/ oe_abort e' = oe_abort e) -> own_inv (set_entry key e' o).
Proof.
  intros I He Hr Hc Hab.
  assert (HE : forall x b, <[key := e']> (ow_entries o) !! x = Some b -> exists b0, ow_entries o !! x = Some b0 /\ oe_revision b = oe_revision b0 /\
    oe_connection b = oe_connection b0 /\ (oe_abort b = None \/ oe_abort b = oe_abort b0)).
  { intros x b Hx. apply lookup_insert_Some in Hx as [[-> <-]|[Hn Hx]]; eauto 10. }
  assert (HB : forall x b, ow_entries o !! x = Some b -> exists b', <[key := e']> (ow_entries o) !! x = Some b' /\ oe_revision b' = oe_revision b /\ oe_connection b' = oe_connection b).
  { intros x b Hx. destruct (decide (x = key)) as [->|Hn]; [exists e'; rewrite lookup_insert_eq; by simplify_eq|exists b; by rewrite lookup_insert_ne]. }
  constructor; cbn; try apply I.
  - intros k a Hk. destruct (oi_revision _ I k a Hk) as (b & Hb & Hle). destruct (HB _ b Hb) as (b' & ? & E & _). exists b'. split; [done|lia].
  - intros x b c Hx Hb. destruct (HE x b Hx) as (b0 & Hb0 & E1 & E2 & _). rewrite E1. rewrite E2 in Hb. by eapply oi_live.
  - intros c k Hk. destruct (oi_owned _ I c k Hk) as [|(x & b & Hx & Hb)]; [by left|]. right. destruct (HB x b Hx) as (b' & ? & _ & E). exists x, b'. split; [done|congruence].
  - intros k a b Hk Hp Hb Hrev. destruct (HE _ b Hb) as (b0 & Hb0 & E1 & E2 & _). rewrite E2. rewrite E1 in Hrev. by eapply oi_failed.
  - intros k a b Hk H1 H2 Hb. destruct (HE _ b Hb) as (b0 & Hb0 & E1 & _). rewrite E1. by eapply oi_adopt.
  - intros x b k Hx Hb. destruct (HE x b Hx) as (b0 & Hb0 & _ & _ & [E|E]); [congruence|]. rewrite E in Hb. by eapply oi_abort.
Qed.

(** An entry appears. *)
Lemma fresh_entry_inv key r o : own_inv o -> ow_entries o !! key = None -> own_inv (set_entry key {| oe_revision := r; oe_connection := None; oe_abort := None |} o).
Proof.
  intros I Hk. assert (HE : forall x b, ow_entries o !! x = Some b -> x <> key) by congruence.
  constructor; cbn; try apply I.
  - intros k a Hka. destruct (oi_revision _ I k a Hka) as (b & Hb & Hle). exists b. split; [|done]. rewrite lookup_insert_ne; [done|]. intros E. by apply (HE _ _ Hb).
  - intros x b c [[<- <-]|[_ Hx]]%lookup_insert_Some Hb; [done|by eapply oi_live].
  - intros c k Hc. destruct (oi_owned _ I c k Hc) as [|(x & b & Hx & Hb)]; [by left|]. right. exists x, b. rewrite lookup_insert_ne; [done|]. intros <-. by apply (HE _ _ Hx).
  - intros k a b Hka Hp [[_ <-]|[_ Hx]]%lookup_insert_Some Hr; [done|by eapply oi_failed].
  - intros k a b Hka H1 H2 [[E <-]|[_ Hx]]%lookup_insert_Some; [|by eapply oi_adopt]. destruct (oi_revision _ I k a Hka) as (b & Hb & _). congruence.
  - intros x b k [[<- <-]|[_ Hx]]%lookup_insert_Some Hb; [done|by eapply oi_abort].
Qed.

Definition new_own (key : jstring) (revision : Z) (adopting : bool) : own_attempt :=
  {| oa_key := key; oa_revision := revision; oa_adopt := adopting; oa_aborted := false; oa_opening := og_before; oa_public := ou_racing |}.

(** An attempt begins on an entry, superseding what is there. *)
Definition begin_move (key : jstring) (e : own_entry) (adopting : bool) (o : owned) : owned :=
  set_next (S (ow_next o))
    (set_attempt (ow_next o) (new_own key (oe_revision e + 1) adopting)
       (shut (conn_set (oe_connection e)) (set_entry key {| oe_revision := oe_revision e + 1; oe_connection := None; oe_abort := Some (ow_next o) |} o))).

Lemma begin_inv key e adopting o : own_inv o -> ow_entries o !! key = Some e -> own_inv (begin_move key e adopting o).
Proof.
  intros I He. set (e1 := {| oe_revision := oe_revision e + 1; oe_connection := None; oe_abort := None |}).
  assert (I1 : own_inv (shut (conn_set (oe_connection e)) (set_entry key e1 o))) by (apply drop_inv; [done..|cbn; lia|done|by left]).
  assert (Hlow : forall k a, ow_attempts o !! k = Some a -> k <> ow_next o /\ (oa_key a = key -> oa_revision a < oe_revision e + 1)).
  { intros k a Hk. split; [intros ->; pose proof (oi_attempt_fresh _ I _ _ Hk); lia|]. intros E. destruct (oi_revision _ I k a Hk) as (b & Hb & Hle).
    rewrite E, He in Hb. simplify_eq. lia. }
  set (k0 := ow_next o) in *. set (a0 := new_own key (oe_revision e + 1) adopting). set (e2 := {| oe_revision := oe_revision e + 1; oe_connection := None; oe_abort := Some k0 |}).
  assert (HA : forall j b, <[k0 := a0]> (ow_attempts o) !! j = Some b -> j = k0 /\ b = a0 \/ j <> k0 /\ ow_attempts o !! j = Some b).
  { intros j b Hj. apply lookup_insert_Some in Hj as [[-> <-]|[Hn Hj]]; [by left|right; auto]. }
  assert (HE : forall x b, <[key := e2]> (ow_entries o) !! x = Some b -> exists b1, <[key := e1]> (ow_entries o) !! x = Some b1 /\ oe_revision b = oe_revision b1 /\
    oe_connection b = oe_connection b1 /\ (x = key /\ b = e2 \/ b = b1)).
  { intros x b [[<- <-]|[Hn Hx]]%lookup_insert_Some; [exists e1; rewrite lookup_insert_eq|exists b; rewrite lookup_insert_ne by done]; repeat split; auto. }
  assert (HF : forall x b, <[key := e1]> (ow_entries o) !! x = Some b -> exists b1, <[key := e2]> (ow_entries o) !! x = Some b1 /\ oe_revision b1 = oe_revision b /\ oe_connection b1 = oe_connection b).
  { intros x b [[<- <-]|[Hn Hx]]%lookup_insert_Some; [exists e2; by rewrite lookup_insert_eq|exists b; by rewrite lookup_insert_ne]. }
  assert (HG : forall j b, ow_attempts o !! j = Some b -> <[k0 := a0]> (ow_attempts o) !! j = Some b).
  { intros j b Hj. rewrite lookup_insert_ne; [done|]. destruct (Hlow j b Hj). auto. }
  constructor; cbn -[new_own].
  - intros j b Hj. destruct (HA j b Hj) as [[-> _]|[_ Hj']]; [lia|]. pose proof (oi_attempt_fresh _ I _ _ Hj'). lia.
  - intros c j Hc. pose proof (oi_conn_fresh _ I _ _ Hc). lia.
  - apply (oi_closing _ I1).
  - intros j b Hj. destruct (HA j b Hj) as [[-> ->]|[_ Hj']]; [exists e2; cbn; rewrite lookup_insert_eq; split; [done|cbn; lia]|].
    destruct (oi_revision _ I1 j b Hj') as (x & Hx & Hle). destruct (HF _ x Hx) as (x1 & ? & E & _). exists x1. split; [done|lia].
  - intros j j' b b' Hj Hj' E1 E2. destruct (HA j b Hj) as [[-> ->]|[_ Hj1]], (HA j' b' Hj') as [[-> ->]|[_ Hj2]]; try done; [| |by eapply oi_unique].
    + destruct (Hlow j' b' Hj2) as [_ Hl]. cbn in E1, E2. specialize (Hl (eq_sym E1)). lia.
    + destruct (Hlow j b Hj1) as [_ Hl]. cbn in E1, E2. specialize (Hl E1). lia.
  - intros c j Hc. destruct (oi_conn _ I c j Hc) as (b & Hb & Hs). eauto.
  - apply (oi_single _ I).
  - intros x b c Hx Hb. destruct (HE x b Hx) as (b1 & Hb1 & E1 & E2 & _). rewrite E1. rewrite E2 in Hb. destruct (oi_live _ I1 x b1 c Hb1 Hb) as (? & j & a & ? & ? & ?).
    split; [done|]. exists j, a. split; [done|]. split; [by apply HG|done].
  - intros c j Hc. destruct (oi_owned _ I1 c j Hc) as [|(x & b & Hx & Hb)]; [by left|]. right. destruct (HF x b Hx) as (b1 & ? & _ & E). exists x, b1. split; [done|congruence].
  - intros j b x Hj Hp Hx Hr. destruct (HA j b Hj) as [[-> ->]|[_ Hj']].
    + cbn in Hx. rewrite lookup_insert_eq in Hx. by simplify_eq.
    + destruct (HE _ x Hx) as (x1 & Hx1 & E1 & E2 & _). rewrite E2. rewrite E1 in Hr. by eapply (oi_failed _ I1).
  - intros j b Hj Ho. destruct (HA j b Hj) as [[-> ->]|[_ Hj']]; [by left|by eapply (oi_racing _ I)].
  - intros j b x Hj H1 H2 Hx. destruct (HA j b Hj) as [[-> ->]|[_ Hj']]; [done|]. destruct (HE _ x Hx) as (x1 & Hx1 & E1 & _). rewrite E1. by eapply (oi_adopt _ I1).
  - intros x b j Hx Hb. destruct (HE x b Hx) as (b1 & Hb1 & _ & _ & [[-> ->]| ->]).
    + cbn in Hb. injection Hb as <-. exists a0. by rewrite lookup_insert_eq.
    + destruct (oi_abort _ I1 x b1 j Hb1 Hb) as (a & Ha & E). exists a. split; [by apply HG|done].
Qed.

(** A connection is delivered; [live] entries take it, the others have it closed. *)
Definition add_conn (k : nat) (o : owned) : owned :=
  {| ow_entries := ow_entries o; ow_attempts := ow_attempts o; ow_conns := <[ow_next o := k]> (ow_conns o); ow_closings := ow_closings o; ow_next := S (ow_next o) |}.

Lemma fresh_conn c o : own_inv o -> (ow_next o <= c)%nat -> ow_conns o !! c = None /\ c ∉ ow_closings o.
Proof.
  intros I Hc. assert (Hn : ow_conns o !! c = None). { destruct (ow_conns o !! c) eqn:E; [|done]. pose proof (oi_conn_fresh _ I _ _ E). lia. }
  split; [done|]. intros Hin. destruct (oi_closing _ I c Hin) as [x Hx]. congruence.
Qed.

Lemma refuse_inv k a o : own_inv o -> ow_attempts o !! k = Some a -> oa_opening a = og_settled -> (forall c, ow_conns o !! c <> Some k) -> own_inv (shut {[ow_next o]} (add_conn k o)).
Proof.
  intros I Hk Hs Hone. destruct (fresh_conn (ow_next o) o I (le_n _)) as [Hn Hnc]. constructor; cbn; try apply I.
  - intros j b Hj. pose proof (oi_attempt_fresh _ I _ _ Hj). lia.
  - intros c j [[<- <-]|[_ Hc]]%lookup_insert_Some; [lia|]. pose proof (oi_conn_fresh _ I _ _ Hc). lia.
  - intros c [Hin|Hin]%elem_of_union; [apply elem_of_singleton in Hin as ->; rewrite lookup_insert_eq; eauto|].
    destruct (oi_closing _ I c Hin) as [x Hx]. exists x. rewrite lookup_insert_ne; [done|]. intros <-. done.
  - intros c j [[<- <-]|[_ Hc]]%lookup_insert_Some; [eauto|by eapply oi_conn].
  - intros c d j [[<- <-]|[_ Hc']]%lookup_insert_Some [[<- ?]|[_ Hd]]%lookup_insert_Some; subst; try done; [by destruct (Hone d)|by destruct (Hone c)|by eapply oi_single].
  - intros x b c Hx Hb. destruct (oi_live _ I x b c Hx Hb) as (H1 & j & d & Hj & H2). assert (c <> ow_next o) by congruence.
    split; [set_solver|]. exists j, d. by rewrite lookup_insert_ne.
  - intros c j [[<- <-]|[_ Hc]]%lookup_insert_Some; [left; set_solver|]. destruct (oi_owned _ I c j Hc); [left; set_solver|by right].
Qed.

(** The entry takes it: the attempt is the entry's own, has not failed, and the entry holds none. *)
Lemma install_inv k a e o : own_inv o -> ow_attempts o !! k = Some a -> oa_opening a = og_settled -> oa_public a <> ou_err -> oa_public a <> ou_racing ->
  ow_entries o !! oa_key a = Some e -> oe_revision e = oa_revision a -> oe_connection e = None -> (forall c, ow_conns o !! c <> Some k) ->
  own_inv (set_entry (oa_key a) {| oe_revision := oe_revision e; oe_connection := Some (ow_next o); oe_abort := oe_abort e |} (add_conn k o)).
Proof.
  intros I Hk Hs Hp Hp' He Hr Hc Hone. destruct (fresh_conn (ow_next o) o I (le_n _)) as [Hn Hnc]. set (e1 := {| oe_revision := oe_revision e; oe_connection := _; oe_abort := _ |}).
  assert (HE : forall x b, <[oa_key a := e1]> (ow_entries o) !! x = Some b -> x = oa_key a /\ b = e1 \/ x <> oa_key a /\ ow_entries o !! x = Some b).
  { intros x b [[<- <-]|[Hx ?]]%lookup_insert_Some; [by left|right; auto]. }
  constructor; cbn.
  - intros j b Hj. pose proof (oi_attempt_fresh _ I _ _ Hj). lia.
  - intros c j [[<- <-]|[_ Hc']]%lookup_insert_Some; [lia|]. pose proof (oi_conn_fresh _ I _ _ Hc'). lia.
  - intros c Hin. destruct (oi_closing _ I c Hin) as [x Hx]. exists x. rewrite lookup_insert_ne; [done|]. intros <-. done.
  - intros j b Hj. destruct (oi_revision _ I j b Hj) as (x & Hx & Hle). destruct (decide (oa_key b = oa_key a)) as [E|Hne].
    + exists e1. rewrite E, lookup_insert_eq. split; [done|]. rewrite E in Hx. by simplify_eq.
    + exists x. by rewrite lookup_insert_ne.
  - apply (oi_unique _ I).
  - intros c j [[<- <-]|[_ Hc']]%lookup_insert_Some; [eauto|by eapply oi_conn].
  - intros c d j [[<- <-]|[_ Hc']]%lookup_insert_Some [[<- ?]|[_ Hd]]%lookup_insert_Some; subst; try done; [by destruct (Hone d)|by destruct (Hone c)|by eapply oi_single].
  - intros x b c Hx Hb. destruct (HE x b Hx) as [[-> ->]|[Hne Hx']].
    + cbn in Hb. injection Hb as <-. split; [done|]. exists k, a. rewrite lookup_insert_eq. repeat split; try done.
    + destruct (oi_live _ I x b c Hx' Hb) as (H1 & j & d & Hj & H2). split; [done|]. exists j, d. rewrite lookup_insert_ne; [done|congruence].
  - intros c j [[<- <-]|[_ Hc']]%lookup_insert_Some; [right; exists (oa_key a), e1; by rewrite lookup_insert_eq|].
    destruct (oi_owned _ I c j Hc') as [|(x & b & Hx & Hb)]; [by left|]. right. exists x, b. rewrite lookup_insert_ne; [done|]. intros <-. congruence.
  - intros j b x Hj Hpb Hx Hrx. destruct (HE _ x Hx) as [[E ->]|[_ Hx']]; [|by eapply oi_failed].
    cbn in Hrx. rewrite Hr in Hrx. assert (j = k) as -> by (eapply (oi_unique _ I); [done..|congruence]). destruct Hpb; congruence.
  - apply (oi_racing _ I).
  - intros j b x Hj H1 H2 Hx. destruct (HE _ x Hx) as [[E ->]|[_ Hx']]; [|by eapply oi_adopt]. cbn. rewrite <- E in He. by eapply (oi_adopt _ I).
  - intros x b j Hx Hb. destruct (HE x b Hx) as [[-> ->]|[_ Hx']]; [|by eapply oi_abort]. cbn in Hb. by eapply (oi_abort _ I).
Qed.
