(* ===== verification/ConnectionOwned.v ===== *)
(** * The runtime connection manager: every connection is live or closed

    Every operation of the manager as moves of [ConnectionOwnership]. *)

From S2P Require Import Prelude Wire RuntimeManifest ConnectionManager ConnectionOwnership.

(** ** What the plumbing does to the view *)

Lemma owned_eq o1 o2 : ow_entries o1 = ow_entries o2 -> ow_attempts o1 = ow_attempts o2 -> ow_conns o1 = ow_conns o2 -> ow_closings o1 = ow_closings o2 ->
  ow_next o1 = ow_next o2 -> o1 = o2.
Proof. destruct o1, o2; cbn. by intros -> -> -> -> ->. Qed.

Lemma fmap_alter_set {A B} `{Countable K} (g : A -> B) (f : A -> A) (k : K) (x : A) (m : gmap K A) : m !! k = Some x -> g <$> alter f k m = <[k := g (f x)]> (g <$> m).
Proof.
  intros Hk. apply map_eq. intros i. rewrite lookup_fmap. destruct (decide (k = i)) as [<-|Hn]; [by rewrite lookup_alter_eq, lookup_insert_eq, Hk|].
  by rewrite lookup_alter_ne, lookup_insert_ne, lookup_fmap.
Qed.

Lemma fmap_alter_same {A B} `{Countable K} (g : A -> B) (f : A -> A) (k : K) (m : gmap K A) : (forall x, m !! k = Some x -> g (f x) = g x) -> g <$> alter f k m = g <$> m.
Proof.
  intros Hf. apply map_eq. intros i. rewrite !lookup_fmap. destruct (decide (k = i)) as [<-|Hn]; [rewrite lookup_alter_eq|by rewrite lookup_alter_ne].
  destruct (m !! k) eqn:E; cbn; [f_equal; auto|done].
Qed.

Lemma view_on_entry key f m : (forall e, core (f e) = core e) -> view (on_entry key f m) = view m.
Proof. intros Hf. apply owned_eq; cbn; try done. apply fmap_alter_same. auto. Qed.

Lemma view_set_entry key f e m : cm_entries m !! key = Some e -> view (on_entry key f m) = set_entry key (core (f e)) (view m).
Proof. intros He. apply owned_eq; cbn; try done. by apply fmap_alter_set. Qed.

Lemma view_on_attempt k f m : (forall a, cm_attempts m !! k = Some a -> acore (f a) = acore a) -> view (on_attempt k f m) = view m.
Proof. intros Hf. apply owned_eq; cbn; try done. by apply fmap_alter_same. Qed.

Lemma view_set_attempt k f a m : cm_attempts m !! k = Some a -> view (on_attempt k f m) = set_attempt k (acore (f a)) (view m).
Proof. intros Ha. apply owned_eq; cbn; try done. by apply fmap_alter_set. Qed.

Lemma view_publish u m : view (publish u m).1 = view m.
Proof.
  apply owned_eq; cbn; try done. rewrite <- map_fmap_compose. apply map_fmap_ext. intros key e _. cbn. unfold announce. repeat case_match; done.
Qed.

Lemma view_settle_teardown key td ok m : view (settle_teardown key td ok m) = view m.
Proof.
  unfold settle_teardown. destruct (cm_outcomes m !! td); [done|]. apply owned_eq; cbn; try done. apply fmap_alter_same. intros e _. by destruct ok.
Qed.

Lemma view_close key c r m : view (closeConnection key c r m).1 = shut {[c]} (view m).
Proof.
  unfold closeConnection. case_bool_decide as Hin; [apply owned_eq; cbn; try done; set_solver|].
  apply owned_eq; cbn; try done. by apply fmap_alter_same.
Qed.

Lemma view_put_entry key e m : view (put_entry key e m) = set_entry key (core e) (view m).
Proof. apply owned_eq; cbn; try done. by rewrite fmap_insert. Qed.

Lemma view_bound_openings ks m : view (bound_openings ks m) = view m.
Proof. induction ks as [|k ks IH]; [done|]. cbn. rewrite view_on_attempt; [done|]. by intros [] _. Qed.

Lemma view_then p f : view (then_do p f).1 = view (f p.1).1.
Proof. destruct p as [m es]. cbn. by destruct (f m). Qed.

Lemma view_entry m key e : cm_entries m !! key = Some e -> ow_entries (view m) !! key = Some (core e).
Proof. intros He. cbn. by rewrite lookup_fmap, He. Qed.

Lemma view_attempt m k a : cm_attempts m !! k = Some a -> ow_attempts (view m) !! k = Some (acore a).
Proof. intros Ha. cbn. by rewrite lookup_fmap, Ha. Qed.

(** ** Attempts *)

Definition fail_public (p : own_public) : own_public := match p with ou_racing => ou_err | q => q end.

Lemma unsettled_before p : fail_public p = ou_err \/ fail_public p = ou_racing -> p = ou_err \/ p = ou_racing.
Proof. destruct p; naive_solver. Qed.

(** What an abort does to an attempt. *)
Definition abort_own (a : own_attempt) : own_attempt :=
  {| oa_key := oa_key a; oa_revision := oa_revision a; oa_adopt := oa_adopt a; oa_aborted := true; oa_opening := oa_opening a;
     oa_public := fail_public (oa_public a) |}.

Lemma lookup_on_attempt k f a m : cm_attempts m !! k = Some a -> cm_attempts (on_attempt k f m) !! k = Some (f a).
Proof. intros Ha. cbn. by rewrite lookup_alter_eq, Ha. Qed.

Lemma set_attempt_twice k a a' o : set_attempt k a' (set_attempt k a o) = set_attempt k a' o.
Proof. apply owned_eq; cbn; try done. by rewrite insert_insert_eq. Qed.

Definition raced (o : outcome conn_error nat) (a : own_attempt) : own_attempt :=
  {| oa_key := oa_key a; oa_revision := oa_revision a; oa_adopt := oa_adopt a; oa_aborted := oa_aborted a; oa_opening := oa_opening a;
     oa_public := match oa_public a with ou_racing => match o with Ok _ => ou_ok | Err _ => ou_err end | p => p end |}.

Lemma acore_race o a : acore (match ca_public a with pb_racing => ca_set_public (pb_settling o) a | _ => a end) = raced o (acore a).
Proof. destruct a as [? ? ? ? ? ? ? ? ? p]. destruct p as [|[]| | |], o; done. Qed.

Lemma view_race k a o m : cm_attempts m !! k = Some a -> view (race_settled k o m) = set_attempt k (raced o (acore a)) (view m).
Proof. intros Ha. unfold race_settled. rewrite (view_set_attempt _ _ a) by done. by rewrite acore_race. Qed.

Lemma view_abort k a r m : cm_attempts m !! k = Some a -> view (abort_attempt k r m).1 = if was_aborted a then view m else set_attempt k (abort_own (acore a)) (view m).
Proof.
  intros Ha. unfold abort_attempt, was_aborted. rewrite Ha. destruct (ca_aborted a) eqn:E; [done|]. cbn [fst].
  rewrite (view_race _ (ca_set_aborted (Some r) a)) by (by apply lookup_on_attempt). rewrite (view_set_attempt _ _ a) by done.
  rewrite set_attempt_twice. f_equal. destruct a as [? ? ? ? ? ? ? ? ? p]. by destruct p as [|[]| | |].
Qed.

(** Aborting an attempt that is not the entry's current one, or one that may be aborted while it is. *)
Lemma abort_inv k a o : own_inv o -> ow_attempts o !! k = Some a ->
  (oa_adopt a = true -> forall e, ow_entries o !! oa_key a = Some e -> oa_revision a < oe_revision e) -> own_inv (set_attempt k (abort_own a) o).
Proof.
  intros I Hk Had. eapply (set_attempt_inv k a); [done|done|done|done|done|done|by right|auto|]. intros Hp e He Hr. eapply (oi_failed _ I); [done|exact (unsettled_before (oa_public a) Hp)|done|done].
Qed.

Lemma abort_attempt_inv k r m : own_inv (view m) ->
  (forall a, ow_attempts (view m) !! k = Some a -> oa_adopt a = true -> forall e, ow_entries (view m) !! oa_key a = Some e -> oa_revision a < oe_revision e) ->
  own_inv (view (abort_attempt k r m).1).
Proof.
  intros I Had. destruct (cm_attempts m !! k) as [a|] eqn:Ha; [|unfold abort_attempt; by rewrite Ha].
  rewrite (view_abort _ a) by done. destruct (was_aborted a); [done|]. apply abort_inv; [done|by apply view_attempt|]. apply (Had (acore a)). by apply view_attempt.
Qed.

(** The opener is done, with a failure. *)
Definition failed_own (a : own_attempt) : own_attempt :=
  {| oa_key := oa_key a; oa_revision := oa_revision a; oa_adopt := oa_adopt a; oa_aborted := oa_aborted a; oa_opening := og_settled;
     oa_public := fail_public (oa_public a) |}.

Lemma lookup_finish k key a m : cm_attempts m !! k = Some a -> cm_attempts (finishOpening k key m) !! k = Some (ca_set_bounded false (ca_set_opening og_settled a)).
Proof. intros Ha. unfold finishOpening. by rewrite (lookup_on_attempt _ _ a). Qed.

Lemma view_finish k key a m : cm_attempts m !! k = Some a ->
  view (finishOpening k key m) = set_attempt k (acore (ca_set_opening og_settled a)) (view m).
Proof. intros Ha. unfold finishOpening. rewrite (view_set_attempt _ _ a) by done. by rewrite view_on_entry. Qed.

Lemma view_ownership k x m : view (on_attempt k (ca_set_ownership x) m) = view m.
Proof. apply view_on_attempt. by intros [] _. Qed.

Lemma view_failed k key e a m : cm_attempts m !! k = Some a -> view (opening_failed k key e m).1 = set_attempt k (failed_own (acore a)) (view m).
Proof.
  intros Ha. unfold opening_failed. cbn [fst]. rewrite view_settle_teardown, view_ownership.
  rewrite (view_race _ (ca_set_bounded false (ca_set_opening og_settled a))) by (by apply lookup_finish).
  rewrite (view_finish _ _ a) by done. rewrite set_attempt_twice. f_equal. destruct a as [? ? ? ? ? ? ? ? ? p]. by destruct p as [|[]| | |].
Qed.

Lemma failed_own_inv k a o : own_inv o -> ow_attempts o !! k = Some a -> own_inv (set_attempt k (failed_own a) o).
Proof.
  intros I Ha. eapply (set_attempt_inv k a); [done|done|done..| |].
  - intros H1 H2 e0 He. by eapply (oi_adopt _ I k a).
  - intros Hp e0 He Hr. eapply (oi_failed _ I); [done|exact (unsettled_before (oa_public a) Hp)|done|done].
Qed.

Lemma opening_failed_inv k key e m : own_inv (view m) -> own_inv (view (opening_failed k key e m).1).
Proof.
  intros I. destruct (cm_attempts m !! k) as [a|] eqn:Ha; [rewrite (view_failed _ _ _ a) by done; apply failed_own_inv; [done|by apply view_attempt]|].
  replace (view (opening_failed k key e m).1) with (view m); [done|]. unfold opening_failed. cbn [fst]. rewrite view_settle_teardown, view_ownership.
  unfold race_settled, finishOpening. rewrite view_on_attempt, view_on_attempt, view_on_entry; [done|done|..]; cbn; rewrite ?lookup_alter_eq, ?Ha; done.
Qed.

(** ** Beginning *)

Definition present (key : jstring) (e : own_entry) (o : owned) : Prop :=
  ow_entries o !! key = Some e \/ ow_entries o !! key = None /\ e = {| oe_revision := 0; oe_connection := None; oe_abort := None |}.

Lemma begin_present_inv key e adopting o : own_inv o -> present key e o -> own_inv (begin_move key e adopting o).
Proof.
  intros I [He|[He ->]]; [by apply begin_inv|].
  pose proof (begin_inv key _ adopting _ (fresh_entry_inv key 0 o I He) (lookup_insert_eq _ _ _)) as H.
  refine (eq_ind _ own_inv H _ _). apply owned_eq; cbn; try done. by rewrite insert_insert_eq.
Qed.

Lemma view_add_attempt a m : view (add_attempt a m) = set_next (S (cm_next m)) (set_attempt (cm_next m) (acore a) (view m)).
Proof. apply owned_eq; cbn; try done. by rewrite fmap_insert. Qed.

Lemma core_begin k e : core (begin_attempt k e) = {| oe_revision := rc_revision e + 1; oe_connection := rc_connection e; oe_abort := Some k |}.
Proof. done. Qed.

Lemma connect_entry_inv now key u env force e m : own_inv (view m) -> present key (core e) (view m) -> rc_connection e = None ->
  own_inv (view (connect_entry now key u env force e m).1.1).
Proof.
  intros I Hp Hc. unfold connect_entry. set (e1 := if force then _ else e). assert (E : core e1 = core e) by (by destruct force).
  assert (Hc1 : rc_connection e1 = None) by (by destruct force). destruct (negb force && _); cbn [fst].
  - rewrite view_put_entry, E. destruct Hp as [Hp|[Hp ->]]; [eapply keep_inv; eauto|by apply fresh_entry_inv].
  - rewrite view_publish, view_add_attempt, view_put_entry. pose proof (begin_present_inv key (core e) false _ I Hp) as H.
    refine (eq_ind _ own_inv H _ _). change (rc_revision (rc_set_connecting _ _)) with (rc_revision e1 + 1).
    assert (Er : rc_revision e1 = rc_revision e) by (by destruct force). apply owned_eq; cbn; unfold core, acore; cbn; rewrite ?Er, ?Hc, ?Hc1; try done. apply (left_id_L ∅ (∪)).
Qed.

Lemma connect_inv now u env force m : own_inv (view m) -> own_inv (view (connect now u env force m).1.1).
Proof.
  intros I. unfold connect. destruct (negb (running m)); [done|]. destruct (cm_entries m !! connectionKey u env) as [e|] eqn:He.
  - destruct (rc_connection e) eqn:Hc; [done|]. destruct (rc_connecting e); [done|]. apply connect_entry_inv; [done| |done]. left. by apply view_entry.
  - apply connect_entry_inv; [done| |done]. right. split; [|done]. cbn. by rewrite lookup_fmap, He.
Qed.

Lemma view_next_inv n m : own_inv (view m) -> (cm_next m <= n)%nat -> own_inv (view (cm_set_next n m)).
Proof. intros I Hn. exact (set_next_inv n _ I Hn). Qed.

Lemma connectInteractive_inv now u env m : own_inv (view m) -> own_inv (view (connectInteractive now u env m).1.1).
Proof.
  intros I. unfold connectInteractive. pose proof (connect_inv now u env true m I) as H. destruct (connect now u env true m) as [[m1 es] answer]. cbn [fst] in H.
  destruct (cm_entries m1 !! _) eqn:He; [|done]. destruct (es_pullingImage _); [done|]. cbn [fst].
  pose proof (set_next_inv (S (cm_next m1)) _ H (le_S _ _ (le_n _))) as H2. refine (eq_ind _ own_inv H2 _ _).
  apply owned_eq; cbn; try done. symmetry. by apply fmap_alter_same.
Qed.

Lemma waiter_done_view w m : view (waiter_done w m) = view m.
Proof. unfold waiter_done. destruct (cm_waiters m !! w) as [[key x]|]; [|done]. apply owned_eq; cbn; try done. by apply fmap_alter_same. Qed.

(** ** Opening *)

Lemma connect_resolved_inv k answer m : own_inv (view m) -> own_inv (view (connect_resolved k answer m).1).
Proof.
  intros I. unfold connect_resolved. destruct (cm_attempts m !! k) as [a|] eqn:Ha; [|done]. destruct (ca_adopt a) eqn:Had; [done|].
  destruct (ca_opening a) eqn:Ho; try done. destruct (cm_entries m !! ca_key a) as [e|] eqn:He; [|done].
  destruct answer as [d|err]; [|by apply opening_failed_inv]. destruct (was_aborted a || stale a e) eqn:Hw; [by apply opening_failed_inv|].
  destruct d as [d|]; [|by apply opening_failed_inv]. set (m1 := on_attempt k _ _).
  assert (E1 : view m1 = view m). { subst m1. rewrite view_on_attempt by (by intros [] _). by rewrite view_on_entry. }
  destruct (negb (df_enabled d) || negb (df_configValid d) || _); [apply opening_failed_inv; by rewrite E1|]. cbn [fst].
  assert (Ha1 : exists b, cm_attempts m1 !! k = Some b /\ acore b = acore a). { eexists. split; [by apply lookup_on_attempt|]. by destruct a. }
  destruct Ha1 as (b & Hb & Eb). rewrite (view_set_attempt _ _ b) by done. rewrite E1.
  eapply (set_attempt_inv k (acore a)); [done|by apply view_attempt|rewrite <- Eb; by destruct b..| | | |].
  - cbn. by rewrite Ho.
  - intros _. change (oa_public (acore (ca_set_opening og_called b)) ) with (oa_public (acore b)). rewrite Eb.
    destruct (oi_racing _ I k (acore a)) as [|Hab]; [by apply view_attempt|cbn; by rewrite Ho|by left|].
    apply orb_false_iff in Hw as [Hw _]. cbn in Hab. congruence.
  - cbn. congruence.
  - change (oa_public (acore (ca_set_opening og_called b)) ) with (oa_public (acore b)). rewrite Eb. intros Hp e0 He0 Hr.
    by eapply (oi_failed _ I k (acore a)); [apply view_attempt|..].
Qed.

Lemma adopt_started_inv k m : own_inv (view m) -> own_inv (view (adopt_started k m).1).
Proof.
  intros I. unfold adopt_started. destruct (cm_attempts m !! k) as [a|] eqn:Ha; [|done]. destruct (ca_adopt a) eqn:Had; [|done].
  destruct (ca_opening a) eqn:Ho; try done. destruct (was_aborted a) eqn:Hw; [by apply opening_failed_inv|]. cbn [fst].
  rewrite (view_set_attempt _ _ a) by done. eapply (set_attempt_inv k (acore a)); [done|by apply view_attempt|done|done|done| | | |].
  - cbn. by rewrite Ho.
  - intros _. destruct (oi_racing _ I k (acore a)) as [|Hab]; [by apply view_attempt|cbn; by rewrite Ho|by left|]. cbn in Hab. congruence.
  - intros _ H. change (was_aborted a = true) in H. congruence.
  - intros Hp e0 He0 Hr. by eapply (oi_failed _ I k (acore a)); [apply view_attempt|..].
Qed.

Lemma connect_deadline_inv k m : own_inv (view m) -> own_inv (view (connect_deadline k m).1).
Proof.
  intros I. unfold connect_deadline. destruct (cm_attempts m !! k) as [a|] eqn:Ha; [|done]. destruct (negb (ca_adopt a) && _) eqn:Hd; [|done].
  apply andb_true_iff in Hd as [Hd _]. apply negb_true_iff in Hd.
  assert (E : view (on_attempt k (ca_set_deadline false) m) = view m) by (apply view_on_attempt; by intros [] _).
  apply abort_attempt_inv; [by rewrite E|]. rewrite E. intros b Hb Had. rewrite (view_attempt _ _ _ Ha) in Hb. simplify_eq. cbn in Had. congruence.
Qed.

(** The attempt an entry may abort is one of its own, no newer than the entry. *)
Lemma abort_handle_old key e k o : own_inv o -> ow_entries o !! key = Some e -> oe_abort e = Some k ->
  exists a, ow_attempts o !! k = Some a /\ oa_key a = key /\ oa_revision a <= oe_revision e.
Proof.
  intros I He Hab. destruct (oi_abort _ I key e k He Hab) as (a & Ha & E). exists a. split; [done|]. split; [done|].
  destruct (oi_revision _ I k a Ha) as (e0 & He0 & Hle). rewrite E, He in He0. by simplify_eq.
Qed.

(** Closing what an entry held and aborting what it was opening, after a move to a newer revision. *)
Lemma supersede_inv key e r c k reason err m m0 : own_inv (view m0) -> ow_entries (view m0) !! key = Some e -> oe_connection e = c -> oe_abort e = k ->
  own_inv (shut (conn_set c) (view m)) -> (forall j a, ow_attempts (view m0) !! j = Some a -> ow_attempts (view m) !! j = Some a) ->
  ow_entries (view m) !! key = Some r -> oe_revision e < oe_revision r ->
  own_inv (view (then_do (match c with Some c => closeConnection key c reason m | None => (m, []) end)
    (fun m => match k with Some j => abort_attempt j err m | None => (m, []) end)).1) /\
  own_inv (view (then_do (match k with Some j => abort_attempt j err m | None => (m, []) end)
    (fun m => match c with Some c => closeConnection key c reason m | None => (m, []) end)).1).
Proof.
  intros I0 He Hc Hk I Hatt Hr Hlt.
  assert (Hab : forall j, k = Some j -> exists a, ow_attempts (view m) !! j = Some a /\ oa_key a = key /\ oa_revision a < oe_revision r).
  { intros j ->. destruct (abort_handle_old key e j _ I0 He Hk) as (a & Ha & E & Hle). exists a. split; [by apply Hatt|]. split; [done|lia]. }
  assert (Hm : view (match c return mres with Some c => closeConnection key c reason m | None => (m, []) end).1 = shut (conn_set c) (view m)).
  { destruct c as [c|]; [apply view_close|]. apply owned_eq; cbn; try done. symmetry. apply (left_id_L ∅ (∪)). }
  split; rewrite view_then.
  - destruct k as [j|]; cbn beta; [|exact (eq_ind_r own_inv I Hm)]. apply abort_attempt_inv; [by rewrite Hm|]. rewrite Hm. cbn. intros a Ha _ x Hx.
    destruct (Hab j eq_refl) as (b & Hb & E & Hl). cbn in Hb. rewrite Hb in Ha. injection Ha as <-. rewrite E in Hx. cbn in Hr. rewrite Hr in Hx. by injection Hx as <-.
  - assert (Hs : forall m1, view (match c return mres with Some c => closeConnection key c reason m1 | None => (m1, []) end).1 = shut (conn_set c) (view m1)).
    { intros m1. destruct c as [c|]; [apply view_close|]. apply owned_eq; cbn; try done. symmetry. apply (left_id_L ∅ (∪)). }
    rewrite Hs. destruct k as [j|]; [|done]. destruct (Hab j eq_refl) as (b & Hb & E & Hl).
    cbn in Hb. rewrite lookup_fmap in Hb. destruct (cm_attempts m !! j) as [a|] eqn:Ha; cbn in Hb; [|done]. injection Hb as <-.
    rewrite (view_abort _ a) by done. destruct (was_aborted a); [done|].
    change (own_inv (set_attempt j (abort_own (acore a)) (shut (conn_set c) (view m)))). apply abort_inv; [done|by apply (view_attempt m)|].
    intros _ x Hx. cbn in Hx, E, Hl. rewrite E in Hx. cbn in Hr. rewrite Hr in Hx. by injection Hx as <-.
Qed.

Lemma adopt_resolved_inv n answer m : own_inv (view m) -> own_inv (view (adopt_resolved n answer m).1).
Proof.
  intros I. unfold adopt_resolved. destruct (cm_adopts m !! n) as [[u env]|]; [|done]. set (m1 := cm_set_adopts _ m).
  assert (E1 : view m1 = view m) by done. destruct answer as [[d|]|]; try done. destruct (negb (running m1) || negb (df_enabled d)); [done|].
  set (key := connectionKey u env). set (e := default (new_entry u env) (cm_entries m1 !! key)).
  rewrite view_then, view_publish. set (k := cm_next m1). set (e' := rc_set_connecting None _). set (m2 := add_attempt _ _).
  assert (Hp : present key (core e) (view m)).
  { subst e m1. cbn. unfold present. cbn. rewrite lookup_fmap. destruct (cm_entries m !! key) eqn:E; [by left|right; done]. }
  assert (I2 : own_inv (shut (conn_set (rc_connection e)) (view m2))) by (refine (eq_ind _ own_inv (begin_present_inv key (core e) true _ I Hp) _ _); apply owned_eq; cbn; try done; by rewrite fmap_insert).
  destruct (cm_entries m1 !! key) as [e0|] eqn:He0.
  - subst e. cbn [default] in *.
    refine (proj1 (supersede_inv key (core e0) (core e') (rc_connection e0) (rc_abort e0) cr_superseded unavailable_error m2 m I _ eq_refl eq_refl I2 _ _ _)).
    + by apply view_entry.
    + intros j a Hj. change (ow_attempts (view m2) !! j = Some a). cbn. rewrite fmap_insert, lookup_insert_ne; [done|]. intros <-.
      pose proof (oi_attempt_fresh _ I _ _ Hj). cbn in *. lia.
    + cbn. by rewrite fmap_insert, lookup_insert_eq.
    + cbn. lia.
  - subst e. cbn. refine (eq_ind _ own_inv I2 _ _). apply owned_eq; cbn; try done. apply (left_id_L ∅ (∪)).
Qed.

(** ** Delivery *)

Lemma view_refuse k a b c err m : cm_attempts m !! k = Some b ->
  view (refuse_connection k a c err m).1 = set_attempt k (raced (Err err) (acore b)) (shut {[c]} (view m)).
Proof. intros Hb. unfold refuse_connection. rewrite view_close, view_ownership, (view_race _ b) by done. done. Qed.

Lemma raced_err err a : oa_opening a = og_settled -> raced (Err err) a = failed_own a.
Proof. destruct a as [? ? ? ? ? p]. cbn. intros ->. by destruct p. Qed.

Lemma undelivered k a o c : own_inv o -> ow_attempts o !! k = Some a -> oa_opening a <> og_settled -> ow_conns o !! c <> Some k.
Proof. intros I Ha Ho Hc. destruct (oi_conn _ I c k Hc) as (b & Hb & Hs). congruence. Qed.

Lemma refused_inv k a o : own_inv o -> ow_attempts o !! k = Some a -> oa_opening a <> og_settled -> own_inv (set_attempt k (failed_own a) (shut {[ow_next o]} (add_conn k o))).
Proof.
  intros I Ha Ho. refine (refuse_inv k (failed_own a) (set_attempt k (failed_own a) o) _ _ _ _); [by apply failed_own_inv| |done|].
  - cbn. by rewrite lookup_insert_eq.
  - intros c. by eapply (undelivered k a o).
Qed.

(** An attempt that is accepted is still in its race, on an entry without a connection. *)
Lemma accepted_fresh k a e m : own_inv (view m) -> cm_attempts m !! k = Some a -> ca_opening a = og_called -> cm_entries m !! ca_key a = Some e -> acceptable a e = true ->
  public_of (ca_public a) = ou_racing /\ rc_revision e = ca_revision a /\ rc_connection e = None.
Proof.
  intros I Ha Ho He Hacc. unfold acceptable, stale in Hacc. rewrite negb_involutive in Hacc. apply andb_true_iff in Hacc as [[Hr%Z.eqb_eq _]%andb_true_iff Hab].
  assert (Hp : public_of (ca_public a) = ou_racing).
  { destruct (oi_racing _ I k (acore a)) as [|Hw]; [by apply view_attempt|cbn; by rewrite Ho|done|]. exfalso. apply orb_true_iff in Hab as [Had|Hab].
    - pose proof (oi_adopt _ I k (acore a) (core e) (view_attempt _ _ _ Ha) Had Hw (view_entry _ _ _ He)). cbn in *. lia.
    - cbn in Hw. rewrite Hw in Hab. done. }
  split; [done|]. split; [done|]. eapply (oi_failed _ I k (acore a) (core e)); [by apply view_attempt|by right|by apply view_entry|done].
Qed.

Definition ready_own (a : own_attempt) : own_attempt :=
  {| oa_key := oa_key a; oa_revision := oa_revision a; oa_adopt := oa_adopt a; oa_aborted := oa_aborted a; oa_opening := og_settled; oa_public := ou_ok |}.

Lemma accepted_inv k a e o : own_inv o -> ow_attempts o !! k = Some a -> oa_opening a <> og_settled -> ow_entries o !! oa_key a = Some e -> oe_revision e = oa_revision a -> oe_connection e = None ->
  own_inv (set_entry (oa_key a) {| oe_revision := oe_revision e; oe_connection := Some (ow_next o); oe_abort := oe_abort e |} (set_attempt k (ready_own a) (add_conn k o))).
Proof.
  intros I Ha Ho He Hr Hc. refine (install_inv k (ready_own a) e (set_attempt k (ready_own a) o) _ _ eq_refl _ _ _ _ _ _); try done.
  - eapply (set_attempt_inv k a); [done|done|done..| |intros [|]; done]. intros H1 H2 e0 He0. by eapply (oi_adopt _ I k a).
  - cbn. by rewrite lookup_insert_eq.
  - intros c. by eapply (undelivered k a o).
Qed.

Lemma opening_delivered_inv k now mf version isolation attested hookError m : own_inv (view m) ->
  own_inv (view (opening_delivered k now mf version isolation attested hookError m).1).
Proof.
  intros I. unfold opening_delivered. destruct (cm_attempts m !! k) as [a|] eqn:Ha; [|done]. destruct (ca_opening a) eqn:Ho; try done.
  destruct (cm_entries m !! ca_key a) as [e|] eqn:He; [|done]. set (c := cm_next m). set (conn := {| cn_attempt := k; cn_manifest := _; cn_runtimeVersion := _; cn_isolation := _; cn_identityAttested := _ |}).
  set (m0 := cm_set_next _ _). set (m1 := finishOpening k (ca_key a) m0).
  assert (Ha0 : cm_attempts m0 !! k = Some a) by done. assert (Ha1 := lookup_finish k (ca_key a) a m0 Ha0). fold m1 in Ha1.
  assert (E0 : view m0 = add_conn k (view m)) by (apply owned_eq; cbn; try done; by rewrite fmap_insert).
  assert (E1 : view m1 = set_attempt k (acore (ca_set_opening og_settled a)) (add_conn k (view m))) by (unfold m1; by rewrite (view_finish _ _ a), E0).
  assert (He1 : exists e1, cm_entries m1 !! ca_key a = Some e1 /\ core e1 = core e) by (eexists; cbn; rewrite lookup_alter_eq, He; by split).
  destruct He1 as (e1 & He1 & Ee1).
  assert (Hon : oa_opening (acore a) <> og_settled) by (cbn; by rewrite Ho). pose proof (refused_inv k (acore a) _ I (view_attempt _ _ _ Ha) Hon) as Iref.
  destruct (acceptable a e) eqn:Hacc; cbn [negb].
  - destruct (accepted_fresh k a e m I Ha Ho He Hacc) as (Hp & Hr & Hc). set (m2 := on_entry _ _ m1). rewrite view_then.
    set (m3 := (then_do _ _).1). assert (E3 : view m3 = view m2) by (unfold m3; by rewrite view_then, view_publish).
    assert (E2 : view m2 = set_entry (ca_key a) {| oe_revision := rc_revision e; oe_connection := Some c; oe_abort := rc_abort e |} (view m1)).
    { unfold m2. rewrite (view_set_entry _ _ e1) by done. f_equal. unfold core in Ee1 |- *. cbn. by injection Ee1 as -> _ ->. }
    assert (Ha3 : cm_attempts m3 !! k = Some (ca_set_bounded false (ca_set_opening og_settled a))) by done.
    destruct hookError as [err|]; cbn [fst].
    + rewrite (view_refuse _ _ _ _ _ _ (Ha3 : cm_attempts (on_entry _ _ m3) !! k = Some _)), raced_err by done.
      refine (eq_ind _ own_inv Iref _ _). unfold m3 at 1.
      assert (He3 : exists e3, cm_entries m3 !! ca_key a = Some e3 /\ core (rc_set_connection None e3) = core e).
      { eexists. split; [cbn; by rewrite lookup_fmap, lookup_alter_eq, lookup_alter_eq, He|]. unfold announce. unfold core. cbn. repeat case_match; cbn; by rewrite Hc. }
      destruct He3 as (e3 & He3 & Ee3). rewrite (view_set_entry _ _ e3) by exact He3. rewrite Ee3. fold m3. rewrite E3, E2, E1.
      apply owned_eq; cbn; try done; [|by rewrite insert_insert_eq]. rewrite insert_insert_eq. symmetry. apply insert_id. by rewrite lookup_fmap, He.
    + rewrite view_settle_teardown, view_ownership, (view_race _ _ _ _ Ha3), E3, E2, E1.
      refine (eq_ind _ own_inv (accepted_inv k (acore a) (core e) _ I (view_attempt _ _ _ Ha) Hon (view_entry _ _ _ He) Hr Hc) _ _).
      apply owned_eq; cbn; try done. rewrite insert_insert_eq. f_equal. unfold ready_own, raced. cbn. by rewrite Hp.
  - rewrite (view_refuse _ _ _ _ _ _ Ha1), raced_err by done. refine (eq_ind _ own_inv Iref _ _). rewrite E1.
    apply owned_eq; cbn; try done. by rewrite insert_insert_eq.
Qed.

Lemma opening_rejected_inv k err m : own_inv (view m) -> own_inv (view (opening_rejected k err m).1).
Proof. intros I. unfold opening_rejected. repeat case_match; try done. by apply opening_failed_inv. Qed.

Lemma opening_expired_view k m : view (opening_expired k m) = view m.
Proof.
  unfold opening_expired. destruct (cm_attempts m !! k) as [a|]; [|done]. destruct (ca_bounded a); [|done].
  rewrite view_settle_teardown, view_on_attempt by (by intros [] _). by rewrite view_on_entry.
Qed.

(** ** The caller's promise *)

(** A promise that is past its race. *)
Lemma past_inv k a m p : own_inv (view m) -> cm_attempts m !! k = Some a -> public_of p = ou_past -> public_of (ca_public a) <> ou_racing ->
  own_inv (view (on_attempt k (ca_set_public p) m)).
Proof.
  intros I Ha Hp Hn. rewrite (view_set_attempt _ _ a) by done. eapply (set_attempt_inv k (acore a)); [done|by apply view_attempt|done|done|done|done| | |].
  - intros Ho. right. destruct (oi_racing _ I k (acore a) (view_attempt _ _ _ Ha) Ho); [done|]. done.
  - intros H1 H2 e He. by eapply (oi_adopt _ I k (acore a)); [apply view_attempt|..].
  - cbn. rewrite Hp. by intros [|].
Qed.

Lemma drop_abort_inv key f m : own_inv (view m) ->
  (forall e, rc_revision (f e) = rc_revision e /\ rc_connection (f e) = rc_connection e /\ (rc_abort (f e) = None \/ rc_abort (f e) = rc_abort e)) ->
  own_inv (view (on_entry key f m)).
Proof.
  intros I Hf. destruct (cm_entries m !! key) as [e|] eqn:He.
  - rewrite (view_set_entry _ _ e) by done. destruct (Hf e) as (E1 & E2 & E3). eapply (keep_inv key (core e)); [done|by apply view_entry|done..].
  - replace (view (on_entry key f m)) with (view m); [done|]. apply owned_eq; cbn; try done. symmetry. apply fmap_alter_same. congruence.
Qed.

Lemma attempt_answered_inv k a b o m : own_inv (view m) -> cm_attempts m !! k = Some b -> public_of (ca_public b) <> ou_racing -> own_inv (view (attempt_answered k a o m).1).
Proof.
  intros I Hb Hn. unfold attempt_answered. destruct (ca_adopt a); cbn [fst]; [|by eapply past_inv].
  eapply past_inv; [|done|done|done]. apply drop_abort_inv; [done|]. intros e. case_bool_decide; cbn; auto.
Qed.

Lemma view_refresh_start now u env reader bg m : view (refresh_start now u env reader bg m).1.1 = view m \/
  view (refresh_start now u env reader bg m).1.1 = set_next (S (cm_next m)) (view m).
Proof.
  unfold refresh_start. repeat case_match; cbn [fst]; auto. right. apply owned_eq; cbn; try done. by apply fmap_alter_same.
Qed.

Lemma refresh_start_inv now u env reader bg m : own_inv (view m) -> own_inv (view (refresh_start now u env reader bg m).1.1).
Proof. intros I. destruct (view_refresh_start now u env reader bg m) as [->| ->]; [done|]. apply set_next_inv; [done|]. cbn. lia. Qed.

Lemma refresh_attempts now u env reader bg m : cm_attempts (refresh_start now u env reader bg m).1.1 = cm_attempts m.
Proof. unfold refresh_start. by repeat case_match. Qed.

Lemma readHostedAgents_inv now k a e m : own_inv (view m) -> (exists b, cm_attempts m !! k = Some b /\ ca_key b = ca_key a /\ public_of (ca_public b) = ou_ok) ->
  cm_entries m !! ca_key a = Some e -> own_inv (view (readHostedAgents now k a e m).1).
Proof.
  intros I (b & Hb & Ek & Hok) He. unfold readHostedAgents. destruct (rc_connection e) as [c|] eqn:Hc.
  - destruct (negb _ || stale a e); [eapply attempt_answered_inv; [done..|by rewrite Hok]|].
    pose proof (refresh_start_inv now (ca_userId a) (ca_environmentId a) (Some k) false m I) as I1.
    pose proof (refresh_attempts now (ca_userId a) (ca_environmentId a) (Some k) false m) as Ea.
    destruct (refresh_start now (ca_userId a) (ca_environmentId a) (Some k) false m) as [[m1 es] f]. cbn [fst] in *. rewrite <- Ea in Hb. destruct f; cbn [fst].
    + eapply past_inv; [done|done|done|by rewrite Hok].
    + rewrite view_then. eapply attempt_answered_inv; [done|done|by rewrite Hok].
  - cbn [fst]. rewrite (view_set_attempt _ _ b) by done. eapply (set_attempt_inv k (acore b)); [done|by apply view_attempt|done|done|done|done| | |].
    + intros Ho. right. destruct (oi_racing _ I k (acore b) (view_attempt _ _ _ Hb) Ho) as [H|]; [|done]. cbn in H. congruence.
    + intros H1 H2 x Hx. by eapply (oi_adopt _ I k (acore b)); [apply view_attempt|..].
    + intros _ x Hx _. change (oa_key (acore b)) with (ca_key b) in Hx. rewrite Ek, (view_entry _ _ e) in Hx by done. injection Hx as <-. done.
Qed.

(** An attempt that failed: its entry holds no connection, if it is still the attempt's. *)
Lemma failed_entry_inv k a e f m : own_inv (view m) -> cm_attempts m !! k = Some a -> public_of (ca_public a) = ou_err -> cm_entries m !! ca_key a = Some e ->
  rc_revision e = ca_revision a -> (forall e, rc_revision (f e) = rc_revision e /\ rc_abort (f e) = rc_abort e /\ (rc_connection (f e) = None \/ rc_connection (f e) = rc_connection e)) ->
  own_inv (view (on_entry (ca_key a) f m)).
Proof.
  intros I Ha Hp He Hr Hf. assert (Hc : rc_connection e = None).
  { eapply (oi_failed _ I k (acore a) (core e)); [by apply view_attempt|by left|by apply view_entry|done]. }
  rewrite (view_set_entry _ _ e) by done. destruct (Hf e) as (E1 & E2 & E3).
  eapply (keep_inv _ (core e)); [done|by apply view_entry|done| |right; done]. cbn. destruct E3; congruence.
Qed.

Lemma attempt_continues_inv now k m : own_inv (view m) -> own_inv (view (attempt_continues now k m).1).
Proof.
  intros I. unfold attempt_continues. destruct (cm_attempts m !! k) as [a|] eqn:Ha; [|done]. destruct (ca_public a) as [|[c|err]| | |] eqn:Hp; try done;
    destruct (cm_entries m !! ca_key a) as [e|] eqn:He; try done.
  - apply readHostedAgents_inv; [|destruct (ca_adopt a)..].
    + destruct (ca_adopt a); [done|]. rewrite view_on_attempt; [done|]. by intros [] _.
    + exists a. by rewrite Hp.
    + eexists. split; [by apply lookup_on_attempt|]. cbn. by rewrite Hp.
    + done.
    + done.
  - assert (Hgo : forall f r, (forall e, rc_revision (f e) = rc_revision e /\ rc_abort (f e) = rc_abort e /\ (rc_connection (f e) = None \/ rc_connection (f e) = rc_connection e)) ->
      own_inv (view (then_do (if stale a e then (m, []) else publish (ca_userId a) (on_entry (ca_key a) f m)) (attempt_answered k a (Err r))).1)).
    { intros f r Hf. rewrite view_then. unfold stale. destruct (rc_revision e =? ca_revision a) eqn:Hr; cbn [negb].
      - eapply (attempt_answered_inv k a a); [|done|by rewrite Hp]. rewrite view_publish. eapply failed_entry_inv; [done|done|by rewrite Hp|done|by apply Z.eqb_eq|done].
      - eapply (attempt_answered_inv k a a); [done|done|by rewrite Hp]. }
    destruct (ca_adopt a); [apply Hgo; intros; cbn; auto|]. cbv zeta. apply Hgo. intros e0. destruct (isBoundElsewhere err); cbn; auto.
Qed.

Lemma attempt_finally_inv k m : own_inv (view m) -> own_inv (view (attempt_finally k m).1).
Proof.
  intros I. unfold attempt_finally. destruct (cm_attempts m !! k) as [a|] eqn:Ha; [|done]. destruct (ca_public a) eqn:Hp; try done. cbn [fst].
  set (m1 := on_entry _ _ m). assert (I1 : own_inv (view m1)).
  { apply drop_abort_inv; [done|]. intros e. repeat case_bool_decide; cbn; auto. }
  change (own_inv (view (on_attempt k (fun a => ca_set_public (pb_done o) (ca_set_deadline false a)) m1))).
  rewrite (view_set_attempt _ _ a) by done. refine (eq_ind _ own_inv (past_inv k a m1 (pb_done o) I1 Ha eq_refl _) _ _); [by rewrite Hp|].
  by rewrite (view_set_attempt _ _ a).
Qed.

Lemma view_apply_health u env c h m : view (apply_health u env c h m).1 = view m.
Proof.
  unfold apply_health. destruct (cm_entries m !! _) as [e|] eqn:He; [|done]. destruct (cm_conns m !! c) as [conn|] eqn:Hc; [|done]. cbv zeta. rewrite view_then.
  match goal with |- view (_ (?x, _).1).1 = _ => set (m1 := x) end.
  assert (E : view m1 = view m).
  { apply owned_eq; cbn; try done; [apply fmap_alter_same; intros x Hx; by simplify_eq|]. rewrite fmap_insert. apply insert_id. by rewrite lookup_fmap, Hc. }
  case_bool_decide; cbn [fst]; by rewrite ?view_publish.
Qed.

Lemma apply_health_attempts u env c h m : cm_attempts (apply_health u env c h m).1 = cm_attempts m.
Proof. unfold apply_health. repeat case_match; try done. Qed.

Lemma refresh_over_inv call m : own_inv (view m) -> own_inv (view (refresh_over call m).1).
Proof.
  intros I. unfold refresh_over. set (m1 := if rf_background call then _ else m).
  assert (E : view m1 = view m). { subst m1. destruct (rf_background call); [|done]. by rewrite view_on_entry. }
  rewrite <- E in I. clearbody m1. destruct (rf_reader call) as [k|]; [|done]. destruct (cm_attempts m1 !! k) as [a|] eqn:Ha; [|done].
  destruct (ca_public a) eqn:Hp; try done. eapply attempt_answered_inv; [done|done|by rewrite Hp].
Qed.

Lemma health_answered_inv f answer m : own_inv (view m) -> own_inv (view (health_answered f answer m).1).
Proof.
  intros I. unfold health_answered. destruct (cm_refreshes m !! f) as [call|]; [|done]. rewrite view_then. apply refresh_over_inv.
  destruct answer; [|done]. case_match; [|done]. by rewrite view_apply_health.
Qed.

Lemma refreshManifestIfStale_inv now u env m : own_inv (view m) -> own_inv (view (refreshManifestIfStale now u env m).1).
Proof.
  intros I. unfold refreshManifestIfStale. destruct (cm_entries m !! _); [|done]. destruct (negb _ || _); [done|]. destruct (_ <? _); [done|].
  pose proof (refresh_start_inv now u env None true m I) as I1. destruct (refresh_start now u env None true m) as [[m1 es] [f|]]; cbn [fst] in *; [|done].
  by rewrite view_on_entry.
Qed.

(** ** Losing, releasing *)

(** The entry gives up a connection and has it closed. *)
Lemma drop_close_inv key e f c r m : own_inv (view m) -> cm_entries m !! key = Some e -> rc_connection e = Some c -> rc_revision e <= rc_revision (f e) ->
  rc_connection (f e) = None -> (rc_abort (f e) = None \/ rc_abort (f e) = rc_abort e) -> own_inv (view (closeConnection key c r (on_entry key f m)).1).
Proof.
  intros I He Hc Hr Hn Ha. rewrite view_close, (view_set_entry _ _ e) by done.
  pose proof (drop_inv key (core e) (core (f e)) _ I (view_entry _ _ _ He) Hr Hn Ha) as H. cbn in H. by rewrite Hc in H.
Qed.

Lemma attempt_unavailable_inv now k m : own_inv (view m) -> own_inv (view (attempt_unavailable now k m).1).
Proof.
  intros I. unfold attempt_unavailable. destruct (cm_attempts m !! k) as [a|] eqn:Ha; [|done]. cbv zeta. set (m1 := on_attempt k _ m).
  assert (E1 : view m1 = view m) by (apply view_on_attempt; by intros [] _). destruct (cm_entries m1 !! ca_key a) as [e|] eqn:He; [|by cbn [fst]; rewrite E1].
  destruct (rc_connection e) as [c|] eqn:Hc; [|by cbn [fst]; rewrite E1]. destruct (stale a e); [by cbn [fst]; rewrite E1|].
  rewrite view_then, view_publish, view_on_entry.
  - eapply drop_close_inv; [by rewrite E1|done|done|done|done|by right].
  - intros x. unfold lost_connection. by destruct (rc_expectedUpdateDisconnect x).
Qed.

Lemma release_inv key m : own_inv (view m) -> own_inv (view (release key m).1).
Proof.
  intros I. unfold release. destruct (cm_entries m !! key) as [e|] eqn:He; [|done]. cbv zeta. rewrite view_then. set (r := cm_next m).
  set (m1 := bound_openings _ _). match goal with |- own_inv (view (release_waits _ _ _ ?p).1) => change (own_inv (view p)) end.
  assert (E1 : view m1 = set_entry key (core (released_entry r e)) (set_next (S r) (view m))).
  { unfold m1. rewrite view_bound_openings. by rewrite (view_set_entry _ _ e). }
  refine (proj2 (supersede_inv key (core e) (core (released_entry r e)) (rc_connection e) (rc_abort e) cr_released unavailable_error m1 m I _ eq_refl eq_refl _ _ _ _)).
  - by apply view_entry.
  - rewrite E1. refine (drop_inv key (core e) _ (set_next (S r) (view m)) _ _ _ _ _); [apply set_next_inv; [done|cbn; lia]|by apply view_entry|cbn; lia|done|by left].
  - rewrite E1. done.
  - rewrite E1. cbn. by rewrite lookup_insert_eq.
  - cbn. lia.
Qed.

Lemma release_settled_view r m : view (release_settled r m) = view m.
Proof.
  unfold release_settled. destruct (cm_releases m !! r) as [w|]; [|done]. destruct (rw_outcome w); [done|]. destruct (forallb _ _); [|done].
  rewrite view_on_entry; [done|]. intros e. by case_bool_decide.
Qed.

Lemma release_all_inv keys m : own_inv (view m) -> own_inv (view (release_all keys m).1).
Proof. revert m. induction keys as [|key keys IH]; intros m I; [done|]. cbn [release_all]. rewrite view_then. by apply IH, release_inv. Qed.

Lemma shutdown_inv m : own_inv (view m) -> own_inv (view (shutdown m).1).
Proof.
  intros I. unfold shutdown. destruct (cm_shutdown m); [done|]. pose proof (release_all_inv (cm_keys m) (cm_set_shutdown (Some []) m) I) as H.
  unfold closeAll. cbn [cm_keys cm_set_shutdown]. destruct (release_all (cm_keys m) (cm_set_shutdown (Some []) m)) as [m1 es]. exact H.
Qed.

Lemma disconnect_inv u env m : own_inv (view m) -> own_inv (view (disconnect u env m).1).
Proof. intros I. unfold disconnect. rewrite view_then. cbn [fst]. destruct (cm_entries m !! _); [|done]. rewrite view_then, view_publish. by apply release_inv. Qed.

Lemma disconnectIfCurrent_inv u env c m : own_inv (view m) -> own_inv (view (disconnectIfCurrent u env c m).1.1).
Proof. intros I. unfold disconnectIfCurrent. repeat case_match; try done. cbn [fst]. rewrite view_then, view_publish. by apply release_inv. Qed.

(** ** The operations that only repaint *)

Lemma view_clearBackoff u env m : view (clearBackoff u env m).1 = view m.
Proof. unfold clearBackoff. destruct (cm_entries m !! _) as [e|]; [|done]. destruct (_ && _); [done|]. rewrite view_publish, view_on_entry; [done|]. intros x. cbv zeta. by case_bool_decide. Qed.

Lemma view_clearHealth u env m : view (clearHealth u env m).1 = view m.
Proof. unfold clearHealth. rewrite view_then. cbn [fst]. repeat case_match; try done. cbn [fst]. by rewrite view_on_entry. Qed.

Lemma view_reportPhase k ph m : view (reportPhase k ph m).1 = view m.
Proof. unfold reportPhase. repeat case_match; try done; rewrite ?view_then; cbn [fst]; by rewrite view_publish, view_on_entry. Qed.

Lemma view_expectUpdate u env m : view (expectUpdateDisconnect u env m).1 = view m.
Proof. unfold expectUpdateDisconnect. repeat case_match; try done. by rewrite view_publish, view_on_entry. Qed.

Lemma view_clearExpected u env m : view (clearExpectedUpdateDisconnect u env m).1 = view m.
Proof. unfold clearExpectedUpdateDisconnect. repeat case_match; try done. by rewrite view_publish, view_on_entry. Qed.

Lemma view_close_settled c ok m : view (close_settled c ok m).1 = view m.
Proof.
  unfold close_settled. repeat case_match; try done; cbn [fst]; rewrite ?view_settle_teardown; try done. by rewrite view_ownership, view_settle_teardown.
Qed.

Lemma adopt_call_inv u env m : own_inv (view m) -> own_inv (view (adopt_call u env m)).
Proof. intros I. unfold adopt_call. destruct (negb (running m)); [done|]. refine (set_next_inv _ _ I _). cbn. lia. Qed.

Lemma manager_step_inv o m : own_inv (view m) -> own_inv (view (manager_step o m).1).
Proof.
  intros I. destruct o; cbn [manager_step fst].
  - by apply connect_inv.
  - by apply connectInteractive_inv.
  - by rewrite waiter_done_view.
  - by apply connect_resolved_inv.
  - by apply connect_deadline_inv.
  - by rewrite view_reportPhase.
  - by apply adopt_call_inv.
  - by apply adopt_resolved_inv.
  - by apply adopt_started_inv.
  - by apply opening_delivered_inv.
  - by apply opening_rejected_inv.
  - by rewrite opening_expired_view.
  - by apply attempt_continues_inv.
  - by apply attempt_finally_inv.
  - by apply attempt_unavailable_inv.
  - by rewrite view_close_settled.
  - by rewrite release_settled_view.
  - by apply disconnect_inv.
  - by apply disconnectIfCurrent_inv.
  - by apply release_all_inv.
  - by apply shutdown_inv.
  - by rewrite view_expectUpdate.
  - by rewrite view_clearExpected.
  - by rewrite view_clearBackoff.
  - by rewrite view_clearHealth.
  - by apply refresh_start_inv.
  - by apply refreshManifestIfStale_inv.
  - by apply health_answered_inv.
Qed.

Lemma new_manager_inv cfg : own_inv (view (new_manager cfg)).
Proof. constructor; cbn; intros; rewrite ?fmap_empty, ?lookup_empty in *; done. Qed.

Lemma run_cons o os m : (manager_run (o :: os) m).1 = (manager_run os (manager_step o m).1).1 /\ (manager_run (o :: os) m).2 = (manager_step o m).2 ++ (manager_run os (manager_step o m).1).2.
Proof. cbn. destruct (manager_step o m) as [m1 e1]. cbn. by destruct (manager_run os m1). Qed.

Lemma manager_run_inv os m : own_inv (view m) -> own_inv (view (manager_run os m).1).
Proof. revert m. induction os as [|o os IH]; intros m I; [done|]. rewrite (proj1 (run_cons o os m)). by apply IH, manager_step_inv. Qed.

(** ** Closes are counted by the closings *)

Fixpoint closes (c : nat) (es : list manager_effect) : nat :=
  match es with
  | [] => 0
  | MgClose d _ :: rest => (if decide (d = c) then 1 else 0) + closes c rest
  | _ :: rest => closes c rest
  end.

Lemma closes_app c es es' : closes c (es ++ es') = (closes c es + closes c es')%nat.
Proof. induction es as [|[] es IH]; cbn; rewrite ?IH; lia. Qed.

Definition once (c : nat) (m : manager) : nat := if decide (c ∈ cm_closings m) then 1 else 0.

(** A step's closes are the connections that join the closings. *)
Definition counted (m : manager) (p : mres) : Prop := forall c, (once c m + closes c p.2)%nat = once c p.1.

Lemma counted_same m p : cm_closings p.1 = cm_closings m -> (forall c, closes c p.2 = 0%nat) -> counted m p.
Proof. intros E H c. unfold once. rewrite E, H. lia. Qed.

Lemma counted_then m p f : counted m p -> (forall m', counted m' (f m')) -> counted m (then_do p f).
Proof.
  intros Hp Hf c. specialize (Hp c). destruct p as [m1 es1]. specialize (Hf m1 c). cbn. destruct (f m1) as [m2 es2]. cbn in *. rewrite closes_app. lia.
Qed.

Lemma counted_from m m' p : cm_closings m = cm_closings m' -> counted m p -> counted m' p.
Proof. intros E H c. specialize (H c). unfold once in *. by rewrite <- E. Qed.

Lemma counted_close key c r m : counted m (closeConnection key c r m).
Proof.
  intros d. unfold closeConnection, once. case_bool_decide as Hin; cbn; [lia|]. rewrite Nat.add_0_r. repeat destruct decide; try set_solver; try done; set_solver.
Qed.

Lemma closes_transitions c u m ks : closes c (flat_map (transition_of u m) ks) = 0%nat.
Proof. induction ks as [|k ks IH]; [done|]. cbn. rewrite closes_app, IH. unfold transition_of. repeat case_match; done. Qed.

Lemma counted_publish u m : counted m (publish u m).
Proof. apply counted_same; [done|]. intros c. cbn. by rewrite closes_app, closes_transitions. Qed.

Lemma closings_settle key td ok m : cm_closings (settle_teardown key td ok m) = cm_closings m.
Proof. unfold settle_teardown. by destruct (cm_outcomes m !! td). Qed.

Lemma closings_bound ks m : cm_closings (bound_openings ks m) = cm_closings m.
Proof. by induction ks. Qed.

Lemma counted_abort k r m : counted m (abort_attempt k r m).
Proof. apply counted_same; unfold abort_attempt; by repeat case_match. Qed.

Lemma counted_failed k key e m : counted m (opening_failed k key e m).
Proof. apply counted_same; unfold opening_failed; cbn; [by rewrite closings_settle|done]. Qed.

Lemma counted_refuse k a c err m : counted m (refuse_connection k a c err m).
Proof. eapply counted_from; [|apply counted_close]. done. Qed.

Lemma counted_answered k a o m : counted m (attempt_answered k a o m).
Proof. apply counted_same; unfold attempt_answered; by destruct (ca_adopt a). Qed.

Lemma counted_none m : counted m (m, []).
Proof. by apply counted_same. Qed.

Create HintDb counted.
#[export] Hint Resolve counted_close counted_publish counted_abort counted_failed counted_refuse counted_answered counted_then counted_none : counted.
