(* ===== verification/ConnectionClosed.v ===== *)
(** * The runtime connection manager: a connection is closed once

    The closes of every operation, and the theorem about connections. *)

From S2P Require Import Prelude Wire RuntimeManifest ConnectionManager ConnectionOwnership ConnectionOwned.

(** A part of a step that changes no closings before it, or closes nothing. *)
Ltac same_closings := cbn; repeat (rewrite ?closings_settle, ?closings_bound; progress cbn); rewrite ?closings_settle, ?closings_bound; done.

Ltac counted_part :=
  first
    [ solve [apply counted_same; [same_closings|done]]
    | solve [eapply counted_from; [|solve [eauto 2 with counted]]; same_closings] ].

Lemma counted_connect now u env force m : counted m (connect now u env force m).1.
Proof. unfold connect, connect_entry. repeat case_match; cbn [fst]; counted_part. Qed.

Lemma counted_interactive now u env m : counted m (connectInteractive now u env m).1.
Proof.
  unfold connectInteractive. pose proof (counted_connect now u env true m) as H. destruct (connect now u env true m) as [[m1 es] answer]. cbn [fst] in H.
  repeat case_match; cbn [fst]; try done; intros c; exact (H c).
Qed.

Lemma counted_resolved k answer m : counted m (connect_resolved k answer m).
Proof. unfold connect_resolved. repeat case_match; counted_part. Qed.

Lemma counted_deadline k m : counted m (connect_deadline k m).
Proof. unfold connect_deadline. repeat case_match; counted_part. Qed.

Lemma counted_adopt n answer m : counted m (adopt_resolved n answer m).
Proof.
  unfold adopt_resolved. destruct (cm_adopts m !! n) as [[u env]|]; [|counted_part]. destruct answer as [[d|]|]; try counted_part. cbv zeta.
  destruct (_ || _); [counted_part|]. match goal with |- counted _ (then_do (supersede _ _ _ ?m1) _) => apply (counted_from m1); [done|] end.
  apply counted_then; [|apply counted_publish]. unfold supersede. apply counted_then; [case_match; counted_part|]. intros m'. case_match; counted_part.
Qed.

Lemma counted_started k m : counted m (adopt_started k m).
Proof. unfold adopt_started. repeat case_match; counted_part. Qed.

Lemma counted_delivered k now mf version isolation attested hookError m : counted m (opening_delivered k now mf version isolation attested hookError m).
Proof.
  unfold opening_delivered. repeat case_match; try counted_part.
  all: apply counted_then; [apply counted_then; [counted_part|apply counted_publish]|intros m'; counted_part].
Qed.

Lemma counted_rejected k err m : counted m (opening_rejected k err m).
Proof. unfold opening_rejected. repeat case_match; counted_part. Qed.

Lemma counted_refresh now u env reader bg m : counted m (refresh_start now u env reader bg m).1.
Proof. unfold refresh_start. repeat case_match; cbn [fst]; counted_part. Qed.

Lemma counted_read now k a e m : counted m (readHostedAgents now k a e m).
Proof.
  unfold readHostedAgents. destruct (rc_connection e); [|counted_part]. destruct (_ || _); [counted_part|].
  pose proof (counted_refresh now (ca_userId a) (ca_environmentId a) (Some k) false m) as H.
  destruct (refresh_start now (ca_userId a) (ca_environmentId a) (Some k) false m) as [[m1 es] [f|]]; cbn [fst] in H.
  - intros c. exact (H c).
  - apply counted_then; [done|]. intros. counted_part.
Qed.

Lemma counted_continues now k m : counted m (attempt_continues now k m).
Proof.
  unfold attempt_continues. destruct (cm_attempts m !! k) as [a|]; [|counted_part]. destruct (ca_public a) as [|[c|err]| | |]; try counted_part;
    destruct (cm_entries m !! ca_key a) as [e|]; try counted_part.
  - eapply counted_from; [|apply counted_read]. by destruct (ca_adopt a).
  - destruct (ca_adopt a); cbv zeta; (apply counted_then; [|intros; counted_part]); destruct (stale a e); counted_part.
Qed.

Lemma counted_health f answer m : counted m (health_answered f answer m).
Proof.
  unfold health_answered. destruct (cm_refreshes m !! f) as [call|]; [|counted_part]. apply counted_then.
  - destruct answer; [|counted_part]. case_match; [|counted_part]. unfold apply_health. destruct (cm_entries _ !! _); [|counted_part].
    destruct (cm_conns _ !! _); [|counted_part]. cbv zeta. apply counted_then.
    + apply counted_same; [done|]. intros c. cbn. rewrite closes_app. by repeat case_match.
    + intros m'. case_match; counted_part.
  - intros m'. unfold refresh_over. repeat case_match; counted_part.
Qed.

Lemma counted_unavailable now k m : counted m (attempt_unavailable now k m).
Proof.
  unfold attempt_unavailable. repeat case_match; try counted_part. apply counted_then; [counted_part|]. intros. counted_part.
Qed.

Lemma counted_release key m : counted m (release key m).
Proof.
  unfold release. destruct (cm_entries m !! key) as [e|]; [|counted_part]. cbv zeta. apply counted_then; [|intros; counted_part].
  apply counted_then; [|intros m'; case_match; counted_part]. case_match; [|counted_part]. counted_part.
Qed.

Lemma counted_release_all keys m : counted m (release_all keys m).
Proof. revert m. induction keys as [|key keys IH]; intros m; [counted_part|]. apply counted_then; [apply counted_release|done]. Qed.

Lemma counted_shutdown m : counted m (shutdown m).
Proof.
  unfold shutdown. destruct (cm_shutdown m); [counted_part|]. unfold closeAll. cbn [cm_keys cm_set_shutdown].
  pose proof (counted_release_all (cm_keys m) (cm_set_shutdown (Some []) m)) as H. destruct (release_all _ _) as [m1 es]. intros c. exact (H c).
Qed.

Lemma counted_step o m : counted m (manager_step o m).
Proof.
  destruct o; cbn [manager_step].
  - apply counted_connect.
  - apply counted_interactive.
  - unfold waiter_done. repeat case_match; counted_part.
  - apply counted_resolved.
  - apply counted_deadline.
  - unfold reportPhase. repeat case_match; try counted_part. apply counted_then; [counted_part|]. intros m'. apply counted_same; [done|]. cbn. intros d. by induction (rc_pullWaiters _).
  - unfold adopt_call. repeat case_match; counted_part.
  - apply counted_adopt.
  - apply counted_started.
  - apply counted_delivered.
  - apply counted_rejected.
  - unfold opening_expired. repeat case_match; counted_part.
  - apply counted_continues.
  - unfold attempt_finally. repeat case_match; counted_part.
  - apply counted_unavailable.
  - unfold close_settled. repeat case_match; counted_part.
  - unfold release_settled. repeat case_match; counted_part.
  - unfold disconnect. apply counted_then; [counted_part|]. intros m'. case_match; [|counted_part]. apply counted_then; [apply counted_release|apply counted_publish].
  - unfold disconnectIfCurrent. repeat case_match; try counted_part. cbn [fst]. apply counted_then; [apply counted_release|apply counted_publish].
  - apply counted_release_all.
  - apply counted_shutdown.
  - unfold expectUpdateDisconnect. repeat case_match; counted_part.
  - unfold clearExpectedUpdateDisconnect. repeat case_match; counted_part.
  - unfold clearBackoff. repeat case_match; counted_part.
  - unfold clearHealth. apply counted_then; [counted_part|]. intros m'. repeat case_match; counted_part.
  - apply counted_refresh.
  - unfold refreshManifestIfStale. repeat case_match; try counted_part;
      match goal with H : refresh_start ?n ?u ?e ?r ?b ?m = _ |- _ => pose proof (counted_refresh n u e r b m) as Hc; rewrite H in Hc; cbn [fst] in Hc; intros d; exact (Hc d) end.
  - apply counted_health.
Qed.

Lemma counted_run os m : counted m (manager_run os m).
Proof. revert m. induction os as [|o os IH]; intros m; [apply counted_none|]. apply counted_then; [apply counted_step|done]. Qed.

(** ** The theorem *)

Definition holds (key : jstring) (c : nat) (m : manager) : Prop := exists e, cm_entries m !! key = Some e /\ rc_connection e = Some c.

Lemma holds_view key c m : holds key c m -> exists e, ow_entries (view m) !! key = Some e /\ oe_connection e = Some c.
Proof. intros (e & He & Hc). exists (core e). by rewrite (view_entry _ _ e). Qed.

Lemma view_holds key e c m : ow_entries (view m) !! key = Some e -> oe_connection e = Some c -> holds key c m.
Proof. cbn. rewrite lookup_fmap. destruct (cm_entries m !! key) as [x|] eqn:E; cbn; [|done]. intros [= <-] Hc. by exists x. Qed.

(** C4: whatever the order of connects, adoptions, disconnects, losses, deadlines, shutdowns and answers, a connection an opener
    delivered is either held by exactly one entry and has never been closed, or held by none and has been closed exactly once:
    no runtime is leaked, none is closed twice, none is in use after its close. *)
Theorem connections_owned_once (cfg : manager_config) (os : list manager_op) (c : nat) :
  let m := (manager_run os (new_manager cfg)).1 in let es := (manager_run os (new_manager cfg)).2 in
  is_Some (cm_conns m !! c) ->
  closes c es = 1%nat /\ (forall key, ~ holds key c m) \/
  closes c es = 0%nat /\ exists key, holds key c m /\ forall key', holds key' c m -> key' = key.
Proof.
  intros m es [conn Hconn]. pose proof (manager_run_inv os _ (new_manager_inv cfg)) as I. fold m in I.
  assert (Hcount : closes c es = once c m) by (pose proof (counted_run os (new_manager cfg) c) as H; fold m es in H; unfold once at 1 in H; rewrite decide_False in H by (cbn; set_solver); exact H).
  assert (Hc : ow_conns (view m) !! c = Some (cn_attempt conn)) by (cbn; by rewrite lookup_fmap, Hconn). rewrite Hcount. unfold once.
  destruct (decide (c ∈ cm_closings m)) as [Hin|Hn].
  - left. split; [done|]. intros key (e & He & Hec)%holds_view. by destruct (oi_live _ I key e c He Hec) as (? & _).
  - right. split; [done|]. destruct (oi_owned _ I c _ Hc) as [?|(key & e & He & Hec)]; [done|]. exists key. split; [by eapply view_holds|].
    intros key' (e' & He' & Hec')%holds_view. destruct (oi_live _ I key e c He Hec) as (_ & k & a & Hk & Ha & E1 & _).
    destruct (oi_live _ I key' e' c He' Hec') as (_ & k' & a' & Hk' & Ha' & E2 & _). congruence.
Qed.

(** A hub with a connector for every transport, and none of its own deadlines. *)
Definition plain_config : manager_config := {| mc_hubVersion := js "1.0.0"; mc_connectors := fun _ => true; mc_connectDeadlinesMs := fun _ => None |}.

Definition stdio_definition : RuntimeEnvironmentDefinition := {| df_name := js "Box"; df_transportKind := tk_stdio; df_configValid := true; df_enabled := true |}.

Definition plain_manifest : manifest :=
  {| mn_platform := js "linux"; mn_arch := js "x64"; mn_pathStyle := js "posix"; mn_homeDir := js "/h"; mn_shells := [js "bash"];
     mn_git := {| tf_available := true; tf_version := None |}; mn_gh := None;
     mn_features := {| ft_tools := true; ft_git := true; ft_probing := true; ft_mcp := true; ft_library := true; ft_checkpoints := true;
                       ft_fsRead := None; ft_fsWrite := None; ft_shell := None; ft_update := None; ft_externalAgents := None; ft_toolchain := None |};
     mn_externalAgents := None; mn_identityIsolation := None; mn_terminal := None; mn_terminalCloseAfterRevocation := None; mn_terminalLoginArgv := None;
     mn_enforcesPathPolicy := None; mn_publishesWindowsSlot := None; mn_directoryHashDomain := None; mn_profile := None; mn_allow := None;
     mn_implementation := None |}.

(** A connect is abandoned while its runtime starts; the late connection is closed, a second connect gets another. *)
Definition abandoned_run : list manager_op :=
  [MoConnect 0 (js "u") (js "box") false; MoResolved 0 (Ok (Some stdio_definition)); MoDisconnect (js "u") (js "box");
   MoDelivered 0 1 plain_manifest (js "1.0.0") None false None;
   MoConnect 2 (js "u") (js "box") false; MoResolved 3 (Ok (Some stdio_definition)); MoDelivered 3 3 plain_manifest (js "1.0.0") None false None;
   MoContinue 4 3; MoFinally 3].

Lemma connections_owned_once_witness :
  let m := (manager_run abandoned_run (new_manager plain_config)).1 in let es := (manager_run abandoned_run (new_manager plain_config)).2 in
  (closes 2 es = 1%nat /\ forall key, ~ holds key 2 m) /\ closes 4 es = 0%nat /\ holds (connectionKey (js "u") (js "box")) 4 m.
Proof.
  cbv zeta. split.
  - destruct (connections_owned_once plain_config abandoned_run 2) as [H|[H _]]; [vm_compute; eauto|exact H|vm_compute in H; discriminate H].
  - destruct (connections_owned_once plain_config abandoned_run 4) as [[H _]|[H _]]; [vm_compute; eauto|vm_compute in H; discriminate H|].
    split; [exact H|]. eexists. split; vm_compute; reflexivity.
Defined.
