(* ===== verification/ConnectionTeardown.v ===== *)
(** * The runtime connection manager: teardowns are tracked

    Every opener and every close is pending on its entry, has failed there, or is over. *)

From S2P Require Import Prelude Wire RuntimeManifest ConnectionManager ConnectionOwnership ConnectionOwned.

(** ** The view *)

Record tracked_attempt : Type := { ta_key : jstring; ta_opening : opening_stage; ta_ownership : ownership }.

Record tracked : Type := {
  tv_entries : gmap jstring (list teardown * list teardown);
  tv_attempts : gmap nat tracked_attempt;
  tv_conns : gmap nat nat;
  tv_closings : gset nat;
  tv_outcomes : gmap teardown bool;
}.

Definition teardowns (e : RuntimeConnectionEntry) : list teardown * list teardown := (rc_pendingTeardowns e, rc_failedTeardowns e).

Definition tcore (a : connect_attempt) : tracked_attempt := {| ta_key := ca_key a; ta_opening := ca_opening a; ta_ownership := ca_ownership a |}.

Definition tview (m : manager) : tracked :=
  {| tv_entries := teardowns <$> cm_entries m; tv_attempts := tcore <$> cm_attempts m; tv_conns := cn_attempt <$> cm_conns m; tv_closings := cm_closings m;
     tv_outcomes := cm_outcomes m |}.

(** A teardown that belongs to an entry is where its outcome says. *)
Definition placed (key : jstring) (td : teardown) (t : tracked) : Prop :=
  match tv_outcomes t !! td with
  | Some true => True
  | Some false => exists p, tv_entries t !! key = Some p /\ td ∈ p.2
  | None => exists p, tv_entries t !! key = Some p /\ td ∈ p.1
  end.

Record td_inv (t : tracked) : Prop := {
  ti_opening : forall k a, tv_attempts t !! k = Some a -> placed (ta_key a) (TdOpening k) t;
  ti_close : forall c k a, tv_conns t !! c = Some k -> tv_attempts t !! k = Some a -> c ∈ tv_closings t -> placed (ta_key a) (TdClose c) t;
  ti_done : forall k a, tv_attempts t !! k = Some a -> tv_outcomes t !! TdOpening k = Some true -> ta_ownership a = ow_over;
  ti_owner : forall k a c, tv_attempts t !! k = Some a -> ta_ownership a = ow_closing c ->
    tv_conns t !! c = Some k /\ c ∈ tv_closings t /\ tv_outcomes t !! TdClose c = None;
  ti_stage : forall k a, tv_attempts t !! k = Some a -> ta_ownership a = ow_opening <-> ta_opening a <> og_settled;
  ti_known : forall k b, tv_outcomes t !! TdOpening k = Some b -> is_Some (tv_attempts t !! k);
  ti_closed : forall c b, tv_outcomes t !! TdClose c = Some b -> c ∈ tv_closings t;
}.

(** ** Moves *)

Definition td_attempt (k : nat) (a : tracked_attempt) (t : tracked) : tracked :=
  {| tv_entries := tv_entries t; tv_attempts := <[k := a]> (tv_attempts t); tv_conns := tv_conns t; tv_closings := tv_closings t; tv_outcomes := tv_outcomes t |}.

Definition td_settle (key : jstring) (td : teardown) (ok : bool) (t : tracked) : tracked :=
  match tv_outcomes t !! td with
  | Some _ => t
  | None =>
      {| tv_entries := alter (fun p => (drop_from td p.1, if ok then p.2 else add_to td p.2)) key (tv_entries t); tv_attempts := tv_attempts t; tv_conns := tv_conns t;
         tv_closings := tv_closings t; tv_outcomes := <[td := ok]> (tv_outcomes t) |}
  end.

Definition td_close (key : jstring) (c : nat) (t : tracked) : tracked :=
  {| tv_entries := alter (fun p => (add_to (TdClose c) p.1, p.2)) key (tv_entries t); tv_attempts := tv_attempts t; tv_conns := tv_conns t;
     tv_closings := {[c]} ∪ tv_closings t; tv_outcomes := tv_outcomes t |}.

Definition td_begin (key : jstring) (k : nat) (p : list teardown * list teardown) (t : tracked) : tracked :=
  {| tv_entries := <[key := (add_to (TdOpening k) p.1, p.2)]> (tv_entries t);
     tv_attempts := <[k := {| ta_key := key; ta_opening := og_before; ta_ownership := ow_opening |}]> (tv_attempts t); tv_conns := tv_conns t;
     tv_closings := tv_closings t; tv_outcomes := tv_outcomes t |}.

Definition td_conn (c k : nat) (t : tracked) : tracked :=
  {| tv_entries := tv_entries t; tv_attempts := tv_attempts t; tv_conns := <[c := k]> (tv_conns t); tv_closings := tv_closings t; tv_outcomes := tv_outcomes t |}.

Lemma elem_of_add_to `{EqDecision A} (x y : A) l : x ∈ add_to y l <-> x = y \/ x ∈ l.
Proof. unfold add_to. case_bool_decide; [naive_solver|]. rewrite elem_of_app, list_elem_of_singleton. naive_solver. Qed.

Lemma elem_of_drop_from `{EqDecision A} (x y : A) l : x ∈ drop_from y l <-> x <> y /\ x ∈ l.
Proof. unfold drop_from. rewrite list_elem_of_In, filter_In, <- list_elem_of_In, negb_true_iff, bool_decide_eq_false. tauto. Qed.

(** Where a teardown is after another one settled. *)
Lemma placed_settle key key' td td' ok t : placed key td t -> td <> td' -> placed key td (td_settle key' td' ok t).
Proof.
  intros Hp Hn. unfold td_settle. destruct (tv_outcomes t !! td') eqn:E; [done|]. unfold placed in *. cbn. rewrite lookup_insert_ne by done.
  destruct (decide (key' = key)) as [->|Hk]; [rewrite lookup_alter_eq|by rewrite lookup_alter_ne by done].
  destruct (tv_outcomes t !! td) as [[]|]; [done|..]; destruct Hp as (p & -> & Hin); (eexists; split; [reflexivity|]); cbn.
  - destruct ok; [done|]. rewrite elem_of_add_to. auto.
  - rewrite elem_of_drop_from. auto.
Qed.

Lemma placed_settled key td ok t : placed key td t -> placed key td (td_settle key td ok t).
Proof.
  intros Hp. unfold td_settle. destruct (tv_outcomes t !! td) eqn:E; [done|]. unfold placed in *. cbn. rewrite lookup_insert_eq. rewrite E in Hp.
  destruct ok; [done|]. destruct Hp as (p & Hp & _). rewrite lookup_alter_eq, Hp. eexists. split; [done|]. cbn. rewrite elem_of_add_to. by left.
Qed.

Lemma settle_placed key td key' td' ok t : placed key td t -> (td = td' -> key = key') -> placed key td (td_settle key' td' ok t).
Proof. intros Hp He. destruct (decide (td = td')) as [E|Hn]; [|by apply placed_settle]. specialize (He E). subst. by apply placed_settled. Qed.

Lemma settle_outcome key td ok t td' b : tv_outcomes (td_settle key td ok t) !! td' = Some b -> td' = td /\ b = ok /\ tv_outcomes t !! td = None \/ tv_outcomes t !! td' = Some b.
Proof.
  unfold td_settle. destruct (tv_outcomes t !! td) eqn:E; [auto|]. cbn. intros [[<- <-]|[_ H]]%lookup_insert_Some; auto.
Qed.

Lemma td_settle_rest key td ok t : tv_attempts (td_settle key td ok t) = tv_attempts t /\ tv_conns (td_settle key td ok t) = tv_conns t /\
  tv_closings (td_settle key td ok t) = tv_closings t.
Proof. unfold td_settle. by destruct (tv_outcomes t !! td). Qed.

(** An opener's teardown settles: with success only once its ownership is over. *)
Lemma settle_opening_inv k a ok t : td_inv t -> tv_attempts t !! k = Some a -> (ok = true -> ta_ownership a = ow_over) -> td_inv (td_settle (ta_key a) (TdOpening k) ok t).
Proof.
  intros I Hk Hok. destruct (td_settle_rest (ta_key a) (TdOpening k) ok t) as (Ea & Ec & Es). constructor; rewrite ?Ea, ?Ec, ?Es.
  - intros j b Hj. apply settle_placed; [by apply (ti_opening _ I)|]. intros [= ->]. congruence.
  - intros c j b Hc Hj Hin. apply settle_placed; [by eapply (ti_close _ I)|done].
  - intros j b Hj [([= ->] & <- & _)|H]%settle_outcome; [simplify_eq; auto|by eapply ti_done].
  - intros j b c Hj Ho. destruct (ti_owner _ I j b c Hj Ho) as (H1 & H2 & H3). repeat split; [done..|].
    destruct (tv_outcomes (td_settle _ _ _ t) !! _) eqn:E; [|done]. apply settle_outcome in E as [(? & _)|?]; congruence.
  - apply (ti_stage _ I).
  - intros j b [([= ->] & _)|H]%settle_outcome; [eauto|by eapply ti_known].
  - intros c b [(? & _)|H]%settle_outcome; [done|by eapply ti_closed].
Qed.

(** A close settles, when no opener waits for it any more. *)
Lemma settle_close_inv c k a ok t : td_inv t -> tv_conns t !! c = Some k -> tv_attempts t !! k = Some a -> c ∈ tv_closings t -> ta_ownership a <> ow_closing c ->
  td_inv (td_settle (ta_key a) (TdClose c) ok t).
Proof.
  intros I Hc Hk Hin Hn. destruct (td_settle_rest (ta_key a) (TdClose c) ok t) as (Ea & Ec & Es). constructor; rewrite ?Ea, ?Ec, ?Es.
  - intros j b Hj. apply settle_placed; [by apply (ti_opening _ I)|done].
  - intros d j b Hd Hj Hind. apply settle_placed; [by eapply (ti_close _ I)|]. intros [= ->]. congruence.
  - intros j b Hj [(? & _)|H]%settle_outcome; [done|by eapply ti_done].
  - intros j b d Hj Ho. destruct (ti_owner _ I j b d Hj Ho) as (H1 & H2 & H3). repeat split; [done..|].
    destruct (tv_outcomes (td_settle _ _ _ t) !! _) eqn:E; [|done]. apply settle_outcome in E as [([= ->] & _)|?]; congruence.
  - apply (ti_stage _ I).
  - intros j b [(? & _)|H]%settle_outcome; [done|by eapply ti_known].
  - intros d b [([= ->] & _)|H]%settle_outcome; [done|by eapply ti_closed].
Qed.

(** An attempt moves on. *)
Lemma td_attempt_inv k a a' t : td_inv t -> tv_attempts t !! k = Some a -> ta_key a' = ta_key a -> (ta_ownership a = ow_over -> ta_ownership a' = ow_over) ->
  (ta_ownership a' = ow_opening <-> ta_opening a' <> og_settled) ->
  (forall c, ta_ownership a' = ow_closing c -> tv_conns t !! c = Some k /\ c ∈ tv_closings t /\ tv_outcomes t !! TdClose c = None) -> td_inv (td_attempt k a' t).
Proof.
  intros I Hk Ek Hover Hst Hcl. constructor; cbn; try apply I.
  - intros j b [[<- <-]|[_ Hj]]%lookup_insert_Some; [rewrite Ek|]; by apply (ti_opening _ I).
  - intros c j b Hc [[<- <-]|[_ Hj]]%lookup_insert_Some Hin; [rewrite Ek|]; by eapply (ti_close _ I).
  - intros j b [[<- <-]|[_ Hj]]%lookup_insert_Some H; [apply Hover|]; by eapply (ti_done _ I).
  - intros j b c [[<- <-]|[_ Hj]]%lookup_insert_Some H; [by apply Hcl|by eapply (ti_owner _ I)].
  - intros j b [[<- <-]|[_ Hj]]%lookup_insert_Some; [done|by eapply (ti_stage _ I)].
  - intros j b H. destruct (ti_known _ I j b H) as [x Hx]. destruct (decide (k = j)) as [<-|]; [rewrite lookup_insert_eq; eauto|rewrite lookup_insert_ne by done; eauto].
Qed.

(** A connection is closed, on the entry of its attempt. *)
Lemma td_close_inv c k a t : td_inv t -> tv_conns t !! c = Some k -> tv_attempts t !! k = Some a -> c ∉ tv_closings t -> is_Some (tv_entries t !! ta_key a) ->
  td_inv (td_close (ta_key a) c t).
Proof.
  intros I Hc Hk Hn [p0 Hp0]. assert (Ho : tv_outcomes t !! TdClose c = None). { destruct (tv_outcomes t !! TdClose c) eqn:E; [|done]. by apply (ti_closed _ I) in E. }
  assert (Hpl : forall key td, placed key td t -> placed key td (td_close (ta_key a) c t)).
  { intros key td Hp. unfold placed in *. cbn. destruct (decide (ta_key a = key)) as [<-|Hne]; [rewrite lookup_alter_eq|by rewrite lookup_alter_ne by done].
    destruct (tv_outcomes t !! td) as [[]|]; [done|..]; destruct Hp as (p & -> & Hin); (eexists; split; [done|]); cbn; [done|]. rewrite elem_of_add_to. auto. }
  constructor; cbn; try apply I.
  - intros j b Hj. apply Hpl. by apply (ti_opening _ I).
  - intros d j b Hd Hj [Hin|Hin]%elem_of_union; [|apply Hpl; by eapply (ti_close _ I)]. apply elem_of_singleton in Hin as ->. simplify_eq.
    unfold placed. cbn. rewrite Ho, lookup_alter_eq, Hp0. eexists. split; [done|]. cbn. rewrite elem_of_add_to. by left.
  - intros j b d Hj Hw. destruct (ti_owner _ I j b d Hj Hw) as (? & ? & ?). split; [done|]. split; [set_solver|done].
  - intros d b H. apply (ti_closed _ I) in H. set_solver.
Qed.

(** An attempt begins. *)
Lemma td_begin_inv key k p t : td_inv t -> (tv_entries t !! key = Some p \/ tv_entries t !! key = None) -> tv_attempts t !! k = None ->
  (forall c, tv_conns t !! c <> Some k) -> td_inv (td_begin key k p t).
Proof.
  intros I Hp Hk Hck. assert (Ho : tv_outcomes t !! TdOpening k = None). { destruct (tv_outcomes t !! TdOpening k) eqn:E; [|done]. apply (ti_known _ I) in E as [? ?]. congruence. }
  assert (Hpl : forall x td, placed x td t -> placed x td (td_begin key k p t)).
  { intros x td H. unfold placed in *. cbn. destruct (decide (key = x)) as [<-|Hne]; [rewrite lookup_insert_eq|by rewrite lookup_insert_ne by done].
    destruct (tv_outcomes t !! td) as [[]|]; [done|..]; destruct H as (q & Hq & Hin); destruct Hp as [Hp|Hp]; try congruence; simplify_eq;
      (eexists; split; [done|]); cbn; [done|rewrite elem_of_add_to; auto]. }
  constructor; cbn; try apply I.
  - intros j b [[<- <-]|[_ Hj]]%lookup_insert_Some; [|apply Hpl; by apply (ti_opening _ I)]. unfold placed. cbn. rewrite Ho, lookup_insert_eq.
    eexists. split; [done|]. cbn. rewrite elem_of_add_to. by left.
  - intros c j b Hc [[<- <-]|[_ Hj]]%lookup_insert_Some Hin; [by destruct (Hck c)|]. apply Hpl. by eapply (ti_close _ I).
  - intros j b [[<- <-]|[_ Hj]]%lookup_insert_Some H; [congruence|by eapply (ti_done _ I)].
  - intros j b c [[<- <-]|[_ Hj]]%lookup_insert_Some H; [done|by eapply (ti_owner _ I)].
  - intros j b [[<- <-]|[_ Hj]]%lookup_insert_Some; [done|by eapply (ti_stage _ I)].
  - intros j b H. destruct (ti_known _ I j b H) as [x Hx]. destruct (decide (k = j)) as [<-|]; [rewrite lookup_insert_eq; eauto|rewrite lookup_insert_ne by done; eauto].
Qed.

(** A connection is delivered. *)
Lemma td_conn_inv c k t : td_inv t -> tv_conns t !! c = None -> c ∉ tv_closings t -> td_inv (td_conn c k t).
Proof.
  intros I Hc Hn. constructor; cbn; try apply I.
  - intros d j b [[<- <-]|[_ Hd]]%lookup_insert_Some Hj Hin; [done|by eapply (ti_close _ I)].
  - intros j b d Hj Hw. destruct (ti_owner _ I j b d Hj Hw) as (H1 & H2 & H3). split; [|done]. rewrite lookup_insert_ne; [done|]. intros <-. congruence.
Qed.
