(* ===== verification/ConnectionTracked.v ===== *)
(** * The runtime connection manager: every operation keeps its teardowns tracked *)

From S2P Require Import Prelude Wire RuntimeManifest ConnectionManager ConnectionOwnership ConnectionOwned ConnectionTeardown.

(** ** What the plumbing does to the view *)

Lemma tracked_eq t1 t2 : tv_entries t1 = tv_entries t2 -> tv_attempts t1 = tv_attempts t2 -> tv_conns t1 = tv_conns t2 -> tv_closings t1 = tv_closings t2 ->
  tv_outcomes t1 = tv_outcomes t2 -> t1 = t2.
Proof. destruct t1, t2; cbn. by intros -> -> -> -> ->. Qed.

Lemma fmap_alter_comm {A B} `{Countable K} (h : A -> B) (f : A -> A) (g : B -> B) (k : K) (m : gmap K A) : (forall x, h (f x) = g (h x)) -> h <$> alter f k m = alter g k (h <$> m).
Proof.
  intros Hf. apply map_eq. intros i. rewrite lookup_fmap. destruct (decide (k = i)) as [<-|Hn]; [rewrite !lookup_alter_eq, lookup_fmap|by rewrite !lookup_alter_ne, lookup_fmap by done].
  destruct (m !! k); cbn; [by rewrite Hf|done].
Qed.

Lemma tview_on_entry key f m : (forall e, teardowns (f e) = teardowns e) -> tview (on_entry key f m) = tview m.
Proof. intros Hf. apply tracked_eq; cbn; try done. apply fmap_alter_same. auto. Qed.

Lemma tview_on_attempt k f m : (forall a, tcore (f a) = tcore a) -> tview (on_attempt k f m) = tview m.
Proof. intros Hf. apply tracked_eq; cbn; try done. apply fmap_alter_same. auto. Qed.

Lemma tview_set_attempt k f a m : cm_attempts m !! k = Some a -> tview (on_attempt k f m) = td_attempt k (tcore (f a)) (tview m).
Proof. intros Ha. apply tracked_eq; cbn; try done. by apply fmap_alter_set. Qed.

Lemma tview_publish u m : tview (publish u m).1 = tview m.
Proof.
  apply tracked_eq; cbn; try done. rewrite <- map_fmap_compose. apply map_fmap_ext. intros key e _. cbn. unfold announce. repeat case_match; done.
Qed.

Lemma tview_settle key td ok m : tview (settle_teardown key td ok m) = td_settle key td ok (tview m).
Proof.
  unfold settle_teardown, td_settle. cbn [tview tv_outcomes]. destruct (cm_outcomes m !! td); [done|]. apply tracked_eq; cbn; try done.
  apply fmap_alter_comm. intros e. by destruct ok.
Qed.

Lemma tview_close key c r m : tview (closeConnection key c r m).1 = if bool_decide (c ∈ cm_closings m) then tview m else td_close key c (tview m).
Proof.
  unfold closeConnection. case_bool_decide; [done|]. apply tracked_eq; cbn; try done. by apply fmap_alter_comm.
Qed.

Lemma tview_put_entry key e m : tview (put_entry key e m) = {| tv_entries := <[key := teardowns e]> (tv_entries (tview m)); tv_attempts := tv_attempts (tview m);
  tv_conns := tv_conns (tview m); tv_closings := tv_closings (tview m); tv_outcomes := tv_outcomes (tview m) |}.
Proof. apply tracked_eq; cbn; try done. by rewrite fmap_insert. Qed.

Lemma tview_bound_openings ks m : tview (bound_openings ks m) = tview m.
Proof. induction ks as [|k ks IH]; [done|]. cbn. by rewrite tview_on_attempt. Qed.

Lemma tview_then p f : tview (then_do p f).1 = tview (f p.1).1.
Proof. destruct p as [m es]. cbn. by destruct (f m). Qed.

Lemma tview_race k o m : tview (race_settled k o m) = tview m.
Proof. apply tview_on_attempt. intros a. by destruct (ca_public a). Qed.

Lemma tview_abort k r m : tview (abort_attempt k r m).1 = tview m.
Proof. unfold abort_attempt. repeat case_match; try done. cbn [fst]. by rewrite tview_race, tview_on_attempt. Qed.

Lemma tview_attempt m k a : cm_attempts m !! k = Some a -> tv_attempts (tview m) !! k = Some (tcore a).
Proof. intros Ha. cbn. by rewrite lookup_fmap, Ha. Qed.

Definition over_attempt (a : tracked_attempt) : tracked_attempt := {| ta_key := ta_key a; ta_opening := og_settled; ta_ownership := ow_over |}.

Lemma td_attempt_twice k a a' t : td_attempt k a' (td_attempt k a t) = td_attempt k a' t.
Proof. apply tracked_eq; cbn; try done. by rewrite insert_insert_eq. Qed.

Lemma tview_failed k key e a m : cm_attempts m !! k = Some a ->
  tview (opening_failed k key e m).1 = td_settle key (TdOpening k) (negb (er_incomplete e)) (td_attempt k (over_attempt (tcore a)) (tview m)).
Proof.
  intros Ha. unfold opening_failed. cbn [fst]. rewrite tview_settle. f_equal.
  assert (Hb : exists b, cm_attempts (race_settled k (Err e) (finishOpening k key m)) !! k = Some b /\ over_attempt (tcore b) = over_attempt (tcore a) /\ tcore (ca_set_ownership ow_over b) = over_attempt (tcore a)).
  { eexists. split; [apply lookup_on_attempt; by apply lookup_finish|]. destruct a as [? ? ? ? ? ? ? ? ? p]. by destruct p. }
  destruct Hb as (b & Hb & _ & Eb). rewrite (tview_set_attempt _ _ b) by done. rewrite Eb, tview_race. unfold finishOpening.
  rewrite (tview_set_attempt _ _ a) by done. rewrite td_attempt_twice. by rewrite tview_on_entry.
Qed.

(** The opener is over and says so. *)
Lemma over_inv k a ok t : td_inv t -> tv_attempts t !! k = Some a -> td_inv (td_settle (ta_key a) (TdOpening k) ok (td_attempt k (over_attempt a) t)).
Proof.
  intros I Hk. refine (settle_opening_inv k (over_attempt a) ok _ _ _ _); [|cbn; by rewrite lookup_insert_eq|done]. eapply (td_attempt_inv k a); [done..| |done].
  cbn. split; [done|]. congruence.
Qed.

Lemma opening_failed_tracked k a e m : td_inv (tview m) -> cm_attempts m !! k = Some a -> td_inv (tview (opening_failed k (ca_key a) e m).1).
Proof. intros I Ha. rewrite (tview_failed _ _ _ a) by done. refine (over_inv k (tcore a) _ _ I _). by apply tview_attempt. Qed.

(** ** Beginning *)

Lemma tview_begin key k e a e0 m : cm_next m = k -> teardowns e = (add_to (TdOpening k) (rc_pendingTeardowns e0), rc_failedTeardowns e0) -> tcore a = {| ta_key := key; ta_opening := og_before; ta_ownership := ow_opening |} ->
  tview (add_attempt a (put_entry key e m)) = td_begin key k (teardowns e0) (tview m).
Proof. intros <- He Ha. apply tracked_eq; cbn; try done; by rewrite fmap_insert, ?He, ?Ha. Qed.

Lemma fresh_tracked m : own_inv (view m) -> tv_attempts (tview m) !! cm_next m = None /\ (forall c, tv_conns (tview m) !! c <> Some (cm_next m)) /\
  tv_conns (tview m) !! cm_next m = None /\ cm_next m ∉ cm_closings m.
Proof.
  intros O. assert (Ha : cm_attempts m !! cm_next m = None).
  { destruct (cm_attempts m !! cm_next m) eqn:E; [|done]. pose proof (oi_attempt_fresh _ O _ _ (view_attempt _ _ _ E)). cbn in *. lia. }
  split; [cbn; by rewrite lookup_fmap, Ha|]. split.
  - intros c Hc. destruct (oi_conn _ O c _ Hc) as (a & Hka & _). cbn in Hka. by rewrite lookup_fmap, Ha in Hka.
  - exact (fresh_conn (cm_next m) (view m) O (le_n _)).
Qed.

Lemma entry_present m key : (exists e, cm_entries m !! key = Some e /\ tv_entries (tview m) !! key = Some (teardowns e)) \/ cm_entries m !! key = None /\ tv_entries (tview m) !! key = None.
Proof. cbn. rewrite lookup_fmap. destruct (cm_entries m !! key) as [e|]; [left; eauto|by right]. Qed.

Lemma begin_tracked key k e a e0 m : own_inv (view m) -> td_inv (tview m) -> (cm_entries m !! key = Some e0 \/ cm_entries m !! key = None) -> cm_next m = k ->
  teardowns e = (add_to (TdOpening k) (rc_pendingTeardowns e0), rc_failedTeardowns e0) -> tcore a = {| ta_key := key; ta_opening := og_before; ta_ownership := ow_opening |} ->
  td_inv (tview (add_attempt a (put_entry key e m))).
Proof.
  intros O I Hp Hk He Ha. rewrite (tview_begin key k e a e0) by done. subst k. destruct (fresh_tracked m O) as (F1 & F2 & _). apply td_begin_inv; [done| |done|done].
  cbn. rewrite lookup_fmap. by destruct Hp as [->| ->]; [left|right].
Qed.

Lemma tracked_put_same key e0 e m : td_inv (tview m) -> cm_entries m !! key = Some e0 -> teardowns e = teardowns e0 -> td_inv (tview (put_entry key e m)).
Proof.
  intros I He E. replace (tview (put_entry key e m)) with (tview m); [done|]. rewrite tview_put_entry. apply tracked_eq; cbn; try done. rewrite E.
  symmetry. apply insert_id. by rewrite lookup_fmap, He.
Qed.

Lemma tracked_put_fresh key e m : td_inv (tview m) -> cm_entries m !! key = None -> td_inv (tview (put_entry key e m)).
Proof.
  intros I He. rewrite tview_put_entry. assert (Hpl : forall x td, placed x td (tview m) -> placed x td {| tv_entries := <[key:=teardowns e]> (tv_entries (tview m));
    tv_attempts := tv_attempts (tview m); tv_conns := tv_conns (tview m); tv_closings := tv_closings (tview m); tv_outcomes := tv_outcomes (tview m) |}).
  { intros x td. unfold placed. cbn. destruct (cm_outcomes m !! td) as [[]|]; [done|..]; intros (p & Hp & Hin); exists p; (split; [|done]);
      rewrite lookup_insert_ne; try done; intros <-; rewrite lookup_fmap, He in Hp; done. }
  constructor; cbn; try apply I.
  - intros k a Hk. apply Hpl. by apply (ti_opening _ I).
  - intros c k a Hc Hk Hin. apply Hpl. by eapply (ti_close _ I).
Qed.

Lemma connect_entry_tracked now key u env force e m : own_inv (view m) -> td_inv (tview m) ->
  (cm_entries m !! key = Some e \/ cm_entries m !! key = None) -> td_inv (tview (connect_entry now key u env force e m).1.1).
Proof.
  intros O I Hp. unfold connect_entry. set (e1 := if force then _ else e). assert (E : teardowns e1 = teardowns e) by (by destruct force). destruct (negb force && _); cbn [fst].
  - destruct Hp as [He|He]; [by eapply tracked_put_same|by apply tracked_put_fresh].
  - rewrite tview_publish. eapply (begin_tracked key (cm_next m) _ _ e); [done..| |done]. unfold teardowns in *. cbn. by injection E as -> ->.
Qed.

Lemma connect_tracked now u env force m : own_inv (view m) -> td_inv (tview m) -> td_inv (tview (connect now u env force m).1.1).
Proof.
  intros O I. unfold connect. destruct (negb (running m)); [done|]. destruct (cm_entries m !! connectionKey u env) as [e|] eqn:He; [|apply connect_entry_tracked; auto].
  destruct (rc_connection e); [done|]. destruct (rc_connecting e); [done|]. apply connect_entry_tracked; auto.
Qed.

Lemma connectInteractive_tracked now u env m : own_inv (view m) -> td_inv (tview m) -> td_inv (tview (connectInteractive now u env m).1.1).
Proof.
  intros O I. unfold connectInteractive. pose proof (connect_tracked now u env true m O I) as H. destruct (connect now u env true m) as [[m1 es] answer]. cbn [fst] in H.
  destruct (cm_entries m1 !! _); [|done]. destruct (es_pullingImage _); [done|]. cbn [fst]. refine (eq_ind _ td_inv H _ _). apply tracked_eq; cbn; try done.
  symmetry. by apply fmap_alter_same.
Qed.

(** ** Closing *)

(** Which attempt, on which entry, delivered a connection. *)
Definition belongs (c : nat) (key : jstring) (m : manager) : Prop :=
  exists k a, tv_conns (tview m) !! c = Some k /\ tv_attempts (tview m) !! k = Some a /\ ta_key a = key /\ is_Some (cm_entries m !! key).

Lemma live_belongs key e c m : own_inv (view m) -> cm_entries m !! key = Some e -> rc_connection e = Some c -> belongs c key m.
Proof.
  intros O He Hc. destruct (oi_live _ O key (core e) c (view_entry _ _ _ He) Hc) as (_ & k & a & Hk & Ha & E & _). cbn in Ha. rewrite lookup_fmap in Ha.
  destruct (cm_attempts m !! k) as [b|] eqn:Hb; cbn in Ha; [|done]. injection Ha as <-. exists k, (tcore b). split; [done|]. split; [by apply tview_attempt|]. split; [done|eauto].
Qed.

Lemma belongs_on_entry c key key' f m : belongs c key m -> belongs c key (on_entry key' f m).
Proof. intros (k & a & ? & ? & ? & [e He]). exists k, a. repeat split; try done. cbn. destruct (decide (key' = key)) as [->|]; [rewrite lookup_alter_eq, He|rewrite lookup_alter_ne by done]; eauto. Qed.

Lemma belongs_on_attempt c key k f m : (forall a, ca_key (f a) = ca_key a) -> belongs c key m -> belongs c key (on_attempt k f m).
Proof.
  intros Hf (j & a & Hj & Ha & E & He). cbn in Ha. rewrite lookup_fmap in Ha. destruct (cm_attempts m !! j) as [b|] eqn:Hb; cbn in Ha; [|done]. injection Ha as <-.
  destruct (decide (k = j)) as [->|Hn].
  - exists j, (tcore (f b)). repeat split; try done; [cbn; by rewrite lookup_fmap, lookup_alter_eq, Hb|]. cbn in *. by rewrite Hf.
  - exists j, (tcore b). repeat split; try done. cbn. by rewrite lookup_fmap, lookup_alter_ne, Hb.
Qed.

Lemma close_tracked key c r m : td_inv (tview m) -> belongs c key m -> td_inv (tview (closeConnection key c r m).1).
Proof.
  intros I (k & a & Hc & Ha & <- & [e He]). rewrite tview_close. case_bool_decide; [done|]. eapply td_close_inv; [done..|]. cbn. rewrite lookup_fmap, He. by eexists.
Qed.

(** ** Opening *)

Lemma calling_inv k a t : td_inv t -> tv_attempts t !! k = Some a -> ta_opening a = og_before ->
  td_inv (td_attempt k {| ta_key := ta_key a; ta_opening := og_called; ta_ownership := ta_ownership a |} t).
Proof.
  intros I Hk Ho. assert (Hw : ta_ownership a = ow_opening) by (apply (ti_stage _ I k a Hk); by rewrite Ho).
  eapply (td_attempt_inv k a); [done|done|done|done|cbn; by rewrite Hw|]. cbn. congruence.
Qed.

Lemma connect_resolved_tracked k answer m : td_inv (tview m) -> td_inv (tview (connect_resolved k answer m).1).
Proof.
  intros I. unfold connect_resolved. destruct (cm_attempts m !! k) as [a|] eqn:Ha; [|done]. destruct (ca_adopt a); [done|].
  destruct (ca_opening a) eqn:Ho; try done. destruct (cm_entries m !! ca_key a) as [e|] eqn:He; [|done].
  destruct answer as [d|err]; [|by apply opening_failed_tracked]. destruct (was_aborted a || stale a e); [by apply opening_failed_tracked|].
  destruct d as [d|]; [|by apply opening_failed_tracked]. set (m1 := on_attempt k _ _).
  assert (E1 : tview m1 = tview m) by (subst m1; by rewrite tview_on_attempt, tview_on_entry).
  assert (Ha1 : exists b, cm_attempts m1 !! k = Some b /\ tcore b = tcore a) by (eexists; split; [by apply lookup_on_attempt|done]). destruct Ha1 as (b & Hb & Eb).
  assert (Ek : ca_key a = ca_key b) by (by injection Eb). destruct (negb (df_enabled d) || negb (df_configValid d) || _).
  - rewrite Ek. apply opening_failed_tracked; [by rewrite E1|done].
  - cbn [fst]. rewrite (tview_set_attempt _ _ b) by done. rewrite E1.
    refine (eq_ind _ td_inv (calling_inv k (tcore a) _ I (tview_attempt _ _ _ Ha) Ho) _ _). unfold tcore in *. cbn. injection Eb as E2 E3 E4. congruence.
Qed.

Lemma connect_deadline_tracked k m : td_inv (tview m) -> td_inv (tview (connect_deadline k m).1).
Proof. intros I. unfold connect_deadline. repeat case_match; try done. by rewrite tview_abort, tview_on_attempt. Qed.

Lemma adopt_started_tracked k m : td_inv (tview m) -> td_inv (tview (adopt_started k m).1).
Proof.
  intros I. unfold adopt_started. destruct (cm_attempts m !! k) as [a|] eqn:Ha; [|done]. destruct (ca_adopt a); [|done]. destruct (ca_opening a) eqn:Ho; try done.
  destruct (was_aborted a); [by apply opening_failed_tracked|]. cbn [fst]. rewrite (tview_set_attempt _ _ a) by done.
  exact (calling_inv k (tcore a) _ I (tview_attempt _ _ _ Ha) Ho).
Qed.

Lemma belongs_begin c key key' e a m : own_inv (view m) -> belongs c key m -> belongs c key (add_attempt a (put_entry key' e m)).
Proof.
  intros O (k & b & Hc & Hb & E & [x Hx]). destruct (fresh_tracked m O) as (F & _). exists k, b. repeat split; try done.
  - cbn. rewrite fmap_insert, lookup_insert_ne; [done|]. intros <-. congruence.
  - cbn. destruct (decide (key' = key)) as [->|]; [rewrite lookup_insert_eq|rewrite lookup_insert_ne by done]; eauto.
Qed.

Lemma adopt_resolved_tracked n answer m : own_inv (view m) -> td_inv (tview m) -> td_inv (tview (adopt_resolved n answer m).1).
Proof.
  intros O I. unfold adopt_resolved. destruct (cm_adopts m !! n) as [[u env]|]; [|done]. set (m1 := cm_set_adopts _ m).
  destruct answer as [[d|]|]; try done. destruct (negb (running m1) || negb (df_enabled d)); [done|].
  set (key := connectionKey u env). set (e := default (new_entry u env) (cm_entries m1 !! key)). rewrite tview_then, tview_publish.
  set (e' := rc_set_connecting None _). set (m2 := add_attempt _ _). unfold supersede. rewrite tview_then.
  assert (I2 : td_inv (tview m2)).
  { eapply (begin_tracked key (cm_next m) e' _ e m1); [done|done| |done..]. subst e. cbn. destruct (cm_entries m !! key); auto. }
  destruct (rc_connection e) as [c|] eqn:Hc.
  - assert (Hbel : belongs c key m1). { subst e. cbn in Hc. destruct (cm_entries m !! key) as [e0|] eqn:He; [|done]. exact (live_belongs key e0 c m O He Hc). }
    pose proof (close_tracked key c cr_superseded m2 I2 (belongs_begin c key key _ _ m1 O Hbel)). destruct (rc_abort e); [by rewrite tview_abort|done].
  - destruct (rc_abort e); cbn [fst]; [by rewrite tview_abort|done].
Qed.

(** ** Delivery *)

Lemma refused_tracked c k a t : td_inv t -> tv_attempts t !! k = Some a -> tv_conns t !! c = None -> c ∉ tv_closings t -> is_Some (tv_entries t !! ta_key a) ->
  ta_ownership a = ow_opening -> td_inv (td_attempt k {| ta_key := ta_key a; ta_opening := og_settled; ta_ownership := ow_closing c |} (td_close (ta_key a) c (td_conn c k t))).
Proof.
  intros I Hk Hc Hn He Hw.
  assert (Ho : tv_outcomes t !! TdClose c = None). { destruct (tv_outcomes t !! TdClose c) eqn:E; [|done]. by apply (ti_closed _ I) in E. }
  assert (I1 : td_inv (td_close (ta_key a) c (td_conn c k t))).
  { eapply (td_close_inv c k a (td_conn c k t)); [by apply td_conn_inv|cbn; by rewrite lookup_insert_eq|done..]. }
  eapply (td_attempt_inv k a); [done|done|done|by rewrite Hw|by split|]. cbn. intros d [= <-]. rewrite lookup_insert_eq. split; [done|]. split; [set_solver|done].
Qed.

Lemma td_settle_attempt k a key td ok t : td_settle key td ok (td_attempt k a t) = td_attempt k a (td_settle key td ok t).
Proof. unfold td_settle. cbn. by destruct (tv_outcomes t !! td). Qed.

Lemma tview_refuse k a b c err m : cm_attempts m !! k = Some b -> c ∉ cm_closings m ->
  tview (refuse_connection k a c err m).1 = td_attempt k {| ta_key := ca_key b; ta_opening := ca_opening b; ta_ownership := ow_closing c |} (td_close (ca_key a) c (tview m)).
Proof.
  intros Hb Hn. unfold refuse_connection. rewrite tview_close. rewrite bool_decide_false by done.
  assert (Hb1 : exists b1, cm_attempts (race_settled k (Err err) m) !! k = Some b1 /\ tcore b1 = tcore b) by (eexists; split; [by apply lookup_on_attempt|by destruct (ca_public b)]).
  destruct Hb1 as (b1 & Hb1 & Eb). rewrite (tview_set_attempt _ _ b1) by done. rewrite tview_race. unfold tcore in *. cbn. injection Eb as E2 E3 _. by rewrite E2, E3.
Qed.

Lemma opening_delivered_tracked k now mf version isolation attested hookError m : own_inv (view m) -> td_inv (tview m) ->
  td_inv (tview (opening_delivered k now mf version isolation attested hookError m).1).
Proof.
  intros O I. unfold opening_delivered. destruct (cm_attempts m !! k) as [a|] eqn:Ha; [|done]. destruct (ca_opening a) eqn:Ho; try done.
  destruct (cm_entries m !! ca_key a) as [e|] eqn:He; [|done]. set (c := cm_next m). set (m0 := cm_set_next _ _). set (m1 := finishOpening k (ca_key a) m0).
  destruct (fresh_tracked m O) as (_ & _ & Fc & Fcl). fold c in Fc, Fcl.
  assert (Ha1 := lookup_finish k (ca_key a) a m0 Ha). fold m1 in Ha1.
  assert (E1 : tview m1 = td_attempt k {| ta_key := ca_key a; ta_opening := og_settled; ta_ownership := ca_ownership a |} (td_conn c k (tview m))).
  { unfold m1, finishOpening. rewrite (tview_set_attempt _ _ a) by done. rewrite tview_on_entry by done. apply tracked_eq; cbn; try done. by rewrite fmap_insert. }
  assert (Hw : ca_ownership a = ow_opening) by (apply (ti_stage _ I k (tcore a) (tview_attempt _ _ _ Ha)); cbn; by rewrite Ho).
  assert (Ir : td_inv (td_attempt k {| ta_key := ca_key a; ta_opening := og_settled; ta_ownership := ow_closing c |} (td_close (ca_key a) c (td_conn c k (tview m))))).
  { refine (refused_tracked c k (tcore a) _ I (tview_attempt _ _ _ Ha) Fc Fcl _ Hw). cbn. rewrite lookup_fmap, He. by eexists. }
  assert (Hgo : forall a' err m', tview m' = tview m1 -> cm_attempts m' !! k = Some (ca_set_bounded false (ca_set_opening og_settled a)) -> cm_closings m' = cm_closings m ->
    ca_key a' = ca_key a -> td_inv (tview (refuse_connection k a' c err m').1)).
  { intros a' err m' E' Hk' Hcl' Ek. rewrite (tview_refuse _ _ _ _ _ _ Hk') by (by rewrite Hcl'). rewrite Ek, E', E1. refine (eq_ind _ td_inv Ir _ _).
    apply tracked_eq; cbn; try done. by rewrite insert_insert_eq. }
  destruct (acceptable a e); cbn [negb]; [|by apply Hgo]. rewrite tview_then. set (m3 := (then_do _ _).1).
  assert (E3 : tview m3 = tview m1) by (unfold m3; rewrite tview_then, tview_publish; cbn [fst]; by rewrite tview_on_entry).
  destruct hookError as [err|]; cbn [fst].
  - apply Hgo; [rewrite tview_on_entry by done; exact E3|exact Ha1|done|done].
  - rewrite tview_settle. set (m4 := race_settled k (Ok c) m3). assert (E4 : tview m4 = tview m1) by (unfold m4; by rewrite tview_race).
    assert (Hb4 : exists b, cm_attempts m4 !! k = Some b /\ tcore (ca_set_ownership ow_over b) = over_attempt (tcore a)).
    { eexists. split; [by apply lookup_on_attempt|]. destruct a as [? ? ? ? ? ? ? ? ? p]. by destruct p. }
    destruct Hb4 as (b4 & Hb4 & Eb4). rewrite (tview_set_attempt _ _ b4) by done. rewrite Eb4, E4, E1, td_attempt_twice.
    refine (over_inv k (tcore a) true (td_conn c k (tview m)) _ _); [by apply td_conn_inv|by apply tview_attempt].
Qed.

Lemma opening_rejected_tracked k err m : td_inv (tview m) -> td_inv (tview (opening_rejected k err m).1).
Proof. intros I. unfold opening_rejected. destruct (cm_attempts m !! k) as [a|] eqn:Ha; [|done]. destruct (ca_opening a); try done. by apply opening_failed_tracked. Qed.

Lemma opening_expired_tracked k m : td_inv (tview m) -> td_inv (tview (opening_expired k m)).
Proof.
  intros I. unfold opening_expired. destruct (cm_attempts m !! k) as [a|] eqn:Ha; [|done]. destruct (ca_bounded a); [|done].
  rewrite tview_settle, tview_on_attempt, tview_on_entry by done. eapply (settle_opening_inv k (tcore a)); [done|by apply tview_attempt|done].
Qed.

(** ** Operations that leave the teardowns alone *)

Lemma tview_answered k a o m : tview (attempt_answered k a o m).1 = tview m.
Proof. unfold attempt_answered. destruct (ca_adopt a); cbn [fst]; rewrite tview_on_attempt; try done. apply tview_on_entry. intros e. by case_bool_decide. Qed.

Lemma tview_refresh now u env reader bg m : tview (refresh_start now u env reader bg m).1.1 = tview m.
Proof. unfold refresh_start. repeat case_match; try done. cbn [fst]. apply tracked_eq; cbn; try done. by apply fmap_alter_same. Qed.

Lemma tview_read now k a e m : tview (readHostedAgents now k a e m).1 = tview m.
Proof.
  unfold readHostedAgents. destruct (rc_connection e); [|by cbn [fst]; rewrite tview_on_attempt]. destruct (_ || _); [apply tview_answered|].
  pose proof (tview_refresh now (ca_userId a) (ca_environmentId a) (Some k) false m) as H.
  destruct (refresh_start now (ca_userId a) (ca_environmentId a) (Some k) false m) as [[m1 es] [f|]]; cbn [fst] in *; [by rewrite tview_on_attempt|].
  by rewrite tview_then, tview_answered.
Qed.

Lemma tview_continues now k m : tview (attempt_continues now k m).1 = tview m.
Proof.
  unfold attempt_continues. destruct (cm_attempts m !! k) as [a|]; [|done]. destruct (ca_public a) as [|[c|err]| | |]; try done;
    destruct (cm_entries m !! ca_key a) as [e|]; try done.
  - rewrite tview_read. destruct (ca_adopt a); [done|]. by rewrite tview_on_attempt.
  - destruct (ca_adopt a); cbv zeta; rewrite tview_then, tview_answered; destruct (stale a e); try done; rewrite tview_publish, tview_on_entry; try done.
    intros x. by destruct (isBoundElsewhere err).
Qed.

Lemma tview_finally k m : tview (attempt_finally k m).1 = tview m.
Proof.
  unfold attempt_finally. destruct (cm_attempts m !! k) as [a|]; [|done]. destruct (ca_public a); try done. cbn [fst]. rewrite tview_on_attempt by done.
  apply tview_on_entry. intros e. by repeat case_bool_decide.
Qed.

Lemma tview_refresh_over call m : tview (refresh_over call m).1 = tview m.
Proof.
  unfold refresh_over. set (m1 := if rf_background call then _ else m).
  assert (E : tview m1 = tview m) by (subst m1; destruct (rf_background call); [by apply tview_on_entry|done]). rewrite <- E. clearbody m1.
  destruct (rf_reader call) as [k|]; [|done]. destruct (cm_attempts m1 !! k) as [a|]; [|done]. destruct (ca_public a); try done. apply tview_answered.
Qed.

Lemma tview_apply_health u env c h m : tview (apply_health u env c h m).1 = tview m.
Proof.
  unfold apply_health. destruct (cm_entries m !! _) as [e|] eqn:He; [|done]. destruct (cm_conns m !! c) as [conn|] eqn:Hc; [|done]. cbv zeta. rewrite tview_then.
  match goal with |- tview (_ (?x, _).1).1 = _ => set (m1 := x) end.
  assert (E : tview m1 = tview m).
  { apply tracked_eq; cbn; try done; [apply fmap_alter_same; intros x Hx; by simplify_eq|]. rewrite fmap_insert. apply insert_id. by rewrite lookup_fmap, Hc. }
  case_bool_decide; cbn [fst]; by rewrite ?tview_publish.
Qed.

Lemma tview_health f answer m : tview (health_answered f answer m).1 = tview m.
Proof.
  unfold health_answered. destruct (cm_refreshes m !! f) as [call|]; [|done]. rewrite tview_then, tview_refresh_over.
  destruct answer; [|done]. case_match; [|done]. by rewrite tview_apply_health.
Qed.

Lemma tview_stale now u env m : tview (refreshManifestIfStale now u env m).1 = tview m.
Proof.
  unfold refreshManifestIfStale. destruct (cm_entries m !! _); [|done]. destruct (negb _ || _); [done|]. destruct (_ <? _); [done|].
  pose proof (tview_refresh now u env None true m) as H. destruct (refresh_start now u env None true m) as [[m1 es] [f|]]; cbn [fst] in *; [|done]. by rewrite tview_on_entry.
Qed.

Lemma tview_reportPhase k ph m : tview (reportPhase k ph m).1 = tview m.
Proof. unfold reportPhase. repeat case_match; try done; rewrite ?tview_then; cbn [fst]; by rewrite tview_publish, tview_on_entry. Qed.

Lemma tview_expectUpdate u env m : tview (expectUpdateDisconnect u env m).1 = tview m.
Proof. unfold expectUpdateDisconnect. repeat case_match; try done. by rewrite tview_publish, tview_on_entry. Qed.

Lemma tview_clearExpected u env m : tview (clearExpectedUpdateDisconnect u env m).1 = tview m.
Proof. unfold clearExpectedUpdateDisconnect. repeat case_match; try done. by rewrite tview_publish, tview_on_entry. Qed.

Lemma tview_clearBackoff u env m : tview (clearBackoff u env m).1 = tview m.
Proof. unfold clearBackoff. destruct (cm_entries m !! _) as [e|]; [|done]. destruct (_ && _); [done|]. rewrite tview_publish, tview_on_entry; [done|]. intros x. cbv zeta. by case_bool_decide. Qed.

Lemma tview_clearHealth u env m : tview (clearHealth u env m).1 = tview m.
Proof. unfold clearHealth. rewrite tview_then. cbn [fst]. repeat case_match; try done. cbn [fst]. by rewrite tview_on_entry. Qed.

Lemma tview_waiter w m : tview (waiter_done w m) = tview m.
Proof. unfold waiter_done. destruct (cm_waiters m !! w) as [[key x]|]; [|done]. apply tracked_eq; cbn; try done. by apply fmap_alter_same. Qed.

Lemma tview_release_settled r m : tview (release_settled r m) = tview m.
Proof.
  unfold release_settled. destruct (cm_releases m !! r) as [w|]; [|done]. destruct (rw_outcome w); [done|]. destruct (forallb _ _); [|done].
  rewrite tview_on_entry; [done|]. intros e. by case_bool_decide.
Qed.

(** ** Losing, releasing *)

Lemma attempt_unavailable_tracked now k m : own_inv (view m) -> td_inv (tview m) -> td_inv (tview (attempt_unavailable now k m).1).
Proof.
  intros O I. unfold attempt_unavailable. destruct (cm_attempts m !! k) as [a|] eqn:Ha; [|done]. cbv zeta. set (m1 := on_attempt k _ m).
  assert (E1 : tview m1 = tview m) by (by apply tview_on_attempt). change (cm_entries m1) with (cm_entries m). destruct (cm_entries m !! ca_key a) as [e|] eqn:He; [|by cbn [fst]; rewrite E1].
  destruct (rc_connection e) as [c|] eqn:Hc; [|by cbn [fst]; rewrite E1]. destruct (stale a e); [by cbn [fst]; rewrite E1|].
  rewrite tview_then, tview_publish, tview_on_entry by (intros x; unfold lost_connection; by destruct (rc_expectedUpdateDisconnect x)).
  apply close_tracked; [by rewrite tview_on_entry, E1|]. apply belongs_on_entry, belongs_on_attempt; [done|]. by eapply live_belongs.
Qed.

Lemma belongs_abort c key k r m : belongs c key m -> belongs c key (abort_attempt k r m).1.
Proof.
  intros H. unfold abort_attempt. repeat case_match; try done. cbn [fst]. apply belongs_on_attempt; [intros a; by destruct (ca_public a)|]. by apply belongs_on_attempt.
Qed.

Lemma belongs_bound c key ks m : belongs c key m -> belongs c key (bound_openings ks m).
Proof. intros H. induction ks as [|k ks IH]; [done|]. cbn. by apply belongs_on_attempt. Qed.

Lemma release_tracked key m : own_inv (view m) -> td_inv (tview m) -> td_inv (tview (release key m).1).
Proof.
  intros O I. unfold release. destruct (cm_entries m !! key) as [e|] eqn:He; [|done]. cbv zeta. rewrite tview_then. set (m1 := bound_openings _ _).
  match goal with |- td_inv (tview (release_waits _ _ _ ?p).1) => change (td_inv (tview p)) end.
  assert (E1 : tview m1 = tview m) by (unfold m1; by rewrite tview_bound_openings, tview_on_entry). rewrite tview_then.
  set (p2 := match rc_abort e return mres with Some k => abort_attempt k unavailable_error m1 | None => (m1, []) end).
  assert (E2 : tview p2.1 = tview m1) by (subst p2; destruct (rc_abort e); [apply tview_abort|done]).
  destruct (rc_connection e) as [c|] eqn:Hc; [|by cbn [fst]; rewrite E2, E1]. apply close_tracked; [by rewrite E2, E1|].
  assert (H1 : belongs c key m1) by (apply belongs_bound, belongs_on_entry; exact (live_belongs key e c m O He Hc)).
  subst p2. destruct (rc_abort e); [by apply belongs_abort|done].
Qed.

Lemma release_all_tracked keys m : own_inv (view m) -> td_inv (tview m) -> td_inv (tview (release_all keys m).1).
Proof. revert m. induction keys as [|key keys IH]; intros m O I; [done|]. cbn [release_all]. rewrite tview_then. by apply IH; [apply release_inv|apply release_tracked]. Qed.

Lemma close_settled_tracked c ok m : td_inv (tview m) -> td_inv (tview (close_settled c ok m).1).
Proof.
  intros I. unfold close_settled. destruct (cm_conns m !! c) as [conn|] eqn:Hc; [|done]. destruct (cm_attempts m !! cn_attempt conn) as [a|] eqn:Ha; [|done].
  destruct (_ && _) eqn:Hg; [|done]. apply andb_true_iff in Hg as [Hin%bool_decide_eq_true Ho%bool_decide_eq_true]. set (k := cn_attempt conn) in *.
  assert (Hct : tv_conns (tview m) !! c = Some k) by (cbn; by rewrite lookup_fmap, Hc).
  destruct (ca_ownership a) as [|d|] eqn:Hw; cbn [fst].
  - rewrite tview_settle. eapply (settle_close_inv c k (tcore a)); [done|done|by apply tview_attempt|done|cbn; by rewrite Hw].
  - rewrite tview_settle. set (m1 := settle_teardown _ _ _ m).
    assert (Ha1 : cm_attempts m1 !! k = Some a) by (subst m1; unfold settle_teardown; by rewrite Ho). rewrite (tview_set_attempt _ _ a) by done.
    subst m1. rewrite tview_settle, <- td_settle_attempt.
    assert (Hst : ca_opening a = og_settled). { destruct (ca_opening a) eqn:E; [..|done]; exfalso;
      (assert (ta_ownership (tcore a) = ow_opening) by (apply (ti_stage _ I k (tcore a) (tview_attempt _ _ _ Ha)); cbn; by rewrite E)); cbn in *; congruence. }
    assert (Eo : tcore (ca_set_ownership ow_over a) = over_attempt (tcore a)) by (unfold tcore, over_attempt; cbn; by rewrite Hst). rewrite Eo.
    assert (I1 : td_inv (td_attempt k (over_attempt (tcore a)) (tview m))).
    { eapply (td_attempt_inv k (tcore a)); [done|by apply tview_attempt|done|done|by split|done]. }
    assert (I2 : td_inv (td_settle (ca_key a) (TdClose c) ok (td_attempt k (over_attempt (tcore a)) (tview m)))).
    { refine (settle_close_inv c k (over_attempt (tcore a)) ok _ I1 Hct _ Hin _); [cbn; by rewrite lookup_insert_eq|done]. }
    refine (settle_opening_inv k (over_attempt (tcore a)) ok _ I2 _ _); [|done]. rewrite (proj1 (td_settle_rest _ _ _ _)). cbn. by rewrite lookup_insert_eq.
  - rewrite tview_settle. eapply (settle_close_inv c k (tcore a)); [done|done|by apply tview_attempt|done|cbn; by rewrite Hw].
Qed.

Lemma shutdown_tracked m : own_inv (view m) -> td_inv (tview m) -> td_inv (tview (shutdown m).1).
Proof.
  intros O I. unfold shutdown. destruct (cm_shutdown m); [done|]. pose proof (release_all_tracked (cm_keys m) (cm_set_shutdown (Some []) m) O I) as H.
  unfold closeAll. cbn [cm_keys cm_set_shutdown]. destruct (release_all (cm_keys m) (cm_set_shutdown (Some []) m)) as [m1 es]. exact H.
Qed.

Lemma manager_step_tracked o m : own_inv (view m) -> td_inv (tview m) -> td_inv (tview (manager_step o m).1).
Proof.
  intros O I. destruct o; cbn [manager_step fst].
  - by apply connect_tracked.
  - by apply connectInteractive_tracked.
  - by rewrite tview_waiter.
  - by apply connect_resolved_tracked.
  - by apply connect_deadline_tracked.
  - by rewrite tview_reportPhase.
  - unfold adopt_call. by destruct (negb (running m)).
  - by apply adopt_resolved_tracked.
  - by apply adopt_started_tracked.
  - by apply opening_delivered_tracked.
  - by apply opening_rejected_tracked.
  - by apply opening_expired_tracked.
  - by rewrite tview_continues.
  - by rewrite tview_finally.
  - by apply attempt_unavailable_tracked.
  - by apply close_settled_tracked.
  - by rewrite tview_release_settled.
  - unfold disconnect. rewrite tview_then. cbn [fst]. destruct (cm_entries m !! _); [|done]. rewrite tview_then, tview_publish. by apply release_tracked.
  - unfold disconnectIfCurrent. repeat case_match; try done. cbn [fst]. rewrite tview_then, tview_publish. by apply release_tracked.
  - by apply release_all_tracked.
  - by apply shutdown_tracked.
  - by rewrite tview_expectUpdate.
  - by rewrite tview_clearExpected.
  - by rewrite tview_clearBackoff.
  - by rewrite tview_clearHealth.
  - by rewrite tview_refresh.
  - by rewrite tview_stale.
  - by rewrite tview_health.
Qed.

Lemma new_manager_tracked cfg : td_inv (tview (new_manager cfg)).
Proof. constructor; cbn; intros; rewrite ?fmap_empty, ?lookup_empty in *; done. Qed.
