(* ===== verification/ConnectionShutdown.v ===== *)
(** * The runtime connection manager: a shutdown that resolves is complete *)

From S2P Require Import Prelude Wire RuntimeManifest ConnectionManager ConnectionOwnership ConnectionOwned ConnectionClosed ConnectionTeardown ConnectionTracked.

(** ** What no operation takes back *)

Definition ident (a : connect_attempt) : jstring * Z := (ca_key a, ca_revision a).

Definition keys_ok (m : manager) : Prop := forall key, is_Some (cm_entries m !! key) <-> key ∈ cm_keys m.

(** The releases are numbered below the counter. *)
Definition releases_ok (m : manager) : Prop := forall r w, cm_releases m !! r = Some w -> (r < cm_next m)%nat.

(** Every close of what attempt [k] delivered succeeded. *)
Definition closed_well (k : nat) (m : manager) : Prop :=
  forall c conn, cm_conns m !! c = Some conn -> cn_attempt conn = k -> cm_outcomes m !! TdClose c = Some true.

Record evolves (m m' : manager) : Prop := {
  ev_shutdown : cm_shutdown m' = cm_shutdown m;
  ev_keys : keys_ok m -> keys_ok m';
  ev_releases : releases_ok m -> releases_ok m';
  ev_domain : forall key, is_Some (cm_entries m !! key) -> is_Some (cm_entries m' !! key);
  ev_outcomes : forall td b, cm_outcomes m !! td = Some b -> cm_outcomes m' !! td = Some b;
  ev_kept : forall r w, cm_releases m !! r = Some w -> (r < cm_next m)%nat -> exists w', cm_releases m' !! r = Some w' /\ rw_waits w' = rw_waits w;
  ev_released : forall r w', cm_releases m' !! r = Some w' -> rw_outcome w' = Some true ->
    (exists w, cm_releases m !! r = Some w /\ rw_waits w = rw_waits w' /\ rw_outcome w = Some true) \/ forall td, td ∈ rw_waits w' -> cm_outcomes m' !! td = Some true;
  ev_next : (cm_next m <= cm_next m')%nat;
  ev_attempts : running m = false -> ident <$> cm_attempts m' = ident <$> cm_attempts m;
  ev_conns : running m = false -> cn_attempt <$> cm_conns m' = cn_attempt <$> cm_conns m;
  ev_entries : running m = false -> forall key e', cm_entries m' !! key = Some e' -> exists e, cm_entries m !! key = Some e /\ rc_revision e <= rc_revision e' /\
    (rc_connection e' = None \/ rc_connection e' = rc_connection e);
  ev_opened : running m = false -> forall k, cm_outcomes m' !! TdOpening k = Some true -> cm_outcomes m !! TdOpening k = Some true \/ closed_well k m';
}.

Lemma manager_evolves_refl m : evolves m m.
Proof. constructor; try done; eauto 10. intros _ key e' He. exists e'. repeat split; auto. lia. Qed.

Lemma running_eq m m' : cm_shutdown m' = cm_shutdown m -> running m' = running m.
Proof. unfold running. by intros ->. Qed.

Lemma conns_eq m m' c conn : cn_attempt <$> cm_conns m' = cn_attempt <$> cm_conns m -> cm_conns m' !! c = Some conn ->
  exists conn0, cm_conns m !! c = Some conn0 /\ cn_attempt conn0 = cn_attempt conn.
Proof.
  intros E Hc. assert (H : (cn_attempt <$> cm_conns m') !! c = Some (cn_attempt conn)) by (by rewrite lookup_fmap, Hc). rewrite E, lookup_fmap in H.
  apply fmap_Some in H as (conn0 & ? & ?). eauto.
Qed.

Lemma manager_evolves_trans m1 m2 m3 : evolves m1 m2 -> evolves m2 m3 -> evolves m1 m3.
Proof.
  intros A B. assert (Hrun : running m1 = false -> running m2 = false) by (rewrite (running_eq m1 m2); [done|apply (ev_shutdown _ _ A)]).
  constructor.
  - by rewrite (ev_shutdown _ _ B), (ev_shutdown _ _ A).
  - intros H. by apply (ev_keys _ _ B), (ev_keys _ _ A).
  - intros H. by apply (ev_releases _ _ B), (ev_releases _ _ A).
  - intros key H. by apply (ev_domain _ _ B), (ev_domain _ _ A).
  - intros td b H. by apply (ev_outcomes _ _ B), (ev_outcomes _ _ A).
  - intros r w Hr Hlt. destruct (ev_kept _ _ A r w Hr Hlt) as (w2 & H2 & E2). destruct (ev_kept _ _ B r w2 H2) as (w3 & H3 & E3).
    + pose proof (ev_next _ _ A). lia.
    + exists w3. split; [done|congruence].
  - intros r w3 H3 Ho. destruct (ev_released _ _ B r w3 H3 Ho) as [(w2 & H2 & E2 & Ho2)|H]; [|by right].
    destruct (ev_released _ _ A r w2 H2 Ho2) as [(w1 & H1 & E1 & Ho1)|H]; [left; exists w1; split; [done|]; split; [congruence|done]|right].
    intros td Htd. apply (ev_outcomes _ _ B), H. by rewrite E2.
  - etrans; [apply (ev_next _ _ A)|apply (ev_next _ _ B)].
  - intros H. by rewrite (ev_attempts _ _ B), (ev_attempts _ _ A) by auto.
  - intros H. by rewrite (ev_conns _ _ B), (ev_conns _ _ A) by auto.
  - intros H key e3 He3. destruct (ev_entries _ _ B (Hrun H) key e3 He3) as (e2 & He2 & L2 & C2). destruct (ev_entries _ _ A H key e2 He2) as (e1 & He1 & L1 & C1).
    exists e1. split; [done|]. split; [lia|]. destruct C2 as [|C2]; [by left|]. rewrite C2. done.
  - intros H k Hk. destruct (ev_opened _ _ B (Hrun H) k Hk) as [H2|H2]; [|by right]. destruct (ev_opened _ _ A H k H2) as [|H3]; [by left|right].
    intros c conn Hc E. destruct (conns_eq _ _ c conn (ev_conns _ _ B (Hrun H)) Hc) as (c0 & Hc0 & E0). apply (ev_outcomes _ _ B). eapply H3; [done|congruence].
Qed.

Lemma evolves_then m p f : evolves m p.1 -> (forall m', evolves m' (f m').1) -> evolves m (then_do p f).1.
Proof.
  intros Hp Hf. destruct p as [m1 e1]. cbn in *. specialize (Hf m1). destruct (f m1) as [m2 e2]. cbn in *. by eapply manager_evolves_trans.
Qed.

(** A change of nothing that matters here. *)
Lemma evolves_same m m' : cm_shutdown m' = cm_shutdown m -> cm_entries m' = cm_entries m -> cm_keys m' = cm_keys m -> cm_attempts m' = cm_attempts m ->
  cm_conns m' = cm_conns m -> cm_outcomes m' = cm_outcomes m -> cm_releases m' = cm_releases m -> (cm_next m <= cm_next m')%nat -> evolves m m'.
Proof.
  intros E1 E2 E3 E4 E5 E6 E7 E8. constructor; unfold keys_ok, releases_ok; rewrite ?E1, ?E2, ?E3, ?E4, ?E5, ?E6, ?E7; try done; eauto 10.
  - intros H r w Hr. specialize (H r w Hr). lia.
  - intros _ key e' He. exists e'. repeat split; auto. lia.
Qed.

Lemma keys_alter key f m : keys_ok m -> keys_ok (on_entry key f m).
Proof. intros H x. cbn. rewrite <- (H x). destruct (decide (key = x)) as [->|]; [by rewrite lookup_alter_eq, fmap_is_Some|by rewrite lookup_alter_ne]. Qed.

Lemma evolves_at key f m : (running m = true \/ forall e, cm_entries m !! key = Some e -> rc_revision e <= rc_revision (f e) /\ (rc_connection (f e) = None \/ rc_connection (f e) = rc_connection e)) ->
  evolves m (on_entry key f m).
Proof.
  intros Hf. constructor; try done; eauto 10.
  - apply keys_alter.
  - intros x Hx. cbn. destruct (decide (key = x)) as [->|]; [by rewrite lookup_alter_eq, fmap_is_Some|by rewrite lookup_alter_ne].
  - intros Hrun x e' He. destruct Hf as [Hf|Hf]; [congruence|]. cbn in He. destruct (decide (key = x)) as [->|Hn].
    + rewrite lookup_alter_eq in He. destruct (cm_entries m !! x) as [e|]; cbn in He; [|done]. injection He as <-. destruct (Hf e eq_refl). eauto.
    + rewrite lookup_alter_ne in He by done. exists e'. repeat split; auto. lia.
Qed.

Lemma evolves_on_entry key f m : (forall e, rc_revision e <= rc_revision (f e)) ->
  (running m = true \/ forall e, rc_connection (f e) = None \/ rc_connection (f e) = rc_connection e) -> evolves m (on_entry key f m).
Proof. intros Hr Hf. apply evolves_at. destruct Hf; [by left|right; auto]. Qed.

Lemma evolves_on_attempt k f m : (forall a, ident (f a) = ident a) -> evolves m (on_attempt k f m).
Proof.
  intros Hf. constructor; try done; eauto 10.
  - intros _. cbn. apply fmap_alter_same. auto.
  - intros _ key e' He. exists e'. repeat split; auto. lia.
Qed.

Lemma evolves_publish u m : evolves m (publish u m).1.
Proof.
  assert (Ha : forall e, rc_revision (announce u e) = rc_revision e /\ rc_connection (announce u e) = rc_connection e) by (intros e; unfold announce; repeat case_match; done).
  constructor; try done; eauto 10.
  - intros H x. cbn. by rewrite lookup_fmap, fmap_is_Some.
  - intros x Hx. cbn. by rewrite lookup_fmap, fmap_is_Some.
  - intros _ key e' He. cbn in He. rewrite lookup_fmap in He. destruct (cm_entries m !! key) as [e|]; cbn in He; [|done]. injection He as <-. exists e.
    destruct (Ha e) as [-> ->]. split; [done|]. split; [lia|by right].
Qed.

Lemma evolves_settle key td ok m : (forall k, td = TdOpening k -> ok = true -> running m = true \/ closed_well k m) -> evolves m (settle_teardown key td ok m).
Proof.
  intros Hok. unfold settle_teardown. destruct (cm_outcomes m !! td) eqn:E; [apply manager_evolves_refl|].
  eapply manager_evolves_trans; [apply (evolves_on_entry key (fun e => let e := rc_set_pendingTeardowns (drop_from td (rc_pendingTeardowns e)) e in
    if ok then e else rc_set_failedTeardowns (add_to td (rc_failedTeardowns e)) e)); [intros e; destruct ok; cbn; lia|right; intros e; destruct ok; by right]|].
  set (m1 := on_entry _ _ m). constructor; try done; eauto 10; cbn.
  - intros td' b H. rewrite lookup_insert_ne; [done|]. intros <-. congruence.
  - intros _ x e' He. exists e'. repeat split; auto. lia.
  - intros Hrun k [[-> ->]|[_ H]]%lookup_insert_Some; [|by left]. right. destruct (Hok k eq_refl eq_refl) as [Hr|Hw]; [unfold running in *; cbn in *; congruence|].
    intros c conn Hc Ek. cbn in *. rewrite lookup_insert_ne by done. by eapply Hw.
Qed.

Lemma evolves_close key c r m : evolves m (closeConnection key c r m).1.
Proof.
  unfold closeConnection. case_bool_decide; [apply manager_evolves_refl|]. cbn [fst].
  eapply manager_evolves_trans; [apply (evolves_on_entry key (fun e => rc_set_pendingTeardowns (add_to (TdClose c) (rc_pendingTeardowns e)) e)); [intros e; cbn; lia|right; by right]|].
  by apply evolves_same.
Qed.

(** While the manager runs, attempts, entries and connections may be new. *)
Lemma evolves_running m m' : running m = true -> cm_shutdown m' = cm_shutdown m -> (keys_ok m -> keys_ok m') -> (forall key, is_Some (cm_entries m !! key) -> is_Some (cm_entries m' !! key)) -> cm_outcomes m' = cm_outcomes m -> cm_releases m' = cm_releases m ->
  (cm_next m <= cm_next m')%nat -> evolves m m'.
Proof.
  intros Hr E1 Hk Hd E2 E3 E4. constructor; unfold releases_ok; rewrite ?E1, ?E2, ?E3; try done; eauto 10; try congruence.
  intros H r w Hw. specialize (H r w Hw). lia.
Qed.

Lemma keys_put key e m : keys_ok m -> keys_ok (put_entry key e m).
Proof.
  intros H x. cbn. rewrite lookup_insert_is_Some'. specialize (H x). case_bool_decide as Hin; [naive_solver|]. rewrite elem_of_app, list_elem_of_singleton. naive_solver.
Qed.

Lemma domain_put key e m x : is_Some (cm_entries m !! x) -> is_Some (cm_entries (put_entry key e m) !! x).
Proof. intros H. cbn. rewrite lookup_insert_is_Some'. by right. Qed.

Lemma evolves_race k o m : evolves m (race_settled k o m).
Proof. apply evolves_on_attempt. intros a. by destruct (ca_public a). Qed.

Lemma evolves_abort k r m : evolves m (abort_attempt k r m).1.
Proof.
  unfold abort_attempt. repeat case_match; try apply manager_evolves_refl. cbn [fst]. eapply manager_evolves_trans; [|apply evolves_race]. by apply evolves_on_attempt.
Qed.

Lemma evolves_finish k key m : evolves m (finishOpening k key m).
Proof. eapply manager_evolves_trans; [|by apply evolves_on_attempt]. apply evolves_on_entry; [intros e; cbn; lia|right; by right]. Qed.

Lemma evolves_failed k key e m : (forall c conn, cm_conns m !! c = Some conn -> cn_attempt conn <> k) -> evolves m (opening_failed k key e m).1.
Proof.
  intros Hc. unfold opening_failed. cbn [fst]. eapply manager_evolves_trans; [apply (evolves_finish k key)|]. eapply manager_evolves_trans; [apply (evolves_race k (Err e))|].
  eapply manager_evolves_trans; [by apply (evolves_on_attempt k (ca_set_ownership ow_over))|]. apply evolves_settle. intros k' [= <-] _. right. intros c conn H E. by destruct (Hc c conn H).
Qed.

Lemma evolves_refuse k a c err m : evolves m (refuse_connection k a c err m).1.
Proof.
  unfold refuse_connection. eapply manager_evolves_trans; [apply (evolves_race k (Err err))|]. eapply manager_evolves_trans; [by apply (evolves_on_attempt k (ca_set_ownership (ow_closing c)))|].
  apply evolves_close.
Qed.

Lemma evolves_answered k a o m : evolves m (attempt_answered k a o m).1.
Proof.
  unfold attempt_answered. destruct (ca_adopt a); cbn [fst]; [|by apply evolves_on_attempt]. eapply manager_evolves_trans; [|by apply evolves_on_attempt].
  apply evolves_on_entry; [intros e; case_bool_decide; cbn; lia|right; intros e; case_bool_decide; by right].
Qed.

Lemma undelivered_conns k a m : own_inv (view m) -> cm_attempts m !! k = Some a -> ca_opening a <> og_settled -> forall c conn, cm_conns m !! c = Some conn -> cn_attempt conn <> k.
Proof.
  intros O Ha Ho c conn Hc E. apply (undelivered k (acore a) (view m) c O (view_attempt _ _ _ Ha) Ho). cbn. by rewrite lookup_fmap, Hc, <- E.
Qed.

(** ** Every operation but delivery and shutdown *)

Lemma evolves_connect now u env force m : evolves m (connect now u env force m).1.1.
Proof.
  unfold connect. destruct (running m) eqn:Hr; cbn [negb]; [|apply manager_evolves_refl].
  assert (Hgo : forall key e, evolves m (connect_entry now key u env force e m).1.1).
  { intros key e. unfold connect_entry. destruct (negb force && _); cbn [fst].
    - apply evolves_running; try done; [apply keys_put|apply domain_put].
    - eapply manager_evolves_trans; [|apply evolves_publish]. apply evolves_running; try done; [apply keys_put|apply domain_put|cbn; lia]. }
  destruct (cm_entries m !! _) as [e|]; [|apply Hgo]. destruct (rc_connection e); [apply manager_evolves_refl|]. destruct (rc_connecting e); [apply manager_evolves_refl|apply Hgo].
Qed.

Lemma evolves_interactive now u env m : evolves m (connectInteractive now u env m).1.1.
Proof.
  unfold connectInteractive. pose proof (evolves_connect now u env true m) as H. destruct (connect now u env true m) as [[m1 es] answer]. cbn [fst] in H.
  destruct (cm_entries m1 !! _); [|done]. destruct (es_pullingImage _); [done|]. cbn [fst]. eapply manager_evolves_trans; [exact H|].
  eapply manager_evolves_trans; [apply (evolves_on_entry (connectionKey u env) (fun e => rc_set_pullWaiters (rc_pullWaiters e ++ [cm_next m1]) e)); [intros e; cbn; lia|right; by right]|].
  apply evolves_same; try done. cbn. lia.
Qed.

Lemma evolves_resolved k answer m : own_inv (view m) -> evolves m (connect_resolved k answer m).1.
Proof.
  intros O. unfold connect_resolved. destruct (cm_attempts m !! k) as [a|] eqn:Ha; [|apply manager_evolves_refl]. destruct (ca_adopt a); [apply manager_evolves_refl|].
  destruct (ca_opening a) eqn:Ho; try apply manager_evolves_refl. destruct (cm_entries m !! ca_key a) as [e|]; [|apply manager_evolves_refl].
  assert (Hu := undelivered_conns k a m O Ha (ltac:(by rewrite Ho))).
  destruct answer as [d|err]; [|by apply evolves_failed]. destruct (was_aborted a || stale a e); [by apply evolves_failed|].
  destruct d as [d|]; [|by apply evolves_failed]. set (m1 := on_attempt k _ _).
  assert (E1 : evolves m m1). { subst m1. eapply manager_evolves_trans; [|by apply evolves_on_attempt]. apply evolves_on_entry; [intros x; cbn; lia|right; by right]. }
  destruct (negb (df_enabled d) || negb (df_configValid d) || _); (eapply manager_evolves_trans; [exact E1|]); [by apply evolves_failed|by apply evolves_on_attempt].
Qed.

Lemma evolves_deadline k m : evolves m (connect_deadline k m).1.
Proof.
  unfold connect_deadline. repeat case_match; try apply manager_evolves_refl. eapply manager_evolves_trans; [|apply evolves_abort]. by apply evolves_on_attempt.
Qed.

Lemma evolves_started k m : own_inv (view m) -> evolves m (adopt_started k m).1.
Proof.
  intros O. unfold adopt_started. destruct (cm_attempts m !! k) as [a|] eqn:Ha; [|apply manager_evolves_refl]. destruct (ca_adopt a); [|apply manager_evolves_refl].
  destruct (ca_opening a) eqn:Ho; try apply manager_evolves_refl. destruct (was_aborted a); [|by apply evolves_on_attempt].
  apply evolves_failed. eapply undelivered_conns; [done..|by rewrite Ho].
Qed.

Lemma evolves_rejected k err m : own_inv (view m) -> evolves m (opening_rejected k err m).1.
Proof.
  intros O. unfold opening_rejected. destruct (cm_attempts m !! k) as [a|] eqn:Ha; [|apply manager_evolves_refl]. destruct (ca_opening a) eqn:Ho; try apply manager_evolves_refl.
  apply evolves_failed. eapply undelivered_conns; [done..|by rewrite Ho].
Qed.

Lemma evolves_expired k m : evolves m (opening_expired k m).
Proof.
  unfold opening_expired. repeat case_match; try apply manager_evolves_refl. eapply manager_evolves_trans; [|by apply evolves_settle].
  eapply manager_evolves_trans; [|by apply evolves_on_attempt]. apply evolves_on_entry; [intros x; cbn; lia|right; by right].
Qed.

Lemma evolves_supersede key c k m : evolves m (supersede key c k m).1.
Proof. apply evolves_then; [destruct c; [apply evolves_close|apply manager_evolves_refl]|]. intros m'. destruct k; [apply evolves_abort|apply manager_evolves_refl]. Qed.

Lemma evolves_adopt n answer m : evolves m (adopt_resolved n answer m).1.
Proof.
  unfold adopt_resolved. destruct (cm_adopts m !! n) as [[u env]|]; [|apply manager_evolves_refl]. set (m1 := cm_set_adopts _ m).
  assert (E1 : evolves m m1) by (by apply evolves_same). destruct answer as [[d|]|]; try done. destruct (negb (running m1) || negb (df_enabled d)) eqn:Hr; [done|].
  apply orb_false_iff in Hr as [Hr%negb_false_iff _]. cbv zeta. apply evolves_then; [|apply evolves_publish]. eapply manager_evolves_trans; [exact E1|].
  eapply manager_evolves_trans; [|apply evolves_supersede]. apply evolves_running; try done; [apply keys_put|apply domain_put|cbn; lia].
Qed.

Lemma evolves_refresh now u env reader bg m : evolves m (refresh_start now u env reader bg m).1.1.
Proof.
  unfold refresh_start. repeat case_match; try apply manager_evolves_refl. cbn [fst].
  eapply manager_evolves_trans; [apply (evolves_on_entry (connectionKey u env) (rc_set_manifestReadAtMs (Some now))); [intros e; cbn; lia|right; by right]|].
  apply evolves_same; try done. cbn. lia.
Qed.

Lemma evolves_read now k a e m : evolves m (readHostedAgents now k a e m).1.
Proof.
  unfold readHostedAgents. destruct (rc_connection e); [|by apply evolves_on_attempt]. destruct (_ || _); [apply evolves_answered|].
  pose proof (evolves_refresh now (ca_userId a) (ca_environmentId a) (Some k) false m) as H.
  destruct (refresh_start now (ca_userId a) (ca_environmentId a) (Some k) false m) as [[m1 es] [f|]]; cbn [fst] in *.
  - eapply manager_evolves_trans; [exact H|]. by apply evolves_on_attempt.
  - apply evolves_then; [exact H|]. intros. apply evolves_answered.
Qed.

Lemma evolves_continues now k m : evolves m (attempt_continues now k m).1.
Proof.
  unfold attempt_continues. destruct (cm_attempts m !! k) as [a|]; [|apply manager_evolves_refl]. destruct (ca_public a) as [|[c|err]| | |]; try apply manager_evolves_refl;
    destruct (cm_entries m !! ca_key a) as [e|]; try apply manager_evolves_refl.
  - eapply manager_evolves_trans; [|apply evolves_read]. destruct (ca_adopt a); [apply manager_evolves_refl|by apply evolves_on_attempt].
  - destruct (ca_adopt a); cbv zeta; (apply evolves_then; [|intros; apply evolves_answered]); (destruct (stale a e); [apply manager_evolves_refl|]);
      (eapply manager_evolves_trans; [|apply evolves_publish]); (apply evolves_on_entry; [|right]); intros x; try destruct (isBoundElsewhere err); cbn; auto; lia.
Qed.

Lemma evolves_finally k m : evolves m (attempt_finally k m).1.
Proof.
  unfold attempt_finally. destruct (cm_attempts m !! k) as [a|]; [|apply manager_evolves_refl]. destruct (ca_public a); try apply manager_evolves_refl. cbn [fst].
  eapply manager_evolves_trans; [|by apply evolves_on_attempt]. apply evolves_on_entry; [intros e; repeat case_bool_decide; cbn; lia|right; intros e; repeat case_bool_decide; by right].
Qed.

Lemma evolves_refresh_over call m : evolves m (refresh_over call m).1.
Proof.
  unfold refresh_over. set (m1 := if rf_background call then _ else m).
  assert (E : evolves m m1). { subst m1. destruct (rf_background call); [apply evolves_on_entry; [intros x; cbn; lia|right; by right]|apply manager_evolves_refl]. }
  clearbody m1. eapply manager_evolves_trans; [exact E|]. destruct (rf_reader call) as [k|]; [|apply manager_evolves_refl]. destruct (cm_attempts m1 !! k) as [a|]; [|apply manager_evolves_refl].
  destruct (ca_public a); try apply manager_evolves_refl. apply evolves_answered.
Qed.

Lemma evolves_replace c conn mf m : cm_conns m !! c = Some conn -> evolves m (cm_set_conns (<[c := cn_replace mf conn]> (cm_conns m)) m).
Proof.
  intros Hc. constructor; try done; eauto 10.
  - intros _. cbn. rewrite fmap_insert. apply insert_id. by rewrite lookup_fmap, Hc.
  - intros _ key e' He. exists e'. repeat split; auto. lia.
Qed.

Lemma evolves_apply_health u env c h m : evolves m (apply_health u env c h m).1.
Proof.
  unfold apply_health. destruct (cm_entries m !! _) as [e|] eqn:He; [|apply manager_evolves_refl]. destruct (cm_conns m !! c) as [conn|] eqn:Hc; [|apply manager_evolves_refl]. cbv zeta.
  apply evolves_then; [|intros m'; case_bool_decide; [apply manager_evolves_refl|apply evolves_publish]]. cbn [fst].
  match goal with |- evolves m (cm_set_conns _ ?x) => set (m1 := x) end. apply (manager_evolves_trans _ m1); [|exact (evolves_replace c conn _ m1 Hc)].
  apply evolves_at. right. intros x Hx. rewrite He in Hx. injection Hx as <-. cbn. split; [lia|by right].
Qed.

Lemma evolves_health f answer m : evolves m (health_answered f answer m).1.
Proof.
  unfold health_answered. destruct (cm_refreshes m !! f) as [call|]; [|apply manager_evolves_refl]. apply evolves_then; [|apply evolves_refresh_over].
  set (m1 := cm_set_refreshes _ m). assert (E1 : evolves m m1) by (by apply evolves_same). destruct answer as [h|]; [|done]. destruct (refresh_current call m1); [|done].
  eapply manager_evolves_trans; [exact E1|]. apply evolves_apply_health.
Qed.

Lemma evolves_unavailable now k m : evolves m (attempt_unavailable now k m).1.
Proof.
  unfold attempt_unavailable. destruct (cm_attempts m !! k) as [a|]; [|apply manager_evolves_refl]. cbv zeta. set (m1 := on_attempt k _ m).
  assert (E1 : evolves m m1) by (by apply evolves_on_attempt). destruct (cm_entries m1 !! ca_key a) as [e|]; [|done]. destruct (rc_connection e) as [c|]; [|done].
  destruct (stale a e); [done|]. apply evolves_then.
  - eapply manager_evolves_trans; [exact E1|]. eapply manager_evolves_trans; [|apply evolves_close]. apply evolves_on_entry; [intros x; cbn; lia|right; by left].
  - intros m'. eapply manager_evolves_trans; [|apply evolves_publish]. apply evolves_on_entry; [|right]; intros x; unfold lost_connection; destruct (rc_expectedUpdateDisconnect x); cbn; auto; lia.
Qed.

Lemma evolves_bound ks m : evolves m (bound_openings ks m).
Proof. induction ks as [|k ks IH]; [apply manager_evolves_refl|]. cbn. eapply manager_evolves_trans; [exact IH|]. by apply evolves_on_attempt. Qed.

Lemma evolves_waits key r previous m : (r < cm_next m)%nat -> (forall w, cm_releases m !! r <> Some w) -> evolves m (release_waits key r previous m).1.
Proof.
  intros Hr Hn. constructor; try done; eauto 10; cbn.
  - intros H s w Hs. cbn in Hs. apply lookup_insert_Some in Hs as [[<- _]|[_ Hs]]; [done|by eapply H].
  - intros s w Hs _. exists w. split; [|done]. rewrite lookup_insert_ne; [done|]. intros <-. by destruct (Hn w).
  - intros s w' [[<- <-]|[_ Hs]]%lookup_insert_Some Ho; [done|]. left. eauto.
  - intros _ x e' He. exists e'. repeat split; auto. lia.
Qed.


Lemma bound_rest ks m : cm_releases (bound_openings ks m) = cm_releases m /\ cm_next (bound_openings ks m) = cm_next m.
Proof. by induction ks. Qed.

Lemma evolves_release key m : releases_ok m -> evolves m (release key m).1.
Proof.
  intros Hok. unfold release. destruct (cm_entries m !! key) as [e|] eqn:He; [|apply manager_evolves_refl]. cbv zeta. set (r := cm_next m). set (m1 := bound_openings _ _).
  assert (E1 : evolves m m1).
  { unfold m1. eapply manager_evolves_trans; [|apply evolves_bound]. eapply (manager_evolves_trans _ (cm_set_next (S r) m)); [apply evolves_same; try done; cbn; lia|].
    apply evolves_on_entry; [intros x; cbn; lia|right; by left]. }
  assert (R1 : cm_releases m1 = cm_releases m /\ cm_next m1 = S r) by (unfold m1; by destruct (bound_rest (rc_pendingOpenings e) (on_entry key (released_entry r) (cm_set_next (S r) m))) as [-> ->]).
  set (p2 := match rc_abort e return mres with Some k => abort_attempt k unavailable_error m1 | None => (m1, []) end).
  assert (E2 : evolves m1 p2.1) by (subst p2; destruct (rc_abort e); [apply evolves_abort|apply manager_evolves_refl]).
  assert (R2 : cm_releases p2.1 = cm_releases m1 /\ cm_next p2.1 = cm_next m1) by (subst p2; destruct (rc_abort e); [unfold abort_attempt; by repeat case_match|done]).
  set (p3 := then_do p2 _).
  assert (E3 : evolves m p3.1 /\ cm_releases p3.1 = cm_releases m1 /\ cm_next p3.1 = S r).
  { subst p3. destruct p2 as [m2 es2]. cbn [fst] in *. destruct R2 as [R2 N2], R1 as [R1 N1]. cbn. destruct (rc_connection e) as [c|].
    - pose proof (evolves_close key c cr_released m2) as Hc. destruct (closeConnection key c cr_released m2) as [m3 es3] eqn:E. cbn in *.
      split; [by do 2 (eapply manager_evolves_trans; [done|])|]. unfold closeConnection in E. case_bool_decide; injection E as <- <-; cbn; rewrite R2, N2; done.
    - cbn. rewrite R2, N2. split; [by eapply manager_evolves_trans|done]. }
  destruct E3 as (E3 & R3 & N3). destruct p3 as [m3 es3]. cbn [fst] in *. cbn [then_do].
  eapply manager_evolves_trans; [exact E3|]. apply (evolves_waits key r (rc_releasing e) m3); [lia|]. intros w Hw. rewrite R3, (proj1 R1) in Hw. apply Hok in Hw. subst r. lia.
Qed.

Lemma evolves_release_settled r m : evolves m (release_settled r m).
Proof.
  unfold release_settled. destruct (cm_releases m !! r) as [w|] eqn:Hr; [|apply manager_evolves_refl]. destruct (rw_outcome w) eqn:Ho; [apply manager_evolves_refl|].
  set (outs := _ ++ _). destruct (forallb _ outs); [|apply manager_evolves_refl]. set (w' := {| rw_key := _; rw_waits := _; rw_previous := _; rw_outcome := _ |}).
  apply (manager_evolves_trans _ (cm_set_releases (<[r := w']> (cm_releases m)) m)).
  - constructor; try done; eauto 10; cbn.
    + intros H s x Hs. cbn in Hs. apply lookup_insert_Some in Hs as [[<- _]|[_ Hs]]; by eapply H.
    + intros s x Hs _. destruct (decide (r = s)) as [<-|]; [exists w'; rewrite lookup_insert_eq; simplify_eq; done|exists x; by rewrite lookup_insert_ne].
    + intros s x [[<- <-]|[_ Hs]]%lookup_insert_Some Hx; [|left; eauto]. right. intros td Htd. cbn in Hx, Htd. injection Hx as Hx. rewrite forallb_forall in Hx.
      assert (Hin : In (cm_outcomes m !! td) outs) by (subst outs; apply in_or_app; left; apply (in_map (fun td => cm_outcomes m !! td)); by apply list_elem_of_In).
      specialize (Hx _ Hin). by destruct (cm_outcomes m !! td) as [[]|].
    + intros _ x e' He. exists e'. repeat split; auto. lia.
  - apply evolves_on_entry; [intros x; case_bool_decide; cbn; lia|right; intros x; case_bool_decide; by right].
Qed.

Lemma evolves_close_settled c ok m : own_inv (view m) -> evolves m (close_settled c ok m).1.
Proof.
  intros O. unfold close_settled. destruct (cm_conns m !! c) as [conn|] eqn:Hc; [|apply manager_evolves_refl]. destruct (cm_attempts m !! cn_attempt conn) as [a|]; [|apply manager_evolves_refl].
  destruct (_ && _) eqn:Hg; [|apply manager_evolves_refl]. apply andb_true_iff in Hg as [_ Ho%bool_decide_eq_true]. set (k := cn_attempt conn). set (m1 := settle_teardown (ca_key a) (TdClose c) ok m).
  assert (E1 : evolves m m1) by (by apply evolves_settle). destruct (ca_ownership a); cbn [fst]; [exact E1| |exact E1].
  eapply manager_evolves_trans; [exact E1|]. eapply manager_evolves_trans; [by apply (evolves_on_attempt k (ca_set_ownership ow_over))|]. apply evolves_settle.
  intros k' [= <-] ->. right. intros d dn Hd Ek. assert (Ec : cm_conns m1 = cm_conns m) by (subst m1; unfold settle_teardown; by rewrite Ho). cbn in Hd. rewrite Ec in Hd.
  assert (d = c) as ->. { eapply (oi_single _ O d c k); cbn; by rewrite lookup_fmap, ?Hd, ?Hc; cbn; rewrite ?Ek. }
  subst m1. cbn. unfold settle_teardown. rewrite Ho. cbn. by rewrite lookup_insert_eq.
Qed.

Lemma evolves_release_all keys m : releases_ok m -> evolves m (release_all keys m).1.
Proof.
  revert m. induction keys as [|key keys IH]; intros m Hok; [apply manager_evolves_refl|]. cbn [release_all]. pose proof (evolves_release key m Hok) as E.
  destruct (release key m) as [m1 es1]. cbn in *. specialize (IH m1 (ev_releases _ _ E Hok)). destruct (release_all keys m1) as [m2 es2]. by eapply manager_evolves_trans.
Qed.

(** ** After the latch *)

(** What a release waits for covers every opener and every connection of its entry, but those that are over. *)
Definition covers (w : release_wait) (key : jstring) (m : manager) : Prop :=
  (forall k a, cm_attempts m !! k = Some a -> ca_key a = key -> TdOpening k ∈ rw_waits w \/ cm_outcomes m !! TdOpening k = Some true) /\
  (forall c conn a, cm_conns m !! c = Some conn -> cm_attempts m !! cn_attempt conn = Some a -> ca_key a = key ->
    TdClose c ∈ rw_waits w \/ cm_outcomes m !! TdClose c = Some true \/ cm_outcomes m !! TdOpening (cn_attempt conn) <> Some true).

(** An entry that was released for good, by one of the releases [P]. *)
Definition sealed (P : nat -> Prop) (key : jstring) (m : manager) : Prop :=
  exists e, cm_entries m !! key = Some e /\ rc_connection e = None /\ (forall k a, cm_attempts m !! k = Some a -> ca_key a = key -> ca_revision a < rc_revision e) /\
  exists r w, P r /\ cm_releases m !! r = Some w /\ covers w key m.

Lemma ident_back m m' k a' : ident <$> cm_attempts m' = ident <$> cm_attempts m -> cm_attempts m' !! k = Some a' ->
  exists a, cm_attempts m !! k = Some a /\ ca_key a = ca_key a' /\ ca_revision a = ca_revision a'.
Proof.
  intros E Hk. assert (H : (ident <$> cm_attempts m') !! k = Some (ident a')) by (by rewrite lookup_fmap, Hk). rewrite E, lookup_fmap in H.
  apply fmap_Some in H as (a & Ha & Hi). exists a. split; [done|]. unfold ident in Hi. by injection Hi.
Qed.

Lemma covers_evolves w w' key m m' : evolves m m' -> running m = false -> rw_waits w' = rw_waits w -> covers w key m -> covers w' key m'.
Proof.
  intros E Hr Ew [H1 H2]. split.
  - intros k a' Ha' Hk. destruct (ident_back _ _ k a' (ev_attempts _ _ E Hr) Ha') as (a & Ha & Ek & _). rewrite Ew.
    destruct (H1 k a Ha (eq_trans Ek Hk)) as [|Ho]; [by left|right]. by apply (ev_outcomes _ _ E).
  - intros c conn' a' Hc' Ha' Hk. destruct (ident_back _ _ _ a' (ev_attempts _ _ E Hr) Ha') as (a & Ha & Ek & _).
    destruct (conns_eq _ _ c conn' (ev_conns _ _ E Hr) Hc') as (conn & Hc & Ec). rewrite <- Ec in Ha. rewrite Ew.
    destruct (H2 c conn a Hc Ha (eq_trans Ek Hk)) as [|[Ho|Ho]]; [by left|right; left; by apply (ev_outcomes _ _ E)|right].
    destruct (decide (cm_outcomes m' !! TdOpening (cn_attempt conn') = Some true)) as [Ht|]; [left|by right].
    destruct (ev_opened _ _ E Hr _ Ht) as [Hm|Hw]; [by rewrite Ec in Ho|by eapply Hw].
Qed.

Lemma sealed_evolves P key m m' : evolves m m' -> running m = false -> releases_ok m -> is_Some (cm_entries m' !! key) -> sealed P key m -> sealed P key m'.
Proof.
  intros E Hr Hok [e' He'] (e0 & He0 & Hc & Hst & r & w & HP & Hw & Hcov). destruct (ev_entries _ _ E Hr key e' He') as (e & He & Hle & Hconn).
  rewrite He0 in He. injection He as <-. exists e'. split; [done|]. split; [destruct Hconn as [|H]; [done|by rewrite H]|]. split.
  - intros k a' Ha' Hk. destruct (ident_back _ _ k a' (ev_attempts _ _ E Hr) Ha') as (a & Ha & Ek & Er). specialize (Hst k a Ha (eq_trans Ek Hk)). lia.
  - destruct (ev_kept _ _ E r w Hw (Hok r w Hw)) as (w' & Hw' & Ew). exists r, w'. split; [done|]. split; [done|]. by eapply covers_evolves.
Qed.

(** A release that has just been made covers its entry. *)
Lemma covers_now key e w m : own_inv (view m) -> td_inv (tview m) -> cm_entries m !! key = Some e -> rc_connection e = None ->
  rw_waits w = rc_failedTeardowns e ++ rc_pendingTeardowns e -> covers w key m.
Proof.
  intros O I He Hc Hw. assert (Hpl : forall td, placed key td (tview m) -> td ∈ rw_waits w \/ cm_outcomes m !! td = Some true).
  { intros td H. unfold placed in H. cbn in H. rewrite lookup_fmap, He, Hw in *. destruct (cm_outcomes m !! td) as [[]|]; [by right|..];
      destruct H as (p & [= <-] & Hin); left; rewrite elem_of_app; auto. }
  split.
  - intros k a Ha Ek. apply Hpl. pose proof (ti_opening _ I k (tcore a) (tview_attempt _ _ _ Ha)) as H. cbn in H. by rewrite Ek in H.
  - intros c conn a Hcn Ha Ek. assert (Hv : ow_conns (view m) !! c = Some (cn_attempt conn)) by (cbn; by rewrite lookup_fmap, Hcn).
    assert (Hin : c ∈ cm_closings m).
    { destruct (oi_owned _ O c _ Hv) as [|(x & oe & Hx & Hxc)]; [done|]. destruct (oi_live _ O x oe c Hx Hxc) as (_ & k & b & Hk & Hb & Exk & _).
      rewrite Hv in Hk. injection Hk as <-. rewrite (view_attempt _ _ _ Ha) in Hb. injection Hb as <-. cbn in Exk. rewrite Ek in Exk. subst x.
      rewrite (view_entry _ _ _ He) in Hx. injection Hx as <-. cbn in Hxc. congruence. }
    destruct (Hpl (TdClose c)) as [|]; [|by left|auto]. pose proof (ti_close _ I c (cn_attempt conn) (tcore a)) as H. cbn in H. rewrite Ek in H. apply H; [done| |done].
    by apply tview_attempt.
Qed.

Lemma bound_entries ks m : cm_entries (bound_openings ks m) = cm_entries m.
Proof. by induction ks. Qed.

Lemma abort_entries k r m : cm_entries (abort_attempt k r m).1 = cm_entries m /\ cm_next (abort_attempt k r m).1 = cm_next m.
Proof. unfold abort_attempt. by repeat case_match. Qed.

Lemma release_result key e m : cm_entries m !! key = Some e -> exists e' w, cm_entries (release key m).1 !! key = Some e' /\ rc_connection e' = None /\
  rc_revision e' = rc_revision e + 1 /\ cm_releases (release key m).1 !! cm_next m = Some w /\ rw_waits w = rc_failedTeardowns e' ++ rc_pendingTeardowns e' /\
  cm_next (release key m).1 = S (cm_next m).
Proof.
  intros He. unfold release. rewrite He. cbv zeta. set (r := cm_next m). set (m1 := bound_openings _ _).
  assert (H1 : cm_entries m1 !! key = Some (released_entry r e) /\ cm_next m1 = S r).
  { unfold m1. rewrite bound_entries. split; [cbn; by rewrite lookup_alter_eq, He|]. by rewrite (proj2 (bound_rest _ _)). }
  set (p2 := match rc_abort e return mres with Some k => abort_attempt k unavailable_error m1 | None => (m1, []) end).
  assert (H2 : cm_entries p2.1 !! key = Some (released_entry r e) /\ cm_next p2.1 = S r).
  { subst p2. destruct (rc_abort e) as [k|]; [|done]. destruct (abort_entries k unavailable_error m1) as [-> ->]. done. }
  destruct p2 as [m2 es2]. cbn [fst] in H2. destruct H2 as [H2 N2]. set (p3 := then_do (m2, es2) _).
  assert (H3 : exists e', cm_entries p3.1 !! key = Some e' /\ rc_connection e' = None /\ rc_revision e' = rc_revision e + 1 /\ cm_next p3.1 = S r).
  { subst p3. cbn. destruct (rc_connection e) as [c|]; [|cbn; eauto 10]. unfold closeConnection. case_bool_decide; cbn; [eauto 10|].
    rewrite lookup_alter_eq, H2. cbn. eauto 10. }
  destruct p3 as [m3 es3]. destruct H3 as (e' & H3 & Hc & Hr & N3). cbn [fst] in *. eexists e', _. cbn. split; [exact H3|]. split; [done|]. split; [done|].
  split; [by rewrite lookup_insert_eq|]. by rewrite H3.
Qed.

Lemma release_sealed key m : own_inv (view m) -> td_inv (tview m) -> releases_ok m -> running m = false -> is_Some (cm_entries m !! key) ->
  sealed (fun r => r = cm_next m) key (release key m).1 /\ cm_next (release key m).1 = S (cm_next m).
Proof.
  intros O I Hok Hr [e He]. destruct (release_result key e m He) as (e' & w & He' & Hc & Hrev & Hw & Ew & Hn). split; [|done].
  exists e'. split; [done|]. split; [done|]. pose proof (evolves_release key m Hok) as E. split.
  - intros k a' Ha' Hk. destruct (ident_back _ _ k a' (ev_attempts _ _ E Hr) Ha') as (a & Ha & Ek & Er).
    destruct (oi_revision _ O k (acore a) (view_attempt _ _ _ Ha)) as (oe & Hoe & Hle). cbn in Hoe, Hle. rewrite Ek, Hk, lookup_fmap, He in Hoe. injection Hoe as <-. cbn in Hle. lia.
  - exists (cm_next m), w. split; [done|]. split; [done|]. eapply covers_now; [by apply release_inv|by apply release_tracked|done..].
Qed.

Lemma release_all_sealed keys m : own_inv (view m) -> td_inv (tview m) -> releases_ok m -> running m = false -> (forall key, key ∈ keys -> is_Some (cm_entries m !! key)) ->
  forall key, key ∈ keys -> sealed (fun r => (cm_next m <= r < cm_next (release_all keys m).1)%nat) key (release_all keys m).1.
Proof.
  revert m. induction keys as [|key0 keys IH]; intros m O I Hok Hr Hkeys key Hin; [by apply elem_of_nil in Hin|].
  destruct (release_sealed key0 m O I Hok Hr (Hkeys key0 (list_elem_of_here _ _))) as [Hs Hn]. pose proof (evolves_release key0 m Hok) as E1.
  pose proof (release_inv key0 m O) as O1. pose proof (release_tracked key0 m O I) as I1. cbn [release_all]. destruct (release key0 m) as [m1 es1]. cbn [fst then_do] in *.
  assert (Hok1 : releases_ok m1) by (by apply (ev_releases _ _ E1)). assert (Hr1 : running m1 = false) by (by rewrite (running_eq m m1 (ev_shutdown _ _ E1))).
  pose proof (evolves_release_all keys m1 Hok1) as E2.
  assert (Hd1 : forall x, is_Some (cm_entries m !! x) -> is_Some (cm_entries m1 !! x)) by apply (ev_domain _ _ E1).
  assert (Hn2 : (cm_next m1 <= cm_next (release_all keys m1).1)%nat) by apply (ev_next _ _ E2).
  assert (Hdone : forall P Q x, (forall r, P r -> Q r) -> sealed P x (release_all keys m1).1 -> sealed Q x (release_all keys m1).1).
  { intros P Q x HPQ (e & ? & ? & ? & r & w & HP & ?). exists e. repeat split; try done. exists r, w. split; [by apply HPQ|done]. }
  specialize (IH m1 O1 I1 Hok1 Hr1 (fun x Hx => Hd1 x (Hkeys x (list_elem_of_further _ _ _ Hx)))). destruct (decide (key ∈ keys)) as [Hk|Hnk].
  - specialize (IH key Hk). destruct (release_all keys m1) as [m2 es2]. cbn [fst] in *. eapply Hdone; [|exact IH]. intros r Hrr. cbn in Hrr. lia.
  - apply elem_of_cons in Hin as [->|]; [|done]. pose proof (sealed_evolves _ key0 _ _ E2 Hr1 Hok1 (ev_domain _ _ E2 _ (Hd1 _ (Hkeys key0 (list_elem_of_here _ _)))) Hs) as H.
    destruct (release_all keys m1) as [m2 es2]. cbn [fst] in *. eapply Hdone; [|exact H]. intros r ->. lia.
Qed.

(** ** Delivery *)

Lemma add_conn_running c conn n m : running m = true -> (cm_next m <= n)%nat -> evolves m (cm_set_next n (cm_set_conns (<[c := conn]> (cm_conns m)) m)).
Proof. intros Hr Hn. by apply evolves_running. Qed.

Lemma evolves_delivered k now mf version isolation attested hookError m : running m = true ->
  evolves m (opening_delivered k now mf version isolation attested hookError m).1.
Proof.
  intros Hr. unfold opening_delivered. destruct (cm_attempts m !! k) as [a|]; [|apply manager_evolves_refl]. destruct (ca_opening a); try apply manager_evolves_refl.
  destruct (cm_entries m !! ca_key a) as [e|]; [|apply manager_evolves_refl]. set (c := cm_next m). set (conn := {| cn_attempt := k; cn_manifest := _; cn_runtimeVersion := _; cn_isolation := _; cn_identityAttested := _ |}).
  set (m0 := cm_set_next _ _). set (m1 := finishOpening k (ca_key a) m0).
  assert (E1 : evolves m m1) by (apply (manager_evolves_trans _ m0); [apply add_conn_running; [done|lia]|apply evolves_finish]).
  destruct (negb (acceptable a e)); [eapply manager_evolves_trans; [exact E1|apply evolves_refuse]|]. set (m2 := on_entry _ _ m1).
  assert (E2 : evolves m m2) by (eapply manager_evolves_trans; [exact E1|]; apply evolves_at; left; done).
  set (p3 := then_do _ (publish _)). assert (E3 : evolves m p3.1) by (apply evolves_then; [exact E2|apply evolves_publish]). destruct p3 as [m3 es3]. cbn [fst] in E3.
  assert (Hr3 : running m3 = true) by (by rewrite (running_eq m m3 (ev_shutdown _ _ E3))). cbn [then_do].
  destruct hookError as [err|].
  - pose proof (evolves_refuse k a c err (on_entry (ca_key a) (rc_set_connection None) m3)) as H. destruct (refuse_connection k a c err _) as [m4 es4]. cbn [fst] in *.
    eapply manager_evolves_trans; [exact E3|]. eapply manager_evolves_trans; [|exact H]. apply evolves_on_entry; [intros x; cbn; lia|right; by left].
  - cbn [fst]. eapply manager_evolves_trans; [exact E3|]. eapply manager_evolves_trans; [apply (evolves_race k (Ok c))|].
    eapply manager_evolves_trans; [by apply (evolves_on_attempt k (ca_set_ownership ow_over))|]. apply evolves_settle. intros; by left.
Qed.

Lemma sealed_delivered P k now mf version isolation attested hookError m : own_inv (view m) -> td_inv (tview m) -> releases_ok m -> running m = false ->
  (forall key, is_Some (cm_entries m !! key) -> sealed P key m) ->
  let m' := (opening_delivered k now mf version isolation attested hookError m).1 in
  (forall key, is_Some (cm_entries m' !! key) -> sealed P key m') /\ (exists m0, evolves m0 m' /\ cm_shutdown m0 = cm_shutdown m /\ cm_entries m0 = cm_entries m /\
     cm_keys m0 = cm_keys m /\ cm_outcomes m0 = cm_outcomes m /\ cm_releases m0 = cm_releases m /\ (cm_next m <= cm_next m0)%nat).
Proof.
  intros O I Hok Hr Hs. unfold opening_delivered. destruct (cm_attempts m !! k) as [a|] eqn:Ha; [|split; [done|]; exists m; split; [apply manager_evolves_refl|done]].
  destruct (ca_opening a) eqn:Ho; try (split; [done|]; exists m; split; [apply manager_evolves_refl|done]).
  destruct (cm_entries m !! ca_key a) as [e|] eqn:He; [|split; [done|]; exists m; split; [apply manager_evolves_refl|done]]. cbv zeta.
  set (conn := {| cn_attempt := k; cn_manifest := _; cn_runtimeVersion := _; cn_isolation := _; cn_identityAttested := _ |}). set (m0 := cm_set_next _ _).
  destruct (Hs (ca_key a) (ex_intro _ e He)) as (e0 & He0 & _ & Hst & _). rewrite He in He0. injection He0 as <-. specialize (Hst k a Ha eq_refl).
  assert (Hacc : acceptable a e = false) by (unfold acceptable, stale; replace (rc_revision e =? ca_revision a) with false by (symmetry; apply Z.eqb_neq; lia); done).
  rewrite Hacc. cbn [negb]. set (m1 := finishOpening k (ca_key a) m0). set (m' := (refuse_connection k a (cm_next m) unavailable_error m1).1).
  assert (E : evolves m0 m') by (eapply manager_evolves_trans; [apply (evolves_finish k (ca_key a))|apply evolves_refuse]).
  assert (Hok0 : releases_ok m0) by (intros r w Hw; apply Hok in Hw; cbn; lia).
  assert (Hnt : cm_outcomes m !! TdOpening k <> Some true).
  { intros Ht. pose proof (ti_done _ I k (tcore a) (tview_attempt _ _ _ Ha) Ht) as Hw. pose proof (proj2 (ti_stage _ I k (tcore a) (tview_attempt _ _ _ Ha))) as Hx. cbn in *.
    rewrite Ho in Hx. specialize (Hx (ltac:(done))). congruence. }
  split; [|exists m0; split; [exact E|]; repeat split; cbn; lia]. intros key Hkey.
  assert (Hkey0 : is_Some (cm_entries m !! key)) by (destruct Hkey as [e' He']; destruct (ev_entries _ _ E Hr key e' He') as (x & Hx & _); eauto).
  apply (sealed_evolves P key m0 m' E Hr Hok0 Hkey). destruct (Hs key Hkey0) as (ek & Hek & Hc & Hstk & r & w & HP & Hw & H1 & H2). exists ek. repeat split; try done.
  exists r, w. split; [done|]. split; [done|]. split; [exact H1|]. intros c cn b Hcn Hb Ek. cbn in Hcn, Hb. apply lookup_insert_Some in Hcn as [[<- <-]|[_ Hcn]]; [|by eapply H2].
  right. right. exact Hnt.
Qed.

(** ** The invariant of a run *)

Record full_inv (m : manager) : Prop := {
  fi_own : own_inv (view m);
  fi_tracked : td_inv (tview m);
  fi_keys : keys_ok m;
  fi_releases : releases_ok m;
  fi_released : forall r w, cm_releases m !! r = Some w -> rw_outcome w = Some true -> forall td, td ∈ rw_waits w -> cm_outcomes m !! td = Some true;
  fi_sealed : forall rs, cm_shutdown m = Some rs -> forall key, is_Some (cm_entries m !! key) -> sealed (fun r => r ∈ rs) key m;
}.

(** What [evolves] leaves of it. *)
Lemma full_evolves m m' : full_inv m -> evolves m m' -> own_inv (view m') -> td_inv (tview m') -> full_inv m'.
Proof.
  intros F E O I. constructor; [done|done|apply (ev_keys _ _ E), F|apply (ev_releases _ _ E), F| |].
  - intros r w Hw Ho td Htd. destruct (ev_released _ _ E r w Hw Ho) as [(w0 & Hw0 & Ew & Ho0)|H]; [|by apply H].
    apply (ev_outcomes _ _ E). eapply (fi_released _ F); [done..|by rewrite Ew].
  - intros rs Hs key Hkey. rewrite (ev_shutdown _ _ E) in Hs. assert (Hr : running m = false) by (unfold running; by rewrite Hs).
    assert (H0 : is_Some (cm_entries m !! key)) by (destruct Hkey as [e' He']; destruct (ev_entries _ _ E Hr key e' He') as (x & Hx & _); eauto).
    eapply sealed_evolves; [done|done|apply F|done|]. by apply (fi_sealed _ F).
Qed.

Lemma full_delivered k now mf version isolation attested hookError m : full_inv m -> full_inv (opening_delivered k now mf version isolation attested hookError m).1.
Proof.
  intros F. pose proof (opening_delivered_inv k now mf version isolation attested hookError m (fi_own _ F)) as O.
  pose proof (opening_delivered_tracked k now mf version isolation attested hookError m (fi_own _ F) (fi_tracked _ F)) as I.
  destruct (running m) eqn:Hr; [by eapply full_evolves; [|apply evolves_delivered| |]|].
  destruct (cm_shutdown m) as [rs|] eqn:Hs; [|unfold running in Hr; by rewrite Hs in Hr].
  destruct (sealed_delivered (fun r => r ∈ rs) k now mf version isolation attested hookError m (fi_own _ F) (fi_tracked _ F) (fi_releases _ F) Hr (fi_sealed _ F rs Hs))
    as (Hseal & m0 & E & E1 & E2 & E3 & E4 & E5 & E6). constructor; [done|done| | | |].
  - apply (ev_keys _ _ E). intros x. rewrite E2, E3. apply (fi_keys _ F).
  - apply (ev_releases _ _ E). intros r w Hw. rewrite E5 in Hw. apply (fi_releases _ F) in Hw. lia.
  - intros r w Hw Ho td Htd. destruct (ev_released _ _ E r w Hw Ho) as [(w0 & Hw0 & Ew & Ho0)|H]; [|by apply H].
    apply (ev_outcomes _ _ E). rewrite E4. rewrite E5 in Hw0. eapply (fi_released _ F); [done..|by rewrite Ew].
  - intros rs' Hs'. rewrite (ev_shutdown _ _ E), E1, Hs in Hs'. by injection Hs' as <-.
Qed.

Lemma full_shutdown m : full_inv m -> full_inv (shutdown m).1.
Proof.
  intros F. pose proof (shutdown_inv m (fi_own _ F)) as O. pose proof (shutdown_tracked m (fi_own _ F) (fi_tracked _ F)) as I. unfold shutdown, closeAll in *.
  destruct (cm_shutdown m) eqn:Hs; [done|]. set (m0 := cm_set_shutdown (Some []) m) in *. change (cm_keys m0) with (cm_keys m) in *.
  pose proof (evolves_release_all (cm_keys m) m0 (fi_releases _ F)) as E.
  pose proof (release_all_sealed (cm_keys m) m0 (fi_own _ F) (fi_tracked _ F) (fi_releases _ F) eq_refl (fun x Hx => proj2 (fi_keys _ F x) Hx)) as Hseal.
  destruct (release_all (cm_keys m) m0) as [m1 es]. cbn [fst snd] in *. constructor; [exact O|exact I|exact (ev_keys _ _ E (fi_keys _ F))|exact (ev_releases _ _ E (fi_releases _ F))| |].
  - intros r w Hw Ho td Htd. destruct (ev_released _ _ E r w Hw Ho) as [(w0 & Hw0 & Ew & Ho0)|H]; [|by apply H].
    apply (ev_outcomes _ _ E). eapply (fi_released _ F); [done..|by rewrite Ew].
  - cbn. intros rs [= <-] key Hkey. assert (Hin : key ∈ cm_keys m).
    { apply (fi_keys _ F). destruct Hkey as [e' He']. destruct (ev_entries _ _ E eq_refl key e' He') as (x & Hx & _). eauto. }
    destruct (Hseal key Hin) as (e & He & Hc & Hst & r & w & HP & Hw & Hcov). exists e. repeat split; try done. exists r, w. split; [|done].
    rewrite list_elem_of_In, in_seq. cbn in *. lia.
Qed.

(** A repaint: one entry, then [publish]. *)
Lemma evolves_repaint u key f m : (forall e, rc_revision (f e) = rc_revision e /\ rc_connection (f e) = rc_connection e) -> evolves m (publish u (on_entry key f m)).1.
Proof.
  intros Hf. eapply manager_evolves_trans; [|apply evolves_publish]. apply evolves_on_entry; [intros e; destruct (Hf e); lia|right; intros e; right; apply Hf].
Qed.

Lemma evolves_step o m : full_inv m -> match o with MoDelivered _ _ _ _ _ _ _ | MoShutdown => True | _ => evolves m (manager_step o m).1 end.
Proof.
  intros F. destruct o; cbn [manager_step fst]; try done.
  - apply evolves_connect.
  - apply evolves_interactive.
  - unfold waiter_done. destruct (cm_waiters m !! w) as [[key x]|]; [|apply manager_evolves_refl].
    eapply manager_evolves_trans; [apply (evolves_on_entry key (fun e => rc_set_pullWaiters (drop_from w (rc_pullWaiters e)) e)); [intros e; cbn; lia|right; by right]|]. by apply evolves_same.
  - apply evolves_resolved, F.
  - apply evolves_deadline.
  - unfold reportPhase. destruct (cm_attempts m !! k) as [a|]; [|apply manager_evolves_refl]. destruct (cm_entries m !! ca_key a) as [e|]; [|apply manager_evolves_refl]. cbv zeta.
    destruct (_ || _); [apply manager_evolves_refl|]. destruct phase; [destruct (es_pullingImage _)|destruct (es_offlineRuntimeCache _)]; try apply manager_evolves_refl.
    + apply evolves_then; [by apply evolves_repaint|]. intros m'. apply manager_evolves_refl.
    + by apply evolves_repaint.
  - unfold adopt_call. destruct (negb (running m)); [apply manager_evolves_refl|]. apply evolves_same; try done. cbn. lia.
  - apply evolves_adopt.
  - apply evolves_started, F.
  - apply evolves_rejected, F.
  - apply evolves_expired.
  - apply evolves_continues.
  - apply evolves_finally.
  - apply evolves_unavailable.
  - apply evolves_close_settled, F.
  - apply evolves_release_settled.
  - unfold disconnect. cbn. destruct (cm_entries m !! _); [|apply manager_evolves_refl]. pose proof (evolves_release (connectionKey userId environmentId) m (fi_releases _ F)) as E.
    destruct (release _ m) as [m1 es1]. cbn in *. eapply manager_evolves_trans; [exact E|apply evolves_publish].
  - unfold disconnectIfCurrent. destruct (cm_entries m !! _); [|apply manager_evolves_refl]. case_bool_decide; [|apply manager_evolves_refl]. cbn [fst].
    apply evolves_then; [apply evolves_release, F|apply evolves_publish].
  - apply evolves_release_all, F.
  - unfold expectUpdateDisconnect. case_match; [by apply evolves_repaint|apply manager_evolves_refl].
  - unfold clearExpectedUpdateDisconnect. case_match; [by apply evolves_repaint|apply manager_evolves_refl].
  - unfold clearBackoff. destruct (cm_entries m !! _); [|apply manager_evolves_refl]. destruct (_ && _); [apply manager_evolves_refl|]. apply evolves_repaint. intros e. cbv zeta. by case_bool_decide.
  - unfold clearHealth. cbn. destruct (cm_entries m !! _); [|apply manager_evolves_refl]. destruct (negb _); [apply manager_evolves_refl|]. cbn [fst]. apply evolves_on_entry; [intros e; cbn; lia|right; by right].
  - apply evolves_refresh.
  - unfold refreshManifestIfStale. destruct (cm_entries m !! _); [|apply manager_evolves_refl]. destruct (negb _ || _); [apply manager_evolves_refl|]. destruct (_ <? _); [apply manager_evolves_refl|].
    pose proof (evolves_refresh now userId environmentId None true m) as E. destruct (refresh_start _ _ _ _ _ m) as [[m1 es1] [f|]]; cbn [fst] in *; [|done].
    eapply manager_evolves_trans; [exact E|]. apply evolves_on_entry; [intros e; cbn; lia|right; by right].
  - apply evolves_health.
Qed.

Lemma full_step o m : full_inv m -> full_inv (manager_step o m).1.
Proof.
  intros F. pose proof (evolves_step o m F) as E. pose proof (manager_step_inv o m (fi_own _ F)) as O. pose proof (manager_step_tracked o m (fi_own _ F) (fi_tracked _ F)) as I.
  destruct o; try (by eapply full_evolves); [by apply full_delivered|by apply full_shutdown].
Qed.

Lemma full_new cfg : full_inv (new_manager cfg).
Proof.
  constructor; [apply new_manager_inv|apply new_manager_tracked|..]; try done.
  - intros key. cbn. rewrite lookup_empty, elem_of_nil. split; [by intros []|done].
Qed.

Lemma full_run os m : full_inv m -> full_inv (manager_run os m).1.
Proof. revert m. induction os as [|o os IH]; intros m F; [done|]. rewrite (proj1 (run_cons o os m)). by apply IH, full_step. Qed.

(** ** The theorem *)

(** Each release the shutdown waits for has resolved. *)
Definition shutdown_resolved (m : manager) : bool :=
  match cm_shutdown m with
  | Some rs => forallb (fun r => match cm_releases m !! r with Some w => is_true (rw_outcome w) | None => false end) rs
  | None => false
  end.

(** C5: once [shutdown] has resolved, nothing is left behind: every opener that was ever called has answered, every
    connection any of them delivered, however late, has been closed and its close finished without an error, and no entry
    holds a connection; this whatever was in flight when the shutdown began. *)
Theorem shutdown_complete (cfg : manager_config) (os : list manager_op) : let m := (manager_run os (new_manager cfg)).1 in
  shutdown_resolved m = true ->
  (forall k a, cm_attempts m !! k = Some a -> ca_opening a = og_settled) /\
  (forall c, is_Some (cm_conns m !! c) -> closes c (manager_run os (new_manager cfg)).2 = 1%nat /\ cm_outcomes m !! TdClose c = Some true) /\
  (forall key c, ~ holds key c m).
Proof.
  intros m Hd. pose proof (full_run os _ (full_new cfg)) as F. fold m in F. unfold shutdown_resolved in Hd. destruct (cm_shutdown m) as [rs|] eqn:Hs; [|done].
  assert (Hrel : forall key, is_Some (cm_entries m !! key) -> exists w, covers w key m /\ forall td, td ∈ rw_waits w -> cm_outcomes m !! td = Some true).
  { intros key Hkey. destruct (fi_sealed _ F rs Hs key Hkey) as (e & _ & _ & _ & r & w & Hr & Hw & Hcov). exists w. split; [done|].
    rewrite forallb_forall in Hd. specialize (Hd r (proj1 (list_elem_of_In _ _) Hr)). rewrite Hw in Hd. eapply (fi_released _ F); [done|]. by destruct (rw_outcome w) as [[]|]. }
  assert (Hent : forall k a, cm_attempts m !! k = Some a -> is_Some (cm_entries m !! ca_key a)).
  { intros k a Ha. destruct (oi_revision _ (fi_own _ F) k (acore a) (view_attempt _ _ _ Ha)) as (e & He & _). cbn in He. rewrite lookup_fmap in He. by apply fmap_Some in He as (x & -> & _). }
  assert (Hopen : forall k a, cm_attempts m !! k = Some a -> cm_outcomes m !! TdOpening k = Some true).
  { intros k a Ha. destruct (Hrel _ (Hent k a Ha)) as (w & [H1 _] & Hw). destruct (H1 k a Ha eq_refl); [by apply Hw|done]. }
  split; [|split].
  - intros k a Ha. pose proof (ti_done _ (fi_tracked _ F) k (tcore a) (tview_attempt _ _ _ Ha) (Hopen k a Ha)) as Hw.
    destruct (ca_opening a) eqn:Ho; [..|done]; exfalso;
      (assert (ta_ownership (tcore a) = ow_opening) by (apply (ti_stage _ (fi_tracked _ F) k (tcore a) (tview_attempt _ _ _ Ha)); cbn; by rewrite Ho)); congruence.
  - intros c [conn Hc]. assert (Hv : ow_conns (view m) !! c = Some (cn_attempt conn)) by (cbn; by rewrite lookup_fmap, Hc).
    destruct (oi_conn _ (fi_own _ F) c _ Hv) as (oa & Hoa & _). cbn in Hoa. rewrite lookup_fmap in Hoa. apply fmap_Some in Hoa as (a & Ha & _).
    assert (Ht : cm_outcomes m !! TdClose c = Some true).
    { destruct (Hrel _ (Hent _ a Ha)) as (w & [_ H2] & Hw). destruct (H2 c conn a Hc Ha eq_refl) as [|[|Hn]]; [by apply Hw|done|by destruct Hn; eapply Hopen]. }
    split; [|done]. pose proof (counted_run os (new_manager cfg) c) as Hcount. fold m in Hcount. unfold once in Hcount. rewrite decide_False in Hcount by (cbn; set_solver).
    rewrite decide_True in Hcount by (by eapply (ti_closed _ (fi_tracked _ F))). exact Hcount.
  - intros key c (e & He & Hc). destruct (fi_sealed _ F rs Hs key (ex_intro _ e He)) as (e0 & He0 & Hn & _). congruence.
Qed.

(** The hub shuts down with a runtime connected and a second one starting, whose connection comes late. *)
Definition shutdown_run : list manager_op :=
  [MoConnect 0 (js "u") (js "box") false; MoResolved 0 (Ok (Some stdio_definition)); MoDelivered 0 1 plain_manifest (js "1.0.0") None false None;
   MoContinue 2 0; MoFinally 0;
   MoConnect 3 (js "u") (js "lab") false; MoResolved 2 (Ok (Some stdio_definition));
   MoShutdown; MoDelivered 2 4 plain_manifest (js "1.0.0") None false None; MoCloseSettled 1 true; MoReleaseSettled 3; MoCloseSettled 5 true; MoReleaseSettled 4].

Lemma shutdown_complete_witness : let m := (manager_run shutdown_run (new_manager plain_config)).1 in
  shutdown_resolved m = true /\ (closes 5 (manager_run shutdown_run (new_manager plain_config)).2 = 1%nat /\ cm_outcomes m !! TdClose 5%nat = Some true) /\
  forall key c, ~ holds key c m.
Proof.
  cbv zeta. destruct (shutdown_complete plain_config shutdown_run) as (_ & H2 & H3); [vm_compute; reflexivity|].
  split; [vm_compute; reflexivity|]. split; [apply (H2 5%nat); vm_compute; eauto|exact H3].
Defined.
