(* ===== verification/ConnectionBackoff.v ===== *)
(** * The runtime connection manager: a crash loop stops

    Callers that never force a connect open an environment whose runtime keeps dying at most [MAX_RECONNECT_ATTEMPTS] times. *)

From S2P Require Import Prelude Wire RuntimeManifest ConnectionManager ConnectionOwnership ConnectionOwned ConnectionClosed.

(** ** Lazy runs *)

(** [o] is no deliberate connect, disconnect or reset of the environment under [key], no adoption, no binary update; no loss
    of a connection that lasted, no refusal by a runtime bound elsewhere; and its transport is not one that dials in. *)
Definition lazy_op (key : jstring) (o : manager_op) (m : manager) : bool :=
  let other u env := negb (bool_decide (connectionKey u env = key)) in
  match o with
  | MoConnect _ u env force => negb force || other u env
  | MoConnectInteractive _ u env => other u env
  | MoAdoptResolved n _ => match cm_adopts m !! n with Some (u, env) => other u env | None => true end
  | MoDisconnect u env | MoDisconnectIfCurrent u env _ | MoClearBackoff u env | MoExpectUpdate u env => other u env
  | MoCloseAll | MoShutdown => false
  | MoResolved k (Ok (Some d)) =>
      match cm_attempts m !! k with Some a => negb (bool_decide (ca_key a = key)) || negb (isDialIn (Some (df_transportKind d))) | None => true end
  | MoUnavailable now k =>
      match cm_attempts m !! k with
      | Some a =>
          negb (bool_decide (ca_key a = key))
          || match cm_entries m !! key with Some e => now - default 0 (rc_connectedAtMs e) <? HEALTHY_CONNECTION_MS | None => true end
      | None => true
      end
  | MoContinue _ k =>
      match cm_attempts m !! k with
      | Some a => negb (bool_decide (ca_key a = key)) || match ca_public a with pb_settling (Err err) => negb (isBoundElsewhere err) | _ => true end
      | None => true
      end
  | _ => true
  end.

Fixpoint lazy_run (key : jstring) (os : list manager_op) (m : manager) : bool :=
  match os with [] => true | o :: rest => lazy_op key o m && lazy_run key rest (manager_step o m).1 end.

(** How often the connector of the environment is called. *)
Fixpoint opens (key : jstring) (m : manager) (es : list manager_effect) : nat :=
  match es with
  | [] => 0
  | MgOpen k :: rest => (match cm_attempts m !! k with Some a => if bool_decide (ca_key a = key) then 1 else 0 | None => 0 end) + opens key m rest
  | _ :: rest => opens key m rest
  end.

Fixpoint run_opens (key : jstring) (os : list manager_op) (m : manager) : nat :=
  match os with [] => 0 | o :: rest => opens key m (manager_step o m).2 + run_opens key rest (manager_step o m).1 end.

(** ** The view of one environment *)

Record lazy_entry : Type := {
  le_revision : Z;
  le_connected : bool;
  le_connecting : option nat;
  le_failures : Z;
  le_retry : retry_after;
  le_dial : bool;
  le_expected : bool;
}.

Inductive lazy_public : Type := lp_racing | lp_settling | lp_past | lp_done.

Record lazy_attempt : Type := { la_key : jstring; la_revision : Z; la_adopt : bool; la_aborted : bool; la_opening : opening_stage; la_public : lazy_public }.

Definition lent (e : RuntimeConnectionEntry) : lazy_entry :=
  {| le_revision := rc_revision e; le_connected := match rc_connection e with Some _ => true | None => false end; le_connecting := rc_connecting e;
     le_failures := rc_failureCount e; le_retry := rc_retryAfterMs e; le_dial := isDialIn (rc_transportKind e); le_expected := rc_expectedUpdateDisconnect e |}.

Definition lazy_public_of (p : public_stage) : lazy_public :=
  match p with pb_racing => lp_racing | pb_settling _ => lp_settling | pb_reading _ | pb_finally _ => lp_past | pb_done _ => lp_done end.

Definition lat (a : connect_attempt) : lazy_attempt :=
  {| la_key := ca_key a; la_revision := ca_revision a; la_adopt := ca_adopt a; la_aborted := was_aborted a; la_opening := ca_opening a;
     la_public := lazy_public_of (ca_public a) |}.

Record lazy_view : Type := { lv_entry : option lazy_entry; lv_attempts : gmap nat lazy_attempt }.

Definition lview (key : jstring) (m : manager) : lazy_view := {| lv_entry := lent <$> cm_entries m !! key; lv_attempts := lat <$> cm_attempts m |}.

(** ** The invariant, after [n] opens *)

(** The failures account for the opens, and five of them latch. *)
Definition settled_count (n : Z) (e : lazy_entry) : Prop := n <= le_failures e /\ (MAX_RECONNECT_ATTEMPTS <= le_failures e -> le_retry e = Never).

(** How the opens are accounted for while attempt [a] is under way. *)
Definition pending_count (n : Z) (e : lazy_entry) (a : lazy_attempt) : Prop :=
  match la_public a with
  | lp_racing => le_failures e < MAX_RECONNECT_ATTEMPTS /\ n <= le_failures e + (match la_opening a with og_before => 0 | _ => 1 end)
  | lp_settling => n <= le_failures e + 1
  | _ => le_connected e = false -> settled_count n e
  end.

Record lazy_entry_inv (key : jstring) (n : Z) (e : lazy_entry) (v : lazy_view) : Prop := {
  lz_count : n <= MAX_RECONNECT_ATTEMPTS;
  lz_failures : 0 <= le_failures e;
  lz_dial : le_dial e = false;
  lz_expected : le_expected e = false;
  lz_idle : le_connecting e = None -> le_connected e = false -> settled_count n e;
  lz_live : le_connected e = true -> le_failures e < MAX_RECONNECT_ATTEMPTS /\ n <= le_failures e + 1;
  lz_pending : forall k, le_connecting e = Some k -> exists a, lv_attempts v !! k = Some a /\ la_key a = key /\ la_revision a = le_revision e /\ pending_count n e a;
  lz_current : forall k a, lv_attempts v !! k = Some a -> la_key a = key -> la_revision a = le_revision e -> la_public a <> lp_done -> le_connecting e = Some k;
  lz_dialed : forall k a, lv_attempts v !! k = Some a -> la_key a = key -> la_adopt a = false;
}.

Definition lazy_inv (key : jstring) (n : Z) (v : lazy_view) : Prop :=
  match lv_entry v with
  | Some e => lazy_entry_inv key n e v
  | None => n = 0 /\ forall k a, lv_attempts v !! k = Some a -> la_key a <> key
  end.

(** An attempt of the environment is unique to its revision. *)
Definition distinct (v : lazy_view) : Prop :=
  forall j k a b, lv_attempts v !! j = Some a -> lv_attempts v !! k = Some b -> la_key a = la_key b -> la_revision a = la_revision b -> j = k.

(** ** Moves *)

Definition set_lat (k : nat) (a : lazy_attempt) (v : lazy_view) : lazy_view := {| lv_entry := lv_entry v; lv_attempts := <[k := a]> (lv_attempts v) |}.
Definition set_lent (e : lazy_entry) (v : lazy_view) : lazy_view := {| lv_entry := Some e; lv_attempts := lv_attempts v |}.

Ltac split_insert H := cbn in H; apply lookup_insert_Some in H as [[<- <-]|[_ H]].

(** An attempt moves on while its entry stays. *)
Lemma lat_inv key n k a a' v : lazy_inv key n v -> lv_attempts v !! k = Some a -> la_key a' = la_key a -> la_revision a' = la_revision a -> la_adopt a' = la_adopt a ->
  (la_public a' <> lp_done -> la_public a <> lp_done) ->
  (forall e, la_key a = key -> lv_entry v = Some e -> le_connecting e = Some k -> pending_count n e a -> pending_count n e a') -> lazy_inv key n (set_lat k a' v).
Proof.
  intros I Hk Ek Er Ea Hd Hp. unfold lazy_inv in *. cbn. destruct (lv_entry v) as [e|] eqn:Hv.
  - destruct I as [? ? ? ? ? ? P C D]. constructor; try done.
    + intros j Hj. destruct (P j Hj) as (b & Hb & Kb & Rb & Cb). cbn. destruct (decide (k = j)) as [<-|].
      * rewrite Hk in Hb. injection Hb as <-. exists a'. rewrite lookup_insert_eq. split; [done|]. split; [congruence|]. split; [congruence|]. by apply Hp.
      * exists b. by rewrite lookup_insert_ne.
    + intros j b Hj; split_insert Hj; [|by eapply C]. rewrite Ek, Er. intros. apply (C k a); auto.
    + intros j b Hj; split_insert Hj; [|by eapply D]. rewrite Ek, Ea. by apply (D k a).
  - destruct I as [-> I]. split; [done|]. intros j b Hj; split_insert Hj; [rewrite Ek|]; by eapply I.
Qed.

(** The entry changes while no attempt does. *)
Lemma lent_inv key n e e' v : lazy_inv key n v -> lv_entry v = Some e -> le_revision e' = le_revision e -> le_connecting e' = le_connecting e -> 0 <= le_failures e' ->
  le_dial e' = false -> le_expected e' = false -> (le_connecting e = None -> le_connected e' = false -> settled_count n e') ->
  (le_connected e' = true -> le_failures e' < MAX_RECONNECT_ATTEMPTS /\ n <= le_failures e' + 1) ->
  (forall k a, lv_attempts v !! k = Some a -> la_key a = key -> la_revision a = le_revision e -> le_connecting e = Some k -> pending_count n e a -> pending_count n e' a) ->
  lazy_inv key n (set_lent e' v).
Proof.
  intros I Hv Er Ec Hf Hd He Hi Hl Hp. unfold lazy_inv in *. cbn. rewrite Hv in I. destruct I as [C0 _ _ _ _ _ P C D].
  constructor; rewrite ?Ec; try done; cbn [lv_attempts set_lent].
  - intros k Hk. destruct (P k Hk) as (a & Ha & Ka & Ra & Ca). exists a. rewrite Er. repeat split; try done. by apply (Hp k).
  - intros k a Hk Ek Rk Hn. rewrite Er in Rk. by apply (C k a).
Qed.

(** The last step of an attempt: its entry forgets it. *)
Lemma finish_inv key n k a v : lazy_inv key n v -> lv_attempts v !! k = Some a -> la_public a = lp_past -> la_key a = key -> forall e e', lv_entry v = Some e ->
  e' = {| le_revision := le_revision e; le_connected := le_connected e; le_connecting := if bool_decide (le_connecting e = Some k) then None else le_connecting e;
          le_failures := le_failures e; le_retry := le_retry e; le_dial := le_dial e; le_expected := le_expected e |} ->
  lazy_inv key n (set_lent e' (set_lat k {| la_key := la_key a; la_revision := la_revision a; la_adopt := la_adopt a; la_aborted := la_aborted a; la_opening := la_opening a; la_public := lp_done |} v)).
Proof.
  intros I Hk Hp Ek e e' Hv ->. set (a' := {| la_key := _; la_revision := _; la_adopt := _; la_aborted := _; la_opening := _; la_public := _ |}).
  unfold lazy_inv in *. cbn. rewrite Hv in I. destruct I as [C0 F0 D0 X0 ID L P C D].
  assert (Hset : le_connecting e = Some k -> le_connected e = false -> settled_count n e).
  { intros Hc Hf. destruct (P k Hc) as (b & Hb & _ & _ & Cb). rewrite Hk in Hb. injection Hb as <-. unfold pending_count in Cb. rewrite Hp in Cb. auto. }
  constructor; cbn; try done.
  - case_bool_decide as Hc; [|done]. intros _. by apply Hset.
  - intros j. case_bool_decide as Hc; [done|]. intros Hj. destruct (P j Hj) as (b & Hb & Kb & Rb & Cb). exists b. rewrite lookup_insert_ne by congruence. done.
  - intros j b [[<- <-]|[Hn Hj]]%lookup_insert_Some Kb Rb Hd; [done|]. pose proof (C j b Hj Kb Rb Hd) as Hc. rewrite bool_decide_false; [done|congruence].
  - intros j b [[<- <-]|[Hn Hj]]%lookup_insert_Some; [cbn; intros; by apply (D k a)|by eapply D].
Qed.

(** A lazy connect begins an attempt. *)
Lemma begin_lazy key n k e v : lazy_inv key n v -> (forall j a, lv_attempts v !! j = Some a -> la_key a = key -> exists x, lv_entry v = Some x /\ la_revision a <= le_revision x) ->
  lv_attempts v !! k = None ->
  match lv_entry v with
  | Some x => x = e /\ le_connecting e = None /\ le_connected e = false /\ le_retry e <> Never
  | None => le_revision e = 0 /\ le_connected e = false /\ le_failures e = 0 /\ le_dial e = false /\ le_expected e = false
  end ->
  lazy_inv key n (set_lent {| le_revision := le_revision e + 1; le_connected := false; le_connecting := Some k; le_failures := le_failures e; le_retry := le_retry e;
      le_dial := le_dial e; le_expected := le_expected e |}
    (set_lat k {| la_key := key; la_revision := le_revision e + 1; la_adopt := false; la_aborted := false; la_opening := og_before; la_public := lp_racing |} v)).
Proof.
  intros I Hrev Hk He.
  assert (Hcount : 0 <= le_failures e < MAX_RECONNECT_ATTEMPTS /\ n <= le_failures e /\ le_dial e = false /\ le_expected e = false).
  { unfold lazy_inv in I. destruct (lv_entry v) as [x|].
    - destruct He as (-> & Hc & Hf & Hr), I as [C0 F0 D0 X0 ID _ _ _ _]. destruct (ID Hc Hf) as [Hn Hl]. repeat split; try done.
      destruct (Z.lt_ge_cases (le_failures e) MAX_RECONNECT_ATTEMPTS); [done|]. by destruct Hr; apply Hl.
    - destruct I as [-> _], He as (_ & _ & -> & -> & ->). unfold MAX_RECONNECT_ATTEMPTS. repeat split; lia. }
  destruct Hcount as ([F1 F2] & Hn & Hd & Hx). unfold lazy_inv. cbn.
  assert (Hold : forall j a, lv_attempts v !! j = Some a -> la_key a = key -> la_revision a < le_revision e + 1 /\ la_adopt a = false).
  { intros j a Hj Kj. destruct (Hrev j a Hj Kj) as (x & Hvx & Hle). unfold lazy_inv in I. rewrite Hvx in *. destruct He as (-> & _). split; [lia|]. by eapply (lz_dialed _ _ _ _ I). }
  constructor; cbn; try done.
  - unfold MAX_RECONNECT_ATTEMPTS in *. lia.
  - intros j [= <-]. eexists. rewrite lookup_insert_eq. split; [done|]. repeat split; try done. unfold pending_count. cbn. lia.
  - intros j a [[<- <-]|[Hne Hj]]%lookup_insert_Some Kj Rj _; [done|]. destruct (Hold j a Hj Kj). lia.
  - intros j a [[<- <-]|[Hne Hj]]%lookup_insert_Some; [done|]. intros Kj. by destruct (Hold j a Hj Kj).
Qed.

(** The connector is called. *)
Lemma open_lazy key n k a v e : lazy_inv key n v -> lv_attempts v !! k = Some a -> la_key a = key -> lv_entry v = Some e -> la_revision a = le_revision e ->
  la_public a = lp_racing -> la_opening a = og_before -> le_connected e = false ->
  lazy_inv key (n + 1) (set_lat k {| la_key := la_key a; la_revision := la_revision a; la_adopt := la_adopt a; la_aborted := la_aborted a; la_opening := og_called; la_public := la_public a |} v).
Proof.
  intros I Hk Ek Hv Er Hp Ho Hc. unfold lazy_inv in *. cbn. rewrite Hv in *. destruct I as [C0 F0 D0 X0 ID L P C D].
  assert (Hcon : le_connecting e = Some k) by (apply (C k a); try done; by rewrite Hp).
  destruct (P k Hcon) as (b & Hb & _ & _ & Cb). rewrite Hk in Hb. injection Hb as <-. unfold pending_count in Cb. rewrite Hp, Ho in Cb. destruct Cb as [Cf Cn].
  constructor; cbn; try done; try congruence.
  - unfold MAX_RECONNECT_ATTEMPTS in *. lia.
  - intros j Hj. assert (j = k) as -> by congruence. eexists. rewrite lookup_insert_eq. split; [done|]. cbn. repeat split; try done. unfold pending_count. cbn. rewrite Hp. lia.
  - intros j b Hj; split_insert Hj; [done|by eapply C].
  - intros j b Hj; split_insert Hj; [cbn; by apply (D k a)|by eapply D].
Qed.

(** An attempt on another entry begins. *)
Lemma other_lazy key n k a v : lazy_inv key n v -> lv_attempts v !! k = None -> la_key a <> key -> lazy_inv key n (set_lat k a v).
Proof.
  intros I Hk Hn. unfold lazy_inv in *. cbn. destruct (lv_entry v) as [e|].
  - destruct I as [C0 F0 D0 X0 ID L P C D]. constructor; cbn; try done.
    + intros j Hj. destruct (P j Hj) as (b & Hb & ?). exists b. rewrite lookup_insert_ne by congruence. done.
    + intros j b Hj; split_insert Hj; [done|by eapply C].
    + intros j b Hj; split_insert Hj; [done|by eapply D].
  - destruct I as [-> I]. split; [done|]. intros j b Hj; split_insert Hj; [done|by eapply I].
Qed.

(** ** What the plumbing does to the view *)

Lemma lview_eq v1 v2 : lv_entry v1 = lv_entry v2 -> lv_attempts v1 = lv_attempts v2 -> v1 = v2.
Proof. destruct v1, v2; cbn. by intros -> ->. Qed.

Lemma lview_on_entry key x f m : (x = key -> forall e, lent (f e) = lent e) -> lview key (on_entry x f m) = lview key m.
Proof.
  intros Hf. apply lview_eq; cbn; [|done]. destruct (decide (x = key)) as [->|]; [rewrite lookup_alter_eq|by rewrite lookup_alter_ne].
  destruct (cm_entries m !! key); cbn; [f_equal; by apply Hf|done].
Qed.

Lemma lview_set_entry key f e m : cm_entries m !! key = Some e -> lview key (on_entry key f m) = set_lent (lent (f e)) (lview key m).
Proof. intros He. apply lview_eq; cbn; [|done]. by rewrite lookup_alter_eq, He. Qed.

Lemma lview_on_attempt key k f m : (forall a, lat (f a) = lat a) -> lview key (on_attempt k f m) = lview key m.
Proof. intros Hf. apply lview_eq; cbn; [done|]. apply fmap_alter_same. auto. Qed.

Lemma lview_set_attempt key k f a m : cm_attempts m !! k = Some a -> lview key (on_attempt k f m) = set_lat k (lat (f a)) (lview key m).
Proof. intros Ha. apply lview_eq; cbn; [done|]. by apply fmap_alter_set. Qed.

Lemma lview_publish key u m : lview key (publish u m).1 = lview key m.
Proof.
  apply lview_eq; cbn; [|done]. rewrite lookup_fmap. destruct (cm_entries m !! key) as [e|]; cbn; [|done]. f_equal. unfold announce. repeat case_match; done.
Qed.

Lemma lview_settle key x td ok m : lview key (settle_teardown x td ok m) = lview key m.
Proof.
  unfold settle_teardown. destruct (cm_outcomes m !! td); [done|]. etrans; [|apply (lview_on_entry key x (fun e => let e := rc_set_pendingTeardowns (drop_from td (rc_pendingTeardowns e)) e in
    if ok then e else rc_set_failedTeardowns (add_to td (rc_failedTeardowns e)) e))]; [done|]. intros _ e. by destruct ok.
Qed.

Lemma lview_close key x c r m : lview key (closeConnection x c r m).1 = lview key m.
Proof. unfold closeConnection. case_bool_decide; [done|]. etrans; [|apply (lview_on_entry key x (fun e => rc_set_pendingTeardowns (add_to (TdClose c) (rc_pendingTeardowns e)) e))]; done. Qed.

Lemma lview_then key p f : lview key (then_do p f).1 = lview key (f p.1).1.
Proof. destruct p as [m es]. cbn. by destruct (f m). Qed.

Lemma lview_attempt key m k a : cm_attempts m !! k = Some a -> lv_attempts (lview key m) !! k = Some (lat a).
Proof. intros Ha. cbn. by rewrite lookup_fmap, Ha. Qed.

Lemma lview_bound key ks m : lview key (bound_openings ks m) = lview key m.
Proof. induction ks as [|k ks IH]; [done|]. cbn. rewrite lview_on_attempt; [done|]. by intros []. Qed.

(** ** Attempts *)

Section attempts.
Context (key : jstring) (n : Z).

Notation lzi m := (lazy_inv key n (lview key m)).

(** Out of the race, with an outcome. *)
Lemma settle_race_lazy k a a' v : lazy_inv key n v -> lv_attempts v !! k = Some a -> la_key a' = la_key a -> la_revision a' = la_revision a -> la_adopt a' = la_adopt a ->
  la_public a' = (match la_public a with lp_racing => lp_settling | p => p end) -> lazy_inv key n (set_lat k a' v).
Proof.
  intros I Hk E1 E2 E3 E4. apply (lat_inv _ _ k a); try done.
  - rewrite E4. by destruct (la_public a).
  - intros e _ _ _. unfold pending_count. rewrite E4. destruct (la_public a); try done. destruct (la_opening a); lia.
Qed.

Lemma race_lazy k o m : lzi m -> lzi (race_settled k o m).
Proof.
  intros I. destruct (cm_attempts m !! k) as [a|] eqn:Ha.
  - unfold race_settled. rewrite (lview_set_attempt _ _ _ a) by done. eapply (settle_race_lazy k (lat a)); [done|by apply lview_attempt|by destruct (ca_public a)..|].
    cbn. destruct (ca_public a) eqn:E; cbn; by rewrite ?E.
  - replace (lview key (race_settled k o m)) with (lview key m); [done|]. apply lview_eq; cbn; [done|]. symmetry. apply fmap_alter_same. congruence.
Qed.

Lemma abort_lazy k r m : lzi m -> lzi (abort_attempt k r m).1.
Proof.
  intros I. unfold abort_attempt. destruct (cm_attempts m !! k) as [a|] eqn:Ha; [|done]. destruct (ca_aborted a); [done|]. cbn [fst]. apply race_lazy.
  rewrite (lview_set_attempt _ _ _ a) by done. eapply (lat_inv _ _ k (lat a)); [done|by apply lview_attempt|done..].
Qed.

Lemma finish_lazy k x m : lzi m -> lzi (finishOpening k x m).
Proof.
  intros I. unfold finishOpening. assert (E : lview key (on_entry x (fun e => rc_set_pendingOpenings (drop_from k (rc_pendingOpenings e)) e) m) = lview key m) by (by apply lview_on_entry).
  destruct (cm_attempts m !! k) as [a|] eqn:Ha.
  - rewrite (lview_set_attempt _ _ _ a) by done. rewrite E. eapply (lat_inv _ _ k (lat a)); [done|by apply lview_attempt|done..|].
    intros e _ _ _. unfold pending_count. cbn. destruct (lazy_public_of (ca_public a)); try done. destruct (ca_opening a); lia.
  - rewrite <- E in I. refine (eq_ind _ (lazy_inv key n) I _ _). apply lview_eq; cbn; [done|]. symmetry. apply fmap_alter_same. congruence.
Qed.

Lemma lview_ownership k x m : lview key (on_attempt k (ca_set_ownership x) m) = lview key m.
Proof. apply lview_on_attempt. by intros []. Qed.

Lemma failed_lazy k x e m : lzi m -> lzi (opening_failed k x e m).1.
Proof. intros I. unfold opening_failed. cbn [fst]. rewrite lview_settle, lview_ownership. by apply race_lazy, finish_lazy. Qed.

Lemma refuse_lazy k a c err m : lzi m -> lzi (refuse_connection k a c err m).1.
Proof. intros I. unfold refuse_connection. rewrite lview_close, lview_ownership. by apply race_lazy. Qed.

(** Past the race: fine as long as the entry accounts for the attempt. *)
Lemma past_lazy k a a' m : lzi m -> cm_attempts m !! k = Some a -> lat a' = {| la_key := ca_key a; la_revision := ca_revision a; la_adopt := ca_adopt a; la_aborted := was_aborted a;
    la_opening := ca_opening a; la_public := lp_past |} -> lazy_public_of (ca_public a) <> lp_done ->
  (ca_key a = key -> forall e, cm_entries m !! key = Some e -> rc_connecting e = Some k -> rc_connection e = None -> settled_count n (lent e)) ->
  lazy_inv key n (set_lat k (lat a') (lview key m)).
Proof.
  intros I Ha Ea Hd Hs. rewrite Ea. eapply (lat_inv _ _ k (lat a)); [done|by apply lview_attempt|done..|].
  intros e Ek Hv Hc _. unfold pending_count. cbn. cbn in Hv, Ek. destruct (cm_entries m !! key) as [x|] eqn:Hx; cbn in Hv; [|done]. injection Hv as <-.
  intros Hcn. apply (Hs Ek x eq_refl Hc). cbn in Hcn. by destruct (rc_connection x).
Qed.

Lemma own_key_dialed k a m : lzi m -> cm_attempts m !! k = Some a -> ca_key a = key -> ca_adopt a = false.
Proof.
  intros I Ha Ek. unfold lazy_inv in I. destruct (lv_entry (lview key m)) as [e|].
  - exact (lz_dialed _ _ _ _ I k (lat a) (lview_attempt _ _ _ _ Ha) Ek).
  - destruct I as [_ I]. by destruct (I k (lat a) (lview_attempt _ _ _ _ Ha)).
Qed.

Lemma answered_lazy k a b o m : lzi m -> cm_attempts m !! k = Some b -> ca_key a = ca_key b -> ca_adopt a = ca_adopt b -> lazy_public_of (ca_public b) <> lp_done ->
  (ca_key b = key -> forall e, cm_entries m !! key = Some e -> rc_connecting e = Some k -> rc_connection e = None -> settled_count n (lent e)) ->
  lzi (attempt_answered k a o m).1.
Proof.
  intros I Hb Ek Ea Hd Hs. unfold attempt_answered. destruct (ca_adopt a) eqn:Had; cbn [fst].
  - set (m1 := on_entry _ _ m). assert (E1 : lview key m1 = lview key m) by (apply lview_on_entry; intros _ e; by case_bool_decide).
    rewrite (lview_set_attempt _ _ _ b) by done. rewrite E1. eapply (lat_inv _ _ k (lat b)); [done|by apply lview_attempt|done..|].
    cbn. intros e Kb _ _ _. pose proof (own_key_dialed k b m I Hb Kb). congruence.
  - rewrite (lview_set_attempt _ _ _ b) by done. by eapply past_lazy.
Qed.

End attempts.
