(* ===== verification/ConnectionLatch.v ===== *)
(** * The runtime connection manager: the latch of a crash loop

    Every lazy operation keeps the count of [ConnectionBackoff], so the connector of an environment whose runtime keeps dying
    is called at most [MAX_RECONNECT_ATTEMPTS] times. *)

From S2P Require Import Prelude Wire RuntimeManifest ConnectionManager ConnectionOwnership ConnectionOwned ConnectionClosed ConnectionBackoff.

(** ** More of what the plumbing does to the view *)

Lemma lview_put key x e m : lview key (put_entry x e m) = if bool_decide (x = key) then set_lent (lent e) (lview key m) else lview key m.
Proof. apply lview_eq; case_bool_decide as H; cbn; [subst; by rewrite lookup_insert_eq|by rewrite lookup_insert_ne|done..]. Qed.

Lemma lview_add key a m : lview key (add_attempt a m) = set_lat (cm_next m) (lat a) (lview key m).
Proof. apply lview_eq; cbn; [done|]. by rewrite fmap_insert. Qed.

(** An update that leaves what the view shows of the entry under [key]. *)
Lemma lview_entry_at key x f m : (forall e, x = key -> cm_entries m !! key = Some e -> lent (f e) = lent e) -> lview key (on_entry x f m) = lview key m.
Proof.
  intros Hf. apply lview_eq; cbn; [|done]. destruct (decide (x = key)) as [->|]; [rewrite lookup_alter_eq|by rewrite lookup_alter_ne].
  destruct (cm_entries m !! key) as [e|] eqn:He; cbn; [f_equal; by apply Hf|done].
Qed.

Lemma lview_connected key m m' e : lview key m' = lview key m -> cm_entries m !! key = Some e -> exists e', cm_entries m' !! key = Some e' /\ lent e' = lent e.
Proof. intros E%(f_equal lv_entry) He. cbn in E. rewrite He in E. destruct (cm_entries m' !! key) as [e'|]; [|done]. injection E as E1 E2 E3 E4 E5 E6 E7. exists e'. split; [done|]. unfold lent. congruence. Qed.

Lemma lview_refresh key now u env reader bg m : lview key (refresh_start now u env reader bg m).1.1 = lview key m.
Proof. unfold refresh_start. repeat case_match; try done. cbn [fst]. etrans; [|by apply (lview_on_entry key (connectionKey u env) (rc_set_manifestReadAtMs (Some now)))]. done. Qed.

Lemma lview_health key u env c h m : lview key (apply_health u env c h m).1 = lview key m.
Proof.
  unfold apply_health. destruct (cm_entries m !! _) as [e|] eqn:He; [|done]. destruct (cm_conns m !! c) as [conn|] eqn:Hc; [|done]. cbv zeta. rewrite lview_then.
  match goal with |- lview _ (_ (?x, _).1).1 = _ => set (m1 := x) end.
  assert (E : lview key m1 = lview key m).
  { etrans; [|apply (lview_entry_at key (connectionKey u env) (fun _ => rc_set_status (with_peerRelease (mc_hubVersion (cm_config m)) (cn_runtimeVersion conn)
      (with_connected (applyHubIsolationClaim (capabilityManifestFromHealth h (Some (default (cn_manifest conn) (rc_announcedManifest e)))) (cn_isolation conn)) (rc_status e)))
      (rc_set_healthReadAtMs (rc_manifestReadAtMs e) (rc_set_health (Some h) e))))]; [done|]. intros x <- Hx. rewrite He in Hx. by injection Hx as <-. }
  case_bool_decide; cbn [fst]; by rewrite ?lview_publish.
Qed.

(** ** The operations *)

Section ops.
Context (key : jstring) (n : Z).

Notation lzi m := (lazy_inv key n (lview key m)).

(** What the invariants say of the attempt under way. *)
Lemma pending_attempt k a e m : lzi m -> cm_attempts m !! k = Some a -> ca_key a = key -> cm_entries m !! key = Some e -> rc_revision e = ca_revision a ->
  lazy_public_of (ca_public a) <> lp_done -> rc_connecting e = Some k /\ pending_count n (lent e) (lat a).
Proof.
  intros I Ha Ek He Hr Hd. unfold lazy_inv in I. cbn [lv_entry lview] in I. rewrite He in I. cbn in I.
  pose proof (lz_current _ _ _ _ I k (lat a) (lview_attempt _ _ _ _ Ha) Ek (eq_sym Hr) Hd) as Hc. split; [done|].
  destruct (lz_pending _ _ _ _ I k Hc) as (b & Hb & _ & _ & Cb). rewrite (lview_attempt _ _ _ _ Ha) in Hb. by injection Hb as <-.
Qed.

Lemma pending_revision k a e m : lzi m -> cm_attempts m !! k = Some a -> cm_entries m !! key = Some e -> rc_connecting e = Some k -> ca_key a = key /\ rc_revision e = ca_revision a.
Proof.
  intros I Ha He Hc. unfold lazy_inv in I. cbn [lv_entry lview] in I. rewrite He in I. cbn in I.
  destruct (lz_pending _ _ _ _ I k Hc) as (b & Hb & Kb & Rb & _). rewrite (lview_attempt _ _ _ _ Ha) in Hb. by injection Hb as <-.
Qed.

Lemma lazy_entry_of e m : lzi m -> cm_entries m !! key = Some e -> lazy_entry_inv key n (lent e) (lview key m).
Proof. intros I He. unfold lazy_inv in I. cbn [lv_entry lview] in I. by rewrite He in I. Qed.

Lemma connect_entry_lazy now x u env force e m : own_inv (view m) -> lzi m -> (x = key -> force = false) ->
  match cm_entries m !! x with Some y => e = y /\ rc_connection y = None /\ rc_connecting y = None | None => e = new_entry u env end ->
  lzi (connect_entry now x u env force e m).1.1.
Proof.
  intros O I Hf He. unfold connect_entry. set (e1 := if force then _ else e).
  assert (Hk : lv_attempts (lview key m) !! cm_next m = None).
  { cbn. rewrite lookup_fmap. destruct (cm_attempts m !! cm_next m) as [a|] eqn:Ha; [|done]. pose proof (oi_attempt_fresh _ O _ _ (view_attempt _ _ _ Ha)) as H. cbn in H. lia. }
  destruct (decide (x = key)) as [->|Hne].
  - specialize (Hf eq_refl) as ->. cbn in e1. subst e1. cbn [negb andb]. destruct (held_back now (rc_retryAfterMs e)) eqn:Hh; cbn [fst].
    + rewrite lview_put, bool_decide_true by done. destruct (cm_entries m !! key) as [y|] eqn:Hy.
      * destruct He as (-> & _). refine (eq_ind _ (lazy_inv key n) I _ _). apply lview_eq; cbn; by rewrite ?Hy.
      * subst e. unfold lazy_inv in I |- *. cbn [lv_entry lview set_lent] in I |- *. rewrite Hy in I. destruct I as [-> I].
        constructor; cbn [lv_attempts set_lent]; try done; intros; try (by destruct (I k a)).
    + rewrite lview_publish, lview_add, lview_put, bool_decide_true by done.
      assert (Hcn : rc_connection e = None) by (destruct (cm_entries m !! key); [by destruct He as (-> & ? & _)|by subst e]).
      refine (eq_ind _ (lazy_inv key n) (begin_lazy key n (cm_next m) (lent e) _ I _ Hk _) _ _); [| |apply lview_eq; unfold lent, lat; cbn; by rewrite ?Hcn].
      * intros j a Hj Kj. cbn in Hj. rewrite lookup_fmap in Hj. destruct (cm_attempts m !! j) as [b|] eqn:Hb; [|done]. injection Hj as <-.
        destruct (oi_revision _ O j (acore b) (view_attempt _ _ _ Hb)) as (y & Hy & Hle). cbn in Hy, Hle, Kj. rewrite Kj, lookup_fmap in Hy. cbn.
        destruct (cm_entries m !! key) as [z|]; [|done]. injection Hy as <-. by exists (lent z).
      * cbn. destruct (cm_entries m !! key) as [y|]; cbn; [|by subst e]. destruct He as (-> & Hc & Hg). rewrite Hc, Hg. repeat split. by destruct (rc_retryAfterMs y).
  - destruct (negb force && _); cbn [fst]; [by rewrite lview_put, bool_decide_false|]. rewrite lview_publish, lview_add, lview_put, bool_decide_false by done.
    by apply other_lazy.
Qed.

Lemma connect_lazy now u env force m : own_inv (view m) -> lzi m -> negb force || negb (bool_decide (connectionKey u env = key)) = true -> lzi (connect now u env force m).1.1.
Proof.
  intros O I Hl. unfold connect. destruct (negb (running m)); [done|].
  assert (Hf : connectionKey u env = key -> force = false) by (intros E; rewrite bool_decide_true in Hl by done; by destruct force).
  destruct (cm_entries m !! connectionKey u env) as [e|] eqn:He; [|apply connect_entry_lazy; [done..|by rewrite He]].
  destruct (rc_connection e) eqn:Hc; [done|]. destruct (rc_connecting e) eqn:Hg; [done|]. apply connect_entry_lazy; [done..|by rewrite He].
Qed.

Lemma interactive_lazy now u env m : own_inv (view m) -> lzi m -> connectionKey u env <> key -> lzi (connectInteractive now u env m).1.1.
Proof.
  intros O I Hne. unfold connectInteractive. pose proof (connect_lazy now u env true m O I) as I1. rewrite bool_decide_false in I1 by done. specialize (I1 eq_refl).
  destruct (connect now u env true m) as [[m1 es] answer]. cbn [fst] in I1. destruct (cm_entries m1 !! _); [|done]. destruct (es_pullingImage _); [done|]. cbn [fst].
  match goal with |- lazy_inv _ _ (lview _ (cm_set_next ?x (cm_set_waiters ?w (on_entry ?k ?f m1)))) => change (lzi (on_entry k f m1)) end. by rewrite lview_on_entry.
Qed.

(** ** Opening *)

(** The definition is read: the environment does not dial in. *)
Lemma resolved_lview k a d armed m : lzi m -> cm_attempts m !! k = Some a -> (ca_key a = key -> isDialIn (Some (df_transportKind d)) = false) ->
  lview key (on_attempt k (ca_set_deadline armed)
    (on_entry (ca_key a) (fun e => rc_set_environmentName (Some (df_name d)) (rc_set_transportKind (Some (df_transportKind d)) e)) m)) = lview key m.
Proof.
  intros I Ha Hd. rewrite lview_on_attempt by (by intros []). apply lview_entry_at. intros e Ek He. specialize (Hd Ek).
  pose proof (lz_dial _ _ _ _ (lazy_entry_of e m I He)) as Hold. unfold lent in *. cbn in *. by rewrite Hd, Hold.
Qed.

Lemma connect_resolved_lazy k answer m : own_inv (view m) -> lzi m -> lazy_op key (MoResolved k answer) m = true ->
  lazy_inv key (n + Z.of_nat (opens key m (connect_resolved k answer m).2)) (lview key (connect_resolved k answer m).1).
Proof.
  intros O I Hl. cbn in Hl. unfold connect_resolved. destruct (cm_attempts m !! k) as [a|] eqn:Ha; [|by cbn; rewrite Z.add_0_r]. destruct (ca_adopt a) eqn:Had; [by cbn; rewrite Z.add_0_r|].
  assert (Hf : forall x e m', lzi m' -> lazy_inv key (n + Z.of_nat (opens key m (opening_failed k x e m').2)) (lview key (opening_failed k x e m').1)).
  { intros x e m' I'. cbn [opening_failed snd opens]. rewrite Z.add_0_r. by apply failed_lazy. }
  destruct (ca_opening a) eqn:Ho; try (by cbn; rewrite Z.add_0_r). destruct (cm_entries m !! ca_key a) as [e|] eqn:He; [|by cbn; rewrite Z.add_0_r].
  destruct answer as [[d|]|err]; [|destruct (was_aborted a || stale a e); by apply Hf|by apply Hf].
  destruct (was_aborted a || stale a e) eqn:Hw; [by apply Hf|]. cbv zeta.
  set (m1 := on_attempt k _ _). assert (E1 : lview key m1 = lview key m).
  { apply resolved_lview; [done..|]. intros Ek. rewrite bool_decide_true in Hl by done. by apply negb_true_iff in Hl. }
  case_match; [apply Hf; by rewrite E1|]. cbn [fst snd opens]. rewrite Ha, Nat.add_0_r.
  assert (Ha1 : exists b, cm_attempts m1 !! k = Some b /\ lat b = lat a) by (eexists; split; [by apply lookup_on_attempt|by destruct a]).
  destruct Ha1 as (b & Hb & Eb). rewrite (lview_set_attempt _ _ _ b) by done. rewrite E1.
  assert (Eset : lat (ca_set_opening og_called b) = {| la_key := la_key (lat a); la_revision := la_revision (lat a); la_adopt := la_adopt (lat a); la_aborted := la_aborted (lat a);
    la_opening := og_called; la_public := la_public (lat a) |}) by (rewrite <- Eb; by destruct b). rewrite Eset.
  apply orb_false_iff in Hw as [Hw Hs]. apply negb_false_iff, Z.eqb_eq in Hs.
  destruct (oi_racing _ O k (acore a)) as [Hrace|Hab]; [by apply view_attempt|cbn; by rewrite Ho| |cbn in Hab; congruence].
  assert (Hp : la_public (lat a) = lp_racing) by (cbn in *; by destruct (ca_public a) as [|[]| | |]).
  case_bool_decide as Ek.
  - rewrite Ek in He. cbn [Z.of_nat]. apply (open_lazy key n k (lat a) _ (lent e)); try done; [by apply lview_attempt|cbn; by rewrite He|].
    rewrite <- Ek in He. cbn. by rewrite (oi_failed _ O k (acore a) (core e) (view_attempt _ _ _ Ha) (or_intror Hrace) (view_entry _ _ _ He) Hs : rc_connection e = None).
  - rewrite Z.add_0_r. apply (lat_inv key n k (lat a)); try done. by apply lview_attempt.
Qed.

(** The entry of a racing attempt: its connection and its deadline are free. *)
Lemma racing_entry_inv k a e f m : lzi m -> cm_attempts m !! k = Some a -> ca_key a = key -> cm_entries m !! key = Some e -> rc_revision e = ca_revision a ->
  lazy_public_of (ca_public a) = lp_racing -> ca_opening a = og_settled -> rc_revision (f e) = rc_revision e -> rc_connecting (f e) = rc_connecting e ->
  rc_failureCount (f e) = rc_failureCount e -> rc_transportKind (f e) = rc_transportKind e -> rc_expectedUpdateDisconnect (f e) = rc_expectedUpdateDisconnect e -> lzi (on_entry key f m).
Proof.
  intros I Ha Ek He Hr Hp Ho F1 F2 F3 F4 F5. pose proof (lazy_entry_of e m I He) as L. destruct (pending_attempt k a e m I Ha Ek He Hr) as [Hc Hcount]; [by rewrite Hp|].
  unfold pending_count in Hcount. cbn in Hcount. rewrite Hp, Ho in Hcount.
  rewrite (lview_set_entry _ _ e) by done. apply (lent_inv key n (lent e)); cbn; rewrite ?F1, ?F2, ?F3, ?F4, ?F5; try done; [cbn; by rewrite He|apply L..|congruence|].
  intros j b Hj _ _ Hcj. assert (j = k) as -> by congruence. rewrite lookup_fmap, Ha in Hj. injection Hj as <-. unfold pending_count. cbn. by rewrite Hp, Ho, F3.
Qed.

Lemma on_other_entry x f m : x <> key -> lview key (on_entry x f m) = lview key m.
Proof. intros Hne. by apply lview_entry_at. Qed.

Lemma opening_delivered_lazy k now mf version isolation attested hookError m : own_inv (view m) -> lzi m ->
  lzi (opening_delivered k now mf version isolation attested hookError m).1.
Proof.
  intros O I. unfold opening_delivered. destruct (cm_attempts m !! k) as [a|] eqn:Ha; [|done]. destruct (ca_opening a) eqn:Ho; try done.
  destruct (cm_entries m !! ca_key a) as [e|] eqn:He; [|done]. set (c := cm_next m). set (conn := {| cn_attempt := k; cn_manifest := _; cn_runtimeVersion := _; cn_isolation := _; cn_identityAttested := _ |}).
  set (m0 := cm_set_next _ _). set (m1 := finishOpening k (ca_key a) m0). cbv zeta.
  assert (I1 : lzi m1) by (by apply finish_lazy). destruct (acceptable a e) eqn:Hacc; cbn [negb]; [|by apply refuse_lazy].
  destruct (accepted_fresh k a e m O Ha Ho He Hacc) as (Hp & Hr & Hc). pose proof (lookup_finish k (ca_key a) a m0 Ha) as Ha1. fold m1 in Ha1.
  assert (He1 : exists e1, cm_entries m1 !! ca_key a = Some e1 /\ core e1 = core e) by (eexists; cbn; rewrite lookup_alter_eq, He; by split).
  destruct He1 as (e1 & He1 & [= Er1 _ _]). assert (Hp1 : lazy_public_of (ca_public a) = lp_racing) by (by destruct (ca_public a) as [|[]| | |]).
  set (m2 := on_entry _ _ m1). rewrite lview_then. set (m3 := (then_do _ _).1). assert (E3 : lview key m3 = lview key m2) by (unfold m3; by rewrite lview_then, lview_publish).
  assert (I2 : lzi m2).
  { unfold m2. destruct (decide (ca_key a = key)) as [Ek|]; [|by rewrite on_other_entry]. pose proof (own_key_dialed key n k _ m I Ha Ek) as Had. rewrite Had, Ek in *.
    eapply (racing_entry_inv k _ e1); [done|done|done|done|by rewrite Er1|done|done|done..]. }
  rewrite <- E3 in I2. destruct hookError as [err|]; cbn [fst].
  - apply refuse_lazy. destruct (decide (ca_key a = key)) as [Ek|]; [|by rewrite on_other_entry].
    assert (He3 : exists e3, cm_entries m3 !! key = Some e3 /\ rc_revision e3 = rc_revision e).
    { eexists. split; [cbn; rewrite <- Ek; by rewrite lookup_fmap, lookup_alter_eq, lookup_alter_eq, He|]. unfold announce. repeat case_match; done. }
    destruct He3 as (e3 & He3 & Er3). rewrite Ek. by eapply (racing_entry_inv k _ e3); [done|exact Ha1|done|done|by rewrite Er3|done..].
  - rewrite lview_settle, lview_ownership. by apply race_lazy.
Qed.

Lemma rejected_lazy k err m : lzi m -> lzi (opening_rejected k err m).1.
Proof. intros I. unfold opening_rejected. repeat case_match; try done. by apply failed_lazy. Qed.

Lemma deadline_lazy k m : lzi m -> lzi (connect_deadline k m).1.
Proof. intros I. unfold connect_deadline. repeat case_match; try done. apply abort_lazy. rewrite lview_on_attempt; [done|]. by intros []. Qed.

Lemma adopt_started_lazy k m : lzi m -> lazy_inv key (n + Z.of_nat (opens key m (adopt_started k m).2)) (lview key (adopt_started k m).1).
Proof.
  intros I. unfold adopt_started. destruct (cm_attempts m !! k) as [a|] eqn:Ha; [|by cbn; rewrite Z.add_0_r]. destruct (ca_adopt a) eqn:Had; [|by cbn; rewrite Z.add_0_r].
  assert (Hne : ca_key a <> key) by (intros Ek; pose proof (own_key_dialed key n k a m I Ha Ek); congruence).
  destruct (ca_opening a); try (by cbn; rewrite Z.add_0_r). destruct (was_aborted a); [cbn [opening_failed snd opens]; rewrite Z.add_0_r; by apply failed_lazy|].
  cbn [fst snd opens]. rewrite Ha, bool_decide_false by done. rewrite Z.add_0_r. rewrite (lview_set_attempt _ _ _ a) by done.
  apply (lat_inv key n k (lat a)); try done. by apply lview_attempt.
Qed.

(** ** The caller's promise *)

Lemma read_lazy now k a b c e m : lzi m -> cm_attempts m !! k = Some b -> ca_key a = ca_key b -> ca_adopt a = ca_adopt b -> ca_public b = pb_settling (Ok c) ->
  cm_entries m !! ca_key a = Some e -> lzi (readHostedAgents now k a e m).1.
Proof.
  intros I Hb Ek Ea Hp He. unfold readHostedAgents. assert (Hn : lazy_public_of (ca_public b) <> lp_done) by (by rewrite Hp). destruct (rc_connection e) as [d|] eqn:Hc.
  - assert (Hlive : forall m', lview key m' = lview key m -> ca_key b = key -> forall x, cm_entries m' !! key = Some x -> rc_connecting x = Some k -> rc_connection x = None -> settled_count n (lent x)).
    { intros m' E Kb x Hx _ Hxc. rewrite Ek, Kb in He. destruct (lview_connected key m m' e E He) as (y & Hy & [= _ Ey _ _ _ _ _]). rewrite Hx in Hy. injection Hy as <-.
      by rewrite Hxc, Hc in Ey. }
    destruct (negb _ || stale a e); [eapply answered_lazy; [done..|by apply Hlive]|].
    pose proof (lview_refresh key now (ca_userId a) (ca_environmentId a) (Some k) false m) as E.
    pose proof (refresh_attempts now (ca_userId a) (ca_environmentId a) (Some k) false m) as Eat.
    destruct (refresh_start now (ca_userId a) (ca_environmentId a) (Some k) false m) as [[m1 es] f]. cbn [fst] in *. rewrite <- Eat in Hb. rewrite <- E in I. destruct f; cbn [fst].
    + rewrite (lview_set_attempt _ _ _ b) by done. eapply past_lazy; [done..|]. by apply Hlive.
    + rewrite lview_then. eapply answered_lazy; [done..|by apply Hlive].
  - cbn [fst]. rewrite (lview_set_attempt _ _ _ b) by done. apply (lat_inv key n k (lat b)); try done; [by apply lview_attempt|].
    intros x _ _ _. unfold pending_count. cbn. by rewrite Hp.
Qed.

(** A failed attempt is counted. *)
Lemma failure_counted now err k a e m : lzi m -> cm_attempts m !! k = Some a -> ca_key a = key -> cm_entries m !! key = Some e -> rc_revision e = ca_revision a ->
  ca_public a = pb_settling (Err err) -> lzi (on_entry key (connect_failed now err) m) /\ settled_count n (lent (connect_failed now err e)).
Proof.
  intros I Ha Ek He Hr Hp. pose proof (lazy_entry_of e m I He) as L. destruct (pending_attempt k a e m I Ha Ek He Hr) as [Hc Hcount]; [by rewrite Hp|].
  unfold pending_count in Hcount. cbn in Hcount. rewrite Hp in Hcount. cbn in Hcount.
  pose proof (lz_dial _ _ _ _ L) as Hd. pose proof (lz_failures _ _ _ _ L) as Hf. cbn in Hd, Hf.
  assert (Hs : settled_count n (lent (connect_failed now err e))).
  { unfold settled_count, connect_failed, retryDeadline. cbn. rewrite Hd. cbn. split; [done|]. intros H5%Z.leb_le. by rewrite H5, orb_true_r. }
  split; [|done]. rewrite (lview_set_entry _ _ e) by done.
  apply (lent_inv key n (lent e)); cbn; try done; [by rewrite He|rewrite Hd; lia|apply L|].
  intros j b Hj _ _ Hcj. assert (j = k) as -> by congruence. rewrite lookup_fmap, Ha in Hj. injection Hj as <-. unfold pending_count. cbn. rewrite Hp, Hd. cbn. lia.
Qed.

Lemma continues_lazy now k m : lzi m -> lazy_op key (MoContinue now k) m = true -> lzi (attempt_continues now k m).1.
Proof.
  intros I Hl. cbn in Hl. unfold attempt_continues. destruct (cm_attempts m !! k) as [a|] eqn:Ha; [|done]. destruct (ca_public a) as [|[c|err]| | |] eqn:Hp; try done;
    destruct (cm_entries m !! ca_key a) as [e|] eqn:He; try done.
  - destruct (ca_adopt a) eqn:Had; [by eapply (read_lazy now k a a)|].
    eapply (read_lazy now k a (ca_set_deadline false a)); [|by apply lookup_on_attempt|done..]. rewrite lview_on_attempt; [done|by intros []].
  - assert (Hn : lazy_public_of (ca_public a) <> lp_done) by (by rewrite Hp). destruct (ca_adopt a) eqn:Had; rewrite lview_then.
    + assert (Hne : ca_key a <> key) by (intros Ek; pose proof (own_key_dialed key n k a m I Ha Ek); congruence).
      destruct (stale a e); cbn [fst]; (eapply (answered_lazy key n k a a); [|done..]); [done|]. by rewrite lview_publish, on_other_entry.
    + destruct (stale a e) eqn:Hs; cbn [fst].
      * eapply (answered_lazy key n k a a); [done..|]. intros Ek x Hx Hcx. rewrite <- Ek, He in Hx. injection Hx as <-.
        rewrite Ek in He. destruct (pending_revision k a e m I Ha He Hcx) as [_ Hr]. unfold stale in Hs. rewrite Hr, Z.eqb_refl in Hs. done.
      * apply negb_false_iff, Z.eqb_eq in Hs. destruct (decide (ca_key a = key)) as [Ek|Hne].
        -- rewrite bool_decide_true in Hl by done. cbn in Hl. apply negb_true_iff in Hl. rewrite Hl. rewrite Ek in *.
           destruct (failure_counted now err k a e m I Ha Ek He Hs Hp) as [I1 Hset].
           eapply (answered_lazy key n k a a); [by rewrite lview_publish|done..|]. intros _ x Hx _ _.
           set (m1 := on_entry key (connect_failed now err) m) in *. assert (He1 : cm_entries m1 !! key = Some (connect_failed now err e)) by (cbn; by rewrite lookup_alter_eq, He).
           destruct (lview_connected key _ _ _ (lview_publish key (ca_userId a) m1) He1) as (y & Hy & Ey).
           rewrite Hx in Hy. injection Hy as <-. by rewrite Ey.
        -- eapply (answered_lazy key n k a a); [|done..]. by rewrite lview_publish, on_other_entry.
Qed.

Lemma finally_lazy k m : lzi m -> lzi (attempt_finally k m).1.
Proof.
  intros I. unfold attempt_finally. destruct (cm_attempts m !! k) as [a|] eqn:Ha; [|done]. destruct (ca_public a) eqn:Hp; try done. cbn [fst].
  match goal with |- context [on_entry _ ?g m] => set (f := g) end. rewrite (lview_set_attempt _ _ _ a) by done. destruct (decide (ca_key a = key)) as [Ek|Hne].
  - destruct (cm_entries m !! key) as [e|] eqn:He.
    + rewrite Ek, (lview_set_entry _ _ e) by done.
      refine (eq_ind _ (lazy_inv key n) (finish_inv key n k (lat a) _ I (lview_attempt _ _ _ _ Ha) _ Ek (lent e) (lent (f e)) _ _) _ _); [cbn; by rewrite Hp|cbn; by rewrite He| |done].
      unfold f. repeat case_bool_decide; try done.
    + unfold lazy_inv in I. cbn [lv_entry lview] in I. rewrite He in I. destruct I as [_ I]. by destruct (I k (lat a) (lview_attempt _ _ _ _ Ha)).
  - rewrite on_other_entry by done. apply (lat_inv key n k (lat a)); try done. by apply lview_attempt.
Qed.

(** ** Losing *)

(** What closing the connection leaves on the entry that gave it up. *)
Lemma given_up key' e c r m : cm_entries m !! key' = Some e -> exists e', cm_entries (closeConnection key' c r (on_entry key' (rc_set_connection None) m)).1 !! key' = Some e' /\
  lent e' = lent (rc_set_connection None e) /\ rc_connectedAtMs e' = rc_connectedAtMs e.
Proof. intros He. unfold closeConnection. case_bool_decide; cbn; rewrite ?lookup_alter_eq, He; by eexists. Qed.

(** A connection that did not last counts as a failure. *)
Lemma loss_counted now e e' m : own_inv (view m) -> lzi m -> cm_entries m !! key = Some e -> is_Some (rc_connection e) -> lent e' = lent (rc_set_connection None e) ->
  now - default 0 (rc_connectedAtMs e') <? HEALTHY_CONNECTION_MS = true -> lazy_inv key n (set_lent (lent (lost_connection now e')) (lview key m)).
Proof.
  intros O I He [c Hc] Ee Hh. pose proof (lazy_entry_of e m I He) as L. destruct (lz_live _ _ _ _ L) as [Hf5 Hn]; [cbn; by rewrite Hc|]. cbn in Hf5, Hn.
  pose proof (lz_dial _ _ _ _ L) as Hd. pose proof (lz_failures _ _ _ _ L) as Hf. pose proof (lz_expected _ _ _ _ L) as Hx. cbn in Hd, Hf, Hx.
  unfold lent in Ee. cbn in Ee. injection Ee as E1 E2 E3 E4 E5 E6 E7. unfold lost_connection. rewrite E7, Hx. cbv zeta. rewrite E6, Hd.
  apply Z.ltb_lt in Hh. rewrite (proj2 (Z.leb_gt _ _) Hh). rewrite E4.
  assert (Hs : MAX_RECONNECT_ATTEMPTS <= rc_failureCount e + 1 -> retryDeadline now (rc_failureCount e + 1) UNAVAILABLE false = Never).
  { intros H5%Z.leb_le. unfold retryDeadline. by rewrite H5, orb_true_r. }
  assert (Ec : rc_connection e' = None) by (by destruct (rc_connection e')).
  apply (lent_inv key n (lent e)); cbn; rewrite ?E1, ?E3, ?E6, ?E7, ?Ec; try done; [by rewrite He|lia|].
  intros k a Hk Kk Rk Hck. unfold pending_count. cbn. rewrite Hc, Ec. destruct (la_public a) eqn:Hp; try done; [|lia].
  exfalso. rewrite lookup_fmap in Hk. destruct (cm_attempts m !! k) as [b|] eqn:Hb; [|done]. injection Hk as <-. cbn in Hp, Kk, Rk.
  assert (Hr : public_of (ca_public b) = ou_racing) by (by destruct (ca_public b) as [|[]| | |]).
  rewrite <- Kk in He. pose proof (oi_failed _ O k (acore b) (core e) (view_attempt _ _ _ Hb) (or_intror Hr) (view_entry _ _ _ He) (eq_sym Rk)) as H. cbn in H. congruence.
Qed.

Lemma unavailable_lazy now k m : own_inv (view m) -> lzi m -> lazy_op key (MoUnavailable now k) m = true -> lzi (attempt_unavailable now k m).1.
Proof.
  intros O I Hl. cbn in Hl. unfold attempt_unavailable. destruct (cm_attempts m !! k) as [a|] eqn:Ha; [|done]. cbv zeta. set (m1 := on_attempt k _ m).
  assert (E1 : lview key m1 = lview key m) by (apply lview_on_attempt; by intros []). destruct (cm_entries m1 !! ca_key a) as [e|] eqn:He; [|by cbn [fst]; rewrite E1].
  destruct (rc_connection e) as [c|] eqn:Hc; [|by cbn [fst]; rewrite E1]. destruct (stale a e); [by cbn [fst]; rewrite E1|]. rewrite lview_then, lview_publish.
  destruct (decide (ca_key a = key)) as [Ek|Hne]; [|by rewrite on_other_entry, lview_close, on_other_entry, E1]. rewrite Ek in *. rewrite bool_decide_true in Hl by done. cbn in Hl.
  destruct (given_up key e c cr_none m1 He) as (e' & He' & Ee & Et). change (cm_entries m !! key = Some e) in He. rewrite He, <- Et in Hl.
  rewrite (lview_set_entry _ _ e') by done. rewrite lview_close, (lview_set_entry _ _ e) by done. rewrite E1.
  change (lazy_inv key n (set_lent (lent (lost_connection now e')) (lview key m))). eapply loss_counted; [done..|by rewrite Hc|done|done].
Qed.

(** ** Elsewhere *)

Lemma release_lazy x m : x <> key -> lzi m -> lzi (release x m).1.
Proof.
  intros Hne I. unfold release. destruct (cm_entries m !! x) as [e|]; [|done]. cbv zeta. rewrite lview_then. set (m1 := bound_openings _ _).
  assert (I1 : lzi m1) by (unfold m1; by rewrite lview_bound, on_other_entry). match goal with |- lzi (release_waits _ _ _ ?p).1 => change (lzi p) end. rewrite lview_then.
  destruct (rc_connection e); [rewrite lview_close|cbn [fst]]; (destruct (rc_abort e); [by apply abort_lazy|done]).
Qed.

Lemma disconnect_lazy u env m : connectionKey u env <> key -> lzi m -> lzi (disconnect u env m).1.
Proof. intros Hne I. unfold disconnect. rewrite lview_then. cbn [fst]. destruct (cm_entries m !! _); [|done]. rewrite lview_then, lview_publish. by apply release_lazy. Qed.

Lemma disconnectIfCurrent_lazy u env c m : connectionKey u env <> key -> lzi m -> lzi (disconnectIfCurrent u env c m).1.1.
Proof.
  intros Hne I. unfold disconnectIfCurrent. destruct (cm_entries m !! _); [|done]. case_bool_decide; [|done]. cbn [fst]. rewrite lview_then, lview_publish. by apply release_lazy.
Qed.

Lemma supersede_lazy x c k m : lzi m -> lzi (supersede x c k m).1.
Proof. intros I. unfold supersede. rewrite lview_then. destruct c, k; cbn [fst]; try (apply abort_lazy); by rewrite ?lview_close. Qed.

Lemma adopt_resolved_lazy i answer m : own_inv (view m) -> lzi m -> lazy_op key (MoAdoptResolved i answer) m = true -> lzi (adopt_resolved i answer m).1.
Proof.
  intros O I Hl. cbn in Hl. unfold adopt_resolved. destruct (cm_adopts m !! i) as [[u env]|] eqn:Hi; [|done].
  apply negb_true_iff, bool_decide_eq_false in Hl. destruct answer as [[d|]|]; try done. cbv zeta. destruct (_ || _); [done|]. rewrite lview_then, lview_publish.
  match goal with |- lzi (supersede _ _ _ ?x).1 => set (m1 := x) end. assert (I1 : lzi m1).
  { unfold m1. rewrite lview_add, lview_put, bool_decide_false by done. apply other_lazy; [done| |done]. cbn. rewrite lookup_fmap.
    destruct (cm_attempts m !! cm_next m) as [a|] eqn:Ha; [|done]. pose proof (oi_attempt_fresh _ O _ _ (view_attempt _ _ _ Ha)) as H. cbn in H. lia. }
  by apply supersede_lazy.
Qed.

Lemma refresh_over_lazy call m : lzi m -> lzi (refresh_over call m).1.
Proof.
  intros I. unfold refresh_over. set (m1 := if rf_background call then _ else m).
  assert (E : lview key m1 = lview key m) by (subst m1; destruct (rf_background call); [by rewrite lview_on_entry|done]).
  rewrite <- E in I. clearbody m1. destruct (rf_reader call) as [k|]; [|done]. destruct (cm_attempts m1 !! k) as [a|] eqn:Ha; [|done].
  destruct (ca_public a) eqn:Hp; try done. eapply (answered_lazy key n k a a); [done..|by rewrite Hp|]. intros Ek e He Hc Hn.
  destruct (pending_revision k a e m1 I Ha He Hc) as [_ Hr]. destruct (pending_attempt k a e m1 I Ha Ek He Hr) as [_ Hcount]; [by rewrite Hp|].
  unfold pending_count in Hcount. cbn in Hcount. rewrite Hp in Hcount. apply Hcount. by rewrite Hn.
Qed.

Lemma health_lazy f answer m : lzi m -> lzi (health_answered f answer m).1.
Proof.
  intros I. unfold health_answered. destruct (cm_refreshes m !! f) as [call|]; [|done]. rewrite lview_then. apply refresh_over_lazy.
  destruct answer; [|done]. case_match; [|done]. by rewrite lview_health.
Qed.

Lemma clearExpected_lazy u env m : lzi m -> lzi (clearExpectedUpdateDisconnect u env m).1.
Proof.
  intros I. unfold clearExpectedUpdateDisconnect. destruct (cm_entries m !! _) as [e|]; [|done]. rewrite lview_publish, lview_entry_at; [done|]. intros x _ Hx.
  pose proof (lz_expected _ _ _ _ (lazy_entry_of x m I Hx)) as E. unfold lent in *. cbn in *. by rewrite E.
Qed.

End ops.

(** Operations that leave the view alone *)

Lemma lview_stale key now u env m : lview key (refreshManifestIfStale now u env m).1 = lview key m.
Proof.
  unfold refreshManifestIfStale. destruct (cm_entries m !! _); [|done]. destruct (negb _ || _); [done|]. destruct (_ <? _); [done|].
  pose proof (lview_refresh key now u env None true m) as E. destruct (refresh_start now u env None true m) as [[m1 es] [f|]]; cbn [fst] in *; [|done]. by rewrite lview_on_entry.
Qed.

Lemma lview_phase key k ph m : lview key (reportPhase k ph m).1 = lview key m.
Proof. unfold reportPhase. repeat case_match; try done; rewrite ?lview_then; cbn [fst]; by rewrite lview_publish, lview_on_entry. Qed.

Lemma lview_clearHealth key u env m : lview key (clearHealth u env m).1 = lview key m.
Proof. unfold clearHealth. rewrite lview_then. cbn [fst]. destruct (cm_entries m !! _); [|done]. cbv zeta. destruct (negb _); [done|]. cbn [fst]. by rewrite lview_on_entry. Qed.

Lemma lview_close_settled key c ok m : lview key (close_settled c ok m).1 = lview key m.
Proof. unfold close_settled. repeat case_match; try done; cbn [fst]; by rewrite ?lview_settle, ?lview_ownership, ?lview_settle. Qed.

Lemma lview_release_settled key r m : lview key (release_settled r m) = lview key m.
Proof. unfold release_settled. repeat case_match; try done; (rewrite lview_on_entry; [done|]; intros _ e; by case_bool_decide). Qed.

Lemma lview_expired key k m : lview key (opening_expired k m) = lview key m.
Proof. unfold opening_expired. repeat case_match; try done. rewrite lview_settle, lview_on_attempt by (by intros []). by rewrite lview_on_entry. Qed.

Lemma lview_waiter key w m : lview key (waiter_done w m) = lview key m.
Proof.
  unfold waiter_done. destruct (cm_waiters m !! w) as [[x ?]|]; [|done].
  match goal with |- lview _ (cm_set_waiters _ (on_entry _ ?f m)) = _ => change (lview key (on_entry x f m) = lview key m) end. by rewrite lview_on_entry.
Qed.

Lemma lview_adopt_call key u env m : lview key (adopt_call u env m) = lview key m.
Proof. unfold adopt_call. by case_match. Qed.

(** ** Only two operations open *)

Definition not_open (x : manager_effect) : Prop := match x with MgOpen _ => False | _ => True end.
Notation quiet p := (Forall not_open (snd p)).

Lemma quiet_opens key m es : Forall not_open es -> opens key m es = 0%nat.
Proof. induction 1 as [|[] es He _ IH]; [done|destruct He|done..]. Qed.

Lemma quiet_then p f : quiet p -> (forall m, quiet (f m)) -> quiet (then_do p f).
Proof. destruct p as [m es]. intros Hp Hf. cbn in *. specialize (Hf m). destruct (f m) as [m' es']. cbn in *. by apply Forall_app. Qed.

Lemma quiet_publish u m : quiet (publish u m).
Proof. cbn. apply Forall_app. split; [|by constructor]. induction (cm_keys m) as [|k ks IH]; cbn; [done|]. apply Forall_app. split; [|done]. unfold transition_of. repeat case_match; by repeat constructor. Qed.

Ltac quiet := repeat first [apply quiet_publish | apply quiet_then; [|intros ?] | progress cbn [fst snd] | case_match]; by repeat constructor.

Lemma quiet_close x c r m : quiet (closeConnection x c r m).
Proof. unfold closeConnection. quiet. Qed.

Lemma quiet_abort k r m : quiet (abort_attempt k r m).
Proof. unfold abort_attempt. quiet. Qed.

Lemma quiet_refuse k a c err m : quiet (refuse_connection k a c err m).
Proof. apply quiet_close. Qed.

Lemma quiet_answered k a o m : quiet (attempt_answered k a o m).
Proof. unfold attempt_answered. quiet. Qed.

Lemma quiet_connect now u env force m : quiet (connect now u env force m).1.
Proof. unfold connect, connect_entry. cbv zeta. repeat first [case_match | progress cbn [fst]]; try (by constructor); apply quiet_publish. Qed.

Lemma quiet_refresh now u env reader bg m : quiet (refresh_start now u env reader bg m).1.
Proof. unfold refresh_start. quiet. Qed.

Lemma quiet_release x m : quiet (release x m).
Proof.
  unfold release. destruct (cm_entries m !! x) as [e|]; [|by constructor]. cbv zeta. apply quiet_then; [apply quiet_then|].
  - destruct (rc_abort e); [apply quiet_abort|by constructor].
  - intros m'. destruct (rc_connection e); [apply quiet_close|by constructor].
  - intros m'. by constructor.
Qed.

Lemma quiet_release_all xs m : quiet (release_all xs m).
Proof. revert m. induction xs as [|x xs IH]; intros m; [by constructor|]. cbn [release_all]. apply quiet_then; [apply quiet_release|apply IH]. Qed.

Lemma quiet_shutdown m : quiet (shutdown m).
Proof.
  unfold shutdown, closeAll. destruct (cm_shutdown m); [by constructor|]. pose proof (quiet_release_all (cm_keys (cm_set_shutdown (Some []) m)) (cm_set_shutdown (Some []) m)) as H.
  by destruct (release_all _ _).
Qed.

Lemma quiet_delivered k now mf version isolation attested hookError m : quiet (opening_delivered k now mf version isolation attested hookError m).
Proof.
  unfold opening_delivered. destruct (cm_attempts m !! k) as [a|]; [|by constructor]. destruct (ca_opening a); try (by constructor). destruct (cm_entries m !! ca_key a); [|by constructor].
  cbv zeta. destruct (negb _); [apply quiet_refuse|]. apply quiet_then; [apply quiet_then; [by repeat constructor|intros; apply quiet_publish]|].
  intros m'. destruct hookError; [apply quiet_refuse|by constructor].
Qed.

Lemma quiet_read now k a e m : quiet (readHostedAgents now k a e m).
Proof.
  unfold readHostedAgents. destruct (rc_connection e); [|by constructor]. destruct (negb _ || _); [apply quiet_answered|].
  pose proof (quiet_refresh now (ca_userId a) (ca_environmentId a) (Some k) false m) as H. destruct (refresh_start _ _ _ _ _ _) as [[m1 es] [f|]]; [done|].
  apply quiet_then; [done|]. intros; apply quiet_answered.
Qed.

Lemma quiet_continues now k m : quiet (attempt_continues now k m).
Proof.
  unfold attempt_continues. destruct (cm_attempts m !! k) as [a|]; [|by constructor]. destruct (ca_public a) as [|[]| | |]; try (by constructor);
    destruct (cm_entries m !! ca_key a); try (by constructor); [apply quiet_read|]. destruct (ca_adopt a); (apply quiet_then; [|intros; apply quiet_answered]);
    (destruct (stale _ _); [by constructor|apply quiet_publish]).
Qed.

Lemma quiet_health f answer m : quiet (health_answered f answer m).
Proof.
  unfold health_answered. destruct (cm_refreshes m !! f) as [call|]; [|by constructor]. apply quiet_then.
  - destruct answer; [|by constructor]. case_match; [|by constructor]. unfold apply_health. repeat case_match; try (by constructor);
      (apply quiet_then; [by repeat constructor|intros; first [apply quiet_publish|by constructor]]).
  - intros m'. unfold refresh_over. cbv zeta. repeat case_match; try (by constructor); apply quiet_answered.
Qed.

Lemma quiet_adopt i answer m : quiet (adopt_resolved i answer m).
Proof.
  unfold adopt_resolved, supersede. destruct (cm_adopts m !! i) as [[u env]|]; [|by constructor]. destruct answer as [[d|]|]; try (by constructor). cbv zeta.
  destruct (_ || _); [by constructor|]. apply quiet_then; [apply quiet_then|intros; apply quiet_publish].
  - destruct (rc_connection _); [apply quiet_close|by constructor].
  - intros. destruct (rc_abort _); [apply quiet_abort|by constructor].
Qed.

(** ** Steps and runs *)

Definition may_open (o : manager_op) : bool := match o with MoResolved _ _ | MoAdoptStarted _ => true | _ => false end.

Lemma quiet_step o m : may_open o = false -> quiet (manager_step o m).
Proof.
  destruct o; cbn [may_open manager_step]; try done; intros _; try (by constructor).
  - apply quiet_connect.
  - unfold connectInteractive. pose proof (quiet_connect now userId environmentId true m) as H. destruct (connect _ _ _ _ _) as [[m1 es] ans]. cbn in H. by repeat case_match.
  - unfold connect_deadline. repeat case_match; try (by constructor). apply quiet_abort.
  - unfold reportPhase. repeat case_match; try (by constructor); try apply quiet_publish. apply quiet_then; [apply quiet_publish|]. intros; cbn. apply Forall_fmap, Forall_forall. done.
  - apply quiet_adopt.
  - apply quiet_delivered.
  - unfold opening_rejected. repeat case_match; by constructor.
  - apply quiet_continues.
  - unfold attempt_finally. quiet.
  - unfold attempt_unavailable. repeat case_match; try (by constructor). apply quiet_then; [apply quiet_close|intros; apply quiet_publish].
  - unfold close_settled. repeat case_match; by constructor.
  - unfold disconnect. apply quiet_then; [by repeat constructor|]. intros m'. case_match; [|by constructor]. apply quiet_then; [apply quiet_release|intros; apply quiet_publish].
  - unfold disconnectIfCurrent. repeat case_match; try (by constructor). apply quiet_then; [apply quiet_release|intros; apply quiet_publish].
  - apply quiet_release_all.
  - apply quiet_shutdown.
  - unfold expectUpdateDisconnect. quiet.
  - unfold clearExpectedUpdateDisconnect. quiet.
  - unfold clearBackoff. quiet.
  - unfold clearHealth. quiet.
  - apply quiet_refresh.
  - unfold refreshManifestIfStale. repeat case_match; try (by constructor).
    all: match goal with H : refresh_start ?a ?b ?c ?d ?e ?f = _ |- _ => pose proof (quiet_refresh a b c d e f) as Q; by rewrite H in Q end.
  - apply quiet_health.
Qed.

Lemma lazy_step_quiet key n o m : own_inv (view m) -> lazy_inv key n (lview key m) -> lazy_op key o m = true -> may_open o = false -> lazy_inv key n (lview key (manager_step o m).1).
Proof.
  intros O I Hl Hm. destruct o; cbn [manager_step fst may_open] in *; try done;
    try (cbn in Hl; apply negb_true_iff, bool_decide_eq_false in Hl).
  - by apply connect_lazy.
  - by apply interactive_lazy.
  - by rewrite lview_waiter.
  - by apply deadline_lazy.
  - by rewrite lview_phase.
  - by rewrite lview_adopt_call.
  - by apply adopt_resolved_lazy.
  - by apply opening_delivered_lazy.
  - by apply rejected_lazy.
  - by rewrite lview_expired.
  - by apply continues_lazy.
  - by apply finally_lazy.
  - by apply unavailable_lazy.
  - by rewrite lview_close_settled.
  - by rewrite lview_release_settled.
  - by apply disconnect_lazy.
  - by apply disconnectIfCurrent_lazy.
  - unfold expectUpdateDisconnect. case_match; [|done]. by rewrite lview_publish, on_other_entry.
  - by apply clearExpected_lazy.
  - unfold clearBackoff. repeat case_match; try done. by rewrite lview_publish, on_other_entry.
  - by rewrite lview_clearHealth.
  - by rewrite lview_refresh.
  - by rewrite lview_stale.
  - by apply health_lazy.
Qed.

Lemma lazy_step key n o m : own_inv (view m) -> lazy_inv key n (lview key m) -> lazy_op key o m = true ->
  lazy_inv key (n + Z.of_nat (opens key m (manager_step o m).2)) (lview key (manager_step o m).1).
Proof.
  intros O I Hl. destruct (may_open o) eqn:Hm.
  - destruct o; try done; cbn [manager_step]; [by apply connect_resolved_lazy|by apply adopt_started_lazy].
  - rewrite (quiet_opens _ _ _ (quiet_step o m Hm)), Z.add_0_r. by apply lazy_step_quiet.
Qed.

Lemma lazy_bound key n v : lazy_inv key n v -> n <= MAX_RECONNECT_ATTEMPTS.
Proof. unfold lazy_inv. destruct (lv_entry v); [by intros []|intros [-> _]]. unfold MAX_RECONNECT_ATTEMPTS. lia. Qed.

Lemma lazy_run_bound key os n m : own_inv (view m) -> lazy_inv key n (lview key m) -> lazy_run key os m = true -> n + Z.of_nat (run_opens key os m) <= MAX_RECONNECT_ATTEMPTS.
Proof.
  revert n m. induction os as [|o os IH]; intros n m O I Hl; cbn [run_opens].
  - rewrite Z.add_0_r. by eapply lazy_bound.
  - cbn [lazy_run] in Hl. apply andb_true_iff in Hl as [H1 H2]. rewrite Nat2Z.inj_add, Z.add_assoc. apply IH; [by apply manager_step_inv|by apply lazy_step|done].
Qed.

Lemma new_manager_lazy key cfg : lazy_inv key 0 (lview key (new_manager cfg)).
Proof. unfold lazy_inv. cbn. split; [done|]. intros k a. by rewrite fmap_empty, lookup_empty. Qed.

(** C6: take an environment that is not reached by a runtime dialling in. While nobody connects it by hand, resets it, adopts
    its runtime or announces an update of it, no connection of it lasts ten seconds and no runtime refuses it as bound
    elsewhere, its connector is called at most [MAX_RECONNECT_ATTEMPTS] times, over any number of lazy connects and any
    interleaving with rejections, deadlines, losses, health reads and whatever happens to other environments: a runtime that
    dies on arrival is not relaunched for ever. *)
Theorem crash_loop_bounded (cfg : manager_config) (key : jstring) (os : list manager_op) :
  lazy_run key os (new_manager cfg) = true -> Z.of_nat (run_opens key os (new_manager cfg)) <= MAX_RECONNECT_ATTEMPTS.
Proof. intros Hl. exact (lazy_run_bound key os 0 _ (new_manager_inv cfg) (new_manager_lazy key cfg) Hl). Qed.

(** A runtime that starts and dies at once, asked for a minute apart; an attempt and its connection take two numbers. *)
Fixpoint crash_loop (times : nat) (now : Z) (k : nat) : list manager_op :=
  match times with
  | O => []
  | S rest =>
      [MoConnect now (js "u") (js "box") false; MoResolved k (Ok (Some stdio_definition)); MoDelivered k now plain_manifest (js "1.0.0") None false None;
       MoContinue now k; MoFinally k; MoUnavailable (now + 1) k; MoCloseSettled (S k) true] ++ crash_loop rest (now + 60000) (S (S k))
  end.

Lemma crash_loop_bounded_witness :
  let os := crash_loop 8 0 0 in
  Z.of_nat (run_opens (connectionKey (js "u") (js "box")) os (new_manager plain_config)) <= MAX_RECONNECT_ATTEMPTS /\
  run_opens (connectionKey (js "u") (js "box")) os (new_manager plain_config) = 5%nat.
Proof. split; [apply crash_loop_bounded; vm_compute; reflexivity|vm_compute; reflexivity]. Defined.
