(* ===== verification/ExternalSessions.v ===== *)
(** * External agent sessions

    [apps/api/src/modules/external-agents/application/external-session-manager.ts]: the hub's sessions with vendors' agents, one per
    chat, and the tables they are remembered in ([infrastructure/external-session-continuation-repository.ts],
    [infrastructure/external-session-adoption-lease-repository.ts]). A step is a call up to its first await, or the
    continuation of one; what was awaited answers as an input, and a statement of the database takes effect with its answer, so
    calls interleave freely and any statement may fail. Consumers and holds are called back as effects. Configurations,
    toolchains and the texts of errors are left out. *)

From S2P Require Import Prelude MessageParts Sequencer.

(** ** Data *)

Inductive ExternalAgentTargetId : Type := tg_claude | tg_codex | tg_cursor.

Global Instance target_eq_dec : EqDecision ExternalAgentTargetId.
Proof. solve_decision. Defined.

(** [ExternalSessionBinding] *)
Record ExternalSessionBinding : Type := {
  bd_userId : jstring;
  bd_chatId : jstring;
  bd_environmentId : jstring;
  bd_targetId : ExternalAgentTargetId;
  bd_canonicalWorkspacePath : jstring;
  bd_vendorAccountFingerprint : option jstring;
  bd_credentialHomeFingerprint : option jstring;
}.

Definition sameBinding (l r : ExternalSessionBinding) : bool :=
  bool_decide (bd_userId l = bd_userId r) && bool_decide (bd_environmentId l = bd_environmentId r) && bool_decide (bd_targetId l = bd_targetId r)
  && bool_decide (bd_canonicalWorkspacePath l = bd_canonicalWorkspacePath r)
  && bool_decide (bd_vendorAccountFingerprint l = bd_vendorAccountFingerprint r)
  && bool_decide (bd_credentialHomeFingerprint l = bd_credentialHomeFingerprint r).

(** [ExternalSessionContinuation]; the chat it is stored under is part of its binding. *)
Record continuation : Type := {
  ct_binding : ExternalSessionBinding;
  ct_runtimeSessionId : jstring;
  ct_nativeSessionId : jstring;
  ct_updatedAt : Z;
  ct_pendingAdoption : bool;
  ct_unresumable : bool;
}.

Definition continuationMatches (c : continuation) (b : ExternalSessionBinding) : bool := sameBinding (ct_binding c) b.

Record lease : Type := {
  ls_environmentId : jstring;
  ls_targetId : ExternalAgentTargetId;
  ls_nativeSessionId : jstring;
  ls_userId : jstring;
  ls_chatId : jstring;
  ls_acquiredAt : Z;
  ls_expiresAt : Z;
}.

Definition EXTERNAL_ADOPTION_LEASE_TTL_MS : Z := 30 * 60000.
Definition CAPACITY_RETRY_MS : Z := 42000.

(** ** Resuming *)

Inductive ExternalAgentResumeMode : Type := rm_strict | rm_fallback.

(** [EXTERNAL_RESUME_POLICIES] *)
Definition resumePolicy (t : ExternalAgentTargetId) : ExternalAgentResumeMode * bool :=
  match t with tg_claude => (rm_strict, true) | tg_codex => (rm_fallback, false) | tg_cursor => (rm_fallback, false) end.

Definition resumeModeFor (t : ExternalAgentTargetId) (adopted : bool) : ExternalAgentResumeMode := if adopted then rm_strict else (resumePolicy t).1.

Inductive continuation_effect : Type := ce_never | ce_always | ce_by_error_code.

Definition CONTINUATION_EFFECT (r : terminal_reason) : continuation_effect :=
  match r with r_completed => ce_never | r_vendor_error => ce_by_error_code | _ => ce_always end.

Definition FINISHED_TURN_ERROR_CODES : list jstring :=
  [js "claude-error"; js "claude-error_during_execution"; js "claude-error_max_turns"; js "claude-error_max_budget_usd";
   js "claude-error_max_structured_output_retries"].

Definition endLeavesConversationUnresumable (t : ExternalAgentTargetId) (r : terminal_reason) (errorCode : option jstring) (turnAccepted : bool) : bool :=
  if negb (resumePolicy t).2 then false
  else match CONTINUATION_EFFECT r with
       | ce_always => true
       | ce_never => false
       | ce_by_error_code =>
           if negb turnAccepted then false
           else match errorCode with Some c => negb (bool_decide (c ∈ FINISHED_TURN_ERROR_CODES)) | None => true end
       end.

(** ** State *)

(** [ExternalConversationResetReason] *)
Inductive conversation_reset : Type := cv_nonresumable | cv_unavailable.

(** What the runtime answers to an open. *)
Record opened_session : Type := { od_nativeSessionId : jstring; od_resumed : bool; od_fallbackReason : option jstring }.

(** Why a call of [ensureSession] fails: its chat was reaped or the hub is stopping; the store failed; the runtime did. *)
Inductive ensure_error : Type := xr_reaped | xr_store | xr_runtime.

(** What a call of [ensureSession] waits for, once it has started: a reap, the read, the two statements that drop a stale row, the release of a lease
    before a fresh start, the client, the toolchain, the runtime's open, the pause before the next, the write, the lease's
    refresh, the delete and the close of a session nobody wants any more; then its own [finally]. *)
Inductive ensure_stage : Type :=
| es_starting
| es_reaping (reap : nat)
| es_reading
| es_dropping
| es_dropping_lease
| es_fresh
| es_client
| es_toolchain
| es_opening
| es_retrying
| es_writing
| es_refreshing
| es_undoing
| es_closing
| es_settled (o : outcome ensure_error nat)
| es_done (o : outcome ensure_error nat).

(** Where a [reap] is, past its synchronous part. *)
Inductive reap_stage : Type := rs_deleting | rs_releasing | rs_closing | rs_done (ok : bool).

Record reap_call : Type := { rp_chatId : jstring; rp_record : option nat; rp_stage : reap_stage }.

Record mark_call : Type := { mk_chatId : jstring; mk_sessionId : jstring; mk_unresumable : bool }.

(** [ExternalChatHoldScope] *)
Record hold_scope : Type := { hs_chatId : jstring; hs_userId : jstring; hs_environmentId : jstring; hs_targetId : ExternalAgentTargetId }.

(** [SessionRecord] with its [OpenedSession]. [sr_subscribed] until [unsubscribe] has run. *)
Record SessionRecord : Type := {
  sr_sessionId : jstring;
  sr_binding : ExternalSessionBinding;
  sr_client : nat;
  sr_sequencer : Sequencer;
  sr_nativeSessionId : jstring;
  sr_resumed : bool;
  sr_fallbackReason : option jstring;
  sr_conversationReset : option conversation_reset;
  sr_subscribed : bool;
  sr_consumer : option nat;
  sr_closing : bool;
}.

Definition sr_set_sequencer (v : Sequencer) (r : SessionRecord) : SessionRecord :=
  {| sr_sessionId := sr_sessionId r; sr_binding := sr_binding r; sr_client := sr_client r; sr_sequencer := v; sr_nativeSessionId := sr_nativeSessionId
     r; sr_resumed := sr_resumed r; sr_fallbackReason := sr_fallbackReason r; sr_conversationReset := sr_conversationReset r; sr_subscribed :=
     sr_subscribed r; sr_consumer := sr_consumer r; sr_closing := sr_closing r |}.
Definition sr_set_conversationReset (v : option conversation_reset) (r : SessionRecord) : SessionRecord :=
  {| sr_sessionId := sr_sessionId r; sr_binding := sr_binding r; sr_client := sr_client r; sr_sequencer := sr_sequencer r; sr_nativeSessionId :=
     sr_nativeSessionId r; sr_resumed := sr_resumed r; sr_fallbackReason := sr_fallbackReason r; sr_conversationReset := v; sr_subscribed :=
     sr_subscribed r; sr_consumer := sr_consumer r; sr_closing := sr_closing r |}.
Definition sr_set_subscribed (v : bool) (r : SessionRecord) : SessionRecord :=
  {| sr_sessionId := sr_sessionId r; sr_binding := sr_binding r; sr_client := sr_client r; sr_sequencer := sr_sequencer r; sr_nativeSessionId :=
     sr_nativeSessionId r; sr_resumed := sr_resumed r; sr_fallbackReason := sr_fallbackReason r; sr_conversationReset := sr_conversationReset r;
     sr_subscribed := v; sr_consumer := sr_consumer r; sr_closing := sr_closing r |}.
Definition sr_set_consumer (v : option nat) (r : SessionRecord) : SessionRecord :=
  {| sr_sessionId := sr_sessionId r; sr_binding := sr_binding r; sr_client := sr_client r; sr_sequencer := sr_sequencer r; sr_nativeSessionId :=
     sr_nativeSessionId r; sr_resumed := sr_resumed r; sr_fallbackReason := sr_fallbackReason r; sr_conversationReset := sr_conversationReset r;
     sr_subscribed := sr_subscribed r; sr_consumer := v; sr_closing := sr_closing r |}.
Definition sr_set_closing (v : bool) (r : SessionRecord) : SessionRecord :=
  {| sr_sessionId := sr_sessionId r; sr_binding := sr_binding r; sr_client := sr_client r; sr_sequencer := sr_sequencer r; sr_nativeSessionId :=
     sr_nativeSessionId r; sr_resumed := sr_resumed r; sr_fallbackReason := sr_fallbackReason r; sr_conversationReset := sr_conversationReset r;
     sr_subscribed := sr_subscribed r; sr_consumer := sr_consumer r; sr_closing := v |}.

(** One call of the inner [ensureSession], with the locals of [openSession]. *)
Record ensure_call : Type := {
  ec_input : ExternalSessionBinding;
  ec_existingOnly : bool;
  ec_stage : ensure_stage;
  ec_generation : Z;
  ec_matching : option continuation;
  ec_startsFresh : bool;
  ec_client : nat;
  ec_sessionId : jstring;
  ec_deadline : Z;
  ec_record : option nat;
  ec_now : Z;
}.

Definition ec_set_stage (v : ensure_stage) (c : ensure_call) : ensure_call :=
  {| ec_input := ec_input c; ec_existingOnly := ec_existingOnly c; ec_stage := v; ec_generation := ec_generation c; ec_matching := ec_matching c;
     ec_startsFresh := ec_startsFresh c; ec_client := ec_client c; ec_sessionId := ec_sessionId c; ec_deadline := ec_deadline c; ec_record :=
     ec_record c; ec_now := ec_now c |}.
Definition ec_set_generation (v : Z) (c : ensure_call) : ensure_call :=
  {| ec_input := ec_input c; ec_existingOnly := ec_existingOnly c; ec_stage := ec_stage c; ec_generation := v; ec_matching := ec_matching c;
     ec_startsFresh := ec_startsFresh c; ec_client := ec_client c; ec_sessionId := ec_sessionId c; ec_deadline := ec_deadline c; ec_record :=
     ec_record c; ec_now := ec_now c |}.
Definition ec_set_matching (v : option continuation) (c : ensure_call) : ensure_call :=
  {| ec_input := ec_input c; ec_existingOnly := ec_existingOnly c; ec_stage := ec_stage c; ec_generation := ec_generation c; ec_matching := v;
     ec_startsFresh := ec_startsFresh c; ec_client := ec_client c; ec_sessionId := ec_sessionId c; ec_deadline := ec_deadline c; ec_record :=
     ec_record c; ec_now := ec_now c |}.
Definition ec_set_startsFresh (v : bool) (c : ensure_call) : ensure_call :=
  {| ec_input := ec_input c; ec_existingOnly := ec_existingOnly c; ec_stage := ec_stage c; ec_generation := ec_generation c; ec_matching :=
     ec_matching c; ec_startsFresh := v; ec_client := ec_client c; ec_sessionId := ec_sessionId c; ec_deadline := ec_deadline c; ec_record :=
     ec_record c; ec_now := ec_now c |}.
Definition ec_set_client (v : nat) (c : ensure_call) : ensure_call :=
  {| ec_input := ec_input c; ec_existingOnly := ec_existingOnly c; ec_stage := ec_stage c; ec_generation := ec_generation c; ec_matching :=
     ec_matching c; ec_startsFresh := ec_startsFresh c; ec_client := v; ec_sessionId := ec_sessionId c; ec_deadline := ec_deadline c; ec_record :=
     ec_record c; ec_now := ec_now c |}.
Definition ec_set_sessionId (v : jstring) (c : ensure_call) : ensure_call :=
  {| ec_input := ec_input c; ec_existingOnly := ec_existingOnly c; ec_stage := ec_stage c; ec_generation := ec_generation c; ec_matching :=
     ec_matching c; ec_startsFresh := ec_startsFresh c; ec_client := ec_client c; ec_sessionId := v; ec_deadline := ec_deadline c; ec_record :=
     ec_record c; ec_now := ec_now c |}.
Definition ec_set_deadline (v : Z) (c : ensure_call) : ensure_call :=
  {| ec_input := ec_input c; ec_existingOnly := ec_existingOnly c; ec_stage := ec_stage c; ec_generation := ec_generation c; ec_matching :=
     ec_matching c; ec_startsFresh := ec_startsFresh c; ec_client := ec_client c; ec_sessionId := ec_sessionId c; ec_deadline := v; ec_record :=
     ec_record c; ec_now := ec_now c |}.
Definition ec_set_record (v : option nat) (c : ensure_call) : ensure_call :=
  {| ec_input := ec_input c; ec_existingOnly := ec_existingOnly c; ec_stage := ec_stage c; ec_generation := ec_generation c; ec_matching :=
     ec_matching c; ec_startsFresh := ec_startsFresh c; ec_client := ec_client c; ec_sessionId := ec_sessionId c; ec_deadline := ec_deadline c;
     ec_record := v; ec_now := ec_now c |}.
Definition ec_set_now (v : Z) (c : ensure_call) : ensure_call :=
  {| ec_input := ec_input c; ec_existingOnly := ec_existingOnly c; ec_stage := ec_stage c; ec_generation := ec_generation c; ec_matching :=
     ec_matching c; ec_startsFresh := ec_startsFresh c; ec_client := ec_client c; ec_sessionId := ec_sessionId c; ec_deadline := ec_deadline c;
     ec_record := ec_record c; ec_now := v |}.

(** The variables of [createExternalSessionManager], the objects and calls there are, and the two tables of the database.
    Records, calls, waiters, reaps and marks share one counter. *)
Record session_manager : Type := {
  xm_sessions : gmap jstring nat;
  xm_holds : gmap jstring (list (nat * hold_scope));
  xm_shuttingDown : option terminal_reason;
  xm_opening : gmap jstring nat;
  xm_reapGenerations : gmap jstring Z;
  xm_unwrittenMarks : gmap jstring jstring;
  xm_records : gmap nat SessionRecord;
  xm_calls : gmap nat ensure_call;
  xm_waiters : gmap nat (ExternalSessionBinding * bool * nat);
  xm_reaps : gmap nat reap_call;
  xm_marks : gmap nat mark_call;
  xm_rows : gmap jstring continuation;
  xm_leases : list lease;
  xm_next : nat;
}.

Definition xm_set_sessions (v : gmap jstring nat) (m : session_manager) : session_manager :=
  {| xm_sessions := v; xm_holds := xm_holds m; xm_shuttingDown := xm_shuttingDown m; xm_opening := xm_opening m; xm_reapGenerations :=
     xm_reapGenerations m; xm_unwrittenMarks := xm_unwrittenMarks m; xm_records := xm_records m; xm_calls := xm_calls m; xm_waiters := xm_waiters m;
     xm_reaps := xm_reaps m; xm_marks := xm_marks m; xm_rows := xm_rows m; xm_leases := xm_leases m; xm_next := xm_next m |}.
Definition xm_set_holds (v : gmap jstring (list (nat * hold_scope))) (m : session_manager) : session_manager :=
  {| xm_sessions := xm_sessions m; xm_holds := v; xm_shuttingDown := xm_shuttingDown m; xm_opening := xm_opening m; xm_reapGenerations :=
     xm_reapGenerations m; xm_unwrittenMarks := xm_unwrittenMarks m; xm_records := xm_records m; xm_calls := xm_calls m; xm_waiters := xm_waiters m;
     xm_reaps := xm_reaps m; xm_marks := xm_marks m; xm_rows := xm_rows m; xm_leases := xm_leases m; xm_next := xm_next m |}.
Definition xm_set_shuttingDown (v : option terminal_reason) (m : session_manager) : session_manager :=
  {| xm_sessions := xm_sessions m; xm_holds := xm_holds m; xm_shuttingDown := v; xm_opening := xm_opening m; xm_reapGenerations := xm_reapGenerations
     m; xm_unwrittenMarks := xm_unwrittenMarks m; xm_records := xm_records m; xm_calls := xm_calls m; xm_waiters := xm_waiters m; xm_reaps := xm_reaps
     m; xm_marks := xm_marks m; xm_rows := xm_rows m; xm_leases := xm_leases m; xm_next := xm_next m |}.
Definition xm_set_opening (v : gmap jstring nat) (m : session_manager) : session_manager :=
  {| xm_sessions := xm_sessions m; xm_holds := xm_holds m; xm_shuttingDown := xm_shuttingDown m; xm_opening := v; xm_reapGenerations :=
     xm_reapGenerations m; xm_unwrittenMarks := xm_unwrittenMarks m; xm_records := xm_records m; xm_calls := xm_calls m; xm_waiters := xm_waiters m;
     xm_reaps := xm_reaps m; xm_marks := xm_marks m; xm_rows := xm_rows m; xm_leases := xm_leases m; xm_next := xm_next m |}.
Definition xm_set_reapGenerations (v : gmap jstring Z) (m : session_manager) : session_manager :=
  {| xm_sessions := xm_sessions m; xm_holds := xm_holds m; xm_shuttingDown := xm_shuttingDown m; xm_opening := xm_opening m; xm_reapGenerations := v;
     xm_unwrittenMarks := xm_unwrittenMarks m; xm_records := xm_records m; xm_calls := xm_calls m; xm_waiters := xm_waiters m; xm_reaps := xm_reaps m;
     xm_marks := xm_marks m; xm_rows := xm_rows m; xm_leases := xm_leases m; xm_next := xm_next m |}.
Definition xm_set_unwrittenMarks (v : gmap jstring jstring) (m : session_manager) : session_manager :=
  {| xm_sessions := xm_sessions m; xm_holds := xm_holds m; xm_shuttingDown := xm_shuttingDown m; xm_opening := xm_opening m; xm_reapGenerations :=
     xm_reapGenerations m; xm_unwrittenMarks := v; xm_records := xm_records m; xm_calls := xm_calls m; xm_waiters := xm_waiters m; xm_reaps :=
     xm_reaps m; xm_marks := xm_marks m; xm_rows := xm_rows m; xm_leases := xm_leases m; xm_next := xm_next m |}.
Definition xm_set_records (v : gmap nat SessionRecord) (m : session_manager) : session_manager :=
  {| xm_sessions := xm_sessions m; xm_holds := xm_holds m; xm_shuttingDown := xm_shuttingDown m; xm_opening := xm_opening m; xm_reapGenerations :=
     xm_reapGenerations m; xm_unwrittenMarks := xm_unwrittenMarks m; xm_records := v; xm_calls := xm_calls m; xm_waiters := xm_waiters m; xm_reaps :=
     xm_reaps m; xm_marks := xm_marks m; xm_rows := xm_rows m; xm_leases := xm_leases m; xm_next := xm_next m |}.
Definition xm_set_calls (v : gmap nat ensure_call) (m : session_manager) : session_manager :=
  {| xm_sessions := xm_sessions m; xm_holds := xm_holds m; xm_shuttingDown := xm_shuttingDown m; xm_opening := xm_opening m; xm_reapGenerations :=
     xm_reapGenerations m; xm_unwrittenMarks := xm_unwrittenMarks m; xm_records := xm_records m; xm_calls := v; xm_waiters := xm_waiters m; xm_reaps
     := xm_reaps m; xm_marks := xm_marks m; xm_rows := xm_rows m; xm_leases := xm_leases m; xm_next := xm_next m |}.
Definition xm_set_waiters (v : gmap nat (ExternalSessionBinding * bool * nat)) (m : session_manager) : session_manager :=
  {| xm_sessions := xm_sessions m; xm_holds := xm_holds m; xm_shuttingDown := xm_shuttingDown m; xm_opening := xm_opening m; xm_reapGenerations :=
     xm_reapGenerations m; xm_unwrittenMarks := xm_unwrittenMarks m; xm_records := xm_records m; xm_calls := xm_calls m; xm_waiters := v; xm_reaps :=
     xm_reaps m; xm_marks := xm_marks m; xm_rows := xm_rows m; xm_leases := xm_leases m; xm_next := xm_next m |}.
Definition xm_set_reaps (v : gmap nat reap_call) (m : session_manager) : session_manager :=
  {| xm_sessions := xm_sessions m; xm_holds := xm_holds m; xm_shuttingDown := xm_shuttingDown m; xm_opening := xm_opening m; xm_reapGenerations :=
     xm_reapGenerations m; xm_unwrittenMarks := xm_unwrittenMarks m; xm_records := xm_records m; xm_calls := xm_calls m; xm_waiters := xm_waiters m;
     xm_reaps := v; xm_marks := xm_marks m; xm_rows := xm_rows m; xm_leases := xm_leases m; xm_next := xm_next m |}.
Definition xm_set_marks (v : gmap nat mark_call) (m : session_manager) : session_manager :=
  {| xm_sessions := xm_sessions m; xm_holds := xm_holds m; xm_shuttingDown := xm_shuttingDown m; xm_opening := xm_opening m; xm_reapGenerations :=
     xm_reapGenerations m; xm_unwrittenMarks := xm_unwrittenMarks m; xm_records := xm_records m; xm_calls := xm_calls m; xm_waiters := xm_waiters m;
     xm_reaps := xm_reaps m; xm_marks := v; xm_rows := xm_rows m; xm_leases := xm_leases m; xm_next := xm_next m |}.
Definition xm_set_rows (v : gmap jstring continuation) (m : session_manager) : session_manager :=
  {| xm_sessions := xm_sessions m; xm_holds := xm_holds m; xm_shuttingDown := xm_shuttingDown m; xm_opening := xm_opening m; xm_reapGenerations :=
     xm_reapGenerations m; xm_unwrittenMarks := xm_unwrittenMarks m; xm_records := xm_records m; xm_calls := xm_calls m; xm_waiters := xm_waiters m;
     xm_reaps := xm_reaps m; xm_marks := xm_marks m; xm_rows := v; xm_leases := xm_leases m; xm_next := xm_next m |}.
Definition xm_set_leases (v : list lease) (m : session_manager) : session_manager :=
  {| xm_sessions := xm_sessions m; xm_holds := xm_holds m; xm_shuttingDown := xm_shuttingDown m; xm_opening := xm_opening m; xm_reapGenerations :=
     xm_reapGenerations m; xm_unwrittenMarks := xm_unwrittenMarks m; xm_records := xm_records m; xm_calls := xm_calls m; xm_waiters := xm_waiters m;
     xm_reaps := xm_reaps m; xm_marks := xm_marks m; xm_rows := xm_rows m; xm_leases := v; xm_next := xm_next m |}.
Definition xm_set_next (v : nat) (m : session_manager) : session_manager :=
  {| xm_sessions := xm_sessions m; xm_holds := xm_holds m; xm_shuttingDown := xm_shuttingDown m; xm_opening := xm_opening m; xm_reapGenerations :=
     xm_reapGenerations m; xm_unwrittenMarks := xm_unwrittenMarks m; xm_records := xm_records m; xm_calls := xm_calls m; xm_waiters := xm_waiters m;
     xm_reaps := xm_reaps m; xm_marks := xm_marks m; xm_rows := xm_rows m; xm_leases := xm_leases m; xm_next := v |}.

Inductive session_effect : Type :=
| XeClient (call : nat) (existingOnly : bool)
| XeOpen (call : nat) (sessionId : jstring) (binding : ExternalSessionBinding) (resumeRef : option jstring) (mode : ExternalAgentResumeMode)
| XeClose (record : nat)
| XeEnvelope (consumer : nat) (e : envelope) (v : verdict)
| XeTeardown (consumer : nat) (reason : terminal_reason)
| XeHold (hold : nat) (reason : terminal_reason)
| XeSettled (call : nat) (o : outcome ensure_error nat).

Definition new_session_manager : session_manager :=
  {| xm_sessions := ∅; xm_holds := ∅; xm_shuttingDown := None; xm_opening := ∅; xm_reapGenerations := ∅; xm_unwrittenMarks := ∅; xm_records := ∅;
     xm_calls := ∅; xm_waiters := ∅; xm_reaps := ∅; xm_marks := ∅; xm_rows := ∅; xm_leases := []; xm_next := 0 |}.

Definition xres : Type := session_manager * list session_effect.

(** Run [f] after [p], collecting the effects. *)
Definition and_then (p : xres) (f : session_manager -> xres) : xres := let '(m, es) := p in let '(m', es') := f m in (m', es ++ es').

Definition on_record (r : nat) (f : SessionRecord -> SessionRecord) (m : session_manager) : session_manager := xm_set_records (alter f r (xm_records m)) m.
Definition on_call (k : nat) (f : ensure_call -> ensure_call) (m : session_manager) : session_manager := xm_set_calls (alter f k (xm_calls m)) m.
Definition at_stage_of (k : nat) (s : ensure_stage) (m : session_manager) : session_manager := on_call k (ec_set_stage s) m.

(** ** The tables *)

(** [deleteContinuation] *)
Definition deleteContinuation (chatId : jstring) (m : session_manager) : session_manager := xm_set_rows (delete chatId (xm_rows m)) m.

(** [writeContinuation]: an upsert on the chat, never marked *)
Definition writeContinuation (c : continuation) (m : session_manager) : session_manager :=
  xm_set_rows (<[bd_chatId (ct_binding c) :=
    {| ct_binding := ct_binding c; ct_runtimeSessionId := ct_runtimeSessionId c; ct_nativeSessionId := ct_nativeSessionId c; ct_updatedAt := ct_updatedAt c;
       ct_pendingAdoption := ct_pendingAdoption c; ct_unresumable := false |}]> (xm_rows m)) m.

(** [setContinuationUnresumable] for one runtime session *)
Definition setContinuationUnresumable (chatId sessionId : jstring) (unresumable : bool) (m : session_manager) : session_manager :=
  xm_set_rows (alter (fun c =>
    if bool_decide (ct_runtimeSessionId c = sessionId) then
      {| ct_binding := ct_binding c; ct_runtimeSessionId := ct_runtimeSessionId c; ct_nativeSessionId := ct_nativeSessionId c; ct_updatedAt := ct_updatedAt c;
         ct_pendingAdoption := ct_pendingAdoption c; ct_unresumable := unresumable |}
    else c) chatId (xm_rows m)) m.

(** [releaseAdoptionLease] *)
Definition releaseAdoptionLease (chatId : jstring) (m : session_manager) : session_manager :=
  xm_set_leases (List.filter (fun l => negb (bool_decide (ls_chatId l = chatId))) (xm_leases m)) m.

(** [refreshAdoptionLease] *)
Definition refreshAdoptionLease (chatId : jstring) (expiresAt : Z) (m : session_manager) : session_manager :=
  xm_set_leases (map (fun l =>
    if bool_decide (ls_chatId l = chatId) then
      {| ls_environmentId := ls_environmentId l; ls_targetId := ls_targetId l; ls_nativeSessionId := ls_nativeSessionId l; ls_userId := ls_userId l;
         ls_chatId := ls_chatId l; ls_acquiredAt := ls_acquiredAt l; ls_expiresAt := expiresAt |}
    else l) (xm_leases m)) m.

Definition same_session (l : lease) (k : lease) : bool :=
  bool_decide (ls_environmentId l = ls_environmentId k) && bool_decide (ls_targetId l = ls_targetId k) && bool_decide (ls_nativeSessionId l = ls_nativeSessionId k).

(** [acquireAdoptionLease]: [None] when the session is held. *)
Definition acquireAdoptionLease (l : lease) (leases : list lease) : option (list lease) :=
  let left := List.filter (fun x => negb (same_session x l && (ls_expiresAt x <=? ls_acquiredAt l))) leases in
  if existsb (fun x => same_session x l) left then None else Some (left ++ [l]).

(** The transaction of [adopt], for the chat it creates *)
Definition adopt_session (b : ExternalSessionBinding) (nativeSessionId : jstring) (now : Z) (m : session_manager) : session_manager :=
  match acquireAdoptionLease {| ls_environmentId := bd_environmentId b; ls_targetId := bd_targetId b; ls_nativeSessionId := nativeSessionId; ls_userId := bd_userId b;
          ls_chatId := bd_chatId b; ls_acquiredAt := now; ls_expiresAt := now + EXTERNAL_ADOPTION_LEASE_TTL_MS |} (xm_leases m) with
  | Some leases =>
      writeContinuation {| ct_binding := b; ct_runtimeSessionId := []; ct_nativeSessionId := nativeSessionId; ct_updatedAt := now; ct_pendingAdoption := true;
        ct_unresumable := false |} (xm_set_leases leases m)
  | None => m
  end.

(** ** Reaping *)

Definition generation (chatId : jstring) (m : session_manager) : Z := default 0 (xm_reapGenerations m !! chatId).

(** [notifyHolds] *)
Definition notifyHolds (chatId : jstring) (reason : terminal_reason) (explicit : bool) (m : session_manager) : list session_effect :=
  if bool_decide (reason = r_runtime_disconnected) && negb explicit then []
  else map (fun h => XeHold h.1 reason) (default [] (xm_holds m !! chatId)).

(** [teardown] of the chat's session *)
Definition teardown (chatId : jstring) (reason : terminal_reason) (m : session_manager) : xres * option nat :=
  match xm_sessions m !! chatId with
  | None => ((m, []), None)
  | Some r =>
      ((on_record r (fun x => sr_set_consumer None (sr_set_subscribed false (sr_set_closing true x))) (xm_set_sessions (delete chatId (xm_sessions m)) m),
        match xm_records m !! r ≫= sr_consumer with Some c => [XeTeardown c reason] | None => [] end), Some r)
  end.

(** [reap] up to its first await *)
Definition reap_start (chatId : jstring) (reason : terminal_reason) (keepContinuation explicit : bool) (m : session_manager) : xres * nat :=
  let m := xm_set_reapGenerations (<[chatId := generation chatId m + 1]> (xm_reapGenerations m)) m in
  let '((m, es), record) := teardown chatId reason m in
  let '(stage, closed) :=
    if keepContinuation then match record with Some r => (rs_closing, [XeClose r]) | None => (rs_done true, []) end else (rs_deleting, []) in
  let n := xm_next m in
  ((xm_set_next (S n) (xm_set_reaps (<[n := {| rp_chatId := chatId; rp_record := record; rp_stage := stage |}]> (xm_reaps m)) m),
    es ++ notifyHolds chatId reason explicit m ++ closed), n).

(** What a [reap] waited for settled; [ok] is false when a statement failed. A close is never a failure. *)
Definition reap_continues (n : nat) (ok : bool) (m : session_manager) : xres :=
  match xm_reaps m !! n with
  | None => (m, [])
  | Some p =>
      let to s m := xm_set_reaps (<[n := {| rp_chatId := rp_chatId p; rp_record := rp_record p; rp_stage := s |}]> (xm_reaps m)) m in
      match rp_stage p with
      | rs_deleting => if ok then (to rs_releasing (deleteContinuation (rp_chatId p) m), []) else (to (rs_done false) m, [])
      | rs_releasing =>
          if ok then
            let m := releaseAdoptionLease (rp_chatId p) m in
            match rp_record p with Some r => (to rs_closing m, [XeClose r]) | None => (to (rs_done true) m, []) end
          else (to (rs_done false) m, [])
      | rs_closing => (to (rs_done true) m, [])
      | rs_done _ => (m, [])
      end
  end.

Fixpoint reap_each (chatIds : list jstring) (reason : terminal_reason) (keepContinuation explicit : bool) (m : session_manager) : xres :=
  match chatIds with
  | [] => (m, [])
  | chatId :: rest => and_then ((reap_start chatId reason keepContinuation explicit m).1) (reap_each rest reason keepContinuation explicit)
  end.

(** The scope of [reapScope]; an absent or empty field matches everything. *)
Record reap_scope : Type := { sc_userId : option jstring; sc_environmentId : option jstring; sc_targetId : option ExternalAgentTargetId }.

Definition narrows (field : option jstring) (x : jstring) : bool := match field with Some (c :: f) => bool_decide (x = c :: f) | _ => true end.

Definition inScope (s : reap_scope) (userId environmentId : jstring) (targetId : ExternalAgentTargetId) : bool :=
  narrows (sc_userId s) userId && narrows (sc_environmentId s) environmentId
  && match sc_targetId s with Some t => bool_decide (targetId = t) | None => true end.

Definition binding_in (s : reap_scope) (b : ExternalSessionBinding) : bool := inScope s (bd_userId b) (bd_environmentId b) (bd_targetId b).
Definition hold_in (s : reap_scope) (h : hold_scope) : bool := inScope s (hs_userId h) (hs_environmentId h) (hs_targetId h).

(** The chats [reapScope] collects *)
Definition chats_in (s : reap_scope) (m : session_manager) : list jstring :=
  let live := List.filter (fun p : jstring * nat => match xm_records m !! p.2 with Some r => binding_in s (sr_binding r) | None => false end) (map_to_list (xm_sessions m)) in
  let opening := List.filter (fun p : jstring * nat => match xm_calls m !! p.2 with Some c => binding_in s (ec_input c) | None => false end) (map_to_list (xm_opening m)) in
  let held := List.filter (fun p : jstring * list (nat * hold_scope) => existsb (fun h => hold_in s h.2) p.2) (map_to_list (xm_holds m)) in
  remove_dups (map fst live ++ map fst opening ++ map fst held).

Definition reapScope (s : reap_scope) (reason : terminal_reason) (keepContinuation explicit : bool) (m : session_manager) : xres :=
  reap_each (chats_in s m) reason keepContinuation explicit m.

Definition reapAll (reason : terminal_reason) (m : session_manager) : xres :=
  let m := xm_set_shuttingDown (Some reason) m in
  reap_each (remove_dups (map fst (map_to_list (xm_sessions m)) ++ map fst (map_to_list (xm_holds m)))) reason true false m.

(** ** Opening *)

(** [openSession] up to its read *)
Definition open_start (k : nat) (m : session_manager) : session_manager :=
  match xm_calls m !! k with
  | Some c => on_call k (fun c => ec_set_stage es_reading (ec_set_generation (generation (bd_chatId (ec_input c)) m) c)) m
  | None => m
  end.

(** The inner [ensureSession] up to its first await *)
Definition ensure_start (k : nat) (m : session_manager) : xres :=
  match xm_calls m !! k with
  | Some c =>
      let chatId := bd_chatId (ec_input c) in
      match xm_shuttingDown m with
      | Some _ => (at_stage_of k (es_settled (Err xr_reaped)) m, [])
      | None =>
          match xm_sessions m !! chatId ≫= fun r => x ← xm_records m !! r; Some (r, x) with
          | Some (r, x) =>
              if sr_closing x then (open_start k m, [])
              else if sameBinding (sr_binding x) (ec_input c) then (at_stage_of k (es_settled (Ok r)) m, [])
              else let '((m, es), n) := reap_start chatId r_session_lost false false m in (at_stage_of k (es_reaping n) m, es)
          | None => (open_start k m, [])
          end
      end
  | None => (m, [])
  end.

(** [startsFresh], and what follows from it up to the next await *)
Definition after_matching (k : nat) (m : session_manager) : xres :=
  match xm_calls m !! k with
  | Some c =>
      let fresh := match ec_matching c with
        | Some row => ct_unresumable row || bool_decide (xm_unwrittenMarks m !! bd_chatId (ec_input c) = Some (ct_runtimeSessionId row))
        | None => false
        end in
      let m := on_call k (ec_set_startsFresh fresh) m in
      if fresh then (at_stage_of k es_fresh m, []) else (at_stage_of k es_client m, [XeClient k (ec_existingOnly c)])
  | None => (m, [])
  end.

(** [resumable] *)
Definition resumable (c : ensure_call) : option continuation := if ec_startsFresh c then None else ec_matching c.

Definition adopting (c : ensure_call) : bool := match resumable c with Some row => ct_pendingAdoption row | None => false end.

(** The runtime is asked to open. *)
Definition send_open (k : nat) (m : session_manager) : xres :=
  match xm_calls m !! k with
  | Some c =>
      (at_stage_of k es_opening m,
       [XeOpen k (ec_sessionId c) (ec_input c) (ct_nativeSessionId <$> resumable c) (resumeModeFor (bd_targetId (ec_input c)) (adopting c))])
  | None => (m, [])
  end.

(** What [x ? { f: x } : {}] spreads: an empty string is absent. *)
Definition present (x : option jstring) : option jstring := match x with Some (c :: s) => Some (c :: s) | _ => None end.

(** [conversationResetOf] *)
Definition conversationResetOf (startedFresh askedToResume : bool) (o : opened_session) : option conversation_reset :=
  if startedFresh then Some cv_nonresumable
  else if askedToResume && negb (od_resumed o) && match present (od_fallbackReason o) with Some _ => true | None => false end then Some cv_unavailable
  else None.

Definition new_record (c : ensure_call) (o : opened_session) : SessionRecord :=
  {| sr_sessionId := ec_sessionId c; sr_binding := ec_input c; sr_client := ec_client c; sr_sequencer := new_sequencer 0;
     sr_nativeSessionId := od_nativeSessionId o; sr_resumed := od_resumed o; sr_fallbackReason := present (od_fallbackReason o);
     sr_conversationReset := conversationResetOf (ec_startsFresh c) (match resumable c with Some _ => true | None => false end) o;
     sr_subscribed := true; sr_consumer := None; sr_closing := false |}.

(** The open was answered with a session; the row's time is read then. *)
Definition open_answered (k : nat) (o : opened_session) (now : Z) (m : session_manager) : session_manager :=
  match xm_calls m !! k with
  | Some c =>
      let r := xm_next m in
      on_call k (fun c => ec_set_now now (ec_set_stage es_writing (ec_set_record (Some r) c))) (xm_set_next (S r) (xm_set_records (<[r := new_record c o]> (xm_records m)) m))
  | None => m
  end.

(** The open was refused; [atCapacity] is the runtime's own refusal at its session cap. *)
Definition open_refused (k : nat) (atCapacity : bool) (now : Z) (m : session_manager) : session_manager :=
  match xm_calls m !! k with
  | Some c =>
      if negb atCapacity || (ec_deadline c <=? now) then at_stage_of k (es_settled (Err xr_runtime)) m
      else if negb (generation (bd_chatId (ec_input c)) m =? ec_generation c) then at_stage_of k (es_settled (Err xr_reaped)) m
      else at_stage_of k es_retrying m
  | None => m
  end.

(** After the last await: the session is the chat's, or it is undone. *)
Definition register (k : nat) (m : session_manager) : session_manager :=
  match xm_calls m !! k with
  | Some c =>
      match ec_record c with
      | Some r =>
          let chatId := bd_chatId (ec_input c) in
          if negb (generation chatId m =? ec_generation c) then at_stage_of k es_undoing (on_record r (sr_set_subscribed false) m)
          else
            at_stage_of k (es_settled (Ok r))
              (xm_set_unwrittenMarks (delete chatId (xm_unwrittenMarks m)) (xm_set_sessions (<[chatId := r]> (xm_sessions m)) m))
      | None => m
      end
  | None => m
  end.

(** The row [openSession] writes *)
Definition written_row (c : ensure_call) (x : SessionRecord) : continuation :=
  {| ct_binding := ec_input c; ct_runtimeSessionId := ec_sessionId c; ct_nativeSessionId := sr_nativeSessionId x; ct_updatedAt := ec_now c;
     ct_pendingAdoption := adopting c && negb (sr_resumed x); ct_unresumable := false |}.

(** [matching] *)
Definition matching_of (stored : option continuation) (b : ExternalSessionBinding) : option continuation :=
  match stored with Some row => if continuationMatches row b then Some row else None | None => None end.

(** A statement of the database settled for call [k]; [now] is what [Date.now()] says then. *)
Definition call_stored (k : nat) (ok : bool) (now : Z) (m : session_manager) : xres :=
  match xm_calls m !! k with
  | Some c =>
      let chatId := bd_chatId (ec_input c) in
      let fails := (at_stage_of k (es_settled (Err xr_store)) m, []) in
      match ec_stage c with
      | es_reading =>
          if negb ok then fails
          else
            let stored := xm_rows m !! chatId in
            let matching := matching_of stored (ec_input c) in
            let m := on_call k (ec_set_matching matching) m in
            match stored, matching with
            | Some _, None => (at_stage_of k es_dropping m, [])
            | _, _ => after_matching k m
            end
      | es_dropping => if negb ok then fails else (at_stage_of k es_dropping_lease (deleteContinuation chatId m), [])
      | es_dropping_lease => if negb ok then fails else after_matching k (releaseAdoptionLease chatId m)
      | es_fresh => if negb ok then fails else (at_stage_of k es_client (releaseAdoptionLease chatId m), [XeClient k (ec_existingOnly c)])
      | es_writing =>
          match ec_record c ≫= fun r => xm_records m !! r with
          | Some x =>
              if negb ok then fails
              else
                let m := writeContinuation (written_row c x) m in
                match resumable c with Some _ => (on_call k (fun c => ec_set_now now (ec_set_stage es_refreshing c)) m, []) | None => (register k m, []) end
          | None => (m, [])
          end
      | es_refreshing => if negb ok then fails else (register k (refreshAdoptionLease chatId (ec_now c + EXTERNAL_ADOPTION_LEASE_TTL_MS) m), [])
      | es_undoing =>
          if negb ok then fails
          else (at_stage_of k es_closing (deleteContinuation chatId m), match ec_record c with Some r => [XeClose r] | None => [] end)
      | _ => (m, [])
      end
  | None => (m, [])
  end.

(** Any other continuation of call [k]. *)
Inductive call_answer : Type :=
| an_reaped
| an_client (client : option nat)
| an_toolchain (sessionId : option jstring) (now : Z)
| an_opened (o : opened_session) (now : Z)
| an_refused (atCapacity : bool) (now : Z)
| an_timer
| an_closed
| an_finally.

(** The [finally] around a call *)
Definition call_finally (k : nat) (c : ensure_call) (o : outcome ensure_error nat) (m : session_manager) : xres :=
  let chatId := bd_chatId (ec_input c) in
  let m := if bool_decide (xm_opening m !! chatId = Some k) then xm_set_opening (delete chatId (xm_opening m)) m else m in
  (at_stage_of k (es_done o) m, [XeSettled k o]).

Definition call_continues (k : nat) (a : call_answer) (m : session_manager) : xres :=
  match xm_calls m !! k with
  | Some c =>
      match ec_stage c, a with
      | es_reaping n, an_reaped =>
          match rp_stage <$> xm_reaps m !! n with
          | Some (rs_done true) => (open_start k m, [])
          | Some (rs_done false) => (at_stage_of k (es_settled (Err xr_store)) m, [])
          | _ => (m, [])
          end
      | es_client, an_client (Some client) => (at_stage_of k es_toolchain (on_call k (ec_set_client client) m), [])
      | es_client, an_client None => (at_stage_of k (es_settled (Err xr_runtime)) m, [])
      | es_toolchain, an_toolchain (Some sessionId) now =>
          send_open k (on_call k (fun c => ec_set_deadline (now + CAPACITY_RETRY_MS) (ec_set_sessionId sessionId c)) m)
      | es_toolchain, an_toolchain None _ => (at_stage_of k (es_settled (Err xr_runtime)) m, [])
      | es_opening, an_opened o now => (open_answered k o now m, [])
      | es_opening, an_refused atCapacity now => (open_refused k atCapacity now m, [])
      | es_retrying, an_timer => send_open k m
      | es_closing, an_closed => (at_stage_of k (es_settled (Err xr_reaped)) m, [])
      | es_settled o, an_finally => call_finally k c o m
      | _, _ => (m, [])
      end
  | None => (m, [])
  end.

(** [ensureSession]: joins the open under way, waits for it, or starts one. *)
Definition ensureSession (input : ExternalSessionBinding) (existingOnly : bool) (m : session_manager) : xres :=
  match xm_opening m !! bd_chatId input ≫= fun k => c ← xm_calls m !! k; Some (k, c) with
  | Some (k, c) =>
      if sameBinding (ec_input c) input then (m, [])
      else (xm_set_next (S (xm_next m)) (xm_set_waiters (<[xm_next m := (input, existingOnly, k)]> (xm_waiters m)) m), [])
  | None =>
      let k := xm_next m in
      let call := {| ec_input := input; ec_existingOnly := existingOnly; ec_stage := es_starting; ec_generation := 0; ec_matching := None; ec_startsFresh := false;
        ec_client := 0; ec_sessionId := []; ec_deadline := 0; ec_record := None; ec_now := 0 |} in
      let m := xm_set_next (S k) (xm_set_calls (<[k := call]> (xm_calls m)) m) in
      let '(m, es) := ensure_start k m in
      (xm_set_opening (<[bd_chatId input := k]> (xm_opening m)) m, es)
  end.

(** The open a send waited for has settled: the send starts over. *)
Definition waiter_wakes (w : nat) (m : session_manager) : xres :=
  match xm_waiters m !! w with
  | Some (input, existingOnly, k) =>
      match ec_stage <$> xm_calls m !! k with
      | Some (es_done _) => ensureSession input existingOnly (xm_set_waiters (delete w (xm_waiters m)) m)
      | _ => (m, [])
      end
  | None => (m, [])
  end.

(** ** Handles *)

(** [isLive] *)
Definition isLive (r : nat) (m : session_manager) : bool :=
  match xm_records m !! r with
  | Some x => negb (sr_closing x) && bool_decide (xm_sessions m !! bd_chatId (sr_binding x) = Some r)
  | None => false
  end.

(** [retire] up to its await *)
Definition retire (r : nat) (dropContinuation : bool) (m : session_manager) : xres :=
  match xm_records m !! r with
  | Some x => if isLive r m then (reap_start (bd_chatId (sr_binding x)) r_runtime_disconnected (negb dropContinuation) false m).1 else (m, [])
  | None => (m, [])
  end.

Definition takeConversationReset (r : nat) (m : session_manager) : session_manager * option conversation_reset :=
  (on_record r (sr_set_conversationReset None) m, xm_records m !! r ≫= sr_conversationReset).

Definition subscribe (r consumer : nat) (m : session_manager) : session_manager := on_record r (sr_set_consumer (Some consumer)) m.

Definition unsubscribe (r consumer : nat) (m : session_manager) : session_manager :=
  on_record r (fun x => if bool_decide (sr_consumer x = Some consumer) then sr_set_consumer None x else x) m.

(** [setUnresumable] up to its await, and after it *)
Definition mark_start (r : nat) (unresumable : bool) (m : session_manager) : session_manager :=
  match xm_records m !! r with
  | Some x =>
      xm_set_next (S (xm_next m))
        (xm_set_marks (<[xm_next m := {| mk_chatId := bd_chatId (sr_binding x); mk_sessionId := sr_sessionId x; mk_unresumable := unresumable |}]> (xm_marks m)) m)
  | None => m
  end.

Definition mark_stored (i : nat) (ok : bool) (m : session_manager) : session_manager :=
  match xm_marks m !! i with
  | Some k =>
      let m := xm_set_marks (delete i (xm_marks m)) m in
      if ok then
        let m := setContinuationUnresumable (mk_chatId k) (mk_sessionId k) (mk_unresumable k) m in
        if bool_decide (xm_unwrittenMarks m !! mk_chatId k = Some (mk_sessionId k)) then xm_set_unwrittenMarks (delete (mk_chatId k) (xm_unwrittenMarks m)) m else m
      else if mk_unresumable k then xm_set_unwrittenMarks (<[mk_chatId k := mk_sessionId k]> (xm_unwrittenMarks m)) m else m
  | None => m
  end.

(** ** Callbacks of the runtime's client *)

(** An envelope arrives. *)
Definition session_event (r : nat) (e : envelope) (m : session_manager) : xres :=
  match xm_records m !! r with
  | Some x =>
      if sr_subscribed x then
        let '(s, v) := admit_envelope e (sr_sequencer x) in
        (on_record r (sr_set_sequencer s) m, match sr_consumer x with Some c => [XeEnvelope c e v] | None => [] end)
      else (m, [])
  | None => (m, [])
  end.

(** The client's connection closed. *)
Definition client_closed (r : nat) (m : session_manager) : xres :=
  match xm_records m !! r with
  | Some x => if sr_subscribed x && negb (sr_closing x) then (reap_start (bd_chatId (sr_binding x)) r_runtime_disconnected true false m).1 else (m, [])
  | None => (m, [])
  end.

(** ** Holds *)

Definition holdChat (s : hold_scope) (m : session_manager) : session_manager :=
  xm_set_next (S (xm_next m)) (xm_set_holds (<[hs_chatId s := default [] (xm_holds m !! hs_chatId s) ++ [(xm_next m, s)]]> (xm_holds m)) m).

(** The remover [holdChat] returns *)
Definition release_hold (chatId : jstring) (h : nat) (m : session_manager) : session_manager :=
  match xm_holds m !! chatId with
  | Some l =>
      let left := List.filter (fun p => negb (bool_decide (p.1 = h))) l in
      xm_set_holds (if bool_decide (left = []) then delete chatId (xm_holds m) else <[chatId := left]> (xm_holds m)) m
  | None => m
  end.

(** ** Runs *)

Inductive session_op : Type :=
| XoEnsure (input : ExternalSessionBinding) (existingOnly : bool)
| XoWaiter (w : nat)
| XoStored (k : nat) (ok : bool) (now : Z)
| XoContinue (k : nat) (a : call_answer)
| XoReapChat (chatId : jstring) (reason : terminal_reason) (keepContinuation explicit : bool)
| XoReapScope (s : reap_scope) (reason : terminal_reason) (keepContinuation explicit : bool)
| XoReapAll (reason : terminal_reason)
| XoReap (n : nat) (ok : bool)
| XoRetire (r : nat) (dropContinuation : bool)
| XoTakeReset (r : nat)
| XoSubscribe (r consumer : nat)
| XoUnsubscribe (r consumer : nat)
| XoBeginTurn (r : nat) (nativeTurnId : jstring)
| XoEndTurn (r : nat) (nativeTurnId : jstring)
| XoMark (r : nat) (unresumable : bool)
| XoMarked (i : nat) (ok : bool)
| XoEvent (r : nat) (e : envelope)
| XoClientClosed (r : nat)
| XoHold (s : hold_scope)
| XoReleaseHold (chatId : jstring) (h : nat)
| XoAdoptSession (b : ExternalSessionBinding) (nativeSessionId : jstring) (now : Z).

Definition session_step (o : session_op) (m : session_manager) : xres :=
  match o with
  | XoEnsure input existingOnly => ensureSession input existingOnly m
  | XoWaiter w => waiter_wakes w m
  | XoStored k ok now => call_stored k ok now m
  | XoContinue k a => call_continues k a m
  | XoReapChat chatId reason keep explicit => (reap_start chatId reason keep explicit m).1
  | XoReapScope s reason keep explicit => reapScope s reason keep explicit m
  | XoReapAll reason => reapAll reason m
  | XoReap n ok => reap_continues n ok m
  | XoRetire r dropContinuation => retire r dropContinuation m
  | XoTakeReset r => ((takeConversationReset r m).1, [])
  | XoSubscribe r consumer => (subscribe r consumer m, [])
  | XoUnsubscribe r consumer => (unsubscribe r consumer m, [])
  | XoBeginTurn r id => (on_record r (fun x => sr_set_sequencer (beginTurn id (sr_sequencer x)) x) m, [])
  | XoEndTurn r id => (on_record r (fun x => sr_set_sequencer (endTurn id (sr_sequencer x)) x) m, [])
  | XoMark r unresumable => (mark_start r unresumable m, [])
  | XoMarked i ok => (mark_stored i ok m, [])
  | XoEvent r e => session_event r e m
  | XoClientClosed r => client_closed r m
  | XoHold s => (holdChat s m, [])
  | XoReleaseHold chatId h => (release_hold chatId h m, [])
  | XoAdoptSession b native now => (adopt_session b native now m, [])
  end.

Fixpoint session_run (os : list session_op) (m : session_manager) : xres :=
  match os with [] => (m, []) | o :: rest => and_then (session_step o m) (session_run rest) end.
