(* ===== verification/ExternalSessionsFacts.v ===== *)
(** * External agent sessions: every vendor session is accounted for

    The invariant of [ExternalSessions]: who is responsible for each vendor session, and how often it was asked to close. *)

From S2P Require Import Prelude MessageParts Sequencer ExternalSessions.

(** ** Responsibility *)

(** A session is the business of the call that opened it until that call registers it, then of its chat, then of the reap that
    took it from the chat. *)
Inductive owner : Type := ow_call (k : nat) | ow_chat (chatId : jstring) | ow_reap (n : nat).

Definition unregistered (s : ensure_stage) : bool := match s with es_settled (Ok _) | es_done (Ok _) => false | _ => true end.

Definition owns (m : session_manager) (o : owner) (r : nat) : Prop :=
  match o with
  | ow_call k => exists c, xm_calls m !! k = Some c /\ ec_record c = Some r /\ unregistered (ec_stage c) = true
  | ow_chat chatId => xm_sessions m !! chatId = Some r
  | ow_reap n => exists p, xm_reaps m !! n = Some p /\ rp_record p = Some r
  end.

(** Where a session stands: its open is being finished; it is the chat's; it is being reaped; it was asked to close; a statement
    of the database failed and nobody will close it. *)
Inductive standing : Type := sd_opening | sd_live | sd_reaping | sd_closed | sd_lost.

Global Instance standing_eq_dec : EqDecision standing.
Proof. solve_decision. Defined.

Definition call_standing (s : ensure_stage) : standing :=
  match s with
  | es_closing | es_settled (Err xr_reaped) | es_done (Err xr_reaped) => sd_closed
  | es_settled (Err _) | es_done (Err _) => sd_lost
  | _ => sd_opening
  end.

Definition reap_standing (s : reap_stage) : standing :=
  match s with rs_deleting | rs_releasing => sd_reaping | rs_closing | rs_done true => sd_closed | rs_done false => sd_lost end.

Definition standing_of (m : session_manager) (o : owner) : standing :=
  match o with
  | ow_call k => match xm_calls m !! k with Some c => call_standing (ec_stage c) | None => sd_lost end
  | ow_chat _ => sd_live
  | ow_reap n => match xm_reaps m !! n with Some p => reap_standing (rp_stage p) | None => sd_lost end
  end.

Definition closes_in (r : nat) (e : session_effect) : nat := match e with XeClose r' => if decide (r' = r) then 1 else 0 | _ => 0 end.

(** How often the runtime was asked to close session [r]. *)
Definition closes (r : nat) (es : list session_effect) : nat := foldr (fun e n => closes_in r e + n)%nat 0%nat es.

Lemma closings_app r es es' : closes r (es ++ es') = (closes r es + closes r es')%nat.
Proof. induction es as [|e es IH]; simpl; [done | rewrite IH; lia]. Qed.

Lemma closes_none r es : Forall (fun e => forall x, e <> XeClose x) es -> closes r es = 0%nat.
Proof. induction 1 as [|e es He _ IH]; [done|]. simpl. rewrite IH. destruct e; try done. by destruct (He record). Qed.

(** ** The invariant *)

(** The call has started and not settled. *)
Definition call_runs (s : ensure_stage) : bool := match s with es_starting | es_settled _ | es_done _ => false | _ => true end.

(** The call is the chat's entry in [opening]. *)
Definition call_pending (s : ensure_stage) : bool := match s with es_done _ => false | _ => true end.

(** The runtime has answered the call's open. *)
Definition has_opened (s : ensure_stage) : bool := match s with es_writing | es_refreshing | es_undoing | es_closing => true | _ => false end.

Record xinv (m : session_manager) (es : list session_effect) : Prop := {
  xi_records : forall r, is_Some (xm_records m !! r) -> (r < xm_next m)%nat;
  xi_calls : forall k, is_Some (xm_calls m !! k) -> (k < xm_next m)%nat;
  xi_reaps : forall n, is_Some (xm_reaps m !! n) -> (n < xm_next m)%nat;
  xi_binding : forall k c r, xm_calls m !! k = Some c -> ec_record c = Some r ->
    exists x, xm_records m !! r = Some x /\ sr_binding x = ec_input c /\ (unregistered (ec_stage c) = true -> sr_closing x = false);
  xi_stage : forall k c, xm_calls m !! k = Some c -> call_runs (ec_stage c) = true -> is_Some (ec_record c) <-> has_opened (ec_stage c) = true;
  xi_sessions : forall chatId r, xm_sessions m !! chatId = Some r ->
    exists x, xm_records m !! r = Some x /\ bd_chatId (sr_binding x) = chatId /\ sr_closing x = false;
  xi_opening : forall chatId k, xm_opening m !! chatId = Some k ->
    exists c, xm_calls m !! k = Some c /\ bd_chatId (ec_input c) = chatId;
  xi_pending : forall k c, xm_calls m !! k = Some c -> call_pending (ec_stage c) = true -> xm_opening m !! bd_chatId (ec_input c) = Some k;
  xi_vacant : forall k c, xm_calls m !! k = Some c -> call_runs (ec_stage c) = true -> xm_sessions m !! bd_chatId (ec_input c) = None;
  xi_owned : forall r, is_Some (xm_records m !! r) -> exists o, owns m o r;
  xi_known : forall o r, owns m o r -> is_Some (xm_records m !! r);
  xi_unique : forall o o' r, owns m o r -> owns m o' r -> o = o';
  xi_closes : forall o r, owns m o r -> closes r es = if decide (standing_of m o = sd_closed) then 1%nat else 0%nat;
  xi_unknown : forall r, xm_records m !! r = None -> closes r es = 0%nat;
}.

Lemma xinv_initial : xinv new_session_manager [].
Proof.
  split; intros; repeat match goal with
    | H : is_Some _ |- _ => destruct H as [? H]
    | H : owns _ ?o _ |- _ => destruct o; simpl in H; [destruct H as (? & H & _) | | destruct H as (? & H & _)]
    end; done.
Qed.

(** The parts of the state the invariant is about. Records matter only for their binding and whether they are closing. *)
Definition same_core (m m' : session_manager) : Prop :=
  xm_sessions m' = xm_sessions m /\ xm_opening m' = xm_opening m /\ xm_calls m' = xm_calls m /\ xm_reaps m' = xm_reaps m
  /\ (xm_next m <= xm_next m')%nat
  /\ (forall r, xm_records m' !! r = None <-> xm_records m !! r = None)
  /\ (forall r x, xm_records m !! r = Some x -> exists x', xm_records m' !! r = Some x' /\ sr_binding x' = sr_binding x /\ sr_closing x' = sr_closing x).

Lemma owns_same m m' o r : same_core m m' -> owns m' o r <-> owns m o r.
Proof. intros (Hs & _ & Hc & Hr & _). destruct o; simpl; by rewrite ?Hs, ?Hc, ?Hr. Qed.

Lemma standing_same m m' o : same_core m m' -> standing_of m' o = standing_of m o.
Proof. intros (_ & _ & Hc & Hr & _). destruct o; simpl; by rewrite ?Hc, ?Hr. Qed.

Lemma is_Some_not_None {A} (o : option A) : is_Some o <-> o <> None.
Proof. rewrite <- not_eq_None_Some. done. Qed.

Lemma xinv_same m m' es es' : same_core m m' -> (forall r, closes r es' = 0%nat) -> xinv m es -> xinv m' (es ++ es').
Proof.
  intros Hc He I. pose proof Hc as (Hs & Ho & Hk & Hr & Hn & Hn1 & Hrec).
  assert (forall r, is_Some (xm_records m' !! r) -> is_Some (xm_records m !! r)) as Hback.
  { intros r. rewrite !is_Some_not_None. intros H H'. by apply H, Hn1. }
  split; rewrite ?Hs, ?Ho, ?Hk, ?Hr.
  - intros r Hx%Hback%(xi_records _ _ I). lia.
  - intros k Hx%(xi_calls _ _ I). lia.
  - intros k Hx%(xi_reaps _ _ I). lia.
  - intros k c r Hx Hy. destruct (xi_binding _ _ I k c r Hx Hy) as (x & Hx1 & Hb & Hcl).
    destruct (Hrec r x Hx1) as (x' & Hx' & Hb' & Hc'). exists x'. rewrite Hb', Hc'. done.
  - apply (xi_stage _ _ I).
  - intros h r Hx. destruct (xi_sessions _ _ I h r Hx) as (x & Hx1 & Hb & Hcl).
    destruct (Hrec r x Hx1) as (x' & Hx' & Hb' & Hc'). exists x'. by rewrite Hb', Hc'.
  - apply (xi_opening _ _ I).
  - apply (xi_pending _ _ I).
  - apply (xi_vacant _ _ I).
  - intros r Hx%Hback%(xi_owned _ _ I). destruct Hx as [o Hx]. exists o. by apply (owns_same m m').
  - intros o r Hx%(owns_same m m'); [|done]. apply (xi_known _ _ I) in Hx. destruct Hx as [x Hx].
    destruct (Hrec r x Hx) as (x' & Hx' & _). eauto.
  - intros o o' r Hx%(owns_same m m') Hy%(owns_same m m'); [|done..]. by apply (xi_unique _ _ I o o' r).
  - intros o r Hx%(owns_same m m'); [|done]. rewrite closings_app, He, Nat.add_0_r, (standing_same m m') by done. by apply (xi_closes _ _ I).
  - intros r Hx%Hn1. rewrite closings_app, He, Nat.add_0_r. by apply (xi_unknown _ _ I).
Qed.

(** ** Calls *)

Lemma on_call_at k f m c : xm_calls m !! k = Some c -> on_call k f m = xm_set_calls (<[k := f c]> (xm_calls m)) m.
Proof.
  intros H. unfold on_call. f_equal. apply map_eq. intros j. destruct (decide (j = k)) as [->|].
  - by rewrite lookup_alter_eq, lookup_insert_eq, H.
  - by rewrite lookup_alter_ne, lookup_insert_ne.
Qed.

Lemma at_stage_of_at k s m c : xm_calls m !! k = Some c -> at_stage_of k s m = xm_set_calls (<[k := ec_set_stage s c]> (xm_calls m)) m.
Proof. apply on_call_at. Qed.

(** Call [k] moves on and what it owns stays its own. *)
Definition moves (m : session_manager) (c c' : ensure_call) : Prop :=
  ec_input c' = ec_input c /\ ec_record c' = ec_record c
  /\ (call_pending (ec_stage c') = true -> call_pending (ec_stage c) = true)
  /\ (call_runs (ec_stage c') = true ->
        (is_Some (ec_record c) <-> has_opened (ec_stage c') = true) /\ xm_sessions m !! bd_chatId (ec_input c) = None)
  /\ (is_Some (ec_record c) -> unregistered (ec_stage c') = unregistered (ec_stage c) /\
        (call_standing (ec_stage c') = sd_closed <-> call_standing (ec_stage c) = sd_closed)).

Lemma owns_moves m k c c' o r : xm_calls m !! k = Some c -> moves m c c' -> owns (xm_set_calls (<[k := c']> (xm_calls m)) m) o r <-> owns m o r.
Proof.
  intros Hk (_ & Hr & _ & _ & Hu). destruct o as [j| |]; [|done..]. cbn [owns xm_calls xm_set_calls].
  destruct (decide (j = k)) as [->|]; [|by rewrite lookup_insert_ne].
  rewrite lookup_insert_eq, Hk.
  split; intros (d & [= <-] & Hd & He); rewrite ?Hr in Hd; destruct (Hu (mk_is_Some _ _ Hd)) as [Hv _].
  - exists c. by rewrite <- Hv.
  - exists c'. by rewrite Hr, Hv.
Qed.

Lemma standing_moves m k c c' o r : xm_calls m !! k = Some c -> moves m c c' -> owns m o r ->
  standing_of (xm_set_calls (<[k := c']> (xm_calls m)) m) o = sd_closed <-> standing_of m o = sd_closed.
Proof.
  intros Hk (_ & _ & _ & _ & Hu) Ho. destruct o as [j| |]; [|done..]. cbn [owns standing_of xm_calls xm_set_calls] in *.
  destruct (decide (j = k)) as [->|]; [|by rewrite lookup_insert_ne].
  rewrite lookup_insert_eq, Hk. destruct Ho as (d & Hd & He & _). apply Hu. simplify_eq. eauto.
Qed.

Lemma decide_iff {A} (P Q : Prop) `{Decision P, Decision Q} (x y : A) : P <-> Q -> (if decide P then x else y) = (if decide Q then x else y).
Proof. intros. destruct (decide P), (decide Q); tauto || done. Qed.

Lemma xinv_call m es k c c' : xinv m es -> xm_calls m !! k = Some c -> moves m c c' -> xinv (xm_set_calls (<[k := c']> (xm_calls m)) m) es.
Proof.
  intros I Hk Hm. pose proof Hm as (Hi & Hr & Hp & Ho & Hu). split; cbn [xm_records xm_calls xm_reaps xm_sessions xm_opening xm_next xm_set_calls].
  - apply (xi_records _ _ I).
  - intros j [d [[<- <-]|[_ Hj]]%lookup_insert_Some]; apply (xi_calls _ _ I); eauto.
  - apply (xi_reaps _ _ I).
  - intros j d r [[<- <-]|[_ Hj]]%lookup_insert_Some Hd; [|by eapply (xi_binding _ _ I); eauto].
    rewrite Hr in Hd. rewrite Hi. destruct (Hu (mk_is_Some _ _ Hd)) as [-> _]. by eapply (xi_binding _ _ I); eauto.
  - intros j d [[<- <-]|[_ Hj]]%lookup_insert_Some Hd; [|by eapply (xi_stage _ _ I); eauto].
    rewrite Hr. by apply Ho.
  - apply (xi_sessions _ _ I).
  - intros h j Hj. destruct (xi_opening _ _ I h j Hj) as (d & Hd & He).
    destruct (decide (j = k)) as [->|]; [rewrite lookup_insert_eq | rewrite lookup_insert_ne by done; eauto].
    exists c'. simplify_eq. by rewrite Hi.
  - intros j d [[<- <-]|[_ Hj]]%lookup_insert_Some Hd; [|by eapply (xi_pending _ _ I); eauto].
    rewrite Hi. by eapply (xi_pending _ _ I); eauto.
  - intros j d [[<- <-]|[_ Hj]]%lookup_insert_Some Hd; [|by eapply (xi_vacant _ _ I); eauto].
    rewrite Hi. by apply Ho.
  - intros r Hx%(xi_owned _ _ I). destruct Hx as [o Hx]. exists o. by apply (owns_moves m k c).
  - intros o r Hx%(owns_moves m k c); [|done..]. by apply (xi_known _ _ I) in Hx.
  - intros o o' r Hx%(owns_moves m k c) Hy%(owns_moves m k c); [|done..]. by apply (xi_unique _ _ I o o' r).
  - intros o r Hx%(owns_moves m k c); [|done..]. rewrite (decide_iff _ _ _ _ (standing_moves m k c c' o r Hk Hm Hx)). by apply (xi_closes _ _ I).
  - apply (xi_unknown _ _ I).
Qed.

(** The common case: the call stays on its side of the runtime's answer. *)
Lemma moves_running m es k c c' : xinv m es -> xm_calls m !! k = Some c -> ec_input c' = ec_input c -> ec_record c' = ec_record c ->
  call_runs (ec_stage c) = true -> (call_runs (ec_stage c') = true -> has_opened (ec_stage c') = has_opened (ec_stage c)) ->
  (has_opened (ec_stage c) = true -> unregistered (ec_stage c') = true /\ (call_standing (ec_stage c') = sd_closed <-> call_standing (ec_stage c) = sd_closed)) ->
  moves m c c'.
Proof.
  intros I Hk Hi Hr Hc Ho Hu. pose proof (xi_stage _ _ I k c Hk Hc) as Hs. split_and!; [done..| | |].
  - by destruct (ec_stage c).
  - intros Hc'. rewrite (Ho Hc'). split; [done | by apply (xi_vacant _ _ I k)].
  - intros Hx%Hs. rewrite (proj1 (Hu Hx)). split; [by destruct (ec_stage c) | by apply Hu].
Qed.

(** A new call, which is not yet anyone's: it runs and the chat has neither a call nor a session. *)
Lemma xinv_new_call m es c : xinv m es -> ec_record c = None -> call_pending (ec_stage c) = true ->
  (call_runs (ec_stage c) = true -> has_opened (ec_stage c) = false /\ xm_sessions m !! bd_chatId (ec_input c) = None) ->
  xm_opening m !! bd_chatId (ec_input c) = None ->
  xinv (xm_set_opening (<[bd_chatId (ec_input c) := xm_next m]> (xm_opening m)) (xm_set_next (S (xm_next m)) (xm_set_calls (<[xm_next m := c]> (xm_calls m)) m))) es.
Proof.
  intros I Hr Hp Hc Ho.
  assert (forall j d, xm_calls m !! j = Some d -> j <> xm_next m) as Hne.
  { intros j d Hj ->. apply (Nat.lt_irrefl (xm_next m)). by eapply (xi_calls _ _ I); eauto. }
  set (m' := xm_set_opening _ _).
  assert (forall o r, owns m' o r <-> owns m o r) as Hown.
  { intros [j| |] r; [|done..]. unfold m'. cbn. split; intros (d & Hd & He).
    - apply lookup_insert_Some in Hd as [[<- <-]|[? Hd]]; [by rewrite Hr in He; destruct He | eauto].
    - exists d. rewrite lookup_insert_ne by (intros <-; by eapply Hne). done. }
  assert (forall o r, owns m o r -> standing_of m' o = standing_of m o) as Hst.
  { intros [j| |] r Hx; [|done..]. unfold m'. cbn in *. destruct Hx as (d & Hd & _). rewrite lookup_insert_ne; [done|]. intros <-. by eapply Hne. }
  split; cbn [m' xm_records xm_calls xm_reaps xm_sessions xm_opening xm_next xm_set_calls xm_set_next xm_set_opening].
  - intros r Hx%(xi_records _ _ I). lia.
  - intros j [d [[<- <-]|[_ Hj]]%lookup_insert_Some]; [lia|]. enough (j < xm_next m)%nat by lia. by eapply (xi_calls _ _ I); eauto.
  - intros r Hx%(xi_reaps _ _ I). lia.
  - intros j d r [[<- <-]|[_ Hj]]%lookup_insert_Some Hd; [congruence | by eapply (xi_binding _ _ I); eauto].
  - intros j d [[<- <-]|[_ Hj]]%lookup_insert_Some Hd; [|by eapply (xi_stage _ _ I); eauto].
    rewrite Hr, (proj1 (Hc Hd)). split; [intros [? ?]; done | done].
  - apply (xi_sessions _ _ I).
  - intros h j [[<- <-]|[_ Hj]]%lookup_insert_Some; [rewrite lookup_insert_eq; eauto|].
    destruct (xi_opening _ _ I h j Hj) as (d & Hd & He). exists d. rewrite lookup_insert_ne by (intros <-; by eapply Hne). done.
  - intros j d [[<- <-]|[_ Hj]]%lookup_insert_Some Hd; [by rewrite lookup_insert_eq|].
    pose proof (xi_pending _ _ I _ _ Hj Hd) as Hx. rewrite lookup_insert_ne; [done|]. intros He. rewrite He in Ho. congruence.
  - intros j d [[<- <-]|[_ Hj]]%lookup_insert_Some Hd; [by apply Hc | by eapply (xi_vacant _ _ I); eauto].
  - intros r Hx%(xi_owned _ _ I). destruct Hx as [o Hx]. exists o. by apply Hown.
  - intros o r Hx%Hown. by apply (xi_known _ _ I) in Hx.
  - intros o o' r Hx%Hown Hy%Hown. by apply (xi_unique _ _ I o o' r).
  - intros o r Hx%Hown. rewrite (Hst _ _ Hx). by apply (xi_closes _ _ I).
  - apply (xi_unknown _ _ I).
Qed.

(** ** Changes of owner *)

Definition asked (s : standing) : nat := if decide (s = sd_closed) then 1 else 0.

(** Session [r0] comes to [o1]; every other session keeps its owner. *)
Definition passes (m m' : session_manager) (r0 : nat) (o1 : owner) : Prop :=
  (forall o r, owns m' o r <-> (r <> r0 /\ owns m o r) \/ (r = r0 /\ o = o1))
  /\ (forall r, is_Some (xm_records m' !! r) <-> r = r0 \/ is_Some (xm_records m !! r))
  /\ (forall o r, r <> r0 -> owns m o r -> standing_of m' o = standing_of m o).

Lemma own_passes m m' es es' r0 o1 : xinv m es -> passes m m' r0 o1 -> (forall r, r <> r0 -> closes r es' = 0%nat) ->
  closes r0 (es ++ es') = asked (standing_of m' o1) ->
  (forall r, is_Some (xm_records m' !! r) -> exists o, owns m' o r)
  /\ (forall o r, owns m' o r -> is_Some (xm_records m' !! r))
  /\ (forall o o' r, owns m' o r -> owns m' o' r -> o = o')
  /\ (forall o r, owns m' o r -> closes r (es ++ es') = asked (standing_of m' o))
  /\ (forall r, xm_records m' !! r = None -> closes r (es ++ es') = 0%nat).
Proof.
  intros I (Ho & Hr & Hs) He H0. split_and!.
  - intros r Hx. destruct (decide (r = r0)) as [->|Hne]; [exists o1; apply Ho; auto|].
    apply Hr in Hx as [?|Hx]; [done|]. destruct (xi_owned _ _ I r Hx) as [o Hx']. exists o. apply Ho. auto.
  - intros o r [[? Hx]|[-> _]]%Ho; apply Hr; [right; by apply (xi_known _ _ I o) | by left].
  - intros o o' r [[? Hx]|[-> ->]]%Ho [[? Hy]|[? ->]]%Ho; try done. by apply (xi_unique _ _ I o o' r).
  - intros o r [[Hne Hx]|[-> ->]]%Ho; [|done]. rewrite closings_app, He, Nat.add_0_r, (Hs _ _ Hne Hx) by done. by apply (xi_closes _ _ I).
  - intros r Hx. assert (r <> r0) as Hne by (intros ->; destruct (proj2 (Hr r0) (or_introl eq_refl)); congruence).
    rewrite closings_app, He, Nat.add_0_r by done. apply (xi_unknown _ _ I). apply eq_None_not_Some. intros Hy. apply eq_None_not_Some in Hx. apply Hx, Hr. auto.
Qed.

(** The runtime's answer makes a session, which is the call's. *)
Lemma xinv_answered m es k c o now : xinv m es -> xm_calls m !! k = Some c -> ec_stage c = es_opening -> xinv (open_answered k o now m) es.
Proof.
  intros I Hk Hst. unfold open_answered. rewrite Hk, (on_call_at _ _ _ c) by done. set (r0 := xm_next m). set (m' := xm_set_calls _ _).
  assert (xm_records m !! r0 = None) as Hn.
  { apply eq_None_not_Some. intros Hx%(xi_records _ _ I). unfold r0 in Hx. lia. }
  assert (ec_record c = None) as Hrc.
  { destruct (ec_record c) eqn:E; [|done]. pose proof (proj1 (xi_stage _ _ I k c Hk ltac:(by rewrite Hst))) as H. rewrite E, Hst in H. discriminate H; eauto. }
  assert (forall o r, owns m o r -> r <> r0) as Hne by (intros ? r [x Hx]%(xi_known _ _ I) ->; congruence).
  assert (passes m m' r0 (ow_call k)) as Hpass.
  { split_and!.
    - intros [j|h|n] r; unfold m'; cbn.
      + split.
        * intros (d & [[<- <-]|[? Hd]]%lookup_insert_Some & He & Hf); [right; cbn in He; split; congruence | left; split; [eapply (Hne (ow_call j)) | ]; eexists; eauto].
        * intros [(Hr & d & Hd & He)|[-> [= ->]]]; [|rewrite lookup_insert_eq; eauto].
          exists d. rewrite lookup_insert_ne by (intros <-; rewrite Hk in Hd; simplify_eq; destruct He; congruence). done.
      + split; [intros Hx; left; split; [by apply (Hne (ow_chat h)) | done] | intros [[_ Hx]|[_ [=]]]; done].
      + split; [intros Hx; left; split; [by apply (Hne (ow_reap n)) | done] | intros [[_ Hx]|[_ [=]]]; done].
    - intros r. unfold m'. cbn. rewrite lookup_insert_is_Some. destruct (decide (r0 = r)); naive_solver.
    - intros [j|h|n] r Hr Hx; [|done..]. unfold m'. cbn in *. destruct Hx as (d & Hd & He & _). rewrite lookup_insert_ne; [done|]. intros <-. congruence. }
  destruct (own_passes m m' es [] r0 (ow_call k) I Hpass) as (H1 & H2 & H3 & H4 & H5); [done | | rewrite app_nil_r in *].
  { rewrite app_nil_r, (xi_unknown _ _ I) by done. unfold m'. cbn. by rewrite lookup_insert_eq. }
  split; [..|exact H1|exact H2|exact H3|exact H4|exact H5]; clear H1 H2 H3 H4 H5 Hpass;
    cbn [m' xm_records xm_calls xm_reaps xm_sessions xm_opening xm_next xm_set_calls xm_set_next xm_set_records].
  - intros r [x [[<- _]|[_ Hx]]%lookup_insert_Some]; [lia|]. enough (r < xm_next m)%nat by lia. eapply (xi_records _ _ I). eauto.
  - intros j [d [[<- <-]|[_ Hj]]%lookup_insert_Some]; eapply Nat.lt_lt_succ_r, (xi_calls _ _ I); eauto.
  - intros r Hx%(xi_reaps _ _ I). lia.
  - intros j d r [[<- <-]|[_ Hj]]%lookup_insert_Some Hd.
    + cbn in Hd. injection Hd as <-. rewrite lookup_insert_eq. eauto.
    + destruct (xi_binding _ _ I j d r Hj Hd) as (x & Hx & Hy). exists x. rewrite lookup_insert_ne; [done | congruence].
  - intros j d [[<- <-]|[_ Hj]]%lookup_insert_Some Hd; [cbn; split; eauto | by eapply (xi_stage _ _ I); eauto].
  - intros h r Hx. destruct (xi_sessions _ _ I h r Hx) as (x & Hy & Hz). exists x. rewrite lookup_insert_ne; [done | congruence].
  - intros h j Hj. destruct (xi_opening _ _ I h j Hj) as (d & Hd & He).
    destruct (decide (j = k)) as [->|]; [rewrite lookup_insert_eq | rewrite lookup_insert_ne by done; eauto].
    simplify_eq. eauto.
  - intros j d [[<- <-]|[_ Hj]]%lookup_insert_Some Hd; [|by eapply (xi_pending _ _ I); eauto].
    cbn. apply (xi_pending _ _ I k c Hk). by rewrite Hst.
  - intros j d [[<- <-]|[_ Hj]]%lookup_insert_Some Hd; [|by eapply (xi_vacant _ _ I); eauto].
    cbn. apply (xi_vacant _ _ I k c Hk). by rewrite Hst.
Qed.

(** What a change of call [k] alone means for the fields of the invariant that speak of calls by their chat. *)
Lemma calls_put m es k c c' : xinv m es -> xm_calls m !! k = Some c -> ec_input c' = ec_input c ->
  (forall j, is_Some (<[k := c']> (xm_calls m) !! j) -> (j < xm_next m)%nat)
  /\ (forall chatId j, xm_opening m !! chatId = Some j -> exists d, <[k := c']> (xm_calls m) !! j = Some d /\ bd_chatId (ec_input d) = chatId).
Proof.
  intros I Hk Hi. split.
  - intros j [d [[<- <-]|[_ Hj]]%lookup_insert_Some]; eapply (xi_calls _ _ I); eauto.
  - intros h j Hj. destruct (xi_opening _ _ I h j Hj) as (d & Hd & He).
    destruct (decide (j = k)) as [->|]; [rewrite lookup_insert_eq | rewrite lookup_insert_ne by done; eauto].
    exists c'. simplify_eq. by rewrite Hi.
Qed.

(** A chat has one call at a time. *)
Lemma single_flight m es j k c d : xinv m es -> xm_calls m !! j = Some c -> xm_calls m !! k = Some d -> bd_chatId (ec_input c) = bd_chatId (ec_input d) ->
  call_pending (ec_stage c) = true -> call_pending (ec_stage d) = true -> j = k.
Proof. intros I Hj Hk He Hc Hd. pose proof (xi_pending _ _ I _ _ Hj Hc). pose proof (xi_pending _ _ I _ _ Hk Hd). congruence. Qed.

Lemma runs_pending s : call_runs s = true -> call_pending s = true.
Proof. by destruct s. Qed.

Lemma opened_runs s : has_opened s = true -> call_runs s = true.
Proof. by destruct s. Qed.

Lemma opened_unregistered s : has_opened s = true -> unregistered s = true.
Proof. by destruct s. Qed.
#[local] Hint Resolve runs_pending opened_runs opened_unregistered : core.

(** The session becomes the chat's. *)
Lemma xinv_registered m m' es k c r : xinv m es -> xm_calls m !! k = Some c -> has_opened (ec_stage c) = true ->
  call_standing (ec_stage c) = sd_opening -> ec_record c = Some r ->
  xm_sessions m' = <[bd_chatId (ec_input c) := r]> (xm_sessions m) -> xm_calls m' = <[k := ec_set_stage (es_settled (Ok r)) c]> (xm_calls m) ->
  xm_records m' = xm_records m -> xm_opening m' = xm_opening m -> xm_reaps m' = xm_reaps m -> xm_next m' = xm_next m -> xinv m' es.
Proof.
  intros I Hk Hst Hop Hrc Es Ec Er Eo Ep En. set (c' := ec_set_stage _ _) in Ec.
  assert (owns m (ow_call k) r) as Howns by (exists c; auto).
  destruct (calls_put m es k c c' I Hk eq_refl) as [P1 P2].
  assert (passes m m' r (ow_chat (bd_chatId (ec_input c)))) as Hpass.
  { split_and!.
    - intros o r'. split.
      + intros Ho. destruct (decide (r' = r)) as [->|Hr]; [right; split; [done|] | left; split; [done|]].
        * destruct o as [j|h|n]; cbn in Ho; rewrite ?Ec, ?Es, ?Ep in Ho.
          -- destruct Ho as (d & [[<- <-]|[Hj Hd]]%lookup_insert_Some & He & Hu); [done|].
             assert (owns m (ow_call j) r) as Hx by (exists d; done). pose proof (xi_unique _ _ I _ _ _ Howns Hx). congruence.
          -- apply lookup_insert_Some in Ho as [[<- _]|[_ Ho]]; [done|]. by pose proof (xi_unique _ _ I _ (ow_chat h) _ Howns Ho).
          -- by pose proof (xi_unique _ _ I _ (ow_reap n) _ Howns Ho).
        * destruct o as [j|h|n]; cbn in Ho |- *; rewrite ?Ec, ?Es, ?Ep in Ho; [| |done].
          -- destruct Ho as (d & [[<- <-]|[Hj Hd]]%lookup_insert_Some & He & Hu); [done | eauto].
          -- apply lookup_insert_Some in Ho as [[_ ->]|[_ Ho]]; done.
      + intros [[Hr Ho]|[-> ->]]; [|cbn; rewrite Es; apply lookup_insert_eq].
        destruct o as [j|h|n]; cbn in Ho |- *; rewrite ?Ec, ?Es, ?Ep; [| |done].
        * destruct Ho as (d & Hd & He). exists d. rewrite lookup_insert_ne; [done|]. intros <-. rewrite Hk in Hd. destruct He. congruence.
        * rewrite lookup_insert_ne; [done|]. intros <-. rewrite (xi_vacant _ _ I k c Hk) in Ho by auto. done.
    - intros r'. rewrite Er. split; [auto | intros [->|?]; [by apply (xi_known _ _ I (ow_call k)) | done]].
    - intros [j|h|n] r' Hr Ho; cbn; rewrite ?Ec, ?Ep; [|done..].
      destruct Ho as (d & Hd & He & _). rewrite lookup_insert_ne; [done|]. intros <-. congruence. }
  destruct (own_passes m m' es [] r _ I Hpass) as (H1 & H2 & H3 & H4 & H5); [done | | rewrite app_nil_r in *].
  { rewrite app_nil_r, (xi_closes _ _ I _ _ Howns). cbn. by rewrite Hk, Hop. }
  split; [..|exact H1|exact H2|exact H3|exact H4|exact H5]; clear H1 H2 H3 H4 H5 Hpass; rewrite ?Es, ?Ec, ?Er, ?Eo, ?Ep, ?En; try apply I; try done.
  - intros j d r' [[<- <-]|[_ Hj]]%lookup_insert_Some Hd; [|by eapply (xi_binding _ _ I); eauto].
    destruct (xi_binding _ _ I k c r' Hk Hd) as (x & Hx & Hy & _). exists x. done.
  - intros j d [[<- <-]|[_ Hj]]%lookup_insert_Some Hd; [done | by eapply (xi_stage _ _ I); eauto].
  - intros h r' [[<- <-]|[_ Hj]]%lookup_insert_Some; [|by eapply (xi_sessions _ _ I); eauto].
    destruct (xi_binding _ _ I k c r Hk Hrc) as (x & Hx & Hy & Hz). exists x. rewrite Hy. split_and!; [done | done | by apply Hz, opened_unregistered].
  - intros j d [[<- <-]|[_ Hj]]%lookup_insert_Some Hd; [apply (xi_pending _ _ I k c); auto | by eapply (xi_pending _ _ I); eauto].
  - intros j d [[<- <-]|[Hne Hj]]%lookup_insert_Some Hd; [done|]. rewrite lookup_insert_ne; [by eapply (xi_vacant _ _ I); eauto|].
    intros He. apply Hne. eapply (single_flight m es k j); eauto.
Qed.

(** A session the call has to undo is asked to close. *)
Lemma xinv_undone m m' es k c r : xinv m es -> xm_calls m !! k = Some c -> ec_stage c = es_undoing -> ec_record c = Some r ->
  m' = xm_set_calls (<[k := ec_set_stage es_closing c]> (xm_calls m)) m -> xinv m' (es ++ [XeClose r]).
Proof.
  intros I Hk Hst Hrc Em. set (c' := ec_set_stage _ _) in Em.
  assert (owns m (ow_call k) r) as Howns by (exists c; by rewrite Hst).
  assert (passes m m' r (ow_call k)) as Hpass.
  { split_and!; subst m'.
    - intros o r'. split.
      + intros Ho. assert (owns m o r') as Ho'.
        { destruct o as [j|h|n]; [|done..]. cbn in Ho. destruct Ho as (d & [[<- <-]|[Hj Hd]]%lookup_insert_Some & He & Hu); [exists c; by rewrite Hst | by exists d]. }
        destruct (decide (r' = r)) as [->|Hr]; [right; split; [done|] | by left]. by apply (xi_unique _ _ I o (ow_call k) r).
      + intros [[Hr Ho]|[-> ->]]; [|exists c'; cbn; by rewrite lookup_insert_eq].
        destruct o as [j|h|n]; [|done..]. destruct Ho as (d & Hd & He). exists d. cbn. rewrite lookup_insert_ne; [done|].
        intros <-. rewrite Hk in Hd. destruct He. congruence.
    - intros r'. split; [auto | intros [->|?]; [by apply (xi_known _ _ I (ow_call k)) | done]].
    - intros [j|h|n] r' Hr Ho; [|done..]. cbn. destruct Ho as (d & Hd & He & _). rewrite lookup_insert_ne; [done|]. intros <-. congruence. }
  assert (closes r (es ++ [XeClose r]) = 1%nat) as Hcl.
  { rewrite closings_app, (xi_closes _ _ I _ _ Howns). cbn. rewrite Hk, Hst. by destruct (decide (r = r)). }
  destruct (own_passes m m' es [XeClose r] r _ I Hpass) as (H1 & H2 & H3 & H4 & H5).
  { intros r' Hr. cbn. by destruct (decide (r = r')). }
  { rewrite Hcl. subst m'. cbn. by rewrite lookup_insert_eq. }
  destruct (calls_put m es k c c' I Hk eq_refl) as [P1 P2].
  split; [..|exact H1|exact H2|exact H3|exact H4|exact H5]; clear H1 H2 H3 H4 H5 Hpass; subst m';
    cbn [xm_records xm_calls xm_reaps xm_sessions xm_opening xm_next xm_set_calls]; try apply I; try done.
  - intros j d r' [[<- <-]|[_ Hj]]%lookup_insert_Some Hd; [|by eapply (xi_binding _ _ I); eauto].
    destruct (xi_binding _ _ I k c r' Hk Hd) as (x & Hx & Hy & Hz). exists x. rewrite Hst in Hz. auto.
  - intros j d [[<- <-]|[_ Hj]]%lookup_insert_Some Hd; [cbn; rewrite Hrc; split; eauto | by eapply (xi_stage _ _ I); eauto].
  - intros j d [[<- <-]|[_ Hj]]%lookup_insert_Some Hd; [apply (xi_pending _ _ I k c); by rewrite ?Hst | by eapply (xi_pending _ _ I); eauto].
  - intros j d [[<- <-]|[_ Hj]]%lookup_insert_Some Hd; [apply (xi_vacant _ _ I k c); by rewrite ?Hst | by eapply (xi_vacant _ _ I); eauto].
Qed.

(** The call's own [finally]. *)
Lemma xinv_done m es k c o : xinv m es -> xm_calls m !! k = Some c -> ec_stage c = es_settled o -> xinv (call_finally k c o m).1 es.
Proof.
  intros I Hk Hst. unfold call_finally. cbn. rewrite (xi_pending _ _ I k c Hk) by (by rewrite Hst). rewrite bool_decide_eq_true_2 by done.
  rewrite (at_stage_of_at _ _ _ c) by done.
  assert (moves m c (ec_set_stage (es_done o) c)) as Hm by (unfold moves; rewrite Hst; cbn; split_and!; try done; destruct o as [?|[]]; done).
  pose proof (xinv_call m es k c _ I Hk Hm) as J. set (m1 := xm_set_calls _ _) in J.
  match goal with |- xinv ?x _ => replace x with (xm_set_opening (delete (bd_chatId (ec_input c)) (xm_opening m)) m1) by done end.
  split; try apply J.
  - intros h j Hj. cbn in Hj. apply lookup_delete_Some in Hj as [Hne Hj]. eapply (xi_opening _ _ J); eauto.
  - intros j d Hj Hd. pose proof (xi_pending _ _ J j d Hj Hd) as Hx. cbn. rewrite lookup_delete_ne; [done|]. intros He.
    rewrite <- He in Hx. cbn in Hx. rewrite (xi_pending _ _ I k c Hk) in Hx by (by rewrite Hst). injection Hx as <-.
    cbn in Hj. rewrite lookup_insert_eq in Hj. by injection Hj as <-.
Qed.

(** A reap without a session. *)
Lemma xinv_reap_plain m m' es es' n p : xinv m es -> rp_record p = None -> (forall q, xm_reaps m !! n = Some q -> rp_record q = None) ->
  xm_sessions m' = xm_sessions m -> xm_calls m' = xm_calls m -> xm_records m' = xm_records m -> xm_opening m' = xm_opening m ->
  xm_reaps m' = <[n := p]> (xm_reaps m) -> (xm_next m <= xm_next m')%nat -> (n < xm_next m')%nat -> (forall r, closes r es' = 0%nat) -> xinv m' (es ++ es').
Proof.
  intros I Hp Hq Es Ec Er Eo Ep En Hn He.
  assert (forall o r, owns m' o r <-> owns m o r) as Hown.
  { intros [j|h|i] r; cbn; rewrite ?Es, ?Ec, ?Ep; [done..|]. split; intros (q & Hi & Hr).
    - apply lookup_insert_Some in Hi as [[<- <-]|[_ Hi]]; [congruence | eauto].
    - exists q. rewrite lookup_insert_ne; [done|]. intros <-. rewrite (Hq q) in Hr by done. done. }
  assert (forall o r, owns m o r -> standing_of m' o = standing_of m o) as Hst.
  { intros [j|h|i] r Ho; cbn; rewrite ?Ec, ?Ep; [done..|]. destruct Ho as (q & Hi & Hr). rewrite lookup_insert_ne; [done|].
    intros <-. rewrite (Hq q) in Hr by done. done. }
  split; rewrite ?Es, ?Ec, ?Er, ?Eo, ?Ep; try apply I.
  - intros r Hx%(xi_records _ _ I). lia.
  - intros r Hx%(xi_calls _ _ I). lia.
  - intros i [q [[<- _]|[_ Hi]]%lookup_insert_Some]; [done|]. enough (i < xm_next m)%nat by lia. eapply (xi_reaps _ _ I); eauto.
  - intros r Hx%(xi_owned _ _ I). destruct Hx as [o Hx]. exists o. by apply Hown.
  - intros o r Hx%Hown. by apply (xi_known _ _ I) in Hx.
  - intros o o' r Hx%Hown Hy%Hown. by apply (xi_unique _ _ I o o' r).
  - intros o r Hx%Hown. rewrite closings_app, He, Nat.add_0_r, (Hst _ _ Hx). by apply (xi_closes _ _ I).
  - intros r Hx. rewrite closings_app, He, Nat.add_0_r. by apply (xi_unknown _ _ I).
Qed.

(** A reap takes the chat's session. *)
Lemma xinv_taken m m' es es' chatId r n p f : xinv m es -> xm_sessions m !! chatId = Some r -> xm_reaps m !! n = None -> rp_record p = Some r ->
  (forall x, sr_binding (f x) = sr_binding x) ->
  xm_sessions m' = delete chatId (xm_sessions m) -> xm_records m' = alter f r (xm_records m) -> xm_reaps m' = <[n := p]> (xm_reaps m) ->
  xm_calls m' = xm_calls m -> xm_opening m' = xm_opening m -> (xm_next m <= xm_next m')%nat -> (n < xm_next m')%nat ->
  (forall r', r' <> r -> closes r' es' = 0%nat) -> closes r es' = asked (reap_standing (rp_stage p)) -> xinv m' (es ++ es').
Proof.
  intros I Hs Hn Hp Hf Es Er Ep Ec Eo En Hlt He He0.
  assert (owns m (ow_chat chatId) r) as Howns by done.
  assert (forall r', is_Some (xm_records m' !! r') <-> is_Some (xm_records m !! r')) as Hdom.
  { intros r'. rewrite Er. by rewrite lookup_alter_is_Some. }
  assert (passes m m' r (ow_reap n)) as Hpass.
  { split_and!.
    - intros o r'. split.
      + intros Ho. assert (o = ow_reap n /\ r' = r \/ owns m o r' /\ o <> ow_chat chatId) as [[-> ->]|[Ho' Hne]].
        { destruct o as [j|h|i]; cbn in Ho; rewrite ?Es, ?Ec, ?Ep in Ho.
          - by right.
          - apply lookup_delete_Some in Ho as [? Ho]. right. split; [done | congruence].
          - destruct Ho as (q & [[<- <-]|[? Hq]]%lookup_insert_Some & Hr); [left; split; congruence | right; split; [by exists q | done]]. }
        * by right.
        * left. split; [|done]. intros ->. apply Hne. by apply (xi_unique _ _ I o (ow_chat chatId) r).
      + intros [[Hr Ho]|[-> ->]]; [|exists p; rewrite Ep, lookup_insert_eq; done].
        destruct o as [j|h|i]; cbn in Ho |- *; rewrite ?Es, ?Ec, ?Ep; [done| |].
        * rewrite lookup_delete_ne; [done|]. intros <-. congruence.
        * destruct Ho as (q & Hq & Hr'). exists q. rewrite lookup_insert_ne; [done|]. congruence.
    - intros r'. rewrite Hdom. split; [auto | intros [->|?]; [by apply (xi_known _ _ I (ow_chat chatId)) | done]].
    - intros [j|h|i] r' Hr Ho; cbn; rewrite ?Ec, ?Ep; [done..|]. destruct Ho as (q & Hq & _). rewrite lookup_insert_ne; [done | congruence]. }
  destruct (own_passes m m' es es' r _ I Hpass) as (H1 & H2 & H3 & H4 & H5); [done| |].
  { rewrite closings_app, (xi_closes _ _ I _ _ Howns), He0. cbn. by rewrite Ep, lookup_insert_eq. }
  split; [..|exact H1|exact H2|exact H3|exact H4|exact H5]; clear H1 H2 H3 H4 H5 Hpass; rewrite ?Es, ?Ec, ?Eo, ?Ep; try apply I.
  - intros r' Hx%Hdom%(xi_records _ _ I). lia.
  - intros j Hx%(xi_calls _ _ I). lia.
  - intros i [q [[<- _]|[_ Hi]]%lookup_insert_Some]; [done|]. enough (i < xm_next m)%nat by lia. eapply (xi_reaps _ _ I); eauto.
  - intros k c r' Hk Hc. destruct (xi_binding _ _ I k c r' Hk Hc) as (x & Hx & Hy & Hz). rewrite Er. destruct (decide (r' = r)) as [->|Hr].
    + exists (f x). rewrite lookup_alter_eq, Hx, Hf. split_and!; [done..|]. intros Hu.
      assert (owns m (ow_call k) r) as Hx' by (by exists c). by pose proof (xi_unique _ _ I _ _ _ Howns Hx').
    + exists x. rewrite lookup_alter_ne; done.
  - intros h r' [Hne Hx]%lookup_delete_Some. destruct (xi_sessions _ _ I h r' Hx) as (x & Hy & Hz). exists x. rewrite Er, lookup_alter_ne; [done|].
    intros <-. pose proof (xi_unique _ _ I _ (ow_chat h) _ Howns Hx). congruence.
  - intros k c Hk Hc. apply lookup_delete_None. right. by apply (xi_vacant _ _ I k).
Qed.

(** A reap moves on. *)
Lemma xinv_reap_go m m' es es' n q p : xinv m es -> xm_reaps m !! n = Some q -> rp_record p = rp_record q ->
  xm_sessions m' = xm_sessions m -> xm_calls m' = xm_calls m -> xm_records m' = xm_records m -> xm_opening m' = xm_opening m ->
  xm_reaps m' = <[n := p]> (xm_reaps m) -> xm_next m' = xm_next m ->
  (forall r, rp_record q <> Some r -> closes r es' = 0%nat) ->
  (forall r, rp_record q = Some r -> asked (reap_standing (rp_stage p)) = (asked (reap_standing (rp_stage q)) + closes r es')%nat) -> xinv m' (es ++ es').
Proof.
  intros I Hn Hpq Es Ec Er Eo Ep En Hother Hown.
  assert (n < xm_next m)%nat as Hlt by (eapply (xi_reaps _ _ I); eauto).
  destruct (rp_record q) as [r|] eqn:Hq.
  2: { eapply (xinv_reap_plain m m' es es' n p); rewrite ?En; try done; try lia; intros; apply Hother || congruence; congruence. }
  assert (owns m (ow_reap n) r) as Howns by (by exists q).
  assert (passes m m' r (ow_reap n)) as Hpass.
  { split_and!.
    - intros o r'. assert (owns m' o r' <-> owns m o r') as ->.
      { destruct o as [j|h|i]; cbn; rewrite ?Es, ?Ec, ?Ep; [done..|]. destruct (decide (i = n)) as [->|]; [|by rewrite lookup_insert_ne].
        rewrite lookup_insert_eq, Hn. split; intros (x & [= <-] & Hx); eexists; (split; [done | congruence]). }
      split; [|intros [[_ ?]|[-> ->]]; done]. intros Ho. destruct (decide (r' = r)) as [->|]; [right | by left]. split; [done|]. by apply (xi_unique _ _ I o (ow_reap n) r).
    - intros r'. rewrite Er. split; [auto | intros [->|?]; [by apply (xi_known _ _ I (ow_reap n)) | done]].
    - intros [j|h|i] r' Hr Ho; cbn; rewrite ?Ec, ?Ep; [done..|]. destruct Ho as (x & Hx & Hx'). rewrite lookup_insert_ne; [done|]. intros <-. congruence. }
  destruct (own_passes m m' es es' r _ I Hpass) as (H1 & H2 & H3 & H4 & H5).
  { intros r' Hr. apply Hother. congruence. }
  { rewrite closings_app, (xi_closes _ _ I _ _ Howns). cbn. rewrite Ep, Hn, lookup_insert_eq. by rewrite (Hown r). }
  split; [..|exact H1|exact H2|exact H3|exact H4|exact H5]; clear H1 H2 H3 H4 H5 Hpass; rewrite ?Es, ?Ec, ?Eo, ?Ep, ?Er, ?En; try apply I.
  intros i [x [[<- _]|[_ Hi]]%lookup_insert_Some]; [done|]. eapply (xi_reaps _ _ I); eauto.
Qed.

(** ** Steps *)

Lemma same_core_fields m m' : xm_sessions m' = xm_sessions m -> xm_opening m' = xm_opening m -> xm_calls m' = xm_calls m -> xm_reaps m' = xm_reaps m ->
  (xm_next m <= xm_next m')%nat -> xm_records m' = xm_records m -> same_core m m'.
Proof. intros ????? Hr. unfold same_core. rewrite Hr. split_and!; try done. eauto. Qed.

Lemma same_core_record r f m : (forall x, sr_binding (f x) = sr_binding x /\ sr_closing (f x) = sr_closing x) -> same_core m (on_record r f m).
Proof.
  intros Hf. unfold same_core, on_record. cbn. split_and!; try done.
  - intros r'. by rewrite lookup_alter_None.
  - intros r' x Hx. destruct (decide (r' = r)) as [->|]; [|rewrite lookup_alter_ne; eauto].
    exists (f x). rewrite lookup_alter_eq, Hx. destruct (Hf x). done.
Qed.

Lemma xinv_frame m m' es : same_core m m' -> xinv m es -> xinv m' es.
Proof. intros H I. rewrite <- (app_nil_r es). by eapply xinv_same. Qed.

Lemma closes_holds r chatId reason explicit m : closes r (notifyHolds chatId reason explicit m) = 0%nat.
Proof.
  apply closes_none. unfold notifyHolds. destruct (_ && _); [done|]. apply Forall_forall. intros e He.
  apply list_elem_of_In, in_map_iff in He as (h & <- & _). done.
Qed.

Lemma closes_teardown r chatId reason m : closes r (teardown chatId reason m).1.2 = 0%nat.
Proof. unfold teardown. destruct (xm_sessions m !! chatId); [|done]. cbn. by destruct (_ ≫= _). Qed.

(** The synchronous part of a reap, in terms of the state it is given. *)
Lemma reap_start_state chatId reason keep explicit m :
  let m' := (reap_start chatId reason keep explicit m).1.1 in
  xm_sessions m' = delete chatId (xm_sessions m) /\ xm_calls m' = xm_calls m /\ xm_opening m' = xm_opening m /\ xm_waiters m' = xm_waiters m
  /\ xm_next m' = S (xm_next m) /\ (reap_start chatId reason keep explicit m).2 = xm_next m
  /\ xm_reapGenerations m' = <[chatId := generation chatId m + 1]> (xm_reapGenerations m) /\ xm_rows m' = xm_rows m.
Proof.
  unfold reap_start, teardown. cbn. destruct (xm_sessions m !! chatId) eqn:E; destruct keep; cbn; try (rewrite delete_id by done); done.
Qed.

Lemma xinv_reap_start m es chatId reason keep explicit : xinv m es ->
  xinv (reap_start chatId reason keep explicit m).1.1 (es ++ (reap_start chatId reason keep explicit m).1.2).
Proof.
  intros I. unfold reap_start, teardown. cbn.
  assert (xm_reaps m !! xm_next m = None) as Hn.
  { apply eq_None_not_Some. intros Hx%(xi_reaps _ _ I). lia. }
  destruct (xm_sessions m !! chatId) as [r|] eqn:E.
  - assert (forall r', closes r' (match xm_records m !! r ≫= sr_consumer with Some c => [XeTeardown c reason] | None => [] end) = 0%nat) as Ht.
    { intros r'. by destruct (xm_records m !! r ≫= sr_consumer). }
    destruct keep; cbn -[closes];
      (eapply (xinv_taken m _ es _ chatId r (xm_next m) _ (fun x => sr_set_consumer None (sr_set_subscribed false (sr_set_closing true x)))); try done; cbn -[closes]; try lia).
    all: try done; intros; rewrite ?closings_app, ?closes_holds, Ht; cbn; by repeat destruct (decide _).
  - destruct keep; cbn -[closes]; eapply (xinv_reap_plain m _ es _ (xm_next m)); try done; cbn -[closes]; try lia; try congruence.
    all: intros; by rewrite ?closings_app, ?closes_holds.
Qed.

Lemma xinv_on_call m es k c f : xinv m es -> xm_calls m !! k = Some c -> moves m c (f c) -> xinv (on_call k f m) es.
Proof. intros I Hk Hm. rewrite (on_call_at _ _ _ c) by done. by eapply xinv_call. Qed.

Lemma on_call_lookup k f m c : xm_calls m !! k = Some c -> xm_calls (on_call k f m) !! k = Some (f c).
Proof. intros Hk. cbn. by rewrite lookup_alter_eq, Hk. Qed.

(** Discharges [moves] when the stages are known. *)
Ltac moving := match goal with I : xinv ?m _, Hk : xm_calls ?m !! ?k = Some ?c, Hs : ec_stage ?c = _ |- _ =>
  apply (moves_running m _ k c _ I Hk); cbn;
  repeat match goal with H : ec_stage _ = _ |- _ => rewrite H end; try done end.

Lemma xinv_open_start m es k c : xinv m es -> xm_calls m !! k = Some c -> ec_record c = None -> call_pending (ec_stage c) = true ->
  xm_sessions m !! bd_chatId (ec_input c) = None -> xinv (open_start k m) es.
Proof.
  intros I Hk Hr Hp Hs. unfold open_start. rewrite Hk. eapply xinv_on_call; [done..|].
  split_and!; try done; cbn; rewrite Hr; [|by intros [? ?]]. intros _. split; [|done]. split; [by intros [? ?] | done].
Qed.

Lemma xinv_ensure_start m es k c : xinv m es -> xm_calls m !! k = Some c -> ec_record c = None -> ec_stage c = es_starting ->
  xinv (ensure_start k m).1 (es ++ (ensure_start k m).2).
Proof.
  intros I Hk Hr Hst. unfold ensure_start. rewrite Hk.
  assert (forall o, moves m c (ec_set_stage (es_settled o) c)) as Hsettled.
  { intros o. split_and!; try done; cbn; rewrite ?Hst, ?Hr; [done | by intros [? ?]]. }
  assert (xm_sessions m !! bd_chatId (ec_input c) = None -> xinv (open_start k m) es) as Hopen.
  { intros. eapply xinv_open_start; try done. by rewrite Hst. }
  destruct (xm_shuttingDown m); [cbn; rewrite app_nil_r; by eapply xinv_on_call|].
  destruct (xm_sessions m !! bd_chatId (ec_input c)) as [r|] eqn:E; cbn -[closes]; [|rewrite app_nil_r; auto].
  destruct (xi_sessions _ _ I _ _ E) as (x & Hx & Hc & Hcl). rewrite Hx. cbn. rewrite Hcl.
  destruct (sameBinding _ _); [cbn; rewrite app_nil_r; by eapply xinv_on_call|].
  pose proof (xinv_reap_start m es (bd_chatId (ec_input c)) r_session_lost false false I) as J.
  pose proof (reap_start_state (bd_chatId (ec_input c)) r_session_lost false false m) as F.
  destruct (reap_start _ _ _ _ m) as [[m' es'] n]. cbn in J, F |- *. destruct F as (F1 & F2 & F3 & _).
  eapply (xinv_on_call _ _ _ c); [done | by rewrite F2|]. split_and!; try done; cbn; rewrite ?Hst, ?Hr, ?F1; [done| |by intros [? ?]].
  intros _. split; [split; [by intros [? ?] | done] | apply lookup_delete_eq].
Qed.

Lemma ensure_start_opening k o m : ensure_start k (xm_set_opening o m) = (xm_set_opening o (ensure_start k m).1, (ensure_start k m).2).
Proof.
  unfold ensure_start, open_start, reap_start, teardown, at_stage_of, on_call, on_record, generation, notifyHolds. cbn.
  destruct (xm_calls m !! k) as [c|]; [|done]. destruct (xm_shuttingDown m); [done|].
  destruct (xm_sessions m !! bd_chatId (ec_input c)) as [r|]; cbn; [|done].
  destruct (xm_records m !! r) as [x|]; cbn; [|done]. destruct (sr_closing x); [done|]. by destruct (sameBinding _ _).
Qed.

Lemma ensure_start_same_opening k m : xm_opening (ensure_start k m).1 = xm_opening m.
Proof. pose proof (ensure_start_opening k (xm_opening m) m) as H. apply (f_equal (fun p : xres => xm_opening p.1)) in H. by destruct m. Qed.

Lemma xinv_ensureSession m es input existingOnly : xinv m es ->
  xinv (ensureSession input existingOnly m).1 (es ++ (ensureSession input existingOnly m).2).
Proof.
  intros I. unfold ensureSession. destruct (xm_opening m !! bd_chatId input) as [j|] eqn:E.
  - destruct (xi_opening _ _ I _ _ E) as (d & Hd & _). cbn. rewrite Hd. cbn.
    destruct (sameBinding _ _); cbn; rewrite app_nil_r; [done|]. eapply xinv_frame; [|done]. apply same_core_fields; cbn; done || lia.
  - cbn. set (call := Build_ensure_call _ _ _ _ _ _ _ _ _ _ _). set (m1 := xm_set_next _ _).
    assert (xinv (xm_set_opening (<[bd_chatId input := xm_next m]> (xm_opening m)) m1) es) as J by (apply (xinv_new_call m es call); done).
    pose proof (xinv_ensure_start _ es (xm_next m) call J (lookup_insert_eq _ _ _) eq_refl eq_refl) as K.
    rewrite ensure_start_opening in K. pose proof (ensure_start_same_opening (xm_next m) m1) as Ho.
    destruct (ensure_start (xm_next m) m1) as [m2 es2]. cbn in K, Ho |- *. by rewrite Ho.
Qed.

(** A step that changes nothing the invariant speaks of. *)
Ltac framed := cbn; rewrite app_nil_r; (eapply xinv_frame; [|eassumption]); apply same_core_fields; cbn; done || lia.

Lemma xinv_after_matching m es k c s : xinv m es -> xm_calls m !! k = Some c -> ec_stage c = s -> call_runs s = true -> has_opened s = false ->
  xinv (after_matching k m).1 (es ++ (after_matching k m).2).
Proof.
  intros I Hk Hst Hs Ho. unfold after_matching. rewrite Hk. set (fresh := match ec_matching c with Some _ => _ | None => _ end).
  assert (xinv (on_call k (ec_set_startsFresh fresh) m) es) as J.
  { eapply xinv_on_call; [done..|]. moving; cbn; rewrite ?Hst, ?Ho; done. }
  pose proof (on_call_lookup k (ec_set_startsFresh fresh) m c Hk) as Hk'. set (m' := on_call k _ m) in *. set (c' := ec_set_startsFresh fresh c) in *.
  assert (ec_stage c' = s) as Hst' by done.
  assert (forall t, call_runs t = true -> has_opened t = false -> xinv (at_stage_of k t m') es) as Ht.
  { intros t Ht1 Ht2. eapply xinv_on_call; [done..|]. moving; cbn; rewrite ?Hst, ?Ht2, ?Ho; done. }
  destruct fresh; cbn; [rewrite app_nil_r; by apply Ht|]. rewrite <- (app_nil_r es) in Ht. eapply xinv_same; [by apply same_core_fields | done |].
  rewrite <- (app_nil_r es). by apply Ht.
Qed.

Lemma xinv_send_open m es k c : xinv m es -> xm_calls m !! k = Some c -> call_runs (ec_stage c) = true -> has_opened (ec_stage c) = false ->
  xinv (send_open k m).1 (es ++ (send_open k m).2).
Proof.
  intros I Hk Hs Ho. unfold send_open. rewrite Hk. cbn. eapply xinv_same; [by apply same_core_fields | done |].
  eapply xinv_on_call; [done..|]. apply (moves_running m es k c); cbn; rewrite ?Ho; done.
Qed.

Lemma xinv_register m es k c : xinv m es -> xm_calls m !! k = Some c -> ec_stage c = es_writing \/ ec_stage c = es_refreshing -> xinv (register k m) es.
Proof.
  intros I Hk Hst. unfold register. rewrite Hk. destruct (ec_record c) as [r|] eqn:Hr; [|done].
  destruct (negb _).
  - assert (xinv (on_record r (sr_set_subscribed false) m) es) as J by (eapply xinv_frame; [|done]; by apply same_core_record).
    eapply (xinv_on_call _ _ _ c); [done..|]. destruct Hst as [Hst|Hst]; by moving.
  - rewrite (at_stage_of_at _ _ _ c) by done. eapply (xinv_registered m _ es k c r); try done; by destruct Hst as [-> | ->].
Qed.

Lemma rows_frame m es rows : xinv m es -> xinv (xm_set_rows rows m) es.
Proof. intros I. eapply xinv_frame; [|done]. by apply same_core_fields. Qed.

Lemma leases_frame m es leases : xinv m es -> xinv (xm_set_leases leases m) es.
Proof. intros I. eapply xinv_frame; [|done]. by apply same_core_fields. Qed.

Lemma xinv_call_stored m es k ok now : xinv m es -> xinv (call_stored k ok now m).1 (es ++ (call_stored k ok now m).2).
Proof.
  intros I. unfold call_stored. destruct (xm_calls m !! k) as [c|] eqn:Hk; [|by cbn; rewrite app_nil_r].
  destruct (ec_stage c) eqn:Hst; try (cbn; rewrite app_nil_r; done); destruct ok; cbn [negb];
    try (cbn; rewrite app_nil_r; eapply xinv_on_call; [done..|]; by moving).
  - set (matching := matching_of _ _).
    assert (xinv (on_call k (ec_set_matching matching) m) es) as J by (eapply xinv_on_call; [done..|]; by moving).
    pose proof (on_call_lookup k (ec_set_matching matching) m c Hk) as Hk'. set (m' := on_call k _ m) in *. set (c' := ec_set_matching matching c) in *.
    assert (ec_stage c' = es_reading) as Hst' by done.
    destruct (xm_rows m !! _), matching; try by eapply (xinv_after_matching m' es k c').
    cbn. rewrite app_nil_r. eapply xinv_on_call; [done..|]. by moving.
  - pose proof (rows_frame m es (delete (bd_chatId (ec_input c)) (xm_rows m)) I) as J.
    cbn. rewrite app_nil_r. eapply (xinv_on_call _ _ _ c); [done..|]. by moving.
  - eapply (xinv_after_matching _ es k c); try done. by apply leases_frame.
  - pose proof (leases_frame m es (xm_leases (releaseAdoptionLease (bd_chatId (ec_input c)) m)) I) as J.
    cbn. eapply xinv_same; [by apply same_core_fields | done |]. eapply (xinv_on_call _ _ _ c); [done..|]. by moving.
  - destruct (ec_record c ≫= _) as [x|]; cbn; [|by rewrite app_nil_r].
    pose proof (rows_frame m es (xm_rows (writeContinuation (written_row c x) m)) I) as J.
    destruct (resumable c); cbn; rewrite app_nil_r; [|by eapply xinv_register; eauto].
    eapply (xinv_on_call _ _ _ c); [done..|]. by moving.
  - destruct (ec_record c ≫= _) as [x|]; cbn; rewrite app_nil_r; [|done]. eapply xinv_on_call; [done..|]; by moving.
  - cbn. rewrite app_nil_r. eapply (xinv_register _ es k c); auto. by apply leases_frame.
  - assert (is_Some (ec_record c)) as [r Hr] by (apply (xi_stage _ _ I k c Hk); by rewrite Hst).
    rewrite Hr. cbn -[closes]. pose proof (rows_frame m es (delete (bd_chatId (ec_input c)) (xm_rows m)) I) as J.
    eapply xinv_undone; [exact J | done | done | done|]. by apply at_stage_of_at.
Qed.

Lemma xinv_call_continues m es k a : xinv m es -> xinv (call_continues k a m).1 (es ++ (call_continues k a m).2).
Proof.
  intros I. unfold call_continues. destruct (xm_calls m !! k) as [c|] eqn:Hk; [|by cbn; rewrite app_nil_r].
  destruct (ec_stage c) eqn:Hst; try (cbn; rewrite app_nil_r; done); destruct a; try (cbn; rewrite app_nil_r; done).
  - destruct (xm_reaps m !! reap) as [p|]; cbn; [|by rewrite app_nil_r]. destruct (rp_stage p) as [| | |[]]; cbn; rewrite app_nil_r; try done.
    + eapply xinv_open_start; [done..| | |]; rewrite ?Hst; try done; [|by apply (xi_vacant _ _ I k c Hk); rewrite Hst].
      apply eq_None_not_Some. intros Hx. apply (xi_stage _ _ I k c Hk) in Hx; by rewrite Hst in *.
    + eapply xinv_on_call; [done..|]. by moving.
  - destruct client as [cl|]; cbn; rewrite app_nil_r; [|eapply xinv_on_call; [done..|]; by moving].
    assert (xinv (on_call k (ec_set_client cl) m) es) as J by (eapply xinv_on_call; [done..|]; by moving).
    pose proof (on_call_lookup k (ec_set_client cl) m c Hk) as Hk'. eapply (xinv_on_call _ _ k _ _ J Hk').
    apply (moves_running _ es k _ _ J Hk'); cbn; by rewrite ?Hst.
  - destruct sessionId as [sid|]; [|cbn; rewrite app_nil_r; eapply xinv_on_call; [done..|]; by moving].
    set (f := fun c => ec_set_deadline _ _).
    assert (xinv (on_call k f m) es) as J by (eapply xinv_on_call; [done..|]; by moving).
    eapply (xinv_send_open _ es k _ J (on_call_lookup k f m c Hk)); cbn; by rewrite Hst.
  - cbn. rewrite app_nil_r. by eapply xinv_answered.
  - cbn. rewrite app_nil_r. unfold open_refused. rewrite Hk.
    destruct (_ || _); [|destruct (negb _)]; (eapply xinv_on_call; [done..|]; by moving).
  - eapply xinv_send_open; [done..| |]; by rewrite Hst.
  - cbn. rewrite app_nil_r. eapply xinv_on_call; [done..|]; by moving.
  - eapply xinv_same; [by apply same_core_fields | done | by apply xinv_done].
Qed.

Lemma xinv_reap_continues m es n ok : xinv m es -> xinv (reap_continues n ok m).1 (es ++ (reap_continues n ok m).2).
Proof.
  intros I. unfold reap_continues. destruct (xm_reaps m !! n) as [p|] eqn:Hn; [|by cbn; rewrite app_nil_r].
  destruct (rp_stage p) eqn:Hst; [destruct ok|destruct ok; [destruct (rp_record p) as [r|] eqn:Hr|]| |by cbn; rewrite app_nil_r];
    cbn -[closes]; match goal with |- context [<[n := ?q]> _] => eapply (xinv_reap_go m _ es _ n p q) end;
    try done; cbn -[closes]; rewrite ?Hst, ?Hr; try done.
  all: intros r' Hx; cbn; destruct (decide (r = r')); simplify_eq; done.
Qed.

Lemma xinv_reap_each chatIds reason keep explicit : forall m es, xinv m es ->
  xinv (reap_each chatIds reason keep explicit m).1 (es ++ (reap_each chatIds reason keep explicit m).2).
Proof.
  induction chatIds as [|chatId rest IH]; intros m es I; simpl; [by rewrite app_nil_r|].
  pose proof (xinv_reap_start m es chatId reason keep explicit I) as J. destruct (reap_start _ _ _ _ m) as [[m' es'] n]. cbn in J |- *.
  specialize (IH _ _ J). destruct (reap_each rest _ _ _ m') as [m2 es2]. cbn in *. by rewrite app_assoc.
Qed.

Lemma records_frame m es r f : (forall x, sr_binding (f x) = sr_binding x /\ sr_closing (f x) = sr_closing x) -> xinv m es -> xinv (on_record r f m) es.
Proof. intros Hf I. eapply xinv_frame; [|done]. by apply same_core_record. Qed.

Lemma xinv_step o m es : xinv m es -> xinv (session_step o m).1 (es ++ (session_step o m).2).
Proof.
  intros I. destruct o; simpl.
  - by apply xinv_ensureSession.
  - unfold waiter_wakes. destruct (xm_waiters m !! w) as [[[input ex] k]|]; [|by cbn; rewrite app_nil_r].
    destruct (ec_stage <$> _) as [[]|]; try (cbn; rewrite app_nil_r; done). apply xinv_ensureSession.
    eapply xinv_frame; [|done]. by apply same_core_fields.
  - by apply xinv_call_stored.
  - by apply xinv_call_continues.
  - by apply xinv_reap_start.
  - by apply xinv_reap_each.
  - apply xinv_reap_each. eapply xinv_frame; [|done]. by apply same_core_fields.
  - by apply xinv_reap_continues.
  - unfold retire. destruct (xm_records m !! r); [destruct (isLive r m)|]; [by apply xinv_reap_start | cbn; by rewrite app_nil_r..].
  - rewrite app_nil_r. by apply records_frame.
  - rewrite app_nil_r. by apply records_frame.
  - rewrite app_nil_r. apply records_frame; [|done]. intros x. by destruct (bool_decide _).
  - rewrite app_nil_r. by apply records_frame.
  - rewrite app_nil_r. by apply records_frame.
  - rewrite app_nil_r. unfold mark_start. destruct (xm_records m !! r); [|done]. eapply xinv_frame; [|done]. apply same_core_fields; cbn; done || lia.
  - rewrite app_nil_r. unfold mark_stored. destruct (xm_marks m !! i) as [mk|]; [|done].
    destruct ok; [destruct (bool_decide _)|destruct (mk_unresumable mk)]; (eapply xinv_frame; [|done]; by apply same_core_fields).
  - unfold session_event. destruct (xm_records m !! r) as [x|]; [destruct (sr_subscribed x)|]; try (cbn; by rewrite app_nil_r).
    destruct (admit_envelope e (sr_sequencer x)) as [s v]. cbn. eapply xinv_same; [by apply same_core_record | by destruct (sr_consumer x) | done].
  - unfold client_closed. destruct (xm_records m !! r) as [x|]; [destruct (_ && _)|]; [by apply xinv_reap_start | cbn; by rewrite app_nil_r..].
  - rewrite app_nil_r. eapply xinv_frame; [|done]. apply same_core_fields; cbn; done || lia.
  - rewrite app_nil_r. unfold release_hold. destruct (xm_holds m !! chatId); [|done]. eapply xinv_frame; [|done]. by apply same_core_fields.
  - rewrite app_nil_r. unfold adopt_session. destruct (acquireAdoptionLease _ _); [|done]. eapply xinv_frame; [|done]. by apply same_core_fields.
Qed.

(** Runs, one step at a time. *)
Lemma session_run_snoc os o m : session_run (os ++ [o]) m = let '(m', es) := session_run os m in let '(m2, es2) := session_step o m' in (m2, es ++ es2).
Proof.
  revert m. induction os as [|o' os IH]; intros m; simpl.
  - unfold and_then. destruct (session_step o m) as [m' es]. simpl. by rewrite app_nil_r.
  - unfold and_then. destruct (session_step o' m) as [m' es]. rewrite IH. destruct (session_run os m') as [m2 es2].
    destruct (session_step o m2) as [m3 es3]. by rewrite app_assoc.
Qed.

Lemma xinv_run os : xinv (session_run os new_session_manager).1 (session_run os new_session_manager).2.
Proof.
  induction os as [|o os IH] using rev_ind; [apply xinv_initial|]. rewrite session_run_snoc.
  destruct (session_run os new_session_manager) as [m es]. apply (xinv_step o) in IH. cbn in IH. by destruct (session_step o m).
Qed.
