(* ===== verification/ExternalSessionsSafety.v ===== *)
(** * External agent sessions: what a run can do

    How one step of [ExternalSessions] changes its calls, records, rows and sessions, and the theorems about runs. *)

From S2P Require Import Prelude MessageParts Sequencer ExternalSessions ExternalSessionsFacts.

(** ** The calls of a step *)

(** The call waits for a reap before it reads the chat's generation. *)
Definition early (s : ensure_stage) : bool := match s with es_reaping _ => true | _ => false end.

(** A statement of the database failed. *)
Definition store_fails (o : session_op) : bool := match o with XoStored _ ok _ | XoReap _ ok => negb ok | _ => false end.

(** What a step does to a call that was there. *)
Record moved (m : session_manager) (failed : bool) (c c' : ensure_call) : Prop := {
  mv_input : ec_input c' = ec_input c;
  mv_started : ec_stage c' = es_starting -> ec_stage c = es_starting;
  mv_runs : call_runs (ec_stage c') = true -> call_runs (ec_stage c) = true
    /\ (early (ec_stage c) = false -> ec_generation c' = ec_generation c /\ early (ec_stage c') = false)
    /\ (early (ec_stage c) = true -> early (ec_stage c') = true \/ ec_generation c' = generation (bd_chatId (ec_input c)) m);
  mv_matching : ec_matching c' = ec_matching c \/ ec_matching c' = matching_of (xm_rows m !! bd_chatId (ec_input c)) (ec_input c);
  mv_lost : is_Some (ec_record c') -> call_standing (ec_stage c') = sd_lost ->
    failed = true \/ (is_Some (ec_record c) /\ call_standing (ec_stage c) = sd_lost);
}.

Lemma moved_refl m failed c : moved m failed c c.
Proof. split; auto. Qed.

(** Call [k] alone may have moved. *)
Definition one_moved (m : session_manager) (failed : bool) (k : nat) (calls : gmap nat ensure_call) : Prop :=
  forall j d', calls !! j = Some d' -> exists d, xm_calls m !! j = Some d /\ (j = k /\ moved m failed d d' \/ d' = d).

Lemma one_moved_same m failed k : one_moved m failed k (xm_calls m).
Proof. intros j d' Hj. eauto. Qed.

Lemma one_moved_alter m failed k c f : xm_calls m !! k = Some c -> moved m failed c (f c) -> one_moved m failed k (alter f k (xm_calls m)).
Proof.
  intros Hk Hm j d' Hj. destruct (decide (j = k)) as [->|].
  - rewrite lookup_alter_eq, Hk in Hj. injection Hj as <-. eauto.
  - rewrite lookup_alter_ne in Hj by done. eauto.
Qed.

Lemma one_moved_alter2 m failed k c f g : xm_calls m !! k = Some c -> moved m failed c (f (g c)) -> one_moved m failed k (alter f k (alter g k (xm_calls m))).
Proof. intros Hk Hm. rewrite alter_alter_eq. by eapply (one_moved_alter m failed k c). Qed.

Lemma one_moved_alter3 m failed k c f g h : xm_calls m !! k = Some c -> moved m failed c (f (g (h c))) ->
  one_moved m failed k (alter f k (alter g k (alter h k (xm_calls m)))).
Proof. intros Hk Hm. rewrite !alter_alter_eq. by eapply (one_moved_alter m failed k c). Qed.

(** Discharges [moved] once the stages are known. *)
Ltac moved := split; cbn; repeat match goal with H : ec_stage _ = _ |- _ => rewrite H end; cbn; intros; split_and?; intros; try done; auto.

(** No call was. *)
Ltac unmoved := cbn; apply one_moved_same.

(** One call was altered, by up to three functions in turn. *)
Ltac one_moved_at := cbn; first [eapply one_moved_alter3 | eapply one_moved_alter2 | eapply one_moved_alter]; [eassumption|]; moved.

Lemma call_stored_calls m es k ok now : xinv m es -> one_moved m (negb ok) k (xm_calls (call_stored k ok now m).1).
Proof.
  intros I. unfold call_stored. destruct (xm_calls m !! k) as [c|] eqn:Hk; [|unmoved].
  destruct (ec_stage c) eqn:Hst; try unmoved; destruct ok; cbn [negb]; try (by one_moved_at).
  - set (matching := matching_of _ _). destruct (xm_rows m !! _) eqn:Hrow; [destruct matching eqn:Hm|].
    + unfold after_matching. rewrite (on_call_lookup k (ec_set_matching _) m c) by done. cbn.
      destruct (_ || _); (one_moved_at; right; by rewrite Hrow).
    + one_moved_at. right. by rewrite Hrow.
    + unfold after_matching. rewrite (on_call_lookup k (ec_set_matching _) m c) by done. cbn. one_moved_at. right. by rewrite Hrow.
  - unfold after_matching. cbn. rewrite Hk. destruct (match ec_matching c with Some _ => _ | None => _ end); (by one_moved_at).
  - destruct (ec_record c ≫= _) as [x|]; [|unmoved]. destruct (resumable c); [by one_moved_at|].
    unfold register. cbn. rewrite Hk. destruct (ec_record c) as [r|]; [|unmoved].
    destruct (negb _); (by one_moved_at).
  - destruct (ec_record c ≫= _) as [x|]; [|unmoved]. one_moved_at.
  - unfold register. cbn. rewrite Hk. destruct (ec_record c) as [r|]; [|unmoved].
    destruct (negb _); (by one_moved_at).
Qed.

Lemma call_continues_calls m es k a : xinv m es -> one_moved m false k (xm_calls (call_continues k a m).1).
Proof.
  intros I. unfold call_continues. destruct (xm_calls m !! k) as [c|] eqn:Hk; [|unmoved].
  assert (call_runs (ec_stage c) = true -> has_opened (ec_stage c) = false -> ec_record c = None) as Hnone.
  { intros H1 H2. apply eq_None_not_Some. intros H%(xi_stage _ _ I k c Hk); congruence. }
  destruct (ec_stage c) eqn:Hst; try unmoved; destruct a; try unmoved; cbn in Hnone;
    try (rewrite Hnone in * by done).
  - destruct (xm_reaps m !! reap) as [p|]; [|unmoved]. cbn. destruct (rp_stage p) as [| | |[]]; try unmoved.
    + unfold open_start. rewrite Hk. one_moved_at.
    + one_moved_at. rewrite Hnone in H; [by destruct H | done..].
  - destruct client; [by one_moved_at|]. one_moved_at. rewrite Hnone in H; [by destruct H | done..].
  - destruct sessionId; [|one_moved_at; rewrite Hnone in H; [by destruct H | done..]].
    unfold send_open. rewrite (on_call_lookup k _ m c) by done. one_moved_at.
  - unfold open_answered. rewrite Hk. one_moved_at.
  - unfold open_refused. rewrite Hk. destruct (_ || _); [|destruct (negb _)]; one_moved_at; rewrite Hnone in H; try done; by destruct H.
  - unfold send_open. rewrite Hk. one_moved_at.
  - one_moved_at.
  - unfold call_finally. cbn. destruct (bool_decide _); (one_moved_at).
Qed.

(** [o] asks for a session of binding [input]. *)
Definition requests (o : session_op) (m : session_manager) (input : ExternalSessionBinding) : Prop :=
  (exists ex, o = XoEnsure input ex) \/ (exists w ex k, o = XoWaiter w /\ xm_waiters m !! w = Some (input, ex, k)).

(** A call the step began. *)
Record begun (m : session_manager) (input : ExternalSessionBinding) (c : ensure_call) : Prop := {
  bg_input : ec_input c = input;
  bg_started : ec_stage c <> es_starting;
  bg_record : ec_record c = None;
  bg_matching : ec_matching c = None;
  bg_runs : call_runs (ec_stage c) = true -> early (ec_stage c) = true \/ ec_generation c = generation (bd_chatId input) m;
}.

Lemma calls_of_reap chatId reason keep explicit m : xm_calls (reap_start chatId reason keep explicit m).1.1 = xm_calls m.
Proof. apply (reap_start_state chatId reason keep explicit m). Qed.

Lemma ensure_start_calls m k c j d : xm_calls m !! k = Some c -> ec_stage c = es_starting -> ec_record c = None -> ec_matching c = None ->
  xm_calls (ensure_start k m).1 !! j = Some d -> xm_calls m !! j = Some d /\ j <> k \/ j = k /\ begun m (ec_input c) d.
Proof.
  intros Hk Hst Hr Hm. unfold ensure_start, open_start. rewrite Hk.
  assert (forall f m', xm_calls m' = xm_calls m -> begun m (ec_input c) (f c) -> xm_calls (on_call k f m') !! j = Some d ->
    xm_calls m !! j = Some d /\ j <> k \/ j = k /\ begun m (ec_input c) d) as Hon.
  { intros f m' Hm' Hf. cbn. rewrite Hm'. destruct (decide (j = k)) as [->|]; [|rewrite lookup_alter_ne by done; auto].
    rewrite lookup_alter_eq, Hk. intros [= <-]. auto. }
  destruct (xm_shuttingDown m); [by apply Hon|].
  destruct (xm_sessions m !! _) as [r|]; cbn [mbind option_bind]; [destruct (xm_records m !! r) as [x|]; cbn [mbind option_bind]|];
    [|apply Hon; [done|]; split; auto..].
  destruct (sr_closing x); [apply Hon; [done|]; split; auto|]. destruct (sameBinding _ _); [by apply Hon|].
  pose proof (calls_of_reap (bd_chatId (ec_input c)) r_session_lost false false m) as E.
  destruct (reap_start _ _ _ _ m) as [[m' es'] n]. apply Hon; [done|]. split; auto.
Qed.

Lemma ensureSession_calls m es input ex j d : xinv m es -> xm_calls (ensureSession input ex m).1 !! j = Some d ->
  xm_calls m !! j = Some d \/ xm_calls m !! j = None /\ begun m input d.
Proof.
  intros I. unfold ensureSession. destruct (xm_opening m !! _) as [k|] eqn:E.
  - destruct (xi_opening _ _ I _ _ E) as (c & Hc & _). cbn. rewrite Hc. cbn. destruct (sameBinding _ _); auto.
  - cbn. set (call := Build_ensure_call _ _ _ _ _ _ _ _ _ _ _). set (m1 := xm_set_next _ _).
    assert (xm_calls m !! xm_next m = None) as Hnew by (apply eq_None_not_Some; intros Hx%(xi_calls _ _ I); lia).
    assert (xm_calls m1 !! xm_next m = Some call) as Hk by apply lookup_insert_eq.
    pose proof (ensure_start_calls m1 (xm_next m) call j d Hk eq_refl eq_refl eq_refl) as H. destruct (ensure_start (xm_next m) m1) as [m2 es2]. cbn in H |- *.
    intros Hj. destruct (H Hj) as [[Hx Hne]|[-> Hb]]; [left; by rewrite lookup_insert_ne in Hx by done | right; split; [done|]].
    by destruct Hb.
Qed.

Lemma reap_each_calls chatIds reason keep explicit : forall m, xm_calls (reap_each chatIds reason keep explicit m).1 = xm_calls m.
Proof.
  induction chatIds as [|chatId rest IH]; intros m; [done|]. simpl. unfold and_then.
  pose proof (calls_of_reap chatId reason keep explicit m) as E. destruct (reap_start _ _ _ _ m) as [[m' es'] n]. simpl in *.
  specialize (IH m'). destruct (reap_each rest _ _ _ m'). cbn in *. congruence.
Qed.

(** A step leaves each call as it was, moves it, or began it because the step asks for its session. *)
Lemma calls_step o m es j d : xinv m es -> xm_calls (session_step o m).1 !! j = Some d ->
  (exists c, xm_calls m !! j = Some c /\ moved m (store_fails o) c d) \/ (exists input, requests o m input /\ xm_calls m !! j = None /\ begun m input d).
Proof.
  intros I.
  assert (forall m', xm_calls m' = xm_calls m -> xm_calls m' !! j = Some d -> exists c, xm_calls m !! j = Some c /\ moved m (store_fails o) c d) as Hsame.
  { intros m' -> Hj. eauto using moved_refl. }
  assert (forall k m', one_moved m (store_fails o) k (xm_calls m') -> xm_calls m' !! j = Some d -> exists c, xm_calls m !! j = Some c /\ moved m (store_fails o) c d) as Hone.
  { intros k m' Hm Hj. destruct (Hm j d Hj) as (c & Hc & [[_ Hx] | ->]); eauto using moved_refl. }
  destruct o; cbn -[reap_start].
  - intros Hj. destruct (ensureSession_calls m es input existingOnly j d I Hj) as [Hx|[Hn Hb]]; [left; eauto using moved_refl|].
    right. exists input. split_and!; [left; eauto | done..].
  - unfold waiter_wakes. destruct (xm_waiters m !! w) as [[[input ex] k]|] eqn:Hw; [|left; by apply (Hsame m)].
    destruct (ec_stage <$> _) as [[]|]; try (left; by apply (Hsame m)).
    set (m1 := xm_set_waiters _ m). intros Hj.
    assert (xinv m1 es) as J by (apply (xinv_frame m); [by apply same_core_fields | done]).
    destruct (ensureSession_calls m1 es input ex j d J Hj) as [Hx|[Hn Hb]]; [left; eauto using moved_refl|].
    right. exists input. split_and!; [right; eauto 6 | done | by destruct Hb].
  - intros Hj. left. eapply Hone; [|exact Hj]. by eapply call_stored_calls.
  - intros Hj. left. eapply Hone; [|exact Hj]. by eapply call_continues_calls.
  - left. eapply Hsame; [|done]. apply calls_of_reap.
  - left. eapply Hsame; [|done]. apply reap_each_calls.
  - left. eapply Hsame; [|done]. unfold reapAll. by rewrite reap_each_calls.
  - left. eapply Hsame; [|done]. unfold reap_continues. repeat (case_match; try done).
  - left. eapply Hsame; [|done]. unfold retire. repeat case_match; try done. apply calls_of_reap.
  - left. by eapply Hsame.
  - left. by eapply Hsame.
  - left. by eapply Hsame.
  - left. by eapply Hsame.
  - left. by eapply Hsame.
  - left. eapply Hsame; [|done]. unfold mark_start. by case_match.
  - left. eapply Hsame; [|done]. unfold mark_stored. repeat (case_match; try done).
  - left. eapply Hsame; [|done]. unfold session_event. repeat (case_match; try done).
  - left. eapply Hsame; [|done]. unfold client_closed. repeat case_match; try done. apply calls_of_reap.
  - left. by eapply Hsame.
  - left. eapply Hsame; [|done]. unfold release_hold. by case_match.
  - left. eapply Hsame; [|done]. unfold adopt_session. by case_match.
Qed.

(** ** Sessions nobody will close *)

(** No reap of [m'] failed that had not failed in [m]. *)
Definition reaps_hold (m m' : session_manager) : Prop :=
  forall n p, xm_reaps m' !! n = Some p -> rp_stage p = rs_done false -> exists q, xm_reaps m !! n = Some q /\ rp_stage q = rs_done false.

Lemma reaps_hold_same m m' : xm_reaps m' = xm_reaps m -> reaps_hold m m'.
Proof. intros E n p Hn. rewrite E in Hn. eauto. Qed.

Lemma reaps_hold_trans m1 m2 m3 : reaps_hold m1 m2 -> reaps_hold m2 m3 -> reaps_hold m1 m3.
Proof. intros H1 H2 n p Hn Hp. destruct (H2 n p Hn Hp) as (q & Hq & Hs). eauto. Qed.

Lemma reaps_hold_start chatId reason keep explicit m : reaps_hold m (reap_start chatId reason keep explicit m).1.1.
Proof.
  unfold reap_start, teardown. cbn. destruct (xm_sessions m !! chatId); destruct keep; cbn; intros i p; cbn;
    intros [[<- <-]|[_ Hi]]%lookup_insert_Some; cbn; try done; eauto.
Qed.

Lemma reaps_hold_each chatIds reason keep explicit : forall m, reaps_hold m (reap_each chatIds reason keep explicit m).1.
Proof.
  induction chatIds as [|chatId rest IH]; intros m; [by apply reaps_hold_same|]. simpl. unfold and_then.
  pose proof (reaps_hold_start chatId reason keep explicit m) as E. destruct (reap_start _ _ _ _ m) as [[m' es'] n]. simpl in *.
  specialize (IH m'). destruct (reap_each rest _ _ _ m'). by eapply reaps_hold_trans.
Qed.

Lemma reaps_hold_ensure_start k m : reaps_hold m (ensure_start k m).1.
Proof.
  unfold ensure_start, open_start. destruct (xm_calls m !! k) as [c|]; [|by apply reaps_hold_same].
  destruct (xm_shuttingDown m); [by apply reaps_hold_same|].
  destruct (xm_sessions m !! _) as [r|]; cbn [mbind option_bind]; [destruct (xm_records m !! r) as [x|]; cbn [mbind option_bind]|]; [|by apply reaps_hold_same..].
  destruct (sr_closing x); [by apply reaps_hold_same|]. destruct (sameBinding _ _); [by apply reaps_hold_same|].
  pose proof (reaps_hold_start (bd_chatId (ec_input c)) r_session_lost false false m) as E. destruct (reap_start _ _ _ _ m) as [[m' es'] n]. exact E.
Qed.

Lemma reaps_hold_ensure input ex m : reaps_hold m (ensureSession input ex m).1.
Proof.
  unfold ensureSession. destruct (_ ≫= _) as [[k c]|]; [destruct (sameBinding _ _); by apply reaps_hold_same|].
  set (m1 := xm_set_next _ _). pose proof (reaps_hold_ensure_start (xm_next m) m1) as E. destruct (ensure_start (xm_next m) m1) as [m2 es2]. exact E.
Qed.

Lemma reaps_step o m : store_fails o = false -> reaps_hold m (session_step o m).1.
Proof.
  intros Hf. destruct o; cbn -[reap_start]; try (by apply reaps_hold_same).
  - apply reaps_hold_ensure.
  - unfold waiter_wakes. destruct (xm_waiters m !! w) as [[[input ex] k]|]; [|by apply reaps_hold_same].
    destruct (ec_stage <$> _) as [[]|]; try (by apply reaps_hold_same). exact (reaps_hold_ensure input ex _).
  - apply reaps_hold_same. unfold call_stored, after_matching, register. repeat (case_match; try done).
  - apply reaps_hold_same. unfold call_continues, open_start, send_open, open_answered, open_refused, call_finally. repeat (case_match; try done).
  - apply reaps_hold_start.
  - apply reaps_hold_each.
  - exact (reaps_hold_each _ _ _ _ (xm_set_shuttingDown (Some reason) m)).
  - cbn in Hf. destruct ok; [|done]. unfold reap_continues. destruct (xm_reaps m !! n) as [q|] eqn:Hn; [|by apply reaps_hold_same].
    destruct (rp_stage q) eqn:Hq; [|destruct (rp_record q)| |by apply reaps_hold_same]; cbn;
      intros i p; cbn; intros [[<- <-]|[_ Hi]]%lookup_insert_Some; cbn; try done; eauto.
  - unfold retire. destruct (xm_records m !! r); [|by apply reaps_hold_same]. destruct (isLive r m); [apply reaps_hold_start | by apply reaps_hold_same].
  - apply reaps_hold_same. unfold mark_start. by case_match.
  - apply reaps_hold_same. unfold mark_stored. repeat (case_match; try done).
  - apply reaps_hold_same. unfold session_event. repeat (case_match; try done).
  - unfold client_closed. destruct (xm_records m !! r); [|by apply reaps_hold_same]. destruct (_ && _); [apply reaps_hold_start | by apply reaps_hold_same].
  - apply reaps_hold_same. unfold release_hold. by case_match.
  - apply reaps_hold_same. unfold adopt_session. by case_match.
Qed.

(** No statement failed under a session: nobody's session is lost. *)
Definition lossless (m : session_manager) : Prop :=
  (forall k c, xm_calls m !! k = Some c -> is_Some (ec_record c) -> call_standing (ec_stage c) <> sd_lost)
  /\ (forall n p, xm_reaps m !! n = Some p -> rp_stage p <> rs_done false).

Lemma lossless_step o m es : xinv m es -> store_fails o = false -> lossless m -> lossless (session_step o m).1.
Proof.
  intros I Hf [H1 H2]. split.
  - intros k c' Hk Hr Hs. destruct (calls_step o m es k c' I Hk) as [(c & Hc & Hm)|(input & _ & _ & Hb)].
    + destruct (mv_lost _ _ _ _ Hm Hr Hs) as [Hx|[Hx Hy]]; [congruence | by eapply H1].
    + rewrite (bg_record _ _ _ Hb) in Hr. by destruct Hr.
  - intros n p Hn Hp. destruct (reaps_step o m Hf n p Hn Hp) as (q & Hq & Hs). by eapply H2.
Qed.

Lemma lossless_run os : forallb (fun o => negb (store_fails o)) os = true -> lossless (session_run os new_session_manager).1.
Proof.
  induction os as [|o os IH] using rev_ind; [done|]. rewrite forallb_app. simpl. rewrite andb_true_r. intros [H1 H2]%andb_prop.
  rewrite session_run_snoc. pose proof (xinv_run os) as I. specialize (IH H1). destruct (session_run os new_session_manager) as [m es].
  apply (lossless_step o m es) in IH; [|done | by destruct (store_fails o)]. by destruct (session_step o m).
Qed.

Lemma not_lost m o r : lossless m -> owns m o r -> standing_of m o <> sd_lost.
Proof.
  intros [H1 H2] Ho. destruct o as [k|h|n]; cbn.
  - destruct Ho as (c & Hc & Hr & _). rewrite Hc. eapply H1; [done | by rewrite Hr].
  - done.
  - destruct Ho as (p & Hp & _). rewrite Hp. specialize (H2 n p Hp). destruct (rp_stage p) as [| | |[]]; done.
Qed.

Lemma started_run os k c : xm_calls (session_run os new_session_manager).1 !! k = Some c -> ec_stage c <> es_starting.
Proof.
  revert k c. induction os as [|o os IH] using rev_ind; [done|]. intros k c. rewrite session_run_snoc. pose proof (xinv_run os) as I.
  destruct (session_run os new_session_manager) as [m es]. pose proof (calls_step o m es k c I) as H. destruct (session_step o m) as [m' es'].
  intros Hk. destruct (H Hk) as [(c0 & Hc & Hm)|(input & _ & _ & Hb)]; [|by apply (bg_started _ _ _ Hb)].
  intros Hs. by apply (IH k c0 Hc), (mv_started _ _ _ _ Hm).
Qed.

(** A session that is live or being opened is its chat's entry in [sessions] or in [opening]. *)
Lemma current_entry m es o r x : xinv m es -> (forall k c, xm_calls m !! k = Some c -> ec_stage c <> es_starting) -> owns m o r ->
  xm_records m !! r = Some x -> standing_of m o ∈ [sd_opening; sd_live] ->
  xm_sessions m !! bd_chatId (sr_binding x) = Some r
  \/ xm_sessions m !! bd_chatId (sr_binding x) = None
     /\ exists k c, xm_opening m !! bd_chatId (sr_binding x) = Some k /\ xm_calls m !! k = Some c /\ ec_record c = Some r.
Proof.
  intros I Hstart Ho Hx Hs. destruct o as [k|h|n].
  - destruct Ho as (c & Hc & Hr & Hu). destruct (xi_binding _ _ I k c r Hc Hr) as (x' & Hx' & Hb & _). simplify_eq. rewrite Hb. right.
    assert (call_runs (ec_stage c) = true) as Hrun.
    { specialize (Hstart k c Hc). cbn in Hs. rewrite Hc in Hs. destruct (ec_stage c) as [| | | | | | | | | | | | | |[?|[]]|[?|[]]]; try done; set_solver. }
    split; [by apply (xi_vacant _ _ I k c)|]. exists k, c. split_and!; [|done..]. apply (xi_pending _ _ I k c Hc). by destruct (ec_stage c).
  - left. destruct (xi_sessions _ _ I h r Ho) as (x' & Hx' & Hh & _). simplify_eq. done.
  - destruct Ho as (p & Hp & _). cbn in Hs. rewrite Hp in Hs. destruct (rp_stage p) as [| | |[]]; set_solver.
Qed.

(** C7: Of every vendor session a run opened, exactly one party is responsible (the call that opens it, its chat, or the reap that took it from the chat); it has been asked to close once if it was undone or reaped and never otherwise; it is lost only if a statement of the database failed, and if it is its chat's, it is live. A chat never has two sessions that are live or being opened. *)
Theorem vendor_sessions_accounted os :
  let '(m, es) := session_run os new_session_manager in
  (forall r x, xm_records m !! r = Some x ->
    exists o, owns m o r /\ (forall o', owns m o' r -> o' = o)
      /\ closes r es = (if decide (standing_of m o = sd_closed) then 1 else 0)%nat
      /\ (standing_of m o = sd_lost -> existsb store_fails os = true)
      /\ (standing_of m o = sd_live -> isLive r m = true))
  /\ (forall r r' x x' o o', xm_records m !! r = Some x -> xm_records m !! r' = Some x' -> bd_chatId (sr_binding x) = bd_chatId (sr_binding x') ->
      owns m o r -> owns m o' r' -> standing_of m o ∈ [sd_opening; sd_live] -> standing_of m o' ∈ [sd_opening; sd_live] -> r = r').
Proof.
  pose proof (xinv_run os) as I. pose proof (lossless_run os) as L. pose proof (started_run os) as S. destruct (session_run os new_session_manager) as [m es]. cbn in I, L, S. split.
  - intros r x Hx. destruct (xi_owned _ _ I r ltac:(eauto)) as [o Ho]. exists o. split_and!; [done | | | |].
    + intros o' Ho'. by apply (xi_unique _ _ I o' o r).
    + by apply (xi_closes _ _ I).
    + intros Hl. destruct (existsb store_fails os) eqn:E; [done|]. exfalso. apply (not_lost m o r); [|done..]. apply L.
      clear -E. induction os as [|a os IH]; [done|]. simpl in *. apply orb_false_iff in E as [-> E]. by apply IH.
    + intros Hl. destruct o as [k|h|n]; cbn in Ho, Hl.
      * destruct Ho as (c & Hc & _). rewrite Hc in Hl. by destruct (ec_stage c) as [| | | | | | | | | | | | | |[?|[]]|[?|[]]].
      * destruct (xi_sessions _ _ I h r Ho) as (x' & Hx' & Hh & Hc). unfold isLive. rewrite Hx', Hc, Hh, bool_decide_eq_true_2; done.
      * destruct Ho as (p & Hp & _). rewrite Hp in Hl. by destruct (rp_stage p) as [| | |[]].
  - intros r r' x x' o o' Hx Hx' Hch Ho Ho' Hs Hs'.
    destruct (current_entry m es o r x I S Ho Hx Hs) as [E|(E & k & c & Hk & Hc & Hr)];
      destruct (current_entry m es o' r' x' I S Ho' Hx' Hs') as [E'|(E' & k' & c' & Hk' & Hc' & Hr')]; rewrite ?Hch in *; congruence.
Qed.

(** ** Conversations *)

(** A session's binding and conversation never change. *)
Definition records_keep (m m' : session_manager) : Prop :=
  forall r x, xm_records m !! r = Some x ->
    exists x', xm_records m' !! r = Some x' /\ sr_binding x' = sr_binding x /\ sr_nativeSessionId x' = sr_nativeSessionId x.

Lemma records_keep_same m m' : xm_records m' = xm_records m -> records_keep m m'.
Proof. intros E r x Hr. rewrite E. eauto. Qed.

Lemma records_keep_trans m1 m2 m3 : records_keep m1 m2 -> records_keep m2 m3 -> records_keep m1 m3.
Proof. intros H1 H2 r x Hr. destruct (H1 r x Hr) as (y & Hy & <- & <-). auto. Qed.

Lemma records_keep_alter m m' r f : xm_records m' = alter f r (xm_records m) ->
  (forall x, sr_binding (f x) = sr_binding x /\ sr_nativeSessionId (f x) = sr_nativeSessionId x) -> records_keep m m'.
Proof.
  intros E Hf r' x Hx. rewrite E. destruct (decide (r' = r)) as [->|]; [|rewrite lookup_alter_ne; eauto].
  rewrite lookup_alter_eq, Hx. destruct (Hf x). eauto.
Qed.

(** What a reap, or a run of them, leaves of the rows and the records. *)
Lemma reap_start_keeps chatId reason keep explicit m :
  records_keep m (reap_start chatId reason keep explicit m).1.1 /\ xm_rows (reap_start chatId reason keep explicit m).1.1 = xm_rows m.
Proof.
  split; [|apply (reap_start_state chatId reason keep explicit m)].
  unfold reap_start, teardown. cbn. destruct (xm_sessions m !! chatId) as [r|]; destruct keep; cbn; try (by apply records_keep_same).
  all: by eapply (records_keep_alter m _ r).
Qed.

Lemma reap_each_keeps chatIds reason keep explicit : forall m,
  records_keep m (reap_each chatIds reason keep explicit m).1 /\ xm_rows (reap_each chatIds reason keep explicit m).1 = xm_rows m.
Proof.
  induction chatIds as [|chatId rest IH]; intros m; [split; [by apply records_keep_same | done]|]. simpl. unfold and_then.
  destruct (reap_start_keeps chatId reason keep explicit m) as [E1 E2]. destruct (reap_start _ _ _ _ m) as [[m' es'] n]. simpl in *.
  destruct (IH m') as [F1 F2]. destruct (reap_each rest _ _ _ m'). cbn in *. split; [by eapply records_keep_trans | congruence].
Qed.

Lemma ensure_start_keeps k m : records_keep m (ensure_start k m).1 /\ xm_rows (ensure_start k m).1 = xm_rows m.
Proof.
  unfold ensure_start, open_start. destruct (xm_calls m !! k) as [c|]; [|split; [by apply records_keep_same | done]].
  destruct (xm_shuttingDown m); [split; [by apply records_keep_same | done]|].
  destruct (xm_sessions m !! _) as [r|]; cbn [mbind option_bind]; [destruct (xm_records m !! r) as [x|]; cbn [mbind option_bind]|];
    [|split; [by apply records_keep_same | done]..].
  destruct (sr_closing x); [split; [by apply records_keep_same | done]|]. destruct (sameBinding _ _); [split; [by apply records_keep_same | done]|].
  pose proof (reap_start_keeps (bd_chatId (ec_input c)) r_session_lost false false m) as E. destruct (reap_start _ _ _ _ m) as [[m' es'] n]. exact E.
Qed.

Lemma ensureSession_keeps input ex m : records_keep m (ensureSession input ex m).1 /\ xm_rows (ensureSession input ex m).1 = xm_rows m.
Proof.
  unfold ensureSession. destruct (_ ≫= _) as [[k c]|]; [destruct (sameBinding _ _); (split; [by apply records_keep_same | done])|].
  set (m1 := xm_set_next _ _). pose proof (ensure_start_keeps (xm_next m) m1) as E. destruct (ensure_start (xm_next m) m1) as [m2 es2]. exact E.
Qed.

(** Where the rows of [m'] come from. *)
Definition rows_from (o : session_op) (m m' : session_manager) : Prop :=
  forall chatId row, xm_rows m' !! chatId = Some row ->
    (exists row0, xm_rows m !! chatId = Some row0 /\ ct_binding row = ct_binding row0 /\ ct_nativeSessionId row = ct_nativeSessionId row0)
    \/ bd_chatId (ct_binding row) = chatId /\
       ((exists r x, xm_records m !! r = Some x /\ sr_binding x = ct_binding row /\ sr_nativeSessionId x = ct_nativeSessionId row)
        \/ exists now, o = XoAdoptSession (ct_binding row) (ct_nativeSessionId row) now).

Lemma rows_from_same o m m' : xm_rows m' = xm_rows m -> rows_from o m m'.
Proof. intros E h row Hr. rewrite E in Hr. left. eauto. Qed.

Lemma rows_from_delete o m m' chatId : xm_rows m' = delete chatId (xm_rows m) -> rows_from o m m'.
Proof. intros E h row Hr. rewrite E in Hr. apply lookup_delete_Some in Hr as [_ Hr]. left. eauto. Qed.

Definition keeps_from (o : session_op) (m m' : session_manager) : Prop := records_keep m m' /\ rows_from o m m'.

Lemma keeps_from_same o m m' : xm_records m' = xm_records m -> xm_rows m' = xm_rows m -> keeps_from o m m'.
Proof. split; [by apply records_keep_same | by apply rows_from_same]. Qed.

Lemma keeps_from_rows o m m' : records_keep m m' /\ xm_rows m' = xm_rows m -> keeps_from o m m'.
Proof. intros [H E]. split; [done | by apply rows_from_same]. Qed.

Lemma keeps_from_record o m r f : (forall x, sr_binding (f x) = sr_binding x /\ sr_nativeSessionId (f x) = sr_nativeSessionId x) -> keeps_from o m (on_record r f m).
Proof. intros Hf. apply keeps_from_rows. split; [by eapply (records_keep_alter m _ r f) | done]. Qed.

Lemma after_matching_same k m : xm_records (after_matching k m).1 = xm_records m /\ xm_rows (after_matching k m).1 = xm_rows m.
Proof. unfold after_matching. repeat (case_match; try done). Qed.

Lemma register_keeps k m : records_keep m (register k m) /\ xm_rows (register k m) = xm_rows m.
Proof.
  unfold register. destruct (xm_calls m !! k) as [c|]; [destruct (ec_record c) as [r|]|]; [|split; [by apply records_keep_same | done]..].
  destruct (negb _); (split; [|done]); [by eapply (records_keep_alter m _ r) | by apply records_keep_same].
Qed.

Lemma call_stored_keeps m es k ok now : xinv m es -> keeps_from (XoStored k ok now) m (call_stored k ok now m).1.
Proof.
  intros I. unfold call_stored. destruct (xm_calls m !! k) as [c|] eqn:Hk; [|by apply keeps_from_same].
  destruct (ec_stage c) eqn:Hst; try (by apply keeps_from_same); destruct ok; cbn [negb]; try (by apply keeps_from_same).
  - repeat case_match; try (by apply keeps_from_same); apply keeps_from_same; exact (proj1 (after_matching_same k (on_call _ _ m))) || exact (proj2 (after_matching_same k (on_call _ _ m))).
  - split; [by apply records_keep_same | by eapply rows_from_delete].
  - apply keeps_from_same; apply (after_matching_same k (releaseAdoptionLease (bd_chatId (ec_input c)) m)).
  - destruct (ec_record c) as [r|] eqn:Hr; cbn [mbind option_bind]; [|by apply keeps_from_same].
    destruct (xi_binding _ _ I k c r Hk Hr) as (x & Hx & Hb & _). rewrite Hx.
    set (m1 := writeContinuation _ m).
    assert (rows_from (XoStored k true now) m m1) as Hrow.
    { intros h row. cbn. intros [[<- <-]|[_ Hh]]%lookup_insert_Some; [|left; eauto]. right. split; [done|]. left. exists r, x. by rewrite Hb. }
    destruct (resumable c); [split; [by apply records_keep_same | exact Hrow]|].
    destruct (register_keeps k m1) as [E1 E2]. split; [exact E1|]. intros h row. cbn [fst]. rewrite E2. apply Hrow.
  - destruct (ec_record c ≫= _); by apply keeps_from_same.
  - apply keeps_from_rows. exact (register_keeps k (refreshAdoptionLease (bd_chatId (ec_input c)) (ec_now c + EXTERNAL_ADOPTION_LEASE_TTL_MS) m)).
  - split; [by apply records_keep_same | by eapply rows_from_delete].
Qed.

Lemma call_continues_keeps m es k a : xinv m es -> keeps_from (XoContinue k a) m (call_continues k a m).1.
Proof.
  intros I. unfold call_continues, open_start, send_open, open_refused, call_finally. destruct (xm_calls m !! k) as [c|] eqn:Hk; [|by apply keeps_from_same].
  destruct (ec_stage c) eqn:Hst; try (by apply keeps_from_same); destruct a; try (by apply keeps_from_same);
    try (repeat case_match; by apply keeps_from_same).
  unfold open_answered. rewrite Hk. split; [|by apply rows_from_same]. intros r x Hx. cbn.
  rewrite lookup_insert_ne; [eauto|]. intros <-. apply (Nat.lt_irrefl (xm_next m)), (xi_records _ _ I). eauto.
Qed.

Lemma step_keeps o m es : xinv m es -> keeps_from o m (session_step o m).1.
Proof.
  intros I. destruct o; cbn -[reap_start]; try (by apply keeps_from_same); try (by apply keeps_from_record).
  - apply keeps_from_rows, ensureSession_keeps.
  - unfold waiter_wakes. destruct (xm_waiters m !! w) as [[[input ex] k]|]; [|by apply keeps_from_same].
    destruct (ec_stage <$> _) as [[]|]; try (by apply keeps_from_same). apply keeps_from_rows. exact (ensureSession_keeps input ex (xm_set_waiters (delete w (xm_waiters m)) m)).
  - by eapply call_stored_keeps.
  - by eapply call_continues_keeps.
  - apply keeps_from_rows, reap_start_keeps.
  - apply keeps_from_rows, reap_each_keeps.
  - apply keeps_from_rows. exact (reap_each_keeps _ _ _ _ (xm_set_shuttingDown (Some reason) m)).
  - unfold reap_continues. destruct (xm_reaps m !! n) as [p|]; [|by apply keeps_from_same].
    repeat case_match; try (by apply keeps_from_same). split; [by apply records_keep_same | by eapply rows_from_delete].
  - unfold retire. repeat case_match; try (by apply keeps_from_same). apply keeps_from_rows, reap_start_keeps.
  - apply keeps_from_record. intros x. by destruct (bool_decide _).
  - unfold mark_start. case_match; by apply keeps_from_same.
  - unfold mark_stored. destruct (xm_marks m !! i) as [mk|]; [|by apply keeps_from_same].
    destruct ok; [|destruct (mk_unresumable mk); by apply keeps_from_same]. split; [apply records_keep_same; by case_match|].
    intros h row. destruct (bool_decide _); cbn; intros Hh; left; (destruct (decide (h = mk_chatId mk)) as [->|]; [|rewrite lookup_alter_ne in Hh by done; eauto]);
      rewrite lookup_alter_eq in Hh; destruct (xm_rows m !! mk_chatId mk) as [row0|] eqn:E; cbn in Hh; [|done| |done];
      injection Hh as <-; exists row0; by destruct (bool_decide _).
  - unfold session_event. destruct (xm_records m !! r) as [x|]; [destruct (sr_subscribed x)|]; try (by apply keeps_from_same).
    destruct (admit_envelope e (sr_sequencer x)). by apply keeps_from_record.
  - unfold client_closed. repeat case_match; try (by apply keeps_from_same). apply keeps_from_rows, reap_start_keeps.
  - unfold release_hold. case_match; by apply keeps_from_same.
  - unfold adopt_session. destruct (acquireAdoptionLease _ _); [|by apply keeps_from_same]. split; [by apply records_keep_same|].
    intros h row. cbn. intros [[<- <-]|[_ Hh]]%lookup_insert_Some; [right; split; [done | right; eauto] | left; eauto].
Qed.

(** No effect asks the runtime to open. *)
Definition quiet (es : list session_effect) : Prop := Forall (fun e => match e with XeOpen _ _ _ _ _ => False | _ => True end) es.

Lemma reap_start_quiet chatId reason keep explicit m : quiet (reap_start chatId reason keep explicit m).1.2.
Proof.
  unfold reap_start, teardown, notifyHolds, quiet. cbn. destruct (xm_sessions m !! chatId) as [r|]; destruct keep; cbn;
    rewrite ?Forall_app; split_and?; try (by repeat constructor); try (by destruct (xm_records m !! r ≫= sr_consumer); repeat constructor).
  all: destruct (_ && _); [constructor|]; apply Forall_forall; intros e [h [<- _]]%list_elem_of_In%in_map_iff; done.
Qed.

Lemma reap_each_quiet chatIds reason keep explicit : forall m, quiet (reap_each chatIds reason keep explicit m).2.
Proof.
  induction chatIds as [|chatId rest IH]; intros m; [constructor|]. simpl. unfold and_then.
  pose proof (reap_start_quiet chatId reason keep explicit m) as E. destruct (reap_start _ _ _ _ m) as [[m' es'] n]. simpl in *.
  specialize (IH m'). destruct (reap_each rest _ _ _ m'). by apply Forall_app.
Qed.

Lemma ensureSession_quiet input ex m : quiet (ensureSession input ex m).2.
Proof.
  unfold ensureSession. destruct (_ ≫= _) as [[k c]|]; [destruct (sameBinding _ _); constructor|].
  set (m1 := xm_set_next _ _). assert (quiet (ensure_start (xm_next m) m1).2) as H; [|by destruct (ensure_start _ _)].
  unfold ensure_start. destruct (xm_calls m1 !! _) as [c|]; [|constructor]. destruct (xm_shuttingDown m1); [constructor|].
  destruct (_ ≫= _) as [[r x]|]; [|constructor]. destruct (sr_closing x); [constructor|]. destruct (sameBinding _ _); [constructor|].
  pose proof (reap_start_quiet (bd_chatId (ec_input c)) r_session_lost false false m1) as E. by destruct (reap_start _ _ _ _ m1) as [[m' es'] n].
Qed.

Lemma call_stored_quiet k ok now m : quiet (call_stored k ok now m).2.
Proof. unfold call_stored, after_matching. repeat case_match; repeat constructor. Qed.

(** Whatever an open resumes is what its call read. *)
Lemma opens_step o m k sid b ref mode : XeOpen k sid b ref mode ∈ (session_step o m).2 ->
  exists c, xm_calls m !! k = Some c /\ ec_input c = b /\ ref = ct_nativeSessionId <$> resumable c.
Proof.
  assert (forall es, quiet es -> XeOpen k sid b ref mode ∈ es -> exists c, xm_calls m !! k = Some c /\ ec_input c = b /\ ref = ct_nativeSessionId <$> resumable c) as Hq.
  { intros es Hes He. unfold quiet in Hes. rewrite Forall_forall in Hes. by specialize (Hes _ He). }
  destruct o; cbn -[reap_start]; try (by intros ?%elem_of_nil).
  - apply Hq, ensureSession_quiet.
  - unfold waiter_wakes. destruct (xm_waiters m !! w) as [[[input ex] j]|]; [|by intros ?%elem_of_nil].
    destruct (ec_stage <$> _) as [[]|]; try (by intros ?%elem_of_nil). apply Hq, ensureSession_quiet.
  - apply Hq, call_stored_quiet.
  - unfold call_continues, send_open. destruct (xm_calls m !! k0) as [c|] eqn:Hk; [|by intros ?%elem_of_nil].
    destruct (ec_stage c); try (by intros ?%elem_of_nil); destruct a; try (by intros ?%elem_of_nil).
    + repeat case_match; by intros ?%elem_of_nil.
    + case_match; by intros ?%elem_of_nil.
    + destruct sessionId; [|by intros ?%elem_of_nil]. rewrite (on_call_lookup k0 _ m c) by done. intros [= -> -> -> -> ->]%list_elem_of_singleton. eauto.
    + intros [= -> -> -> -> ->]%list_elem_of_singleton. eauto.
    + unfold call_finally. intros [=]%list_elem_of_singleton.
  - apply Hq, reap_start_quiet.
  - apply Hq, reap_each_quiet.
  - apply Hq, reap_each_quiet.
  - apply Hq. unfold reap_continues. repeat case_match; repeat constructor.
  - apply Hq. unfold retire. repeat case_match; try constructor. apply reap_start_quiet.
  - apply Hq. unfold session_event. repeat case_match; repeat constructor.
  - apply Hq. unfold client_closed. repeat case_match; try constructor. apply reap_start_quiet.
Qed.

Lemma sameBinding_eq l r : sameBinding l r = true -> bd_chatId l = bd_chatId r -> l = r.
Proof.
  unfold sameBinding. rewrite !andb_true_iff, !bool_decide_eq_true. destruct l, r; cbn. naive_solver.
Qed.

Lemma matching_of_Some stored b row : matching_of stored b = Some row -> stored = Some row /\ sameBinding (ct_binding row) b = true.
Proof. unfold matching_of, continuationMatches. destruct stored as [s|]; [|done]. destruct (sameBinding _ _) eqn:E; [|done]. by intros [= ->]. Qed.

(** Conversation [n] was opened, or adopted, under binding [b]. *)
Definition belongs (os : list session_op) (m : session_manager) (b : ExternalSessionBinding) (n : jstring) : Prop :=
  (exists r x, xm_records m !! r = Some x /\ sr_binding x = b /\ sr_nativeSessionId x = n) \/ (exists now, XoAdoptSession b n now ∈ os).

Lemma belongs_step os o m m' b n : records_keep m m' -> belongs os m b n -> belongs (os ++ [o]) m' b n.
Proof.
  intros Hk [(r & x & Hx & Hb & Hn)|[now Hin]].
  - left. destruct (Hk r x Hx) as (x' & Hx' & Hb' & Hn'). exists r, x'. split_and!; congruence.
  - right. exists now. apply elem_of_app. by left.
Qed.

Record rinv (os : list session_op) (m : session_manager) (es : list session_effect) : Prop := {
  ri_rows : forall chatId row, xm_rows m !! chatId = Some row -> bd_chatId (ct_binding row) = chatId /\ belongs os m (ct_binding row) (ct_nativeSessionId row);
  ri_calls : forall k c row, xm_calls m !! k = Some c -> ec_matching c = Some row -> belongs os m (ec_input c) (ct_nativeSessionId row);
  ri_opens : forall k sid b n mode, XeOpen k sid b (Some n) mode ∈ es -> belongs os m b n;
}.

Lemma rinv_step os o m es : xinv m es -> rinv os m es -> rinv (os ++ [o]) (session_step o m).1 (es ++ (session_step o m).2).
Proof.
  intros I R. destruct (step_keeps o m es I) as [Hrec Hrow].
  assert (forall b n, belongs os m b n -> belongs (os ++ [o]) (session_step o m).1 b n) as Hmono by (intros; by eapply belongs_step).
  split.
  - intros h row Hh. destruct (Hrow h row Hh) as [(row0 & H0 & -> & ->)|[Hc [(r & x & Hx & Hb & Hn)|[now ->]]]].
    + destruct (ri_rows _ _ _ R h row0 H0) as [-> Hb]. auto.
    + split; [done|]. apply Hmono. left. eauto.
    + split; [done|]. right. exists now. apply elem_of_app. right. by apply list_elem_of_singleton.
  - intros k c' row Hk Hm. destruct (calls_step o m es k c' I Hk) as [(c & Hc & M)|(input & _ & _ & B)].
    + rewrite (mv_input _ _ _ _ M). apply Hmono. destruct (mv_matching _ _ _ _ M) as [E|E]; rewrite E in Hm; [by eapply (ri_calls _ _ _ R)|].
      apply matching_of_Some in Hm as [Hs Hb]. destruct (ri_rows _ _ _ R _ _ Hs) as [Hch Hbel]. by rewrite <- (sameBinding_eq _ _ Hb Hch).
    + by rewrite (bg_matching _ _ _ B) in Hm.
  - intros k sid b n mode [He|He]%elem_of_app; apply Hmono; [by eapply (ri_opens _ _ _ R)|].
    destruct (opens_step o m k sid b (Some n) mode He) as (c & Hc & <- & Hn). unfold resumable in Hn.
    destruct (ec_startsFresh c); [done|]. destruct (ec_matching c) as [row|] eqn:Hm; [|done]. injection Hn as ->. by eapply (ri_calls _ _ _ R).
Qed.

Lemma rinv_run os : rinv os (session_run os new_session_manager).1 (session_run os new_session_manager).2.
Proof.
  induction os as [|o os IH] using rev_ind; [split; try done; intros ????? ?%elem_of_nil; done|].
  rewrite session_run_snoc. pose proof (xinv_run os) as I. destruct (session_run os new_session_manager) as [m es].
  pose proof (rinv_step os o m es I IH) as H. by destruct (session_step o m).
Qed.

(** C9: When a run asks the runtime to resume a conversation, that conversation was opened by a session of the same user, chat, environment, target, workspace, account and credential home, or adopted under that binding: no binding is ever handed another's conversation. *)
Theorem conversations_are_not_shared os k sid b n mode :
  XeOpen k sid b (Some n) mode ∈ (session_run os new_session_manager).2 ->
  (exists r x, xm_records (session_run os new_session_manager).1 !! r = Some x /\ sr_binding x = b /\ sr_nativeSessionId x = n)
  \/ exists now, XoAdoptSession b n now ∈ os.
Proof. apply (ri_opens _ _ _ (rinv_run os)). Qed.

(** ** Revocation *)

(** Generations only grow, and a session that appears was registered by a call that still has its chat's generation. *)
Record advances (m m' : session_manager) : Prop := {
  ad_generation : forall chatId, generation chatId m <= generation chatId m';
  ad_sessions : forall chatId r, xm_sessions m' !! chatId = Some r ->
    xm_sessions m !! chatId = Some r
    \/ exists k c, xm_calls m !! k = Some c /\ call_runs (ec_stage c) = true /\ early (ec_stage c) = false /\ ec_record c = Some r
       /\ bd_chatId (ec_input c) = chatId /\ generation chatId m = ec_generation c;
}.

Lemma advances_same m m' : xm_reapGenerations m' = xm_reapGenerations m -> xm_sessions m' = xm_sessions m -> advances m m'.
Proof. intros E1 E2. split; unfold generation; rewrite ?E1, ?E2; [done | auto]. Qed.

Lemma generation_reap_start chatId reason keep explicit m h :
  generation h (reap_start chatId reason keep explicit m).1.1 = if decide (chatId = h) then generation h m + 1 else generation h m.
Proof.
  destruct (reap_start_state chatId reason keep explicit m) as (_ & _ & _ & _ & _ & _ & E & _).
  assert (forall m', xm_reapGenerations m' = <[chatId := generation chatId m + 1]> (xm_reapGenerations m) ->
    generation h m' = if decide (chatId = h) then generation h m + 1 else generation h m) as H; [|by apply H].
  intros m' E'. unfold generation at 1. rewrite E'. destruct (decide (chatId = h)) as [->|]; [by rewrite lookup_insert_eq | by rewrite lookup_insert_ne].
Qed.

(** What reaping some chats does: their generations grow, and their sessions and only theirs are gone. *)
Lemma reap_each_effect chatIds reason keep explicit : forall m, let m' := (reap_each chatIds reason keep explicit m).1 in
  (forall h, generation h m <= generation h m') /\ (forall h, h ∈ chatIds -> generation h m < generation h m')
  /\ (forall h r, xm_sessions m' !! h = Some r -> xm_sessions m !! h = Some r /\ h ∉ chatIds) /\ xm_waiters m' = xm_waiters m.
Proof.
  induction chatIds as [|chatId rest IH]; intros m; [split_and!; try done; [by intros h ?%elem_of_nil | intros; split; [done | by intros ?%elem_of_nil]]|].
  cbn -[reap_start]. unfold and_then.
  pose proof (generation_reap_start chatId reason keep explicit m) as G. destruct (reap_start_state chatId reason keep explicit m) as (E1 & _ & _ & E2 & _).
  destruct (reap_start _ _ _ _ m) as [[m1 es1] n]. cbn in *. destruct (IH m1) as (H1 & H2 & H3 & H4). destruct (reap_each rest _ _ _ m1) as [m2 es2]. cbn in *.
  split_and!.
  - intros h. specialize (G h). specialize (H1 h). destruct (decide _); lia.
  - intros h Hh. specialize (G h). specialize (H1 h). destruct (decide (chatId = h)); [lia|]. apply elem_of_cons in Hh as [->|Hh]; [done|]. specialize (H2 h Hh). lia.
  - intros h r Hh. destruct (H3 h r Hh) as [Hs Hni]. rewrite E1 in Hs. apply lookup_delete_Some in Hs as [Hne Hs]. split; [done|]. rewrite elem_of_cons. naive_solver.
  - congruence.
Qed.

(** No session appears. *)
Definition shrinks (m m' : session_manager) : Prop :=
  (forall h, generation h m <= generation h m') /\ (forall h r, xm_sessions m' !! h = Some r -> xm_sessions m !! h = Some r).

Lemma shrinks_advances m m' : shrinks m m' -> advances m m'.
Proof. intros [H1 H2]. split; auto. Qed.

Lemma shrinks_same m m' : xm_reapGenerations m' = xm_reapGenerations m -> xm_sessions m' = xm_sessions m -> shrinks m m'.
Proof. intros E1 E2. split; unfold generation; rewrite ?E1, ?E2; [done | auto]. Qed.

Lemma shrinks_reap_start chatId reason keep explicit m : shrinks m (reap_start chatId reason keep explicit m).1.1.
Proof.
  split.
  - intros h. rewrite generation_reap_start. destruct (decide _); lia.
  - intros h r Hh. destruct (reap_start_state chatId reason keep explicit m) as (E & _). revert Hh. rewrite E. by intros [_ ?]%lookup_delete_Some.
Qed.

Lemma shrinks_reap_each chatIds reason keep explicit m : shrinks m (reap_each chatIds reason keep explicit m).1.
Proof. destruct (reap_each_effect chatIds reason keep explicit m) as (H1 & _ & H3 & _). split; [done|]. intros h r Hh. by destruct (H3 h r Hh). Qed.

Lemma shrinks_ensure_start k m : shrinks m (ensure_start k m).1.
Proof.
  unfold ensure_start, open_start. destruct (xm_calls m !! k) as [c|]; [|by apply shrinks_same]. destruct (xm_shuttingDown m); [by apply shrinks_same|].
  destruct (_ ≫= _) as [[r x]|]; [|by apply shrinks_same]. destruct (sr_closing x); [by apply shrinks_same|]. destruct (sameBinding _ _); [by apply shrinks_same|].
  pose proof (shrinks_reap_start (bd_chatId (ec_input c)) r_session_lost false false m) as E. destruct (reap_start _ _ _ _ m) as [[m' es'] n]. exact E.
Qed.

Lemma shrinks_ensure input ex m : shrinks m (ensureSession input ex m).1.
Proof.
  unfold ensureSession. destruct (_ ≫= _) as [[k c]|]; [destruct (sameBinding _ _); by apply shrinks_same|].
  set (m1 := xm_set_next _ _). pose proof (shrinks_ensure_start (xm_next m) m1) as E. destruct (ensure_start (xm_next m) m1) as [m2 es2]. exact E.
Qed.

Lemma advances_register k m m0 c : xm_calls m !! k = Some c -> call_runs (ec_stage c) = true -> early (ec_stage c) = false ->
  xm_calls m0 = xm_calls m -> xm_reapGenerations m0 = xm_reapGenerations m -> xm_sessions m0 = xm_sessions m -> advances m (register k m0).
Proof.
  intros Hk Hr He E1 E2 E3. unfold register. rewrite E1, Hk. destruct (ec_record c) as [r|] eqn:Hrec; [|by apply advances_same].
  assert (generation (bd_chatId (ec_input c)) m0 = generation (bd_chatId (ec_input c)) m) as Eg by (unfold generation; by rewrite E2).
  destruct (Z.eqb_spec (generation (bd_chatId (ec_input c)) m0) (ec_generation c)); cbn [negb]; [|by apply advances_same].
  split; [intros h; unfold generation; cbn; by rewrite E2|]. intros h r'. cbn. rewrite E3. intros [[<- <-]|[_ Hh]]%lookup_insert_Some; [right | by left].
  exists k, c. split_and!; try done. congruence.
Qed.

Lemma advances_step o m : advances m (session_step o m).1.
Proof.
  destruct o; cbn -[reap_start]; try (by apply advances_same).
  - apply shrinks_advances, shrinks_ensure.
  - unfold waiter_wakes. destruct (xm_waiters m !! w) as [[[input ex] k]|]; [|by apply advances_same].
    destruct (ec_stage <$> _) as [[]|]; try (by apply advances_same). apply shrinks_advances. exact (shrinks_ensure input ex (xm_set_waiters (delete w (xm_waiters m)) m)).
  - unfold call_stored, after_matching. destruct (xm_calls m !! k) as [c|] eqn:Hk; [|by apply advances_same].
    destruct (ec_stage c) eqn:Hst; try (by apply advances_same); try (repeat case_match; by apply advances_same).
    + destruct (ec_record c ≫= _); [|by apply advances_same]. destruct (negb ok); [by apply advances_same|].
      destruct (resumable c); [by apply advances_same|]. eapply (advances_register k m _ c); by rewrite ?Hst.
    + destruct (negb ok); [by apply advances_same|]. eapply (advances_register k m _ c); by rewrite ?Hst.
  - apply advances_same; unfold call_continues, open_start, send_open, open_answered, open_refused, call_finally; repeat (case_match; try done).
  - apply shrinks_advances, shrinks_reap_start.
  - apply shrinks_advances, shrinks_reap_each.
  - apply shrinks_advances. exact (shrinks_reap_each _ _ _ _ (xm_set_shuttingDown (Some reason) m)).
  - apply advances_same; unfold reap_continues; repeat (case_match; try done).
  - unfold retire. repeat case_match; try (by apply advances_same). apply shrinks_advances, shrinks_reap_start.
  - apply advances_same; unfold mark_start; by case_match.
  - apply advances_same; unfold mark_stored; repeat (case_match; try done).
  - apply advances_same; unfold session_event; repeat (case_match; try done).
  - unfold client_closed. repeat case_match; try (by apply advances_same). apply shrinks_advances, shrinks_reap_start.
  - apply advances_same; unfold release_hold; by case_match.
  - apply advances_same; unfold adopt_session; by case_match.
Qed.

Lemma ensureSession_waiters m input ex w p : xm_waiters (ensureSession input ex m).1 !! w = Some p -> xm_waiters m !! w = Some p \/ p.1.1 = input.
Proof.
  unfold ensureSession. destruct (_ ≫= _) as [[k c]|].
  - destruct (sameBinding _ _); cbn; [auto|]. intros [[<- <-]|[_ H]]%lookup_insert_Some; auto.
  - set (m1 := xm_set_next _ _). assert (xm_waiters (ensure_start (xm_next m) m1).1 = xm_waiters m) as E; [|destruct (ensure_start (xm_next m) m1); cbn in *; rewrite E; auto].
    change (xm_waiters m) with (xm_waiters m1). unfold ensure_start, open_start. repeat (case_match; try done). subst.
    match goal with H : reap_start ?a ?b ?c ?d m1 = _ |- _ => pose proof (reap_start_state a b c d m1) as E; rewrite H in E end. cbn in *. by destruct E as (_ & _ & _ & E & _).
Qed.

(** A send that waits asked for its session. *)
Lemma waiters_step o m w p : xm_waiters (session_step o m).1 !! w = Some p -> xm_waiters m !! w = Some p \/ requests o m p.1.1.
Proof.
  assert (forall m', xm_waiters m' = xm_waiters m -> xm_waiters m' !! w = Some p -> xm_waiters m !! w = Some p \/ requests o m p.1.1) as Hsame by (intros m' ->; auto).
  assert (forall m', xm_waiters m' = xm_waiters m -> xm_waiters m' = xm_waiters m) as Hid by done.
  destruct o; cbn -[reap_start]; try (by apply Hsame).
  - intros [?| ->]%ensureSession_waiters; [auto|]. right. left. eauto.
  - unfold waiter_wakes. destruct (xm_waiters m !! w0) as [[[input ex] k]|] eqn:Hw; [|by apply Hsame].
    destruct (ec_stage <$> _) as [[]|]; try (by apply Hsame). intros [H| ->]%ensureSession_waiters.
    + left. cbn in H. by apply lookup_delete_Some in H as [_ H].
    + right. right. eauto 6.
  - apply Hsame. unfold call_stored, after_matching, register. repeat (case_match; try done).
  - apply Hsame. unfold call_continues, open_start, send_open, open_answered, open_refused, call_finally. repeat (case_match; try done).
  - apply Hsame, (reap_start_state chatId reason keepContinuation explicit m).
  - apply Hsame, (reap_each_effect (chats_in s m) reason keepContinuation explicit m).
  - apply Hsame, (reap_each_effect _ reason true false (xm_set_shuttingDown (Some reason) m)).
  - apply Hsame. unfold reap_continues. repeat (case_match; try done).
  - apply Hsame. unfold retire. repeat case_match; try done. apply (reap_start_state _ r_runtime_disconnected (negb dropContinuation) false m).
  - apply Hsame. unfold mark_start. by case_match.
  - apply Hsame. unfold mark_stored. repeat (case_match; try done).
  - apply Hsame. unfold session_event. repeat (case_match; try done).
  - apply Hsame. unfold client_closed. repeat case_match; try done. apply (reap_start_state _ r_runtime_disconnected true false m).
  - apply Hsame. unfold release_hold. by case_match.
  - apply Hsame. unfold adopt_session. by case_match.
Qed.

(** A call that has read its chat's generation has not read ahead of it. *)
Definition gen_ok (m : session_manager) : Prop :=
  forall k c, xm_calls m !! k = Some c -> call_runs (ec_stage c) = true -> early (ec_stage c) = false -> ec_generation c <= generation (bd_chatId (ec_input c)) m.

Lemma gen_ok_step o m es : xinv m es -> gen_ok m -> gen_ok (session_step o m).1.
Proof.
  intros I G k c' Hk Hr He. pose proof (ad_generation _ _ (advances_step o m) (bd_chatId (ec_input c'))) as Hmono.
  destruct (calls_step o m es k c' I Hk) as [(c & Hc & M)|(input & _ & _ & B)].
  - destruct (mv_runs _ _ _ _ M Hr) as (Hrc & H1 & H2). rewrite (mv_input _ _ _ _ M) in *.
    destruct (early (ec_stage c)) eqn:Hec; [destruct (H2 eq_refl) as [?|?]; [congruence | lia]|].
    destruct (H1 eq_refl) as [-> _]. specialize (G k c Hc Hrc Hec). lia.
  - destruct (bg_runs _ _ _ B Hr) as [?|E]; [congruence|]. rewrite (bg_input _ _ _ B) in *. lia.
Qed.

Lemma gen_ok_run os : gen_ok (session_run os new_session_manager).1.
Proof.
  induction os as [|o os IH] using rev_ind; [by intros ???|]. rewrite session_run_snoc. pose proof (xinv_run os) as I.
  destruct (session_run os new_session_manager) as [m es]. apply (gen_ok_step o m es I) in IH. by destruct (session_step o m).
Qed.

(** Nothing in scope is live, waits, or can still be registered. *)
Record revoked (s : reap_scope) (m : session_manager) : Prop := {
  rv_sessions : forall chatId r x, xm_sessions m !! chatId = Some r -> xm_records m !! r = Some x -> binding_in s (sr_binding x) = false;
  rv_calls : forall k c, xm_calls m !! k = Some c -> call_runs (ec_stage c) = true -> binding_in s (ec_input c) = true ->
    early (ec_stage c) = false /\ ec_generation c < generation (bd_chatId (ec_input c)) m;
  rv_waiters : forall w p, xm_waiters m !! w = Some p -> binding_in s p.1.1 = false;
}.

Definition asks_in (s : reap_scope) (o : session_op) : bool := match o with XoEnsure input _ => binding_in s input | _ => false end.

Lemma revoked_step s o m es : xinv m es -> asks_in s o = false -> revoked s m -> revoked s (session_step o m).1.
Proof.
  intros I Ho R.
  assert (forall input, requests o m input -> binding_in s input = false) as Hreq.
  { intros input [[ex ->]|(w & ex & k & -> & Hw)]; [done | apply (rv_waiters _ _ R w _ Hw)]. }
  destruct (step_keeps o m es I) as [Hrec _]. split.
  - intros h r x' Hs Hx'. destruct (ad_sessions _ _ (advances_step o m) h r Hs) as [Hs0|(k & c & Hc & Hr & He & Hcr & <- & Hg)].
    + destruct (xi_sessions _ _ I h r Hs0) as (x & Hx & _). destruct (Hrec r x Hx) as (y & Hy & Hb & _). simplify_eq. rewrite Hb. by eapply (rv_sessions _ _ R).
    + destruct (xi_binding _ _ I k c r Hc Hcr) as (x & Hx & Hb & _). destruct (Hrec r x Hx) as (y & Hy & Hb' & _). simplify_eq. rewrite Hb', Hb.
      destruct (binding_in s (ec_input c)) eqn:E; [|done]. destruct (rv_calls _ _ R k c Hc Hr E). lia.
  - intros k c' Hk Hr Hin. pose proof (ad_generation _ _ (advances_step o m) (bd_chatId (ec_input c'))) as Hmono.
    destruct (calls_step o m es k c' I Hk) as [(c & Hc & M)|(input & Hq & _ & B)].
    + rewrite (mv_input _ _ _ _ M) in *. destruct (mv_runs _ _ _ _ M Hr) as (Hrc & H1 & _). destruct (rv_calls _ _ R k c Hc Hrc Hin) as [He Hlt].
      destruct (H1 He) as [-> ->]. split; [done | lia].
    + apply Hreq in Hq. rewrite (bg_input _ _ _ B) in Hin. congruence.
  - intros w p [Hw|Hq]%waiters_step; [by apply (rv_waiters _ _ R w) | by apply Hreq].
Qed.

Lemma in_collected {A} (f : jstring * A -> bool) (m : gmap jstring A) h v : m !! h = Some v -> f (h, v) = true -> h ∈ map fst (List.filter f (map_to_list m)).
Proof. intros Hm Hf. apply list_elem_of_In, in_map_iff. exists (h, v). split; [done|]. apply filter_In. split; [|done]. by apply list_elem_of_In, elem_of_map_to_list. Qed.

Lemma chats_in_live s m h r x : xm_sessions m !! h = Some r -> xm_records m !! r = Some x -> binding_in s (sr_binding x) = true -> h ∈ chats_in s m.
Proof. intros Hs Hr Hb. unfold chats_in. rewrite elem_of_remove_dups, !elem_of_app. left. eapply in_collected; [done|]. cbn. by rewrite Hr. Qed.

Lemma chats_in_opening s m h k c : xm_opening m !! h = Some k -> xm_calls m !! k = Some c -> binding_in s (ec_input c) = true -> h ∈ chats_in s m.
Proof. intros Hs Hr Hb. unfold chats_in. rewrite elem_of_remove_dups, !elem_of_app. right. left. eapply in_collected; [done|]. cbn. by rewrite Hr. Qed.

Lemma reapScope_revokes s reason keep explicit m es : xinv m es -> gen_ok m ->
  (forall w p, xm_waiters m !! w = Some p -> binding_in s p.1.1 = false) ->
  (forall k c, xm_calls m !! k = Some c -> early (ec_stage c) = true -> binding_in s (ec_input c) = false) ->
  revoked s (reapScope s reason keep explicit m).1.
Proof.
  intros I G Hw He. unfold reapScope. destruct (reap_each_effect (chats_in s m) reason keep explicit m) as (H1 & H2 & H3 & H4).
  destruct (reap_each_keeps (chats_in s m) reason keep explicit m) as [Hrec _]. split.
  - intros h r x' Hs Hx'. destruct (H3 h r Hs) as [Hs0 Hni]. destruct (xi_sessions _ _ I h r Hs0) as (x & Hx & _).
    destruct (Hrec r x Hx) as (y & Hy & Hb & _). simplify_eq. rewrite Hb. destruct (binding_in s (sr_binding x)) eqn:E; [|done].
    destruct Hni. by eapply chats_in_live.
  - intros k c. rewrite reap_each_calls. intros Hk Hr Hin. assert (early (ec_stage c) = false) as Hec.
    { destruct (early (ec_stage c)) eqn:E; [|done]. rewrite (He k c Hk E) in Hin. done. }
    split; [done|]. specialize (G k c Hk Hr Hec). enough (bd_chatId (ec_input c) ∈ chats_in s m) as H%H2 by lia.
    eapply chats_in_opening; [|done..]. apply (xi_pending _ _ I k c Hk). by apply runs_pending.
  - rewrite H4. apply Hw.
Qed.

Lemma revoked_run s os : forall m es, xinv m es -> forallb (fun o => negb (asks_in s o)) os = true -> revoked s m -> revoked s (session_run os m).1.
Proof.
  induction os as [|o os IH]; intros m es I Hos R; [done|]. simpl in Hos. apply andb_prop in Hos as [Ho Hos]. simpl. unfold and_then.
  pose proof (xinv_step o m es I) as J. pose proof (revoked_step s o m es I ltac:(by destruct (asks_in s o)) R) as R'.
  destruct (session_step o m) as [m1 es1]. cbn in *. specialize (IH m1 _ J Hos R'). by destruct (session_run os m1).
Qed.

(** C8: Once a scope (a user, an environment, a target, or any of these together) has been reaped, no session in it is live again until someone asks for one in it, however the opens, reaps and statements under way then interleave; provided no send in the scope was still waiting for another binding's open, and no call in it for its own reap. *)
Theorem revocation_is_final os s reason keep explicit os' chatId r x :
  let m := (session_run os new_session_manager).1 in
  let m' := (session_run os' (reapScope s reason keep explicit m).1).1 in
  (forall w p, xm_waiters m !! w = Some p -> binding_in s p.1.1 = false) ->
  (forall k c, xm_calls m !! k = Some c -> early (ec_stage c) = true -> binding_in s (ec_input c) = false) ->
  forallb (fun o => negb (asks_in s o)) os' = true ->
  xm_sessions m' !! chatId = Some r -> xm_records m' !! r = Some x -> binding_in s (sr_binding x) = false.
Proof.
  intros m m' Hw He Hos. pose proof (xinv_run os) as I. pose proof (gen_ok_run os) as G. fold m in I, G.
  assert (revoked s m') as R; [|by apply (rv_sessions _ _ R)].
  eapply revoked_run; [|exact Hos | by eapply reapScope_revokes]. by apply (xinv_reap_each (chats_in s m) reason keep explicit m).
Qed.

(** ** Concrete runs *)

(** A binding of user [u] for chat [h] in environment [e]. *)
Definition a_binding (u h e : string) : ExternalSessionBinding :=
  {| bd_userId := js u; bd_chatId := js h; bd_environmentId := js e; bd_targetId := tg_claude; bd_canonicalWorkspacePath := js "/w"; bd_vendorAccountFingerprint := None;
     bd_credentialHomeFingerprint := None |}.

Definition an_answer (native : string) (resumed : bool) : opened_session := {| od_nativeSessionId := js native; od_resumed := resumed; od_fallbackReason := None |}.

(** Call [k] up to the runtime's open, when no row is stored or it matches. *)
Definition to_open (k : nat) (sid : string) : list session_op :=
  [XoStored k true 0; XoContinue k (an_client (Some 7%nat)); XoContinue k (an_toolchain (Some (js sid)) 0)].

(** The rest of a first open, up to its registration. *)
Definition to_register (k : nat) (native : string) : list session_op := [XoContinue k (an_opened (an_answer native false) 1); XoStored k true 2].

Definition opened (b : ExternalSessionBinding) (k : nat) : list session_op :=
  XoEnsure b false :: to_open k "s1" ++ to_register k "n1" ++ [XoContinue k an_finally].

Definition user_scope (u : string) : reap_scope := {| sc_userId := Some (js u); sc_environmentId := None; sc_targetId := None |}.

Lemma forallb_lookup {A} (f : A -> bool) (m : gmap nat A) k v : forallb (fun q => negb (f q.2)) (map_to_list m) = true -> m !! k = Some v -> f v = false.
Proof.
  rewrite forallb_forall. intros H Hk. specialize (H (k, v)). cbn in H. destruct (f v); [|done].
  discriminate H. by apply list_elem_of_In, elem_of_map_to_list.
Qed.

Lemma implied_false (a b : bool) : a && b = false -> a = true -> b = false.
Proof. by destruct a. Qed.

(** Ann's first chat has its session; her second is being opened when she is revoked, and Bob's opens after it. *)
Definition run_before : list session_op := opened (a_binding "ann" "h1" "e") 0 ++ XoEnsure (a_binding "ann" "h2" "e") false :: to_open 2 "s2".
Definition run_after : list session_op :=
  to_register 2 "n2" ++ [XoStored 2 true 3; XoContinue 2 an_closed; XoContinue 2 an_finally] ++ XoEnsure (a_binding "bob" "h3" "e") false :: to_open 6 "s3" ++ to_register 6 "n3".

Lemma conversations_are_not_shared_witness :
  (exists r x, xm_records (session_run (opened (a_binding "ann" "h1" "e") 0 ++ XoReapChat (js "h1") r_runtime_disconnected true false
      :: XoEnsure (a_binding "ann" "h1" "e") false :: to_open 3 "s2") new_session_manager).1 !! r = Some x
     /\ sr_binding x = a_binding "ann" "h1" "e" /\ sr_nativeSessionId x = js "n1")
  \/ exists now, XoAdoptSession (a_binding "ann" "h1" "e") (js "n1") now ∈ opened (a_binding "ann" "h1" "e") 0
      ++ XoReapChat (js "h1") r_runtime_disconnected true false :: XoEnsure (a_binding "ann" "h1" "e") false :: to_open 3 "s2".
Proof.
  apply (conversations_are_not_shared (opened (a_binding "ann" "h1" "e") 0 ++ XoReapChat (js "h1") r_runtime_disconnected true false
      :: XoEnsure (a_binding "ann" "h1" "e") false :: to_open 3 "s2") 3 (js "s2") (a_binding "ann" "h1" "e") (js "n1") rm_strict).
  apply list_elem_of_In. vm_compute. repeat (left; reflexivity) || right.
Defined.

Lemma revocation_is_final_witness :
  let m := (session_run run_before new_session_manager).1 in
  let m' := (session_run run_after (reapScope (user_scope "ann") r_consent_revoked false true m).1).1 in
  exists r x, xm_sessions m' !! js "h3" = Some r /\ xm_records m' !! r = Some x /\ binding_in (user_scope "ann") (sr_binding x) = false.
Proof.
  intros m m'. eexists _, _. split_and!; [vm_compute; reflexivity | vm_compute; reflexivity|].
  eapply (revocation_is_final run_before (user_scope "ann") r_consent_revoked false true run_after (js "h3")).
  - intros w p. apply (forallb_lookup (fun p => binding_in (user_scope "ann") p.1.1)). vm_compute. reflexivity.
  - intros k c Hk. apply implied_false. revert Hk. apply (forallb_lookup (fun c => early (ec_stage c) && binding_in (user_scope "ann") (ec_input c))).
    vm_compute. reflexivity.
  - vm_compute. reflexivity.
  - vm_compute. reflexivity.
  - vm_compute. reflexivity.
Defined.

(** ** Where it falls short *)

(** The row of a session the runtime has opened cannot be written: nobody closes the session, and it stays subscribed. *)
Example unwritten_session_is_lost :
  let '(m, es) := session_run (XoEnsure (a_binding "ann" "h1" "e") false :: to_open 0 "s1"
    ++ [XoContinue 0 (an_opened (an_answer "n1" false) 1); XoStored 0 false 2; XoContinue 0 an_finally]) new_session_manager in
  closes 1 es = 0%nat /\ sr_subscribed <$> xm_records m !! 1%nat = Some true /\ xm_sessions m = ∅ /\ xm_opening m = ∅ /\ standing_of m (ow_call 0) = sd_lost.
Proof. vm_compute. auto. Qed.

(** The row of a reaped session cannot be deleted: the runtime is not asked to close the session. *)
Example unreaped_session_is_lost :
  let '(m, es) := session_run (opened (a_binding "ann" "h1" "e") 0 ++ [XoReapChat (js "h1") r_consent_revoked false true; XoReap 2 false]) new_session_manager in
  closes 1 es = 0%nat /\ xm_sessions m = ∅ /\ standing_of m (ow_reap 2) = sd_lost.
Proof. vm_compute. auto. Qed.

(** The hub stops while a session is being opened: the session is registered afterwards. *)
Example shutdown_misses_opens :
  let '(m, es) := session_run (XoEnsure (a_binding "ann" "h1" "e") false :: to_open 0 "s1" ++ XoReapAll r_hub_restarted :: to_register 0 "n1") new_session_manager in
  xm_sessions m !! js "h1" = Some 1%nat /\ closes 1 es = 0%nat.
Proof. vm_compute. auto. Qed.

(** A scope is reaped while a call in it waits for the reap of the chat's other session: the call opens its session all the same. *)
Example revocation_misses_a_waiting_call :
  let '(m, es) := session_run (opened (a_binding "ann" "h1" "e1") 0 ++ [XoEnsure (a_binding "ann" "h1" "e2") false;
    XoReapScope {| sc_userId := None; sc_environmentId := Some (js "e2"); sc_targetId := None |} r_consent_revoked false true;
    XoReap 3 true; XoReap 3 true; XoReap 3 true; XoContinue 2 an_reaped] ++ to_open 2 "s2" ++ to_register 2 "n2") new_session_manager in
  (bd_environmentId ∘ sr_binding) <$> (xm_sessions m !! js "h1" ≫= fun r => xm_records m !! r) = Some (js "e2").
Proof. vm_compute. auto. Qed.

(** A scope is reaped while a send in it waits for another binding's open: the send opens its session all the same. *)
Example revocation_misses_a_waiting_send :
  let '(m, es) := session_run (XoEnsure (a_binding "ann" "h1" "e1") false :: to_open 0 "s1" ++ [XoEnsure (a_binding "ann" "h1" "e2") false;
    XoReapScope {| sc_userId := None; sc_environmentId := Some (js "e2"); sc_targetId := None |} r_consent_revoked false true;
    XoContinue 0 (an_refused false 1); XoContinue 0 an_finally; XoWaiter 1] ++ to_open 2 "s2" ++ to_register 2 "n2") new_session_manager in
  (bd_environmentId ∘ sr_binding) <$> (xm_sessions m !! js "h1" ≫= fun r => xm_records m !! r) = Some (js "e2").
Proof. vm_compute. auto. Qed.

(** The connection closes while the session's row is written: the row does not stay, although the reap keeps it. *)
Example closed_connection_drops_the_row :
  let before := XoEnsure (a_binding "ann" "h1" "e") false :: to_open 0 "s1" ++ [XoContinue 0 (an_opened (an_answer "n1" false) 1); XoClientClosed 1; XoStored 0 true 2] in
  is_Some (xm_rows (session_run before new_session_manager).1 !! js "h1")
  /\ xm_rows (session_run (before ++ [XoStored 0 true 3]) new_session_manager).1 !! js "h1" = None.
Proof. vm_compute. eauto. Qed.
