(* ===== verification/IpAddress.v ===== *)
(** * Addresses

    [apps/api/src/lib/ip-address.ts]: reading an address in any of its text forms and classifying it. The grammar of the forms
    and the blocks as ranges of 32-bit and 128-bit numbers are the reference. *)

From S2P Require Import Prelude Regex Json Wire Ssh.

(** ** What the code uses of the language *)

(** [String.prototype.toLowerCase]: on ASCII, letter by letter. *)
Class LowerMapping : Type := {
  toLowerCase : jstring -> jstring;
  lower_ascii s : Forall (fun u => 0 <= u < 128) s -> toLowerCase s = map (fun u => if (65 <=? u) && (u <=? 90) then u + 32 else u) s
}.

(** [text.split(c)] for one character *)
Fixpoint split_on (c : Z) (s : jstring) : list jstring :=
  match s with
  | [] => [[]]
  | u :: rest =>
      if u =? c then [] :: split_on c rest
      else match split_on c rest with p :: ps => (u :: p) :: ps | [] => [[u]] end
  end.

(** [text.split('::')] *)
Fixpoint split_double (s : jstring) : list jstring :=
  let keep u parts := match parts with p :: ps => (u :: p) :: ps | [] => [[u]] end in
  match s with
  | [] => [[]]
  | u :: rest =>
      match rest with
      | v :: rest' => if (u =? 58) && (v =? 58) then [] :: split_double rest' else keep u (split_double rest)
      | [] => keep u (split_double rest)
      end
  end.

(** Bit operations: 32-bit two's complement, and [>>> 0] back to an unsigned number. *)
Definition to_int32 (z : Z) : Z := let m := z mod 2 ^ 32 in if m <? 2 ^ 31 then m else m - 2 ^ 32.
Definition bit_and (a b : Z) : Z := to_int32 (Z.land (a mod 2 ^ 32) (b mod 2 ^ 32)).
Definition bit_or (a b : Z) : Z := to_int32 (Z.lor (a mod 2 ^ 32) (b mod 2 ^ 32)).
Definition bit_shl (a n : Z) : Z := to_int32 (Z.shiftl (a mod 2 ^ 32) n).
Definition bit_ushr (a n : Z) : Z := Z.shiftr (a mod 2 ^ 32) n.
Definition bit_not (a : Z) : Z := to_int32 (Z.lnot (a mod 2 ^ 32)).

(** ** Parsing *)

Definition quad : Type := (Z * Z * Z * Z)%type.

Inductive ParsedAddress : Type := ip4 (octets : quad) | ip6 (groups : list Z).

Section Parse.
Context `{LowerMapping}.

Definition normalize (value : jstring) : jstring :=
  let trimmed := toLowerCase (trim value) in
  let withoutBrackets :=
    if starts_with [91] trimmed && starts_with [93] (reverse trimmed) then take (length trimmed - 2) (drop 1 trimmed) else trimmed in
  let withoutZone := hd [] (split_on 37 withoutBrackets) in
  if starts_with [46] (reverse withoutZone) then take (length withoutZone - 1) withoutZone else withoutZone.

(** [/^(0|[1-9]\d{0,2})$/] *)
Definition OCTET : regex :=
  RAlt (RChar 48) (RSeq (RClass [(49, 57)]) (RSeq (ROpt (RClass [(48, 57)])) (ROpt (RClass [(48, 57)])))).

(** [/^[0-9a-f]{1,4}$/] *)
Definition hex_class : regex := RClass [(48, 57); (97, 102)].
Definition HEXTET : regex := RSeq hex_class (RSeq (ROpt hex_class) (RSeq (ROpt hex_class) (ROpt hex_class))).

(** [Number(part)] of digits *)
Definition number_of (part : jstring) : Z := digits_value (map (fun u => u - 48) part).

Definition parse_octet (part : jstring) : option Z :=
  if negb (matches OCTET part) then None else if 255 <? number_of part then None else Some (number_of part).

Definition parseIPv4Literal (text : jstring) : option quad :=
  match split_on 46 text with
  | [a; b; c; d] => o0 ← parse_octet a; o1 ← parse_octet b; o2 ← parse_octet c; o3 ← parse_octet d; Some (o0, o1, o2, o3)
  | _ => None
  end.

(** [Number.parseInt(part, 16)] of hexadecimal digits *)
Definition hex_number (part : jstring) : Z := fold_left (fun a u => 16 * a + default 0 (hex_value u)) part 0.

(** The loop of [parseHextets] *)
Fixpoint hextets (parts : list jstring) (allowIPv4 : bool) : option (list Z) :=
  match parts with
  | [] => Some []
  | part :: rest =>
      if bool_decide (46 ∈ part) then
        if negb allowIPv4 || negb (bool_decide (rest = [])) then None
        else
          '(o0, o1, o2, o3) ← parseIPv4Literal part;
          gs ← hextets rest allowIPv4;
          Some (bit_or (bit_shl o0 8) o1 :: bit_or (bit_shl o2 8) o3 :: gs)
      else if negb (matches HEXTET part) then None
      else gs ← hextets rest allowIPv4; Some (hex_number part :: gs)
  end.

Definition parseHextets (text : jstring) (allowIPv4 : bool) : option (list Z) :=
  if bool_decide (text = []) then Some [] else hextets (split_on 58 text) allowIPv4.

Definition parseIPv6 (text : jstring) : option (list Z) :=
  match split_double text with
  | [whole] => head ← parseHextets whole true; if zlen head =? 8 then Some head else None
  | [h; t] =>
      head ← parseHextets h false;
      tail ← parseHextets t true;
      let elided := 8 - zlen head - zlen tail in
      if elided <? 1 then None else Some (head ++ replicate (Z.to_nat elided) 0 ++ tail)
  | _ => None
  end.

Definition parseNormalized (normalized : jstring) : option ParsedAddress :=
  match parseIPv4Literal normalized with
  | Some octets => Some (ip4 octets)
  | None => match parseIPv6 normalized with Some groups => Some (ip6 groups) | None => None end
  end.

Definition parseIpAddress (value : jstring) : option ParsedAddress := parseNormalized (normalize value).

Definition formatHostForUrl (value : jstring) : jstring :=
  let normalized := normalize value in
  match parseNormalized normalized with Some (ip6 _) => [91] ++ normalized ++ [93] | _ => normalized end.

(** ** Classifying *)

(** A group of a parsed address, of which there are always eight. *)
Definition group (groups : list Z) (i : nat) : Z := nth i groups 0.

Definition embeddedIPv4 (groups : list Z) : option quad :=
  if negb (group groups 0 =? 0) || negb (group groups 1 =? 0) || negb (group groups 2 =? 0) || negb (group groups 3 =? 0) then None
  else if negb (group groups 4 =? 0) then None
  else if negb (group groups 5 =? 0) && negb (group groups 5 =? 0xffff) then None
  else Some (bit_ushr (group groups 6) 8, bit_and (group groups 6) 0xff, bit_ushr (group groups 7) 8, bit_and (group groups 7) 0xff).

Definition isIPv6Loopback (groups : list Z) : bool := forallb (fun g => g =? 0) (take 7 groups) && (group groups 7 =? 1).
Definition isUniqueLocalIPv6 (groups : list Z) : bool := bit_and (group groups 0) 0xfe00 =? 0xfc00.
Definition isLinkLocalIPv6 (groups : list Z) : bool := bit_and (group groups 0) 0xffc0 =? 0xfe80.
Definition isMulticastIPv6 (groups : list Z) : bool := bit_and (group groups 0) 0xff00 =? 0xff00.

Definition toNumber (o : quad) : Z :=
  let '(o0, o1, o2, o3) := o in bit_ushr (bit_or (bit_or (bit_or (bit_shl o0 24) (bit_shl o1 16)) (bit_shl o2 8)) o3) 0.

Definition ipv4Range (network : quad) (prefixBits : Z) : Z * Z :=
  let mask := bit_ushr (bit_shl (bit_not 0) (32 - prefixBits)) 0 in (bit_and (toNumber network) mask, mask).

Definition PRIVATE_OR_LOCAL_IPV4_RANGES : list (Z * Z) :=
  [ipv4Range (127, 0, 0, 0) 8; ipv4Range (10, 0, 0, 0) 8; ipv4Range (172, 16, 0, 0) 12; ipv4Range (192, 168, 0, 0) 16;
   ipv4Range (169, 254, 0, 0) 16; ipv4Range (100, 64, 0, 0) 10; ipv4Range (0, 0, 0, 0) 8; ipv4Range (192, 0, 0, 0) 24;
   ipv4Range (224, 0, 0, 0) 4; ipv4Range (240, 0, 0, 0) 4].

Definition isPrivateOrLocalIPv4 (octets : quad) : bool :=
  let num := toNumber octets in existsb (fun '(network, mask) => bit_and num mask =? network) PRIVATE_OR_LOCAL_IPV4_RANGES.

Definition isLoopback (value : jstring) : bool :=
  let normalized := normalize value in
  if bool_decide (normalized = js "localhost") then true
  else
    match parseNormalized normalized with
    | None => false
    | Some (ip4 (o0, _, _, _)) => o0 =? 127
    | Some (ip6 groups) =>
        if isIPv6Loopback groups then true
        else match embeddedIPv4 groups with Some (o0, _, _, _) => o0 =? 127 | None => false end
    end.

Definition isPrivateOrLocal (value : jstring) : bool :=
  let normalized := normalize value in
  if bool_decide (normalized = js "localhost") then true
  else
    match parseNormalized normalized with
    | None => true
    | Some (ip4 octets) => isPrivateOrLocalIPv4 octets
    | Some (ip6 groups) =>
        match embeddedIPv4 groups with
        | Some octets => isPrivateOrLocalIPv4 octets
        | None => isUniqueLocalIPv6 groups || isLinkLocalIPv6 groups || isMulticastIPv6 groups
        end
    end.

End Parse.

(** ** The reference *)

(** Texts joined by a separator *)
Fixpoint joined (c : Z) (parts : list jstring) : jstring :=
  match parts with [] => [] | [p] => p | p :: rest => p ++ [c] ++ joined c rest end.

Definition octet (o : Z) : Prop := 0 <= o <= 255.

(** Four decimal octets, without leading zeros *)
Definition quad_text (q : quad) (t : jstring) : Prop :=
  let '(a, b, c, d) := q in octet a /\ octet b /\ octet c /\ octet d /\ t = joined 46 [dec a; dec b; dec c; dec d].

(** One to four lower-case hexadecimal digits *)
Definition hextet_text (g : Z) (t : jstring) : Prop :=
  (1 <= length t <= 4)%nat /\ Forall (fun u => 48 <= u <= 57 \/ 97 <= u <= 102) t /\ g = hex_number t.

(** Groups with colons between them, the last two perhaps as a dotted quad *)
Inductive run_text (allowIPv4 : bool) : list Z -> list jstring -> Prop :=
| run_nil : run_text allowIPv4 [] []
| run_group g t gs ts : hextet_text g t -> run_text allowIPv4 gs ts -> run_text allowIPv4 (g :: gs) (t :: ts)
| run_quad a b c d t : allowIPv4 = true -> quad_text (a, b, c, d) t -> run_text allowIPv4 [256 * a + b; 256 * c + d] [t].

Definition side_text (allowIPv4 : bool) (gs : list Z) (t : jstring) : Prop := exists ts, run_text allowIPv4 gs ts /\ t = joined 58 ts.

(** The text forms of an address: a dotted quad, eight groups, or groups around one or more zero groups left out *)
Definition address_text (a : ParsedAddress) (t : jstring) : Prop :=
  match a with
  | ip4 q => quad_text q t
  | ip6 gs =>
      (side_text true gs t /\ length gs = 8%nat)
      \/ exists hs zs ts h u, gs = hs ++ zs ++ ts /\ t = h ++ [58; 58] ++ u /\ side_text false hs h /\ side_text true ts u
           /\ length gs = 8%nat /\ zs <> [] /\ Forall (eq 0) zs
  end.

Definition value4 (q : quad) : Z := let '(a, b, c, d) := q in ((a * 256 + b) * 256 + c) * 256 + d.
Definition value6 (gs : list Z) : Z := fold_left (fun v g => v * 65536 + g) gs 0.

(** [n] is in the block of [bits]-bit addresses that share the first [prefix] bits of [network]. *)
Definition in_block (bits n network prefix : Z) : bool := n / 2 ^ (bits - prefix) =? network / 2 ^ (bits - prefix).

Definition blocked4 (n : Z) : bool :=
  existsb (fun '(q, prefix) => in_block 32 n (value4 q) prefix)
    [((127, 0, 0, 0), 8); ((10, 0, 0, 0), 8); ((172, 16, 0, 0), 12); ((192, 168, 0, 0), 16); ((169, 254, 0, 0), 16); ((100, 64, 0, 0), 10);
     ((0, 0, 0, 0), 8); ((192, 0, 0, 0), 24); ((224, 0, 0, 0), 4); ((240, 0, 0, 0), 4)].

(** IPv4-compatible and IPv4-mapped addresses are judged by the IPv4 address in them; else unique-local, link-local and multicast. *)
Definition blocked6 (n : Z) : bool :=
  if in_block 128 n 0 96 || in_block 128 n (0xffff * 2 ^ 32) 96 then blocked4 (n mod 2 ^ 32)
  else in_block 128 n (0xfc00 * 2 ^ 112) 7 || in_block 128 n (0xfe80 * 2 ^ 112) 10 || in_block 128 n (0xff00 * 2 ^ 112) 8.

Definition blocked (a : ParsedAddress) : bool := match a with ip4 q => blocked4 (value4 q) | ip6 gs => blocked6 (value6 gs) end.
