(* ===== verification/IpAddressFacts.v ===== *)
(** * Addresses: the parser and the classifier against their references *)

From S2P Require Import Prelude Regex Json Wire Ssh IpAddress.

(** ** Splitting and joining *)

Lemma split_on_nonempty c s : split_on c s <> [].
Proof. induction s as [|u s IH]; [done|]. simpl. destruct (u =? c); [done|]. by destruct (split_on c s). Qed.

Lemma joined_cons c p ps : ps <> [] -> joined c (p :: ps) = p ++ [c] ++ joined c ps.
Proof. by destruct ps. Qed.

Lemma joined_split c s : joined c (split_on c s) = s.
Proof.
  induction s as [|u s IH]; [done|]. simpl. pose proof (split_on_nonempty c s) as Hne. destruct (Z.eqb_spec u c) as [->|].
  - rewrite joined_cons by done. by rewrite IH.
  - destruct (split_on c s) as [|p ps]; [done|]. rewrite <- IH. by destruct ps.
Qed.

Lemma split_on_free c s : Forall (fun p => c ∉ p) (split_on c s).
Proof.
  induction s as [|u s IH]; [repeat constructor; by intros ?%elem_of_nil|]. simpl. destruct (Z.eqb_spec u c) as [->|].
  - constructor; [by intros ?%elem_of_nil | done].
  - destruct (split_on c s) as [|p ps]; [by repeat constructor; intros ?%list_elem_of_singleton|].
    inversion IH; subst. constructor; [|done]. rewrite elem_of_cons. naive_solver.
Qed.

Lemma split_on_app c p s : c ∉ p -> split_on c (p ++ c :: s) = p :: split_on c s.
Proof.
  induction p as [|u p IH]; intros Hp; simpl; [by rewrite Z.eqb_refl|]. rewrite elem_of_cons in Hp.
  destruct (Z.eqb_spec u c) as [->|]; [tauto|]. rewrite IH by tauto. done.
Qed.

Lemma split_on_single c p : c ∉ p -> split_on c p = [p].
Proof.
  induction p as [|u p IH]; intros Hp; [done|]. rewrite elem_of_cons in Hp. simpl. destruct (Z.eqb_spec u c) as [->|]; [tauto|].
  by rewrite IH by tauto.
Qed.

Lemma split_joined c parts : parts <> [] -> Forall (fun p => c ∉ p) parts -> split_on c (joined c parts) = parts.
Proof.
  induction parts as [|p ps IH]; [done|]. intros _ HF. inversion HF; subst. destruct ps as [|q qs]; [by apply split_on_single|].
  rewrite joined_cons by done. change ([c] ++ joined c (q :: qs)) with (c :: joined c (q :: qs)). by rewrite split_on_app, IH by done.
Qed.

(** ** Dotted quads *)

(** What holds of every element of a short range is computed. *)
Lemma all_in_range (f : Z -> bool) n : forallb f (seqZ 0 n) = true -> forall x, 0 <= x < n -> f x = true.
Proof. rewrite forallb_forall. intros Hf x Hx. apply Hf, list_elem_of_In, elem_of_seqZ. lia. Qed.

Lemma octet_parses o : octet o -> parse_octet (dec o) = Some o.
Proof.
  intros Ho. assert (bool_decide (parse_octet (dec o) = Some o) = true) as H; [|by apply bool_decide_eq_true in H].
  revert o Ho. assert (forall x, 0 <= x < 256 -> bool_decide (parse_octet (dec x) = Some x) = true) as H by (apply all_in_range; vm_compute; reflexivity).
  intros o [??]. apply H. lia.
Qed.

Lemma in_class_one lo hi u : in_class [(lo, hi)] u = true <-> lo <= u <= hi.
Proof. unfold in_class. simpl. rewrite orb_false_r, andb_true_iff, !Z.leb_le. done. Qed.

Lemma short_numbers u v w : 49 <= u <= 57 -> 48 <= v <= 57 -> 48 <= w <= 57 ->
  dec (number_of [u]) = [u] /\ dec (number_of [u; v]) = [u; v] /\ dec (number_of [u; v; w]) = [u; v; w].
Proof.
  set (prints := fun l => bool_decide (dec (number_of l) = l)).
  set (all a b c := prints [a + 49] && prints [a + 49; b + 48] && prints [a + 49; b + 48; c + 48]).
  assert (forall a, 0 <= a < 9 -> forallb (fun b => forallb (all a b) (seqZ 0 10)) (seqZ 0 10) = true) as H
    by (apply (all_in_range (fun a => forallb (fun b => forallb (all a b) _) _)); vm_compute; reflexivity).
  intros Hu Hv Hw. specialize (H (u - 49) ltac:(lia)).
  apply (all_in_range _ _) with (x := v - 48) in H; [|lia]. apply (all_in_range _ _) with (x := w - 48) in H; [|lia].
  unfold all, prints in H. rewrite !Z.sub_add, !andb_true_iff, !bool_decide_eq_true in H. tauto.
Qed.

(** At most three digits, the first of them no zero unless it is the only one. *)
Lemma octet_shape part : matches OCTET part = true -> 0 <= number_of part /\ part = dec (number_of part).
Proof.
  rewrite matches_lang. intros HL.
  inversion HL as [| | |r1 r2 s Hs|r1 r2 s Hs| |]; subst.
  - apply lang_char in Hs as ->. done.
  - apply lang_seq in Hs as (s1 & s2 & -> & (u & -> & Hu%in_class_one)%lang_class & (s3 & s4 & -> & H3 & H4)%lang_seq).
    apply lang_opt in H3 as [->|(v & -> & Hv%in_class_one)%lang_class]; apply lang_opt in H4 as [->|(w & -> & Hw%in_class_one)%lang_class]; simpl;
      (split; [unfold number_of, digits_value; simpl; lia|]).
    + by destruct (short_numbers u 48 48 Hu ltac:(lia) ltac:(lia)) as (-> & _).
    + by destruct (short_numbers u w 48 Hu Hw ltac:(lia)) as (_ & -> & _).
    + by destruct (short_numbers u v 48 Hu Hv ltac:(lia)) as (_ & -> & _).
    + by destruct (short_numbers u v w Hu Hv Hw) as (_ & _ & ->).
Qed.

Lemma parse_octet_exact part o : parse_octet part = Some o <-> octet o /\ part = dec o.
Proof.
  split; [|intros [Ho ->]; by apply octet_parses].
  unfold parse_octet. destruct (matches OCTET part) eqn:E; [|done]. simpl. destruct (Z.ltb_spec 255 (number_of part)); [done|].
  intros [= <-]. apply octet_shape in E as [??]. done.
Qed.

Lemma octet_free c o : octet o -> c < 48 \/ 57 < c -> c ∉ dec o.
Proof.
  intros [H1 H2] Hc Hin. unfold dec in Hin. destruct (Z.ltb_spec o 0); [lia|]. apply list_elem_of_In, in_map_iff in Hin as (d & <- & Hd%list_elem_of_In).
  pose proof (digits_digits o H1) as HF. rewrite Forall_forall in HF. specialize (HF d Hd). unfold is_digit in HF. lia.
Qed.

Lemma parseIPv4Literal_exact t q : parseIPv4Literal t = Some q <-> quad_text q t.
Proof.
  destruct q as [[[a b] c] d]. unfold parseIPv4Literal, quad_text. split.
  - rewrite <- (joined_split 46 t) at 2. destruct (split_on 46 t) as [|p0 [|p1 [|p2 [|p3 [|]]]]]; try done. intros H.
    apply bind_Some in H as (o0 & H0 & H). apply bind_Some in H as (o1 & H1 & H). apply bind_Some in H as (o2 & H2 & H). apply bind_Some in H as (o3 & H3 & [= <- <- <- <-]).
    apply parse_octet_exact in H0 as [? ->]. apply parse_octet_exact in H1 as [? ->]. apply parse_octet_exact in H2 as [? ->]. apply parse_octet_exact in H3 as [? ->]. done.
  - intros (Ha & Hb & Hc & Hd & ->). rewrite split_joined; [|done | repeat constructor; apply octet_free; done || lia].
    rewrite !octet_parses by done. done.
Qed.

(** ** Bit operations *)

Lemma to_int32_mod z : to_int32 z mod 2 ^ 32 = z mod 2 ^ 32.
Proof.
  unfold to_int32. cbv zeta. destruct (_ <? _); [by rewrite Z.mod_mod|].
  replace (z mod 2 ^ 32 - 2 ^ 32) with (z mod 2 ^ 32 + (-1) * 2 ^ 32) by lia. by rewrite Z_mod_plus_full, Z.mod_mod.
Qed.

Lemma to_int32_inj x y : 0 <= x < 2 ^ 32 -> 0 <= y < 2 ^ 32 -> to_int32 x = to_int32 y -> x = y.
Proof. intros Hx Hy H. apply (f_equal (fun z => z mod 2 ^ 32)) in H. rewrite !to_int32_mod, !Z.mod_small in H; done. Qed.

Lemma low_bits z : Z.land (z mod 2 ^ 32) (Z.ones 32) = z mod 2 ^ 32.
Proof. rewrite Z.land_ones, Z.mod_mod; done. Qed.

Lemma bit_or_mod a b : bit_or a b mod 2 ^ 32 = Z.lor (a mod 2 ^ 32) (b mod 2 ^ 32).
Proof. unfold bit_or. rewrite to_int32_mod, <- !Z.land_ones, <- Z.land_lor_distr_l, <- Z.land_assoc, Z.land_diag; done. Qed.

Lemma bit_shl_mod a n : 0 <= n -> 0 <= a -> a * 2 ^ n < 2 ^ 32 -> bit_shl a n mod 2 ^ 32 = a * 2 ^ n.
Proof.
  intros Hn Ha Hlt. assert (a < 2 ^ 32) by (pose proof (Z.pow_pos_nonneg 2 n ltac:(lia) Hn); nia).
  unfold bit_shl. rewrite to_int32_mod, (Z.mod_small a) by lia. rewrite Z.shiftl_mul_pow2 by done. apply Z.mod_small. nia.
Qed.

Lemma lor_shifted a b n : 0 <= n -> 0 <= b < 2 ^ n -> Z.lor (a * 2 ^ n) b = a * 2 ^ n + b.
Proof.
  intros Hn Hb. symmetry. apply Z.add_nocarry_lor. rewrite <- Z.shiftl_mul_pow2 by done. apply Z.bits_inj'. intros i Hi.
  rewrite Z.land_spec, Z.bits_0. destruct (Z.ltb_spec i n).
  - by rewrite Z.shiftl_spec_low by done.
  - replace (Z.testbit b i) with false; [by rewrite andb_false_r|]. symmetry. destruct (Z.eq_dec b 0) as [->|]; [apply Z.bits_0|].
    apply Z.bits_above_log2; [lia|]. apply Z.log2_lt_pow2; [lia|]. assert (2 ^ n <= 2 ^ i) by (apply Z.pow_le_mono_r; lia). lia.
Qed.

(** ** Groups *)

Lemma hex_class_one u : in_class [(48, 57); (97, 102)] u = true <-> 48 <= u <= 57 \/ 97 <= u <= 102.
Proof. unfold in_class. simpl. rewrite orb_false_r, orb_true_iff, !andb_true_iff, !Z.leb_le. done. Qed.

Lemma lang_opt_class ranges u : lang (ROpt (RClass ranges)) u <-> (length u <= 1)%nat /\ Forall (fun c => in_class ranges c = true) u.
Proof.
  rewrite lang_opt, lang_class. split.
  - intros [->|(c & -> & Hc)]; (split; [simpl; lia | by repeat constructor]).
  - intros [Hl HF]. destruct u as [|c [|]]; [by left | right; inversion HF; eauto | simpl in Hl; lia].
Qed.

Lemma matches_hextet t : matches HEXTET t = true <-> (1 <= length t <= 4)%nat /\ Forall (fun u => 48 <= u <= 57 \/ 97 <= u <= 102) t.
Proof.
  rewrite matches_lang. unfold HEXTET, hex_class. assert (Forall (fun u => 48 <= u <= 57 \/ 97 <= u <= 102) t <-> Forall (fun u => in_class [(48, 57); (97, 102)] u = true) t) as ->
    by (apply Forall_iff; intros u; by rewrite hex_class_one). split.
  - intros (s1 & s2 & -> & (u & -> & Hu)%lang_class & (s3 & s4 & -> & [? ?]%lang_opt_class & (s5 & s6 & -> & [? ?]%lang_opt_class & [? ?]%lang_opt_class)%lang_seq)%lang_seq)%lang_seq.
    rewrite !length_app, !Forall_app. simpl. split; [lia | by repeat constructor].
  - intros [Hl HF]. destruct t as [|u t]; [simpl in Hl; lia|]. inversion HF; subst. change (u :: t) with ([u] ++ t). apply LSeq; [by constructor|].
    rewrite <- (take_drop 1 t). apply LSeq; [|rewrite <- (take_drop 1 (drop 1 t)); apply LSeq];
      apply lang_opt_class; rewrite ?length_take, ?length_drop; simpl in Hl; (split; [lia | eauto using Forall_take, Forall_drop]).
Qed.

Lemma hextet_exact g t : hextet_text g t <-> matches HEXTET t = true /\ g = hex_number t.
Proof. rewrite matches_hextet. unfold hextet_text. tauto. Qed.

Lemma hextet_free g t c : hextet_text g t -> c < 48 \/ 57 < c < 97 -> c ∉ t.
Proof. intros (_ & HF & _) Hc Hin. rewrite Forall_forall in HF. specialize (HF c Hin). lia. Qed.

Lemma quad_free q t c : quad_text q t -> c <> 46 -> c < 48 \/ 57 < c -> c ∉ t.
Proof.
  destruct q as [[[a b] d] e]. intros (Ha & Hb & Hd & He & ->) Hc Hr Hin. cbn in Hin.
  pose proof (octet_free c a Ha Hr). pose proof (octet_free c b Hb Hr). pose proof (octet_free c d Hd Hr). pose proof (octet_free c e He Hr).
  repeat first [apply elem_of_app in Hin as [Hin|Hin] | apply elem_of_cons in Hin as [Hin|Hin]]; done.
Qed.

Lemma quad_dotted q t : quad_text q t -> 46 ∈ t.
Proof. destruct q as [[[a b] d] e]. intros (_ & _ & _ & _ & ->). cbn. rewrite !elem_of_app, elem_of_cons. auto. Qed.

Lemma to_int32_small z : 0 <= z < 2 ^ 31 -> to_int32 z = z.
Proof. intros Hz. unfold to_int32. rewrite Z.mod_small by lia. cbv zeta. destruct (Z.ltb_spec z (2 ^ 31)); lia. Qed.

Lemma shift_byte a b : octet a -> octet b -> bit_or (bit_shl a 8) b = 256 * a + b.
Proof.
  unfold octet. intros Ha Hb. unfold bit_or. rewrite bit_shl_mod, (Z.mod_small b), lor_shifted by lia. rewrite to_int32_small by lia. lia.
Qed.

Lemma hextets_exact allow parts gs : hextets parts allow = Some gs <-> run_text allow gs parts.
Proof.
  split.
  - revert gs. induction parts as [|p ps IH]; intros gs; simpl; [intros [= <-]; constructor|].
    case_bool_decide.
    + destruct (negb allow || _) eqn:E; [done|]. apply orb_false_elim in E as [Ha Hp]. rewrite negb_false_iff in Ha, Hp. apply bool_decide_eq_true in Hp as ->. subst allow.
      intros Hb. apply bind_Some in Hb as ([[[a b] c] d] & Hq%parseIPv4Literal_exact & Hg). simpl in Hg. injection Hg as <-.
      pose proof Hq as (? & ? & ? & ? & _). rewrite !shift_byte by done. by constructor.
    + destruct (matches HEXTET p) eqn:E; [|done]. simpl. intros Hb. apply bind_Some in Hb as (gs' & Hg & [= <-]).
      constructor; [by apply hextet_exact | by apply IH].
  - induction 1 as [|g t gs ts Ht Hr IH|a b c d t -> Hq]; simpl; [done| |].
    + rewrite bool_decide_eq_false_2 by (eapply hextet_free; [done | lia]). apply hextet_exact in Ht as [-> ->]. simpl. by rewrite IH.
    + rewrite bool_decide_eq_true_2 by (by eapply quad_dotted). simpl.
      pose proof Hq as (? & ? & ? & ? & _). apply parseIPv4Literal_exact in Hq as ->. simpl. by rewrite !shift_byte by done.
Qed.

(** A part of a run is never empty and has no colon. *)
Definition part_ok (p : jstring) : Prop := p <> [] /\ 58 ∉ p.

Lemma run_parts allow gs ts : run_text allow gs ts -> Forall part_ok ts.
Proof.
  induction 1 as [|g t gs ts Ht Hr IH|a b c d t -> Hq]; [constructor| |].
  - constructor; [|done]. split; [|eapply hextet_free; [done | lia]]. intros ->. destruct Ht as [Hl _]. simpl in Hl. lia.
  - repeat constructor; [|eapply quad_free; [done | lia..]]. intros ->. by apply quad_dotted, elem_of_nil in Hq.
Qed.

Lemma parts_free ts : Forall part_ok ts -> Forall (fun p => 58 ∉ p) ts.
Proof. intros H. eapply Forall_impl; [exact H|]. by intros p [_ ?]. Qed.

Lemma joined_nonempty ts : ts <> [] -> Forall part_ok ts -> joined 58 ts <> [].
Proof. destruct ts as [|p [|q ts]]; [done|..]; intros _ HF; inversion HF as [|? ? [Hp _]]; [done|]. rewrite joined_cons by done. by destruct p. Qed.

Lemma parseHextets_exact allow t gs : parseHextets t allow = Some gs <-> side_text allow gs t.
Proof.
  unfold parseHextets, side_text. case_bool_decide as Ht; [subst t|].
  - split; [intros [= <-]; exists []; split; [constructor | done]|]. intros (ts & Hr & Hj). destruct ts as [|p ps]; [by inversion Hr|].
    apply run_parts in Hr. by destruct (joined_nonempty (p :: ps) ltac:(done) Hr).
  - rewrite hextets_exact. split; [intros Hr; exists (split_on 58 t); by rewrite joined_split|].
    intros (ts & Hr & ->). rewrite split_joined; [done| |by eapply parts_free, run_parts]. by intros ->.
Qed.

(** ** The two halves of an address *)

(** No two colons in a row, and none at the end *)
Fixpoint calm (s : jstring) : bool :=
  match s with
  | [] => true
  | u :: rest => negb ((u =? 58) && match rest with v :: _ => v =? 58 | [] => true end) && calm rest
  end.

Lemma calm_app p s : 58 ∉ p -> p <> [] -> calm s = true -> s <> [] -> match s with v :: _ => v <> 58 | [] => True end -> calm (p ++ 58 :: s) = true.
Proof.
  intros Hp _ Hs Hne Hv. induction p as [|u p IH]; simpl.
  - destruct s as [|v s]; [done|]. destruct (Z.eqb_spec v 58); [done | exact Hs].
  - rewrite elem_of_cons in Hp. destruct (Z.eqb_spec u 58) as [->|]; [tauto|]. simpl. apply IH. tauto.
Qed.

Lemma calm_free p : 58 ∉ p -> calm p = true.
Proof. induction p as [|u p IH]; [done|]. rewrite elem_of_cons. intros Hp. simpl. destruct (Z.eqb_spec u 58) as [->|]; [tauto|]. apply IH. tauto. Qed.

Lemma head_free p : 58 ∉ p -> match p with v :: _ => v <> 58 | [] => True end.
Proof. destruct p; [done|]. rewrite elem_of_cons. naive_solver. Qed.

Lemma joined_calm ts : Forall part_ok ts -> calm (joined 58 ts) = true /\ match joined 58 ts with v :: _ => v <> 58 | [] => True end.
Proof.
  induction ts as [|p [|q ts] IH]; intros HF; [done| |].
  - inversion HF as [|? ? [Hp Hf]]. split; [by apply calm_free | by apply head_free].
  - inversion HF as [|? ? [Hp Hf] HF']; subst. destruct (IH HF') as [Hc Hh]. rewrite joined_cons by done. split.
    + apply calm_app; [done..|by apply joined_nonempty | done].
    + destruct p as [|u p]; [done|]. rewrite elem_of_cons in Hf. simpl. naive_solver.
Qed.

Lemma side_calm allow gs t : side_text allow gs t -> calm t = true.
Proof. intros (ts & Hr & ->). by apply joined_calm, (run_parts allow gs). Qed.

Lemma split_double_nonempty s : split_double s <> [].
Proof. destruct s as [|u [|v s]]; [done | done|]. simpl. destruct (_ && _); [done|]. destruct s as [|w s]; [done|]. destruct ((v =? 58) && _); [done|]. by destruct (split_double (w :: s)). Qed.

Lemma split_double_pair s : split_double (58 :: 58 :: s) = [] :: split_double s.
Proof. done. Qed.

Lemma split_double_step u s : (u =? 58) && match s with v :: _ => v =? 58 | [] => false end = false ->
  split_double (u :: s) = match split_double s with p :: ps => (u :: p) :: ps | [] => [[u]] end.
Proof. destruct s as [|v s]; [done|]. intros E. cbn -[Z.eqb]. by rewrite E. Qed.

Lemma split_double_app a b : calm a = true -> split_double (a ++ 58 :: 58 :: b) = a :: split_double b.
Proof.
  induction a as [|u a IH]; intros Hc; [done|]. simpl in Hc. apply andb_prop in Hc as [Hu Hc]. change ((u :: a) ++ ?x) with (u :: (a ++ x)).
  rewrite split_double_step; [by rewrite IH|]. apply negb_true_iff in Hu. by destruct a; [destruct (u =? 58)|].
Qed.

Lemma split_double_single a : calm a = true -> split_double a = [a].
Proof.
  induction a as [|u a IH]; intros Hc; [done|]. simpl in Hc. apply andb_prop in Hc as [Hu Hc].
  rewrite split_double_step; [by rewrite IH|]. apply negb_true_iff in Hu. destruct a; [by rewrite andb_false_r | done].
Qed.

Lemma split_double_joins s : match split_double s with [w] => s = w | h :: t :: [] => s = h ++ [58; 58] ++ t | _ => True end.
Proof.
  induction s as [s IH] using (induction_ltof1 _ length). unfold ltof in IH. destruct s as [|u s]; [done|].
  destruct ((u =? 58) && match s with v :: _ => v =? 58 | [] => false end) eqn:E.
  - destruct s as [|v s]; [by rewrite andb_false_r in E|]. apply andb_prop in E as [->%Z.eqb_eq ->%Z.eqb_eq]. rewrite split_double_pair.
    specialize (IH s ltac:(simpl; lia)). destruct (split_double s) as [|w [|x ps]] eqn:Es; [by destruct (split_double_nonempty s) | by rewrite IH | done].
  - rewrite split_double_step by done. specialize (IH s ltac:(simpl; lia)).
    destruct (split_double s) as [|w [|x [|y ps]]] eqn:Es; [by destruct (split_double_nonempty s) | by rewrite IH | by rewrite IH | done].
Qed.

Lemma parseIPv6_exact t gs : parseIPv6 t = Some gs <-> address_text (ip6 gs) t.
Proof.
  unfold parseIPv6, address_text. split.
  - pose proof (split_double_joins t) as Hj. destruct (split_double t) as [|h [|u [|]]]; [done|subst h|subst t|done].
    + intros Hb. apply bind_Some in Hb as (hd & Hh%parseHextets_exact & Hif). left. destruct (Z.eqb_spec (zlen hd) 8) as [Hz|]; [|done].
      injection Hif as <-. split; [done|]. unfold zlen in Hz. lia.
    + intros Hb. apply bind_Some in Hb as (hs & Hh%parseHextets_exact & Hb). apply bind_Some in Hb as (ts & Ht%parseHextets_exact & Hif). right.
      destruct (Z.ltb_spec (8 - zlen hs - zlen ts) 1); [done|]. injection Hif as <-. unfold zlen in *.
      exists hs, (replicate (Z.to_nat (8 - Z.of_nat (length hs) - Z.of_nat (length ts))) 0), ts, h, u. split_and!; try done.
      * rewrite !length_app, length_replicate. lia.
      * intros H0%(f_equal length). rewrite length_replicate in H0. simpl in H0. lia.
      * by apply Forall_replicate.
  - intros [[Hs Hl]|(hs & zs & ts & h & u & -> & -> & Hh & Ht & Hl & Hz & Hzs)].
    + rewrite split_double_single by (by eapply side_calm). apply parseHextets_exact in Hs as ->. simpl. unfold zlen. by rewrite Hl.
    + simpl app. rewrite split_double_app by (by eapply side_calm). rewrite split_double_single by (by eapply side_calm).
      apply parseHextets_exact in Hh as ->. apply parseHextets_exact in Ht as ->. simpl. rewrite !length_app in Hl. unfold zlen.
      assert (length zs <> 0)%nat by (by intros ?%nil_length_inv). destruct (Z.ltb_spec (8 - Z.of_nat (length hs) - Z.of_nat (length ts)) 1); [lia|].
      do 3 f_equal. replace (Z.to_nat _) with (length zs) by lia. clear -Hzs. induction Hzs as [|z zs <- _ IH]; [done|]. simpl. by rewrite IH.
Qed.

Lemma colon_in_ip6 gs t : address_text (ip6 gs) t -> 58 ∈ t.
Proof.
  intros [[(ts & Hr & ->) Hl]|(hs & zs & ts & h & u & _ & -> & _)]; [|rewrite elem_of_app; right; by apply elem_of_cons; left].
  destruct ts as [|p [|q ts]]; [by inversion Hr; subst| |].
  - inversion Hr as [|g t gs' ts' Ht Hr'|]; subst; [|done]. inversion Hr'; subst. done.
  - rewrite joined_cons by done. rewrite elem_of_app. right. by apply elem_of_cons; left.
Qed.

Lemma parseNormalized_exact t a : parseNormalized t = Some a <-> address_text a t.
Proof.
  unfold parseNormalized. destruct (parseIPv4Literal t) as [q|] eqn:E4.
  - apply parseIPv4Literal_exact in E4. destruct a as [q'|gs].
    + rewrite <- parseIPv4Literal_exact in E4. simpl. rewrite <- parseIPv4Literal_exact, E4. naive_solver.
    + split; [done|]. intros Hc%colon_in_ip6. exfalso. revert Hc. eapply quad_free; [done | lia..].
  - destruct a as [q|gs]; [|rewrite <- parseIPv6_exact; destruct (parseIPv6 t); naive_solver].
    simpl. rewrite <- parseIPv4Literal_exact, E4. destruct (parseIPv6 t); naive_solver.
Qed.

(** ** Ranges *)

Definition octets_ok (q : quad) : Prop := let '(a, b, c, d) := q in octet a /\ octet b /\ octet c /\ octet d.

Lemma value4_bounds q : octets_ok q -> 0 <= value4 q < 2 ^ 32.
Proof. destruct q as [[[a b] c] d]. unfold octets_ok, octet, value4. lia. Qed.

Lemma toNumber_value q : octets_ok q -> toNumber q = value4 q.
Proof.
  destruct q as [[[a b] c] d]. unfold octets_ok, octet, value4, toNumber, bit_ushr. intros (Ha & Hb & Hc & Hd).
  rewrite Z.shiftr_0_r, !bit_or_mod, !bit_shl_mod, (Z.mod_small d) by lia.
  replace (c * 2 ^ 8) with (c * 256) by lia.
  rewrite lor_shifted by lia. replace (a * 2 ^ 24 + b * 2 ^ 16) with ((a * 256 + b) * 2 ^ 16) by lia.
  rewrite lor_shifted by lia. replace ((a * 256 + b) * 2 ^ 16 + c * 256) with (((a * 256 + b) * 256 + c) * 2 ^ 8) by lia. apply lor_shifted; lia.
Qed.

Lemma land_mask w x k : 0 <= k <= w -> 0 <= x < 2 ^ w -> Z.land x (2 ^ w - 2 ^ k) = x / 2 ^ k * 2 ^ k.
Proof.
  intros Hk Hx. assert (2 ^ w = 2 ^ (w - k) * 2 ^ k) as E by (rewrite <- Z.pow_add_r by lia; f_equal; lia).
  replace (2 ^ w - 2 ^ k) with (Z.shiftl (Z.ones (w - k)) k) by (rewrite Z.shiftl_mul_pow2, Z.ones_equiv by lia; nia).
  rewrite <- (Z.shiftr_div_pow2 x), <- Z.shiftl_mul_pow2 by lia. apply Z.bits_inj'. intros i Hi. rewrite Z.land_spec, !Z.shiftl_spec by done.
  destruct (Z.ltb_spec i k) as [Hlt|Hge]; [by rewrite !(Z.testbit_neg_r _ (i - k)), andb_false_r by lia|].
  rewrite Z.shiftr_spec by lia. rewrite Z.sub_add. destruct (Z.ltb_spec i w).
  - rewrite (Z.ones_spec_low _ (i - k)) by lia. by rewrite andb_true_r.
  - rewrite (Z.ones_spec_high _ (i - k)) by lia. rewrite andb_false_r. symmetry. destruct (Z.eq_dec x 0) as [->|]; [apply Z.bits_0|].
    apply Z.bits_above_log2; [lia|]. assert (Z.log2 x < w) by (apply Z.log2_lt_pow2; lia). lia.
Qed.

(** The masked comparison is membership in the block. *)
Lemma range_exact q net prefix : octets_ok q -> octets_ok net -> 0 <= prefix <= 32 ->
  (ipv4Range net prefix).2 = 2 ^ 32 - 2 ^ (32 - prefix) ->
  (bit_and (toNumber q) (ipv4Range net prefix).2 =? (ipv4Range net prefix).1) = in_block 32 (value4 q) (value4 net) prefix.
Proof.
  intros Hq Hn Hp Hm. assert ((ipv4Range net prefix).1 = bit_and (toNumber net) (ipv4Range net prefix).2) as -> by done. rewrite Hm.
  rewrite !toNumber_value by done. pose proof (value4_bounds q Hq). pose proof (value4_bounds net Hn).
  assert (0 < 2 ^ (32 - prefix) <= 2 ^ 32) as Hk by (split; [apply Z.pow_pos_nonneg; lia | apply Z.pow_le_mono_r; lia]).
  unfold bit_and, in_block. rewrite !(Z.mod_small (value4 _)), !(Z.mod_small (2 ^ 32 - _)) by lia. rewrite !(land_mask 32) by lia.
  assert (forall v, 0 <= v < 2 ^ 32 -> 0 <= v / 2 ^ (32 - prefix) * 2 ^ (32 - prefix) < 2 ^ 32) as Hb.
  { intros v Hv. pose proof (Z.div_mod v (2 ^ (32 - prefix)) ltac:(lia)). pose proof (Z.mod_pos_bound v (2 ^ (32 - prefix)) ltac:(lia)).
    pose proof (Z.div_pos v (2 ^ (32 - prefix)) ltac:(lia) ltac:(lia)). nia. }
  apply eq_true_iff_eq. rewrite !Z.eqb_eq. split; [|by intros ->]. intros He%to_int32_inj; [nia|by apply Hb..].
Qed.

Lemma isPrivateOrLocalIPv4_exact q : octets_ok q -> isPrivateOrLocalIPv4 q = blocked4 (value4 q).
Proof.
  intros Hq. unfold isPrivateOrLocalIPv4, blocked4, PRIVATE_OR_LOCAL_IPV4_RANGES. cbn [existsb].
  assert (forall net prefix rest rest', octets_ok net -> 0 <= prefix <= 32 -> (ipv4Range net prefix).2 = 2 ^ 32 - 2 ^ (32 - prefix) -> rest = rest' ->
    (let '(network, mask) := ipv4Range net prefix in bit_and (toNumber q) mask =? network) || rest = in_block 32 (value4 q) (value4 net) prefix || rest') as Hr.
  { intros net prefix rest rest' H1 H2 H3 ->. f_equal. rewrite <- range_exact by done. by destruct (ipv4Range net prefix). }
  repeat (apply Hr; [unfold octets_ok, octet; lia | lia | vm_compute; reflexivity |]). done.
Qed.

Lemma hex_number_bound t : Forall (fun u => 48 <= u <= 57 \/ 97 <= u <= 102) t -> 0 <= hex_number t < 16 ^ zlen t.
Proof.
  unfold hex_number. induction t as [|u t IH] using rev_ind; intros HF; [done|]. rewrite fold_left_app. simpl.
  apply Forall_app in HF as [HF Hu]. inversion Hu as [|? ? Hu']; subst. specialize (IH HF).
  assert (0 <= default 0 (hex_value u) < 16).
  { unfold hex_value, is_digit_char. destruct (Z.leb_spec 48 u), (Z.leb_spec u 57), (Z.leb_spec 97 u), (Z.leb_spec u 102); simpl; lia. }
  rewrite zlen_app. unfold zlen in *. simpl. rewrite Z.pow_add_r by lia. lia.
Qed.

Definition groups_ok (gs : list Z) : Prop := Forall (fun g => 0 <= g < 65536) gs.

Lemma run_ok allow gs ts : run_text allow gs ts -> groups_ok gs.
Proof.
  induction 1 as [|g t gs ts (Hl & HF & ->) _ IH|a b c d t _ (Ha & Hb & Hc & Hd & _)]; [constructor| |].
  - constructor; [|done]. apply hex_number_bound in HF. assert (16 ^ zlen t <= 16 ^ 4) by (apply Z.pow_le_mono_r; unfold zlen; lia). lia.
  - unfold octet in *. repeat constructor; lia.
Qed.

Lemma address_groups gs t : address_text (ip6 gs) t -> groups_ok gs /\ length gs = 8%nat.
Proof.
  intros [[(ts & Hr & _) Hl]|(hs & zs & ts & h & u & -> & _ & (? & Hh & _) & (? & Ht & _) & Hl & _ & Hz)].
  - split; [by eapply run_ok | done].
  - split; [|done]. unfold groups_ok. rewrite !Forall_app. split_and!; [by eapply run_ok| |by eapply run_ok].
    eapply Forall_impl; [exact Hz|]. intros ? <-. lia.
Qed.

(** A test of the leading [16 - k] bits of the first group *)
Lemma high_bits g mask k v n rest : mask = 2 ^ 16 - 2 ^ k -> 0 <= g < 65536 -> 0 <= v < 65536 -> 0 <= k <= 16 -> v mod 2 ^ k = 0 -> 0 <= rest < 2 ^ 112 -> n = g * 2 ^ 112 + rest ->
  (bit_and g mask =? v) = in_block 128 n (v * 2 ^ 112) (16 - k).
Proof.
  intros -> Hg Hv Hk Hm Hr ->. assert (0 < 2 ^ k <= 65536) as Hp by (split; [apply Z.pow_pos_nonneg; lia | change 65536 with (2 ^ 16); apply Z.pow_le_mono_r; lia]).
  unfold bit_and. rewrite !Z.mod_small, (land_mask 16) by (change (2 ^ 16) with 65536; lia).
  pose proof (Z.div_mod g (2 ^ k) ltac:(lia)). pose proof (Z.mod_pos_bound g (2 ^ k) ltac:(lia)). pose proof (Z.div_mod v (2 ^ k) ltac:(lia)).
  pose proof (Z.div_pos g (2 ^ k) ltac:(lia) ltac:(lia)). rewrite to_int32_small by nia.
  unfold in_block. replace (128 - (16 - k)) with (112 + k) by lia. rewrite Z.pow_add_r by lia.
  rewrite <- !Z.div_div by (try apply Z.pow_pos_nonneg; try apply Z.pow_nonzero; lia). rewrite Z.div_add_l, (Z.div_small rest), Z.div_mul, Z.add_0_r by lia.
  apply eq_true_iff_eq. rewrite !Z.eqb_eq. nia.
Qed.

(** The blocks of IPv6 addresses *)
Definition classified6 (gs : list Z) : bool :=
  match embeddedIPv4 gs with
  | Some octets => isPrivateOrLocalIPv4 octets
  | None => isUniqueLocalIPv6 gs || isLinkLocalIPv6 gs || isMulticastIPv6 gs
  end.

Lemma low_byte x : 0 <= x < 65536 -> octet (bit_ushr x 8) /\ octet (bit_and x 255) /\ bit_ushr x 8 * 256 + bit_and x 255 = x.
Proof.
  intros Hx. assert (bit_ushr x 8 = x / 256) as -> by (unfold bit_ushr; rewrite Z.mod_small, Z.shiftr_div_pow2 by lia; done).
  assert (bit_and x 255 = x mod 256) as ->.
  { unfold bit_and. rewrite (Z.mod_small x) by lia. change (255 mod 2 ^ 32) with (Z.ones 8). rewrite Z.land_ones by lia. change (2 ^ 8) with 256.
    pose proof (Z.mod_pos_bound x 256 ltac:(lia)). unfold to_int32. rewrite Z.mod_small by lia. cbv zeta. destruct (Z.ltb_spec (x mod 256) (2 ^ 31)); lia. }
  unfold octet. pose proof (Z.mod_pos_bound x 256 ltac:(lia)). pose proof (Z.div_mod x 256 ltac:(lia)). lia.
Qed.

Lemma classified6_exact gs : groups_ok gs -> length gs = 8%nat -> classified6 gs = blocked6 (value6 gs).
Proof.
  intros Hg Hl. destruct gs as [|g0 [|g1 [|g2 [|g3 [|g4 [|g5 [|g6 [|g7 [|]]]]]]]]]; try discriminate Hl. clear Hl.
  unfold groups_ok in Hg. repeat (apply Forall_cons in Hg as [? Hg]). clear Hg.
  set (n := value6 _). set (A := ((((g0 * 65536 + g1) * 65536 + g2) * 65536 + g3) * 65536 + g4) * 65536 + g5).
  assert (n = A * 2 ^ 32 + (g6 * 65536 + g7)) as En by (unfold n, A, value6; simpl; lia).
  assert (n / 2 ^ (128 - 96) = A) as EA.
  { rewrite En. change (128 - 96) with 32. rewrite Z.div_add_l by lia. rewrite (Z.div_small (g6 * 65536 + g7)) by lia. lia. }
  assert (n mod 2 ^ 32 = g6 * 65536 + g7) as Em by (rewrite En, Z.add_comm, Z_mod_plus_full; apply Z.mod_small; lia).
  assert (embeddedIPv4 [g0; g1; g2; g3; g4; g5; g6; g7] =
    if (A =? 0) || (A =? 0xffff) then Some (bit_ushr g6 8, bit_and g6 0xff, bit_ushr g7 8, bit_and g7 0xff) else None) as Ee.
  { assert (A = 0 <-> g0 = 0 /\ g1 = 0 /\ g2 = 0 /\ g3 = 0 /\ g4 = 0 /\ g5 = 0) as E0 by (unfold A; lia).
    assert (A = 0xffff <-> g0 = 0 /\ g1 = 0 /\ g2 = 0 /\ g3 = 0 /\ g4 = 0 /\ g5 = 0xffff) as E1 by (unfold A; lia).
    unfold embeddedIPv4, group. cbn [nth]. clearbody A. clear -E0 E1.
    destruct (Z.eqb_spec A 0) as [->|HA0]; [destruct E0 as [E0 _], (E0 eq_refl) as (-> & -> & -> & -> & -> & ->); done|].
    destruct (Z.eqb_spec A 0xffff) as [->|HA1]; [destruct E1 as [E1 _], (E1 eq_refl) as (-> & -> & -> & -> & -> & ->); done|]. cbn [orb].
    destruct (Z.eqb_spec g0 0); [|done]. destruct (Z.eqb_spec g1 0); [|done]. destruct (Z.eqb_spec g2 0); [|done]. destruct (Z.eqb_spec g3 0); [|done].
    destruct (Z.eqb_spec g4 0); [|done]. destruct (Z.eqb_spec g5 0); [tauto|]. destruct (Z.eqb_spec g5 0xffff); [tauto | done]. }
  unfold classified6, blocked6. rewrite Ee. unfold in_block at 1 2. rewrite EA, Em. change (0 / 2 ^ (128 - 96)) with 0. change (0xffff * 2 ^ 32 / 2 ^ (128 - 96)) with 0xffff.
  destruct (_ || _).
  - destruct (low_byte g6) as (? & ? & E6); [done|]. destruct (low_byte g7) as (? & ? & E7); [done|]. rewrite isPrivateOrLocalIPv4_exact by done.
    f_equal. unfold value4. lia.
  - assert (exists rest, 0 <= rest < 2 ^ 112 /\ n = g0 * 2 ^ 112 + rest) as (rest & Hrest & En0).
    { exists (((((((g1 * 65536 + g2) * 65536 + g3) * 65536 + g4) * 65536 + g5) * 65536 + g6) * 65536) + g7). unfold n, value6. simpl. lia. }
    unfold isUniqueLocalIPv6, isLinkLocalIPv6, isMulticastIPv6, group. cbn [nth].
    rewrite (high_bits g0 0xfe00 9 0xfc00 n rest), (high_bits g0 0xffc0 6 0xfe80 n rest), (high_bits g0 0xff00 8 0xff00 n rest) by (done || lia). done.
Qed.

(** ** Normalisation *)

Definition address_char (u : Z) : Prop := 48 <= u <= 58 \/ 97 <= u <= 102 \/ u = 46.

(** A text form starts and ends with a digit, or with the colons that stand for groups left out. *)
Lemma dec_chars o : octet o -> Forall (fun u => 48 <= u <= 57) (dec o).
Proof.
  intros [H1 H2]. unfold dec. destruct (Z.ltb_spec o 0); [lia|]. apply Forall_forall. intros u (d & <- & Hd%list_elem_of_In)%list_elem_of_In%in_map_iff.
  pose proof (digits_digits o H1) as HF. rewrite Forall_forall in HF. specialize (HF d Hd). unfold is_digit in HF. lia.
Qed.

Lemma quad_chars q t : quad_text q t -> Forall address_char t /\ forall u, last t = Some u -> u <> 46.
Proof.
  destruct q as [[[a b] c] d]. intros (Ha & Hb & Hc & Hd & ->). cbn [joined].
  assert (forall o, octet o -> Forall address_char (dec o)) as Hchars.
  { intros o Ho. eapply Forall_impl; [by apply dec_chars|]. unfold address_char. intros u. lia. }
  split.
  - repeat (apply Forall_app; split; [by apply Hchars|]; constructor; [unfold address_char; lia|]). by apply Hchars.
  - intros u. rewrite !app_assoc, last_app. destruct (last (dec d)) as [w|] eqn:E.
    + intros [= ->]. apply last_Some_elem_of in E. pose proof (dec_chars d Hd) as HF. rewrite Forall_forall in HF. specialize (HF u E). lia.
    + apply last_None in E. unfold dec in E. destruct Hd. destruct (Z.ltb_spec d 0); [lia|]. apply map_eq_nil in E. by destruct (digits_nonempty d).
Qed.

Lemma run_chars allow gs ts : run_text allow gs ts -> Forall address_char (joined 58 ts) /\ forall u, last (joined 58 ts) = Some u -> u <> 46.
Proof.
  induction 1 as [|g t gs ts (Hl & HF & _) Hr [IH1 IH2]|a b c d t _ Hq]; [done| |by apply quad_chars in Hq].
  assert (Forall address_char t) as Ht by (eapply Forall_impl; [exact HF|]; unfold address_char; intros u; lia).
  destruct ts as [|p ts]; [split; [done|]|].
  - intros u Hu%last_Some_elem_of. rewrite Forall_forall in HF. specialize (HF u Hu). lia.
  - rewrite joined_cons by done. split.
    + apply Forall_app. split; [done|]. constructor; [unfold address_char; lia | done].
    + intros u. rewrite app_assoc, last_app. destruct (last (joined 58 (p :: ts))) eqn:E; [by intros [= ->]; apply IH2|].
      apply last_None in E. by destruct (joined_nonempty (p :: ts) ltac:(done) (run_parts _ _ _ Hr)).
Qed.

Lemma address_chars a t : address_text a t -> Forall address_char t /\ t <> [] /\ forall u, last t = Some u -> u <> 46.
Proof.
  destruct a as [q|gs]; intros Ha.
  - destruct (quad_chars q t Ha). split_and!; [done| |done]. intros ->. by apply quad_dotted, elem_of_nil in Ha.
  - assert (t <> []) by (intros ->; by apply colon_in_ip6, elem_of_nil in Ha).
    destruct Ha as [[(ts & Hr & ->) _]|(hs & zs & ts & h & u & _ & -> & (hp & Hh & ->) & (tp & Ht & ->) & _)].
    + destruct (run_chars _ _ _ Hr). done.
    + destruct (run_chars _ _ _ Hh) as [C1 _], (run_chars _ _ _ Ht) as [C2 L2]. split_and!; [|done|].
      * apply Forall_app. split; [done|]. do 2 (constructor; [unfold address_char; lia|]). done.
      * intros v. rewrite app_assoc, last_app. destruct (last (joined 58 tp)) eqn:E; [by intros [= ->]; apply L2|].
        rewrite last_app. simpl. by intros [= <-].
Qed.

Definition ascii_lower (s : jstring) : jstring := map (fun u => if (65 <=? u) && (u <=? 90) then u + 32 else u) s.

(** Printable ASCII without the space: what is neither trimmed nor left to the case mapping *)
Definition visible (u : Z) : Prop := 33 <= u < 127.

(** The ways an address with text form [t] is written: in either case, bracketed or with a trailing dot, with a zone *)
Inductive written (t : jstring) : jstring -> Prop :=
| wr_plain u : ascii_lower u = t -> written t u
| wr_dot u : ascii_lower u = t -> written t (u ++ [46])
| wr_zone u zone : ascii_lower u = t -> Forall visible zone -> written t (u ++ 37 :: zone)
| wr_brackets u : ascii_lower u = t -> written t (91 :: u ++ [93])
| wr_brackets_zone u zone : ascii_lower u = t -> Forall visible zone -> written t (91 :: u ++ 37 :: zone ++ [93]).

Lemma trim_start_visible s : Forall visible s -> trim_start s = s.
Proof.
  intros HF. destruct HF as [|u s Hu HF]; [done|]. simpl. unfold visible in Hu.
  destruct (js_space u) eqn:E; [|done]. unfold js_space in E. rewrite !orb_true_iff, !andb_true_iff, !Z.leb_le, !Z.eqb_eq in E. lia.
Qed.

Lemma trim_visible s : Forall visible s -> trim s = s.
Proof. intros HF. unfold trim. rewrite (trim_start_visible s) by done. rewrite trim_start_visible by (by apply Forall_reverse). apply reverse_involutive. Qed.

Lemma lower_visible u t : ascii_lower u = t -> Forall address_char t -> Forall visible u.
Proof.
  intros <-. unfold ascii_lower. rewrite Forall_map. intros HF. eapply Forall_impl; [exact HF|]. unfold address_char, visible. intros x. destruct (Z.leb_spec 65 x), (Z.leb_spec x 90); simpl; lia.
Qed.

Lemma ascii_lower_app s t : ascii_lower (s ++ t) = ascii_lower s ++ ascii_lower t.
Proof. apply map_app. Qed.

Section Normalize.
Context `{LowerMapping}.

Lemma normalize_visible s : Forall visible s -> normalize s =
  let trimmed := ascii_lower s in
  let withoutBrackets := if starts_with [91] trimmed && starts_with [93] (reverse trimmed) then take (length trimmed - 2) (drop 1 trimmed) else trimmed in
  let withoutZone := hd [] (split_on 37 withoutBrackets) in
  if starts_with [46] (reverse withoutZone) then take (length withoutZone - 1) withoutZone else withoutZone.
Proof.
  intros HF. unfold normalize. rewrite trim_visible by done. rewrite lower_ascii; [done|]. eapply Forall_impl; [exact HF|]. unfold visible. intros; lia.
Qed.

Lemma starts_with_one c s : starts_with [c] s = match s with u :: _ => bool_decide (u = c) | [] => false end.
Proof. unfold starts_with. destruct s as [|u s]; [done|]. simpl. rewrite take_0. apply bool_decide_ext. naive_solver. Qed.

Lemma not_bracketed t s : Forall address_char t -> t <> [] -> starts_with [91] (t ++ s) = false.
Proof. intros HF Hne. destruct HF as [|u t Hu]; [done|]. rewrite starts_with_one. simpl. apply bool_decide_eq_false_2. unfold address_char in Hu. lia. Qed.

Lemma zone_cut t s : Forall address_char t -> hd [] (split_on 37 (t ++ 37 :: s)) = t.
Proof. intros HF. rewrite split_on_app; [done|]. intros Hin. rewrite Forall_forall in HF. specialize (HF _ Hin). unfold address_char in HF. lia. Qed.

Lemma zone_none t : Forall address_char t -> 37 ∉ t.
Proof. intros HF Hin. rewrite Forall_forall in HF. specialize (HF _ Hin). unfold address_char in HF. lia. Qed.

Lemma no_dot t : (forall u, last t = Some u -> u <> 46) -> starts_with [46] (reverse t) = false.
Proof.
  intros Hl. rewrite starts_with_one. destruct (reverse t) as [|u r] eqn:E; [done|]. apply bool_decide_eq_false_2, Hl.
  rewrite <- (reverse_involutive t), E, reverse_cons, last_snoc. done.
Qed.

Lemma brackets_cut t : let s := 91 :: t ++ [93] in
  (if starts_with [91] s && starts_with [93] (reverse s) then take (length s - 2) (drop 1 s) else s) = t.
Proof.
  cbv zeta. rewrite !starts_with_one. rewrite reverse_cons, reverse_snoc. simpl. rewrite length_app. simpl.
  replace (length t + 1 - 1)%nat with (length t) by lia. apply take_app_length.
Qed.

(** However it is written, an address is normalised to its text form. *)
Lemma normalize_written a t s : address_text a t -> written t s -> normalize s = t.
Proof.
  intros Ha Hw. destruct (address_chars a t Ha) as (HF & Hne & Hl).
  assert (forall u, ascii_lower u = t -> Forall visible u) as Hv by (intros u Hu; by eapply lower_visible).
  assert (forall w, hd [] (split_on 37 w) = t -> let withoutZone := hd [] (split_on 37 w) in
    (if starts_with [46] (reverse withoutZone) then take (length withoutZone - 1) withoutZone else withoutZone) = t) as Hend.
  { cbv zeta. intros w ->. by rewrite no_dot. }
  assert (hd [] (split_on 37 t) = t) as Ht by (by rewrite split_on_single by (by apply zone_none)).
  assert (forall w, starts_with [91] (t ++ w) && starts_with [93] (reverse (t ++ w)) = false) as Hb by (intros w; by rewrite not_bracketed).
  destruct Hw as [u Hu|u Hu|u zone Hu Hz|u Hu|u zone Hu Hz];
    (rewrite normalize_visible; [|repeat (constructor || apply Forall_app_2); auto; unfold visible; lia]); cbv zeta.
  - rewrite Hu. pose proof (Hb []) as Hn. rewrite app_nil_r in Hn. rewrite Hn. by apply Hend.
  - rewrite ascii_lower_app, Hu, Hb. change (ascii_lower [46]) with [46]. rewrite split_on_single by (intros [Hin|Hin%list_elem_of_singleton]%elem_of_app; [by apply (zone_none t HF) | lia]).
    simpl hd. rewrite reverse_snoc, starts_with_one, length_app. simpl. rewrite Nat.add_sub. apply take_app_length.
  - rewrite ascii_lower_app, Hu, Hb. apply Hend. by apply zone_cut.
  - change (ascii_lower (91 :: u ++ [93])) with (91 :: ascii_lower (u ++ [93])). rewrite ascii_lower_app, Hu. change (ascii_lower [93]) with [93].
    rewrite brackets_cut. by apply Hend.
  - change (ascii_lower (91 :: u ++ 37 :: zone ++ [93])) with (91 :: ascii_lower (u ++ 37 :: zone ++ [93])). rewrite ascii_lower_app, Hu.
    change (ascii_lower (37 :: zone ++ [93])) with (37 :: ascii_lower (zone ++ [93])). rewrite ascii_lower_app. change (ascii_lower [93]) with [93].
    replace (t ++ 37 :: ascii_lower zone ++ [93]) with ((t ++ 37 :: ascii_lower zone) ++ [93]) by (by rewrite <- app_assoc).
    rewrite brackets_cut. apply Hend. by apply zone_cut.
Qed.

(** C21: An address is public exactly when it is one: for any text, [isPrivateOrLocal] is false exactly when the text normalises to a text form of an address (RFC 4291 and dotted quads) that is in none of the loopback, private, link-local, shared, reserved, multicast and unique-local blocks, an IPv4 address carried in an IPv6 one being judged as itself. And however an address is written, in either case, bracketed, with a zone or a trailing dot, that is what it normalises to. *)
Theorem public_addresses_exact :
  (forall value, isPrivateOrLocal value = false <-> exists a, address_text a (normalize value) /\ blocked a = false)
  /\ (forall a t s, address_text a t -> written t s -> isPrivateOrLocal s = blocked a /\ parseIpAddress s = Some a).
Proof.
  assert (forall value a, address_text a (normalize value) -> isPrivateOrLocal value = blocked a) as Hc.
  { intros value a Ha. unfold isPrivateOrLocal. pose proof (proj2 (parseNormalized_exact _ _) Ha) as Hp. rewrite Hp.
    case_bool_decide as Hl; [rewrite Hl in Hp; by vm_compute in Hp|]. destruct a as [q|gs].
    - simpl. apply isPrivateOrLocalIPv4_exact. destruct q as [[[? ?] ?] ?]. unfold octets_ok. simpl in Ha. tauto.
    - destruct (address_groups gs _ Ha). by apply classified6_exact. }
  split.
  - intros value. split; [|intros (a & Ha & Hb); by rewrite (Hc value a Ha)].
    intros Hf. destruct (parseNormalized (normalize value)) as [a|] eqn:Hp.
    + apply parseNormalized_exact in Hp. exists a. split; [done|]. by rewrite <- (Hc value a Hp).
    + unfold isPrivateOrLocal in Hf. rewrite Hp in Hf. by destruct (bool_decide _).
  - intros a t s Ha Hw. pose proof (normalize_written a t s Ha Hw) as Hn. split; [apply Hc; by rewrite Hn|].
    unfold parseIpAddress. rewrite Hn. by apply parseNormalized_exact.
Qed.

End Normalize.

(** ** Addresses the policy lets through *)

(** The header of [base-url-policy.ts] speaks of every non-public unicast address; these are no public ones: the documentation block 192.0.2.0/24, the
    benchmarking block 198.18.0.0/15, a site-local address, the documentation block 2001:db8::/32, and the translations 64:ff9b::/96 and 2002::/16 of
    127.0.0.1. *)
Example special_addresses_pass :
  forallb (fun t => match parseNormalized (js t) with Some a => negb (blocked a) | None => false end)
    ["192.0.2.1"; "198.18.0.1"; "fec0::1"; "2001:db8::1"; "64:ff9b::7f00:1"; "2002:7f00:1::"]%string = true.
Proof. vm_compute. reflexivity. Qed.

(** The case mapping of a host that knows ASCII only *)
Definition ascii_case_mapping : LowerMapping := {| toLowerCase := ascii_lower; lower_ascii := fun s _ => eq_refl |}.

Lemma public_addresses_exact_witness :
  isPrivateOrLocal (H := ascii_case_mapping) (js "[::FFFF:127.0.0.1%lo0]") = true
  /\ parseIpAddress (H := ascii_case_mapping) (js "[::FFFF:127.0.0.1%lo0]") = Some (ip6 [0; 0; 0; 0; 0; 65535; 32512; 1]).
Proof.
  apply (proj2 (public_addresses_exact (H := ascii_case_mapping)) (ip6 [0; 0; 0; 0; 0; 65535; 32512; 1]) (js "::ffff:127.0.0.1")).
  - apply parseNormalized_exact. vm_compute. reflexivity.
  - apply (wr_brackets_zone _ (js "::FFFF:127.0.0.1") (js "lo0")); [vm_compute; reflexivity|].
    repeat (apply Forall_cons_2; [split; vm_compute; congruence|]). apply Forall_nil_2.
Defined.
