(* ===== verification/SafeFetch.v ===== *)
(** * Fetching what a user names

    [apps/api/src/services/providers/core/base-url-policy.ts] and [apps/api/src/lib/safe-fetch.ts]: the address policy and the guarded
    fetch. [new URL], the resolver, the network and the bodies are parameters; a resolver and a server may answer differently
    every time they are asked. Texts of errors are left out. *)

From Stdlib Require Import QArith.
From S2P Require Import Prelude Wire IpAddress.
Local Open Scope Z_scope.

(** ** What it asks and is answered *)

(** The parts of a [URL] the code reads *)
Record Url : Type := { u_protocol : jstring; u_hostname : jstring; u_href : jstring }.

(** One [reader.read()]: a chunk, nothing, or a rejection; past the last one the body is done. *)
Inductive read_answer : Type := rd_chunk (bytes : list Z) | rd_nothing | rd_fails.

Record body : Type := { bd_reads : list read_answer; bd_cancelFails : bool }.

(** [rs_declaredLength]: [Number] of the content-length header, [None] when it is not finite *)
Record response : Type := {
  rs_status : Z;
  rs_url : jstring;
  rs_location : option jstring;
  rs_declaredLength : option Q;
  rs_contentType : option jstring;
  rs_body : option body;
}.

Inductive fetch_answer : Type := fr_response (r : response) | fr_rejects (callerAborted aborted : bool).

Inductive fetch_effect : Type :=
| FxLookup (hostname : jstring) (answer : option (list jstring))
| FxRequest (url : Url)
| FxDiscard
| FxCancelBody.

(** [hostnameResolutionCache], which outlives a fetch, and what was done so far *)
Record fetch_state : Type := { ft_cache : gmap jstring (list jstring); ft_log : list fetch_effect }.

Definition note (e : fetch_effect) (s : fetch_state) : fetch_state := {| ft_cache := ft_cache s; ft_log := ft_log s ++ [e] |}.
Definition remember (host : jstring) (r : list jstring) (s : fetch_state) : fetch_state := {| ft_cache := <[host := r]> (ft_cache s); ft_log := ft_log s |}.

Inductive UnsafeBaseUrlReason : Type := ub_invalid_url | ub_blocked_address | ub_unresolvable.

Inductive SafeFetchErrorKind : Type := fk_invalid_url | fk_address_refused | fk_network | fk_cancelled | fk_http | fk_too_large.

(** [SafeFetchError], or the [TypeError] of a [new URL] that is not caught *)
Inductive fetch_error : Type := SafeFetchError (kind : SafeFetchErrorKind) (status : option Z) | UncaughtTypeError.

Definition isUnreachableFailure (e : fetch_error) : bool :=
  match e with
  | SafeFetchError fk_network _ => true
  | SafeFetchError fk_http status =>
      bool_decide (status = Some 408) || bool_decide (status = Some 429) || (500 <=? default 0 status)
  | _ => false
  end.

Record SafeFetchOptions : Type := { so_maxBytes : Z; so_maxRedirects : Z }.

Record SafeFetchResult : Type := { sf_bytes : list Z; sf_contentType : option jstring; sf_url : jstring }.

Section Fetch.
Context `{LowerMapping}.
(** [new URL(input, base)] *)
Variable parseUrl : jstring -> option Url -> option Url.
(** What the resolver says of a name and the network of a request, after so many effects *)
Variable lookup_answers : nat -> jstring -> option (list jstring).
Variable fetch_answers : nat -> Url -> fetch_answer.
(** Whether the caller passed a resolver of its own, which nothing caches *)
Variable ownResolver : bool.

(** ** The address policy *)

Definition resolveHostname (host : jstring) (s : fetch_state) : fetch_state * option (list jstring) :=
  let answer := lookup_answers (length (ft_log s)) host in
  let asked := note (FxLookup host answer) s in
  if ownResolver then (asked, answer)
  else
    match ft_cache s !! host with
    | Some r => (s, Some r)
    | None => match answer with Some r => (remember host r asked, Some r) | None => (asked, None) end
    end.

Definition validateBaseUrl (rawUrl : jstring) (s : fetch_state) : fetch_state * outcome UnsafeBaseUrlReason unit :=
  match parseUrl rawUrl None with
  | None => (s, Err ub_invalid_url)
  | Some parsed =>
      if negb (bool_decide (u_protocol parsed = js "http:")) && negb (bool_decide (u_protocol parsed = js "https:")) then (s, Err ub_invalid_url)
      else
        match parseIpAddress (u_hostname parsed) with
        | Some _ => (s, if isPrivateOrLocal (u_hostname parsed) then Err ub_blocked_address else Ok tt)
        | None =>
            let '(s, results) := resolveHostname (u_hostname parsed) s in
            match results with
            | None => (s, Err ub_unresolvable)
            | Some [] => (s, Err ub_blocked_address)
            | Some rs => (s, if existsb isPrivateOrLocal rs then Err ub_blocked_address else Ok tt)
            end
        end
  end.

(** ** The fetch *)

Definition REDIRECT_STATUSES : list Z := [301; 302; 303; 307; 308].

Definition failed (k : SafeFetchErrorKind) : fetch_error := SafeFetchError k None.

Definition parseHttpsUrl (rawUrl : jstring) : outcome fetch_error Url :=
  match parseUrl rawUrl None with
  | None => Err (failed fk_invalid_url)
  | Some url => if bool_decide (u_protocol url = js "https:") then Ok url else Err (failed fk_invalid_url)
  end.

Definition isSafeInteger (z : Z) : bool := Z.abs z <=? 2 ^ 53 - 1.

Definition assertLimits (o : SafeFetchOptions) : outcome fetch_error unit :=
  if negb (isSafeInteger (so_maxBytes o)) || (so_maxBytes o <? 1) then Err (failed fk_invalid_url)
  else if negb (isSafeInteger (so_maxRedirects o)) || (so_maxRedirects o <? 0) then Err (failed fk_invalid_url)
  else Ok tt.

Definition addressFailureKind (r : UnsafeBaseUrlReason) : SafeFetchErrorKind :=
  match r with ub_unresolvable => fk_network | _ => fk_address_refused end.

Definition assertAllowedAddress (url : Url) (s : fetch_state) : fetch_state * outcome fetch_error unit :=
  let '(s, v) := validateBaseUrl (u_href url) s in
  (s, match v with Ok tt => Ok tt | Err r => Err (failed (addressFailureKind r)) end).

Definition requestOnce (url : Url) (s : fetch_state) : fetch_state * outcome fetch_error response :=
  let s' := note (FxRequest url) s in
  match fetch_answers (length (ft_log s)) url with
  | fr_response r => (s', Ok r)
  | fr_rejects callerAborted aborted => (s', Err (failed (if callerAborted then fk_cancelled else fk_network)))
  end.

Definition discardBody (r : response) (s : fetch_state) : fetch_state := match rs_body r with Some _ => note FxDiscard s | None => s end.

Definition nextRedirectTarget (r : response) (currentUrl : Url) : outcome fetch_error Url :=
  match rs_location r with
  | None | Some [] => Err (failed fk_invalid_url)
  | Some location =>
      match parseUrl location (Some currentUrl) with
      | None => Err (failed fk_invalid_url)
      | Some nextUrl => if bool_decide (u_protocol nextUrl = js "https:") then Ok nextUrl else Err (failed fk_invalid_url)
      end
  end.

(** [response.url ? new URL(response.url) : currentUrl] *)
Definition resolved_url (r : response) (currentUrl : Url) : outcome fetch_error Url :=
  match rs_url r with [] => Ok currentUrl | u => match parseUrl u None with Some url => Ok url | None => Err UncaughtTypeError end end.

(** One turn of the loop, up to the response *)
Definition request_hop (currentUrl : Url) (s : fetch_state) : fetch_state * outcome fetch_error response :=
  match assertAllowedAddress currentUrl s with (s, Err e) => (s, Err e) | (s, Ok tt) => requestOnce currentUrl s end.

(** The loop of [followRedirects], with [redirects] still allowed: [maxRedirects - hop] *)
Fixpoint follow (redirects : nat) (currentUrl : Url) (s : fetch_state) : fetch_state * outcome fetch_error (response * Url) :=
  match request_hop currentUrl s with
  | (s, Err e) => (s, Err e)
  | (s, Ok r) =>
      if negb (bool_decide (rs_status r ∈ REDIRECT_STATUSES)) then
        match resolved_url r currentUrl with
        | Err e => (s, Err e)
        | Ok url => if bool_decide (u_protocol url = js "https:") then (s, Ok (r, url)) else (discardBody r s, Err (failed fk_invalid_url))
        end
      else
        match redirects with
        | O => (discardBody r s, Err (failed fk_invalid_url))
        | S redirects =>
            match nextRedirectTarget r currentUrl with
            | Err e => (s, Err e)
            | Ok nextUrl => follow redirects nextUrl (discardBody r s)
            end
        end
  end.

Definition followRedirects (requestedUrl : Url) (o : SafeFetchOptions) (s : fetch_state) : fetch_state * outcome fetch_error (response * Url) :=
  follow (Z.to_nat (so_maxRedirects o)) requestedUrl s.

(** The loop of [readBounded]: [chunks] so far, of [size] bytes *)
Fixpoint read_loop (reads : list read_answer) (cancelFails : bool) (maxBytes size : Z) (chunks : list (list Z)) (s : fetch_state) :
    fetch_state * outcome fetch_error (list Z) :=
  match reads with
  | [] => (s, Ok (concat chunks))
  | rd_fails :: _ => (s, Err (failed fk_network))
  | rd_nothing :: rest => read_loop rest cancelFails maxBytes size chunks s
  | rd_chunk bytes :: rest =>
      let size := size + zlen bytes in
      if maxBytes <? size then (note FxCancelBody s, Err (failed (if cancelFails then fk_network else fk_too_large)))
      else read_loop rest cancelFails maxBytes size (chunks ++ [bytes]) s
  end.

Definition readBounded (r : response) (maxBytes : Z) (s : fetch_state) : fetch_state * outcome fetch_error (list Z) :=
  if match rs_declaredLength r with Some q => negb (Qle_bool q (inject_Z maxBytes)) | None => false end then (discardBody r s, Err (failed fk_too_large))
  else
    match rs_body r with
    | None => (s, Err (SafeFetchError fk_http (Some (rs_status r))))
    | Some b => read_loop (bd_reads b) (bd_cancelFails b) maxBytes 0 [] s
    end.

(** [response.ok] *)
Definition is_success (r : response) : bool := (200 <=? rs_status r) && (rs_status r <=? 299).

Definition safeFetchBytes (rawUrl : jstring) (o : SafeFetchOptions) (s : fetch_state) : fetch_state * outcome fetch_error SafeFetchResult :=
  match parseHttpsUrl rawUrl with
  | Err e => (s, Err e)
  | Ok requestedUrl =>
      match assertLimits o with
      | Err e => (s, Err e)
      | Ok tt =>
          match followRedirects requestedUrl o s with
          | (s, Err e) => (s, Err e)
          | (s, Ok (r, resolvedUrl)) =>
              if negb (is_success r) then (discardBody r s, Err (SafeFetchError fk_http (Some (rs_status r))))
              else
                match readBounded r (so_maxBytes o) s with
                | (s, Err e) => (s, Err e)
                | (s, Ok bytes) => (s, Ok {| sf_bytes := bytes; sf_contentType := rs_contentType r; sf_url := u_href resolvedUrl |})
                end
          end
      end
  end.

End Fetch.
