(* ===== verification/SafeFetchFacts.v ===== *)
(** * Fetching what a user names: what a fetch can reach and return *)

From Stdlib Require Import QArith.
From S2P Require Import Prelude Wire IpAddress IpAddressFacts SafeFetch.
Local Open Scope Z_scope.

Section Guarded.
Context `{LowerMapping}.
Variable parseUrl : jstring -> option Url -> option Url.
Variable lookup_answers : nat -> jstring -> option (list jstring).
Variable fetch_answers : nat -> Url -> fetch_answer.
Variable ownResolver : bool.
(** A URL's own text is parsed back to it. *)
Hypothesis href_stable : forall input base url, parseUrl input base = Some url -> parseUrl (u_href url) None = Some url.

(** ** What was asked *)

Definition is_request (e : fetch_effect) : bool := match e with FxRequest _ => true | _ => false end.

Definition requests (l : list fetch_effect) : list fetch_effect := List.filter is_request l.

(** The first answer the resolver gave about a name *)
Fixpoint first_answer (host : jstring) (log : list fetch_effect) : option (list jstring) :=
  match log with
  | [] => None
  | FxLookup h (Some r) :: rest => if decide (h = host) then Some r else first_answer host rest
  | _ :: rest => first_answer host rest
  end.

(** What the cache holds of a name after [log] *)
Definition cached_at (cache : gmap jstring (list jstring)) (log : list fetch_effect) (host : jstring) : option (list jstring) :=
  match cache !! host with Some r => Some r | None => first_answer host log end.

(** The addresses a request's name is judged by when [before] is what happened up to it: a resolver of the caller's own has been asked for this very
    request, as the last thing before it; the other is asked unless the cache holds an answer, and then the cache holds it. *)
Definition judged_by (cache : gmap jstring (list jstring)) (before : list fetch_effect) (host : jstring) : option (list jstring) :=
  if ownResolver then match last before with Some (FxLookup h (Some r)) => if decide (h = host) then Some r else None | _ => None end
  else cached_at cache before host.

(** The request was allowed: by the host's own text, or by all the addresses its name is judged by for this request. *)
Definition vetted (cache : gmap jstring (list jstring)) (before : list fetch_effect) (url : Url) : Prop :=
  u_protocol url = js "https:"
  /\ (is_Some (parseIpAddress (u_hostname url)) /\ isPrivateOrLocal (u_hostname url) = false
      \/ parseIpAddress (u_hostname url) = None
         /\ exists addresses, judged_by cache before (u_hostname url) = Some addresses
           /\ addresses <> [] /\ forallb (fun a => negb (isPrivateOrLocal a)) addresses = true).

Definition guarded (cache : gmap jstring (list jstring)) (log : list fetch_effect) : Prop :=
  forall before url after, log = before ++ FxRequest url :: after -> vetted cache before url.

(** The cache is what was cached before and what was answered in this fetch. *)
Definition cache_ok (cache : gmap jstring (list jstring)) (s : fetch_state) : Prop :=
  ownResolver = false -> forall host, ft_cache s !! host = cached_at cache (ft_log s) host.

Lemma first_answer_snoc host log e :
  first_answer host (log ++ [e]) =
  match first_answer host log with
  | Some r => Some r
  | None => match e with FxLookup h (Some r) => if decide (h = host) then Some r else None | _ => None end
  end.
Proof. induction log as [|x log IH]; cbn; [by repeat case_match|]. destruct x as [h [r|]| | |]; try done. by case_decide. Qed.

Lemma cached_quiet cache log e host : (forall h r, e <> FxLookup h (Some r)) -> cached_at cache (log ++ [e]) host = cached_at cache log host.
Proof.
  intros He. unfold cached_at. rewrite first_answer_snoc. destruct (cache !! host); [done|]. destruct (first_answer host log); [done|].
  destruct e as [h [r|]| | |]; try done. by destruct (He h r).
Qed.

Lemma cache_note cache e s : (forall h r, e <> FxLookup h (Some r)) -> cache_ok cache s -> cache_ok cache (note e s).
Proof. intros He Hc Ho host. cbn [note ft_cache ft_log]. by rewrite cached_quiet, (Hc Ho). Qed.

Lemma guarded_quiet cache log e : guarded cache log -> is_request e = false -> guarded cache (log ++ [e]).
Proof.
  intros Hg He before url after Hl. induction after as [|x after' _] using rev_ind.
  - apply app_inj_tail in Hl as [_ ->]. done.
  - rewrite app_comm_cons, app_assoc in Hl. apply app_inj_tail in Hl as [Hl _]. by eapply Hg.
Qed.

Lemma guarded_request cache log url : guarded cache log -> vetted cache log url -> guarded cache (log ++ [FxRequest url]).
Proof.
  intros Hg Hv before u after Hl. induction after as [|x after' _] using rev_ind.
  - apply app_inj_tail in Hl as [-> [= ->]]. done.
  - rewrite app_comm_cons, app_assoc in Hl. apply app_inj_tail in Hl as [Hl _]. by eapply Hg.
Qed.

Lemma hops_app l k : requests (l ++ k) = requests l ++ requests k.
Proof. apply List.filter_app. Qed.

(** [s'] is [s] after some effects, none of which is a request. *)
Record settles (cache : gmap jstring (list jstring)) (s s' : fetch_state) : Prop := {
  st_cache : cache_ok cache s -> cache_ok cache s';
  st_guarded : guarded cache (ft_log s) -> guarded cache (ft_log s');
  st_requests : requests (ft_log s') = requests (ft_log s);
  st_log : forall e, e ∈ ft_log s -> e ∈ ft_log s';
}.

Lemma settles_itself cache s : settles cache s s.
Proof. split; auto. Qed.

(** One effect that is no request *)
Lemma settles_effect cache e s s' :
  ft_log s' = ft_log s ++ [e] -> is_request e = false -> (cache_ok cache s -> cache_ok cache s') -> settles cache s s'.
Proof.
  intros E He Hc. split; [done|rewrite E; intros; by apply guarded_quiet| |].
  - rewrite E, hops_app. cbn. by rewrite He, app_nil_r.
  - intros x Hx. rewrite E. apply elem_of_app. by left.
Qed.

Lemma settles_note cache e s : is_request e = false -> ownResolver = true \/ (forall h r, e <> FxLookup h (Some r)) -> settles cache s (note e s).
Proof.
  intros He Hq. apply (settles_effect cache e); [done|done|]. destruct Hq as [Hq|Hq]; [by intros _ Ho; rewrite Hq in Ho | by apply cache_note].
Qed.

Lemma settles_discard cache r s : settles cache s (discardBody r s).
Proof. unfold discardBody. destruct (rs_body r); [apply settles_note; [done|by right] | apply settles_itself]. Qed.

(** ** The policy *)

Lemma resolve_spec cache host s : let '(s', results) := resolveHostname lookup_answers ownResolver host s in
  settles cache s s' /\ (cache_ok cache s -> forall r, results = Some r -> judged_by cache (ft_log s') host = Some r).
Proof.
  unfold resolveHostname, judged_by. set (answer := lookup_answers _ host). destruct ownResolver eqn:Hown.
  - split; [apply settles_note; [done|by left]|]. intros _ r Hr. cbn [note ft_log]. rewrite last_snoc, Hr. by rewrite decide_True.
  - destruct (ft_cache s !! host) as [r|] eqn:Hr.
    { split; [apply settles_itself|]. intros Hc r' [= <-]. by rewrite <- (Hc Hown). }
    destruct answer as [r|]; [|split; [apply settles_note; [done|by right]|done]].
    assert (cache_ok cache s -> forall h, cached_at cache (ft_log s ++ [FxLookup host (Some r)]) h = if decide (host = h) then Some r else cached_at cache (ft_log s) h) as Hcached.
    { intros Hc h. pose proof (Hc Hown h) as Eh. unfold cached_at in *. rewrite first_answer_snoc. case_decide as Hh; [subst h; rewrite Hr in Eh|];
        destruct (cache !! _); try done; by destruct (first_answer _ _). }
    split; [|intros Hc r' [= <-]; cbn [ft_log remember note]; rewrite (Hcached Hc); by rewrite decide_True].
    apply (settles_effect cache (FxLookup host (Some r))); [done|done|]. intros Hc _ h. cbn [ft_cache ft_log remember note]. rewrite (Hcached Hc).
    case_decide as Hh; [subst; by rewrite lookup_insert_eq|]. rewrite lookup_insert_ne by done. by apply Hc.
Qed.

Lemma assertAllowedAddress_spec cache url s : parseUrl (u_href url) None = Some url -> u_protocol url = js "https:" ->
  let '(s', v) := assertAllowedAddress parseUrl lookup_answers ownResolver url s in
  settles cache s s' /\ (cache_ok cache s -> v = Ok tt -> vetted cache (ft_log s') url).
Proof.
  intros Hp Hh. unfold assertAllowedAddress, validateBaseUrl. rewrite Hp, Hh. rewrite (bool_decide_eq_true_2 (js "https:" = js "https:")), andb_false_r by done.
  destruct (parseIpAddress (u_hostname url)) as [a|] eqn:Ha.
  - split; [apply settles_itself|]. intros _ Hv. split; [done|]. left. rewrite Ha. split; [eauto|]. by destruct (isPrivateOrLocal _).
  - pose proof (resolve_spec cache (u_hostname url) s) as Hr. destruct (resolveHostname _ _ _ s) as [s' results]. destruct Hr as [Hs Hr].
    destruct results as [[|r rs]|]; (split; [exact Hs|]); intros Hc Hv; [done| |done].
    split; [done|]. right. split; [done|]. exists (r :: rs). split; [by apply Hr|]. split; [done|].
    destruct (existsb isPrivateOrLocal (r :: rs)) eqn:E; [done|]. clear -E. induction (r :: rs) as [|a l IH]; [done|].
    simpl in *. apply orb_false_iff in E as [-> E]. by rewrite IH.
Qed.

(** ** The redirects *)

Lemma nextRedirectTarget_spec r cur url : nextRedirectTarget parseUrl r cur = Ok url -> u_protocol url = js "https:" /\ parseUrl (u_href url) None = Some url.
Proof.
  unfold nextRedirectTarget. destruct (rs_location r) as [[|c l]|]; [done| |done]. destruct (parseUrl _ _) as [next|] eqn:E; [|done].
  case_bool_decide; [|done]. intros [= <-]. split; [done | by eapply href_stable].
Qed.

(** Where a fetch stands after some hops *)
Record standing_at (cache : gmap jstring (list jstring)) (k : nat) (s : fetch_state) : Prop := {
  sa_cache : cache_ok cache s;
  sa_guarded : guarded cache (ft_log s);
  sa_requests : (length (requests (ft_log s)) <= k)%nat;
}.

Lemma standing_settles cache k s s' : settles cache s s' -> standing_at cache k s -> standing_at cache k s'.
Proof. intros [C G R _] [? ? ?]. split; auto. by rewrite R. Qed.

(** [r] answered the last request. *)
Definition answers_last (s : fetch_state) (r : response) : Prop :=
  exists before last, ft_log s = before ++ [FxRequest last] /\ fetch_answers (length before) last = fr_response r.

Lemma request_hop_spec cache k url s : parseUrl (u_href url) None = Some url -> u_protocol url = js "https:" -> standing_at cache k s ->
  let '(s', out) := request_hop parseUrl lookup_answers fetch_answers ownResolver url s in
  standing_at cache (S k) s' /\ forall r, out = Ok r -> answers_last s' r.
Proof.
  intros Hp Hh Hs. unfold request_hop. pose proof (assertAllowedAddress_spec cache url s Hp Hh) as Ha.
  destruct (assertAllowedAddress _ _ _ url s) as [s1 [[]|e]]; destruct Ha as [Hset Hv]; pose proof (standing_settles cache k s s1 Hset Hs) as [C G R].
  - unfold requestOnce. assert (standing_at cache (S k) (note (FxRequest url) s1)) as H1.
    { split; [apply cache_note; [done|]; done | apply guarded_request; [done|]; apply Hv; [apply Hs | done] |].
      simpl. rewrite hops_app, length_app. simpl. lia. }
    destruct (fetch_answers _ url) as [r|ca ab] eqn:E; (split; [exact H1|]); [|done]. intros r' [= <-]. exists (ft_log s1), url. done.
  - split; [|done]. split; [done..|lia].
Qed.

(** Every hop is vetted, there are at most as many as allowed and one, and the response that is returned answered the last. *)
Lemma follow_spec cache n : forall k url s, parseUrl (u_href url) None = Some url -> u_protocol url = js "https:" -> standing_at cache k s ->
  let '(s', out) := follow parseUrl lookup_answers fetch_answers ownResolver n url s in
  standing_at cache (k + S n) s' /\ (forall r final, out = Ok (r, final) -> u_protocol final = js "https:" /\ answers_last s' r).
Proof.
  assert (forall k k' s, (k <= k')%nat -> standing_at cache k s -> standing_at cache k' s) as Hle by (intros k k' s Hk [? ? ?]; split; auto; lia).
  induction n as [|n IH]; intros k url s Hp Hh Hs; simpl follow;
    pose proof (request_hop_spec cache k url s Hp Hh Hs) as Hq; destruct (request_hop _ _ _ _ url s) as [s1 [r|e]]; destruct Hq as [H1 Hr];
    try (split; [by eapply Hle; [|exact H1]; lia | done]).
  all: assert (standing_at cache (S k) (discardBody r s1)) as Hd by (eapply standing_settles; [apply settles_discard | done]).
  all: destruct (negb _); [destruct (resolved_url _ r url) as [final|e]; [case_bool_decide|]; (split; [eapply Hle; [|done]; lia|]); [|done..];
    intros r' f [= <- <-]; split; [done | by apply Hr]|].
  - split; [eapply Hle; [|done]; lia | done].
  - destruct (nextRedirectTarget _ r url) as [next|e] eqn:En; [|split; [eapply Hle; [|done]; lia | done]].
    apply nextRedirectTarget_spec in En as [Hh' Hp']. specialize (IH (S k) next _ Hp' Hh' Hd).
    destruct (follow _ _ _ _ n next _) as [s' out]. destruct IH as [IH1 IH2]. split; [eapply Hle; [|done]; lia | done].
Qed.

(** ** The body *)

(** The chunks of a body, if no read fails *)
Fixpoint chunks_of (reads : list read_answer) : option (list (list Z)) :=
  match reads with
  | [] => Some []
  | rd_chunk bytes :: rest => cons bytes <$> chunks_of rest
  | rd_nothing :: rest => chunks_of rest
  | rd_fails :: _ => None
  end.

Lemma read_loop_spec cache reads cancelFails maxBytes : forall size chunks s, size = zlen (concat chunks) -> size <= maxBytes ->
  let '(s', out) := read_loop reads cancelFails maxBytes size chunks s in
  settles cache s s' /\ forall bytes, out = Ok bytes -> s' = s /\ zlen bytes <= maxBytes /\ exists rest, chunks_of reads = Some rest /\ bytes = concat (chunks ++ rest).
Proof.
  induction reads as [|[bytes| |] reads IH]; intros size chunks s Hsize Hle; simpl.
  - split; [apply settles_itself|]. intros bytes [= <-]. split; [done|]. split; [lia|]. exists []. by rewrite app_nil_r.
  - destruct (Z.ltb_spec maxBytes (size + zlen bytes)); [split; [apply settles_note; [done|by right] | done]|].
    specialize (IH (size + zlen bytes) (chunks ++ [bytes]) s). rewrite concat_app in IH. simpl in IH. rewrite app_nil_r, zlen_app in IH.
    specialize (IH ltac:(lia) ltac:(lia)). destruct (read_loop reads _ _ _ _ s) as [s' out]. destruct IH as [IH1 IH2]. split; [done|].
    intros b Hb. destruct (IH2 b Hb) as (-> & Hl & rest & Hr & ->). split; [done|]. split; [done|]. exists (bytes :: rest). rewrite Hr. split; [done|]. by rewrite <- app_assoc.
  - by apply IH.
  - split; [apply settles_itself | done].
Qed.

(** C20: A guarded fetch asks only for what the address policy allowed for that very request: every request it makes, redirects included, is for an https URL whose host is a public address, or a name all of whose addresses, as the resolver answered for this request (or as it answered before, when the answer is cached), are public; it makes at most one request more than the redirects allowed. What it returns are all the bytes of a successful answer to its last request, within the limit. The connection resolves the name once more, by itself, and nothing here speaks of what it is answered then. *)
Theorem fetch_is_guarded rawUrl o cache s' out :
  safeFetchBytes parseUrl lookup_answers fetch_answers ownResolver rawUrl o {| ft_cache := cache; ft_log := [] |} = (s', out) ->
  guarded cache (ft_log s')
  /\ (requests (ft_log s') <> [] -> zlen (requests (ft_log s')) <= so_maxRedirects o + 1)
  /\ forall result, out = Ok result ->
       zlen (sf_bytes result) <= so_maxBytes o
       /\ exists before last r b chunks, ft_log s' = before ++ [FxRequest last] /\ fetch_answers (length before) last = fr_response r /\ is_success r = true
            /\ rs_body r = Some b /\ chunks_of (bd_reads b) = Some chunks /\ sf_bytes result = concat chunks.
Proof.
  unfold safeFetchBytes. set (s0 := {| ft_cache := cache; ft_log := [] |}).
  assert (standing_at cache 0 s0) as H0 by (split; [intros _ h; cbn; unfold cached_at; by destruct (cache !! h) | by intros [] ?? | done]).
  unfold parseHttpsUrl. destruct (parseUrl rawUrl None) as [url|] eqn:Ep; [|intros [= <- <-]; by split; [apply H0|]].
  case_bool_decide as Hh; [|intros [= <- <-]; by split; [apply H0|]].
  destruct (assertLimits o) as [[]|e] eqn:El; [|intros [= <- <-]; by split; [apply H0|]].
  assert (1 <= so_maxBytes o /\ 0 <= so_maxRedirects o) as [Hmax Hred].
  { unfold assertLimits in El. destruct (isSafeInteger (so_maxBytes o)); [|done]. simpl in El. destruct (Z.ltb_spec (so_maxBytes o) 1); [done|].
    destruct (isSafeInteger (so_maxRedirects o)); [|done]. simpl in El. destruct (Z.ltb_spec (so_maxRedirects o) 0); [done|]. lia. }
  pose proof (follow_spec cache (Z.to_nat (so_maxRedirects o)) 0 url s0 (href_stable _ _ _ Ep) Hh H0) as Hf. unfold followRedirects.
  destruct (follow _ _ _ _ _ url s0) as [s1 [[r final]|e]]; destruct Hf as [H1 Hr];
    (assert (forall s, standing_at cache (0 + S (Z.to_nat (so_maxRedirects o))) s -> guarded cache (ft_log s)
      /\ (requests (ft_log s) <> [] -> zlen (requests (ft_log s)) <= so_maxRedirects o + 1)) as Hst by (intros s [_ ? ?]; split; [done | unfold zlen; lia]));
    [|intros [= <- <-]; by destruct (Hst _ H1)].
  destruct (is_success r) eqn:Ok; simpl; [|intros [= <- <-]; by destruct (Hst _ (standing_settles _ _ _ _ (settles_discard cache r s1) H1))].
  destruct (Hr r final eq_refl) as (_ & before & last & Hlog & Hans).
  unfold readBounded. destruct (match rs_declaredLength r with Some _ => _ | None => _ end); [intros [= <- <-]; by destruct (Hst _ (standing_settles _ _ _ _ (settles_discard cache r s1) H1))|].
  destruct (rs_body r) as [b|] eqn:Eb; [|intros [= <- <-]; by destruct (Hst _ H1)].
  pose proof (read_loop_spec cache (bd_reads b) (bd_cancelFails b) (so_maxBytes o) 0 [] s1 eq_refl ltac:(lia)) as Hl.
  destruct (read_loop _ _ _ _ _ s1) as [s2 [bytes|e]] eqn:Er; destruct Hl as [Hset Hb]; intros [= <- <-]; destruct (Hst _ (standing_settles _ _ _ _ Hset H1)) as [G R];
    (split; [exact G|]; split; [exact R|]); [|done].
  intros result [= <-]. destruct (Hb bytes eq_refl) as (-> & Hlen & chunks & Hch & ->). split; [done|]. exists before, last, r, b, chunks. done.
Qed.

End Guarded.

(** ** A concrete fetch *)

(** URLs of two hosts *)
Definition demo_url (href : jstring) : option Url :=
  if bool_decide (href = js "https://a.test/") then Some {| u_protocol := js "https:"; u_hostname := js "a.test"; u_href := js "https://a.test/" |}
  else if bool_decide (href = js "https://b.test/x") then Some {| u_protocol := js "https:"; u_hostname := js "b.test"; u_href := js "https://b.test/x" |}
  else None.

Definition demo_parse (input : jstring) (base : option Url) : option Url :=
  demo_url (if bool_decide (input = js "x") then js "https://b.test/x" else input).

Lemma demo_stable input base url : demo_parse input base = Some url -> demo_parse (u_href url) None = Some url.
Proof.
  unfold demo_parse, demo_url. intros Hu. destruct (bool_decide (_ = js "https://a.test/")); [injection Hu as <-; reflexivity|].
  destruct (bool_decide (_ = js "https://b.test/x")); [injection Hu as <-; reflexivity | done].
Qed.

Definition demo_lookup (n : nat) (host : jstring) : option (list jstring) := Some [if bool_decide (host = js "a.test") then js "8.8.8.8" else js "2001:4860::8888"].

Definition demo_response (status : Z) (location : option jstring) (reads : list read_answer) : response :=
  {| rs_status := status; rs_url := []; rs_location := location; rs_declaredLength := Some (inject_Z 0); rs_contentType := None;
     rs_body := Some {| bd_reads := reads; bd_cancelFails := false |} |}.

(** The first host redirects to the second, which answers three bytes in two chunks. *)
Definition demo_answers (n : nat) (url : Url) : fetch_answer :=
  fr_response (if bool_decide (u_hostname url = js "a.test") then demo_response 302 (Some (js "x")) []
               else demo_response 200 None [rd_chunk [1; 2]; rd_nothing; rd_chunk [3]]).

Lemma fetch_is_guarded_witness :
  exists s', safeFetchBytes (H := ascii_case_mapping) demo_parse demo_lookup demo_answers false (js "https://a.test/") {| so_maxBytes := 3; so_maxRedirects := 1 |}
      {| ft_cache := ∅; ft_log := [] |} = (s', Ok {| sf_bytes := [1; 2; 3]; sf_contentType := None; sf_url := js "https://b.test/x" |})
    /\ zlen (requests (ft_log s')) = 2 /\ guarded (H := ascii_case_mapping) false ∅ (ft_log s').
Proof.
  eexists. split; [vm_compute; reflexivity|]. split; [vm_compute; reflexivity|].
  eapply (fetch_is_guarded (H := ascii_case_mapping) demo_parse demo_lookup demo_answers false demo_stable (js "https://a.test/") {| so_maxBytes := 3; so_maxRedirects := 1 |} ∅).
  vm_compute. reflexivity.
Defined.

(** A redirect without a location: the body of its response is not discarded, as it is on every other way out. *)
Example refused_redirect_keeps_its_body :
  let '(s, out) := safeFetchBytes (H := ascii_case_mapping) demo_parse demo_lookup (fun _ _ => fr_response (demo_response 302 None [])) false (js "https://a.test/")
      {| so_maxBytes := 3; so_maxRedirects := 1 |} {| ft_cache := ∅; ft_log := [] |} in
  out = Err (failed fk_invalid_url) /\ FxDiscard ∉ ft_log s.
Proof. vm_compute. split; [done|]. intros H. repeat (apply elem_of_cons in H as [[=]|H]). by apply elem_of_nil in H. Qed.

(** A resolver that answers with no address at all: the reason is that of a blocked address, not that the name could not be resolved. *)
Example no_address_is_blocked :
  (validateBaseUrl (H := ascii_case_mapping) demo_parse (fun _ _ => Some []) true (js "https://a.test/") {| ft_cache := ∅; ft_log := [] |}).2 = Err ub_blocked_address.
Proof. vm_compute. reflexivity. Qed.
