(* ===== verification/Paging.v ===== *)
(** * Paging transcripts and the gallery

    [apps/api/src/modules/messages]: the cursors ([domain/cursor-position.ts], [transcript-cursor.ts], [gallery-cursor.ts]), the queries that
    page a chat's transcript and the gallery ([infrastructure/message-repository.ts], and
    [generated-images/infrastructure/generated-image-repository.ts]) and [application/list-gallery.ts]. A timestamp is any number, held as its
    decimal; a query is a filter, a sort and a limit over the rows of its table. *)

From Stdlib Require Import QArith.
From stdpp Require Import sorting.
From S2P Require Import Prelude Regex Json IpAddress.
Local Open Scope Z_scope.

(** ** Positions *)

Definition MAX_SAFE_INTEGER : Z := 2 ^ 53 - 1.

Definition num_value (n : number) : Q := (inject_Z ((if neg n then -1 else 1) * digits_value (sig n)) * Qpower (inject_Z 10) (expo n))%Q.

(** [Number.isFinite]: below the least number that rounds to infinity *)
Definition is_finite (n : number) : bool :=
  let v := num_value n in
  let overflow := inject_Z (2 ^ 1024 - 2 ^ 970) in
  negb (Qle_bool overflow v) && negb (Qle_bool v (- overflow)).

Record CursorPosition : Type := { cp_timestamp : number; cp_rowid : option Z }.

Definition digit_class : regex := RClass [(48, 57)].

(** [TIMESTAMP_SOURCE] *)
Definition TIMESTAMP : regex :=
  RSeq (ROpt (RChar 45)) (RSeq (RPlus digit_class) (RSeq (ROpt (RSeq (RChar 46) (RPlus digit_class)))
    (ROpt (RSeq (RChar 101) (RSeq (ROpt (RClass [(43, 43); (45, 45)])) (RPlus digit_class)))))).

(** [Number] of a text of that shape *)
Definition number_of_timestamp (s : jstring) : option number :=
  let '(sign, s1) := parse_sign s in
  let '(ip, s2) := span_digits s1 in
  '(fp, s3) ← parse_fraction s2;
  '(e, s4) ← parse_exponent s3;
  Some (normalise sign (ip ++ fp) (e - zlen fp)).

Definition parseCursorPosition (value : jstring) : option CursorPosition :=
  if matches TIMESTAMP value then
    timestamp ← number_of_timestamp value;
    if is_finite timestamp then Some {| cp_timestamp := timestamp; cp_rowid := None |} else None
  else
    match split_on 58 value with
    | [t; r] =>
        if matches TIMESTAMP t && matches (RPlus digit_class) r && (zlen r <=? 16) then
          timestamp ← number_of_timestamp t;
          let rowid := number_of r in
          if is_finite timestamp && (rowid <=? MAX_SAFE_INTEGER) then Some {| cp_timestamp := timestamp; cp_rowid := Some rowid |} else None
        else None
    | _ => None
    end.

(** ** Transcripts *)

Inductive MessagesOrder : Type := mo_asc | mo_desc.

(** [TranscriptCursor] *)
Record position : Type := { ps_timestamp : number; ps_rowid : Z }.

Definition encodeTranscriptCursor (c : position) : jstring := print_number (ps_timestamp c) ++ js ":" ++ dec (ps_rowid c).

Definition decodeTranscriptCursor (value : jstring) (order : MessagesOrder) : option position :=
  p ← parseCursorPosition value;
  let outsideTheTie := match order with mo_asc => MAX_SAFE_INTEGER | mo_desc => 0 end in
  Some {| ps_timestamp := cp_timestamp p; ps_rowid := default outsideTheTie (cp_rowid p) |}.

(** The comparison of row values [(timestamp, rowid) < (timestamp, rowid)] *)
Definition before (a b : position) : bool :=
  match (num_value (ps_timestamp a) ?= num_value (ps_timestamp b))%Q with Lt => true | Eq => ps_rowid a <? ps_rowid b | Gt => false end.

Definition comes_before (order : MessagesOrder) (a b : position) : bool := match order with mo_asc => before a b | mo_desc => before b a end.

(** A row of [messages]; the columns a page copies are its text [mr_id]. *)
Record message_row : Type := { mr_id : jstring; mr_chatId : jstring; mr_at : position }.

(** [orderBy]: a stable sort by a strict order *)
Definition not_after {A} (lt : A -> A -> bool) (x y : A) : Prop := lt y x = false.

Global Instance not_after_dec {A} (lt : A -> A -> bool) : RelDecision (not_after lt).
Proof. intros x y. unfold not_after. apply _. Defined.

Definition sorted_by {A} (lt : A -> A -> bool) : list A -> list A := merge_sort (not_after lt).

(** The rows [listByChatId] selects, in query order *)
Definition transcript_query (chatId : jstring) (order : MessagesOrder) (cursor : option position) (rows : list message_row) : list message_row :=
  sorted_by (fun x y => comes_before order (mr_at x) (mr_at y))
    (List.filter (fun r => bool_decide (mr_chatId r = chatId) && match cursor with Some c => comes_before order c (mr_at r) | None => true end) rows).

Definition listByChatId (chatId : jstring) (order : MessagesOrder) (cursor : option position) (limit : nat) (rows : list message_row) :
    list message_row * option jstring :=
  let fetched := take (limit + 1) (transcript_query chatId order cursor rows) in
  let '(page, nextCursor) :=
    if (limit <? length fetched)%nat then
      let fetched := take (length fetched - 1) fetched in (fetched, (fun edge => encodeTranscriptCursor (mr_at edge)) <$> last fetched)
    else (fetched, None) in
  (match order with mo_asc => page | mo_desc => reverse page end, nextCursor).

(** A client that asks for page after page, each with the cursor of the one before *)
Fixpoint transcript_pages (fuel : nat) (chatId : jstring) (order : MessagesOrder) (cursor : option position) (limit : nat) (rows : list message_row) :
    option (list (list message_row)) :=
  match fuel with
  | O => None
  | S fuel =>
      match listByChatId chatId order cursor limit rows with
      | (page, None) => Some [page]
      | (page, Some next) => c ← decodeTranscriptCursor next order; cons page <$> transcript_pages fuel chatId order (Some c) limit rows
      end
  end.

(** ** The gallery *)

Inductive GallerySource : Type := gs_artifact | gs_message.

Global Instance source_eq_dec : EqDecision GallerySource.
Proof. solve_decision. Defined.

Definition SOURCE_RANK (s : GallerySource) : Z := match s with gs_artifact => 0 | gs_message => 1 end.

Record GalleryCursor : Type := { gc_createdAt : number; gc_source : GallerySource; gc_rowid : Z }.

(** [GalleryEntry]: the item and where it sorts *)
Record GalleryEntry : Type := { ge_messageId : jstring; ge_imageUrl : jstring; ge_at : GalleryCursor }.

Definition source_text (s : GallerySource) : jstring := match s with gs_artifact => js "artifact" | gs_message => js "message" end.

Definition encodeGalleryCursor (c : GalleryCursor) : jstring :=
  source_text (gc_source c) ++ js ":" ++ print_number (gc_createdAt c) ++ js ":" ++ dec (gc_rowid c).

(** [SOURCE_PREFIX.exec(value)] *)
Definition source_prefix (value : jstring) : option (GallerySource * jstring) :=
  if bool_decide (take 9 value = js "artifact:") then Some (gs_artifact, drop 9 value)
  else if bool_decide (take 8 value = js "message:") then Some (gs_message, drop 8 value)
  else None.

Definition decodeGalleryCursor (value : jstring) : option GalleryCursor :=
  match source_prefix value with
  | None =>
      p ← parseCursorPosition value;
      match cp_rowid p with Some _ => None | None => Some {| gc_createdAt := cp_timestamp p; gc_source := gs_message; gc_rowid := 0 |} end
  | Some (source, rest) =>
      p ← parseCursorPosition rest;
      match cp_rowid p with None => None | Some rowid => Some {| gc_createdAt := cp_timestamp p; gc_source := source; gc_rowid := rowid |} end
  end.

(** [compareGalleryOrder(left, right) < 0] *)
Definition gallery_before (l r : GalleryCursor) : bool :=
  match (num_value (gc_createdAt l) ?= num_value (gc_createdAt r))%Q with
  | Gt => true
  | Lt => false
  | Eq => if negb (bool_decide (gc_source l = gc_source r)) then SOURCE_RANK (gc_source l) <? SOURCE_RANK (gc_source r) else gc_rowid r <? gc_rowid l
  end.

Definition tiedRowidCeiling (source : GallerySource) (cursor : GalleryCursor) : Z :=
  let own := SOURCE_RANK source in
  let boundary := SOURCE_RANK (gc_source cursor) in
  if own <? boundary then 0 else if boundary <? own then MAX_SAFE_INTEGER else gc_rowid cursor.

Definition entry_position (e : GalleryEntry) : position := {| ps_timestamp := gc_createdAt (ge_at e); ps_rowid := gc_rowid (ge_at e) |}.

(** [listGeneratedImagesForGallery] and [listLegacyGalleryImages]: the newest entries of one source past the cursor, one more than a page *)
Definition list_source (source : GallerySource) (cursor : option GalleryCursor) (limit : nat) (entries : list GalleryEntry) : list GalleryEntry :=
  take (limit + 1) (sorted_by (fun x y => before (entry_position y) (entry_position x))
    (List.filter (fun e => bool_decide (gc_source (ge_at e) = source)
       && match cursor with
          | Some c => before (entry_position e) {| ps_timestamp := gc_createdAt c; ps_rowid := tiedRowidCeiling source c |}
          | None => true
          end) entries)).

Definition galleryItemKey (e : GalleryEntry) : jstring := ge_messageId e ++ js ":" ++ ge_imageUrl e.

Fixpoint dedupe (seen : list jstring) (entries : list GalleryEntry) : list GalleryEntry :=
  match entries with
  | [] => []
  | e :: rest =>
      if bool_decide (galleryItemKey e ∈ seen) then dedupe seen rest else e :: dedupe (galleryItemKey e :: seen) rest
  end.

Definition dedupeEntries : list GalleryEntry -> list GalleryEntry := dedupe [].

(** [listGalleryUseCase] over the entries of both tables: a page and the next cursor, or a refused cursor *)
Definition listGallery (cursor : option jstring) (limit : nat) (table : list GalleryEntry) : option (list GalleryEntry * option jstring) :=
  c ← match cursor with None => Some None | Some s => Some <$> decodeGalleryCursor s end;
  let entries := dedupeEntries (sorted_by (fun x y => gallery_before (ge_at x) (ge_at y))
    (list_source gs_artifact c limit table ++ list_source gs_message c limit table)) in
  let hasMore := (limit <? length entries)%nat in
  let page := take limit entries in
  Some (page, if hasMore then (fun e => encodeGalleryCursor (ge_at e)) <$> last page else None).

Fixpoint gallery_pages (fuel : nat) (cursor : option jstring) (limit : nat) (table : list GalleryEntry) : option (list (list GalleryEntry)) :=
  match fuel with
  | O => None
  | S fuel =>
      '(page, next) ← listGallery cursor limit table;
      match next with None => Some [page] | Some c => cons page <$> gallery_pages fuel (Some c) limit table end
  end.
