(* ===== verification/PagingFacts.v ===== *)
(** * Facts about paging: sorts by a strict order, pages, and cursors read back. *)

From Stdlib Require Import QArith.
From stdpp Require Import sorting.
From S2P Require Import Prelude Regex Json JsonFacts IpAddress IpAddressFacts Paging.
Local Open Scope Z_scope.

(** ** Sorting by a strict order *)

(** An order as a boolean test: irreflexive, and its complement transitive *)
Class StrictWeak {A} (lt : A -> A -> bool) : Prop := {
  sw_irrefl x : lt x x = false;
  sw_trans x y z : lt x y = true -> lt y z = true -> lt x z = true;
  sw_cotrans x y z : lt x z = true -> lt x y = true \/ lt y z = true
}.

Definition strictly {A} (lt : A -> A -> bool) (x y : A) : Prop := lt x y = true.

Section Sorting.
Context {A : Type} (lt : A -> A -> bool) `{!StrictWeak lt}.

Lemma sorted_by_perm l : sorted_by lt l ≡ₚ l.
Proof. apply merge_sort_Permutation. Qed.

Lemma strictly_antisym x y : strictly lt x y -> strictly lt y x -> False.
Proof. intros H1 H2. pose proof (sw_trans _ _ _ H1 H2) as H. by rewrite sw_irrefl in H. Qed.

#[local] Instance not_after_total : Total (not_after lt).
Proof. intros x y. unfold not_after. destruct (lt y x) eqn:H; [right|by left]. destruct (lt x y) eqn:H'; [|done]. by destruct (strictly_antisym x y). Qed.

#[local] Instance not_after_trans : Transitive (not_after lt).
Proof. intros x y z Hxy Hyz. unfold not_after in *. destruct (lt z x) eqn:H; [|done]. apply (sw_cotrans _ y) in H as [H|H]; congruence. Qed.

(** Elements no two of which tie *)
Definition untied (l : list A) : Prop := forall x y, x ∈ l -> y ∈ l -> lt x y = false -> lt y x = false -> x = y.

Lemma untied_perm l k : l ≡ₚ k -> untied l -> untied k.
Proof. intros Hp H x y Hx Hy. apply H; by rewrite Hp. Qed.

Lemma untied_sub l k : k ⊆ l -> untied l -> untied k.
Proof. intros Hs H x y Hx Hy. apply H; by apply Hs. Qed.

Lemma sorted_strictly l : NoDup l -> untied l -> StronglySorted (strictly lt) (sorted_by lt l).
Proof.
  intros Hnd Hu. assert (NoDup (sorted_by lt l)) as Hnd' by by rewrite sorted_by_perm.
  assert (untied (sorted_by lt l)) as Hu' by (eapply untied_perm; [symmetry; apply sorted_by_perm|done]).
  pose proof (StronglySorted_merge_sort (not_after lt) l) as Hs. fold (sorted_by lt l) in Hs.
  induction Hs as [|x k Hs IH Hx]; [constructor|]. apply NoDup_cons in Hnd' as [Hni Hnd']. constructor.
  - apply IH; [done|]. eapply untied_sub; [|exact Hu']. set_solver.
  - apply Forall_forall. intros y Hy. rewrite Forall_forall in Hx. specialize (Hx y Hy). unfold strictly, not_after in *.
    destruct (lt x y) eqn:H; [done|]. assert (x = y) as <-; [|done]. apply Hu'; [set_solver..|done|done].
Qed.

Lemma strictly_untied l : StronglySorted (strictly lt) l -> untied l.
Proof.
  induction 1 as [|x l Hs IH Hx]; intros a b Ha Hb H1 H2; [set_solver|]. rewrite Forall_forall in Hx. unfold strictly in *.
  apply elem_of_cons in Ha as [->|Ha], Hb as [->|Hb]; [done|..|by apply IH].
  - specialize (Hx _ Hb). congruence.
  - specialize (Hx _ Ha). congruence.
Qed.

Lemma strictly_nodup l : StronglySorted (strictly lt) l -> NoDup l.
Proof.
  induction 1 as [|x l Hs IH Hx]; constructor; [|done]. intros Hin. rewrite Forall_forall in Hx. specialize (Hx _ Hin). unfold strictly in Hx.
  by rewrite sw_irrefl in Hx.
Qed.

(** A list in the order is what the sort gives of any of its rearrangements. *)
Lemma sorted_by_unique l k : StronglySorted (strictly lt) k -> k ≡ₚ l -> sorted_by lt l = k.
Proof.
  intros Hk Hp. apply (StronglySorted_unique_strong (strictly lt)); [|apply sorted_strictly|done|by rewrite sorted_by_perm].
  - intros x y _ _ H1 H2. by destruct (strictly_antisym x y).
  - rewrite <- Hp. by apply strictly_nodup.
  - eapply untied_perm; [exact Hp|]. by apply strictly_untied.
Qed.

Lemma strictly_sublist l k : sublist k l -> StronglySorted (strictly lt) l -> StronglySorted (strictly lt) k.
Proof.
  induction 1 as [|x k l Hs IH|x k l Hs IH]; [done|..]; intros H; inversion H as [|? ? Hl Hx]; subst; [|by apply IH].
  constructor; [by apply IH|]. rewrite Forall_forall in *. intros y Hy. apply Hx. by eapply sublist_subseteq.
Qed.

Lemma filter_sublist (p : A -> bool) l : sublist (List.filter p l) l.
Proof. induction l as [|x l IH]; cbn; [constructor|]. destruct (p x); by constructor. Qed.

Lemma filter_perm (p : A -> bool) l k : l ≡ₚ k -> List.filter p l ≡ₚ List.filter p k.
Proof.
  induction 1 as [|x l k _ IH|x y l|l k m _ IH1 _ IH2]; cbn; [done| | |by rewrite IH1].
  - destruct (p x); by rewrite IH.
  - destruct (p x), (p y); try done. by rewrite Permutation_swap.
Qed.

(** Filtering before sorting or after it *)
Lemma sorted_filter (p : A -> bool) l : NoDup l -> untied l -> sorted_by lt (List.filter p l) = List.filter p (sorted_by lt l).
Proof.
  intros Hnd Hu. apply sorted_by_unique.
  - eapply strictly_sublist; [apply filter_sublist|]. by apply sorted_strictly.
  - apply filter_perm, sorted_by_perm.
Qed.

(** What lies past an element of a list in the order is what follows it. *)
Lemma filter_past P e Q : StronglySorted (strictly lt) (P ++ e :: Q) -> List.filter (lt e) (P ++ e :: Q) = Q.
Proof.
  induction P as [|x P IH]; cbn [app List.filter]; intros H; inversion H as [|? ? Hl Hx]; subst; rewrite Forall_forall in Hx.
  - rewrite sw_irrefl. clear H Hl. induction Q as [|y Q IH]; [done|]. cbn. rewrite (Hx y) by set_solver. f_equal. apply IH. intros z Hz. apply Hx. set_solver.
  - destruct (lt e x) eqn:He; [|by apply IH]. destruct (strictly_antisym e x); [done|]. apply Hx. set_solver.
Qed.
End Sorting.

(** ** The orders of the pages *)

(** Rationals in a row *)
Lemma q_cases (x y : Q) : (x < y)%Q \/ (x == y)%Q \/ (y < x)%Q.
Proof. destruct (Q_dec x y) as [[H|H]|H]; auto. Qed.

Lemma q_asym (x y : Q) : (x < y)%Q -> (y < x)%Q -> False.
Proof. intros H1 H2. apply (Qlt_irrefl x). by eapply Qlt_trans. Qed.

Lemma before_spec a b :
  before a b = true <->
  (num_value (ps_timestamp a) < num_value (ps_timestamp b))%Q \/ (num_value (ps_timestamp a) == num_value (ps_timestamp b))%Q /\ ps_rowid a < ps_rowid b.
Proof.
  unfold before. destruct (Qcompare_spec (num_value (ps_timestamp a)) (num_value (ps_timestamp b))) as [H|H|H].
  - rewrite Z.ltb_lt. split; [by right|]. intros [H'|[_ H']]; [|done]. rewrite H in H'. by apply Qlt_irrefl in H'.
  - split; [by left|done].
  - split; [done|]. intros [H'|[H' _]].
    + by destruct (q_asym _ _ H H').
    + rewrite H' in H. by apply Qlt_irrefl in H.
Qed.

Global Instance before_strict : StrictWeak before.
Proof.
  split.
  - intros x. apply not_true_iff_false. rewrite before_spec. intros [H|[_ H]]; [by apply Qlt_irrefl in H|lia].
  - intros x y z. rewrite !before_spec. intros [H1|[H1 H1']] [H2|[H2 H2']].
    + left. by eapply Qlt_trans.
    + left. by rewrite <- H2.
    + left. by rewrite H1.
    + right. split; [by rewrite H1|lia].
  - intros x y z. rewrite !before_spec.
    destruct (q_cases (num_value (ps_timestamp x)) (num_value (ps_timestamp y))) as [H|[H|H]]; [by auto|..].
    + rewrite H. intros [H'|[H' H'']]; [by auto|]. destruct (Z.lt_ge_cases (ps_rowid x) (ps_rowid y)); [by left; right|]. right. right. split; [done|lia].
    + intros [H'|[H' H'']]; right; left; [by eapply Qlt_trans|by rewrite <- H'].
Qed.

Lemma strict_flip {A} (lt : A -> A -> bool) : StrictWeak lt -> StrictWeak (fun x y => lt y x).
Proof.
  intros H. split.
  - intros x. apply H.
  - intros x y z H1 H2. by eapply (sw_trans (lt := lt)).
  - intros x y z H1. apply (sw_cotrans (lt := lt) _ y) in H1 as [?|?]; auto.
Qed.

Lemma strict_along {A B} (f : B -> A) (lt : A -> A -> bool) : StrictWeak lt -> StrictWeak (fun x y => lt (f x) (f y)).
Proof.
  intros H. split.
  - intros x. apply H.
  - intros x y z. apply H.
  - intros x y z. apply H.
Qed.

Global Instance transcript_strict order : StrictWeak (fun x y => comes_before order (mr_at x) (mr_at y)).
Proof. apply (strict_along mr_at (comes_before order)). destruct order; [|apply (strict_flip before)]; apply before_strict. Qed.

Lemma positions_trichotomy a b : before a b = false -> before b a = false -> (num_value (ps_timestamp a) == num_value (ps_timestamp b))%Q /\ ps_rowid a = ps_rowid b.
Proof.
  rewrite <- !not_true_iff_false, !before_spec. intros H1 H2.
  destruct (q_cases (num_value (ps_timestamp a)) (num_value (ps_timestamp b))) as [H|[H|H]]; [by destruct H1; left| |by destruct H2; left].
  split; [done|]. destruct (Z.lt_trichotomy (ps_rowid a) (ps_rowid b)) as [Hz|[Hz|Hz]]; [|done|].
  - destruct H1. by right.
  - destruct H2. right. by rewrite H.
Qed.

Lemma gallery_before_spec l r :
  gallery_before l r = true <->
  (num_value (gc_createdAt r) < num_value (gc_createdAt l))%Q \/
  (num_value (gc_createdAt l) == num_value (gc_createdAt r))%Q /\
  (SOURCE_RANK (gc_source l) < SOURCE_RANK (gc_source r) \/ gc_source l = gc_source r /\ gc_rowid r < gc_rowid l).
Proof.
  unfold gallery_before. destruct (Qcompare_spec (num_value (gc_createdAt l)) (num_value (gc_createdAt r))) as [H|H|H].
  - transitivity (SOURCE_RANK (gc_source l) < SOURCE_RANK (gc_source r) \/ gc_source l = gc_source r /\ gc_rowid r < gc_rowid l).
    + destruct (gc_source l), (gc_source r); case_bool_decide; try done; cbn; rewrite ?Z.ltb_lt; (split; [intros ?|intros [?|[? ?]]]);
        first [done | lia | left; lia | right; split; [done|lia]].
    + split; [by right|]. intros [H'|[_ H']]; [|done]. rewrite H in H'. by apply Qlt_irrefl in H'.
  - split; [done|]. intros [H'|[H' _]].
    + by destruct (q_asym _ _ H H').
    + rewrite H' in H. by apply Qlt_irrefl in H.
  - split; [by left|done].
Qed.

Global Instance gallery_strict : StrictWeak gallery_before.
Proof.
  split.
  - intros x. apply not_true_iff_false. rewrite gallery_before_spec. intros [H|[_ [H|[_ H]]]]; [by apply Qlt_irrefl in H|lia|lia].
  - intros x y z. rewrite !gallery_before_spec. intros [H1|[H1 H1']] [H2|[H2 H2']].
    + left. by eapply Qlt_trans.
    + left. by rewrite <- H2.
    + left. by rewrite H1.
    + right. split; [by rewrite H1|]. destruct (gc_source x), (gc_source y), (gc_source z); cbn in *; intuition (lia || done).
  - intros x y z. rewrite !gallery_before_spec.
    destruct (q_cases (num_value (gc_createdAt y)) (num_value (gc_createdAt x))) as [H|[H|H]]; [by auto|..].
    + intros [H'|[H' H'']]; [right; left; by rewrite H|]. assert (num_value (gc_createdAt x) == num_value (gc_createdAt y))%Q by done.
      assert (num_value (gc_createdAt y) == num_value (gc_createdAt z))%Q by (by rewrite H).
      assert (forall a b c s t u, SOURCE_RANK s < SOURCE_RANK t \/ s = t /\ a < b ->
        (SOURCE_RANK s < SOURCE_RANK u \/ s = u /\ c < b) \/ (SOURCE_RANK u < SOURCE_RANK t \/ u = t /\ a < c)) as Hr.
      { intros a b c [] [] []; cbn; intros [?|[? ?]]; try (lia || done); destruct (Z.lt_ge_cases c b);
          first [left; left; lia | left; right; split; [done|lia] | right; left; lia | right; right; split; [done|lia]]. }
      destruct (Hr _ _ (gc_rowid y) _ _ (gc_source y) H'') as [?|?]; [left|right]; right; by split.
    + intros [H'|[H' H'']]; right; left; [by eapply Qlt_trans|by rewrite <- H'].
Qed.

(** ** Cursors read back *)

Lemma digit_char d : is_digit d -> in_class [(48, 57)] (48 + d) = true.
Proof. unfold is_digit, in_class. cbn. lia. Qed.

Lemma chars_of_digits ds : Forall is_digit ds -> Forall (fun c => in_class [(48, 57)] c = true) (chars_of ds).
Proof. intros H. unfold chars_of. apply Forall_fmap. eapply Forall_impl; [exact H|]. apply digit_char. Qed.

Lemma lang_plus_class ranges u : lang (RPlus (RClass ranges)) u <-> u <> [] /\ Forall (fun c => in_class ranges c = true) u.
Proof.
  unfold RPlus. rewrite lang_seq. split.
  - intros (s & t & -> & (c & -> & Hc)%lang_class & Ht%lang_star_class). split; [done|]. by constructor.
  - intros [Hne Hu]. destruct u as [|c u]; [done|]. apply Forall_cons in Hu as [Hc Hu]. exists [c], u.
    split; [done|]. split; [apply lang_class; by exists c|by apply lang_star_class].
Qed.

Lemma lang_digits ds : Forall is_digit ds -> ds <> [] -> lang (RPlus digit_class) (chars_of ds).
Proof. intros H Hne. apply lang_plus_class. split; [by destruct ds|]. by apply chars_of_digits. Qed.

Lemma span_digits_split s ds t : span_digits s = (ds, t) -> s = chars_of ds ++ t /\ Forall is_digit ds.
Proof.
  revert ds t; induction s as [|c s IH]; intros ds t; cbn; [by intros [= <- <-]|].
  destruct (is_digit_char c) eqn:Hc; [|by intros [= <- <-]]. destruct (span_digits s) as [ds' t'] eqn:E. intros [= <- <-].
  destruct (IH _ _ eq_refl) as [-> H]. unfold is_digit_char in Hc. split; [cbn; f_equal; lia|]. constructor; [unfold is_digit; lia|done].
Qed.

Lemma eat_some c s t : eat c s = Some t -> s = c :: t.
Proof. destruct s as [|x s]; [done|]. cbn. destruct (Z.eqb_spec x c); [|done]. by intros [= ->]; subst. Qed.

(** A number of the JSON grammar with a small [e] is a timestamp. *)
Lemma parsed_timestamp s n : parse_number s = Some (n, []) -> 69 ∉ s -> matches TIMESTAMP s = true /\ number_of_timestamp s = Some n.
Proof.
  unfold parse_number, number_of_timestamp. intros H HE. rewrite matches_lang.
  destruct (parse_sign s) as [sg s1] eqn:E1. destruct (span_digits s1) as [ip s2] eqn:E2. destruct ip as [|d ip]; [done|].
  destruct ((d =? 0) && (0 <? zlen ip)); [done|].
  apply bind_Some in H as ([fp s3] & E3 & H). apply bind_Some in H as ([e s4] & E4 & [= Hn ->]).
  cbn -[normalise]. rewrite E3. cbn -[normalise]. rewrite E4. cbn -[normalise]. split; [|by rewrite <- Hn].
  apply lang_seq. assert (exists sign_text, s = sign_text ++ s1 /\ lang (ROpt (RChar 45)) sign_text) as (st & Hs & Hst).
  { unfold parse_sign in E1. destruct (eat 45 s) as [t|] eqn:E; injection E1 as <- <-.
    - apply eat_some in E as ->. exists [45]. split; [done|]. apply lang_opt. right. by apply lang_char.
    - exists []. split; [done|]. apply lang_opt. by left. }
  exists st, s1. split; [done|]. split; [done|]. apply span_digits_split in E2 as [-> Hip].
  apply lang_seq. exists (chars_of (d :: ip)), s2. split; [done|]. split; [by apply lang_digits|]. apply lang_seq.
  unfold parse_fraction in E3. assert (exists fr, s2 = fr ++ s3 /\ lang (ROpt (RSeq (RChar 46) (RPlus digit_class))) fr) as (fr & -> & Hfr).
  { destruct (eat 46 s2) as [t|] eqn:E; [|injection E3 as <- <-; exists []; split; [done|]; apply lang_opt; by left].
    apply eat_some in E as ->. destruct (span_digits t) as [[|x ds] u] eqn:Ed; [done|]. injection E3 as <- <-. apply span_digits_split in Ed as [-> Hd].
    exists (46 :: chars_of (x :: ds)). split; [done|]. apply lang_opt. right. apply lang_seq. exists [46], (chars_of (x :: ds)).
    split; [done|]. split; [by apply lang_char|by apply lang_digits]. }
  exists fr, s3. split; [done|]. split; [done|]. unfold parse_exponent in E4. destruct s3 as [|c rest]; [apply lang_opt; by left|].
  destruct (Z.eqb_spec c 101) as [->|Hc]; cbn [orb] in E4.
  2: { destruct (Z.eqb_spec c 69) as [->|]; [|done]. destruct HE. rewrite Hs. set_solver. }
  apply lang_opt. right. apply lang_seq. exists [101], rest. split; [done|]. split; [by apply lang_char|].
  assert (forall body sign ds t, span_digits body = (ds, t) -> match ds with [] => None | _ => Some (sign * digits_value ds, t) end = Some (e, []) ->
    lang (RPlus digit_class) body) as Hbody.
  { intros body sign [|x ds] t Hd; [done|]. intros [= _ ->]. apply span_digits_split in Hd as [-> Hd]. rewrite app_nil_r. by apply lang_digits. }
  apply lang_seq. destruct (eat 45 rest) as [t|] eqn:E45; [|destruct (eat 43 rest) as [t|] eqn:E43].
  - apply eat_some in E45 as ->. exists [45], t. split; [done|]. split; [apply lang_opt; right; apply lang_class; by exists 45|].
    destruct (span_digits t) as [ds u] eqn:Ed. by apply (Hbody _ (-1) _ _ Ed).
  - apply eat_some in E43 as ->. exists [43], t. split; [done|]. split; [apply lang_opt; right; apply lang_class; by exists 43|].
    destruct (span_digits t) as [ds u] eqn:Ed. by apply (Hbody _ 1 _ _ Ed).
  - exists [], rest. split; [done|]. split; [apply lang_opt; by left|]. destruct (span_digits rest) as [ds u] eqn:Ed. by apply (Hbody _ 1 _ _ Ed).
Qed.

(** The characters a printed number is made of *)
Definition number_char (c : Z) : Prop := 48 <= c <= 57 \/ c = 43 \/ c = 45 \/ c = 46 \/ c = 101.

Lemma chars_of_number ds : Forall is_digit ds -> Forall number_char (chars_of ds).
Proof. intros H. unfold chars_of. apply Forall_fmap. eapply Forall_impl; [exact H|]. unfold is_digit, number_char. intros d. cbn. lia. Qed.

Ltac number_literal :=
  match goal with |- Forall number_char ?l => let l' := eval vm_compute in l in change l with l' end; repeat constructor; unfold number_char; lia.

Lemma print_number_chars n : number_ok n = true -> Forall number_char (print_number n).
Proof.
  intros [->|Hs]%number_ok_cases; [number_literal|]. destruct Hs as [Hd _ _].
  unfold print_number. destruct (sig n) as [|d ds] eqn:E; [number_literal|]. cbv zeta.
  apply Forall_app_2; [destruct (neg n); number_literal|].
  assert (forall z, Forall number_char (chars_of (zeros z))) as Hz by (intros z; apply chars_of_number, zeros_digits).
  assert (forall z, 0 <= z -> Forall number_char (chars_of (digits z))) as Hg by (intros z ?; by apply chars_of_number, digits_digits).
  pose proof (fun k => take_drop_digits k _ Hd) as Hk.
  repeat case_match; unfold chars_of; rewrite ?map_app; repeat apply Forall_app_2; try apply Hz; try (apply Hg; lia);
    try (apply chars_of_number; done || apply Hk); try number_literal.
  all: apply Forall_cons in Hd as [Hd1 Hd2]; first [by apply chars_of_number | apply (chars_of_number [d]); constructor; [done|constructor]].
Qed.

Lemma digits_fuel_length f n k : (1 <= k)%nat -> 0 <= n < 10 ^ Z.of_nat k -> (length (digits_fuel f n) <= k)%nat.
Proof.
  revert n k; induction f as [|f IH]; intros n k Hk Hn; cbn [digits_fuel]; [cbn; lia|]. destruct (Z.ltb_spec n 10); [cbn; lia|].
  destruct k as [|[|k]]; [lia|change (10 ^ Z.of_nat 1) with 10 in Hn; lia|]. rewrite length_app. cbn [length].
  enough (length (digits_fuel f (n / 10)) <= S k)%nat by lia. apply IH; [lia|].
  rewrite Nat2Z.inj_succ, Z.pow_succ_r in Hn by lia. split; [apply Z.div_pos; lia|apply Z.div_lt_upper_bound; lia].
Qed.

(** A timestamp a row can hold, and a row id *)
Definition timestamp_ok (t : number) : Prop := number_ok t = true /\ is_finite t = true.

Definition rowid_ok (r : Z) : Prop := 0 <= r <= MAX_SAFE_INTEGER.

Lemma rowid_text r : rowid_ok r -> 58 ∉ dec r /\ matches (RPlus digit_class) (dec r) = true /\ zlen (dec r) <= 16 /\ number_of (dec r) = r.
Proof.
  intros [H1 H2]. pose proof (digits_digits r H1) as Hd. unfold dec. destruct (Z.ltb_spec r 0); [lia|]. repeat split.
  - intros Hin. pose proof (chars_of_digits _ Hd) as HF. unfold chars_of in HF. rewrite Forall_forall in HF. by specialize (HF _ Hin).
  - apply matches_lang, (lang_digits (digits r)); [done|]. apply digits_nonempty.
  - unfold zlen. rewrite length_map. enough (length (digits r) <= 16)%nat by lia. unfold digits. apply digits_fuel_length; [lia|].
    unfold MAX_SAFE_INTEGER in H2. split; [done|]. apply (Z.le_lt_trans _ (2 ^ 53 - 1)); [done|reflexivity].
  - unfold number_of. rewrite map_map, (map_ext _ id), map_id by (intros; unfold id; lia). by apply digits_value_digits.
Qed.

Lemma timestamp_chars s : matches TIMESTAMP s = true -> 58 ∉ s.
Proof.
  rewrite matches_lang. intros H Hin. cut (Forall (fun c => c <> 58) s); [intros HF; rewrite Forall_forall in HF; by apply (HF 58)|].
  assert (forall u, lang (RPlus digit_class) u -> Forall (fun c => c <> 58) u) as Hd.
  { intros u [_ Hu]%lang_plus_class. eapply Forall_impl; [exact Hu|]. cbn. intros c. lia. }
  assert (forall k u, k <> 58 -> lang (RChar k) u -> Forall (fun c => c <> 58) u) as Hc by (intros k u Hk ->%lang_char; by repeat constructor).
  unfold TIMESTAMP in H. rewrite !lang_seq in H. destruct H as (a & b & -> & Ha & (c & d & -> & Hcd & (e & f & -> & He & Hf)%lang_seq)%lang_seq).
  rewrite lang_opt in Ha, He, Hf. repeat apply Forall_app_2.
  - destruct Ha as [->|Ha]; [done|]. by apply (Hc 45).
  - by apply Hd.
  - destruct He as [->|(x & y & -> & Hx & Hy)%lang_seq]; [done|]. apply Forall_app_2; [by apply (Hc 46)|by apply Hd].
  - destruct Hf as [->|(x & y & -> & Hx & (z & w & -> & Hz & Hw)%lang_seq)%lang_seq]; [done|]. apply Forall_app_2; [by apply (Hc 101)|].
    apply Forall_app_2; [|by apply Hd]. apply lang_opt in Hz as [->|(k & -> & Hk)%lang_class]; [done|]. repeat constructor. intros ->. done.
Qed.

(** The text of a position reads back as the position. *)
Lemma position_read_back t r :
  timestamp_ok t -> rowid_ok r -> parseCursorPosition (print_number t ++ js ":" ++ dec r) = Some {| cp_timestamp := t; cp_rowid := Some r |}.
Proof.
  intros [Ht Hf] Hr. destruct (rowid_text r Hr) as (Hfree & Hm & Hl & Hv).
  pose proof (print_number_chars t Ht) as Hc. rewrite Forall_forall in Hc.
  assert (58 ∉ print_number t) as H58 by (intros H; apply Hc in H; unfold number_char in H; lia).
  destruct (parsed_timestamp (print_number t) t) as [Hmt Hnt].
  { rewrite <- (app_nil_r (print_number t)) at 1. by apply parse_print_number. }
  { intros H. apply Hc in H. unfold number_char in H. lia. }
  unfold parseCursorPosition. change (js ":" ++ dec r) with (58 :: dec r).
  destruct (matches TIMESTAMP (print_number t ++ 58 :: dec r)) eqn:E; [apply timestamp_chars in E; set_solver|].
  rewrite split_on_app, split_on_single by done. rewrite Hmt, Hm, Hnt, Hv. rewrite (proj2 (Z.leb_le _ _) Hl). cbn [andb]. rewrite option_bind_some || simpl.
  rewrite Hf. destruct Hr as [_ Hr]. apply Z.leb_le in Hr. by rewrite Hr.
Qed.

Lemma transcript_cursor_read_back c order :
  timestamp_ok (ps_timestamp c) -> rowid_ok (ps_rowid c) -> decodeTranscriptCursor (encodeTranscriptCursor c) order = Some c.
Proof. intros H1 H2. unfold decodeTranscriptCursor, encodeTranscriptCursor. rewrite position_read_back by done. by destruct c. Qed.

Lemma gallery_cursor_read_back c :
  timestamp_ok (gc_createdAt c) -> rowid_ok (gc_rowid c) -> decodeGalleryCursor (encodeGalleryCursor c) = Some c.
Proof.
  intros H1 H2. unfold decodeGalleryCursor, encodeGalleryCursor.
  assert (forall s u, source_prefix (source_text s ++ js ":" ++ u) = Some (s, u)) as Hp by (intros [] u; reflexivity).
  rewrite Hp, position_read_back by done. by destruct c.
Qed.

(** ** Pages of a transcript *)

Definition row_ok (r : message_row) : Prop := timestamp_ok (ps_timestamp (mr_at r)) /\ rowid_ok (ps_rowid (mr_at r)).

(** The rows of a table: each with a row id of its own *)
Definition table_ok (rows : list message_row) : Prop := Forall row_ok rows /\ NoDup (map (fun r => ps_rowid (mr_at r)) rows).

Lemma filter_filter {A} (p q : A -> bool) l : List.filter q (List.filter p l) = List.filter (fun x => p x && q x) l.
Proof. induction l as [|x l IH]; [done|]. cbn. destruct (p x); cbn; [by destruct (q x); rewrite IH|done]. Qed.

Lemma filter_all {A} (p : A -> bool) l : (forall x, x ∈ l -> p x = true) -> List.filter p l = l.
Proof. induction l as [|x l IH]; intros H; [done|]. cbn. rewrite (H x) by set_solver. f_equal. apply IH. intros y Hy. apply H. set_solver. Qed.

Lemma elem_of_filter_bool {A} (p : A -> bool) l x : x ∈ List.filter p l <-> x ∈ l /\ p x = true.
Proof. by rewrite !list_elem_of_In, filter_In. Qed.

(** Elements told apart by an image without repetition *)
Lemma image_injective {A B} (f : A -> B) l x y : NoDup (map f l) -> x ∈ l -> y ∈ l -> f x = f y -> x = y.
Proof.
  induction l as [|a l IH]; intros Hnd Hx Hy Hf; [set_solver|]. apply NoDup_cons in Hnd as [Hni Hnd].
  apply elem_of_cons in Hx as [->|Hx], Hy as [->|Hy]; [done|..|by apply IH]; destruct Hni; apply list_elem_of_fmap.
  - by exists y.
  - by exists x.
Qed.

(** *** How many pages there are *)

(** The pages of [n] rows: as many as hold them, and one if there is none *)
Definition page_count (limit n : nat) : nat := Nat.max 1 ((n + limit - 1) / limit).

Lemma page_count_last limit n : (1 <= limit)%nat -> (n <= limit)%nat -> page_count limit n = 1%nat.
Proof.
  intros Hl Hn. unfold page_count. assert ((n + limit - 1) / limit < 2)%nat by (apply Nat.Div0.div_lt_upper_bound; lia). lia.
Qed.

Lemma page_count_more limit n : (1 <= limit)%nat -> (limit < n)%nat -> page_count limit n = S (page_count limit (n - limit)).
Proof.
  intros Hl Hn. unfold page_count. replace (n + limit - 1)%nat with ((n - limit + limit - 1) + 1 * limit)%nat by lia. rewrite Nat.div_add by lia.
  assert (1 <= (n - limit + limit - 1) / limit)%nat by (apply Nat.div_le_lower_bound; lia). lia.
Qed.

(** Pages none of which is wasted: every one but the last is full, and there are as many as it takes. *)
Definition well_filled {A} (limit n : nat) (pages : list (list A)) : Prop :=
  length pages = page_count limit n
  /\ forall i page, pages !! i = Some page -> (length page <= limit)%nat /\ ((S i < length pages)%nat -> length page = limit).

Lemma well_filled_last {A} limit n (page : list A) : (1 <= limit)%nat -> (n <= limit)%nat -> (length page <= limit)%nat -> well_filled limit n [page].
Proof. intros Hl Hn Hp. split; [by rewrite page_count_last|]. intros [|i] p; cbn; [intros [= <-]; split; [done|lia]|done]. Qed.

Lemma well_filled_more {A} limit n (page : list A) pages :
  (1 <= limit)%nat -> (limit < n)%nat -> length page = limit -> well_filled limit (n - limit) pages -> well_filled limit n (page :: pages).
Proof.
  intros Hl Hn Hp [Hc Hall]. split; [cbn; by rewrite Hc, <- page_count_more|]. intros [|i] p; cbn; [intros [= <-]; by rewrite Hp|].
  intros Hi. destruct (Hall i p Hi). split; [done|]. intros ?. auto with lia.
Qed.

Section Transcript.
Variables (chatId : jstring) (order : MessagesOrder) (rows : list message_row).
Hypothesis (Hrows : table_ok rows).

Notation earlier := (fun x y => comes_before order (mr_at x) (mr_at y)).
Notation transcript := (transcript_query chatId order None rows).

Lemma rows_nodup : NoDup rows.
Proof. destruct Hrows as [_ H]. by eapply NoDup_fmap_1. Qed.

Lemma rows_untied : untied earlier rows.
Proof.
  intros x y Hx Hy H1 H2. apply (image_injective (fun r => ps_rowid (mr_at r)) rows); [apply Hrows|done|done|].
  destruct order; cbn in H1, H2; [by apply positions_trichotomy|]. symmetry. by apply positions_trichotomy.
Qed.

Lemma query_filters cursor :
  transcript_query chatId order cursor rows =
  List.filter (fun r => match cursor with Some c => comes_before order c (mr_at r) | None => true end) transcript.
Proof.
  unfold transcript_query. rewrite !(sorted_filter earlier) by (apply rows_nodup || apply rows_untied). rewrite filter_filter.
  apply List.filter_ext. intros r. by rewrite andb_true_r.
Qed.

Lemma transcript_in_order : StronglySorted (strictly earlier) transcript.
Proof.
  unfold transcript_query. rewrite (sorted_filter earlier) by (apply rows_nodup || apply rows_untied).
  eapply strictly_sublist; [apply filter_sublist|]. apply sorted_strictly; [apply _|apply rows_nodup|apply rows_untied].
Qed.

Lemma transcript_perm : transcript ≡ₚ List.filter (fun r => bool_decide (mr_chatId r = chatId)) rows.
Proof. unfold transcript_query. rewrite sorted_by_perm. apply Permutation_refl', List.filter_ext. intros r. by rewrite andb_true_r. Qed.

Lemma transcript_rows_ok : Forall row_ok transcript.
Proof. destruct Hrows as [H _]. rewrite Forall_forall in *. intros r Hr. apply H. rewrite transcript_perm, elem_of_filter_bool in Hr. tauto. Qed.

(** A page in the order of its query *)
Definition as_queried (page : list message_row) : list message_row := match order with mo_asc => page | mo_desc => reverse page end.

Lemma as_queried_back page : as_queried (match order with mo_asc => page | mo_desc => reverse page end) = page.
Proof. unfold as_queried. destruct order; [done|]. apply reverse_involutive. Qed.

(** The cursor that stands for what has been read *)
Definition read_up_to (done : list message_row) (cursor : option position) : Prop := cursor = mr_at <$> last done.

Lemma query_resumes done rest cursor : transcript = done ++ rest -> read_up_to done cursor -> transcript_query chatId order cursor rows = rest.
Proof.
  intros E ->. rewrite query_filters. pose proof transcript_in_order as Hs. rewrite E in *.
  destruct done as [|e done' _] using rev_ind; [by apply filter_all|]. rewrite last_snoc. cbn. rewrite <- app_assoc in *. by apply (filter_past earlier).
Qed.

Lemma pages_of_rest limit fuel done rest cursor :
  (1 <= limit)%nat -> transcript = done ++ rest -> read_up_to done cursor -> (length rest < fuel)%nat ->
  exists pages, transcript_pages fuel chatId order cursor limit rows = Some pages
    /\ concat (map as_queried pages) = rest /\ well_filled limit (length rest) pages.
Proof.
  intros Hlimit. revert done rest cursor; induction fuel as [|fuel IH]; intros done rest cursor E Hc Hf; [lia|].
  cbn [transcript_pages]. unfold listByChatId. rewrite (query_resumes done rest cursor E Hc).
  assert (forall page, length (match order with mo_asc => page | mo_desc => reverse page end : list message_row) = length page) as Hlen
    by (intros page; destruct order; [done|apply length_reverse]).
  destruct (Nat.ltb_spec limit (length (take (limit + 1) rest))) as [Hmore|Hend].
  - rewrite length_take in *. replace (limit + 1)%nat with (S limit) in * by lia. rewrite take_take.
    replace ((S limit `min` length rest - 1) `min` S limit)%nat with limit by lia.
    destruct (last (take limit rest)) as [edge|] eqn:Hl; [|apply last_None, (f_equal length) in Hl; rewrite length_take in Hl; cbn in Hl; lia].
    cbn [fmap option_fmap option_map]. assert (edge ∈ transcript) as Hin.
    { rewrite E. apply last_Some_elem_of in Hl. apply elem_of_take in Hl as (i & Hi & _). apply elem_of_app. right. by eapply list_elem_of_lookup_2. }
    pose proof transcript_rows_ok as Hok. rewrite Forall_forall in Hok. destruct (Hok _ Hin) as [Ht Hr].
    rewrite transcript_cursor_read_back by done. cbn [mbind option_bind].
    destruct (IH (done ++ take limit rest) (drop limit rest) (Some (mr_at edge))) as (pages & -> & Hcat & Hall).
    + by rewrite <- app_assoc, take_drop.
    + unfold read_up_to. by rewrite last_app, Hl.
    + rewrite length_drop. lia.
    + eexists. split; [done|]. split.
      * cbn [map concat]. by rewrite as_queried_back, Hcat, take_drop.
      * apply well_filled_more; [done|lia| |by rewrite length_drop in Hall]. rewrite Hlen, length_take. lia.
  - rewrite length_take in Hend. rewrite take_ge by lia. eexists. split; [done|]. split.
    + cbn [map concat]. by rewrite as_queried_back, app_nil_r.
    + apply well_filled_last; [done|lia|]. rewrite Hlen. lia.
Qed.
End Transcript.

Lemma strictly_reverse {A} (R : A -> A -> Prop) l : StronglySorted R l -> StronglySorted (flip R) (reverse l).
Proof.
  induction 1 as [|x l Hs IH Hx]; [constructor|]. rewrite reverse_cons. apply StronglySorted_app_2; [|done|repeat constructor].
  intros a b Ha Hb. rewrite elem_of_reverse in Ha. apply list_elem_of_singleton in Hb as ->. rewrite Forall_forall in Hx. by apply Hx.
Qed.

Lemma reverse_pages {A} (pages : list (list A)) : concat (reverse pages) = reverse (concat (map reverse pages)).
Proof.
  induction pages as [|p pages IH]; [done|]. cbn [map concat]. rewrite reverse_cons, concat_app, reverse_app, reverse_involutive, IH. cbn. by rewrite app_nil_r.
Qed.

(** C22: Reading a chat's transcript page after page, in either direction, ends and gives every row of the chat exactly once: for a limit of at
    least one, every page but the last is full and there are exactly as many pages as it takes to hold the chat's rows (one when there is none), so
    no page is asked for in vain; every cursor the server issues is one it reads
    back, and the pages laid side by side (last page first when the newest are read first) are the chat's rows in the order of time and row id. The
    rows have finite timestamps and row ids of their own, and do not change while they are read. *)
Theorem transcript_paged_whole chatId order limit rows :
  (1 <= limit)%nat -> table_ok rows ->
  exists pages, transcript_pages (S (length rows)) chatId order None limit rows = Some pages
    /\ well_filled limit (length (List.filter (fun r => bool_decide (mr_chatId r = chatId)) rows)) pages
    /\ (let read := concat (match order with mo_asc => pages | mo_desc => reverse pages end) in
        read ≡ₚ List.filter (fun r => bool_decide (mr_chatId r = chatId)) rows
        /\ StronglySorted (fun x y => before (mr_at x) (mr_at y) = true) read).
Proof.
  intros Hlimit Hrows. pose proof (transcript_perm chatId order rows) as Hperm. pose proof (transcript_in_order chatId order rows Hrows) as Hs.
  destruct (pages_of_rest chatId order rows Hrows limit (S (length rows)) [] (transcript_query chatId order None rows) None) as (pages & E & Hcat & Hall).
  1, 2, 3: done.
  { rewrite Hperm. pose proof (List.filter_length_le (fun r => bool_decide (mr_chatId r = chatId)) rows). lia. }
  exists pages. split; [done|]. split; [by rewrite <- Hperm|]. cbv zeta. destruct order.
  - change (as_queried mo_asc) with (fun p : list message_row => p) in Hcat. rewrite map_id in Hcat. by rewrite Hcat.
  - change (as_queried mo_desc) with (@reverse message_row) in Hcat. rewrite reverse_pages, Hcat. split; [by rewrite reverse_Permutation|].
    by apply (strictly_reverse (strictly (fun x y => comes_before mo_desc (mr_at x) (mr_at y)))).
Qed.

Definition sample_row (id : string) (at' r : Z) : message_row :=
  {| mr_id := js id; mr_chatId := js "c"; mr_at := {| ps_timestamp := num_of_Z at'; ps_rowid := r |} |}.

(** Three rows, two of them of one millisecond, read newest first two at a time *)
Definition sample_rows : list message_row := [sample_row "a" 5 1; sample_row "c" 7 3; sample_row "b" 5 2].

Example sample_pages : transcript_pages 4 (js "c") mo_desc None 2 sample_rows = Some [[sample_row "b" 5 2; sample_row "c" 7 3]; [sample_row "a" 5 1]].
Proof. vm_compute. reflexivity. Qed.

Lemma transcript_paged_whole_witness :
  exists pages, transcript_pages 4 (js "c") mo_desc None 2 sample_rows = Some pages
    /\ well_filled 2 3 pages
    /\ concat (reverse pages) ≡ₚ List.filter (fun r => bool_decide (mr_chatId r = js "c")) sample_rows
    /\ StronglySorted (fun x y => before (mr_at x) (mr_at y) = true) (concat (reverse pages)).
Proof.
  apply (transcript_paged_whole (js "c") mo_desc 2 sample_rows); [lia|]. split.
  - repeat constructor; vm_compute; (reflexivity || discriminate).
  - apply (bool_decide_unpack _). vm_compute. exact I.
Defined.
