(* ===== verification/GalleryFacts.v ===== *)
(** * Facts about the gallery: merging the pages of two tables loses and repeats nothing. *)

From Stdlib Require Import QArith.
From stdpp Require Import sorting.
From S2P Require Import Prelude Json Paging PagingFacts.
Local Open Scope Z_scope.

(** ** Merging the heads of two lists in one order *)

Section Merge.
Context {A : Type} `{!EqDecision A} (lt : A -> A -> bool) `{!StrictWeak lt} (p : A -> bool).

Lemma filter_take_prefix n (l : list A) : exists k, List.filter p (take n l) = take k (List.filter p l) /\ (k <= n)%nat.
Proof.
  revert n; induction l as [|x l IH]; intros [|n]; cbn; [by exists 0%nat; split; [|lia]..|].
  destruct (IH n) as (k & E & Hk). destruct (p x); [exists (S k); cbn; rewrite E; split; [done|lia]|exists k; split; [done|lia]].
Qed.

Lemma elem_of_take_filter n (l : list A) x : x ∈ take n l -> p x = true -> x ∈ take n (List.filter p l).
Proof.
  intros Hx Hp. assert (x ∈ List.filter p (take n l)) as H by by apply elem_of_filter_bool.
  destruct (filter_take_prefix n l) as (k & E & Hk). rewrite E in H. apply elem_of_take in H as (i & Hi & Hik).
  apply elem_of_take. exists i. split; [done|lia].
Qed.

Lemma take_filter_sub n r (l : list A) x : x ∈ take n (List.filter r l) -> x ∈ l /\ r x = true.
Proof. intros Hx. apply elem_of_filter_bool. eapply sublist_subseteq; [apply sublist_take|exact Hx]. Qed.
End Merge.

(** The first [n] elements of a list are the first [n] of its two halves' first [n], sorted together. *)
Lemma merged_heads {A} `{!EqDecision A} (lt : A -> A -> bool) `{!StrictWeak lt} (p : A -> bool) n (l : list A) :
  StronglySorted (strictly lt) l ->
  exists more, sorted_by lt (take n (List.filter p l) ++ take n (List.filter (fun x => negb (p x)) l)) = take n l ++ more
    /\ sublist more (drop n l).
Proof.
  intros Hl. assert (NoDup l) as Hnd by by apply (strictly_nodup lt).
  set (heads := take n (List.filter p l) ++ take n (List.filter (fun x => negb (p x)) l)).
  assert (NoDup heads) as Hnh.
  { assert (forall r, NoDup (take n (List.filter r l))) as Hn.
    { intros r. eapply sublist_NoDup; [exact Hnd|]. etrans; [apply sublist_take|apply filter_sublist]. }
    apply NoDup_app. split; [apply Hn|]. split; [|apply Hn].
    intros x [_ H1]%take_filter_sub [_ H2]%take_filter_sub. by rewrite H1 in H2. }
  assert (forall x, x ∈ heads -> x ∈ l) as Hsub by (intros x [[? _]%take_filter_sub|[? _]%take_filter_sub]%elem_of_app; done).
  assert (forall x, x ∈ take n l -> x ∈ heads) as Hfirst.
  { intros x Hx. apply elem_of_app. destruct (p x) eqn:Hp; [left|right]; apply elem_of_take_filter; [done|done|done|by rewrite Hp]. }
  set (inside := fun x => bool_decide (x ∈ heads)). exists (List.filter inside (drop n l)). split; [|apply filter_sublist].
  assert (take n l ++ List.filter inside (drop n l) = List.filter inside l) as ->.
  { rewrite <- (take_drop n l) at 3. rewrite List.filter_app. f_equal. symmetry. apply filter_all. intros x Hx. by apply bool_decide_eq_true, Hfirst. }
  apply sorted_by_unique; [done|by eapply strictly_sublist; [apply filter_sublist|]|].
  apply NoDup_Permutation; [eapply sublist_NoDup; [exact Hnd|apply filter_sublist]|done|]. intros x. rewrite elem_of_filter_bool. unfold inside.
  rewrite bool_decide_eq_true. naive_solver.
Qed.

Lemma dedupe_distinct seen l : NoDup (map galleryItemKey l) -> (forall e, e ∈ l -> galleryItemKey e ∉ seen) -> dedupe seen l = l.
Proof.
  revert seen; induction l as [|e l IH]; intros seen Hnd Hseen; [done|]. apply NoDup_cons in Hnd as [Hni Hnd]. cbn.
  rewrite bool_decide_eq_false_2 by (apply Hseen; set_solver). f_equal. apply IH; [done|]. intros e' He' [Hk|Hk]%elem_of_cons.
  - destruct Hni. apply list_elem_of_fmap. exists e'. by rewrite Hk.
  - revert Hk. apply Hseen. set_solver.
Qed.

(** ** Pages of the gallery *)

Global Instance gallery_cursor_eq_dec : EqDecision GalleryCursor.
Proof. solve_decision. Defined.

Global Instance gallery_entry_eq_dec : EqDecision GalleryEntry.
Proof. solve_decision. Defined.

Definition entry_ok (e : GalleryEntry) : Prop := timestamp_ok (gc_createdAt (ge_at e)) /\ 0 <= gc_rowid (ge_at e) < MAX_SAFE_INTEGER.

(** The entries of both tables: a row id occurs once in its table, and no image is listed twice for a message *)
Definition gallery_ok (table : list GalleryEntry) : Prop :=
  Forall entry_ok table /\ NoDup (map (fun e => (gc_source (ge_at e), gc_rowid (ge_at e))) table) /\ NoDup (map galleryItemKey table).

Notation newer := (fun x y => gallery_before (ge_at x) (ge_at y)).

Global Instance newer_strict : StrictWeak newer.
Proof. apply (strict_along ge_at gallery_before), gallery_strict. Qed.

Global Instance newest_first_strict : StrictWeak (fun x y => before (entry_position y) (entry_position x)).
Proof. apply (strict_flip (fun x y => before (entry_position x) (entry_position y))), (strict_along entry_position before), before_strict. Qed.

(** What a query keeps of one source is what the merged order puts past the cursor. *)
Lemma ceiling_exact c e :
  entry_ok e -> 0 <= gc_rowid c < MAX_SAFE_INTEGER ->
  before (entry_position e) {| ps_timestamp := gc_createdAt c; ps_rowid := tiedRowidCeiling (gc_source (ge_at e)) c |} = gallery_before c (ge_at e).
Proof.
  intros [_ He] Hc. apply eq_true_iff_eq. rewrite before_spec, gallery_before_spec. cbn [entry_position ps_timestamp ps_rowid]. unfold tiedRowidCeiling.
  assert (gc_rowid (ge_at e) < (if SOURCE_RANK (gc_source (ge_at e)) <? SOURCE_RANK (gc_source c) then 0
      else if SOURCE_RANK (gc_source c) <? SOURCE_RANK (gc_source (ge_at e)) then MAX_SAFE_INTEGER else gc_rowid c)
    <-> SOURCE_RANK (gc_source c) < SOURCE_RANK (gc_source (ge_at e)) \/ gc_source c = gc_source (ge_at e) /\ gc_rowid (ge_at e) < gc_rowid c) as ->.
  { destruct (gc_source (ge_at e)), (gc_source c); cbn; (split; [intros ?|intros [?|[? ?]]]); first [done | lia | left; lia | right; split; [done|lia]]. }
  split; (intros [H|[H ?]]; [by left|right; split; [by symmetry|done]]).
Qed.

Section Gallery.
Variable (table : list GalleryEntry).
Hypothesis (Htable : gallery_ok table).

Notation gallery := (sorted_by newer table).

Lemma table_nodup : NoDup table.
Proof. destruct Htable as (_ & H & _). by eapply NoDup_fmap_1. Qed.

Lemma table_untied : untied newer table.
Proof.
  intros x y Hx Hy H1 H2. apply (image_injective (fun e => (gc_source (ge_at e), gc_rowid (ge_at e))) table); [apply Htable|done|done|]. clear Hx Hy.
  rewrite <- not_true_iff_false, gallery_before_spec in H1, H2.
  destruct (q_cases (num_value (gc_createdAt (ge_at x))) (num_value (gc_createdAt (ge_at y)))) as [H|[H|H]]; [destruct H2; by left| |destruct H1; by left].
  assert (~ (SOURCE_RANK (gc_source (ge_at x)) < SOURCE_RANK (gc_source (ge_at y))
    \/ gc_source (ge_at x) = gc_source (ge_at y) /\ gc_rowid (ge_at y) < gc_rowid (ge_at x))) as G1 by (intros ?; apply H1; by right).
  assert (~ (SOURCE_RANK (gc_source (ge_at y)) < SOURCE_RANK (gc_source (ge_at x))
    \/ gc_source (ge_at y) = gc_source (ge_at x) /\ gc_rowid (ge_at x) < gc_rowid (ge_at y))) as G2 by (intros ?; apply H2; right; by split; [symmetry|]).
  destruct (gc_source (ge_at x)), (gc_source (ge_at y)); cbn in *; try lia; f_equal;
    (destruct (Z.lt_trichotomy (gc_rowid (ge_at x)) (gc_rowid (ge_at y))) as [?|[?|?]]; [|done|]; exfalso; [apply G2|apply G1]; by right).
Qed.

Lemma gallery_in_order : StronglySorted (strictly newer) gallery.
Proof. apply sorted_strictly; [apply _|apply table_nodup|apply table_untied]. Qed.

Lemma gallery_entry e : e ∈ gallery -> entry_ok e.
Proof. destruct Htable as [H _]. rewrite Forall_forall in H. intros He. apply H. by rewrite sorted_by_perm in He. Qed.

(** The entries of one source in the merged order are in the order of their query. *)
Lemma one_source_in_order s l :
  (forall e, e ∈ l -> gc_source (ge_at e) = s) -> StronglySorted (strictly newer) l ->
  StronglySorted (strictly (fun x y => before (entry_position y) (entry_position x))) l.
Proof.
  intros Hs. induction 1 as [|x l Hl IH Hx]; constructor; [apply IH; intros e He; apply Hs; set_solver|].
  rewrite Forall_forall in *. intros y Hy. specialize (Hx y Hy). unfold strictly in *. rewrite gallery_before_spec in Hx. rewrite before_spec. cbn.
  assert (gc_source (ge_at x) = gc_source (ge_at y)) as E by (rewrite !Hs by set_solver; done). rewrite E in Hx.
  destruct Hx as [Hx|[Hx [H|[_ H]]]]; [by left|lia|]. right. by split; [symmetry|].
Qed.

Lemma list_source_exact s cursor limit done rest :
  gallery = done ++ rest -> cursor = ge_at <$> last done ->
  list_source s cursor limit table = take (limit + 1) (List.filter (fun e => bool_decide (gc_source (ge_at e) = s)) rest).
Proof.
  intros E ->. unfold list_source. f_equal. pose proof gallery_in_order as Hs.
  assert (List.filter (fun e => bool_decide (gc_source (ge_at e) = s)) rest = List.filter (fun e => bool_decide (gc_source (ge_at e) = s)
      && match ge_at <$> last done with
         | Some c => before (entry_position e) {| ps_timestamp := gc_createdAt c; ps_rowid := tiedRowidCeiling s c |}
         | None => true end) gallery) as ->.
  { destruct done as [|b done' _] using rev_ind.
    { rewrite E. apply List.filter_ext. intros e. by rewrite andb_true_r. }
    rewrite last_snoc. cbn. rewrite <- app_assoc in E. cbn in E. rewrite E in Hs. apply (filter_past newer) in Hs. rewrite <- Hs at 1. rewrite <- E, filter_filter.
    apply filter_ext_in. intros e He%list_elem_of_In. destruct (decide (gc_source (ge_at e) = s)) as [<-|Hn].
    - rewrite bool_decide_eq_true_2, andb_true_r by done. cbn. symmetry. apply ceiling_exact; [by apply gallery_entry|].
      apply (gallery_entry b). rewrite E. set_solver.
    - by rewrite bool_decide_eq_false_2, andb_false_r. }
  apply sorted_by_unique; [apply _|..].
  - apply (one_source_in_order s); [intros e [_ He]%elem_of_filter_bool; bool_to_prop; done|]. by eapply strictly_sublist; [apply filter_sublist|].
  - apply filter_perm, sorted_by_perm.
Qed.
Lemma gallery_read_back e : entry_ok e -> decodeGalleryCursor (encodeGalleryCursor (ge_at e)) = Some (ge_at e).
Proof. intros [H1 H2]. apply gallery_cursor_read_back; [done|]. unfold rowid_ok. lia. Qed.

Lemma cursor_decoded done rest :
  gallery = done ++ rest ->
  match (fun e => encodeGalleryCursor (ge_at e)) <$> last done with None => Some None | Some s => Some <$> decodeGalleryCursor s end = Some (ge_at <$> last done).
Proof.
  intros E. destruct (last done) as [e|] eqn:Hl; [|done]. cbn. rewrite gallery_read_back; [done|]. apply gallery_entry. rewrite E. apply last_Some_elem_of in Hl. set_solver.
Qed.

Lemma keys_of_part l : NoDup l -> (forall e, e ∈ l -> e ∈ table) -> NoDup (map galleryItemKey l).
Proof.
  destruct Htable as (_ & _ & Hk). intros Hnd Hsub. induction Hnd as [|e l Hni Hnd IH]; [constructor|]. cbn. constructor; [|apply IH; set_solver].
  intros (e' & He & Hin)%list_elem_of_fmap. destruct Hni. replace e with e'; [done|]. apply (image_injective galleryItemKey table); [done|set_solver..|done].
Qed.

(** A page is the next entries of the merged order. *)
Lemma listGallery_exact limit done rest :
  gallery = done ++ rest ->
  listGallery ((fun e => encodeGalleryCursor (ge_at e)) <$> last done) limit table =
  Some (take limit rest, if (limit <? length rest)%nat then (fun e => encodeGalleryCursor (ge_at e)) <$> last (take limit rest) else None).
Proof.
  intros E. unfold listGallery. rewrite (cursor_decoded done rest E). cbn [mbind option_bind].
  rewrite !(list_source_exact _ _ limit done rest E eq_refl).
  assert (StronglySorted (strictly newer) rest) as Hrest.
  { pose proof gallery_in_order as Hs. rewrite E in Hs. eapply strictly_sublist; [|exact Hs]. by apply sublist_inserts_l. }
  rewrite (List.filter_ext (fun e => bool_decide (gc_source (ge_at e) = gs_message)) (fun e => negb (bool_decide (gc_source (ge_at e) = gs_artifact))))
    by (intros e; by destruct (gc_source (ge_at e))).
  destruct (merged_heads newer (fun e => bool_decide (gc_source (ge_at e) = gs_artifact)) (limit + 1) rest Hrest) as (more & -> & Hmore).
  unfold dedupeEntries. rewrite dedupe_distinct.
  - assert (take limit (take (limit + 1) rest ++ more) = take limit rest /\ (limit <? length (take (limit + 1) rest ++ more))%nat = (limit <? length rest)%nat) as [-> ->]; [|done].
    destruct (Nat.le_gt_cases (length rest) limit) as [Hle|Hgt].
    + rewrite drop_ge in Hmore by lia. apply sublist_nil_r in Hmore as ->. rewrite app_nil_r, take_take, Nat.min_l by lia. split; [done|]. by rewrite (take_ge rest (limit + 1)) by lia.
    + rewrite take_app_le by (rewrite length_take; lia). rewrite take_take, Nat.min_l by lia. split; [done|].
      rewrite length_app, length_take. transitivity true; [apply Nat.ltb_lt; lia|symmetry; apply Nat.ltb_lt; lia].
  - assert (sublist (take (limit + 1) rest ++ more) rest) as Hsub by (rewrite <- (take_drop (limit + 1) rest) at 2; by apply sublist_app).
    apply keys_of_part; [eapply sublist_NoDup; [|exact Hsub]; by apply (strictly_nodup newer)|]. intros e He. eapply sublist_subseteq in He; [|exact Hsub].
    rewrite <- (sorted_by_perm newer table), E. set_solver.
  - intros e _. apply not_elem_of_nil.
Qed.

Lemma gallery_rest limit fuel done rest :
  (1 <= limit)%nat -> gallery = done ++ rest -> (length rest < fuel)%nat ->
  exists pages, gallery_pages fuel ((fun e => encodeGalleryCursor (ge_at e)) <$> last done) limit table = Some pages
    /\ concat pages = rest /\ well_filled limit (length rest) pages.
Proof.
  intros Hlimit. revert done rest; induction fuel as [|fuel IH]; intros done rest E Hf; [lia|].
  cbn [gallery_pages]. rewrite (listGallery_exact limit done rest E). cbn [mbind option_bind].
  assert (length (take limit rest) <= limit)%nat as Hpage by (rewrite length_take; lia).
  destruct (Nat.ltb_spec limit (length rest)) as [Hmore|Hend].
  - destruct (last (take limit rest)) as [edge|] eqn:Hl; [|apply last_None, (f_equal length) in Hl; rewrite length_take in Hl; cbn in Hl; lia].
    destruct (IH (done ++ take limit rest) (drop limit rest)) as (pages & Hpages & Hcat & Hall).
    + by rewrite <- app_assoc, take_drop.
    + rewrite length_drop. lia.
    + rewrite last_app, Hl in Hpages. cbn in Hpages |- *. rewrite Hpages. eexists. split; [done|].
      split; [cbn; by rewrite Hcat, take_drop|]. apply well_filled_more; [done|done|rewrite length_take; lia|by rewrite length_drop in Hall].
  - eexists. split; [done|]. rewrite take_ge by lia. split; [cbn; by rewrite app_nil_r|]. by apply well_filled_last.
Qed.
End Gallery.

(** C23: Reading the gallery page after page ends and shows every image of both tables exactly once, newest first: for a limit of at least one, when row
    ids are told apart within each table, timestamps are finite and no image is stored twice for one message, every page but the last is full and there are exactly as
    many pages as it takes to hold the entries (one when there is none), and the pages in a row are all the entries in the one order of creation time, table and row id,
    although each page is cut from two queries of two tables that only compare their own rows with the cursor. The tables do not change while they are read. *)
Theorem gallery_paged_whole limit table :
  (1 <= limit)%nat -> gallery_ok table ->
  exists pages, gallery_pages (S (length table)) None limit table = Some pages
    /\ well_filled limit (length table) pages
    /\ concat pages ≡ₚ table /\ StronglySorted (fun x y => gallery_before (ge_at x) (ge_at y) = true) (concat pages).
Proof.
  intros Hlimit Htable. pose proof (sorted_by_perm (fun x y => gallery_before (ge_at x) (ge_at y)) table) as Hp.
  destruct (gallery_rest table Htable limit (S (length table)) [] _ Hlimit eq_refl) as (pages & E & Hcat & Hall); [rewrite Hp; lia|].
  exists pages. rewrite Hcat. split; [exact E|]. split; [by rewrite Hp in Hall|]. split; [done|]. by apply gallery_in_order.
Qed.

Definition sample_entry (message url : string) (s : GallerySource) (at' r : Z) : GalleryEntry :=
  {| ge_messageId := js message; ge_imageUrl := js url; ge_at := {| gc_createdAt := num_of_Z at'; gc_source := s; gc_rowid := r |} |}.

(** Four images of two tables, three of one millisecond *)
Definition sample_gallery : list GalleryEntry :=
  [sample_entry "m1" "u1" gs_message 5 8; sample_entry "m2" "u2" gs_artifact 5 3; sample_entry "m2" "u3" gs_artifact 5 4; sample_entry "m3" "u4" gs_message 9 2].

Lemma gallery_paged_whole_witness :
  exists pages, gallery_pages 5 None 2 sample_gallery = Some pages
    /\ well_filled 2 4 pages
    /\ concat pages ≡ₚ sample_gallery /\ StronglySorted (fun x y => gallery_before (ge_at x) (ge_at y) = true) (concat pages).
Proof.
  apply (gallery_paged_whole 2 sample_gallery); [lia|]. split; [|split].
  - repeat constructor; vm_compute; (reflexivity || discriminate).
  - apply (bool_decide_unpack _). vm_compute. exact I.
  - apply (bool_decide_unpack _). vm_compute. exact I.
Defined.

(** An image stored twice for one message hides what comes after it: duplicates are dropped before the page is compared with the limit, so the page
    looks like the last one. *)
Definition doubled_gallery : list GalleryEntry :=
  [sample_entry "m1" "u1" gs_artifact 9 3; sample_entry "m1" "u1" gs_artifact 9 2; sample_entry "m2" "u2" gs_artifact 5 1].

Example a_double_ends_the_gallery :
  gallery_pages 5 None 1 doubled_gallery = Some [[sample_entry "m1" "u1" gs_artifact 9 3]].
Proof. vm_compute. reflexivity. Qed.
