(* ===== verification/V4aPatch.v ===== *)
(** * The patches an agent writes

    [apps/api/src/services/tools/builtin/_v4a-patch.ts]: the parser of the context patches the [apply_patch] tool takes. Where the code moves a cursor over
    an array of lines, the definitions walk the lines that are left; an error is its line and which of the messages it carries. *)

From S2P Require Import Prelude Wire Ssh.
Local Open Scope Z_scope.

Definition BEGIN_PATCH : jstring := js "*** Begin Patch".
Definition END_PATCH : jstring := js "*** End Patch".
Definition ADD_FILE : jstring := js "*** Add File:".
Definition UPDATE_FILE : jstring := js "*** Update File:".
Definition DELETE_FILE : jstring := js "*** Delete File:".
Definition MOVE_TO : jstring := js "*** Move to:".

Inductive LineEnding : Type := le_none | le_lf | le_crlf.

Record RawPatchLine : Type := { ln_number : Z; ln_text : jstring; ln_ending : LineEnding }.

Inductive hunk_line_type : Type := hl_context | hl_add | hl_delete.

Record V4aHunkLine : Type := { hk_type : hunk_line_type; hk_content : jstring; hk_ending : LineEnding; hk_lineNumber : Z }.

Record V4aUpdateHunk : Type := { uh_marker : option jstring; uh_lines : list V4aHunkLine; uh_lineNumber : Z }.

Inductive V4aPatchOperation : Type :=
| V4aAdd (path content : jstring) (lineNumber : Z)
| V4aDelete (path : jstring) (lineNumber : Z)
| V4aUpdate (path : jstring) (moveTo : option jstring) (hunks : list V4aUpdateHunk) (lineNumber : Z).

(** The messages of [V4aPatchParseError] *)
Inductive patch_problem : Type :=
| pp_expected_begin | pp_after_end | pp_no_operations | pp_expected_operation | pp_missing_end | pp_added_line | pp_empty_marker | pp_hunk_header
| pp_update_line | pp_empty_update | pp_empty_hunk | pp_unchanged_hunk | pp_requires_path (prefix : jstring).

Record V4aPatchParseError : Type := { pe_lineNumber : Z; pe_problem : patch_problem }.

Notation parsed := (outcome V4aPatchParseError).

Definition parse_error {A} (lineNumber : Z) (problem : patch_problem) : parsed A := Err {| pe_lineNumber := lineNumber; pe_problem := problem |}.

(** ** Lines *)

Definition ending_text (e : LineEnding) : jstring := match e with le_none => [] | le_lf => [10] | le_crlf => [13; 10] end.

(** A line up to its line feed, at the carriage return before it if there is one *)
Definition ended_line (number : Z) (text : jstring) : RawPatchLine :=
  match last text with
  | Some 13 => {| ln_number := number; ln_text := take (length text - 1) text; ln_ending := le_crlf |}
  | _ => {| ln_number := number; ln_text := text; ln_ending := le_lf |}
  end.

(** The lines of the input past [text], which is what line [number] has so far *)
Fixpoint lines_from (number : Z) (text : jstring) (input : jstring) : list RawPatchLine :=
  match input with
  | [] => match text with [] => [] | _ => [{| ln_number := number; ln_text := text; ln_ending := le_none |}] end
  | u :: input => if u =? 10 then ended_line number text :: lines_from (number + 1) [] input else lines_from number (text ++ [u]) input
  end.

Definition splitPatchLines (input : jstring) : list RawPatchLine :=
  match input with [] => [{| ln_number := 1; ln_text := []; ln_ending := le_none |}] | _ => lines_from 1 [] input end.

Definition isControlLine (line : jstring) : bool := starts_with (js "*** ") line.

Definition parseHeaderPath (line : RawPatchLine) (prefix : jstring) : parsed jstring :=
  match trim (drop (length prefix) (ln_text line)) with
  | [] => parse_error (ln_number line) (pp_requires_path prefix)
  | path => Ok path
  end.

(** ** Added files *)

(** The content of the lines up to the next control line, and the lines from there *)
Fixpoint added_content (lines : list RawPatchLine) : parsed (jstring * list RawPatchLine) :=
  match lines with
  | [] => Ok ([], [])
  | line :: rest =>
      if isControlLine (ln_text line) then Ok ([], lines)
      else if starts_with (js "+") (ln_text line) then
        '(content, rest) ← added_content rest;
        Ok (drop 1 (ln_text line) ++ ending_text (ln_ending line) ++ content, rest)
      else parse_error (ln_number line) pp_added_line
  end.

Definition parseAddOperation (header : RawPatchLine) (lines : list RawPatchLine) : parsed (V4aPatchOperation * list RawPatchLine) :=
  '(content, rest) ← added_content lines;
  path ← parseHeaderPath header ADD_FILE;
  Ok (V4aAdd path content (ln_number header), rest).

(** ** Updated files *)

Definition changes (l : V4aHunkLine) : bool := match hk_type l with hl_context => false | _ => true end.

Definition finishHunk (hunk : V4aUpdateHunk) : parsed V4aUpdateHunk :=
  match uh_lines hunk with
  | [] => parse_error (uh_lineNumber hunk) pp_empty_hunk
  | lines => if existsb changes lines then Ok hunk else parse_error (uh_lineNumber hunk) pp_unchanged_hunk
  end.

Definition finish_current (current : option V4aUpdateHunk) (hunks : list V4aUpdateHunk) : parsed (list V4aUpdateHunk) :=
  match current with Some hunk => hunk ← finishHunk hunk; Ok (hunks ++ [hunk]) | None => Ok hunks end.

Definition line_type (text : jstring) : option hunk_line_type :=
  match text with 32 :: _ => Some hl_context | 43 :: _ => Some hl_add | 45 :: _ => Some hl_delete | _ => None end.

Definition push_line (l : V4aHunkLine) (current : option V4aUpdateHunk) : V4aUpdateHunk :=
  match current with
  | Some h => {| uh_marker := uh_marker h; uh_lines := uh_lines h ++ [l]; uh_lineNumber := uh_lineNumber h |}
  | None => {| uh_marker := None; uh_lines := [l]; uh_lineNumber := hk_lineNumber l |}
  end.

(** The loop over the lines of an update: its hunks and the lines from the next control line *)
Fixpoint update_hunks (lines : list RawPatchLine) (current : option V4aUpdateHunk) (hunks : list V4aUpdateHunk) :
    parsed (list V4aUpdateHunk * list RawPatchLine) :=
  match lines with
  | [] => hunks ← finish_current current hunks; Ok (hunks, [])
  | line :: rest =>
      if isControlLine (ln_text line) then hunks ← finish_current current hunks; Ok (hunks, lines)
      else if bool_decide (ln_text line = js "@@") || starts_with (js "@@ ") (ln_text line) then
        hunks ← finish_current current hunks;
        if bool_decide (ln_text line = js "@@ ") then parse_error (ln_number line) pp_empty_marker
        else
          let marker := if bool_decide (ln_text line = js "@@") then None else Some (drop 3 (ln_text line)) in
          update_hunks rest (Some {| uh_marker := marker; uh_lines := []; uh_lineNumber := ln_number line |}) hunks
      else if starts_with (js "@@") (ln_text line) then parse_error (ln_number line) pp_hunk_header
      else
        match line_type (ln_text line) with
        | None => parse_error (ln_number line) pp_update_line
        | Some type =>
            let l := {| hk_type := type; hk_content := drop 1 (ln_text line); hk_ending := ln_ending line; hk_lineNumber := ln_number line |} in
            update_hunks rest (Some (push_line l current)) hunks
        end
  end.

(** [*** Move to:], when it stands right after the header *)
Definition move_line (lines : list RawPatchLine) : parsed (option jstring * list RawPatchLine) :=
  match lines with
  | line :: rest => if starts_with MOVE_TO (ln_text line) then path ← parseHeaderPath line MOVE_TO; Ok (Some path, rest) else Ok (None, lines)
  | [] => Ok (None, [])
  end.

Definition parseUpdateOperation (header : RawPatchLine) (lines : list RawPatchLine) : parsed (V4aPatchOperation * list RawPatchLine) :=
  '(moveTo, lines) ← move_line lines;
  '(hunks, rest) ← update_hunks lines None [];
  match hunks, moveTo with
  | [], None => parse_error (ln_number header) pp_empty_update
  | _, _ => path ← parseHeaderPath header UPDATE_FILE; Ok (V4aUpdate path moveTo hunks (ln_number header), rest)
  end.

(** ** Documents *)

(** The main loop; [total] is the number of lines of the document. Every operation takes its header, so the number of lines is fuel enough. *)
Fixpoint parse_operations (fuel : nat) (total : Z) (operations : list V4aPatchOperation) (lines : list RawPatchLine) : parsed (list V4aPatchOperation) :=
  match fuel, lines with
  | O, _ | _, [] => parse_error (total + 1) pp_missing_end
  | S fuel, line :: rest =>
      if bool_decide (ln_text line = END_PATCH) then
        match rest with
        | next :: _ => parse_error (ln_number next) pp_after_end
        | [] => match operations with [] => parse_error (ln_number line) pp_no_operations | _ => Ok operations end
        end
      else if starts_with ADD_FILE (ln_text line) then
        '(operation, rest) ← parseAddOperation line rest; parse_operations fuel total (operations ++ [operation]) rest
      else if starts_with UPDATE_FILE (ln_text line) then
        '(operation, rest) ← parseUpdateOperation line rest; parse_operations fuel total (operations ++ [operation]) rest
      else if starts_with DELETE_FILE (ln_text line) then
        path ← parseHeaderPath line DELETE_FILE; parse_operations fuel total (operations ++ [V4aDelete path (ln_number line)]) rest
      else parse_error (ln_number line) pp_expected_operation
  end.

Definition parseV4aPatch (patch : jstring) : parsed (list V4aPatchOperation) :=
  let lines := splitPatchLines patch in
  match lines with
  | first :: rest =>
      if bool_decide (ln_text first = BEGIN_PATCH) then parse_operations (length lines) (zlen lines) [] rest else parse_error 1 pp_expected_begin
  | [] => parse_error 1 pp_expected_begin
  end.
