(* ===== verification/V4aPatchFacts.v ===== *)
(** * Facts about patches: the parser accepts exactly the documents of the format, and its lines are the text. *)

From S2P Require Import Prelude Wire Ssh PathContainment V4aPatch.
Local Open Scope Z_scope.

(** ** The lines are the text *)

Definition line_source (l : RawPatchLine) : jstring := ln_text l ++ ending_text (ln_ending l).

Lemma ended_line_source n text : line_source (ended_line n text) = text ++ [10].
Proof.
  unfold line_source, ended_line. destruct text as [|u text _] using rev_ind; [done|]. rewrite last_snoc.
  destruct (decide (u = 13)) as [->|Hu].
  - cbn [ln_text ln_ending ending_text]. rewrite length_app. cbn [length]. rewrite Nat.add_sub, take_app_length, <- app_assoc. done.
  - assert (match u with 13 => {| ln_number := n; ln_text := take (length (text ++ [u]) - 1) (text ++ [u]); ln_ending := le_crlf |}
      | _ => {| ln_number := n; ln_text := text ++ [u]; ln_ending := le_lf |} end = {| ln_number := n; ln_text := text ++ [u]; ln_ending := le_lf |}) as ->; [|done].
    repeat case_match; done.
Qed.

Lemma lines_from_source n text input : concat (map line_source (lines_from n text input)) = text ++ input.
Proof.
  revert n text; induction input as [|u input IH]; intros n text; cbn [lines_from].
  - destruct text; [done|]. cbn. by rewrite !app_nil_r.
  - destruct (Z.eqb_spec u 10) as [->|_].
    + cbn [map concat]. rewrite ended_line_source, IH. by rewrite <- app_assoc.
    + rewrite IH. by rewrite <- app_assoc.
Qed.

Lemma split_source input : concat (map line_source (splitPatchLines input)) = input.
Proof. destruct input as [|u input]; [done|]. apply lines_from_source. Qed.

(** ** The format *)

Section Format.
Implicit Types (l h m : RawPatchLine) (lines body : list RawPatchLine).

(** A header and the path after it *)
Definition names_path (prefix : jstring) (h : RawPatchLine) (path : jstring) : Prop := exists t, ln_text h = prefix ++ t /\ path = trim t /\ path <> [].

(** A line of an added file and what it adds *)
Definition added_line (l : RawPatchLine) (added : jstring) : Prop := exists t, ln_text l = 43 :: t /\ added = t ++ ending_text (ln_ending l).

Definition type_char (t : hunk_line_type) : Z := match t with hl_context => 32 | hl_add => 43 | hl_delete => 45 end.

(** A line of a hunk: its type's character and its content *)
Definition hunk_line (l : RawPatchLine) (k : V4aHunkLine) : Prop :=
  ln_text l = type_char (hk_type k) :: hk_content k /\ hk_ending k = ln_ending l /\ hk_lineNumber k = ln_number l.

(** The lines of a hunk: some, and one of them is no context *)
Definition hunk_body (body : list RawPatchLine) (ks : list V4aHunkLine) : Prop := Forall2 hunk_line body ks /\ existsb changes ks = true.

Definition marker_line (m : RawPatchLine) (marker : option jstring) : Prop :=
  match marker with None => ln_text m = js "@@" | Some t => t <> [] /\ ln_text m = js "@@ " ++ t end.

Inductive headed_hunks : list RawPatchLine -> list V4aUpdateHunk -> Prop :=
| headed_nil : headed_hunks [] []
| headed_cons m marker body ks lines hunks :
    marker_line m marker -> hunk_body body ks -> headed_hunks lines hunks ->
    headed_hunks (m :: body ++ lines) ({| uh_marker := marker; uh_lines := ks; uh_lineNumber := ln_number m |} :: hunks).

(** The hunks of an update: the first may stand without a marker *)
Inductive update_body : list RawPatchLine -> list V4aUpdateHunk -> Prop :=
| body_headed lines hunks : headed_hunks lines hunks -> update_body lines hunks
| body_bare l body ks lines hunks :
    hunk_body (l :: body) ks -> headed_hunks lines hunks ->
    update_body (l :: body ++ lines) ({| uh_marker := None; uh_lines := ks; uh_lineNumber := ln_number l |} :: hunks).

(** A move to another path, or nothing *)
Inductive moves : list RawPatchLine -> option jstring -> Prop :=
| moves_not : moves [] None
| moves_to m path : names_path MOVE_TO m path -> moves [m] (Some path).

(** The lines of one file operation *)
Inductive patch_section : list RawPatchLine -> V4aPatchOperation -> Prop :=
| section_add h path body added :
    names_path ADD_FILE h path -> Forall2 added_line body added -> patch_section (h :: body) (V4aAdd path (concat added) (ln_number h))
| section_delete h path : names_path DELETE_FILE h path -> patch_section [h] (V4aDelete path (ln_number h))
| section_update h path mv moveTo body hunks :
    names_path UPDATE_FILE h path -> moves mv moveTo -> update_body body hunks -> (hunks <> [] \/ moveTo <> None) ->
    patch_section (h :: mv ++ body) (V4aUpdate path moveTo hunks (ln_number h)).

(** A document: the operations' lines, one after the other, between its first and its last line *)
Definition patch_document (lines : list RawPatchLine) (operations : list V4aPatchOperation) : Prop :=
  exists b sections e, lines = b :: concat sections ++ [e] /\ ln_text b = BEGIN_PATCH /\ ln_text e = END_PATCH
    /\ Forall2 patch_section sections operations /\ operations <> [].
End Format.

(** ** Single lines *)

Lemma starts_with_app p t : starts_with p (p ++ t) = true.
Proof. apply starts_with_spec. by exists t. Qed.

Lemma parse_path_exact h prefix path : starts_with prefix (ln_text h) = true -> parseHeaderPath h prefix = Ok path <-> names_path prefix h path.
Proof.
  intros [t E]%starts_with_spec. unfold parseHeaderPath, names_path. rewrite E, drop_app_length. split.
  - destruct (trim t) as [|u s] eqn:Ht; [done|]. intros [= <-]. exists t. by rewrite Ht.
  - intros (t' & Et & -> & Hne). apply app_inv_head in Et as <-. by destruct (trim t).
Qed.

Lemma names_path_starts prefix h path : names_path prefix h path -> starts_with prefix (ln_text h) = true.
Proof. intros (t & -> & _). apply starts_with_app. Qed.

(** The first lines after which a body has ended *)
Definition at_control (rest : list RawPatchLine) : Prop := match rest with [] => True | l :: _ => isControlLine (ln_text l) = true end.

Lemma no_control u t : u <> 42 -> isControlLine (u :: t) = false.
Proof. intros H. apply not_true_iff_false. intros [k E]%starts_with_spec. by injection E as ->. Qed.

Lemma names_path_control prefix h path : isControlLine prefix = true -> names_path prefix h path -> isControlLine (ln_text h) = true.
Proof. intros [k ->]%starts_with_spec (t & -> & _). apply starts_with_spec. rewrite <- app_assoc. by eexists. Qed.

(** ** Added files *)

Lemma added_content_exact lines content rest :
  added_content lines = Ok (content, rest) <-> exists body added, lines = body ++ rest /\ Forall2 added_line body added /\ content = concat added /\ at_control rest.
Proof.
  revert content; induction lines as [|l lines IH]; intros content; cbn [added_content].
  - split; [intros [= <- <-]; by exists [], []|]. intros (body & added & E & HF & -> & _). destruct body, rest; try done. by inversion HF.
  - destruct (isControlLine (ln_text l)) eqn:Hc.
    + split; [intros [= <- <-]; by exists [], []|]. intros ([|l' body] & added & E & HF & -> & _); [inversion HF; by rewrite E|].
      injection E as <- _. inversion HF as [|? ? ? ? (t & Ht & _)]; subst. rewrite Ht, no_control in Hc; done.
    + destruct (starts_with (js "+") (ln_text l)) eqn:Hp.
      * apply starts_with_spec in Hp as [t Ht]. change (js "+" ++ t) with (43 :: t) in Ht. rewrite bind_ok. split.
        -- intros ([c r] & E & [= <- <-]). apply IH in E as (body & added & -> & HF & -> & Hr). exists (l :: body), ((t ++ ending_text (ln_ending l)) :: added).
           split; [done|]. split; [constructor; [by exists t|done]|]. split; [|done]. rewrite Ht. cbn. by rewrite <- app_assoc.
        -- intros ([|l' body] & added & E & HF & -> & Hr); [destruct rest; [done|]; injection E as <- _; unfold at_control in Hr; by rewrite Hc in Hr|].
           injection E as <- ->. inversion HF as [|? a ? added' (t' & Ht' & ->) HF']; subst. exists (concat added', rest). split; [apply IH; by exists body, added'|].
           rewrite Ht'. cbn. by rewrite <- app_assoc.
      * split; [done|]. intros ([|l' body] & added & E & HF & -> & Hr); [destruct rest; [done|]; injection E as <- _; unfold at_control in Hr; by rewrite Hc in Hr|].
        injection E as <- _. inversion HF as [|? ? ? ? (t & Ht & _)]; subst. by rewrite Ht in Hp.
Qed.

(** ** Updated files *)

Lemma finish_exact h h' : finishHunk h = Ok h' <-> h' = h /\ existsb changes (uh_lines h) = true.
Proof.
  unfold finishHunk. destruct (uh_lines h) as [|k ks]; [split; [done|by intros [_ ?]]|]. destruct (existsb changes (k :: ks)); split; [by intros [= <-]|by intros [-> _]|done|by intros [_ ?]].
Qed.

Definition with_lines (c : V4aUpdateHunk) (ks : list V4aHunkLine) : V4aUpdateHunk :=
  {| uh_marker := uh_marker c; uh_lines := uh_lines c ++ ks; uh_lineNumber := uh_lineNumber c |}.

Definition hunk_line_of (l : RawPatchLine) (type : hunk_line_type) : V4aHunkLine :=
  {| hk_type := type; hk_content := drop 1 (ln_text l); hk_ending := ln_ending l; hk_lineNumber := ln_number l |}.

Lemma line_type_exact text type : line_type text = Some type <-> exists t, text = type_char type :: t.
Proof.
  split; [|intros [t ->]; by destruct type]. unfold line_type. repeat case_match; try done; intros [= <-]; by eexists.
Qed.

Lemma hunk_line_exact l k : hunk_line l k <-> line_type (ln_text l) = Some (hk_type k) /\ k = hunk_line_of l (hk_type k).
Proof.
  rewrite line_type_exact. unfold hunk_line, hunk_line_of. split.
  - intros (E & H1 & H2). split; [by eexists|]. rewrite E. destruct k; cbn in *. by subst.
  - intros [[t E] ->]. cbn in *. by rewrite E.
Qed.

(** What the loop does at a line of a hunk and at a marker *)
Lemma step_hunk_line l k rest current hunks : hunk_line l k -> update_hunks (l :: rest) current hunks = update_hunks rest (Some (push_line k current)) hunks.
Proof.
  intros Hk. pose proof Hk as [Ht Ek]%hunk_line_exact. apply line_type_exact in Ht as Ht'. destruct Ht' as [t E]. cbn [update_hunks].
  rewrite E at 1. rewrite no_control by (by destruct (hk_type k)).
  rewrite bool_decide_eq_false_2 by (rewrite E; destruct (hk_type k); discriminate).
  assert (forall p, starts_with (64 :: p) (ln_text l) = false) as Hs.
  { intros p. apply not_true_iff_false. intros [q Hq]%starts_with_spec. rewrite E in Hq. by destruct (hk_type k). }
  change (js "@@ ") with [64; 64; 32]. change (js "@@") with [64; 64]. rewrite !Hs. cbn [orb]. rewrite Ht. by rewrite Ek.
Qed.

Lemma step_marker m marker rest current hunks :
  marker_line m marker ->
  update_hunks (m :: rest) current hunks =
  (hunks ← finish_current current hunks; update_hunks rest (Some {| uh_marker := marker; uh_lines := []; uh_lineNumber := ln_number m |}) hunks).
Proof.
  intros Hm. cbn [update_hunks]. destruct marker as [t|]; unfold marker_line in Hm.
  - destruct Hm as [Hne E]. rewrite E. change (js "@@ " ++ t) with (64 :: 64 :: 32 :: t). rewrite no_control by done.
    assert (starts_with (js "@@ ") (64 :: 64 :: 32 :: t) = true) as -> by (apply (starts_with_app (js "@@ "))).
    rewrite orb_true_r. rewrite (bool_decide_eq_false_2 (64 :: 64 :: 32 :: t = js "@@ ")) by (intros [= ->]; done).
    rewrite (bool_decide_eq_false_2 (64 :: 64 :: 32 :: t = js "@@")) by discriminate. done.
  - rewrite Hm. change (js "@@") with [64; 64]. rewrite no_control by done. rewrite bool_decide_eq_true_2 by done. cbn [orb].
    rewrite bool_decide_eq_false_2 by discriminate. done.
Qed.

Lemma step_control rest current hunks : at_control rest -> update_hunks rest current hunks = (hunks ← finish_current current hunks; Ok (hunks, rest)).
Proof. destruct rest as [|l rest]; [done|]. cbn [update_hunks at_control]. by intros ->. Qed.

Lemma loop_body body ks rest c hunks :
  Forall2 hunk_line body ks -> update_hunks (body ++ rest) (Some c) hunks = update_hunks rest (Some (with_lines c ks)) hunks.
Proof.
  intros HF. revert c. induction HF as [|l k body ks Hk HF IH]; intros c; cbn [app].
  - unfold with_lines. rewrite app_nil_r. by destruct c.
  - rewrite (step_hunk_line _ _ _ _ _ Hk), IH. unfold with_lines. cbn. by rewrite <- app_assoc.
Qed.

Lemma finish_some c hunks : existsb changes (uh_lines c) = true -> finish_current (Some c) hunks = Ok (hunks ++ [c]).
Proof. intros H. cbn. by rewrite (proj2 (finish_exact c c)). Qed.

Lemma loop_headed lines new rest c hunks :
  headed_hunks lines new -> at_control rest -> existsb changes (uh_lines c) = true ->
  update_hunks (lines ++ rest) (Some c) hunks = Ok (hunks ++ c :: new, rest).
Proof.
  intros Hh Hr. revert c hunks. induction Hh as [|m marker body ks lines new Hm [HF Hch] Hh IH]; intros c hunks Hc.
  - cbn [app]. rewrite step_control, finish_some by done. done.
  - cbn [app]. rewrite <- app_assoc, (step_marker _ _ _ _ _ Hm), finish_some by done. cbn [mbind outcome_bind].
    rewrite (loop_body _ _ _ _ _ HF), IH by done. cbn. by rewrite <- app_assoc.
Qed.

Lemma loop_accepts lines hunks rest : update_body lines hunks -> at_control rest -> update_hunks (lines ++ rest) None [] = Ok (hunks, rest).
Proof.
  intros Hb Hr. inversion Hb as [? ? Hh|l body ks lines' hunks' [HF Hc] Hh]; subst; clear Hb.
  - inversion Hh as [|m marker body ks lines' new Hm [HF Hc] Hh']; subst; [by apply step_control|]. cbn [app].
    rewrite <- app_assoc, (step_marker _ _ _ _ _ Hm). cbn [finish_current mbind outcome_bind].
    rewrite (loop_body _ _ _ _ _ HF), (loop_headed _ _ _ _ _ Hh' Hr) by done. done.
  - inversion HF as [|? k ? ks' Hk HF']; subst. cbn [app]. rewrite <- app_assoc, (step_hunk_line _ _ _ _ _ Hk), (loop_body _ _ _ _ _ HF').
    rewrite (loop_headed _ _ _ _ _ Hh Hr) by done. destruct Hk as (_ & _ & Hn). cbn. by rewrite Hn.
Qed.

(** Where the loop goes on, the line is one of a hunk or a marker. *)
Lemma loop_line l rest current hunks out :
  update_hunks (l :: rest) current hunks = Ok out -> isControlLine (ln_text l) = false -> (exists k, hunk_line l k) \/ exists marker, marker_line l marker.
Proof.
  cbn [update_hunks]. intros H Hc. rewrite Hc in H. destruct (bool_decide (ln_text l = js "@@")) eqn:H1.
  { right. exists None. by bool_to_prop. }
  destruct (starts_with (js "@@ ") (ln_text l)) eqn:H2.
  - cbn [orb] in H. apply bind_ok in H as (hs & _ & H). destruct (bool_decide (ln_text l = js "@@ ")) eqn:H3; [done|]. bool_to_prop.
    apply starts_with_spec in H2 as [t E]. right. exists (Some t). split; [|done]. intros ->. by rewrite app_nil_r in E.
  - cbn [orb] in H. destruct (starts_with (js "@@") (ln_text l)); [done|]. destruct (line_type (ln_text l)) as [type|] eqn:Ht; [|done].
    left. exists (hunk_line_of l type). by apply hunk_line_exact.
Qed.

Lemma finish_current_exact current hunks out :
  finish_current current hunks = Ok out <-> match current with None => out = hunks | Some c => out = hunks ++ [c] /\ existsb changes (uh_lines c) = true end.
Proof.
  destruct current as [c|]; cbn; [|split; [by intros [= ->]|by intros ->]]. rewrite bind_ok. split.
  - intros (h & [-> Hc]%finish_exact & [= <-]). done.
  - intros [-> Hc]. exists c. split; [by apply finish_exact|done].
Qed.

Lemma loop_current lines c hunks out rest :
  update_hunks lines (Some c) hunks = Ok (out, rest) ->
  exists body ks more new, lines = body ++ more ++ rest /\ Forall2 hunk_line body ks /\ existsb changes (uh_lines c ++ ks) = true
    /\ headed_hunks more new /\ at_control rest /\ out = hunks ++ with_lines c ks :: new.
Proof.
  assert (forall c, with_lines c [] = c) as Hw by (intros []; unfold with_lines; cbn; by rewrite app_nil_r).
  revert c hunks; induction lines as [|l lines IH]; intros c hunks H.
  - cbn [update_hunks] in H. apply bind_ok in H as (hs & [-> Hc]%finish_current_exact & [= <- <-]).
    exists [], [], [], []. rewrite Hw, (app_nil_r (uh_lines c)). split_and!; done || constructor.
  - destruct (isControlLine (ln_text l)) eqn:Hl.
    { rewrite step_control in H by done. apply bind_ok in H as (hs & [-> Hc]%finish_current_exact & [= <- <-]).
      exists [], [], [], []. rewrite Hw, (app_nil_r (uh_lines c)). split_and!; done || constructor. }
    destruct (loop_line _ _ _ _ _ H Hl) as [[k Hk]|[marker Hm]].
    + rewrite (step_hunk_line _ _ _ _ _ Hk) in H. apply IH in H as (body & ks & more & new & -> & HF & Hc & Hh & Hr & ->).
      exists (l :: body), (k :: ks), more, new. split; [done|]. split; [by constructor|]. cbn in Hc. rewrite <- app_assoc in Hc. split; [done|].
      split; [done|]. split; [done|]. do 2 f_equal. unfold with_lines. cbn. by rewrite <- app_assoc.
    + rewrite (step_marker _ _ _ _ _ Hm) in H. apply bind_ok in H as (hs & [-> Hc]%finish_current_exact & H).
      apply IH in H as (body & ks & more & new & -> & HF & Hc' & Hh & Hr & ->).
      exists [], [], (l :: body ++ more), ({| uh_marker := marker; uh_lines := ks; uh_lineNumber := ln_number l |} :: new). rewrite Hw, (app_nil_r (uh_lines c)).
      split; [cbn; by rewrite <- app_assoc|]. split; [constructor|]. split; [done|]. split; [by constructor|]. split; [done|]. by rewrite <- app_assoc.
Qed.

Lemma update_hunks_exact lines hunks rest :
  update_hunks lines None [] = Ok (hunks, rest) <-> exists body, lines = body ++ rest /\ update_body body hunks /\ at_control rest.
Proof.
  split; [|intros (body & -> & Hb & Hr); by apply loop_accepts]. intros H. destruct lines as [|l lines].
  { injection H as <- <-. exists []. repeat constructor. }
  destruct (isControlLine (ln_text l)) eqn:Hl.
  { rewrite step_control in H by done. injection H as <- <-. exists []. repeat constructor. done. }
  destruct (loop_line _ _ _ _ _ H Hl) as [[k Hk]|[marker Hm]].
  - rewrite (step_hunk_line _ _ _ _ _ Hk) in H. apply loop_current in H as (body & ks & more & new & -> & HF & Hc & Hh & Hr & ->).
    exists (l :: body ++ more). split; [cbn; by rewrite <- app_assoc|]. split; [|done]. pose proof Hk as (_ & _ & Hn).
    unfold with_lines. cbn. rewrite Hn. apply (body_bare l body (k :: ks)); [|done]. split; [by constructor|done].
  - rewrite (step_marker _ _ _ _ _ Hm) in H. cbn [finish_current mbind outcome_bind] in H.
    apply loop_current in H as (body & ks & more & new & -> & HF & Hc & Hh & Hr & ->).
    exists (l :: body ++ more). split; [cbn; by rewrite <- app_assoc|]. split; [|done]. apply body_headed. by constructor.
Qed.

(** ** Operations and documents *)

Lemma body_not_move body hunks rest l lines :
  update_body body hunks -> hunks <> [] -> body ++ rest = l :: lines -> starts_with MOVE_TO (ln_text l) = false.
Proof.
  intros Hb Hne E. apply not_true_iff_false. intros [t Ht]%starts_with_spec.
  assert (forall u s, ln_text l = u :: s -> u = 42) as Hu by (intros u s Hs; rewrite Hs in Ht; by injection Ht).
  inversion Hb as [? ? Hh|? ? ? ? ? [HF _] _]; subst.
  - inversion Hh as [|m marker ? ? ? ? Hm]; subst; [done|]. injection E as -> _. destruct marker as [s|]; [destruct Hm as [_ Hm]|]; by apply Hu in Hm.
  - injection E as -> _. inversion HF as [|? k ? ? (Hk & _)]; subst. apply Hu in Hk. by destruct (hk_type k).
Qed.

Lemma move_line_sound lines moveTo rest : move_line lines = Ok (moveTo, rest) -> exists mv, lines = mv ++ rest /\ moves mv moveTo.
Proof.
  destruct lines as [|l lines]; cbn [move_line]; [intros [= <- <-]; by exists []; repeat constructor|].
  destruct (starts_with MOVE_TO (ln_text l)) eqn:Hs; [|intros [= <- <-]; by exists []; repeat constructor].
  rewrite bind_ok. intros (path & Hp & [= <- <-]). exists [l]. split; [done|]. constructor. by apply parse_path_exact.
Qed.

Lemma move_line_accepts mv moveTo body hunks rest :
  moves mv moveTo -> update_body body hunks -> hunks <> [] \/ moveTo <> None -> move_line (mv ++ body ++ rest) = Ok (moveTo, body ++ rest).
Proof.
  intros Hm Hb Hne. inversion Hm as [|m path Hp]; subst; cbn [app].
  - destruct Hne as [Hne|]; [|done]. destruct (body ++ rest) as [|l lines] eqn:E; [done|]. cbn [move_line]. by rewrite (body_not_move _ _ _ _ _ Hb Hne E).
  - cbn [move_line]. rewrite (names_path_starts _ _ _ Hp). apply (parse_path_exact m MOVE_TO path) in Hp as ->; [done|]. by eapply names_path_starts.
Qed.

Lemma update_operation_exact h lines op rest :
  starts_with UPDATE_FILE (ln_text h) = true ->
  parseUpdateOperation h lines = Ok (op, rest) <->
  exists path mv moveTo body hunks, lines = mv ++ body ++ rest /\ names_path UPDATE_FILE h path /\ moves mv moveTo /\ update_body body hunks
    /\ (hunks <> [] \/ moveTo <> None) /\ at_control rest /\ op = V4aUpdate path moveTo hunks (ln_number h).
Proof.
  intros Hh. unfold parseUpdateOperation. rewrite bind_ok. split.
  - intros ([moveTo lines'] & (mv & -> & Hmv)%move_line_sound & H). apply bind_ok in H as ([hunks rest'] & (body & -> & Hb & Hr)%update_hunks_exact & H).
    assert (hunks <> [] \/ moveTo <> None) as Hne by (destruct hunks, moveTo; [by right|done|by left..]).
    assert (exists path, parseHeaderPath h UPDATE_FILE = Ok path /\ Ok (V4aUpdate path moveTo hunks (ln_number h), rest') = Ok (op, rest) :> parsed _) as (path & Hp & [= <- <-]).
    { destruct hunks, moveTo; [|by destruct Hne|..]; by apply bind_ok in H. }
    apply parse_path_exact in Hp; [|done]. by exists path, mv, moveTo, body, hunks.
  - intros (path & mv & moveTo & body & hunks & -> & Hp & Hmv & Hb & Hne & Hr & ->). exists (moveTo, body ++ rest). split; [by eapply move_line_accepts|].
    rewrite (loop_accepts body hunks rest Hb Hr). cbn [mbind outcome_bind]. apply parse_path_exact in Hp; [|done]. rewrite Hp. destruct hunks, moveTo; [done|by destruct Hne|done..].
Qed.

Lemma add_operation_exact h lines op rest :
  starts_with ADD_FILE (ln_text h) = true ->
  parseAddOperation h lines = Ok (op, rest) <->
  exists path body added, lines = body ++ rest /\ names_path ADD_FILE h path /\ Forall2 added_line body added /\ at_control rest
    /\ op = V4aAdd path (concat added) (ln_number h).
Proof.
  intros Hh. unfold parseAddOperation. rewrite bind_ok. split.
  - intros ([content rest'] & (body & added & -> & HF & -> & Hr)%added_content_exact & H). apply bind_ok in H as (path & Hp & [= <- <-]).
    apply parse_path_exact in Hp; [|done]. by exists path, body, added.
  - intros (path & body & added & -> & Hp & HF & Hr & ->). exists (concat added, rest). split; [apply added_content_exact; by exists body, added|].
    apply parse_path_exact in Hp; [|done]. by rewrite Hp.
Qed.

(** The headers exclude each other and the end of the document. *)
Lemma header_kinds t :
  (ADD_FILE ++ t <> END_PATCH /\ UPDATE_FILE ++ t <> END_PATCH /\ DELETE_FILE ++ t <> END_PATCH)
  /\ starts_with ADD_FILE (UPDATE_FILE ++ t) = false /\ starts_with ADD_FILE (DELETE_FILE ++ t) = false /\ starts_with UPDATE_FILE (DELETE_FILE ++ t) = false.
Proof. split_and!; [discriminate..|reflexivity|reflexivity|reflexivity]. Qed.

Lemma section_step section op fuel total ops rest :
  patch_section section op -> at_control rest -> parse_operations (S fuel) total ops (section ++ rest) = parse_operations fuel total (ops ++ [op]) rest.
Proof.
  intros Hs Hr. inversion Hs as [h path body added Hp HF|h path Hp|h path mv moveTo body hunks Hp Hmv Hb Hne]; subst; cbn [app parse_operations];
    pose proof (names_path_starts _ _ _ Hp) as Hstart; pose proof Hp as (t & Ht & _); destruct (header_kinds t) as ((N1 & N2 & N3) & K1 & K2 & K3); rewrite Ht in *.
  - rewrite bool_decide_eq_false_2, Hstart by done. rewrite (proj2 (add_operation_exact h (body ++ rest) (V4aAdd path (concat added) (ln_number h)) rest ltac:(by rewrite Ht)));
      [done|]. by exists path, body, added.
  - rewrite bool_decide_eq_false_2, K2, K3, Hstart by done. apply parse_path_exact in Hp; [|by rewrite Ht]. by rewrite Hp.
  - rewrite bool_decide_eq_false_2, K1, Hstart by done. rewrite <- app_assoc.
    rewrite (proj2 (update_operation_exact h (mv ++ body ++ rest) (V4aUpdate path moveTo hunks (ln_number h)) rest ltac:(by rewrite Ht))); [done|].
    by exists path, mv, moveTo, body, hunks.
Qed.

Lemma section_control section op rest : patch_section section op -> at_control (section ++ rest).
Proof. inversion 1; subst; cbn [app at_control]; (eapply names_path_control; [|eassumption]); reflexivity. Qed.

Lemma sections_control sections ops rest : Forall2 patch_section sections ops -> at_control rest -> at_control (concat sections ++ rest).
Proof. intros HF Hr. destruct HF as [|section op sections ops Hs HF]; [done|]. cbn [concat]. rewrite <- app_assoc. by eapply section_control. Qed.

Lemma operations_accept sections new e total fuel ops :
  Forall2 patch_section sections new -> ln_text e = END_PATCH -> ops ++ new <> [] -> (length (concat sections) < fuel)%nat ->
  parse_operations fuel total ops (concat sections ++ [e]) = Ok (ops ++ new).
Proof.
  intros HF He. revert fuel ops. induction HF as [|section op sections new Hs HF IH]; intros fuel ops Hne Hf.
  - destruct fuel as [|fuel]; [lia|]. cbn [concat app parse_operations]. rewrite bool_decide_eq_true_2 by done. rewrite app_nil_r in *. by destruct ops.
  - destruct fuel as [|fuel]; [lia|]. cbn [concat] in *. rewrite <- app_assoc, (section_step _ _ _ _ _ _ Hs).
    + rewrite IH; [by rewrite <- app_assoc|by rewrite <- app_assoc|]. rewrite length_app in Hf. assert (0 < length section)%nat by (inversion Hs; subst; cbn; lia). lia.
    + eapply sections_control; [done|]. cbn. by rewrite He.
Qed.

Lemma operations_sound fuel total ops lines out :
  parse_operations fuel total ops lines = Ok out ->
  exists sections new e, lines = concat sections ++ [e] /\ ln_text e = END_PATCH /\ Forall2 patch_section sections new /\ out = ops ++ new /\ out <> [].
Proof.
  revert ops lines. induction fuel as [|fuel IH]; intros ops lines H; [by destruct lines|]. destruct lines as [|l lines]; [done|]. cbn [parse_operations] in H.
  assert (forall section op rest, l :: lines = section ++ rest -> patch_section section op -> parse_operations fuel total (ops ++ [op]) rest = Ok out ->
    exists sections new e, l :: lines = concat sections ++ [e] /\ ln_text e = END_PATCH /\ Forall2 patch_section sections new /\ out = ops ++ new /\ out <> []) as Hnext.
  { intros section op rest E Hs (sections & new & e & -> & He & HF & -> & Hne)%IH. exists (section :: sections), (op :: new), e.
    rewrite E. cbn [concat]. split_and!; [by rewrite <- app_assoc|done|by constructor|by rewrite <- app_assoc|done]. }
  destruct (bool_decide (ln_text l = END_PATCH)) eqn:He.
  { bool_to_prop. destruct lines; [|done]. destruct ops as [|op ops]; [done|]. injection H as <-. exists [], [], l. rewrite app_nil_r. by split_and!. }
  destruct (starts_with ADD_FILE (ln_text l)) eqn:Ha.
  { apply bind_ok in H as ([op rest] & (path & body & added & -> & Hp & HF & Hr & ->)%add_operation_exact & H); [|done]. eapply (Hnext (l :: body)); [done| |exact H]. by constructor. }
  destruct (starts_with UPDATE_FILE (ln_text l)) eqn:Hu.
  { apply bind_ok in H as ([op rest] & (path & mv & moveTo & body & hunks & -> & Hp & Hmv & Hb & Hne & Hr & ->)%update_operation_exact & H); [|done].
    eapply (Hnext (l :: mv ++ body)); [cbn; by rewrite <- app_assoc| |exact H]. by constructor. }
  destruct (starts_with DELETE_FILE (ln_text l)) eqn:Hd; [|done].
  apply bind_ok in H as (path & Hp & H). apply parse_path_exact in Hp; [|done]. eapply (Hnext [l]); [done| |exact H]. by constructor.
Qed.

Lemma document_exact patch operations : parseV4aPatch patch = Ok operations <-> patch_document (splitPatchLines patch) operations.
Proof.
  unfold parseV4aPatch, patch_document. destruct (splitPatchLines patch) as [|b rest]; [split; [done|]; by intros (? & ? & ? & ? & _)|]. split.
  - destruct (bool_decide (ln_text b = BEGIN_PATCH)) eqn:Hb; [|done]. bool_to_prop.
    intros (sections & new & e & -> & He & HF & -> & Hne)%operations_sound. by exists b, sections, e.
  - intros (b' & sections & e & [= <- ->] & Hb & He & HF & Hne). rewrite bool_decide_eq_true_2 by done. apply (operations_accept sections operations e _ _ []); [done|done|done|].
    cbn [length]. rewrite length_app. lia.
Qed.

(** ** Texts *)

(** A text cut into numbered lines: none contains a line feed, a carriage return before one belongs to the ending, only the last may lack an ending *)
Inductive lined : Z -> list RawPatchLine -> Prop :=
| lined_nil n : lined n []
| lined_last n text : text <> [] -> 10 ∉ text -> lined n [{| ln_number := n; ln_text := text; ln_ending := le_none |}]
| lined_lf n text lines : 10 ∉ text -> last text <> Some 13 -> lined (n + 1) lines -> lined n ({| ln_number := n; ln_text := text; ln_ending := le_lf |} :: lines)
| lined_crlf n text lines : 10 ∉ text -> lined (n + 1) lines -> lined n ({| ln_number := n; ln_text := text; ln_ending := le_crlf |} :: lines).

Lemma ended_line_plain n text : last text <> Some 13 -> ended_line n text = {| ln_number := n; ln_text := text; ln_ending := le_lf |}.
Proof. unfold ended_line. intros H. repeat case_match; done. Qed.

Lemma ended_line_crlf n text : ended_line n (text ++ [13]) = {| ln_number := n; ln_text := text; ln_ending := le_crlf |}.
Proof. unfold ended_line. rewrite last_snoc, length_app. cbn [length]. by rewrite Nat.add_sub, take_app_length. Qed.

Lemma lines_from_lined n text input : 10 ∉ text -> lined n (lines_from n text input).
Proof.
  revert n text; induction input as [|u input IH]; intros n text Ht; cbn [lines_from].
  - destruct text; [constructor|]. by constructor.
  - destruct (Z.eqb_spec u 10) as [->|Hu]; [|apply IH; rewrite elem_of_app, list_elem_of_singleton; naive_solver].
    assert (lined (n + 1) (lines_from (n + 1) [] input)) as Hl by (apply IH, not_elem_of_nil).
    destruct (decide (last text = Some 13)) as [Hc|Hc]; [|rewrite ended_line_plain by done; by constructor].
    destruct text as [|c text _] using rev_ind; [done|]. rewrite last_snoc in Hc. injection Hc as ->. rewrite ended_line_crlf. constructor; [|done]. set_solver.
Qed.

Lemma lines_from_past n text more rest : 10 ∉ more -> lines_from n text (more ++ rest) = lines_from n (text ++ more) rest.
Proof.
  revert text; induction more as [|u more IH]; intros text Hm; [by rewrite app_nil_r|]. apply not_elem_of_cons in Hm as [Hu Hm]. cbn [app lines_from].
  destruct (Z.eqb_spec u 10); [done|]. rewrite IH by done. by rewrite <- app_assoc.
Qed.

Lemma lines_from_printed n lines : lined n lines -> lines_from n [] (concat (map line_source lines)) = lines.
Proof.
  induction 1 as [n|n text Hne Ht|n text lines Ht Hl Hs IH|n text lines Ht Hs IH]; cbn [map concat]; try unfold line_source at 1; cbn [ln_text ln_ending ending_text].
  - done.
  - rewrite !app_nil_r. rewrite <- (app_nil_r text) at 1. rewrite lines_from_past by done. cbn. by destruct text.
  - rewrite <- app_assoc, lines_from_past by done. cbn. by rewrite IH, ended_line_plain.
  - rewrite <- app_assoc, lines_from_past by done. cbn [app lines_from Z.eqb Pos.eqb]. by rewrite IH, ended_line_crlf.
Qed.

(** C24: A patch is read exactly: the parser accepts a text and gives its operations if and only if the text, cut into numbered lines at line feeds with
    a carriage return before one left to the ending, is a document of the format: a first and a last line, and between them the lines of one or more
    operations, where every line of an added file, every hunk line with its ending, every marker and every path stands in the operations and nothing else
    does. The grammar is written as the concatenation of sections, so the parser finds the one way to cut them, and needs no more steps than there are lines. *)
Theorem patch_read_exactly patch operations :
  parseV4aPatch patch = Ok operations <-> exists lines, patch = concat (map line_source lines) /\ lined 1 lines /\ patch_document lines operations.
Proof.
  rewrite document_exact. split.
  - destruct patch as [|u patch]; [intros (b & sections & e & E & _); injection E as _ E; by destruct (concat sections)|]. intros H. exists (splitPatchLines (u :: patch)). split_and!; [|apply lines_from_lined, not_elem_of_nil|done].
    symmetry. apply split_source.
  - intros (lines & -> & Hl & Hd). enough (splitPatchLines (concat (map line_source lines)) = lines) as -> by done. unfold splitPatchLines.
    rewrite (lines_from_printed 1 lines Hl). destruct (concat (map line_source lines)) eqn:E; [|done].
    destruct Hd as (b & sections & e & -> & Hb & _). cbn in E. unfold line_source in E. by rewrite Hb in E.
Qed.

(** A document of three operations with both kinds of line ending *)
Example sample_patch :
  parseV4aPatch (js "*** Begin Patch" ++ [10] ++ js "*** Delete File: old.ts" ++ [10] ++ js "*** Update File: a.ts " ++ [13; 10] ++ js "*** Move to: b.ts" ++ [10]
    ++ js "@@ main" ++ [10] ++ js " x" ++ [13; 10] ++ js "-y" ++ [10] ++ js "*** Add File: c" ++ [10] ++ js "++z" ++ [10] ++ js "*** End Patch")
  = Ok [V4aDelete (js "old.ts") 2;
        V4aUpdate (js "a.ts") (Some (js "b.ts"))
          [{| uh_marker := Some (js "main");
              uh_lines := [{| hk_type := hl_context; hk_content := js "x"; hk_ending := le_crlf; hk_lineNumber := 6 |};
                           {| hk_type := hl_delete; hk_content := js "y"; hk_ending := le_lf; hk_lineNumber := 7 |}];
              uh_lineNumber := 5 |}] 3;
        V4aAdd (js "c") (js "+z" ++ [10]) 8].
Proof. vm_compute. reflexivity. Qed.
